(* ===== verification/_CoqProject ===== *)
-Q . S2P
Prelude.v
Lists.v
Bytes.v
Tier.v
Policy.v
BlockManager.v
Plan.v
BatchScheduler.v
BatchAccounting.v
BatchStep.v
BatchProps.v
MetalLedger.v
MetalLedgerProps.v
MetalScheduler.v
MetalSchedulerProps.v
RadixTypes.v
RadixTree.v
RadixLookup.v
RadixLookupProps.v
RadixInsert.v
RadixInsertProps.v
RadixEvict.v
RadixEvictTree.v
RadixEvictProps.v
RadixMeta.v
RadixSparse.v
RadixMetaProps.v
RadixExamples.v
HostArena.v
HostPool.v
FileSystem.v
NativeFiles.v
KvIo.v
DiskStore.v
DiskWire.v
DiskStoreProps.v
DiskScan.v
SharedFs.v
DiskFrame.v
CoordinatorControl.v
Fingerprint.v
Readmission.v
SessionSlots.v
CoordinatorQueue.v
Coordinator.v
CoordinatorProps.v
CoordinatorStore.v
SchedulerConfig.v
Submission.v
TokenCoordinator.v
KvFormat.v
PagedKv.v
PagedKvInv.v
PagedKvCow.v
PagedKvProps.v
PagedKvHost.v
PageBudget.v
PrefillPlanProps.v
Utf8.v
StopText.v
Tokenizer.v
EmitStream.v
EmitServing.v
EmitAnswer.v
Speculative.v
WaitingQueue.v
Admission.v
AdmissionProps.v
PageCache.v
PageCacheProps.v
PageCacheExamples.v
AdmissionExamples.v
VisibleText.v
VisibleTextProps.v
Chat.v
ChatProps.v
ChatAnswers.v
ParallelLayout.v
Experts.v
