(* ===== verification/Prelude.v ===== *)
(** * ARLE serving core: a verification development

    ARLE is an LLM serving engine. This library models the part of it that
    decides, without touching a GPU, which request runs when, which memory
    blocks it gets, and which prefixes of past prompts stay cached, and proves
    what that part guarantees and where it falls short.

    ** The program's parts, and the files that model them

    - Data types: [infer/src/types.rs] and [infer/src/kv_tier/] ([tier.rs],
      [chunk.rs], [lookup.rs]) are [Tier]. A block lives on one of four tiers;
      an entry of the cache is ready, pending or being evicted.
    - Policies: [infer/src/scheduler/policy.rs] is [Policy]. The traits for
      admission, chunking and eviction are type classes, the shipped policies
      their instances; [ProtectsPinned] is what the eviction policies promise
      the cache.
    - Block manager: [infer/src/block_manager.rs] is [BlockManager], a pool of
      reference-counted GPU and CPU blocks with free lists.
    - Batching scheduler: [infer/src/scheduler/plan.rs] is [Plan], and
      [infer/src/scheduler/batch.rs] is [BatchScheduler]. [BatchAccounting]
      holds the invariant (blocks held and free add up) and its preservation by
      the small operations, [BatchStep] by the scheduling step,
      and [BatchProps] the transition system over the public calls with its
      properties. A request waits, is prefilled chunk by chunk, runs, and is
      finished or preempted back to the queue; it holds blocks of the block
      manager from its first chunk on.
    - Radix prefix cache: [infer/src/prefix_cache.rs], a compressed trie over
      token sequences, stored as a table of nodes linked by index.
      [RadixTypes] has the nodes, the table and the edge arithmetic,
      [RadixLookup] the walks that find and pin a prefix, [RadixInsert] the
      insertion, [RadixEvict] eviction and garbage collection, [RadixMeta]
      snapshots, reconciliation, statistics and metadata, [RadixSparse] the
      sparse draft views. [RadixTree] defines the abstraction: [at_path] relates
      a node to the tokens on its path, [cached] is the finite map from prefixes
      to blocks the tree stands for, [wf] the invariant. [RadixInsert]
      and [RadixEvictTree] relate the tree surgery to that map, the [Props]
      files state the theorems, [RadixExamples] applies them to a concrete
      cache and has the runs that go wrong.
    - Host memory: the sub-allocator of [crates/kv-native-sys/src/lib.rs] is
      [HostArena], the pool over it, [infer/src/kv_tier/host_pool.rs], is
      [HostPool]. The invariant is a tiling: live and free regions cover what
      is below the bump pointer exactly once.
    - Metal host side: the slot ledger of [infer/src/backend/metal/kv_pool.rs]
      is [MetalLedger]; [MetalLedgerProps] has the abstract pool of held slots it
      implements, the simulation and the refinement over all clients that obey
      it. The request scheduler of
      [infer/src/backend/metal/scheduler.rs] is [MetalScheduler], its invariant,
      reachable states and properties [MetalSchedulerProps].
    - Files: [FileSystem] is the part of [std::path] and [std::fs] the stores
      use, a finite map of files with a set of directories. [NativeFiles] is the
      file engine and write-ahead log of [crates/kv-native-sys/src/lib.rs] with
      their properties.
    - Slower tiers: [KvIo] has the payloads and requests of
      [infer/src/kv_tier/io.rs] and the trait [KVBackend] as a class.
      [DiskStore] is [kv_tier/transport/disk.rs]; postcard is the class
      [Postcard], its laws [PostcardLaws], and [DiskWire] an instance of both
      after its published format. [DiskStoreProps] has what a put, a get and a
      delete promise, [DiskScan] the two scans, [DiskFrame] what a put leaves
      alone and what its success means. [SharedFs] is
      [kv_tier/transport/shared_fs.rs] and the class [ClusterSharedBackend] the
      coordinator is written against, with its contract; [DiskFrame] also shows
      that no store panics ([BackendTotal]).
    - Tier coordinator: [CoordinatorControl] has the types, events and counters
      of [kv_tier/coordinator/types.rs], [events.rs] and [control.rs].
      [CoordinatorQueue] is the command queue of [builder.rs] as a transition
      system of atomic steps of clients and worker. [Coordinator] is
      [kv_tier/coordinator.rs], the handlers over a world of host pools, disk
      store, backend and event channel; what other threads do while a handler
      runs is a schedule of moments the theorems quantify over.
      [CoordinatorProps] relates the pools before and after by the regions held
      and with [CoordinatorStore] proves the handlers right and runs them.
      [Readmission] is [kv_tier/readmission.rs], the plans that make the fetch
      requests.
    - Configuration and submission: [infer/src/scheduler/types.rs] is
      [SchedulerConfig] (defaults, envelope, validation, length contract),
      [Submission] (the handle shared by HTTP threads, as a transition system
      of single atomic accesses) and [TokenCoordinator] (agreement of ranks on
      tokens).
    - Paged KV pool of the CUDA backend: [KvFormat] has the storage formats and
      byte budgets of [crates/cuda-kernels/src/kv_types.rs] and [paged_kv.rs],
      the buffers and the page transfer kernel, [PagedKv] the pool of
      [paged_kv.rs]: page tables, two counters per page, copy on write.
      [PagedKvInv] is the accounting invariant, [PagedKvCow] its preservation
      and what an append does, [PagedKvProps] the transition system with its
      properties, [PrefillPlanProps] the runs. [PagedKvHost] has the copies of
      pages to and from host memory and their round trip.
    - CUDA prefill planning: [PageBudget] is [scheduler/cuda/budget.rs], the
      selection of prefill rows of [execution.rs] and
      [prepare_paged_prefill_batch] of [model.rs]; [PrefillPlanProps] shows that
      the budget is what the pool needs and composes planning and preparing;
      [PageCacheProps] puts the reclaiming of cached pages between the two.
    - CUDA admission: [SessionSlots] is [scheduler/cuda/core/session_slots.rs],
      the blocks kept for the next turn of a session; [WaitingQueue] is
      [runtime/helpers.rs] and the intake of [runtime/admission.rs] and
      [runtime/fetch.rs]; [Admission] is the rest of [runtime/admission.rs] up
      to the start of a request, [assign_slots] of [runtime/scheduler_loop.rs]
      and what [request.rs] and [cleanup] give back. An admission pass looks
      every waiting request up in the session slots and the prefix cache, holds
      some back by policy, gives the others slots within the page budget and
      defers what does not fit. [RadixLookupProps] follows the references of the tree
      through it, [AdmissionProps] has its properties, [AdmissionExamples] the
      runs.
    - Prefix cache over the pool: [Fingerprint] is the content hash of
      [infer/src/types.rs] and the chain over the blocks of a prompt.
      [PageCache] is the part of [scheduler/cuda/core.rs] that keeps the pages
      of finished prompts, with its helpers: it puts the tree, the pool, the
      host pool, the session slots and the write-back client together in one
      state and has publication, attachment, demotion, eviction, allocation
      with reclamation, write-back, promotion ([runtime/admission.rs]) and the
      store events ([runtime/fetch.rs]) as methods over it. [PageCacheProps]
      breaks every method into elementary steps with ghost state and proves
      what the cache promises; [PageCacheExamples] has the runs.
    - Chat protocol: [Utf8] is the part of [str] the code uses, [VisibleText]
      the streaming filter and [Chat] the prompts and the parser of
      [crates/chat/src/protocol.rs]. [VisibleTextProps] compares the filter
      with a scanner of the whole answer; [ChatProps] is about prompts,
      [ChatAnswers] about answers.
    - Answers: [StopText] is the guard that keeps stop sequences out of a stream
      ([backend/runtime.rs]) and the truncation of [server_engine/stream.rs].
      [Tokenizer] is [infer/src/tokenizer.rs] over the tokenizer library.
      [EmitStream] has the stream of one request and the worker thread that
      sends its text ([scheduler/cuda/request.rs], [core/emit_worker.rs]);
      [EmitServing] the scheduler side (dispatch, the gate of requests with stop
      sequences, finishing, committing, preemption) and the system of both over
      their two queues as a step relation; [EmitAnswer] its invariant, what it
      says to the client, and runs.
    - Speculation: [Speculative] is the greedy verifier and acceptance tracker
      of [infer/src/speculative.rs], the draft states of [speculative/cuda.rs]
      and the batches of [scheduler/cuda/spec_path.rs], which commit by the
      [commit_tokens] of [EmitServing].
    - Distribution: [ParallelLayout] is [infer/src/tensor_parallel.rs] and
      [distributed/parallel_state.rs]; [Experts] is
      [distributed/expert_state.rs], the dispatch of [group_coordinator.rs] and
      [pipeline_state.rs].

    [Lists] is shared: multisets, sorting and minima, and the monad of methods
    that change a state and may return an error, with the rules to run them.

    ** How the code is rendered

    A Rust method becomes a function that takes the state last and returns the
    new state with the result. Code that can panic, index out of range or loop
    returns [res]: [Done], [Panics] or [OutOfFuel]. Error values are
    constructors of a result type ([alloc_result], [io_result], [result],
    [validation]); the newer components use [eff S E A], a method on [S] that
    returns an [A] or an error in [E] and keeps the changes made before it.
    Counters are [N] at their width with wrapping or saturation
    written out; lengths and indices of vectors are [nat]. Floating point is
    the executable [spec_float]. A [HashMap] is a [gmap]; the source iterates
    over one only to sum, to test all or any, or to collect children whose
    order does not matter, except that the order of blocks collected from the
    children of a node is the map's here and unspecified there.

    Loops that are not structural carry fuel: the walks of the cache are given
    one more than the number of tokens, each turn consuming a token on a
    well-formed cache; the descents into subtrees one more than the number of
    nodes; the eviction loop one more than the number of victims; the garbage
    collector one more than the number of nodes, each pass but the last finding
    a node; preemption one more than the number of running requests; the
    search for a free id of a host block one more than the ids in use; the
    rounds of demotion one more than the pages wanted; the arena's rewind one more than the free list; the decoder of the write-ahead
    log, the parser of an answer and the streaming filter one more than the
    bytes; trimming the bytes. The theorems prove the result
    [Done], so the fuel is enough.

    Debug assertions are not modelled: the release build has none. A trait
    object is an instance of its class. Tracing and log output is left out.
    What the program takes from outside is an argument: the kernel's [mmap],
    the known fingerprints of a reconciliation, the temporary directory, which
    calls the CUDA driver refuses ([Driver]), the hash of fingerprints
    ([Blake3], without laws but its length), [serde_json] ([SerdeJson]), the
    tokenizer library ([HfTokenizer]; [TokenizerLaws]: how tokens that stand for
    whole characters decode), the target and the draft model ([TargetLm], [DraftLm];
    [DraftLmLaws]: a state is the tokens it was fed), and the arithmetic of
    [f32] ([F32], without laws). Text is a list of bytes;
    indexing a string off a character boundary panics.

    ** What the theorems show

    - Blocks: allocation, release and swapping are exact, errors included
      ([BlockManager]); over all runs of the scheduler no block is leaked or
      handed out twice ([BatchProps.blocks_conserved]).
    - Scheduling: one step terminates, never panics, and what it plans is fixed
      by the state, when it plans a prefill included; preemption terminates,
      takes the newest requests, no more than necessary, and makes room.
    - Cache: lookup finds exactly the longest cached prefix and pins it;
      insertion is a map update; what was inserted is found; releasing undoes a
      lookup; eviction, by recency or by any policy, removes exactly the blocks
      it returns, which are unreferenced, any number of times in a row (it may
      list a free slot twice, which later insertions do not survive); the read-only and the pinning
      classification agree; snapshots, renaming and metadata updates do what
      they say.
    - Host memory: live regions never overlap, bytes written are read back and
      disturb no other region, nothing fragments for good.
    - Metal: the ledger never panics for a client that obeys its ownership
      rules and is simulated by the abstract pool; eviction takes only what no
      request holds; one tick of the scheduler is its specification, and its
      data is well formed in every reachable state.
    - Files: keys stay below the root; what is put is got, damaged files are
      never returned, a delete is exact and idempotent, both scans find exactly
      the blocks a get returns; a log cut anywhere replays as a prefix or is
      refused.
    - Coordinator: while its events are received, a fetch completes with every
      block staged or leaves every pool as it was, and is answered once; a
      completed store can be read back;
      what is stored and fetched comes back with the same bytes; the queue
      counters account for every submission under every interleaving; a
      cancellation takes effect; a plan asks for exactly its staged blocks.
    - Configuration: resolving the envelope keeps a configuration valid; the
      length contract leaves room for an answer; scores order candidates up to
      the precision of the float.
    - Concurrency: the queue bound holds under every interleaving of submitting
      threads; ranks never continue with different tokens.
    - Paged pool: pages are conserved over all runs; an append is private and
      changes nothing anybody else sees, even after errors; what a step plans
      against free pages the pool can do, and what it plans against pages still
      to be evicted it can do if these come free; a batch is prepared whole,
      declined or refused by its shape and its pages alone.
    - Admission: a plan uses what was found in one way, and which way is decided
      by what was found; a pass admits or keeps every request, in different free
      slots and in order, and leaves the tree with exactly the references of
      the requests that use their blocks; these are given back at their end, but
      for the pins of blocks that were pending;
      the references of session slots are exact, and eviction under pressure
      takes the least recently used of the idle ones.
    - Prefix cache over the pool: in all runs of the operations over it, a page
      that a cached block names is not free and is retained, and a block keeps
      its pages and what is in them until it is dropped or recorded anew; a finished prompt is found and attached with its
      pages by the next request; copies to the host and back are exact, so a
      demoted block comes back; equal fingerprints mean equal prefixes, unless
      two of the contents hashed on the way collide.
    - Chat: the stream does not depend on the chunks and holds back little; on
      answers of plain text without tags, closed calls and closed thoughts
      without calls it agrees with the parser, and a turn of such content whose
      payloads do not contain the closing tag parses back; spans are the turns; a prompt is a prefix of the next one.
    - Answers: as long as tokens stand for whole characters, in whatever order
      scheduler and worker take their steps (with stop sequences: as long as no
      decode overtakes the gate), the client of a request that is not preempted
      has the beginning of its answer at every moment, and the whole of it, once
      and with the right count, at the end; the worker does not panic and the
      gate does not get stuck; the chunks of a backend do not matter to the guard;
      incremental decoding is decoding.
    - Speculation: a speculative step takes every request of a batch a number of
      greedy steps on, whatever was drafted; the draft model follows the texts
      when no request fails to draft; the tracker is a window.
    - Distribution: shards and experts tile, every rank group is what the
      coordinates say, and expert dispatch does not depend on the number of
      ranks.
    - Shortcomings, each as a theorem: the collector reclaims free slots again
      and a later insertion is lost; insertion and lookup mistreat tombstones
      left by a reconciliation; reclaimed slots keep their identity; a split
      leaks a reference; tier-restricted eviction orphans blocks of other
      tiers; finishing a queued request leaks its blocks; a prefill can take
      the memory ensured for a decode row; the recency score forgets the order
      beyond [2^24] ticks; an append to a torn log is acknowledged and lost; a
      submission is accounted for after it was sent, which wraps a counter and
      keeps a finished ticket live; a completion that cannot be sent leaks its
      regions; a refused page copy and a failed attach lose pages; the stream
      and the parser disagree on open blocks; a repeated route takes the first
      weight; a character split over tokens is lost, a preempted answer is
      repeated, text can follow the end of an answer and an answer can exceed
      its limit when a decode overtakes the gate; a plain decode leaves the
      draft model behind, as does a request of the batch that fails to draft; a
      pending block that a lookup meets stays pinned; pages are planned with that
      an eviction does not free; a session's blocks are attached to any prompt of the
      session, holds of session slots are released twice, forgotten or kept,
      and deferred requests change their order; a cached prompt that is
      published again keeps its pages for ever, as does one published under
      other ids; eviction from the host gives no memory back; a failed
      write-back leaves a block pointing at memory that is reused.

    ** What is not modelled

    GPU and Metal kernels, models, weights and operators, HTTP and JSON, network
    transports, the training crates, the command line and the bindings:
    numerical code, input and output, or code outside the repository.
    Symbolic links, permissions and full disks are outside the model of files;
    syncing has no effect a running process sees, so durability across a power
    loss is not claimed. While a handler of the coordinator runs, the host pools
    have no other user.
    The JSON of a snapshot is serde's; a snapshot is the record it encodes. The
    hash behind the fingerprints is a parameter.

    The emission of answers is modelled for one request at a time, without
    client disconnects, errors of the model and log probabilities; of
    speculative decoding the sampling with probabilities and the sparse
    self-drafting path are left out. Of the paged pool the decode metadata and the
    quantising migrations are left out; of the distributed layer the
    environment and the collectives.

    Of the CUDA scheduler the launch and readback of batches, starting an
    admitted request in its slot and submitting prefetches are left out: they
    drive the device and the model. That kernels leave retained pages alone, that
    an attached prefix covers its tokens, and that the holds of a page do not
    overflow their 32 bits are hypotheses of the theorem about the prefix cache.
    The Metal runtime beyond its scheduler and ledger, metrics, and the
    memory-mapped and shared-memory files of the native engine are left out, too.

    This file holds what all others share: outcomes, vectors, machine integers,
    rounding to blocks, floating point, and their lemmas. *)

From stdpp Require Export base numbers list gmap strings.
From Stdlib Require Export Floats.SpecFloat.

Set Default Goal Selector "!".

(** ** Outcomes

    Rust code that indexes, slices or unwraps can panic, and a loop or a
    recursion whose measure the data does not guarantee can run for ever.
    [res] keeps the two apart from a returned value. *)
Inductive res (A : Type) : Type :=
  | Done (a : A)
  | Panics
  | OutOfFuel.
Arguments Done {A} _.
Arguments Panics {A}.
Arguments OutOfFuel {A}.

#[export] Instance res_ret : MRet res := @Done.
#[export] Instance res_bind : MBind res := fun A B f m =>
  match m with Done a => f a | Panics => Panics | OutOfFuel => OutOfFuel end.
#[export] Instance res_fmap : FMap res := fun A B f m =>
  match m with Done a => Done (f a) | Panics => Panics | OutOfFuel => OutOfFuel end.

#[export] Instance res_eq_dec {A} `{EqDecision A} : EqDecision (res A).
Proof. solve_decision. Defined.

Definition is_Done {A} (m : res A) : Prop := exists a, m = Done a.

(** [expect o]: [Option::unwrap] / [expect]. *)
Definition expect {A} (o : option A) : res A :=
  match o with Some a => Done a | None => Panics end.

(** [l[i]] on a slice or a [Vec]. *)
Definition index {A} (l : list A) (i : nat) : res A := expect (l !! i).

(** [&l[a..b]]. *)
Definition slice {A} (l : list A) (a b : nat) : res (list A) :=
  if bool_decide (a <= b /\ b <= length l) then Done (take (b - a) (drop a l)) else Panics.

(** [for x in l { b = f(b, x) }]. *)
Fixpoint fold_res {A B} (f : B -> A -> res B) (l : list A) (b : B) : res B :=
  match l with
  | [] => Done b
  | x :: l' => b' ← f b x; fold_res f l' b'
  end.

Section res_lemmas.
Context {A B : Type}.
Implicit Types (m : res A) (k : A -> res B).

Lemma res_bind_Done m k b : m ≫= k = Done b <-> exists a, m = Done a /\ k a = Done b.
Proof.
  destruct m; cbn; (split; [intros; try discriminate; eauto|intros (? & ? & ?)]); congruence.
Qed.

Lemma res_fmap_Done (f : A -> B) m b : f <$> m = Done b <-> exists a, m = Done a /\ b = f a.
Proof.
  destruct m; cbn; (split; [intros [=]; eauto|intros (? & [=] & ?)]); congruence.
Qed.

Lemma expect_Done (o : option A) a : expect o = Done a <-> o = Some a.
Proof. destruct o; cbn; split; congruence. Qed.

Lemma expect_Some (o : option A) a : o = Some a -> expect o = Done a.
Proof. by intros ->. Qed.

Lemma index_Done (l : list A) i a : index l i = Done a <-> l !! i = Some a.
Proof. apply expect_Done. Qed.

Lemma index_Some (l : list A) i a : l !! i = Some a -> index l i = Done a.
Proof. apply index_Done. Qed.

Lemma slice_Done (l : list A) a b :
  a <= b -> b <= length l -> slice l a b = Done (take (b - a) (drop a l)).
Proof. intros. unfold slice. by rewrite bool_decide_eq_true_2. Qed.

Lemma slice_inv (l : list A) a b s :
  slice l a b = Done s -> a <= b /\ b <= length l /\ s = take (b - a) (drop a l).
Proof. unfold slice. case_bool_decide as Hb; [|done]. destruct Hb. by intros [= <-]. Qed.

Lemma fold_res_app (f : B -> A -> res B) l1 l2 b :
  fold_res f (l1 ++ l2) b = (fold_res f l1 b ≫= fold_res f l2).
Proof.
  revert b. induction l1 as [|x l1 IH]; intros b; cbn; [done|].
  destruct (f b x); cbn; auto.
Qed.

(** Loop rule: an invariant indexed by what the loop has consumed. *)
Lemma fold_res_inv (f : B -> A -> res B) (P : list A -> B -> Prop) l b :
  P [] b ->
  (forall done x todo b, l = done ++ x :: todo -> P done b ->
     exists b', f b x = Done b' /\ P (done ++ [x]) b') ->
  exists b', fold_res f l b = Done b' /\ P l b'.
Proof.
  intros H0 Hstep.
  assert (forall todo done b, l = done ++ todo -> P done b ->
    exists b', fold_res f todo b = Done b' /\ P l b') as Hgen.
  { induction todo as [|x todo IH]; intros done b' Hl HP; cbn.
    - rewrite app_nil_r in Hl. subst. eauto.
    - destruct (Hstep done x todo b' Hl HP) as (b'' & -> & HP'). cbn.
      apply (IH (done ++ [x])); [|done]. by rewrite <-app_assoc. }
  by apply (Hgen l []).
Qed.
End res_lemmas.

(** Invert every monadic equation of the context, and rewrite with the ones
    whose outcome is known. *)
Ltac res_inv :=
  repeat match goal with
  | H : (_ ≫= _) = Done _ |- _ => apply res_bind_Done in H as (? & ? & ?)
  | H : (_ <$> _) = Done _ |- _ => apply res_fmap_Done in H as (? & ? & ?)
  | H : mret _ = Done _ |- _ => unfold mret, res_ret in H
  | H : index _ _ = Done _ |- _ => apply index_Done in H
  | H : expect _ = Done _ |- _ => apply expect_Done in H
  | H : slice _ _ _ = Done _ |- _ => apply slice_inv in H as (? & ? & ?)
  | H : Done _ = Done _ |- _ => injection H as H
  | H : Panics = Done _ |- _ => discriminate H
  | H : OutOfFuel = Done _ |- _ => discriminate H
  end; simplify_eq.

(** ** Vectors used as stacks: [Vec::pop] takes from the end. *)
Definition vec_pop {A} (l : list A) : option (A * list A) :=
  match last l with
  | Some x => Some (x, take (length l - 1) l)
  | None => None
  end.

Lemma vec_pop_Some {A} (l : list A) x l' : vec_pop l = Some (x, l') -> l = l' ++ [x].
Proof.
  unfold vec_pop. destruct (last l) as [y|] eqn:E; [|done]. intros [= -> <-].
  apply last_Some in E as [l0 ->]. rewrite length_app. cbn.
  replace (length l0 + 1 - 1) with (length l0) by lia.
  by rewrite take_app_length.
Qed.

Lemma vec_pop_None {A} (l : list A) : vec_pop l = None -> l = [].
Proof. unfold vec_pop. destruct (last l) eqn:E; [done|]. intros _. by apply last_None in E. Qed.

Lemma omap_pointwise {A B} (f g : A -> option B) (l : list A) : (forall x, f x = g x) -> omap f l = omap g l.
Proof. intros H. induction l as [|x l IH]; cbn; [done|]. by rewrite H, IH. Qed.

(** [Vec::swap_remove]: the last element takes the place of the removed one. *)
Definition swap_remove {A} (l : list A) (i : nat) : list A :=
  match last l with
  | Some x => take (length l - 1) (<[i := x]> l)
  | None => []
  end.

Lemma swap_remove_Permutation {A} (l : list A) i x : l !! i = Some x -> l ≡ₚ x :: swap_remove l i.
Proof.
  intros Hx. unfold swap_remove. destruct (last l) as [y|] eqn:E.
  2: { apply last_None in E as ->. done. }
  apply last_Some in E as [l0 ->]. rewrite length_app. cbn. rewrite Nat.add_sub.
  apply lookup_lt_Some in Hx as Hlt. rewrite length_app in Hlt. cbn in Hlt.
  destruct (decide (i = length l0)) as [->|Hi].
  - rewrite lookup_app_r, Nat.sub_diag in Hx by done. cbn in Hx. injection Hx as ->.
    rewrite insert_app_r_alt, Nat.sub_diag by done. cbn. rewrite take_app_length.
    symmetry. apply Permutation_cons_append.
  - rewrite lookup_app_l in Hx by lia. rewrite insert_app_l by lia.
    rewrite take_app_le, take_ge by (rewrite ?length_insert; lia).
    rewrite (delete_Permutation l0 i x Hx) at 1.
    rewrite (delete_Permutation (<[i := y]> l0) i y) by (apply list_lookup_insert_eq; lia).
    rewrite !delete_take_drop, take_insert_ge, drop_insert_lt by lia. cbn. rewrite <-Permutation_cons_append. apply perm_skip. done.
Qed.

(** ** Machine integers

    Counters are kept as [N] with their width written out; the release
    profile wraps. Lengths and indices ([usize]) are [nat]: they are bounded
    by the memory that holds the vectors. *)
Definition u32_max : N := 4294967295.
Definition u64_max : N := 18446744073709551615.
Definition u32_wrap (x : N) : N := (x mod 4294967296)%N.
Definition u64_wrap (x : N) : N := (x mod 18446744073709551616)%N.
Definition u32_add (x y : N) : N := u32_wrap (x + y).
Definition u64_add (x y : N) : N := u64_wrap (x + y).
Definition u32_saturating_add (x y : N) : N := N.min (x + y) u32_max.
Definition u64_saturating_add (x y : N) : N := N.min (x + y) u64_max.

Definition u64_checked_add (x y : N) : option N :=
  if (u64_max <? x + y)%N then None else Some (x + y)%N.

(** [n as u32] for a [usize]. *)
Definition u32_of_usize (n : nat) : N := u32_wrap (N.of_nat n).

(** [u32::try_from(n)]. *)
Definition u32_try_from (n : nat) : option N :=
  if bool_decide (N.of_nat n <= u32_max)%N then Some (N.of_nat n) else None.

(** [a - b] on [usize], which wraps in the release profile. *)
Definition usize_sub (a b : nat) : N :=
  if bool_decide (b <= a) then N.of_nat (a - b)
  else (18446744073709551616 + N.of_nat a - N.of_nat b)%N.

(** [n.div_ceil(d)] (panics at [d = 0] in the source; callers pass [d > 0]). *)
Definition div_ceil (n d : nat) : nat := (n + d - 1) / d.

Lemma u64_add_small x y : (x + y <= u64_max)%N -> u64_add x y = (x + y)%N.
Proof. unfold u64_add, u64_wrap, u64_max. intros. apply N.mod_small. lia. Qed.

Lemma u32_add_small x y : (x + y <= u32_max)%N -> u32_add x y = (x + y)%N.
Proof. unfold u32_add, u32_wrap, u32_max. intros. apply N.mod_small. lia. Qed.

Lemma div_ceil_spec n d : 0 < d -> n <= div_ceil n d * d < n + d.
Proof.
  intros Hd. unfold div_ceil.
  pose proof (Nat.div_mod_eq (n + d - 1) d). pose proof (Nat.mod_upper_bound (n + d - 1) d).
  nia.
Qed.

Lemma div_ceil_le n k d : 0 < d -> div_ceil n d <= k <-> n <= k * d.
Proof.
  intros Hd. pose proof (div_ceil_spec n d Hd) as [Hlo Hhi]. split; intros Hk.
  { etransitivity; [exact Hlo|]. by apply Nat.mul_le_mono_r. }
  apply Nat.lt_succ_r, (Nat.mul_lt_mono_pos_r d); lia.
Qed.

(** ** Block arithmetic shared by the KV components *)
Section block_arith.
Context (bs : nat) (Hbs : 0 < bs).

Lemma div_between q n : q * bs <= n -> n < (q + 1) * bs -> n / bs = q.
Proof using Hbs. intros. symmetry. apply (Nat.div_unique n bs q (n - q * bs)); nia. Qed.

Lemma div_bounds n : (n / bs) * bs <= n < (n / bs + 1) * bs.
Proof using Hbs.
  pose proof (Nat.div_mod_eq n bs). pose proof (Nat.mod_upper_bound n bs). nia.
Qed.

Lemma divide_iff n : (bs | n) <-> n = (n / bs) * bs.
Proof using Hbs.
  split.
  - intros [q ->]. by rewrite Nat.div_mul by lia.
  - intros ->. apply Nat.divide_factor_r.
Qed.

(** Strictly inside a block no length is a multiple of the block size. *)
Lemma not_aligned_inside p x : p < x -> x < (p / bs + 1) * bs -> ~ (bs | x).
Proof using Hbs.
  intros ?? [q ->]. pose proof (div_bounds p).
  assert (p / bs < q) by (apply (Nat.mul_lt_mono_pos_r bs); lia).
  assert (q < p / bs + 1) by (apply (Nat.mul_lt_mono_pos_r bs); lia). lia.
Qed.

Lemma div_inside p x : p <= x -> x < (p / bs + 1) * bs -> x / bs = p / bs.
Proof using Hbs. intros. pose proof (div_bounds p). apply div_between; lia. Qed.
End block_arith.

(** ** Binary floating point

    [f32] is IEEE binary32 and [f64] binary64, rounding to nearest even, on
    the Standard Library's executable [spec_float]. *)
Abbreviation f32 := spec_float.
Abbreviation f64 := spec_float.
Definition f32_add : f32 -> f32 -> f32 := SFadd 24 128.
Definition f32_mul : f32 -> f32 -> f32 := SFmul 24 128.
Definition f32_div : f32 -> f32 -> f32 := SFdiv 24 128.
Definition f32_zero : f32 := S754_zero false.
Definition f32_infinity : f32 := S754_infinity false.

(** [x as f32] for an unsigned integer, and the literal [m * 2^e]. *)
Definition f32_of_N (x : N) : f32 := binary_normalize 24 128 (Z.of_N x) 0 false.
Definition f32_lit (m e : Z) : f32 := binary_normalize 24 128 m e false.

(** The literal [num / den], rounded once, and the comparisons ([false] on a
    NaN). *)
Definition f32_ratio (num den : Z) : f32 := f32_div (f32_lit num 0) (f32_lit den 0).
Definition f64_lit (m e : Z) : f64 := binary_normalize 53 1024 m e false.
Definition f64_ratio (num den : Z) : f64 := SFdiv 53 1024 (f64_lit num 0) (f64_lit den 0).
Definition f64_of_N (x : N) : f64 := f64_lit (Z.of_N x) 0.

(** [x as usize] drops the fraction and saturates; for the products of
    non-negative numbers the code takes, [x.floor() as usize] is the same. *)
Definition floor_as_usize (x : f64) : N :=
  match x with
  | S754_finite false m e => N.min (Z.to_N (Z.shiftl (Zpos m) e)) u64_max
  | S754_infinity false => u64_max
  | _ => 0%N
  end.
Definition float_lt : spec_float -> spec_float -> bool := SFltb.
Definition float_le : spec_float -> spec_float -> bool := SFleb.

Definition is_finite (x : spec_float) : bool :=
  match x with S754_zero _ | S754_finite _ _ _ => true | _ => false end.

(** [f32::total_cmp] on the values the code compares with it (finite ones,
    where it orders by value and puts [-0.0] before [+0.0]). *)
Definition total_cmp (x y : spec_float) : comparison :=
  match x, y with
  | S754_zero true, S754_zero false => Lt
  | S754_zero false, S754_zero true => Gt
  | _, _ => match SFcompare x y with Some c => c | None => Eq end
  end.

(** Integers below [2^24] convert to [f32] exactly, so the conversion keeps
    their order. *)
Section f32_exact.
Open Scope Z_scope.

Lemma digits2_pos_bounds p :
  2 ^ (Zpos (digits2_pos p) - 1) <= Zpos p < 2 ^ Zpos (digits2_pos p).
Proof.
  induction p as [p IH|p IH|]; cbn [digits2_pos]; [| |by cbn];
    rewrite Pos2Z.inj_succ;
    replace (Z.succ (Zpos (digits2_pos p)) - 1) with (Z.succ (Zpos (digits2_pos p) - 1)) by lia;
    rewrite !Z.pow_succ_r by lia; lia.
Qed.

Lemma digits2_iter_xO p n : digits2_pos (Pos.iter xO p n) = (digits2_pos p + n)%positive.
Proof.
  induction n as [|n IH] using Pos.peano_ind; [cbn; lia|].
  rewrite Pos.iter_succ. cbn [digits2_pos]. rewrite IH. lia.
Qed.

Lemma iter_xO_Z p n : Zpos (Pos.iter xO p n) = Zpos p * 2 ^ Zpos n.
Proof.
  induction n as [|n IH] using Pos.peano_ind; [cbn; lia|].
  rewrite Pos.iter_succ, Pos2Z.inj_xO, IH, Pos2Z.inj_succ, Z.pow_succ_r by lia. lia.
Qed.

Lemma round_24_digits m e :
  digits2_pos m = 24%positive -> -149 <= e <= 104 ->
  binary_round_aux 24 128 false (Zpos m) e loc_Exact = S754_finite false m e.
Proof.
  intros Hd He.
  assert (shr_fexp 24 128 (Zpos m) e loc_Exact = (Build_shr_record (Zpos m) false false, e)) as Hs.
  { unfold shr_fexp, fexp, emin, Zdigits2. rewrite Hd.
    replace (Z.max (24 + e - 24) (3 - 128 - 24) - e) with 0 by lia. done. }
  unfold binary_round_aux. rewrite Hs. cbn [shr_m loc_of_shr_record round_nearest_even].
  rewrite Hs. cbn [shr_m]. by replace (e <=? 128 - 24) with true by lia.
Qed.

(** The mantissa and exponent of an exactly converted integer. *)
Lemma f32_of_pos_exact p :
  Zpos p < 2 ^ 24 ->
  exists m, f32_of_N (Npos p) = S754_finite false m (Zpos (digits2_pos p) - 24) /\
            Zpos m = Zpos p * 2 ^ (24 - Zpos (digits2_pos p)).
Proof.
  intros Hp. pose proof (digits2_pos_bounds p) as Hb.
  set (d := digits2_pos p) in *.
  assert (Zpos d <= 24) as Hd24.
  { destruct (Z.le_gt_cases (Zpos d) 24); [done|].
    assert (2 ^ 24 <= 2 ^ (Zpos d - 1)) by (apply Z.pow_le_mono_r; lia). lia. }
  unfold f32_of_N, binary_normalize, binary_round. cbn [Z.of_N].
  change (digits2_pos p) with d. unfold fexp, emin, shl_align.
  replace (Z.max (Zpos d + 0 - 24) (3 - 128 - 24)) with (Zpos d - 24) by lia.
  destruct (decide (Zpos d = 24)) as [E|E].
  - rewrite E. cbn [Z.sub Z.opp Z.add Z.pos_sub]. exists p. split; [|cbn; lia].
    apply round_24_digits; [change (digits2_pos p) with d; lia|lia].
  - destruct (Zpos d - 24 - 0) as [|q|q] eqn:Eq; [lia|lia|].
    exists (Pos.iter xO p q). split.
    + apply round_24_digits; [|lia]. rewrite digits2_iter_xO. change (digits2_pos p) with d. lia.
    + rewrite iter_xO_Z. do 2 f_equal. lia.
Qed.

Lemma f32_of_N_finite x : (x < 2 ^ 24)%N -> is_finite (f32_of_N x) = true.
Proof.
  destruct x as [|p]; [done|]. intros Hx. destruct (f32_of_pos_exact p) as (m & -> & _); [lia|done].
Qed.

Lemma f32_of_N_lt x y :
  (y < 2 ^ 24)%N -> (x < y)%N -> total_cmp (f32_of_N x) (f32_of_N y) = Lt.
Proof.
  intros Hy Hxy. destruct y as [|y]; [lia|].
  destruct (f32_of_pos_exact y) as (my & -> & Hmy); [lia|].
  destruct x as [|x]; [done|].
  destruct (f32_of_pos_exact x) as (mx & -> & Hmx); [lia|].
  unfold total_cmp, SFcompare.
  pose proof (digits2_pos_bounds x). pose proof (digits2_pos_bounds y).
  assert (Zpos (digits2_pos x) <= Zpos (digits2_pos y)) as Hle.
  { apply Z.le_ngt. intros Hlt.
    assert (2 ^ Zpos (digits2_pos y) <= 2 ^ (Zpos (digits2_pos x) - 1))
      by (apply Z.pow_le_mono_r; lia). lia. }
  destruct (Z.compare_spec (Zpos (digits2_pos x) - 24) (Zpos (digits2_pos y) - 24)) as [E|E|E];
    [|done|lia].
  assert (digits2_pos x = digits2_pos y) as Hd by lia. rewrite Hd in Hmx.
  change (Pos.compare_cont Eq mx my) with (Pos.compare mx my).
  assert (mx < my)%positive as Hm.
  { change (Zpos mx < Zpos my). rewrite Hmx, Hmy. apply Z.mul_lt_mono_pos_r; [|lia].
    apply Z.pow_pos_nonneg; [lia|].
    assert (Zpos (digits2_pos y) <= 24); [|lia].
    destruct (Z.le_gt_cases (Zpos (digits2_pos y)) 24); [done|].
    assert (2 ^ 24 <= 2 ^ (Zpos (digits2_pos y) - 1)) by (apply Z.pow_le_mono_r; lia). lia. }
  apply Pos.compare_lt_iff in Hm. by rewrite Hm.
Qed.
End f32_exact.

(** ** Automation *)
Create HintDb arle.
Create Rewrite HintDb arle.
#[export] Hint Resolve index_Some expect_Some slice_Done : arle.
#[export] Hint Resolve u64_add_small u32_add_small div_bounds : arle.
#[export] Hint Rewrite @length_app @length_take @length_drop @length_insert @length_reverse : arle.

Ltac arle := eauto with arle lia.
