(* ===== verification/Lists.v ===== *)
(** * Lists as multisets and stable sorting

    How often an element occurs in a list, and the stable insertion sort that
    stands for [sort_by] and [sort_by_key], with the lemmas the components
    share. *)


From Stdlib Require Export Sorted.
From S2P Require Import Prelude.

(** ** Occurrences *)
Definition occurrences {A} `{EqDecision A} (x : A) (l : list A) : nat := length (filter (eq x) l).
Arguments occurrences : simpl never.

Section occurrences_lemmas.
Context {A : Type} `{EqDecision A}.
Implicit Types (x y : A) (l : list A).

Lemma occurrences_cons x y l : occurrences x (y :: l) = (if decide (x = y) then 1 else 0) + occurrences x l.
Proof. unfold occurrences. rewrite filter_cons. by case_decide. Qed.

Lemma occurrences_app x l1 l2 : occurrences x (l1 ++ l2) = occurrences x l1 + occurrences x l2.
Proof. unfold occurrences. by rewrite filter_app, length_app. Qed.

#[export] Instance occurrences_perm x : Proper ((≡ₚ) ==> (=)) (occurrences x).
Proof. intros l1 l2 Hl. unfold occurrences. by rewrite Hl. Qed.

Lemma occurrences_notin x l : x ∉ l -> occurrences x l = 0.
Proof.
  induction l as [|y l IH]; [done|]. rewrite not_elem_of_cons, occurrences_cons. intros [? ?].
  rewrite decide_False by done. auto.
Qed.

Lemma occurrences_in x l : x ∈ l -> 1 <= occurrences x l.
Proof.
  induction l as [|y l IH]; [by intros ?%not_elem_of_nil|].
  rewrite elem_of_cons, occurrences_cons. case_decide; [lia|]. intros [?|Hl]; [done|]. apply IH in Hl. lia.
Qed.

Lemma occurrences_zero x l : occurrences x l = 0 <-> x ∉ l.
Proof. split; [|apply occurrences_notin]. intros H0 Hin%occurrences_in. lia. Qed.

Lemma occurrences_NoDup x l : NoDup l -> occurrences x l <= 1.
Proof.
  induction 1 as [|y l Hy Hl IH]; [unfold occurrences; cbn; lia|]. rewrite occurrences_cons. case_decide; [|lia].
  subst. rewrite occurrences_notin; [lia|done].
Qed.

Lemma occurrences_eq x l : NoDup l -> occurrences x l = if decide (x ∈ l) then 1 else 0.
Proof.
  intros Hnd. pose proof (occurrences_NoDup x l Hnd). case_decide as Hx.
  - pose proof (occurrences_in x l Hx). lia.
  - by apply occurrences_notin.
Qed.

Lemma occurrences_length x l : occurrences x l <= length l.
Proof. unfold occurrences. apply length_filter. Qed.
End occurrences_lemmas.

(** ** Sorting

    [sort_by] is a stable sort; [le a b] says [a] may stay before [b]. *)
Fixpoint insert_by {A} (le : A -> A -> bool) (x : A) (l : list A) : list A :=
  match l with
  | [] => [x]
  | y :: l' => if le x y then x :: l else y :: insert_by le x l'
  end.
Definition sort_by {A} (le : A -> A -> bool) (l : list A) : list A := foldr (insert_by le) [] l.

Section sorting_lemmas.
Context {A : Type}.
Implicit Types (le : A -> A -> bool) (x y : A) (l : list A).

Lemma insert_by_perm le x l : insert_by le x l ≡ₚ x :: l.
Proof.
  induction l as [|y l IH]; [done|]. cbn. destruct (le x y); [done|]. rewrite IH. apply Permutation_swap.
Qed.

Lemma sort_by_perm le l : sort_by le l ≡ₚ l.
Proof. induction l as [|x l IH]; [done|]. cbn. by rewrite insert_by_perm, IH. Qed.

Lemma StronglySorted_snoc (R : A -> A -> Prop) l x :
  StronglySorted R l -> (forall y, y ∈ l -> R y x) -> StronglySorted R (l ++ [x]).
Proof.
  induction 1 as [|y l Hl IH Hy]; intros Hx; cbn; [by repeat constructor|].
  constructor; [apply IH; set_solver|]. apply Forall_app. split; [done|].
  constructor; [apply Hx; set_solver|constructor].
Qed.

(** Sorting by a total preorder sorts. *)
Context (le : A -> A -> bool).
Hypothesis le_total : forall x y, le x y = true \/ le y x = true.
Hypothesis le_trans : forall x y z, le x y = true -> le y z = true -> le x z = true.

Lemma insert_by_sorted x l :
  StronglySorted (fun a b => le a b = true) l -> StronglySorted (fun a b => le a b = true) (insert_by le x l).
Proof using le_total le_trans.
  induction 1 as [|y l Hl IH Hy]; cbn; [by repeat constructor|]. rewrite Forall_forall in Hy.
  destruct (le x y) eqn:E.
  - constructor; [constructor; [done|by apply Forall_forall]|].
    constructor; [done|]. apply Forall_forall. eauto.
  - constructor; [done|]. apply Forall_forall. intros z. rewrite insert_by_perm, elem_of_cons.
    intros [->|Hz]; [|eauto]. destruct (le_total x y) as [?|?]; [congruence|done].
Qed.

Lemma sort_by_sorted l : StronglySorted (fun a b => le a b = true) (sort_by le l).
Proof using le_total le_trans. induction l as [|x l IH]; [constructor|]. by apply insert_by_sorted. Qed.
End sorting_lemmas.

(** Appending a key-sorted prefix: what is taken first is smallest. *)
Lemma StronglySorted_app_inv {A} (R : A -> A -> Prop) l1 l2 :
  StronglySorted R (l1 ++ l2) ->
  StronglySorted R l1 /\ StronglySorted R l2 /\ forall x y, x ∈ l1 -> y ∈ l2 -> R x y.
Proof.
  induction l1 as [|x l1 IH]; cbn; intros Hs; [split_and!; [constructor|done|set_solver]|].
  apply StronglySorted_inv in Hs as [Hs Hx]. destruct (IH Hs) as (? & ? & Hb).
  rewrite Forall_app, !Forall_forall in Hx. destruct Hx as [Hx1 Hx2].
  split_and!; [constructor; [done|by apply Forall_forall]|done|].
  intros a b [->|?]%elem_of_cons ?; eauto.
Qed.

(** ** [Iterator::min_by]: the first of the least elements. *)
Definition min_by {A} (cmp : A -> A -> comparison) (l : list A) : option A :=
  match l with
  | [] => None
  | x :: l => Some (foldl (fun best y => match cmp best y with Gt => y | _ => best end) x l)
  end.

Lemma min_by_None {A} (cmp : A -> A -> comparison) l : min_by cmp l = None <-> l = [].
Proof. by destruct l. Qed.

(** Under a total preorder the result is in the list and below all of it. *)
Lemma min_by_Some {A} (cmp : A -> A -> comparison) l x :
  (forall a b, cmp a b = Gt -> cmp b a <> Gt) ->
  (forall a b c, cmp a b <> Gt -> cmp b c <> Gt -> cmp a c <> Gt) ->
  (forall a, cmp a a <> Gt) ->
  min_by cmp l = Some x -> x ∈ l /\ forall y, y ∈ l -> cmp x y <> Gt.
Proof.
  intros Htotal Htrans Hrefl. destruct l as [|a l]; [done|]. cbn. intros [= <-].
  assert (forall seen b, b ∈ seen -> (forall y, y ∈ seen -> cmp b y <> Gt) ->
    let m := foldl (fun best y => match cmp best y with Gt => y | _ => best end) b l in
    m ∈ seen ++ l /\ forall y, y ∈ seen ++ l -> cmp m y <> Gt) as Hgen.
  2: { apply (Hgen [a] a); [set_solver|]. intros y ->%list_elem_of_singleton. apply Hrefl. }
  induction l as [|z l IH]; intros seen b Hb Hle; cbn.
  { rewrite app_nil_r. done. }
  replace (seen ++ z :: l) with ((seen ++ [z]) ++ l) by by rewrite <-app_assoc.
  assert (cmp b z <> Gt ->
    let m := foldl (fun best y => match cmp best y with Gt => y | _ => best end) b l in
    m ∈ (seen ++ [z]) ++ l /\ forall y, y ∈ (seen ++ [z]) ++ l -> cmp m y <> Gt) as Hkeep.
  { intros Hbz. apply IH; [set_solver|]. intros y [Hy| ->%list_elem_of_singleton]%elem_of_app; auto. }
  destruct (cmp b z) eqn:E; [by apply Hkeep|by apply Hkeep|].
  apply IH; [set_solver|]. intros y [Hy| ->%list_elem_of_singleton]%elem_of_app; eauto.
Qed.

(** ** Methods that change state and may fail

    A method [fn m(&mut self, ..) -> Result<A, E>] is an [eff S E A]: from the
    state it returns the new state and a value or an error, unless it panics.
    An early return by [?] keeps the changes made so far, as in the source. *)


Definition eff (S E A : Type) : Type := S -> res (S * (A + E)).

#[export] Instance eff_ret {S E} : MRet (eff S E) := fun A a s => Done (s, inl a).
#[export] Instance eff_bind {S E} : MBind (eff S E) := fun A B f m s =>
  match m s with
  | Done (s', inl a) => f a s'
  | Done (s', inr e) => Done (s', inr e)
  | Panics => Panics
  | OutOfFuel => OutOfFuel
  end.

Section eff.
Context {S E : Type}.

(** [return Err(e)], reading, and writing the state. *)
Definition throw {A} (e : E) : eff S E A := fun s => Done (s, inr e).
Definition gets {A} (f : S -> A) : eff S E A := fun s => Done (s, inl (f s)).
Definition modify (f : S -> S) : eff S E unit := fun s => Done (f s, inl tt).

(** [r?] for a [Result], [unwrap] and indexing. *)
Definition of_sum {A} (r : A + E) : eff S E A := fun s => Done (s, r).
Definition of_res {A} (r : res A) : eff S E A := fun s => a ← r; Done (s, inl a).

(** [for x in l { body(x)? }]. *)
Fixpoint for_each {X} (l : list X) (body : X -> eff S E unit) : eff S E unit :=
  match l with
  | [] => mret tt
  | x :: l' => body x ;; for_each l' body
  end.

(** Total correctness: from a state in [P] the method does not panic, ends in
    [Q] with a value or in [R] with an error. *)
Definition triple {A} (P : S -> Prop) (m : eff S E A) (Q : A -> S -> Prop) (R : E -> S -> Prop) : Prop :=
  forall s, P s -> exists s' r, m s = Done (s', r) /\
    match r with inl a => Q a s' | inr e => R e s' end.

Section run.
Context {A B : Type}.
Implicit Types (m : eff S E A) (k : A -> eff S E B).

Lemma run_ret (a : A) s : (mret a : eff S E A) s = Done (s, inl a).
Proof. done. Qed.

Lemma run_bind_ok m k s s' a : m s = Done (s', inl a) -> (m ≫= k) s = k a s'.
Proof. intros Hm. unfold mbind, eff_bind. by rewrite Hm. Qed.

Lemma run_bind_err m k s s' e : m s = Done (s', inr e) -> (m ≫= k) s = Done (s', inr e).
Proof. intros Hm. unfold mbind, eff_bind. by rewrite Hm. Qed.

Lemma run_gets (f : S -> A) k s : (gets f ≫= k) s = k (f s) s.
Proof. done. Qed.

Lemma run_of_res (r : res A) k s a : r = Done a -> (of_res r ≫= k) s = k a s.
Proof. by intros ->. Qed.

Lemma run_bind_inv m k s s' r :
  (m ≫= k) s = Done (s', r) ->
  (exists s1 a, m s = Done (s1, inl a) /\ k a s1 = Done (s', r)) \/
  (exists e, m s = Done (s', inr e) /\ r = inr e).
Proof.
  unfold mbind, eff_bind. destruct (m s) as [[s1 [a|e]]| |]; intros H; [left|right|done|done]; eauto.
  exists e. by simplify_eq.
Qed.
End run.

(** A loop that checks each element and changes nothing. *)
Lemma for_each_check {X} (l : list X) (body : X -> eff S E unit) s :
  (forall x, x ∈ l -> body x s = Done (s, inl tt)) -> for_each l body s = Done (s, inl tt).
Proof.
  induction l as [|x l IH]; intros Hb; [done|]. cbn.
  rewrite (run_bind_ok _ _ s s tt) by (apply Hb; set_solver). apply IH. set_solver.
Qed.

(** ... and stops at the first one that fails. *)
Lemma for_each_fail {X} (l1 l2 : list X) x (body : X -> eff S E unit) s e :
  (forall y, y ∈ l1 -> body y s = Done (s, inl tt)) -> body x s = Done (s, inr e) ->
  for_each (l1 ++ x :: l2) body s = Done (s, inr e).
Proof.
  induction l1 as [|y l1 IH]; intros Hb Hx; cbn.
  - by apply run_bind_err.
  - rewrite (run_bind_ok _ _ s s tt) by (apply Hb; set_solver). apply IH; [set_solver|done].
Qed.

(** Loop rule: an invariant indexed by what the loop has consumed. *)
Lemma for_each_inv {X} (I : list X -> S -> Prop) (l : list X) (body : X -> eff S E unit) s :
  I [] s ->
  (forall done x todo s, l = done ++ x :: todo -> I done s ->
     exists s', body x s = Done (s', inl tt) /\ I (done ++ [x]) s') ->
  exists s', for_each l body s = Done (s', inl tt) /\ I l s'.
Proof.
  intros H0 Hstep.
  assert (forall todo done s, l = done ++ todo -> I done s ->
    exists s', for_each todo body s = Done (s', inl tt) /\ I l s') as Hgen.
  { induction todo as [|x todo IH]; intros done s' Hl HI; cbn.
    - rewrite app_nil_r in Hl. subst. eauto.
    - destruct (Hstep done x todo s' Hl HI) as (s1 & Hrun & HI').
      rewrite (run_bind_ok _ _ _ _ _ Hrun). apply (IH (done ++ [x])); [|done]. by rewrite <-app_assoc. }
  by apply (Hgen l []).
Qed.
End eff.

(** ** Methods that never panic *)
Definition total {S E A} (m : eff S E A) : Prop := forall s, exists s' r, m s = Done (s', r).

Create HintDb total discriminated.

Section total.
Context {S E : Type}.

Lemma total_ret {A} (a : A) : total (mret a : eff S E A).
Proof. intros s. by do 2 eexists. Qed.
Lemma total_throw {A} (e : E) : total (throw e : eff S E A).
Proof. intros s. by do 2 eexists. Qed.
Lemma total_gets {A} (f : S -> A) : total (gets f : eff S E A).
Proof. intros s. by do 2 eexists. Qed.
Lemma total_modify (f : S -> S) : total (modify f : eff S E unit).
Proof. intros s. by do 2 eexists. Qed.
Lemma total_of_sum {A} (r : A + E) : total (of_sum r : eff S E A).
Proof. intros s. by do 2 eexists. Qed.

Lemma total_bind {A B} (m : eff S E A) (k : A -> eff S E B) :
  total m -> (forall a, total (k a)) -> total (m ≫= k).
Proof.
  intros Hm Hk s. destruct (Hm s) as (s1 & [a|e] & Hrun).
  - rewrite (run_bind_ok _ _ _ _ _ Hrun). apply Hk.
  - rewrite (run_bind_err _ _ _ _ _ Hrun). by do 2 eexists.
Qed.
End total.

#[export] Hint Resolve total_ret total_throw total_gets total_modify total_of_sum total_bind : total.

(** Run the next operation of a sequence whose outcome is known. *)
Ltac run H := first [rewrite (run_bind_ok _ _ _ _ _ H) | rewrite (run_bind_err _ _ _ _ _ H)].

(** Unfold one primitive after another. *)
Ltac eff_cbn := unfold mbind, eff_bind, mret, eff_ret, gets, throw, modify, of_sum, of_res; cbn.
