(* ===== verification/Bytes.v ===== *)
(** * Bytes

    A byte is an [N] below 256. Little-endian integers ([to_le_bytes],
    [from_le_bytes]) and lower-case hexadecimal, with their round trips. *)

From Stdlib Require Import Ascii.
From S2P Require Import Prelude.

Definition is_byte (b : N) : Prop := (b < 256)%N.

(** ** Little-endian integers *)
Fixpoint to_le_bytes (width : nat) (n : N) : list N :=
  match width with
  | 0 => []
  | S width => (n mod 256)%N :: to_le_bytes width (n / 256)%N
  end.

Definition from_le_bytes (l : list N) : N := foldr (fun b acc => b + 256 * acc)%N 0%N l.

Lemma length_to_le_bytes width n : length (to_le_bytes width n) = width.
Proof. revert n. induction width as [|w IH]; intros n; cbn; [done|]. by rewrite IH. Qed.

Lemma to_le_bytes_bytes width n : Forall is_byte (to_le_bytes width n).
Proof. revert n. induction width as [|w IH]; intros n; cbn; constructor; [|done]. apply N.mod_lt. lia. Qed.

Lemma from_to_le_bytes width n : (n < 256 ^ N.of_nat width)%N -> from_le_bytes (to_le_bytes width n) = n.
Proof.
  revert n. induction width as [|w IH]; intros n Hn; cbn.
  { cbn in Hn. lia. }
  fold (from_le_bytes (to_le_bytes w (n / 256))). rewrite IH.
  - pose proof (N.div_mod n 256). lia.
  - rewrite Nat2N.inj_succ, N.pow_succ_r' in Hn. apply N.Div0.div_lt_upper_bound. lia.
Qed.

(** ** Hexadecimal *)
Definition HEX : string := "0123456789abcdef".

Definition hex_char (nibble : N) : ascii :=
  match String.get (N.to_nat nibble) HEX with Some c => c | None => Ascii.zero end.

Fixpoint hex_string (bytes : list N) (suffix : string) : string :=
  match bytes with
  | [] => suffix
  | b :: bytes =>
      String (hex_char (N.shiftr b 4)) (String (hex_char (N.land b 15)) (hex_string bytes suffix))
  end.

(** [hex_value]: digits and lower-case letters only. *)
Definition hex_value (c : ascii) : option N :=
  let n := N_of_ascii c in
  if bool_decide (48 <= n /\ n <= 57)%N then Some (n - 48)%N
  else if bool_decide (97 <= n /\ n <= 102)%N then Some (n - 97 + 10)%N
  else None.

Definition nibbles : list N := [0; 1; 2; 3; 4; 5; 6; 7; 8; 9; 10; 11; 12; 13; 14; 15]%N.

Lemma nibble_in n : (n < 16)%N -> n ∈ nibbles.
Proof. intros Hn. unfold nibbles. set_solver by lia. Qed.

Lemma hex_value_char n : (n < 16)%N -> hex_value (hex_char n) = Some n.
Proof.
  intros Hn%nibble_in.
  assert (Forall (fun n => hex_value (hex_char n) = Some n) nibbles) as Hall
    by (repeat (constructor; [vm_compute; reflexivity|]); constructor).
  rewrite Forall_forall in Hall. by apply Hall.
Qed.

Lemma byte_nibbles b : is_byte b ->
  (N.shiftr b 4 < 16)%N /\ (N.land b 15 < 16)%N /\ N.lor (N.shiftl (N.shiftr b 4) 4) (N.land b 15) = b.
Proof.
  unfold is_byte. intros Hb. change 15%N with (N.ones 4). rewrite N.land_ones, N.shiftr_div_pow2. change (2 ^ 4)%N with 16%N.
  split_and!; [apply N.Div0.div_lt_upper_bound; lia|apply N.mod_lt; lia|].
  rewrite N.shiftl_mul_pow2. change (2 ^ 4)%N with 16%N.
  pose proof (N.div_mod b 16) as Hd. rewrite <-N.lxor_lor, <-N.add_nocarry_lxor; [lia| |];
    apply N.bits_inj; intros i; rewrite N.land_spec, N.bits_0;
    (destruct (N.lt_ge_cases i 4) as [Hi|Hi];
     [change 16%N with (2 ^ 4)%N; rewrite N.mul_pow2_bits_low by done; done
     |change 16%N with (2 ^ 4)%N; rewrite N.mod_pow2_bits_high by done; apply andb_false_r]).
Qed.

(** Pairs of hexadecimal digits, as the inverse of [hex_string]. *)
Fixpoint unhex (s : string) : option (list N) :=
  match s with
  | EmptyString => Some []
  | String a (String b s) =>
      hi ← hex_value a; lo ← hex_value b; rest ← unhex s;
      Some (N.lor (N.shiftl hi 4) lo :: rest)
  | String _ EmptyString => None
  end.

Lemma unhex_hex bytes : Forall is_byte bytes -> unhex (hex_string bytes "") = Some bytes.
Proof.
  induction 1 as [|b bytes Hb _ IH]; [done|]. cbn. destruct (byte_nibbles b Hb) as (Hhi & Hlo & Hj).
  rewrite !hex_value_char by done. cbn. rewrite IH. cbn. by rewrite Hj.
Qed.

Lemma length_hex_string bytes suffix : String.length (hex_string bytes suffix) = 2 * length bytes + String.length suffix.
Proof. induction bytes as [|b bytes IH]; cbn; [done|]. lia. Qed.

(** ... and conversely: what [unhex] accepts is what [hex_string] prints. *)
Lemma hex_char_value c n : hex_value c = Some n -> (n < 16)%N /\ hex_char n = c.
Proof. destruct c as [[] [] [] [] [] [] [] []]; vm_compute; intros [= <-]; done. Qed.

Lemma join_nibbles hi lo : (hi < 16)%N -> (lo < 16)%N ->
  is_byte (N.lor (N.shiftl hi 4) lo) /\ N.shiftr (N.lor (N.shiftl hi 4) lo) 4 = hi /\
  N.land (N.lor (N.shiftl hi 4) lo) 15 = lo.
Proof.
  intros Hhi Hlo.
  assert (N.lor (N.shiftl hi 4) lo = hi * 16 + lo)%N as ->.
  { destruct (byte_nibbles (hi * 16 + lo)) as (_ & _ & Hj); [unfold is_byte; lia|].
    etransitivity; [|exact Hj]. f_equal.
    - f_equal. rewrite N.shiftr_div_pow2. change (2 ^ 4)%N with 16%N. rewrite N.div_add_l, (N.div_small lo) by lia. lia.
    - change 15%N with (N.ones 4). rewrite N.land_ones. change (2 ^ 4)%N with 16%N.
      rewrite N.add_comm, N.Div0.mod_add, N.mod_small; lia. }
  split_and!; [unfold is_byte; lia| |].
  - rewrite N.shiftr_div_pow2. change (2 ^ 4)%N with 16%N. rewrite N.div_add_l, (N.div_small lo) by lia. lia.
  - change 15%N with (N.ones 4). rewrite N.land_ones. change (2 ^ 4)%N with 16%N.
    rewrite N.add_comm, N.Div0.mod_add, N.mod_small; lia.
Qed.

Lemma hex_unhex_aux n : forall s bytes, String.length s <= n -> unhex s = Some bytes ->
  hex_string bytes "" = s /\ Forall is_byte bytes /\ String.length s = 2 * length bytes.
Proof.
  induction n as [|n IH]; intros s bytes Hn H.
  { destruct s; [|cbn in Hn; lia]. injection H as <-. split_and!; [done|constructor|done]. }
  destruct s as [|a [|b s]]; [|done|].
  { injection H as <-. split_and!; [done|constructor|done]. }
  cbn in H. destruct (hex_value a) as [hi|] eqn:Ea; [|done]. destruct (hex_value b) as [lo|] eqn:Eb; [|done].
  destruct (unhex s) as [rest|] eqn:Es; [|done]. cbn in H. injection H as <-.
  apply hex_char_value in Ea as [Hhi Ha], Eb as [Hlo Hb]. cbn in Hn.
  destruct (IH s rest) as (Hs & Hbytes & Hlen); [lia|done|]. destruct (join_nibbles hi lo Hhi Hlo) as (Hj & Hjh & Hjl).
  cbn. rewrite Hjh, Hjl, Ha, Hb, Hs, Hlen. split_and!; [done|by constructor|lia].
Qed.

Lemma hex_unhex s bytes : unhex s = Some bytes ->
  hex_string bytes "" = s /\ Forall is_byte bytes /\ String.length s = 2 * length bytes.
Proof. by apply (hex_unhex_aux (String.length s)). Qed.

Lemma hex_string_app bytes suffix : hex_string bytes suffix = (hex_string bytes "" +:+ suffix)%string.
Proof. induction bytes as [|b bytes IH]; [done|]. cbn. by rewrite IH. Qed.
