(* ===== verification/Tier.v ===== *)
(** * KV tiers: identifiers, locations, control-plane objects and lookup results

    Models [infer/src/types.rs] (identifiers), [infer/src/kv_tier/tier.rs],
    [kv_tier/chunk.rs] and [kv_tier/lookup.rs]. *)

From S2P Require Import Prelude.

(** ** Identifiers *)

(** [BlockId(u32)], [RequestId(u64)], token ids: machine integers. *)
Abbreviation BlockId := N.
Abbreviation RequestId := N.
Abbreviation Token := N.

(** [SessionId(Arc<str>)] is an opaque string. *)
Abbreviation SessionId := string.

(** [BlockFingerprint([u8; 16])]: the bytes, as a list. *)
Abbreviation BlockFingerprint := (list N).
Definition zero_fingerprint : BlockFingerprint := replicate 16 0%N.

Inductive InferenceMode := Prefill | Decode.

Inductive RequestEventKind :=
  | Enqueued | Requeued | PrefillStarted | DecodeStep | Evicted | Completed | Cancelled.

#[export] Instance InferenceMode_eq_dec : EqDecision InferenceMode.
Proof. solve_decision. Defined.
#[export] Instance RequestEventKind_eq_dec : EqDecision RequestEventKind.
Proof. solve_decision. Defined.

(** ** Tiers and locations *)
Inductive Tier := Gpu | HostPinned | Disk | Remote.

#[export] Instance Tier_eq_dec : EqDecision Tier.
Proof. solve_decision. Defined.

(** Distance from compute, the derived [Ord] of [Tier]. *)
Definition Tier_rank (t : Tier) : nat :=
  match t with Gpu => 0 | HostPinned => 1 | Disk => 2 | Remote => 3 end.

Inductive TransportId := Nixl | SharedFilesystem | Mooncake | Reserved.

#[export] Instance TransportId_eq_dec : EqDecision TransportId.
Proof. solve_decision. Defined.

Record RemoteBlockDesc := mkRemoteBlockDesc {
  transport : TransportId;
  payload : list N;
}.

#[export] Instance RemoteBlockDesc_eq_dec : EqDecision RemoteBlockDesc.
Proof. solve_decision. Defined.

Inductive BlockLocation :=
  | LocGpu (slot : N)
  | LocHostPinned (offset : N)
  | LocDisk (fingerprint : BlockFingerprint) (payload_len : N)
  | LocRemote (desc : RemoteBlockDesc).

#[export] Instance BlockLocation_eq_dec : EqDecision BlockLocation.
Proof. solve_decision. Defined.

(** [BlockLocation::tier]. *)
Definition tier (l : BlockLocation) : Tier :=
  match l with
  | LocGpu _ => Gpu
  | LocHostPinned _ => HostPinned
  | LocDisk _ _ => Disk
  | LocRemote _ => Remote
  end.

(** [matches!(self, BlockLocation::Remote { .. })]. *)
Definition is_remote (l : BlockLocation) : bool :=
  match l with LocRemote _ => true | _ => false end.

Definition is_host_pinned (l : option BlockLocation) : bool :=
  match l with Some (LocHostPinned _) => true | _ => false end.

(** ** Control-plane states *)
Inductive IndexEntryState := IReady | IPending | IEvicting.
Inductive RequestChunkState := CNew | CPlanned | CFetching | CReady | CConsumed.
Inductive StoreState := SIdle | SPending | SStoring | SStored | SFailed.

#[export] Instance IndexEntryState_eq_dec : EqDecision IndexEntryState.
Proof. solve_decision. Defined.
#[export] Instance RequestChunkState_eq_dec : EqDecision RequestChunkState.
Proof. solve_decision. Defined.
#[export] Instance StoreState_eq_dec : EqDecision StoreState.
Proof. solve_decision. Defined.

(** ** Spans *)
Record LayerRange := mkLayerRange { lr_start : N; lr_end : N }.
Record TokenRange := mkTokenRange { tr_start : N; tr_end : N }.

Definition LayerRange_new (s e : N) : res LayerRange :=
  if bool_decide (s <= e)%N then Done (mkLayerRange s e) else Panics.
Definition LayerRange_len (r : LayerRange) : N := (lr_end r - lr_start r)%N.
Definition LayerRange_is_empty (r : LayerRange) : bool := bool_decide (lr_start r = lr_end r).

Definition TokenRange_new (s e : N) : res TokenRange :=
  if bool_decide (s <= e)%N then Done (mkTokenRange s e) else Panics.
Definition TokenRange_len (r : TokenRange) : N := (tr_end r - tr_start r)%N.
Definition TokenRange_is_empty (r : TokenRange) : bool := bool_decide (tr_start r = tr_end r).

Record KVBlock := mkKVBlock {
  kb_block_id : BlockId;
  kb_layer_range : LayerRange;
  kb_token_range : TokenRange;
  kb_byte_len : N;
  kb_fingerprint : option BlockFingerprint;
}.

Definition KVBlock_new (b : BlockId) (lr : LayerRange) (tr : TokenRange) (len : N) : KVBlock :=
  mkKVBlock b lr tr len None.
Definition KVBlock_with_fingerprint (b : KVBlock) (fp : BlockFingerprint) : KVBlock :=
  mkKVBlock (kb_block_id b) (kb_layer_range b) (kb_token_range b) (kb_byte_len b) (Some fp).

Record KVSpan := mkKVSpan {
  ks_span_id : N;
  ks_prefix_fingerprint : option BlockFingerprint;
  ks_blocks : list KVBlock;
  ks_epoch : N;
}.

Definition KVSpan_new (id : N) (bs : list KVBlock) (epoch : N) : KVSpan := mkKVSpan id None bs epoch.

(** The sum of [u64] byte lengths, which wraps in the release profile. *)
Definition KVSpan_byte_len (s : KVSpan) : N :=
  foldl (fun acc b => u64_add acc (kb_byte_len b)) 0%N (ks_blocks s).

(** [None] when the span is empty, a panic when the first block starts after
    the last one ends ([TokenRange::new] asserts). *)
Definition KVSpan_token_range (s : KVSpan) : res (option TokenRange) :=
  match head (ks_blocks s), last (ks_blocks s) with
  | Some first, Some last =>
      r ← TokenRange_new (tr_start (kb_token_range first)) (tr_end (kb_token_range last));
      Done (Some r)
  | _, _ => Done None
  end.

Record KVHandle := mkKVHandle {
  kh_span_id : option N;
  kh_block_id : BlockId;
  kh_location : BlockLocation;
  kh_epoch : N;
  kh_byte_len : N;
}.

Definition KVHandle_with_location (h : KVHandle) (l : BlockLocation) : KVHandle :=
  mkKVHandle (kh_span_id h) (kh_block_id h) l (kh_epoch h) (kh_byte_len h).
Definition KVHandle_tier (h : KVHandle) : Tier := tier (kh_location h).

(** ** Lookup results *)
Inductive HitKind := ReadyOnGpu | StagingFromHost | StagingFromDisk | Miss.

#[export] Instance HitKind_eq_dec : EqDecision HitKind.
Proof. solve_decision. Defined.

Record LookupBlock := mkLookupBlock {
  lb_block_id : option BlockId;
  lb_hit_kind : HitKind;
}.

#[export] Instance LookupBlock_eq_dec : EqDecision LookupBlock.
Proof. solve_decision. Defined.

Record LookupOutcome := mkLookupOutcome {
  lo_matched_len : nat;
  lo_blocks : list LookupBlock;
  lo_recompute_advised : bool;
}.

#[export] Instance LookupOutcome_eq_dec : EqDecision LookupOutcome.
Proof. solve_decision. Defined.

(** The ids of the blocks a lookup reports. *)
Definition lookup_block_ids (o : LookupOutcome) : list BlockId := omap lb_block_id (lo_blocks o).

Record LookupHeuristics := mkLookupHeuristics {
  prefill_tokens_per_sec : f32;
  host_bandwidth_bytes_per_sec : f32;
  disk_bandwidth_bytes_per_sec : f32;
}.

(** 5_000.0, 25 GiB/s and 3 GiB/s. *)
Definition LookupHeuristics_default : LookupHeuristics :=
  mkLookupHeuristics (f32_lit 5000 0)
    (f32_mul (f32_mul (f32_mul (f32_lit 25 0) (f32_lit 1024 0)) (f32_lit 1024 0)) (f32_lit 1024 0))
    (f32_mul (f32_mul (f32_mul (f32_lit 3 0) (f32_lit 1024 0)) (f32_lit 1024 0)) (f32_lit 1024 0)).

(** [LookupHeuristics::advise_recompute]: fetching the staged bytes would take
    longer than recomputing the staged tokens. *)
Definition advise_recompute (h : LookupHeuristics) (k : HitKind)
    (staging_tokens : nat) (staging_bytes : N) : bool :=
  match k with
  | ReadyOnGpu | Miss => false
  | StagingFromHost | StagingFromDisk =>
      let bandwidth := match k with
        | StagingFromHost => host_bandwidth_bytes_per_sec h
        | _ => disk_bandwidth_bytes_per_sec h
        end in
      if bool_decide (staging_tokens = 0) || bool_decide (staging_bytes = 0%N)
         || SFleb (prefill_tokens_per_sec h) f32_zero || SFleb bandwidth f32_zero
      then false
      else
        let fetch_seconds := f32_div (f32_of_N staging_bytes) bandwidth in
        let recompute_seconds :=
          f32_div (f32_of_N (N.of_nat staging_tokens)) (prefill_tokens_per_sec h) in
        SFltb recompute_seconds fetch_seconds
  end.

(** ** Properties *)

(** Two unit tests of the module, evaluated. *)
Example default_heuristics_stage :
  advise_recompute LookupHeuristics_default StagingFromDisk 16 2097152 = false.
Proof. vm_compute. reflexivity. Qed.

Example fast_prefill_slow_disk :
  advise_recompute
    (mkLookupHeuristics (f32_lit 200000 0) (f32_lit (25 * 1024) 20) (f32_lit 50 20))
    StagingFromDisk 16 2097152 = true.
Proof. vm_compute. reflexivity. Qed.

Lemma advise_recompute_only_staged h k t b :
  advise_recompute h k t b = true -> k = StagingFromHost \/ k = StagingFromDisk.
Proof. destruct k; cbn; auto; discriminate. Qed.

(** A span whose blocks are contiguous has the token range from its first
    start to its last end, and never hits the range assertion. *)
Definition contiguous (l : list KVBlock) : Prop :=
  Forall (fun b => tr_start (kb_token_range b) <= tr_end (kb_token_range b))%N l /\
  forall i b b', l !! i = Some b -> l !! S i = Some b' ->
    tr_end (kb_token_range b) = tr_start (kb_token_range b').

Lemma contiguous_tail b l : contiguous (b :: l) -> contiguous l.
Proof.
  intros [H1 H2]. split; [by inversion H1|]. intros i x y Hx Hy. by apply (H2 (S i)).
Qed.

Lemma contiguous_start_le_end l first lst :
  contiguous l -> head l = Some first -> last l = Some lst ->
  (tr_start (kb_token_range first) <= tr_end (kb_token_range lst))%N.
Proof.
  revert first. induction l as [|b l IH]; intros first Hc Hh Hl; [done|].
  cbn in Hh. simplify_eq. destruct l as [|b' l].
  - cbn in Hl. simplify_eq. destruct Hc as [Hf _]. by inversion Hf.
  - pose proof (IH b' (contiguous_tail _ _ Hc) eq_refl Hl).
    destruct Hc as [Hf Hlink]. pose proof (Hlink 0 first b' eq_refl eq_refl).
    inversion Hf; subst. lia.
Qed.
