(* ===== verification/Policy.v ===== *)
(** * Admission, chunking and eviction policies

    Models [infer/src/scheduler/policy.rs]. The three traits are type classes;
    the shipped policies are their instances. *)

From S2P Require Import Prelude Tier.

(** ** Signals *)
Record SchedulerSignals := mkSchedulerSignals {
  queued_requests : nat;
  active_decodes : nat;
  prefix_hit_tokens : nat;
  session_affinity_slot : option nat;
  turn_depth : N;
}.

Definition SchedulerSignals_default : SchedulerSignals := mkSchedulerSignals 0 0 0 None 0.

Definition queue_state (queued active : nat) : SchedulerSignals :=
  mkSchedulerSignals queued active 0 None 0.

Definition is_cold_request (s : SchedulerSignals) : bool :=
  bool_decide (prefix_hit_tokens s = 0) && bool_decide (session_affinity_slot s = None)
  && bool_decide (turn_depth s = 0%N).

(** ** Traits *)
Class AdmissionPolicy (P : Type) := allow : P -> SchedulerSignals -> bool.
Class ChunkingPolicy (P : Type) := next_chunk_size : P -> InferenceMode -> SchedulerSignals -> nat.

Record EvictionCandidate := mkEvictionCandidate {
  cand_slot : N;
  cand_tokens : N;
  cand_last_access_step : N;
  cand_hit_count : N;
  cand_prefix_depth : N;
  cand_pinned : bool;
}.

Definition EvictionCandidate_new (slot last_access : N) : EvictionCandidate :=
  mkEvictionCandidate slot 0 last_access 0 0 false.

(** Lower scores are evicted first; a non-finite score is never evicted. *)
Class EvictionPolicy (P : Type) := score : P -> EvictionCandidate -> SchedulerSignals -> f32.

(** ** Admission *)
Record QueueBoundAdmission := mkQueueBoundAdmission { max_queued_requests : nat }.

#[export] Instance QueueBound_allow : AdmissionPolicy QueueBoundAdmission := fun p s =>
  bool_decide (queued_requests s < max_queued_requests p).

Record PrefixAwareAdmission := mkPrefixAwareAdmission { hard_cap : nat; cold_soft_cap : nat }.

Definition with_cold_headroom (hard headroom : nat) : PrefixAwareAdmission :=
  mkPrefixAwareAdmission hard (hard - headroom).

#[export] Instance PrefixAware_allow : AdmissionPolicy PrefixAwareAdmission := fun p s =>
  if bool_decide (hard_cap p <= queued_requests s) then false
  else
    let effective_cold_cap := Nat.min (cold_soft_cap p) (hard_cap p) in
    if is_cold_request s && bool_decide (effective_cold_cap <= queued_requests s) then false
    else true.

(** ** Chunking *)
Record DecodeAwareChunking := mkDecodeAwareChunking { decode_active_chunk : nat; idle_chunk : nat }.

#[export] Instance DecodeAware_next : ChunkingPolicy DecodeAwareChunking := fun p mode s =>
  match mode with
  | Decode => decode_active_chunk p
  | Prefill => if bool_decide (0 < active_decodes s) then decode_active_chunk p else idle_chunk p
  end.

(** ** Eviction scores *)
Record LruEviction := mkLruEviction {}.

#[export] Instance Lru_score : EvictionPolicy LruEviction := fun _ c _ =>
  if cand_pinned c then f32_infinity else f32_of_N (cand_last_access_step c).

Record ReuseBiasedLru := mkReuseBiasedLru { recency_weight : f32; hit_weight : f32 }.
Definition ReuseBiasedLru_default : ReuseBiasedLru := mkReuseBiasedLru (f32_lit 1 0) (f32_lit 8 0).

#[export] Instance ReuseBiased_score : EvictionPolicy ReuseBiasedLru := fun p c _ =>
  if cand_pinned c then f32_infinity
  else
    let recency := f32_mul (f32_of_N (cand_last_access_step c)) (recency_weight p) in
    let reuse := f32_mul (f32_of_N (cand_hit_count c)) (hit_weight p) in
    f32_add recency reuse.

Record HitCountLru := mkHitCountLru { hit_threshold : N }.
Definition HitCountLru_default : HitCountLru := mkHitCountLru 2.

#[export] Instance HitCount_score : EvictionPolicy HitCountLru := fun p c _ =>
  if cand_pinned c then f32_infinity
  else if bool_decide (hit_threshold p <= cand_hit_count c)%N then f32_infinity
  else f32_of_N (cand_last_access_step c).

Record SessionBiasedLru := mkSessionBiasedLru { affinity_bonus : f32 }.
Definition SessionBiasedLru_default : SessionBiasedLru := mkSessionBiasedLru (f32_lit 1000000 0).

#[export] Instance SessionBiased_score : EvictionPolicy SessionBiasedLru := fun p c s =>
  if cand_pinned c then f32_infinity
  else
    let sc := f32_of_N (cand_last_access_step c) in
    match session_affinity_slot s with
    | Some affinity_slot =>
        if bool_decide (N.to_nat (cand_slot c) = affinity_slot)
        then f32_add sc (affinity_bonus p) else sc
    | None => sc
    end.

(** What the shipped policies promise the caller: a pinned candidate is never
    selected, whatever the policy's parameters. *)
Class ProtectsPinned (P : Type) `{EvictionPolicy P} : Prop :=
  pinned_not_finite : forall (p : P) c s, cand_pinned c = true -> is_finite (score p c s) = false.

#[export] Instance Lru_protects : ProtectsPinned LruEviction.
Proof. intros p c s H. unfold score, Lru_score. by rewrite H. Qed.
#[export] Instance ReuseBiased_protects : ProtectsPinned ReuseBiasedLru.
Proof. intros p c s H. unfold score, ReuseBiased_score. by rewrite H. Qed.
#[export] Instance HitCount_protects : ProtectsPinned HitCountLru.
Proof. intros p c s H. unfold score, HitCount_score. by rewrite H. Qed.
#[export] Instance SessionBiased_protects : ProtectsPinned SessionBiasedLru.
Proof. intros p c s H. unfold score, SessionBiased_score. by rewrite H. Qed.

(** ** What the policies decide *)

(** Admission with a cold headroom. A request is admitted exactly when the
    queue is below the hard cap and, if the request is cold (no prefix hit, no
    slot affinity, first turn), below it by more than the headroom; so the
    last [headroom] places of the queue go to warm requests only, and a
    headroom above the cap shuts cold requests out. *)
Theorem cold_headroom_spec hard headroom s :
  allow (with_cold_headroom hard headroom) s = true <->
  queued_requests s < hard /\ (is_cold_request s = true -> queued_requests s + headroom < hard).
Proof.
  unfold allow, PrefixAware_allow, with_cold_headroom. cbn.
  case_bool_decide; [split; [done|lia]|].
  destruct (is_cold_request s); cbn; [|split; [by split; [lia|]|done]].
  case_bool_decide; (split; [try done; split; lia|try done]). intros [_ Hc]. specialize (Hc eq_refl). lia.
Qed.

(** Up to [2^24] clock ticks the LRU score orders unpinned candidates by
    their last access, and the older one scores strictly lower; a pinned one
    scores above every unpinned one and is not finite, so it is never chosen. *)
Theorem lru_score_spec a b s :
  cand_pinned a = false -> (cand_last_access_step a < 2 ^ 24)%N ->
  (cand_pinned b = true \/ (cand_last_access_step a < cand_last_access_step b < 2 ^ 24)%N) ->
  is_finite (score mkLruEviction a s) = true /\
  total_cmp (score mkLruEviction a s) (score mkLruEviction b s) = Lt /\
  is_finite (score mkLruEviction b s) = negb (cand_pinned b).
Proof.
  intros Ha Hlt Hb. unfold score, Lru_score. rewrite Ha.
  pose proof (f32_of_N_finite _ Hlt) as Hfin. destruct (cand_pinned b).
  - split_and!; [done| |done]. by destruct (f32_of_N (cand_last_access_step a)) as [[]|[]| |[]].
  - destruct Hb as [Hb|Hb]; [done|]. split_and!; [done| |].
    + apply f32_of_N_lt; lia.
    + apply f32_of_N_finite. lia.
Qed.

Lemma lru_score_spec_witness :
  total_cmp (score mkLruEviction (EvictionCandidate_new 0 7) SchedulerSignals_default)
    (score mkLruEviction (EvictionCandidate_new 1 8) SchedulerSignals_default) = Lt.
Proof.
  apply (lru_score_spec (EvictionCandidate_new 0 7) (EvictionCandidate_new 1 8) SchedulerSignals_default);
    [reflexivity|vm_compute; reflexivity|right; split; vm_compute; reflexivity].
Defined.

(** From the clock tick [2^24] on the LRU score forgets the order: the
    conversion to [f32] gives two accesses the same score, although one is
    older. *)
Theorem lru_score_forgets_order s :
  exists a b, cand_pinned a = false /\ cand_pinned b = false /\
    (cand_last_access_step a < cand_last_access_step b)%N /\
    total_cmp (score mkLruEviction a s) (score mkLruEviction b s) = Eq.
Proof.
  exists (EvictionCandidate_new 0 16777216), (EvictionCandidate_new 1 16777217).
  split_and!; [done|done|vm_compute; reflexivity|vm_compute; reflexivity].
Qed.
