(* ===== verification/BlockManager.v ===== *)
(** * Block manager: paged KV block accounting

    Models [infer/src/block_manager.rs]: the free lists, the reference counts
    and the swap plans of the CPU accounting scheduler. *)

From S2P Require Import Prelude Lists Tier.

(** ** Data *)
Inductive Location := OnGpu | OnCpu.

#[export] Instance Location_eq_dec : EqDecision Location.
Proof. solve_decision. Defined.

Record Block := mkBlock { blk_id : BlockId; location : Location; ref_count : N }.

#[export] Instance Block_eq_dec : EqDecision Block.
Proof. solve_decision. Defined.

Record SwapPlan := mkSwapPlan {
  gpu_to_cpu : list (BlockId * BlockId);
  cpu_to_gpu : list (BlockId * BlockId);
}.

Inductive AllocationError :=
  | InsufficientGpuBlocks (requested available : nat)
  | InsufficientCpuBlocks (requested available : nat).

(** [Result<T, AllocationError>]. *)
Inductive alloc_result (T : Type) :=
  | AOk (t : T)
  | AErr (e : AllocationError).
Arguments AOk {T} _.
Arguments AErr {T} _.

Record BlockManager := mkBlockManager {
  blocks : gmap BlockId Block;
  free_gpu : list BlockId;
  free_cpu : list BlockId;
  bm_block_size : nat;
  next_id : N;
}.

Definition set_blocks (f : gmap BlockId Block -> gmap BlockId Block) (m : BlockManager) :=
  mkBlockManager (f (blocks m)) (free_gpu m) (free_cpu m) (bm_block_size m) (next_id m).
Definition set_free_gpu (l : list BlockId) (m : BlockManager) :=
  mkBlockManager (blocks m) l (free_cpu m) (bm_block_size m) (next_id m).
Definition set_free_cpu (l : list BlockId) (m : BlockManager) :=
  mkBlockManager (blocks m) (free_gpu m) l (bm_block_size m) (next_id m).
Definition set_next_id (i : N) (m : BlockManager) :=
  mkBlockManager (blocks m) (free_gpu m) (free_cpu m) (bm_block_size m) i.
Definition with_ref (r : N) (b : Block) : Block := mkBlock (blk_id b) (location b) r.

(** ** Construction *)

(** One turn of the GPU loop of [BlockManager::new], and of the CPU loop. *)
Definition new_gpu_block (m : BlockManager) : BlockManager :=
  let id := next_id m in
  set_next_id (u32_add id 1)
    (set_free_gpu (free_gpu m ++ [id]) (set_blocks <[id := mkBlock id OnGpu 0]> m)).
Definition new_cpu_block (m : BlockManager) : BlockManager :=
  let id := next_id m in
  set_next_id (u32_add id 1)
    (set_free_cpu (free_cpu m ++ [id]) (set_blocks <[id := mkBlock id OnCpu 0]> m)).

Definition BlockManager_new (num_gpu num_cpu block_size : nat) : res BlockManager :=
  if bool_decide (0 < block_size)
  then Done (Nat.iter num_cpu new_cpu_block
              (Nat.iter num_gpu new_gpu_block (mkBlockManager ∅ [] [] block_size 0)))
  else Panics.

(** ** Metrics *)
Definition free_gpu_blocks (m : BlockManager) : nat := length (free_gpu m).
Definition free_cpu_blocks (m : BlockManager) : nat := length (free_cpu m).
Definition total_gpu_blocks (m : BlockManager) : nat :=
  size (filter (fun p => location p.2 = OnGpu) (blocks m)).
Definition total_cpu_blocks (m : BlockManager) : nat :=
  size (filter (fun p => location p.2 = OnCpu) (blocks m)).

Definition gpu_utilization (m : BlockManager) : f32 :=
  let total := total_gpu_blocks m in
  if bool_decide (total = 0) then f32_zero
  else
    let used := usize_sub total (free_gpu_blocks m) in
    f32_div (f32_of_N used) (f32_of_N (N.of_nat total)).

(** [self.blocks.get_mut(&id).expect(..).ref_count = f(ref_count)]. *)
Definition update_ref (id : BlockId) (f : N -> N) (m : BlockManager) : res BlockManager :=
  b ← expect (blocks m !! id);
  Done (set_blocks <[id := with_ref (f (ref_count b)) b]> m).

(** The free list of a device. *)
Definition free_list (d : Location) (m : BlockManager) : list BlockId :=
  match d with OnGpu => free_gpu m | OnCpu => free_cpu m end.
Definition set_free_list (d : Location) (l : list BlockId) (m : BlockManager) : BlockManager :=
  match d with OnGpu => set_free_gpu l m | OnCpu => set_free_cpu l m end.

(** ** Allocation

    [allocate_gpu] and [allocate_cpu] run the same loop on their own list. *)
Fixpoint allocate_loop (d : Location) (n : nat) (m : BlockManager) (acc : list BlockId)
    : res (BlockManager * list BlockId) :=
  match n with
  | 0 => Done (m, acc)
  | S n' =>
      match free_list d m with
      | [] => Panics
      | id :: rest =>
          m' ← update_ref id (fun _ => 1%N) (set_free_list d rest m);
          allocate_loop d n' m' (acc ++ [id])
      end
  end.

Definition allocate_gpu (m : BlockManager) (n : nat)
    : res (BlockManager * alloc_result (list BlockId)) :=
  if bool_decide (length (free_gpu m) < n)
  then Done (m, AErr (InsufficientGpuBlocks n (length (free_gpu m))))
  else '(m', ids) ← allocate_loop OnGpu n m []; Done (m', AOk ids).

Definition allocate_cpu (m : BlockManager) (n : nat)
    : res (BlockManager * alloc_result (list BlockId)) :=
  if bool_decide (length (free_cpu m) < n)
  then Done (m, AErr (InsufficientCpuBlocks n (length (free_cpu m))))
  else '(m', ids) ← allocate_loop OnCpu n m []; Done (m', AOk ids).

(** ** Free and pin *)
Definition free_one (m : BlockManager) (id : BlockId) : res BlockManager :=
  b ← expect (blocks m !! id);
  let r := if bool_decide (0 < ref_count b)%N then (ref_count b - 1)%N else ref_count b in
  let m := set_blocks <[id := with_ref r b]> m in
  if bool_decide (r = 0%N) then
    Done (set_free_list (location b) (free_list (location b) m ++ [id]) m)
  else Done m.

Definition free (m : BlockManager) (ids : list BlockId) : res BlockManager :=
  fold_res free_one ids m.

Definition pin_one (m : BlockManager) (id : BlockId) : res BlockManager :=
  update_ref id (fun r => u32_add r 1) m.
Definition pin (m : BlockManager) (ids : list BlockId) : res BlockManager :=
  fold_res pin_one ids m.

Definition get_ref_count (m : BlockManager) (id : BlockId) : N :=
  match blocks m !! id with Some b => ref_count b | None => 0 end.

(** ** Swap *)
Definition plan_swap_out (m : BlockManager) (gpu_blocks : list BlockId)
    : res (BlockManager * alloc_result SwapPlan) :=
  '(m', r) ← allocate_cpu m (length gpu_blocks);
  Done (m', match r with
            | AOk cpu => AOk (mkSwapPlan (zip gpu_blocks cpu) [])
            | AErr e => AErr e
            end).

Definition commit_swap_out_one (m : BlockManager) (p : BlockId * BlockId) : res BlockManager :=
  m' ← update_ref p.1 (fun _ => 0%N) m;
  Done (set_free_gpu (free_gpu m' ++ [p.1]) m').
Definition commit_swap_out (m : BlockManager) (plan : SwapPlan) : res BlockManager :=
  fold_res commit_swap_out_one (gpu_to_cpu plan) m.

Definition plan_swap_in (m : BlockManager) (cpu_blocks : list BlockId)
    : res (BlockManager * alloc_result SwapPlan) :=
  '(m', r) ← allocate_gpu m (length cpu_blocks);
  Done (m', match r with
            | AOk gpu => AOk (mkSwapPlan [] (zip cpu_blocks gpu))
            | AErr e => AErr e
            end).

Definition commit_swap_in_one (m : BlockManager) (p : BlockId * BlockId) : res BlockManager :=
  m' ← update_ref p.1 (fun _ => 0%N) m;
  Done (set_free_cpu (free_cpu m' ++ [p.1]) m').
Definition commit_swap_in (m : BlockManager) (plan : SwapPlan) : res BlockManager :=
  fold_res commit_swap_in_one (cpu_to_gpu plan) m.

Definition blocks_for_tokens (m : BlockManager) (num_tokens : nat) : nat :=
  div_ceil num_tokens (bm_block_size m).

(** ** Invariant

    The free list of a device holds, once each, exactly the blocks of that
    device nobody references: no block is lost and none is handed out twice. *)
Record wf (m : BlockManager) : Prop := mk_wf {
  wf_size : 0 < bm_block_size m;
  wf_nodup : forall d, NoDup (free_list d m);
  wf_free : forall d id,
    id ∈ free_list d m <-> exists b, blocks m !! id = Some b /\ location b = d /\ ref_count b = 0%N;
}.

Section projections.
Context (m : BlockManager) (d : Location).
Implicit Types (l : list BlockId) (f : gmap BlockId Block -> gmap BlockId Block).

Lemma blocks_set_free_list l : blocks (set_free_list d l m) = blocks m.
Proof. by destruct d. Qed.
Lemma size_set_free_list l : bm_block_size (set_free_list d l m) = bm_block_size m.
Proof. by destruct d. Qed.
Lemma free_list_set_blocks f d' : free_list d' (set_blocks f m) = free_list d' m.
Proof. by destruct d'. Qed.
Lemma free_list_set_eq l : free_list d (set_free_list d l m) = l.
Proof. by destruct d. Qed.
Lemma free_list_set_ne l d' : d' <> d -> free_list d' (set_free_list d l m) = free_list d' m.
Proof. by destruct d, d'. Qed.
End projections.

#[export] Hint Rewrite blocks_set_free_list size_set_free_list free_list_set_blocks
  free_list_set_eq : arle.

(** ** Allocation *)

(** Taking the head of the free list keeps the invariant. *)
Lemma allocate_step_wf m d id rest :
  wf m -> free_list d m = id :: rest ->
  exists b m', blocks m !! id = Some b /\
    update_ref id (fun _ => 1%N) (set_free_list d rest m) = Done m' /\ wf m' /\
    free_list d m' = rest /\ (forall d', d' <> d -> free_list d' m' = free_list d' m) /\
    bm_block_size m' = bm_block_size m /\ blocks m' = <[id := with_ref 1 b]> (blocks m).
Proof.
  intros Hwf Hfl. pose proof (wf_nodup _ Hwf d) as Hnd. rewrite Hfl in Hnd.
  apply NoDup_cons in Hnd as [Hid Hnd].
  destruct (proj1 (wf_free _ Hwf d id)) as (b & Hb & Hloc & Href); [rewrite Hfl; left|].
  eexists b, _. split; [done|]. unfold update_ref. rewrite blocks_set_free_list, Hb.
  split; [reflexivity|]. split; [|by destruct d; repeat split; intros []].
  split; [destruct d; apply Hwf| |].
  - intros d'. rewrite free_list_set_blocks. destruct (decide (d' = d)) as [->|Hne].
    + by rewrite free_list_set_eq.
    + rewrite free_list_set_ne by done. apply Hwf.
  - intros d' x. rewrite free_list_set_blocks.
    replace (blocks (set_blocks _ _)) with (<[id := with_ref 1 b]> (blocks m)) by (by destruct d).
    destruct (decide (x = id)) as [->|Hx].
    + rewrite lookup_insert_eq. split.
      * intros Hin. exfalso. destruct (decide (d' = d)) as [->|Hne].
        { by rewrite free_list_set_eq in Hin. }
        rewrite free_list_set_ne in Hin by done.
        apply (wf_free _ Hwf) in Hin as (b' & ? & ? & _). congruence.
      * intros (b' & [= <-] & _ & [=]).
    + rewrite lookup_insert_ne by done. rewrite <-(wf_free _ Hwf d' x).
      destruct (decide (d' = d)) as [->|Hne].
      * rewrite free_list_set_eq, Hfl, elem_of_cons. naive_solver.
      * by rewrite free_list_set_ne.
Qed.

(** The blocks an allocation hands out, and the table it leaves. *)
Definition allocated (m m' : BlockManager) (d : Location) (ids : list BlockId) : Prop :=
  free_list d m = ids ++ free_list d m' /\
  (forall d', d' <> d -> free_list d' m' = free_list d' m) /\
  bm_block_size m' = bm_block_size m /\
  forall id, blocks m' !! id =
    if decide (id ∈ ids) then with_ref 1 <$> blocks m !! id else blocks m !! id.

Lemma allocate_loop_spec n : forall m d acc,
  wf m -> n <= length (free_list d m) ->
  exists m' ids, allocate_loop d n m acc = Done (m', acc ++ ids) /\
    length ids = n /\ wf m' /\ allocated m m' d ids.
Proof.
  induction n as [|n IH]; intros m d acc Hwf Hn.
  - exists m, []. rewrite app_nil_r. by split_and!.
  - destruct (free_list d m) as [|id rest] eqn:Hfl; [cbn in Hn; lia|].
    destruct (allocate_step_wf m d id rest Hwf Hfl)
      as (b & m1 & Hb & Hupd & Hwf1 & Hfl1 & Hother & Hbs & Hblk).
    destruct (IH m1 d (acc ++ [id]) Hwf1) as (m' & ids & Hrun & Hlen & Hwf' & Hal);
      [rewrite Hfl1; cbn in Hn; lia|].
    destruct Hal as (Hfl' & Hother' & Hbs' & Hblk').
    exists m', (id :: ids). cbn [allocate_loop]. rewrite Hfl, Hupd. cbn [mbind res_bind].
    rewrite Hrun, <-app_assoc. cbn [app]. split_and!; [done|cbn; lia|done|].
    assert (id ∉ ids) as Hid.
    { pose proof (wf_nodup _ Hwf d) as Hnd. rewrite Hfl in Hnd.
      apply NoDup_cons in Hnd as [Hnd _]. rewrite <-Hfl1, Hfl' in Hnd. set_solver. }
    split_and!; [by rewrite Hfl, <-Hfl1, Hfl'| |congruence|];
      [intros d' ?; rewrite Hother' by done; by apply Hother|].
    intros x. rewrite Hblk', Hblk. destruct (decide (x = id)) as [->|Hx].
    + rewrite lookup_insert_eq, decide_False by done. rewrite decide_True by set_solver.
      by rewrite Hb.
    + rewrite lookup_insert_ne by done.
      destruct (decide (x ∈ ids)); destruct (decide (x ∈ id :: ids)); try done; set_solver.
Qed.

(** ** Changing one block

    The table after setting the reference count of one block, and what the
    free list of its device must then hold. *)
Lemma wf_update_ref m m' id b r :
  wf m -> blocks m !! id = Some b ->
  blocks m' = <[id := with_ref r b]> (blocks m) ->
  bm_block_size m' = bm_block_size m ->
  (forall d, d <> location b -> free_list d m' = free_list d m) ->
  ((ref_count b <> 0%N /\ r <> 0%N /\ free_list (location b) m' = free_list (location b) m) \/
   (ref_count b <> 0%N /\ r = 0%N /\
      free_list (location b) m' = free_list (location b) m ++ [id])) ->
  wf m'.
Proof.
  intros Hwf Hb Hblk Hbs Hother Hcase.
  assert (forall d, ref_count b <> 0%N -> id ∉ free_list d m) as Hnotin.
  { intros d Hr (b' & ? & ? & ?)%(wf_free _ Hwf). congruence. }
  split.
  - rewrite Hbs. apply Hwf.
  - intros d. destruct (decide (d = location b)) as [->|Hne]; [|rewrite Hother by done; apply Hwf].
    destruct Hcase as [(_ & _ & ->)|(? & _ & ->)]; [apply Hwf|].
    apply NoDup_app. split_and!; [apply Hwf| |apply NoDup_singleton].
    intros x Hx ->%list_elem_of_singleton. by eapply Hnotin.
  - intros d x. rewrite Hblk. destruct (decide (x = id)) as [->|Hx].
    + rewrite lookup_insert_eq. destruct Hcase as [(? & ? & Hfl)|(? & -> & Hfl)].
      * split; [|intros (b' & [= <-] & _ & ?); done].
        intros Hin. exfalso. destruct (decide (d = location b)) as [->|Hne].
        { rewrite Hfl in Hin. by eapply Hnotin. }
        rewrite Hother in Hin by done. by eapply Hnotin.
      * split.
        { intros Hin. exists (with_ref 0 b). split_and!; [done| |done]. cbn.
          destruct (decide (d = location b)) as [->|Hne]; [done|].
          rewrite Hother in Hin by done. exfalso. by eapply Hnotin. }
        intros (b' & [= <-] & <- & _). cbn. rewrite Hfl. set_solver.
    + rewrite lookup_insert_ne by done. rewrite <-(wf_free _ Hwf d x).
      destruct (decide (d = location b)) as [->|Hne]; [|by rewrite Hother].
      destruct Hcase as [(? & ? & ->)|(? & _ & ->)]; set_solver.
Qed.

Lemma free_list_push d id m d' :
  d' <> d -> free_list d' (set_free_list d (free_list d m ++ [id]) m) = free_list d' m.
Proof. apply free_list_set_ne. Qed.

Lemma free_one_spec m id b :
  wf m -> blocks m !! id = Some b -> (0 < ref_count b)%N ->
  exists m', free_one m id = Done m' /\ wf m' /\ bm_block_size m' = bm_block_size m /\
    blocks m' = <[id := with_ref (ref_count b - 1) b]> (blocks m).
Proof.
  intros Hwf Hb Hr. unfold free_one. rewrite Hb. cbn [expect mbind res_bind].
  rewrite (bool_decide_eq_true_2 _ Hr). case_bool_decide as Hz.
  - eexists. split; [reflexivity|]. rewrite size_set_free_list, blocks_set_free_list.
    split_and!; [|done|done].
    eapply (wf_update_ref m _ id b _ Hwf Hb); [by rewrite blocks_set_free_list|by rewrite size_set_free_list| |].
    + intros d Hd. by rewrite free_list_set_ne, free_list_set_blocks.
    + right. rewrite free_list_set_eq, free_list_set_blocks. split_and!; [lia|done|done].
  - eexists. split; [reflexivity|]. split_and!; [|done|done].
    eapply (wf_update_ref m _ id b _ Hwf Hb); [done|done|by intros; rewrite free_list_set_blocks|].
    left. rewrite free_list_set_blocks. split_and!; [lia|done|done].
Qed.

(** Reference counts can absorb the releases of [ids]. *)
Definition releasable (m : BlockManager) (ids : list BlockId) : Prop :=
  forall id, id ∈ ids -> exists b, blocks m !! id = Some b /\
    (N.of_nat (occurrences id ids) <= ref_count b)%N.

Definition release_refs (ids : list BlockId) (id : BlockId) (b : Block) : Block :=
  with_ref (ref_count b - N.of_nat (occurrences id ids)) b.

Lemma with_ref_id b : with_ref (ref_count b) b = b.
Proof. by destruct b. Qed.

Lemma free_all m ids :
  wf m -> releasable m ids ->
  exists m', free m ids = Done m' /\ wf m' /\ bm_block_size m' = bm_block_size m /\
    forall id, blocks m' !! id = release_refs ids id <$> blocks m !! id.
Proof.
  revert m. induction ids as [|x ids IH]; intros m Hwf Hrel.
  - exists m. split_and!; [done|done|done|]. intros id. unfold release_refs.
    destruct (blocks m !! id) as [b|]; [|done]. unfold occurrences. cbn. rewrite N.sub_0_r. by rewrite with_ref_id.
  - destruct (Hrel x) as (b & Hb & Hx); [left|].
    rewrite occurrences_cons, decide_True in Hx by done.
    destruct (free_one_spec m x b Hwf Hb) as (m1 & Hrun & Hwf1 & Hbs1 & Hblk1); [lia|].
    destruct (IH m1 Hwf1) as (m' & Hrun' & Hwf' & Hbs' & Hblk').
    { intros id Hid. rewrite Hblk1. destruct (decide (id = x)) as [->|Hne].
      - rewrite lookup_insert_eq. eexists. split; [reflexivity|]. cbn. lia.
      - rewrite lookup_insert_ne by done.
        destruct (Hrel id) as (b' & Hb' & Hle); [by right|].
        exists b'. split; [done|]. rewrite occurrences_cons, decide_False in Hle by done. lia. }
    exists m'. split_and!; [|done|congruence|].
    { unfold free. cbn [fold_res]. rewrite Hrun. cbn [mbind res_bind]. exact Hrun'. }
    intros id. rewrite Hblk', Hblk1. unfold release_refs. destruct (decide (id = x)) as [->|Hne].
    + rewrite lookup_insert_eq, Hb. cbn. f_equal. unfold with_ref. cbn. f_equal.
      rewrite occurrences_cons, decide_True by done. lia.
    + rewrite lookup_insert_ne by done. destruct (blocks m !! id) as [b'|]; [|done]. cbn. f_equal.
      by rewrite occurrences_cons, decide_False by done.
Qed.

Lemma allocate_gpu_ok m n :
  wf m -> n <= free_gpu_blocks m ->
  exists m' ids, allocate_gpu m n = Done (m', AOk ids) /\ length ids = n /\ wf m' /\
    allocated m m' OnGpu ids.
Proof.
  intros Hwf Hn. unfold allocate_gpu. rewrite bool_decide_eq_false_2 by (unfold free_gpu_blocks in Hn; lia).
  destruct (allocate_loop_spec n m OnGpu [] Hwf Hn) as (m' & ids & -> & Hlen & Hwf' & Hal).
  exists m', ids. by split_and!.
Qed.

Lemma allocate_cpu_ok m n :
  wf m -> n <= free_cpu_blocks m ->
  exists m' ids, allocate_cpu m n = Done (m', AOk ids) /\ length ids = n /\ wf m' /\
    allocated m m' OnCpu ids.
Proof.
  intros Hwf Hn. unfold allocate_cpu. rewrite bool_decide_eq_false_2 by (unfold free_cpu_blocks in Hn; lia).
  destruct (allocate_loop_spec n m OnCpu [] Hwf Hn) as (m' & ids & -> & Hlen & Hwf' & Hal).
  exists m', ids. by split_and!.
Qed.

Lemma allocate_gpu_short m n :
  free_gpu_blocks m < n ->
  allocate_gpu m n = Done (m, AErr (InsufficientGpuBlocks n (free_gpu_blocks m))).
Proof. intros Hn. unfold allocate_gpu. by rewrite bool_decide_eq_true_2. Qed.

Lemma allocated_fresh m m' d ids :
  wf m -> allocated m m' d ids ->
  NoDup ids /\ forall id, id ∈ ids ->
    exists b, blocks m !! id = Some b /\ location b = d /\ ref_count b = 0%N /\
              blocks m' !! id = Some (with_ref 1 b).
Proof.
  intros Hwf (Hfl & _ & _ & Hblk). split.
  - pose proof (wf_nodup _ Hwf d) as Hnd. rewrite Hfl in Hnd. by apply NoDup_app in Hnd as [? _].
  - intros id Hid. assert (id ∈ free_list d m) as Hin by (rewrite Hfl; set_solver).
    apply (wf_free _ Hwf) in Hin as (b & Hb & Hloc & Hr). exists b. split_and!; [done..|].
    by rewrite Hblk, decide_True, Hb.
Qed.

(** *** Fresh managers: every block gets the next id and starts free. *)

(** One turn of either construction loop. *)
Definition new_block (d : Location) (m : BlockManager) : BlockManager :=
  match d with OnGpu => new_gpu_block m | OnCpu => new_cpu_block m end.

(** Construction state: [i] GPU and [j] CPU blocks made so far. *)
Record building (bs i j : nat) (m : BlockManager) : Prop := {
  bld_wf : wf m;
  bld_id : next_id m = N.of_nat (i + j);
  bld_gpu : length (free_gpu m) = i;
  bld_cpu : length (free_cpu m) = j;
  bld_bs : bm_block_size m = bs;
  bld_fresh : forall id, (next_id m <= id)%N -> blocks m !! id = None;
}.

Lemma new_block_lists d m d' :
  free_list d' (new_block d m) =
    free_list d' m ++ (if decide (d' = d) then [next_id m] else []).
Proof. destruct d, d'; cbn; by rewrite ?app_nil_r. Qed.

Lemma new_block_blocks d m :
  blocks (new_block d m) = <[next_id m := mkBlock (next_id m) d 0]> (blocks m).
Proof. by destruct d. Qed.

Lemma new_block_wf d m :
  wf m -> blocks m !! next_id m = None -> wf (new_block d m).
Proof.
  intros Hwf Hfresh.
  assert (forall d', next_id m ∉ free_list d' m) as Hnot.
  { intros d' (b & Hb & _)%(wf_free _ Hwf). congruence. }
  split; [destruct d; cbn; apply Hwf| |].
  - intros d'. rewrite new_block_lists. apply NoDup_app. split_and!; [apply Hwf| |].
    + intros x Hx Hin. case_decide; [|set_solver].
      apply list_elem_of_singleton in Hin as ->. by eapply Hnot.
    + case_decide; [apply NoDup_singleton|apply NoDup_nil_2].
  - intros d' x. rewrite new_block_lists, new_block_blocks, elem_of_app, (wf_free _ Hwf).
    destruct (decide (x = next_id m)) as [->|Hx].
    + rewrite lookup_insert_eq, Hfresh. split.
      * intros [(? & ? & _)|Hin]; [done|]. case_decide; [|set_solver]. subst. by eexists.
      * intros (b & [= <-] & <- & _). right. rewrite decide_True by done. set_solver.
    + rewrite lookup_insert_ne by done. split; [|by left].
      intros [?|Hin]; [done|]. case_decide; set_solver.
Qed.

Lemma building_step d bs i j m :
  (N.of_nat (S (i + j)) <= u32_max)%N -> building bs i j m ->
  building bs (if decide (d = OnGpu) then S i else i) (if decide (d = OnCpu) then S j else j)
    (new_block d m).
Proof.
  intros Hlt [Hwf Hid Hg Hc Hbs Hfresh].
  assert (next_id (new_block d m) = N.of_nat (S (i + j))) as Hid'.
  { replace (next_id (new_block d m)) with (u32_add (next_id m) 1) by (by destruct d).
    rewrite Hid, u32_add_small; lia. }
  split.
  - apply new_block_wf; [done|]. by apply Hfresh.
  - rewrite Hid'. f_equal. destruct d; repeat case_decide; done || lia.
  - pose proof (new_block_lists d m OnGpu) as Hl. cbn in Hl. rewrite Hl, length_app.
    destruct d; repeat case_decide; cbn; done || lia.
  - pose proof (new_block_lists d m OnCpu) as Hl. cbn in Hl. rewrite Hl, length_app.
    destruct d; repeat case_decide; cbn; done || lia.
  - by destruct d.
  - rewrite Hid', new_block_blocks. intros id Hle. rewrite lookup_insert_ne by lia. apply Hfresh. lia.
Qed.

Lemma building_empty bs : 0 < bs -> building bs 0 0 (mkBlockManager ∅ [] [] bs 0).
Proof.
  intros Hbs. split; [|done..]. split; [done|intros []; apply NoDup_nil_2|].
  intros d id. replace (free_list d _) with (@nil BlockId) by (by destruct d). split.
  - by intros ?%not_elem_of_nil.
  - intros (? & ? & _). done.
Qed.

Lemma manager_new_wf g c bs m :
  (N.of_nat (g + c) <= u32_max)%N ->
  BlockManager_new g c bs = Done m ->
  wf m /\ free_gpu_blocks m = g /\ free_cpu_blocks m = c /\ bm_block_size m = bs.
Proof.
  intros Hmax. unfold BlockManager_new. case_bool_decide as Hbs; [|done]. intros [= <-].
  assert (forall i, i <= g -> building bs i 0 (Nat.iter i (new_block OnGpu) (mkBlockManager ∅ [] [] bs 0)))
    as Hg.
  { induction i as [|i IH]; intros Hi; [by apply building_empty|].
    apply (building_step OnGpu); [lia|]. apply IH. lia. }
  assert (forall j, j <= c -> building bs g j (Nat.iter j (new_block OnCpu)
    (Nat.iter g (new_block OnGpu) (mkBlockManager ∅ [] [] bs 0)))) as Hc.
  { induction j as [|j IH]; intros Hj; [by apply Hg|].
    apply (building_step OnCpu); [lia|]. apply IH. lia. }
  destruct (Hc c) as [? _ ? ? ? _]; done.
Qed.

(** ** Swap plans *)
Lemma commit_swap_out_one_spec m g c b :
  wf m -> blocks m !! g = Some b -> location b = OnGpu -> (0 < ref_count b)%N ->
  exists m', commit_swap_out_one m (g, c) = Done m' /\ wf m' /\
    bm_block_size m' = bm_block_size m /\
    blocks m' = <[g := with_ref 0 b]> (blocks m).
Proof.
  intros Hwf Hb Hloc Hr. unfold commit_swap_out_one, update_ref. cbn [fst]. rewrite Hb. cbn [expect mbind res_bind].
  eexists. split; [reflexivity|]. split_and!; [|done|done].
  eapply (wf_update_ref m _ g b 0 Hwf Hb); [done|done| |].
  - rewrite Hloc. intros []; done.
  - right. rewrite Hloc. split_and!; [lia|done|done].
Qed.

Lemma commit_swap_out_spec ps : forall m,
  wf m -> NoDup ps.*1 ->
  Forall (fun p => exists b, blocks m !! p.1 = Some b /\ location b = OnGpu /\ (0 < ref_count b)%N) ps ->
  exists m', commit_swap_out m (mkSwapPlan ps []) = Done m' /\ wf m' /\
    bm_block_size m' = bm_block_size m /\
    (forall id, blocks m' !! id =
       if decide (id ∈ ps.*1) then with_ref 0 <$> blocks m !! id else blocks m !! id).
Proof.
  induction ps as [|[g c] ps IH]; intros m Hwf Hnd Hall.
  - exists m. split_and!; done.
  - apply NoDup_cons in Hnd as [Hg Hnd]. apply Forall_cons in Hall as [(b & Hb & Hloc & Hr) Hall].
    destruct (commit_swap_out_one_spec m g c b Hwf Hb Hloc Hr) as (m1 & Hrun & Hwf1 & Hbs1 & Hblk1).
    destruct (IH m1 Hwf1 Hnd) as (m' & Hrun' & Hwf' & Hbs' & Hblk').
    { rewrite Forall_forall in *. intros [g' c'] Hin. destruct (Hall _ Hin) as (b' & Hb' & ?).
      exists b'. split; [|done]. rewrite Hblk1, lookup_insert_ne; [done|].
      intros ->. apply Hg. by apply (list_elem_of_fmap_2 fst) in Hin. }
    exists m'. unfold commit_swap_out in *. cbn [gpu_to_cpu fold_res] in *. rewrite Hrun.
    split_and!; [done|done|congruence|]. intros id. cbn [fmap list_fmap fst] in *.
    rewrite Hblk', Hblk1. destruct (decide (id = g)) as [->|Hne].
    + rewrite lookup_insert_eq, decide_False by done. rewrite decide_True by set_solver. by rewrite Hb.
    + rewrite lookup_insert_ne by done.
      destruct (decide (id ∈ ps.*1)), (decide (id ∈ g :: ps.*1)); try done; set_solver.
Qed.

(** ** Free lists and totals *)
Lemma free_list_size m d :
  wf m ->
  length (free_list d m) =
    size (filter (fun p => location p.2 = d /\ ref_count p.2 = 0%N) (blocks m)).
Proof.
  intros Hwf. rewrite <-size_dom.
  rewrite <-(size_list_to_set (C := gset BlockId) (free_list d m)) by apply Hwf.
  f_equal. apply set_eq. intros id. rewrite elem_of_list_to_set, (wf_free _ Hwf), elem_of_dom.
  split.
  - intros (b & Hb & ? & ?). exists b. by apply map_lookup_filter_Some.
  - intros [b [Hb ?]%map_lookup_filter_Some]. naive_solver.
Qed.

Lemma filter_size_le {A} (P Q : BlockId * A -> Prop) `{!forall x, Decision (P x), !forall x, Decision (Q x)}
    (m : gmap BlockId A) :
  (forall x, P x -> Q x) -> size (filter P m) <= size (filter Q m).
Proof.
  intros HPQ. rewrite <-!size_dom. apply subseteq_size. intros id.
  rewrite !elem_of_dom. intros [b [Hb ?]%map_lookup_filter_Some]. exists b.
  apply map_lookup_filter_Some. auto.
Qed.

Lemma free_le_total m : wf m -> free_gpu_blocks m <= total_gpu_blocks m.
Proof.
  intros Hwf. unfold free_gpu_blocks. change (free_gpu m) with (free_list OnGpu m).
  rewrite free_list_size by done. apply filter_size_le. naive_solver.
Qed.

(** ** Properties *)

(** [allocate_gpu] on a well-formed manager. With enough free blocks it
    returns [n] distinct GPU blocks that nobody referenced, each now with one
    reference, changes no other block and keeps the invariant. Otherwise it
    returns the out-of-memory error with the exact numbers and changes
    nothing. It never panics. *)
Theorem allocate_gpu_spec m n :
  wf m ->
  if decide (n <= free_gpu_blocks m) then
    exists m' ids, allocate_gpu m n = Done (m', AOk ids) /\ wf m' /\
      length ids = n /\ NoDup ids /\ free_gpu m = ids ++ free_gpu m' /\ free_cpu m' = free_cpu m /\
      (forall id, id ∈ ids -> get_ref_count m id = 0%N /\ get_ref_count m' id = 1%N) /\
      (forall id, id ∉ ids -> blocks m' !! id = blocks m !! id)
  else allocate_gpu m n = Done (m, AErr (InsufficientGpuBlocks n (free_gpu_blocks m))).
Proof.
  intros Hwf. case_decide as Hn; [|apply allocate_gpu_short; lia].
  destruct (allocate_gpu_ok m n Hwf Hn) as (m' & ids & Hrun & Hlen & Hwf' & Hal).
  destruct (allocated_fresh _ _ _ _ Hwf Hal) as [Hnd Hfresh].
  destruct Hal as (Hfl & Hother & _ & Hblk).
  exists m', ids. split_and!; [done..|by apply (Hother OnCpu)| |].
  - intros id Hid. destruct (Hfresh id Hid) as (b & Hb & _ & Hr & Hb').
    unfold get_ref_count. by rewrite Hb, Hb', Hr.
  - intros id Hid. by rewrite Hblk, decide_False.
Qed.

(** Allocating [n] GPU blocks and freeing them again gives back the block
    table, the invariant and the number of free blocks. *)
Theorem allocate_free_roundtrip m n m' ids :
  wf m -> allocate_gpu m n = Done (m', AOk ids) ->
  exists m'', free m' ids = Done m'' /\ wf m'' /\ blocks m'' = blocks m /\
    free_gpu_blocks m'' = free_gpu_blocks m /\ free_cpu_blocks m'' = free_cpu_blocks m.
Proof.
  intros Hwf Hrun. destruct (decide (n <= free_gpu_blocks m)) as [Hn|Hn].
  2: { by rewrite allocate_gpu_short in Hrun by lia. }
  destruct (allocate_gpu_ok m n Hwf Hn) as (m1 & ids1 & Hrun1 & _ & Hwf1 & Hal).
  rewrite Hrun1 in Hrun. simplify_eq.
  destruct (allocated_fresh _ _ _ _ Hwf Hal) as [Hnd Hfresh].
  destruct (free_all m' ids Hwf1) as (m'' & Hfree & Hwf'' & _ & Hblk).
  { intros id Hid. destruct (Hfresh id Hid) as (b & _ & _ & _ & Hb').
    eexists. split; [exact Hb'|]. pose proof (occurrences_NoDup id ids Hnd). cbn. lia. }
  assert (blocks m'' = blocks m) as Heq.
  { apply map_eq. intros id. rewrite Hblk. destruct (decide (id ∈ ids)) as [Hid|Hid].
    - destruct (Hfresh id Hid) as (b & Hb & _ & Hr & Hb'). rewrite Hb', Hb. cbn. f_equal.
      unfold release_refs. pose proof (occurrences_in id ids Hid).
      destruct b as [i l r]. cbn in *. subst r. unfold with_ref. cbn. f_equal. lia.
    - destruct Hal as (_ & _ & _ & Hblk1). rewrite Hblk1, decide_False by done.
      destruct (blocks m !! id) as [b|]; [|done]. cbn. f_equal. unfold release_refs.
      rewrite occurrences_notin by done. rewrite N.sub_0_r. apply with_ref_id. }
  exists m''. split_and!; [done..| |].
  - pose proof (free_list_size m'' OnGpu Hwf''). pose proof (free_list_size m OnGpu Hwf).
    unfold free_gpu_blocks. cbn [free_list] in *. congruence.
  - pose proof (free_list_size m'' OnCpu Hwf''). pose proof (free_list_size m OnCpu Hwf).
    unfold free_cpu_blocks. cbn [free_list] in *. congruence.
Qed.

(** Swapping out a set of live GPU blocks, plan and commit, either fails
    with the CPU shortage and changes nothing, or keeps the invariant, frees
    every GPU block of the plan and leaves each destination with exactly one
    reference, whatever the source's count was. *)
Theorem swap_out_spec m gs :
  wf m -> NoDup gs ->
  Forall (fun g => exists b, blocks m !! g = Some b /\ location b = OnGpu /\ (0 < ref_count b)%N) gs ->
  if decide (length gs <= free_cpu_blocks m) then
    exists m1 plan m2, plan_swap_out m gs = Done (m1, AOk plan) /\
      commit_swap_out m1 plan = Done m2 /\ wf m2 /\ (gpu_to_cpu plan).*1 = gs /\
      Forall (fun p => get_ref_count m2 p.1 = 0%N /\ get_ref_count m2 p.2 = 1%N) (gpu_to_cpu plan) /\
      (forall id, id ∉ gs -> id ∉ (gpu_to_cpu plan).*2 -> blocks m2 !! id = blocks m !! id)
  else plan_swap_out m gs = Done (m, AErr (InsufficientCpuBlocks (length gs) (free_cpu_blocks m))).
Proof.
  intros Hwf Hnd Hall. case_decide as Hn.
  2: { unfold plan_swap_out, allocate_cpu. rewrite bool_decide_eq_true_2; [done|].
       unfold free_cpu_blocks in Hn. lia. }
  destruct (allocate_cpu_ok m (length gs) Hwf Hn) as (m1 & cs & Hrun & Hlen & Hwf1 & Hal).
  destruct (allocated_fresh _ _ _ _ Hwf Hal) as [_ Hfresh].
  destruct Hal as (_ & _ & _ & Hblk1).
  assert (forall g, g ∈ gs -> g ∉ cs) as Hdisj.
  { intros g Hg Hc. destruct (Hfresh g Hc) as (b & Hb & Hloc & _).
    rewrite Forall_forall in Hall. destruct (Hall g Hg) as (b' & Hb' & Hloc' & _). congruence. }
  assert ((zip gs cs).*1 = gs) as Hfst by (apply fst_zip; lia).
  assert ((zip gs cs).*2 = cs) as Hsnd by (apply snd_zip; lia).
  destruct (commit_swap_out_spec (zip gs cs) m1 Hwf1) as (m2 & Hrun2 & Hwf2 & _ & Hblk2).
  { by rewrite Hfst. }
  { apply Forall_forall. intros [g c] Hin%(list_elem_of_fmap_2 fst). rewrite Hfst in Hin. cbn in *.
    rewrite Forall_forall in Hall. destruct (Hall g Hin) as (b & Hb & ?).
    exists b. rewrite Hblk1, decide_False by auto. done. }
  exists m1, (mkSwapPlan (zip gs cs) []), m2. unfold plan_swap_out. rewrite Hrun.
  split_and!; [done..| |].
  - cbn [gpu_to_cpu]. apply Forall_forall. intros [g c] Hin. cbn [fst snd].
    pose proof (list_elem_of_fmap_2 fst _ _ Hin) as Hg. pose proof (list_elem_of_fmap_2 snd _ _ Hin) as Hc.
    rewrite Hfst in Hg. rewrite Hsnd in Hc. cbn in Hg, Hc.
    unfold get_ref_count. rewrite !Hblk2, Hfst, decide_True by done. split.
    + rewrite Hblk1, decide_False by auto. by destruct (blocks m !! g).
    + rewrite decide_False by (intros ?; by apply (Hdisj c)).
      destruct (Hfresh c Hc) as (b & _ & _ & _ & ->). done.
  - cbn [gpu_to_cpu]. rewrite Hsnd. intros id Hg Hc. rewrite Hblk2, Hfst, decide_False by done.
    by rewrite Hblk1, decide_False.
Qed.

(** *** The properties at a concrete manager: 8 GPU and 4 CPU blocks *)
Definition example_manager : BlockManager :=
  match BlockManager_new 8 4 16 with Done m => m | _ => mkBlockManager ∅ [] [] 1 0 end.

Lemma example_manager_wf : wf example_manager.
Proof. by apply (manager_new_wf 8 4 16). Qed.

Definition example_taken : BlockManager :=
  match allocate_gpu example_manager 3 with Done (m, _) => m | _ => example_manager end.

Lemma example_taken_wf : wf example_taken.
Proof.
  destruct (allocate_gpu_ok example_manager 3 example_manager_wf) as (m' & ids & Hrun & _ & Hwf & _).
  - vm_compute. lia.
  - unfold example_taken. by rewrite Hrun.
Qed.

Lemma allocate_gpu_spec_witness :
  exists m' ids, allocate_gpu example_manager 3 = Done (m', AOk ids) /\ ids = [0; 1; 2]%N.
Proof.
  pose proof (allocate_gpu_spec example_manager 3 example_manager_wf) as H.
  rewrite decide_True in H by (vm_compute; lia).
  destruct H as (m' & ids & Hrun & _). exists m', ids. split; [exact Hrun|].
  vm_compute in Hrun. congruence.
Defined.

Lemma allocate_free_roundtrip_witness :
  exists m'', free example_taken [0; 1; 2]%N = Done m'' /\ free_gpu_blocks m'' = 8.
Proof.
  destruct (allocate_free_roundtrip example_manager 3 example_taken [0; 1; 2]%N example_manager_wf)
    as (m'' & Hrun & _ & _ & Hn & _).
  - vm_compute. reflexivity.
  - exists m''. split; [exact Hrun|exact Hn].
Defined.

Lemma swap_out_spec_witness :
  exists m1 plan m2, plan_swap_out example_taken [0; 2]%N = Done (m1, AOk plan) /\
    commit_swap_out m1 plan = Done m2 /\ get_ref_count m2 8 = 1%N /\ get_ref_count m2 0 = 0%N.
Proof.
  pose proof (swap_out_spec example_taken [0; 2]%N example_taken_wf) as H.
  rewrite decide_True in H by (vm_compute; lia).
  destruct H as (m1 & plan & m2 & Hplan & Hcommit & _).
  - apply (bool_decide_unpack _). vm_compute. exact I.
  - repeat constructor; eexists; (split_and!; [vm_compute; reflexivity|reflexivity|vm_compute; reflexivity]).
  - exists m1, plan, m2. split; [exact Hplan|]. split; [exact Hcommit|].
    vm_compute in Hplan. injection Hplan as <- <-. vm_compute in Hcommit. injection Hcommit as <-.
    vm_compute. split; reflexivity.
Defined.
