(* ===== verification/Plan.v ===== *)
(** * Logical serving plans

    Models [infer/src/scheduler/plan.rs]: what one scheduler tick asks a
    backend to run. *)

From S2P Require Import Prelude Tier.

(** [DraftMode] of [scheduler/types.rs]; a path is its string. *)
Inductive DraftMode := DraftNone | SelfSpec | External (path : string).

#[export] Instance DraftMode_eq_dec : EqDecision DraftMode.
Proof. solve_decision. Defined.

Record LogicalDecodeRow := mkLogicalDecodeRow {
  ldr_row_index : nat;
  ldr_req_id : RequestId;
  ldr_input_token : Token;
  ldr_logical_kv_offset : nat;
}.

Record LogicalPrefillRow := mkLogicalPrefillRow {
  lpr_row_index : nat;
  lpr_req_id : RequestId;
  lpr_input_tokens : list Token;
  lpr_prompt_start : nat;
  lpr_prompt_end : nat;
  lpr_prompt_len : nat;
  lpr_logical_kv_start : nat;
  lpr_logical_kv_end : nat;
}.

Definition with_logical_kv_span (row : nat) (id : RequestId) (toks : list Token)
    (prompt_start prompt_end prompt_len kv_start kv_end : nat) : LogicalPrefillRow :=
  mkLogicalPrefillRow row id toks prompt_start prompt_end prompt_len kv_start kv_end.

Definition LogicalPrefillRow_new (row : nat) (id : RequestId) (toks : list Token)
    (prompt_start prompt_end prompt_len : nat) : LogicalPrefillRow :=
  with_logical_kv_span row id toks prompt_start prompt_end prompt_len prompt_start prompt_end.

Definition token_count (r : LogicalPrefillRow) : nat := length (lpr_input_tokens r).

Record LogicalBatchShape := mkLogicalBatchShape {
  lbs_decode_rows : nat;
  lbs_prefill_rows : nat;
  lbs_total_rows : nat;
  lbs_decode_tokens : nat;
  lbs_prefill_tokens : nat;
  lbs_scheduled_tokens : nat;
}.

Definition from_rows (decode_rows : list LogicalDecodeRow) (prefill_rows : list LogicalPrefillRow)
    : LogicalBatchShape :=
  let decode_tokens := length decode_rows in
  let prefill_tokens := sum_list (token_count <$> prefill_rows) in
  mkLogicalBatchShape (length decode_rows) (length prefill_rows)
    (length decode_rows + length prefill_rows) decode_tokens prefill_tokens
    (decode_tokens + prefill_tokens).

Record LogicalSpecDecodeRow := mkLogicalSpecDecodeRow {
  lsr_decode_row_index : nat;
  lsr_draft_tokens : list Token;
  lsr_draft_mode : DraftMode;
}.

Record LogicalSparseDraftView := mkLogicalSparseDraftView {
  lsv_decode_row_index : nat;
  lsv_allowed_block_ids : list BlockId;
  lsv_recent_window_tokens : nat;
}.

Record LogicalServePlan := mkLogicalServePlan {
  decode_rows : list LogicalDecodeRow;
  prefill_rows : list LogicalPrefillRow;
  batch_shape : LogicalBatchShape;
  spec_rows : list LogicalSpecDecodeRow;
  sparse_views : list LogicalSparseDraftView;
}.

Definition LogicalServePlan_new (d : list LogicalDecodeRow) (p : list LogicalPrefillRow)
    : LogicalServePlan :=
  mkLogicalServePlan d p (from_rows d p) [] [].

Definition with_spec_rows (rows : list LogicalSpecDecodeRow) (p : LogicalServePlan) : LogicalServePlan :=
  mkLogicalServePlan (decode_rows p) (prefill_rows p) (batch_shape p) rows (sparse_views p).

Definition with_sparse_views (views : list LogicalSparseDraftView) (p : LogicalServePlan)
    : LogicalServePlan :=
  mkLogicalServePlan (decode_rows p) (prefill_rows p) (batch_shape p) (spec_rows p) views.

Definition idle : LogicalServePlan :=
  mkLogicalServePlan [] [] (mkLogicalBatchShape 0 0 0 0 0 0) [] [].

Definition is_empty {A} (l : list A) : bool := match l with [] => true | _ => false end.

Definition is_idle (p : LogicalServePlan) : bool :=
  is_empty (decode_rows p) && is_empty (prefill_rows p) && is_empty (spec_rows p)
  && is_empty (sparse_views p).

(** The shape cached in a plan is the shape of its rows; annotating a plan
    with speculative rows or sparse views keeps it. *)
Definition shape_ok (p : LogicalServePlan) : Prop :=
  batch_shape p = from_rows (decode_rows p) (prefill_rows p).

Lemma idle_shape_ok : shape_ok idle.
Proof. done. Qed.
Lemma new_shape_ok d p : shape_ok (LogicalServePlan_new d p).
Proof. done. Qed.
Lemma annotate_shape_ok p rows views :
  shape_ok p -> shape_ok (with_sparse_views views (with_spec_rows rows p)).
Proof. done. Qed.

Lemma new_is_idle d p : is_idle (LogicalServePlan_new d p) = true <-> d = [] /\ p = [].
Proof. unfold is_idle. destruct d, p; cbn; naive_solver. Qed.
