(* ===== verification/BatchScheduler.v ===== *)
(** * Continuous-batching scheduler

    Models [infer/src/scheduler/batch.rs] over the block manager. The event
    sink is the list of the events emitted so far. *)

From S2P Require Import Prelude Tier Policy Plan.
From S2P Require BlockManager.
Import BlockManager (AOk, AErr).

(** ** Data *)
Inductive RequestPriority := Low | Normal | High.

Record EngineEvent := mkEngineEvent {
  ev_request_id : RequestId;
  ev_kind : RequestEventKind;
  ev_mode : option InferenceMode;
}.

Record PendingRequest := mkPendingRequest {
  p_req_id : RequestId;
  p_prompt_tokens : list Token;
  p_max_tokens : nat;
  p_priority : RequestPriority;
  p_prefill_progress : nat;
  p_allocated_blocks : list BlockId;
}.

Record RunningRequest := mkRunningRequest {
  r_req_id : RequestId;
  r_prompt_tokens : list Token;
  r_generated_tokens : nat;
  r_max_tokens : nat;
  r_blocks : list BlockId;
  r_kv_tokens : nat;
}.

Definition prompt_len (r : RunningRequest) : nat := length (r_prompt_tokens r).

Record BatchSchedulerConfig := mkBatchSchedulerConfig {
  max_tokens_per_step : nat;
  prefill_chunk_size : nat;
  chunking_policy : DecodeAwareChunking;
}.

Definition BatchSchedulerConfig_default : BatchSchedulerConfig :=
  mkBatchSchedulerConfig 2048 512 (mkDecodeAwareChunking 64 512).

Record BatchScheduler := mkBatchScheduler {
  config : BatchSchedulerConfig;
  waiting : list PendingRequest;
  running : gmap RequestId RunningRequest;
  block_manager : BlockManager.BlockManager;
  next_req_id : N;
  events : list EngineEvent;
}.

Definition set_waiting (w : list PendingRequest) (s : BatchScheduler) :=
  mkBatchScheduler (config s) w (running s) (block_manager s) (next_req_id s) (events s).
Definition set_running (r : gmap RequestId RunningRequest) (s : BatchScheduler) :=
  mkBatchScheduler (config s) (waiting s) r (block_manager s) (next_req_id s) (events s).
Definition set_block_manager (m : BlockManager.BlockManager) (s : BatchScheduler) :=
  mkBatchScheduler (config s) (waiting s) (running s) m (next_req_id s) (events s).
Definition set_next_req_id (i : N) (s : BatchScheduler) :=
  mkBatchScheduler (config s) (waiting s) (running s) (block_manager s) i (events s).

Definition BatchScheduler_new (c : BatchSchedulerConfig) (m : BlockManager.BlockManager)
    : BatchScheduler :=
  mkBatchScheduler c [] ∅ m 0 [].

Definition emit_event (id : RequestId) (k : RequestEventKind) (mode : option InferenceMode)
    (s : BatchScheduler) : BatchScheduler :=
  mkBatchScheduler (config s) (waiting s) (running s) (block_manager s) (next_req_id s)
    (events s ++ [mkEngineEvent id k mode]).

(** ** Operations *)
Definition add_request (prompt_tokens : list Token) (max_tokens : nat) (priority : RequestPriority)
    (s : BatchScheduler) : BatchScheduler * RequestId :=
  let req_id := next_req_id s in
  let s := set_next_req_id (u64_add req_id 1) s in
  let s := set_waiting (waiting s ++ [mkPendingRequest req_id prompt_tokens max_tokens priority 0 []]) s in
  (emit_event req_id Enqueued None s, req_id).

(** The counters are bumped before the allocation is tried, and stay bumped
    when it fails. *)
Definition advance_decode (req_id : RequestId) (s : BatchScheduler) : res (BatchScheduler * bool) :=
  match running s !! req_id with
  | None => Done (s, false)
  | Some req =>
      let req := mkRunningRequest (r_req_id req) (r_prompt_tokens req) (r_generated_tokens req + 1)
                   (r_max_tokens req) (r_blocks req) (r_kv_tokens req + 1) in
      let s := set_running (<[req_id := req]> (running s)) s in
      let blocks_needed := BlockManager.blocks_for_tokens (block_manager s) (r_kv_tokens req) in
      if bool_decide (length (r_blocks req) < blocks_needed) then
        '(m, r) ← BlockManager.allocate_gpu (block_manager s) (blocks_needed - length (r_blocks req));
        let s := set_block_manager m s in
        match r with
        | AOk new_blocks =>
            let req := mkRunningRequest (r_req_id req) (r_prompt_tokens req) (r_generated_tokens req)
                         (r_max_tokens req) (r_blocks req ++ new_blocks) (r_kv_tokens req) in
            let s := set_running (<[req_id := req]> (running s)) s in
            Done (emit_event req_id DecodeStep (Some Decode) s, true)
        | AErr _ => Done (s, false)
        end
      else Done (emit_event req_id DecodeStep (Some Decode) s, true)
  end.

Definition finish_request (req_id : RequestId) (s : BatchScheduler) : res BatchScheduler :=
  s ← match running s !! req_id with
      | Some req =>
          let s := set_running (delete req_id (running s)) s in
          m ← BlockManager.free (block_manager s) (r_blocks req);
          Done (emit_event req_id Completed (Some Decode) (set_block_manager m s))
      | None => Done s
      end;
  Done (set_waiting (filter (fun r => p_req_id r <> req_id) (waiting s)) s).

Definition waiting_len (s : BatchScheduler) : nat := length (waiting s).
Definition running_len (s : BatchScheduler) : nat := size (running s).
Definition is_running (id : RequestId) (s : BatchScheduler) : bool := bool_decide (is_Some (running s !! id)).
Definition is_waiting (id : RequestId) (s : BatchScheduler) : bool :=
  existsb (fun r => bool_decide (p_req_id r = id)) (waiting s).

(** *** Preemption *)

(** Blocks one running request needs to take one more token. *)
Definition growth (m : BlockManager.BlockManager) (r : RunningRequest) : nat :=
  BlockManager.blocks_for_tokens m (r_kv_tokens r + 1) - length (r_blocks r).

Definition new_blocks_needed (s : BatchScheduler) : nat :=
  map_fold (fun _ r acc => growth (block_manager s) r + acc) 0 (running s).

(** [self.running.keys().max()]. *)
Definition max_key {A} (m : gmap N A) : option N :=
  map_fold (fun k _ acc => match acc with None => Some k | Some k' => Some (N.max k k') end) None m.

Definition preempt (id : RequestId) (s : BatchScheduler) : res BatchScheduler :=
  req ← expect (running s !! id);
  let s := set_running (delete id (running s)) s in
  m ← BlockManager.free (block_manager s) (r_blocks req);
  let s := emit_event id Evicted (Some Decode) (set_block_manager m s) in
  let s := set_waiting (mkPendingRequest id (r_prompt_tokens req) (r_max_tokens req) Normal 0 []
                          :: waiting s) s in
  Done (emit_event id Requeued None s).

Fixpoint ensure_decode_memory_loop (fuel : nat) (s : BatchScheduler) (preempted : bool)
    : res (BatchScheduler * bool) :=
  match fuel with
  | 0 => OutOfFuel
  | S fuel =>
      if bool_decide (new_blocks_needed s <= BlockManager.free_gpu_blocks (block_manager s))
      then Done (s, preempted)
      else match max_key (running s) with
           | None => Done (s, preempted)
           | Some preempt_id =>
               s ← preempt preempt_id s;
               ensure_decode_memory_loop fuel s true
           end
  end.

(** Every turn that does not leave the loop removes a running request. *)
Definition ensure_decode_memory (s : BatchScheduler) : res (BatchScheduler * bool) :=
  ensure_decode_memory_loop (S (size (running s))) s false.

(** *** Planning *)
Definition decode_row (i : nat) (req : RunningRequest) : LogicalDecodeRow :=
  mkLogicalDecodeRow i (r_req_id req) 0 (prompt_len req + (r_generated_tokens req - 1)).

(** [ids.sort_unstable()] on distinct keys: insertion sort gives the same
    list. *)
Fixpoint insert_sorted (x : N) (l : list N) : list N :=
  match l with
  | [] => [x]
  | y :: l' => if bool_decide (x <= y)%N then x :: l else y :: insert_sorted x l'
  end.
Definition sort_ids (l : list N) : list N := foldr insert_sorted [] l.

Definition build_decode_rows (s : BatchScheduler) : res (list LogicalDecodeRow) :=
  let ids := sort_ids (elements (dom (running s))) in
  fold_res (fun rows id =>
    req ← expect (running s !! id);
    Done (rows ++ [decode_row (length rows) req])) ids [].

Definition prefill_chunk_budget (s : BatchScheduler) : nat :=
  let signals := queue_state (length (waiting s)) (size (running s)) in
  Nat.min (Nat.max (next_chunk_size (chunking_policy (config s)) Prefill signals) 1)
    (prefill_chunk_size (config s)).

(** The head of the queue after its chunk: [pending] with its new blocks, the
    chunk's bounds and tokens. [None] when nothing can be admitted. *)
Record Chunk := mkChunk {
  chunk_pending : PendingRequest;
  chunk_tokens : list Token;
  chunk_start : nat;
  chunk_end : nat;
}.

Definition admit_chunk (policy_chunk_budget token_budget : nat) (pending : PendingRequest)
    (m : BlockManager.BlockManager) : res (BlockManager.BlockManager * option Chunk) :=
  let total_tokens := length (p_prompt_tokens pending) in
  let prompt_start := p_prefill_progress pending in
  let remaining := total_tokens - prompt_start in
  let n := Nat.min (Nat.min remaining policy_chunk_budget) token_budget in
  if bool_decide (n = 0) then Done (m, None)
  else
    let prompt_end := prompt_start + n in
    let blocks_needed := BlockManager.blocks_for_tokens m prompt_end in
    let extra_needed := blocks_needed - length (p_allocated_blocks pending) in
    '(m, r) ← (if bool_decide (0 < extra_needed)
               then BlockManager.allocate_gpu m extra_needed
               else Done (m, AOk []));
    match r with
    | AErr _ => Done (m, None)
    | AOk new_blocks =>
        chunk ← slice (p_prompt_tokens pending) prompt_start prompt_end;
        let is_last_chunk := bool_decide (total_tokens <= prompt_end) in
        let progress := if is_last_chunk then prompt_start else prompt_end in
        Done (m, Some (mkChunk
          (mkPendingRequest (p_req_id pending) (p_prompt_tokens pending) (p_max_tokens pending)
             (p_priority pending) progress (p_allocated_blocks pending ++ new_blocks))
          chunk prompt_start prompt_end))
    end.

Definition try_admit_prefill_chunk (token_budget row_index : nat) (s : BatchScheduler)
    : res (BatchScheduler * option LogicalPrefillRow) :=
  let policy_chunk_budget := prefill_chunk_budget s in
  match waiting s with
  | [] => Done (s, None)
  | pending :: rest =>
      if bool_decide (length (p_prompt_tokens pending) <= p_prefill_progress pending)
      then Done (set_waiting rest s, None)
      else
        '(m, c) ← admit_chunk policy_chunk_budget token_budget pending (block_manager s);
        let s := set_block_manager m s in
        match c with
        | None => Done (s, None)
        | Some c =>
            let pending' := chunk_pending c in
            let req_id := p_req_id pending' in
            let total_tokens := length (p_prompt_tokens pending') in
            let s := set_waiting (pending' :: rest) s in
            let s := if bool_decide (chunk_start c = 0)
                     then emit_event req_id PrefillStarted (Some Prefill) s else s in
            let s :=
              if bool_decide (total_tokens <= chunk_end c) then
                set_running (<[req_id := mkRunningRequest req_id (p_prompt_tokens pending') 0
                                           (p_max_tokens pending') (p_allocated_blocks pending')
                                           total_tokens]> (running s))
                  (set_waiting rest s)
              else s in
            Done (s, Some (LogicalPrefillRow_new row_index req_id (chunk_tokens c)
                             (chunk_start c) (chunk_end c) total_tokens))
        end
  end.

Definition schedule_step (s : BatchScheduler) : res (BatchScheduler * LogicalServePlan) :=
  '(s, preempted) ← ensure_decode_memory s;
  let has_decode := negb (bool_decide (size (running s) = 0)) in
  let has_waiting := negb (is_empty (waiting s)) in
  if negb has_decode && negb has_waiting then Done (s, idle)
  else
    rows ← (if has_decode then build_decode_rows s else Done []);
    let decode_tokens := size (running s) in
    let budget := max_tokens_per_step (config s) - decode_tokens in
    '(s, p) ← (if negb preempted && has_waiting && bool_decide (0 < budget)
               then try_admit_prefill_chunk budget (length rows) s
               else Done (s, None));
    Done (s, LogicalServePlan_new rows (option_list p)).
