(* ===== verification/BatchAccounting.v ===== *)
(** * Block accounting of the batching scheduler, and the operations that keep it

    The invariant that ties the scheduler's queues to the block manager: every
    GPU block is free or held by exactly one request, once. *)

From S2P Require Import Prelude Lists Tier Policy Plan BatchScheduler.
From S2P Require BlockManager.
Import BlockManager (AOk, AErr, get_ref_count).

(** ** Accounts: the manager [m] against the multiset [h] of held blocks *)
Record accounts (m : BlockManager.BlockManager) (h : list BlockId) : Prop := mk_accounts {
  acc_wf : BlockManager.wf m;
  acc_nodup : NoDup h;
  acc_gpu : forall id, id ∈ h -> exists b,
    BlockManager.blocks m !! id = Some b /\ BlockManager.location b = BlockManager.OnGpu;
  acc_refs : forall id b, BlockManager.blocks m !! id = Some b ->
    BlockManager.location b = BlockManager.OnGpu ->
    BlockManager.ref_count b = N.of_nat (occurrences id h);
}.

(** The accounts do not depend on the order blocks are listed in. *)
#[export] Instance accounts_perm m : Proper ((≡ₚ) ==> iff) (accounts m).
Proof.
  assert (forall h1 h2, h1 ≡ₚ h2 -> accounts m h1 -> accounts m h2) as Himp.
  { intros h1 h2 Hp [Hwf Hnd Hgpu Hrefs]. split; [done|by rewrite <-Hp| |].
    - intros id. rewrite <-Hp. apply Hgpu.
    - intros id b ??. rewrite <-Hp. by apply Hrefs. }
  intros h1 h2 Hp. split; by apply Himp.
Qed.

Lemma accounts_allocate m h n m' ids :
  accounts m h -> BlockManager.allocate_gpu m n = Done (m', AOk ids) ->
  accounts m' (ids ++ h) /\ length ids = n /\
  BlockManager.bm_block_size m' = BlockManager.bm_block_size m.
Proof.
  intros [Hwf Hnd Hgpu Hrefs] Hrun.
  destruct (decide (n <= BlockManager.free_gpu_blocks m)) as [Hn|Hn].
  2: { by rewrite BlockManager.allocate_gpu_short in Hrun by lia. }
  destruct (BlockManager.allocate_gpu_ok m n Hwf Hn) as (m1 & ids1 & Hrun1 & Hlen & Hwf' & Hal).
  rewrite Hrun1 in Hrun. simplify_eq.
  destruct (BlockManager.allocated_fresh _ _ _ _ Hwf Hal) as [Hndi Hfresh].
  destruct Hal as (_ & _ & Hbs & Hblk).
  assert (forall id, id ∈ ids -> id ∉ h) as Hdisj.
  { intros id Hid Hh. destruct (Hfresh id Hid) as (b & Hb & Hloc & Hr & _).
    pose proof (Hrefs id b Hb Hloc). pose proof (occurrences_in id h Hh). lia. }
  split_and!; [|done|done]. split; [done|by apply NoDup_app| |].
  - intros id [Hid|Hid]%elem_of_app.
    + destruct (Hfresh id Hid) as (b & Hb & Hloc & _ & Hb'). by eexists.
    + destruct (Hgpu id Hid) as (b & Hb & Hloc). rewrite Hblk, decide_False by (intros ?; by eapply Hdisj).
      by eexists.
  - intros id b. rewrite Hblk, occurrences_app. case_decide as Hid.
    + intros Hb _. destruct (Hfresh id Hid) as (b0 & Hb0 & _). rewrite Hb0 in Hb. cbn in Hb. simplify_eq.
      rewrite (occurrences_eq id ids), decide_True by done.
      rewrite occurrences_notin by auto. done.
    + intros Hb Hloc. rewrite (occurrences_notin id ids) by done. cbn. by apply Hrefs.
Qed.

Lemma accounts_allocate_err m h n m' e :
  accounts m h -> BlockManager.allocate_gpu m n = Done (m', AErr e) -> m' = m.
Proof.
  intros [Hwf _ _ _] Hrun. destruct (decide (n <= BlockManager.free_gpu_blocks m)) as [Hn|Hn].
  - destruct (BlockManager.allocate_gpu_ok m n Hwf Hn) as (? & ? & Hrun1 & _). by rewrite Hrun1 in Hrun.
  - rewrite BlockManager.allocate_gpu_short in Hrun by lia. by simplify_eq.
Qed.

Lemma accounts_allocate_total m h n :
  accounts m h -> exists m' r, BlockManager.allocate_gpu m n = Done (m', r).
Proof.
  intros [Hwf _ _ _]. destruct (decide (n <= BlockManager.free_gpu_blocks m)) as [Hn|Hn].
  - destruct (BlockManager.allocate_gpu_ok m n Hwf Hn) as (? & ? & ? & _). eauto.
  - rewrite BlockManager.allocate_gpu_short by lia. eauto.
Qed.

Lemma total_gpu_same m m' :
  (forall id, BlockManager.location <$> BlockManager.blocks m' !! id
              = BlockManager.location <$> BlockManager.blocks m !! id) ->
  BlockManager.total_gpu_blocks m' = BlockManager.total_gpu_blocks m.
Proof.
  intros Hloc. unfold BlockManager.total_gpu_blocks. rewrite <-!size_dom. f_equal.
  apply set_eq. intros id. rewrite !elem_of_dom. specialize (Hloc id).
  split; intros [b [Hb Hl]%map_lookup_filter_Some]; cbn in Hl; rewrite Hb in Hloc.
  - destruct (BlockManager.blocks m !! id) as [b'|] eqn:E; [|done]. cbn in Hloc. simplify_eq.
    exists b'. apply map_lookup_filter_Some. cbn. split; congruence.
  - destruct (BlockManager.blocks m' !! id) as [b'|] eqn:E; [|done]. cbn in Hloc. simplify_eq.
    exists b'. apply map_lookup_filter_Some. cbn. split; congruence.
Qed.

Lemma accounts_free m h ids :
  accounts m (ids ++ h) ->
  exists m', BlockManager.free m ids = Done m' /\ accounts m' h /\
    BlockManager.bm_block_size m' = BlockManager.bm_block_size m /\
    BlockManager.total_gpu_blocks m' = BlockManager.total_gpu_blocks m.
Proof.
  intros [Hwf Hnd Hgpu Hrefs]. apply NoDup_app in Hnd as (Hndi & Hdisj & Hndh).
  destruct (BlockManager.free_all m ids Hwf) as (m' & Hrun & Hwf' & Hbs & Hblk).
  { intros id Hid. destruct (Hgpu id) as (b & Hb & Hloc); [set_solver|]. exists b. split; [done|].
    rewrite (Hrefs id b Hb Hloc), occurrences_app. lia. }
  exists m'. split_and!; [done| |done|].
  2: { apply total_gpu_same. intros id. rewrite Hblk. by destruct (BlockManager.blocks m !! id). }
  split; [done|done| |].
  - intros id Hid. destruct (Hgpu id) as (b & Hb & Hloc); [set_solver|].
    rewrite Hblk, Hb. eexists. by split.
  - intros id b' Hb' Hloc. rewrite Hblk in Hb'.
    destruct (BlockManager.blocks m !! id) as [b|] eqn:Hb; [|done]. cbn in Hb'. simplify_eq.
    cbn in *. rewrite (Hrefs id b Hb Hloc), occurrences_app. lia.
Qed.

(** Conservation: held and free GPU blocks add up to the whole pool. *)
Lemma accounts_conserve m h :
  accounts m h ->
  length h + BlockManager.free_gpu_blocks m = BlockManager.total_gpu_blocks m.
Proof.
  intros [Hwf Hnd Hgpu Hrefs]. unfold BlockManager.free_gpu_blocks, BlockManager.total_gpu_blocks.
  pose proof (BlockManager.wf_nodup _ Hwf BlockManager.OnGpu) as Hndf.
  rewrite <-(size_list_to_set (C := gset BlockId) h) by done.
  rewrite <-(size_list_to_set (C := gset BlockId) (BlockManager.free_gpu m)) by done.
  rewrite <-size_union, <-size_dom.
  - f_equal. apply set_eq. intros id. rewrite elem_of_union, !elem_of_list_to_set, elem_of_dom.
    rewrite (BlockManager.wf_free _ Hwf BlockManager.OnGpu). split.
    + intros [Hid|(b & Hb & Hloc & _)].
      * destruct (Hgpu id Hid) as (b & ? & ?). exists b. by apply map_lookup_filter_Some.
      * exists b. by apply map_lookup_filter_Some.
    + intros [b [Hb Hloc]%map_lookup_filter_Some]. cbn in Hloc.
      pose proof (Hrefs id b Hb Hloc) as Hr. rewrite occurrences_eq in Hr by done.
      case_decide; [by left|right; eauto].
  - intros id. rewrite !elem_of_list_to_set. intros Hid Hf.
    apply (BlockManager.wf_free _ Hwf BlockManager.OnGpu) in Hf as (b & Hb & Hloc & Hr).
    pose proof (Hrefs id b Hb Hloc). pose proof (occurrences_in id h Hid). lia.
Qed.

(** ** Who holds what *)
Definition held_running (r : gmap RequestId RunningRequest) : list BlockId :=
  concat ((fun p => r_blocks p.2) <$> map_to_list r).
Definition held_waiting (w : list PendingRequest) : list BlockId :=
  concat (p_allocated_blocks <$> w).
Definition held (s : BatchScheduler) : list BlockId :=
  held_running (running s) ++ held_waiting (waiting s).

Lemma held_running_insert r id req :
  r !! id = None -> held_running (<[id := req]> r) ≡ₚ r_blocks req ++ held_running r.
Proof.
  intros Hid. unfold held_running. transitivity (concat ((fun p => r_blocks p.2) <$> ((id, req) :: map_to_list r))); [|done].
  by rewrite (map_to_list_insert r id req Hid).
Qed.

Lemma held_running_delete r id req :
  r !! id = Some req -> held_running r ≡ₚ r_blocks req ++ held_running (delete id r).
Proof.
  intros Hid. rewrite <-(insert_delete_id r id req Hid) at 1.
  rewrite held_running_insert; [done|apply lookup_delete_eq].
Qed.

Lemma held_running_update r id req req' new :
  r !! id = Some req -> r_blocks req' = r_blocks req ++ new ->
  held_running (<[id := req']> r) ≡ₚ new ++ held_running r.
Proof.
  intros Hid Hnew. rewrite <-insert_delete_eq, held_running_insert by apply lookup_delete_eq.
  rewrite (held_running_delete r id req) by done. rewrite Hnew, <-app_assoc.
  apply Permutation_app_swap_app.
Qed.

(** A queued request covers exactly the blocks of the tokens prefilled so far;
    a running one counts its prompt and what it generated. *)
Definition pending_ok (s : BatchScheduler) (p : PendingRequest) : Prop :=
  (p_prefill_progress p = 0 \/ p_prefill_progress p < length (p_prompt_tokens p)) /\
  length (p_allocated_blocks p) = BlockManager.blocks_for_tokens (block_manager s) (p_prefill_progress p) /\
  (p_req_id p < next_req_id s)%N /\ running s !! p_req_id p = None.

Definition running_ok (s : BatchScheduler) (id : RequestId) (r : RunningRequest) : Prop :=
  r_req_id r = id /\ r_kv_tokens r = prompt_len r + r_generated_tokens r /\ (id < next_req_id s)%N.

Record wf (s : BatchScheduler) : Prop := mk_wf {
  wf_accounts : accounts (block_manager s) (held s);
  wf_pending : Forall (pending_ok s) (waiting s);
  wf_ids : NoDup (p_req_id <$> waiting s);
  wf_running : map_Forall (running_ok s) (running s);
}.

Lemma scheduler_new_wf c m :
  BlockManager.wf m -> (forall id, get_ref_count m id = 0%N) -> wf (BatchScheduler_new c m).
Proof.
  intros Hwf Hz. split; cbn; [|constructor|apply NoDup_nil_2|apply map_Forall_empty].
  unfold held, held_running. cbn. rewrite map_to_list_empty. cbn.
  split; [done|apply NoDup_nil_2|by intros id ?%not_elem_of_nil|].
  intros id b Hb _. specialize (Hz id). unfold get_ref_count in Hz. by rewrite Hb in Hz.
Qed.

(** ** The batching scheduler's operations keep its accounts

    Every operation of [infer/src/scheduler/batch.rs] on a scheduler whose
    blocks are accounted for ([BatchAccounting.wf]): it returns, it does what
    it is meant to do, and the accounts still balance. *)

(** ** Frames *)
Lemma pending_ok_frame s s' p :
  BlockManager.bm_block_size (block_manager s') = BlockManager.bm_block_size (block_manager s) ->
  (next_req_id s <= next_req_id s')%N ->
  (running s !! p_req_id p = None -> running s' !! p_req_id p = None) ->
  pending_ok s p -> pending_ok s' p.
Proof.
  unfold pending_ok, BlockManager.blocks_for_tokens. intros -> Hn Hr (? & ? & ? & ?).
  split_and!; auto. lia.
Qed.

Lemma running_ok_frame s s' id r :
  (next_req_id s <= next_req_id s')%N -> running_ok s id r -> running_ok s' id r.
Proof. unfold running_ok. intros ? (? & ? & ?). split_and!; auto. lia. Qed.

Lemma emit_wf s id k mode : wf s -> wf (emit_event id k mode s).
Proof. intros [? ? ? ?]. by split. Qed.

#[export] Hint Resolve emit_wf : arle.

Lemma wf_block_size s : wf s -> 0 < BlockManager.bm_block_size (block_manager s).
Proof. intros Hwf. apply Hwf. Qed.

(** [blocks_for_tokens] is monotone. *)
Lemma blocks_for_tokens_mono m a b :
  a <= b -> BlockManager.blocks_for_tokens m a <= BlockManager.blocks_for_tokens m b.
Proof. intros. unfold BlockManager.blocks_for_tokens, div_ceil. apply Nat.Div0.div_le_mono. lia. Qed.

Lemma blocks_for_tokens_0 m : 0 < BlockManager.bm_block_size m -> BlockManager.blocks_for_tokens m 0 = 0.
Proof. intros. unfold BlockManager.blocks_for_tokens, div_ceil. apply Nat.div_small. lia. Qed.

(** An allocation inside a step: the accounts of the new state, whatever the
    outcome. *)
Lemma allocate_cases m h n :
  accounts m h ->
  (exists m' ids, BlockManager.allocate_gpu m n = Done (m', AOk ids) /\ accounts m' (ids ++ h) /\
     length ids = n /\ n <= BlockManager.free_gpu_blocks m /\
     BlockManager.bm_block_size m' = BlockManager.bm_block_size m) \/
  (exists e, BlockManager.allocate_gpu m n = Done (m, AErr e) /\ BlockManager.free_gpu_blocks m < n).
Proof.
  intros Hacc. destruct (decide (n <= BlockManager.free_gpu_blocks m)) as [Hn|Hn].
  - left. destruct (BlockManager.allocate_gpu_ok m n (acc_wf _ _ Hacc) Hn) as (m' & ids & Hrun & _).
    destruct (accounts_allocate _ _ _ _ _ Hacc Hrun) as (? & ? & ?). eauto 10.
  - right. rewrite BlockManager.allocate_gpu_short by lia. eexists. split; [done|lia].
Qed.

(** ** Adding a request *)
Lemma add_request_wf toks n prio s :
  wf s -> (next_req_id s < u64_max)%N -> wf (add_request toks n prio s).1.
Proof.
  intros [Hacc Hp Hid Hr] Hn. unfold add_request. cbn. apply emit_wf.
  assert (u64_add (next_req_id s) 1 = next_req_id s + 1)%N as Hnext by (apply u64_add_small; lia).
  split; cbn; rewrite ?Hnext.
  - unfold held, held_waiting in *. cbn in *. rewrite fmap_app, concat_app. cbn. by rewrite !app_nil_r.
  - apply Forall_app. split.
    + eapply Forall_impl; [exact Hp|]. intros p. apply pending_ok_frame; cbn; [done|lia|done].
    + constructor; [|constructor]. split_and!; cbn.
      * by left.
      * symmetry. apply blocks_for_tokens_0, Hacc.
      * lia.
      * destruct (running s !! next_req_id s) as [r|] eqn:E; [|done].
        apply Hr in E as (_ & _ & ?). lia.
  - rewrite fmap_app. apply NoDup_app. split_and!; [done| |apply NoDup_singleton].
    intros x Hx ->%list_elem_of_singleton. apply list_elem_of_fmap in Hx as (p & Hp' & Hin).
    rewrite Forall_forall in Hp. destruct (Hp p Hin) as (_ & _ & ? & _). cbn in *. lia.
  - intros id r E. eapply running_ok_frame; [|by apply Hr]. cbn. lia.
Qed.

(** ** Replacing a running request that keeps its identity *)
Lemma update_running_wf s m id req req' new :
  wf s -> running s !! id = Some req ->
  r_req_id req' = r_req_id req -> r_kv_tokens req' = prompt_len req' + r_generated_tokens req' ->
  r_blocks req' = r_blocks req ++ new ->
  accounts m (new ++ held s) ->
  BlockManager.bm_block_size m = BlockManager.bm_block_size (block_manager s) ->
  wf (set_block_manager m (set_running (<[id := req']> (running s)) s)).
Proof.
  intros [Hacc Hp Hid Hr] E Hreq Hkv Hblk Hacc' Hbs. split; cbn; [| |done|].
  - unfold held in *. cbn. rewrite (held_running_update _ _ _ _ new E Hblk). by rewrite <-app_assoc.
  - eapply Forall_impl; [exact Hp|]. intros p Hpo. eapply pending_ok_frame; [..|exact Hpo]; cbn; [done|lia|].
    intros Hn. rewrite lookup_insert_ne; [done|]. intros ->. congruence.
  - apply map_Forall_insert_2; [|intros j r Ej; by apply Hr].
    destruct (Hr id req E) as (? & ? & ?). split_and!; cbn; [congruence|done|done].
Qed.

Definition bump (req : RunningRequest) : RunningRequest :=
  mkRunningRequest (r_req_id req) (r_prompt_tokens req) (r_generated_tokens req + 1)
    (r_max_tokens req) (r_blocks req) (r_kv_tokens req + 1).

Definition bump_grow (new : list BlockId) (req : RunningRequest) : RunningRequest :=
  mkRunningRequest (r_req_id req) (r_prompt_tokens req) (r_generated_tokens req + 1)
    (r_max_tokens req) (r_blocks req ++ new) (r_kv_tokens req + 1).

(** [advance_decode] returns; it succeeds exactly when the blocks the next
    token needs are free, and then the request's blocks cover its tokens. *)
Lemma advance_decode_ok id s :
  wf s ->
  match running s !! id with
  | None => advance_decode id s = Done (s, false)
  | Some req =>
      let ok := bool_decide (growth (block_manager s) req <= BlockManager.free_gpu_blocks (block_manager s)) in
      exists s' req', advance_decode id s = Done (s', ok) /\ wf s' /\
        running s' = <[id := req']> (running s) /\ waiting s' = waiting s /\
        r_kv_tokens req' = r_kv_tokens req + 1 /\
        r_generated_tokens req' = r_generated_tokens req + 1 /\
        (ok = true -> BlockManager.blocks_for_tokens (block_manager s') (r_kv_tokens req')
                        <= length (r_blocks req')) /\
        (ok = false -> req' = bump req /\ block_manager s' = block_manager s)
  end.
Proof.
  intros Hwf. unfold advance_decode. destruct (running s !! id) as [req|] eqn:E; [|done]. cbn.
  destruct (wf_running _ Hwf id req E) as (Hid & Hkv & Hlt).
  set (need := BlockManager.blocks_for_tokens (block_manager s) (r_kv_tokens req + 1)).
  change (growth (block_manager s) req) with (need - length (r_blocks req)).
  case_bool_decide as Hneed.
  - destruct (allocate_cases _ _ (need - length (r_blocks req)) (wf_accounts _ Hwf))
      as [(m' & ids & Hrun & Hacc & Hlen & Hle & Hbs)|(e & Hrun & Hlt')]; rewrite Hrun; cbn.
    + rewrite bool_decide_eq_true_2 by done. rewrite insert_insert_eq.
      eexists _, (bump_grow ids req). split; [done|].
      split_and!; [|done|done|done|done| |done].
      * apply emit_wf.
        apply (update_running_wf s m' id req (bump_grow ids req) ids); [done|done|done| |done|done|done].
        unfold bump_grow, prompt_len in *. cbn. lia.
      * intros _. cbn. unfold BlockManager.blocks_for_tokens. rewrite Hbs, length_app, Hlen.
        fold (BlockManager.blocks_for_tokens (block_manager s) (r_kv_tokens req + 1)). fold need. lia.
    + rewrite bool_decide_eq_false_2 by lia. exists (set_block_manager (block_manager s)
        (set_running (<[id := bump req]> (running s)) s)), (bump req).
      split_and!; [done| |done..].
      apply (update_running_wf s _ id req (bump req) []); [done|exact E|done| |cbn; by rewrite app_nil_r|apply Hwf|done].
      unfold bump, prompt_len in *. cbn. lia.
  - rewrite bool_decide_eq_true_2 by lia. exists (emit_event id DecodeStep (Some Decode)
      (set_block_manager (block_manager s) (set_running (<[id := bump req]> (running s)) s))), (bump req).
    split_and!; [done| |done|done|done|done| |done].
    + apply emit_wf. apply (update_running_wf s _ id req (bump req) []);
        [done|exact E|done| |cbn; by rewrite app_nil_r|apply Hwf|done].
      unfold bump, prompt_len in *. cbn. lia.
    + intros _. cbn. fold need. lia.
Qed.

(** ** Removing a running request *)
Lemma remove_running s id req :
  wf s -> running s !! id = Some req ->
  exists m, BlockManager.free (block_manager s) (r_blocks req) = Done m /\
    accounts m (held_running (delete id (running s)) ++ held_waiting (waiting s)) /\
    BlockManager.bm_block_size m = BlockManager.bm_block_size (block_manager s) /\
    BlockManager.total_gpu_blocks m = BlockManager.total_gpu_blocks (block_manager s).
Proof.
  intros [Hacc _ _ _] E. apply accounts_free.
  unfold held in Hacc. rewrite (held_running_delete _ _ _ E), <-app_assoc in Hacc. done.
Qed.

Lemma delete_running_wf s m id w :
  wf s ->
  accounts m (held_running (delete id (running s)) ++ held_waiting w) ->
  BlockManager.bm_block_size m = BlockManager.bm_block_size (block_manager s) ->
  Forall (fun p => p ∈ waiting s \/
            (p_req_id p = id /\ (id < next_req_id s)%N /\ p_prefill_progress p = 0 /\
             p_allocated_blocks p = [])) w ->
  NoDup (p_req_id <$> w) ->
  wf (set_waiting w (set_block_manager m (set_running (delete id (running s)) s))).
Proof.
  intros [Hacc Hp Hid Hr] Hacc' Hbs Hw Hnd. split; cbn; [done| |done|].
  - rewrite Forall_forall in *. intros p Hin. destruct (Hw p Hin) as [Hold|(Heq & Hlt & H0 & Hb)].
    + eapply pending_ok_frame; [..|apply Hp, Hold]; cbn; [done|lia|].
      intros ?. rewrite lookup_delete_None. by right.
    + split_and!; cbn; [by left| |by rewrite Heq|rewrite Heq; apply lookup_delete_eq].
      rewrite Hb, H0. symmetry. apply blocks_for_tokens_0. rewrite Hbs. apply Hacc.
  - intros j r [_ Ej]%lookup_delete_Some. by apply Hr.
Qed.

(** The blocks a queued request holds are only given back by running it to the
    end: [finish_request] on a queued request drops them. *)
Definition no_queued_blocks (id : RequestId) (s : BatchScheduler) : Prop :=
  Forall (fun p => p_req_id p = id -> p_allocated_blocks p = []) (waiting s).

Lemma held_waiting_filter id w :
  Forall (fun p => p_req_id p = id -> p_allocated_blocks p = []) w ->
  held_waiting (filter (fun r => p_req_id r <> id) w) = held_waiting w.
Proof.
  unfold held_waiting. induction 1 as [|p w Hp Hw IH]; [done|]. rewrite filter_cons.
  case_decide as Hd; cbn; [by rewrite IH|].
  by rewrite (Hp Hd).
Qed.

Lemma NoDup_filter_fmap {A B} (f : A -> B) (P : A -> Prop) `{!forall x, Decision (P x)} (l : list A) :
  NoDup (f <$> l) -> NoDup (f <$> filter P l).
Proof.
  induction l as [|x l IH]; [done|]. rewrite filter_cons, fmap_cons, NoDup_cons. intros [Hx Hl].
  case_decide; [|auto]. rewrite fmap_cons. apply NoDup_cons. split; [|auto].
  intros (y & Heq & Hy)%list_elem_of_fmap. apply list_elem_of_filter in Hy as [_ Hy].
  apply Hx. rewrite Heq. by apply list_elem_of_fmap_2.
Qed.

Lemma finish_request_ok id s :
  wf s -> no_queued_blocks id s ->
  exists s', finish_request id s = Done s' /\ wf s' /\
    running s' = delete id (running s) /\
    waiting s' = filter (fun r => p_req_id r <> id) (waiting s) /\
    BlockManager.total_gpu_blocks (block_manager s') = BlockManager.total_gpu_blocks (block_manager s).
Proof.
  intros Hwf Hq. unfold finish_request.
  assert (NoDup (p_req_id <$> filter (fun r => p_req_id r <> id) (waiting s))) as Hnd
    by apply NoDup_filter_fmap, Hwf.
  assert (Forall (fun p => p ∈ waiting s \/
            (p_req_id p = id /\ (id < next_req_id s)%N /\ p_prefill_progress p = 0 /\
             p_allocated_blocks p = [])) (filter (fun r => p_req_id r <> id) (waiting s))) as Hin.
  { apply Forall_forall. intros p [_ ?]%list_elem_of_filter. by left. }
  destruct (running s !! id) as [req|] eqn:E.
  - destruct (remove_running s id req Hwf E) as (m & Hrun & Hacc & Hbs & Htot). cbn. rewrite Hrun. cbn.
    eexists. split; [done|]. split_and!; [|done..].
    rewrite <-(held_waiting_filter id) in Hacc by done.
    exact (emit_wf _ id Completed (Some Decode) (delete_running_wf s m id _ Hwf Hacc Hbs Hin Hnd)).
  - cbn. exists (set_waiting (filter (fun r => p_req_id r <> id) (waiting s)) s).
    assert (running s = delete id (running s)) as Hdel by (by rewrite delete_id).
    split_and!; [done| |done..].
    assert (accounts (block_manager s) (held_running (delete id (running s)) ++
      held_waiting (filter (fun r => p_req_id r <> id) (waiting s)))) as Hacc.
    { rewrite <-Hdel, held_waiting_filter by done. apply Hwf. }
    pose proof (delete_running_wf s _ id _ Hwf Hacc eq_refl Hin Hnd) as Hwf'.
    rewrite <-Hdel in Hwf'. exact Hwf'.
Qed.
