(* ===== verification/BatchStep.v ===== *)
(** * One step of the batching scheduler

    [ensure_decode_memory], the decode rows, the admission of one prefill
    chunk and [schedule_step] of [infer/src/scheduler/batch.rs]; then the
    scheduler as a transition system and what holds in every state it reaches. *)

From S2P Require Import Prelude Lists Tier Policy Plan BatchScheduler BatchAccounting.
From S2P Require BlockManager.
Import BlockManager (AOk, AErr, get_ref_count).

(** ** Preemption *)
Definition requeue (id : RequestId) (req : RunningRequest) : PendingRequest :=
  mkPendingRequest id (r_prompt_tokens req) (r_max_tokens req) Normal 0 [].

Lemma queued_not_running s id : wf s -> is_Some (running s !! id) -> id ∉ p_req_id <$> waiting s.
Proof.
  intros Hwf [r Hr] (p & -> & Hp)%list_elem_of_fmap. pose proof (wf_pending _ Hwf) as H.
  rewrite Forall_forall in H. destruct (H p Hp) as (_ & _ & _ & ?). congruence.
Qed.

Lemma preempt_ok id req s :
  wf s -> running s !! id = Some req ->
  exists s', preempt id s = Done s' /\ wf s' /\ running s' = delete id (running s) /\
    waiting s' = requeue id req :: waiting s /\ config s' = config s.
Proof.
  intros Hwf E. unfold preempt. rewrite E. cbn.
  destruct (remove_running s id req Hwf E) as (m & Hrun & Hacc & Hbs & _). rewrite Hrun. cbn.
  eexists. split; [done|]. split_and!; [|done..].
  destruct (wf_running _ Hwf id req E) as (_ & _ & Hlt).
  assert (wf (set_waiting (requeue id req :: waiting s)
                (set_block_manager m (set_running (delete id (running s)) s)))) as Hwf'.
  { apply delete_running_wf; [done|exact Hacc|done| |].
    - constructor; [right; by split_and!|]. apply Forall_forall. by left.
    - cbn. apply NoDup_cons. split; [eapply queued_not_running; eauto|apply Hwf]. }
  exact (emit_wf _ id Requeued None (emit_wf _ id Evicted (Some Decode) Hwf')).
Qed.

Lemma max_key_spec {A} (m : gmap N A) :
  match max_key m with
  | None => m = ∅
  | Some k => is_Some (m !! k) /\ forall k', is_Some (m !! k') -> (k' <= k)%N
  end.
Proof.
  unfold max_key.
  apply (map_fold_weak_ind (fun (o : option N) (m : gmap N A) =>
    match o with None => m = ∅
    | Some k => is_Some (m !! k) /\ forall k', is_Some (m !! k') -> (k' <= k)%N end)); [done|].
  intros i x m' [k|] Hi IH.
  - destruct IH as [Hk Hmax]. split.
    + destruct (N.max_spec i k) as [[_ ->]|[_ ->]].
      * rewrite lookup_insert_ne; [done|]. intros ->. rewrite Hi in Hk. by destruct Hk.
      * rewrite lookup_insert_eq. eauto.
    + intros k' [y [[<- _]|[_ Hk']]%lookup_insert_Some]; [lia|].
      assert (k' <= k)%N by eauto. lia.
  - subst. split; [rewrite lookup_insert_eq; eauto|].
    intros k' [y [[<- _]|[_ Hk']]%lookup_insert_Some]; [lia|]. by rewrite lookup_empty in Hk'.
Qed.

Lemma new_blocks_needed_empty s : running s = ∅ -> new_blocks_needed s = 0.
Proof. intros E. unfold new_blocks_needed. rewrite E. by rewrite map_fold_empty. Qed.

(** What [ensure_decode_memory] leaves: [pre] is what it put back in front of
    the queue. *)
Record preempted_to (s s' : BatchScheduler) (pre : list PendingRequest) : Prop := mk_preempted_to {
  pt_wf : wf s';
  pt_config : config s' = config s;
  pt_fits : new_blocks_needed s' <= BlockManager.free_gpu_blocks (block_manager s');
  pt_waiting : waiting s' = pre ++ waiting s;
  pt_sub : running s' ⊆ running s;
  pt_pre : forall p, p ∈ pre -> exists req, running s !! p_req_id p = Some req /\
             p = requeue (p_req_id p) req /\ running s' !! p_req_id p = None;
  pt_lost : forall id, is_Some (running s !! id) -> running s' !! id = None -> id ∈ p_req_id <$> pre;
  pt_newest : forall p id, p ∈ pre -> is_Some (running s' !! id) -> (id < p_req_id p)%N;
  pt_sorted : StronglySorted N.lt (p_req_id <$> pre);
  pt_same : pre = [] -> s' = s;
  pt_minimal : forall p pre', pre = p :: pre' -> exists s0 req,
    running s !! p_req_id p = Some req /\ running s0 = <[p_req_id p := req]> (running s') /\
    BlockManager.free_gpu_blocks (block_manager s0) < new_blocks_needed s0 /\ preempt (p_req_id p) s0 = Done s';
}.

Lemma preempted_more k req s s1 s' pre :
  running s !! k = Some req -> (forall id, is_Some (running s !! id) -> (id <= k)%N) ->
  running s1 = delete k (running s) -> waiting s1 = requeue k req :: waiting s -> config s1 = config s ->
  BlockManager.free_gpu_blocks (block_manager s) < new_blocks_needed s -> preempt k s = Done s1 ->
  preempted_to s1 s' pre -> preempted_to s s' (pre ++ [requeue k req]).
Proof.
  intros E Hmax Hr Hw Hc Hshort Hrun [Hwf Hcfg Hfit Hwait Hsub Hpre Hlost Hnew Hsort Hsame Hmin].
  assert (forall id, is_Some (running s1 !! id) -> (id < k)%N) as Hlt.
  { intros id Hid. rewrite Hr in Hid. destruct Hid as [r [Hne Hid]%lookup_delete_Some].
    assert (id <= k)%N by eauto. lia. }
  assert (running s' !! k = None) as Hk.
  { eapply lookup_weaken_None; [|exact Hsub]. rewrite Hr. apply lookup_delete_eq. }
  split; [done|congruence|done| | | | | | | |].
  - by rewrite Hwait, Hw, <-app_assoc.
  - rewrite Hsub, Hr. apply delete_subseteq.
  - intros p [Hp| ->%list_elem_of_singleton]%elem_of_app; [|by exists req].
    destruct (Hpre p Hp) as (r & Hpr & ?). exists r. split; [|done].
    rewrite Hr in Hpr. by apply lookup_delete_Some in Hpr as [_ ?].
  - intros id Hid Hnone. rewrite fmap_app, elem_of_app. destruct (decide (id = k)) as [->|Hne].
    { right. set_solver. }
    left. apply Hlost; [|done]. by rewrite Hr, lookup_delete_ne.
  - intros p id [Hp| ->%list_elem_of_singleton]%elem_of_app Hid; [by apply Hnew|]. cbn.
    apply Hlt. destruct Hid as [r Hid]. exists r. by eapply lookup_weaken.
  - rewrite fmap_app. apply StronglySorted_snoc; [done|]. intros y (p & -> & Hp)%list_elem_of_fmap.
    destruct (Hpre p Hp) as (r & Hpr & _). cbn. eauto.
  - by destruct pre.
  - intros p pre' Heq. destruct pre as [|p1 pre].
    + injection Heq as <- <-. exists s, req. rewrite (Hsame eq_refl), Hr. cbn. split_and!; [done| |done|done].
      by rewrite insert_delete_eq, insert_id.
    + injection Heq as <- <-. destruct (Hmin p1 pre eq_refl) as (s0 & r & Hp1 & Hrest). exists s0, r. split; [|done].
      rewrite Hr in Hp1. by apply lookup_delete_Some in Hp1 as [_ ?].
Qed.

Lemma ensure_loop_ok fuel : forall s b,
  wf s -> size (running s) < fuel ->
  exists s' pre, ensure_decode_memory_loop fuel s b = Done (s', b || negb (is_empty pre)) /\
    preempted_to s s' pre.
Proof.
  induction fuel as [|fuel IH]; intros s b Hwf Hf; [lia|]. cbn [ensure_decode_memory_loop].
  case_bool_decide as Hfit.
  { exists s, []. rewrite orb_false_r. split; [done|]. split; try done.
    - intros p ?%not_elem_of_nil. done.
    - intros id [r Hr] ?. congruence.
    - intros p id ?%not_elem_of_nil. done.
    - constructor. }
  apply Nat.nle_gt in Hfit.
  pose proof (max_key_spec (running s)) as Hmax. destruct (max_key (running s)) as [k|].
  2: { rewrite (new_blocks_needed_empty s Hmax) in Hfit. lia. }
  destruct Hmax as [[req E] Hmax].
  destruct (preempt_ok k req s Hwf E) as (s1 & Hrun & Hwf1 & Hr1 & Hw1 & Hc1). rewrite Hrun. cbn [mbind res_bind].
  destruct (IH s1 true Hwf1) as (s' & pre & Hrun' & Hpt).
  { rewrite Hr1. pose proof (map_size_delete_Some k (running s) (ex_intro _ req E)).
    assert (0 < size (running s)); [|lia].
    apply Nat.neq_0_lt_0. intros He%map_size_empty_iff. by rewrite He, lookup_empty in E. }
  exists s', (pre ++ [requeue k req]). rewrite Hrun'. split; [|by eapply preempted_more].
  f_equal. f_equal. destruct b, pre; done.
Qed.

Lemma ensure_decode_memory_ok s :
  wf s -> exists s' pre, ensure_decode_memory s = Done (s', negb (is_empty pre)) /\ preempted_to s s' pre.
Proof. intros Hwf. apply (ensure_loop_ok _ s false Hwf). lia. Qed.

(** ** Decode rows *)
Lemma insert_sorted_perm x l : insert_sorted x l ≡ₚ x :: l.
Proof.
  induction l as [|y l IH]; [done|]. cbn. case_bool_decide; [done|]. rewrite IH. apply Permutation_swap.
Qed.

Lemma sort_ids_perm l : sort_ids l ≡ₚ l.
Proof. induction l as [|x l IH]; [done|]. cbn. by rewrite insert_sorted_perm, IH. Qed.

Lemma insert_sorted_lt x l :
  StronglySorted N.lt l -> x ∉ l -> StronglySorted N.lt (insert_sorted x l).
Proof.
  induction 1 as [|y l Hl IH Hy]; intros Hx; cbn; [repeat constructor|].
  apply not_elem_of_cons in Hx as [Hxy Hx]. case_bool_decide as Hc.
  - constructor; [by constructor|]. constructor; [lia|].
    eapply Forall_impl; [exact Hy|]. cbn. intros. lia.
  - constructor; [auto|]. rewrite insert_sorted_perm. constructor; [lia|done].
Qed.

Lemma sort_ids_lt l : NoDup l -> StronglySorted N.lt (sort_ids l).
Proof.
  induction 1 as [|x l Hx Hl IH]; [constructor|]. cbn. apply insert_sorted_lt; [done|].
  by rewrite sort_ids_perm.
Qed.

(** The decode rows of a set of running requests. *)
Record decode_rows_of (s : BatchScheduler) (rows : list LogicalDecodeRow) : Prop := mk_decode_rows_of {
  dr_index : forall i row, rows !! i = Some row -> exists req,
    running s !! ldr_req_id row = Some req /\ row = decode_row i req;
  dr_sorted : StronglySorted N.lt (ldr_req_id <$> rows);
  dr_complete : forall id, id ∈ ldr_req_id <$> rows <-> is_Some (running s !! id);
}.

Lemma decode_rows_length s rows : decode_rows_of s rows -> length rows = size (running s).
Proof.
  intros [_ Hs Hc]. rewrite <-(length_fmap ldr_req_id), <-size_dom.
  assert (NoDup (ldr_req_id <$> rows)) as Hnd.
  { clear Hc. induction Hs as [|x l Hl IH Hx]; constructor; [|done].
    intros Hin. rewrite Forall_forall in Hx. specialize (Hx x Hin). lia. }
  rewrite <-(size_list_to_set (C := gset N)) by done. f_equal. apply set_eq. intros id.
  by rewrite elem_of_list_to_set, Hc, elem_of_dom.
Qed.

Lemma build_decode_rows_ok s :
  wf s -> exists rows, build_decode_rows s = Done rows /\ decode_rows_of s rows.
Proof.
  intros Hwf. unfold build_decode_rows. set (ids := sort_ids (elements (dom (running s)))).
  assert (forall id, id ∈ ids <-> is_Some (running s !! id)) as Hids.
  { intros id. unfold ids. by rewrite sort_ids_perm, elem_of_elements, elem_of_dom. }
  destruct (fold_res_inv (fun rows id => req ← expect (running s !! id);
      Done (rows ++ [decode_row (length rows) req]))
    (fun done rows => ldr_req_id <$> rows = done /\ forall i row, rows !! i = Some row ->
       exists req, running s !! ldr_req_id row = Some req /\ row = decode_row i req) ids [])
    as (rows & Hrun & Hfst & Hrows); [done| |].
  - intros don id todo rows Hl [Hd Hrows].
    assert (is_Some (running s !! id)) as [req E] by (apply Hids; rewrite Hl; set_solver).
    rewrite E. cbn. eexists. split; [done|].
    assert (r_req_id req = id) as Hreq by apply (wf_running _ Hwf id req E).
    split; [rewrite fmap_app, Hd; cbn; by rewrite Hreq|].
    intros i row [Hi|[Hlen Hi]]%lookup_app_Some; [eauto|].
    destruct (i - length rows) as [|j] eqn:Ej; [|done]. cbn in Hi. simplify_eq.
    exists req. cbn. split; [done|]. f_equal. lia.
  - exists rows. split; [done|]. split; [done| |]; rewrite Hfst; [|done].
    apply sort_ids_lt. apply NoDup_elements.
Qed.

(** ** Admitting one prefill chunk *)

(** The tokens of the head's next chunk, and the blocks it is short of. *)
Definition chunk_len (budget : nat) (s : BatchScheduler) (p : PendingRequest) : nat :=
  Nat.min (Nat.min (length (p_prompt_tokens p) - p_prefill_progress p) (prefill_chunk_budget s)) budget.
Definition chunk_blocks (budget : nat) (s : BatchScheduler) (p : PendingRequest) : nat :=
  BlockManager.blocks_for_tokens (block_manager s) (p_prefill_progress p + chunk_len budget s p) - length (p_allocated_blocks p).

(** Why no chunk is emitted: there is no request, or an empty prompt, or no
    token to spend, or the blocks are not there. *)
Definition no_chunk (budget : nat) (s : BatchScheduler) : Prop :=
  match waiting s with
  | [] => True
  | p :: _ => p_prompt_tokens p = [] \/ chunk_len budget s p = 0 \/
      BlockManager.free_gpu_blocks (block_manager s) < chunk_blocks budget s p
  end.

(** The chunk [r] emitted for the head [p] of the queue, and the state after. *)
Record admitted (budget row : nat) (s s' : BatchScheduler) (p : PendingRequest)
    (rest : list PendingRequest) (r : LogicalPrefillRow) : Prop := mk_admitted {
  ad_row : lpr_row_index r = row;
  ad_id : lpr_req_id r = p_req_id p;
  ad_start : lpr_prompt_start r = p_prefill_progress p;
  ad_progress : lpr_prompt_start r < lpr_prompt_end r <= length (p_prompt_tokens p);
  ad_tokens : lpr_input_tokens r =
    take (lpr_prompt_end r - lpr_prompt_start r) (drop (lpr_prompt_start r) (p_prompt_tokens p));
  ad_len : token_count r = chunk_len budget s p;
  ad_budget : token_count r <= Nat.min budget (prefill_chunk_size (config s));
  ad_after :
    if decide (lpr_prompt_end r = length (p_prompt_tokens p)) then
      waiting s' = rest /\ exists blocks,
        running s' = <[p_req_id p := mkRunningRequest (p_req_id p) (p_prompt_tokens p) 0 (p_max_tokens p)
                         blocks (length (p_prompt_tokens p))]> (running s) /\
        length blocks = BlockManager.blocks_for_tokens (block_manager s') (length (p_prompt_tokens p))
    else exists blocks,
      waiting s' = mkPendingRequest (p_req_id p) (p_prompt_tokens p) (p_max_tokens p) (p_priority p)
                     (lpr_prompt_end r) blocks :: rest /\ running s' = running s;
}.

(** The chunk of [admit_chunk]. *)
Lemma admit_chunk_ok pcb tb p m h :
  accounts m h ->
  p_prefill_progress p < length (p_prompt_tokens p) ->
  length (p_allocated_blocks p) = BlockManager.blocks_for_tokens m (p_prefill_progress p) ->
  (exists m', admit_chunk pcb tb p m = Done (m', None) /\ m' = m /\
     let n := Nat.min (Nat.min (length (p_prompt_tokens p) - p_prefill_progress p) pcb) tb in
     n = 0 \/ BlockManager.free_gpu_blocks m < BlockManager.blocks_for_tokens m (p_prefill_progress p + n) - length (p_allocated_blocks p)) \/
  (exists m' new, let n := Nat.min (Nat.min (length (p_prompt_tokens p) - p_prefill_progress p) pcb) tb in
     0 < n /\
     admit_chunk pcb tb p m = Done (m', Some (mkChunk
       (mkPendingRequest (p_req_id p) (p_prompt_tokens p) (p_max_tokens p) (p_priority p)
          (if bool_decide (length (p_prompt_tokens p) <= p_prefill_progress p + n)
           then p_prefill_progress p else p_prefill_progress p + n) (p_allocated_blocks p ++ new))
       (take n (drop (p_prefill_progress p) (p_prompt_tokens p)))
       (p_prefill_progress p) (p_prefill_progress p + n))) /\
     accounts m' (new ++ h) /\
     BlockManager.bm_block_size m' = BlockManager.bm_block_size m /\
     length (p_allocated_blocks p ++ new) = BlockManager.blocks_for_tokens m (p_prefill_progress p + n)).
Proof.
  intros Hacc Hlt Hlen. unfold admit_chunk.
  set (n := Nat.min _ tb). case_bool_decide as Hn; [left; exists m; split_and!; [done|done|by left]|].
  assert (p_prefill_progress p + n <= length (p_prompt_tokens p)) as Hend by lia.
  rewrite slice_Done by lia.
  replace (p_prefill_progress p + n - p_prefill_progress p) with n by lia.
  pose proof (blocks_for_tokens_mono m (p_prefill_progress p) (p_prefill_progress p + n)) as Hmono.
  set (extra := BlockManager.blocks_for_tokens m (p_prefill_progress p + n) - length (p_allocated_blocks p)).
  destruct (decide (0 < extra)) as [Hextra|Hextra].
  - rewrite (bool_decide_eq_true_2 (0 < extra)) by done.
    destruct (allocate_cases m h extra Hacc)
      as [(m' & ids & Hrun & Hacc' & Hids & _ & Hbs)|(e & Hrun & Hshort)]; rewrite Hrun; cbn;
      [right|left; exists m; split_and!; [done|done|by right]].
    exists m', ids. split_and!; [lia|done|done|done|]. rewrite length_app. lia.
  - rewrite (bool_decide_eq_false_2 (0 < extra)) by done. right. exists m, [].
    split_and!; [lia|done|done|done|]. rewrite app_nil_r. lia.
Qed.

(** Growing the head of the queue keeps the accounts. *)
Lemma held_grow_head s p rest p' new m :
  waiting s = p :: rest -> p_allocated_blocks p' = p_allocated_blocks p ++ new ->
  accounts m (new ++ held s) ->
  accounts m (held_running (running s) ++ held_waiting (p' :: rest)).
Proof.
  intros Hw Hnew. unfold held, held_waiting. rewrite Hw. cbn. rewrite Hnew.
  intros Hacc. eapply accounts_perm; [|exact Hacc]. rewrite <-!app_assoc.
  rewrite (Permutation_app_swap_app new), (Permutation_app_swap_app new). done.
Qed.

(** The invariant does not read the events or the configuration. *)
Lemma wf_ext s s' :
  wf s -> waiting s' = waiting s -> running s' = running s ->
  block_manager s' = block_manager s -> next_req_id s' = next_req_id s -> wf s'.
Proof.
  destruct s, s'. cbn. intros [Hacc Hp Hid Hr] -> -> -> ->. by split.
Qed.

Section head_of_queue.
Context (s : BatchScheduler) (p : PendingRequest) (rest : list PendingRequest).
Context (m : BlockManager.BlockManager) (Hwf : wf s) (Hw : waiting s = p :: rest).
Context (Hbs : BlockManager.bm_block_size m = BlockManager.bm_block_size (block_manager s)).

Lemma rest_ok : Forall (pending_ok s) rest /\ (p_req_id p ∉ p_req_id <$> rest) /\
  NoDup (p_req_id <$> rest) /\ pending_ok s p.
Proof using Hwf Hw.
  pose proof (wf_pending _ Hwf) as Hp. pose proof (wf_ids _ Hwf) as Hid. rewrite Hw in Hp, Hid.
  apply Forall_cons in Hp as [??]. apply NoDup_cons in Hid as [??]. done.
Qed.

Lemma grow_head_wf p' :
  p_req_id p' = p_req_id p -> p_prompt_tokens p' = p_prompt_tokens p ->
  p_prefill_progress p' < length (p_prompt_tokens p) ->
  length (p_allocated_blocks p') = BlockManager.blocks_for_tokens (block_manager s) (p_prefill_progress p') ->
  accounts m (held_running (running s) ++ held_waiting (p' :: rest)) ->
  wf (set_waiting (p' :: rest) (set_block_manager m s)).
Proof using Hwf Hw Hbs.
  intros Hid Htok Hlt Hlen Hacc. destruct rest_ok as (Hrest & Hnotin & Hnd & (_ & _ & ? & ?)).
  split; cbn; [done| | |apply Hwf].
  - constructor.
    + split_and!; cbn; [right; congruence| |congruence|congruence].
      unfold BlockManager.blocks_for_tokens in *. by rewrite Hbs.
    + eapply Forall_impl; [exact Hrest|]. intros q. apply pending_ok_frame; cbn; [done|lia|done].
  - constructor; [by rewrite Hid|done].
Qed.

Lemma start_running_wf new :
  accounts m (held_running (running s) ++ held_waiting
    (mkPendingRequest (p_req_id p) (p_prompt_tokens p) (p_max_tokens p) (p_priority p) 0 new :: rest)) ->
  wf (set_running (<[p_req_id p := mkRunningRequest (p_req_id p) (p_prompt_tokens p) 0 (p_max_tokens p)
                       new (length (p_prompt_tokens p))]> (running s))
        (set_waiting rest (set_block_manager m s))).
Proof using Hwf Hw Hbs.
  intros Hacc. destruct rest_ok as (Hrest & Hnotin & Hnd & (_ & _ & ? & Hnr)).
  split; cbn; [| |done|].
  - unfold held. cbn. rewrite held_running_insert by done. cbn.
    eapply accounts_perm; [|exact Hacc]. unfold held_waiting. cbn.
    rewrite <-app_assoc. apply Permutation_app_swap_app.
  - rewrite Forall_forall in *. intros q Hq. eapply pending_ok_frame; [..|by apply Hrest]; cbn; [done|lia|].
    intros ?. rewrite lookup_insert_ne; [done|]. intros Heq. apply Hnotin. rewrite Heq.
    by apply list_elem_of_fmap_2.
  - apply map_Forall_insert_2; [|apply Hwf]. split_and!; cbn; [done| |done].
    unfold prompt_len. cbn. lia.
Qed.
End head_of_queue.

Lemma try_admit_ok budget row s :
  wf s ->
  exists s' o, try_admit_prefill_chunk budget row s = Done (s', o) /\ wf s' /\
    match o with
    | None => running s' = running s /\ exists dropped, waiting s = dropped ++ waiting s' /\
                Forall (fun p => p_prompt_tokens p = []) dropped /\ no_chunk budget s
    | Some r => exists p rest, waiting s = p :: rest /\ admitted budget row s s' p rest r
    end.
Proof.
  intros Hwf. unfold try_admit_prefill_chunk. destruct (waiting s) as [|p rest] eqn:Hw.
  { exists s, None. split_and!; [done..|]. exists []. unfold no_chunk. by rewrite Hw. }
  destruct (rest_ok s p rest Hwf Hw) as (Hp & Hpid & Hid & (Hprog & Hlen & Hlt & Hnr)).
  case_bool_decide as Hdone.
  { exists (set_waiting rest s), None. split; [done|].
    assert (p_prefill_progress p = 0) as H0 by lia.
    assert (p_prompt_tokens p = []) as Hempty by (apply nil_length_inv; lia).
    split_and!; [|done|exists [p]; split; [done|]; split; [by repeat constructor|unfold no_chunk; rewrite Hw; by left]].
    split; cbn; [|exact Hp|done|apply Hwf].
    pose proof (wf_accounts _ Hwf) as Hacc. unfold held, held_waiting in *. rewrite Hw in Hacc. cbn in *.
    rewrite H0, blocks_for_tokens_0 in Hlen by apply Hacc. by rewrite (nil_length_inv _ Hlen) in Hacc. }
  destruct (admit_chunk_ok (prefill_chunk_budget s) budget p (block_manager s) (held s) (wf_accounts _ Hwf))
    as [(m' & Hrun & -> & Hwhy)|(m' & new & Hn & Hrun & Hacc & Hbs & Hlen')]; [lia|done| |]; rewrite Hrun; cbn.
  { eexists _, None. split; [done|]. split_and!; [by destruct s|done|exists []; cbn; rewrite Hw].
    split_and!; [done..|]. unfold no_chunk. rewrite Hw. by right. }
  set (n := Nat.min _ budget) in *.
  assert (p_prefill_progress p + n <= length (p_prompt_tokens p)) as Hend by lia.
  assert (forall p' : PendingRequest, p_allocated_blocks p' = p_allocated_blocks p ++ new ->
    accounts m' (held_running (running s) ++ held_waiting (p' :: rest))) as Hheld.
  { intros. by eapply held_grow_head. }
  set (pb := prefill_chunk_budget s) in *.
  assert (pb <= prefill_chunk_size (config s)) as Hpb by (unfold pb, prefill_chunk_budget; lia).
  assert (length (take n (drop (p_prefill_progress p) (p_prompt_tokens p))) = n) as Hchunk
    by (rewrite length_take, length_drop; lia).
  destruct (decide (length (p_prompt_tokens p) <= p_prefill_progress p + n)) as [Hlast|Hlast];
    [rewrite !bool_decide_eq_true_2 with (P := length _ <= _) by done
    |rewrite !bool_decide_eq_false_2 with (P := length _ <= _) by done].
  - assert (p_prefill_progress p + n = length (p_prompt_tokens p)) as Heq by lia.
    eexists _, _. split; [done|]. split.
    + eapply wf_ext; [apply (start_running_wf s p rest m' Hwf Hw Hbs (p_allocated_blocks p ++ new))|..];
        [by apply Hheld|..]; destruct (bool_decide (p_prefill_progress p = 0)); reflexivity.
    + exists p, rest. split; [done|]. split; cbn; [done..|lia| |by unfold token_count; cbn; rewrite Hchunk|unfold token_count; cbn; lia|].
      * by rewrite Nat.add_comm, Nat.add_sub.
      * rewrite decide_True by done. split; [done|]. exists (p_allocated_blocks p ++ new).
        destruct (bool_decide (p_prefill_progress p = 0)); (split; [reflexivity|]); cbn;
        unfold BlockManager.blocks_for_tokens in *; rewrite Hbs; congruence.
  - eexists _, _. split; [done|]. split.
    + eapply wf_ext; [eapply (grow_head_wf s p rest m' Hwf Hw Hbs (mkPendingRequest _ _ _ _ _ _))|..];
        [reflexivity|reflexivity| | |by apply Hheld|..]; cycle 2;
        [destruct (bool_decide (p_prefill_progress p = 0)); reflexivity..| |]; cbn; [lia|done].
    + exists p, rest. split; [done|]. split; cbn; [done..|lia| |by unfold token_count; cbn; rewrite Hchunk|unfold token_count; cbn; lia|].
      * by rewrite Nat.add_comm, Nat.add_sub.
      * rewrite decide_False by lia. exists (p_allocated_blocks p ++ new).
        destruct (bool_decide (p_prefill_progress p = 0)); by split.
Qed.
