(* ===== verification/BatchProps.v ===== *)
(** * What the batching scheduler guarantees

    The scheduler of [infer/src/scheduler/batch.rs] as a transition system
    over its public operations, and the properties of the states it reaches. *)

From S2P Require Import Prelude Lists Tier Policy Plan BatchScheduler BatchAccounting BatchStep.
From S2P Require BlockManager.
Import BlockManager (AOk, AErr, get_ref_count).

(** ** The transition system

    A step is one public call. [finish_request] is called for a request that
    runs, or that has not been given blocks; the last theorem of the file says
    what happens otherwise. *)
Inductive step : BatchScheduler -> BatchScheduler -> Prop :=
  | step_add toks n prio s :
      (next_req_id s < u64_max)%N -> step s (add_request toks n prio s).1
  | step_advance id s s' ok : advance_decode id s = Done (s', ok) -> step s s'
  | step_finish id s s' : no_queued_blocks id s -> finish_request id s = Done s' -> step s s'
  | step_schedule s s' plan : schedule_step s = Done (s', plan) -> step s s'.

Inductive reachable (c : BatchSchedulerConfig) (m : BlockManager.BlockManager) : BatchScheduler -> Prop :=
  | reachable_new : reachable c m (BatchScheduler_new c m)
  | reachable_step s s' : reachable c m s -> step s s' -> reachable c m s'.

(** ** The step *)

(** What [schedule_step] returns: [s1] is the state [ensure_decode_memory]
    leaves, over which the decode rows are laid out. *)
Record step_result (s s' : BatchScheduler) (plan : LogicalServePlan) : Prop := mk_step_result {
  sr_wf : wf s';
  sr_shape : shape_ok plan;
  sr_pre : exists s1 pre, ensure_decode_memory s = Done (s1, negb (is_empty pre)) /\
    preempted_to s s1 pre /\ decode_rows_of s1 (decode_rows plan) /\
    match prefill_rows plan with
    | [] => running s' = running s1 /\ (exists dropped, waiting s1 = dropped ++ waiting s' /\
          Forall (fun p => p_prompt_tokens p = []) dropped) /\
        (pre <> [] \/ no_chunk (max_tokens_per_step (config s) - size (running s1)) s1)
    | [r] => pre = [] /\ s1 = s /\ exists p rest, waiting s = p :: rest /\
        admitted (max_tokens_per_step (config s) - size (running s)) (length (decode_rows plan)) s s' p rest r
    | _ => False
    end;
}.

Lemma decode_rows_of_nil s : size (running s) = 0 -> decode_rows_of s [].
Proof.
  intros Hz%map_size_empty_iff. split; [done|constructor|].
  intros id. rewrite Hz, lookup_empty. cbn. split; [by intros ?%not_elem_of_nil|by intros []].
Qed.

Lemma no_budget_no_chunk s : no_chunk 0 s.
Proof. unfold no_chunk. destruct (waiting s) as [|p rest]; [done|]. right. left. unfold chunk_len. lia. Qed.

Lemma schedule_step_ok s :
  wf s -> exists s' plan, schedule_step s = Done (s', plan) /\ step_result s s' plan.
Proof.
  intros Hwf. unfold schedule_step.
  destruct (ensure_decode_memory_ok s Hwf) as (s1 & pre & Hrun & Hpt). rewrite Hrun. cbn [mbind res_bind].
  pose proof (pt_wf _ _ _ Hpt) as Hwf1.
  destruct (build_decode_rows_ok s1 Hwf1) as (rows & Hrows & Hrow).
  set (has_decode := negb (bool_decide (size (running s1) = 0))).
  assert (exists rows', (if has_decode then build_decode_rows s1 else Done []) = Done rows' /\
    decode_rows_of s1 rows') as (rows' & Hrows' & Hrow').
  { unfold has_decode. case_bool_decide; cbn; [exists []|exists rows]; (split; [done|]);
      [by apply decode_rows_of_nil|done]. }
  destruct (negb has_decode && negb (negb (is_empty (waiting s1)))) eqn:Hidle.
  { eexists _, _. split; [done|]. split; [done|done|]. exists s1, pre. cbn.
    apply andb_true_iff in Hidle as [Hd Hw]. unfold has_decode in Hd. rewrite negb_involutive in Hw.
    split_and!; [done|done|apply decode_rows_of_nil; by case_bool_decide|done|by exists nil|].
    right. unfold no_chunk. by destruct (waiting s1). }
  rewrite Hrows'. cbn [mbind res_bind]. pose proof (pt_config _ _ _ Hpt) as Hcfg.
  destruct (negb (negb (is_empty pre)) && _ && _) eqn:Htry; cbn.
  2: { eexists _, _. split; [done|]. split; [done|done|]. exists s1, pre. cbn. split_and!; [done..|by exists nil|].
       apply andb_false_iff in Htry as [[Hp|Hw]%andb_false_iff|Hb]; [left; by destruct pre|right..].
       - unfold no_chunk. by destruct (waiting s1).
       - apply bool_decide_eq_false in Hb. rewrite <-Hcfg. replace (_ - _) with 0 by lia. apply no_budget_no_chunk. }
  apply andb_true_iff in Htry as [[Hpre _]%andb_true_iff _].
  destruct pre as [|? ?]; [|done]. pose proof (pt_same _ _ _ Hpt eq_refl) as ->.
  destruct (try_admit_ok (max_tokens_per_step (config s) - size (running s)) (length rows') s Hwf)
    as (s' & o & Hadmit & Hwf' & Ho).
  rewrite Hadmit. cbn. eexists _, _. split; [done|]. split; [done|done|]. exists s, [].
  destruct o as [r|]; cbn; (split; [done|split; [done|split; [done|]]]); [done|].
  destruct Ho as (Hr & dropped & Hdrop & Hempty & Hno). split_and!; [done|by exists dropped|by right].
Qed.

Lemma reachable_wf c m s :
  BlockManager.wf m -> (forall id, get_ref_count m id = 0%N) -> reachable c m s -> wf s.
Proof.
  intros Hm Hz. induction 1 as [|s s' _ IH Hstep]; [by apply scheduler_new_wf|].
  destruct Hstep as [toks n prio s|id s s' ok Hrun|id s s' Hq Hrun|s s' plan Hrun].
  - by apply add_request_wf.
  - pose proof (advance_decode_ok id s IH) as H. destruct (running s !! id).
    + destruct H as (s1 & req & Hrun' & Hwf & _). rewrite Hrun' in Hrun. by simplify_eq.
    + rewrite H in Hrun. by simplify_eq.
  - destruct (finish_request_ok id s IH Hq) as (s1 & Hrun' & Hwf & _). rewrite Hrun' in Hrun. by simplify_eq.
  - destruct (schedule_step_ok s IH) as (s1 & plan1 & Hrun' & Hres). rewrite Hrun' in Hrun. simplify_eq.
    by apply Hres.
Qed.

Lemma sum_tokens_le rows budget :
  (forall r, r ∈ rows -> token_count r <= budget) -> length rows <= 1 ->
  sum_list (token_count <$> rows) <= budget.
Proof.
  destruct rows as [|r [|? ?]]; cbn; [lia| |lia]. intros H _. specialize (H r ltac:(left)). lia.
Qed.

(** ** Properties *)

(** C1: in every state the scheduler reaches from an unused block manager, no
    GPU block is held by two requests or twice by one, and the blocks the
    requests hold and the free ones add up to the whole pool: nothing leaks
    and nothing is handed out twice, whatever the interleaving of additions,
    decode steps, completions, preemptions and chunked prefills. *)
Theorem blocks_conserved c m s :
  BlockManager.wf m -> (forall id, get_ref_count m id = 0%N) -> reachable c m s ->
  NoDup (held s) /\
  length (held s) + BlockManager.free_gpu_blocks (block_manager s)
    = BlockManager.total_gpu_blocks (block_manager s) /\
  (forall id, id ∈ held s -> get_ref_count (block_manager s) id = 1%N).
Proof.
  intros Hm Hz Hreach. pose proof (wf_accounts _ (reachable_wf c m s Hm Hz Hreach)) as Hacc.
  split_and!; [apply Hacc|by apply accounts_conserve|].
  intros id Hid. destruct (acc_gpu _ _ Hacc id Hid) as (b & Hb & Hloc). unfold get_ref_count. rewrite Hb.
  rewrite (acc_refs _ _ Hacc id b Hb Hloc), occurrences_eq, decide_True by (done || apply Hacc). done.
Qed.

(** C13: one scheduling step returns without panicking, and what it plans is
    fixed. It first makes room: nobody is preempted when the free blocks cover
    one more token of every running request; otherwise the newest requests go
    back in front of the queue, and no more of them than necessary, since the
    blocks were not enough just before the last one went. The decode rows are
    the requests then running, once each, in increasing id order, each at the
    offset of its next token. A prefill row is planned exactly when nobody was
    preempted and the head of the queue has a token left that the step budget
    and the chunk policy allow and whose blocks are free; it is one chunk of
    that length, from where the request stopped, with the prompt tokens of its
    range, and a request whose prompt is complete runs afterwards. The tokens
    scheduled exceed neither the step budget nor the number of decode rows. *)
Theorem schedule_step_spec s :
  wf s ->
  exists s1 pre s' plan, ensure_decode_memory s = Done (s1, negb (is_empty pre)) /\
    (new_blocks_needed s <= BlockManager.free_gpu_blocks (block_manager s) -> pre = [] /\ s1 = s) /\
    waiting s1 = pre ++ waiting s /\ running s1 ⊆ running s /\
    (forall id, is_Some (running s !! id) -> running s1 !! id = None <-> id ∈ p_req_id <$> pre) /\
    (forall p id, p ∈ pre -> is_Some (running s1 !! id) -> (id < p_req_id p)%N) /\
    (forall p pre', pre = p :: pre' -> exists s0 req, running s !! p_req_id p = Some req /\
       running s0 = <[p_req_id p := req]> (running s1) /\
       BlockManager.free_gpu_blocks (block_manager s0) < new_blocks_needed s0 /\ preempt (p_req_id p) s0 = Done s1) /\
    schedule_step s = Done (s', plan) /\ wf s' /\ shape_ok plan /\ decode_rows_of s1 (decode_rows plan) /\
    lbs_scheduled_tokens (batch_shape plan) <= Nat.max (max_tokens_per_step (config s)) (length (decode_rows plan)) /\
    let budget := max_tokens_per_step (config s) - size (running s1) in
    match prefill_rows plan with
    | [] => running s' = running s1 /\ (exists dropped, waiting s1 = dropped ++ waiting s' /\
          Forall (fun p => p_prompt_tokens p = []) dropped) /\ (pre <> [] \/ no_chunk budget s1)
    | [r] => pre = [] /\ 0 < token_count r <= prefill_chunk_size (config s) /\ exists p rest, waiting s = p :: rest /\
        token_count r = chunk_len budget s p /\ admitted budget (length (decode_rows plan)) s s' p rest r
    | _ => False
    end.
Proof.
  intros Hwf. destruct (schedule_step_ok s Hwf) as (s' & plan & Hrun & [Hwf' Hshape Hpre]).
  destruct Hpre as (s1 & pre & Hens & Hpt & Hrows & Hpre). exists s1, pre, s', plan.
  assert (new_blocks_needed s <= BlockManager.free_gpu_blocks (block_manager s) -> pre = [] /\ s1 = s) as Henough.
  { intros Hfit. enough (pre = []) as -> by (split; [done|by apply (pt_same _ _ _ Hpt)]).
    unfold ensure_decode_memory in Hens. cbn [ensure_decode_memory_loop] in Hens. rewrite bool_decide_eq_true_2 in Hens by done.
    injection Hens as _ Hemp. by destruct pre. }
  assert (forall p rest r, waiting s = p :: rest -> admitted (max_tokens_per_step (config s) - size (running s)) (length (decode_rows plan)) s s' p rest r ->
    0 < token_count r <= prefill_chunk_size (config s) /\ token_count r <= max_tokens_per_step (config s) - size (running s)) as Hadm.
  { intros p rest r Hw [_ _ _ Hprog Htok _ Hbud _]. split; [split; [|lia]|lia].
    unfold token_count. rewrite Htok, length_take, length_drop. lia. }
  split_and!; [done|done|apply Hpt|apply Hpt| |apply Hpt|apply Hpt|done..| |].
  - intros id Hid. split; [by apply (pt_lost _ _ _ Hpt)|].
    intros (p & -> & Hp)%list_elem_of_fmap. by destruct (pt_pre _ _ _ Hpt p Hp) as (_ & _ & _ & ?).
  - rewrite Hshape. cbn. destruct (prefill_rows plan) as [|r [|? ?]]; cbn; [lia| |done].
    destruct Hpre as (-> & -> & p & rest & Hw & Had). destruct (Hadm _ _ _ Hw Had) as [_ Hle].
    rewrite (decode_rows_length _ _ Hrows) in *. lia.
  - cbn zeta. destruct (prefill_rows plan) as [|r [|? ?]]; [done| |done].
    destruct Hpre as (-> & -> & p & rest & Hw & Had). destruct (Hadm _ _ _ Hw Had) as [Hpos _].
    split; [done|]. split; [done|]. exists p, rest. split_and!; [done|by apply (ad_len _ _ _ _ _ _ _ Had)|done].
Qed.

(** C37: making room for the next decode step terminates, and afterwards the
    free blocks cover one more token for every request still running. The
    requests it preempts are the newest: each is newer than every request kept,
    they are put back in front of the queue oldest first, with nothing
    prefilled and no blocks, and every other queued request keeps its place. *)
Theorem ensure_decode_memory_spec s :
  wf s ->
  exists s' pre, ensure_decode_memory s = Done (s', negb (is_empty pre)) /\ wf s' /\
    new_blocks_needed s' <= BlockManager.free_gpu_blocks (block_manager s') /\
    waiting s' = pre ++ waiting s /\ StronglySorted N.lt (p_req_id <$> pre) /\
    (forall id, id ∈ p_req_id <$> pre <-> is_Some (running s !! id) /\ running s' !! id = None) /\
    (forall id id', id ∈ p_req_id <$> pre -> is_Some (running s' !! id') -> (id' < id)%N) /\
    Forall (fun p => p_prefill_progress p = 0 /\ p_allocated_blocks p = []) pre.
Proof.
  intros Hwf. destruct (ensure_decode_memory_ok s Hwf) as (s' & pre & Hrun & [? ? ? ? ? Hpre Hlost Hnew ? _ _]).
  exists s', pre. split_and!; [done..| | |].
  - intros id. split; [|intros []; by apply Hlost].
    intros (p & -> & Hp)%list_elem_of_fmap. destruct (Hpre p Hp) as (req & ? & _ & ?). eauto.
  - intros id id' (p & -> & Hp)%list_elem_of_fmap Hid'. by eapply Hnew.
  - apply Forall_forall. intros p Hp. destruct (Hpre p Hp) as (req & _ & -> & _). done.
Qed.

(** [advance_decode] never panics. It returns [true] exactly when the
    request runs and the blocks its next token needs are free; then its block
    table covers all its tokens, the new one included. The counters of a
    running request move by one either way, so a refused step leaves one more
    token counted than the request's blocks may hold. *)
Theorem advance_decode_spec id s :
  wf s ->
  exists s' ok, advance_decode id s = Done (s', ok) /\ wf s' /\
    (ok = true <-> exists req, running s !! id = Some req /\
        growth (block_manager s) req <= BlockManager.free_gpu_blocks (block_manager s)) /\
    forall req, running s !! id = Some req -> exists req', running s' !! id = Some req' /\
      r_kv_tokens req' = r_kv_tokens req + 1 /\ r_generated_tokens req' = r_generated_tokens req + 1 /\
      (ok = true -> BlockManager.blocks_for_tokens (block_manager s') (r_kv_tokens req')
                      <= length (r_blocks req')) /\
      (ok = false -> r_blocks req' = r_blocks req).
Proof.
  intros Hwf. pose proof (advance_decode_ok id s Hwf) as H. destruct (running s !! id) as [req|] eqn:E.
  - destruct H as (s' & req' & Hrun & Hwf' & Hr & _ & Hkv & Hgen & Hok & Hko).
    eexists s', _. split; [exact Hrun|]. split; [done|]. split.
    + rewrite bool_decide_eq_true. naive_solver.
    + intros req0 [= <-]. exists req'. rewrite Hr, lookup_insert_eq. split_and!; [done..|].
      intros [-> _]%Hko. done.
  - exists s, false. split_and!; [done|done| |done]. split; [done|]. by intros (? & ? & _).
Qed.

(** Finishing a running request returns its blocks and forgets it
    everywhere: it neither runs nor waits, the other running requests are
    untouched, the queue keeps its order, and exactly the blocks it held become
    free. *)
Theorem finish_request_spec id s req :
  wf s -> running s !! id = Some req ->
  exists s', finish_request id s = Done s' /\ wf s' /\ running s' = delete id (running s) /\
    waiting s' = waiting s /\
    BlockManager.free_gpu_blocks (block_manager s') =
      BlockManager.free_gpu_blocks (block_manager s) + length (r_blocks req).
Proof.
  intros Hwf E.
  assert (forall p, p ∈ waiting s -> p_req_id p <> id) as Hne.
  { intros p Hp <-. pose proof (wf_pending _ Hwf) as H. rewrite Forall_forall in H.
    destruct (H p Hp) as (_ & _ & _ & ?). congruence. }
  assert (no_queued_blocks id s) as Hq.
  { apply Forall_forall. intros p Hp Heq. by destruct (Hne p Hp). }
  destruct (finish_request_ok id s Hwf Hq) as (s' & Hrun & Hwf' & Hr & Hw & Htot). exists s'.
  assert (waiting s' = waiting s) as Hws.
  { rewrite Hw. clear -Hne. induction (waiting s) as [|p w IH]; [done|]. rewrite filter_cons.
    rewrite decide_True by (apply Hne; left). f_equal. apply IH. intros. apply Hne. by right. }
  split_and!; [done..|].
  pose proof (accounts_conserve _ _ (wf_accounts _ Hwf)) as Hc.
  pose proof (accounts_conserve _ _ (wf_accounts _ Hwf')) as Hc'.
  assert (held s ≡ₚ r_blocks req ++ held s') as Hheld.
  { unfold held. by rewrite Hr, Hws, (held_running_delete _ _ _ E), <-app_assoc. }
  rewrite Hheld, length_app in Hc. lia.
Qed.

(** *** The properties at a concrete scheduler *)
Definition manager_of (gpu cpu bs : nat) : BlockManager.BlockManager :=
  match BlockManager.BlockManager_new gpu cpu bs with
  | Done m => m | _ => BlockManager.mkBlockManager ∅ [] [] 1 0
  end.
Definition done_or {A} (d : A) (r : res A) : A := match r with Done a => a | _ => d end.

Definition schedule (s : BatchScheduler) : BatchScheduler := (done_or (s, idle) (schedule_step s)).1.
Definition advance (id : RequestId) (s : BatchScheduler) : BatchScheduler :=
  (done_or (s, false) (advance_decode id s)).1.
Definition submit (prompt : nat) (s : BatchScheduler) : BatchScheduler :=
  (add_request (replicate prompt 7%N) 4 Normal s).1.

Definition small_config : BatchSchedulerConfig := mkBatchSchedulerConfig 16 8 (mkDecodeAwareChunking 4 8).
Definition small_manager : BlockManager.BlockManager := manager_of 4 2 4.

(** Two requests of 4 and 6 prompt tokens, the first one running. *)
Definition example_running : BatchScheduler :=
  schedule (submit 6 (submit 4 (BatchScheduler_new small_config small_manager))).

Lemma manager_of_unused gpu cpu bs :
  BlockManager.wf (manager_of gpu cpu bs) ->
  bool_decide (map_Forall (fun _ b => BlockManager.ref_count b = 0%N) (BlockManager.blocks (manager_of gpu cpu bs))) = true ->
  forall id, get_ref_count (manager_of gpu cpu bs) id = 0%N.
Proof.
  intros _ H%bool_decide_eq_true id. unfold get_ref_count.
  destruct (BlockManager.blocks _ !! id) as [b|] eqn:E; [|done]. by apply (H id).
Qed.

Lemma small_manager_wf : BlockManager.wf small_manager.
Proof. by apply (BlockManager.manager_new_wf 4 2 4). Qed.

Lemma small_manager_unused id : get_ref_count small_manager id = 0%N.
Proof. apply manager_of_unused; [apply small_manager_wf|vm_compute; reflexivity]. Qed.

Lemma example_running_reachable : reachable small_config small_manager example_running.
Proof.
  eapply reachable_step; [eapply reachable_step; [eapply reachable_step; [apply reachable_new|]|]|].
  - apply (step_add (replicate 4 7%N) 4 Normal). vm_compute. reflexivity.
  - apply (step_add (replicate 6 7%N) 4 Normal). vm_compute. reflexivity.
  - unfold example_running, schedule.
    destruct (schedule_step _) as [[s' plan]| |] eqn:E; [|vm_compute in E; discriminate E..].
    eapply step_schedule. exact E.
Qed.

Lemma example_running_wf : wf example_running.
Proof.
  eapply reachable_wf; [apply small_manager_wf|apply small_manager_unused|apply example_running_reachable].
Qed.

Lemma blocks_conserved_witness :
  length (held example_running) + BlockManager.free_gpu_blocks (block_manager example_running) = 4 /\
  length (held example_running) = 1.
Proof.
  split; [|vm_compute; reflexivity].
  apply (blocks_conserved small_config small_manager example_running
    small_manager_wf small_manager_unused example_running_reachable).
Defined.

Lemma schedule_step_spec_witness :
  exists s' plan, schedule_step example_running = Done (s', plan) /\ wf s' /\
    lbs_scheduled_tokens (batch_shape plan) = 5.
Proof.
  destruct (schedule_step_spec example_running example_running_wf) as (s1 & pre & s' & plan & _ & _ & _ & _ & _ & _ & _ & Hrun & Hwf & _).
  exists s', plan. split; [exact Hrun|]. split; [exact Hwf|].
  vm_compute in Hrun. injection Hrun as _ <-. reflexivity.
Defined.

(** Both requests at the end of their blocks with no block free: the newer one
    is put back. *)
Definition example_full : BatchScheduler :=
  Nat.iter 4 (advance 0) (schedule (schedule example_running)).

Lemma advance_wf id s : wf s -> wf (advance id s).
Proof.
  intros Hwf. unfold advance. pose proof (advance_decode_ok id s Hwf) as H.
  destruct (running s !! id); [|by rewrite H]. destruct H as (s' & req' & Hrun & Hwf' & _). by rewrite Hrun.
Qed.

Lemma schedule_wf s : wf s -> wf (schedule s).
Proof.
  intros Hwf. destruct (schedule_step_ok s Hwf) as (s' & plan & Hrun & Hres).
  unfold schedule. rewrite Hrun. apply Hres.
Qed.

Lemma example_full_wf : wf example_full.
Proof. do 4 apply advance_wf. do 2 apply schedule_wf. apply example_running_wf. Qed.

Lemma ensure_decode_memory_spec_witness :
  exists s' pre, ensure_decode_memory example_full = Done (s', negb (is_empty pre)) /\ wf s' /\
    new_blocks_needed s' <= BlockManager.free_gpu_blocks (block_manager s') /\
    waiting s' = pre ++ waiting example_full /\ negb (is_empty pre) = true.
Proof.
  destruct (ensure_decode_memory_spec example_full example_full_wf)
    as (s' & pre & Hrun & Hwf & Hfit & Hw & _).
  exists s', pre. split; [exact Hrun|]. split; [exact Hwf|]. split; [exact Hfit|]. split; [exact Hw|].
  destruct pre; [vm_compute in Hrun; discriminate Hrun|reflexivity].
Defined.

(** At the same state the newer request cannot take the older one's step. *)
Lemma advance_decode_spec_witness :
  exists s', advance_decode 0 example_full = Done (s', false) /\ wf s'.
Proof.
  destruct (advance_decode_spec 0 example_full example_full_wf) as (s' & ok & Hrun & Hwf & _).
  destruct ok; [vm_compute in Hrun; discriminate Hrun|]. exists s'. split; [exact Hrun|exact Hwf].
Defined.

Lemma finish_request_spec_witness :
  exists s', finish_request 0 example_full = Done s' /\ wf s' /\
    BlockManager.free_gpu_blocks (block_manager s') = 2.
Proof.
  destruct (running example_full !! 0%N) as [req|] eqn:E; [|vm_compute in E; discriminate E].
  destruct (finish_request_spec 0 example_full req example_full_wf E) as (s' & Hrun & Hwf & _ & _ & Hfree).
  exists s'. split; [exact Hrun|]. split; [exact Hwf|]. rewrite Hfree. vm_compute in E. injection E as <-.
  vm_compute. reflexivity.
Defined.

(** ** Where the scheduler falls short *)

(** Finishing a queued request that was already given blocks loses them:
    in a reachable state it leaves a block that no request holds and that is
    not free. *)
Theorem finish_queued_leaks :
  exists s s', reachable small_config small_manager s /\ finish_request 1 s = Done s' /\
    waiting s' = [] /\ running s' = running s /\
    length (held s') + BlockManager.free_gpu_blocks (block_manager s')
      < BlockManager.total_gpu_blocks (block_manager s').
Proof.
  exists (schedule example_running).
  destruct (finish_request 1 (schedule example_running)) as [s'| |] eqn:E; [|vm_compute in E; discriminate E..].
  exists s'. split.
  { eapply reachable_step; [apply example_running_reachable|].
    unfold schedule. destruct (schedule_step example_running) as [[s1 plan]| |] eqn:E1;
      [|vm_compute in E1; discriminate E1..]. eapply step_schedule. exact E1. }
  split; [done|]. vm_compute in E. injection E as <-.
  split; [vm_compute; reflexivity|]. split; [vm_compute; reflexivity|].
  apply (bool_decide_unpack _). vm_compute. exact I.
Qed.

(** Two blocks, one request at the end of its only block and one of eight
    tokens waiting. *)
Definition tight_manager : BlockManager.BlockManager := manager_of 2 0 4.
Definition example_tight : BatchScheduler :=
  submit 8 (schedule (submit 4 (BatchScheduler_new small_config tight_manager))).

(** The memory [ensure_decode_memory] reserves is not kept for the decode
    rows: a step can plan a decode row, give the last blocks to the prefill
    chunk it admits, and the decode row it planned cannot advance. *)
Theorem prefill_takes_decode_memory :
  exists s' plan row s'', schedule_step example_tight = Done (s', plan) /\
    row ∈ decode_rows plan /\
    new_blocks_needed example_tight <= BlockManager.free_gpu_blocks (block_manager example_tight) /\
    advance_decode (ldr_req_id row) s' = Done (s'', false).
Proof.
  destruct (schedule_step example_tight) as [[s' plan]| |] eqn:E; [|vm_compute in E; discriminate E..].
  destruct (decode_rows plan) as [|row ?] eqn:Er;
    [vm_compute in E; injection E as <- <-; discriminate Er|].
  destruct (advance_decode (ldr_req_id row) s') as [[s'' ok]| |] eqn:Ea;
    vm_compute in E; injection E as <- <-; vm_compute in Er; injection Er as <- _;
    vm_compute in Ea; try discriminate Ea.
  eexists _, _, _, s''. split; [reflexivity|]. split; [vm_compute; left|].
  split; [apply (bool_decide_unpack _); vm_compute; exact I|].
  vm_compute. injection Ea as <- _. reflexivity.
Qed.
