(* ===== verification/MetalLedger.v ===== *)
(** * The token-slot ledger of the Metal KV pool

    Models [SlotLedger] of [infer/src/backend/metal/kv_pool.rs]: a stack of
    free slots, a reference count and an access tick per slot, and the slots
    of each request. A [Result] error is a constructor of [ledger_error]. *)

From S2P Require Import Prelude Lists.

(** ** Data *)
Abbreviation Slot := N.

Record SlotLedger := mkSlotLedger {
  max_total_tokens : nat;
  free_slots : list Slot;
  slot_refcounts : list N;
  slot_last_access : list N;
  request_slots : gmap nat (list Slot);
  next_access_tick : N;
}.

Inductive ledger_error :=
  | OutOfTokenSlots (requested available : nat)
  | UnknownSourceRequest (id : nat)
  | SourceTooShort (id len : nat)
  | InvalidWatermarks (low high : f64)
  | SlotOutOfRange (slot : Slot) (max : nat)
  | SlotMissing (slot : Slot).

#[export] Instance SlotLedger_eq_dec : EqDecision SlotLedger.
Proof. solve_decision. Defined.

Abbreviation ledger := (eff SlotLedger ledger_error).

Definition set_free_slots (l : list Slot) (s : SlotLedger) : SlotLedger :=
  mkSlotLedger (max_total_tokens s) l (slot_refcounts s) (slot_last_access s) (request_slots s)
    (next_access_tick s).
Definition set_slot_refcounts (l : list N) (s : SlotLedger) : SlotLedger :=
  mkSlotLedger (max_total_tokens s) (free_slots s) l (slot_last_access s) (request_slots s)
    (next_access_tick s).
Definition set_slot_last_access (l : list N) (s : SlotLedger) : SlotLedger :=
  mkSlotLedger (max_total_tokens s) (free_slots s) (slot_refcounts s) l (request_slots s)
    (next_access_tick s).
Definition set_request_slots (m : gmap nat (list Slot)) (s : SlotLedger) : SlotLedger :=
  mkSlotLedger (max_total_tokens s) (free_slots s) (slot_refcounts s) (slot_last_access s) m
    (next_access_tick s).
Definition set_next_access_tick (t : N) (s : SlotLedger) : SlotLedger :=
  mkSlotLedger (max_total_tokens s) (free_slots s) (slot_refcounts s) (slot_last_access s)
    (request_slots s) t.

(** [(0..max_total_tokens as u32).rev()]: the cast truncates. *)
Definition SlotLedger_new (max_total_tokens : nat) : SlotLedger :=
  mkSlotLedger max_total_tokens
    (reverse (N.of_nat <$> seq 0 (N.to_nat (u32_of_usize max_total_tokens))))
    (replicate max_total_tokens 0%N) (replicate max_total_tokens 0%N) ∅ 1.

(** ** Reading *)
Definition available_tokens (s : SlotLedger) : nat := length (free_slots s).

Definition total_tokens_used (s : SlotLedger) : N := usize_sub (max_total_tokens s) (length (free_slots s)).

Definition paged_pool_pressure (s : SlotLedger) : f64 :=
  if bool_decide (max_total_tokens s = 0) then f64_lit 0 0
  else SFdiv 53 1024 (f64_of_N (total_tokens_used s)) (f64_of_N (N.of_nat (max_total_tokens s))).

Definition token_indices (request_id : nat) (s : SlotLedger) : option (list Slot) :=
  request_slots s !! request_id.

Definition slot_index (slot : Slot) : ledger nat :=
  let idx := N.to_nat slot in
  max ← gets max_total_tokens;
  if bool_decide (max <= idx) then throw (SlotOutOfRange slot max) else mret idx.

Definition slot_refcount (slot : Slot) : ledger N :=
  idx ← slot_index slot;
  s ← gets id;
  of_res (index (slot_refcounts s) idx).

(** The vectors have [max_total_tokens] entries: an index that passed
    [slot_index] outside one of them panics. *)
Definition active_slot_bitmap (s : SlotLedger) : res (list bool) :=
  fold_res (fun active slot =>
    let idx := N.to_nat slot in
    if bool_decide (max_total_tokens s <= idx) then Done active
    else if bool_decide (idx < length active) then Done (<[idx := true]> active) else Panics)
    (concat (map_to_list (request_slots s)).*2) (replicate (max_total_tokens s) false).

(** ** Small writes *)
Definition bump_access_tick : ledger N :=
  tick ← gets next_access_tick;
  modify (set_next_access_tick (N.max (u64_saturating_add tick 1) 1)) ;;
  mret tick.

Definition mark_access_at (slot : Slot) (tick : N) : ledger unit :=
  idx ← slot_index slot;
  s ← gets id;
  if bool_decide (idx < length (slot_last_access s))
  then modify (set_slot_last_access (<[idx := tick]> (slot_last_access s)))
  else of_res Panics.

Definition bump_refcount (slot : Slot) : ledger unit :=
  idx ← slot_index slot;
  s ← gets id;
  match slot_refcounts s !! idx with
  | None => throw (SlotMissing slot)
  | Some c => modify (set_slot_refcounts (<[idx := u32_saturating_add c 1]> (slot_refcounts s)))
  end.

(** Releasing a slot that nobody holds is ignored. *)
Definition release_slot (slot : Slot) (s : SlotLedger) : SlotLedger :=
  let idx := N.to_nat slot in
  if bool_decide (max_total_tokens s <= idx) then s
  else match slot_refcounts s !! idx with
  | None => s
  | Some count =>
      if bool_decide (count = 0%N) then s
      else
        let s := set_slot_refcounts (<[idx := (count - 1)%N]> (slot_refcounts s)) s in
        if bool_decide (count - 1 = 0)%N
        then set_free_slots (free_slots s ++ [slot])
               (set_slot_last_access (<[idx := 0%N]> (slot_last_access s)) s)
        else s
  end.

(** [entry(id).or_default().extend_from_slice(slots)]. *)
Definition extend_request (request_id : nat) (slots : list Slot) (s : SlotLedger) : SlotLedger :=
  set_request_slots
    (<[request_id := default [] (request_slots s !! request_id) ++ slots]> (request_slots s)) s.

Definition check_slots (slots : list Slot) : ledger unit :=
  for_each slots (fun slot => slot_index slot ;; mret tt).

(** ** Operations *)

(** One turn of the allocation loop, and the loop, which collects the slots. *)
Definition pop_free : ledger Slot := fun s =>
  match vec_pop (free_slots s) with
  | Some (idx, rest) => Done (set_free_slots rest s, inl idx)
  | None => Panics
  end.

Definition pop_slot (tick : N) : ledger Slot :=
  idx ← pop_free;
  bump_refcount idx ;; mark_access_at idx tick ;; mret idx.

Fixpoint pop_slots (count : nat) (tick : N) (new_indices : list Slot) : ledger (list Slot) :=
  match count with
  | 0 => mret new_indices
  | S count => idx ← pop_slot tick; pop_slots count tick (new_indices ++ [idx])
  end.

Definition alloc_detached_slots (count : nat) : ledger (list Slot) :=
  if bool_decide (count = 0) then mret []
  else
    n ← gets available_tokens;
    if bool_decide (n < count) then throw (OutOfTokenSlots count n)
    else access_tick ← bump_access_tick; pop_slots count access_tick [].

Definition alloc_tokens (request_id count : nat) : ledger (list Slot) :=
  new_indices ← alloc_detached_slots count;
  modify (extend_request request_id new_indices) ;;
  mret new_indices.

Definition share_slots (request_id : nat) (slots : list Slot) : ledger (list Slot) :=
  if bool_decide (slots = []) then mret []
  else
    check_slots slots ;;
    access_tick ← bump_access_tick;
    for_each slots (fun slot => bump_refcount slot ;; mark_access_at slot access_tick) ;;
    modify (extend_request request_id slots) ;;
    mret slots.

Definition share_prefix_from (request_id source_request_id prefix_tokens : nat) : ledger (list Slot) :=
  if bool_decide (prefix_tokens = 0) then mret []
  else
    source ← gets (token_indices source_request_id);
    match source with
    | None => throw (UnknownSourceRequest source_request_id)
    | Some source_slots =>
        if bool_decide (length source_slots < prefix_tokens)
        then throw (SourceTooShort source_request_id (length source_slots))
        else share_slots request_id (take prefix_tokens source_slots)
    end.

Definition free_request (request_id : nat) (s : SlotLedger) : SlotLedger :=
  match request_slots s !! request_id with
  | None => s
  | Some indices =>
      foldl (fun s idx => release_slot idx s) (set_request_slots (delete request_id (request_slots s)) s)
        indices
  end.

Definition release_slots (slots : list Slot) : ledger unit :=
  check_slots slots ;;
  modify (fun s => foldl (fun s slot => release_slot slot s) s slots).

Definition register_access (slots : list Slot) : ledger unit :=
  if bool_decide (slots = []) then mret tt
  else
    check_slots slots ;;
    access_tick ← bump_access_tick;
    for_each slots (fun slot => mark_access_at slot access_tick).

Definition unit_interval (x : f64) : bool := float_le (f64_lit 0 0) x && float_le x (f64_lit 1 0).

Definition reclaim_target_tokens (high_watermark low_watermark : f64) : ledger (option N) :=
  if negb (is_finite high_watermark) || negb (is_finite low_watermark)
     || negb (unit_interval high_watermark) || negb (unit_interval low_watermark)
     || float_lt high_watermark low_watermark
  then throw (InvalidWatermarks low_watermark high_watermark)
  else
    s ← gets id;
    let used := total_tokens_used s in
    let total := f64_of_N (N.of_nat (max_total_tokens s)) in
    let high_tokens := SFmul 53 1024 total high_watermark in
    if float_le (f64_of_N used) high_tokens then mret None
    else
      let low_tokens := floor_as_usize (SFmul 53 1024 total low_watermark) in
      mret (Some (used - low_tokens)%N).

(** A candidate's newest access when all its slots are held, none by a
    request. *)
Fixpoint eligible_access (active : list bool) (block : list Slot) (newest : N) : ledger (option N) :=
  match block with
  | [] => mret (Some newest)
  | slot :: block =>
      idx ← slot_index slot;
      s ← gets id;
      a ← of_res (index active idx);
      if (a : bool) then mret None
      else
        c ← of_res (index (slot_refcounts s) idx);
        if bool_decide (c = 0%N) then mret None
        else
          t ← of_res (index (slot_last_access s) idx);
          eligible_access active block (N.max newest t)
  end.

Fixpoint collect_candidates (active : list bool) (blocks : list (list Slot)) (acc : list (N * list Slot))
    : ledger (list (N * list Slot)) :=
  match blocks with
  | [] => mret acc
  | block :: blocks =>
      if bool_decide (block = []) then collect_candidates active blocks acc
      else
        e ← eligible_access active block 0;
        collect_candidates active blocks
          (match e with Some t => acc ++ [(t, block)] | None => acc end)
  end.

(** Take blocks until the target is met. *)
Fixpoint take_until (target selected_tokens : nat) (blocks : list (list Slot)) : list (list Slot) :=
  match blocks with
  | [] => []
  | block :: blocks =>
      let selected_tokens := selected_tokens + length block in
      block :: if bool_decide (target <= selected_tokens) then [] else take_until target selected_tokens blocks
  end.

Definition by_access (a b : N * list Slot) : bool := bool_decide (a.1 <= b.1)%N.

Definition select_eviction_candidates (candidate_blocks : list (list Slot)) (target_tokens : nat)
    : ledger (list (list Slot)) :=
  if bool_decide (target_tokens = 0) || bool_decide (candidate_blocks = []) then mret []
  else
    s ← gets id;
    active_slots ← of_res (active_slot_bitmap s);
    candidates ← collect_candidates active_slots candidate_blocks [];
    mret (take_until target_tokens 0 (sort_by by_access candidates).*2).
