(* ===== verification/MetalLedgerProps.v ===== *)
(** * The Metal slot ledger refines a pool of held slots

    The promise of the ledger, without stacks, counters and ticks: a pool of
    slots, some held by requests, some held by the cache. [pool_step] says what
    each call may answer, [allowed] what the caller owes, and the ledger
    implements it. *)


From S2P Require Import Prelude Lists MetalLedger.

(** ** The abstract pool *)
Record Pool := mkPool {
  pool_size : nat;
  pool_detached : list Slot;
  pool_requests : gmap nat (list Slot);
}.

Definition held (m : gmap nat (list Slot)) : list Slot := concat (map_to_list m).*2.

(** Every reference anyone holds, a slot once per reference. *)
Definition refs (p : Pool) : list Slot := pool_detached p ++ held (pool_requests p).

Definition in_pool (p : Pool) (slot : Slot) : Prop := N.to_nat slot < pool_size p.
Definition vacant (p : Pool) : list Slot :=
  filter (fun slot => slot ∉ refs p) (N.of_nat <$> seq 0 (pool_size p)).

Definition hold (slots : list Slot) (p : Pool) : Pool :=
  mkPool (pool_size p) (slots ++ pool_detached p) (pool_requests p).
Definition append_request (id : nat) (slots : list Slot) (p : Pool) : Pool :=
  mkPool (pool_size p) (pool_detached p)
    (<[id := default [] (pool_requests p !! id) ++ slots]> (pool_requests p)).
Definition drop_request (id : nat) (p : Pool) : Pool :=
  mkPool (pool_size p) (pool_detached p) (delete id (pool_requests p)).

Inductive Call :=
  | AllocDetached (count : nat)
  | AllocTokens (id count : nat)
  | ShareSlots (id : nat) (slots : list Slot)
  | SharePrefix (id source count : nat)
  | FreeRequest (id : nat)
  | ReleaseSlots (slots : list Slot)
  | RegisterAccess (slots : list Slot).

Inductive Reply := Slots (slots : list Slot) | Unit | Failed (e : ledger_error).

(** [slots] are new: distinct, in the pool, and held by nobody. *)
Definition fresh_slots (p : Pool) (slots : list Slot) : Prop :=
  NoDup slots /\ forall slot, slot ∈ slots -> in_pool p slot /\ slot ∉ refs p.

Inductive pool_step (p : Pool) : Call -> Reply -> Pool -> Prop :=
  | step_alloc_detached count slots :
      length slots = count -> fresh_slots p slots ->
      pool_step p (AllocDetached count) (Slots slots) (hold slots p)
  | step_alloc_tokens id count slots :
      length slots = count -> fresh_slots p slots ->
      pool_step p (AllocTokens id count) (Slots slots) (append_request id slots p)
  | step_alloc_detached_short count :
      length (vacant p) < count ->
      pool_step p (AllocDetached count) (Failed (OutOfTokenSlots count (length (vacant p)))) p
  | step_alloc_tokens_short id count :
      length (vacant p) < count ->
      pool_step p (AllocTokens id count) (Failed (OutOfTokenSlots count (length (vacant p)))) p
  | step_share_none id : pool_step p (ShareSlots id []) (Slots []) p
  | step_share id slots :
      slots <> [] -> Forall (in_pool p) slots ->
      pool_step p (ShareSlots id slots) (Slots slots) (append_request id slots p)
  | step_share_range id good slot more :
      Forall (in_pool p) good -> ~ in_pool p slot ->
      pool_step p (ShareSlots id (good ++ slot :: more)) (Failed (SlotOutOfRange slot (pool_size p))) p
  | step_prefix_none id source : pool_step p (SharePrefix id source 0) (Slots []) p
  | step_prefix id source slots count :
      0 < count -> pool_requests p !! source = Some slots -> count <= length slots ->
      pool_step p (SharePrefix id source count) (Slots (take count slots))
        (append_request id (take count slots) p)
  | step_prefix_unknown id source count :
      0 < count -> pool_requests p !! source = None ->
      pool_step p (SharePrefix id source count) (Failed (UnknownSourceRequest source)) p
  | step_prefix_short id source slots count :
      pool_requests p !! source = Some slots -> length slots < count ->
      pool_step p (SharePrefix id source count) (Failed (SourceTooShort source (length slots))) p
  | step_free id : pool_step p (FreeRequest id) Unit (drop_request id p)
  | step_release slots rest :
      pool_detached p ≡ₚ slots ++ rest ->
      pool_step p (ReleaseSlots slots) Unit (mkPool (pool_size p) rest (pool_requests p))
  | step_release_range good slot more :
      Forall (in_pool p) good -> ~ in_pool p slot ->
      pool_step p (ReleaseSlots (good ++ slot :: more)) (Failed (SlotOutOfRange slot (pool_size p))) p
  | step_access slots : Forall (in_pool p) slots -> pool_step p (RegisterAccess slots) Unit p
  | step_access_range good slot more :
      Forall (in_pool p) good -> ~ in_pool p slot ->
      pool_step p (RegisterAccess (good ++ slot :: more)) (Failed (SlotOutOfRange slot (pool_size p))) p.

(** What the caller owes: it shares only slots somebody holds, fewer than
    [2^32] references in all, and releases only references of its own. *)
Definition allowed (p : Pool) (c : Call) : Prop :=
  match c with
  | ShareSlots _ slots =>
      (forall slot, slot ∈ slots -> in_pool p slot -> slot ∈ refs p) /\
      (N.of_nat (length (refs p) + length slots) <= u32_max)%N
  | SharePrefix _ _ count => (N.of_nat (length (refs p) + count) <= u32_max)%N
  | ReleaseSlots slots => Forall (in_pool p) slots -> exists rest, pool_detached p ≡ₚ slots ++ rest
  | _ => True
  end.

(** ** The ledger, call by call *)
Definition reply_of {A} (f : A -> Reply) (m : ledger A) (s : SlotLedger) : res (SlotLedger * Reply) :=
  '(s', r) ← m s; Done (s', match r with inl a => f a | inr e => Failed e end).

Definition exec (c : Call) : SlotLedger -> res (SlotLedger * Reply) :=
  match c with
  | AllocDetached count => reply_of Slots (alloc_detached_slots count)
  | AllocTokens id count => reply_of Slots (alloc_tokens id count)
  | ShareSlots id slots => reply_of Slots (share_slots id slots)
  | SharePrefix id source count => reply_of Slots (share_prefix_from id source count)
  | FreeRequest id => fun s => Done (free_request id s, Unit)
  | ReleaseSlots slots => reply_of (fun _ => Unit) (release_slots slots)
  | RegisterAccess slots => reply_of (fun _ => Unit) (register_access slots)
  end.

(** ** The refinement relation

    The counters count references, the stack holds the slots without one. *)
Record holds (s : SlotLedger) (r : list Slot) : Prop := mk_holds {
  hd_refcounts : length (slot_refcounts s) = max_total_tokens s;
  hd_access : length (slot_last_access s) = max_total_tokens s;
  hd_range : forall slot, slot ∈ r -> N.to_nat slot < max_total_tokens s;
  hd_count : forall slot, N.to_nat slot < max_total_tokens s ->
    slot_refcounts s !! N.to_nat slot = Some (N.of_nat (occurrences slot r));
  hd_nodup : NoDup (free_slots s);
  hd_free : forall slot, slot ∈ free_slots s <-> N.to_nat slot < max_total_tokens s /\ slot ∉ r;
}.

Record refines (s : SlotLedger) (p : Pool) : Prop := mk_refines {
  rf_size : max_total_tokens s = pool_size p;
  rf_requests : request_slots s = pool_requests p;
  rf_holds : holds s (refs p);
}.

(** Only the multiset of references matters. *)
#[export] Instance holds_perm s : Proper ((≡ₚ) ==> iff) (holds s).
Proof.
  assert (forall r1 r2, r1 ≡ₚ r2 -> holds s r1 -> holds s r2) as Himp.
  { intros r1 r2 Hp [? ? Hr Hc ? Hf]. split; try done.
    - intros slot. rewrite <-Hp. apply Hr.
    - intros slot. rewrite <-Hp. apply Hc.
    - intros slot. rewrite <-Hp. apply Hf. }
  intros r1 r2 Hp. split; by apply Himp.
Qed.

Lemma holds_requests m s r : holds s r -> holds (set_request_slots m s) r.
Proof. by intros []. Qed.

Lemma held_delete m id l : m !! id = Some l -> held m ≡ₚ l ++ held (delete id m).
Proof.
  intros Hl. unfold held. rewrite <-(map_to_list_delete m id l Hl). done.
Qed.

Lemma held_insert m id l : held (<[id := l]> m) ≡ₚ l ++ held (delete id m).
Proof. rewrite (held_delete _ id l) by apply lookup_insert_eq. by rewrite delete_insert_eq. Qed.

Lemma held_append m id l : held (<[id := default [] (m !! id) ++ l]> m) ≡ₚ l ++ held m.
Proof.
  rewrite held_insert. destruct (m !! id) as [l0|] eqn:E; cbn.
  - rewrite (held_delete m id l0 E). by rewrite !app_assoc, (Permutation_app_comm l0 l).
  - by rewrite delete_id.
Qed.

Lemma refs_append id slots p : refs (append_request id slots p) ≡ₚ slots ++ refs p.
Proof. unfold refs. cbn. rewrite held_append. apply Permutation_app_swap_app. Qed.

(** ** The small operations *)
Section small_steps.
Context (s : SlotLedger) (r : list Slot) (Hs : holds s r).
Implicit Types (slot : Slot) (tick : N).

Lemma slot_index_ok slot : N.to_nat slot < max_total_tokens s -> slot_index slot s = Done (s, inl (N.to_nat slot)).
Proof using. intros Hlt. unfold slot_index. eff_cbn. by rewrite bool_decide_eq_false_2 by lia. Qed.

Lemma slot_index_range slot :
  max_total_tokens s <= N.to_nat slot ->
  slot_index slot s = Done (s, inr (SlotOutOfRange slot (max_total_tokens s))).
Proof using. intros Hle. unfold slot_index. eff_cbn. by rewrite bool_decide_eq_true_2. Qed.

Lemma mark_access_ok slot tick :
  N.to_nat slot < max_total_tokens s ->
  exists s', mark_access_at slot tick s = Done (s', inl tt) /\ holds s' r /\
    request_slots s' = request_slots s /\ max_total_tokens s' = max_total_tokens s /\
    free_slots s' = free_slots s.
Proof using Hs.
  intros Hlt. unfold mark_access_at. run (slot_index_ok slot Hlt). eff_cbn. destruct Hs.
  rewrite bool_decide_eq_true_2 by congruence. eexists. split; [reflexivity|].
  split_and!; [|done..]. split; cbn; rewrite ?length_insert; done.
Qed.

(** One more reference to a slot off the free stack. *)
Lemma bump_refcount_ok slot :
  N.to_nat slot < max_total_tokens s -> slot ∈ r -> (N.of_nat (occurrences slot r) < u32_max)%N ->
  exists s', bump_refcount slot s = Done (s', inl tt) /\ holds s' (slot :: r) /\
    request_slots s' = request_slots s /\ max_total_tokens s' = max_total_tokens s.
Proof using Hs.
  intros Hlt Hin Hbound. unfold bump_refcount. run (slot_index_ok slot Hlt). eff_cbn. destruct Hs as [Hlr Hla Hr Hc Hn Hf].
  rewrite (Hc slot Hlt). eexists. split; [reflexivity|]. split_and!; [|done..]. split; cbn; rewrite ?length_insert; try done.
  - intros slot' [->|?]%elem_of_cons; auto.
  - intros slot' Hlt'. rewrite occurrences_cons. case_decide as E.
    + subst. rewrite list_lookup_insert_eq by lia. f_equal. unfold u32_saturating_add. lia.
    + rewrite list_lookup_insert_ne by lia. by rewrite Hc.
  - intros slot'. rewrite Hf, not_elem_of_cons. naive_solver.
Qed.

Lemma release_slot_ok slot r' :
  r ≡ₚ slot :: r' ->
  holds (release_slot slot s) r' /\ request_slots (release_slot slot s) = request_slots s /\
  max_total_tokens (release_slot slot s) = max_total_tokens s.
Proof using Hs.
  intros Hp. assert (holds s (slot :: r')) as [Hlr Hla Hr Hc Hn Hf] by by rewrite <-Hp.
  assert (N.to_nat slot < max_total_tokens s) as Hlt by (apply Hr; set_solver).
  unfold release_slot. rewrite bool_decide_eq_false_2 by lia. rewrite (Hc slot Hlt), occurrences_cons, decide_True by done.
  rewrite bool_decide_eq_false_2 by lia.
  assert (forall slot', N.to_nat slot' < max_total_tokens s ->
    <[N.to_nat slot := (N.of_nat (1 + occurrences slot r') - 1)%N]> (slot_refcounts s) !! N.to_nat slot'
    = Some (N.of_nat (occurrences slot' r'))) as Hcount.
  { intros slot' Hlt'. destruct (decide (slot' = slot)) as [->|Hne].
    - rewrite list_lookup_insert_eq by lia. f_equal. lia.
    - rewrite list_lookup_insert_ne by lia. rewrite Hc, occurrences_cons, decide_False by done. done. }
  case_bool_decide as Hlast.
  - assert (slot ∉ r') as Hout by (apply occurrences_zero; lia).
    split_and!; [|done..]. split; cbn; rewrite ?length_insert; try done.
    + intros slot' Hin. apply Hr. by right.
    + apply NoDup_app. split_and!; [done| |apply NoDup_singleton].
      intros slot' Hin ->%list_elem_of_singleton. apply Hf in Hin. set_solver.
    + intros slot'. rewrite elem_of_app, list_elem_of_singleton, Hf, not_elem_of_cons.
      destruct (decide (slot' = slot)) as [->|]; naive_solver.
  - split_and!; [|done..]. split; cbn; rewrite ?length_insert; try done.
    + intros slot' Hin. apply Hr. by right.
    + intros slot'. rewrite Hf, not_elem_of_cons. split; [naive_solver|]. intros [? Hout]. split_and!; [done| |done].
      intros ->. apply Hlast. rewrite occurrences_notin by done. done.
Qed.

(** Taking the top of the free stack. *)
Lemma pop_slot_ok tick slot rest :
  free_slots s = rest ++ [slot] ->
  exists s', pop_slot tick s = Done (s', inl slot) /\ holds s' (slot :: r) /\
    request_slots s' = request_slots s /\ max_total_tokens s' = max_total_tokens s /\ free_slots s' = rest.
Proof using Hs.
  intros Hfree. destruct Hs as [Hlr Hla Hr Hc Hn Hf].
  assert (vec_pop (free_slots s) = Some (slot, rest)) as Hpop.
  { unfold vec_pop. rewrite Hfree, last_snoc, length_app. cbn. rewrite Nat.add_sub. by rewrite take_app_length. }
  assert (slot ∈ free_slots s) as [Hlt Hout]%Hf by (rewrite Hfree; set_solver).
  rewrite Hfree in Hn. apply NoDup_app in Hn as (Hn & Hnew & _).
  unfold pop_slot.
  assert (pop_free s = Done (set_free_slots rest s, inl slot)) as Hp by (unfold pop_free; by rewrite Hpop).
  run Hp. set (s1 := set_slot_refcounts (<[N.to_nat slot := 1%N]> (slot_refcounts s)) (set_free_slots rest s)).
  assert (bump_refcount slot (set_free_slots rest s) = Done (s1, inl tt)) as Hb.
  { unfold bump_refcount, slot_index. eff_cbn. rewrite bool_decide_eq_false_2 by lia. cbn.
    rewrite (Hc slot Hlt). rewrite occurrences_notin by done. done. }
  run Hb. exists (set_slot_last_access (<[N.to_nat slot := tick]> (slot_last_access s)) s1).
  assert (mark_access_at slot tick s1
          = Done (set_slot_last_access (<[N.to_nat slot := tick]> (slot_last_access s)) s1, inl tt)) as Hm.
  { unfold mark_access_at, slot_index. eff_cbn. rewrite bool_decide_eq_false_2 by lia. cbn.
    by rewrite bool_decide_eq_true_2 by lia. }
  run Hm. split; [done|]. split_and!; [|done..]. split; cbn; rewrite ?length_insert; try done.
  - intros slot' [->|?]%elem_of_cons; auto.
  - intros slot' Hlt'. rewrite occurrences_cons. case_decide as E.
    + subst. rewrite list_lookup_insert_eq by lia. by rewrite occurrences_notin.
    + rewrite list_lookup_insert_ne by lia. by rewrite Hc.
  - intros slot'. rewrite not_elem_of_cons. rewrite Hfree in Hf. specialize (Hf slot'). set_solver.
Qed.
End small_steps.

(** ** Loops *)
Lemma pop_slots_ok tick : forall count s r acc,
  holds s r -> count <= length (free_slots s) ->
  exists s' slots, pop_slots count tick acc s = Done (s', inl (acc ++ slots)) /\
    holds s' (slots ++ r) /\ length slots = count /\ NoDup slots /\
    (forall slot, slot ∈ slots -> N.to_nat slot < max_total_tokens s /\ slot ∉ r) /\
    request_slots s' = request_slots s /\ max_total_tokens s' = max_total_tokens s.
Proof.
  induction count as [|count IH]; intros s r acc Hs Hle.
  { exists s, []. cbn. rewrite app_nil_r. split_and!; try done; [apply NoDup_nil_2|set_solver]. }
  destruct (free_slots s) as [|slot rest _] eqn:Hfree using rev_ind; [cbn in Hle; lia|].
  destruct (pop_slot_ok s r Hs tick slot rest Hfree) as (s1 & Hrun & Hs1 & Hrq1 & Hmax1 & Hf1).
  rewrite length_app in Hle. cbn in Hle.
  destruct (IH s1 (slot :: r) (acc ++ [slot])) as (s' & slots & Hrun' & Hs' & Hlen & Hnd & Hnew & Hrq & Hmax);
    [done|rewrite Hf1; lia|].
  exists s', (slot :: slots). cbn [pop_slots]. run Hrun. rewrite Hrun'.
  assert (slot ∈ free_slots s) as Hin by (rewrite Hfree; set_solver).
  apply (hd_free s r Hs) in Hin as [Hlt Hout].
  split_and!; [by rewrite <-app_assoc| |cbn; lia| | |congruence|congruence].
  - eapply holds_perm; [|exact Hs']. cbn. by rewrite Permutation_middle.
  - constructor; [|done]. intros Hin. apply Hnew in Hin. set_solver.
  - intros slot' [->|Hin]%elem_of_cons; [done|]. apply Hnew in Hin. rewrite Hmax1 in Hin. set_solver.
Qed.

Lemma foldl_release slots : forall s r r',
  holds s r -> r ≡ₚ slots ++ r' ->
  holds (foldl (fun s slot => release_slot slot s) s slots) r' /\
  request_slots (foldl (fun s slot => release_slot slot s) s slots) = request_slots s /\
  max_total_tokens (foldl (fun s slot => release_slot slot s) s slots) = max_total_tokens s.
Proof.
  induction slots as [|slot slots IH]; intros s r r' Hs Hp; cbn.
  { cbn in Hp. by rewrite Hp in Hs. }
  destruct (release_slot_ok s r Hs slot (slots ++ r') Hp) as (Hs1 & Hrq1 & Hmax1).
  destruct (IH _ _ r' Hs1) as (? & ? & ?); [done|]. split_and!; congruence.
Qed.

Lemma check_slots_ok s slots :
  Forall (fun slot => N.to_nat slot < max_total_tokens s) slots -> check_slots slots s = Done (s, inl tt).
Proof.
  intros Hall. apply for_each_check. intros slot Hin. rewrite Forall_forall in Hall.
  by run (slot_index_ok s slot (Hall slot Hin)).
Qed.

Lemma check_slots_range s good slot more :
  Forall (fun slot => N.to_nat slot < max_total_tokens s) good -> max_total_tokens s <= N.to_nat slot ->
  check_slots (good ++ slot :: more) s = Done (s, inr (SlotOutOfRange slot (max_total_tokens s))).
Proof.
  intros Hall Hout. apply for_each_fail.
  - intros slot' Hin. rewrite Forall_forall in Hall. by run (slot_index_ok s slot' (Hall slot' Hin)).
  - by run (slot_index_range s slot Hout).
Qed.

(** Either all slots of a list are in range or there is a first that is not. *)
Lemma range_cases (max : nat) (slots : list Slot) :
  Forall (fun slot => N.to_nat slot < max) slots \/
  exists good slot more, slots = good ++ slot :: more /\
    Forall (fun slot => N.to_nat slot < max) good /\ max <= N.to_nat slot.
Proof.
  induction slots as [|slot slots IH]; [by left|].
  destruct (decide (N.to_nat slot < max)) as [Hlt|Hge].
  - destruct IH as [IH|(good & x & more & -> & ? & ?)]; [left; by constructor|].
    right. exists (slot :: good), x, more. split_and!; [done|by constructor|done].
  - right. exists [], slot, slots. split_and!; [done|constructor|lia].
Qed.

Lemma share_loop_ok tick slots s r :
  holds s r -> (forall slot, slot ∈ slots -> slot ∈ r) ->
  (N.of_nat (length r + length slots) <= u32_max)%N ->
  exists s', for_each slots (fun slot => bump_refcount slot ;; mark_access_at slot tick) s
             = Done (s', inl tt) /\
    holds s' (slots ++ r) /\ request_slots s' = request_slots s /\
    max_total_tokens s' = max_total_tokens s.
Proof.
  intros Hs Hlive Hbound.
  apply (for_each_inv (fun done s' => holds s' (done ++ r) /\ request_slots s' = request_slots s /\
           max_total_tokens s' = max_total_tokens s)); [done|].
  intros done x todo s1 Hl (Hs1 & Hrq & Hmax).
  assert (x ∈ r) as Hx by (apply Hlive; set_solver).
  assert (N.to_nat x < max_total_tokens s1) as Hlt by (rewrite Hmax; by apply (hd_range s r Hs)).
  destruct (bump_refcount_ok s1 _ Hs1 x) as (s2 & Hb & Hs2 & Hrq2 & Hmax2); [done|set_solver| |].
  { pose proof (occurrences_length x (done ++ r)). rewrite length_app in H.
    rewrite Hl, length_app in Hbound. cbn in Hbound. lia. }
  destruct (mark_access_ok s2 _ Hs2 x tick) as (s3 & Hm & Hs3 & Hrq3 & Hmax3 & _); [by rewrite Hmax2|].
  exists s3. run Hb. split; [done|]. split_and!; [|congruence|congruence].
  eapply holds_perm; [|exact Hs3]. rewrite <-app_assoc. cbn. by rewrite <-Permutation_middle.
Qed.

Lemma access_loop_ok tick slots s r :
  holds s r -> Forall (fun slot => N.to_nat slot < max_total_tokens s) slots ->
  exists s', for_each slots (fun slot => mark_access_at slot tick) s = Done (s', inl tt) /\
    holds s' r /\ request_slots s' = request_slots s /\ max_total_tokens s' = max_total_tokens s.
Proof.
  intros Hs Hall. rewrite Forall_forall in Hall.
  apply (for_each_inv (fun _ s' => holds s' r /\ request_slots s' = request_slots s /\
           max_total_tokens s' = max_total_tokens s)); [done|].
  intros done x todo s1 Hl (Hs1 & Hrq & Hmax).
  destruct (mark_access_ok s1 _ Hs1 x tick) as (s3 & Hm & Hs3 & Hrq3 & Hmax3 & _).
  { rewrite Hmax. apply Hall. rewrite Hl. set_solver. }
  exists s3. split_and!; [done|done|congruence|congruence].
Qed.

(** ** The operations *)
Lemma free_slots_vacant s p : refines s p -> free_slots s ≡ₚ vacant p.
Proof.
  intros [Hsize _ Hs]. unfold vacant. apply NoDup_Permutation; [by apply (hd_nodup s _ Hs)| |].
  - apply NoDup_filter, NoDup_fmap_2; [by intros ?? ?%Nat2N.inj|apply NoDup_seq].
  - intros slot. rewrite (hd_free s _ Hs), list_elem_of_filter, list_elem_of_fmap, Hsize. split.
    + intros [Hlt Hout]. split; [done|]. exists (N.to_nat slot). split; [lia|]. apply elem_of_seq. lia.
    + intros (Hout & i & -> & Hi%elem_of_seq). split; [lia|done].
Qed.

Lemma available_vacant s p : refines s p -> available_tokens s = length (vacant p).
Proof. intros Href. unfold available_tokens. by rewrite (free_slots_vacant s p Href). Qed.

Lemma bump_tick_ok s r : holds s r ->
  exists s', bump_access_tick s = Done (s', inl (next_access_tick s)) /\ holds s' r /\
    request_slots s' = request_slots s /\ max_total_tokens s' = max_total_tokens s /\
    free_slots s' = free_slots s.
Proof. intros Hs. unfold bump_access_tick. eff_cbn. eexists. split; [reflexivity|]. by destruct Hs. Qed.

Lemma refines_append s p r id slots :
  max_total_tokens s = pool_size p -> request_slots s = pool_requests p -> holds s (slots ++ r) -> r ≡ₚ refs p ->
  refines (extend_request id slots s) (append_request id slots p).
Proof.
  intros Hsize Hrq Hs Hr. split; [done|cbn; by rewrite Hrq|].
  apply holds_requests. rewrite refs_append. by rewrite <-Hr.
Qed.

Lemma alloc_detached_ok s p count :
  refines s p ->
  (length (vacant p) < count /\
   alloc_detached_slots count s = Done (s, inr (OutOfTokenSlots count (length (vacant p))))) \/
  exists s' slots, alloc_detached_slots count s = Done (s', inl slots) /\ length slots = count /\
    fresh_slots p slots /\ holds s' (slots ++ refs p) /\ request_slots s' = pool_requests p /\
    max_total_tokens s' = pool_size p.
Proof.
  intros Href. pose proof (available_vacant s p Href) as Hav. destruct Href as [Hsize Hrq Hs].
  unfold alloc_detached_slots. case_bool_decide as H0.
  { right. exists s, []. subst. split_and!; try done. split; [apply NoDup_nil_2|set_solver]. }
  assert (gets available_tokens s = Done (s, inl (available_tokens s) : _ + ledger_error)) as Hg by done.
  run Hg. case_bool_decide as Hn.
  { left. rewrite Hav in *. done. }
  right. destruct (bump_tick_ok s _ Hs) as (s1 & Hb & Hs1 & Hrq1 & Hmax1 & Hf1). run Hb.
  destruct (pop_slots_ok (next_access_tick s) count s1 (refs p) []) as (s' & slots & Hrun & Hs' & Hlen & Hnd & Hnew & Hrq' & Hmax').
  { done. } { rewrite Hf1. unfold available_tokens in Hn. lia. }
  exists s', slots. rewrite Hrun. split_and!; [done|done| |done|congruence|congruence].
  split; [done|]. intros slot Hin. unfold in_pool. rewrite <-Hsize, <-Hmax1. auto.
Qed.

Lemma share_ok id slots s p :
  refines s p -> slots <> [] -> Forall (in_pool p) slots -> allowed p (ShareSlots id slots) ->
  exists s', share_slots id slots s = Done (s', inl slots) /\ refines s' (append_request id slots p).
Proof.
  intros [Hsize Hrq Hs] Hne Hall [Hlive Hbound]. unfold share_slots. rewrite bool_decide_eq_false_2 by done.
  assert (check_slots slots s = Done (s, inl tt)) as Hc.
  { apply check_slots_ok. unfold in_pool in Hall. by rewrite <-Hsize in Hall. }
  run Hc. destruct (bump_tick_ok s _ Hs) as (s1 & Hb & Hs1 & Hrq1 & Hmax1 & Hf1). run Hb.
  rewrite Forall_forall in Hall.
  destruct (share_loop_ok (next_access_tick s) slots s1 (refs p)) as (s2 & Hrun & Hs2 & Hrq2 & Hmax2); [done|auto|done|].
  run Hrun. eexists. split; [reflexivity|]. eapply refines_append; [congruence|congruence|done|done].
Qed.

Lemma checked_range {A} (k : ledger A) s p good slot more :
  max_total_tokens s = pool_size p -> Forall (in_pool p) good -> ~ in_pool p slot ->
  (check_slots (good ++ slot :: more) ;; k) s = Done (s, inr (SlotOutOfRange slot (pool_size p))).
Proof.
  intros Hsize Hgood Hout. unfold in_pool in *. rewrite <-Hsize in *.
  assert (check_slots (good ++ slot :: more) s = Done (s, inr (SlotOutOfRange slot (max_total_tokens s)))) as Hc
    by (apply check_slots_range; [done|lia]).
  by run Hc.
Qed.

Lemma prefix_live p source slots count slot :
  pool_requests p !! source = Some slots -> slot ∈ take count slots -> slot ∈ refs p.
Proof.
  intros Hsrc Hin. unfold refs. rewrite (held_delete _ _ _ Hsrc). rewrite !elem_of_app.
  apply elem_of_take in Hin as (i & Hi & _). apply list_elem_of_lookup_2 in Hi. auto.
Qed.

Lemma refs_in_pool s p slot : refines s p -> slot ∈ refs p -> in_pool p slot.
Proof. intros [Hsize _ Hs] Hin. unfold in_pool. rewrite <-Hsize. by apply (hd_range s _ Hs). Qed.

(** ** The simulation *)
Definition simulated (s : SlotLedger) (p : Pool) (c : Call) : Prop :=
  exists s' r p', exec c s = Done (s', r) /\ pool_step p c r p' /\ refines s' p'.

Lemma simulate_alloc_detached s p count : refines s p -> simulated s p (AllocDetached count).
Proof.
  intros Href. unfold simulated. cbn [exec]. unfold reply_of.
  destruct (alloc_detached_ok s p count Href) as [[Hshort ->]|(s' & slots & -> & Hlen & Hnew & Hs & Hrq & Hmax)].
  - exists s, (Failed (OutOfTokenSlots count (length (vacant p)))), p. split_and!; [done| |done].
    by apply step_alloc_detached_short.
  - exists s', (Slots slots), (hold slots p). split_and!; [done|by apply step_alloc_detached|].
    split; [done|done|]. eapply holds_perm; [|exact Hs]. unfold refs. cbn. by rewrite app_assoc.
Qed.

Lemma simulate_alloc_tokens s p id count : refines s p -> simulated s p (AllocTokens id count).
Proof.
  intros Href. unfold simulated. cbn [exec]. unfold reply_of, alloc_tokens.
  destruct (alloc_detached_ok s p count Href) as [[Hshort Hrun]|(s' & slots & Hrun & Hlen & Hnew & Hs & Hrq & Hmax)].
  - exists s, (Failed (OutOfTokenSlots count (length (vacant p)))), p. run Hrun. split_and!; [done| |done].
    by apply step_alloc_tokens_short.
  - exists (extend_request id slots s'), (Slots slots), (append_request id slots p). run Hrun.
    split_and!; [done|by apply step_alloc_tokens|]. by eapply refines_append.
Qed.

Lemma simulate_share s p id slots :
  refines s p -> allowed p (ShareSlots id slots) -> simulated s p (ShareSlots id slots).
Proof.
  intros Href Hal. unfold simulated. cbn [exec]. unfold reply_of. destruct (decide (slots = [])) as [->|Hne].
  { exists s, (Slots []), p. split_and!; [done|constructor|done]. }
  destruct (range_cases (pool_size p) slots) as [Hall|(good & slot & more & -> & Hgood & Hout)].
  - destruct (share_ok id slots s p Href Hne Hall Hal) as (s' & -> & Href').
    exists s', (Slots slots), (append_request id slots p). split_and!; [done|by apply step_share|done].
  - exists s, (Failed (SlotOutOfRange slot (pool_size p))), p. assert (~ in_pool p slot) as Hno by (unfold in_pool; lia).
    split_and!; [|by apply step_share_range|done]. unfold share_slots. rewrite bool_decide_eq_false_2 by done.
    rewrite (checked_range _ s p good slot more); [done|by destruct Href|done|done].
Qed.

Lemma simulate_prefix s p id source count :
  refines s p -> allowed p (SharePrefix id source count) -> simulated s p (SharePrefix id source count).
Proof.
  intros Href Hbound. unfold simulated. cbn [exec]. unfold reply_of, share_prefix_from.
  destruct (decide (count = 0)) as [->|Hpos].
  { exists s, (Slots []), p. split_and!; [done|constructor|done]. }
  rewrite bool_decide_eq_false_2 by done. eff_cbn. unfold token_indices. rewrite (rf_requests s p Href).
  destruct (pool_requests p !! source) as [slots|] eqn:Hsrc.
  2: { exists s, (Failed (UnknownSourceRequest source)), p. split_and!; [done|apply step_prefix_unknown; [lia|done]|done]. }
  case_bool_decide as Hlen.
  { exists s, (Failed (SourceTooShort source (length slots))), p. split_and!; [done|by apply step_prefix_short|done]. }
  assert (length (take count slots) = count) as Htake by (rewrite length_take; lia).
  destruct (share_ok id (take count slots) s p Href) as (s' & Hrun & Href').
  { intros Hnil. rewrite Hnil in Htake. cbn in Htake. lia. }
  { apply Forall_forall. intros slot Hin. eapply refs_in_pool; [done|]. by eapply prefix_live. }
  { split; [intros slot Hin _; by eapply prefix_live|]. by rewrite Htake. }
  exists s', (Slots (take count slots)), (append_request id (take count slots) p). rewrite Hrun.
  split_and!; [done| |done]. apply step_prefix; [lia|done|lia].
Qed.

Lemma simulate_free s p id : refines s p -> simulated s p (FreeRequest id).
Proof.
  intros [Hsize Hrq Hs]. exists (free_request id s), Unit, (drop_request id p).
  split_and!; [done|constructor|]. unfold free_request. rewrite Hrq.
  destruct (pool_requests p !! id) as [indices|] eqn:E.
  - destruct (foldl_release indices (set_request_slots (delete id (request_slots s)) s) (refs p)
               (pool_detached p ++ held (delete id (pool_requests p)))) as (Hs' & Hrq' & Hmax').
    { by apply holds_requests. }
    { unfold refs. rewrite (held_delete _ _ _ E). apply Permutation_app_swap_app. }
    rewrite Hrq in *. split; [by rewrite Hmax'|by rewrite Hrq'|done].
  - split; [done|cbn; by rewrite delete_id|]. unfold refs, drop_request. cbn. by rewrite delete_id.
Qed.

Lemma simulate_release s p slots :
  refines s p -> allowed p (ReleaseSlots slots) -> simulated s p (ReleaseSlots slots).
Proof.
  intros Href Hal. unfold simulated. cbn [exec]. unfold reply_of, release_slots.
  destruct (range_cases (pool_size p) slots) as [Hall|(good & slot & more & -> & Hgood & Hout)].
  - destruct (Hal Hall) as [rest Hp]. destruct Href as [Hsize Hrq Hs].
    assert (check_slots slots s = Done (s, inl tt)) as Hc by (apply check_slots_ok; by rewrite Hsize).
    run Hc. eexists _, Unit, (mkPool (pool_size p) rest (pool_requests p)).
    split_and!; [done|by apply step_release|].
    destruct (foldl_release slots s (refs p) (rest ++ held (pool_requests p)) Hs) as (Hs' & Hrq' & Hmax').
    { unfold refs. by rewrite Hp, <-app_assoc. }
    split; [by rewrite Hmax'|by rewrite Hrq'|done].
  - exists s, (Failed (SlotOutOfRange slot (pool_size p))), p. assert (~ in_pool p slot) as Hno by (unfold in_pool; lia).
    split_and!; [|by apply step_release_range|done].
    rewrite (checked_range _ s p good slot more); [done|by destruct Href|done|done].
Qed.

Lemma simulate_access s p slots : refines s p -> simulated s p (RegisterAccess slots).
Proof.
  intros Href. unfold simulated. cbn [exec]. unfold reply_of, register_access.
  destruct (decide (slots = [])) as [->|Hne].
  { exists s, Unit, p. split_and!; [done|by apply step_access|done]. }
  rewrite bool_decide_eq_false_2 by done.
  destruct (range_cases (pool_size p) slots) as [Hall|(good & slot & more & -> & Hgood & Hout)].
  - destruct Href as [Hsize Hrq Hs].
    assert (check_slots slots s = Done (s, inl tt)) as Hc by (apply check_slots_ok; by rewrite Hsize).
    run Hc. destruct (bump_tick_ok s _ Hs) as (s1 & Hb & Hs1 & Hrq1 & Hmax1 & _). run Hb.
    destruct (access_loop_ok (next_access_tick s) slots s1 (refs p) Hs1) as (s2 & -> & Hs2 & Hrq2 & Hmax2).
    { by rewrite Hmax1, Hsize. }
    exists s2, Unit, p. split_and!; [done|by apply step_access|]. split; [congruence|congruence|done].
  - exists s, (Failed (SlotOutOfRange slot (pool_size p))), p. assert (~ in_pool p slot) as Hno by (unfold in_pool; lia).
    split_and!; [|by apply step_access_range|done].
    rewrite (checked_range _ s p good slot more); [done|by destruct Href|done|done].
Qed.

Lemma simulate s p c : refines s p -> allowed p c -> simulated s p c.
Proof.
  intros Href Hal. destruct c;
    eauto using simulate_alloc_detached, simulate_alloc_tokens, simulate_share, simulate_prefix,
      simulate_free, simulate_release, simulate_access.
Qed.

(** ** The Metal slot ledger: properties

    The ledger driven by any client that keeps its obligations behaves like
    the pool of [MetalLedgerProps]; what eviction may select; the round trip of
    allocation and release. *)


(** ** Eviction candidates *)
Section eviction.
Context (s : SlotLedger) (p : Pool) (Href : refines s p).
Implicit Types (slot : Slot) (block : list Slot).

(** Held by the cache, and by no request. *)
Definition evictable_slot (p : Pool) (slot : Slot) : Prop := slot ∈ refs p /\ slot ∉ held (pool_requests p).
Definition evictable_block (p : Pool) (block : list Slot) : Prop := block <> [] /\ Forall (evictable_slot p) block.
#[export] Instance evictable_block_dec q block : Decision (evictable_block q block).
Proof. unfold evictable_block, evictable_slot. apply _. Defined.

Definition access_of (s : SlotLedger) (slot : Slot) : N := default 0%N (slot_last_access s !! N.to_nat slot).
Definition newest_access (s : SlotLedger) (newest : N) (block : list Slot) : N :=
  foldl N.max newest (access_of s <$> block).

(** The bitmap [active] marks the slots of [l]. *)
Definition marks (max : nat) (l : list Slot) (active : list bool) : Prop :=
  length active = max /\
  forall slot, N.to_nat slot < max -> active !! N.to_nat slot = Some (bool_decide (slot ∈ l)).

Lemma active_bitmap_ok :
  exists active, active_slot_bitmap s = Done active /\
    marks (max_total_tokens s) (held (pool_requests p)) active.
Proof using Href.
  unfold active_slot_bitmap. rewrite (rf_requests s p Href). fold (held (pool_requests p)).
  apply (fold_res_inv _ (marks (max_total_tokens s))).
  - split; [apply length_replicate|]. intros slot Hlt. rewrite lookup_replicate_2 by done. f_equal.
  - intros done x todo active Hl (Hlen & Hact). case_bool_decide as Hout.
    + eexists. split; [reflexivity|]. split; [done|]. intros slot Hlt. rewrite Hact by done. f_equal.
      apply bool_decide_ext. set_solver by lia.
    + rewrite bool_decide_eq_true_2 by lia. eexists. split; [reflexivity|].
      split; [by rewrite length_insert|]. intros slot Hlt. destruct (decide (slot = x)) as [->|Hne].
      * rewrite list_lookup_insert_eq by lia. f_equal. symmetry. apply bool_decide_eq_true_2. set_solver.
      * rewrite list_lookup_insert_ne by lia. rewrite Hact by done. f_equal. apply bool_decide_ext. set_solver.
Qed.

Context (active : list bool) (Hact : marks (max_total_tokens s) (held (pool_requests p)) active).

Lemma eligible_access_ok block : forall newest,
  Forall (in_pool p) block ->
  eligible_access active block newest s =
  Done (s, inl (if decide (Forall (evictable_slot p) block) then Some (newest_access s newest block) else None)).
Proof using Href Hact.
  pose proof (rf_holds s p Href) as Hs. pose proof (rf_size s p Href) as Hsize.
  induction block as [|slot block IH]; intros newest Hall; [done|].
  apply Forall_cons in Hall as [Hlt Hall]. unfold in_pool in Hlt. rewrite <-Hsize in Hlt.
  cbn [eligible_access]. run (slot_index_ok s slot Hlt). eff_cbn. unfold id. unfold index. rewrite (proj2 Hact slot Hlt). cbn.
  case_bool_decide as Hreq.
  { rewrite decide_False; [done|]. intros [[_ Hno] _]%Forall_cons. done. }
  rewrite (hd_count s _ Hs slot Hlt). cbn. case_bool_decide as Hc.
  { rewrite decide_False; [done|]. intros [[Hin _] _]%Forall_cons. apply occurrences_in in Hin. lia. }
  assert (slot ∈ refs p) as Hin.
  { destruct (decide (slot ∈ refs p)); [done|]. exfalso. apply Hc. by rewrite occurrences_notin. }
  destruct (lookup_lt_is_Some_2 (slot_last_access s) (N.to_nat slot)) as [t Ht].
  { by rewrite (hd_access s _ Hs). }
  rewrite Ht. cbn. rewrite IH by done.
  assert (newest_access s (N.max newest t) block = newest_access s newest (slot :: block)) as ->.
  { unfold newest_access, access_of. cbn. by rewrite Ht. }
  do 3 f_equal. apply decide_ext. rewrite Forall_cons. unfold evictable_slot. naive_solver.
Qed.

Definition candidates_of (blocks : list (list Slot)) : list (N * list Slot) :=
  (fun block => (newest_access s 0 block, block)) <$> filter (evictable_block p) blocks.

Lemma collect_candidates_ok blocks : forall acc,
  Forall (Forall (in_pool p)) blocks ->
  collect_candidates active blocks acc s = Done (s, inl (acc ++ candidates_of blocks)).
Proof using Href Hact.
  induction blocks as [|block blocks IH]; intros acc Hall.
  { cbn. by rewrite app_nil_r. }
  apply Forall_cons in Hall as [Hb Hall]. cbn [collect_candidates]. unfold candidates_of. rewrite filter_cons.
  case_bool_decide as Hnil.
  { rewrite decide_False by (intros []; done). by apply IH. }
  run (eligible_access_ok block 0%N Hb). rewrite IH by done. unfold candidates_of.
  assert (evictable_block p block <-> Forall (evictable_slot p) block) as Hiff by (unfold evictable_block; naive_solver).
  case_decide as Hel.
  - rewrite decide_True by by apply Hiff. cbn. by rewrite <-app_assoc.
  - by rewrite decide_False by by rewrite Hiff.
Qed.
End eviction.

Definition tokens_of (blocks : list (list Slot)) : nat := sum_list (length <$> blocks).

Lemma take_until_spec target : forall blocks n, n < target ->
  exists rest, blocks = take_until target n blocks ++ rest /\
    (target <= n + tokens_of (take_until target n blocks) \/ rest = []) /\
    (forall front lst, take_until target n blocks = front ++ [lst] -> n + tokens_of front < target).
Proof.
  unfold tokens_of. induction blocks as [|block blocks IH]; intros n Hn; cbn [take_until].
  { exists []. split_and!; [done|by right|]. intros front lst H. by destruct front. }
  case_bool_decide as Hge.
  - exists blocks. split_and!; [done|left; cbn; lia|]. intros front lst H.
    destruct front as [|f [|]]; simplify_eq/=; lia.
  - destruct (IH (n + length block)) as (rest & Heq & Hdone & Hmin); [lia|].
    exists rest. split_and!; [cbn; by rewrite <-Heq|cbn; destruct Hdone; [left; lia|by right]|].
    intros front lst H. destruct front as [|f front]; injection H as -> H; [cbn; lia|].
    specialize (Hmin _ _ H). cbn. lia.
Qed.

(** ** Whole runs

    A client picks its next call from the answers so far. It keeps its
    obligations when every call it makes is allowed, whatever the pool may have
    answered before. *)
Definition Client : Type := list Reply -> Call.

Fixpoint obeys (n : nat) (client : Client) (h : list Reply) (p : Pool) : Prop :=
  match n with
  | 0 => True
  | S n => allowed p (client h) /\
           forall r p', pool_step p (client h) r p' -> obeys n client (h ++ [r]) p'
  end.

Fixpoint drive (n : nat) (client : Client) (h : list Reply) (s : SlotLedger)
    : res (SlotLedger * list Reply) :=
  match n with
  | 0 => Done (s, h)
  | S n => '(s, r) ← exec (client h) s; drive n client (h ++ [r]) s
  end.

Inductive pool_run (client : Client) : nat -> list Reply -> Pool -> list Reply -> Pool -> Prop :=
  | run_stop h p : pool_run client 0 h p h p
  | run_call n h p r p' h'' p'' :
      pool_step p (client h) r p' -> pool_run client n (h ++ [r]) p' h'' p'' ->
      pool_run client (S n) h p h'' p''.

Definition empty_pool (max : nat) : Pool := mkPool max [] ∅.

Lemma new_refines max : (N.of_nat max <= u32_max)%N -> refines (SlotLedger_new max) (empty_pool max).
Proof.
  intros Hmax. split; [done|done|]. unfold refs, held. cbn. rewrite map_to_list_empty. cbn.
  assert (N.to_nat (u32_of_usize max) = max) as Hcast.
  { unfold u32_of_usize, u32_wrap, u32_max in *. rewrite N.mod_small by lia. lia. }
  split; cbn; rewrite ?length_replicate; try done.
  - set_solver.
  - intros slot Hlt. by rewrite lookup_replicate_2.
  - rewrite Hcast. rewrite reverse_Permutation. apply NoDup_fmap_2; [by intros ?? ?%Nat2N.inj|apply NoDup_seq].
  - intros slot. rewrite Hcast, elem_of_reverse, list_elem_of_fmap. split.
    + intros (i & -> & Hi%elem_of_seq). split; [lia|set_solver].
    + intros [Hlt _]. exists (N.to_nat slot). split; [lia|]. apply elem_of_seq. lia.
Qed.

Lemma drive_refines client : forall n h s p, refines s p -> obeys n client h p ->
  exists s' h' p', drive n client h s = Done (s', h') /\ pool_run client n h p h' p' /\ refines s' p'.
Proof.
  induction n as [|n IH]; intros h s p Href Hobey; cbn.
  { exists s, h, p. split_and!; [done|constructor|done]. }
  destruct Hobey as [Hal Hobey].
  destruct (simulate s p (client h) Href Hal) as (s1 & r & p1 & -> & Hstep & Href1). cbn.
  destruct (IH (h ++ [r]) s1 p1 Href1) as (s' & h' & p' & -> & Hrun & Href'); [eauto|].
  exists s', h', p'. split_and!; [done|by econstructor|done].
Qed.

(** C10: the slot ledger implements a pool of held slots. Driven for any number
    of calls by any client that shares only held slots and releases only its
    own references, the ledger never panics, gives answers the pool allows (an
    allocation hands out distinct slots nobody holds, or fails exactly when too
    few are vacant; a share or a prefix adds references; a release or the end
    of a request takes them away), and ends in a state that represents the
    pool's: the free stack is the vacant slots, each once, and each count is
    the number of references. *)
Theorem ledger_refines_pool (client : Client) (n max : nat) :
  (N.of_nat max <= u32_max)%N -> obeys n client [] (empty_pool max) ->
  exists s h p, drive n client [] (SlotLedger_new max) = Done (s, h) /\
    pool_run client n [] (empty_pool max) h p /\ refines s p /\ free_slots s ≡ₚ vacant p.
Proof.
  intros Hmax Hobey.
  destruct (drive_refines client n [] _ _ (new_refines max Hmax) Hobey) as (s & h & p & ? & ? & Href).
  exists s, h, p. split_and!; try done. by apply free_slots_vacant.
Qed.

(** Eviction is safe and follows recency. From blocks of slots in range it
    selects only blocks all of whose slots are held by the cache and none by a
    request, least recently used first; it stops at the first block that meets
    the target, or selects every such block when they do not meet it. *)
Theorem select_eviction_spec s p blocks target :
  refines s p -> Forall (Forall (in_pool p)) blocks -> 0 < target ->
  exists selected order, select_eviction_candidates blocks target s = Done (s, inl selected) /\
    order ≡ₚ filter (evictable_block p) blocks /\
    StronglySorted (fun a b => newest_access s 0 a <= newest_access s 0 b)%N order /\
    (exists rest, order = selected ++ rest /\ (target <= tokens_of selected \/ rest = [])) /\
    (forall front lst, selected = front ++ [lst] -> tokens_of front < target).
Proof.
  intros Href Hrange Htarget. set (sorted := sort_by by_access (candidates_of s p blocks)).
  assert (sorted ≡ₚ candidates_of s p blocks) as Hperm by apply sort_by_perm.
  exists (take_until target 0 sorted.*2), sorted.*2. split_and!.
  - unfold select_eviction_candidates. rewrite bool_decide_eq_false_2 by lia. cbn [orb]. case_bool_decide as Hnil.
    { subst blocks. done. }
    destruct (active_bitmap_ok s p Href) as (active & Hact & Hmarks). eff_cbn. unfold id. rewrite Hact. cbn.
    pose proof (collect_candidates_ok s p Href active Hmarks blocks [] Hrange) as Hrun. by rewrite Hrun.
  - rewrite Hperm. unfold candidates_of. by rewrite <-list_fmap_compose, list_fmap_id.
  - assert (StronglySorted (fun a b => by_access a b = true) sorted) as Hsorted.
    { apply sort_by_sorted; unfold by_access; intros *; rewrite !bool_decide_eq_true; lia. }
    assert (forall c, c ∈ sorted -> c.1 = newest_access s 0 c.2) as Hkey.
    { intros c. rewrite Hperm. unfold candidates_of. intros (b & -> & _)%list_elem_of_fmap. done. }
    clearbody sorted. clear Hperm. induction Hsorted as [|c sorted Hs IH Hc]; [constructor|]. cbn.
    constructor; [apply IH; set_solver|]. rewrite Forall_forall in Hc. apply Forall_forall. intros b (c' & -> & Hc')%list_elem_of_fmap.
    specialize (Hc c' Hc'). unfold by_access in Hc. rewrite bool_decide_eq_true in Hc.
    by rewrite <-!Hkey by set_solver.
  - destruct (take_until_spec target sorted.*2 0 Htarget) as (rest & ? & Hmet & _). by exists rest.
  - by destruct (take_until_spec target sorted.*2 0 Htarget) as (_ & _ & _ & Hmin).
Qed.

(** Handing out fresh slots leaves that many fewer vacant. *)
Lemma vacant_append id slots p :
  fresh_slots p slots -> length (vacant (append_request id slots p)) + length slots = length (vacant p).
Proof.
  intros [Hnd Hnew]. rewrite Nat.add_comm, <-length_app. apply Permutation_length, NoDup_Permutation.
  - apply NoDup_app. split_and!; [done| |].
    + intros slot Hin [Hout _]%list_elem_of_filter. rewrite refs_append in Hout. set_solver.
    + apply NoDup_filter, NoDup_fmap_2; [by intros ?? ?%Nat2N.inj|apply NoDup_seq].
  - apply NoDup_filter, NoDup_fmap_2; [by intros ?? ?%Nat2N.inj|apply NoDup_seq].
  - intros slot. unfold vacant. rewrite elem_of_app, !list_elem_of_filter, refs_append. cbn.
    destruct (decide (slot ∈ slots)) as [Hin|Hin]; [|set_solver].
    destruct (Hnew slot Hin) as [Hlt Hout]. unfold in_pool in Hlt.
    assert (slot ∈ N.of_nat <$> seq 0 (pool_size p)); [|set_solver].
    apply list_elem_of_fmap. exists (N.to_nat slot). split; [lia|]. apply elem_of_seq. lia.
Qed.

(** Releasing undoes an allocation. When the request holds nothing yet,
    allocating slots for it and then freeing the request leaves the same slots
    free as before, and the request unknown. *)
Theorem alloc_free_roundtrip s p id count :
  refines s p -> request_slots s !! id = None -> count <= available_tokens s ->
  exists s1 slots, alloc_tokens id count s = Done (s1, inl slots) /\ length slots = count /\
    available_tokens s1 + count = available_tokens s /\
    let s' := free_request id s1 in
    free_slots s' ≡ₚ free_slots s /\ request_slots s' = request_slots s /\ refines s' p.
Proof.
  intros Href Hnone Hcount. rewrite (available_vacant s p Href) in Hcount.
  destruct (alloc_detached_ok s p count Href) as [[? _]|(s0 & slots & Hrun & Hlen & Hnew & Hs & Hrq & Hmax)]; [lia|].
  set (s1 := extend_request id slots s0).
  assert (refines s1 (append_request id slots p)) as Href1 by by eapply refines_append.
  assert (drop_request id (append_request id slots p) = p) as Hback.
  { rewrite (rf_requests s p Href) in Hnone. destruct p as [m d rq]. unfold drop_request, append_request. cbn in *.
    by rewrite delete_insert_id. }
  destruct (simulate_free s1 _ id Href1) as (s2 & r & p2 & Hfree & Hstep & Href2).
  cbn in Hfree. injection Hfree as <- <-. inversion Hstep; subst p2. rewrite Hback in Href2.
  exists s1, slots. unfold alloc_tokens. run Hrun. split_and!; [done|done| | |by rewrite (rf_requests _ p Href2), (rf_requests s p Href)|done].
  - rewrite (available_vacant s p Href), (available_vacant s1 _ Href1), <-Hlen. by apply vacant_append.
  - by rewrite (free_slots_vacant _ p Href2), (free_slots_vacant s p Href).
Qed.

(** ** Concrete runs *)

(** Allocate two detached slots, share them with request 7, release the
    detached references, free the request. *)
Definition cache_client : Client := fun h =>
  match h with
  | [] => AllocDetached 2
  | [Slots slots] => ShareSlots 7 slots
  | [Slots slots; _] => ReleaseSlots slots
  | _ => FreeRequest 7
  end.

Lemma cache_client_obeys : obeys 4 cache_client [] (empty_pool 3).
Proof.
  cbn [obeys]. split; [done|]. intros r p Hstep.
  inversion Hstep as [? slots Hlen [Hnd Hnew]| |? Hshort| | | | | | | | | | | | |]; subst; cbn in *.
  2: { split; [done|]. intros. split; [done|]. intros. by split. }
  assert (Forall (in_pool (hold slots (empty_pool 3))) slots) as Hall by (apply Forall_forall; naive_solver).
  split.
  { split; [intros; unfold refs, hold; set_solver|]. unfold refs, held. cbn.
    rewrite map_to_list_empty, app_nil_r, !length_app, Hlen. cbn. done. }
  intros r' p' Hstep'.
  assert (pool_detached p' = slots ++ []) as Hdet.
  { inversion Hstep'; subst; try done. }
  split; [intros _; exists []; by rewrite Hdet|]. intros. by split.
Qed.

Lemma ledger_refines_pool_witness :
  (3 <= u32_max)%N /\
  exists s h p, drive 4 cache_client [] (SlotLedger_new 3) = Done (s, h) /\
    pool_run cache_client 4 [] (empty_pool 3) h p /\ refines s p /\ free_slots s ≡ₚ vacant p.
Proof. split; [done|]. apply (ledger_refines_pool cache_client 4 3); [done|apply cache_client_obeys]. Defined.

(** Two blocks of the cache, touched in turn, and one of a request. *)
Definition example_ledger : SlotLedger :=
  match (old ← alloc_detached_slots 2; active ← alloc_tokens 7 2; new ← alloc_detached_slots 2;
         register_access new ;; register_access old ;; register_access new) (SlotLedger_new 8) with
  | Done (s, _) => s
  | _ => SlotLedger_new 8
  end.
Definition example_pool : Pool := mkPool 8 [0; 1; 4; 5]%N {[7 := [2; 3]%N]}.

Lemma example_refines : refines example_ledger example_pool.
Proof.
  split; [done|done|]. assert (refs example_pool = [0; 1; 4; 5; 2; 3]%N) as -> by done.
  split; [done|done| | |vm_compute; repeat (constructor; [set_solver|]); constructor|].
  - intros slot Hin. change (max_total_tokens example_ledger) with 8. set_solver by lia.
  - intros slot Hlt. change (max_total_tokens example_ledger) with 8 in Hlt.
    assert (slot = 0 \/ slot = 1 \/ slot = 2 \/ slot = 3 \/ slot = 4 \/ slot = 5 \/ slot = 6 \/ slot = 7)%N as Hc by lia.
    repeat (destruct Hc as [->|Hc]; [done|]). by subst.
  - intros slot. change (max_total_tokens example_ledger) with 8. change (free_slots example_ledger) with [7; 6]%N.
    split; [set_solver by lia|]. intros [Hlt Hout].
    assert (slot = 0 \/ slot = 1 \/ slot = 2 \/ slot = 3 \/ slot = 4 \/ slot = 5 \/ slot = 6 \/ slot = 7)%N as Hc by lia.
    set_solver.
Qed.

Lemma select_eviction_spec_witness :
  select_eviction_candidates [[4; 5]; [2; 3]; [0; 1]]%N 2 example_ledger
    = Done (example_ledger, inl [[0; 1]]%N) /\
  exists selected order,
    select_eviction_candidates [[4; 5]; [2; 3]; [0; 1]]%N 2 example_ledger = Done (example_ledger, inl selected) /\
    order ≡ₚ filter (evictable_block example_pool) [[4; 5]; [2; 3]; [0; 1]]%N /\
    StronglySorted (fun a b => newest_access example_ledger 0 a <= newest_access example_ledger 0 b)%N order /\
    (exists rest, order = selected ++ rest /\ (2 <= tokens_of selected \/ rest = [])) /\
    (forall front lst, selected = front ++ [lst] -> tokens_of front < 2).
Proof.
  split; [vm_compute; reflexivity|]. apply (select_eviction_spec example_ledger example_pool); [apply example_refines| |lia].
  repeat constructor; unfold in_pool; cbn; lia.
Defined.

Lemma alloc_free_roundtrip_witness :
  exists s1 slots, alloc_tokens 9 2 example_ledger = Done (s1, inl slots) /\ length slots = 2 /\
    available_tokens s1 + 2 = available_tokens example_ledger /\
    let s' := free_request 9 s1 in
    free_slots s' ≡ₚ free_slots example_ledger /\ request_slots s' = request_slots example_ledger /\
    refines s' example_pool.
Proof. apply (alloc_free_roundtrip example_ledger example_pool 9 2); [apply example_refines|done|].
  change (available_tokens example_ledger) with 2. lia.
Defined.

(** Without the client's obligation: a slot shared while it is free stays on
    the free stack, and the next allocation hands it to another request. *)
Lemma sharing_a_free_slot :
  exists s slots, (share_slots 1 [0%N] ;; alloc_tokens 2 1) (SlotLedger_new 1) = Done (s, inl slots) /\
    slots = [0%N] /\ request_slots s !! 1 = Some [0%N] /\ request_slots s !! 2 = Some [0%N].
Proof. eexists _, _. split; [vm_compute; reflexivity|]. by split_and!. Qed.
