(* ===== verification/MetalScheduler.v ===== *)
(** * The Metal scheduler

    Models [infer/src/backend/metal/scheduler.rs]: the queue of the Metal
    backend, which gives each tick one decode batch and at most one prefill
    chunk. The runtime hands in a snapshot of every admitted request; a
    missing or inconsistent snapshot is a panic. The event sink is the list of
    the events emitted so far. *)

From S2P Require Import Prelude Lists Tier Plan.
From S2P Require BatchScheduler.
Import BatchScheduler (EngineEvent, mkEngineEvent).

(** ** Data *)
Inductive MetalRequestPriority := Low | Normal | High.

(** The derived order. *)
Definition priority_rank (p : MetalRequestPriority) : nat :=
  match p with Low => 0 | Normal => 1 | High => 2 end.

Record MetalSchedulerConfig := mkMetalSchedulerConfig {
  max_running_requests : nat;
  max_batch_tokens : nat;
}.

Definition MetalSchedulerConfig_default : MetalSchedulerConfig := mkMetalSchedulerConfig 4 512.

Inductive MetalRequestPhase := Waiting | Prefilling | Decoding.

#[export] Instance MetalRequestPhase_eq_dec : EqDecision MetalRequestPhase.
Proof. solve_decision. Defined.

Record MetalRuntimeRequestState := mkRuntime {
  rt_req_id : RequestId;
  rt_phase : MetalRequestPhase;
  rt_prompt_progress : nat;
  rt_generated_tokens : nat;
  rt_last_token : option Token;
}.

Inductive MetalSchedulerError := InvalidConfig (msg : string) | EmptyPrompt | UnknownRequest (id : RequestId).

Definition validate (c : MetalSchedulerConfig) : unit + MetalSchedulerError :=
  if bool_decide (max_running_requests c = 0) then inr (InvalidConfig "max_running_requests must be >= 1")
  else if bool_decide (max_batch_tokens c = 0) then inr (InvalidConfig "max_batch_tokens must be >= 1")
  else inl tt.

Record MetalRequestState := mkRequest {
  rq_req_id : RequestId;
  rq_prompt_tokens : list Token;
  rq_priority : MetalRequestPriority;
  rq_arrival_order : N;
  rq_admitted : bool;
}.

Definition prompt_len (r : MetalRequestState) : nat := length (rq_prompt_tokens r).
Definition admit_request (r : MetalRequestState) : MetalRequestState :=
  mkRequest (rq_req_id r) (rq_prompt_tokens r) (rq_priority r) (rq_arrival_order r) true.
Definition set_prompt (t : list Token) (r : MetalRequestState) : MetalRequestState :=
  mkRequest (rq_req_id r) t (rq_priority r) (rq_arrival_order r) (rq_admitted r).

Record MetalDecodeBatch := mkMetalDecodeBatch {
  db_req_ids : list RequestId;
  db_input_tokens : list Token;
}.

Record MetalPrefillChunk := mkMetalPrefillChunk {
  pc_req_id : RequestId;
  pc_input_tokens : list Token;
  pc_prompt_start : nat;
  pc_prompt_end : nat;
  pc_prompt_len : nat;
}.

Record MetalScheduleStep := mkMetalScheduleStep {
  st_decode : option MetalDecodeBatch;
  st_prefill : list MetalPrefillChunk;
  st_plan : LogicalServePlan;
}.

Definition step_is_idle (s : MetalScheduleStep) : bool := is_idle (st_plan s).
Definition step_batch_shape (s : MetalScheduleStep) : LogicalBatchShape := batch_shape (st_plan s).

Definition chunk_of_row (r : LogicalPrefillRow) : MetalPrefillChunk :=
  mkMetalPrefillChunk (lpr_req_id r) (lpr_input_tokens r) (lpr_prompt_start r) (lpr_prompt_end r)
    (lpr_prompt_len r).

Definition step_of_plan (plan : LogicalServePlan) : MetalScheduleStep :=
  mkMetalScheduleStep
    (if is_empty (decode_rows plan) then None
     else Some (mkMetalDecodeBatch (ldr_req_id <$> decode_rows plan) (ldr_input_token <$> decode_rows plan)))
    (chunk_of_row <$> prefill_rows plan) plan.

Record MetalScheduler := mkMetalScheduler {
  config : MetalSchedulerConfig;
  next_req_id : N;
  next_arrival_order : N;
  waiting : list RequestId;
  requests : gmap RequestId MetalRequestState;
  events : list EngineEvent;
}.

Definition set_waiting (w : list RequestId) (s : MetalScheduler) : MetalScheduler :=
  mkMetalScheduler (config s) (next_req_id s) (next_arrival_order s) w (requests s) (events s).
Definition set_requests (m : gmap RequestId MetalRequestState) (s : MetalScheduler) : MetalScheduler :=
  mkMetalScheduler (config s) (next_req_id s) (next_arrival_order s) (waiting s) m (events s).
Definition set_counters (i a : N) (s : MetalScheduler) : MetalScheduler :=
  mkMetalScheduler (config s) i a (waiting s) (requests s) (events s).

Definition emit_event (id : RequestId) (kind : RequestEventKind) (mode : option InferenceMode)
    (s : MetalScheduler) : MetalScheduler :=
  mkMetalScheduler (config s) (next_req_id s) (next_arrival_order s) (waiting s) (requests s)
    (events s ++ [mkEngineEvent id kind mode]).

Definition with_event_sink (c : MetalSchedulerConfig) : MetalScheduler + MetalSchedulerError :=
  match validate c with
  | inl _ => inl (mkMetalScheduler c 0 0 [] ∅ [])
  | inr e => inr e
  end.

(** ** Orders *)
Definition then_with (c d : comparison) : comparison := match c with Eq => d | _ => c end.

Definition compare_priority_waiting (a b : MetalRequestState) : comparison :=
  then_with (CompOpp (priority_rank (rq_priority a) ?= priority_rank (rq_priority b)))
    (rq_arrival_order a ?= rq_arrival_order b)%N.

Definition compare_prefill_order (a b : MetalRequestState) : comparison :=
  then_with (rq_arrival_order a ?= rq_arrival_order b)%N (rq_req_id a ?= rq_req_id b)%N.

Definition compare_decode_order (a b : MetalRequestState) : comparison :=
  then_with (CompOpp (priority_rank (rq_priority a) ?= priority_rank (rq_priority b)))
    (then_with (rq_arrival_order a ?= rq_arrival_order b)%N (rq_req_id a ?= rq_req_id b)%N).

Definition not_after {A} (cmp : A -> A -> comparison) (a b : A) : bool :=
  match cmp a b with Gt => false | _ => true end.

(** ** Operations *)
Definition submit (prompt_tokens : list Token) (max_tokens : nat) (priority : MetalRequestPriority)
    (s : MetalScheduler) : MetalScheduler * (RequestId + MetalSchedulerError) :=
  if bool_decide (prompt_tokens = []) then (s, inr EmptyPrompt)
  else if bool_decide (max_tokens = 0) then (s, inr (InvalidConfig "max_tokens must be >= 1"))
  else
    let req_id := next_req_id s in
    let arrival_order := next_arrival_order s in
    let s := set_counters (u64_add req_id 1) (u64_add arrival_order 1) s in
    let s := set_requests (<[req_id := mkRequest req_id prompt_tokens priority arrival_order false]>
                             (requests s)) s in
    let s := set_waiting (waiting s ++ [req_id]) s in
    (emit_event req_id Enqueued None s, inl req_id).

Definition is_waiting (id : RequestId) (s : MetalScheduler) : bool :=
  match requests s !! id with Some st => negb (rq_admitted st) | None => false end.

Definition waiting_len (s : MetalScheduler) : nat := length (waiting s).

(** [values()] of the map, in its order. *)
Definition states (s : MetalScheduler) : list MetalRequestState := (map_to_list (requests s)).*2.

Definition running_len (s : MetalScheduler) : nat := length (filter (fun st => rq_admitted st = true) (states s)).

(** The first occurrence goes. *)
Fixpoint remove_first (id : RequestId) (l : list RequestId) : list RequestId :=
  match l with
  | [] => []
  | x :: l => if bool_decide (x = id) then l else x :: remove_first id l
  end.

Definition remove_request (id : RequestId) (s : MetalScheduler) : MetalScheduler * option MetalRequestState :=
  match requests s !! id with
  | None => (s, None)
  | Some st => (set_waiting (remove_first id (waiting s)) (set_requests (delete id (requests s)) s), Some st)
  end.

Definition finish_request (id : RequestId) (mode : option InferenceMode) (s : MetalScheduler)
    : MetalScheduler * bool :=
  let '(s, removed) := remove_request id s in
  match removed with
  | Some _ => (emit_event id Completed mode s, true)
  | None => (s, false)
  end.

Definition rewrite_waiting_prompt (id : RequestId) (prompt_tokens : list Token) (s : MetalScheduler)
    : MetalScheduler * (unit + MetalSchedulerError) :=
  if bool_decide (prompt_tokens = []) then (s, inr EmptyPrompt)
  else match requests s !! id with
  | None => (s, inr (UnknownRequest id))
  | Some st => (set_requests (<[id := set_prompt prompt_tokens st]> (requests s)) s, inl tt)
  end.

Definition prefill_chunk_budget (decode_count : nat) (s : MetalScheduler) : nat :=
  max_batch_tokens (config s) - decode_count.

Section step.
Context (runtime_states : list MetalRuntimeRequestState).

Definition runtime_state (id : RequestId) : option MetalRuntimeRequestState :=
  find (fun rt => bool_decide (rt_req_id rt = id)) runtime_states.

Definition count_decode_runtime : nat := length (filter (fun rt => rt_phase rt = Decoding) runtime_states).

Definition validate_runtime_snapshots (s : MetalScheduler) : res unit :=
  fold_res (fun _ st =>
    runtime ← expect (runtime_state (rq_req_id st));
    if bool_decide (rt_phase runtime = Decoding /\ rt_last_token runtime = None) then Panics else Done tt)
    (filter (fun st => rq_admitted st = true) (states s)) tt.

(** The request with its row's token and offset. *)
Definition decode_state (acc : list (MetalRequestState * Token * nat)) (st : MetalRequestState)
    : res (list (MetalRequestState * Token * nat)) :=
  if negb (rq_admitted st) then Done acc
  else
    runtime ← expect (runtime_state (rq_req_id st));
    if bool_decide (rt_phase runtime <> Decoding) then Done acc
    else
      last_token ← expect (rt_last_token runtime);
      let logical_offset := rt_prompt_progress runtime + (rt_generated_tokens runtime - 1) in
      Done (acc ++ [(st, last_token, logical_offset)]).

Definition build_decode_rows (s : MetalScheduler) : res (list LogicalDecodeRow) :=
  picked ← fold_res decode_state (states s) [];
  let sorted := sort_by (fun a b => not_after compare_decode_order a.1.1 b.1.1) picked in
  Done (imap (fun row_index x => mkLogicalDecodeRow row_index (rq_req_id x.1.1) x.1.2 x.2) sorted).

Definition is_prefilling (st : MetalRequestState) : bool :=
  rq_admitted st
  && match runtime_state (rq_req_id st) with
     | Some runtime => bool_decide (rt_phase runtime = Prefilling)
     | None => false
     end.

Definition find_prefilling_request (s : MetalScheduler) : option RequestId :=
  rq_req_id <$> min_by compare_prefill_order (filter (fun st => is_prefilling st = true) (states s)).

(** The index and the state of each queued request that is known. *)
Definition queued_states (s : MetalScheduler) : list (nat * MetalRequestState) :=
  omap (fun p => (p.1,.) <$> requests s !! p.2) (imap pair (waiting s)).

Definition admit_next_waiting_request (s : MetalScheduler) : MetalScheduler * option RequestId :=
  match min_by (fun a b => compare_priority_waiting a.2 b.2) (queued_states s) with
  | None => (s, None)
  | Some (best_idx, _) =>
      match waiting s !! best_idx with
      | None => (s, None)
      | Some req_id =>
          let s := set_waiting (delete best_idx (waiting s)) s in
          match requests s !! req_id with
          | None => (s, None)
          | Some st => (set_requests (<[req_id := admit_request st]> (requests s)) s, Some req_id)
          end
      end
  end.

(** The request that takes the tick's chunk, and whether it was admitted just
    now. *)
Definition pick_prefill (s : MetalScheduler) : MetalScheduler * option (RequestId * bool) :=
  match find_prefilling_request s with
  | Some req_id => (s, Some (req_id, false))
  | None =>
      if bool_decide (running_len s < max_running_requests (config s)) then
        let '(s, admitted) := admit_next_waiting_request s in
        (s, (., true) <$> admitted)
      else (s, None)
  end.

Definition build_prefill_rows (row_index : nat) (s : MetalScheduler)
    : res (MetalScheduler * list LogicalPrefillRow) :=
  let chunk_cap := prefill_chunk_budget count_decode_runtime s in
  if bool_decide (chunk_cap = 0) then Done (s, [])
  else
    let '(s, picked) := pick_prefill s in
    match picked with
    | None => Done (s, [])
    | Some (req_id, newly_admitted) =>
        match requests s !! req_id with
        | None => Done (s, [])
        | Some st =>
            prompt_start ← (if (newly_admitted : bool) then Done 0
              else runtime ← expect (runtime_state req_id);
                   Done (Nat.min (rt_prompt_progress runtime) (prompt_len st)));
            let prompt_end := Nat.min (prompt_start + chunk_cap) (prompt_len st) in
            input_tokens ← slice (rq_prompt_tokens st) prompt_start prompt_end;
            let s := if bool_decide (prompt_start = 0)
                     then emit_event req_id PrefillStarted (Some Prefill) s else s in
            Done (s, [LogicalPrefillRow_new row_index req_id input_tokens prompt_start prompt_end
                        (prompt_len st)])
        end
    end.

Definition build_logical_plan (s : MetalScheduler) : res (MetalScheduler * LogicalServePlan) :=
  rows ← build_decode_rows s;
  '(s, prefill) ← build_prefill_rows (length rows) s;
  Done (s, LogicalServePlan_new rows prefill).

Definition step (s : MetalScheduler) : res (MetalScheduler * MetalScheduleStep) :=
  _ ← validate_runtime_snapshots s;
  '(s, plan) ← build_logical_plan s;
  Done (s, step_of_plan plan).
End step.
