(* ===== verification/MetalSchedulerProps.v ===== *)
(** * The Metal scheduler: invariant and properties

    The queue lists the requests not yet admitted, once each; admitted requests
    never exceed the configured number; identifiers and arrival orders are
    fresh. Every operation keeps it. *)

From S2P Require Import Prelude Lists Tier Plan MetalScheduler.
From S2P Require BatchScheduler.

Record wf (s : MetalScheduler) : Prop := mk_wf {
  wf_key : forall id st, requests s !! id = Some st -> rq_req_id st = id /\ (id < next_req_id s)%N;
  wf_arrival : forall id st, requests s !! id = Some st -> (rq_arrival_order st < next_arrival_order s)%N;
  wf_order : forall i j a b, requests s !! i = Some a -> requests s !! j = Some b ->
    rq_arrival_order a = rq_arrival_order b -> i = j;
  wf_nodup : NoDup (waiting s);
  wf_waiting : forall id, id ∈ waiting s <->
    exists st, requests s !! id = Some st /\ rq_admitted st = false;
  wf_prompt : forall id st, requests s !! id = Some st -> rq_prompt_tokens st <> [];
  wf_running : running_len s <= max_running_requests (config s);
}.

(** ** Counting admitted requests *)
Definition admitted_in (m : gmap RequestId MetalRequestState) : nat :=
  length (filter (fun st => rq_admitted st = true) (map_to_list m).*2).

Lemma admitted_delete m id st :
  m !! id = Some st ->
  admitted_in m = (if rq_admitted st then 1 else 0) + admitted_in (delete id m).
Proof.
  intros Hm. unfold admitted_in. rewrite <-(map_to_list_delete m id st Hm), fmap_cons, filter_cons. cbn.
  by destruct (rq_admitted st).
Qed.

Lemma admitted_insert m id st :
  admitted_in (<[id := st]> m) = (if rq_admitted st then 1 else 0) + admitted_in (delete id m).
Proof. rewrite (admitted_delete _ id st) by apply lookup_insert_eq. by rewrite delete_insert_eq. Qed.

Lemma admitted_insert_fresh m id st :
  m !! id = None -> admitted_in (<[id := st]> m) = (if rq_admitted st then 1 else 0) + admitted_in m.
Proof. intros Hm. by rewrite admitted_insert, delete_id. Qed.

Lemma states_elem s st : st ∈ states s <-> exists id, requests s !! id = Some st.
Proof.
  unfold states. rewrite list_elem_of_fmap. split.
  - intros ([id x] & -> & Hin%elem_of_map_to_list). by exists id.
  - intros [id Hid]. exists (id, st). split; [done|]. by apply elem_of_map_to_list.
Qed.

(** ** Small facts *)
Lemma remove_first_elem id l x : NoDup l -> x ∈ remove_first id l <-> x ∈ l /\ x <> id.
Proof.
  induction 1 as [|y l Hy Hnd IH]; cbn; [set_solver|]. case_bool_decide as E; [subst|]; set_solver.
Qed.

Lemma remove_first_nodup id l : NoDup l -> NoDup (remove_first id l).
Proof.
  induction 1 as [|y l Hy Hnd IH]; cbn; [constructor|]. case_bool_decide; [done|]. constructor; [|done].
  rewrite remove_first_elem by done. naive_solver.
Qed.

(** ** Preservation *)
Lemma new_wf c s : with_event_sink c = inl s -> wf s.
Proof.
  unfold with_event_sink, validate. do 2 (case_bool_decide; [done|]). intros [= <-].
  split; cbn; try (intros *; rewrite lookup_empty; done); [constructor| |].
  - intros id. split; [by intros ?%not_elem_of_nil|intros (st & ? & _); by rewrite lookup_empty in *].
  - unfold running_len, states. cbn. rewrite map_to_list_empty. cbn. lia.
Qed.

Lemma submit_wf prompt max_tokens priority s :
  wf s -> (next_req_id s < u64_max)%N -> (next_arrival_order s < u64_max)%N ->
  wf (submit prompt max_tokens priority s).1.
Proof.
  intros Hwf Hid Harr. pose proof Hwf as [Hk Ha Ho Hn Hw Hp Hr]. unfold submit.
  case_bool_decide as Hnil; [done|]. case_bool_decide; [done|]. cbn.
  assert (requests s !! next_req_id s = None) as Hnew.
  { destruct (requests s !! next_req_id s) eqn:E; [|done]. apply Hk in E. lia. }
  assert (next_req_id s ∉ waiting s) as Hnw by (rewrite Hw; naive_solver).
  rewrite !u64_add_small in * by lia.
  split; cbn; rewrite ?u64_add_small by lia.
  - intros id st [[<- <-]|[Hne Hst]]%lookup_insert_Some; cbn; [lia|]. apply Hk in Hst. lia.
  - intros id st [[<- <-]|[Hne Hst]]%lookup_insert_Some; cbn; [lia|]. apply Ha in Hst. lia.
  - intros i j a b [[<- <-]|[? Hi]]%lookup_insert_Some [[<- <-]|[? Hj]]%lookup_insert_Some; cbn; [done| | |eauto].
    + apply Ha in Hj. lia.
    + apply Ha in Hi. lia.
  - apply NoDup_app. split_and!; [done|set_solver|apply NoDup_singleton].
  - intros id. rewrite elem_of_app, list_elem_of_singleton, Hw. setoid_rewrite lookup_insert_Some. split.
    + intros [(st & ? & ?)| ->]; [|eexists; split; [by left|done]]. exists st. split; [right; split; [|done]|done].
      intros <-. congruence.
    + intros (st & [[<- _]|[? ?]] & ?); eauto.
  - intros id st [[<- <-]|[Hne Hst]]%lookup_insert_Some; cbn; eauto.
  - change (admitted_in (<[next_req_id s := mkRequest (next_req_id s) prompt priority (next_arrival_order s) false]>
      (requests s)) <= max_running_requests (config s)). rewrite admitted_insert_fresh by done. exact Hr.
Qed.

Lemma finish_wf id mode s : wf s -> wf (finish_request id mode s).1.
Proof.
  intros Hwf. pose proof Hwf as [Hk Ha Ho Hn Hw Hp Hr]. unfold finish_request, remove_request.
  destruct (requests s !! id) as [st|] eqn:E; [|done]. split; cbn.
  - intros i x [? Hx]%lookup_delete_Some. eauto.
  - intros i x [? Hx]%lookup_delete_Some. eauto.
  - intros i j a b [? Hi]%lookup_delete_Some [? Hj]%lookup_delete_Some. eauto.
  - by apply remove_first_nodup.
  - intros i. rewrite remove_first_elem, Hw by done. setoid_rewrite lookup_delete_Some. naive_solver.
  - intros i x [? Hx]%lookup_delete_Some. eauto.
  - change (admitted_in (delete id (requests s)) <= max_running_requests (config s)).
    change (admitted_in (requests s) <= max_running_requests (config s)) in Hr.
    rewrite (admitted_delete _ id st E) in Hr. lia.
Qed.

(** Replacing a request by one that differs only in its prompt or by having
    been admitted. *)
Lemma replace_lookup (m : gmap RequestId MetalRequestState) id st st' i x :
  m !! id = Some st -> <[id := st']> m !! i = Some x ->
  (i = id /\ x = st') \/ m !! i = Some x.
Proof. intros ?. rewrite lookup_insert_Some. naive_solver. Qed.

Lemma rewrite_wf id prompt s : wf s -> wf (rewrite_waiting_prompt id prompt s).1.
Proof.
  intros Hwf. pose proof Hwf as [Hk Ha Ho Hn Hw Hp Hr]. unfold rewrite_waiting_prompt.
  case_bool_decide; [done|]. destruct (requests s !! id) as [st|] eqn:E; [|done]. split; cbn; try done.
  - intros i x [[-> ->]|Hx]%(replace_lookup _ _ st _ _ _ E); cbn; eauto.
  - intros i x [[-> ->]|Hx]%(replace_lookup _ _ st _ _ _ E); cbn; eauto.
  - intros i j a b [[-> ->]|Hi]%(replace_lookup _ _ st _ _ _ E) [[-> ->]|Hj]%(replace_lookup _ _ st _ _ _ E); cbn; eauto.
  - intros i. rewrite Hw. setoid_rewrite lookup_insert_Some.
    destruct (decide (i = id)) as [->|]; [|naive_solver]. rewrite E. split.
    + intros (? & [= <-] & ?). eexists. split; [by left|done].
    + intros (? & [[_ <-]|[]] & ?); [eauto|done].
  - intros i x [[-> ->]|Hx]%(replace_lookup _ _ st _ _ _ E); cbn; eauto.
  - change (admitted_in (<[id := set_prompt prompt st]> (requests s)) <= max_running_requests (config s)).
    change (admitted_in (requests s) <= max_running_requests (config s)) in Hr.
    rewrite admitted_insert. cbn. by rewrite (admitted_delete _ id st E) in Hr.
Qed.

Lemma admit_wf i id st s :
  wf s -> waiting s !! i = Some id -> requests s !! id = Some st ->
  running_len s < max_running_requests (config s) ->
  wf (set_requests (<[id := admit_request st]> (requests s)) (set_waiting (delete i (waiting s)) s)).
Proof.
  intros Hwf Hi E Hroom. pose proof Hwf as [Hk Ha Ho Hn Hw Hp Hr].
  assert (rq_admitted st = false) as Hadm.
  { apply list_elem_of_lookup_2, Hw in Hi as (? & ? & ?). congruence. }
  assert (forall x, x ∈ delete i (waiting s) <-> x ∈ waiting s /\ x <> id) as Hdel.
  { intros x. pose proof (delete_Permutation (waiting s) i id Hi) as Hperm. rewrite Hperm in Hn.
    apply NoDup_cons in Hn as [Hout _].
    assert (x ∈ waiting s <-> x = id \/ x ∈ delete i (waiting s)) as -> by by rewrite Hperm at 1; rewrite elem_of_cons.
    naive_solver. }
  split; cbn; try done.
  - intros j x [[-> ->]|Hx]%(replace_lookup _ _ st _ _ _ E); cbn; eauto.
  - intros j x [[-> ->]|Hx]%(replace_lookup _ _ st _ _ _ E); cbn; eauto.
  - intros j k a b [[-> ->]|Hj]%(replace_lookup _ _ st _ _ _ E) [[-> ->]|Hk']%(replace_lookup _ _ st _ _ _ E); cbn; eauto.
  - rewrite (delete_Permutation (waiting s) i id Hi) in Hn. by apply NoDup_cons in Hn as [_ ?].
  - intros x. rewrite Hdel, Hw. setoid_rewrite lookup_insert_Some. split; [naive_solver|].
    intros (y & [[<- <-]|[Hne Hy]] & Hf); [done|]. split; [eauto|done].
  - intros j x [[-> ->]|Hx]%(replace_lookup _ _ st _ _ _ E); cbn; eauto.
  - change (admitted_in (<[id := admit_request st]> (requests s)) <= max_running_requests (config s)).
    change (admitted_in (requests s) < max_running_requests (config s)) in Hroom.
    rewrite admitted_insert. cbn. rewrite (admitted_delete _ id st E), Hadm in Hroom. lia.
Qed.

Lemma metal_emit_wf id kind mode s : wf s -> wf (emit_event id kind mode s).
Proof. by intros []. Qed.

(** ** The Metal scheduler: properties

    What one tick decides: which requests decode, which one prefills, how much;
    and the invariant over every run of the public operations. *)

(** ** Orders *)
(** The orders, read as propositions. *)
Definition decodes_before (a b : MetalRequestState) : Prop :=
  priority_rank (rq_priority b) < priority_rank (rq_priority a) \/
  (priority_rank (rq_priority b) = priority_rank (rq_priority a) /\
   (rq_arrival_order a < rq_arrival_order b)%N).

Lemma waiting_order_not_gt a b :
  compare_priority_waiting a b <> Gt <->
  decodes_before a b \/
  (priority_rank (rq_priority b) = priority_rank (rq_priority a) /\ rq_arrival_order a = rq_arrival_order b).
Proof.
  unfold compare_priority_waiting, then_with, decodes_before.
  destruct (Nat.compare_spec (priority_rank (rq_priority a)) (priority_rank (rq_priority b))); cbn;
    [|split; [done|lia]|split; [left; lia|done]].
  destruct (N.compare_spec (rq_arrival_order a) (rq_arrival_order b)); split; try done; lia.
Qed.

Lemma prefill_order_not_gt a b :
  compare_prefill_order a b <> Gt <->
  (rq_arrival_order a < rq_arrival_order b)%N \/
  (rq_arrival_order a = rq_arrival_order b /\ (rq_req_id a <= rq_req_id b)%N).
Proof.
  unfold compare_prefill_order, then_with.
  destruct (N.compare_spec (rq_arrival_order a) (rq_arrival_order b)); [|split; [lia|done]|split; [done|lia]].
  destruct (N.compare_spec (rq_req_id a) (rq_req_id b)); split; try done; lia.
Qed.

Lemma not_after_total a b : not_after compare_decode_order a b = true \/ not_after compare_decode_order b a = true.
Proof.
  unfold not_after, compare_decode_order, then_with.
  rewrite (Nat.compare_antisym (priority_rank (rq_priority a))), (N.compare_antisym (rq_arrival_order a)),
    (N.compare_antisym (rq_req_id a)).
  destruct (_ ?= _); cbn; auto. destruct (_ ?= _)%N; cbn; auto. destruct (_ ?= _)%N; cbn; auto.
Qed.

Lemma decode_order_spec a b :
  not_after compare_decode_order a b = true <->
  decodes_before a b \/
  (priority_rank (rq_priority b) = priority_rank (rq_priority a) /\
   rq_arrival_order a = rq_arrival_order b /\ (rq_req_id a <= rq_req_id b)%N).
Proof.
  unfold not_after, compare_decode_order, then_with, decodes_before.
  destruct (Nat.compare_spec (priority_rank (rq_priority a)) (priority_rank (rq_priority b))); cbn;
    [|split; [done|lia]|split; [left; lia|done]].
  destruct (N.compare_spec (rq_arrival_order a) (rq_arrival_order b));
    [|split; [left; lia|done]|split; [done|lia]].
  destruct (N.compare_spec (rq_req_id a) (rq_req_id b)); split; try done; lia.
Qed.

Lemma not_after_trans a b c :
  not_after compare_decode_order a b = true -> not_after compare_decode_order b c = true ->
  not_after compare_decode_order a c = true.
Proof. rewrite !decode_order_spec. unfold decodes_before. lia. Qed.

(** ** Snapshots *)
Section step.
Context (rts : list MetalRuntimeRequestState).

(** The runtime's side of the contract: a snapshot of every admitted request,
    with the last token when it decodes. *)
Definition snapshot_ok (st : MetalRequestState) : Prop :=
  exists rt, runtime_state rts (rq_req_id st) = Some rt /\
    (rt_phase rt = Decoding -> is_Some (rt_last_token rt)).
Definition snapshots_ok (s : MetalScheduler) : Prop :=
  forall id st, requests s !! id = Some st -> rq_admitted st = true -> snapshot_ok st.

Lemma runtime_state_Some id rt :
  runtime_state rts id = Some rt -> rt ∈ rts /\ rt_req_id rt = id.
Proof.
  intros [Hin Hid]%find_some. split; [by apply list_elem_of_In|]. by apply bool_decide_eq_true in Hid.
Qed.

Lemma validate_ok s : validate_runtime_snapshots rts s = Done tt <-> snapshots_ok s.
Proof.
  transitivity (forall st, st ∈ filter (fun st => rq_admitted st = true) (states s) -> snapshot_ok st).
  2: { split.
    - intros H id st Hst Hadm. apply H, list_elem_of_filter. split; [done|]. apply states_elem. by exists id.
    - intros H st [Hadm [id Hid]%states_elem]%list_elem_of_filter. by apply (H id). }
  unfold validate_runtime_snapshots. generalize (filter (fun st => rq_admitted st = true) (states s)).
  intros l. induction l as [|st l IH]; cbn; [split; [set_solver|done]|].
  unfold snapshot_ok at 1. destruct (runtime_state rts (rq_req_id st)) as [rt|] eqn:E; cbn.
  2: { split; [done|]. intros H. destruct (H st) as (? & ? & _); [set_solver|congruence]. }
  case_bool_decide as Hbad; cbn.
  - split; [done|]. intros H. destruct (H st) as (rt' & ? & Hl); [set_solver|].
    destruct Hbad as [Hd Hn]. simplify_eq. rewrite Hn in Hl. by destruct Hl.
  - rewrite IH. split.
    + intros H st' [->|?]%elem_of_cons; [|by apply H]. exists rt. split; [done|]. intros Hd.
      destruct (rt_last_token rt) eqn:Ht; [by eexists|]. by destruct Hbad.
    + intros H st' ?. apply H. by right.
Qed.

Lemma validate_panics s : validate_runtime_snapshots rts s <> OutOfFuel.
Proof.
  unfold validate_runtime_snapshots. generalize (filter (fun st => rq_admitted st = true) (states s)).
  intros l. induction l as [|st l IH]; cbn; [done|].
  destruct (runtime_state rts (rq_req_id st)); cbn; [|done]. by case_bool_decide.
Qed.

(** ** Decode rows *)

(** A decoding request with what its row says. *)
Definition decodes (s : MetalScheduler) (st : MetalRequestState) (token : Token) (offset : nat) : Prop :=
  requests s !! rq_req_id st = Some st /\ rq_admitted st = true /\
  exists rt, runtime_state rts (rq_req_id st) = Some rt /\ rt_phase rt = Decoding /\
    rt_last_token rt = Some token /\ offset = rt_prompt_progress rt + (rt_generated_tokens rt - 1).

Lemma states_nodup s : wf s -> NoDup (rq_req_id <$> states s).
Proof.
  intros Hwf. unfold states. rewrite <-list_fmap_compose.
  assert (rq_req_id ∘ snd <$> map_to_list (requests s) = (map_to_list (requests s)).*1) as ->.
  { apply list_fmap_ext. intros i [id st] Hi. cbn. apply list_elem_of_lookup_2, elem_of_map_to_list in Hi.
    by apply (wf_key s Hwf) in Hi as [? _]. }
  apply NoDup_fst_map_to_list.
Qed.

Lemma picked_ok s : wf s -> snapshots_ok s ->
  exists picked, fold_res (decode_state rts) (states s) [] = Done picked /\
    NoDup (rq_req_id <$> picked.*1.*1) /\
    forall st token offset, (st, token, offset) ∈ picked <-> decodes s st token offset.
Proof.
  intros Hwf Hsnap. pose proof (states_nodup s Hwf) as Hnd.
  destruct (fold_res_inv (decode_state rts) (fun done picked =>
    (rq_req_id <$> picked.*1.*1) ⊆ (rq_req_id <$> done) /\ NoDup (rq_req_id <$> picked.*1.*1) /\
    forall st token offset, (st, token, offset) ∈ picked <-> st ∈ done /\ decodes s st token offset)
    (states s) []) as (picked & Hrun & _ & Hndp & Hin).
  - split_and!; [set_solver|constructor|]. intros *. split; [by intros ?%not_elem_of_nil|set_solver].
  - intros done st todo picked Hl (Hsub & Hndp & Hin).
    assert (st ∈ states s) as [id Hid]%states_elem by (rewrite Hl; set_solver).
    pose proof (wf_key s Hwf id st Hid) as [Hkey _].
    rewrite Hl in Hnd. unfold decode_state. destruct (rq_admitted st) eqn:Hadm; cbn [negb].
    2: { exists picked. split_and!; [done|set_solver|done|]. intros *. rewrite Hin. split; [set_solver|].
         intros [Hd Hdec]. split; [|done]. apply elem_of_app in Hd as [?| ->%list_elem_of_singleton]; [done|].
         destruct Hdec as (_ & ? & _). congruence. }
    destruct (Hsnap id st Hid Hadm) as (rt & Hrt & Htok). rewrite Hrt. cbn.
    case_bool_decide as Hph.
    { exists picked. split_and!; [done|set_solver|done|]. intros *. rewrite Hin. split; [set_solver|].
      intros [Hd Hdec]. split; [|done]. apply elem_of_app in Hd as [?| ->%list_elem_of_singleton]; [done|].
      destruct Hdec as (_ & _ & ? & ? & ? & _). congruence. }
    destruct (Htok Hph) as [token Ht]. rewrite Ht. cbn.
    eexists. split; [reflexivity|]. rewrite !fmap_app. cbn. split_and!; [set_solver| |].
    + apply NoDup_app. split_and!; [done| |apply NoDup_singleton]. intros x Hx ->%list_elem_of_singleton.
      rewrite fmap_app in Hnd. apply NoDup_app in Hnd as (_ & Hdisj & _). apply (Hdisj (rq_req_id st)); set_solver.
    + intros st' token' offset. rewrite !elem_of_app, !list_elem_of_singleton, Hin. split.
      * intros [[? ?]|[= -> -> ->]]; [by auto|]. split; [by right|]. split_and!; [by rewrite Hkey|done|]. by exists rt.
      * intros [[?| ->] Hdec]; [by auto|]. right. destruct Hdec as (_ & _ & rt' & ? & ? & ? & ->). by simplify_eq.
  - exists picked. split_and!; [done|done|]. intros *. rewrite Hin. split; [tauto|]. intros Hdec. split; [|done].
    apply states_elem. exists (rq_req_id st). apply Hdec.
Qed.

(** The decode rows list the decoding requests, each once, highest priority
    first and earliest arrival first within a priority. *)
Record decode_rows_spec (s : MetalScheduler) (rows : list LogicalDecodeRow) : Prop := mk_drs {
  drs_nodup : NoDup (ldr_req_id <$> rows);
  drs_complete : forall st token offset, decodes s st token offset -> rq_req_id st ∈ ldr_req_id <$> rows;
  drs_row : forall i row, rows !! i = Some row -> ldr_row_index row = i /\
    exists st, rq_req_id st = ldr_req_id row /\ decodes s st (ldr_input_token row) (ldr_logical_kv_offset row);
  drs_order : forall i j a b sa sb, i < j -> rows !! i = Some a -> rows !! j = Some b ->
    requests s !! ldr_req_id a = Some sa -> requests s !! ldr_req_id b = Some sb -> decodes_before sa sb;
}.

Lemma StronglySorted_lookup {A} (R : A -> A -> Prop) l i j x y :
  StronglySorted R l -> i < j -> l !! i = Some x -> l !! j = Some y -> R x y.
Proof.
  intros Hl. revert i j. induction Hl as [|a l Hl IH Ha]; intros i j Hij Hi Hj; [done|].
  destruct j as [|j]; [lia|]. cbn in Hj. rewrite Forall_forall in Ha. destruct i as [|i]; cbn in Hi.
  - simplify_eq. by eapply Ha, list_elem_of_lookup_2.
  - apply (IH i j); [lia|done|done].
Qed.

Lemma metal_decode_rows_ok s : wf s -> snapshots_ok s ->
  exists rows, build_decode_rows rts s = Done rows /\ decode_rows_spec s rows.
Proof.
  intros Hwf Hsnap. destruct (picked_ok s Hwf Hsnap) as (picked & Hrun & Hnd & Hin).
  unfold build_decode_rows. rewrite Hrun. cbn.
  set (le := fun a b : MetalRequestState * Token * nat => not_after compare_decode_order a.1.1 b.1.1).
  pose proof (sort_by_perm le picked) as Hperm.
  assert (StronglySorted (fun a b => le a b = true) (sort_by le picked)) as Hsorted.
  { apply sort_by_sorted; unfold le; intros *; [apply not_after_total|apply not_after_trans]. }
  set (sorted := sort_by le picked) in *. clearbody sorted.
  eexists. split; [reflexivity|].
  assert (forall i row, imap (fun row_index x => mkLogicalDecodeRow row_index (rq_req_id x.1.1) x.1.2 x.2) sorted
    !! i = Some row -> exists st t o, sorted !! i = Some (st, t, o) /\ row = mkLogicalDecodeRow i (rq_req_id st) t o) as Hrow.
  { intros i row. rewrite list_lookup_imap, fmap_Some. intros ([[st t] o] & Hi & ->). by exists st, t, o. }
  assert (ldr_req_id <$> imap (fun row_index x => mkLogicalDecodeRow row_index (rq_req_id x.1.1) x.1.2 x.2) sorted
          = rq_req_id <$> sorted.*1.*1) as Hids.
  { apply list_eq. intros i. rewrite !list_lookup_fmap, list_lookup_imap. by destruct (sorted !! i). }
  split.
  - rewrite Hids. by rewrite Hperm.
  - intros st t o Hdec. rewrite Hids, Hperm. apply Hin in Hdec.
    apply list_elem_of_fmap. exists st. split; [done|]. apply list_elem_of_fmap. exists (st, t). split; [done|].
    apply list_elem_of_fmap. by exists (st, t, o).
  - intros i row (st & t & o & Hi & ->)%Hrow. split; [done|]. exists st. split; [done|].
    apply list_elem_of_lookup_2 in Hi. rewrite Hperm in Hi. by apply Hin.
  - intros i j a b sa sb Hij (sa' & ta & oa & Hi & ->)%Hrow (sb' & tb & ob & Hj & ->)%Hrow Ha Hb. cbn in Ha, Hb.
    pose proof (StronglySorted_lookup _ _ _ _ _ _ Hsorted Hij Hi Hj) as Hle. unfold le in Hle. cbn in Hle.
    apply list_elem_of_lookup_2 in Hi as Hi', Hj as Hj'. rewrite Hperm in Hi', Hj'.
    apply Hin in Hi' as (Hra & _), Hj' as (Hrb & _).
    rewrite Hra in Ha. rewrite Hrb in Hb. injection Ha as <-. injection Hb as <-.
    apply decode_order_spec in Hle as [?|(_ & Harr & _)]; [done|]. exfalso.
    pose proof (wf_order s Hwf _ _ _ _ Hra Hrb Harr) as Heq.
    assert (NoDup (rq_req_id <$> sorted.*1.*1)) as Hnd' by by rewrite Hperm.
    assert (i = j); [|lia]. eapply (NoDup_lookup _ i j (rq_req_id sa')); [exact Hnd'| |].
    + rewrite !list_lookup_fmap, Hi. done.
    + rewrite !list_lookup_fmap, Hj. cbn. by rewrite Heq.
Qed.

(** Each decode row has a decoding snapshot of its own. *)
Lemma decode_rows_count s rows : decode_rows_spec s rows -> length rows <= count_decode_runtime rts.
Proof.
  intros Hrows. unfold count_decode_runtime. rewrite <-(length_fmap ldr_req_id rows), <-(length_fmap rt_req_id (filter _ rts)).
  apply submseteq_length, NoDup_submseteq; [apply Hrows|].
  intros id (row & -> & [i Hi]%list_elem_of_lookup_1)%list_elem_of_fmap.
  apply (drs_row _ _ Hrows) in Hi as (_ & st & Hid & _ & _ & rt & Hrt & Hph & _).
  apply runtime_state_Some in Hrt as [Hin Heq]. apply list_elem_of_fmap. exists rt. split; [congruence|].
  by apply list_elem_of_filter.
Qed.

(** ** The prefill chunk *)
Definition nobody_prefills (s : MetalScheduler) : Prop :=
  forall id st, requests s !! id = Some st -> is_prefilling rts st = false.

(** Who gets the chunk: the earliest request that is prefilling; else, when a
    slot is free, the queued request of highest priority, earliest first. *)
Definition pick_spec (s s' : MetalScheduler) (picked : option (RequestId * bool)) : Prop :=
  match picked with
  | None => s' = s /\ nobody_prefills s /\
      (max_running_requests (config s) <= running_len s \/ waiting s = [])
  | Some (id, false) => s' = s /\ exists st, requests s !! id = Some st /\ is_prefilling rts st = true /\
      forall id' st', requests s !! id' = Some st' -> is_prefilling rts st' = true -> id' <> id ->
        (rq_arrival_order st < rq_arrival_order st')%N
  | Some (id, true) => nobody_prefills s /\ running_len s < max_running_requests (config s) /\
      exists i st, waiting s !! i = Some id /\ requests s !! id = Some st /\
        s' = set_requests (<[id := admit_request st]> (requests s)) (set_waiting (delete i (waiting s)) s) /\
        forall id' st', id' ∈ waiting s -> requests s !! id' = Some st' -> id' <> id -> decodes_before st st'
  end.

Lemma find_prefilling_ok s : wf s ->
  match find_prefilling_request rts s with
  | None => nobody_prefills s
  | Some id => pick_spec s s (Some (id, false))
  end.
Proof.
  intros Hwf. unfold find_prefilling_request.
  destruct (min_by _ _) as [st|] eqn:E; cbn [fmap option_fmap option_map].
  - apply min_by_Some in E as [Hin Hmin].
    2: { intros a b. unfold compare_prefill_order, then_with.
         rewrite (N.compare_antisym (rq_arrival_order a)), (N.compare_antisym (rq_req_id a)).
         destruct (_ ?= _)%N; cbn; try done. by destruct (_ ?= _)%N. }
    2: { intros a b c. rewrite !prefill_order_not_gt. lia. }
    2: { intros a. rewrite prefill_order_not_gt. lia. }
    apply list_elem_of_filter in Hin as [Hpre [id Hid]%states_elem].
    pose proof (wf_key s Hwf id st Hid) as [-> _]. split; [done|]. exists st. split_and!; [done|done|].
    intros id' st' Hid' Hpre' Hne. specialize (Hmin st').
    assert (st' ∈ filter (fun st => is_prefilling rts st = true) (states s)) as Hin'.
    { apply list_elem_of_filter. split; [done|]. apply states_elem. by exists id'. }
    apply Hmin, prefill_order_not_gt in Hin' as [?|[Heq _]]; [done|].
    destruct Hne. by apply (wf_order s Hwf id' id st' st).
  - apply min_by_None in E. intros id st Hid. destruct (is_prefilling rts st) eqn:Hp; [|done].
    assert (st ∈ filter (fun st => is_prefilling rts st = true) (states s)) as Hin.
    { apply list_elem_of_filter. split; [done|]. apply states_elem. by exists id. }
    rewrite E in Hin. by apply not_elem_of_nil in Hin.
Qed.

Lemma queued_states_elem s i st :
  (i, st) ∈ queued_states s <-> exists id, waiting s !! i = Some id /\ requests s !! id = Some st.
Proof.
  unfold queued_states. rewrite list_elem_of_omap. split.
  - intros ([j id] & Hin & Hst). cbn in Hst. destruct (requests s !! id) eqn:E; [|done]. cbn in Hst. simplify_eq.
    apply list_elem_of_lookup in Hin as [k Hk]. rewrite list_lookup_imap in Hk.
    destruct (waiting s !! k) eqn:Ek; [|done]. cbn in Hk. simplify_eq. by exists id.
  - intros (id & Hi & Hst). exists (i, id). cbn. rewrite Hst. split; [|done].
    apply list_elem_of_lookup. exists i. by rewrite list_lookup_imap, Hi.
Qed.

Lemma pick_ok s : wf s ->
  exists s' picked, pick_prefill rts s = (s', picked) /\ pick_spec s s' picked.
Proof.
  intros Hwf. unfold pick_prefill. pose proof (find_prefilling_ok s Hwf) as Hfind.
  destruct (find_prefilling_request rts s) as [id|]; [by eexists _, _|].
  case_bool_decide as Hroom; [|exists s, None; split; [done|]; split_and!; [done|exact Hfind|left; lia]].
  unfold admit_next_waiting_request. destruct (min_by _ _) as [[i st]|] eqn:E.
  - apply min_by_Some in E as [Hin Hmin].
    2: { intros a b. unfold compare_priority_waiting, then_with.
         rewrite (Nat.compare_antisym (priority_rank (rq_priority a.2))), (N.compare_antisym (rq_arrival_order a.2)).
         destruct (_ ?= _); cbn; try done. by destruct (_ ?= _)%N. }
    2: { intros a b c. rewrite !waiting_order_not_gt. unfold decodes_before. lia. }
    2: { intros a. rewrite waiting_order_not_gt. auto. }
    apply queued_states_elem in Hin as (id & Hi & Hst). rewrite Hi. cbn [waiting set_waiting requests]. rewrite Hst.
    eexists _, _. split; [reflexivity|]. cbn. split_and!; [exact Hfind|done|]. exists i, st. split_and!; [done|done|done|].
    intros id' st' [j Hj]%list_elem_of_lookup Hst' Hne.
    assert ((j, st') ∈ queued_states s) as Hin' by (apply queued_states_elem; eauto).
    apply Hmin, waiting_order_not_gt in Hin' as [?|[_ Heq]]; [done|]. cbn in Heq.
    destruct Hne. by apply (wf_order s Hwf id' id st' st).
  - apply min_by_None in E. exists s, None. split; [done|]. split_and!; [done|exact Hfind|]. right.
    destruct (waiting s) as [|id w] eqn:Ew; [done|]. exfalso.
    assert (id ∈ waiting s) as (st & Hst & _)%(wf_waiting s Hwf) by (rewrite Ew; set_solver).
    assert ((0, st) ∈ queued_states s) as Hin by (apply queued_states_elem; rewrite Ew; eauto).
    rewrite E in Hin. by apply not_elem_of_nil in Hin.
Qed.

(** The rows: none when the decode rows use up the budget or nobody can take a
    chunk, else the next chunk of the picked request's prompt. *)
Definition prefill_rows_spec (s s' : MetalScheduler) (row_index : nat) (rows : list LogicalPrefillRow) : Prop :=
  let cap := prefill_chunk_budget (count_decode_runtime rts) s in
  match rows with
  | [] => s' = s /\ (cap = 0 \/ pick_spec s s None)
  | [row] => exists s1 id new st progress, 0 < cap /\ pick_spec s s1 (Some (id, new)) /\
      requests s1 !! id = Some st /\ rq_admitted st = true /\
      (if (new : bool) then progress = 0
       else exists rt, runtime_state rts id = Some rt /\
              progress = Nat.min (rt_prompt_progress rt) (prompt_len st)) /\
      row = LogicalPrefillRow_new row_index id (take cap (drop progress (rq_prompt_tokens st))) progress
              (Nat.min (progress + cap) (prompt_len st)) (prompt_len st) /\
      s' = (if bool_decide (progress = 0) then emit_event id PrefillStarted (Some Prefill) s1 else s1)
  | _ => False
  end.

Lemma pick_wf s s' id new : wf s -> pick_spec s s' (Some (id, new)) ->
  wf s' /\ config s' = config s /\ exists st, requests s' !! id = Some st /\ rq_admitted st = true.
Proof.
  intros Hwf Hpick. destruct new; cbn in Hpick.
  - destruct Hpick as (_ & Hroom & i & st & Hi & Hst & -> & _). split_and!; [by apply (admit_wf i id st)|done|].
    exists (admit_request st). cbn. by rewrite lookup_insert_eq.
  - destruct Hpick as (-> & st & Hst & Hp & _). split_and!; [done|done|]. exists st. split; [done|].
    unfold is_prefilling in Hp. by apply andb_true_iff in Hp as [? _].
Qed.

Lemma build_prefill_rows_ok s n : wf s -> snapshots_ok s ->
  exists s' rows, build_prefill_rows rts n s = Done (s', rows) /\ prefill_rows_spec s s' n rows /\ wf s' /\
    config s' = config s.
Proof.
  intros Hwf Hsnap. unfold build_prefill_rows. case_bool_decide as Hcap.
  { exists s, []. split; [done|]. split; [by split; [|left]|]. done. }
  destruct (pick_ok s Hwf) as (s1 & picked & -> & Hpick). destruct picked as [[id new]|].
  2: { destruct Hpick as (-> & Hpick). exists s, []. split; [done|]. split; [by split; [|right]|]. done. }
  destruct (pick_wf s s1 id new Hwf Hpick) as (Hwf1 & Hcfg & st & Hst & Hadm). rewrite Hst.
  assert (exists progress, progress <= prompt_len st /\
    (if new then Done 0 else runtime ← expect (runtime_state rts id);
       Done (Nat.min (rt_prompt_progress runtime) (prompt_len st))) = Done progress /\
    (if (new : bool) then progress = 0 else exists rt, runtime_state rts id = Some rt /\
       progress = Nat.min (rt_prompt_progress rt) (prompt_len st))) as (progress & Hle & -> & Hprog).
  { destruct new; [exists 0; split_and!; [lia|done|done]|]. destruct Hpick as (-> & _).
    destruct (Hsnap id st Hst Hadm) as (rt & Hrt & _). pose proof (wf_key s Hwf id st Hst) as [Hkey _].
    rewrite Hkey in Hrt. rewrite Hrt. cbn. eexists. split_and!; [|done|by exists rt]. lia. }
  cbn. replace (prefill_chunk_budget (count_decode_runtime rts) s1)
    with (prefill_chunk_budget (count_decode_runtime rts) s) in * by (unfold prefill_chunk_budget; by rewrite Hcfg).
  set (cap := prefill_chunk_budget (count_decode_runtime rts) s) in *.
  rewrite slice_Done by (unfold prompt_len in *; lia). cbn.
  eexists _, _. split; [reflexivity|]. split_and!.
  - exists s1, id, new, st, progress. split_and!; [lia|done|done|done|done| |done]. f_equal.
    unfold prompt_len. destruct (Nat.min_spec (progress + cap) (length (rq_prompt_tokens st))) as [[? ->]|[? ->]].
    + f_equal. lia.
    + rewrite !take_ge; [done| |]; rewrite length_drop; lia.
  - case_bool_decide; [by apply metal_emit_wf|done].
  - by case_bool_decide.
Qed.
End step.

(** ** One tick *)
Lemma step_ok rts s : wf s -> snapshots_ok rts s ->
  exists s' rows prefill, step rts s = Done (s', step_of_plan (LogicalServePlan_new rows prefill)) /\
    decode_rows_spec rts s rows /\ prefill_rows_spec rts s s' (length rows) prefill /\ wf s' /\
    config s' = config s.
Proof.
  intros Hwf Hsnap. unfold step, build_logical_plan. rewrite (proj2 (validate_ok rts s) Hsnap). cbn.
  destruct (metal_decode_rows_ok rts s Hwf Hsnap) as (rows & -> & Hrows). cbn.
  destruct (build_prefill_rows_ok rts s (length rows) Hwf Hsnap) as (s' & prefill & -> & Hpre & Hwf' & Hcfg).
  exists s', rows, prefill. by split_and!.
Qed.

Lemma prefill_tokens rts s s' n rows :
  prefill_rows_spec rts s s' n rows ->
  sum_list (token_count <$> rows) <= prefill_chunk_budget (count_decode_runtime rts) s /\ length rows <= 1.
Proof.
  destruct rows as [|row [|]]; cbn; [lia| |done].
  intros (s1 & id & new & st & progress & _ & _ & _ & _ & _ & -> & _).
  unfold token_count. cbn. rewrite length_take. lia.
Qed.

(** The state of a tick's outcome, for the runs below. *)
Definition after (o : res (MetalScheduler * MetalScheduleStep)) (s : MetalScheduler) : Prop :=
  exists st, o = Done (s, st).

(** The public operations; the runtime keeps its side of the contract and the
    counters have not run out. *)
Inductive reachable (c : MetalSchedulerConfig) : MetalScheduler -> Prop :=
  | reach_new s : with_event_sink c = inl s -> reachable c s
  | reach_submit prompt max_tokens priority s :
      reachable c s -> (next_req_id s < u64_max)%N -> (next_arrival_order s < u64_max)%N ->
      reachable c (submit prompt max_tokens priority s).1
  | reach_finish id mode s : reachable c s -> reachable c (finish_request id mode s).1
  | reach_rewrite id prompt s : reachable c s -> reachable c (rewrite_waiting_prompt id prompt s).1
  | reach_step rts s s' :
      reachable c s -> snapshots_ok rts s -> after (step rts s) s' -> reachable c s'.

Lemma metal_reachable_wf c s : reachable c s -> wf s /\ config s = c.
Proof.
  induction 1 as [s Hnew|prompt mt pr s _ [Hwf <-] ? ?|id mode s _ [Hwf <-]|id prompt s _ [Hwf <-]|rts s s' _ [Hwf <-] Hsnap [st Hrun]].
  - split; [by eapply new_wf|]. unfold with_event_sink in Hnew. destruct (validate c); [|done]. by injection Hnew as <-.
  - split; [by apply submit_wf|]. unfold submit. by repeat case_bool_decide.
  - split; [by apply finish_wf|]. unfold finish_request, remove_request. by destruct (requests s !! id).
  - split; [by apply rewrite_wf|]. unfold rewrite_waiting_prompt. case_bool_decide; [done|]. by destruct (requests s !! id).
  - destruct (step_ok rts s Hwf Hsnap) as (s1 & rows & pre & Hrun1 & _ & _ & Hwf1 & Hcfg).
    rewrite Hrun1 in Hrun. injection Hrun as <- _. done.
Qed.

Lemma queue_complete s : wf s -> waiting_len s + running_len s = size (requests s).
Proof.
  intros Hwf. unfold waiting_len, running_len, states.
  assert (waiting s ≡ₚ rq_req_id <$> filter (fun st => ~ rq_admitted st = true) (map_to_list (requests s)).*2) as Hp.
  { apply NoDup_Permutation; [by apply wf_nodup| |].
    - pose proof (states_nodup s Hwf) as Hnd. unfold states in Hnd. revert Hnd. generalize (map_to_list (requests s)).*2.
      intros l. induction l as [|st l IH]; [constructor|]. rewrite fmap_cons, filter_cons. intros [Hout Hnd]%NoDup_cons.
      case_decide; [|auto]. cbn. constructor; [|auto]. intros Hin. apply Hout.
      apply list_elem_of_fmap in Hin as (x & -> & [_ Hx]%list_elem_of_filter). apply list_elem_of_fmap. eauto.
    - intros id. rewrite (wf_waiting s Hwf), list_elem_of_fmap. split.
      + intros (st & Hst & Hf). exists st. split; [by apply (wf_key s Hwf) in Hst as [-> _]|].
        apply list_elem_of_filter. split; [by rewrite Hf|]. apply (states_elem s st). by exists id.
      + intros (st & -> & [Hf Hin]%list_elem_of_filter). apply (states_elem s st) in Hin as [id Hid].
        pose proof (wf_key s Hwf id st Hid) as [-> _]. exists st. split; [done|]. by destruct (rq_admitted st). }
  apply Permutation_length in Hp. rewrite Hp, length_fmap.
  rewrite <-length_map_to_list, <-(length_fmap snd (map_to_list (requests s))).
  generalize (map_to_list (requests s)).*2. intros l. induction l as [|st l IH]; [done|].
  rewrite !filter_cons. destruct (decide (rq_admitted st = true)); cbn [length].
  - rewrite decide_False by tauto. lia.
  - rewrite decide_True by done. cbn [length]. lia.
Qed.

(** C22: one tick of the Metal scheduler decides as specified. When the runtime
    reports every admitted request, a tick returns a plan: the decode rows are
    the decoding requests, each once, highest priority first and earliest
    first within a priority, with their last token and KV offset; at most one
    prefill row follows, the next chunk of the earliest request still
    prefilling, or, when none is and a slot is free, of the queued request of
    highest priority, which is admitted; and whenever there is a prefill row
    the tick's tokens are within the batch budget. *)
Theorem metal_step_spec rts s :
  wf s -> snapshots_ok rts s ->
  exists s' rows prefill, step rts s = Done (s', step_of_plan (LogicalServePlan_new rows prefill)) /\
    decode_rows_spec rts s rows /\ prefill_rows_spec rts s s' (length rows) prefill /\
    length prefill <= 1 /\
    (prefill <> [] -> lbs_scheduled_tokens (from_rows rows prefill) <= max_batch_tokens (config s)).
Proof.
  intros Hwf Hsnap. destruct (step_ok rts s Hwf Hsnap) as (s' & rows & pre & Hrun & Hrows & Hpre & _).
  exists s', rows, pre. pose proof (prefill_tokens rts s s' _ pre Hpre) as [Htok Hlen].
  pose proof (decode_rows_count rts s rows Hrows) as Hcount. split_and!; [done|done|done|done|].
  intros Hsome. unfold from_rows. cbn. unfold prefill_chunk_budget in Htok.
  destruct pre as [|row [|]]; [done| |done]. destruct Hpre as (_ & _ & _ & _ & _ & Hcap & _).
  unfold prefill_chunk_budget in Hcap. lia.
Qed.

(** A tick panics exactly when the runtime breaks the contract, that is
    when an admitted request has no snapshot or decodes without a last token;
    it never loops. *)
Theorem metal_step_panics rts s : wf s -> step rts s <> OutOfFuel /\ (step rts s = Panics <-> ~ snapshots_ok rts s).
Proof.
  intros Hwf. destruct (validate_runtime_snapshots rts s) as [[]| |] eqn:E.
  - apply validate_ok in E as Hsnap. destruct (step_ok rts s Hwf Hsnap) as (s' & rows & pre & -> & _).
    split; [done|]. split; [done|]. by intros [].
  - unfold step. rewrite E. split; [done|]. split; [|done]. intros _ Hsnap%validate_ok. congruence.
  - by apply validate_panics in E.
Qed.

(** Over every run of submissions, ticks, rewrites and completions, at most
    the configured number of requests is admitted, and every request is either
    in the queue, once and not admitted, or admitted. *)
Theorem metal_running_bound c s :
  reachable c s ->
  running_len s <= max_running_requests c /\ waiting_len s + running_len s = size (requests s) /\
  NoDup (waiting s) /\ forall id, id ∈ waiting s <-> is_waiting id s = true.
Proof.
  intros [Hwf <-]%metal_reachable_wf. split_and!; [by apply wf_running|by apply queue_complete|by apply wf_nodup|].
  intros id. rewrite (wf_waiting s Hwf). unfold is_waiting. split.
  - intros (st & -> & ->). done.
  - destruct (requests s !! id) as [st|]; [|done]. intros Hf. exists st. split; [done|]. by destruct (rq_admitted st).
Qed.

(** C38: the scheduler's data is well formed in every state it reaches by
    submissions, ticks on complete snapshots, rewrites and completions: every
    request is filed under its own identifier, identifiers and arrival orders
    are below the counters that mint them and arrival orders are unique, the
    queue holds each request that is not admitted exactly once and nothing
    else, prompts are not empty, the admitted requests are at most the
    configured number, and queue and admitted requests make up the table. *)
Theorem metal_state_well_formed c s :
  reachable c s ->
  wf s /\ config s = c /\ running_len s <= max_running_requests c /\ waiting_len s + running_len s = size (requests s).
Proof.
  intros [Hwf <-]%metal_reachable_wf. split_and!; [done|done|by apply wf_running|by apply queue_complete].
Qed.

(** ** Concrete runs *)

(** Three requests; the one of high priority has been prefilled and decodes. *)
Definition example_config : MetalSchedulerConfig := mkMetalSchedulerConfig 2 8.
Definition example_new : MetalScheduler := mkMetalScheduler example_config 0 0 [] ∅ [].
Definition example_queued : MetalScheduler :=
  (submit [1; 2; 3]%N 4 Low (submit [4; 5; 6]%N 4 High (submit [1; 2; 3; 4; 5; 6; 7; 8; 9; 10]%N 4 Normal example_new).1).1).1.
Definition example_started : MetalScheduler :=
  match step [] example_queued with Done (s, _) => s | _ => example_queued end.
Definition example_rts : list MetalRuntimeRequestState := [mkRuntime 1 Decoding 3 2 (Some 42%N)].

Lemma example_reachable : reachable example_config example_started.
Proof.
  apply (reach_step _ [] example_queued); [|apply validate_ok; vm_compute; reflexivity|].
  - do 3 (apply reach_submit; [|done|done]). by apply reach_new.
  - unfold after, example_started. destruct (step [] example_queued) as [[s st]| |] eqn:E; [by exists st| |];
      vm_compute in E; discriminate E.
Qed.

Lemma example_snapshots : snapshots_ok example_rts example_started.
Proof. apply validate_ok. vm_compute. reflexivity. Qed.

(** The decoding request first, then 7 tokens of the oldest queued prompt. *)
Definition example_plan : LogicalServePlan :=
  LogicalServePlan_new [mkLogicalDecodeRow 0 1 42 4]
    [LogicalPrefillRow_new 1 0 [1; 2; 3; 4; 5; 6; 7]%N 0 7 10].

Lemma metal_step_spec_witness :
  (exists s', step example_rts example_started = Done (s', step_of_plan example_plan)) /\
  exists s' rows prefill,
    step example_rts example_started = Done (s', step_of_plan (LogicalServePlan_new rows prefill)) /\
    decode_rows_spec example_rts example_started rows /\
    prefill_rows_spec example_rts example_started s' (length rows) prefill /\
    length prefill <= 1 /\
    (prefill <> [] -> lbs_scheduled_tokens (from_rows rows prefill) <= max_batch_tokens (config example_started)).
Proof.
  split; [eexists; vm_compute; reflexivity|].
  apply (metal_step_spec example_rts example_started); [apply (metal_reachable_wf _ _ example_reachable)|apply example_snapshots].
Defined.

Lemma metal_step_panics_witness :
  step [] example_started = Panics /\
  step [] example_started <> OutOfFuel /\ (step [] example_started = Panics <-> ~ snapshots_ok [] example_started).
Proof.
  split; [vm_compute; reflexivity|].
  apply (metal_step_panics [] example_started), (metal_reachable_wf _ _ example_reachable).
Defined.

Lemma metal_running_bound_witness :
  running_len example_started <= 2 /\ waiting_len example_started + running_len example_started = size (requests example_started) /\
  NoDup (waiting example_started) /\
  forall id, id ∈ waiting example_started <-> is_waiting id example_started = true.
Proof. apply (metal_running_bound example_config example_started), example_reachable. Defined.

Lemma metal_state_well_formed_witness :
  wf example_started /\ config example_started = example_config /\ running_len example_started <= 2 /\
  waiting_len example_started + running_len example_started = size (requests example_started).
Proof. apply (metal_state_well_formed example_config example_started), example_reachable. Defined.
