(* ===== verification/RadixTypes.v ===== *)
(** * Radix prefix cache: data and primitives

    Models the data of [infer/src/prefix_cache.rs] ([Node], [RadixCache] and
    the update records) and its private helpers. A node index is a position of
    [nodes]; index 0 is the root. Indexing out of range panics. *)

From S2P Require Import Prelude Tier.

(** ** Nodes *)
Record Node := mkNode {
  n_tokens : list Token;
  n_block_id : option BlockId;
  n_ref_count : N;
  n_last_access : N;
  n_hit_count : N;
  n_tier_location : option BlockLocation;
  n_session_id : option SessionId;
  n_host_swap_eligible : bool;
  n_fingerprint : option BlockFingerprint;
  n_byte_len : N;
  n_soft_pin_until : option N;
  n_host_spill_pin_until : option N;
  n_entry_state : IndexEntryState;
  n_store_state : StoreState;
  n_sparse_dropped : bool;
  n_children : gmap Token nat;
}.

(** [node.field = v], one setter per field. *)
Definition set_tokens (x : list Token) (n : Node) : Node :=
  mkNode x (n_block_id n) (n_ref_count n) (n_last_access n) (n_hit_count n) (n_tier_location n)
    (n_session_id n) (n_host_swap_eligible n) (n_fingerprint n) (n_byte_len n) (n_soft_pin_until
    n) (n_host_spill_pin_until n) (n_entry_state n) (n_store_state n) (n_sparse_dropped n)
    (n_children n).
Definition set_block_id (x : option BlockId) (n : Node) : Node :=
  mkNode (n_tokens n) x (n_ref_count n) (n_last_access n) (n_hit_count n) (n_tier_location n)
    (n_session_id n) (n_host_swap_eligible n) (n_fingerprint n) (n_byte_len n) (n_soft_pin_until
    n) (n_host_spill_pin_until n) (n_entry_state n) (n_store_state n) (n_sparse_dropped n)
    (n_children n).
Definition set_ref_count (x : N) (n : Node) : Node :=
  mkNode (n_tokens n) (n_block_id n) x (n_last_access n) (n_hit_count n) (n_tier_location n)
    (n_session_id n) (n_host_swap_eligible n) (n_fingerprint n) (n_byte_len n) (n_soft_pin_until
    n) (n_host_spill_pin_until n) (n_entry_state n) (n_store_state n) (n_sparse_dropped n)
    (n_children n).
Definition set_last_access (x : N) (n : Node) : Node :=
  mkNode (n_tokens n) (n_block_id n) (n_ref_count n) x (n_hit_count n) (n_tier_location n)
    (n_session_id n) (n_host_swap_eligible n) (n_fingerprint n) (n_byte_len n) (n_soft_pin_until
    n) (n_host_spill_pin_until n) (n_entry_state n) (n_store_state n) (n_sparse_dropped n)
    (n_children n).
Definition set_hit_count (x : N) (n : Node) : Node :=
  mkNode (n_tokens n) (n_block_id n) (n_ref_count n) (n_last_access n) x (n_tier_location n)
    (n_session_id n) (n_host_swap_eligible n) (n_fingerprint n) (n_byte_len n) (n_soft_pin_until
    n) (n_host_spill_pin_until n) (n_entry_state n) (n_store_state n) (n_sparse_dropped n)
    (n_children n).
Definition set_tier_location (x : option BlockLocation) (n : Node) : Node :=
  mkNode (n_tokens n) (n_block_id n) (n_ref_count n) (n_last_access n) (n_hit_count n) x
    (n_session_id n) (n_host_swap_eligible n) (n_fingerprint n) (n_byte_len n) (n_soft_pin_until
    n) (n_host_spill_pin_until n) (n_entry_state n) (n_store_state n) (n_sparse_dropped n)
    (n_children n).
Definition set_session_id (x : option SessionId) (n : Node) : Node :=
  mkNode (n_tokens n) (n_block_id n) (n_ref_count n) (n_last_access n) (n_hit_count n)
    (n_tier_location n) x (n_host_swap_eligible n) (n_fingerprint n) (n_byte_len n)
    (n_soft_pin_until n) (n_host_spill_pin_until n) (n_entry_state n) (n_store_state n)
    (n_sparse_dropped n) (n_children n).
Definition set_host_swap_eligible (x : bool) (n : Node) : Node :=
  mkNode (n_tokens n) (n_block_id n) (n_ref_count n) (n_last_access n) (n_hit_count n)
    (n_tier_location n) (n_session_id n) x (n_fingerprint n) (n_byte_len n) (n_soft_pin_until n)
    (n_host_spill_pin_until n) (n_entry_state n) (n_store_state n) (n_sparse_dropped n)
    (n_children n).
Definition set_fingerprint (x : option BlockFingerprint) (n : Node) : Node :=
  mkNode (n_tokens n) (n_block_id n) (n_ref_count n) (n_last_access n) (n_hit_count n)
    (n_tier_location n) (n_session_id n) (n_host_swap_eligible n) x (n_byte_len n)
    (n_soft_pin_until n) (n_host_spill_pin_until n) (n_entry_state n) (n_store_state n)
    (n_sparse_dropped n) (n_children n).
Definition set_byte_len (x : N) (n : Node) : Node :=
  mkNode (n_tokens n) (n_block_id n) (n_ref_count n) (n_last_access n) (n_hit_count n)
    (n_tier_location n) (n_session_id n) (n_host_swap_eligible n) (n_fingerprint n) x
    (n_soft_pin_until n) (n_host_spill_pin_until n) (n_entry_state n) (n_store_state n)
    (n_sparse_dropped n) (n_children n).
Definition set_soft_pin_until (x : option N) (n : Node) : Node :=
  mkNode (n_tokens n) (n_block_id n) (n_ref_count n) (n_last_access n) (n_hit_count n)
    (n_tier_location n) (n_session_id n) (n_host_swap_eligible n) (n_fingerprint n) (n_byte_len
    n) x (n_host_spill_pin_until n) (n_entry_state n) (n_store_state n) (n_sparse_dropped n)
    (n_children n).
Definition set_host_spill_pin_until (x : option N) (n : Node) : Node :=
  mkNode (n_tokens n) (n_block_id n) (n_ref_count n) (n_last_access n) (n_hit_count n)
    (n_tier_location n) (n_session_id n) (n_host_swap_eligible n) (n_fingerprint n) (n_byte_len
    n) (n_soft_pin_until n) x (n_entry_state n) (n_store_state n) (n_sparse_dropped n)
    (n_children n).
Definition set_entry_state (x : IndexEntryState) (n : Node) : Node :=
  mkNode (n_tokens n) (n_block_id n) (n_ref_count n) (n_last_access n) (n_hit_count n)
    (n_tier_location n) (n_session_id n) (n_host_swap_eligible n) (n_fingerprint n) (n_byte_len
    n) (n_soft_pin_until n) (n_host_spill_pin_until n) x (n_store_state n) (n_sparse_dropped n)
    (n_children n).
Definition set_store_state (x : StoreState) (n : Node) : Node :=
  mkNode (n_tokens n) (n_block_id n) (n_ref_count n) (n_last_access n) (n_hit_count n)
    (n_tier_location n) (n_session_id n) (n_host_swap_eligible n) (n_fingerprint n) (n_byte_len
    n) (n_soft_pin_until n) (n_host_spill_pin_until n) (n_entry_state n) x (n_sparse_dropped n)
    (n_children n).
Definition set_sparse_dropped (x : bool) (n : Node) : Node :=
  mkNode (n_tokens n) (n_block_id n) (n_ref_count n) (n_last_access n) (n_hit_count n)
    (n_tier_location n) (n_session_id n) (n_host_swap_eligible n) (n_fingerprint n) (n_byte_len
    n) (n_soft_pin_until n) (n_host_spill_pin_until n) (n_entry_state n) (n_store_state n) x
    (n_children n).
Definition set_children (x : gmap Token nat) (n : Node) : Node :=
  mkNode (n_tokens n) (n_block_id n) (n_ref_count n) (n_last_access n) (n_hit_count n)
    (n_tier_location n) (n_session_id n) (n_host_swap_eligible n) (n_fingerprint n) (n_byte_len
    n) (n_soft_pin_until n) (n_host_spill_pin_until n) (n_entry_state n) (n_store_state n)
    (n_sparse_dropped n) x.

Definition Node_new (tokens : list Token) (block_id : option BlockId) (now : N) : Node :=
  mkNode tokens block_id 0 now 0 None None false None 0 None None IReady SIdle false ∅.

Definition is_none {A} (o : option A) : bool := match o with None => true | Some _ => false end.
Definition is_some {A} (o : option A) : bool := negb (is_none o).

Definition is_tombstone (n : Node) : bool :=
  is_none (n_block_id n) &&
  (is_some (n_tier_location n) || is_some (n_session_id n) || is_some (n_fingerprint n)
   || negb (bool_decide (n_byte_len n = 0%N))
   || is_some (n_soft_pin_until n) || is_some (n_host_spill_pin_until n)).

(** ** The cache *)
Record RadixCache := mkRadixCache {
  nodes : list Node;
  free_nodes : list nat;
  block_size : nat;
  clock : N;
  soft_pin_keepalive_ticks : option N;
  block_index : gmap BlockId nat;
  namespace : list N;
}.

Definition set_nodes (x : list Node) (c : RadixCache) : RadixCache :=
  mkRadixCache x (free_nodes c) (block_size c) (clock c) (soft_pin_keepalive_ticks c)
    (block_index c) (namespace c).
Definition set_free_nodes (x : list nat) (c : RadixCache) : RadixCache :=
  mkRadixCache (nodes c) x (block_size c) (clock c) (soft_pin_keepalive_ticks c)
    (block_index c) (namespace c).
Definition set_clock (x : N) (c : RadixCache) : RadixCache :=
  mkRadixCache (nodes c) (free_nodes c) (block_size c) x (soft_pin_keepalive_ticks c)
    (block_index c) (namespace c).
Definition set_block_index (x : gmap BlockId nat) (c : RadixCache) : RadixCache :=
  mkRadixCache (nodes c) (free_nodes c) (block_size c) (clock c) (soft_pin_keepalive_ticks c)
    x (namespace c).

(** [new_with_soft_pin_keepalive]; the four public constructors call it. *)
Definition new_with_soft_pin_keepalive (bs : nat) (ticks : option N) (ns : list N) : res RadixCache :=
  if bool_decide (0 < bs)
  then Done (mkRadixCache [Node_new [] None 0] [] bs 0 ticks ∅ ns)
  else Panics.

Definition zero_namespace : list N := replicate 32 0%N.
Definition RadixCache_new (bs : nat) : res RadixCache :=
  new_with_soft_pin_keepalive bs None zero_namespace.
Definition with_soft_pin_keepalive (bs : nat) (ticks : N) : res RadixCache :=
  new_with_soft_pin_keepalive bs (Some ticks) zero_namespace.
Definition new_with_namespace (bs : nat) (ns : list N) : res RadixCache :=
  new_with_soft_pin_keepalive bs None ns.
Definition with_soft_pin_keepalive_namespaced (bs : nat) (ticks : N) (ns : list N) : res RadixCache :=
  new_with_soft_pin_keepalive bs (Some ticks) ns.

(** ** Primitives *)

(** The virtual root: [Self::root()]. *)
Definition root : nat := 0.

(** [self.nodes[i]] read, and updated by [f]. *)
Definition get (c : RadixCache) (i : nat) : res Node := index (nodes c) i.
Definition upd (i : nat) (f : Node -> Node) (c : RadixCache) : res RadixCache :=
  n ← get c i; Done (set_nodes (<[i := f n]> (nodes c)) c).

Definition tick (c : RadixCache) : RadixCache * N :=
  let now := u64_add (clock c) 1 in (set_clock now c, now).

Definition alloc_node (n : Node) (c : RadixCache) : res (RadixCache * nat) :=
  match vec_pop (free_nodes c) with
  | Some (idx, rest) =>
      c ← upd idx (fun _ => n) (set_free_nodes rest c);
      Done (c, idx)
  | None => Done (set_nodes (nodes c ++ [n]) c, length (nodes c))
  end.

Definition maybe_refresh_soft_pin (now : N) (ticks : option N) (n : Node) : Node :=
  match n_soft_pin_until n, ticks with
  | Some _, Some t => set_soft_pin_until (Some (u64_saturating_add now t)) n
  | _, _ => n
  end.

Fixpoint edge_match_len (edge remaining : list Token) : nat :=
  match edge, remaining with
  | a :: edge, b :: remaining => if bool_decide (a = b) then S (edge_match_len edge remaining) else 0
  | _, _ => 0
  end.

Definition child_edge_match (c : RadixCache) (child_idx : nat) (remaining : list Token) : res (nat * nat) :=
  n ← get c child_idx;
  Done (edge_match_len (n_tokens n) remaining, length (n_tokens n)).

Definition next_block_boundary (c : RadixCache) (block_idx : nat) : nat := (block_idx + 1) * block_size c.

Definition full_block_end (c : RadixCache) (block_idx total_tokens : nat) : option nat :=
  let boundary := next_block_boundary c block_idx in
  if bool_decide (boundary <= total_tokens) then Some boundary else None.

Definition truncated_block_end (c : RadixCache) (block_idx total_tokens : nat) : nat :=
  Nat.min (next_block_boundary c block_idx) total_tokens.

Definition rounded_prefix_len (c : RadixCache) (walked_tokens matched_blocks : nat) : nat :=
  let matched_len := Nat.min (matched_blocks * block_size c) walked_tokens in
  (matched_len / block_size c) * block_size c.

(** [find_block_node_mut], to read and to update. *)
Definition find_block_node (c : RadixCache) (b : BlockId) : option (nat * Node) :=
  idx ← block_index c !! b; n ← nodes c !! idx; Some (idx, n).
Definition update_block_node (c : RadixCache) (b : BlockId) (f : Node -> Node) : RadixCache * bool :=
  match find_block_node c b with
  | Some (idx, n) => (set_nodes (<[idx := f n]> (nodes c)) c, true)
  | None => (c, false)
  end.

Definition retag_block (old new : BlockId) (c : RadixCache) : RadixCache * bool :=
  if bool_decide (old = new) then (c, is_some (block_index c !! old))
  else if is_some (block_index c !! new) then (c, false)
  else match block_index c !! old with
  | None => (c, false)
  | Some idx =>
      let c' := set_block_index (delete old (block_index c)) c in
      match nodes c' !! idx with
      | None => (c', false)
      | Some node =>
          if bool_decide (n_block_id node <> Some old)
          then (set_block_index (<[old := idx]> (block_index c')) c', false)
          else
            let c' := set_nodes (<[idx := set_block_id (Some new) node]> (nodes c')) c' in
            (set_block_index (<[new := idx]> (block_index c')) c', true)
      end
  end.

(** The first step of every walk: from [node_idx], with [pos] tokens consumed,
    the child whose whole edge matches the tokens ahead, and the position
    after it. [None] when the tokens are exhausted, no child starts with the
    next token, or the edge matches only in part. *)
Definition descend (c : RadixCache) (tokens : list Token) (node_idx pos : nat) : res (option (nat * nat)) :=
  if bool_decide (length tokens <= pos) then Done None
  else
    next_token ← index tokens pos;
    node ← get c node_idx;
    match n_children node !! next_token with
    | None => Done None
    | Some child_idx =>
        '(match_len, edge_len) ← child_edge_match c child_idx (drop pos tokens);
        Done (if bool_decide (match_len < edge_len) then None else Some (child_idx, pos + match_len))
    end.
