(* ===== verification/RadixTree.v ===== *)
(** * The radix tree behind the cache

    What the node table of [infer/src/prefix_cache.rs] represents: the tree
    reached from the root, the finite map from token prefixes to blocks it
    encodes ([cached]), the well-formedness of that tree ([wf]), and the walk
    every operation makes down it. *)

From S2P Require Import Prelude Tier RadixTypes.

(** ** Shape

    Lookups, metadata updates and reference counts leave the tokens, the block
    and the children of every node alone. *)
Definition node_shape (n : Node) : list Token * option BlockId * gmap Token nat :=
  (n_tokens n, n_block_id n, n_children n).
Definition shape (c : RadixCache) := node_shape <$> nodes c.

Record same_tree (c c' : RadixCache) : Prop := mk_same_tree {
  st_shape : shape c' = shape c;
  st_free : free_nodes c' = free_nodes c;
  st_size : block_size c' = block_size c;
  st_index : block_index c' = block_index c;
}.

#[export] Instance same_tree_equiv : Equivalence same_tree.
Proof.
  split.
  - by intros c.
  - intros c1 c2 [? ? ? ?]. by split.
  - intros c1 c2 c3 [? ? ? ?] [? ? ? ?]. split; congruence.
Qed.

Lemma shape_lookup c c' i n :
  shape c' = shape c -> nodes c !! i = Some n ->
  exists n', nodes c' !! i = Some n' /\ node_shape n' = node_shape n.
Proof.
  intros Hs Hn. assert (shape c !! i = Some (node_shape n)) as H by (unfold shape; by rewrite list_lookup_fmap, Hn).
  rewrite <-Hs in H. unfold shape in H. rewrite list_lookup_fmap in H.
  destruct (nodes c' !! i) as [n'|]; [|done]. cbn in H. exists n'. split; [done|congruence].
Qed.

Lemma shape_update c i n n' :
  nodes c !! i = Some n -> node_shape n' = node_shape n ->
  shape (set_nodes (<[i := n']> (nodes c)) c) = shape c.
Proof.
  intros Hn Hs. unfold shape. cbn. rewrite list_fmap_insert, Hs. apply list_insert_id.
  by rewrite list_lookup_fmap, Hn.
Qed.

(** ** Paths *)
Inductive at_path (c : RadixCache) : list Token -> nat -> Prop :=
  | at_root : at_path c [] 0
  | at_child path p n k i m :
      at_path c path p -> nodes c !! p = Some n -> n_children n !! k = Some i ->
      nodes c !! i = Some m -> at_path c (path ++ n_tokens m) i.

(** The finite map the tree encodes. *)
Definition cached (c : RadixCache) (path : list Token) (b : BlockId) : Prop :=
  exists i n, at_path c path i /\ nodes c !! i = Some n /\ n_block_id n = Some b.

Lemma at_path_same_shape c c' path i : shape c' = shape c -> at_path c path i -> at_path c' path i.
Proof.
  intros Hs. induction 1 as [|path p n k i m _ IH Hp Hk Hi]; [constructor|].
  destruct (shape_lookup c c' p n Hs Hp) as (n' & Hn' & [= _ _ Hch]).
  destruct (shape_lookup c c' i m Hs Hi) as (m' & Hm' & [= Htok _ _]).
  rewrite <-Htok. eapply at_child; [exact IH|exact Hn'|by rewrite Hch|done].
Qed.

Lemma cached_same_shape c c' path b : shape c' = shape c -> cached c' path b <-> cached c path b.
Proof.
  intros Hs.
  assert (forall c c', shape c' = shape c -> cached c path b -> cached c' path b) as H.
  { clear. intros c c' Hs (i & n & Hp & Hn & Hb).
    destruct (shape_lookup c c' i n Hs Hn) as (n' & Hn' & [= _ Hblk _]).
    exists i, n'. split_and!; [by eapply at_path_same_shape|done|congruence]. }
  split; by apply H.
Qed.

(** ** Well-formedness *)

(** An edge of the tree from a node at depth [d]: it starts with its key, does
    not cross a block boundary, and its end carries a block exactly when it is
    on one. *)
Definition edge_ok (c : RadixCache) (d : nat) (k : Token) (m : Node) : Prop :=
  head (n_tokens m) = Some k /\
  d + length (n_tokens m) <= (d / block_size c + 1) * block_size c /\
  (is_Some (n_block_id m) <-> (block_size c | d + length (n_tokens m))).

Record wf (c : RadixCache) : Prop := mk_wf {
  wf_block_size : 0 < block_size c;
  wf_root : exists r, nodes c !! 0 = Some r /\ n_tokens r = [] /\ n_block_id r = None;
  wf_edge : forall path p n k i, at_path c path p -> nodes c !! p = Some n -> n_children n !! k = Some i ->
    exists m, nodes c !! i = Some m /\ edge_ok c (length path) k m;
  wf_unique : forall q q' i, at_path c q i -> at_path c q' i -> q = q';
  wf_free_nodup : NoDup (free_nodes c);
  wf_free : forall i, i ∈ free_nodes c ->
    (exists n, nodes c !! i = Some n /\ n_block_id n = None) /\ forall q, ~ at_path c q i;
  wf_index : forall b i, block_index c !! b = Some i ->
    exists n, nodes c !! i = Some n /\ n_block_id n = Some b;
}.

Lemma wf_same_tree c c' : same_tree c c' -> wf c -> wf c'.
Proof.
  intros [Hs Hf Hbs Hidx] [H1 H2 H3 H4 H5 H6 H7].
  assert (forall q i, at_path c' q i -> at_path c q i) as Hat by (intros; by eapply at_path_same_shape).
  split.
  - congruence.
  - destruct H2 as (r & Hr & ? & ?). destruct (shape_lookup c c' 0 r Hs Hr) as (r' & ? & [= ? ? ?]).
    exists r'. split_and!; congruence.
  - intros path p n k i Hp Hn Hk.
    destruct (shape_lookup c' c p n (eq_sym Hs) Hn) as (n0 & Hn0 & [= _ _ Hch]). rewrite <-Hch in Hk.
    destruct (H3 path p n0 k i (Hat _ _ Hp) Hn0 Hk) as (m & Hm & Hok).
    destruct (shape_lookup c c' i m Hs Hm) as (m' & Hm' & [= Htok Hblk _]).
    exists m'. split; [done|]. unfold edge_ok in *. by rewrite Htok, Hblk, Hbs.
  - eauto.
  - by rewrite Hf.
  - intros i. rewrite Hf. intros Hi. destruct (H6 i Hi) as [(n & Hn & ?) Hno].
    split; [|intros q Hq; by eapply Hno; eauto].
    destruct (shape_lookup c c' i n Hs Hn) as (n' & ? & [= _ ? _]). exists n'. split; congruence.
  - rewrite Hidx. intros b i Hb. destruct (H7 b i Hb) as (n & Hn & ?).
    destruct (shape_lookup c c' i n Hs Hn) as (n' & ? & [= _ ? _]). exists n'. split; congruence.
Qed.

(** ** Nothing outside the tree *)
Definition has_block (c : RadixCache) (i : nat) : Prop :=
  exists n, nodes c !! i = Some n /\ is_Some (n_block_id n).

(** Every block-bearing node is in the tree: what holds until an eviction
    restricted to one tier cuts off nodes of another. *)
Definition no_orphans (c : RadixCache) : Prop := forall i, has_block c i -> exists q, at_path c q i.

Lemma no_orphans_same_shape c c' : shape c' = shape c -> no_orphans c -> no_orphans c'.
Proof.
  intros Hs Hreach i (n & Hn & Hb). destruct (shape_lookup c' c i n (eq_sym Hs) Hn) as (n' & Hn' & [= _ Hb' _]).
  destruct (Hreach i) as [x Hx]; [exists n'; by rewrite Hb'|]. exists x. by eapply at_path_same_shape.
Qed.

(** The block ids of the cache are distinct: what its callers guarantee. *)
Definition blocks_distinct (c : RadixCache) : Prop :=
  forall i j n m b, nodes c !! i = Some n -> nodes c !! j = Some m ->
    n_block_id n = Some b -> n_block_id m = Some b -> i = j.

(** ** The match of an edge *)
Lemma edge_match_len_le e r : edge_match_len e r <= length e /\ edge_match_len e r <= length r.
Proof.
  revert r. induction e as [|a e IH]; intros [|b r]; cbn; [lia..|].
  case_bool_decide; [|lia]. destruct (IH r). lia.
Qed.

Lemma take_edge_match_len e r :
  take (edge_match_len e r) e = take (edge_match_len e r) r.
Proof.
  revert r. induction e as [|a e IH]; intros [|b r]; cbn; [done..|].
  case_bool_decide; [|done]. subst. cbn. by rewrite IH.
Qed.

(** Beyond the match the two differ, or one of them ends. *)
Lemma edge_match_len_stop e r x y :
  e !! edge_match_len e r = Some x -> r !! edge_match_len e r = Some y -> x <> y.
Proof.
  revert r. induction e as [|a e IH]; intros [|b r]; cbn; [done..|].
  case_bool_decide; cbn; [apply IH|naive_solver].
Qed.

Lemma edge_match_len_app e r : edge_match_len e (e ++ r) = length e.
Proof. induction e as [|a e IH]; cbn; [done|]. by rewrite bool_decide_eq_true_2, IH. Qed.

Lemma edge_match_full_inv e r : length e <= edge_match_len e r -> r = e ++ drop (length e) r.
Proof.
  intros H. pose proof (take_edge_match_len e r) as Ht. pose proof (edge_match_len_le e r).
  replace (edge_match_len e r) with (length e) in Ht by lia. rewrite firstn_all in Ht.
  rewrite Ht at 1. symmetry. apply take_drop.
Qed.

(** ** One step down *)
Lemma descend_same_shape c c' tokens i pos :
  shape c' = shape c -> descend c' tokens i pos = descend c tokens i pos.
Proof.
  intros Hs. unfold descend. case_bool_decide; [done|]. destruct (index tokens pos) as [t| |]; [cbn|done..].
  assert (forall j, (exists n n', nodes c !! j = Some n /\ nodes c' !! j = Some n' /\ node_shape n' = node_shape n)
     \/ (nodes c !! j = None /\ nodes c' !! j = None)) as Hcase.
  { intros j. destruct (nodes c !! j) as [n|] eqn:E.
    - left. destruct (shape_lookup c c' j n Hs E) as (n' & ? & ?). eauto.
    - right. split; [done|]. destruct (nodes c' !! j) as [n'|] eqn:E'; [|done].
      destruct (shape_lookup c' c j n' (eq_sym Hs) E') as (? & ? & _). congruence. }
  unfold get, child_edge_match, get, index.
  destruct (Hcase i) as [(n & n' & -> & -> & [= _ _ Hch])|[-> ->]]; [cbn; rewrite Hch|done].
  destruct (n_children n !! t) as [j|]; [|done].
  destruct (Hcase j) as [(m & m' & -> & -> & [= Htok _ _])|[-> ->]]; [cbn; by rewrite Htok|done].
Qed.

Lemma descend_Some c tokens i pos j pos' :
  descend c tokens i pos = Done (Some (j, pos')) <->
  exists n k m, nodes c !! i = Some n /\ tokens !! pos = Some k /\ n_children n !! k = Some j /\
    nodes c !! j = Some m /\ drop pos tokens = n_tokens m ++ drop pos' tokens /\
    pos' = pos + length (n_tokens m).
Proof.
  unfold descend, get, child_edge_match, get. split.
  - case_bool_decide; [done|]. unfold index.
    destruct (tokens !! pos) as [k|] eqn:Hk; [cbn|done].
    destruct (nodes c !! i) as [n|] eqn:Hi; [cbn|done].
    destruct (n_children n !! k) as [j'|] eqn:Hj; [|done].
    destruct (nodes c !! j') as [m|] eqn:Hm; [cbn|done].
    case_bool_decide as Hlen; [done|]. intros [= -> <-]. apply Nat.nlt_ge in Hlen.
    pose proof (edge_match_len_le (n_tokens m) (drop pos tokens)).
    replace (edge_match_len (n_tokens m) (drop pos tokens)) with (length (n_tokens m)) by lia.
    exists n, k, m. split_and!; [done..| |done].
    rewrite <-drop_drop. by apply edge_match_full_inv.
  - intros (n & k & m & Hi & Hk & Hj & Hm & Hdrop & ->).
    rewrite bool_decide_eq_false_2 by (apply lookup_lt_Some in Hk; lia).
    unfold index. rewrite Hk, Hi. cbn. rewrite Hj, Hm. cbn. rewrite Hdrop, edge_match_len_app.
    by rewrite bool_decide_eq_false_2 by lia.
Qed.

(** ** Walks *)

(** The nodes a walk goes through, each with the tokens consumed on reaching
    it. *)
Fixpoint walk (fuel : nat) (c : RadixCache) (tokens : list Token) (i pos : nat) : res (list (nat * nat)) :=
  match fuel with
  | 0 => OutOfFuel
  | S fuel =>
      o ← descend c tokens i pos;
      match o with
      | None => Done []
      | Some (j, pos') => l ← walk fuel c tokens j pos'; Done ((j, pos') :: l)
      end
  end.

Section well_formed.
Context (c : RadixCache) (Hwf : wf c).

Lemma at_path_node q i : at_path c q i -> exists n, nodes c !! i = Some n.
Proof using Hwf. destruct 1; [|by eauto]. destruct (wf_root _ Hwf) as (r & ? & _). eauto. Qed.

Lemma at_path_extend q p n k i m :
  at_path c q p -> nodes c !! p = Some n -> n_children n !! k = Some i -> nodes c !! i = Some m ->
  edge_ok c (length q) k m.
Proof using Hwf.
  intros Hq Hn Hk Hm. destruct (wf_edge _ Hwf q p n k i Hq Hn Hk) as (m' & ? & ?). by simplify_eq.
Qed.

(** A node carries a block exactly when its path ends a block. *)
Lemma at_path_block q i n :
  at_path c q i -> nodes c !! i = Some n ->
  (is_Some (n_block_id n) <-> q <> [] /\ (block_size c | length q)).
Proof using Hwf.
  intros Hq Hn. destruct Hq as [|q p n' k i m Hq Hp Hk Hi].
  - destruct (wf_root _ Hwf) as (r & Hr & _ & Hb). simplify_eq. rewrite Hb.
    split; [by intros []|naive_solver].
  - simplify_eq. destruct (at_path_extend _ _ _ _ _ _ Hq Hp Hk Hi) as (Hhd & _ & Hb).
    rewrite Hb, length_app. split; [|naive_solver]. intros ?. split; [|done].
    intros [_ Hnil]%app_eq_nil. by rewrite Hnil in Hhd.
Qed.

Lemma at_path_root_inv q : at_path c q 0 -> q = [].
Proof using Hwf. intros Hq. eapply (wf_unique _ Hwf); [done|constructor]. Qed.

(** ** The walk along [tokens] *)
Context (tokens : list Token).

Lemma descend_total q i pos : at_path c q i -> exists o, descend c tokens i pos = Done o.
Proof using Hwf.
  intros Hq. destruct (at_path_node q i Hq) as [n Hn]. unfold descend, child_edge_match, get, index.
  case_bool_decide; [eauto|].
  destruct (tokens !! pos) as [k|] eqn:Hk; [cbn|apply lookup_ge_None in Hk; lia].
  rewrite Hn. cbn. destruct (n_children n !! k) as [j|] eqn:Hj; [|eauto].
  destruct (wf_edge _ Hwf q i n k j Hq Hn Hj) as (m & -> & _). cbn. eauto.
Qed.

(** One step of the walk. *)
Lemma descend_step i pos j pos' :
  at_path c (take pos tokens) i -> pos <= length tokens ->
  descend c tokens i pos = Done (Some (j, pos')) ->
  at_path c (take pos' tokens) j /\ pos < pos' <= length tokens /\
  pos' <= (pos / block_size c + 1) * block_size c.
Proof using Hwf.
  intros Hq Hpos (n & k & m & Hi & Hk & Hj & Hm & Hdrop & ->)%descend_Some.
  destruct (at_path_extend _ _ _ _ _ _ Hq Hi Hj Hm) as (Hhd & Hcross & _).
  rewrite length_take_le in Hcross by done.
  assert (0 < length (n_tokens m)) by (destruct (n_tokens m); [done|cbn; lia]).
  assert (length (drop pos tokens) = length (n_tokens m) + (length tokens - (pos + length (n_tokens m)))) as Hlen
    by (by rewrite Hdrop, length_app, length_drop).
  rewrite length_drop in Hlen. split_and!; [|lia|lia|done].
  replace (take (pos + length (n_tokens m)) tokens) with (take pos tokens ++ n_tokens m).
  - by eapply at_child.
  - rewrite <-(take_drop pos tokens) at 2. rewrite Hdrop, take_app.
    rewrite length_take_le, take_take by done. f_equal; [f_equal; lia|].
    replace (pos + length (n_tokens m) - pos) with (length (n_tokens m)) by lia.
    by rewrite take_app_length.
Qed.

(** What the walk from [(i, pos)] goes through. *)
Record walk_spec (i pos : nat) (l : list (nat * nat)) : Prop := mk_walk_spec {
  ws_path : forall j x, (j, x) ∈ l -> at_path c (take x tokens) j /\ pos < x <= length tokens;
  ws_closed : forall j x d, (j, x) ∈ (i, pos) :: l -> descend c tokens j x = Done (Some d) -> d ∈ l;
  ws_functional : forall j j' x, (j, x) ∈ l -> (j', x) ∈ l -> j = j';
}.

Lemma walk_ok fuel : forall i pos,
  at_path c (take pos tokens) i -> pos <= length tokens -> length tokens - pos < fuel ->
  exists l, walk fuel c tokens i pos = Done l /\ walk_spec i pos l.
Proof using Hwf.
  induction fuel as [|fuel IH]; intros i pos Hq Hpos Hf; [lia|]. cbn [walk].
  destruct (descend_total _ i pos Hq) as [o Ho]. rewrite Ho. cbn [mbind res_bind].
  destruct o as [[j pos']|].
  - destruct (descend_step i pos j pos' Hq Hpos Ho) as (Hq' & Hpos' & _).
    destruct (IH j pos' Hq' (proj2 Hpos')) as (l & Hrun & [Hpath Hclosed Hfun]); [lia|].
    rewrite Hrun. cbn. exists ((j, pos') :: l). split; [done|]. split.
    + intros j0 x [[= -> ->]|Hin]%elem_of_cons; [done|]. destruct (Hpath j0 x Hin). split; [done|lia].
    + intros j0 x d [[= -> ->]|Hin]%elem_of_cons Hd.
      * rewrite Ho in Hd. simplify_eq. left.
      * right. by eapply Hclosed.
    + intros j0 j1 x [[= -> ->]|Hin]%elem_of_cons [[= ->]|Hin']%elem_of_cons; [done| | |by eapply Hfun].
      * destruct (Hpath _ _ Hin'). lia.
      * subst. destruct (Hpath _ _ Hin). lia.
  - exists []. split; [done|]. split; [by intros ?? ?%not_elem_of_nil| |by intros ??? ?%not_elem_of_nil].
    intros j x d Hin%list_elem_of_singleton Hd. simplify_eq. congruence.
Qed.

(** The walk from the root meets every node whose path is a prefix of the
    tokens. *)
Lemma walk_complete l q i :
  walk_spec 0 0 l -> at_path c q i -> q `prefix_of` tokens -> (i, length q) ∈ (0, 0) :: l.
Proof using Hwf.
  intros [_ Hclosed _]. induction 1 as [|q p n k i m Hq IH Hp Hk Hi]; intros Hpre; [left|].
  destruct Hpre as [rest Hrest]. right. eapply Hclosed.
  { apply IH. rewrite Hrest, <-app_assoc. by exists (n_tokens m ++ rest). }
  apply descend_Some. exists n, k, m.
  destruct (at_path_extend _ _ _ _ _ _ Hq Hp Hk Hi) as (Hhd & _).
  rewrite Hrest, length_app. split_and!; [done| |done|done| |done].
  - rewrite <-app_assoc, lookup_app_r, Nat.sub_diag by lia. destruct (n_tokens m); [done|]. cbn in *. by simplify_eq.
  - rewrite <-length_app, drop_app_length. rewrite <-app_assoc, drop_app_length. done.
Qed.
End well_formed.

(** A path leads to one node. *)
Lemma at_path_det c q i j : wf c -> at_path c q i -> at_path c q j -> i = j.
Proof.
  intros Hwf Hi Hj.
  destruct (walk_ok c Hwf q (S (length q)) 0 0) as (l & _ & Hl); [constructor|lia|lia|].
  pose proof (walk_complete c Hwf q l q i Hl Hi (reflexivity q)) as Hini.
  pose proof (walk_complete c Hwf q l q j Hl Hj (reflexivity q)) as Hinj.
  destruct q as [|t q].
  - assert (forall k, (k, 0) ∈ (0, 0) :: l -> k = 0) as H0.
    { intros k [[= ->]|Hk]%elem_of_cons; [done|]. destruct (ws_path _ _ _ _ _ Hl k 0 Hk). lia. }
    rewrite (H0 i), (H0 j); done.
  - apply elem_of_cons in Hini as [[=]|Hini]. apply elem_of_cons in Hinj as [[=]|Hinj].
    by eapply (ws_functional _ _ _ _ _ Hl).
Qed.

Lemma cached_det c q b b' : wf c -> cached c q b -> cached c q b' -> b = b'.
Proof.
  intros Hwf (i & n & Hi & Hn & Hb) (j & m & Hj & Hm & Hb').
  rewrite (at_path_det c q i j Hwf Hi Hj) in Hn. congruence.
Qed.

(** Only whole blocks are cached. *)
Lemma cached_aligned c q b : wf c -> cached c q b -> q <> [] /\ (block_size c | length q).
Proof. intros Hwf (i & n & Hi & Hn & Hb). apply (at_path_block c Hwf q i n Hi Hn). by rewrite Hb. Qed.

(** In terms of the map, no block is cached for two prefixes. *)
Lemma blocks_distinct_cached c :
  wf c -> no_orphans c ->
  (blocks_distinct c <-> forall q q' b, cached c q b -> cached c q' b -> q = q').
Proof.
  intros Hwf Hreach. split.
  - intros Hdis q q' b (i & n & Hi & Hn & Hb) (j & m & Hj & Hm & Hb').
    rewrite (Hdis i j n m b Hn Hm Hb Hb') in Hi. by eapply wf_unique.
  - intros Hinj i j n m b Hn Hm Hb Hb'.
    destruct (Hreach i) as [q Hq]; [exists n; by rewrite Hb|].
    destruct (Hreach j) as [q' Hq']; [exists m; by rewrite Hb'|].
    assert (q = q') as <- by (eapply Hinj; [by exists i, n|by exists j, m]). by eapply at_path_det.
Qed.
