(* ===== verification/RadixLookup.v ===== *)
(** * Radix prefix cache: lookups

    Models [lookup], [peek_prefix_classify], [lookup_or_stage],
    [lookup_session_prefix_or_stage], [batch_lookup_or_stage], [release] and
    [dec_refs_by_block_id] of [infer/src/prefix_cache.rs].

    A loop gives up one unit of fuel per edge; [S (length tokens)] is enough
    because an edge of a well-formed tree is not empty. *)

From S2P Require Import Prelude Tier RadixTypes.

(** ** Reference counts *)
Definition dec_ref (blocks : list BlockId) (n : Node) : Node :=
  match n_block_id n with
  | Some bid =>
      if bool_decide (bid ∈ blocks) && bool_decide (0 < n_ref_count n)%N
      then set_ref_count (n_ref_count n - 1) n else n
  | None => n
  end.

Definition dec_refs_by_block_id (blocks : list BlockId) (c : RadixCache) : RadixCache :=
  set_nodes (dec_ref blocks <$> nodes c) c.

Definition release (blocks : list BlockId) (c : RadixCache) : RadixCache := dec_refs_by_block_id blocks c.

(** ** lookup *)

(** What a hit does to a block-bearing node. *)
Definition hit (now : N) (ticks : option N) (n : Node) : Node :=
  maybe_refresh_soft_pin now ticks
    (set_hit_count (u32_saturating_add (n_hit_count n) 1)
       (set_ref_count (u32_add (n_ref_count n) 1) n)).

Fixpoint lookup_loop (fuel : nat) (now : N) (ticks : option N) (tokens : list Token)
    (node_idx pos : nat) (matched : list BlockId) (c : RadixCache)
    : res (RadixCache * (nat * list BlockId)) :=
  match fuel with
  | 0 => OutOfFuel
  | S fuel =>
      c ← upd node_idx (set_last_access now) c;
      o ← descend c tokens node_idx pos;
      match o with
      | None => Done (c, (pos, matched))
      | Some (child_idx, pos) =>
          c ← upd child_idx (set_last_access now) c;
          child ← get c child_idx;
          match n_block_id child with
          | Some bid =>
              c ← upd child_idx (hit now ticks) c;
              lookup_loop fuel now ticks tokens child_idx pos (matched ++ [bid]) c
          | None => lookup_loop fuel now ticks tokens child_idx pos matched c
          end
      end
  end.

Definition lookup (tokens : list Token) (c : RadixCache) : res (RadixCache * (nat * list BlockId)) :=
  let '(c, now) := tick c in
  '(c, (pos, matched)) ←
    lookup_loop (S (length tokens)) now (soft_pin_keepalive_ticks c) tokens root 0 [] c;
  let rounded := rounded_prefix_len c pos (length matched) in
  let block_count := rounded / block_size c in
  if bool_decide (block_count < length matched)
  then Done (dec_refs_by_block_id (drop block_count matched) c, (rounded, take block_count matched))
  else Done (c, (rounded, matched)).

(** ** Classification *)
Definition hit_kind_of (n : Node) : HitKind :=
  let k := match n_tier_location n with
           | Some (LocHostPinned _) => StagingFromHost
           | Some (LocDisk _ _) | Some (LocRemote _) => StagingFromDisk
           | Some (LocGpu _) | None => ReadyOnGpu
           end in
  if bool_decide (n_entry_state n = IReady) then k else Miss.

Record PeekPrefixOutcome := mkPeekPrefixOutcome {
  pk_matched_len : nat;
  pk_blocks : list (BlockId * HitKind);
}.

Fixpoint peek_loop (fuel : nat) (c : RadixCache) (tokens : list Token) (node_idx pos : nat)
    (blocks : list (BlockId * HitKind)) : res PeekPrefixOutcome :=
  match fuel with
  | 0 => OutOfFuel
  | S fuel =>
      o ← descend c tokens node_idx pos;
      match o with
      | None => Done (mkPeekPrefixOutcome pos blocks)
      | Some (child_idx, pos) =>
          child ← get c child_idx;
          match n_block_id child with
          | Some block_id =>
              peek_loop fuel c tokens child_idx pos (blocks ++ [(block_id, hit_kind_of child)])
          | None =>
              if is_tombstone child then Done (mkPeekPrefixOutcome pos blocks)
              else peek_loop fuel c tokens child_idx pos blocks
          end
      end
  end.

Definition peek_prefix_classify (tokens : list Token) (c : RadixCache) : res PeekPrefixOutcome :=
  peek_loop (S (length tokens)) c tokens root 0 [].

(** ** lookup_or_stage *)
Definition is_staged (k : HitKind) : bool :=
  match k with StagingFromHost | StagingFromDisk => true | _ => false end.
Definition is_miss (k : HitKind) : bool := match k with Miss => true | _ => false end.

(** The block a visited node contributes and whether recomputing it beats
    fetching it. *)
Definition stage_advice (h : LookupHeuristics) (bs : nat) (n : Node) : bool :=
  let k := hit_kind_of n in
  is_staged k && advise_recompute h k bs (N.max (n_byte_len n) (u32_of_usize bs)).

Definition ready_blocks (blocks : list LookupBlock) : nat :=
  length (filter (fun b => is_miss (lb_hit_kind b) = false) blocks).

Fixpoint stage_loop (fuel : nat) (now : N) (ticks : option N) (h : LookupHeuristics)
    (tokens : list Token) (node_idx pos : nat) (blocks : list LookupBlock) (advised : bool)
    (c : RadixCache) : res (RadixCache * (nat * list LookupBlock * bool)) :=
  match fuel with
  | 0 => OutOfFuel
  | S fuel =>
      c ← upd node_idx (set_last_access now) c;
      o ← descend c tokens node_idx pos;
      match o with
      | None => Done (c, (pos, blocks, advised))
      | Some (child_idx, pos) =>
          c ← upd child_idx (set_last_access now) c;
          child ← get c child_idx;
          match n_block_id child with
          | Some block_id =>
              c ← upd child_idx (hit now ticks) c;
              stage_loop fuel now ticks h tokens child_idx pos
                (blocks ++ [mkLookupBlock (Some block_id) (hit_kind_of child)])
                (advised || stage_advice h (block_size c) child) c
          | None =>
              if is_tombstone child
              then Done (c, (pos, blocks ++ [mkLookupBlock None Miss], advised))
              else stage_loop fuel now ticks h tokens child_idx pos blocks advised c
          end
      end
  end.

Definition lookup_or_stage (tokens : list Token) (h : LookupHeuristics) (c : RadixCache)
    : res (RadixCache * LookupOutcome) :=
  let '(c, now) := tick c in
  '(c, (pos, blocks, advised)) ←
    stage_loop (S (length tokens)) now (soft_pin_keepalive_ticks c) h tokens root 0 [] false c;
  Done (c, mkLookupOutcome (rounded_prefix_len c pos (ready_blocks blocks)) blocks advised).

Fixpoint batch_lookup_or_stage (prefixes : list (list Token)) (h : LookupHeuristics) (c : RadixCache)
    : res (RadixCache * list LookupOutcome) :=
  match prefixes with
  | [] => Done (c, [])
  | p :: prefixes =>
      '(c, o) ← lookup_or_stage p h c;
      '(c, os) ← batch_lookup_or_stage prefixes h c;
      Done (c, o :: os)
  end.

(** ** lookup_session_prefix_or_stage *)

(** The first loop: the block-bearing nodes of the path, and how many of them,
    and of the tokens, there are at the deepest node of the session. *)
Record SessionMatch := mkSessionMatch {
  sm_nodes : list nat;
  sm_last_count : nat;
  sm_last_pos : nat;
}.

Fixpoint session_loop (fuel : nat) (c : RadixCache) (sid : SessionId) (tokens : list Token)
    (node_idx pos : nat) (m : SessionMatch) : res SessionMatch :=
  match fuel with
  | 0 => OutOfFuel
  | S fuel =>
      o ← descend c tokens node_idx pos;
      match o with
      | None => Done m
      | Some (child_idx, pos) =>
          child ← get c child_idx;
          match n_block_id child with
          | Some _ =>
              let ns := sm_nodes m ++ [child_idx] in
              session_loop fuel c sid tokens child_idx pos
                (if bool_decide (n_session_id child = Some sid)
                 then mkSessionMatch ns (length ns) pos
                 else mkSessionMatch ns (sm_last_count m) (sm_last_pos m))
          | None =>
              if is_tombstone child then Done m
              else session_loop fuel c sid tokens child_idx pos m
          end
      end
  end.

(** The second loop, over the nodes kept. *)
Fixpoint session_stage (now : N) (ticks : option N) (h : LookupHeuristics) (ns : list nat)
    (blocks : list LookupBlock) (advised : bool) (c : RadixCache)
    : res (RadixCache * (list LookupBlock * bool)) :=
  match ns with
  | [] => Done (c, (blocks, advised))
  | node_idx :: ns =>
      c ← upd node_idx (set_last_access now) c;
      child ← get c node_idx;
      match n_block_id child with
      | None => Done (c, (blocks ++ [mkLookupBlock None Miss], advised))
      | Some block_id =>
          c ← upd node_idx (hit now ticks) c;
          session_stage now ticks h ns (blocks ++ [mkLookupBlock (Some block_id) (hit_kind_of child)])
            (advised || stage_advice h (block_size c) child) c
      end
  end.

Definition lookup_session_prefix_or_stage (sid : SessionId) (tokens : list Token)
    (h : LookupHeuristics) (c : RadixCache) : res (RadixCache * LookupOutcome) :=
  m ← session_loop (S (length tokens)) c sid tokens root 0 (mkSessionMatch [] 0 0);
  if bool_decide (sm_last_count m = 0) then Done (c, mkLookupOutcome 0 [] false)
  else
    let matched_len := rounded_prefix_len c (sm_last_pos m) (sm_last_count m) in
    let block_count := matched_len / block_size c in
    if bool_decide (block_count = 0) then Done (c, mkLookupOutcome 0 [] false)
    else
      let '(c, now) := tick c in
      '(c, (blocks, advised)) ←
        session_stage now (soft_pin_keepalive_ticks c) h (take block_count (sm_nodes m)) [] false c;
      Done (c, mkLookupOutcome (rounded_prefix_len c matched_len (ready_blocks blocks)) blocks advised).
