(* ===== verification/RadixLookupProps.v ===== *)
(** * What a lookup finds and what it changes

    The lookups of [infer/src/prefix_cache.rs] on a well-formed cache: a
    lookup returns the blocks of the longest cached prefix, pins exactly the
    nodes that hold them, and leaves the tree alone; [release] undoes it. *)


From S2P Require Import Prelude Lists Tier RadixTypes RadixTree RadixLookup.

(** ** The blocks along a walk *)
Definition block_at (c : RadixCache) (v : nat * nat) : option BlockId :=
  n ← nodes c !! v.1; n_block_id n.

Lemma block_at_same_shape c c' v : shape c' = shape c -> block_at c' v = block_at c v.
Proof.
  intros Hs. unfold block_at. destruct (nodes c !! v.1) as [n|] eqn:E; cbn.
  - destruct (shape_lookup c c' _ n Hs E) as (n' & -> & [= _ ? _]). done.
  - destruct (nodes c' !! v.1) as [n'|] eqn:E'; [|done].
    destruct (shape_lookup c' c _ n' (eq_sym Hs) E') as (? & ? & _). congruence.
Qed.

Definition end_pos (pos : nat) (l : list (nat * nat)) : nat :=
  match last l with Some v => v.2 | None => pos end.

Lemma end_pos_cons pos v l : end_pos pos (v :: l) = end_pos v.2 l.
Proof.
  unfold end_pos. rewrite last_cons. destruct (last l) as [w|]; done.
Qed.

Section walk_blocks.
Context (c : RadixCache) (Hwf : wf c) (tokens : list Token).

(** One block per boundary crossed. *)
Lemma walk_step_block i pos j pos' :
  at_path c (take pos tokens) i -> pos <= length tokens ->
  descend c tokens i pos = Done (Some (j, pos')) ->
  match block_at c (j, pos') with
  | Some b => pos' = (pos / block_size c + 1) * block_size c /\ cached c (take pos' tokens) b
  | None => pos' / block_size c = pos / block_size c
  end.
Proof using Hwf.
  intros Hq Hpos Hd.
  destruct (descend_step c Hwf tokens i pos j pos' Hq Hpos Hd) as (Hq' & Hlt & Hle).
  destruct (at_path_node c Hwf _ _ Hq') as [n Hn]. pose proof (wf_block_size _ Hwf) as Hbs.
  pose proof (at_path_block c Hwf _ _ n Hq' Hn) as Hblk. rewrite length_take_le in Hblk by lia.
  unfold block_at. cbn. rewrite Hn. cbn. destruct (n_block_id n) as [b|] eqn:Hb.
  - split; [|by exists j, n]. apply Nat.le_antisymm; [done|].
    destruct (decide (pos' < (pos / block_size c + 1) * block_size c)) as [Hin|?]; [|lia].
    exfalso. eapply (not_aligned_inside (block_size c)); [done|apply Hlt|exact Hin|].
    apply Hblk. by eexists.
  - apply div_inside; [done|lia|].
    destruct (decide (pos' = (pos / block_size c + 1) * block_size c)) as [Heq|?]; [|lia].
    exfalso. apply (is_Some_None (A := BlockId)). apply Hblk. split.
    + intros Hnil%(f_equal length). rewrite length_take_le in Hnil by lia. cbn in Hnil. lia.
    + rewrite Heq. apply Nat.divide_factor_r.
Qed.

(** Positions only grow. *)
Lemma walk_end fuel : forall i pos l,
  at_path c (take pos tokens) i -> pos <= length tokens -> walk fuel c tokens i pos = Done l ->
  pos <= end_pos pos l /\ forall v, v ∈ l -> v.2 <= end_pos pos l.
Proof using Hwf.
  induction fuel as [|fuel IH]; intros i pos l Hq Hpos Hw; [done|]. cbn [walk] in Hw.
  destruct (descend c tokens i pos) as [[[j pos']|]| |] eqn:Hd; cbn in Hw; [|simplify_eq|done..].
  2: { split; [done|]. by intros v ?%not_elem_of_nil. }
  destruct (walk fuel c tokens j pos') as [l'| |] eqn:Hw'; cbn in Hw; [|done..]. simplify_eq.
  destruct (descend_step c Hwf tokens i pos j pos' Hq Hpos Hd) as (Hq' & Hlt & Hle).
  destruct (IH j pos' l' Hq' (proj2 Hlt) Hw') as (He & Hall).
  rewrite end_pos_cons. cbn [snd]. split; [lia|].
  intros v [->|Hv]%elem_of_cons; [done|by apply Hall].
Qed.

Lemma walk_blocks fuel : forall i pos l,
  at_path c (take pos tokens) i -> pos <= length tokens -> walk fuel c tokens i pos = Done l ->
  pos <= end_pos pos l <= length tokens /\
  length (omap (block_at c) l) = end_pos pos l / block_size c - pos / block_size c /\
  (forall k b, omap (block_at c) l !! k = Some b ->
     cached c (take ((pos / block_size c + 1 + k) * block_size c) tokens) b /\
     (pos / block_size c + 1 + k) * block_size c <= end_pos pos l).
Proof using Hwf.
  pose proof (wf_block_size _ Hwf) as Hbs.
  induction fuel as [|fuel IH]; intros i pos l Hq Hpos Hw; [done|]. cbn [walk] in Hw.
  destruct (descend c tokens i pos) as [[[j pos']|]| |] eqn:Hd; cbn in Hw; [|simplify_eq|done..].
  2: { split_and!; [cbn; lia..|done]. }
  destruct (walk fuel c tokens j pos') as [l'| |] eqn:Hw'; cbn in Hw; [|done..]. simplify_eq.
  destruct (descend_step c Hwf tokens i pos j pos' Hq Hpos Hd) as (Hq' & Hlt & Hle).
  destruct (IH j pos' l' Hq' (proj2 Hlt) Hw') as (He & Hlen & Hlook).
  pose proof (walk_step_block i pos j pos' Hq Hpos Hd) as Hstep.
  rewrite end_pos_cons. cbn [snd].
  assert (pos' / block_size c <= end_pos pos' l' / block_size c) by (apply Nat.Div0.div_le_mono; lia).
  change (omap (block_at c) ((j, pos') :: l')) with
    (match block_at c (j, pos') with Some b => b :: omap (block_at c) l' | None => omap (block_at c) l' end).
  destruct (block_at c (j, pos')) as [b|].
  - destruct Hstep as [Heq Hb].
    assert (pos' / block_size c = pos / block_size c + 1) as Hdiv by (rewrite Heq; apply Nat.div_mul; lia).
    rewrite Hdiv in Hlook, Hlen. split_and!; [lia|lia|cbn; lia|].
    intros [|k] b' Hk; cbn in Hk.
    + simplify_eq. rewrite Nat.add_0_r. split; [done|lia].
    + replace (pos / block_size c + 1 + S k) with (pos / block_size c + 1 + 1 + k) by lia. by apply Hlook.
  - rewrite Hstep in Hlook, Hlen. split_and!; [lia|lia|done|done].
Qed.
End walk_blocks.

(** ** The lookup loop *)

(** A node after a visit. *)
Definition visit (now : N) (ticks : option N) (n : Node) : Node :=
  match n_block_id n with
  | Some _ => hit now ticks (set_last_access now n)
  | None => set_last_access now n
  end.

Lemma hit_shape now ticks n : node_shape (hit now ticks n) = node_shape n.
Proof. unfold hit, maybe_refresh_soft_pin. cbn. by destruct (n_soft_pin_until n), ticks. Qed.
Lemma hit_block now ticks n : n_block_id (hit now ticks n) = n_block_id n.
Proof. unfold hit, maybe_refresh_soft_pin. cbn. by destruct (n_soft_pin_until n), ticks. Qed.
Lemma hit_ref now ticks n : n_ref_count (hit now ticks n) = u32_add (n_ref_count n) 1.
Proof. unfold hit, maybe_refresh_soft_pin. cbn. by destruct (n_soft_pin_until n), ticks. Qed.
Lemma visit_shape now ticks n : node_shape (visit now ticks n) = node_shape n.
Proof. unfold visit. destruct (n_block_id n); [by rewrite hit_shape|done]. Qed.
Lemma visit_block now ticks n : n_block_id (visit now ticks n) = n_block_id n.
Proof. unfold visit. destruct (n_block_id n) eqn:E; [by rewrite hit_block|done]. Qed.
Lemma visit_touched now ticks n : set_last_access now (visit now ticks n) = visit now ticks n.
Proof.
  unfold visit, hit, maybe_refresh_soft_pin. destruct (n_block_id n); cbn; [|done].
  destruct (n_soft_pin_until n), ticks; done.
Qed.

(** [c'] is [c] after a walk that started at [start] visited the nodes of
    [vs]: nothing else changed. *)
Record visited (now : N) (ticks : option N) (start : nat) (vs : list nat) (c c' : RadixCache) : Prop :=
  mk_visited {
  vi_nodes : forall j, nodes c' !! j =
    if decide (j ∈ vs) then visit now ticks <$> nodes c !! j
    else if decide (j = start) then set_last_access now <$> nodes c !! j else nodes c !! j;
  vi_rest : c' = set_nodes (nodes c') c;
}.

Lemma upd_Some c i n f : nodes c !! i = Some n -> upd i f c = Done (set_nodes (<[i := f n]> (nodes c)) c).
Proof. intros Hn. unfold upd, get, index. by rewrite Hn. Qed.

Lemma visited_same_tree now ticks start vs c c' : visited now ticks start vs c c' -> same_tree c c'.
Proof.
  intros [Hn Hrest]. split; try (by rewrite Hrest). unfold shape. apply list_eq. intros j.
  rewrite !list_lookup_fmap, Hn. destruct (nodes c !! j) as [n|]; repeat case_decide; cbn; try done.
  by rewrite visit_shape.
Qed.

(** One turn of the loop: [i] touched, then [j] visited. *)
Definition after_edge (now : N) (ticks : option N) (i j : nat) (n m : Node) (c : RadixCache) : RadixCache :=
  set_nodes (<[j := visit now ticks m]> (<[i := set_last_access now n]> (nodes c))) c.

Lemma visited_edge now ticks i j n m vs c c' :
  i <> j -> i ∉ vs -> j ∉ vs -> nodes c !! i = Some n -> nodes c !! j = Some m ->
  visited now ticks j vs (after_edge now ticks i j n m c) c' -> visited now ticks i (j :: vs) c c'.
Proof.
  intros Hij Hi Hj Hn Hm [Hnodes Hrest]. split; [|by rewrite Hrest].
  intros x. rewrite Hnodes. cbn [nodes after_edge set_nodes].
  destruct (decide (x = j)) as [->|Hxj].
  - rewrite decide_False by done. rewrite !decide_True by (done || left).
    rewrite list_lookup_insert_eq.
    2: { rewrite length_insert. by eapply lookup_lt_Some. }
    rewrite Hm. cbn. by rewrite visit_touched.
  - rewrite list_lookup_insert_ne by done.
    destruct (decide (x = i)) as [->|Hxi].
    + rewrite !decide_False by (done || set_solver).
      rewrite list_lookup_insert_eq by (by eapply lookup_lt_Some).
      destruct (decide (i = i)); [by rewrite Hn|done].
    + rewrite list_lookup_insert_ne by done.
      destruct (decide (x ∈ vs)), (decide (x ∈ j :: vs)); try done; try set_solver.
Qed.

Lemma visited_start now ticks i n c :
  nodes c !! i = Some n ->
  visited now ticks i [] c (set_nodes (<[i := set_last_access now n]> (nodes c)) c).
Proof.
  intros Hn. split; [|done]. intros j. cbn [nodes set_nodes]. rewrite decide_False by set_solver.
  destruct (decide (j = i)) as [->|Hne].
  - rewrite list_lookup_insert_eq, Hn by (by eapply lookup_lt_Some). done.
  - by rewrite list_lookup_insert_ne.
Qed.

Lemma after_edge_same_tree now ticks i j n m c :
  i <> j -> nodes c !! i = Some n -> nodes c !! j = Some m -> same_tree c (after_edge now ticks i j n m c).
Proof.
  intros Hij Hn Hm. split; [|done..].
  unfold shape. cbn [nodes after_edge set_nodes]. rewrite !list_fmap_insert, visit_shape.
  apply list_eq. intros x. destruct (decide (x = j)) as [->|Hxj].
  - rewrite list_lookup_insert_eq, list_lookup_fmap, Hm; [done|].
    rewrite length_insert, length_fmap. by eapply lookup_lt_Some.
  - rewrite list_lookup_insert_ne by done. destruct (decide (x = i)) as [->|Hxi].
    + rewrite list_lookup_insert_eq, list_lookup_fmap, Hn; [done|].
      rewrite length_fmap. by eapply lookup_lt_Some.
    + by rewrite list_lookup_insert_ne.
Qed.

Lemma walk_same_shape c c' fuel tokens i pos :
  shape c' = shape c -> walk fuel c' tokens i pos = walk fuel c tokens i pos.
Proof.
  intros Hs. revert i pos. induction fuel as [|fuel IH]; intros i pos; [done|]. cbn [walk].
  rewrite (descend_same_shape c c') by done.
  destruct (descend c tokens i pos) as [[[j pos']|]| |]; [cbn|done..]. by rewrite IH.
Qed.

(** The nodes of a walk are distinct, and none is its start. *)
Lemma walk_distinct c tokens fuel : wf c -> forall i pos l,
  at_path c (take pos tokens) i -> pos <= length tokens -> walk fuel c tokens i pos = Done l ->
  NoDup (i :: l.*1).
Proof.
  intros Hwf. induction fuel as [|fuel IH]; intros i pos l Hq Hpos Hw; [done|]. cbn [walk] in Hw.
  destruct (descend c tokens i pos) as [[[j pos']|]| |] eqn:Hd; cbn in Hw; [|simplify_eq|done..].
  2: { apply NoDup_singleton. }
  destruct (walk fuel c tokens j pos') as [l'| |] eqn:Hw'; cbn in Hw; [|done..]. simplify_eq.
  destruct (descend_step c Hwf tokens i pos j pos' Hq Hpos Hd) as (Hq' & Hlt & _).
  pose proof (IH j pos' l' Hq' (proj2 Hlt) Hw') as Hnd. rewrite fmap_cons. cbn [fst].
  apply NoDup_cons. split; [|done]. intros Hin.
  assert (forall k x, (k, x) ∈ (j, pos') :: l' -> at_path c (take x tokens) k /\ pos < x <= length tokens) as Hpath.
  { clear -Hwf Hq' Hlt Hw'. revert j pos' l' Hq' Hlt Hw'. 
    induction fuel as [|fuel IH]; intros j pos' l' Hq' Hlt Hw' k x; [done|]. cbn [walk] in Hw'.
    intros [[= -> ->]|Hin]%elem_of_cons; [done|].
    destruct (descend c tokens j pos') as [[[j' pos'']|]| |] eqn:Hd; cbn in Hw'; [|simplify_eq; set_solver|done..].
    destruct (walk fuel c tokens j' pos'') as [l''| |] eqn:Hw''; cbn in Hw'; [|done..]. simplify_eq.
    destruct (descend_step c Hwf tokens j pos' j' pos'' Hq' (proj2 Hlt) Hd) as (Hq'' & Hlt' & _).
    eapply (IH j' pos'' l''); [done|lia|done|done]. }
  assert (exists x, (i, x) ∈ (j, pos') :: l') as [x Hx].
  { apply elem_of_cons in Hin as [->|Hin]; [eexists; left|].
    apply list_elem_of_fmap in Hin as ([i' x] & -> & Hin). exists x. by right. }
  destruct (Hpath i x Hx) as [Hqx Hltx].
  pose proof (wf_unique _ Hwf _ _ _ Hq Hqx) as Heq%(f_equal length). rewrite !length_take_le in Heq by lia. lia.
Qed.

(** The updates of one turn of the loop, collapsed. *)
Lemma turn_ok now ticks i j n m c :
  i <> j -> nodes c !! i = Some n -> nodes c !! j = Some m ->
  let c1 := set_nodes (<[i := set_last_access now n]> (nodes c)) c in
  let c2 := set_nodes (<[j := set_last_access now m]> (nodes c1)) c1 in
  upd i (set_last_access now) c = Done c1 /\ shape c1 = shape c /\
  upd j (set_last_access now) c1 = Done c2 /\ get c2 j = Done (set_last_access now m) /\
  match n_block_id m with
  | Some _ => upd j (hit now ticks) c2 = Done (after_edge now ticks i j n m c)
  | None => c2 = after_edge now ticks i j n m c
  end.
Proof.
  intros Hij Hn Hm c1 c2.
  assert (nodes c1 !! j = Some m) as Hm1 by (cbn; by rewrite list_lookup_insert_ne).
  assert (nodes c2 !! j = Some (set_last_access now m)) as Hm2.
  { cbn. apply list_lookup_insert_eq. rewrite length_insert. by eapply lookup_lt_Some. }
  split_and!; [by apply upd_Some|by eapply shape_update|by apply upd_Some|by apply index_Some|].
  unfold after_edge, visit. destruct (n_block_id m); [|done].
  rewrite (upd_Some _ _ _ _ Hm2). cbn. by rewrite list_insert_insert_eq.
Qed.

Lemma walk_cons_inv c fuel tokens i pos l :
  walk (S fuel) c tokens i pos = Done l ->
  (descend c tokens i pos = Done None /\ l = []) \/
  (exists j pos' l', descend c tokens i pos = Done (Some (j, pos')) /\
     walk fuel c tokens j pos' = Done l' /\ l = (j, pos') :: l').
Proof.
  cbn [walk]. destruct (descend c tokens i pos) as [[[j pos']|]| |]; cbn; [|naive_solver|done..].
  destruct (walk fuel c tokens j pos') as [l'| |] eqn:E; cbn; [|done..]. intros [= <-]. right. eauto 10.
Qed.

(** What a step of a walk over a well-formed cache provides. *)
Lemma walk_step c tokens i pos j pos' l fuel :
  wf c -> at_path c (take pos tokens) i -> pos <= length tokens ->
  walk (S fuel) c tokens i pos = Done ((j, pos') :: l) ->
  exists n m, nodes c !! i = Some n /\ nodes c !! j = Some m /\
    descend c tokens i pos = Done (Some (j, pos')) /\ walk fuel c tokens j pos' = Done l /\
    i <> j /\ (i ∉ l.*1) /\ (j ∉ l.*1) /\ at_path c (take pos' tokens) j /\ pos' <= length tokens.
Proof.
  intros Hwf Hq Hpos Hw. pose proof (walk_distinct c tokens _ Hwf i pos _ Hq Hpos Hw) as Hnd.
  cbn in Hnd. apply NoDup_cons in Hnd as [Hi Hnd]. apply NoDup_cons in Hnd as [Hj _].
  apply walk_cons_inv in Hw as [[_ ?]|(j0 & p0 & l' & Hd & Hw & [= <- <- <-])]; [done|].
  destruct (descend_step c Hwf tokens i pos j pos' Hq Hpos Hd) as (Hq' & Hlt & _).
  destruct (at_path_node c Hwf _ _ Hq) as [n Hn]. destruct (at_path_node c Hwf _ _ Hq') as [m Hm].
  exists n, m. set_solver by lia.
Qed.

Lemma lookup_loop_ok now ticks tokens fuel : forall i pos matched c l,
  wf c -> at_path c (take pos tokens) i -> pos <= length tokens ->
  walk fuel c tokens i pos = Done l ->
  exists c', lookup_loop fuel now ticks tokens i pos matched c
      = Done (c', (end_pos pos l, matched ++ omap (block_at c) l)) /\
    visited now ticks i l.*1 c c'.
Proof.
  induction fuel as [|fuel IH]; intros i pos matched c l Hwf Hq Hpos Hw; [done|].
  destruct l as [|[j pos'] l].
  { apply walk_cons_inv in Hw as [[Hd _]|(? & ? & ? & _ & _ & ?)]; [|done].
    destruct (at_path_node c Hwf _ _ Hq) as [n Hn]. cbn [lookup_loop]. rewrite (upd_Some _ _ _ _ Hn). cbn.
    rewrite (descend_same_shape c) by (by eapply shape_update). rewrite Hd. cbn.
    eexists. rewrite app_nil_r. split; [done|]. by apply visited_start. }
  destruct (walk_step c tokens i pos j pos' l fuel Hwf Hq Hpos Hw)
    as (n & m & Hn & Hm & Hd & Hw' & Hij & Hi & Hj & Hq' & Hpos').
  destruct (turn_ok now ticks i j n m c Hij Hn Hm) as (H1 & Hs1 & H2 & Hget & H3).
  pose proof (after_edge_same_tree now ticks i j n m c Hij Hn Hm) as Hst.
  destruct (IH j pos' (matched ++ option_list (n_block_id m)) (after_edge now ticks i j n m c) l)
    as (c' & Hrun & Hvis).
  { by eapply wf_same_tree. }
  { eapply at_path_same_shape; [apply Hst|done]. }
  { done. }
  { rewrite (walk_same_shape c) by apply Hst. done. }
  exists c'. split; [|by eapply visited_edge].
  cbn [lookup_loop]. rewrite H1. cbn [mbind res_bind]. rewrite (descend_same_shape c) by done.
  rewrite Hd. cbn [mbind res_bind]. rewrite H2. cbn [mbind res_bind]. rewrite Hget. cbn [mbind res_bind].
  replace (omap (block_at c) ((j, pos') :: l)) with (option_list (n_block_id m) ++ omap (block_at c) l).
  2: { cbn. unfold block_at at 2. cbn. rewrite Hm. cbn. by destruct (n_block_id m). }
  rewrite end_pos_cons, app_assoc. cbn [snd].
  replace (omap (block_at c) l) with (omap (block_at (after_edge now ticks i j n m c)) l).
  2: { apply omap_pointwise. intros v. apply block_at_same_shape, Hst. }
  rewrite <-Hrun. cbn [n_block_id set_last_access].
  destruct (n_block_id m) as [b|] eqn:Hb; cbn [option_list].
  - by rewrite H3.
  - by rewrite H3, app_nil_r.
Qed.

(** ** lookup *)

(** The nodes a lookup of [tokens] pins. *)
Definition on_path (c : RadixCache) (tokens : list Token) (i : nat) : Prop :=
  exists q n, at_path c q i /\ q `prefix_of` tokens /\ nodes c !! i = Some n /\ is_Some (n_block_id n).

Lemma take_prefix_of {A} k (l : list A) : take k l `prefix_of` l.
Proof. exists (drop k l). by rewrite take_drop. Qed.

Section lookup.
Context (c : RadixCache) (Hwf : wf c) (tokens : list Token).

Lemma walk_from_root :
  exists l, walk (S (length tokens)) c tokens 0 0 = Done l /\ walk_spec c tokens 0 0 l.
Proof using Hwf. apply walk_ok; [done|constructor|lia|lia]. Qed.

Context (l : list (nat * nat)) (Hw : walk (S (length tokens)) c tokens 0 0 = Done l).
Context (Hl : walk_spec c tokens 0 0 l).

Lemma walk_on_path i n :
  nodes c !! i = Some n -> is_Some (n_block_id n) -> (i ∈ l.*1 <-> on_path c tokens i).
Proof using Hwf Hl.
  intros Hn Hb. split.
  - intros ([j x] & -> & Hin)%list_elem_of_fmap. destruct (ws_path _ _ _ _ _ Hl j x Hin) as [Hq _].
    exists (take x tokens), n. split_and!; [done|apply take_prefix_of|done|done].
  - intros (q & n' & Hq & Hpre & Hn' & _). simplify_eq.
    pose proof (walk_complete c Hwf tokens l q i Hl Hq Hpre) as [[= -> ?]|Hin]%elem_of_cons.
    + destruct (wf_root _ Hwf) as (r & Hr & _ & Hnone). simplify_eq. rewrite Hnone in Hb. by destruct Hb.
    + apply list_elem_of_fmap. by exists (i, length q).
Qed.

(** The blocks of the walk are the cached prefixes of the tokens. *)
Lemma walk_matched k b :
  omap (block_at c) l !! k = Some b <->
  (k + 1) * block_size c <= length tokens /\ cached c (take ((k + 1) * block_size c) tokens) b.
Proof using Hwf Hl Hw.
  pose proof (wf_block_size _ Hwf) as Hbs.
  destruct (walk_blocks c Hwf tokens _ 0 0 l ltac:(constructor) ltac:(lia) Hw) as (He & Hlen & Hlook).
  rewrite Nat.Div0.div_0_l, Nat.sub_0_r in Hlen. rewrite Nat.Div0.div_0_l in Hlook.
  assert (forall k b, omap (block_at c) l !! k = Some b ->
    (k + 1) * block_size c <= length tokens /\ cached c (take ((k + 1) * block_size c) tokens) b) as Hfwd.
  { intros k0 b0 Hk. destruct (Hlook k0 b0 Hk). replace (k0 + 1) with (0 + 1 + k0) by lia. split; [lia|done]. }
  split; [apply Hfwd|]. intros [Hle Hc].
  assert (k < length (omap (block_at c) l)) as Hk.
  { rewrite Hlen. destruct Hc as (i & n & Hq & Hn & Hb).
    pose proof (walk_complete c Hwf tokens l _ i Hl Hq (take_prefix_of _ _)) as Hin.
    rewrite length_take_le in Hin by done.
    assert ((k + 1) * block_size c <= end_pos 0 l) as Hend.
    { apply elem_of_cons in Hin as [[= ? ?]|Hin]; [nia|].
      by apply (walk_end c Hwf tokens _ 0 0 l ltac:(constructor) ltac:(lia) Hw) in Hin. }
    assert (k + 1 <= end_pos 0 l / block_size c); [|lia].
    apply Nat.div_le_lower_bound; lia. }
  apply lookup_lt_is_Some in Hk as [b' Hb']. rewrite Hb'. f_equal.
  eapply cached_det; [done|by apply Hfwd|done].
Qed.
End lookup.

Lemma dec_refs_same_tree bs c : same_tree c (dec_refs_by_block_id bs c).
Proof.
  split; [|done..]. unfold shape. cbn. rewrite <-list_fmap_compose. apply list_fmap_ext.
  intros i n _. cbn. unfold dec_ref. destruct (n_block_id n) eqn:E; [|done].
  by destruct (_ && _).
Qed.

(** The walk behind a lookup, and its effect. *)
Lemma lookup_ok c tokens :
  wf c ->
  exists c' l, lookup tokens c =
      Done (c', (length (omap (block_at c) l) * block_size c, omap (block_at c) l)) /\
    walk (S (length tokens)) c tokens 0 0 = Done l /\ walk_spec c tokens 0 0 l /\
    visited (u64_add (clock c) 1) (soft_pin_keepalive_ticks c) 0 l.*1
      (set_clock (u64_add (clock c) 1) c) c' /\ same_tree c c'.
Proof.
  intros Hwf. destruct (walk_from_root c Hwf tokens) as (l & Hw & Hl).
  unfold lookup, tick. set (now := u64_add (clock c) 1). cbn [soft_pin_keepalive_ticks set_clock].
  assert (same_tree c (set_clock now c)) as Hst0 by done.
  destruct (lookup_loop_ok now (soft_pin_keepalive_ticks c) tokens (S (length tokens)) 0 0 []
    (set_clock now c) l) as (c' & Hrun & Hvis); [by eapply wf_same_tree|constructor|lia| |].
  { by rewrite (walk_same_shape c). }
  change (omap (block_at (set_clock now c)) l) with (omap (block_at c) l) in Hrun.
  pose proof (visited_same_tree _ _ _ _ _ _ Hvis) as Hst.
  assert (block_size c' = block_size c) as Hbs' by apply Hst.
  unfold root. rewrite Hrun. cbn [mbind res_bind app].
  destruct (walk_blocks c Hwf tokens _ 0 0 l ltac:(constructor) ltac:(lia) Hw) as (_ & Hlen & _).
  rewrite Nat.Div0.div_0_l, Nat.sub_0_r in Hlen.
  pose proof (wf_block_size _ Hwf) as Hbs. pose proof (div_bounds (block_size c) Hbs (end_pos 0 l)).
  assert (rounded_prefix_len c' (end_pos 0 l) (length (omap (block_at c) l)) =
          length (omap (block_at c) l) * block_size c) as Hround.
  { unfold rounded_prefix_len. rewrite Hbs', Nat.min_l by lia. by rewrite Nat.div_mul by lia. }
  rewrite Hround, Hbs', Nat.div_mul by lia. rewrite bool_decide_eq_false_2 by lia.
  exists c', l. split_and!; [done..|]. by etransitivity.
Qed.

(** How the reference count of a node moves during a lookup. *)
Lemma visited_ref c c' now ticks l tokens i n :
  wf c -> walk_spec c tokens 0 0 l ->
  visited now ticks 0 l.*1 (set_clock now c) c' -> nodes c !! i = Some n ->
  exists n', nodes c' !! i = Some n' /\ n_block_id n' = n_block_id n /\
    (on_path c tokens i -> n_ref_count n' = u32_add (n_ref_count n) 1) /\
    (~ on_path c tokens i -> n_ref_count n' = n_ref_count n).
Proof.
  intros Hwf Hl Hvis Hn. pose proof (vi_nodes _ _ _ _ _ _ Hvis i) as Hi. cbn [nodes set_clock] in Hi.
  rewrite Hn in Hi. destruct (n_block_id n) as [b|] eqn:Hb.
  - pose proof (walk_on_path c Hwf tokens l Hl i n Hn (ex_intro _ b Hb)) as Hon.
    destruct (decide (i ∈ l.*1)) as [Hin|Hin].
    + eexists. split; [exact Hi|]. split_and!; [by rewrite visit_block| |tauto].
      intros _. unfold visit. rewrite Hb. by rewrite hit_ref.
    + case_decide; (eexists; split; [exact Hi|]); (split_and!; [done|tauto|done]).
  - assert (~ on_path c tokens i) as Hno.
    { intros (q & n' & _ & _ & Hn' & Hsome). simplify_eq. rewrite Hb in Hsome. by destruct Hsome. }
    repeat case_decide; (eexists; split; [exact Hi|]); (split_and!; [|tauto|]); try done;
      [by rewrite visit_block|]. intros _. unfold visit. by rewrite Hb.
Qed.

Lemma lookup_ok' c tokens :
  wf c ->
  exists c' len bs, lookup tokens c = Done (c', (len, bs)) /\
    len = length bs * block_size c /\ len <= length tokens /\
    (forall k b, bs !! k = Some b <->
       (k + 1) * block_size c <= length tokens /\ cached c (take ((k + 1) * block_size c) tokens) b) /\
    same_tree c c' /\ wf c' /\
    (forall i n, nodes c !! i = Some n -> exists n', nodes c' !! i = Some n' /\
       (on_path c tokens i -> n_ref_count n' = u32_add (n_ref_count n) 1) /\
       (~ on_path c tokens i -> n_ref_count n' = n_ref_count n)).
Proof.
  intros Hwf. destruct (lookup_ok c tokens Hwf) as (c' & l & Hrun & Hw & Hl & Hvis & Hst).
  eexists c', _, _. split; [exact Hrun|]. split; [done|]. split.
  { pose proof (walk_matched c Hwf tokens l Hw Hl) as Hm.
    destruct (omap (block_at c) l) as [|b bs] eqn:E; [cbn; lia|].
    destruct (lookup_lt_is_Some_2 (b :: bs) (length bs)) as [b' Hb']; [cbn; lia|].
    apply Hm in Hb' as [? _]. cbn [length]. lia. }
  split; [intros; by apply walk_matched|]. split; [done|]. split; [by eapply wf_same_tree|].
  intros i n Hn. destruct (visited_ref c c' _ _ l tokens i n Hwf Hl Hvis Hn) as (n' & ? & _ & ? & ?).
  eauto.
Qed.

(** C2: [lookup] finds the longest cached prefix. On a well-formed cache it
    returns, and its blocks are exactly those cached for the prefixes of one,
    two, ... blocks of the tokens, in order, with the length of the last of
    them; no cached prefix of the tokens is missed. It pins exactly the nodes
    that hold these blocks, one reference each, and leaves the tree alone. *)
Theorem lookup_spec c tokens :
  wf c ->
  exists c' len bs, lookup tokens c = Done (c', (len, bs)) /\
    len = length bs * block_size c /\ len <= length tokens /\
    (forall k b, bs !! k = Some b <->
       (k + 1) * block_size c <= length tokens /\ cached c (take ((k + 1) * block_size c) tokens) b) /\
    same_tree c c' /\ wf c' /\
    (forall i n, nodes c !! i = Some n -> exists n', nodes c' !! i = Some n' /\
       (on_path c tokens i -> n_ref_count n' = u32_add (n_ref_count n) 1) /\
       (~ on_path c tokens i -> n_ref_count n' = n_ref_count n)).
Proof. apply lookup_ok'. Qed.

(** Releasing the blocks a lookup returned puts every reference count back
    where it was. *)
Theorem lookup_release_roundtrip c tokens c' len bs :
  wf c -> blocks_distinct c ->
  (forall i n, nodes c !! i = Some n -> (n_ref_count n < u32_max)%N) ->
  lookup tokens c = Done (c', (len, bs)) ->
  same_tree c (release bs c') /\
  (forall i, n_ref_count <$> nodes (release bs c') !! i = n_ref_count <$> nodes c !! i).
Proof.
  intros Hwf Hdis Hmax Hrun.
  destruct (lookup_ok c tokens Hwf) as (c1 & l & Hrun1 & Hw & Hl & Hvis & Hst).
  rewrite Hrun1 in Hrun. simplify_eq. split.
  { etransitivity; [exact Hst|]. apply dec_refs_same_tree. }
  intros i. unfold release, dec_refs_by_block_id. cbn. rewrite list_lookup_fmap.
  destruct (nodes c !! i) as [n|] eqn:Hn.
  2: { pose proof (vi_nodes _ _ _ _ _ _ Hvis i) as Hi. cbn in Hi. rewrite Hn in Hi. rewrite Hi.
       by repeat case_decide. }
  destruct (visited_ref c c' _ _ l tokens i n Hwf Hl Hvis Hn) as (n' & Hn' & Hb & Hin & Hout).
  rewrite Hn'. cbn. f_equal. unfold dec_ref. rewrite Hb.
  destruct (n_block_id n) as [b|] eqn:Hbn.
  2: { apply Hout. intros (q & n0 & _ & _ & Hn0 & Hsome). simplify_eq. rewrite Hbn in Hsome. by destruct Hsome. }
  assert (b ∈ omap (block_at c) l <-> on_path c tokens i) as Hmem.
  { rewrite <-(walk_on_path c Hwf tokens l Hl i n Hn) by (rewrite Hbn; eauto). rewrite list_elem_of_omap. split.
    - intros ([j x] & Hin' & Hbj). unfold block_at in Hbj. cbn in Hbj.
      destruct (nodes c !! j) as [m|] eqn:Hm; [|done]. cbn in Hbj.
      rewrite (Hdis i j n m b Hn Hm Hbn Hbj). by apply (list_elem_of_fmap_2 fst) in Hin'.
    - intros ([j x] & -> & Hin')%list_elem_of_fmap. exists (j, x). split; [done|].
      unfold block_at. cbn in *. by rewrite Hn. }
  case_bool_decide as Hmem'; cbn [andb].
  - apply Hmem in Hmem'. rewrite (Hin Hmem'). specialize (Hmax i n Hn).
    rewrite u32_add_small by (unfold u32_max in *; lia).
    rewrite bool_decide_eq_true_2 by lia. cbn. lia.
  - apply Hout. tauto.
Qed.

(** ** peek and lookup_or_stage

    Both classify the same nodes. [node_view] is what they read of a node; the
    updates of a lookup keep it. *)
Definition node_view (n : Node) := (node_shape n, hit_kind_of n, is_tombstone n).

Definition same_view (c c' : RadixCache) : Prop :=
  forall j, node_view <$> nodes c' !! j = node_view <$> nodes c !! j.

Lemma same_view_shape c c' : same_view c c' -> shape c' = shape c.
Proof.
  intros Hv. apply list_eq. intros j. unfold shape. rewrite !list_lookup_fmap. specialize (Hv j).
  unfold node_view in Hv. destruct (nodes c !! j), (nodes c' !! j); cbn in *; try done. congruence.
Qed.

Lemma same_view_lookup c c' j n :
  same_view c c' -> nodes c !! j = Some n -> exists n', nodes c' !! j = Some n' /\ node_view n' = node_view n.
Proof.
  intros Hv Hn. specialize (Hv j). rewrite Hn in Hv. destruct (nodes c' !! j) as [n'|]; [|done].
  exists n'. split; [done|]. cbn in Hv. congruence.
Qed.

Lemma same_view_upd c c1 j f n :
  same_view c c1 -> nodes c1 !! j = Some n -> node_view (f n) = node_view n ->
  same_view c (set_nodes (<[j := f n]> (nodes c1)) c1).
Proof.
  intros Hv Hn Hf x. rewrite <-Hv. cbn. destruct (decide (x = j)) as [->|Hne].
  - rewrite list_lookup_insert_eq by (by eapply lookup_lt_Some). rewrite Hn. cbn. by rewrite Hf.
  - by rewrite list_lookup_insert_ne.
Qed.

Lemma hit_view now ticks n : is_Some (n_block_id n) -> node_view (hit now ticks n) = node_view n.
Proof.
  intros [b Hb]. unfold node_view. rewrite hit_shape. unfold is_tombstone. rewrite hit_block, Hb.
  unfold hit, maybe_refresh_soft_pin. cbn. by destruct (n_soft_pin_until n), ticks.
Qed.

(** A block as [lookup_or_stage] reports it. *)
Definition staged_block (p : BlockId * HitKind) : LookupBlock := mkLookupBlock (Some p.1) p.2.

(** The loops agree, whatever the staging loop has touched so far. *)
Lemma stage_follows_peek now ticks h tokens fuel : forall c c1 i pos pk o blocks adv,
  same_view c c1 -> peek_loop fuel c tokens i pos pk = Done o ->
  is_Some (nodes c !! i) ->
  exists c2 new tail adv', stage_loop fuel now ticks h tokens i pos blocks adv c1
      = Done (c2, (pk_matched_len o, blocks ++ (staged_block <$> new) ++ tail, adv')) /\
    pk_blocks o = pk ++ new /\ (tail = [] \/ tail = [mkLookupBlock None Miss]) /\ same_view c c2 /\
    block_size c2 = block_size c1.
Proof.
  induction fuel as [|fuel IH]; intros c c1 i pos pk o blocks adv Hv Hpeek [n Hn]; [done|].
  cbn [peek_loop stage_loop] in *.
  destruct (same_view_lookup c c1 i n Hv Hn) as (n1 & Hn1 & _).
  rewrite (upd_Some _ _ _ _ Hn1). cbn [mbind res_bind].
  set (c1' := set_nodes (<[i := set_last_access now n1]> (nodes c1)) c1).
  assert (same_view c c1') as Hv1 by (by apply same_view_upd).
  rewrite (descend_same_shape c) by (by apply same_view_shape).
  destruct (descend c tokens i pos) as [[[j pos']|]| |] eqn:Hd; cbn [mbind res_bind] in *; [| |done..].
  2: { simplify_eq. exists c1', [], [], adv. rewrite !app_nil_r. split_and!; auto. }
  pose proof Hd as (_ & _ & m & _ & _ & _ & Hm & _)%descend_Some.
  destruct (same_view_lookup c c1' j m Hv1 Hm) as (m1 & Hm1 & Hmv).
  rewrite (upd_Some _ _ _ _ Hm1). cbn [mbind res_bind].
  set (c2 := set_nodes (<[j := set_last_access now m1]> (nodes c1')) c1').
  assert (same_view c c2) as Hv2 by (by apply same_view_upd).
  assert (nodes c2 !! j = Some (set_last_access now m1)) as Hj2
    by (apply list_lookup_insert_eq; by eapply lookup_lt_Some).
  rewrite (index_Some _ _ _ Hj2 : get c2 j = _). cbn [mbind res_bind].
  rewrite (index_Some _ _ _ Hm : get c j = _) in Hpeek. cbn [mbind res_bind] in Hpeek.
  injection Hmv as Htok Hblk Hch Hkind Htomb.
  cbn [n_block_id set_last_access]. rewrite Hblk.
  change (hit_kind_of (set_last_access now m1)) with (hit_kind_of m1). rewrite Hkind.
  change (is_tombstone (set_last_access now m1)) with (is_tombstone m1). rewrite Htomb.
  destruct (n_block_id m) as [b|] eqn:Hb.
  - rewrite (upd_Some _ _ _ _ Hj2). cbn [mbind res_bind].
    edestruct IH as (c3 & new & tail & adv' & Hrun & Hpk & Htail & Hv3 & Hbs); [|exact Hpeek|by eexists|].
    { apply same_view_upd; [exact Hv2|exact Hj2|]. apply hit_view. cbn. rewrite Hblk. by eexists. }
    rewrite Hrun. exists c3, ((b, hit_kind_of m) :: new), tail, adv'.
    split_and!; [|by rewrite Hpk, <-app_assoc|done|done|by rewrite Hbs].
    cbn. by rewrite <-app_assoc.
  - destruct (is_tombstone m).
    + simplify_eq. exists c2, [], [mkLookupBlock None Miss], adv. rewrite app_nil_r. split_and!; auto.
    + edestruct IH as (c3 & new & tail & adv' & Hrun & Hpk & Htail & Hv3 & Hbs); [exact Hv2|exact Hpeek|by eexists|].
      rewrite Hrun. exists c3, new, tail, adv'. split_and!; auto.
Qed.

Lemma peek_total c tokens fuel : forall i pos l pk,
  walk fuel c tokens i pos = Done l -> exists o, peek_loop fuel c tokens i pos pk = Done o.
Proof.
  induction fuel as [|fuel IH]; intros i pos l pk Hw; [done|].
  apply walk_cons_inv in Hw as [[Hd _]|(j & pos' & l' & Hd & Hw & _)]; cbn [peek_loop]; rewrite Hd; cbn; [eauto|].
  pose proof Hd as (_ & _ & m & _ & _ & _ & Hm & _)%descend_Some.
  rewrite (index_Some _ _ _ Hm : get c j = _). cbn.
  destruct (n_block_id m); [eauto|]. destruct (is_tombstone m); eauto.
Qed.

(** The read-only classification and the pinning one agree. On a
    well-formed cache both return; [lookup_or_stage] reports the blocks and the
    kinds [peek_prefix_classify] reports, in the same order, with at most one
    index-only miss after them, and matches as many tokens as the ready blocks
    cover, rounded down to a block; it leaves the tree alone. *)
Theorem peek_agrees_with_stage c tokens h :
  wf c ->
  exists o c' r tail, peek_prefix_classify tokens c = Done o /\
    lookup_or_stage tokens h c = Done (c', r) /\
    lo_blocks r = (staged_block <$> pk_blocks o) ++ tail /\
    (tail = [] \/ tail = [mkLookupBlock None Miss]) /\
    lo_matched_len r = Nat.min (ready_blocks (lo_blocks r) * block_size c) (pk_matched_len o)
                         / block_size c * block_size c /\
    shape c' = shape c.
Proof.
  intros Hwf. destruct (walk_from_root c Hwf tokens) as (l & Hw & _).
  destruct (peek_total c tokens _ 0 0 l [] Hw) as [o Ho]. unfold lookup_or_stage, tick.
  set (now := u64_add (clock c) 1). unfold peek_prefix_classify, root.
  destruct (wf_root _ Hwf) as (r & Hr & _).
  destruct (stage_follows_peek now (soft_pin_keepalive_ticks c) h tokens _ c (set_clock now c) 0 0 [] o [] false
    ltac:(done) Ho (ex_intro _ r Hr)) as (c2 & new & tail & adv & Hrun & Hpk & Htail & Hv & Hbs).
  cbn [soft_pin_keepalive_ticks set_clock]. rewrite Hrun. cbn [mbind res_bind app].
  eexists o, c2, _, tail. split; [done|]. split; [done|]. cbn [lo_blocks lo_matched_len].
  cbn in Hpk. rewrite Hpk. split_and!; [done|done| |by apply same_view_shape].
  unfold rounded_prefix_len. by rewrite Hbs.
Qed.

(** ** Pins: what lookups take and releases give back

    The reference counts of [infer/src/prefix_cache.rs] across
    [lookup_or_stage], [lookup_session_prefix_or_stage] and [release]: a
    lookup adds one reference to the node of every block it reports, a
    release of blocks takes one from the node of each. What callers rely on
    is the sum: [pinned c c' m] says that [c'] is [c] with one more reference
    for every occurrence of a block in [m], and nothing else that a lookup or
    an eviction depends on changed. *)


Definition node_pins (m : list BlockId) (n : Node) : N :=
  match n_block_id n with Some b => N.of_nat (occurrences b m) | None => 0%N end.

Record pinned (c c' : RadixCache) (m : list BlockId) : Prop := mk_pinned {
  pn_tree : same_tree c c';
  pn_view : same_view c c';
  pn_refs : forall i n, nodes c !! i = Some n -> exists n', nodes c' !! i = Some n' /\
    n_ref_count n' = (n_ref_count n + node_pins m n)%N;
}.

(** Every count can grow by [k] without overflow. *)
Definition room (c : RadixCache) (k : nat) : Prop :=
  forall i n, nodes c !! i = Some n -> (n_ref_count n + N.of_nat k <= u32_max)%N.

(** ** Composition *)
Lemma view_block n n' : node_view n' = node_view n -> n_block_id n' = n_block_id n.
Proof. unfold node_view, node_shape. congruence. Qed.

Lemma pinned_refl c : pinned c c [].
Proof.
  split; [done|done|]. intros i n Hn. exists n. split; [done|]. unfold node_pins, occurrences.
  destruct (n_block_id n); cbn; lia.
Qed.

Lemma pinned_block c c' m i n :
  pinned c c' m -> nodes c !! i = Some n -> exists n', nodes c' !! i = Some n' /\ n_block_id n' = n_block_id n /\
    n_ref_count n' = (n_ref_count n + node_pins m n)%N.
Proof.
  intros [_ Hv Hr] Hn. destruct (Hr i n Hn) as (n' & Hn' & Href). exists n'. split_and!; [done| |done].
  specialize (Hv i). rewrite Hn, Hn' in Hv. apply view_block. cbn in Hv. congruence.
Qed.

Lemma node_pins_app m m' n : node_pins (m ++ m') n = (node_pins m n + node_pins m' n)%N.
Proof. unfold node_pins. destruct (n_block_id n); [|done]. rewrite occurrences_app. lia. Qed.

Lemma node_pins_same m n n' : n_block_id n' = n_block_id n -> node_pins m n' = node_pins m n.
Proof. unfold node_pins. by intros ->. Qed.

Lemma pinned_trans c1 c2 c3 m m' : pinned c1 c2 m -> pinned c2 c3 m' -> pinned c1 c3 (m ++ m').
Proof.
  intros H12 H23. split.
  - etransitivity; [exact (pn_tree _ _ _ H12)|exact (pn_tree _ _ _ H23)].
  - intros j. by rewrite (pn_view _ _ _ H23 j), (pn_view _ _ _ H12 j).
  - intros i n Hn. destruct (pinned_block _ _ _ _ _ H12 Hn) as (n2 & Hn2 & Hb & Hr2).
    destruct (pn_refs _ _ _ H23 i n2 Hn2) as (n3 & Hn3 & Hr3). exists n3. split; [done|].
    rewrite Hr3, Hr2, node_pins_app, (node_pins_same m' n n2 Hb). lia.
Qed.

Lemma pinned_perm c c' m m' : m ≡ₚ m' -> pinned c c' m -> pinned c c' m'.
Proof.
  intros Hp [Ht Hv Hr]. split; [done..|]. intros i n Hn. destruct (Hr i n Hn) as (n' & Hn' & Href).
  exists n'. split; [done|]. rewrite Href. unfold node_pins, occurrences. destruct (n_block_id n); [|done].
  by rewrite Hp.
Qed.

Lemma pinned_wf c c' m : pinned c c' m -> wf c -> wf c'.
Proof. intros [Ht _ _]. by apply wf_same_tree. Qed.

Lemma pinned_distinct c c' m : pinned c c' m -> blocks_distinct c -> blocks_distinct c'.
Proof.
  intros [Ht _ _] Hd i j n n' b Hn Hn' Hb Hb'. pose proof (st_shape _ _ Ht) as Hs.
  destruct (shape_lookup c' c i n (eq_sym Hs) Hn) as (a & Ha & [= _ Hab _]).
  destruct (shape_lookup c' c j n' (eq_sym Hs) Hn') as (a' & Ha' & [= _ Hab' _]).
  apply (Hd i j a a' b); congruence.
Qed.

Lemma pinned_room c c' m k : pinned c c' m -> NoDup m -> room c (S k) -> room c' k.
Proof.
  intros Hp Hnd Hroom i n' Hn'. pose proof (st_shape _ _ (pn_tree _ _ _ Hp)) as Hs.
  destruct (shape_lookup c' c i n' (eq_sym Hs) Hn') as (n & Hn & _).
  destruct (pn_refs _ _ _ Hp i n Hn) as (n0 & Hn0 & Href). simplify_eq. specialize (Hroom i n Hn).
  unfold node_pins in Href. destruct (n_block_id n) as [b|]; [|lia].
  pose proof (occurrences_NoDup b m Hnd). lia.
Qed.

Lemma room_le c k k' : k <= k' -> room c k' -> room c k.
Proof. intros Hle Hr i n Hn. specialize (Hr i n Hn). lia. Qed.

(** ** Steps *)
Lemma pinned_update c i n f m :
  nodes c !! i = Some n -> node_view (f n) = node_view n ->
  (forall j n', nodes c !! j = Some n' -> j <> i -> node_pins m n' = 0%N) ->
  n_ref_count (f n) = (n_ref_count n + node_pins m n)%N ->
  pinned c (set_nodes (<[i := f n]> (nodes c)) c) m.
Proof.
  intros Hn Hv Hother Href. split.
  - split; [|done..]. eapply shape_update; [done|]. unfold node_view in Hv. congruence.
  - by apply same_view_upd.
  - intros j n' Hn'. cbn. destruct (decide (j = i)) as [->|Hne].
    + simplify_eq. rewrite list_lookup_insert_eq by (by eapply lookup_lt_Some). eauto.
    + rewrite list_lookup_insert_ne by done. exists n'. split; [done|].
      rewrite (Hother j n') by done. lia.
Qed.

Lemma node_pins_nil n : node_pins [] n = 0%N.
Proof. unfold node_pins. by destruct (n_block_id n). Qed.

Lemma pinned_touch c i n now :
  nodes c !! i = Some n -> pinned c (set_nodes (<[i := set_last_access now n]> (nodes c)) c) [].
Proof.
  intros Hn. apply pinned_update; [done|done| |].
  - intros. apply node_pins_nil.
  - rewrite node_pins_nil. cbn. lia.
Qed.

Lemma pinned_clock c now : pinned c (set_clock now c) [].
Proof.
  split; [done|done|]. intros i n Hn. exists n. rewrite node_pins_nil. split; [done|lia].
Qed.

Lemma pinned_hit c i n b now ticks :
  blocks_distinct c -> nodes c !! i = Some n -> n_block_id n = Some b -> (n_ref_count n < u32_max)%N ->
  pinned c (set_nodes (<[i := hit now ticks n]> (nodes c)) c) [b].
Proof.
  intros Hd Hn Hb Hlt. apply pinned_update; [done|apply hit_view; by rewrite Hb| |].
  - intros j n' Hn' Hne. unfold node_pins. destruct (n_block_id n') as [b'|] eqn:Hb'; [|done].
    rewrite occurrences_notin; [done|]. intros ->%list_elem_of_singleton. apply Hne. by eapply Hd.
  - rewrite hit_ref, u32_add_small by lia. unfold node_pins. rewrite Hb, occurrences_cons, decide_True by done.
    unfold occurrences. cbn. lia.
Qed.

(** ** Giving back *)
Lemma dec_ref_view bs n : node_view (dec_ref bs n) = node_view n.
Proof. unfold dec_ref. destruct (n_block_id n); [|done]. by destruct (_ && _). Qed.

(** Releasing distinct blocks that are pinned takes their pins away. *)
Lemma pinned_release c c' bs m : NoDup bs -> pinned c c' (bs ++ m) -> pinned c (release bs c') m.
Proof.
  intros Hnd [Ht Hv Hr]. split.
  - etransitivity; [exact Ht|]. apply dec_refs_same_tree.
  - intros j. rewrite <-(Hv j). cbn. rewrite list_lookup_fmap. destruct (nodes c' !! j) as [n|]; [|done].
    cbn. by rewrite dec_ref_view.
  - intros i n Hn. destruct (Hr i n Hn) as (n' & Hn' & Href). exists (dec_ref bs n'). split.
    { cbn. by rewrite list_lookup_fmap, Hn'. }
    assert (n_block_id n' = n_block_id n) as Hb.
    { specialize (Hv i). rewrite Hn, Hn' in Hv. apply view_block. cbn in Hv. congruence. }
    rewrite node_pins_app in Href. unfold dec_ref, node_pins in *. rewrite Hb. destruct (n_block_id n) as [b|]; [|lia].
    rewrite (occurrences_eq b bs Hnd) in Href. destruct (decide (b ∈ bs)) as [Hin|Hin].
    + rewrite (bool_decide_eq_true_2 (b ∈ bs)) by done. rewrite bool_decide_eq_true_2 by lia. cbn. lia.
    + rewrite (bool_decide_eq_false_2 (b ∈ bs)) by done. cbn. lia.
Qed.

(** ** The staging loop *)

(** One turn: touching [i], then visiting [j], pins the block of [j]. *)
Lemma pinned_edge c now ticks i j n m :
  blocks_distinct c -> i <> j -> nodes c !! i = Some n -> nodes c !! j = Some m -> (n_ref_count m < u32_max)%N ->
  pinned c (after_edge now ticks i j n m c) (option_list (n_block_id m)).
Proof.
  intros Hd Hij Hn Hm Hlt. pose proof (pinned_touch c i n now Hn) as H1.
  destruct (turn_ok now ticks i j n m c Hij Hn Hm) as (_ & _ & H2 & _ & H3).
  set (c1 := set_nodes (<[i := set_last_access now n]> (nodes c)) c) in *.
  assert (nodes c1 !! j = Some m) as Hm1 by (cbn; by rewrite list_lookup_insert_ne).
  pose proof (pinned_touch c1 j m now Hm1) as H4.
  set (c2 := set_nodes (<[j := set_last_access now m]> (nodes c1)) c1) in *.
  pose proof (pinned_trans _ _ _ _ _ H1 H4) as H5. change ([] ++ []) with (@nil BlockId) in H5.
  destruct (n_block_id m) as [b|] eqn:Hb; cbn [option_list]; [|by rewrite H3 in H5].
  assert (nodes c2 !! j = Some (set_last_access now m)) as Hm2.
  { cbn. apply list_lookup_insert_eq. rewrite length_insert. by eapply lookup_lt_Some. }
  rewrite (upd_Some _ _ _ _ Hm2) in H3.
  assert (after_edge now ticks i j n m c =
    set_nodes (<[j := hit now ticks (set_last_access now m)]> (nodes c2)) c2) as -> by congruence.
  apply (pinned_trans _ _ _ [] [b] H5). apply pinned_hit; [by eapply pinned_distinct|done..].
Qed.

(** The nodes of a walk have counts that can grow by one. *)
Definition walk_room (c : RadixCache) (vs : list nat) : Prop :=
  forall j n, j ∈ vs -> nodes c !! j = Some n -> (n_ref_count n < u32_max)%N.

Lemma room_walk c vs : room c 1 -> walk_room c vs.
Proof. intros Hr j n _ Hn. specialize (Hr j n Hn). lia. Qed.

Lemma walk_room_after c now ticks i j n m vs :
  nodes c !! i = Some n -> j ∉ vs -> walk_room c vs -> walk_room (after_edge now ticks i j n m c) vs.
Proof.
  intros Hn Hj Hr x nx Hx. unfold after_edge. cbn [nodes set_nodes]. rewrite list_lookup_insert_ne by set_solver.
  destruct (decide (x = i)) as [->|Hne].
  - rewrite list_lookup_insert_eq by (by eapply lookup_lt_Some). intros [= <-]. cbn. by eapply Hr.
  - rewrite list_lookup_insert_ne by done. by apply Hr.
Qed.

Lemma stage_loop_pins now ticks h tokens fuel : forall i pos blocks adv c l,
  wf c -> blocks_distinct c -> at_path c (take pos tokens) i -> pos <= length tokens ->
  walk fuel c tokens i pos = Done l -> walk_room c l.*1 ->
  exists c' pos' new adv' vs, stage_loop fuel now ticks h tokens i pos blocks adv c
      = Done (c', (pos', blocks ++ new, adv')) /\
    vs `prefix_of` l /\ omap lb_block_id new = omap (block_at c) vs /\ pinned c c' (omap lb_block_id new).
Proof.
  induction fuel as [|fuel IH]; intros i pos blocks adv c l Hwf Hd Hq Hpos Hw Hroom; [done|].
  destruct l as [|[j pos'] l].
  { apply walk_cons_inv in Hw as [[Hde _]|(? & ? & ? & _ & _ & ?)]; [|done].
    destruct (at_path_node c Hwf _ _ Hq) as [n Hn]. cbn [stage_loop]. rewrite (upd_Some _ _ _ _ Hn). cbn.
    rewrite (descend_same_shape c) by (by eapply shape_update). rewrite Hde. cbn.
    eexists _, _, [], _, []. rewrite app_nil_r. split_and!; [done|done|done|]. by apply pinned_touch. }
  destruct (walk_step c tokens i pos j pos' l fuel Hwf Hq Hpos Hw)
    as (n & m & Hn & Hm & Hde & Hw' & Hij & Hi & Hj & Hq' & Hpos').
  destruct (turn_ok now ticks i j n m c Hij Hn Hm) as (H1 & Hs1 & H2 & Hget & H3).
  pose proof (after_edge_same_tree now ticks i j n m c Hij Hn Hm) as Hst.
  assert (n_ref_count m < u32_max)%N as Hlt by (eapply Hroom; [|done]; set_solver).
  pose proof (pinned_edge c now ticks i j n m Hd Hij Hn Hm Hlt) as Hpe.
  assert (walk_room (after_edge now ticks i j n m c) l.*1) as Hroom'.
  { apply walk_room_after; [done|done|]. intros x nx Hx. apply Hroom. set_solver. }
  cbn [stage_loop]. rewrite H1. cbn [mbind res_bind]. rewrite (descend_same_shape c) by done.
  rewrite Hde. cbn [mbind res_bind]. rewrite H2. cbn [mbind res_bind]. rewrite Hget. cbn [mbind res_bind].
  change (n_block_id (set_last_access now m)) with (n_block_id m).
  change (is_tombstone (set_last_access now m)) with (is_tombstone m).
  assert (forall blocks' adv', exists c' pos'' new adv'' vs,
    stage_loop fuel now ticks h tokens j pos' blocks' adv' (after_edge now ticks i j n m c)
      = Done (c', (pos'', blocks' ++ new, adv'')) /\ vs `prefix_of` l /\
    omap lb_block_id new = omap (block_at c) vs /\
    pinned c c' (option_list (n_block_id m) ++ omap lb_block_id new)) as Hrec.
  { intros blocks' adv'. destruct (IH j pos' blocks' adv' (after_edge now ticks i j n m c) l)
      as (c' & pos'' & new & adv'' & vs & Hrun & Hvs & Hids & Hpin).
    - by eapply wf_same_tree.
    - by eapply pinned_distinct.
    - eapply at_path_same_shape; [apply Hst|done].
    - done.
    - rewrite (walk_same_shape c) by apply Hst. done.
    - done.
    - exists c', pos'', new, adv'', vs. split_and!; [done|done| |by eapply pinned_trans].
      rewrite Hids. apply omap_pointwise. intros v. apply block_at_same_shape, Hst. }
  assert (forall vs, omap (block_at c) ((j, pos') :: vs) = option_list (n_block_id m) ++ omap (block_at c) vs) as Hom.
  { intros vs. cbn. unfold block_at at 1. cbn. rewrite Hm. cbn. by destruct (n_block_id m). }
  destruct (n_block_id m) as [b|] eqn:Hb; cbn [option_list] in *.
  - rewrite H3. cbn [mbind res_bind].
    edestruct (Hrec (blocks ++ [mkLookupBlock (Some b) (hit_kind_of (set_last_access now m))]))
      as (c' & pos'' & new & adv'' & vs & Hrun & Hvs & Hids & Hpin).
    rewrite Hrun. exists c', pos'', (mkLookupBlock (Some b) (hit_kind_of (set_last_access now m)) :: new), adv'', ((j, pos') :: vs).
    split_and!; [by rewrite <-app_assoc|by apply prefix_cons|by rewrite Hom, <-Hids|done].
  - destruct (is_tombstone m).
    + rewrite H3. eexists _, _, [mkLookupBlock None Miss], _, [(j, pos')].
      split_and!; [done|apply prefix_cons, prefix_nil|by rewrite Hom|done].
    + rewrite H3. destruct (Hrec blocks adv) as (c' & pos'' & new & adv'' & vs & Hrun & Hvs & Hids & Hpin).
      rewrite Hrun. exists c', pos'', new, adv'', ((j, pos') :: vs).
      split_and!; [done|by apply prefix_cons|by rewrite Hom|done].
Qed.

Lemma prefix_sublist {A} (l l' : list A) : l `prefix_of` l' -> l `sublist_of` l'.
Proof. intros [k ->]. by apply sublist_inserts_r. Qed.

Lemma omap_compose {A B C} (f : B -> option C) (g : A -> B) (l : list A) : omap (fun x => f (g x)) l = omap f (g <$> l).
Proof. induction l as [|x l IH]; [done|]. cbn. by rewrite IH. Qed.

(** The blocks along a walk are distinct. *)
Lemma omap_block_at_NoDup c vs : blocks_distinct c -> NoDup vs.*1 -> NoDup (omap (block_at c) vs).
Proof.
  intros Hd. induction vs as [|v vs IH]; cbn; intros Hnd; [constructor|]. apply NoDup_cons in Hnd as [Hv Hnd].
  destruct (block_at c v) as [b|] eqn:Hb; [|by apply IH]. constructor; [|by apply IH].
  intros (v' & Hin & Hb')%list_elem_of_omap. unfold block_at in Hb, Hb'. apply Hv.
  destruct (nodes c !! v.1) as [n|] eqn:Hn; [|done]. destruct (nodes c !! v'.1) as [n'|] eqn:Hn'; [|done].
  rewrite (Hd v.1 v'.1 n n' b Hn Hn' Hb Hb'). by apply (list_elem_of_fmap_2 fst).
Qed.

Lemma walk_from_root_distinct c tokens l :
  wf c -> walk (S (length tokens)) c tokens 0 0 = Done l -> NoDup l.*1.
Proof.
  intros Hwf Hw. pose proof (walk_distinct c tokens _ Hwf 0 0 l ltac:(constructor) ltac:(lia) Hw) as Hnd.
  by apply NoDup_cons in Hnd as [_ Hnd].
Qed.

(** [lookup_or_stage] returns, and pins exactly the blocks it reports, once
    each. *)
Lemma lookup_or_stage_pins c tokens h :
  wf c -> blocks_distinct c -> room c 1 ->
  exists c' o, lookup_or_stage tokens h c = Done (c', o) /\ pinned c c' (lookup_block_ids o) /\ NoDup (lookup_block_ids o).
Proof.
  intros Hwf Hd Hroom. destruct (walk_from_root c Hwf tokens) as (l & Hw & _). unfold lookup_or_stage, tick.
  set (now := u64_add (clock c) 1). pose proof (pinned_clock c now) as Hc.
  destruct (stage_loop_pins now (soft_pin_keepalive_ticks c) h tokens (S (length tokens)) 0 0 [] false (set_clock now c) l)
    as (c' & pos' & new & adv & vs & Hrun & Hvs & Hids & Hpin).
  - by eapply pinned_wf.
  - by eapply pinned_distinct.
  - constructor.
  - lia.
  - by rewrite (walk_same_shape c).
  - by apply room_walk.
  - unfold root. cbn [soft_pin_keepalive_ticks set_clock]. rewrite Hrun. cbn [mbind res_bind app]. eexists _, _.
    split; [done|]. unfold lookup_block_ids. cbn [lo_blocks]. split; [exact (pinned_trans _ _ _ [] _ Hc Hpin)|].
    rewrite Hids. apply omap_block_at_NoDup; [by eapply pinned_distinct|].
    eapply sublist_NoDup; [by eapply walk_from_root_distinct|]. apply fmap_sublist. by apply prefix_sublist.
Qed.

(** ** The session lookup *)

(** The block-bearing nodes among those walked. *)
Definition bearing (c : RadixCache) (vs : list (nat * nat)) : list nat :=
  (filter (fun v => is_Some (block_at c v)) vs).*1.

Lemma bearing_cons c v vs :
  bearing c (v :: vs) = (if block_at c v then [v.1] else []) ++ bearing c vs.
Proof.
  unfold bearing. rewrite filter_cons. destruct (block_at c v) eqn:E; cbn.
  - by rewrite decide_True by eauto.
  - by rewrite decide_False by (intros []; done).
Qed.

Lemma bearing_prefix c vs l : vs `prefix_of` l -> bearing c vs `prefix_of` bearing c l.
Proof. intros [k ->]. unfold bearing. rewrite filter_app, fmap_app. by exists (bearing c k). Qed.

Lemma session_loop_ok c sid tokens fuel : forall i pos l m,
  walk fuel c tokens i pos = Done l -> sm_last_count m <= length (sm_nodes m) ->
  exists m' vs, session_loop fuel c sid tokens i pos m = Done m' /\ vs `prefix_of` l /\
    sm_nodes m' = sm_nodes m ++ bearing c vs /\ sm_last_count m' <= length (sm_nodes m').
Proof.
  induction fuel as [|fuel IH]; intros i pos l m Hw Hm; [done|]. cbn [session_loop].
  apply walk_cons_inv in Hw as [[Hd ->]|(j & pos' & l' & Hd & Hw & ->)]; rewrite Hd; cbn [mbind res_bind].
  { exists m, []. rewrite app_nil_r. by split_and!. }
  pose proof Hd as (_ & _ & n & _ & _ & _ & Hn & _)%descend_Some.
  rewrite (index_Some _ _ _ Hn : get c j = _). cbn [mbind res_bind].
  assert (block_at c (j, pos') = n_block_id n) as Hb by (unfold block_at; cbn; by rewrite Hn).
  destruct (n_block_id n) as [b|] eqn:Hbn.
  - destruct (IH j pos' l' (if bool_decide (n_session_id n = Some sid)
        then mkSessionMatch (sm_nodes m ++ [j]) (length (sm_nodes m ++ [j])) pos'
        else mkSessionMatch (sm_nodes m ++ [j]) (sm_last_count m) (sm_last_pos m)) Hw)
      as (m' & vs & Hrun & Hvs & Hns & Hc).
    { case_bool_decide; cbn; rewrite length_app; cbn; lia. }
    exists m', ((j, pos') :: vs). split_and!; [done|by apply prefix_cons| |done].
    rewrite Hns, bearing_cons, Hb. case_bool_decide; cbn; by rewrite <-app_assoc.
  - destruct (is_tombstone n).
    + exists m, []. rewrite app_nil_r. split_and!; [done|apply prefix_nil|done|done].
    + destruct (IH j pos' l' m Hw Hm) as (m' & vs & Hrun & Hvs & Hns & Hc).
      exists m', ((j, pos') :: vs). split_and!; [done|by apply prefix_cons| |done].
      by rewrite Hns, bearing_cons, Hb.
Qed.

Lemma session_stage_pins now ticks h ns : forall blocks adv c,
  blocks_distinct c -> NoDup ns -> walk_room c ns ->
  (forall j, j ∈ ns -> exists n, nodes c !! j = Some n /\ is_Some (n_block_id n)) ->
  exists c' new adv', session_stage now ticks h ns blocks adv c = Done (c', (blocks ++ new, adv')) /\
    pinned c c' (omap lb_block_id new) /\ omap lb_block_id new = omap (fun j => block_at c (j, 0)) ns.
Proof.
  induction ns as [|j ns IH]; intros blocks adv c Hd Hnd Hroom Hns.
  { exists c, [], adv. rewrite app_nil_r. split_and!; [done|apply pinned_refl|done]. }
  apply NoDup_cons in Hnd as [Hj Hnd]. destruct (Hns j ltac:(left)) as (n & Hn & [b Hb]).
  cbn [session_stage]. rewrite (upd_Some _ _ _ _ Hn). cbn [mbind res_bind].
  set (c1 := set_nodes (<[j := set_last_access now n]> (nodes c)) c).
  assert (nodes c1 !! j = Some (set_last_access now n)) as Hn1
    by (apply list_lookup_insert_eq; by eapply lookup_lt_Some).
  rewrite (index_Some _ _ _ Hn1 : get c1 j = _). cbn [mbind res_bind].
  change (n_block_id (set_last_access now n)) with (n_block_id n). rewrite Hb.
  rewrite (upd_Some _ _ _ _ Hn1). cbn [mbind res_bind].
  pose proof (pinned_touch c j n now Hn) as H1. fold c1 in H1.
  assert (pinned c1 (set_nodes (<[j := hit now ticks (set_last_access now n)]> (nodes c1)) c1) [b]) as H2.
  { apply pinned_hit; [by eapply pinned_distinct|done|done|]. apply (Hroom j n); [left|done]. }
  set (c2 := set_nodes (<[j := hit now ticks (set_last_access now n)]> (nodes c1)) c1) in *.
  pose proof (pinned_trans _ _ _ [] [b] H1 H2) as H3. cbn [app] in H3.
  assert (forall x, x <> j -> nodes c2 !! x = nodes c !! x) as Hsame.
  { intros x Hx. unfold c2, c1. cbn [nodes set_nodes]. by rewrite !list_lookup_insert_ne. }
  destruct (IH (blocks ++ [mkLookupBlock (Some b) (hit_kind_of (set_last_access now n))])
    (adv || stage_advice h (block_size c2) (set_last_access now n)) c2)
    as (c' & new & adv' & Hrun & Hpin & Hids).
  - by eapply pinned_distinct.
  - done.
  - intros x nx Hx. rewrite Hsame by set_solver. apply Hroom. by right.
  - intros x Hx. rewrite Hsame by set_solver. apply Hns. by right.
  - rewrite Hrun.
    exists c', (mkLookupBlock (Some b) (hit_kind_of (set_last_access now n)) :: new), adv'.
    split_and!; [by rewrite <-app_assoc|exact (pinned_trans _ _ _ [b] _ H3 Hpin)|].
    cbn. unfold block_at at 1. cbn. rewrite Hn. cbn. rewrite Hb, Hids. f_equal.
    apply omap_pointwise. intros x. apply block_at_same_shape, (st_shape _ _ (pn_tree _ _ _ H3)).
Qed.

Lemma bearing_NoDup c vs : NoDup vs.*1 -> NoDup (bearing c vs).
Proof.
  intros Hnd. eapply sublist_NoDup; [exact Hnd|]. apply fmap_sublist, sublist_filter.
Qed.

Lemma bearing_block c vs j : j ∈ bearing c vs -> exists n, nodes c !! j = Some n /\ is_Some (n_block_id n).
Proof.
  intros ([i x] & -> & [Hb _]%list_elem_of_filter)%list_elem_of_fmap. unfold block_at in Hb. cbn in *.
  destruct (nodes c !! i) as [n|]; [eauto|by destruct Hb].
Qed.

(** So does [lookup_session_prefix_or_stage]. *)
Lemma lookup_session_prefix_pins c sid tokens h :
  wf c -> blocks_distinct c -> room c 1 ->
  exists c' o, lookup_session_prefix_or_stage sid tokens h c = Done (c', o) /\
    pinned c c' (lookup_block_ids o) /\ NoDup (lookup_block_ids o).
Proof.
  intros Hwf Hd Hroom. destruct (walk_from_root c Hwf tokens) as (l & Hw & _).
  unfold lookup_session_prefix_or_stage, root.
  destruct (session_loop_ok c sid tokens _ 0 0 l (mkSessionMatch [] 0 0) Hw ltac:(cbn; lia))
    as (m & vs & -> & Hvs & Hns & Hc). cbn [mbind res_bind].
  assert (exists c' o, Done (c, mkLookupOutcome 0 [] false) = Done (c', o) /\
    pinned c c' (lookup_block_ids o) /\ NoDup (lookup_block_ids o)) as Hnone.
  { eexists _, _. split; [done|]. split; [apply pinned_refl|constructor]. }
  case_bool_decide; [exact Hnone|]. case_bool_decide; [exact Hnone|]. clear Hnone.
  unfold tick. set (now := u64_add (clock c) 1). pose proof (pinned_clock c now) as Hcl.
  set (k := _ / block_size c). cbn [sm_nodes] in Hns. rewrite app_nil_l in Hns.
  assert (take k (sm_nodes m) `sublist_of` bearing c vs) as Hsub.
  { rewrite Hns. apply prefix_sublist. apply take_prefix_of. }
  assert (NoDup (bearing c vs)) as Hnd.
  { apply bearing_NoDup. eapply sublist_NoDup; [by eapply walk_from_root_distinct|].
    apply fmap_sublist. by apply prefix_sublist. }
  destruct (session_stage_pins now (soft_pin_keepalive_ticks c) h (take k (sm_nodes m)) [] false (set_clock now c))
    as (c' & new & adv & Hrun & Hpin & Hids).
  - by eapply pinned_distinct.
  - by eapply sublist_NoDup.
  - by apply room_walk.
  - intros j Hj. apply (bearing_block c vs). eapply elem_of_sublist; [exact Hj|exact Hsub].
  - cbn [soft_pin_keepalive_ticks set_clock]. rewrite Hrun. cbn [mbind res_bind app]. eexists _, _.
    split; [done|]. unfold lookup_block_ids. cbn [lo_blocks]. split; [exact (pinned_trans _ _ _ [] _ Hcl Hpin)|].
    rewrite Hids. change (fun j => block_at (set_clock now c) (j, 0)) with (fun j => block_at c (j, 0)).
    rewrite (omap_compose (block_at c) (fun j => (j, 0))).
    apply omap_block_at_NoDup; [done|]. rewrite <-list_fmap_compose. change (fst ∘ _) with (fun x : nat => x).
    rewrite list_fmap_id. by eapply sublist_NoDup.
Qed.
