(* ===== verification/RadixInsert.v ===== *)
(** * Radix prefix cache: insertion

    Models [insert] and [insert_with_fingerprints] of
    [infer/src/prefix_cache.rs]: the descent that retags the blocks it walks
    over, the split of a partly matching edge, and the chain of new nodes for
    the rest. The debug assertions are not modelled: the release build has
    none, and [RadixInsertProps] proves what they assert.

    The outer loop consumes at least one token a turn on a well-formed cache,
    the inner one a block, which is the fuel they are given. *)


From S2P Require Import Prelude Tier RadixTypes RadixTree.

(** ** Descending: retag the node just walked over *)
Definition retag_walked (blocks : list BlockId) (fps : list BlockFingerprint) (child_idx block_idx : nat)
    (c : RadixCache) : res (RadixCache * nat) :=
  child ← get c child_idx;
  match n_block_id child with
  | Some old_bid =>
      if bool_decide (block_idx < length blocks) then
        new_bid ← index blocks block_idx;
        let c := if bool_decide (old_bid <> new_bid)
                 then set_block_index (delete old_bid (block_index c)) c else c in
        fp ← index fps block_idx;
        c ← upd child_idx (fun n => set_fingerprint (Some fp) (set_block_id (Some new_bid) n)) c;
        Done (set_block_index (<[new_bid := child_idx]> (block_index c)) c, block_idx + 1)
      else Done (c, block_idx)
  | None => Done (c, block_idx)
  end.

(** ** Splitting an edge

    [split_edge] puts a shared node of [match_len] tokens between [node_idx]
    and [child_idx]; it returns the shared node's index. *)
Definition split_edge (now : N) (node_idx child_idx match_len : nat) (next_token : Token)
    (c : RadixCache) : res (RadixCache * nat) :=
  child ← get c child_idx;
  let old_block := n_block_id child in
  let old_ref_count := n_ref_count child in
  let old_children := n_children child in
  let shared_tokens := take match_len (n_tokens child) in
  let old_suffix := drop match_len (n_tokens child) in
  c ← upd child_idx (fun n => set_tokens [] (set_children ∅ n)) c;
  '(c, shared_idx) ← alloc_node (set_ref_count old_ref_count (Node_new shared_tokens None now)) c;
  c ← upd child_idx (fun n => set_children old_children (set_block_id old_block (set_tokens old_suffix n))) c;
  child ← get c child_idx;
  first_old ← index (n_tokens child) 0;
  c ← upd shared_idx (fun n => set_children (<[first_old := child_idx]> (n_children n)) n) c;
  c ← upd node_idx (fun n => set_children (<[next_token := shared_idx]> (n_children n)) n) c;
  Done (c, shared_idx).

(** A new child of [parent] with edge [toks]. *)
Definition attach_node (now : N) (parent : nat) (toks : list Token) (block_id : option BlockId)
    (fp : option BlockFingerprint) (c : RadixCache) : res (RadixCache * nat) :=
  first_tok ← index toks 0;
  '(c, new_idx) ← alloc_node (set_fingerprint fp (Node_new toks block_id now)) c;
  let c := match block_id with
           | Some bid => set_block_index (<[bid := new_idx]> (block_index c)) c
           | None => c
           end in
  c ← upd parent (fun n => set_children (<[first_tok := new_idx]> (n_children n)) n) c;
  Done (c, new_idx).

(** The block of the caller under the shared node, when the tokens reach its
    boundary. *)
Definition attach_after_split (now : N) (tokens : list Token) (blocks : list BlockId)
    (fps : list BlockFingerprint) (shared_idx start block_idx : nat) (c : RadixCache)
    : res (RadixCache * option (nat * nat)) :=
  match full_block_end c block_idx (length tokens) with
  | Some block_end =>
      toks ← slice tokens start block_end;
      new_bid ← index blocks block_idx;
      new_fp ← index fps block_idx;
      '(c, new_idx) ← attach_node now shared_idx toks (Some new_bid) (Some new_fp) c;
      Done (c, Some (new_idx, block_end))
  | None => Done (c, None)
  end.

(** ** The rest of the tokens as a chain of new nodes *)
Fixpoint insert_chain (fuel : nat) (now : N) (tokens : list Token) (blocks : list BlockId)
    (fps : list BlockFingerprint) (node_idx pos block_idx : nat) (c : RadixCache)
    : res (RadixCache * nat) :=
  match fuel with
  | 0 => OutOfFuel
  | S fuel =>
      if bool_decide (pos < length tokens) && bool_decide (block_idx < length blocks) then
        let next_boundary := next_block_boundary c block_idx in
        let end_ := truncated_block_end c block_idx (length tokens) in
        edge_tokens ← slice tokens pos end_;
        if bool_decide (end_ = next_boundary) then
          bid ← index blocks block_idx;
          fp ← index fps block_idx;
          '(c, new_idx) ← attach_node now node_idx edge_tokens (Some bid) (Some fp) c;
          insert_chain fuel now tokens blocks fps new_idx end_ (block_idx + 1) c
        else
          '(c, _) ← attach_node now node_idx edge_tokens None None c;
          Done (c, block_idx)
      else Done (c, block_idx)
  end.

(** ** The descent *)
Fixpoint insert_loop (fuel : nat) (now : N) (tokens : list Token) (blocks : list BlockId)
    (fps : list BlockFingerprint) (node_idx pos block_idx : nat) (c : RadixCache)
    : res (RadixCache * nat) :=
  match fuel with
  | 0 => OutOfFuel
  | S fuel =>
      if bool_decide (pos < length tokens) && bool_decide (block_idx < length blocks) then
        next_token ← index tokens pos;
        node ← get c node_idx;
        match n_children node !! next_token with
        | Some child_idx =>
            '(match_len, edge_len) ← child_edge_match c child_idx (drop pos tokens);
            if bool_decide (match_len = edge_len) then
              c ← upd child_idx (set_last_access now) c;
              '(c, block_idx) ← retag_walked blocks fps child_idx block_idx c;
              insert_loop fuel now tokens blocks fps child_idx (pos + edge_len) block_idx c
            else
              '(c, shared_idx) ← split_edge now node_idx child_idx match_len next_token c;
              '(c, o) ← attach_after_split now tokens blocks fps shared_idx (pos + match_len) block_idx c;
              match o with
              | Some (new_idx, block_end) =>
                  insert_loop fuel now tokens blocks fps new_idx block_end (block_idx + 1) c
              | None => Done (c, block_idx)
              end
        | None => insert_chain (S (length blocks)) now tokens blocks fps node_idx pos block_idx c
        end
      else Done (c, block_idx)
  end.

Definition insert_with_fingerprints (tokens : list Token) (blocks : list BlockId)
    (fps : list BlockFingerprint) (c : RadixCache) : res (RadixCache * nat) :=
  if bool_decide (length blocks <> length fps) then Panics
  else if bool_decide (blocks = [] \/ tokens = []) then Done (c, 0)
  else
    let total_tokens := length blocks * block_size c in
    let tokens := take (Nat.min (length tokens) total_tokens) tokens in
    let '(c, now) := tick c in
    '(c, block_idx) ← insert_loop (S (length tokens)) now tokens blocks fps root 0 0 c;
    Done (c, block_idx * block_size c).

Definition insert (tokens : list Token) (blocks : list BlockId) (c : RadixCache) : res (RadixCache * nat) :=
  insert_with_fingerprints tokens blocks (replicate (length blocks) zero_fingerprint) c.

(** ** What the primitives of an insertion do to the tree

    The three changes [insert_with_fingerprints] makes to a well-formed tree:
    retag a node, attach a child, split an edge. Each keeps the tree
    well-formed, and its effect on the map from prefixes to blocks is stated
    exactly. *)


(** ** Edges of a well-formed tree *)
Section edges.
Context (c : RadixCache) (Hwf : wf c).

(** [i] is the child of [p], at path [q], under [k]. *)
Definition edge (q : list Token) (p : nat) (k : Token) (i : nat) (m : Node) : Prop :=
  at_path c q p /\ nodes c !! i = Some m /\
  exists n, nodes c !! p = Some n /\ n_children n !! k = Some i.

Lemma edge_path q p k i m : edge q p k i m -> at_path c (q ++ n_tokens m) i.
Proof. intros (Hq & Hm & n & Hn & Hk). by eapply at_child. Qed.

Lemma edge_is_ok q p k i m : edge q p k i m -> edge_ok c (length q) k m.
Proof using Hwf. intros (Hq & Hm & n & Hn & Hk). by eapply at_path_extend. Qed.

Lemma edge_exists q p n k i :
  at_path c q p -> nodes c !! p = Some n -> n_children n !! k = Some i -> exists m, edge q p k i m.
Proof using Hwf.
  intros Hq Hn Hk. destruct (wf_edge _ Hwf q p n k i Hq Hn Hk) as (m & Hm & _). exists m.
  unfold edge. eauto.
Qed.

Lemma edge_parent q q' p p' k k' i m m' :
  edge q p k i m -> edge q' p' k' i m' -> q = q' /\ p = p' /\ k = k'.
Proof using Hwf.
  intros H H'. pose proof (wf_unique _ Hwf _ _ _ (edge_path _ _ _ _ _ H) (edge_path _ _ _ _ _ H')) as Heq.
  pose proof (edge_is_ok _ _ _ _ _ H) as (Hk & _). pose proof (edge_is_ok _ _ _ _ _ H') as (Hk' & _).
  destruct H as (Hq & Hm & _), H' as (Hq' & Hm' & _). simplify_eq.
  apply app_inv_tail in Heq as <-. split_and!; [done|by eapply at_path_det|done].
Qed.

Lemma edge_longer q p k i m : edge q p k i m -> length q < length (q ++ n_tokens m).
Proof using Hwf.
  intros (Hk & _)%edge_is_ok. rewrite length_app. destruct (n_tokens m); [done|cbn; lia].
Qed.

Lemma edge_not_root q p k i m : edge q p k i m -> i <> 0.
Proof using Hwf.
  intros H ->. pose proof (at_path_root_inv c Hwf _ (edge_path _ _ _ _ _ H)) as Heq.
  apply edge_longer in H. rewrite Heq in H. cbn in H. lia.
Qed.

Lemma edge_ne q p k i m : edge q p k i m -> p <> i.
Proof using Hwf.
  intros H ->. pose proof (edge_longer _ _ _ _ _ H) as Hlt.
  destruct H as (Hq & Hm & n & Hn & Hk).
  pose proof (wf_unique _ Hwf _ _ _ Hq (at_child c _ _ _ _ _ _ Hq Hn Hk Hm)) as Heq.
  rewrite <-Heq in Hlt. lia.
Qed.
End edges.

(** ** Retagging *)

(** Tokens and children decide the paths. *)
Definition node_links (n : Node) : list Token * gmap Token nat := (n_tokens n, n_children n).

Lemma at_path_same_links c c' q i :
  (forall j, node_links <$> nodes c' !! j = node_links <$> nodes c !! j) ->
  at_path c q i -> at_path c' q i.
Proof.
  intros Hl. unfold node_links in Hl. induction 1 as [|q p n k i m _ IH Hp Hk Hi]; [constructor|].
  pose proof (Hl p) as Hlp. pose proof (Hl i) as Hli. rewrite Hp in Hlp. rewrite Hi in Hli.
  destruct (nodes c' !! p) as [n'|] eqn:Hp'; [|done]. destruct (nodes c' !! i) as [m'|] eqn:Hi'; [|done].
  cbn in *. injection Hlp as _ Hch. injection Hli as Htok _. rewrite <-Htok.
  eapply at_child; [exact IH|exact Hp'|by rewrite Hch|done].
Qed.

Section retag.
Context (c : RadixCache) (Hwf : wf c) (i : nat) (q : list Token) (m m' : Node) (b : BlockId).
Context (Hq : at_path c q i) (Hm : nodes c !! i = Some m).
Context (Hlinks : node_links m' = node_links m) (Hb : n_block_id m' = Some b).
Context (Hold : is_Some (n_block_id m)).
Context (index' : gmap BlockId nat).
Context (Hindex : forall x j, index' !! x = Some j ->
  (x = b /\ j = i) \/ (x <> b /\ n_block_id m <> Some x /\ block_index c !! x = Some j)).

Definition retagged : RadixCache := set_block_index index' (set_nodes (<[i := m']> (nodes c)) c).

Lemma retagged_lookup j :
  nodes retagged !! j = if decide (j = i) then Some m' else nodes c !! j.
Proof using Hm.
  cbn. case_decide as Hj; [subst|by rewrite list_lookup_insert_ne].
  apply list_lookup_insert_eq. by eapply lookup_lt_Some.
Qed.

Lemma retagged_path x j : at_path retagged x j <-> at_path c x j.
Proof using Hm Hlinks.
  split; apply at_path_same_links; intros k; rewrite retagged_lookup; case_decide; subst; try done;
    rewrite Hm; cbn; by rewrite Hlinks.
Qed.

Lemma retagged_wf : wf retagged.
Proof using Hwf Hq Hm Hlinks Hb Hold Hindex.
  pose proof (f_equal fst Hlinks : n_tokens m' = n_tokens m) as Htok.
  pose proof (f_equal snd Hlinks : n_children m' = n_children m) as Hch.
  pose proof Hwf as [H1 H2 H3 H4 H5 H6 H7]. split.
  - done.
  - destruct H2 as (r & Hr & ? & Hnone). exists r. rewrite retagged_lookup. case_decide; [|done].
    subst i. simplify_eq. rewrite Hnone in Hold. by destruct Hold.
  - intros x p n k j Hx%retagged_path Hn Hk. rewrite retagged_lookup in Hn.
    assert (exists n0, nodes c !! p = Some n0 /\ n_children n0 = n_children n) as (n0 & Hn0 & Hch0).
    { case_decide; [|eauto]. simplify_eq. by exists m. }
    clear Hn. rewrite <-Hch0 in Hk. destruct (H3 x p n0 k j Hx Hn0 Hk) as (mj & Hmj & Hok).
    rewrite retagged_lookup. case_decide; [|eauto]. subst j. simplify_eq. exists m'. split; [done|].
    unfold edge_ok in *. cbn. rewrite Htok. destruct Hok as (? & ? & Hiff). split_and!; [done|done|].
    rewrite Hb, <-Hiff. split; [done|eauto].
  - intros x x' j ?%retagged_path ?%retagged_path. by eapply H4.
  - done.
  - intros j Hj. destruct (H6 j Hj) as [(n & Hn & Hnone) Hno]. split.
    + rewrite retagged_lookup. case_decide; [|eauto]. subst. by destruct (Hno q).
    + intros x ?%retagged_path. by eapply Hno.
  - intros x j Hx. rewrite retagged_lookup. destruct (Hindex x j Hx) as [[-> ->]|(Hxb & Hxm & Hx')].
    + rewrite decide_True by done. eauto.
    + destruct (H7 x j Hx') as (n & Hn & Hbn). case_decide; [|eauto]. subst. simplify_eq.
Qed.

Lemma retagged_cached x y :
  cached retagged x y <-> if decide (x = q) then y = b else cached c x y.
Proof using Hwf Hq Hm Hlinks Hb Hold.
  unfold cached. setoid_rewrite retagged_path. setoid_rewrite retagged_lookup. split.
  - intros (j & n & Hj & Hn & Hy). destruct (decide (j = i)) as [->|Hji].
    + simplify_eq. rewrite (wf_unique _ Hwf _ _ _ Hj Hq), decide_True by done. congruence.
    + rewrite decide_False; [by exists j, n|]. intros ->. apply Hji. by eapply at_path_det.
  - case_decide as Hx.
    + intros ->. exists i, m'. rewrite decide_True by done. by subst.
    + intros (j & n & Hj & Hn & Hy). exists j, n. rewrite decide_False; [done|].
      intros ->. apply Hx. by eapply wf_unique.
Qed.
Lemma retagged_no_orphans : no_orphans c -> no_orphans retagged.
Proof using Hm Hlinks Hold.
  intros Hreach j (n & Hn & Hb'). destruct (Hreach j) as [x Hx]; [|exists x; by apply retagged_path].
  rewrite retagged_lookup in Hn. case_decide; [subst; by exists m|by exists n].
Qed.
End retag.

(** ** Allocation *)

(** A slot nothing reachable refers to. *)
Record fresh_slot (c : RadixCache) (h : nat) : Prop := mk_fresh_slot {
  fs_root : h <> 0;
  fs_path : forall q, ~ at_path c q h;
  fs_block : forall n, nodes c !! h = Some n -> n_block_id n = None;
}.

(** [c'] is [c] with [n] in slot [h]. *)
Record allocated (c : RadixCache) (n : Node) (c' : RadixCache) (h : nat) : Prop := mk_allocated {
  al_new : nodes c' !! h = Some n;
  al_old : forall j, j <> h -> nodes c' !! j = nodes c !! j;
  al_free_nodup : NoDup (free_nodes c');
  al_free : forall j, j ∈ free_nodes c' -> j ∈ free_nodes c /\ j <> h;
  al_rest : c' = set_free_nodes (free_nodes c') (set_nodes (nodes c') c);
}.

Lemma fresh_slot_no_edge c h q p k m : fresh_slot c h -> ~ edge c q p k h m.
Proof. intros Hh He. by eapply (fs_path _ _ Hh), edge_path. Qed.

Lemma upd_Some' c i n0 f : nodes c !! i = Some n0 -> upd i f c = Done (set_nodes (<[i := f n0]> (nodes c)) c).
Proof. intros Hn. unfold upd, get, index. by rewrite Hn. Qed.

(** The slot is fresh in the well-formed cache [c], of which [c1] has the free
    slots and the number of nodes. *)
Lemma alloc_node_ok c c1 n :
  wf c -> free_nodes c1 = free_nodes c -> length (nodes c1) = length (nodes c) ->
  exists c' h, alloc_node n c1 = Done (c', h) /\ fresh_slot c h /\ allocated c1 n c' h.
Proof.
  intros Hwf Hfr Hlen. unfold alloc_node. rewrite Hfr.
  destruct (vec_pop (free_nodes c)) as [[h rest]|] eqn:Hpop.
  - pose proof (vec_pop_Some _ _ _ Hpop) as Hfree. pose proof (wf_free_nodup _ Hwf) as Hnd.
    rewrite Hfree in Hnd. apply NoDup_app in Hnd as (Hnd & Hdis & _).
    destruct (wf_free _ Hwf h) as [(n0 & Hn0 & Hb0) Hno]; [rewrite Hfree; set_solver|].
    assert (h < length (nodes c1)) as Hh1 by (rewrite Hlen; by eapply lookup_lt_Some).
    destruct (lookup_lt_is_Some_2 _ _ Hh1) as [n1 Hn1].
    rewrite (upd_Some' _ _ n1) by done. cbn. eexists _, h. split; [done|]. split.
    + split; [intros ->; eapply Hno; constructor|done|]. intros n2 Hn2. by simplify_eq.
    + split; cbn; [by apply list_lookup_insert_eq| |done| |done].
      * intros j Hj. by apply list_lookup_insert_ne.
      * intros j Hj. rewrite Hfr, Hfree. split; [set_solver|]. intros ->. apply (Hdis h Hj). left.
  - pose proof (vec_pop_None _ Hpop) as Hfree. eexists _, (length (nodes c1)). split; [done|].
    assert (nodes c !! length (nodes c1) = None) as Hnone by (apply lookup_ge_None; lia).
    split.
    + split.
      * destruct (wf_root _ Hwf) as (r & Hr & _). apply lookup_lt_Some in Hr. lia.
      * intros q Hq. destruct (at_path_node c Hwf q _ Hq) as [n0 Hn0]. congruence.
      * intros n0. by rewrite Hnone.
    + split; cbn; [| |rewrite Hfr; apply Hwf| |done].
      * by rewrite lookup_app_r, Nat.sub_diag by lia.
      * intros j Hj. destruct (decide (j < length (nodes c1))).
        { by rewrite lookup_app_l. }
        rewrite !(proj2 (lookup_ge_None _ _)); [done|lia|rewrite length_app; cbn; lia].
      * rewrite Hfr, Hfree. by intros j ?%not_elem_of_nil.
Qed.

(** ** Attaching a child *)
Section attach.
Context (c : RadixCache) (Hwf : wf c) (p h : nat) (pp : list Token) (np np' m : Node) (k : Token).
Context (Hp : at_path c pp p) (Hnp : nodes c !! p = Some np) (Hk : n_children np !! k = None).
Context (Hh : fresh_slot c h) (Hok : edge_ok c (length pp) k m) (Hm : n_children m = ∅).
Context (Hnp' : node_shape np' = (n_tokens np, n_block_id np, <[k := h]> (n_children np))).
Context (c' : RadixCache) (Hsize : block_size c' = block_size c).
Context (Hnodes : forall j, nodes c' !! j =
  if decide (j = h) then Some m else if decide (j = p) then Some np' else nodes c !! j).
Context (Hfree : NoDup (free_nodes c') /\ forall j, j ∈ free_nodes c' -> j ∈ free_nodes c /\ j <> h).
Context (Hindex : forall x j, block_index c' !! x = Some j ->
  (n_block_id m = Some x /\ j = h) \/ block_index c !! x = Some j).

Lemma attach_ne : p <> h.
Proof using Hp Hh. intros Heq. apply (fs_path _ _ Hh pp). by rewrite <-Heq. Qed.

Lemma attach_old j n : nodes c !! j = Some n -> j <> h ->
  exists n', nodes c' !! j = Some n' /\ n_tokens n' = n_tokens n /\ n_block_id n' = n_block_id n /\
    (forall k', k' <> k \/ j <> p -> n_children n' !! k' = n_children n !! k').
Proof using Hnp Hnodes Hnp'.
  intros Hn Hj. rewrite Hnodes, decide_False by done. case_decide as Hjp.
  - subst. simplify_eq. injection Hnp' as Ht Hb Hch. exists np'. split_and!; [done..|].
    intros k' [Hk'|?]; [|done]. by rewrite Hch, lookup_insert_ne.
  - exists n. split_and!; done.
Qed.

Lemma attach_path x j : at_path c' x j <-> at_path c x j \/ (x = pp ++ n_tokens m /\ j = h).
Proof using All.
  pose proof attach_ne as Hne.
  assert (forall x j, at_path c x j -> at_path c' x j) as Hup.
  { clear x j. induction 1 as [|x q n k' i mi Hq IH Hn Hk' Hi]; [constructor|].
    assert (q <> h) as Hqh by (intros ->; by eapply (fs_path _ _ Hh)).
    assert (i <> h) as Hih by (intros ->; eapply (fs_path _ _ Hh); by eapply at_child).
    destruct (attach_old q n Hn Hqh) as (n' & Hn' & _ & _ & Hch).
    destruct (attach_old i mi Hi Hih) as (mi' & Hi' & <- & _ & _).
    eapply at_child; [done|done| |done]. rewrite Hch; [done|].
    destruct (decide (q = p)); [left|by right]. subst. intros ->. congruence. }
  split.
  - induction 1 as [|x q n k' i mi Hq IH Hn Hk' Hi]; [left; constructor|].
    rewrite Hnodes in Hn. destruct IH as [IH|[-> ->]].
    2: { rewrite decide_True in Hn by done. simplify_eq. by rewrite Hm, lookup_empty in Hk'. }
    rewrite decide_False in Hn by (intros ->; by eapply (fs_path _ _ Hh)).
    rewrite Hnodes in Hi. destruct (decide (i = h)) as [->|Hih].
    { simplify_eq. right. split; [|done]. destruct (decide (q = p)) as [->|Hqp].
      - by rewrite (wf_unique _ Hwf _ _ _ IH Hp).
      - destruct (edge_exists c Hwf x q n k' h IH Hn Hk') as [? ?]. by edestruct fresh_slot_no_edge. }
    left. assert (exists n0, nodes c !! q = Some n0 /\ n_children n0 !! k' = Some i) as (n0 & Hn0 & Hk0).
    { clear Hi. destruct (decide (q = p)) as [->|Hqp]; [|eauto]. simplify_eq. exists np. split; [done|].
      injection Hnp' as _ _ Hch. rewrite Hch in Hk'. by apply lookup_insert_Some in Hk' as [[_ <-]|[_ ?]]. }
    destruct (edge_exists c Hwf x q n0 k' i IH Hn0 Hk0) as (m0 & _ & Hm0 & _).
    destruct (attach_old i m0 Hm0 Hih) as (m1 & Hm1 & Htok & _). rewrite Hnodes, decide_False in Hm1 by done.
    rewrite Hm1 in Hi. simplify_eq. rewrite Htok. by eapply at_child.
  - intros [?|[-> ->]]; [by apply Hup|]. eapply (at_child c' pp p np' k h m).
    + by apply Hup.
    + by rewrite Hnodes, decide_False, decide_True.
    + injection Hnp' as _ _ ->. apply lookup_insert_eq.
    + by rewrite Hnodes, decide_True.
Qed.

Lemma attach_wf : wf c'.
Proof using All.
  pose proof Hwf as [H1 H2 H3 H4 H5 H6 H7]. split.
  - congruence.
  - destruct H2 as (r & Hr & ? & ?). destruct (attach_old 0 r Hr) as (r' & ? & ? & ? & _).
    { intros <-. by apply (fs_root _ _ Hh). }
    exists r'. split_and!; congruence.
  - intros x q n k' i [Hx|[-> ->]]%attach_path Hn Hk'; rewrite Hnodes in Hn.
    2: { rewrite decide_True in Hn by done. simplify_eq. by rewrite Hm, lookup_empty in Hk'. }
    rewrite decide_False in Hn by (intros ->; by eapply (fs_path _ _ Hh)).
    assert ((q = p /\ k' = k /\ i = h) \/ exists n0, nodes c !! q = Some n0 /\ n_children n0 !! k' = Some i)
      as [(-> & -> & ->)|(n0 & Hn0 & Hk0)].
    { case_decide; [|eauto]. simplify_eq. injection Hnp' as _ _ Hch. rewrite Hch in Hk'.
      apply lookup_insert_Some in Hk' as [[? ?]|[_ ?]]; [by left|right; eauto]. }
    + exists m. rewrite Hnodes, decide_True by done. split; [done|].
      rewrite (H4 x pp p) by done. unfold edge_ok in *. by rewrite Hsize.
    + destruct (edge_exists c Hwf x q n0 k' i Hx Hn0 Hk0) as [m0 He].
      assert (i <> h) as Hih by (intros ->; by eapply fresh_slot_no_edge).
      pose proof (edge_is_ok c Hwf _ _ _ _ _ He) as Hok0. destruct He as (_ & Hm0 & _).
      destruct (attach_old i m0 Hm0 Hih) as (m1 & Hm1 & Htok & Hb & _). exists m1. split; [done|].
      unfold edge_ok in *. by rewrite Htok, Hb, Hsize.
  - intros x x' j [Hx|[-> ->]]%attach_path [Hx'|[-> Hj]]%attach_path; subst;
      [by eapply H4|by destruct (fs_path _ _ Hh x)|by destruct (fs_path _ _ Hh x')|done].
  - apply Hfree.
  - intros j [Hj Hjh]%Hfree. destruct (H6 j Hj) as [(n & Hn & Hb) Hno]. split.
    + destruct (attach_old j n Hn Hjh) as (n' & ? & _ & ? & _). exists n'. split; congruence.
    + intros x [Hx|[_ ?]]%attach_path; [by eapply Hno|done].
  - intros x j [[Hb ->]|Hx]%Hindex; [exists m; by rewrite Hnodes, decide_True|].
    destruct (H7 x j Hx) as (n & Hn & Hb).
    assert (j <> h) as Hjh by (intros ->; pose proof (fs_block _ _ Hh n Hn); congruence).
    destruct (attach_old j n Hn Hjh) as (n' & ? & _ & ? & _). exists n'. split; congruence.
Qed.

Lemma attach_cached x y :
  cached c' x y <-> (x = pp ++ n_tokens m /\ n_block_id m = Some y) \/ cached c x y.
Proof using All.
  split.
  - intros (j & n & [Hx|[-> ->]]%attach_path & Hn & Hy).
    + right. assert (j <> h) as Hjh by (intros ->; by eapply (fs_path _ _ Hh)).
      destruct (at_path_node c Hwf _ _ Hx) as [n0 Hn0].
      destruct (attach_old j n0 Hn0 Hjh) as (n1 & Hn1 & _ & Hb & _).
      exists j, n0. split_and!; [done|done|congruence].
    + left. rewrite Hnodes, decide_True in Hn by done. by simplify_eq.
  - intros [[-> Hy]|(j & n & Hx & Hn & Hy)].
    + exists h, m. split_and!; [apply attach_path; by right|by rewrite Hnodes, decide_True|done].
    + assert (j <> h) as Hjh by (intros ->; by eapply (fs_path _ _ Hh)).
      destruct (attach_old j n Hn Hjh) as (n1 & Hn1 & _ & Hb & _).
      exists j, n1. split_and!; [apply attach_path; by left|done|congruence].
Qed.
Lemma attach_no_orphans : no_orphans c -> no_orphans c'.
Proof using All.
  intros Hreach j (n & Hn & Hb). rewrite Hnodes in Hn. destruct (decide (j = h)) as [->|Hjh].
  { eexists. apply attach_path. by right. }
  assert (has_block c j) as Hold.
  { destruct (decide (j = p)) as [->|]; [|by exists n]. exists np. split; [done|].
    pose proof Hnp' as [= _ Heq _]. simplify_eq. by rewrite <-Heq. }
  destruct (Hreach j Hold) as [x Hx]. exists x. apply attach_path. by left.
Qed.
End attach.

(** ** Splitting an edge *)
Section split.
Context (c : RadixCache) (Hwf : wf c) (p i h : nat) (pp : list Token) (np mi np' mi' sh : Node).
Context (k u0 : Token) (s u : list Token).
Context (Hp : at_path c pp p) (Hnp : nodes c !! p = Some np) (Hk : n_children np !! k = Some i).
Context (Hmi : nodes c !! i = Some mi) (Htok : n_tokens mi = s ++ u) (Hs : s <> []) (Hu : head u = Some u0).
Context (Hh : fresh_slot c h).
Context (Hnp' : node_shape np' = (n_tokens np, n_block_id np, <[k := h]> (n_children np))).
Context (Hmi' : node_shape mi' = (u, n_block_id mi, n_children mi)).
Context (Hsh : node_shape sh = (s, None, {[u0 := i]})).
Context (c' : RadixCache) (Hsize : block_size c' = block_size c).
Context (Hnodes : forall j, nodes c' !! j =
  if decide (j = h) then Some sh else if decide (j = i) then Some mi'
  else if decide (j = p) then Some np' else nodes c !! j).
Context (Hfree : NoDup (free_nodes c') /\ forall j, j ∈ free_nodes c' -> j ∈ free_nodes c /\ j <> h).
Context (Hindex : block_index c' = block_index c).

Lemma split_edge_in : edge c pp p k i mi.
Proof using Hp Hnp Hk Hmi. split; [done|]. split; [done|]. by exists np. Qed.

Lemma split_distinct : p <> i /\ p <> h /\ i <> h.
Proof using Hwf Hp Hnp Hk Hmi Hh.
  split_and!; [by eapply edge_ne, split_edge_in| |]; intros Heq.
  - apply (fs_path _ _ Hh pp). by rewrite <-Heq.
  - eapply (fs_path _ _ Hh). rewrite <-Heq. eapply edge_path, split_edge_in.
Qed.

(** What is left of an old node. *)
Lemma split_old j n : nodes c !! j = Some n -> j <> h ->
  exists n', nodes c' !! j = Some n' /\ n_block_id n' = n_block_id n /\
    (n_tokens n' = if decide (j = i) then u else n_tokens n) /\
    (n_children n' = if decide (j = p) then <[k := h]> (n_children n) else n_children n).
Proof using All.
  destruct split_distinct as (Hpi & _ & _).
  intros Hn Hj. rewrite Hnodes, decide_False by done.
  pose proof Hmi' as [= Ht1 Hb1 Hc1]. pose proof Hnp' as [= Ht2 Hb2 Hc2].
  destruct (decide (j = i)) as [->|Hji].
  - exists mi'. rewrite decide_False by done. simplify_eq. split_and!; congruence.
  - destruct (decide (j = p)) as [->|Hjp]; [|by exists n]. exists np'. simplify_eq. split_and!; congruence.
Qed.

(** Only the edge split leads to its end. *)
Lemma split_parent x q k' m : edge c x q k' i m -> x = pp /\ q = p /\ k' = k.
Proof using Hwf Hp Hnp Hk Hmi. intros He. eapply edge_parent; [done|exact He|exact split_edge_in]. Qed.

Lemma split_path_up x j : at_path c x j -> at_path c' x j.
Proof using All.
  destruct split_distinct as (Hpi & Hph & Hih).
  induction 1 as [|x q n k' j mj Hq IH Hn Hk' Hj]; [constructor|].
  assert (edge c x q k' j mj) as He by (unfold edge; eauto).
  assert (q <> h) as Hqh by (intros Heq; subst q; by eapply (fs_path _ _ Hh)).
  assert (j <> h) as Hjh by (intros Heq; subst j; by eapply fresh_slot_no_edge).
  destruct (split_old q n Hn Hqh) as (n' & Hn' & _ & _ & Hch).
  destruct (split_old j mj Hj Hjh) as (mj' & Hj' & _ & Ht & _).
  destruct (decide (j = i)) as [Heq|Hji].
  - subst j. destruct (split_parent _ _ _ _ He) as (-> & -> & ->). simplify_eq.
    rewrite decide_True in Hch by done.
    pose proof Hsh as [= Hs1 Hs2 Hs3]. rewrite Htok, app_assoc, <-Hs1.
    assert (nodes c' !! h = Some sh) as Hsh' by (by rewrite Hnodes, decide_True).
    eapply at_child; [|exact Hsh'|rewrite Hs3; apply lookup_insert_eq|exact Hj'].
    eapply at_child; [exact IH|exact Hn'| |exact Hsh']. rewrite Hch. apply lookup_insert_eq.
  - rewrite <-Ht. eapply at_child; [exact IH|exact Hn'| |exact Hj'].
    rewrite Hch. destruct (decide (q = p)) as [->|]; [|done].
    rewrite lookup_insert_ne; [done|]. intros ->. simplify_eq.
Qed.

(** An edge of the new tree is the new node's, leads to the new node, or is
    an old one. *)
Lemma split_edge_cases x q n k' j :
  at_path c x q -> nodes c' !! q = Some n -> n_children n !! k' = Some j ->
  (x = pp /\ q = p /\ k' = k /\ j = h) \/
  (j <> h /\ j <> i /\ exists m m', edge c x q k' j m /\ nodes c' !! j = Some m' /\
     n_tokens m' = n_tokens m /\ n_block_id m' = n_block_id m).
Proof using All.
  destruct split_distinct as (Hpi & Hph & Hih). intros Hx Hn Hk'.
  assert (q <> h) as Hqh by (intros Heq; subst q; by eapply (fs_path _ _ Hh)).
  destruct (at_path_node c Hwf _ _ Hx) as [n0 Hn0].
  destruct (split_old q n0 Hn0 Hqh) as (n' & Hn' & _ & _ & Hch). rewrite Hn' in Hn. simplify_eq.
  rewrite Hch in Hk'.
  assert ((q = p /\ k' = k /\ j = h) \/ ((q = p -> k' <> k) /\ n_children n0 !! k' = Some j)) as [(-> & -> & ->)|[Hkk Hk0]].
  { destruct (decide (q = p)); [|by right]. apply lookup_insert_Some in Hk' as [[? ?]|[? ?]]; [by left|right].
    split; [by intros _ ->|done]. }
  { left. split_and!; [by eapply wf_unique|done..]. }
  right. destruct (edge_exists c Hwf x q n0 k' j Hx Hn0 Hk0) as [m He].
  assert (j <> h) as Hjh by (intros Heq; subst j; by eapply fresh_slot_no_edge).
  assert (j <> i) as Hji.
  { intros Heq. subst j. destruct (split_parent _ _ _ _ He) as (_ & ? & ?). by apply Hkk. }
  destruct (split_old j m) as (m' & Hm' & Hb & Ht & _); [apply He|done|].
  rewrite decide_False in Ht by done. split_and!; [done|done|]. exists m, m'. split_and!; done.
Qed.

Lemma split_path x j : at_path c' x j <-> at_path c x j \/ (x = pp ++ s /\ j = h).
Proof using All.
  pose proof Hsh as [= Hs1 Hs2 Hs3]. pose proof Hmi' as [= Hm1 Hm2 Hm3].
  assert (nodes c' !! h = Some sh) as Hsh' by (by rewrite Hnodes, decide_True).
  destruct split_distinct as (Hpi & Hph & Hih).
  assert (nodes c' !! i = Some mi') as Hmi'' by (by rewrite Hnodes, decide_False, decide_True).
  split.
  - induction 1 as [|x q n k' j mj Hq IH Hn Hk' Hj]; [left; constructor|].
    destruct IH as [IH|[-> ->]].
    + destruct (split_edge_cases x q n k' j IH Hn Hk') as [(-> & -> & -> & ->)|(? & ? & m & m' & He & Hm' & Ht & _)].
      * right. rewrite Hsh' in Hj. simplify_eq. done.
      * left. rewrite Hm' in Hj. simplify_eq. rewrite Ht. by eapply edge_path.
    + rewrite Hsh' in Hn. simplify_eq. rewrite Hs3 in Hk'. apply lookup_singleton_Some in Hk' as [_ <-].
      left. rewrite Hmi'' in Hj. simplify_eq. rewrite <-app_assoc, <-Htok. eapply edge_path, split_edge_in.
  - intros [?|[-> ->]]; [by apply split_path_up|].
    destruct (split_old p np Hnp Hph) as (n' & Hn' & _ & _ & Hch). rewrite decide_True in Hch by done.
    rewrite <-Hs1. eapply at_child; [by apply split_path_up|exact Hn'| |exact Hsh'].
    rewrite Hch. apply lookup_insert_eq.
Qed.

Lemma split_edges_ok :
  edge_ok c' (length pp) k sh /\ edge_ok c' (length (pp ++ s)) u0 mi'.
Proof using All.
  pose proof Hsh as [= Hs1 Hs2 Hs3]. pose proof Hmi' as [= Hm1 Hm2 Hm3].
  destruct (edge_is_ok c Hwf _ _ _ _ _ split_edge_in) as (Hhd & Hcross & Hblk).
  pose proof (wf_block_size _ Hwf) as Hbs.
  unfold edge_ok. rewrite Hsize, Hs1, Hs2, Hm1, Hm2, length_app. rewrite Htok, length_app in Hcross, Hblk.
  rewrite Htok in Hhd.
  assert (0 < length s) by (destruct s; [done|cbn; lia]).
  assert (0 < length u) by (destruct u; [done|cbn; lia]).
  assert ((length pp / block_size c + 1) * block_size c <= ((length pp + length s) / block_size c + 1) * block_size c).
  { apply Nat.mul_le_mono_r. apply Nat.add_le_mono_r, Nat.Div0.div_le_mono. lia. }
  split; split_and!; [by destruct s|lia| |done|lia|by rewrite <-Nat.add_assoc].
  split; [by intros []|]. intros Hdiv. exfalso.
  eapply (not_aligned_inside (block_size c) Hbs (length pp) (length pp + length s)); [lia|lia|done].
Qed.

Lemma split_wf : wf c'.
Proof using All.
  destruct split_edges_ok as [Hok1 Hok2]. destruct split_distinct as (Hpi & Hph & Hih).
  assert (nodes c' !! h = Some sh) as Hsh' by (by rewrite Hnodes, decide_True).
  assert (nodes c' !! i = Some mi') as Hmi'' by (by rewrite Hnodes, decide_False, decide_True).
  pose proof Hwf as [H1 H2 H3 H4 H5 H6 H7]. split.
  - congruence.
  - destruct H2 as (r & Hr & ? & ?). destruct (split_old 0 r Hr) as (r' & ? & ? & Ht & _).
    { intros <-. by apply (fs_root _ _ Hh). }
    rewrite decide_False in Ht.
    2: { intros Heq. eapply (edge_not_root c Hwf); [apply split_edge_in|done]. }
    exists r'. split_and!; congruence.
  - intros x q n k' j [Hx|[-> ->]]%split_path Hn Hk'.
    + destruct (split_edge_cases x q n k' j Hx Hn Hk') as [(-> & -> & -> & ->)|(? & ? & m & m' & He & Hm' & Ht & Hb)].
      * by exists sh.
      * exists m'. split; [done|]. apply edge_is_ok in He; [|done].
        unfold edge_ok in *. by rewrite Ht, Hb, Hsize.
    + rewrite Hsh' in Hn. simplify_eq. pose proof Hsh as [= _ _ Hs3]. rewrite Hs3 in Hk'.
      apply lookup_singleton_Some in Hk' as [<- <-]. by exists mi'.
  - intros x x' j [Hx|[Hx ?]]%split_path [Hx'|[Hx' ?]]%split_path; subst;
      [by eapply H4|by destruct (fs_path _ _ Hh x)|by destruct (fs_path _ _ Hh x')|done].
  - apply Hfree.
  - intros j [Hj Hjh]%Hfree. destruct (H6 j Hj) as [(n & Hn & Hb) Hno]. split.
    + destruct (split_old j n Hn Hjh) as (n' & ? & ? & _). exists n'. split; congruence.
    + intros x [Hx|[_ ?]]%split_path; [by eapply Hno|done].
  - intros x j. rewrite Hindex. intros Hx. destruct (H7 x j Hx) as (n & Hn & Hb).
    assert (j <> h) as Hjh by (intros Heq; subst j; pose proof (fs_block _ _ Hh n Hn); congruence).
    destruct (split_old j n Hn Hjh) as (n' & ? & ? & _). exists n'. split; congruence.
Qed.

Lemma split_cached x y : cached c' x y <-> cached c x y.
Proof using All.
  assert (nodes c' !! h = Some sh) as Hsh' by (by rewrite Hnodes, decide_True). split.
  - intros (j & n & [Hx|[-> ->]]%split_path & Hn & Hy).
    + assert (j <> h) as Hjh by (intros Heq; subst j; by eapply (fs_path _ _ Hh)).
      destruct (at_path_node c Hwf _ _ Hx) as [n0 Hn0].
      destruct (split_old j n0 Hn0 Hjh) as (n1 & Hn1 & Hb & _). exists j, n0. split_and!; [done|done|congruence].
    + rewrite Hsh' in Hn. simplify_eq. pose proof Hsh as [= _ Hs2 _]. congruence.
  - intros (j & n & Hx & Hn & Hy).
    assert (j <> h) as Hjh by (intros Heq; subst j; by eapply (fs_path _ _ Hh)).
    destruct (split_old j n Hn Hjh) as (n1 & Hn1 & Hb & _). exists j, n1.
    split_and!; [by apply split_path_up|done|congruence].
Qed.
Lemma split_no_orphans : no_orphans c -> no_orphans c'.
Proof using All.
  intros Hreach j (n & Hn & Hb). pose proof Hn as Hn'. rewrite Hnodes in Hn'.
  destruct (decide (j = h)) as [->|Hjh]; [eexists; apply split_path; by right|].
  assert (has_block c j) as Hold.
  { destruct (decide (j = i)) as [->|]; [|destruct (decide (j = p)) as [->|]; [|by exists n]].
    - exists mi. pose proof Hmi' as [= _ Heq _]. simplify_eq. by rewrite <-Heq.
    - exists np. pose proof Hnp' as [= _ Heq _]. simplify_eq. by rewrite <-Heq. }
  destruct (Hreach j Hold) as [x Hx]. exists x. by apply split_path_up.
Qed.
End split.

(** ** The primitives of an insertion, as executed

    [retag_walked], [attach_node] and [split_edge] return on a well-formed
    cache and have the effects [RadixInsert] describes. *)

(** Everything but the nodes, the free slots and the block index. *)
Definition same_rest (c c' : RadixCache) : Prop :=
  block_size c' = block_size c /\ clock c' = clock c /\
  soft_pin_keepalive_ticks c' = soft_pin_keepalive_ticks c /\ namespace c' = namespace c.

#[export] Instance same_rest_preorder : PreOrder same_rest.
Proof. split; [by intros c|]. intros c1 c2 c3 (? & ? & ? & ?) (? & ? & ? & ?). split_and!; congruence. Qed.

Lemma insert_lookup_cases c i n x :
  nodes c !! i = Some n ->
  <[i := x]> (nodes c) !! i = Some x /\ forall j, j <> i -> <[i := x]> (nodes c) !! j = nodes c !! j.
Proof.
  intros Hn. split; [apply list_lookup_insert_eq; by eapply lookup_lt_Some|].
  intros j Hj. by apply list_lookup_insert_ne.
Qed.

(** ** Retagging the node walked over *)
Lemma retag_walked_ok c blocks fps i q m block_idx :
  wf c -> at_path c q i -> nodes c !! i = Some m -> is_Some (n_block_id m) ->
  block_idx < length blocks -> length fps = length blocks ->
  exists c' b, retag_walked blocks fps i block_idx c = Done (c', block_idx + 1) /\
    blocks !! block_idx = Some b /\ wf c' /\ (no_orphans c -> no_orphans c') /\ same_rest c c' /\ at_path c' q i /\
    (forall x y, cached c' x y <-> if decide (x = q) then y = b else cached c x y).
Proof.
  intros Hwf Hq Hm [old Hold] Hlt Hfps. unfold retag_walked, get, index. rewrite Hm. cbn. rewrite Hold.
  rewrite bool_decide_eq_true_2 by done.
  destruct (lookup_lt_is_Some_2 blocks block_idx Hlt) as [b Hb]. rewrite Hb. cbn.
  destruct (lookup_lt_is_Some_2 fps block_idx) as [fp Hfp]; [lia|]. rewrite Hfp. cbn.
  set (f := fun n => set_fingerprint (Some fp) (set_block_id (Some b) n)).
  set (base := if bool_decide (old <> b) then set_block_index (delete old (block_index c)) c else c).
  assert (nodes base = nodes c) as Hbase by (unfold base; by case_bool_decide).
  assert (upd i f base = Done (set_nodes (<[i := f m]> (nodes base)) base)) as Hupd
    by (apply upd_Some'; by rewrite Hbase).
  rewrite Hupd. cbn. rewrite Hbase.
  set (index' := <[b := i]> (block_index base)).
  assert (set_block_index index' (set_nodes (<[i := f m]> (nodes c)) base) = retagged c i (f m) index') as Heq.
  { unfold retagged, base. by case_bool_decide. }
  exists (retagged c i (f m) index'), b. rewrite <-Heq at 1. split; [done|]. split; [done|].
  assert (forall x j, index' !! x = Some j ->
    (x = b /\ j = i) \/ (x <> b /\ n_block_id m <> Some x /\ block_index c !! x = Some j)) as Hindex.
  { intros x j. unfold index', base. intros [[-> ->]|[Hne Hx]]%lookup_insert_Some; [by left|right].
    case_bool_decide as Hob; cbn in Hx.
    - apply lookup_delete_Some in Hx as [? ?]. rewrite Hold. split_and!; [done|congruence|done].
    - rewrite Hold. split_and!; [done|congruence|done]. }
  split_and!.
  - by eapply (retagged_wf c Hwf i q m (f m) b Hq Hm).
  - apply (retagged_no_orphans c i m (f m) Hm); [done|by rewrite Hold].
  - unfold retagged. by split_and!.
  - by apply (retagged_path c i m (f m) Hm).
  - by apply (retagged_cached c Hwf i q m (f m) b Hq Hm).
Qed.

Lemma retag_walked_none c blocks fps i m block_idx :
  nodes c !! i = Some m -> n_block_id m = None ->
  retag_walked blocks fps i block_idx c = Done (c, block_idx).
Proof. intros Hm Hb. unfold retag_walked, get, index. rewrite Hm. cbn. by rewrite Hb. Qed.

(** ** Attaching *)
Lemma attach_node_ok now c p pp np toks k ob fp :
  wf c -> at_path c pp p -> nodes c !! p = Some np -> n_children np !! k = None ->
  edge_ok c (length pp) k (set_fingerprint fp (Node_new toks ob now)) ->
  exists c' h nh, attach_node now p toks ob fp c = Done (c', h) /\ wf c' /\ (no_orphans c -> no_orphans c') /\ same_rest c c' /\
    at_path c' (pp ++ toks) h /\ nodes c' !! h = Some nh /\ n_children nh = ∅ /\
    (forall x y, cached c' x y <-> (x = pp ++ toks /\ ob = Some y) \/ cached c x y).
Proof.
  intros Hwf Hp Hnp Hk Hok. unfold attach_node. pose proof Hok as (Hhd & _). cbn in Hhd.
  assert (index toks 0 = Done k) as Hidx by (destruct toks; [done|cbn in *; by simplify_eq]).
  rewrite Hidx. cbn [mbind res_bind].
  set (m := set_fingerprint fp (Node_new toks ob now)) in *.
  destruct (alloc_node_ok c c m Hwf eq_refl eq_refl) as (c1 & h & Hrun & Hh & Hal). rewrite Hrun. cbn [mbind res_bind].
  assert (p <> h) as Hph by (intros Heq; apply (fs_path _ _ Hh pp); by rewrite <-Heq).
  set (c2 := match ob with Some bid => set_block_index (<[bid := h]> (block_index c1)) c1 | None => c1 end).
  assert (nodes c2 = nodes c1) as Hn2 by (unfold c2; by destruct ob).
  assert (free_nodes c2 = free_nodes c1) as Hf2 by (unfold c2; by destruct ob).
  assert (nodes c2 !! p = Some np) as Hp2 by (rewrite Hn2, (al_old _ _ _ _ Hal) by done; done).
  rewrite (upd_Some' _ _ _ _ Hp2). cbn [mbind res_bind].
  set (np' := set_children (<[k := h]> (n_children np)) np).
  set (c3 := set_nodes (<[p := np']> (nodes c2)) c2).
  assert (block_index c1 = block_index c) as Hidx1 by (by rewrite (al_rest _ _ _ _ Hal)).
  assert (forall j, nodes c3 !! j =
    if decide (j = h) then Some m else if decide (j = p) then Some np' else nodes c !! j) as Hnodes.
  { intros j. destruct (insert_lookup_cases c2 p np np' Hp2) as [He Hne]. cbn [nodes c3 set_nodes].
    destruct (decide (j = h)) as [->|Hjh]; [by rewrite Hne, Hn2, (al_new _ _ _ _ Hal)|].
    destruct (decide (j = p)) as [->|Hjp]; [done|].
    by rewrite Hne, Hn2, (al_old _ _ _ _ Hal). }
  assert (block_size c3 = block_size c) as Hsize.
  { unfold c3, c2. rewrite (al_rest _ _ _ _ Hal). by destruct ob. }
  assert (NoDup (free_nodes c3) /\ forall j, j ∈ free_nodes c3 -> j ∈ free_nodes c /\ j <> h) as Hfree.
  { cbn [free_nodes c3 set_nodes]. rewrite Hf2. split; apply Hal. }
  assert (forall x j, block_index c3 !! x = Some j ->
    (n_block_id m = Some x /\ j = h) \/ block_index c !! x = Some j) as Hindex.
  { intros x j. unfold c3, c2. destruct ob as [b|]; cbn; rewrite Hidx1; [|by right].
    intros [[-> ->]|[_ ?]]%lookup_insert_Some; [by left|by right]. }
  exists c3, h, m. split; [done|]. split_and!.
  - exact (attach_wf c Hwf p h pp np np' m k Hp Hnp Hk Hh Hok eq_refl eq_refl c3 Hsize Hnodes Hfree Hindex).
  - exact (attach_no_orphans c Hwf p h pp np np' m k Hp Hnp Hk Hh Hok eq_refl eq_refl c3 Hsize Hnodes Hfree Hindex).
  - unfold same_rest, c3, c2. rewrite (al_rest _ _ _ _ Hal). by destruct ob.
  - apply (attach_path c Hwf p h pp np np' m k Hp Hnp Hk Hh Hok eq_refl eq_refl c3 Hsize Hnodes Hfree Hindex).
    by right.
  - by rewrite Hnodes, decide_True.
  - done.
  - exact (attach_cached c Hwf p h pp np np' m k Hp Hnp Hk Hh Hok eq_refl eq_refl c3 Hsize Hnodes Hfree Hindex).
Qed.

(** ** Splitting *)

(** What [split_edge] leaves in the node table. *)
Record split_table (c : RadixCache) (p i h : nat) (np mi : Node) (k u0 : Token) (t u : list Token)
    (c' : RadixCache) (np' mi' sh : Node) : Prop := mk_split_table {
  sp_fresh : fresh_slot c h;
  sp_parent : node_shape np' = (n_tokens np, n_block_id np, <[k := h]> (n_children np));
  sp_child : node_shape mi' = (u, n_block_id mi, n_children mi);
  sp_shared : node_shape sh = (t, None, {[u0 := i]});
  sp_rest : same_rest c c';
  sp_size : block_size c' = block_size c;
  sp_nodes : forall j, nodes c' !! j = if decide (j = h) then Some sh else if decide (j = i) then Some mi'
    else if decide (j = p) then Some np' else nodes c !! j;
  sp_free : NoDup (free_nodes c') /\ forall j, j ∈ free_nodes c' -> j ∈ free_nodes c /\ j <> h;
  sp_index : block_index c' = block_index c;
}.

Lemma split_edge_run now c p pp np k i mi n u0 u :
  wf c -> at_path c pp p -> nodes c !! p = Some np -> n_children np !! k = Some i ->
  nodes c !! i = Some mi -> drop n (n_tokens mi) = u -> head u = Some u0 ->
  exists c' h np' mi' sh, split_edge now p i n k c = Done (c', h) /\
    split_table c p i h np mi k u0 (take n (n_tokens mi)) u c' np' mi' sh.
Proof.
  intros Hwf Hp Hnp Hk Hmi Hdrop Hu. unfold split_edge, get.
  set (s := take n (n_tokens mi)).
  rewrite (index_Some _ _ _ Hmi). cbn [mbind res_bind]. fold s. rewrite Hdrop.
  rewrite (upd_Some' _ _ _ _ Hmi). cbn [mbind res_bind].
  set (c1 := set_nodes _ c).
  destruct (insert_lookup_cases c i mi (set_tokens [] (set_children ∅ mi)) Hmi) as [Hc1i Hc1o].
  destruct (alloc_node_ok c c1 (set_ref_count (n_ref_count mi) (Node_new s None now)) Hwf eq_refl)
    as (c2 & h & Hrun & Hh & Hal); [apply length_insert|]. rewrite Hrun. cbn [mbind res_bind].
  destruct (split_distinct c Hwf p i h pp np mi k Hp Hnp Hk Hmi Hh) as (Hpi & Hph & Hih).
  assert (nodes c2 !! i = Some (set_tokens [] (set_children ∅ mi))) as Hi2 by (by rewrite (al_old _ _ _ _ Hal)).
  rewrite (upd_Some' _ _ _ _ Hi2). cbn [mbind res_bind].
  set (mi' := set_children (n_children mi) _). set (c3 := set_nodes (<[i := mi']> (nodes c2)) c2).
  destruct (insert_lookup_cases c2 i _ mi' Hi2) as [Hc3i Hc3o].
  rewrite (index_Some (nodes c3) i mi' Hc3i). cbn [mbind res_bind].
  change (n_tokens mi') with u.
  assert (index u 0 = Done u0) as Hidx by (destruct u; [done|cbn in *; by simplify_eq]).
  rewrite Hidx. cbn [mbind res_bind].
  assert (nodes c3 !! h = Some (set_ref_count (n_ref_count mi) (Node_new s None now))) as Hh3
    by (cbn; rewrite Hc3o by done; apply Hal).
  rewrite (upd_Some' _ _ _ _ Hh3). cbn [mbind res_bind].
  set (sh := set_children _ _). set (c4 := set_nodes (<[h := sh]> (nodes c3)) c3).
  destruct (insert_lookup_cases c3 h _ sh Hh3) as [Hc4h Hc4o].
  assert (nodes c4 !! p = Some np) as Hp4.
  { cbn. rewrite Hc4o by done. cbn. rewrite Hc3o, (al_old _ _ _ _ Hal) by done. cbn. by rewrite Hc1o. }
  rewrite (upd_Some' _ _ _ _ Hp4). cbn [mbind res_bind].
  set (np' := set_children _ np). set (c5 := set_nodes (<[p := np']> (nodes c4)) c4).
  destruct (insert_lookup_cases c4 p _ np' Hp4) as [Hc5p Hc5o].
  assert (forall j, nodes c5 !! j = if decide (j = h) then Some sh else if decide (j = i) then Some mi'
    else if decide (j = p) then Some np' else nodes c !! j) as Hnodes.
  { intros j. cbn [nodes c5 set_nodes].
    destruct (decide (j = h)) as [->|Hjh]; [by rewrite Hc5o|].
    destruct (decide (j = i)) as [->|Hji].
    { rewrite Hc5o by done. cbn [nodes c4 set_nodes]. by rewrite Hc4o. }
    destruct (decide (j = p)) as [->|Hjp]; [done|].
    rewrite Hc5o by done. cbn [nodes c4 set_nodes]. rewrite Hc4o by done. cbn [nodes c3 set_nodes].
    rewrite Hc3o, (al_old _ _ _ _ Hal) by done. by apply Hc1o. }
  assert (block_size c5 = block_size c /\ block_index c5 = block_index c) as [Hsize Hindex]
    by (cbn; by rewrite (al_rest _ _ _ _ Hal)).
  assert (NoDup (free_nodes c5) /\ forall j, j ∈ free_nodes c5 -> j ∈ free_nodes c /\ j <> h) as Hfree
    by (split; apply Hal).
  exists c5, h, np', mi', sh. split; [done|]. split; try done. unfold same_rest. cbn. by rewrite (al_rest _ _ _ _ Hal).
Qed.

Lemma split_edge_ok now c p pp np k i mi n u0 :
  wf c -> at_path c pp p -> nodes c !! p = Some np -> n_children np !! k = Some i ->
  nodes c !! i = Some mi -> 0 < n -> n_tokens mi !! n = Some u0 ->
  exists c' h sh, split_edge now p i n k c = Done (c', h) /\ wf c' /\ (no_orphans c -> no_orphans c') /\ same_rest c c' /\
    at_path c' (pp ++ take n (n_tokens mi)) h /\ nodes c' !! h = Some sh /\ n_children sh = {[u0 := i]} /\
    (forall x y, cached c' x y <-> cached c x y).
Proof.
  intros Hwf Hp Hnp Hk Hmi Hn Hu0. set (s := take n (n_tokens mi)). set (u := drop n (n_tokens mi)).
  assert (head u = Some u0) as Hu by (unfold u; by rewrite head_lookup, lookup_drop, Nat.add_0_r).
  assert (n_tokens mi = s ++ u) as Htok by (unfold s, u; by rewrite take_drop).
  assert (s <> []) as Hs.
  { intros Heq%(f_equal length). apply lookup_lt_Some in Hu0. unfold s in Heq.
    rewrite length_take_le in Heq by lia. cbn in Heq. lia. }
  destruct (split_edge_run now c p pp np k i mi n u0 u Hwf Hp Hnp Hk Hmi eq_refl Hu)
    as (c' & h & np' & mi' & sh & Hrun & [Hh Hnp' Hmi' Hsh Hrest Hsize Hnodes Hfree Hindex]).
  exists c', h, sh. split; [done|]. split_and!.
  - exact (split_wf c Hwf p i h pp np mi np' mi' sh k u0 s u Hp Hnp Hk Hmi Htok Hs Hu Hh Hnp' Hmi' Hsh
      c' Hsize Hnodes Hfree Hindex).
  - exact (split_no_orphans c Hwf p i h pp np mi np' mi' sh k u0 s u Hp Hnp Hk Hmi Htok Hs Hu Hh Hnp' Hmi' Hsh
      c' Hsize Hnodes Hfree Hindex).
  - done.
  - apply (split_path c Hwf p i h pp np mi np' mi' sh k u0 s u Hp Hnp Hk Hmi Htok Hs Hu Hh Hnp' Hmi' Hsh
      c' Hsize Hnodes Hfree Hindex). by right.
  - by rewrite Hnodes, decide_True.
  - by injection Hsh.
  - exact (split_cached c Hwf p i h pp np mi np' mi' sh k u0 s u Hp Hnp Hk Hmi Htok Hs Hu Hh Hnp' Hmi' Hsh
      c' Hsize Hnodes Hfree Hindex).
Qed.
