(* ===== verification/RadixInsertProps.v ===== *)
(** * What an insertion does

    [insert_with_fingerprints] of [infer/src/prefix_cache.rs] on a well-formed
    cache is an update of the map from prefixes to blocks: it returns, maps
    each whole-block prefix of the tokens to the caller's block, keeps every
    other prefix, and leaves the cache well-formed. *)

From S2P Require Import Prelude Tier RadixTypes RadixTree RadixLookup RadixLookupProps.
From S2P Require Import RadixInsert.

(** ** A walk that is stuck is over *)
Lemma walk_stuck c tokens fuel : forall i pos l v,
  walk fuel c tokens i pos = Done l -> v ∈ (i, pos) :: l -> descend c tokens v.1 v.2 = Done None ->
  end_pos pos l = v.2.
Proof.
  induction fuel as [|fuel IH]; intros i pos l v Hw Hv Hd; [done|].
  apply walk_cons_inv in Hw as [[_ ->]|(j & pos' & l' & Hd' & Hw & ->)].
  - apply list_elem_of_singleton in Hv as ->. done.
  - rewrite end_pos_cons. cbn [snd]. apply elem_of_cons in Hv as [->|Hv]; [cbn in Hd; congruence|].
    by eapply IH.
Qed.

(** Nothing along the tokens lies below a node without the next child. *)
Lemma nothing_below c tokens i n pos k x j :
  wf c -> at_path c (take pos tokens) i -> nodes c !! i = Some n -> tokens !! pos = Some k ->
  n_children n !! k = None -> at_path c x j -> x `prefix_of` tokens -> length x <= pos.
Proof.
  intros Hwf Hi Hn Hk Hnone Hx Hpre. pose proof (lookup_lt_Some _ _ _ Hk) as Hlt.
  destruct (walk_from_root c Hwf tokens) as (l & Hw & Hl).
  pose proof (walk_complete c Hwf tokens l _ i Hl Hi (take_prefix_of _ _)) as Hin.
  rewrite length_take_le in Hin by lia.
  assert (descend c tokens i pos = Done None) as Hd.
  { unfold descend, get, index. rewrite bool_decide_eq_false_2 by lia. rewrite Hk, Hn. cbn. by rewrite Hnone. }
  pose proof (walk_stuck c tokens _ 0 0 l (i, pos) Hw Hin Hd) as Hend. cbn in Hend. rewrite <-Hend.
  pose proof (walk_complete c Hwf tokens l x j Hl Hx Hpre) as Hinx.
  destruct (walk_end c Hwf tokens _ 0 0 l ltac:(constructor) ltac:(lia) Hw) as [_ Hall].
  apply elem_of_cons in Hinx as [[= _ ->]|Hinx]; [lia|]. by apply (Hall _ Hinx).
Qed.

Section insertion.
Context (c0 : RadixCache) (tokens : list Token) (blocks : list BlockId) (Hbs : 0 < block_size c0).

Abbreviation bs := (block_size c0).
Abbreviation prefix_at k := (take ((k + 1) * block_size c0) tokens).

(** The map after the first [n] blocks are in. *)
Definition inserted (n : nat) (c : RadixCache) : Prop :=
  forall q b, cached c q b <->
    (exists k, k < n /\ q = prefix_at k /\ blocks !! k = Some b) \/
    (cached c0 q b /\ forall k, k < n -> q <> prefix_at k).

Lemma inserted_0 c : (forall q b, cached c q b <-> cached c0 q b) -> inserted 0 c.
Proof. intros H q b. rewrite H. split; [intros ?; right; split; [done|lia]|intros [(k & ? & _)|[? _]]; [lia|done]]. Qed.

Lemma inserted_same n c c' : (forall q b, cached c' q b <-> cached c q b) -> inserted n c -> inserted n c'.
Proof. intros H Hi q b. by rewrite H. Qed.

Lemma prefix_at_inj k k' :
  (k + 1) * bs <= length tokens -> (k' + 1) * bs <= length tokens -> prefix_at k = prefix_at k' -> k = k'.
Proof using Hbs.
  intros ?? Heq%(f_equal length). rewrite !length_take_le in Heq by done.
  apply Nat.mul_cancel_r in Heq; lia.
Qed.

Lemma inserted_S n c c' b :
  inserted n c -> blocks !! n = Some b -> (n + 1) * bs <= length tokens ->
  (forall x y, cached c' x y <-> if decide (x = prefix_at n) then y = b else cached c x y) ->
  inserted (n + 1) c'.
Proof using Hbs.
  intros Hi Hb Hn Hc q y. rewrite Hc. case_decide as Hq.
  - split.
    + intros ->. left. exists n. split_and!; [lia|done|done].
    + intros [(k & Hk & Hqk & Hy)|[_ Hno]].
      * assert (k = n) as ->; [|congruence].
        apply prefix_at_inj; [|done|congruence]. assert (k <= n) by lia. nia.
      * exfalso. apply (Hno n); [lia|done].
  - rewrite (Hi q y). split.
    + intros [(k & ? & ? & ?)|[? Hno]]; [left; exists k; split_and!; [lia|done..]|right].
      split; [done|]. intros k Hk. destruct (decide (k = n)) as [->|]; [done|apply Hno; lia].
    + intros [(k & Hk & Hqk & ?)|[? Hno]]; [left|right; split; [done|intros; apply Hno; lia]].
      exists k. split_and!; [|done..]. destruct (decide (k = n)) as [->|]; [done|lia].
Qed.

(** A state of the loops: at node [i], after [pos] tokens. *)
Record at_state (c : RadixCache) (i pos : nat) : Prop := mk_at_state {
  as_wf : wf c;
  as_reach : no_orphans c0 -> no_orphans c;
  as_rest : same_rest c0 c;
  as_path : at_path c (take pos tokens) i;
  as_pos : pos <= length tokens;
  as_inserted : inserted (pos / bs) c;
}.

(** The final state. *)
Record finished (c : RadixCache) : Prop := mk_finished {
  fi_wf : wf c;
  fi_reach : no_orphans c0 -> no_orphans c;
  fi_rest : same_rest c0 c;
  fi_inserted : inserted (length tokens / bs) c;
}.

Lemma state_finished c i pos :
  at_state c i pos -> pos / bs = length tokens / bs -> finished c.
Proof. intros [? ? ? ? ? ?] Heq. rewrite Heq in *. by split. Qed.

Lemma state_size c i pos : at_state c i pos -> block_size c = bs.
Proof. intros Hst. apply Hst. Qed.

Lemma slice_edge pos e k :
  pos < e -> e <= length tokens -> tokens !! pos = Some k ->
  exists toks, slice tokens pos e = Done toks /\ head toks = Some k /\ length toks = e - pos /\
    take pos tokens ++ toks = take e tokens.
Proof.
  intros Hlt Hle Hk. rewrite slice_Done by lia. eexists. split; [done|]. split_and!.
  - rewrite head_lookup, lookup_take_lt, lookup_drop, Nat.add_0_r by lia. done.
  - rewrite length_take, length_drop. lia.
  - rewrite <-(take_drop pos tokens) at 3. rewrite take_app, length_take_le, take_take by lia.
    f_equal. f_equal. lia.
Qed.

(** Attaching the next edge moves the state to its end. *)
Lemma attach_state now c i pos n k fp :
  at_state c i pos -> nodes c !! i = Some n -> tokens !! pos = Some k -> n_children n !! k = None ->
  pos / bs < length blocks ->
  let boundary := (pos / bs + 1) * bs in
  let e := Nat.min boundary (length tokens) in
  let ob := if decide (e = boundary) then blocks !! (pos / bs) else None in
  exists toks c' h nh, slice tokens pos e = Done toks /\ attach_node now i toks ob fp c = Done (c', h) /\
    at_state c' h e /\ nodes c' !! h = Some nh /\ n_children nh = ∅ /\ pos < e.
Proof using Hbs.
  intros Hst Hn Hk Hnone Hblk boundary e ob. pose proof (lookup_lt_Some _ _ _ Hk) as Hlt.
  pose proof (div_bounds bs Hbs pos) as Hpos. fold boundary in Hpos.
  assert (pos < e <= length tokens) as [Hpe Hel] by lia.
  destruct (slice_edge pos e k Hpe Hel Hk) as (toks & Hslice & Hhd & Htl & Happ).
  destruct (lookup_lt_is_Some_2 blocks (pos / bs) Hblk) as [b Hb].
  pose proof (state_size _ _ _ Hst) as Hsize.
  assert (edge_ok c (length (take pos tokens)) k (set_fingerprint fp (Node_new toks ob now))) as Hok.
  { unfold edge_ok. rewrite Hsize, length_take_le by lia. cbn. rewrite Htl. fold boundary.
    replace (pos + (e - pos)) with e by lia. split_and!; [done|lia|]. unfold ob. case_decide as He.
    - rewrite Hb. split; [intros _|eauto]. rewrite He. apply Nat.divide_factor_r.
    - split; [by intros []|]. intros Hdiv. exfalso. apply (not_aligned_inside bs Hbs pos e); [done| |done].
      fold boundary. lia. }
  destruct (attach_node_ok now c i _ n toks k ob fp (as_wf _ _ _ Hst) (as_path _ _ _ Hst) Hn Hnone Hok)
    as (c' & h & nh & Hrun & Hwf' & Hreach' & Hrest & Hpath & Hnh & Hch & Hcached).
  rewrite Happ in *.
  exists toks, c', h, nh. split_and!; [done|done| |done|done|done].
  split; [done|intros ?; by apply Hreach', Hst|by transitivity c; [apply Hst|]|done|done|].
  unfold ob in Hcached. case_decide as He.
  - assert (e / bs = pos / bs + 1) as Hdiv by (rewrite He; apply Nat.div_mul; lia). rewrite Hdiv.
    eapply inserted_S; [apply Hst|exact Hb|fold boundary; lia|]. fold boundary. rewrite <-He.
    intros x y. rewrite Hcached, Hb. case_decide as Hx; [|naive_solver].
    split; [intros [[_ [= ->]]|Hc]; [done|]|by intros ->; left]. exfalso.
    destruct Hc as (j & nj & Hj & _).
    pose proof (nothing_below c tokens i n pos k x j (as_wf _ _ _ Hst) (as_path _ _ _ Hst) Hn Hk Hnone Hj) as Hle.
    rewrite Hx, length_take_le in Hle by lia. specialize (Hle (take_prefix_of _ _)). lia.
  - rewrite (div_inside bs Hbs pos e) by (fold boundary; lia).
    eapply inserted_same; [|apply Hst]. intros x y. rewrite Hcached. naive_solver.
Qed.

(** ** The loops *)
Context (now : N) (fps : list BlockFingerprint).
Context (Hlen : length tokens <= length blocks * bs).

Lemma out_of_blocks pos : pos <= length tokens -> length blocks <= pos / bs -> pos / bs = length tokens / bs.
Proof using Hbs Hlen.
  intros Hpos Hle. pose proof (div_bounds bs Hbs pos) as [Hp _].
  assert (length blocks * bs <= pos / bs * bs) by (by apply Nat.mul_le_mono_r).
  by replace pos with (length tokens) by lia.
Qed.

Context (Hfps : length fps = length blocks).

Lemma insert_chain_ok fuel : forall c i pos n,
  at_state c i pos -> nodes c !! i = Some n ->
  (forall k, tokens !! pos = Some k -> n_children n !! k = None) ->
  length blocks - pos / bs < fuel ->
  exists c', insert_chain fuel now tokens blocks fps i pos (pos / bs) c = Done (c', length tokens / bs) /\
    finished c'.
Proof using Hbs Hlen Hfps.
  induction fuel as [|fuel IH]; intros c i pos n Hst Hn Hnone Hf; [lia|]. cbn [insert_chain].
  pose proof (as_pos _ _ _ Hst) as Hpos. pose proof (state_size _ _ _ Hst) as Hsize.
  destruct (decide (pos < length tokens)) as [Hlt|Hge].
  2: { rewrite bool_decide_eq_false_2 by done. assert (pos = length tokens) as -> by lia.
       exists c. split; [done|]. by eapply state_finished. }
  rewrite (bool_decide_eq_true_2 (pos < _)) by done. cbn [andb].
  destruct (decide (pos / bs < length blocks)) as [Hblk|Hblk].
  2: { rewrite bool_decide_eq_false_2 by done. pose proof (out_of_blocks pos Hpos ltac:(lia)) as Heq.
       rewrite Heq. exists c. split; [done|]. by eapply state_finished. }
  rewrite bool_decide_eq_true_2 by done.
  destruct (lookup_lt_is_Some_2 tokens pos Hlt) as [k Hk].
  destruct (lookup_lt_is_Some_2 blocks _ Hblk) as [b Hb].
  destruct (lookup_lt_is_Some_2 fps (pos / bs)) as [fp Hfp]; [lia|].
  unfold truncated_block_end, next_block_boundary. rewrite Hsize.
  set (boundary := (pos / bs + 1) * bs). set (e := Nat.min boundary (length tokens)).
  destruct (attach_state now c i pos n k (if decide (e = boundary) then Some fp else None) Hst Hn Hk
    (Hnone k Hk) Hblk) as (toks & c' & h & nh & Hslice & Hrun & Hst' & Hnh & Hch & Hpe).
  fold boundary e in Hslice, Hrun, Hst', Hpe. rewrite Hslice. cbn [mbind res_bind].
  destruct (decide (e = boundary)) as [He|He].
  - rewrite bool_decide_eq_true_2 by done. rewrite (index_Some _ _ _ Hb), (index_Some _ _ _ Hfp).
    cbn [mbind res_bind]. rewrite Hb in Hrun. rewrite Hrun. cbn [mbind res_bind].
    assert (e / bs = pos / bs + 1) as Hdiv by (rewrite He; apply Nat.div_mul; lia). rewrite <-Hdiv.
    eapply IH; [done|exact Hnh| |lia]. intros k' _. by rewrite Hch.
  - rewrite bool_decide_eq_false_2 by done. rewrite Hrun. cbn [mbind res_bind].
    pose proof (div_bounds bs Hbs pos) as Hpb. fold boundary in Hpb.
    assert (e = length tokens) as Hel by lia.
    assert (pos / bs = length tokens / bs) as Heq.
    { symmetry. apply div_inside; [done|lia|]. fold boundary. lia. }
    exists c'. rewrite Heq at 1. split; [done|]. eapply state_finished; [exact Hst'|]. by rewrite Hel.
Qed.

(** Touching a node keeps the state. *)
Lemma same_tree_state c c' i pos : same_tree c c' -> same_rest c c' -> at_state c i pos -> at_state c' i pos.
Proof.
  intros Hst Hrest [? Hreach ? ? ? ?]. split; [by eapply wf_same_tree| |by transitivity c| |done|].
  - intros ?. eapply no_orphans_same_shape; [apply Hst|by apply Hreach].
  - eapply at_path_same_shape; [apply Hst|done].
  - eapply inserted_same; [|done]. intros. apply cached_same_shape, Hst.
Qed.

(** Walking over a whole edge, and retagging its end. *)
Lemma walked_state c i pos j m pos' :
  at_state c i pos -> descend c tokens i pos = Done (Some (j, pos')) -> nodes c !! j = Some m ->
  pos / bs < length blocks ->
  exists c', retag_walked blocks fps j (pos / bs) c = Done (c', pos' / bs) /\ at_state c' j pos' /\
    pos < pos'.
Proof using Hbs Hfps Hlen.
  intros Hst Hd Hm Hblk. pose proof (state_size _ _ _ Hst) as Hsize.
  destruct (descend_step c (as_wf _ _ _ Hst) tokens i pos j pos' (as_path _ _ _ Hst) (as_pos _ _ _ Hst) Hd)
    as (Hq & Hlt & _).
  pose proof (walk_step_block c (as_wf _ _ _ Hst) tokens i pos j pos' (as_path _ _ _ Hst) (as_pos _ _ _ Hst) Hd)
    as Hstep. unfold block_at in Hstep. cbn in Hstep. rewrite Hm in Hstep. cbn in Hstep. rewrite Hsize in Hstep.
  destruct (n_block_id m) as [old|] eqn:Hold.
  - destruct Hstep as [Hpos' _].
    destruct (retag_walked_ok c blocks fps j _ m (pos / bs) (as_wf _ _ _ Hst) Hq Hm) as
      (c' & b & Hrun & Hb & Hwf' & Hreach' & Hrest & Hq' & Hcached); [by rewrite Hold|done|done|].
    assert (pos' / bs = pos / bs + 1) as Hdiv by (rewrite Hpos'; apply Nat.div_mul; lia).
    exists c'. rewrite Hdiv. split; [done|]. split; [|lia].
    split; [done|intros ?; by apply Hreach', Hst|by transitivity c; [apply Hst|]|done|lia|]. rewrite Hdiv.
    eapply inserted_S; [apply Hst|exact Hb|lia|]. by rewrite <-Hpos'.
  - rewrite (retag_walked_none _ _ _ _ _ _ Hm Hold). exists c. rewrite Hstep. split; [done|].
    split; [|lia]. destruct Hst. split; [done..|lia|by rewrite Hstep].
Qed.

(** Splitting a partly matching edge, and attaching the caller's block. *)
Lemma split_state c i pos n k j m :
  at_state c i pos -> nodes c !! i = Some n -> tokens !! pos = Some k -> n_children n !! k = Some j ->
  nodes c !! j = Some m -> pos / bs < length blocks ->
  let ml := edge_match_len (n_tokens m) (drop pos tokens) in
  ml <> length (n_tokens m) ->
  exists c1 h c' o, split_edge now i j ml k c = Done (c1, h) /\
    attach_after_split now tokens blocks fps h (pos + ml) (pos / bs) c1 = Done (c', o) /\
    match o with
    | Some (h', e) => at_state c' h' e /\ e / bs = pos / bs + 1 /\ pos < e
    | None => finished c' /\ pos / bs = length tokens / bs
    end.
Proof using Hbs Hfps Hlen.
  intros Hst Hn Hk Hj Hm Hblk ml Hml. pose proof (state_size _ _ _ Hst) as Hsize.
  pose proof (lookup_lt_Some _ _ _ Hk) as Hlt.
  destruct (edge_match_len_le (n_tokens m) (drop pos tokens)) as [Hle1 Hle2]. fold ml in Hle1, Hle2.
  rewrite length_drop in Hle2.
  pose proof (at_path_extend c (as_wf _ _ _ Hst) _ _ _ _ _ _ (as_path _ _ _ Hst) Hn Hj Hm) as (Hhd & Hcross & _).
  rewrite length_take_le, Hsize in Hcross by lia.
  assert (0 < ml) as Hml0.
  { unfold ml. destruct (n_tokens m) as [|t ts]; [done|]. cbn in Hhd. simplify_eq.
    rewrite (drop_S _ _ _ Hk). cbn. rewrite bool_decide_eq_true_2 by done. lia. }
  destruct (lookup_lt_is_Some_2 (n_tokens m) ml) as [u0 Hu0]; [lia|].
  destruct (split_edge_ok now c i _ n k j m ml u0 (as_wf _ _ _ Hst) (as_path _ _ _ Hst) Hn Hj Hm Hml0 Hu0)
    as (c1 & h & sh & Hsplit & Hwf1 & Hreach1 & Hrest1 & Hpath1 & Hsh & Hchild & Hcached1).
  exists c1, h.
  assert (take pos tokens ++ take ml (n_tokens m) = take (pos + ml) tokens) as Htake.
  { unfold ml. rewrite take_edge_match_len. fold ml.
    rewrite <-(take_drop pos tokens) at 3. rewrite take_app, length_take_le, take_take by lia.
    f_equal; [f_equal; lia|]. f_equal. lia. }
  rewrite Htake in Hpath1. pose proof (div_bounds bs Hbs pos) as Hpb.
  assert ((pos + ml) / bs = pos / bs) as Hdiv by (apply div_inside; [done|lia|lia]).
  assert (at_state c1 h (pos + ml)) as Hst1.
  { split; [done|intros ?; by apply Hreach1, Hst|by transitivity c; [apply Hst|]|done|lia|]. rewrite Hdiv. eapply inserted_same; [done|apply Hst]. }
  unfold attach_after_split, full_block_end, next_block_boundary. rewrite (state_size _ _ _ Hst1).
  case_bool_decide as Hfull.
  - destruct (lookup_lt_is_Some_2 tokens (pos + ml)) as [kk Hkk]; [lia|].
    destruct (lookup_lt_is_Some_2 blocks _ Hblk) as [b Hb].
    destruct (lookup_lt_is_Some_2 fps (pos / bs)) as [fp Hfp]; [lia|].
    assert (n_children sh !! kk = None) as Hnone.
    { rewrite Hchild. apply lookup_singleton_None. 
      apply (edge_match_len_stop (n_tokens m) (drop pos tokens)); [done|]. by rewrite lookup_drop. }
    destruct (attach_state now c1 h (pos + ml) sh kk (Some fp) Hst1 Hsh Hkk Hnone) as
      (toks & c' & h' & nh & Hslice & Hrun & Hst' & _ & _ & Hpe); [by rewrite Hdiv|].
    rewrite Hdiv in *. rewrite Nat.min_l in * by done. rewrite decide_True in Hrun by done.
    exists c', (Some (h', (pos / bs + 1) * bs)). split; [done|].
    rewrite Hslice. cbn [mbind res_bind]. rewrite (index_Some _ _ _ Hb), (index_Some _ _ _ Hfp).
    cbn [mbind res_bind]. rewrite Hb in Hrun. rewrite Hrun. cbn. split; [done|].
    split_and!; [done|apply Nat.div_mul; lia|lia].
  - exists c1, None. split; [done|]. split; [done|].
    assert (pos / bs = length tokens / bs) as Heq by (symmetry; apply div_inside; [done|lia|lia]).
    split; [|done]. eapply state_finished; [exact Hst1|]. by rewrite Hdiv.
Qed.

Lemma insert_loop_ok fuel : forall c i pos,
  at_state c i pos -> length tokens - pos < fuel ->
  exists c', insert_loop fuel now tokens blocks fps i pos (pos / bs) c = Done (c', length tokens / bs) /\
    finished c'.
Proof using Hbs Hfps Hlen.
  induction fuel as [|fuel IH]; intros c i pos Hst Hf; [lia|]. cbn [insert_loop].
  pose proof (as_pos _ _ _ Hst) as Hpos.
  destruct (decide (pos < length tokens)) as [Hlt|Hge].
  2: { rewrite bool_decide_eq_false_2 by done. assert (pos = length tokens) as -> by lia.
       exists c. split; [done|]. by eapply state_finished. }
  rewrite (bool_decide_eq_true_2 (pos < _)) by done. cbn [andb].
  destruct (decide (pos / bs < length blocks)) as [Hblk|Hblk].
  2: { rewrite bool_decide_eq_false_2 by done. pose proof (out_of_blocks pos Hpos ltac:(lia)) as Heq.
       rewrite Heq. exists c. split; [done|]. by eapply state_finished. }
  rewrite bool_decide_eq_true_2 by done.
  destruct (lookup_lt_is_Some_2 tokens pos Hlt) as [k Hk]. rewrite (index_Some _ _ _ Hk). cbn [mbind res_bind].
  destruct (at_path_node c (as_wf _ _ _ Hst) _ _ (as_path _ _ _ Hst)) as [n Hn].
  rewrite (index_Some _ _ _ Hn : get c i = _). cbn [mbind res_bind].
  destruct (n_children n !! k) as [j|] eqn:Hj.
  2: { eapply insert_chain_ok; [done|exact Hn| |lia]. intros k' Hk'. congruence. }
  destruct (wf_edge _ (as_wf _ _ _ Hst) _ i n k j (as_path _ _ _ Hst) Hn Hj) as (m & Hm & Hok).
  unfold child_edge_match. rewrite (index_Some _ _ _ Hm : get c j = _). cbn [mbind res_bind].
  set (ml := edge_match_len (n_tokens m) (drop pos tokens)).
  destruct (decide (ml = length (n_tokens m))) as [Hfull|Hpart].
  - rewrite bool_decide_eq_true_2 by done. rewrite (upd_Some _ _ _ _ Hm). cbn [mbind res_bind].
    set (c1 := set_nodes _ c).
    assert (descend c tokens i pos = Done (Some (j, pos + length (n_tokens m)))) as Hd.
    { apply descend_Some. exists n, k, m. split_and!; try done.
      rewrite <-drop_drop. apply edge_match_full_inv. fold ml. lia. }
    assert (same_tree c c1) as Hst1 by (split; [by apply (shape_update c j m)|done..]).
    destruct (walked_state c1 i pos j (set_last_access now m) (pos + length (n_tokens m))) as
      (c' & Hrun & Hst' & Hlt').
    + eapply same_tree_state; [exact Hst1|done|done].
    + by rewrite (descend_same_shape c) by apply Hst1.
    + cbn. apply list_lookup_insert_eq. by eapply lookup_lt_Some.
    + done.
    + rewrite Hrun. cbn [mbind res_bind]. apply IH; [done|lia].
  - rewrite bool_decide_eq_false_2 by done.
    destruct (split_state c i pos n k j m Hst Hn Hk Hj Hm Hblk Hpart) as (c1 & h & c' & o & Hsplit & Hatt & Ho).
    fold ml in Hsplit, Hatt. rewrite Hsplit. cbn [mbind res_bind]. rewrite Hatt. cbn [mbind res_bind].
    destruct o as [[h' e]|].
    + destruct Ho as (Hst' & Hdiv & Hpe). rewrite <-Hdiv. apply IH; [done|lia].
    + destruct Ho as [Hfin ->]. by exists c'.
Qed.
End insertion.

(** ** Construction *)
Lemma cache_new_wf bs ticks ns c : new_with_soft_pin_keepalive bs ticks ns = Done c -> wf c.
Proof.
  unfold new_with_soft_pin_keepalive. case_bool_decide as Hbs; [|done]. intros [= <-].
  assert (forall q i, at_path (mkRadixCache [Node_new [] None 0] [] bs 0 ticks ∅ ns) q i -> q = [] /\ i = 0) as Hroot.
  { induction 1 as [|q p n k i m _ [-> ->] Hn Hk _]; [done|]. cbn in Hn. simplify_eq. }
  split; cbn.
  - done.
  - by eexists.
  - intros q p n k i [_ ->]%Hroot Hn Hk. cbn in Hn. simplify_eq.
  - by intros q q' i [-> _]%Hroot [-> _]%Hroot.
  - apply NoDup_nil_2.
  - by intros i ?%not_elem_of_nil.
  - intros b i. by rewrite lookup_empty.
Qed.

Lemma new_cached bs ticks ns c q b : new_with_soft_pin_keepalive bs ticks ns = Done c -> ~ cached c q b.
Proof.
  intros Hnew Hc. pose proof (cache_new_wf _ _ _ _ Hnew) as Hwf.
  unfold new_with_soft_pin_keepalive in Hnew. case_bool_decide; [|done]. simplify_eq.
  destruct Hc as (i & n & _ & Hn & Hb). destruct i as [|[|i]]; cbn in Hn; [|done..]. by simplify_eq.
Qed.

(** ** Properties *)

(** Whole blocks of [tokens] the caller gave a block id for. *)
Definition insertable (c : RadixCache) (tokens : list Token) (blocks : list BlockId) : nat :=
  Nat.min (length blocks) (length tokens / block_size c).

(** The general form: the tree also keeps every block it has. *)
Lemma insert_ok c tokens blocks fps :
  wf c -> length fps = length blocks ->
  exists c', insert_with_fingerprints tokens blocks fps c
      = Done (c', insertable c tokens blocks * block_size c) /\
    wf c' /\ (no_orphans c -> no_orphans c') /\ block_size c' = block_size c /\
    forall q b, cached c' q b <->
      (exists k, k < insertable c tokens blocks /\ q = take ((k + 1) * block_size c) tokens /\ blocks !! k = Some b) \/
      (cached c q b /\ forall k, k < insertable c tokens blocks -> q <> take ((k + 1) * block_size c) tokens).
Proof.
  intros Hwf Hfps. pose proof (wf_block_size _ Hwf) as Hbs. unfold insert_with_fingerprints, tick.
  rewrite bool_decide_eq_false_2 by congruence. case_bool_decide as Hempty.
  { assert (insertable c tokens blocks = 0) as H0.
    { unfold insertable. destruct Hempty as [->| ->]; cbn; [lia|]. rewrite Nat.Div0.div_0_l. lia. }
    rewrite H0. exists c. split_and!; [done..|]. intros q b.
    split; [intros ?; right; split; [done|lia]|intros [(k & ? & _)|[? _]]; [lia|done]]. }
  set (now := u64_add (clock c) 1). set (c0 := set_clock now c).
  set (toks := take _ tokens).
  assert (length toks = Nat.min (length tokens) (length blocks * block_size c)) as Hlen
    by (unfold toks; rewrite length_take; lia).
  assert (wf c0) as Hwf0 by (by apply (wf_same_tree c)).
  destruct (insert_loop_ok c0 toks blocks ltac:(exact Hbs) now fps ltac:(cbn; lia) Hfps
    (S (length toks)) c0 0 0) as (c' & Hrun & [Hwf' Hreach' Hrest Hins]).
  { split; [done|done|done|constructor|lia|]. rewrite Nat.Div0.div_0_l. by apply inserted_0. }
  { lia. }
  rewrite Nat.Div0.div_0_l in Hrun. unfold root. rewrite Hrun. cbn [mbind res_bind].
  change (block_size c0) with (block_size c) in *.
  assert (length toks / block_size c = insertable c tokens blocks) as Hn.
  { rewrite Hlen. unfold insertable. destruct (Nat.min_spec (length tokens) (length blocks * block_size c)) as [[? ->]|[Hle ->]].
    - rewrite Nat.min_r; [done|]. apply Nat.lt_succ_r, Nat.Div0.div_lt_upper_bound. lia.
    - rewrite Nat.div_mul by lia. rewrite Nat.min_l; [done|]. apply Nat.div_le_lower_bound; lia. }
  assert (forall k, k < insertable c tokens blocks ->
    take ((k + 1) * block_size c) toks = take ((k + 1) * block_size c) tokens) as Hpre.
  { intros k Hk. unfold toks. rewrite take_take. f_equal. apply Nat.min_l. rewrite <-Hlen, <-Hn in *.
    pose proof (div_bounds (block_size c) Hbs (length toks)) as [? _].
    assert ((k + 1) * block_size c <= length toks / block_size c * block_size c) by (apply Nat.mul_le_mono_r; lia).
    lia. }
  assert (forall q b, cached c0 q b <-> cached c q b) as Hc0 by (intros; by apply cached_same_shape).
  exists c'. rewrite <-Hn at 1. assert (block_size c' = block_size c) as -> by apply Hrest.
  split; [done|]. split_and!; [done| |done|].
  { intros ?. apply Hreach'. by apply (no_orphans_same_shape c). }
  intros q b. rewrite (Hins q b), Hn, Hc0. cbn.
  split; (intros [(k & Hk & Hq & Hb)|[Hc Hno]];
    [left; exists k; split; [done|]; split; [|done]|right; split; [done|]; intros k Hk; specialize (Hno k Hk)]).
  - by rewrite <-Hpre.
  - by rewrite <-Hpre.
  - by rewrite Hpre.
  - by rewrite Hpre.
Qed.

(** C3: [insert_with_fingerprints] is a map update. On a well-formed cache,
    given as many fingerprints as blocks, it returns the number of tokens of
    the whole blocks it was given ids for; afterwards the cache is
    well-formed, each of these prefixes of the tokens maps to the caller's
    block, whatever was there before, and every other prefix is cached exactly
    as it was. The edges it splits and the partial tail it stores change
    nothing else. *)
Theorem insert_spec c tokens blocks fps :
  wf c -> length fps = length blocks ->
  exists c', insert_with_fingerprints tokens blocks fps c
      = Done (c', insertable c tokens blocks * block_size c) /\
    wf c' /\ block_size c' = block_size c /\
    forall q b, cached c' q b <->
      (exists k, k < insertable c tokens blocks /\ q = take ((k + 1) * block_size c) tokens /\ blocks !! k = Some b) \/
      (cached c q b /\ forall k, k < insertable c tokens blocks -> q <> take ((k + 1) * block_size c) tokens).
Proof.
  intros Hwf Hfps. destruct (insert_ok c tokens blocks fps Hwf Hfps) as (c' & Hrun & Hwf' & _ & Hsize & Hc).
  exists c'. split_and!; done.
Qed.

(** What was inserted is found. After an insertion of [n] whole blocks, a
    lookup of any tokens that extend them matches at least those blocks and
    returns the ids inserted, in order. *)
Theorem insert_lookup_roundtrip c tokens blocks fps tokens' :
  wf c -> length fps = length blocks ->
  take (insertable c tokens blocks * block_size c) tokens `prefix_of` tokens' ->
  exists c' len c'' len' bs, insert_with_fingerprints tokens blocks fps c = Done (c', len) /\
    lookup tokens' c' = Done (c'', (len', bs)) /\ len <= len' /\
    take (insertable c tokens blocks) bs = take (insertable c tokens blocks) blocks.
Proof.
  intros Hwf Hfps Hpre. destruct (insert_ok c tokens blocks fps Hwf Hfps) as (c' & Hrun & Hwf' & _ & Hsize & Hc).
  destruct (lookup_ok' c' tokens' Hwf') as (c'' & len & bs & Hlook & Hl & _ & Hbs & _).
  pose proof (wf_block_size _ Hwf) as Hpos. set (n := insertable c tokens blocks) in *.
  assert (n * block_size c <= length tokens) as Hnt.
  { unfold n, insertable. pose proof (div_bounds (block_size c) Hpos (length tokens)) as [? _]. nia. }
  assert (n <= length blocks) as Hnb by (unfold n, insertable; lia).
  assert (forall k, k < n -> bs !! k = blocks !! k) as Hk.
  { intros k Hk. destruct (lookup_lt_is_Some_2 blocks k) as [b Hb]; [lia|]. rewrite Hb. apply Hbs. rewrite Hsize.
    assert ((k + 1) * block_size c <= n * block_size c) as Hle by (apply Nat.mul_le_mono_r; lia).
    destruct Hpre as [rest ->]. split; [rewrite length_app, length_take; lia|].
    rewrite take_app_le by (rewrite length_take; lia). rewrite take_take, Nat.min_l by done.
    apply Hc. left. by exists k. }
  assert (take n bs = take n blocks) as Htake.
  { apply list_eq. intros k. destruct (decide (k < n)).
    - rewrite !lookup_take_lt by done. by apply Hk.
    - by rewrite !lookup_take_ge by lia. }
  exists c', (n * block_size c), c'', len, bs. split_and!; [done..| |done].
  rewrite Hl, Hsize. apply Nat.mul_le_mono_r.
  apply (f_equal length) in Htake. rewrite !length_take in Htake. lia.
Qed.
