(* ===== verification/RadixEvict.v ===== *)
(** * Radix prefix cache: eviction

    Models [evict], [evict_with_policy], [evict_with_policy_for_intent],
    [evict_with_policy_for_intent_excluding], [select_blocks_with_policy], the
    predicates they share and [gc_orphan_tombstones] of
    [infer/src/prefix_cache.rs].

    The subtree scan recurses on the children; its fuel, one more than the
    number of nodes, is enough when no node is its own ancestor. *)

From S2P Require Import Prelude Tier Policy RadixTypes.

Inductive BlockSelectionIntent := Evict | Spill | Drain.

#[export] Instance BlockSelectionIntent_eq_dec : EqDecision BlockSelectionIntent.
Proof. solve_decision. Defined.

(** [children.values()], in some order. *)
Definition child_ids (n : Node) : list nat := (map_to_list (n_children n)).*2.

(** [.any(f)] and [.all(f)] on fallible tests, stopping as early as the
    iterator does. *)
Fixpoint any_res {A} (f : A -> res bool) (l : list A) : res bool :=
  match l with
  | [] => Done false
  | x :: l => b ← f x; if (b : bool) then Done true else any_res f l
  end.
Fixpoint all_res {A} (f : A -> res bool) (l : list A) : res bool :=
  match l with
  | [] => Done true
  | x :: l => b ← f x; if (b : bool) then all_res f l else Done false
  end.

(** ** Tier and pin tests *)
Definition in_tier (n : Node) (tier_filter : option Tier) : bool :=
  match tier_filter with
  | None => true
  | Some t => bool_decide (tier <$> n_tier_location n = Some t)
  end.

Definition node_matches_tier_filter (c : RadixCache) (idx : nat) (tier_filter : option Tier) : bool :=
  match nodes c !! idx with
  | None => false
  | Some n => is_some (n_block_id n) && in_tier n tier_filter
  end.

Definition deadline_after (d : option N) (now : N) : bool :=
  match d with Some d => bool_decide (now < d)%N | None => false end.

Definition selection_pin_active (n : Node) (tier_filter : option Tier) (intent : BlockSelectionIntent)
    (now : N) : bool :=
  match intent with
  | Evict => deadline_after (n_soft_pin_until n) now
  | Spill =>
      match tier_filter with
      | Some HostPinned => deadline_after (n_host_spill_pin_until n) now
      | _ => deadline_after (n_soft_pin_until n) now
      end
  | Drain => false
  end.

Fixpoint subtree_has_unselected_block_in_tier (fuel : nat) (c : RadixCache) (tier_filter : option Tier)
    (selected : gset nat) (idx : nat) : res bool :=
  match fuel with
  | 0 => OutOfFuel
  | S fuel =>
      if bool_decide (idx ∈ selected) then Done false
      else if node_matches_tier_filter c idx tier_filter then Done true
      else match nodes c !! idx with
           | None => Done false
           | Some n => any_res (subtree_has_unselected_block_in_tier fuel c tier_filter selected) (child_ids n)
           end
  end.

Definition node_is_active_leaf_for_tier (c : RadixCache) (idx : nat) (tier_filter : option Tier)
    (selected : gset nat) : res bool :=
  match nodes c !! idx with
  | None => Done false
  | Some n =>
      all_res (fun child =>
        negb <$> subtree_has_unselected_block_in_tier (S (length (nodes c))) c tier_filter selected child)
        (child_ids n)
  end.

(** ** Garbage collection *)

(** One pass over the nodes; what it finds counts for the nodes after it. *)
Definition gc_pass (c : RadixCache) (reclaimable : gset nat) : gset nat :=
  foldl (fun r idx =>
    match nodes c !! idx with
    | Some n =>
        if negb (bool_decide (idx ∈ r)) && is_none (n_block_id n) && bool_decide (n_ref_count n = 0%N)
           && forallb (fun i => bool_decide (i ∈ r)) (child_ids n)
        then {[idx]} ∪ r else r
    | None => r
    end) reclaimable (seq 1 (length (nodes c) - 1)).

Fixpoint gc_fixpoint (fuel : nat) (c : RadixCache) (reclaimable : gset nat) : res (gset nat) :=
  match fuel with
  | 0 => OutOfFuel
  | S fuel =>
      let r := gc_pass c reclaimable in
      if bool_decide (r = reclaimable) then Done reclaimable else gc_fixpoint fuel c r
  end.

(** [children.retain(|_, i| !set.contains(i))] on every node. *)
Definition retain_children (set : gset nat) (c : RadixCache) : RadixCache :=
  set_nodes ((fun n => set_children (filter (fun p => p.2 ∉ set) (n_children n)) n) <$> nodes c) c.

Definition reclaim_node (n : Node) : Node :=
  set_children ∅ (set_store_state SIdle (set_entry_state IReady (set_last_access 0
    (set_ref_count 0 (set_block_id None (set_tokens [] n)))))).

Definition reclaim (c : RadixCache) (idx : nat) : res RadixCache :=
  c ← upd idx reclaim_node c; Done (set_free_nodes (free_nodes c ++ [idx]) c).

(** [reclaimed.sort_unstable()] on distinct indices. *)
Definition sorted_indices (c : RadixCache) (set : gset nat) : list nat :=
  filter (fun i => i ∈ set) (seq 0 (length (nodes c))).

Definition gc_orphan_tombstones (c : RadixCache) : res RadixCache :=
  reclaimable ← gc_fixpoint (S (length (nodes c))) c ∅;
  if bool_decide (reclaimable = ∅) then Done c
  else fold_res reclaim (sorted_indices c reclaimable) (retain_children reclaimable c).

(** ** evict *)

(** Keep the best so far unless the new one is strictly older. *)
Definition older (best : option (N * nat)) (access : N) (idx : nat) : option (N * nat) :=
  match best with
  | Some (best_access, best_idx) =>
      if bool_decide (best_access <= access)%N then Some (best_access, best_idx) else Some (access, idx)
  | None => Some (access, idx)
  end.

Definition evictable_lru (c : RadixCache) (evicted : gset nat) (idx : nat) (n : Node) : res bool :=
  if bool_decide (idx = root) || bool_decide (idx ∈ evicted) then Done false
  else if negb (bool_decide (n_ref_count n = 0%N)) || is_none (n_block_id n) then Done false
  else node_is_active_leaf_for_tier c idx None evicted.

Definition find_lru (c : RadixCache) (evicted : gset nat) : res (option (N * nat)) :=
  fold_res (fun best idx =>
    n ← get c idx;
    ok ← evictable_lru c evicted idx n;
    Done (if (ok : bool) then older best (n_last_access n) idx else best)) (seq 0 (length (nodes c))) None.

(** [self.nodes[victim].block_id.take()] and its bookkeeping. *)
Definition take_victim (victim : nat) (c : RadixCache) (freed : list BlockId)
    : res (RadixCache * list BlockId) :=
  n ← get c victim;
  match n_block_id n with
  | Some bid =>
      c ← upd victim (set_block_id None) c;
      Done (set_block_index (delete bid (block_index c)) c, freed ++ [bid])
  | None => Done (c, freed)
  end.

(** [pick] scans for the next victim. *)
Fixpoint evict_loop (pick : RadixCache -> gset nat -> res (option nat)) (fuel n : nat)
    (c : RadixCache) (evicted : gset nat) (freed : list BlockId)
    : res (RadixCache * gset nat * list BlockId) :=
  match fuel with
  | 0 => OutOfFuel
  | S fuel =>
      if bool_decide (length freed < n) then
        o ← pick c evicted;
        match o with
        | None => Done (c, evicted, freed)
        | Some victim =>
            '(c, freed) ← take_victim victim c freed;
            evict_loop pick fuel n c ({[victim]} ∪ evicted) freed
        end
      else Done (c, evicted, freed)
  end.

Definition evict_by (pick : RadixCache -> gset nat -> res (option nat)) (n : nat) (c : RadixCache)
    : res (RadixCache * list BlockId) :=
  if bool_decide (n = 0) then Done (c, [])
  else
    '(c, evicted, freed) ← evict_loop pick (S n) n c ∅ [];
    c ← gc_orphan_tombstones (retain_children evicted c);
    Done (c, freed).

Definition evict (n : nat) (c : RadixCache) : res (RadixCache * list BlockId) :=
  evict_by (fun c evicted => fmap (M := option) snd <$> find_lru c evicted) n c.

(** ** Policy-driven selection *)
Section policy.
Context {P : Type} `{EvictionPolicy P} (policy : P) (signals : SchedulerSignals).

(** The store side has settled, as spilling and draining require. *)
Definition store_settled (intent : BlockSelectionIntent) (n : Node) : bool :=
  match intent with
  | Evict => true
  | Spill | Drain =>
      match n_store_state n with SIdle | SFailed => true | _ => false end
  end.

Definition candidate_of (bs : nat) (n : Node) : EvictionCandidate :=
  mkEvictionCandidate
    (match n_tier_location n with Some (LocGpu slot) => slot | _ => 0%N end)
    (u32_of_usize bs) (n_last_access n) (n_hit_count n) (u32_of_usize (length (n_tokens n))) false.

(** The filters on one node, without the leaf test. *)
Definition policy_candidate (tier_filter : option Tier) (intent : BlockSelectionIntent) (now : N)
    (n : Node) : bool :=
  bool_decide (n_ref_count n = 0%N) && in_tier n tier_filter
  && negb (selection_pin_active n tier_filter intent now)
  && bool_decide (n_entry_state n = IReady) && store_settled intent n.

(** The lower score wins, the earlier node among equals. *)
Definition lower_score (best : option (f32 * nat)) (sc : f32) (idx : nat) : option (f32 * nat) :=
  match best with
  | Some (best_score, best_idx) =>
      match total_cmp best_score sc with
      | Lt => best
      | Eq => if bool_decide (best_idx <= idx) then best else Some (sc, idx)
      | Gt => Some (sc, idx)
      end
  | None => Some (sc, idx)
  end.

(** One node of the scan. *)
Definition policy_step (tier_filter : option Tier) (intent : BlockSelectionIntent)
    (excluded : option (gset BlockId)) (now : N) (c : RadixCache) (evicted : gset nat)
    (best : option (f32 * nat)) (idx : nat) : res (option (f32 * nat)) :=
  n ← get c idx;
  if bool_decide (idx = root) || bool_decide (idx ∈ evicted) then Done best
  else match n_block_id n with
  | None => Done best
  | Some block_id =>
      if match excluded with Some e => bool_decide (block_id ∈ e) | None => false end then Done best
      else if negb (policy_candidate tier_filter intent now n) then Done best
      else
        active_leaf ← node_is_active_leaf_for_tier c idx tier_filter evicted;
        if negb (active_leaf : bool) then Done best
        else
          let sc := score policy (candidate_of (block_size c) n) signals in
          Done (if is_finite sc then lower_score best sc idx else best)
  end.

Definition find_by_policy (tier_filter : option Tier) (intent : BlockSelectionIntent)
    (excluded : option (gset BlockId)) (now : N) (c : RadixCache) (evicted : gset nat)
    : res (option (f32 * nat)) :=
  fold_res (policy_step tier_filter intent excluded now c evicted) (seq 0 (length (nodes c))) None.

Definition evict_with_policy_for_intent_excluding (n : nat) (tier_filter : option Tier)
    (intent : BlockSelectionIntent) (excluded : option (gset BlockId)) (c : RadixCache)
    : res (RadixCache * list BlockId) :=
  evict_by (fun c' evicted => fmap (M := option) snd <$> find_by_policy tier_filter intent excluded (clock c) c' evicted) n c.

Definition evict_with_policy_for_intent (n : nat) (tier_filter : option Tier)
    (intent : BlockSelectionIntent) (c : RadixCache) : res (RadixCache * list BlockId) :=
  evict_with_policy_for_intent_excluding n tier_filter intent None c.

Definition evict_with_policy (n : nat) (tier_filter : option Tier) (c : RadixCache)
    : res (RadixCache * list BlockId) :=
  evict_with_policy_for_intent n tier_filter Evict c.

(** [select_blocks_with_policy] breaks ties by block id, then by node. *)
Definition lower_score_block (best : option (f32 * nat * BlockId)) (sc : f32) (idx : nat) (bid : BlockId)
    : option (f32 * nat * BlockId) :=
  match best with
  | Some (best_score, best_idx, best_bid) =>
      match total_cmp best_score sc with
      | Lt => best
      | Eq =>
          if bool_decide (best_bid < bid)%N || (bool_decide (best_bid = bid) && bool_decide (best_idx <= idx))
          then best else Some (sc, idx, bid)
      | Gt => Some (sc, idx, bid)
      end
  | None => Some (sc, idx, bid)
  end.

Definition find_to_select (tier_filter : option Tier) (intent : BlockSelectionIntent)
    (require_host_swap_eligible : bool) (c : RadixCache) (selected : gset nat)
    : res (option (f32 * nat * BlockId)) :=
  fold_res (fun best idx =>
    if bool_decide (idx ∈ selected) then Done best
    else
      n ← get c idx;
      match n_block_id n with
      | None => Done best
      | Some block_id =>
          if require_host_swap_eligible && negb (n_host_swap_eligible n) then Done best
          else if negb (policy_candidate tier_filter intent (clock c) n) then Done best
          else
            active_leaf ← node_is_active_leaf_for_tier c idx tier_filter selected;
            if negb (active_leaf : bool) then Done best
            else
              let sc := score policy (candidate_of (block_size c) n) signals in
              Done (if is_finite sc then lower_score_block best sc idx block_id else best)
      end) (seq 1 (length (nodes c) - 1)) None.

Fixpoint select_loop (fuel n : nat) (tier_filter : option Tier) (intent : BlockSelectionIntent)
    (require_host_swap_eligible : bool) (c : RadixCache) (selected_nodes : gset nat)
    (selected : list BlockId) : res (list BlockId) :=
  match fuel with
  | 0 => OutOfFuel
  | S fuel =>
      if bool_decide (length selected < n) then
        o ← find_to_select tier_filter intent require_host_swap_eligible c selected_nodes;
        match o with
        | None => Done selected
        | Some (_, idx, block_id) =>
            select_loop fuel n tier_filter intent require_host_swap_eligible c
              ({[idx]} ∪ selected_nodes) (selected ++ [block_id])
        end
      else Done selected
  end.

Definition select_blocks_with_policy (n : nat) (tier_filter : option Tier)
    (intent : BlockSelectionIntent) (require_host_swap_eligible : bool) (c : RadixCache)
    : res (list BlockId) :=
  if bool_decide (n = 0) then Done []
  else select_loop (S n) n tier_filter intent require_host_swap_eligible c ∅ [].
End policy.
