(* ===== verification/RadixEvictTree.v ===== *)
(** * Pruning the radix tree

    The scan for leaves, the garbage collection, and what removing a set of
    nodes does to the tree. *)

From stdpp Require Import relations.
From S2P Require Import Prelude Tier Policy RadixTypes RadixTree RadixInsert RadixEvict.

(** ** Descendants *)
Definition child (c : RadixCache) (i j : nat) : Prop :=
  exists n k, nodes c !! i = Some n /\ n_children n !! k = Some j.

Lemma elem_of_child_ids n j : j ∈ child_ids n <-> exists k, n_children n !! k = Some j.
Proof.
  unfold child_ids. rewrite list_elem_of_fmap. split.
  - intros ([k j'] & -> & Hin). apply elem_of_map_to_list in Hin. eauto.
  - intros [k Hk]. exists (k, j). by rewrite elem_of_map_to_list.
Qed.

Lemma child_of_ids c i n j : nodes c !! i = Some n -> (child c i j <-> j ∈ child_ids n).
Proof.
  intros Hn. rewrite elem_of_child_ids. unfold child. split.
  - intros (n' & k & ? & ?). simplify_eq. eauto.
  - intros [k ?]. eauto.
Qed.

(** ** any and all *)
Lemma any_res_false {A} (f : A -> res bool) l :
  any_res f l = Done false <-> forall x, x ∈ l -> f x = Done false.
Proof.
  induction l as [|x l IH]; cbn; [split; [by intros _ y ?%not_elem_of_nil|done]|]. split.
  - destruct (f x) as [[|]| |] eqn:E; cbn; [done| |done..]. intros H y [->|Hy]%elem_of_cons; [done|].
    by apply IH.
  - intros H. rewrite (H x) by left. cbn. apply IH. intros y Hy. apply H. by right.
Qed.

Lemma any_res_total {A} (f : A -> res bool) l :
  (forall x, x ∈ l -> exists b, f x = Done b) -> exists b, any_res f l = Done b.
Proof.
  induction l as [|x l IH]; cbn; intros H; [eauto|]. destruct (H x) as [[|] Hb]; [left| |]; rewrite Hb; cbn.
  - eauto.
  - apply IH. intros y Hy. apply H. by right.
Qed.

Lemma all_res_total {A} (f : A -> res bool) l :
  (forall x, x ∈ l -> exists b, f x = Done b) -> exists b, all_res f l = Done b.
Proof.
  induction l as [|x l IH]; cbn; intros H; [eauto|]. destruct (H x) as [[|] Hb]; [left| |]; rewrite Hb; cbn.
  - apply IH. intros y Hy. apply H. by right.
  - eauto.
Qed.

Lemma all_res_true {A} (f : A -> res bool) l :
  all_res f l = Done true <-> forall x, x ∈ l -> f x = Done true.
Proof.
  induction l as [|x l IH]; cbn; [split; [by intros _ y ?%not_elem_of_nil|done]|]. split.
  - destruct (f x) as [[|]| |] eqn:E; cbn; [|done..]. intros H y [->|Hy]%elem_of_cons; [done|].
    by apply IH.
  - intros H. rewrite (H x) by left. cbn. apply IH. intros y Hy. apply H. by right.
Qed.

Lemma any_res_true {A} (f : A -> res bool) l : any_res f l = Done true -> exists x, x ∈ l /\ f x = Done true.
Proof.
  induction l as [|x l IH]; cbn; [done|]. destruct (f x) as [[|]| |] eqn:E; cbn; [|intros (y & ? & ?)%IH|done..].
  - exists x. split; [left|done].
  - exists y. split; [by right|done].
Qed.

Lemma all_res_false {A} (f : A -> res bool) l : all_res f l = Done false -> exists x, x ∈ l /\ f x = Done false.
Proof.
  induction l as [|x l IH]; cbn; [done|]. destruct (f x) as [[|]| |] eqn:E; cbn; [intros (y & ? & ?)%IH| |done..].
  - exists y. split; [by right|done].
  - exists x. split; [left|done].
Qed.

(** ** The scan of a subtree *)
Section scan.
Context (c : RadixCache) (evicted : gset nat).

Lemma matches_any_tier i : node_matches_tier_filter c i None = true <-> has_block c i.
Proof.
  unfold node_matches_tier_filter, has_block, is_some, is_none. destruct (nodes c !! i) as [n|].
  - cbn. rewrite andb_true_r. destruct (n_block_id n) as [b|] eqn:Hb; cbn.
    + split; [intros _; exists n; by rewrite Hb|done].
    + split; [done|]. intros (n' & [= <-] & H). rewrite Hb in H. by destruct H.
  - split; [done|]. by intros (n & ? & _).
Qed.

(** Below an evicted node there is no block left. *)
Definition cleared : Prop := forall e j, e ∈ evicted -> rtc (child c) e j -> ~ has_block c j.

Lemma subtree_false fuel i :
  cleared -> subtree_has_unselected_block_in_tier fuel c None evicted i = Done false ->
  forall j, rtc (child c) i j -> ~ has_block c j.
Proof.
  intros Hcl. revert i. induction fuel as [|fuel IH]; intros i; cbn; [done|].
  case_bool_decide as Hi; [intros _ j; by apply Hcl|].
  destruct (node_matches_tier_filter c i None) eqn:Hm; [done|].
  assert (~ has_block c i) as Hnb by (intros Hb%matches_any_tier; congruence).
  intros Hf j Hij. inversion Hij as [|? i' ? Hii' Hi'j]; [by subst|]. subst.
  destruct Hii' as (n & k & Hn & Hk). rewrite Hn in Hf.
  eapply IH; [|exact Hi'j]. eapply any_res_false in Hf; [exact Hf|]. apply elem_of_child_ids. eauto.
Qed.

Lemma active_leaf_true i :
  cleared -> node_is_active_leaf_for_tier c i None evicted = Done true ->
  forall i' j, child c i i' -> rtc (child c) i' j -> ~ has_block c j.
Proof.
  intros Hcl Hleaf i' j (n & k & Hn & Hk) Hi'j. unfold node_is_active_leaf_for_tier in Hleaf. rewrite Hn in Hleaf.
  pose proof (proj1 (all_res_true _ _) Hleaf i' ltac:(apply elem_of_child_ids; eauto)) as Hf.
  cbv beta in Hf.
  destruct (subtree_has_unselected_block_in_tier (S (length (nodes c))) c None evicted i') as [[|]| |] eqn:E; try done.
  by eapply subtree_false.
Qed.

Lemma subtree_true fuel i :
  subtree_has_unselected_block_in_tier fuel c None evicted i = Done true -> exists j, rtc (child c) i j /\ has_block c j.
Proof.
  revert i. induction fuel as [|fuel IH]; intros i; cbn; [done|]. case_bool_decide; [done|].
  destruct (node_matches_tier_filter c i None) eqn:Hm.
  { intros _. exists i. split; [constructor|by apply matches_any_tier]. }
  destruct (nodes c !! i) as [n|] eqn:Hn; [|done]. intros (x & [k Hk]%elem_of_child_ids & (j & Hxj & Hj)%IH)%any_res_true.
  exists j. split; [|done]. eapply rtc_l; [|exact Hxj]. by exists n, k.
Qed.

(** What keeps a node from being a leaf is a block below it. *)
Lemma active_leaf_false i : has_block c i -> node_is_active_leaf_for_tier c i None evicted = Done false ->
  exists x j, child c i x /\ rtc (child c) x j /\ has_block c j.
Proof.
  intros (n & Hn & _). unfold node_is_active_leaf_for_tier. rewrite Hn. intros (x & [k Hk]%elem_of_child_ids & Hx)%all_res_false.
  cbv beta in Hx.
  destruct (subtree_has_unselected_block_in_tier (S (length (nodes c))) c None evicted x) as [[|]| |] eqn:E; try done.
  apply subtree_true in E as (j & Hxj & Hj). exists x, j. split_and!; [by exists n, k|done|done].
Qed.

(** The ancestors of a node of the tree: distinct, and nearer to the root. *)
Record lineage (q : list Token) (i : nat) (anc : list nat) : Prop := mk_lineage {
  ln_path : at_path c q i;
  ln_nodup : NoDup (i :: anc);
  ln_lt : Forall (fun a => a < length (nodes c)) (i :: anc);
  ln_short : Forall (fun a => exists q', at_path c q' a /\ length q' < length q) anc;
}.

Lemma lineage_child q p anc k i m :
  wf c -> lineage q p anc -> edge c q p k i m -> lineage (q ++ n_tokens m) i (p :: anc).
Proof.
  intros Hwf [Hq Hnd Hlt Hshort] He. pose proof (edge_longer c Hwf _ _ _ _ _ He) as Hlen.
  assert (Forall (fun a => exists q', at_path c q' a /\ length q' < length (q ++ n_tokens m)) (p :: anc)) as Hall.
  { constructor; [by exists q|]. eapply Forall_impl; [exact Hshort|]. cbn. intros a (q' & ? & ?).
    exists q'. split; [done|lia]. }
  split; [by eapply edge_path| |constructor; [|done]|done].
  - constructor; [|done]. intros Hin. rewrite Forall_forall in Hall.
    destruct (Hall i Hin) as (q' & Hq' & Hl). apply edge_path in He.
    rewrite (wf_unique _ Hwf _ _ _ Hq' He) in Hl. lia.
  - destruct He as (_ & Hm & _). by eapply lookup_lt_Some.
Qed.

Lemma lineage_exists q i : wf c -> at_path c q i -> exists anc, lineage q i anc.
Proof.
  intros Hwf. induction 1 as [|q p n k i m Hq [anc Hl] Hn Hk Hi].
  - exists []. destruct (wf_root _ Hwf) as (r & Hr & _). apply lookup_lt_Some in Hr.
    split; [constructor|apply NoDup_singleton|by constructor|constructor].
  - exists (p :: anc). eapply lineage_child; [done|exact Hl|]. unfold edge. eauto.
Qed.

Lemma lineage_depth q i anc : lineage q i anc -> length anc < length (nodes c).
Proof.
  intros [_ Hnd Hlt _]. assert (i :: anc ⊆ seq 0 (length (nodes c))) as Hsub.
  { intros a Ha. rewrite Forall_forall in Hlt. apply elem_of_seq. specialize (Hlt a Ha). lia. }
  pose proof (NoDup_submseteq _ _ Hnd Hsub) as Hle%submseteq_length. rewrite length_seq in Hle. cbn in Hle. lia.
Qed.

End scan.

Section scan_total.
(** The links of [c] are those of the well-formed [c0]: taking blocks away
    leaves them. *)
Context (c0 c : RadixCache) (Hwf : wf c0) (evicted : gset nat).
Context (Hlinks : forall j, node_links <$> nodes c !! j = node_links <$> nodes c0 !! j).

Lemma links_length : length (nodes c) = length (nodes c0).
Proof using Hlinks.
  apply Nat.le_antisymm; apply Nat.nlt_ge; intros Hlt.
  - pose proof (Hlinks (length (nodes c0))) as H. rewrite (proj2 (lookup_ge_None (nodes c0) _)) in H by lia.
    apply lookup_lt_is_Some_2 in Hlt as [n Hn]. by rewrite Hn in H.
  - pose proof (Hlinks (length (nodes c))) as H. rewrite (proj2 (lookup_ge_None (nodes c) _)) in H by lia.
    apply lookup_lt_is_Some_2 in Hlt as [n Hn]. by rewrite Hn in H.
Qed.

Lemma links_children i n : nodes c !! i = Some n ->
  exists n0, nodes c0 !! i = Some n0 /\ n_children n0 = n_children n.
Proof using Hlinks.
  intros Hn. specialize (Hlinks i). rewrite Hn in Hlinks. destruct (nodes c0 !! i) as [n0|]; [|done].
  exists n0. split; [done|]. cbn in Hlinks. unfold node_links in Hlinks. congruence.
Qed.

Lemma subtree_total fuel : forall q i anc,
  lineage c0 q i anc -> length (nodes c0) <= fuel + length anc ->
  exists b, subtree_has_unselected_block_in_tier fuel c None evicted i = Done b.
Proof using Hwf Hlinks.
  induction fuel as [|fuel IH]; intros q i anc Hl Hf.
  { pose proof (lineage_depth c0 _ _ _ Hl). lia. }
  cbn. case_bool_decide; [eauto|]. destruct (node_matches_tier_filter c i None); [eauto|].
  destruct (nodes c !! i) as [n|] eqn:Hn; [|eauto].
  destruct (links_children i n Hn) as (n0 & Hn0 & Hch).
  apply any_res_total. intros j [k Hk]%elem_of_child_ids. rewrite <-Hch in Hk.
  destruct (edge_exists c0 Hwf q i n0 k j (ln_path _ _ _ _ Hl) Hn0 Hk) as [m He].
  eapply IH; [by eapply lineage_child|]. cbn. lia.
Qed.

Lemma active_leaf_total q i :
  at_path c0 q i -> exists b, node_is_active_leaf_for_tier c i None evicted = Done b.
Proof using Hwf Hlinks.
  intros Hq. unfold node_is_active_leaf_for_tier.
  destruct (nodes c !! i) as [n|] eqn:Hn; [|eauto]. destruct (links_children i n Hn) as (n0 & Hn0 & Hch).
  apply all_res_total. intros j [k Hk]%elem_of_child_ids. rewrite <-Hch in Hk.
  destruct (lineage_exists c0 q i Hwf Hq) as [anc Hl].
  destruct (edge_exists c0 Hwf q i n0 k j Hq Hn0 Hk) as [m He].
  destruct (subtree_total (S (length (nodes c))) (q ++ n_tokens m) j (i :: anc)) as [b Hb];
    [by eapply lineage_child|rewrite links_length; cbn; lia|].
  rewrite Hb. cbn. eauto.
Qed.
End scan_total.

(** ** Removing a set of nodes *)
Section prune.
Context (c : RadixCache) (Hwf : wf c) (gone : gset nat) (Hroot : 0 ∉ gone).
Context (c' : RadixCache) (Hsize : block_size c' = block_size c).
Context (Hnodes : forall j n, nodes c !! j = Some n -> exists n', nodes c' !! j = Some n' /\
  (j ∉ gone -> n_tokens n' = n_tokens n /\ n_block_id n' = n_block_id n /\
     n_children n' = filter (fun p => p.2 ∉ gone) (n_children n))).
Context (Hlength : length (nodes c') = length (nodes c)).

Lemma prune_back j n' : nodes c' !! j = Some n' -> exists n, nodes c !! j = Some n.
Proof using Hlength.
  intros Hn'. apply lookup_lt_is_Some_2. rewrite <-Hlength. by eapply lookup_lt_Some.
Qed.

Lemma prune_path q j : at_path c' q j -> at_path c q j /\ j ∉ gone.
Proof using Hwf Hroot Hnodes Hlength.
  induction 1 as [|q p n' k j m' Hq [IH Hp] Hn' Hk Hm']; [split; [constructor|done]|].
  destruct (prune_back _ _ Hn') as [n Hn]. destruct (Hnodes p n Hn) as (n0 & Hn0 & Hkeep). simplify_eq.
  destruct (Hkeep Hp) as (_ & _ & Hch). rewrite Hch in Hk. apply map_lookup_filter_Some in Hk as [Hk Hj].
  cbn in Hj. split; [|done].
  destruct (edge_exists c Hwf q p n k j IH Hn Hk) as [m He]. pose proof He as (_ & Hm & _).
  destruct (Hnodes j m Hm) as (m0 & Hm0 & Hkeep'). simplify_eq. destruct (Hkeep' Hj) as (-> & _).
  by eapply edge_path.
Qed.

Lemma prune_keep q j :
  at_path c q j -> (forall a, rtc (child c) a j -> a ∉ gone) -> at_path c' q j.
Proof using Hwf Hnodes.
  induction 1 as [|q p n k j m Hq IH Hn Hk Hm]; intros Hcl; [constructor|].
  assert (child c p j) as Hpj by (unfold child; eauto).
  assert (p ∉ gone) as Hp by (apply Hcl; by apply rtc_once).
  assert (j ∉ gone) as Hj by (apply Hcl; constructor).
  destruct (Hnodes p n Hn) as (n' & Hn' & Hkeep). destruct (Hkeep Hp) as (_ & _ & Hch).
  destruct (Hnodes j m Hm) as (m' & Hm' & Hkeep'). destruct (Hkeep' Hj) as (<- & _).
  eapply at_child; [|exact Hn'| |exact Hm'].
  - apply IH. intros a Ha. apply Hcl. by eapply rtc_r.
  - rewrite Hch. by apply map_lookup_filter_Some.
Qed.

Context (Hfree : NoDup (free_nodes c') /\ forall i, i ∈ free_nodes c' ->
  (i ∈ gone \/ forall q, ~ at_path c q i) /\ exists n, nodes c' !! i = Some n /\ n_block_id n = None).
Context (Hindex : forall b i, block_index c' !! b = Some i -> block_index c !! b = Some i /\ i ∉ gone).

Lemma prune_wf : wf c'.
Proof using All.
  pose proof Hwf as [H1 H2 H3 H4 H5 H6 H7]. split.
  - congruence.
  - destruct H2 as (r & Hr & ? & ?). destruct (Hnodes 0 r Hr) as (r' & Hr' & Hkeep).
    destruct (Hkeep Hroot) as (? & ? & _). exists r'. split_and!; congruence.
  - intros q p n' k i [Hq Hp]%prune_path Hn' Hk.
    destruct (prune_back _ _ Hn') as [n Hn]. destruct (Hnodes p n Hn) as (n0 & Hn0 & Hkeep). simplify_eq.
    destruct (Hkeep Hp) as (_ & _ & Hch). rewrite Hch in Hk. apply map_lookup_filter_Some in Hk as [Hk Hi].
    cbn in Hi. destruct (H3 q p n k i Hq Hn Hk) as (m & Hm & Hok).
    destruct (Hnodes i m Hm) as (m' & Hm' & Hkeep'). destruct (Hkeep' Hi) as (Ht & Hb & _).
    exists m'. split; [done|]. unfold edge_ok in *. by rewrite Ht, Hb, Hsize.
  - intros q q' i [Hq _]%prune_path [Hq' _]%prune_path. by eapply H4.
  - apply Hfree.
  - intros i Hi. destruct Hfree as [_ Hf]. destruct (Hf i Hi) as [Hg Hn]. split; [done|].
    intros q [Hq ?]%prune_path. destruct Hg as [|Hg]; [done|by apply (Hg q)].
  - intros b i Hb. destruct (Hindex b i Hb) as [Hb' Hi]. destruct (H7 b i Hb') as (n & Hn & Hbn).
    destruct (Hnodes i n Hn) as (n' & Hn' & Hkeep). destruct (Hkeep Hi) as (_ & Heq & _).
    exists n'. split; [done|congruence].
Qed.
End prune.

(** ** Garbage collection *)
Definition gc_closed (c : RadixCache) (r : gset nat) : Prop :=
  forall x, x ∈ r -> x <> 0 /\ exists n, nodes c !! x = Some n /\ n_block_id n = None /\
    n_ref_count n = 0%N /\ forall j, j ∈ child_ids n -> j ∈ r.

Lemma gc_pass_ok c r : gc_closed c r -> gc_closed c (gc_pass c r) /\ r ⊆ gc_pass c r.
Proof.
  unfold gc_pass.
  assert (forall l, (forall x, x ∈ l -> x <> 0) -> forall r, gc_closed c r ->
    gc_closed c (foldl (fun r idx =>
      match nodes c !! idx with
      | Some n =>
          if negb (bool_decide (idx ∈ r)) && is_none (n_block_id n) && bool_decide (n_ref_count n = 0%N)
             && forallb (fun i => bool_decide (i ∈ r)) (child_ids n)
          then {[idx]} ∪ r else r
      | None => r
      end) r l) /\ r ⊆ foldl (fun r idx =>
      match nodes c !! idx with
      | Some n =>
          if negb (bool_decide (idx ∈ r)) && is_none (n_block_id n) && bool_decide (n_ref_count n = 0%N)
             && forallb (fun i => bool_decide (i ∈ r)) (child_ids n)
          then {[idx]} ∪ r else r
      | None => r
      end) r l) as Hgen.
  { induction l as [|x l IH]; intros Hl r' Hr; [done|]. cbn.
    set (r1 := match nodes c !! x with Some _ => _ | None => _ end).
    assert (gc_closed c r1 /\ r' ⊆ r1) as [Hr1 Hsub].
    { unfold r1. destruct (nodes c !! x) as [n|] eqn:Hn; [|done].
      destruct (_ && _) eqn:Hcond; [|done]. split; [|set_solver].
      apply andb_true_iff in Hcond as [[[_ Hb]%andb_true_iff Href]%andb_true_iff Hch].
      apply bool_decide_eq_true in Href. unfold is_none in Hb.
      intros y [->%elem_of_singleton|Hy]%elem_of_union.
      - split; [apply Hl; left|]. exists n. split; [done|]. split; [by destruct (n_block_id n)|]. split; [done|].
        intros j Hj. apply elem_of_union. right. rewrite forallb_forall in Hch.
        apply list_elem_of_In, Hch in Hj. by apply bool_decide_eq_true in Hj.
      - destruct (Hr y Hy) as (? & m & ? & ? & ? & Hm). split; [done|]. exists m. split_and!; [done..|].
        intros j Hj. apply elem_of_union. right. by apply Hm. }
    destruct (IH ltac:(intros; apply Hl; by right) r1 Hr1) as [? ?]. split; [done|]. by transitivity r1. }
  intros Hr. apply Hgen; [|done]. intros x Hx%elem_of_seq. lia.
Qed.

Lemma gc_closed_range c r : gc_closed c r -> size r <= length (nodes c).
Proof.
  intros Hr. assert (r ⊆ list_to_set (seq 0 (length (nodes c)))) as Hsub.
  { intros x Hx. destruct (Hr x Hx) as (_ & n & Hn & _). apply lookup_lt_Some in Hn.
    apply elem_of_list_to_set, elem_of_seq. lia. }
  apply subseteq_size in Hsub. rewrite size_list_to_set, length_seq in Hsub by apply NoDup_seq. done.
Qed.

Lemma gc_fixpoint_ok c fuel : forall r,
  gc_closed c r -> length (nodes c) < fuel + size r ->
  exists r', gc_fixpoint fuel c r = Done r' /\ gc_closed c r' /\ gc_pass c r' = r'.
Proof.
  induction fuel as [|fuel IH]; intros r Hr Hf.
  { pose proof (gc_closed_range c r Hr). lia. }
  cbn. destruct (gc_pass_ok c r Hr) as [Hr' Hsub]. case_bool_decide as Heq; [eauto|].
  apply IH; [done|].
  assert (size r < size (gc_pass c r)); [|lia]. apply subset_size. split; [done|].
  intros Hsub'. apply Heq. apply set_eq. set_solver.
Qed.

Lemma gc_closed_desc c r x j : gc_closed c r -> x ∈ r -> rtc (child c) x j -> j ∈ r.
Proof.
  intros Hr Hx. induction 1 as [|x y z (n & k & Hn & Hk) _ IH]; [done|]. apply IH.
  destruct (Hr x Hx) as (_ & n' & Hn' & _ & _ & Hch). simplify_eq. apply Hch, elem_of_child_ids. eauto.
Qed.

Lemma elem_of_sorted_indices c r x : gc_closed c r -> (x ∈ sorted_indices c r <-> x ∈ r).
Proof.
  intros Hr. unfold sorted_indices. rewrite list_elem_of_filter, elem_of_seq. split; [by intros []|].
  intros Hx. split; [done|]. destruct (Hr x Hx) as (_ & n & Hn & _). apply lookup_lt_Some in Hn. lia.
Qed.

Lemma reclaim_Done c x n :
  nodes c !! x = Some n ->
  reclaim c x = Done (set_free_nodes (free_nodes c ++ [x]) (set_nodes (<[x := reclaim_node n]> (nodes c)) c)).
Proof. intros Hn. unfold reclaim. by rewrite (upd_Some' _ _ _ _ Hn). Qed.

Lemma reclaim_all l : forall c,
  NoDup l -> (forall x, x ∈ l -> x < length (nodes c)) ->
  exists c', fold_res reclaim l c = Done c' /\ free_nodes c' = free_nodes c ++ l /\
    c' = set_free_nodes (free_nodes c') (set_nodes (nodes c') c) /\
    forall j, nodes c' !! j = if decide (j ∈ l) then reclaim_node <$> nodes c !! j else nodes c !! j.
Proof.
  induction l as [|x l IH]; intros c Hnd Hlt.
  - exists c. rewrite app_nil_r. by destruct c.
  - apply NoDup_cons in Hnd as [Hx Hnd].
    destruct (lookup_lt_is_Some_2 (nodes c) x) as [n Hn]; [apply Hlt; left|].
    cbn [fold_res]. rewrite (reclaim_Done _ _ _ Hn). cbn [mbind res_bind].
    set (c1 := set_free_nodes _ _).
    destruct (IH c1 Hnd) as (c' & Hrun & Hfree & Hrest & Hnodes).
    { intros y Hy. cbn. rewrite length_insert. apply Hlt. by right. }
    exists c'. rewrite Hrun. split; [done|]. cbn in Hfree. rewrite <-app_assoc in Hfree.
    split; [done|]. split; [by rewrite Hrest|]. intros j. rewrite Hnodes. cbn [nodes c1 set_free_nodes set_nodes].
    destruct (decide (j = x)) as [->|Hj].
    + rewrite decide_False by done. rewrite decide_True by left.
      rewrite list_lookup_insert_eq by (by eapply lookup_lt_Some). by rewrite Hn.
    + rewrite list_lookup_insert_ne by done.
      destruct (decide (j ∈ l)), (decide (j ∈ x :: l)); try done; set_solver.
Qed.

Lemma retain_children_nodes set c j :
  nodes (retain_children set c) !! j =
    (fun n => set_children (filter (fun p => p.2 ∉ set) (n_children n)) n) <$> nodes c !! j.
Proof. unfold retain_children. cbn. by rewrite list_lookup_fmap. Qed.

Lemma retain_none n : set_children (filter (fun p => p.2 ∉ (∅ : gset nat)) (n_children n)) n = n.
Proof. rewrite map_filter_id by set_solver. by destruct n. Qed.

Lemma gc_ok c :
  exists r c', gc_orphan_tombstones c = Done c' /\ gc_closed c r /\
    free_nodes c' = free_nodes c ++ sorted_indices c r /\
    block_size c' = block_size c /\ block_index c' = block_index c /\ clock c' = clock c /\
    forall j, nodes c' !! j =
      (if decide (j ∈ r) then reclaim_node
       else fun n => set_children (filter (fun p => p.2 ∉ r) (n_children n)) n) <$> nodes c !! j.
Proof.
  destruct (gc_fixpoint_ok c (S (length (nodes c))) ∅) as (r & Hrun & Hr & _).
  { by intros x ?%elem_of_empty. }
  { lia. }
  unfold gc_orphan_tombstones. rewrite Hrun. cbn [mbind res_bind]. case_bool_decide as Hempty.
  - exists r, c. subst r. split; [done|]. split; [done|]. split.
    { destruct (sorted_indices c ∅) as [|x l] eqn:E; [by rewrite app_nil_r|].
      assert (x ∈ (∅ : gset nat)) by (rewrite <-(elem_of_sorted_indices c) by done; rewrite E; left). set_solver. }
    split_and!; [done..|]. intros j. rewrite decide_False by set_solver.
    destruct (nodes c !! j) as [n|]; cbn; [|done]. f_equal. symmetry. apply retain_none.
  - destruct (reclaim_all (sorted_indices c r) (retain_children r c)) as (c' & Hrun' & Hfree & Hrest & Hnodes).
    + apply NoDup_filter, NoDup_seq.
    + intros x Hx%list_elem_of_filter. destruct Hx as [_ Hx%elem_of_seq]. cbn. rewrite length_fmap. lia.
    + exists r, c'. rewrite Hrun'. split_and!; [done|done|done|by rewrite Hrest..|].
      intros j. rewrite Hnodes, retain_children_nodes.
      destruct (decide (j ∈ r)) as [Hj|Hj], (decide (j ∈ sorted_indices c r)) as [Hj'|Hj'];
        try (rewrite elem_of_sorted_indices in Hj' by done; done); by destruct (nodes c !! j).
Qed.
