(* ===== verification/RadixEvictProps.v ===== *)
(** * What an eviction does

    [evict] and the policy-driven evictions of [infer/src/prefix_cache.rs]
    over all tiers, on a well-formed cache: they return, free unreferenced
    blocks only, and lose no other cached prefix. *)

From stdpp Require Import relations.
From S2P Require Import Prelude Tier Policy RadixTypes RadixTree RadixLookupProps RadixInsert.
From S2P Require Import RadixEvict RadixEvictTree.

(** ** The loop *)

(** What a scan for a victim promises: the node it picks has a block nobody
    references, none below it, and passes the scan's own test [ok]. *)
Definition victim_ok (ok : Node -> Prop) (c : RadixCache) (evicted : gset nat) (v : nat) : Prop :=
  v <> 0 /\ (v ∉ evicted) /\ node_is_active_leaf_for_tier c v None evicted = Done true /\
  exists n b, nodes c !! v = Some n /\ n_block_id n = Some b /\ n_ref_count n = 0%N /\ ok n.

Definition leaves_decided (c : RadixCache) (evicted : gset nat) : Prop :=
  forall i n, nodes c !! i = Some n -> is_Some (n_block_id n) ->
    exists b, node_is_active_leaf_for_tier c i None evicted = Done b.

Definition pick_sound (pick : RadixCache -> gset nat -> res (option nat)) (ok : Node -> Prop) : Prop :=
  forall c evicted, leaves_decided c evicted ->
    exists o, pick c evicted = Done o /\ forall v, o = Some v -> victim_ok ok c evicted v.

Section loop.
Context (pick : RadixCache -> gset nat -> res (option nat)) (ok : Node -> Prop) (c0 : RadixCache).
Context (free0 : list nat).

(** The state after the victims [vs] were taken. *)
Record taken (vs : list nat) (freed : list BlockId) (c : RadixCache) : Prop := mk_taken {
  tk_nodup : NoDup vs;
  tk_nodes : forall j, nodes c !! j =
    (if decide (j ∈ vs) then set_block_id None else id) <$> nodes c0 !! j;
  tk_rest : free_nodes c = free0 /\ block_size c = block_size c0 /\ clock c = clock c0;
  tk_index : forall b i, block_index c !! b = Some i -> block_index c0 !! b = Some i /\ b ∉ freed;
  tk_freed : Forall2 (fun v b => v <> 0 /\ exists n, nodes c0 !! v = Some n /\ n_block_id n = Some b /\
    n_ref_count n = 0%N /\ ok n) vs freed;
  tk_cleared : cleared c (list_to_set vs);
}.

Lemma taken_links vs freed c :
  taken vs freed c -> forall j, node_links <$> nodes c !! j = node_links <$> nodes c0 !! j.
Proof. intros Ht j. rewrite (tk_nodes _ _ _ Ht). by destruct (nodes c0 !! j), (decide (j ∈ vs)). Qed.

Lemma taken_child vs freed c i j : taken vs freed c -> (child c i j <-> child c0 i j).
Proof.
  intros Ht. unfold child. rewrite (tk_nodes _ _ _ Ht).
  split; intros (n & k & Hn & Hk).
  - destruct (nodes c0 !! i) as [n0|]; [|done]. exists n0, k. split; [done|].
    cbn in Hn. simplify_eq. by destruct (decide (i ∈ vs)).
  - rewrite Hn. eexists _, k. split; [done|]. by destruct (decide (i ∈ vs)).
Qed.

Lemma rtc_child_iff c1 c2 i j :
  (forall x y, child c1 x y <-> child c2 x y) -> (rtc (child c1) i j <-> rtc (child c2) i j).
Proof.
  intros H. split; induction 1 as [|x y z Hxy _ IH]; try constructor; (eapply rtc_l; [apply H, Hxy|done]).
Qed.

Lemma taken_has_block vs freed c j :
  taken vs freed c -> (has_block c j <-> has_block c0 j /\ j ∉ vs).
Proof.
  intros Ht. unfold has_block. rewrite (tk_nodes _ _ _ Ht). destruct (nodes c0 !! j) as [n|] eqn:Hn; cbn.
  2: { split; [by intros (? & ? & _)|by intros [(? & ? & _) _]]. }
  case_decide as Hj; split.
  - intros (n' & [= <-] & Hb). cbn in Hb. by destruct Hb.
  - by intros [_ ?].
  - intros (n' & [= <-] & Hb). split; [by exists n|done].
  - intros [(n' & [= <-] & Hb) _]. by exists n.
Qed.

Lemma taken_nil : taken [] [] (set_free_nodes free0 c0).
Proof.
  split; [apply NoDup_nil_2| |done| |constructor|].
  - intros j. cbn. rewrite decide_False by set_solver. by destruct (nodes c0 !! j).
  - intros b i ?. split; [done|set_solver].
  - intros e j He. cbn in He. set_solver.
Qed.

Lemma taken_step vs freed c v :
  taken vs freed c -> victim_ok ok c (list_to_set vs) v ->
  exists c' b, take_victim v c freed = Done (c', freed ++ [b]) /\ taken (vs ++ [v]) (freed ++ [b]) c'.
Proof.
  intros Ht (Hv0 & Hnot & Hleaf & n & b & Hn & Hb & Href & Hok).
  rewrite elem_of_list_to_set in Hnot.
  assert (nodes c0 !! v = Some n) as Hn0.
  { rewrite (tk_nodes _ _ _ Ht), decide_False in Hn by done. by destruct (nodes c0 !! v); cbn in Hn; simplify_eq. }
  unfold take_victim, get. rewrite (index_Some _ _ _ Hn). cbn [mbind res_bind]. rewrite Hb.
  rewrite (upd_Some _ _ _ _ Hn). cbn [mbind res_bind].
  set (c' := set_block_index _ _). exists c', b. split; [done|].
  assert (forall j, nodes c' !! j = (if decide (j ∈ vs ++ [v]) then set_block_id None else id) <$> nodes c0 !! j) as Hnodes.
  { intros j. cbn. destruct (decide (j = v)) as [->|Hj].
    - rewrite decide_True by set_solver. rewrite list_lookup_insert_eq, Hn0 by (by eapply lookup_lt_Some). done.
    - rewrite list_lookup_insert_ne, (tk_nodes _ _ _ Ht) by done.
      destruct (decide (j ∈ vs)), (decide (j ∈ vs ++ [v])); set_solver. }
  assert (forall x y, child c' x y <-> child c x y) as Hchild.
  { intros x y. rewrite (taken_child _ _ _ _ _ Ht). unfold child. rewrite Hnodes. split; intros (m & k & Hm & Hk).
    - destruct (nodes c0 !! x) as [m0|]; [|done]. exists m0, k. split; [done|].
      cbn in Hm. simplify_eq. by destruct (decide (x ∈ vs ++ [v])).
    - rewrite Hm. eexists _, k. split; [done|]. by destruct (decide (x ∈ vs ++ [v])). }
  assert (forall j, has_block c' j -> has_block c j /\ j <> v) as Hblk.
  { intros j (m & Hm & Hsome). cbn in Hm. destruct (decide (j = v)) as [->|Hj].
    - rewrite list_lookup_insert_eq in Hm by (by eapply lookup_lt_Some). simplify_eq. by destruct Hsome.
    - rewrite list_lookup_insert_ne in Hm by done. split; [by exists m|done]. }
  split; [|done|apply Ht| | |].
  - apply NoDup_app. split_and!; [apply Ht|set_solver|apply NoDup_singleton].
  - intros x i. cbn. intros [Hne Hx]%lookup_delete_Some. apply (tk_index _ _ _ Ht) in Hx as [? ?].
    split; [done|set_solver].
  - apply Forall2_app; [apply Ht|]. constructor; [|constructor]. split; [done|]. by exists n.
  - intros e j He Hej Hb'. apply (rtc_child_iff _ _ _ _ Hchild) in Hej. apply Hblk in Hb' as [Hb' Hjv].
    rewrite list_to_set_app, elem_of_union in He. destruct He as [He|He].
    + by apply (tk_cleared _ _ _ Ht e j He Hej).
    + cbn in He. assert (e = v) as -> by set_solver.
      apply rtc_inv in Hej as [->|(i & Hvi & Hij)]; [done|].
      by eapply (active_leaf_true c (list_to_set vs) v (tk_cleared _ _ _ Ht) Hleaf i j).
Qed.

Context (Hpick : pick_sound pick ok) (Hwf : wf c0) (Hreach : no_orphans c0).

Lemma evict_loop_ok fuel n : forall vs freed c,
  taken vs freed c -> n - length freed < fuel -> length freed <= n ->
  exists vs' freed' c', evict_loop pick fuel n c (list_to_set vs) freed
      = Done (c', list_to_set vs', freed') /\
    taken vs' freed' c' /\ length freed' <= n /\ (length freed' < n -> pick c' (list_to_set vs') = Done None).
Proof using All.
  induction fuel as [|fuel IH]; intros vs freed c Ht Hf Hn; [lia|]. cbn [evict_loop].
  case_bool_decide as Hlt; [|by exists vs, freed, c; split_and!; [done..|lia]].
  destruct (Hpick c (list_to_set vs)) as (o & Ho & Hvictim).
  { intros i m Hm Hb. assert (has_block c0 i) as Hb0.
    { apply (taken_has_block _ _ _ i Ht). by exists m. }
    destruct (Hreach i Hb0) as [q Hq]. eapply active_leaf_total; [exact Hwf|by eapply taken_links|exact Hq]. }
  rewrite Ho. cbn [mbind res_bind]. destruct o as [v|]; [|by exists vs, freed, c; rewrite Ho].
  destruct (taken_step vs freed c v Ht (Hvictim v eq_refl)) as (c' & b & Hrun & Ht'). rewrite Hrun. cbn [mbind res_bind].
  replace ({[v]} ∪ list_to_set vs : gset nat) with (list_to_set (vs ++ [v]) : gset nat) by set_solver.
  apply IH; [done|rewrite length_app; cbn; lia|rewrite length_app; cbn; lia].
Qed.

End loop.

(** ** From the loop to the tree it leaves *)
Section pruned.
Context (ok : Node -> Prop) (c0 c1 c3 : RadixCache) (vs : list nat) (freed : list BlockId) (r : gset nat).
Context (free0 : list nat) (Hwf : wf c0) (Ht : taken ok c0 free0 vs freed c1).
Context (Hold : forall i, i ∈ free0 -> i ∈ free_nodes c0).

Abbreviation c2 := (retain_children (list_to_set vs) c1).
Abbreviation gone := (list_to_set vs ∪ r : gset nat).

Context (Hr : gc_closed c2 r) (Hfree : free_nodes c3 = free_nodes c2 ++ sorted_indices c2 r).
Context (Hsize : block_size c3 = block_size c2) (Hidx : block_index c3 = block_index c2).
Context (Hnodes : forall j, nodes c3 !! j =
    (if decide (j ∈ r) then reclaim_node
     else fun n => set_children (filter (fun p => p.2 ∉ r) (n_children n)) n) <$> nodes c2 !! j).

Lemma c2_nodes j : nodes c2 !! j =
  (fun n => set_children (filter (fun p => p.2 ∉ (list_to_set vs : gset nat)) (n_children n))
     ((if decide (j ∈ vs) then set_block_id None else id) n)) <$> nodes c0 !! j.
Proof using All.
  rewrite retain_children_nodes, (tk_nodes _ _ _ _ _ _ Ht). destruct (nodes c0 !! j); [|done]. cbn.
  by destruct (decide (j ∈ vs)).
Qed.

Lemma gone_not_root : 0 ∉ gone.
Proof using All.
  rewrite elem_of_union, elem_of_list_to_set. intros [Hin|Hin].
  - pose proof (tk_freed _ _ _ _ _ _ Ht) as Hf. apply list_elem_of_lookup in Hin as [i Hi].
    destruct (Forall2_lookup_l _ _ _ _ _ Hf Hi) as (b & _ & ? & _). done.
  - by destruct (Hr 0 Hin).
Qed.

Lemma pruned_nodes j n : nodes c0 !! j = Some n -> exists n', nodes c3 !! j = Some n' /\
  (j ∉ gone -> n_tokens n' = n_tokens n /\ n_block_id n' = n_block_id n /\
     n_children n' = filter (fun p => p.2 ∉ gone) (n_children n)).
Proof using All.
  intros Hn. rewrite Hnodes, c2_nodes, Hn. cbn. eexists. split; [done|].
  rewrite elem_of_union, elem_of_list_to_set. intros Hj.
  rewrite !decide_False by tauto. cbn. split_and!; [done..|].
  rewrite map_filter_filter. apply map_filter_ext. intros k i Hk. cbn. set_solver.
Qed.

Lemma pruned_length : length (nodes c3) = length (nodes c0).
Proof using All.
  apply Nat.le_antisymm; apply Nat.nlt_ge; intros Hlt.
  - pose proof (Hnodes (length (nodes c0))) as H. rewrite c2_nodes in H.
    rewrite (proj2 (lookup_ge_None (nodes c0) _)) in H by lia.
    apply lookup_lt_is_Some_2 in Hlt as [n Hn]. by rewrite Hn in H.
  - pose proof (Hnodes (length (nodes c3))) as H. rewrite c2_nodes in H.
    rewrite (proj2 (lookup_ge_None (nodes c3) _)) in H by lia.
    apply lookup_lt_is_Some_2 in Hlt as [n Hn]. by rewrite Hn in H.
Qed.

(** A node that still has its block lost no ancestor. *)
Lemma kept_ancestors a j : has_block c1 j -> rtc (child c0) a j -> a ∉ gone.
Proof using All.
  intros Hj Haj.
  assert (forall e, rtc (child c0) e j -> e ∉ vs) as Hvs.
  { intros e Hej He. eapply (tk_cleared _ _ _ _ _ _ Ht e j); [by apply elem_of_list_to_set| |done].
    eapply rtc_child_iff; [intros; by eapply taken_child|done]. }
  rewrite elem_of_union, elem_of_list_to_set. intros [Ha|Ha]; [by eapply Hvs|].
  assert (rtc (child c2) a j) as Haj2.
  { clear Ha. induction Haj as [|x y z Hxy Hyz IH]; [constructor|].
    eapply rtc_l; [|by apply IH]. destruct Hxy as (n & k & Hn & Hk).
    unfold child. rewrite c2_nodes, Hn. eexists _, k. split; [done|]. cbn.
    rewrite map_lookup_filter_Some. cbn. rewrite elem_of_list_to_set. split; [|by apply Hvs].
    done. }
  pose proof (gc_closed_desc _ _ _ _ Hr Ha Haj2) as Hjr.
  destruct (Hr j Hjr) as (_ & n2 & Hn2 & Hnone & _). apply (taken_has_block _ _ _ _ _ _ _ Ht) in Hj as [(n & Hn & Hb) Hjv].
  rewrite c2_nodes, Hn in Hn2. cbn in Hn2. rewrite decide_False in Hn2 by done. simplify_eq. cbn in Hnone.
  rewrite Hnone in Hb. by destruct Hb.
Qed.

(** Slots on the list of free ones: those that were, and those reclaimed. *)
Lemma pruned_free i : i ∈ free_nodes c3 ->
  (i ∈ gone \/ forall q, ~ at_path c0 q i) /\ exists n, nodes c3 !! i = Some n /\ n_block_id n = None.
Proof using All.
  rewrite Hfree. cbn. rewrite (proj1 (tk_rest _ _ _ _ _ _ Ht)). intros [Hi|Hi]%elem_of_app.
  - destruct (wf_free _ Hwf i (Hold i Hi)) as [(n & Hn & Hb) Hno]. split; [by right|].
    rewrite Hnodes, c2_nodes, Hn. cbn. eexists. split; [done|]. by destruct (decide (i ∈ r)), (decide (i ∈ vs)).
  - rewrite (elem_of_sorted_indices _ _ _ Hr) in Hi. split; [left; set_solver|].
    destruct (Hr i Hi) as (_ & n2 & Hn2 & _). rewrite Hnodes, Hn2, decide_True by done. by eexists.
Qed.

(** Well-formed again, once the list of free slots is [l] without repeats. *)
Lemma pruned_wf l : NoDup l -> (forall i, i ∈ l -> i ∈ free_nodes c3) -> wf (set_free_nodes l c3).
Proof using All.
  intros Hl Hin. eapply (prune_wf c0 Hwf gone gone_not_root (set_free_nodes l c3)).
  - cbn. rewrite Hsize. cbn. apply Ht.
  - apply pruned_nodes.
  - apply pruned_length.
  - split; [done|]. intros i Hi. apply pruned_free, Hin, Hi.
  - intros b i. cbn. rewrite Hidx. intros Hb. apply (tk_index _ _ _ _ _ _ Ht) in Hb as [Hb Hnf].
    split; [done|]. destruct (wf_index _ Hwf b i Hb) as (n & Hn & Hbn).
    assert (i ∉ vs) as Hiv.
    { intros Hiv. apply list_elem_of_lookup in Hiv as [x Hx].
      destruct (Forall2_lookup_l _ _ _ _ _ (tk_freed _ _ _ _ _ _ Ht) Hx) as (b' & Hb' & _ & n' & Hn' & Hbn' & _).
      simplify_eq. apply Hnf. by eapply list_elem_of_lookup_2. }
    apply (kept_ancestors i i); [|constructor]. apply (taken_has_block _ _ _ _ _ _ _ Ht).
    split; [exists n; by rewrite Hbn|done].
Qed.

(** A block left behind was there before, at the same place of the tree. *)
Lemma pruned_block i : has_block c3 i -> exists n n3, nodes c0 !! i = Some n /\ nodes c3 !! i = Some n3 /\
  n_block_id n3 = n_block_id n /\ n_ref_count n3 = n_ref_count n /\ has_block c1 i /\
  (forall q, at_path c0 q i -> at_path c3 q i).
Proof using All.
  intros (n3 & Hn3 & Hb). pose proof Hn3 as Hn3'. rewrite Hnodes, c2_nodes in Hn3'.
  destruct (nodes c0 !! i) as [n|] eqn:Hn; [|done]. cbn in Hn3'. injection Hn3' as Heq.
  destruct (decide (i ∈ r)); [subst n3; by destruct Hb|].
  destruct (decide (i ∈ vs)); [subst n3; by destruct Hb|]. subst n3. cbn in Hb.
  assert (has_block c1 i) as Hhas.
  { apply (taken_has_block _ _ _ _ _ _ _ Ht). split; [by exists n|done]. }
  exists n. eexists. split_and!; [done|done|done|done|done|]. intros q Hq.
  apply (prune_keep c0 Hwf gone c3 pruned_nodes); [done|]. intros a. by apply kept_ancestors.
Qed.

Lemma pruned_path q i : at_path c3 q i -> at_path c0 q i.
Proof using All. by intros [? _]%(prune_path c0 Hwf gone gone_not_root c3 pruned_nodes pruned_length). Qed.

Lemma pruned_cached q b :
  cached c3 q b <-> exists i n, at_path c0 q i /\ nodes c0 !! i = Some n /\ n_block_id n = Some b /\ i ∉ vs.
Proof using All.
  split.
  - intros (i & n' & Hi & Hn' & Hb). apply (prune_path c0 Hwf gone gone_not_root c3 pruned_nodes pruned_length) in Hi as [Hi Hgone].
    destruct (at_path_node c0 Hwf _ _ Hi) as [n Hn]. destruct (pruned_nodes i n Hn) as (n1 & Hn1 & Hkeep).
    destruct (Hkeep Hgone) as (_ & Hbn & _). exists i, n. split_and!; [done|done|congruence|set_solver].
  - intros (i & n & Hi & Hn & Hb & Hvs).
    assert (has_block c1 i) as Hhas.
    { apply (taken_has_block _ _ _ _ _ _ _ Ht). split; [exists n; by rewrite Hb|done]. }
    destruct (pruned_nodes i n Hn) as (n1 & Hn1 & Hkeep).
    destruct Hkeep as (_ & Hbn & _); [by apply (kept_ancestors i i Hhas)|].
    exists i, n1. split_and!; [|done|congruence].
    apply (prune_keep c0 Hwf gone c3 pruned_nodes); [done|]. intros a. by apply kept_ancestors.
Qed.
End pruned.

(** The blocks handed back are those of the victims. *)
Lemma evict_frees ok c0 free0 c1 vs freed :
  blocks_distinct c0 -> taken ok c0 free0 vs freed c1 ->
  (forall i n b, nodes c0 !! i = Some n -> n_block_id n = Some b -> (i ∈ vs <-> b ∈ freed)) /\ NoDup freed /\
  (forall b, b ∈ freed -> exists i m, nodes c0 !! i = Some m /\ n_block_id m = Some b /\ n_ref_count m = 0%N /\ ok m).
Proof.
  intros Hdis Ht. pose proof (tk_freed _ _ _ _ _ _ Ht) as Hf. split_and!.
  - intros i m b Hm Hb. split; intros Hin; apply list_elem_of_lookup in Hin as [x Hx].
    + destruct (Forall2_lookup_l _ _ _ _ _ Hf Hx) as (b' & Hb' & _ & n' & Hn' & Hbn' & _). simplify_eq.
      by eapply list_elem_of_lookup_2.
    + destruct (Forall2_lookup_r _ _ _ _ _ Hf Hx) as (v & Hv & _ & n' & Hn' & Hbn' & _).
      rewrite (Hdis i v m n' b Hm Hn' Hb Hbn'). by eapply list_elem_of_lookup_2.
  - apply NoDup_alt. intros x y b Hx Hy.
    destruct (Forall2_lookup_r _ _ _ _ _ Hf Hx) as (v & Hv & _ & n1 & Hn1 & Hb1 & _).
    destruct (Forall2_lookup_r _ _ _ _ _ Hf Hy) as (w & Hw & _ & n2 & Hn2 & Hb2 & _).
    rewrite (Hdis v w n1 n2 b) in Hv by done. by eapply NoDup_lookup; [apply (tk_nodup _ _ _ _ _ _ Ht)|..].
  - intros b Hin. apply list_elem_of_lookup in Hin as [x Hx].
    destruct (Forall2_lookup_r _ _ _ _ _ Hf Hx) as (v & Hv & _ & m & Hm & Hb & Href & Hok). by exists v, m.
Qed.

(** The cache with every free slot listed once. *)
Definition tidy (c : RadixCache) : RadixCache := set_free_nodes (remove_dups (free_nodes c)) c.

(** The loop stopped early, at [c1] with the victims [vs]: what is left of the
    tree is what [c1] still has blocks in. *)
Record stopped_at (pick : RadixCache -> gset nat -> res (option nat)) (ok : Node -> Prop) (c c' : RadixCache)
    (vs : list nat) (freed : list BlockId) (c1 : RadixCache) : Prop := mk_stopped_at {
  sa_pick : pick c1 (list_to_set vs) = Done None;
  sa_taken : taken ok c (free_nodes c) vs freed c1;
  sa_ref : forall i m, nodes c' !! i = Some m -> is_Some (n_block_id m) ->
    exists m1, nodes c1 !! i = Some m1 /\ n_block_id m1 = n_block_id m /\ n_ref_count m1 = n_ref_count m;
  sa_keep : forall i q, has_block c1 i -> at_path c q i -> exists b, cached c' q b;
}.

(** What an eviction guarantees. *)
Record evicted_spec (pick : RadixCache -> gset nat -> res (option nat)) (ok : Node -> Prop) (n : nat)
    (c c' : RadixCache) (freed : list BlockId) : Prop := mk_evicted_spec {
  es_tidy : wf (tidy c');
  es_wf : free_nodes c = [] -> wf c';
  es_reach : no_orphans c';
  es_distinct : blocks_distinct c';
  es_length : length freed <= n;
  es_nodup : NoDup freed;
  es_unreferenced : forall b, b ∈ freed -> exists i m, nodes c !! i = Some m /\ n_block_id m = Some b /\
    n_ref_count m = 0%N /\ ok m;
  es_cached : forall q b, cached c' q b <-> cached c q b /\ b ∉ freed;
  es_path : forall q i, at_path c' q i -> at_path c q i;
  es_stopped : length freed < n -> exists vs c1, stopped_at pick ok c c' vs freed c1;
}.

Lemma set_free_nodes_id c : set_free_nodes (free_nodes c) c = c.
Proof. by destruct c. Qed.

Lemma tidy_path c q i : at_path (tidy c) q i <-> at_path c q i.
Proof. split; by apply at_path_same_shape. Qed.

Lemma tidy_cached c q b : cached (tidy c) q b <-> cached c q b.
Proof. by apply cached_same_shape. Qed.

Lemma tidy_nil c : free_nodes c = [] -> tidy c = c.
Proof. intros Hf. unfold tidy. rewrite Hf. cbn. rewrite <-Hf. apply set_free_nodes_id. Qed.

Lemma tidy_wf c : wf c -> wf (tidy c).
Proof.
  intros Hwf. pose proof Hwf as [H1 H2 H3 H4 H5 H6 H7]. split.
  - done.
  - done.
  - intros q p n k i Hq%(tidy_path c). exact (H3 q p n k i Hq).
  - intros q q' i Hq%(tidy_path c) Hq'%(tidy_path c). by eapply H4.
  - apply NoDup_remove_dups.
  - intros i Hi%(elem_of_remove_dups (free_nodes c)). destruct (H6 i Hi) as [? Hno]. split; [done|]. intros q Hq%(tidy_path c). by eapply Hno.
  - done.
Qed.

Lemma evict_by_ok pick ok n c :
  pick_sound pick ok -> wf (tidy c) -> no_orphans c -> blocks_distinct c ->
  exists c' freed, evict_by pick n c = Done (c', freed) /\ evicted_spec pick ok n c c' freed.
Proof.
  intros Hpick Hwf Hreach Hdis. unfold evict_by. case_bool_decide as Hn.
  { exists c, []. split; [done|]. split; [done|intros Hf; by rewrite tidy_nil in Hwf|done|done|cbn; lia|apply NoDup_nil_2
      |by intros b ?%not_elem_of_nil| |done|cbn; lia].
    intros q b. split; [intros; split; [done|apply not_elem_of_nil]|by intros []]. }
  assert (no_orphans (tidy c)) as Hreach0.
  { intros i Hi. destruct (Hreach i Hi) as [q Hq]. exists q. by apply tidy_path. }
  destruct (evict_loop_ok pick ok (tidy c) (free_nodes c) Hpick Hwf Hreach0 (S n) n [] []
    (set_free_nodes (free_nodes c) (tidy c)) (taken_nil ok (tidy c) (free_nodes c))) as
    (vs & freed & c1 & Hrun & Ht & Hlen & Hstop); [cbn; lia|cbn; lia|].
  replace (set_free_nodes (free_nodes c) (tidy c)) with c in Hrun by (by destruct c).
  cbn [list_to_set] in Hrun. rewrite Hrun. cbn [mbind res_bind].
  destruct (gc_ok (retain_children (list_to_set vs) c1)) as (r & c3 & Hgc & Hr & Hfree & Hsize & Hidx & _ & Hnodes).
  rewrite Hgc. cbn [mbind res_bind]. exists c3, freed. split; [done|].
  assert (forall i, i ∈ free_nodes c -> i ∈ free_nodes (tidy c)) as Hold by (intros i; apply elem_of_remove_dups).
  pose proof (evict_frees ok (tidy c) (free_nodes c) c1 vs freed Hdis Ht) as (Hvs & Hnd & Hunref).
  pose proof (pruned_block ok (tidy c) c1 c3 vs freed r _ Hwf Ht Hold Hr Hfree Hsize Hidx Hnodes) as Hblock.
  pose proof (pruned_wf ok (tidy c) c1 c3 vs freed r _ Hwf Ht Hold Hr Hfree Hsize Hidx Hnodes) as Hwf3.
  pose proof (pruned_cached ok (tidy c) c1 c3 vs freed r _ Hwf Ht Hold Hr Hfree Hsize Hidx Hnodes) as Hcached.
  split.
  - apply Hwf3; [apply NoDup_remove_dups|]. intros i. apply elem_of_remove_dups.
  - intros Hempty. rewrite <-(set_free_nodes_id c3). apply Hwf3; [|done].
    rewrite Hfree. cbn. rewrite (proj1 (tk_rest _ _ _ _ _ _ Ht)), Hempty. apply NoDup_filter, NoDup_seq.
  - intros i Hi. destruct (Hblock i Hi) as (m & _ & Hm & _ & _ & _ & Hhas & Hpath).
    apply (taken_has_block _ _ _ _ _ _ _ Ht) in Hhas as [Hhas _]. destruct (Hreach0 i Hhas) as [q Hq]. exists q. by apply Hpath.
  - intros i j m m' b Hm Hm' Hb Hb'.
    destruct (Hblock i) as (n1 & m1 & Hn1 & Hm1 & He1 & _); [by exists m; rewrite Hb|].
    destruct (Hblock j) as (n2 & m2 & Hn2 & Hm2 & He2 & _); [by exists m'; rewrite Hb'|].
    simplify_eq. apply (Hdis i j n1 n2 b); [done..|congruence|congruence].
  - done.
  - done.
  - done.
  - intros q b. rewrite Hcached. rewrite <-(tidy_cached c q b). split.
    + intros (i & m & Hi & Hm & Hb & Hnot). split; [by exists i, m|]. by rewrite <-(Hvs i m b).
    + intros [(i & m & Hi & Hm & Hb) Hnot]. exists i, m. split_and!; [done..|]. by rewrite (Hvs i m b).
  - intros q i Hq. apply (tidy_path c).
    by apply (pruned_path ok (tidy c) c1 c3 vs freed r _ Hwf Ht Hold Hr Hfree Hsize Hidx Hnodes).
  - intros Hlt. exists vs, c1. split; [by apply Hstop| | |].
    + destruct Ht as [? ? ? ? ? ?]. by split.
    + intros i m Hm Hb. destruct (Hblock i) as (n1 & m1 & Hn1 & Hm1 & He & Href & (m2 & Hm2 & Hb2) & _); [by exists m|].
      simplify_eq. pose proof (tk_nodes _ _ _ _ _ _ Ht i) as Hi. rewrite Hm2 in Hi.
      exists m2. split; [done|]. destruct (nodes (tidy c) !! i) as [n0|] eqn:Hn0; [|done]. cbn in Hi. injection Hi as ->.
      destruct (decide (i ∈ vs)); [by destruct Hb2|]. cbn. split; congruence.
    + intros i q Hhas Hq%(tidy_path c). apply (taken_has_block _ _ _ _ _ _ _ Ht) in Hhas as [(m & Hm & [b Hb]) Hv].
      exists b. apply Hcached. by exists i, m.
Qed.

(** ** The two scans *)

(** The fold of a scan over all nodes. *)
Lemma scan_fold {B} (f : option B -> nat -> res (option B)) (Q : list nat -> option B -> Prop) n :
  Q [] None ->
  (forall done x best, x < n -> Q done best -> exists best', f best x = Done best' /\ Q (done ++ [x]) best') ->
  exists best, fold_res f (seq 0 n) None = Done best /\ Q (seq 0 n) best.
Proof.
  intros H0 Hstep. apply (fold_res_inv f Q (seq 0 n) None H0). intros don x todo best Hl HQ.
  apply Hstep; [|done]. assert (x ∈ seq 0 n) as Hx%elem_of_seq by (rewrite Hl; set_solver). lia.
Qed.

(** Scans of [find_lru]. *)
Definition lru_best (c : RadixCache) (evicted : gset nat) (seen : list nat) (best : option (N * nat)) : Prop :=
  match best with
  | None => forall x n, x ∈ seen -> nodes c !! x = Some n -> evictable_lru c evicted x n <> Done true
  | Some (a, v) => exists n, nodes c !! v = Some n /\ a = n_last_access n /\ evictable_lru c evicted v n = Done true /\
      forall x m, x ∈ seen -> nodes c !! x = Some m -> evictable_lru c evicted x m = Done true ->
        (a <= n_last_access m)%N
  end.

Lemma evictable_lru_total c evicted i n :
  nodes c !! i = Some n ->
  (is_Some (n_block_id n) -> exists b, node_is_active_leaf_for_tier c i None evicted = Done b) ->
  exists b, evictable_lru c evicted i n = Done b.
Proof.
  intros Hn Htot. unfold evictable_lru. destruct (_ || _); [eauto|].
  destruct (n_block_id n) as [b|]; [|rewrite orb_true_r; eauto].
  destruct (_ || _); [eauto|]. apply Htot. by eexists.
Qed.

Lemma find_lru_ok c evicted :
  leaves_decided c evicted ->
  exists best, find_lru c evicted = Done best /\ lru_best c evicted (seq 0 (length (nodes c))) best.
Proof.
  intros Htot. unfold find_lru. apply scan_fold; [by intros x n ?%not_elem_of_nil|].
  intros seen x best Hx Hbest. destruct (lookup_lt_is_Some_2 (nodes c) x Hx) as [n Hn].
  unfold get. rewrite (index_Some _ _ _ Hn). cbn [mbind res_bind].
  destruct (evictable_lru_total c evicted x n Hn (Htot x n Hn)) as [ok Hok]. rewrite Hok. cbn [mbind res_bind].
  eexists. split; [done|]. destruct ok.
  - unfold older. destruct best as [[a v]|]; cbn in Hbest.
    + destruct Hbest as (m & Hm & -> & Hmok & Hmin). case_bool_decide as Hle; cbn.
      * exists m. split_and!; [done..|]. intros y my [Hy|Hy%list_elem_of_singleton]%elem_of_app Hmy Hyok; [by eapply Hmin|].
        subst. by simplify_eq.
      * exists n. split_and!; [done..|]. intros y my [Hy|Hy%list_elem_of_singleton]%elem_of_app Hmy Hyok.
        { specialize (Hmin y my Hy Hmy Hyok). lia. }
        subst. by simplify_eq.
    + exists n. split_and!; [done..|]. intros y my [Hy|Hy%list_elem_of_singleton]%elem_of_app Hmy Hyok.
      { by destruct (Hbest y my Hy Hmy). }
      subst. by simplify_eq.
  - destruct best as [[a v]|]; cbn in *.
    + destruct Hbest as (m & Hm & -> & Hmok & Hmin). exists m. split_and!; [done..|].
      intros y my [Hy|Hy%list_elem_of_singleton]%elem_of_app Hmy Hyok; [by eapply Hmin|]. subst. simplify_eq. congruence.
    + intros y my [Hy|Hy%list_elem_of_singleton]%elem_of_app Hmy; [by apply Hbest|]. subst. simplify_eq. congruence.
Qed.

Lemma evictable_lru_true c evicted i n :
  evictable_lru c evicted i n = Done true ->
  i <> 0 /\ (i ∉ evicted) /\ n_ref_count n = 0%N /\ is_Some (n_block_id n) /\
  node_is_active_leaf_for_tier c i None evicted = Done true.
Proof.
  unfold evictable_lru, root. case_bool_decide; [done|]. case_bool_decide; [done|].
  case_bool_decide; [|done]. cbn. destruct (n_block_id n) as [b|]; [|done]. intros ?. split_and!; eauto.
Qed.

Lemma find_lru_sound : pick_sound (fun c evicted => fmap (M := option) snd <$> find_lru c evicted) (fun _ => True).
Proof.
  intros c evicted Htot. destruct (find_lru_ok c evicted Htot) as (best & Hrun & Hbest). rewrite Hrun. cbn.
  eexists. split; [done|]. intros v Hv. destruct best as [[a w]|]; [|done]. cbn in Hv. simplify_eq.
  destruct Hbest as (n & Hn & _ & Hok & _). apply evictable_lru_true in Hok as (? & ? & ? & [b ?] & ?).
  split_and!; [done..|]. by exists n, b.
Qed.

(** The policy scan: what it lets through. *)
Section policy_scan.
Context {P : Type} `{EvictionPolicy P} (policy : P) (signals : SchedulerSignals).
Context (intent : BlockSelectionIntent) (excluded : option (gset BlockId)) (now : N).

Definition policy_ok (n : Node) : Prop :=
  policy_candidate None intent now n = true /\
  (forall b e, n_block_id n = Some b -> excluded = Some e -> b ∉ e) /\
  exists bs, is_finite (score policy (candidate_of bs n) signals) = true.

Lemma find_by_policy_sound :
  pick_sound (fun c evicted => fmap (M := option) snd <$>
    find_by_policy policy signals None intent excluded now c evicted) policy_ok.
Proof.
  intros c evicted Htot. unfold find_by_policy.
  destruct (scan_fold (policy_step policy signals None intent excluded now c evicted)
    (fun _ best => forall sc v, best = Some (sc, v) -> victim_ok policy_ok c evicted v) (length (nodes c)))
    as (best & Hrun & Hbest); [done| |].
  - intros _ x best Hx Hbest. destruct (lookup_lt_is_Some_2 (nodes c) x Hx) as [n Hn].
    unfold policy_step, get. rewrite (index_Some _ _ _ Hn). cbn [mbind res_bind].
    destruct (bool_decide (x = root) || bool_decide (x ∈ evicted)) eqn:Hskip; [by eexists|].
    apply orb_false_iff in Hskip as [Hx0%bool_decide_eq_false Hxe%bool_decide_eq_false].
    destruct (n_block_id n) as [b|] eqn:Hb; [|by eexists].
    destruct (match excluded with Some e => _ | None => _ end) eqn:Hexc; [by eexists|].
    destruct (policy_candidate None intent now n) eqn:Hcand; cbn [negb]; [|by eexists].
    destruct (Htot x n Hn) as [leaf Hleaf]; [by rewrite Hb|]. rewrite Hleaf. cbn [mbind res_bind].
    destruct leaf; cbn [negb]; [|by eexists].
    destruct (is_finite _) eqn:Hfin; [|by eexists]. eexists. split; [done|].
    assert (victim_ok policy_ok c evicted x) as Hvx.
    { split_and!; [done..|]. exists n, b.
      assert (n_ref_count n = 0%N) as Href.
      { unfold policy_candidate in Hcand. destruct (bool_decide (n_ref_count n = 0%N)) eqn:E; [|done].
        by apply bool_decide_eq_true in E. }
      split_and!; [done..|]. split_and!; [done| |by eexists].
      intros b' e Hb' He. rewrite Hb' in Hb. simplify_eq. rewrite He in Hexc. by apply bool_decide_eq_false in Hexc. }
    intros sc v. unfold lower_score. destruct best as [[sc' v']|]; [|by intros [= _ <-]].
    specialize (Hbest sc' v' eq_refl).
    destruct (total_cmp _ _); [case_bool_decide| |]; by intros [= _ <-].
  - rewrite Hrun. cbn. eexists. split; [done|]. intros v Hv. destruct best as [[sc w]|]; [|done].
    cbn in Hv. simplify_eq. by eapply Hbest.
Qed.
End policy_scan.

(** ** Properties *)

(** Below a node of the tree paths get longer. *)
Lemma rtc_child_path c q i j : wf c -> at_path c q i -> rtc (child c) i j -> exists q', at_path c q' j /\ q `prefix_of` q'.
Proof.
  intros Hwf Hq Hij. revert q Hq. induction Hij as [i|i x j (n & k & Hn & Hk) _ IH]; intros q Hq; [by exists q|].
  destruct (edge_exists c Hwf q i n k x Hq Hn Hk) as [m He].
  destruct (IH _ (edge_path _ _ _ _ _ _ He)) as (q' & Hq' & Hpre). exists q'. split; [done|].
  etransitivity; [|exact Hpre]. by apply prefix_app_r.
Qed.

Lemma child_path_longer c q i x j : wf c -> at_path c q i -> child c i x -> rtc (child c) x j ->
  exists q', at_path c q' j /\ q `prefix_of` q' /\ q <> q'.
Proof.
  intros Hwf Hq (n & k & Hn & Hk) Hxj. destruct (edge_exists c Hwf q i n k x Hq Hn Hk) as [m He].
  pose proof (edge_longer c Hwf _ _ _ _ _ He) as Hlen.
  destruct (rtc_child_path c _ x j Hwf (edge_path _ _ _ _ _ _ He) Hxj) as (q' & Hq' & Hpre). exists q'. split; [done|].
  split; [etransitivity; [|exact Hpre]; by apply prefix_app_r|]. intros ->. apply prefix_length in Hpre. lia.
Qed.

(** When the scan of [evict] finds no victim, each unreferenced block that is
    left has a block below it. *)
Lemma lru_stopped c c' vs freed c1 :
  wf (tidy c) -> no_orphans c -> (forall q i, at_path c' q i -> at_path c q i) ->
  stopped_at (fun c evicted => fmap (M := option) snd <$> find_lru c evicted) (fun _ => True) c c' vs freed c1 ->
  forall q i m, at_path c' q i -> nodes c' !! i = Some m -> is_Some (n_block_id m) -> n_ref_count m = 0%N ->
    exists q' b', cached c' q' b' /\ q `prefix_of` q' /\ q <> q'.
Proof.
  intros Hwf Hreach Hpath [Hpick Ht Href Hkeep] q i m Hq Hm Hb Hz.
  assert (taken (fun _ => True) (tidy c) (free_nodes c) vs freed c1) as Ht' by (destruct Ht; by split).
  pose proof (taken_links _ _ _ _ _ _ Ht') as Hlinks.
  assert (forall j b, at_path (tidy c) b j -> exists ok, node_is_active_leaf_for_tier c1 j None (list_to_set vs) = Done ok)
    as Hleaf by (intros j b; by apply active_leaf_total).
  destruct (Href i m Hm Hb) as (m1 & Hm1 & He & Hr). rewrite <-He in Hb. rewrite <-Hr in Hz.
  assert (has_block c1 i) as Hhas by (by exists m1).
  pose proof (proj1 (taken_has_block _ _ _ _ _ _ _ Ht') Hhas) as [Hhas0 Hv]. apply Hpath in Hq.
  pose proof (proj2 (tidy_path c q i) Hq) as Hq0.
  destruct (find_lru_ok c1 (list_to_set vs)) as (best & Hrun & Hbest).
  { intros j n Hn Hj. assert (has_block c1 j) as Hj' by (by exists n).
    apply (taken_has_block _ _ _ _ _ _ _ Ht') in Hj' as [Hj' _]. destruct (Hreach j Hj') as [p Hp]. apply (Hleaf j p). by apply tidy_path. }
  rewrite Hrun in Hpick. destruct best as [[a w]|]; [done|]. cbn in Hbest.
  destruct (Hleaf i q Hq0) as [[|] Hi].
  - exfalso. apply (Hbest i m1); [apply elem_of_seq; apply lookup_lt_Some in Hm1; lia|done|].
    unfold evictable_lru. rewrite (bool_decide_eq_false_2 (i = root)), (bool_decide_eq_false_2 (i ∈ _)).
    + rewrite bool_decide_eq_true_2 by done. destruct Hb as [b ->]. done.
    + by rewrite elem_of_list_to_set.
    + intros ->. destruct Hhas0 as (n0 & Hn0 & Hb0). destruct (wf_root _ Hwf) as (n & Hn & _ & Hnone). assert (Some n0 = Some n) as [= ->] by exact (eq_trans (eq_sym Hn0) Hn).
      rewrite Hnone in Hb0. by destruct Hb0.
  - apply (active_leaf_false c1 _ i Hhas) in Hi as (x & j & Hix & Hxj & Hj). apply (taken_child _ _ _ _ _ _ _ _ Ht') in Hix.
    apply (rtc_child_iff _ (tidy c)) in Hxj; [|intros; by eapply taken_child].
    destruct (child_path_longer (tidy c) q i x j Hwf Hq0 Hix Hxj) as (q' & Hq' & Hpre & Hne).
    destruct (Hkeep j q' Hj (proj1 (tidy_path c q' j) Hq')) as [b' Hb']. by exists q', b'.
Qed.

(** C16: [evict], on a cache whose block-bearing nodes are all in the tree, with
    distinct blocks, and which is well-formed but for free slots that may be
    listed more than once (what eviction itself does to the list). It returns;
    these hypotheses hold again, so any number of evictions may follow, and
    when no slot was free the cache is well-formed. It frees at most [n]
    distinct blocks, each of a node nobody references; the map it leaves is the
    old one without exactly these blocks, so no other cached prefix is lost.
    When it frees fewer than [n] it could free no more: every cached prefix
    left that nobody references has a longer one cached. *)
Theorem evict_spec n c :
  wf (tidy c) -> no_orphans c -> blocks_distinct c ->
  exists c' freed, evict n c = Done (c', freed) /\
    wf (tidy c') /\ no_orphans c' /\ blocks_distinct c' /\ (free_nodes c = [] -> wf c') /\
    length freed <= n /\ NoDup freed /\
    (forall b, b ∈ freed -> exists i m, nodes c !! i = Some m /\ n_block_id m = Some b /\ n_ref_count m = 0%N) /\
    (forall q b, cached c' q b <-> cached c q b /\ b ∉ freed) /\
    (length freed < n -> forall q i m, at_path c' q i -> nodes c' !! i = Some m -> is_Some (n_block_id m) ->
       n_ref_count m = 0%N -> exists q' b', cached c' q' b' /\ q `prefix_of` q' /\ q <> q').
Proof.
  intros Hwf Hreach Hdis.
  destruct (evict_by_ok _ _ n c find_lru_sound Hwf Hreach Hdis) as (c' & freed & Hrun & [? ? ? ? ? ? Hunref ? Hpath Hstop]).
  exists c', freed. split_and!; try done.
  - intros b Hb. destruct (Hunref b Hb) as (i & m & ? & ? & ? & _). by exists i, m.
  - intros Hlt. destruct (Hstop Hlt) as (vs & c1 & Hs). exact (lru_stopped c c' vs freed c1 Hwf Hreach Hpath Hs).
Qed.

(** The victim of [evict] is the least recently used of the candidates:
    the unreferenced blocks with no cached block below them. When it picks
    none there is no candidate. *)
Theorem find_lru_spec c evicted :
  wf c -> no_orphans c ->
  exists best, find_lru c evicted = Done best /\
    match best with
    | None => forall i n, nodes c !! i = Some n -> evictable_lru c evicted i n <> Done true
    | Some (access, v) => exists n, nodes c !! v = Some n /\ access = n_last_access n /\
        evictable_lru c evicted v n = Done true /\
        forall i m, nodes c !! i = Some m -> evictable_lru c evicted i m = Done true ->
          (access <= n_last_access m)%N
    end.
Proof.
  intros Hwf Hreach. destruct (find_lru_ok c evicted) as (best & Hrun & Hbest).
  { intros i n Hn Hb. destruct (Hreach i) as [q Hq]; [by exists n|]. by eapply active_leaf_total. }
  assert (forall i n, nodes c !! i = Some n -> i ∈ seq 0 (length (nodes c))) as Hall.
  { intros i n Hn. apply elem_of_seq. apply lookup_lt_Some in Hn. lia. }
  exists best. split; [done|]. destruct best as [[a v]|]; cbn in Hbest.
  - destruct Hbest as (n & ? & ? & ? & Hmin). exists n. split_and!; [done..|]. eauto.
  - eauto.
Qed.

(** A policy-driven eviction over all tiers, whatever the policy, frees
    only blocks that are ready, unreferenced, not excluded, not pinned against
    this intent, and, when spilling or draining, settled on the store side; it
    loses no other cached prefix and keeps the cache well-formed, but for
    free slots listed more than once when some were free before. *)
Theorem evict_with_policy_spec {P} `{EvictionPolicy P} (policy : P) signals n intent excluded c :
  wf (tidy c) -> no_orphans c -> blocks_distinct c ->
  exists c' freed, evict_with_policy_for_intent_excluding policy signals n None intent excluded c = Done (c', freed) /\
    wf (tidy c') /\ (free_nodes c = [] -> wf c') /\ length freed <= n /\ NoDup freed /\
    (forall b, b ∈ freed -> (forall e, excluded = Some e -> b ∉ e) /\
       exists i m, nodes c !! i = Some m /\ n_block_id m = Some b /\ n_ref_count m = 0%N /\
         n_entry_state m = IReady /\ selection_pin_active m None intent (clock c) = false /\
         store_settled intent m = true) /\
    (forall q b, cached c' q b <-> cached c q b /\ b ∉ freed).
Proof.
  intros Hwf Hreach Hdis.
  destruct (evict_by_ok _ _ n c (find_by_policy_sound policy signals intent excluded (clock c)) Hwf Hreach Hdis)
    as (c' & freed & Hrun & [? ? ? ? ? ? Hunref ? ? ?]).
  exists c', freed. split_and!; [done..| |done]. intros b Hb.
  destruct (Hunref b Hb) as (i & m & ? & ? & ? & Hcand & Hexc & _).
  split; [intros e He; by eapply Hexc|]. exists i, m.
  unfold policy_candidate in Hcand. rewrite !andb_true_iff in Hcand.
  destruct Hcand as [[[[_ _] Hpin] Hready] Hstore]. apply negb_true_iff in Hpin.
  apply bool_decide_eq_true in Hready. split_and!; done.
Qed.
