(* ===== verification/RadixMeta.v ===== *)
(** * Radix prefix cache: metadata, snapshots, statistics

    Models the metadata setters, the state helpers, [rebuild_block_index],
    [reconcile], the snapshot's namespace check, the session and fingerprint
    queries and the evictable-block accounting of
    [infer/src/prefix_cache.rs]. *)

From S2P Require Import Prelude Tier RadixTypes RadixEvict.

(** ** Block index and snapshots *)
Definition rebuild_block_index (c : RadixCache) : RadixCache :=
  set_block_index
    (foldl (fun m p => match n_block_id p.2 with Some bid => <[bid := p.1]> m | None => m end)
       ∅ (imap (fun i n => (i, n)) (nodes c))) c.

(** The fields a snapshot stores; a runtime-only field comes back with its
    default. *)
Definition restore_node (n : Node) : Node :=
  mkNode (n_tokens n) (n_block_id n) 0 0 (n_hit_count n) (n_tier_location n) (n_session_id n) false
    (n_fingerprint n) (n_byte_len n) None None (n_entry_state n) (n_store_state n) false (n_children n).

Record RadixCacheSnapshot := mkRadixCacheSnapshot {
  snap_nodes : list Node;
  snap_free_nodes : list nat;
  snap_block_size : nat;
  snap_soft_pin_keepalive_ticks : option N;
  snap_namespace : list N;
}.

(** What [serde_json] writes and what it reads back, as the derives define
    them; the JSON text is [serde_json]'s. *)
Definition snapshot_of (c : RadixCache) : RadixCacheSnapshot :=
  mkRadixCacheSnapshot (restore_node <$> nodes c) (free_nodes c) (block_size c)
    (soft_pin_keepalive_ticks c) (namespace c).

(** [load_snapshot] from the parsed wrapper; [None] is its error. *)
Definition load_snapshot (snap : RadixCacheSnapshot) (expected_namespace : list N) : option RadixCache :=
  if bool_decide (snap_namespace snap <> expected_namespace) then None
  else Some (mkRadixCache (snap_nodes snap) (snap_free_nodes snap) (snap_block_size snap) 0
               (snap_soft_pin_keepalive_ticks snap) ∅ (snap_namespace snap)).

(** ** Queries *)
Definition fingerprints_for_session (c : RadixCache) (sid : SessionId) : list BlockFingerprint :=
  omap (fun n =>
    match n_session_id n, n_fingerprint n with
    | Some s, Some fp => if bool_decide (s = sid) then Some fp else None
    | _, _ => None
    end) (nodes c).

(** [find_map]: the first node for which the closure gives a block. *)
Definition block_id_for_fingerprint (c : RadixCache) (fp : BlockFingerprint) : option BlockId :=
  head (omap (fun n => if bool_decide (n_fingerprint n = Some fp) then n_block_id n else None) (nodes c)).

(** ** Reconciliation *)
Record ReconcileReport := mkReconcileReport {
  remapped : nat;
  tombstoned : nat;
  orphans_cleared : nat;
}.

Definition reconcile_node (known : gmap BlockFingerprint BlockId) (n : Node) : Node :=
  match n_fingerprint n with
  | Some fp => set_block_id (known !! fp) n
  | None => set_block_id None n
  end.

Definition reconcile_count (known : gmap BlockFingerprint BlockId) (r : ReconcileReport) (n : Node)
    : ReconcileReport :=
  match n_fingerprint n with
  | Some fp =>
      if is_some (known !! fp)
      then mkReconcileReport (remapped r + 1) (tombstoned r) (orphans_cleared r)
      else mkReconcileReport (remapped r) (tombstoned r + 1) (orphans_cleared r)
  | None => mkReconcileReport (remapped r) (tombstoned r) (orphans_cleared r + 1)
  end.

Definition reconcile (known : gmap BlockFingerprint BlockId) (c : RadixCache) : RadixCache * ReconcileReport :=
  (rebuild_block_index (set_nodes (reconcile_node known <$> nodes c) c),
   foldl (reconcile_count known) (mkReconcileReport 0 0 0) (nodes c)).

(** ** Statistics *)
Definition node_count (c : RadixCache) : nat := length (nodes c).
Definition free_node_count (c : RadixCache) : nat := length (free_nodes c).
Definition cached_block_count (c : RadixCache) : nat :=
  length (filter (fun n => is_some (n_block_id n) = true) (nodes c)).

Definition deadline_passed (d : option N) (now : N) : bool :=
  match d with Some d => bool_decide (d <= now)%N | None => true end.

Definition node_is_reclaimable_now (c : RadixCache) (n : Node) (tier_filter : option Tier) : bool :=
  is_some (n_block_id n) && bool_decide (n_ref_count n = 0%N) && bool_decide (n_entry_state n = IReady)
  && deadline_passed (n_soft_pin_until n) (clock c) && in_tier n tier_filter.

Definition node_counts_as_sparse_dropped (c : RadixCache) (n : Node) (tier_filter : option Tier) : bool :=
  n_sparse_dropped n && node_is_reclaimable_now c n tier_filter.

Definition evictable_alone (c : RadixCache) (n : Node) (tier_filter : option Tier) : bool :=
  node_counts_as_sparse_dropped c n tier_filter || node_is_reclaimable_now c n tier_filter.

Fixpoint node_is_cascade_evictable_now (fuel : nat) (c : RadixCache) (tier_filter : option Tier)
    (idx : nat) : res bool :=
  match fuel with
  | 0 => OutOfFuel
  | S fuel =>
      match nodes c !! idx with
      | None => Done false
      | Some n =>
          if evictable_alone c n tier_filter
          then all_res (node_is_cascade_evictable_now fuel c tier_filter) (child_ids n)
          else Done false
      end
  end.

(** Post-order; a node counts when it and its whole subtree are evictable. *)
Fixpoint collect_cascade_evictable_blocks (fuel : nat) (c : RadixCache) (tier_filter : option Tier)
    (idx : nat) (out : list BlockId) : res (bool * list BlockId) :=
  match fuel with
  | 0 => OutOfFuel
  | S fuel =>
      match nodes c !! idx with
      | None => Done (false, out)
      | Some n =>
          '(children_evictable, out) ← fold_res (fun acc child_idx =>
            '(b, out) ← collect_cascade_evictable_blocks fuel c tier_filter child_idx acc.2;
            Done (acc.1 && b, out)) (child_ids n) (true, out);
          let evictable := evictable_alone c n tier_filter && children_evictable in
          Done (evictable,
                match n_block_id n with
                | Some b => if evictable then out ++ [b] else out
                | None => out
                end)
      end
  end.

Definition cascade_evictable_blocks (tier_filter : option Tier) (c : RadixCache) : res (list BlockId) :=
  r ← get c root;
  fold_res (fun out child_idx =>
    snd <$> collect_cascade_evictable_blocks (S (length (nodes c))) c tier_filter child_idx out)
    (child_ids r) [].

Definition is_block_evictable (block : BlockId) (tier_filter : option Tier) (c : RadixCache) : res bool :=
  match block_index c !! block with
  | None => Done false
  | Some idx => node_is_cascade_evictable_now (S (length (nodes c))) c tier_filter idx
  end.

(** [saturating_mul] on lengths bounded by the node table does not saturate. *)
Definition evictable_tokens (c : RadixCache) : res nat :=
  blocks ← cascade_evictable_blocks None c; Done (length blocks * block_size c).

Definition evictable_pages (page_size : nat) (c : RadixCache) : res nat :=
  t ← evictable_tokens c; Done (div_ceil t (Nat.max page_size 1)).

(** ** Metadata of one block *)
Record BlockMetadata := mkBlockMetadata {
  md_location : option BlockLocation;
  md_byte_len : N;
  md_session_id : option SessionId;
  md_host_swap_eligible : bool;
  md_fingerprint : option BlockFingerprint;
  md_soft_pin_until : option N;
  md_host_spill_pin_until : option N;
  md_entry_state : IndexEntryState;
  md_store_state : StoreState;
  md_hit_count : N;
  md_ref_count : N;
}.

Definition metadata_of (n : Node) : BlockMetadata :=
  mkBlockMetadata (n_tier_location n) (n_byte_len n) (n_session_id n) (n_host_swap_eligible n)
    (n_fingerprint n) (n_soft_pin_until n) (n_host_spill_pin_until n) (n_entry_state n)
    (n_store_state n) (n_hit_count n) (n_ref_count n).

Definition block_metadata (block : BlockId) (c : RadixCache) : option BlockMetadata :=
  p ← find_block_node c block; Some (metadata_of p.2).

Definition stamp_location (l : BlockLocation) (n : Node) : Node :=
  let n := set_tier_location (Some l) n in
  if is_host_pinned (n_tier_location n) then n else set_host_spill_pin_until None n.

Definition set_block_location (b : BlockId) (l : BlockLocation) (c : RadixCache) : RadixCache * bool :=
  update_block_node c b (stamp_location l).
Definition set_block_byte_len (b : BlockId) (len : N) (c : RadixCache) : RadixCache * bool :=
  update_block_node c b (set_byte_len len).
Definition set_block_session_id (b : BlockId) (sid : option SessionId) (c : RadixCache) : RadixCache * bool :=
  update_block_node c b (set_session_id sid).
Definition set_block_soft_pin_until (b : BlockId) (d : option N) (c : RadixCache) : RadixCache * bool :=
  update_block_node c b (set_soft_pin_until d).
Definition set_block_host_spill_pin_until (b : BlockId) (d : option N) (c : RadixCache) : RadixCache * bool :=
  update_block_node c b (set_host_spill_pin_until d).

(** [None] leaves a field alone. *)
Record BlockMetadataUpdate := mkBlockMetadataUpdate {
  up_location : option BlockLocation;
  up_byte_len : option N;
  up_session_id : option (option SessionId);
  up_host_swap_eligible : option bool;
  up_soft_pin_until : option (option N);
  up_host_spill_pin_until : option (option N);
  up_entry_state : option IndexEntryState;
}.

Definition BlockMetadataUpdate_default : BlockMetadataUpdate :=
  mkBlockMetadataUpdate None None None None None None None.

Definition when_some {A} (o : option A) (f : A -> Node -> Node) (n : Node) : Node :=
  match o with Some a => f a n | None => n end.

Definition apply_update (u : BlockMetadataUpdate) (n : Node) : Node :=
  let n := when_some (up_location u) stamp_location n in
  let n := when_some (up_byte_len u) set_byte_len n in
  let n := when_some (up_session_id u) set_session_id n in
  let n := when_some (up_host_swap_eligible u) set_host_swap_eligible n in
  let n := when_some (up_soft_pin_until u) set_soft_pin_until n in
  let n := when_some (up_host_spill_pin_until u) set_host_spill_pin_until n in
  when_some (up_entry_state u) set_entry_state n.

Definition update_block_metadata (b : BlockId) (u : BlockMetadataUpdate) (c : RadixCache) : RadixCache * bool :=
  update_block_node c b (apply_update u).

(** ** Index and store states *)
Definition set_block_index_state (b : BlockId) (s : IndexEntryState) (c : RadixCache) : RadixCache * bool :=
  update_block_node c b (set_entry_state s).
Definition set_block_store_state (b : BlockId) (s : StoreState) (c : RadixCache) : RadixCache * bool :=
  update_block_node c b (set_store_state s).

Definition insert_pending (b : BlockId) (c : RadixCache) : RadixCache * bool :=
  set_block_index_state b IPending c.
Definition mark_block_evicting (b : BlockId) (c : RadixCache) : RadixCache * bool :=
  set_block_index_state b IEvicting c.
Definition commit_ready (b : BlockId) (l : option BlockLocation) (c : RadixCache) : RadixCache * bool :=
  update_block_metadata b (mkBlockMetadataUpdate l None None None None None (Some IReady)) c.

Definition mark_block_store_pending (b : BlockId) (c : RadixCache) : RadixCache * bool :=
  set_block_store_state b SPending c.
Definition mark_block_storing (b : BlockId) (c : RadixCache) : RadixCache * bool :=
  set_block_store_state b SStoring c.
Definition mark_block_stored (b : BlockId) (l : option BlockLocation) (c : RadixCache) : RadixCache * bool :=
  let '(c, updated) := match l with
    | Some l => set_block_location b l c
    | None => (c, is_some (block_index c !! b))
    end in
  if updated : bool then set_block_store_state b SStored c else (c, false).
Definition mark_block_store_failed (b : BlockId) (c : RadixCache) : RadixCache * bool :=
  set_block_store_state b SFailed c.

Definition bump_soft_pin (b : BlockId) (ticks_ahead : N) (c : RadixCache) : RadixCache * bool :=
  let deadline := u64_saturating_add (clock c) ticks_ahead in
  match find_block_node c b with
  | Some (idx, n) =>
      if is_some (n_soft_pin_until n)
      then (set_nodes (<[idx := set_soft_pin_until (Some deadline) n]> (nodes c)) c, true)
      else (c, false)
  | None => (c, false)
  end.

Definition logical_clock (c : RadixCache) : N := clock c.
