(* ===== verification/RadixSparse.v ===== *)
(** * Radix prefix cache: sparse draft views

    Models [select_sparse_pages_for_draft], its token-path variants,
    [select_sparse_pages_from_candidates] and [drop_pages_for_sparse_view] of
    [infer/src/prefix_cache.rs]. *)

From S2P Require Import Prelude Lists Tier RadixTypes RadixTree RadixLookup RadixEvict.

Record SparseDraftCandidate := mkSparseDraftCandidate {
  sc_block_id : BlockId;
  sc_path_len : nat;
  sc_last_access : N;
}.

(** Most recently used first, then by block id; deepest first, then by block
    id. *)
Definition hotter (a b : SparseDraftCandidate) : bool :=
  bool_decide (sc_last_access b < sc_last_access a)%N
  || (bool_decide (sc_last_access a = sc_last_access b) && bool_decide (sc_block_id a <= sc_block_id b)%N).
Definition deeper (a b : SparseDraftCandidate) : bool :=
  bool_decide (sc_path_len b < sc_path_len a)
  || (bool_decide (sc_path_len a = sc_path_len b) && bool_decide (sc_block_id a <= sc_block_id b)%N).

(** [if selected_set.insert(id) { selected.push(id) }]. *)
Definition push_new (selected : list BlockId) (x : SparseDraftCandidate) : list BlockId :=
  if bool_decide (sc_block_id x ∈ selected) then selected else selected ++ [sc_block_id x].

Definition select_sparse_pages_from_candidates (bs : nat) (candidates : list SparseDraftCandidate)
    (recent_tokens top_k : nat) : list BlockId :=
  if bool_decide (candidates = [] \/ (recent_tokens = 0 /\ top_k = 0)) then []
  else
    let by_access := sort_by hotter candidates in
    let selected := foldl push_new [] (take top_k by_access) in
    let recent_blocks := Nat.min (div_ceil recent_tokens bs) (length candidates) in
    let by_depth := sort_by deeper by_access in
    foldl push_new selected (take recent_blocks by_depth).

#[export] Instance SparseDraftCandidate_eq_dec : EqDecision SparseDraftCandidate.
Proof. solve_decision. Defined.

(** The slot of a GPU-resident block. *)
Definition gpu_slot (n : Node) : option N :=
  match n_tier_location n with Some (LocGpu slot) => Some slot | _ => None end.

Fixpoint collect_slot (fuel : nat) (c : RadixCache) (slot_idx : N) (node_idx parent_path_len : nat)
    (out : list SparseDraftCandidate) : res (list SparseDraftCandidate) :=
  match fuel with
  | 0 => OutOfFuel
  | S fuel =>
      n ← get c node_idx;
      let path_len := parent_path_len + length (n_tokens n) in
      let out :=
        match n_block_id n, gpu_slot n with
        | Some b, Some slot =>
            if bool_decide (slot = slot_idx)
            then out ++ [mkSparseDraftCandidate b path_len (n_last_access n)] else out
        | _, _ => out
        end in
      fold_res (fun out child_idx => collect_slot fuel c slot_idx child_idx path_len out) (child_ids n) out
  end.

Definition select_sparse_pages_for_draft (slot_idx recent_tokens top_k : nat) (c : RadixCache)
    : res (list BlockId) :=
  match u32_try_from slot_idx with
  | None => Done []
  | Some slot =>
      candidates ← collect_slot (S (length (nodes c))) c slot root 0 [];
      Done (select_sparse_pages_from_candidates (block_size c) candidates recent_tokens top_k)
  end.

Fixpoint collect_path (fuel : nat) (c : RadixCache) (slot_idx : N) (attached : list BlockId)
    (tokens : list Token) (node_idx pos : nat) (out : list SparseDraftCandidate)
    : res (list SparseDraftCandidate) :=
  match fuel with
  | 0 => OutOfFuel
  | S fuel =>
      o ← descend c tokens node_idx pos;
      match o with
      | None => Done out
      | Some (child_idx, pos) =>
          n ← get c child_idx;
          let out :=
            match n_block_id n, gpu_slot n with
            | Some b, Some slot =>
                if bool_decide (slot = slot_idx) || bool_decide (b ∈ attached)
                then out ++ [mkSparseDraftCandidate b pos (n_last_access n)] else out
            | _, _ => out
            end in
          collect_path fuel c slot_idx attached tokens child_idx pos out
      end
  end.

Definition select_sparse_pages_for_draft_tokens_with_attached (slot_idx : nat) (tokens : list Token)
    (recent_tokens top_k : nat) (attached : list BlockId) (c : RadixCache) : res (list BlockId) :=
  match u32_try_from slot_idx with
  | None => Done []
  | Some slot =>
      if bool_decide (tokens = [])
      then select_sparse_pages_for_draft (N.to_nat slot) recent_tokens top_k c
      else
        candidates ← collect_path (S (length tokens)) c slot attached tokens root 0 [];
        Done (select_sparse_pages_from_candidates (block_size c) candidates recent_tokens top_k)
  end.

Definition select_sparse_pages_for_draft_tokens (slot_idx : nat) (tokens : list Token)
    (recent_tokens top_k : nat) (c : RadixCache) : res (list BlockId) :=
  select_sparse_pages_for_draft_tokens_with_attached slot_idx tokens recent_tokens top_k [] c.

(** ** Dropping pages from a sparse view *)

(** The node after the pass, and the block reported when it is dropped. *)
Definition drop_node (slot_idx : N) (keep attached : list BlockId) (now : N) (n : Node)
    : Node * option BlockId :=
  match n_block_id n with
  | None => (n, None)
  | Some b =>
      if bool_decide (b ∈ keep) then (set_sparse_dropped false n, None)
      else if negb (bool_decide (gpu_slot n = Some slot_idx) || bool_decide (b ∈ attached)) then (n, None)
      else
        let ref_ok := bool_decide (n_ref_count n = 0%N) || bool_decide (b ∈ attached) in
        if ref_ok && bool_decide (n_entry_state n = IReady)
           && match n_soft_pin_until n with Some d => bool_decide (d <= now)%N | None => true end
        then (set_sparse_dropped true n, Some b)
        else (set_sparse_dropped false n, None)
  end.

Definition drop_pages_for_sparse_view (slot_idx : nat) (sparse_page_ids attached_page_ids : list BlockId)
    (c : RadixCache) : RadixCache * list BlockId :=
  match u32_try_from slot_idx with
  | None => (c, [])
  | Some slot =>
      let step := drop_node slot sparse_page_ids attached_page_ids (clock c) in
      (set_nodes ((fun n => (step n).1) <$> nodes c) c,
       sort_by (fun a b => bool_decide (a <= b)%N) (omap (fun n => (step n).2) (nodes c)))
  end.

(** ** Lemmas *)
Lemma push_new_elem selected x b : b ∈ push_new selected x <-> b ∈ selected \/ b = sc_block_id x.
Proof. unfold push_new. case_bool_decide; [|set_solver]. split; [by left|]. by intros [?| ->]. Qed.

Lemma push_all_elem l : forall selected b,
  b ∈ foldl push_new selected l <-> b ∈ selected \/ b ∈ sc_block_id <$> l.
Proof.
  induction l as [|x l IH]; intros selected b; cbn; [set_solver|]. rewrite IH, push_new_elem. set_solver.
Qed.

Lemma push_all_nodup l : forall selected, NoDup selected -> NoDup (foldl push_new selected l).
Proof.
  induction l as [|x l IH]; intros selected Hnd; [done|]. cbn. apply IH. unfold push_new.
  case_bool_decide; [done|]. apply NoDup_app. split_and!; [done|set_solver|apply NoDup_singleton].
Qed.

Lemma push_all_length l : forall selected,
  length (foldl push_new selected l) <= length selected + length l.
Proof.
  induction l as [|x l IH]; intros selected; cbn; [lia|]. etransitivity; [apply IH|]. unfold push_new.
  case_bool_decide; [lia|]. rewrite length_app. cbn. lia.
Qed.

(** The sparse selection is bounded and covers what it must. It selects
    each block once, only candidates, at most [top_k] of them plus as many as
    cover the recent tokens; every candidate among the [top_k] most recently
    used ones, and every one in the deepest [recent_tokens] worth of blocks, is
    in it. *)
Theorem select_sparse_spec bs candidates recent_tokens top_k :
  0 < bs -> 0 < recent_tokens + top_k ->
  let selected := select_sparse_pages_from_candidates bs candidates recent_tokens top_k in
  let by_access := sort_by hotter candidates in
  let by_depth := sort_by deeper by_access in
  NoDup selected /\ length selected <= top_k + div_ceil recent_tokens bs /\
  (forall b, b ∈ selected <->
     b ∈ sc_block_id <$> take top_k by_access \/
     b ∈ sc_block_id <$> take (div_ceil recent_tokens bs) by_depth) /\
  by_access ≡ₚ candidates /\ by_depth ≡ₚ candidates.
Proof.
  intros Hbs Hsome selected by_access by_depth.
  assert (by_access ≡ₚ candidates) as Hperm by apply sort_by_perm.
  assert (by_depth ≡ₚ candidates) as Hperm' by (by unfold by_depth; rewrite sort_by_perm).
  pose proof (Permutation_length Hperm') as Hlen.
  unfold selected, select_sparse_pages_from_candidates. case_bool_decide as Hempty.
  { destruct Hempty as [Hempty|[? ?]]; [|lia]. subst candidates.
    apply Permutation_nil_r in Hperm. apply Permutation_nil_r in Hperm'. rewrite Hperm, Hperm', !take_nil.
    split_and!; [apply NoDup_nil_2|cbn; lia|set_solver|done|done]. }
  fold by_access. fold by_depth. split_and!; [| | |done|done].
  - apply push_all_nodup, push_all_nodup, NoDup_nil_2.
  - etransitivity; [apply push_all_length|]. rewrite !length_take.
    pose proof (push_all_length (take top_k by_access) []) as Hle. rewrite length_take in Hle. cbn in Hle. lia.
  - intros b. rewrite !push_all_elem.
    assert (take (Nat.min (div_ceil recent_tokens bs) (length candidates)) by_depth
            = take (div_ceil recent_tokens bs) by_depth) as ->.
    { destruct (Nat.min_spec (div_ceil recent_tokens bs) (length candidates)) as [[? ->]|[? ->]]; [done|].
      rewrite !take_ge by lia. done. }
    set_solver.
Qed.

Lemma select_sparse_spec_witness :
  NoDup (select_sparse_pages_from_candidates 4
    [mkSparseDraftCandidate 1 4 9; mkSparseDraftCandidate 2 8 3; mkSparseDraftCandidate 3 12 5] 4 1) /\
  select_sparse_pages_from_candidates 4
    [mkSparseDraftCandidate 1 4 9; mkSparseDraftCandidate 2 8 3; mkSparseDraftCandidate 3 12 5] 4 1 = [1; 3]%N.
Proof.
  split; [|vm_compute; reflexivity].
  apply (select_sparse_spec 4
    [mkSparseDraftCandidate 1 4 9; mkSparseDraftCandidate 2 8 3; mkSparseDraftCandidate 3 12 5] 4 1); lia.
Defined.
