(* ===== verification/RadixMetaProps.v ===== *)
(** * Retagging, metadata and snapshots

    What [retag_block], the metadata updates and the snapshot of
    [infer/src/prefix_cache.rs] keep and change. *)

From S2P Require Import Prelude Tier RadixTypes RadixTree RadixInsert RadixMeta.

(** ** Retagging *)

(** [retag_block] renames one block in place. When [old] is indexed and
    [new] is another id not in use, it succeeds: the prefix that mapped to
    [old] maps to [new], every other prefix maps as before, and the cache stays
    well-formed. Otherwise it reports whether [old] and [new] are the same
    indexed block and changes nothing. *)
Theorem retag_block_spec old new c :
  wf c -> no_orphans c ->
  match block_index c !! old with
  | Some i =>
      if decide (old <> new /\ block_index c !! new = None) then
        exists c' q n, retag_block old new c = (c', true) /\ wf c' /\ no_orphans c' /\ at_path c q i /\
          nodes c !! i = Some n /\ nodes c' = <[i := set_block_id (Some new) n]> (nodes c) /\
          (forall x y, cached c' x y <-> if decide (x = q) then y = new else cached c x y)
      else retag_block old new c = (c, bool_decide (old = new))
  | None => retag_block old new c = (c, false)
  end.
Proof.
  intros Hwf Hreach. unfold retag_block. destruct (block_index c !! old) as [i|] eqn:Hold.
  2: { case_bool_decide; [done|]. by destruct (is_some (block_index c !! new)). }
  destruct (wf_index _ Hwf old i Hold) as (n & Hn & Hb).
  destruct (decide (old = new)) as [->|Hne].
  { rewrite decide_False by tauto. by rewrite bool_decide_eq_true_2. }
  rewrite bool_decide_eq_false_2 by done. destruct (block_index c !! new) as [j|] eqn:Hnew.
  { rewrite decide_False by (intros [_ ?]; done). done. }
  rewrite decide_True by done. cbn [is_some is_none negb]. cbn [nodes set_block_index]. rewrite Hn.
  rewrite bool_decide_eq_false_2 by (rewrite Hb; by intros ?).
  destruct (Hreach i) as [q Hq]; [exists n; by rewrite Hb|].
  set (index' := <[new := i]> (delete old (block_index c))).
  assert (forall x j, index' !! x = Some j ->
    (x = new /\ j = i) \/ (x <> new /\ n_block_id n <> Some x /\ block_index c !! x = Some j)) as Hindex.
  { intros x j [[-> ->]|[Hx [Hxo Hj]%lookup_delete_Some]]%lookup_insert_Some; [by left|right].
    split_and!; [done|congruence|done]. }
  assert (is_Some (n_block_id n)) as Hsome by (rewrite Hb; eauto).
  exists (retagged c i (set_block_id (Some new) n) index'), q, n. split_and!.
  - done.
  - by eapply (retagged_wf c Hwf i q n (set_block_id (Some new) n) new Hq Hn).
  - by apply (retagged_no_orphans c i n (set_block_id (Some new) n) Hn).
  - done.
  - done.
  - done.
  - by apply (retagged_cached c Hwf i q n (set_block_id (Some new) n) new Hq Hn).
Qed.

(** ** Metadata *)
Lemma find_block_node_Some c b i n :
  find_block_node c b = Some (i, n) <-> block_index c !! b = Some i /\ nodes c !! i = Some n.
Proof.
  unfold find_block_node. destruct (block_index c !! b) as [j|]; cbn; [|naive_solver].
  destruct (nodes c !! j) as [m|] eqn:E; cbn; (split; [|intros [[= ->] Hn]; congruence]).
  - by intros [= -> ->].
  - done.
Qed.

(** An update that keeps the shape of the node it touches. *)
Lemma update_block_node_spec c b f :
  (forall n, node_shape (f n) = node_shape n) ->
  match find_block_node c b with
  | Some (i, n) => exists c', update_block_node c b f = (c', true) /\ same_tree c c' /\ clock c' = clock c /\
      nodes c' !! i = Some (f n) /\ forall j, j <> i -> nodes c' !! j = nodes c !! j
  | None => update_block_node c b f = (c, false)
  end.
Proof.
  intros Hf. unfold update_block_node. destruct (find_block_node c b) as [[i n]|] eqn:Hfind; [|done].
  apply find_block_node_Some in Hfind as [_ Hn]. eexists. split; [done|].
  split; [split; [by apply (shape_update c i n)|done..]|]. split; [done|]. cbn. split.
  - apply list_lookup_insert_eq. by eapply lookup_lt_Some.
  - intros j Hj. by apply list_lookup_insert_ne.
Qed.

Lemma when_some_keep {A B} (proj : Node -> B) (o : option A) f n :
  (forall a n, proj (f a n) = proj n) -> proj (when_some o f n) = proj n.
Proof. intros H. destruct o; cbn; [apply H|done]. Qed.

Lemma when_some_set {A B} (proj : Node -> B) (g : A -> B) (o : option A) f n :
  (forall a n, proj (f a n) = g a) ->
  proj (when_some o f n) = match o with Some a => g a | None => proj n end.
Proof. intros H. destruct o; cbn; [apply H|done]. Qed.

(** The fields after an update. *)
Section update_fields.
Context (u : BlockMetadataUpdate) (n : Node).

Ltac skip := intros; by repeat match goal with l : BlockLocation |- _ => destruct l end.

Lemma update_location : n_tier_location (apply_update u n) = match up_location u with Some x => Some x | None => n_tier_location n end.
Proof.
  unfold apply_update. repeat rewrite (when_some_keep n_tier_location) by skip.
  rewrite (when_some_set n_tier_location Some) by skip. repeat rewrite (when_some_keep n_tier_location) by skip. done.
Qed.
Lemma update_byte_len : n_byte_len (apply_update u n) = match up_byte_len u with Some x => x | None => n_byte_len n end.
Proof.
  unfold apply_update. repeat rewrite (when_some_keep n_byte_len) by skip.
  rewrite (when_some_set n_byte_len id) by skip. repeat rewrite (when_some_keep n_byte_len) by skip. done.
Qed.
Lemma update_session_id : n_session_id (apply_update u n) = match up_session_id u with Some x => x | None => n_session_id n end.
Proof.
  unfold apply_update. repeat rewrite (when_some_keep n_session_id) by skip.
  rewrite (when_some_set n_session_id id) by skip. repeat rewrite (when_some_keep n_session_id) by skip. done.
Qed.
Lemma update_host_swap_eligible : n_host_swap_eligible (apply_update u n) = match up_host_swap_eligible u with Some x => x | None => n_host_swap_eligible n end.
Proof.
  unfold apply_update. repeat rewrite (when_some_keep n_host_swap_eligible) by skip.
  rewrite (when_some_set n_host_swap_eligible id) by skip. repeat rewrite (when_some_keep n_host_swap_eligible) by skip. done.
Qed.
Lemma update_soft_pin_until : n_soft_pin_until (apply_update u n) = match up_soft_pin_until u with Some x => x | None => n_soft_pin_until n end.
Proof.
  unfold apply_update. repeat rewrite (when_some_keep n_soft_pin_until) by skip.
  rewrite (when_some_set n_soft_pin_until id) by skip. repeat rewrite (when_some_keep n_soft_pin_until) by skip. done.
Qed.
Lemma update_entry_state : n_entry_state (apply_update u n) = match up_entry_state u with Some x => x | None => n_entry_state n end.
Proof.
  unfold apply_update. repeat rewrite (when_some_keep n_entry_state) by skip.
  rewrite (when_some_set n_entry_state id) by skip. repeat rewrite (when_some_keep n_entry_state) by skip. done.
Qed.
Lemma update_host_spill_pin_until : n_host_spill_pin_until (apply_update u n) =
  match up_host_spill_pin_until u with
  | Some x => x
  | None => match up_location u with
            | Some l => n_host_spill_pin_until (stamp_location l n)
            | None => n_host_spill_pin_until n
            end
  end.
Proof.
  unfold apply_update. rewrite (when_some_keep n_host_spill_pin_until) by skip.
  rewrite (when_some_set n_host_spill_pin_until id) by skip.
  repeat rewrite (when_some_keep n_host_spill_pin_until _ set_soft_pin_until) by skip.
  repeat rewrite (when_some_keep n_host_spill_pin_until _ set_host_swap_eligible) by skip.
  repeat rewrite (when_some_keep n_host_spill_pin_until _ set_session_id) by skip.
  repeat rewrite (when_some_keep n_host_spill_pin_until _ set_byte_len) by skip.
  by destruct (up_host_spill_pin_until u), (up_location u).
Qed.
Lemma update_fingerprint : n_fingerprint (apply_update u n) = n_fingerprint n.
Proof. unfold apply_update. by repeat rewrite (when_some_keep n_fingerprint) by skip. Qed.
Lemma update_store_state : n_store_state (apply_update u n) = n_store_state n.
Proof. unfold apply_update. by repeat rewrite (when_some_keep n_store_state) by skip. Qed.
Lemma update_hit_count : n_hit_count (apply_update u n) = n_hit_count n.
Proof. unfold apply_update. by repeat rewrite (when_some_keep n_hit_count) by skip. Qed.
Lemma update_ref_count : n_ref_count (apply_update u n) = n_ref_count n.
Proof. unfold apply_update. by repeat rewrite (when_some_keep n_ref_count) by skip. Qed.
End update_fields.

Lemma apply_update_shape u n : node_shape (apply_update u n) = node_shape n.
Proof.
  unfold apply_update. rewrite !(when_some_keep node_shape); [done|..]; try done. by intros [].
Qed.

(** [update_block_metadata] sets exactly the fields it is given, on
    exactly one block. The tree, the clock and every other node stay as they
    are; the metadata read back afterwards has the new value of each field
    given and the old value of the others; stamping a location off the host
    tier drops the host spill pin unless the update sets one. *)
Theorem update_block_metadata_spec b u c :
  match find_block_node c b with
  | Some (i, n) =>
      exists c' m, update_block_metadata b u c = (c', true) /\ same_tree c c' /\
        (forall j, j <> i -> nodes c' !! j = nodes c !! j) /\
        block_metadata b c' = Some m /\
        md_location m = (match up_location u with Some l => Some l | None => n_tier_location n end) /\
        md_byte_len m = default (n_byte_len n) (up_byte_len u) /\
        md_session_id m = default (n_session_id n) (up_session_id u) /\
        md_host_swap_eligible m = default (n_host_swap_eligible n) (up_host_swap_eligible u) /\
        md_soft_pin_until m = default (n_soft_pin_until n) (up_soft_pin_until u) /\
        md_host_spill_pin_until m = default
          (match up_location u with
           | Some l => if is_host_pinned (Some l) then n_host_spill_pin_until n else None
           | None => n_host_spill_pin_until n
           end) (up_host_spill_pin_until u) /\
        md_entry_state m = default (n_entry_state n) (up_entry_state u) /\
        md_fingerprint m = n_fingerprint n /\ md_store_state m = n_store_state n /\
        md_hit_count m = n_hit_count n /\ md_ref_count m = n_ref_count n
  | None => update_block_metadata b u c = (c, false)
  end.
Proof.
  unfold update_block_metadata.
  pose proof (update_block_node_spec c b (apply_update u) (apply_update_shape u)) as H.
  destruct (find_block_node c b) as [[i n]|] eqn:Hfind; [|done].
  destruct H as (c' & Hrun & Hst & _ & Hi & Hother). exists c', (metadata_of (apply_update u n)).
  apply find_block_node_Some in Hfind as [Hidx _].
  assert (find_block_node c' b = Some (i, apply_update u n)) as Hfind'.
  { apply find_block_node_Some. split; [|done]. by rewrite (st_index _ _ Hst). }
  split; [done|]. split; [done|]. split; [done|]. unfold block_metadata. rewrite Hfind'. split; [done|].
  clear. cbn [metadata_of md_location md_byte_len md_session_id md_host_swap_eligible md_soft_pin_until
    md_host_spill_pin_until md_entry_state md_fingerprint md_store_state md_hit_count md_ref_count].
  split_and!.
  - rewrite update_location. by destruct (up_location u).
  - rewrite update_byte_len. by destruct (up_byte_len u).
  - rewrite update_session_id. by destruct (up_session_id u).
  - rewrite update_host_swap_eligible. by destruct (up_host_swap_eligible u).
  - rewrite update_soft_pin_until. by destruct (up_soft_pin_until u).
  - rewrite update_host_spill_pin_until. by destruct (up_host_spill_pin_until u), (up_location u) as [[]|].
  - rewrite update_entry_state. by destruct (up_entry_state u).
  - apply update_fingerprint.
  - apply update_store_state.
  - apply update_hit_count.
  - apply update_ref_count.
Qed.

(** ** Snapshots *)
Lemma rebuild_sound c b i :
  block_index (rebuild_block_index c) !! b = Some i ->
  exists n, nodes c !! i = Some n /\ n_block_id n = Some b.
Proof.
  unfold rebuild_block_index. cbn [block_index set_block_index].
  assert (forall l (m : gmap BlockId nat),
    (forall p, p ∈ l -> nodes c !! p.1 = Some p.2) ->
    (forall b i, m !! b = Some i -> exists n, nodes c !! i = Some n /\ n_block_id n = Some b) ->
    forall b i, foldl (fun (m : gmap BlockId nat) (p : nat * Node) =>
        match n_block_id p.2 with Some bid => <[bid := p.1]> m | None => m end) m l !! b = Some i ->
      exists n, nodes c !! i = Some n /\ n_block_id n = Some b) as Hgen.
  { induction l as [|p l IH]; intros m Hl Hm; [done|]. cbn. apply IH; [intros; apply Hl; by right|].
    destruct (n_block_id p.2) as [bid|] eqn:Hb; [|done].
    intros b' i' [[<- <-]|[_ ?]]%lookup_insert_Some; [|by apply Hm]. exists p.2. split; [apply Hl; left|done]. }
  apply Hgen.
  - intros p Hp. apply list_elem_of_lookup in Hp as [k Hk]. rewrite list_lookup_imap in Hk.
    destruct (nodes c !! k) as [n|] eqn:Hn; [|done]. cbn in Hk. by simplify_eq.
  - intros b' i'. by rewrite lookup_empty.
Qed.

Lemma wf_reindex c c' :
  shape c' = shape c -> free_nodes c' = free_nodes c -> block_size c' = block_size c ->
  (forall b i, block_index c' !! b = Some i -> exists n, nodes c' !! i = Some n /\ n_block_id n = Some b) ->
  wf c -> wf c'.
Proof.
  intros Hs Hf Hbs Hidx Hwf.
  assert (wf (set_block_index ∅ c)) as Hwf1.
  { pose proof Hwf as [H1 H2 H3 H4 H5 H6 H7].
    assert (forall q i, at_path (set_block_index ∅ c) q i <-> at_path c q i) as Hat.
    { intros q i. split; by apply at_path_same_shape. }
    split; [done|done| | |done| |intros b i; cbn; by rewrite lookup_empty].
    - intros q p n k i Hq%Hat. by apply H3.
    - intros q q' i Hq%Hat Hq'%Hat. by eapply H4.
    - intros i Hi. destruct (H6 i Hi) as [? Hno]. split; [done|]. intros q Hq%Hat. by eapply Hno. }
  assert (wf (set_block_index ∅ c')) as Hwf2 by (eapply wf_same_tree; [|exact Hwf1]; by split).
  pose proof Hwf2 as [H1 H2 H3 H4 H5 H6 _].
  assert (forall q i, at_path (set_block_index ∅ c') q i <-> at_path c' q i) as Hat.
  { intros q i. split; by apply at_path_same_shape. }
  split; [done|done| | |done| |done].
  - intros q p n k i Hq%Hat. by apply H3.
  - intros q q' i Hq%Hat Hq'%Hat. by eapply H4.
  - intros i Hi. destruct (H6 i Hi) as [? Hno]. split; [done|]. intros q Hq%Hat. by eapply Hno.
Qed.

(** A snapshot only loads into its own namespace, and then gives the cache
    back. Loading what was saved under another expected namespace is an error;
    under its own it yields a cache that, once its index is rebuilt, is
    well-formed, maps the same prefixes to the same blocks, and starts with a
    zero clock and no reference held. *)
Theorem snapshot_roundtrip c ns :
  wf c ->
  match load_snapshot (snapshot_of c) ns with
  | None => ns <> namespace c
  | Some c' =>
      ns = namespace c /\ namespace c' = ns /\ wf (rebuild_block_index c') /\
      (forall q b, cached (rebuild_block_index c') q b <-> cached c q b) /\
      clock c' = 0%N /\ Forall (fun n => n_ref_count n = 0%N) (nodes c')
  end.
Proof.
  intros Hwf. unfold load_snapshot. case_bool_decide as Hns; [by intros ->|].
  cbn in Hns. set (c' := mkRadixCache _ _ _ _ _ _ _).
  assert (shape (rebuild_block_index c') = shape c) as Hs.
  { unfold shape. cbn. rewrite <-list_fmap_compose. by apply list_fmap_ext. }
  split_and!; [by subst|by subst| | |done|].
  - apply (wf_reindex c); [done|done|done| |done]. intros b i Hb. exact (rebuild_sound c' b i Hb).
  - intros q b. by apply cached_same_shape.
  - cbn. apply Forall_fmap, Forall_true. done.
Qed.
