(* ===== verification/RadixExamples.v ===== *)
(** * The radix cache at concrete inputs

    A small cache, the theorems of the radix files applied to it, and the
    scenarios in which the cache does not do what it means to. *)

From S2P Require Import Prelude Tier Policy RadixTypes RadixTree RadixLookup RadixLookupProps RadixInsert RadixInsertProps RadixEvict RadixEvictTree RadixEvictProps RadixMeta RadixMetaProps.

Definition done_or {A} (d : A) (r : res A) : A := match r with Done a => a | _ => d end.
Definition no_cache : RadixCache := mkRadixCache [] [] 0 0 None ∅ [].
Definition empty_cache (bs : nat) : RadixCache := done_or no_cache (RadixCache_new bs).
Definition put (toks : list Token) (blocks : list BlockId) (c : RadixCache) : RadixCache :=
  (done_or (c, 0) (insert toks blocks c)).1.

(** Two prompts that share one block and part of the next. *)
Definition example_cache : RadixCache :=
  put [1; 2; 3; 5; 6; 7]%N [10; 12; 13]%N (put [1; 2; 3; 4]%N [10; 11]%N (empty_cache 2)).

(** ** The hypotheses hold *)
Definition sound (c : RadixCache) : Prop := wf c /\ no_orphans c.

Lemma empty_cache_sound bs : 0 < bs -> sound (empty_cache bs).
Proof.
  intros Hbs. unfold empty_cache, RadixCache_new. destruct (new_with_soft_pin_keepalive bs None zero_namespace) as [c| |] eqn:E;
    [|unfold new_with_soft_pin_keepalive in E; by rewrite bool_decide_eq_true_2 in E by done..].
  split; [by eapply cache_new_wf|]. intros i (n & Hn & Hb). unfold new_with_soft_pin_keepalive in E.
  rewrite bool_decide_eq_true_2 in E by done. injection E as <-.
  destruct i as [|[|i]]; cbn in Hn; [|done..]. injection Hn as <-. by destruct Hb.
Qed.

Lemma put_sound toks blocks c : sound c -> sound (put toks blocks c).
Proof.
  intros [Hwf Hreach]. unfold put, insert.
  destruct (insert_ok c toks blocks (replicate (length blocks) zero_fingerprint) Hwf) as
    (c' & Hrun & Hwf' & Hreach' & _); [apply length_replicate|]. rewrite Hrun. cbn. split; auto.
Qed.

Lemma example_cache_sound : sound example_cache.
Proof. do 2 apply put_sound. apply empty_cache_sound. lia. Qed.

Lemma distinct_blocks c : NoDup (omap n_block_id (nodes c)) -> blocks_distinct c.
Proof.
  intros Hnd i j n m b. revert i j Hnd. generalize (nodes c) as l.
  induction l as [|x l IH]; intros i j Hnd; [done|]. cbn in Hnd.
  assert (forall k y, l !! k = Some y -> n_block_id y = Some b -> b ∈ omap n_block_id l) as Hin.
  { intros k y Hk Hy. apply list_elem_of_omap. exists y. split; [|done]. by eapply list_elem_of_lookup_2. }
  assert (n_block_id x = Some b -> b ∉ omap n_block_id l) as Hx.
  { intros Hb. rewrite Hb in Hnd. by apply NoDup_cons in Hnd as [? _]. }
  assert (NoDup (omap n_block_id l)) as Hnd'.
  { destruct (n_block_id x); [by apply NoDup_cons in Hnd as [_ ?]|done]. }
  destruct i as [|i], j as [|j]; cbn; intros Hn Hm Hbn Hbm; simplify_eq; [done| | |].
  - exfalso. by eapply Hx, Hin.
  - exfalso. by eapply Hx, Hin.
  - f_equal. by eapply IH.
Qed.

Lemma example_cache_distinct : blocks_distinct example_cache.
Proof. apply distinct_blocks. apply (bool_decide_unpack _). vm_compute. exact I. Qed.

Lemma example_cache_refs i n : nodes example_cache !! i = Some n -> (n_ref_count n < u32_max)%N.
Proof.
  revert i. assert (Forall (fun n => (n_ref_count n < u32_max)%N) (nodes example_cache)) as H.
  { apply (bool_decide_unpack _). vm_compute. exact I. }
  intros i Hn. rewrite Forall_lookup in H. by eapply H.
Qed.

(** ** Witnesses *)
Lemma lookup_spec_witness :
  exists c' bs, lookup [1; 2; 3; 5; 9]%N example_cache = Done (c', (4, bs)) /\ bs = [10; 12]%N /\ wf c'.
Proof.
  destruct (lookup_spec example_cache [1; 2; 3; 5; 9]%N (proj1 example_cache_sound))
    as (c' & len & bs & Hrun & _ & _ & _ & _ & Hwf & _).
  pose proof Hrun as Hrun'. vm_compute in Hrun'. injection Hrun' as _ <- <-.
  exists c', [10; 12]%N. split; [exact Hrun|]. split; [reflexivity|exact Hwf].
Defined.

Definition pinned_cache : RadixCache := (done_or (example_cache, (0, [])) (lookup [1; 2; 3; 5]%N example_cache)).1.

Lemma lookup_release_roundtrip_witness :
  same_tree example_cache (release [10; 12]%N pinned_cache) /\
  (n_ref_count <$> nodes (release [10; 12]%N pinned_cache) !! 1 = n_ref_count <$> nodes example_cache !! 1).
Proof.
  destruct (lookup_release_roundtrip example_cache [1; 2; 3; 5]%N pinned_cache 4 [10; 12]%N
    (proj1 example_cache_sound) example_cache_distinct example_cache_refs) as [Hst Href].
  - vm_compute. reflexivity.
  - split; [exact Hst|exact (Href 1)].
Defined.

Lemma peek_agrees_with_stage_witness :
  exists o c' r, peek_prefix_classify [1; 2; 3; 4]%N example_cache = Done o /\
    lookup_or_stage [1; 2; 3; 4]%N LookupHeuristics_default example_cache = Done (c', r) /\
    pk_matched_len o = 4 /\ pk_blocks o = [(10%N, ReadyOnGpu); (11%N, ReadyOnGpu)].
Proof.
  destruct (peek_agrees_with_stage example_cache [1; 2; 3; 4]%N LookupHeuristics_default (proj1 example_cache_sound))
    as (o & c' & r & tail & Hpeek & Hstage & _).
  exists o, c', r. split; [exact Hpeek|]. split; [exact Hstage|].
  vm_compute in Hpeek. injection Hpeek as <-. split; reflexivity.
Defined.

Lemma insert_spec_witness :
  exists c', insert_with_fingerprints [1; 2; 8; 9; 4]%N [10; 20]%N [[1%N]; [2%N]] example_cache = Done (c', 4) /\
    wf c' /\ cached c' [1; 2; 8; 9]%N 20.
Proof.
  destruct (insert_spec example_cache [1; 2; 8; 9; 4]%N [10; 20]%N [[1%N]; [2%N]] (proj1 example_cache_sound) eq_refl)
    as (c' & Hrun & Hwf & _ & Hc).
  exists c'. split; [exact Hrun|]. split; [exact Hwf|].
  apply Hc. left. exists 1. split; [vm_compute; lia|]. split; vm_compute; reflexivity.
Defined.

Lemma insert_lookup_roundtrip_witness :
  exists c' c'' len' bs, insert_with_fingerprints [1; 2; 8; 9; 4]%N [10; 20]%N [[1%N]; [2%N]] example_cache = Done (c', 4) /\
    lookup [1; 2; 8; 9; 4; 4]%N c' = Done (c'', (len', bs)) /\ take 2 bs = [10; 20]%N.
Proof.
  destruct (insert_lookup_roundtrip example_cache [1; 2; 8; 9; 4]%N [10; 20]%N [[1%N]; [2%N]] [1; 2; 8; 9; 4; 4]%N
    (proj1 example_cache_sound) eq_refl) as (c' & len & c'' & len' & bs & Hrun & Hlook & Hle & Htake).
  - exists [4; 4]%N. vm_compute. reflexivity.
  - exists c', c'', len', bs. pose proof Hrun as Hrun'. vm_compute in Hrun'. injection Hrun' as _ <-.
    split; [exact Hrun|]. split; [exact Hlook|exact Htake].
Defined.

Lemma evict_spec_witness :
  exists c1 freed1 c2 freed2, evict 2 example_cache = Done (c1, freed1) /\ freed1 = [11; 13]%N /\ wf c1 /\
    evict 5 c1 = Done (c2, freed2) /\ length freed2 <= 5 /\ wf (tidy c2).
Proof.
  destruct (evict_spec 2 example_cache (tidy_wf _ (proj1 example_cache_sound)) (proj2 example_cache_sound)
    example_cache_distinct) as (c1 & freed1 & Hrun1 & Hwf1 & Hreach1 & Hdis1 & Hfull & _).
  destruct (evict_spec 5 c1 Hwf1 Hreach1 Hdis1) as (c2 & freed2 & Hrun2 & Hwf2 & _ & _ & _ & Hlen & _).
  exists c1, freed1, c2, freed2. split; [exact Hrun1|].
  split; [vm_compute in Hrun1; injection Hrun1 as _ <-; reflexivity|].
  split; [exact (Hfull eq_refl)|]. split; [exact Hrun2|]. split; [exact Hlen|exact Hwf2].
Defined.

Lemma find_lru_spec_witness :
  exists a v n, find_lru example_cache ∅ = Done (Some (a, v)) /\ nodes example_cache !! v = Some n /\
    n_block_id n = Some 11%N.
Proof.
  destruct (find_lru_spec example_cache ∅ (proj1 example_cache_sound) (proj2 example_cache_sound))
    as ([[a v]|] & Hrun & Hbest); [|vm_compute in Hrun; discriminate Hrun].
  destruct Hbest as (n & Hn & _). exists a, v, n. split; [exact Hrun|]. split; [exact Hn|].
  vm_compute in Hrun. injection Hrun as <- <-. vm_compute in Hn. injection Hn as <-. reflexivity.
Defined.

Lemma evict_with_policy_spec_witness :
  exists c' freed, evict_with_policy_for_intent_excluding mkLruEviction SchedulerSignals_default 1 None Spill
      (Some {[ 11%N ]}) example_cache = Done (c', freed) /\ wf c' /\ freed = [13]%N.
Proof.
  destruct (evict_with_policy_spec mkLruEviction SchedulerSignals_default 1 Spill (Some {[ 11%N ]}) example_cache
    (tidy_wf _ (proj1 example_cache_sound)) (proj2 example_cache_sound) example_cache_distinct)
    as (c' & freed & Hrun & _ & Hwf & _).
  exists c', freed. split; [exact Hrun|]. split; [exact (Hwf eq_refl)|].
  vm_compute in Hrun. injection Hrun as _ <-. reflexivity.
Defined.

Lemma retag_block_spec_witness :
  exists c', retag_block 11 99 example_cache = (c', true) /\ wf c'.
Proof.
  pose proof (retag_block_spec 11 99 example_cache (proj1 example_cache_sound) (proj2 example_cache_sound)) as H.
  destruct (block_index example_cache !! 11%N) as [i|] eqn:Ei; [|vm_compute in Ei; discriminate Ei].
  rewrite decide_True in H by (split; [discriminate|vm_compute; reflexivity]).
  destruct H as (c' & q & n & Hrun & Hwf & _). exists c'. split; [exact Hrun|exact Hwf].
Defined.

Lemma snapshot_roundtrip_witness :
  exists c', load_snapshot (snapshot_of example_cache) zero_namespace = Some c' /\ wf (rebuild_block_index c').
Proof.
  pose proof (snapshot_roundtrip example_cache zero_namespace (proj1 example_cache_sound)) as H.
  destruct (load_snapshot (snapshot_of example_cache) zero_namespace) as [c'|] eqn:E; [|vm_compute in E; discriminate E].
  exists c'. split; [reflexivity|]. apply H.
Defined.

(** ** Where the radix cache does not do what it means to

    Each theorem here is a run of the operations of the other radix files that
    ends in a state, or with an answer, the code does not intend. *)

(** ** Collecting reclaimed slots again *)

Lemma foldl_grows {A B} (R : gset nat -> A -> gset nat) (P : B -> Prop) (l : list A) : forall r,
  (forall r x, r ⊆ R r x) -> r ⊆ foldl R r l.
Proof.
  induction l as [|x l IH]; intros r HR; cbn; [done|]. etrans; [apply (HR r x)|]. by apply IH.
Qed.

(** A pass that finds nothing new has found every childless leftover. *)
Lemma gc_pass_complete c r i n :
  gc_pass c r = r -> i <> 0 -> nodes c !! i = Some n ->
  n_block_id n = None -> n_ref_count n = 0%N -> n_children n = ∅ -> i ∈ r.
Proof.
  intros Hfix Hi Hn Hb Href Hch. rewrite <-Hfix. unfold gc_pass.
  set (step := fun (r : gset nat) (idx : nat) => _).
  assert (forall r x, r ⊆ step r x) as Hgrow.
  { intros r' x. unfold step. destruct (nodes c !! x) as [m|]; [|done]. destruct (_ && _); set_solver. }
  pose proof (lookup_lt_Some _ _ _ Hn) as Hlt.
  assert (i ∈ seq 1 (length (nodes c) - 1)) as Hin by (apply elem_of_seq; lia).
  apply list_elem_of_split in Hin as (l1 & l2 & ->). rewrite foldl_app. cbn.
  apply (foldl_grows step (fun _ : nat => True)); [done|]. unfold step at 1. rewrite Hn, Hb, Href.
  unfold child_ids. rewrite Hch, map_to_list_empty. cbn. case_bool_decide; cbn; set_solver.
Qed.

(** The collector takes slots that are already free for garbage. Whenever
    the free list holds a reclaimed slot (blockless, unreferenced, childless),
    collecting puts it on the free list a second time, so two later
    allocations are given the same slot. *)
Theorem gc_reclaims_twice c i n :
  i ∈ free_nodes c -> i <> root -> nodes c !! i = Some n ->
  n_block_id n = None -> n_ref_count n = 0%N -> n_children n = ∅ ->
  exists c', gc_orphan_tombstones c = Done c' /\ ~ NoDup (free_nodes c').
Proof.
  intros Hfree Hi Hn Hb Href Hch.
  destruct (gc_fixpoint_ok c (S (length (nodes c))) ∅) as (r & Hrun & Hcl & Hfix).
  { intros x Hx. set_solver. }
  { rewrite size_empty. lia. }
  assert (i ∈ r) as Hir by (by eapply gc_pass_complete).
  unfold gc_orphan_tombstones. rewrite Hrun. cbn [mbind res_bind]. rewrite bool_decide_eq_false_2 by set_solver.
  destruct (reclaim_all (sorted_indices c r) (retain_children r c)) as (c' & Hrun' & Hf & _).
  { apply NoDup_filter, NoDup_seq. }
  { intros x Hx%list_elem_of_filter. destruct Hx as [_ Hx%elem_of_seq]. cbn. rewrite length_fmap. lia. }
  exists c'. split; [done|]. rewrite Hf. intros (_ & Hdis & _)%NoDup_app.
  by apply (Hdis i), elem_of_sorted_indices.
Qed.

Definition evicted (n : nat) (c : RadixCache) : RadixCache := (done_or (c, []) (evict n c)).1.
Definition looked_up (tokens : list Token) (c : RadixCache) : RadixCache * (nat * list BlockId) :=
  done_or (c, (0, [])) (lookup tokens c).
Definition put_fp (tokens : list Token) (blocks : list BlockId) (fps : list BlockFingerprint) (c : RadixCache)
    : RadixCache :=
  (done_or (c, 0) (insert_with_fingerprints tokens blocks fps c)).1.

(** One block cached and evicted: its slot is free. *)
Definition drained_cache : RadixCache := evicted 1 (put [1; 2]%N [10]%N (empty_cache 2)).

Lemma gc_reclaims_twice_witness :
  free_nodes drained_cache = [1] /\
  exists c', gc_orphan_tombstones drained_cache = Done c' /\ ~ NoDup (free_nodes c').
Proof.
  split; [vm_compute; reflexivity|].
  refine (gc_reclaims_twice drained_cache 1 (done_or (Node_new [] None 0) (get drained_cache 1)) _ _ _ _ _ _).
  - vm_compute. left.
  - discriminate.
  - vm_compute. reflexivity.
  - vm_compute. reflexivity.
  - vm_compute. reflexivity.
  - vm_compute. reflexivity.
Defined.

(** After an eviction that found nothing to evict, a prompt that is
    inserted is not found. Both nodes of the new path share one slot: the
    insertion reports four cached tokens, the lookup of the same prompt finds
    none. *)
Theorem evict_twice_loses_insert :
  exists c, insert [5; 6; 7; 8]%N [20; 21]%N (evicted 1 drained_cache) = Done (c, 4) /\
    (looked_up [5; 6; 7; 8]%N c).2 = (0, []).
Proof.
  exists (put [5; 6; 7; 8]%N [20; 21]%N (evicted 1 drained_cache)). split; vm_compute; reflexivity.
Qed.

(** ** Reconciliation *)

(** Two blocks, of which the new pool still knows the second. *)
Definition reconciled_cache : RadixCache :=
  (reconcile {[ [2%N] := 11%N ]} (put_fp [1; 2; 3; 4]%N [10; 11]%N [[1%N]; [2%N]] (empty_cache 2))).1.

(** After a reconciliation that dropped the first block of a prompt and
    kept the second, [lookup] returns the block of the tokens 3, 4 as the
    block of the tokens 1, 2: it skips the tombstone and counts blocks, not
    positions. *)
Theorem lookup_after_reconcile_misplaces_block :
  cached reconciled_cache [1; 2; 3; 4]%N 11 /\ (looked_up [1; 2; 3; 4]%N reconciled_cache).2 = (2, [11%N]).
Proof.
  split; [|vm_compute; reflexivity].
  pose (n1 := done_or (Node_new [] None 0) (get reconciled_cache 1)).
  pose (n2 := done_or (Node_new [] None 0) (get reconciled_cache 2)).
  pose (n0 := done_or (Node_new [] None 0) (get reconciled_cache 0)).
  exists 2, n2. split; [|split; vm_compute; reflexivity].
  apply (at_child reconciled_cache [1; 2]%N 1 n1 3%N 2 n2); [|vm_compute; reflexivity..].
  apply (at_child reconciled_cache [] 0 n0 1%N 1 n1); [constructor|vm_compute; reflexivity..].
Qed.

(** Inserting a longer prompt over a tombstone that a reconciliation left
    panics. The walk does not count the tombstone's block, so the next block
    ends before the position it starts from. *)
Theorem insert_after_reconcile_panics :
  insert [1; 2; 3; 4; 5; 6]%N [20; 21; 22]%N reconciled_cache = Panics.
Proof. vm_compute. reflexivity. Qed.

(** A slot reclaimed by an eviction keeps its fingerprint and its session.
    The session still reports the fingerprint of the evicted block, and a
    reconciliation puts a block into the free slot and indexes it, although
    no lookup can reach it. *)
Theorem reclaimed_slot_keeps_identity :
  let c := evicted 1 (set_block_session_id 10 (Some "s"%string) (put_fp [1; 2]%N [10]%N [[7%N]] (empty_cache 2))).1 in
  let '(c', report) := reconcile {[ [7%N] := 10%N ]} c in
  cached_block_count c = 0 /\ fingerprints_for_session c "s"%string = [[7%N]] /\
  remapped report = 1 /\ free_nodes c' = [1] /\ block_index c' !! 10%N = Some 1 /\
  (looked_up [1; 2]%N c').2 = (0, []).
Proof. vm_compute. split_and!; reflexivity. Qed.

(** ** Reference counts across a split *)

(** A prompt of one block looked up, another that shares half of it inserted,
    and the lookup released. *)
Definition split_cache : RadixCache :=
  release [10]%N (put [1; 2; 9; 9]%N [11]%N (looked_up [1; 2; 3; 4]%N (put [1; 2; 3; 4]%N [10]%N (empty_cache 4))).1).

(** Splitting the edge of a looked-up block leaks a reference. The new
    shared node inherits the count of the block, and no release reaches a node
    without a block: after every reference was released and every block
    evicted, the shared node is still referenced, so it is never reclaimed. *)
Theorem split_leaks_reference :
  let c := evicted 2 split_cache in
  cached_block_count c = 0 /\
  (fun n => (n_tokens n, n_block_id n, n_ref_count n)) <$> filter (fun n => n_ref_count n <> 0%N) (nodes c)
    = [([1; 2]%N, None, 1%N)].
Proof. vm_compute. split; reflexivity. Qed.

(** ** Eviction in one tier *)

(** A block on the GPU with a spilled block below it. *)
Definition tiered_cache : RadixCache :=
  (set_block_location 10 (LocGpu 0) (set_block_location 11 (LocHostPinned 0)
    (put [1; 2; 3; 4]%N [10; 11]%N (empty_cache 2))).1).1.

(** Evicting the GPU tier cuts off blocks of other tiers. The spilled
    block below the victim stays indexed and counted, but no lookup finds it
    any more and nobody is told that it was dropped. *)
Theorem tier_eviction_orphans_spilled_block :
  exists c, evict_with_policy_for_intent_excluding mkLruEviction SchedulerSignals_default 1 (Some Gpu) Evict None
      tiered_cache = Done (c, [10%N]) /\
    block_index c !! 11%N = Some 2 /\ cached_block_count c = 1 /\ (looked_up [1; 2; 3; 4]%N c).2 = (0, []).
Proof. eexists. split; [vm_compute; reflexivity|]. vm_compute. split_and!; reflexivity. Qed.

(** ** Blocks that are not ready *)

(** The length [lookup_or_stage] reports counts the blocks that are not
    misses, wherever they are. With the first block pending and the second
    ready it reports the first block's tokens as matched. *)
Theorem stage_counts_past_a_miss :
  exists c r, lookup_or_stage [1; 2; 3; 4]%N LookupHeuristics_default
      (insert_pending 10 (put [1; 2; 3; 4]%N [10; 11]%N (empty_cache 2))).1 = Done (c, r) /\
    lo_matched_len r = 2 /\ lb_hit_kind <$> lo_blocks r = [Miss; ReadyOnGpu].
Proof. do 2 eexists. split; [vm_compute; reflexivity|]. split; reflexivity. Qed.
