(* ===== verification/HostArena.v ===== *)
(** * The host arena

    Models the sub-allocator of [crates/kv-native-sys/src/lib.rs]: one mapping
    with a bump pointer and a list of free regions, first fit. The kernel's
    [mmap] is a parameter; [madvise] is advice and has no effect here. A
    handle is the boxed arena it points to, or [None] when it is null.

    Integers are kept at the width of a 64-bit target, where a [u64] offset
    always fits a [usize]. *)

From S2P Require Import Prelude.

#[local] Open Scope N_scope.

(** ** Data *)
Record KvHostArenaRegion := mkRegion { rg_offset : N; rg_len : N }.

#[export] Instance KvHostArenaRegion_eq_dec : EqDecision KvHostArenaRegion.
Proof. solve_decision. Defined.

#[export] Instance KvHostArenaRegion_countable : Countable KvHostArenaRegion.
Proof.
  apply (inj_countable' (fun r => (rg_offset r, rg_len r)) (fun p => mkRegion p.1 p.2)). by intros [].
Defined.

Record KvHostArena := mkArena {
  capacity_bytes : N;
  next_offset : N;
  reserved_bytes : N;
  arena_free_list : list KvHostArenaRegion;
}.

Inductive io_error := InvalidInput | OtherError | OsError.

Inductive io_result (A : Type) : Type :=
  | IoOk (a : A)
  | IoErr (e : io_error).
Arguments IoOk {A} _.
Arguments IoErr {A} _.

Definition usize_checked_add (x y : N) : option N := if bool_decide (x + y <= u64_max) then Some (x + y) else None.
Definition usize_checked_sub (x y : N) : option N := if bool_decide (y <= x) then Some (x - y) else None.

(** ** Operations *)
Definition region_end (r : KvHostArenaRegion) : option N := usize_checked_add (rg_offset r) (rg_len r).

(** Free regions that end at the bump pointer are given back to it, each one
    found by a scan from the front. *)
Fixpoint rewind_loop (fuel : nat) (a : KvHostArena) : res KvHostArena :=
  match fuel with
  | O => OutOfFuel
  | S fuel =>
      match list_find (fun free => region_end free = Some (next_offset a)) (arena_free_list a) with
      | Some (idx, free) =>
          rewind_loop fuel (mkArena (capacity_bytes a) (rg_offset free) (reserved_bytes a)
            (swap_remove (arena_free_list a) idx))
      | None => Done a
      end
  end.

Definition host_arena_rewind_tail (a : KvHostArena) : res KvHostArena :=
  rewind_loop (S (length (arena_free_list a))) a.

(** [mmap capacity] is the address of an anonymous mapping, when the kernel
    grants one. *)
Definition host_arena_create (mmap : N -> option N) (capacity : N) : io_result (option KvHostArena * N) :=
  if bool_decide (capacity = 0) then IoErr InvalidInput
  else match mmap capacity with
  | Some base => IoOk (Some (mkArena capacity 0 0 []), base)
  | None => IoErr OsError
  end.

Definition host_arena_reserved_bytes (handle : option KvHostArena) : io_result N :=
  match handle with
  | None => IoErr InvalidInput
  | Some a => IoOk (reserved_bytes a)
  end.

(** Both paths end by counting the bytes; what precedes the count stays when
    it overflows. *)
Definition count_reserved (a : KvHostArena) (region : KvHostArenaRegion)
    : KvHostArena * io_result (option KvHostArenaRegion) :=
  match usize_checked_add (reserved_bytes a) (rg_len region) with
  | Some n => (mkArena (capacity_bytes a) (next_offset a) n (arena_free_list a), IoOk (Some region))
  | None => (a, IoErr OtherError)
  end.

Definition arena_reserve (a : KvHostArena) (len : N) : KvHostArena * io_result (option KvHostArenaRegion) :=
  match list_find (fun free => len <= rg_len free) (arena_free_list a) with
  | Some (idx, free) =>
      let free_list := swap_remove (arena_free_list a) idx in
      let free_list := if bool_decide (len < rg_len free)
                       then free_list ++ [mkRegion (rg_offset free + len) (rg_len free - len)]
                       else free_list in
      count_reserved (mkArena (capacity_bytes a) (next_offset a) (reserved_bytes a) free_list)
        (mkRegion (rg_offset free) len)
  | None =>
      match usize_checked_add (next_offset a) len with
      | None => (a, IoOk None)
      | Some end_ =>
          if bool_decide (capacity_bytes a < end_) then (a, IoOk None)
          else count_reserved (mkArena (capacity_bytes a) end_ (reserved_bytes a) (arena_free_list a))
                 (mkRegion (next_offset a) len)
      end
  end.

Definition host_arena_reserve (handle : option KvHostArena) (len : N)
    : option KvHostArena * io_result (option KvHostArenaRegion) :=
  if bool_decide (len = 0) then (handle, IoOk None)
  else match handle with
  | None => (handle, IoErr InvalidInput)
  | Some a => let '(a, r) := arena_reserve a len in (Some a, r)
  end.

Definition arena_release (a : KvHostArena) (region : KvHostArenaRegion) (end_ : N)
    : res (KvHostArena * io_result unit) :=
  if bool_decide (rg_len region = 0) || bool_decide (capacity_bytes a < end_) then Done (a, IoErr InvalidInput)
  else match usize_checked_sub (reserved_bytes a) (rg_len region) with
  | None => Done (a, IoErr InvalidInput)
  | Some n =>
      if bool_decide (end_ = next_offset a) then
        a ← host_arena_rewind_tail (mkArena (capacity_bytes a) (rg_offset region) n (arena_free_list a));
        Done (a, IoOk tt)
      else Done (mkArena (capacity_bytes a) (next_offset a) n (arena_free_list a ++ [region]), IoOk tt)
  end.

Definition host_arena_release (handle : option KvHostArena) (region : KvHostArenaRegion)
    : res (option KvHostArena * io_result unit) :=
  match handle with
  | None => Done (handle, IoErr InvalidInput)
  | Some a =>
      match region_end region with
      | None => Done (handle, IoErr InvalidInput)
      | Some end_ => '(a, r) ← arena_release a region end_; Done (Some a, r)
      end
  end.

Definition host_arena_reset (handle : option KvHostArena) : option KvHostArena * io_result unit :=
  match handle with
  | None => (handle, IoErr InvalidInput)
  | Some a => (Some (mkArena (capacity_bytes a) 0 0 []), IoOk tt)
  end.

(** ** Tilings

    A list of regions tiles the first [next] bytes when every one of these
    bytes lies in exactly one region and no other byte in any. *)
Definition covers (x : N) (r : KvHostArenaRegion) : Prop := rg_offset r <= x < rg_offset r + rg_len r.

#[export] Instance covers_dec x r : Decision (covers x r).
Proof. unfold covers. apply _. Defined.

Definition cover_count (x : N) (l : list KvHostArenaRegion) : nat := length (filter (covers x) l).
Definition sum_len (l : list KvHostArenaRegion) : N := foldr (fun r n => rg_len r + n) 0 l.

Record tiles (next : N) (l : list KvHostArenaRegion) : Prop := mk_tiles {
  ti_count : forall x, cover_count x l = if decide (x < next) then 1%nat else 0%nat;
  ti_nonempty : Forall (fun r => 0 < rg_len r) l;
  ti_sum : sum_len l = next;
}.

Definition disjoint (r r' : KvHostArenaRegion) : Prop := forall x, covers x r -> ~ covers x r'.

Lemma cover_count_cons x r l :
  cover_count x (r :: l) = ((if decide (covers x r) then 1 else 0) + cover_count x l)%nat.
Proof. unfold cover_count. rewrite filter_cons. by destruct (decide _). Qed.

Lemma sum_len_cons r l : sum_len (r :: l) = rg_len r + sum_len l.
Proof. done. Qed.

#[export] Instance cover_count_perm x : Proper ((≡ₚ) ==> (=)) (cover_count x).
Proof. intros l l' Hl. unfold cover_count. by rewrite Hl. Qed.

#[export] Instance sum_len_perm : Proper ((≡ₚ) ==> (=)) sum_len.
Proof.
  induction 1 as [|r l l' _ IH|r r' l|l l' l'' _ IH _ IH']; unfold sum_len in *; cbn; [done| | |]; lia.
Qed.

#[export] Instance tiles_perm next : Proper ((≡ₚ) ==> iff) (tiles next).
Proof.
  assert (forall l l', l ≡ₚ l' -> tiles next l -> tiles next l') as H.
  { intros l l' Hl [H1 H2 H3]. split; [intros x; by rewrite <-Hl|by rewrite <-Hl|by rewrite <-Hl]. }
  intros l l' Hl. split; [by apply H|apply H; by symmetry].
Qed.

Lemma cover_count_pos x l : (0 < cover_count x l)%nat <-> exists r, r ∈ l /\ covers x r.
Proof.
  unfold cover_count. split.
  - intros H. destruct (filter (covers x) l) as [|r l'] eqn:E; [cbn in H; lia|].
    assert (r ∈ filter (covers x) l) as Hr by (rewrite E; left). apply list_elem_of_filter in Hr. naive_solver.
  - intros (r & Hr & Hx). assert (r ∈ filter (covers x) l) as Hin by (by apply list_elem_of_filter).
    destruct (filter (covers x) l); [by apply not_elem_of_nil in Hin|cbn; lia].
Qed.

Section tiling.
Context (next : N) (l : list KvHostArenaRegion) (H : tiles next l).

Lemma tiles_end r : r ∈ l -> rg_offset r + rg_len r <= next /\ 0 < rg_len r.
Proof using H.
  intros Hr. destruct H as [Hc Hn _]. assert (0 < rg_len r) as Hlen by (by apply (proj1 (Forall_forall _ _) Hn)).
  split; [|done].
  assert (0 < cover_count (rg_offset r + rg_len r - 1) l)%nat as Hpos.
  { apply cover_count_pos. exists r. split; [done|]. unfold covers. lia. }
  rewrite Hc in Hpos. destruct (decide _); lia.
Qed.

Lemma tiles_last : 0 < next -> exists r, r ∈ l /\ rg_offset r + rg_len r = next.
Proof using H.
  intros Hpos. destruct H as [Hc _ _]. pose proof (Hc (next - 1)) as Hlast. rewrite decide_True in Hlast by lia.
  destruct (proj1 (cover_count_pos (next - 1) l)) as (r & Hr & Hx); [lia|]. exists r. split; [done|].
  pose proof (tiles_end r Hr). unfold covers in Hx. lia.
Qed.

Lemma tiles_push n : 0 < n -> tiles (next + n) (mkRegion next n :: l).
Proof using H.
  intros Hn. destruct H as [Hc Hne Hs]. split.
  - intros x. rewrite cover_count_cons, Hc. unfold covers. cbn. repeat destruct (decide _); lia.
  - by constructor.
  - rewrite sum_len_cons. cbn. lia.
Qed.
End tiling.

Lemma tiles_nil next l : tiles next l -> next = 0 -> l = [].
Proof.
  intros H ->. destruct l as [|r l]; [done|]. pose proof (tiles_end 0 _ H r ltac:(left)). lia.
Qed.

Lemma tiles_pop next r l : tiles next (r :: l) -> rg_offset r + rg_len r = next -> tiles (rg_offset r) l.
Proof.
  intros H Hend. destruct (tiles_end _ _ H r ltac:(left)) as [_ Hlen]. destruct H as [Hc Hne Hs]. split.
  - intros x. specialize (Hc x). rewrite cover_count_cons in Hc. unfold covers in Hc.
    repeat destruct (decide _); lia.
  - by apply Forall_cons in Hne as [_ ?].
  - rewrite sum_len_cons in Hs. lia.
Qed.

Lemma tiles_split next o n k l :
  tiles next (mkRegion o n :: l) -> 0 < k < n -> tiles next (mkRegion o k :: mkRegion (o + k) (n - k) :: l).
Proof.
  intros [Hc Hne Hs] Hk. split.
  - intros x. specialize (Hc x). rewrite !cover_count_cons in *. unfold covers in *. cbn in *.
    repeat destruct (decide _); lia.
  - apply Forall_cons in Hne as [_ ?]. repeat constructor; cbn; [lia..|done].
  - rewrite !sum_len_cons in *. cbn in *. lia.
Qed.

Lemma tiles_disjoint next r r' l : tiles next (r :: l) -> r' ∈ l -> disjoint r r'.
Proof.
  intros H Hr' x Hx Hx'. pose proof (ti_count _ _ H x) as Hc. rewrite cover_count_cons in Hc.
  rewrite decide_True in Hc by done.
  assert (0 < cover_count x l)%nat by (apply cover_count_pos; eauto). destruct (decide (x < next)); lia.
Qed.

Lemma tiles_fresh next r l : tiles next (r :: l) -> r ∉ l.
Proof.
  intros H Hr. destruct (tiles_end _ _ H r ltac:(left)) as [_ Hlen].
  apply (tiles_disjoint _ _ _ _ H Hr (rg_offset r)); unfold covers; lia.
Qed.

(** ** The arena with its live regions *)

(** The live and the free regions tile what is below the bump pointer, and no
    free region ends at it. *)
Record arena_wf (a : KvHostArena) (live : list KvHostArenaRegion) : Prop := mk_arena_wf {
  aw_capacity : next_offset a <= capacity_bytes a <= u64_max;
  aw_tiles : tiles (next_offset a) (live ++ arena_free_list a);
  aw_reserved : reserved_bytes a = sum_len live;
  aw_tail : Forall (fun f => rg_offset f + rg_len f <> next_offset a) (arena_free_list a);
}.

#[export] Instance arena_wf_perm a : Proper ((≡ₚ) ==> iff) (arena_wf a).
Proof.
  assert (forall l l', l ≡ₚ l' -> arena_wf a l -> arena_wf a l') as H.
  { intros l l' Hl [H1 H2 H3 H4]. split; [done|by rewrite <-Hl|by rewrite <-Hl|done]. }
  intros l l' Hl. split; [by apply H|apply H; by symmetry].
Qed.

Lemma sum_len_app l l' : sum_len (l ++ l') = sum_len l + sum_len l'.
Proof. induction l as [|r l IH]; cbn [app]; [done|]. rewrite !sum_len_cons, IH. lia. Qed.

Section arena.
Context (a : KvHostArena) (live : list KvHostArenaRegion) (Hwf : arena_wf a live).

Lemma reserved_le : reserved_bytes a <= next_offset a.
Proof using Hwf.
  rewrite (aw_reserved _ _ Hwf). pose proof (ti_sum _ _ (aw_tiles _ _ Hwf)) as Hs.
  rewrite sum_len_app in Hs. lia.
Qed.

Lemma region_end_inside r : r ∈ live ++ arena_free_list a -> region_end r = Some (rg_offset r + rg_len r).
Proof using Hwf.
  intros Hr. pose proof (tiles_end _ _ (aw_tiles _ _ Hwf) r Hr). pose proof (aw_capacity _ _ Hwf).
  unfold region_end, usize_checked_add. by rewrite bool_decide_eq_true_2 by lia.
Qed.

(** An arena with nothing live is empty. *)
Lemma arena_drained : live = [] -> next_offset a = 0 /\ arena_free_list a = [] /\ reserved_bytes a = 0.
Proof using Hwf.
  intros ->. destruct Hwf as [_ Ht Hr Htail]. cbn in Ht.
  assert (next_offset a = 0) as Hz.
  { destruct (decide (next_offset a = 0)) as [|Hpos]; [done|].
    destruct (tiles_last _ _ Ht) as (f & Hf & Hend); [lia|].
    by apply (proj1 (Forall_forall _ _) Htail f) in Hf. }
  split_and!; [done|by eapply tiles_nil|done].
Qed.
End arena.

(** *** Reserving *)
Lemma count_reserved_ok a r live :
  sum_len live + rg_len r <= next_offset a -> next_offset a <= capacity_bytes a <= u64_max ->
  reserved_bytes a = sum_len live -> tiles (next_offset a) (r :: live ++ arena_free_list a) ->
  Forall (fun f => rg_offset f + rg_len f <> next_offset a) (arena_free_list a) ->
  exists a', count_reserved a r = (a', IoOk (Some r)) /\ arena_wf a' (r :: live) /\ capacity_bytes a' = capacity_bytes a.
Proof.
  intros Hle Hcap Hres Ht Htail. unfold count_reserved, usize_checked_add.
  rewrite bool_decide_eq_true_2 by lia. eexists. split; [done|]. split; [|done].
  split; cbn -[sum_len]; [done|done|rewrite Hres, sum_len_cons; lia|done].
Qed.

Lemma tiles_sum_le next r live free : tiles next (r :: live ++ free) -> sum_len live + rg_len r <= next.
Proof. intros H. pose proof (ti_sum _ _ H) as Hs. rewrite sum_len_cons, sum_len_app in Hs. lia. Qed.

Lemma arena_reserve_ok a live len :
  arena_wf a live -> 0 < len ->
  (exists a' r, arena_reserve a len = (a', IoOk (Some r)) /\ rg_len r = len /\ arena_wf a' (r :: live) /\
     capacity_bytes a' = capacity_bytes a) \/
  (arena_reserve a len = (a, IoOk None) /\ Forall (fun f => rg_len f < len) (arena_free_list a) /\
     capacity_bytes a < next_offset a + len).
Proof.
  intros Hwf Hlen. destruct Hwf as [Hcap Ht Hres Htail]. unfold arena_reserve.
  destruct (list_find _ _) as [[idx f]|] eqn:Hfind.
  - left. apply list_find_Some in Hfind as (Hf & Hfit & _).
    pose proof (swap_remove_Permutation _ _ _ Hf) as Hperm. set (fl := swap_remove (arena_free_list a) idx) in *.
    assert (tiles (next_offset a) (f :: live ++ fl)) as Ht'.
    { by rewrite Permutation_middle, <-Hperm. }
    rewrite Hperm in Htail. apply Forall_cons in Htail as [Hftail Htail].
    destruct f as [o n]. cbn in *. case_bool_decide as Hsplit.
    + assert (tiles (next_offset a) (mkRegion o len :: live ++ fl ++ [mkRegion (o + len) (n - len)])) as Ht2.
      { apply (tiles_split _ _ _ len) in Ht'; [|lia].
        rewrite app_assoc, <-Permutation_cons_append. done. }
      destruct (count_reserved_ok (mkArena (capacity_bytes a) (next_offset a) (reserved_bytes a)
        (fl ++ [mkRegion (o + len) (n - len)])) (mkRegion o len) live) as (a' & Hrun & Hwf' & Hc);
        [by apply tiles_sum_le in Ht2|done|done|exact Ht2| |].
      * apply Forall_app. split; [done|]. constructor; [|done]. cbn. lia.
      * exists a', (mkRegion o len). by rewrite Hrun.
    + assert (n = len) as -> by lia.
      destruct (count_reserved_ok (mkArena (capacity_bytes a) (next_offset a) (reserved_bytes a) fl)
        (mkRegion o len) live) as (a' & Hrun & Hwf' & Hc);
        [by apply tiles_sum_le in Ht'|done|done|exact Ht'|done|].
      exists a', (mkRegion o len). by rewrite Hrun.
  - apply list_find_None in Hfind.
    assert (Forall (fun f => rg_len f < len) (arena_free_list a)) as Hsmall.
    { eapply Forall_impl; [exact Hfind|]. cbn. lia. }
    unfold usize_checked_add. case_bool_decide as Hover; [|right; split_and!; [done|done|lia]].
    case_bool_decide as Hroom; [by right|left].
    pose proof (tiles_push _ _ Ht len Hlen) as Ht'.
    destruct (count_reserved_ok (mkArena (capacity_bytes a) (next_offset a + len) (reserved_bytes a)
      (arena_free_list a)) (mkRegion (next_offset a) len) live) as (a' & Hrun & Hwf' & Hc);
      [by apply tiles_sum_le in Ht'|cbn; lia|done|exact Ht'| |].
    + cbn. apply Forall_forall. intros f Hf. pose proof (tiles_end _ _ Ht f) as He.
      destruct He; [apply elem_of_app; by right|lia].
    + exists a', (mkRegion (next_offset a) len). by rewrite Hrun.
Qed.

(** *** Releasing *)
Lemma rewind_loop_ok live fuel : forall a,
  next_offset a <= capacity_bytes a <= u64_max -> tiles (next_offset a) (live ++ arena_free_list a) ->
  reserved_bytes a = sum_len live -> (length (arena_free_list a) < fuel)%nat ->
  exists a', rewind_loop fuel a = Done a' /\ arena_wf a' live /\ capacity_bytes a' = capacity_bytes a.
Proof.
  induction fuel as [|fuel IH]; intros a Hcap Ht Hres Hfuel; [lia|]. cbn [rewind_loop].
  assert (forall f, f ∈ arena_free_list a -> region_end f = Some (rg_offset f + rg_len f) /\
    rg_offset f + rg_len f <= next_offset a) as Hin.
  { intros f Hf. destruct (tiles_end _ _ Ht f) as [He _]; [apply elem_of_app; by right|]. split; [|done].
    unfold region_end, usize_checked_add. by rewrite bool_decide_eq_true_2 by lia. }
  destruct (list_find _ _) as [[idx f]|] eqn:Hfind.
  - apply list_find_Some in Hfind as (Hf & Hend & _).
    destruct (Hin f) as [He Hle]; [by eapply list_elem_of_lookup_2|]. rewrite He in Hend. injection Hend as Hend.
    pose proof (swap_remove_Permutation _ _ _ Hf) as Hperm.
    assert (tiles (rg_offset f) (live ++ swap_remove (arena_free_list a) idx)) as Ht'.
    { apply (tiles_pop (next_offset a)); [|done]. by rewrite Permutation_middle, <-Hperm. }
    apply (IH (mkArena (capacity_bytes a) (rg_offset f) (reserved_bytes a) (swap_remove (arena_free_list a) idx)));
      cbn; [lia|done|done|]. apply Permutation_length in Hperm. cbn in Hperm. lia.
  - eexists. split; [done|]. split; [|done]. split; [done..|]. apply list_find_None in Hfind.
    apply Forall_forall. intros f Hf Hend. apply (proj1 (Forall_forall _ _) Hfind f Hf).
    destruct (Hin f Hf) as [-> _]. by rewrite Hend.
Qed.

Lemma arena_release_ok a live r :
  arena_wf a (r :: live) ->
  exists a', host_arena_release (Some a) r = Done (Some a', IoOk tt) /\ arena_wf a' live /\
    capacity_bytes a' = capacity_bytes a.
Proof.
  intros Hwf. assert (r ∈ (r :: live) ++ arena_free_list a) as Hr by left.
  cbn [host_arena_release]. rewrite (region_end_inside _ _ Hwf r Hr).
  destruct Hwf as [Hcap Ht Hres Htail]. destruct (tiles_end _ _ Ht r Hr) as [Hend Hlen].
  rewrite sum_len_cons in Hres. unfold arena_release, usize_checked_sub.
  rewrite !bool_decide_eq_false_2 by lia. rewrite bool_decide_eq_true_2 by lia. cbn [orb].
  case_bool_decide as Hlast.
  - destruct (rewind_loop_ok live (S (length (arena_free_list a)))
      (mkArena (capacity_bytes a) (rg_offset r) (reserved_bytes a - rg_len r) (arena_free_list a)))
      as (a' & Hrun & Hwf' & Hc); [cbn; lia| |cbn; lia|cbn; lia|].
    + by apply (tiles_pop (next_offset a)).
    + exists a'. unfold host_arena_rewind_tail. cbn [arena_free_list]. by rewrite Hrun.
  - eexists. split; [done|]. split; [|done]. split; cbn; [done| |lia|].
    + rewrite app_assoc, <-Permutation_cons_append. done.
    + apply Forall_app. split; [done|]. by constructor.
Qed.

(** *** Creating and resetting *)
Lemma arena_create_ok mmap capacity a base :
  host_arena_create mmap capacity = IoOk (a, base) -> capacity <= u64_max ->
  exists a', a = Some a' /\ arena_wf a' [] /\ capacity_bytes a' = capacity /\ mmap capacity = Some base.
Proof.
  unfold host_arena_create. case_bool_decide; [done|]. destruct (mmap capacity) as [b|]; [|done].
  intros [= <- <-] Hcap. eexists. split; [done|]. split; [|done]. split; cbn; [lia| |done|done].
  split; [|done|done]. intros x. by rewrite decide_False by lia.
Qed.

Lemma arena_reset_ok a live :
  arena_wf a live -> exists a', host_arena_reset (Some a) = (Some a', IoOk tt) /\ arena_wf a' [] /\
    capacity_bytes a' = capacity_bytes a.
Proof.
  intros Hwf. eexists. split; [done|]. split; [|done]. pose proof (aw_capacity _ _ Hwf).
  split; cbn; [lia| |done|done]. split; [|done|done]. intros x. by rewrite decide_False by lia.
Qed.
