(* ===== verification/HostPool.v ===== *)
(** * The host pinned pool

    Models [infer/src/kv_tier/host_pool.rs]: the typed pool over the host
    arena, with the set of live regions and the bytes of the mapping, and the
    shared handle behind a mutex. The build without the [cuda] feature is
    modelled; pinning the mapping does not change what the pool does. *)

From S2P Require Import Prelude HostArena.

#[local] Open Scope N_scope.

(** ** Data *)
Abbreviation HostPinnedRegion := KvHostArenaRegion.
Abbreviation byte := N.

Inductive pool_error := ZeroCapacity | Native (e : io_error) | RegionOverflow | OutOfBounds | NotLive
  | LengthMismatch | Poisoned.

Inductive result (A : Type) : Type :=
  | Ok (a : A)
  | Err (e : pool_error).
Arguments Ok {A} _.
Arguments Err {A} _.

(** The arena's handle and base address, and the bytes mapped there. *)
Record HostPinnedPool := mkPool {
  pool_capacity : N;
  handle : option KvHostArena;
  base_ptr : N;
  memory : list byte;
  live_regions : gset HostPinnedRegion;
}.

Definition set_handle (h : option KvHostArena) (p : HostPinnedPool) : HostPinnedPool :=
  mkPool (pool_capacity p) h (base_ptr p) (memory p) (live_regions p).
Definition set_live (l : gset HostPinnedRegion) (p : HostPinnedPool) : HostPinnedPool :=
  mkPool (pool_capacity p) (handle p) (base_ptr p) (memory p) l.
Definition set_memory (m : list byte) (p : HostPinnedPool) : HostPinnedPool :=
  mkPool (pool_capacity p) (handle p) (base_ptr p) m (live_regions p).

(** ** The pool *)

(** An anonymous mapping is zero-filled. *)
Definition HostPinnedPool_new (mmap : N -> option N) (capacity : N) : result HostPinnedPool :=
  if bool_decide (capacity = 0) then Err ZeroCapacity
  else match host_arena_create mmap capacity with
  | IoErr e => Err (Native e)
  | IoOk (h, base) => Ok (mkPool capacity h base (replicate (N.to_nat capacity) 0) ∅)
  end.

Definition pool_reserved_bytes (p : HostPinnedPool) : result N :=
  match host_arena_reserved_bytes (handle p) with IoOk n => Ok n | IoErr e => Err (Native e) end.

Definition remaining_bytes (p : HostPinnedPool) : result N :=
  match pool_reserved_bytes p with Ok n => Ok (pool_capacity p - n) | Err e => Err e end.

Definition reserve (len : N) (p : HostPinnedPool) : res (HostPinnedPool * result (option HostPinnedRegion)) :=
  let '(h, r) := host_arena_reserve (handle p) len in
  let p := set_handle h p in
  match r with
  | IoErr e => Done (p, Err (Native e))
  | IoOk None => Done (p, Ok None)
  | IoOk (Some region) =>
      if bool_decide (region ∈ live_regions p) then Panics
      else Done (set_live ({[region]} ∪ live_regions p) p, Ok (Some region))
  end.

Definition validate_live_region (region : HostPinnedRegion) (p : HostPinnedPool) : result N :=
  match usize_checked_add (rg_offset region) (rg_len region) with
  | None => Err RegionOverflow
  | Some region_end =>
      if bool_decide (pool_capacity p < region_end) then Err OutOfBounds
      else if negb (bool_decide (region ∈ live_regions p)) then Err NotLive
      else Ok (rg_offset region)
  end.

Definition release (region : HostPinnedRegion) (p : HostPinnedPool) : res (HostPinnedPool * result unit) :=
  match validate_live_region region p with
  | Err e => Done (p, Err e)
  | Ok _ =>
      '(h, r) ← host_arena_release (handle p) region;
      let p := set_handle h p in
      match r with
      | IoErr e => Done (p, Err (Native e))
      | IoOk _ => Done (set_live (live_regions p ∖ {[region]}) p, Ok tt)
      end
  end.

Definition reset (p : HostPinnedPool) : HostPinnedPool * result unit :=
  let '(h, r) := host_arena_reset (handle p) in
  let p := set_handle h p in
  match r with
  | IoErr e => (p, Err (Native e))
  | IoOk _ => (set_live ∅ p, Ok tt)
  end.

(** The slice [base_ptr + offset .. + len] of the mapping; [Panics] stands for
    an access outside the mapping, which is undefined. *)
Definition mapped (offset : N) (region : HostPinnedRegion) (p : HostPinnedPool) : res (list byte) :=
  slice (memory p) (N.to_nat offset) (N.to_nat (offset + rg_len region)).

(** [copy_from_slice] into it; the lengths have been compared. *)
Definition splice (offset : nat) (bytes m : list byte) : list byte :=
  take offset m ++ bytes ++ drop (offset + length bytes) m.

Definition as_slice (region : HostPinnedRegion) (p : HostPinnedPool) : res (list byte) :=
  match validate_live_region region p with
  | Ok offset => mapped offset region p
  | Err _ => Panics
  end.

(** [as_mut_slice(region).copy_from_slice(bytes)]. *)
Definition as_mut_slice_copy (region : HostPinnedRegion) (bytes : list byte) (p : HostPinnedPool) : res HostPinnedPool :=
  match validate_live_region region p with
  | Err _ => Panics
  | Ok offset =>
      _ ← mapped offset region p;
      if bool_decide (N.of_nat (length bytes) <> rg_len region) then Panics
      else Done (set_memory (splice (N.to_nat offset) bytes (memory p)) p)
  end.

Definition host_ptr (region : HostPinnedRegion) (p : HostPinnedPool) : res N :=
  match validate_live_region region p with
  | Ok offset => Done (u64_add (base_ptr p) offset)
  | Err _ => Panics
  end.

(** [drop]; what the destruction of the arena returns is ignored. *)
Definition HostPinnedPool_drop (p : HostPinnedPool) : HostPinnedPool :=
  mkPool (pool_capacity p) None 0 (memory p) (live_regions p).

(** ** The shared handle *)
Record SharedHostPinnedPool := mkShared { inner : HostPinnedPool; poisoned : bool }.

Definition SharedHostPinnedPool_new (p : HostPinnedPool) : SharedHostPinnedPool := mkShared p false.

Definition lock (s : SharedHostPinnedPool) : result HostPinnedPool :=
  if poisoned s then Err Poisoned else Ok (inner s).

Definition with_region_slice {R} (region : HostPinnedRegion) (f : list byte -> R) (s : SharedHostPinnedPool)
    : res (result R) :=
  match lock s with
  | Err e => Done (Err e)
  | Ok p =>
      match validate_live_region region p with
      | Err e => Done (Err e)
      | Ok offset => bytes ← mapped offset region p; Done (Ok (f bytes))
      end
  end.

Definition read_region (region : HostPinnedRegion) (s : SharedHostPinnedPool) : res (result (list byte)) :=
  with_region_slice region (fun bytes => bytes) s.

Definition write_region (region : HostPinnedRegion) (bytes : list byte) (s : SharedHostPinnedPool)
    : res (SharedHostPinnedPool * result unit) :=
  if bool_decide (N.of_nat (length bytes) <> rg_len region) then Done (s, Err LengthMismatch)
  else match lock s with
  | Err e => Done (s, Err e)
  | Ok p =>
      match validate_live_region region p with
      | Err e => Done (s, Err e)
      | Ok offset =>
          _ ← mapped offset region p;
          Done (mkShared (set_memory (splice (N.to_nat offset) bytes (memory p)) p) false, Ok tt)
      end
  end.

Definition release_region (region : HostPinnedRegion) (s : SharedHostPinnedPool)
    : res (SharedHostPinnedPool * result unit) :=
  match lock s with
  | Err e => Done (s, Err e)
  | Ok p => '(p, r) ← release region p; Done (mkShared p false, r)
  end.

(** ** The invariant *)
Record wf (p : HostPinnedPool) : Prop := mk_wf {
  pw_arena : exists a, handle p = Some a /\ arena_wf a (elements (live_regions p)) /\
    capacity_bytes a = pool_capacity p;
  pw_memory : length (memory p) = N.to_nat (pool_capacity p);
}.

Lemma pool_new_wf mmap capacity p : capacity <= u64_max -> HostPinnedPool_new mmap capacity = Ok p -> wf p.
Proof.
  intros Hcap. unfold HostPinnedPool_new. case_bool_decide; [done|].
  destruct (host_arena_create mmap capacity) as [[h base]|] eqn:E; [|done]. intros [= <-].
  destruct (arena_create_ok _ _ _ _ E Hcap) as (a & -> & Hwf & Hc & _).
  split; cbn; [by exists a; rewrite elements_empty|by rewrite length_replicate].
Qed.

Lemma live_inside p r : wf p -> r ∈ live_regions p ->
  0 < rg_len r /\ rg_offset r + rg_len r <= pool_capacity p <= u64_max.
Proof.
  intros [(a & _ & Hwf & Hc) _] Hr. pose proof (aw_capacity _ _ Hwf).
  destruct (tiles_end _ _ (aw_tiles _ _ Hwf) r); [apply elem_of_app; left; by apply elem_of_elements|lia].
Qed.

Lemma live_disjoint p r r' : wf p -> r ∈ live_regions p -> r' ∈ live_regions p -> r <> r' -> disjoint r r'.
Proof.
  intros [(a & _ & Hwf & _) _] Hr Hr' Hne.
  apply elem_of_elements, elem_of_Permutation in Hr as [l Hl].
  pose proof (aw_tiles _ _ Hwf) as Ht. rewrite Hl in Ht.
  eapply (tiles_disjoint _ r); [exact Ht|]. apply elem_of_app. left.
  apply elem_of_elements in Hr'. rewrite Hl in Hr'. by apply elem_of_cons in Hr' as [->|].
Qed.

Lemma validate_live p r : wf p -> r ∈ live_regions p -> validate_live_region r p = Ok (rg_offset r).
Proof.
  intros Hwf Hr. pose proof (live_inside p r Hwf Hr). unfold validate_live_region, usize_checked_add.
  rewrite bool_decide_eq_true_2 by lia. rewrite bool_decide_eq_false_2 by lia. by rewrite bool_decide_eq_true_2.
Qed.

Lemma validate_dead p r : r ∉ live_regions p -> exists e, validate_live_region r p = Err e.
Proof.
  intros Hr. unfold validate_live_region. destruct (usize_checked_add _ _); [|eauto].
  case_bool_decide; [eauto|]. rewrite bool_decide_eq_false_2 by done. cbn. eauto.
Qed.

Lemma mapped_live p r : wf p -> r ∈ live_regions p ->
  mapped (rg_offset r) r p = Done (take (N.to_nat (rg_len r)) (drop (N.to_nat (rg_offset r)) (memory p))).
Proof.
  intros Hwf Hr. pose proof (live_inside p r Hwf Hr). pose proof (pw_memory _ Hwf).
  unfold mapped, slice. rewrite bool_decide_eq_true_2 by lia. do 2 f_equal. lia.
Qed.

(** ** What the pool guarantees *)

Lemma elements_add r (l : gset HostPinnedRegion) : r ∉ l -> elements ({[r]} ∪ l) ≡ₚ r :: elements l.
Proof. apply elements_union_singleton. Qed.

Lemma elements_remove r (l : gset HostPinnedRegion) : r ∈ l -> elements l ≡ₚ r :: elements (l ∖ {[r]}).
Proof.
  intros Hr. rewrite <-elements_union_singleton by set_solver. by rewrite <-union_difference_singleton_L.
Qed.

Lemma reserve_ok len p :
  wf p ->
  exists p' o, reserve len p = Done (p', Ok o) /\ wf p' /\ memory p' = memory p /\
    match o with
    | Some r => rg_len r = len /\ rg_offset r + len <= pool_capacity p /\ (r ∉ live_regions p) /\
        live_regions p' = {[r]} ∪ live_regions p /\ forall r', r' ∈ live_regions p -> disjoint r r'
    | None => p' = p /\ (0 < len -> exists a, handle p = Some a /\
        Forall (fun f => rg_len f < len) (arena_free_list a) /\ pool_capacity p < next_offset a + len)
    end.
Proof.
  intros Hwf. pose proof Hwf as [(a & Ha & Haw & Hc) Hmem]. unfold reserve, host_arena_reserve. rewrite Ha.
  case_bool_decide as Hz.
  { exists (set_handle (Some a) p), None. assert (set_handle (Some a) p = p) as -> by (destruct p; cbn in *; by rewrite Ha).
    split_and!; [done..|lia]. }
  destruct (arena_reserve_ok a _ len Haw) as
    [(a' & r & Hrun & Hlen & Haw' & Hc')|(Hrun & Hsmall & Hroom)]; [lia| |]; rewrite Hrun.
  - pose proof (aw_tiles _ _ Haw') as Ht. pose proof (tiles_fresh _ _ _ Ht) as Hfresh.
    assert (r ∉ live_regions p) as Hr.
    { intros Hr. apply Hfresh, elem_of_app. left. by apply elem_of_elements. }
    cbn. rewrite bool_decide_eq_false_2 by done. eexists _, (Some r). split; [done|].
    assert (wf (set_live ({[r]} ∪ live_regions p) (set_handle (Some a') p))) as Hwf'.
    { split; cbn; [|done]. exists a'. split; [done|]. split; [by rewrite elements_add|congruence]. }
    split_and!; [done|done|done| |done|done|].
    + pose proof (live_inside _ r Hwf' ltac:(cbn; set_solver)) as Hin. cbn in Hin. lia.
    + intros r' Hr'. apply (tiles_disjoint _ _ _ _ Ht), elem_of_app. left. by apply elem_of_elements.
  - exists (set_handle (Some a) p), None. assert (set_handle (Some a) p = p) as -> by (destruct p; cbn in *; by rewrite Ha).
    split_and!; [done..|]. intros _. exists a. rewrite <-Hc. done.
Qed.

(** Reserving [len] bytes never fails and never panics, and preserves the
    pool's invariant. It gives a region of exactly [len] bytes that lies in
    the mapping and overlaps no live region; or nothing, and then the pool is
    unchanged and either nothing was asked for, or no free region is large
    enough and the rest of the mapping is too short. *)
Theorem reserve_spec len p :
  wf p ->
  exists p' o, reserve len p = Done (p', Ok o) /\ wf p' /\ memory p' = memory p /\
    match o with
    | Some r => rg_len r = len /\ rg_offset r + len <= pool_capacity p /\ (r ∉ live_regions p) /\
        live_regions p' = {[r]} ∪ live_regions p /\ forall r', r' ∈ live_regions p -> disjoint r r'
    | None => p' = p /\ (0 < len -> exists a, handle p = Some a /\
        Forall (fun f => rg_len f < len) (arena_free_list a) /\ pool_capacity p < next_offset a + len)
    end.
Proof. exact (reserve_ok len p). Qed.

Lemma release_ok r p :
  wf p ->
  if decide (r ∈ live_regions p)
  then exists p', release r p = Done (p', Ok tt) /\ wf p' /\ memory p' = memory p /\
         live_regions p' = live_regions p ∖ {[r]}
  else exists e, release r p = Done (p, Err e).
Proof.
  intros Hwf. destruct (decide _) as [Hr|Hr]; unfold release.
  2: { destruct (validate_dead p r Hr) as [e ->]. by exists e. }
  rewrite validate_live by done. pose proof Hwf as [(a & Ha & Haw & Hc) Hmem]. rewrite Ha.
  rewrite (elements_remove r) in Haw by done.
  destruct (arena_release_ok _ _ _ Haw) as (a' & -> & Haw' & Hc'). cbn [mbind res_bind].
  eexists. split; [done|]. split; [|done]. split; cbn; [|done]. exists a'. split; [done|]. split; [done|congruence].
Qed.

(** Releasing a live region succeeds, removes exactly it from the live
    ones and preserves the pool's invariant, so its bytes can be reserved
    again and no other region is touched; releasing anything else, a region
    released before included, is refused and changes nothing. *)
Theorem release_spec r p :
  wf p ->
  if decide (r ∈ live_regions p)
  then exists p', release r p = Done (p', Ok tt) /\ wf p' /\ memory p' = memory p /\
         live_regions p' = live_regions p ∖ {[r]}
  else exists e, release r p = Done (p, Err e).
Proof. exact (release_ok r p). Qed.

(** No fragmentation survives: whenever no region is live, whatever was
    reserved and released before and in whatever order, any amount up to the
    whole capacity can be reserved, and it starts at the first byte. *)
Theorem drained_pool_is_whole len p :
  wf p -> live_regions p = ∅ -> 0 < len <= pool_capacity p ->
  exists p', reserve len p = Done (p', Ok (Some (mkRegion 0 len))).
Proof.
  intros [(a & Ha & Haw & Hc) _] Hlive Hlen. rewrite Hlive, elements_empty in Haw.
  destruct (arena_drained _ _ Haw eq_refl) as (Hn & Hf & Hr). pose proof (aw_capacity _ _ Haw).
  unfold reserve, host_arena_reserve. rewrite bool_decide_eq_false_2, Ha by lia.
  unfold arena_reserve. rewrite Hf, Hn. cbn. unfold usize_checked_add, count_reserved.
  rewrite bool_decide_eq_true_2 by lia. rewrite bool_decide_eq_false_2 by lia. unfold usize_checked_add. cbn.
  rewrite Hr, bool_decide_eq_true_2 by lia. rewrite Hlive, bool_decide_eq_false_2 by set_solver. eauto.
Qed.

(** *** Bytes *)
Lemma lookup_splice off bytes m i :
  (off + length bytes <= length m)%nat ->
  splice off bytes m !! i = if decide (off <= i < off + length bytes)%nat then bytes !! (i - off)%nat else m !! i.
Proof.
  intros Hlen. unfold splice. destruct (decide (i < off)%nat) as [Hlt|Hge].
  - rewrite lookup_app_l, lookup_take_lt by (rewrite ?length_take; lia). by rewrite decide_False by lia.
  - rewrite lookup_app_r, length_take, Nat.min_l by (rewrite ?length_take; lia). destruct (decide _) as [Hin|Hout].
    + by rewrite lookup_app_l by lia.
    + rewrite lookup_app_r, lookup_drop by lia. f_equal. lia.
Qed.

Lemma length_splice off bytes m : (off + length bytes <= length m)%nat -> length (splice off bytes m) = length m.
Proof. intros H. unfold splice. rewrite !length_app, length_take, length_drop. lia. Qed.

Lemma disjoint_apart r r' :
  disjoint r r' -> 0 < rg_len r -> 0 < rg_len r' ->
  rg_offset r + rg_len r <= rg_offset r' \/ rg_offset r' + rg_len r' <= rg_offset r.
Proof.
  intros Hd Hr Hr'. destruct (decide (rg_offset r + rg_len r <= rg_offset r')); [by left|].
  destruct (decide (rg_offset r' + rg_len r' <= rg_offset r)); [by right|]. exfalso.
  apply (Hd (N.max (rg_offset r) (rg_offset r'))); unfold covers; lia.
Qed.

Definition region_bytes (r : HostPinnedRegion) (m : list byte) : list byte :=
  take (N.to_nat (rg_len r)) (drop (N.to_nat (rg_offset r)) m).

Lemma lookup_region_bytes r m i :
  region_bytes r m !! i = if decide (i < N.to_nat (rg_len r))%nat then m !! (N.to_nat (rg_offset r) + i)%nat else None.
Proof.
  unfold region_bytes. destruct (decide _).
  - by rewrite lookup_take_lt, lookup_drop by done.
  - by rewrite lookup_take_ge by lia.
Qed.

Lemma read_live r s :
  wf (inner s) -> poisoned s = false -> r ∈ live_regions (inner s) ->
  read_region r s = Done (Ok (region_bytes r (memory (inner s)))).
Proof.
  intros Hwf Hp Hr. unfold read_region, with_region_slice, lock. rewrite Hp, validate_live, mapped_live by done. done.
Qed.

(** Overwriting the bytes of a live region. *)
Lemma overwrite_ok r bytes p :
  wf p -> r ∈ live_regions p -> N.of_nat (length bytes) = rg_len r ->
  let p' := set_memory (splice (N.to_nat (rg_offset r)) bytes (memory p)) p in
  wf p' /\ region_bytes r (memory p') = bytes /\
  forall r', r' ∈ live_regions p -> r' <> r -> region_bytes r' (memory p') = region_bytes r' (memory p).
Proof.
  intros Hwf Hr Hlen p'. pose proof (live_inside _ r Hwf Hr) as (Hpos & Hend). pose proof (pw_memory _ Hwf) as Hmem.
  assert (N.to_nat (rg_offset r) + length bytes <= length (memory p))%nat as Hfit by lia.
  split; [|split].
  - split; cbn; [by destruct Hwf|]. by rewrite length_splice.
  - apply list_eq. intros i. cbn. rewrite lookup_region_bytes, lookup_splice by done. destruct (decide (i < _)%nat).
    + rewrite decide_True by lia. f_equal. lia.
    + symmetry. apply lookup_ge_None. lia.
  - intros r' Hr' Hne. apply list_eq. intros i. cbn.
    rewrite !lookup_region_bytes, lookup_splice by done. destruct (decide (i < _)%nat); [|done].
    rewrite decide_False; [done|]. pose proof (live_inside _ r' Hwf Hr').
    destruct (disjoint_apart r r'); [by apply (live_disjoint p)|lia..].
Qed.

Lemma as_mut_slice_copy_ok r bytes p :
  wf p -> r ∈ live_regions p -> N.of_nat (length bytes) = rg_len r ->
  as_mut_slice_copy r bytes p = Done (set_memory (splice (N.to_nat (rg_offset r)) bytes (memory p)) p).
Proof.
  intros Hwf Hr Hlen. unfold as_mut_slice_copy. rewrite validate_live, mapped_live by done. cbn [mbind res_bind].
  by rewrite bool_decide_eq_false_2 by (by intros []).
Qed.

(** Writing a live region changes that region and nothing else: reading
    it gives back the bytes written, and every other live region reads as
    before. *)
Theorem write_region_spec r bytes s :
  wf (inner s) -> poisoned s = false -> r ∈ live_regions (inner s) -> N.of_nat (length bytes) = rg_len r ->
  exists s', write_region r bytes s = Done (s', Ok tt) /\ wf (inner s') /\
    live_regions (inner s') = live_regions (inner s) /\
    read_region r s' = Done (Ok bytes) /\
    forall r', r' ∈ live_regions (inner s) -> r' <> r -> read_region r' s' = read_region r' s.
Proof.
  intros Hwf Hp Hr Hlen. unfold write_region, lock. rewrite bool_decide_eq_false_2 by (by intros []).
  rewrite Hp, validate_live, mapped_live by done. cbn [mbind res_bind].
  destruct (overwrite_ok r bytes (inner s) Hwf Hr Hlen) as (Hwf' & Hbytes & Hother).
  eexists. split; [done|]. cbn [inner]. split; [done|]. split; [done|]. split.
  - rewrite read_live by done. cbn [inner]. by rewrite Hbytes.
  - intros r' Hr' Hne. rewrite !read_live by done. cbn [inner]. by rewrite Hother.
Qed.

(** ** A small pool *)
Definition unwrap (d : HostPinnedPool) (r : result HostPinnedPool) : HostPinnedPool :=
  match r with Ok p => p | Err _ => d end.
Definition after {A} (d : HostPinnedPool) (r : res (HostPinnedPool * A)) : HostPinnedPool :=
  match r with Done (p, _) => p | _ => d end.
Definition reserved (len : N) (p : HostPinnedPool) : HostPinnedPool := after p (reserve len p).
Definition released (r : HostPinnedRegion) (p : HostPinnedPool) : HostPinnedPool := after p (release r p).
Definition no_pool : HostPinnedPool := mkPool 0 None 0 [] ∅.

(** Sixteen bytes: three regions reserved, the middle one released. *)
Definition fresh_pool : HostPinnedPool := unwrap no_pool (HostPinnedPool_new (fun _ => Some 4096) 16).
Definition full_pool : HostPinnedPool :=
  reserved 8 (reserved 4 (reserved 4 fresh_pool)).
Definition holed_pool : HostPinnedPool := released (mkRegion 4 4) full_pool.

Lemma fresh_pool_wf : wf fresh_pool.
Proof. by apply (pool_new_wf (fun _ => Some 4096) 16). Qed.

Lemma reserve_wf len p : wf p -> wf (reserved len p).
Proof.
  intros Hwf. unfold reserved. pose proof Hwf as [(a & Ha & Haw & Hc) Hmem]. unfold reserve, host_arena_reserve. rewrite Ha.
  case_bool_decide; [by split; [exists a|]|].
  destruct (arena_reserve_ok a _ len Haw) as [(a' & r & -> & Hlen & Haw' & Hc')|(-> & _)]; [lia| |].
  - pose proof (tiles_fresh _ _ _ (aw_tiles _ _ Haw')) as Hfresh.
    assert (r ∉ live_regions p). { intros Hr. apply Hfresh, elem_of_app. left. by apply elem_of_elements. }
    cbn. rewrite bool_decide_eq_false_2 by done. split; cbn; [|done]. exists a'.
    split; [done|]. split; [by rewrite elements_add|congruence].
  - split; cbn; [by exists a|done].
Qed.

Lemma release_wf r p : wf p -> wf (released r p).
Proof.
  intros Hwf. unfold released, release. destruct (decide (r ∈ live_regions p)) as [Hr|Hr].
  - rewrite validate_live by done. pose proof Hwf as [(a & Ha & Haw & Hc) Hmem]. rewrite Ha.
    rewrite (elements_remove r) in Haw by done.
    destruct (arena_release_ok _ _ _ Haw) as (a' & -> & Haw' & Hc'). cbn.
    split; cbn; [|done]. exists a'. split; [done|]. split; [done|congruence].
  - by destruct (validate_dead p r Hr) as [e ->].
Qed.

Lemma holed_pool_wf : wf holed_pool.
Proof. apply release_wf. do 3 apply reserve_wf. apply fresh_pool_wf. Qed.

Lemma reserve_spec_witness :
  exists p', reserve 3 holed_pool = Done (p', Ok (Some (mkRegion 4 3))) /\ wf p' /\
    disjoint (mkRegion 4 3) (mkRegion 8 8).
Proof.
  destruct (reserve_spec 3 holed_pool holed_pool_wf) as (p' & [r|] & Hrun & Hwf' & _ & Hr).
  - pose proof Hrun as Hrun'. vm_compute in Hrun'. injection Hrun' as _ <-. exists p'.
    split; [exact Hrun|]. split; [exact Hwf'|]. apply Hr. apply (bool_decide_unpack _). vm_compute. exact I.
  - vm_compute in Hrun. discriminate Hrun.
Defined.

Lemma release_spec_witness :
  exists p', release (mkRegion 8 8) holed_pool = Done (p', Ok tt) /\ wf p' /\
    live_regions p' = live_regions holed_pool ∖ {[mkRegion 8 8]}.
Proof.
  pose proof (release_spec (mkRegion 8 8) holed_pool holed_pool_wf) as H. rewrite decide_True in H.
  - destruct H as (p' & Hrun & Hwf' & _ & Hlive). exists p'. split; [exact Hrun|]. split; [exact Hwf'|exact Hlive].
  - apply (bool_decide_unpack _). vm_compute. exact I.
Defined.

(** The regions come back out of order. *)
Definition drained_pool : HostPinnedPool :=
  released (mkRegion 0 4) (released (mkRegion 8 8) holed_pool).

Lemma drained_pool_is_whole_witness :
  exists p', reserve 16 drained_pool = Done (p', Ok (Some (mkRegion 0 16))).
Proof.
  apply drained_pool_is_whole.
  - do 2 apply release_wf. apply holed_pool_wf.
  - vm_compute. reflexivity.
  - vm_compute. split; [reflexivity|discriminate].
Defined.

Lemma write_region_spec_witness :
  exists s', write_region (mkRegion 0 4) [1; 2; 3; 4] (mkShared holed_pool false) = Done (s', Ok tt) /\
    read_region (mkRegion 0 4) s' = Done (Ok [1; 2; 3; 4]) /\
    read_region (mkRegion 8 8) s' = Done (Ok [0; 0; 0; 0; 0; 0; 0; 0]).
Proof.
  destruct (write_region_spec (mkRegion 0 4) [1; 2; 3; 4] (mkShared holed_pool false) holed_pool_wf eq_refl)
    as (s' & Hrun & _ & _ & Hread & Hother).
  - apply (bool_decide_unpack _). vm_compute. exact I.
  - reflexivity.
  - exists s'. split; [exact Hrun|]. split; [exact Hread|]. rewrite Hother.
    + vm_compute. reflexivity.
    + apply (bool_decide_unpack _). vm_compute. exact I.
    + discriminate.
Defined.
