(* ===== verification/FileSystem.v ===== *)
(** * Paths and files

    The part of [std::path] and [std::fs] the tier's stores use. A path is the
    sequence of its components, which is how [Path] compares; a file system is
    the finite map of its regular files with the set of its directories. There
    is room and permission for every write, and no symbolic link. *)

From Stdlib Require Import Ascii.
From S2P Require Import Prelude Lists.

Abbreviation byte := N.

(** ** Errors *)
Inductive ErrorKind := NotFound | InvalidInput | InvalidData | AlreadyExists | IsADirectory | NotADirectory.

#[export] Instance ErrorKind_eq_dec : EqDecision ErrorKind.
Proof. solve_decision. Defined.

Record Error := mkError { kind : ErrorKind; message : string }.

#[export] Instance Error_eq_dec : EqDecision Error.
Proof. solve_decision. Defined.

(** ** Paths *)
Inductive Component := RootDir | CurDir | ParentDir | Normal (name : string).

#[export] Instance Component_eq_dec : EqDecision Component.
Proof. solve_decision. Defined.

#[export] Instance Component_countable : Countable Component.
Proof.
  refine (inj_countable'
    (fun c => match c with RootDir => inl 0 | CurDir => inl 1 | ParentDir => inl 2 | Normal s => inr s end)
    (fun x => match x with inl 0 => RootDir | inl 1 => CurDir | inl _ => ParentDir | inr s => Normal s end) _).
  by intros [].
Defined.

Abbreviation Path := (list Component).

Definition is_absolute (p : Path) : bool := match p with RootDir :: _ => true | _ => false end.

(** [join]: an absolute argument replaces the path. *)
Definition join (p q : Path) : Path := if is_absolute q then q else p ++ q.

Definition parent (p : Path) : option Path :=
  match last p with
  | None | Some RootDir => None
  | Some _ => Some (take (length p - 1) p)
  end.

Definition file_name (p : Path) : option string :=
  match last p with Some (Normal s) => Some s | _ => None end.

(** The parts of a name before and after its last dot. *)
Fixpoint rsplit_dot (s : string) : option (string * string) :=
  match s with
  | EmptyString => None
  | String c s' =>
      match rsplit_dot s' with
      | Some (a, b) => Some (String c a, b)
      | None => if bool_decide (c = "."%char) then Some (EmptyString, s') else None
      end
  end.

(** [file_stem]: a leading dot is part of the stem. *)
Definition file_stem (name : string) : string :=
  match rsplit_dot name with
  | Some (EmptyString, _) | None => name
  | Some (stem, _) => stem
  end.

Definition set_last (p : Path) (c : Component) : Path := take (length p - 1) p ++ [c].

(** [with_extension]; [ext] is not empty. *)
Definition with_extension (p : Path) (ext : string) : Path :=
  match file_name p with
  | Some name => set_last p (Normal (file_stem name +:+ "." +:+ ext)%string)
  | None => p
  end.

(** Appending to the path's string extends its last component. *)
Definition append_to_name (p : Path) (suffix : string) : Path :=
  match file_name p with
  | Some name => set_last p (Normal (name +:+ suffix)%string)
  | None => p
  end.

(** ** The file system *)
Record FileSystem := mkFileSystem {
  files : gmap Path (list byte);
  dirs : gset Path;
}.

Abbreviation fs := (eff FileSystem Error).

Definition set_files (m : gmap Path (list byte)) (s : FileSystem) : FileSystem := mkFileSystem m (dirs s).

(** The root and the current directory always exist. *)
Definition dir_exists (p : Path) (s : FileSystem) : bool :=
  bool_decide (p = [] \/ p = [RootDir] \/ p ∈ dirs s).

Definition not_found : Error := mkError NotFound "No such file or directory".

Definition fs_exists (p : Path) (s : FileSystem) : bool :=
  bool_decide (is_Some (files s !! p)) || dir_exists p s.

(** [std::fs::read]. *)
Definition fs_read (p : Path) : fs (list byte) :=
  s ← gets id;
  match files s !! p with
  | Some bytes => mret bytes
  | None => if dir_exists p s then throw (mkError IsADirectory "Is a directory") else throw not_found
  end.

(** Opening for writing, which needs the directory. *)
Definition open_for_write (p : Path) : fs unit :=
  s ← gets id;
  if dir_exists p s then throw (mkError IsADirectory "Is a directory")
  else match parent p with
  | Some d => if dir_exists d s then mret tt else throw not_found
  | None => throw not_found
  end.

(** Create or truncate, then write. *)
Definition fs_write (p : Path) (bytes : list byte) : fs unit :=
  open_for_write p ;;
  modify (fun s => set_files (<[p := bytes]> (files s)) s).

(** [std::fs::rename] of a file. *)
Definition fs_rename (from to : Path) : fs unit :=
  s ← gets id;
  match files s !! from with
  | None => throw not_found
  | Some bytes =>
      open_for_write to ;;
      modify (fun s => set_files (<[to := bytes]> (delete from (files s))) s)
  end.

Definition fs_remove (p : Path) : fs unit :=
  s ← gets id;
  match files s !! p with
  | Some _ => modify (fun s => set_files (delete p (files s)) s)
  | None => if dir_exists p s then throw (mkError IsADirectory "Is a directory") else throw not_found
  end.

(** The non-empty prefixes of a path, itself included. *)
Definition ancestors (p : Path) : list Path := (fun n => take (S n) p) <$> seq 0 (length p).

(** [create_dir_all]. *)
Definition create_dir_all (p : Path) : fs unit :=
  s ← gets id;
  if existsb (fun q => bool_decide (is_Some (files s !! q))) (ancestors p)
  then throw (mkError NotADirectory "Not a directory")
  else modify (fun s => mkFileSystem (files s) (list_to_set (ancestors p) ∪ dirs s)).

(** [a] or, when it fails, [handler] with the error; the changes made stay. *)
Definition catch {S E A} (m : eff S E A) (handler : E -> eff S E A) : eff S E A := fun s =>
  match m s with
  | Done (s', inr e) => handler e s'
  | r => r
  end.

(** ** Lemmas *)
Lemma take_snoc {A} (l : list A) x : take (length (l ++ [x]) - 1) (l ++ [x]) = l.
Proof. rewrite length_app. cbn. rewrite Nat.add_sub. by rewrite take_app_length. Qed.

Lemma parent_snoc p name : parent (p ++ [Normal name]) = Some p.
Proof. unfold parent. by rewrite last_snoc, take_snoc. Qed.

Lemma file_name_snoc p name : file_name (p ++ [Normal name]) = Some name.
Proof. unfold file_name. by rewrite last_snoc. Qed.

Lemma append_snoc p name suffix :
  append_to_name (p ++ [Normal name]) suffix = p ++ [Normal (name +:+ suffix)%string].
Proof. unfold append_to_name, set_last. by rewrite file_name_snoc, take_snoc. Qed.

Lemma with_extension_snoc p name ext :
  with_extension (p ++ [Normal name]) ext = p ++ [Normal (file_stem name +:+ "." +:+ ext)%string].
Proof. unfold with_extension, set_last. by rewrite file_name_snoc, take_snoc. Qed.

(** A file can be created in [d]. *)
Definition creatable (d : Path) (name : string) (s : FileSystem) : Prop :=
  dir_exists d s = true /\ dir_exists (d ++ [Normal name]) s = false.

Lemma open_ok d name s : creatable d name s -> open_for_write (d ++ [Normal name]) s = Done (s, inl tt).
Proof.
  intros [Hd Hn]. unfold open_for_write. eff_cbn. unfold id. rewrite Hn, parent_snoc, Hd. done.
Qed.

Lemma write_ok d name bytes s :
  creatable d name s ->
  fs_write (d ++ [Normal name]) bytes s
  = Done (set_files (<[d ++ [Normal name] := bytes]> (files s)) s, inl tt).
Proof. intros Hc. unfold fs_write. run (open_ok d name s Hc). done. Qed.

Lemma rename_ok d from to bytes s :
  files s !! from = Some bytes -> creatable d to s ->
  fs_rename from (d ++ [Normal to]) s
  = Done (set_files (<[d ++ [Normal to] := bytes]> (delete from (files s))) s, inl tt).
Proof.
  intros Hf Hc. unfold fs_rename. eff_cbn. unfold id. rewrite Hf, (open_ok d to s Hc). done.
Qed.

Lemma read_ok p bytes s : files s !! p = Some bytes -> fs_read p s = Done (s, inl bytes).
Proof. intros Hf. unfold fs_read. eff_cbn. unfold id. by rewrite Hf. Qed.

Lemma read_missing p s : files s !! p = None -> dir_exists p s = false -> fs_read p s = Done (s, inr not_found).
Proof. intros Hf Hd. unfold fs_read. eff_cbn. unfold id. by rewrite Hf, Hd. Qed.
