(* ===== verification/NativeFiles.v ===== *)
(** * The native file engine

    Models the files and the write-ahead log of
    [crates/kv-native-sys/src/lib.rs]: whole-file reads and writes, the atomic
    write through a staging file, block files named by fingerprint, and the
    append-only log. [sync_data] and [sync_all] have no effect on what a
    running process reads. *)


From S2P Require Import Prelude Lists Bytes Tier FileSystem.

(** ** Files *)
Definition empty_path (op : string) : Error := mkError InvalidInput (op +:+ ": empty path")%string.

Definition write_file (path : Path) (bytes : list byte) : fs unit :=
  if bool_decide (path = []) then throw (empty_path "write_file") else fs_write path bytes.

(** Opening a directory to sync it. *)
Definition open_directory (d : Path) : fs unit :=
  s ← gets id;
  if dir_exists d s then mret tt else throw not_found.

(** What the closure of [write_file_atomic] does. *)
Definition stage_and_rename (path tmp_path : Path) (bytes : list byte) : fs unit :=
  fs_write tmp_path bytes ;;
  fs_rename tmp_path path ;;
  open_directory (default [] (parent path)).

Definition write_file_atomic (path : Path) (bytes : list byte) : fs unit :=
  if bool_decide (path = []) then throw (empty_path "write_file_atomic")
  else
    let tmp_path := append_to_name path ".tmp" in
    catch (stage_and_rename path tmp_path bytes)
      (fun e => catch (fs_remove tmp_path) (fun _ => mret tt) ;; throw e).

Definition read_file (path : Path) : fs (list byte) :=
  if bool_decide (path = []) then throw (empty_path "read_file") else fs_read path.

Definition remove_file (path : Path) (ignore_not_found : bool) : fs unit :=
  if bool_decide (path = []) then throw (empty_path "remove_file")
  else catch (fs_remove path) (fun e =>
    if bool_decide (kind e = NotFound) && ignore_not_found then mret tt else throw e).

(** ** Block files *)
Definition block_path (root : Path) (fingerprint : BlockFingerprint) : Path :=
  join root [Normal (hex_string fingerprint ".kv")].

Definition write_block_atomic (root : Path) (fingerprint : BlockFingerprint) (bytes : list byte) : fs unit :=
  write_file_atomic (block_path root fingerprint) bytes.

Definition read_block (root : Path) (fingerprint : BlockFingerprint) : fs (list byte) :=
  read_file (block_path root fingerprint).

(** The owning guard holds the bytes. *)
Definition read_block_owned (root : Path) (fingerprint : BlockFingerprint) : fs (list byte) :=
  read_block root fingerprint.

Definition remove_block (root : Path) (fingerprint : BlockFingerprint) (ignore_not_found : bool) : fs unit :=
  remove_file (block_path root fingerprint) ignore_not_found.

(** ** The write-ahead log *)
Record KvWalRecord := mkKvWalRecord {
  wal_kind : N;
  wal_key : list byte;
  wal_value : list byte;
}.

(** [b"KVWAL001"]. *)
Definition WAL_MAGIC : list byte := [75; 86; 87; 65; 76; 48; 48; 49]%N.

(** [write_all] on a file opened for appending. *)
Definition fs_append (path : Path) (bytes : list byte) : fs unit :=
  modify (fun s => set_files (<[path := default [] (files s !! path) ++ bytes]> (files s)) s).

(** Opening for appending creates the file. *)
Definition open_append (path : Path) : fs unit :=
  s ← gets id;
  match files s !! path with
  | Some _ => mret tt
  | None => open_for_write path ;; fs_append path []
  end.

Definition wal_header (kind : N) (key value : list byte) : list byte :=
  [kind] ++ to_le_bytes 4 (u32_of_usize (length key)) ++ to_le_bytes 4 (u32_of_usize (length value)).

Definition wal_append (path : Path) (kind : N) (key value : list byte) : fs unit :=
  if bool_decide (u32_max < N.of_nat (length key) \/ u32_max < N.of_nat (length value))%N
  then throw (mkError InvalidInput "wal_append: key/value exceeds u32::MAX")
  else
    open_append path ;;
    s ← gets id;
    (if bool_decide (default [] (files s !! path) = []) then fs_append path WAL_MAGIC else mret tt) ;;
    fs_append path (wal_header kind key value) ;;
    fs_append path key ;;
    fs_append path value.

Definition invalid_wal (what : string) : Error := mkError InvalidData ("kv wal replay: " +:+ what)%string.

(** The loop over the bytes from [cursor]; each turn consumes a header. *)
Fixpoint decode_loop (fuel : nat) (bytes : list byte) (cursor : nat) (records : list KvWalRecord)
    : res (list KvWalRecord + Error) :=
  match fuel with
  | 0 => OutOfFuel
  | S fuel =>
      if bool_decide (length bytes <= cursor) then Done (inl records)
      else if bool_decide (length bytes < cursor + 9) then Done (inr (invalid_wal "truncated record header"))
      else
        kind ← index bytes cursor;
        key_len_buf ← slice bytes (cursor + 1) (cursor + 5);
        value_len_buf ← slice bytes (cursor + 5) (cursor + 9);
        let key_len := N.to_nat (from_le_bytes key_len_buf) in
        let value_len := N.to_nat (from_le_bytes value_len_buf) in
        let cursor := cursor + 9 in
        if bool_decide (length bytes < cursor + key_len + value_len)
        then Done (inr (invalid_wal "truncated record payload"))
        else
          key ← slice bytes cursor (cursor + key_len);
          value ← slice bytes (cursor + key_len) (cursor + key_len + value_len);
          decode_loop fuel bytes (cursor + key_len + value_len) (records ++ [mkKvWalRecord kind key value])
  end.

Definition decode_wal_records (bytes : list byte) : res (list KvWalRecord + Error) :=
  if bool_decide (bytes = []) then Done (inl [])
  else if bool_decide (take (length WAL_MAGIC) bytes <> WAL_MAGIC)
  then Done (inr (invalid_wal "invalid magic"))
  else decode_loop (S (length bytes)) bytes (length WAL_MAGIC) [].

Definition wal_replay (path : Path) : fs (list KvWalRecord) :=
  bytes ← catch (b ← read_file path; mret (Some b))
            (fun e => if bool_decide (kind e = NotFound) then mret None else throw e);
  match bytes with
  | None => mret []
  | Some bytes =>
      if bool_decide (bytes = []) then mret []
      else r ← of_res (decode_wal_records bytes); of_sum r
  end.

(** ** The log's bytes *)
Definition wal_record (r : KvWalRecord) : list byte :=
  wal_header (wal_kind r) (wal_key r) (wal_value r) ++ wal_key r ++ wal_value r.

Definition wal_bytes (rs : list KvWalRecord) : list byte := concat (wal_record <$> rs).

#[global] Arguments wal_record : simpl never.
#[global] Arguments wal_bytes : simpl never.

(** A record [wal_append] accepts. *)
Definition record_ok (r : KvWalRecord) : Prop :=
  (N.of_nat (length (wal_key r)) <= u32_max)%N /\ (N.of_nat (length (wal_value r)) <= u32_max)%N.

Lemma length_wal_header k key value : length (wal_header k key value) = 9.
Proof. unfold wal_header. rewrite !length_app, !length_to_le_bytes. done. Qed.

Lemma u32_length l : (N.of_nat l <= u32_max)%N -> N.to_nat (from_le_bytes (to_le_bytes 4 (u32_of_usize l))) = l.
Proof.
  unfold u32_max. intros Hl. unfold u32_of_usize, u32_wrap. rewrite N.mod_small by lia.
  rewrite from_to_le_bytes; [lia|]. change (256 ^ N.of_nat 4)%N with 4294967296%N. lia.
Qed.

(** Slicing behind a prefix. *)
Lemma slice_app {A} (pre l : list A) a b :
  a <= b -> b <= length l -> slice (pre ++ l) (length pre + a) (length pre + b) = Done (take (b - a) (drop a l)).
Proof.
  intros Hab Hb. rewrite slice_Done by (rewrite ?length_app; lia). f_equal.
  rewrite drop_app_ge by lia. f_equal; [lia|]. f_equal. lia.
Qed.

Lemma index_app {A} (pre l : list A) x : index (pre ++ x :: l) (length pre) = Done x.
Proof. apply index_Done. by rewrite lookup_app_r, Nat.sub_diag by lia. Qed.

(** One turn of the decoder on a complete record. *)
Lemma decode_turn fuel pre r rest acc :
  record_ok r ->
  decode_loop (S fuel) (pre ++ wal_record r ++ rest) (length pre) acc
  = decode_loop fuel ((pre ++ wal_record r) ++ rest) (length (pre ++ wal_record r)) (acc ++ [r]).
Proof.
  intros [Hk Hv]. set (l := wal_record r ++ rest).
  assert (length (wal_record r) = 9 + length (wal_key r) + length (wal_value r)) as Hlr.
  { unfold wal_record. rewrite !length_app, length_wal_header. lia. }
  assert (length l = length (wal_record r) + length rest) as Hl by (unfold l; by rewrite length_app).
  assert (l = wal_kind r :: to_le_bytes 4 (u32_of_usize (length (wal_key r)))
              ++ to_le_bytes 4 (u32_of_usize (length (wal_value r))) ++ wal_key r ++ wal_value r ++ rest) as El.
  { unfold l, wal_record, wal_header. cbn [app]. by rewrite <-!app_assoc. }
  cbn [decode_loop]. rewrite !length_app. rewrite bool_decide_eq_false_2 by lia. rewrite bool_decide_eq_false_2 by lia.
  rewrite El, index_app. cbn [mbind res_bind]. rewrite <-El.
  rewrite (slice_app pre l 1 5), (slice_app pre l 5 9) by lia. cbn [mbind res_bind].
  assert (take (5 - 1) (drop 1 l) = to_le_bytes 4 (u32_of_usize (length (wal_key r)))) as ->.
  { rewrite El, skipn_cons, drop_0. by rewrite take_app_le, take_ge by (by rewrite length_to_le_bytes). }
  assert (take (9 - 5) (drop 5 l) = to_le_bytes 4 (u32_of_usize (length (wal_value r)))) as ->.
  { rewrite El, skipn_cons, drop_app_length' by (by rewrite length_to_le_bytes).
    by rewrite take_app_le, take_ge by (by rewrite length_to_le_bytes). }
  rewrite !u32_length by done. rewrite bool_decide_eq_false_2 by lia.
  replace (length pre + 9 + length (wal_key r) + length (wal_value r)) with (length pre + length (wal_record r)) by lia.
  replace (length pre + 9 + length (wal_key r)) with (length pre + (9 + length (wal_key r))) by lia.
  rewrite !slice_app by lia. cbn [mbind res_bind].
  assert (drop 9 l = wal_key r ++ wal_value r ++ rest) as E9.
  { unfold l, wal_record. rewrite <-app_assoc. rewrite <-(length_wal_header (wal_kind r) (wal_key r) (wal_value r)) at 1.
    by rewrite drop_app_length, <-app_assoc. }
  assert (drop (9 + length (wal_key r)) l = wal_value r ++ rest) as E10.
  { rewrite <-drop_drop, E9. by rewrite drop_app_length. }
  rewrite E9, E10. rewrite !take_app_le, !take_ge by lia.
  assert ((pre ++ wal_record r) ++ rest = pre ++ l) as -> by (unfold l; by rewrite <-app_assoc). by destruct r.
Qed.

(** ** The native file engine: properties

    What the log replays after complete and after torn appends, and what the
    atomic write leaves behind. *)


(** ** Replaying a log *)
Lemma wal_bytes_cons r rs : wal_bytes (r :: rs) = wal_record r ++ wal_bytes rs.
Proof. done. Qed.

Lemma wal_bytes_app rs1 rs2 : wal_bytes (rs1 ++ rs2) = wal_bytes rs1 ++ wal_bytes rs2.
Proof. unfold wal_bytes. by rewrite fmap_app, concat_app. Qed.

Lemma length_wal_record r : length (wal_record r) = 9 + length (wal_key r) + length (wal_value r).
Proof. unfold wal_record. rewrite !length_app, length_wal_header. lia. Qed.

Lemma length_wal_bytes rs : length rs <= length (wal_bytes rs).
Proof.
  induction rs as [|r rs IH]; [done|]. rewrite wal_bytes_cons, length_app, length_wal_record. cbn. lia.
Qed.

Lemma decode_records rs : forall fuel pre rest acc, Forall record_ok rs ->
  decode_loop (length rs + fuel) (pre ++ wal_bytes rs ++ rest) (length pre) acc
  = decode_loop fuel (pre ++ wal_bytes rs ++ rest) (length pre + length (wal_bytes rs)) (acc ++ rs).
Proof.
  induction rs as [|r rs IH]; intros fuel pre rest acc Hok.
  { cbn. by rewrite Nat.add_0_r, app_nil_r. }
  apply Forall_cons in Hok as [Hr Hrs]. rewrite wal_bytes_cons, <-app_assoc. cbn [length Nat.add].
  rewrite decode_turn by done. rewrite IH by done. rewrite <-!app_assoc. f_equal.
  rewrite !length_app. lia.
Qed.

(** At the end of the bytes the records are returned. *)
Lemma decode_end fuel bytes acc : decode_loop (S fuel) bytes (length bytes) acc = Done (inl acc).
Proof. cbn. by rewrite bool_decide_eq_true_2. Qed.

(** A strict prefix of a record, its header included, is refused. *)
Lemma decode_torn fuel pre r k acc :
  record_ok r -> 0 < k < length (wal_record r) ->
  exists e, decode_loop (S fuel) (pre ++ take k (wal_record r)) (length pre) acc = Done (inr e) /\
    kind e = InvalidData.
Proof.
  intros [Hk Hv] Hlt. set (l := take k (wal_record r)).
  assert (length l = k) as Hl by (unfold l; rewrite length_take; lia).
  cbn [decode_loop]. rewrite !length_app. rewrite bool_decide_eq_false_2 by lia.
  case_bool_decide as Hhead; [eexists; split; [done|done]|].
  pose proof (length_wal_record r) as Hlr.
  assert (exists tail, l = wal_kind r :: to_le_bytes 4 (u32_of_usize (length (wal_key r)))
              ++ to_le_bytes 4 (u32_of_usize (length (wal_value r))) ++ tail) as [tail El].
  { exists (take (k - 9) (wal_key r ++ wal_value r)). unfold l, wal_record.
    rewrite take_app_ge by (rewrite length_wal_header; lia). rewrite length_wal_header.
    unfold wal_header. cbn [app]. by rewrite <-app_assoc. }
  rewrite El, index_app. cbn [mbind res_bind]. rewrite <-El.
  rewrite (slice_app pre l 1 5), (slice_app pre l 5 9) by lia. cbn [mbind res_bind].
  assert (take (5 - 1) (drop 1 l) = to_le_bytes 4 (u32_of_usize (length (wal_key r)))) as ->.
  { rewrite El, skipn_cons, drop_0. by rewrite take_app_le, take_ge by (by rewrite length_to_le_bytes). }
  assert (take (9 - 5) (drop 5 l) = to_le_bytes 4 (u32_of_usize (length (wal_value r)))) as ->.
  { rewrite El, skipn_cons, drop_app_length' by (by rewrite length_to_le_bytes).
    by rewrite take_app_le, take_ge by (by rewrite length_to_le_bytes). }
  rewrite !u32_length by done. rewrite bool_decide_eq_true_2 by lia. eexists. by split.
Qed.

(** The records that lie wholly within the first [k] bytes, and the rest. *)
Lemma wal_take rs k :
  exists j rest, take k (wal_bytes rs) = wal_bytes (take j rs) ++ rest /\ j <= length rs /\
    (rest = [] \/ exists r, rs !! j = Some r /\ rest = take (length rest) (wal_record r) /\
       0 < length rest < length (wal_record r)).
Proof.
  revert k. induction rs as [|r rs IH]; intros k.
  { exists 0, []. unfold wal_bytes. cbn. rewrite take_nil. split_and!; [done|done|by left]. }
  rewrite wal_bytes_cons. destruct (decide (length (wal_record r) <= k)) as [Hge|Hlt].
  - destruct (IH (k - length (wal_record r))) as (j & rest & Htake & Hj & Hrest).
    exists (S j), rest. rewrite take_app_ge by lia. rewrite Htake. cbn [firstn]. rewrite wal_bytes_cons, app_assoc.
    split_and!; [done|cbn; lia|done].
  - rewrite take_app_le by lia. exists 0, (take k (wal_record r)). split_and!; [done|lia|].
    destruct (decide (k = 0)) as [->|Hk]; [by left|]. right. exists r. rewrite length_take, Nat.min_l by lia.
    split_and!; [done|done|lia|lia].
Qed.

Lemma decode_log rs : Forall record_ok rs -> decode_wal_records (WAL_MAGIC ++ wal_bytes rs) = Done (inl rs).
Proof.
  intros Hok. unfold decode_wal_records. rewrite bool_decide_eq_false_2 by done.
  rewrite bool_decide_eq_false_2 by (rewrite take_app_length; intros []; done).
  pose proof (length_wal_bytes rs) as Hfuel. set (n := length (WAL_MAGIC ++ wal_bytes rs)).
  assert (length rs <= n) as Hn by (unfold n; rewrite length_app; lia).
  replace (S n) with (length rs + S (n - length rs)) by lia.
  pose proof (decode_records rs (S (n - length rs)) WAL_MAGIC [] [] Hok) as Hrun.
  rewrite !app_nil_r in Hrun. rewrite Hrun, <-length_app. apply decode_end.
Qed.

(** C40: a log never replays as anything but what was appended. Of the bytes of
    a log, cut off anywhere, the decoder returns a prefix of the records, and
    all of them when nothing is missing; or it reports invalid data. It never
    panics and never loops. *)
Theorem wal_prefix_spec rs k :
  Forall record_ok rs ->
  exists o, decode_wal_records (take k (WAL_MAGIC ++ wal_bytes rs)) = Done o /\
    match o with
    | inl rs' => exists j, rs' = take j rs /\ (length (WAL_MAGIC ++ wal_bytes rs) <= k -> rs' = rs)
    | inr e => kind e = InvalidData /\ k < length (WAL_MAGIC ++ wal_bytes rs)
    end.
Proof.
  intros Hok. set (log := WAL_MAGIC ++ wal_bytes rs).
  assert (length log = 8 + length (wal_bytes rs)) as Hlog by (unfold log; by rewrite length_app).
  unfold decode_wal_records. case_bool_decide as Hnil.
  { exists (inl []). split; [done|]. exists 0. split; [done|]. intros Hk. exfalso.
    apply (f_equal length) in Hnil. rewrite length_take in Hnil. cbn in Hnil. lia. }
  assert (0 < k) as Hpos by (destruct k; [done|lia]).
  destruct (decide (k < 8)) as [Hlt|Hge].
  { rewrite bool_decide_eq_true_2; [eexists; split; [done|]; split; [done|lia]|]. intros Heq.
    apply (f_equal length) in Heq. rewrite !length_take in Heq. change (length WAL_MAGIC) with 8 in Heq. lia. }
  assert (take k log = WAL_MAGIC ++ take (k - 8) (wal_bytes rs)) as ->.
  { unfold log. rewrite take_app_ge by (cbn; lia). done. }
  rewrite bool_decide_eq_false_2 by (rewrite take_app_length; intros []; done).
  destruct (wal_take rs (k - 8)) as (j & rest & Htake & Hj & Hrest). rewrite Htake.
  assert (Forall record_ok (take j rs)) as Hokj by by apply Forall_take.
  pose proof (length_wal_bytes (take j rs)) as Hfuel.
  set (n := length (WAL_MAGIC ++ wal_bytes (take j rs) ++ rest)).
  assert (length (take j rs) <= n) as Hn by (unfold n; rewrite !length_app; lia).
  replace (S n) with (length (take j rs) + S (n - length (take j rs))) by lia.
  rewrite decode_records by done. cbn [app].
  destruct Hrest as [->|(r & Hr & Hrest & Hlen)].
  - rewrite app_nil_r. rewrite <-length_app, decode_end. exists (inl (take j rs)). split; [done|]. exists j. split; [done|].
    intros Hk. rewrite app_nil_r in Htake. rewrite take_ge in Htake by lia.
    destruct (decide (j = length rs)) as [->|Hne]; [by apply firstn_all|]. exfalso.
    rewrite <-(take_drop j rs), wal_bytes_app in Htake at 1. apply (f_equal length) in Htake.
    rewrite length_app in Htake. pose proof (length_wal_bytes (drop j rs)) as Hd. rewrite length_drop in Hd. lia.
  - rewrite app_assoc, <-length_app.
    destruct (decode_torn (n - length (take j rs)) (WAL_MAGIC ++ wal_bytes (take j rs)) r (length rest) (take j rs))
      as (e & Hrun & He); [|done|].
    { rewrite Forall_forall in Hok. by eapply Hok, list_elem_of_lookup_2. }
    rewrite <-Hrest in Hrun. rewrite Hrun.
    exists (inr e). split; [done|]. split; [done|].
    destruct (decide (k < length log)); [done|]. exfalso. rewrite take_ge in Htake by lia.
    rewrite <-(take_drop_middle rs j r Hr), wal_bytes_app, wal_bytes_cons in Htake at 1.
    apply (f_equal length) in Htake. rewrite !length_app in Htake. lia.
Qed.

(** ** Appending *)
Section log_file.
Context (d : Path) (name : string).
Abbreviation path := (d ++ [Normal name]).

Lemma snoc_not_nil : path <> [].
Proof. by destruct d. Qed.

(** The log of [path], the empty one when there is no file yet. *)
Definition contents (p : Path) (s : FileSystem) : list byte := default [] (files s !! p).

(** The file can be appended to. *)
Definition appendable (s : FileSystem) : Prop := is_Some (files s !! path) \/ creatable d name s.

Lemma creatable_set m s : creatable d name s -> creatable d name (set_files m s).
Proof. done. Qed.

Definition log_start (c : list byte) : list byte := if bool_decide (c = []) then WAL_MAGIC else c.

Lemma append_ok r s : record_ok r -> appendable s ->
  exists s', wal_append path (wal_kind r) (wal_key r) (wal_value r) s = Done (s', inl tt) /\
    files s' = <[path := log_start (contents path s) ++ wal_record r]> (files s) /\ dirs s' = dirs s.
Proof.
  intros [Hk Hv] Hap. unfold wal_append. rewrite bool_decide_eq_false_2 by (intros []; lia).
  assert (exists s1, open_append path s = Done (s1, inl tt) /\
    files s1 = <[path := contents path s]> (files s) /\ dirs s1 = dirs s) as (s1 & Hopen & Hf1 & Hd1).
  { unfold open_append, contents. eff_cbn. unfold id. destruct (files s !! path) as [c|] eqn:E; cbn.
    - exists s. by rewrite insert_id.
    - destruct Hap as [[? ?]|Hc]; [congruence|]. rewrite (open_ok d name s Hc). unfold fs_append. eff_cbn.
      rewrite E. eexists. by split_and!. }
  run Hopen. eff_cbn. unfold id. rewrite Hf1, lookup_insert_eq. cbn [default]. fold (contents path s).
  unfold log_start, wal_record. case_bool_decide as Hempty; unfold fs_append, modify; cbn;
    rewrite ?Hf1, ?lookup_insert_eq; cbn; rewrite ?insert_insert_eq, ?lookup_insert_eq; cbn;
    rewrite ?insert_insert_eq, ?lookup_insert_eq; cbn; rewrite ?insert_insert_eq, ?lookup_insert_eq; cbn;
    rewrite ?insert_insert_eq; (eexists; split; [reflexivity|]; split; [|done]); cbn; f_equal.
  - rewrite Hempty. by rewrite <-!app_assoc.
  - by rewrite <-!app_assoc.
Qed.

Definition append_all (rs : list KvWalRecord) : fs unit :=
  for_each rs (fun r => wal_append path (wal_kind r) (wal_key r) (wal_value r)).

Lemma append_all_ok rs : forall s, Forall record_ok rs -> appendable s -> rs <> [] ->
  exists s', append_all rs s = Done (s', inl tt) /\
    files s' = <[path := log_start (contents path s) ++ wal_bytes rs]> (files s) /\ dirs s' = dirs s.
Proof.
  induction rs as [|r rs IH]; intros s Hok Hap Hne; [done|].
  apply Forall_cons in Hok as [Hr Hrs]. destruct (append_ok r s Hr Hap) as (s1 & Hrun & Hf1 & Hd1).
  unfold append_all. cbn [for_each]. run Hrun. destruct (decide (rs = [])) as [->|Hmore].
  { exists s1. unfold wal_bytes. cbn. by rewrite app_nil_r. }
  destruct (IH s1) as (s2 & Hrun2 & Hf2 & Hd2); [done| |done|].
  { left. rewrite Hf1, lookup_insert_eq. by eexists. }
  exists s2. split; [done|]. split; [|congruence]. rewrite Hf2. unfold contents. rewrite Hf1, lookup_insert_eq, insert_insert_eq.
  cbn. f_equal. unfold log_start at 1. rewrite bool_decide_eq_false_2.
  - rewrite wal_bytes_cons. by rewrite <-app_assoc.
  - intros [_ Hnil]%app_eq_nil. apply (f_equal length) in Hnil. rewrite length_wal_record in Hnil. cbn in Hnil. lia.
Qed.
End log_file.

(** The log is a faithful record. Appending any records with keys and
    values below 4 GiB to a new file succeeds, changes no other file, and
    replaying the file gives back exactly those records, in order. *)
Theorem wal_roundtrip d name rs s :
  Forall record_ok rs -> rs <> [] -> files s !! (d ++ [Normal name]) = None -> creatable d name s ->
  exists s', append_all d name rs s = Done (s', inl tt) /\
    wal_replay (d ++ [Normal name]) s' = Done (s', inl rs) /\
    forall p, p <> d ++ [Normal name] -> files s' !! p = files s !! p.
Proof.
  intros Hok Hne Hnone Hc. destruct (append_all_ok d name rs s Hok) as (s' & Hrun & Hf & Hd); [by right|done|].
  exists s'. split; [done|]. split; [|intros p Hp; by rewrite Hf, lookup_insert_ne].
  unfold contents in Hf. rewrite Hnone in Hf. cbn in Hf.
  assert (read_file (d ++ [Normal name]) s' = Done (s', inl (WAL_MAGIC ++ wal_bytes rs))) as Hread.
  { unfold read_file. rewrite bool_decide_eq_false_2 by apply snoc_not_nil. apply read_ok. by rewrite Hf, lookup_insert_eq. }
  unfold wal_replay, catch. eff_cbn. rewrite Hread. rewrite bool_decide_eq_false_2 by done.
  rewrite decode_log by done. done.
Qed.

(** ** Concrete logs *)
Definition example_dir : Path := [RootDir; Normal "kv"].
Definition example_fs : FileSystem := mkFileSystem ∅ {[example_dir]}.
Definition example_records : list KvWalRecord :=
  [mkKvWalRecord 1 [65; 66]%N [1; 2; 3]%N; mkKvWalRecord 2 [] [7]%N; mkKvWalRecord 3 [9]%N []].

Lemma example_records_ok : Forall record_ok example_records.
Proof. repeat (constructor; [done|]). constructor. Qed.

Lemma example_creatable name : creatable example_dir name example_fs.
Proof.
  split; [vm_compute; reflexivity|]. unfold dir_exists. apply bool_decide_eq_false_2.
  intros [Hc|[Hc|Hc]]; [by apply (f_equal length) in Hc..|].
  change (example_dir ++ [Normal name] ∈ ({[example_dir]} : gset Path)) in Hc.
  apply elem_of_singleton in Hc. by apply (f_equal length) in Hc.
Qed.

Lemma wal_roundtrip_witness :
  exists s', append_all example_dir "wal" example_records example_fs = Done (s', inl tt) /\
    wal_replay (example_dir ++ [Normal "wal"]) s' = Done (s', inl example_records) /\
    forall p, p <> example_dir ++ [Normal "wal"] -> files s' !! p = files example_fs !! p.
Proof.
  apply (wal_roundtrip example_dir "wal" example_records example_fs);
    [apply example_records_ok|discriminate|vm_compute; reflexivity|apply example_creatable].
Defined.

Lemma wal_prefix_spec_witness :
  exists o, decode_wal_records (take 25 (WAL_MAGIC ++ wal_bytes example_records)) = Done o /\
    match o with
    | inl rs' => exists j, rs' = take j example_records /\
        (length (WAL_MAGIC ++ wal_bytes example_records) <= 25 -> rs' = example_records)
    | inr e => kind e = InvalidData /\ 25 < length (WAL_MAGIC ++ wal_bytes example_records)
    end.
Proof. apply (wal_prefix_spec example_records 25), example_records_ok. Defined.

(** The crash cut the first record off before its value; the next append was
    acknowledged. *)
Definition torn_log : list byte := take 17 (WAL_MAGIC ++ wal_record (mkKvWalRecord 1 [] (replicate 9 42%N))).
Definition torn_fs : FileSystem := mkFileSystem {[example_dir ++ [Normal "wal"] := torn_log]} {[example_dir]}.

(** An append does not look at the end of the log. After a crash in the
    middle of a record, the next append succeeds, but the log then replays,
    without an error, as one record that was never appended: the torn record
    with the header of the new one as its value. The new record is lost. *)
Theorem torn_append_misread :
  exists s', wal_append (example_dir ++ [Normal "wal"]) 2 [] [] torn_fs = Done (s', inl tt) /\
    wal_replay (example_dir ++ [Normal "wal"]) s'
    = Done (s', inl [mkKvWalRecord 1 [] [2; 0; 0; 0; 0; 0; 0; 0; 0]%N]).
Proof. eexists. split; vm_compute; reflexivity. Qed.
