(* ===== verification/KvIo.v ===== *)
(** * Payloads and the object-backend interface

    Models [infer/src/kv_tier/io.rs], the errors of [kv_tier/transport.rs] and
    the trait of [kv_tier/backend.rs]: what a slower tier is asked to move, and
    the class every store of blocks implements. *)

From S2P Require Import Prelude Lists Tier FileSystem.

(** ** Payloads *)
Record KVByteRange := mkKVByteRange { br_offset : N; br_len : N }.
Definition KVByteRange_end (r : KVByteRange) : N := u64_saturating_add (br_offset r) (br_len r).
Definition KVByteRange_is_empty (r : KVByteRange) : bool := bool_decide (br_len r = 0%N).

Record KVPayloadRef := mkKVPayloadRef { pr_location : BlockLocation; pr_range : KVByteRange }.
Definition KVPayloadRef_whole (l : BlockLocation) (len : N) : KVPayloadRef :=
  mkKVPayloadRef l (mkKVByteRange 0 len).
Definition KVPayloadRef_tier (r : KVPayloadRef) : Tier := tier (pr_location r).

Record KVPayload := mkKVPayload { kp_bytes : list byte; kp_reference : option KVPayloadRef }.
Definition KVPayload_from_vec (bytes : list byte) : KVPayload := mkKVPayload bytes None.
Definition KVPayload_with_reference (bytes : list byte) (r : KVPayloadRef) : KVPayload :=
  mkKVPayload bytes (Some r).

(** ** Errors *)
Inductive TransportError :=
  | Registration (msg : string)
  | Transfer (msg : string)
  | Aborted
  | Other (msg : string).

(** [err.to_string()] of an I/O error is its message. *)
Definition transfer_error (e : Error) : TransportError := Transfer (message e).

(** ** Requests and completions *)
Record KVBackendStore := mkKVBackendStore {
  bs_handle : KVHandle;
  bs_block : KVBlock;
  bs_kv_format_tag : N;
  bs_payload : KVPayload;
}.
Record KVBackendFetch := mkKVBackendFetch { bf_handle : KVHandle }.
Record KVBackendDelete := mkKVBackendDelete { bd_handle : KVHandle }.

Inductive KVBackendCompletion :=
  | Stored (h : KVHandle)
  | Loaded (h : KVHandle) (p : KVPayload)
  | Deleted (h : KVHandle).

(** ** Operations in flight

    Both stores finish at once: an operation is its result, taken by the first
    poll. *)
Inductive BackendOp := Ready (r : KVBackendCompletion + TransportError) | Exhausted.

Definition poll (name : string) (op : BackendOp) : BackendOp * (KVBackendCompletion + TransportError) :=
  match op with
  | Ready r => (Exhausted, r)
  | Exhausted => (Exhausted, inr (Other (name +:+ " backend op already completed")%string))
  end.

Definition abort (op : BackendOp) : BackendOp := Ready (inr Aborted).

Inductive KVBackendScope := NodeLocal | ClusterShared.

(** ** The trait [KVBackend], over the state [S] its methods change. *)
Class KVBackend (S : Type) := {
  backend_id : string;
  scope : KVBackendScope;
  backend_tier : Tier;
  backend_store : KVBackendStore -> eff S TransportError BackendOp;
  backend_fetch : KVBackendFetch -> eff S TransportError BackendOp;
  backend_delete : KVBackendDelete -> eff S TransportError BackendOp;
  backend_exists : KVHandle -> eff S TransportError bool;
  backend_poll : BackendOp -> BackendOp * (KVBackendCompletion + TransportError);
}.

Definition is_cluster_shared {S} `{KVBackend S} : bool :=
  match scope with ClusterShared => true | NodeLocal => false end.

(** [map_err]. *)
Definition map_err {S E F A} (f : E -> F) (m : eff S E A) : eff S F A := fun s =>
  '(s', r) ← m s;
  Done (s', match r with inl a => inl a | inr e => inr (f e) end).

(** A computation on a part of the state. *)
Definition zoom {S T E A} (get : S -> T) (set : T -> S -> S) (m : eff T E A) : eff S E A := fun s =>
  '(t, r) ← m (get s);
  Done (set t s, r).

Lemma map_err_ok {S E F A} (f : E -> F) (m : eff S E A) s s' a :
  m s = Done (s', inl a) -> map_err f m s = Done (s', inl a).
Proof. intros H. unfold map_err. by rewrite H. Qed.

Lemma zoom_ok {S T E A} (get : S -> T) (set : T -> S -> S) (m : eff T E A) s t r :
  m (get s) = Done (t, r) -> zoom get set m s = Done (set t s, r).
Proof. intros H. unfold zoom. by rewrite H. Qed.

(** The parts of a log warning after a failed call is dropped. *)
Definition ignore_err {S E A} (m : eff S E A) : eff S E unit := fun s =>
  '(s', _) ← m s; Done (s', inl tt).
