(* ===== verification/DiskStore.v ===== *)
(** * The disk store

    Models [infer/src/kv_tier/transport/disk.rs]: a keyed store that refuses
    paths out of its root, and a store of KV blocks in files named by
    fingerprint, each a postcard header followed by the payload. Postcard is
    the class [Postcard]; what the code relies on is [PostcardLaws]. *)

From Stdlib Require Import Ascii.
From S2P Require Import Prelude Lists Bytes Tier FileSystem NativeFiles KvIo.

(** ** Postcard *)
Class Postcard (A : Type) := {
  to_allocvec : A -> list byte + string;
  take_from_bytes : list byte -> (A * list byte) + string;
}.

(** Encoding succeeds on the values in [ok], and decoding takes exactly the
    encoded bytes. What it takes is always a prefix of at most [max_size] bytes,
    and it looks no further. *)
Class PostcardLaws (A : Type) `{Postcard A} (ok : A -> Prop) (max_size : nat) := {
  decode_encode a : ok a -> exists bytes, to_allocvec a = inl bytes /\
    forall rest, take_from_bytes (bytes ++ rest) = inl (a, rest);
  decode_prefix_of bytes a rest : take_from_bytes bytes = inl (a, rest) ->
    exists pre, bytes = pre ++ rest /\ length pre <= max_size /\
      forall rest', take_from_bytes (pre ++ rest') = inl (a, rest');
}.

(** ** Data *)

(** [b"PEGAKV01"]. *)
Definition DISK_BLOCK_MAGIC : list byte := [80; 69; 71; 65; 75; 86; 48; 49]%N.
Definition DISK_BLOCK_VERSION : N := 1.

Record DiskBlockLocation := mkDiskBlockLocation {
  dl_path : Path;
  dl_payload_len : N;
  dl_fingerprint : BlockFingerprint;
}.

Record DiskBlockHeader := mkDiskBlockHeader {
  dh_magic : list byte;
  dh_version : N;
  dh_fingerprint : list byte;
  dh_kv_format_tag : N;
  dh_payload_len : N;
}.

Definition DiskBlockHeader_new (fingerprint : BlockFingerprint) (kv_format_tag payload_len : N) : DiskBlockHeader :=
  mkDiskBlockHeader DISK_BLOCK_MAGIC DISK_BLOCK_VERSION fingerprint kv_format_tag payload_len.

Definition invalid_data (msg : string) : Error := mkError InvalidData msg.

Section postcard.
Context `{Postcard DiskBlockHeader}.

Definition decode_prefix (bytes : list byte) : (DiskBlockHeader * list byte) + Error :=
  match take_from_bytes bytes with
  | inr err => inr (invalid_data ("disk store: failed to decode header: " +:+ err))
  | inl (header, payload) =>
      if bool_decide (dh_magic header <> DISK_BLOCK_MAGIC)
      then inr (invalid_data "disk store: invalid block magic")
      else if bool_decide (dh_version header <> DISK_BLOCK_VERSION)
      then inr (invalid_data "disk store: unsupported block version")
      else inl (header, payload)
  end.

Definition decode (bytes : list byte) : (DiskBlockHeader * list byte) + Error :=
  match decode_prefix bytes with
  | inr e => inr e
  | inl (header, payload) =>
      if bool_decide (N.of_nat (length payload) <> dh_payload_len header)
      then inr (invalid_data "disk store: payload length mismatch")
      else inl (header, payload)
  end.

(** ** Names *)
Fixpoint string_drop (n : nat) (s : string) : string :=
  match n, s with
  | S n, String _ s => string_drop n s
  | _, _ => s
  end.

(** [strip_suffix]. *)
Definition strip_suffix (suffix s : string) : option string :=
  let n := String.length s - String.length suffix in
  if bool_decide (String.length suffix <= String.length s /\ string_drop n s = suffix)
  then Some (String.substring 0 n s) else None.

Definition block_fingerprint_from_filename (name : string) : option BlockFingerprint :=
  stem ← strip_suffix ".kv" name;
  if bool_decide (String.length stem <> 32) then None else unhex stem.

(** ** The store *)
Record DiskStore := mkDiskStore { root : Path; root_created : bool }.

(** The store with the file system it lives on. *)
Record DiskWorld := mkDiskWorld { store : DiskStore; filesystem : FileSystem }.
Abbreviation disk := (eff DiskWorld Error).

Definition set_filesystem (f : FileSystem) (w : DiskWorld) : DiskWorld := mkDiskWorld (store w) f.
Definition on_fs {A} (m : fs A) : disk A := zoom filesystem set_filesystem m.
Definition store_root (w : DiskWorld) : Path := root (store w).

Definition DiskStore_new (root : Path) : DiskStore := mkDiskStore root false.

Definition create_root : disk unit :=
  r ← gets store_root;
  on_fs (create_dir_all r) ;;
  modify (fun w => mkDiskWorld (mkDiskStore (root (store w)) true) (filesystem w)).

Definition ensure_root_created : disk unit :=
  created ← gets (fun w => root_created (store w));
  if (created : bool) then mret tt else create_root.

(** *** Keyed API *)
Definition path_for (key : Path) (root : Path) : Path + Error :=
  if is_absolute key then inr (mkError InvalidInput "disk store key must be relative")
  else if existsb (fun c => bool_decide (c = ParentDir)) key
  then inr (mkError InvalidInput "disk store key cannot contain parent traversal")
  else inl (join root key).

Definition path_for_key (key : Path) : disk Path :=
  r ← gets store_root; of_sum (path_for key r).

Definition write (key : Path) (bytes : list byte) : disk unit :=
  path ← path_for_key key;
  (match parent path with Some p => on_fs (create_dir_all p) | None => mret tt end) ;;
  on_fs (write_file path bytes).

Definition read (key : Path) : disk (list byte) :=
  path ← path_for_key key; on_fs (read_file path).

Definition remove (key : Path) : disk unit :=
  path ← path_for_key key; on_fs (remove_file path true).

(** *** Block API *)
Definition block_path_for (fingerprint : BlockFingerprint) (root : Path) : Path :=
  join root [Normal (hex_string fingerprint ".kv")].

Definition contains_block (fingerprint : BlockFingerprint) : disk bool :=
  gets (fun w => fs_exists (block_path_for fingerprint (store_root w)) (filesystem w)).

(** The writing of [put_block_with_fsync], tried again after the root has been
    created when it is missing. *)
Definition do_write (fsync_each_block : bool) (fingerprint : BlockFingerprint) (file_bytes : list byte) : disk unit :=
  r ← gets store_root;
  let path := block_path_for fingerprint r in
  if fsync_each_block then on_fs (write_block_atomic r fingerprint file_bytes)
  else
    let tmp_path := with_extension path "kv.tmp" in
    on_fs (catch (fs_write tmp_path file_bytes ;; fs_rename tmp_path path)
             (fun e => catch (fs_remove tmp_path) (fun _ => mret tt) ;; throw e)).

Definition put_block_with_fsync (fingerprint : BlockFingerprint) (kv_format_tag : N) (payload : list byte)
    (fsync_each_block : bool) : disk DiskBlockLocation :=
  ensure_root_created ;;
  let payload_len := N.of_nat (length payload) in
  header_bytes ← (match to_allocvec (DiskBlockHeader_new fingerprint kv_format_tag payload_len) with
                  | inl bytes => mret bytes
                  | inr err => throw (invalid_data ("disk store: failed to encode header: " +:+ err))
                  end);
  let file_bytes := header_bytes ++ payload in
  catch (do_write fsync_each_block fingerprint file_bytes)
    (fun e => if bool_decide (kind e = NotFound)
              then create_root ;; do_write fsync_each_block fingerprint file_bytes
              else throw e) ;;
  r ← gets store_root;
  mret (mkDiskBlockLocation (block_path_for fingerprint r) payload_len fingerprint).

Definition put_block (fingerprint : BlockFingerprint) (kv_format_tag : N) (payload : list byte)
    : disk DiskBlockLocation :=
  put_block_with_fsync fingerprint kv_format_tag payload true.

Definition get_block (location : DiskBlockLocation) (expected_fingerprint : option BlockFingerprint)
    : disk (list byte) :=
  if match expected_fingerprint with
     | Some expected => bool_decide (dl_fingerprint location <> expected)
     | None => false
     end
  then throw (invalid_data "disk store: fingerprint mismatch (location vs expected)")
  else
    r ← gets store_root;
    if bool_decide (dl_path location <> block_path_for (dl_fingerprint location) r)
    then throw (invalid_data "disk store: refused location.path outside canonical root")
    else
      owned ← on_fs (read_block_owned r (dl_fingerprint location));
      '(header, payload) ← of_sum (decode owned);
      if bool_decide (dh_fingerprint header <> dl_fingerprint location)
      then throw (invalid_data "disk store: on-disk fingerprint does not match location")
      else mret payload.

Definition delete_block (location : DiskBlockLocation) : disk unit :=
  r ← gets store_root;
  if bool_decide (dl_path location <> block_path_for (dl_fingerprint location) r)
  then throw (invalid_data "disk store: refused location.path outside canonical root")
  else on_fs (remove_block r (dl_fingerprint location) true).

(** *** Scanning the root *)

(** [read_dir]: the files directly in the directory, in the order of the map;
    a missing directory is an empty one for the callers. *)
Definition dir_entries (d : Path) (s : FileSystem) : list Path :=
  filter (fun p => parent p = Some d) (map_to_list (files s)).*1.

(** Symbolic links apart, two paths are the same file when they are equal. *)
Definition same_existing_path (a b : Path) : bool := bool_decide (a = b).

(** What a scan makes of one directory entry: nothing, or a block to visit. *)
Definition scan_entry (r : Path) (path : Path) (s : FileSystem)
    : option (DiskBlockLocation * list byte) + Error :=
  match file_name path ≫= block_fingerprint_from_filename with
  | None => inl None
  | Some fingerprint =>
      let canonical := block_path_for fingerprint r in
      if negb (same_existing_path path canonical)
      then inr (invalid_data "disk store: discovered block path outside canonical root")
      else match files s !! block_path r fingerprint with
      | None => inl None
      | Some bytes =>
          match decode bytes with
          | inr _ => inl None
          | inl (header, payload) =>
              if bool_decide (dh_fingerprint header <> fingerprint) then inl None
              else inl (Some (mkDiskBlockLocation canonical (dh_payload_len header) fingerprint, payload))
          end
      end
  end.

Definition BLOCK_HEADER_READ_SLOP : N := 512.

(** [usize::MAX] and [u64::MAX] are the same here. *)
Definition read_file_prefix (path : Path) (max_len : N) (s : FileSystem) : option (list byte) :=
  take (N.to_nat max_len) <$> files s !! path.

(** The same for a scan that reads only the head of every file. *)
Definition scan_prefix_entry (max_payload_prefix_len : N) (r : Path) (path : Path) (s : FileSystem)
    : option (DiskBlockLocation * list byte) + Error :=
  match file_name path ≫= block_fingerprint_from_filename with
  | None => inl None
  | Some fingerprint =>
      let canonical := block_path_for fingerprint r in
      if negb (same_existing_path path canonical)
      then inr (invalid_data "disk store: discovered block path outside canonical root")
      else
        let max_file_prefix_len := u64_saturating_add max_payload_prefix_len BLOCK_HEADER_READ_SLOP in
        match read_file_prefix canonical max_file_prefix_len s with
        | None => inl None
        | Some bytes =>
            match decode_prefix bytes with
            | inr _ => inl None
            | inl (header, payload_prefix) =>
                if bool_decide (dh_fingerprint header <> fingerprint) then inl None
                else
                  let header_len := N.of_nat (length bytes - length payload_prefix) in
                  match u64_checked_add header_len (dh_payload_len header) with
                  | None => inl None
                  | Some expected_file_len =>
                      match files s !! canonical with
                      | None => inl None
                      | Some file =>
                          if bool_decide (N.of_nat (length file) <> expected_file_len) then inl None
                          else
                            let payload_prefix_len :=
                              N.min (N.min (N.of_nat (length payload_prefix)) max_payload_prefix_len) (dh_payload_len header) in
                            inl (Some (mkDiskBlockLocation canonical (dh_payload_len header) fingerprint,
                                       take (N.to_nat payload_prefix_len) payload_prefix))
                      end
                  end
            end
        end
  end.

Section visit.
Context {B : Type} (scan : Path -> Path -> FileSystem -> option (DiskBlockLocation * list byte) + Error).
Context (visit : DiskBlockLocation -> list byte -> B -> B + Error).

Fixpoint visit_entries (r : Path) (entries : list Path) (s : FileSystem) (b : B) : B + Error :=
  match entries with
  | [] => inl b
  | path :: entries =>
      match scan r path s with
      | inr e => inr e
      | inl None => visit_entries r entries s b
      | inl (Some (location, payload)) =>
          match visit location payload b with
          | inr e => inr e
          | inl b => visit_entries r entries s b
          end
      end
  end.

(** [read_dir] of a file is refused, of a missing directory is no entries. *)
Definition visit_dir (b : B) : disk B :=
  w ← gets id;
  let r := store_root w in
  if bool_decide (is_Some (files (filesystem w) !! r)) then throw (mkError NotADirectory "Not a directory")
  else of_sum (visit_entries r (dir_entries r (filesystem w)) (filesystem w) b).
End visit.

Definition visit_blocks {B} (visit : DiskBlockLocation -> list byte -> B -> B + Error) (b : B) : disk B :=
  visit_dir scan_entry visit b.

Definition visit_block_payload_prefixes {B} (max_payload_prefix_len : N)
    (visit : DiskBlockLocation -> list byte -> B -> B + Error) (b : B) : disk B :=
  visit_dir (scan_prefix_entry max_payload_prefix_len) visit b.

(** *** The backend *)
Definition disk_location_error (msg : string) : TransportError := Other msg.

Definition location_from_handle (h : KVHandle) (root : Path) : DiskBlockLocation + TransportError :=
  match kh_location h with
  | LocDisk fingerprint payload_len =>
      inl (mkDiskBlockLocation (block_path_for fingerprint root) payload_len fingerprint)
  | _ => inr (disk_location_error "disk backend requires a Disk block location on fetch/delete")
  end.

Definition disk_store (req : KVBackendStore) : eff DiskWorld TransportError BackendOp :=
  match kb_fingerprint (bs_block req) with
  | None => throw (disk_location_error "disk backend store requires a block fingerprint")
  | Some fingerprint =>
      let payload := kp_bytes (bs_payload req) in
      map_err transfer_error (put_block fingerprint (bs_kv_format_tag req) payload) ;;
      mret (Ready (inl (Stored (KVHandle_with_location (bs_handle req)
                                  (LocDisk fingerprint (N.of_nat (length payload)))))))
  end.

Definition disk_fetch (req : KVBackendFetch) : eff DiskWorld TransportError BackendOp :=
  r ← gets store_root;
  location ← of_sum (location_from_handle (bf_handle req) r);
  bytes ← map_err transfer_error (get_block location (Some (dl_fingerprint location)));
  mret (Ready (inl (Loaded (bf_handle req)
    (KVPayload_with_reference bytes
       (KVPayloadRef_whole (kh_location (bf_handle req)) (N.of_nat (length bytes))))))).

Definition disk_delete (req : KVBackendDelete) : eff DiskWorld TransportError BackendOp :=
  r ← gets store_root;
  location ← of_sum (location_from_handle (bd_handle req) r);
  map_err transfer_error (delete_block location) ;;
  mret (Ready (inl (Deleted (bd_handle req)))).

Definition disk_exists (h : KVHandle) : eff DiskWorld TransportError bool :=
  match kh_location h with
  | LocDisk fingerprint _ => map_err transfer_error (contains_block fingerprint)
  | _ => throw (disk_location_error "disk backend requires a Disk block location on exists")
  end.

#[export] Instance DiskStore_backend : KVBackend DiskWorld := {
  backend_id := "disk";
  scope := NodeLocal;
  backend_tier := Disk;
  backend_store := disk_store;
  backend_fetch := disk_fetch;
  backend_delete := disk_delete;
  backend_exists := disk_exists;
  backend_poll := poll "disk";
}.
End postcard.
