(* ===== verification/DiskWire.v ===== *)
(** * Postcard's wire format of a block header

    A concrete instance of the class the store is written against, after
    postcard's published format: arrays of bytes are written as they are,
    integers wider than a byte as LEB128. It shows the laws can hold. *)

From S2P Require Import Prelude Bytes Tier FileSystem DiskStore.

(** The header's fields at their widths. *)
Definition header_ok (h : DiskBlockHeader) : Prop :=
  (length (dh_magic h) = 8 /\ Forall is_byte (dh_magic h)) /\ (dh_version h < 65536)%N /\
  (length (dh_fingerprint h) = 16 /\ Forall is_byte (dh_fingerprint h)) /\
  is_byte (dh_kv_format_tag h) /\ (dh_payload_len h <= u64_max)%N.

(** ** Parsers *)
Definition parser (A : Type) : Type := list byte -> option (A * list byte).

Definition and_then {A B} (p : parser A) (f : A -> parser B) : parser B := fun bytes =>
  '(a, bytes) ← p bytes; f a bytes.

Definition ret {A} (a : A) : parser A := fun bytes => Some (a, bytes).

(** A parser takes a prefix of at most [n] bytes and looks no further. *)
Definition local {A} (n : nat) (p : parser A) : Prop :=
  forall bytes a rest, p bytes = Some (a, rest) ->
    exists pre, bytes = pre ++ rest /\ length pre <= n /\ forall rest', p (pre ++ rest') = Some (a, rest').

Lemma local_ret {A} (a : A) : local 0 (ret a).
Proof. intros bytes a' rest [= <- <-]. by exists []. Qed.

Lemma local_and_then {A B} n m (p : parser A) (f : A -> parser B) :
  local n p -> (forall a, local m (f a)) -> local (n + m) (and_then p f).
Proof.
  intros Hp Hf bytes b rest. unfold and_then. destruct (p bytes) as [[a bytes']|] eqn:Ep; [|done]. cbn. intros Eb.
  destruct (Hp _ _ _ Ep) as (pre & -> & Hlen & Hp'). destruct (Hf a _ _ _ Eb) as (pre' & -> & Hlen' & Hf').
  exists (pre ++ pre'). rewrite <-app_assoc, length_app. split_and!; [done|lia|]. intros rest'.
  rewrite <-app_assoc, Hp'. cbn. apply Hf'.
Qed.

Definition bytes_of (n : nat) : parser (list byte) := fun bytes =>
  if bool_decide (n <= length bytes) then Some (take n bytes, drop n bytes) else None.

Lemma bytes_of_app n l rest : length l = n -> bytes_of n (l ++ rest) = Some (l, rest).
Proof.
  intros <-. unfold bytes_of. rewrite length_app, bool_decide_eq_true_2 by lia.
  by rewrite take_app_length, drop_app_length.
Qed.

Lemma local_bytes_of n : local n (bytes_of n).
Proof.
  intros bytes a rest. unfold bytes_of at 1. case_bool_decide as Hlen; [|done]. intros [= <- <-].
  exists (take n bytes). rewrite take_drop, length_take. split_and!; [done|lia|]. intros rest'.
  apply bytes_of_app. rewrite length_take. lia.
Qed.

(** ** LEB128 *)
Fixpoint varint (fuel : nat) (x : N) : list byte :=
  match fuel with
  | 0 => []
  | S fuel => if (x <? 128)%N then [x] else (x mod 128 + 128)%N :: varint fuel (x / 128)
  end.

Fixpoint parse_varint (fuel : nat) : parser N := fun bytes =>
  match fuel, bytes with
  | S fuel, b :: bytes =>
      if (b <? 128)%N then Some (b, bytes)
      else '(x, bytes) ← parse_varint fuel bytes; Some ((b - 128 + 128 * x)%N, bytes)
  | _, _ => None
  end.

Lemma parse_varint_app fuel x rest :
  (x < 128 ^ N.of_nat (S fuel))%N -> parse_varint (S fuel) (varint (S fuel) x ++ rest) = Some (x, rest).
Proof.
  revert x. induction fuel as [|fuel IH]; intros x Hx.
  { cbn in Hx. cbn [varint]. rewrite (proj2 (N.ltb_lt x 128)) by lia. cbn [parse_varint app].
    by rewrite (proj2 (N.ltb_lt x 128)) by lia. }
  remember (S fuel) as n.
  cbn [varint]. destruct (N.ltb_spec x 128) as [Hlt|Hge]; cbn [parse_varint app].
  - apply N.ltb_lt in Hlt. by rewrite Hlt.
  - rewrite (proj2 (N.ltb_ge (x mod 128 + 128) 128)) by apply N.le_add_l.
    rewrite IH; cbn [mbind option_bind].
    + assert (x mod 128 + 128 - 128 + 128 * (x / 128) = x)%N as ->; [|done].
      rewrite N.add_sub, N.add_comm. symmetry. by apply N.div_mod.
    + rewrite Nat2N.inj_succ, N.pow_succ_r' in Hx. apply N.Div0.div_lt_upper_bound. lia.
Qed.

Lemma local_varint fuel : local fuel (parse_varint fuel).
Proof.
  induction fuel as [|fuel IH]; intros bytes a rest; [done|]. destruct bytes as [|b bytes]; [done|]. cbn.
  destruct (b <? 128)%N eqn:Eb.
  - intros [= <- <-]. exists [b]. split_and!; [done|cbn; lia|]. intros rest'. cbn. by rewrite Eb.
  - destruct (parse_varint fuel bytes) as [[x bytes']|] eqn:Ex; [|done]. cbn. intros [= <- <-].
    destruct (IH _ _ _ Ex) as (pre & -> & Hlen & Hpre). exists (b :: pre). split_and!; [done|cbn; lia|].
    intros rest'. cbn. by rewrite Eb, Hpre.
Qed.

(** ** The header *)
Definition header_bytes (h : DiskBlockHeader) : list byte :=
  dh_magic h ++ varint 3 (dh_version h) ++ dh_fingerprint h ++ [dh_kv_format_tag h] ++ varint 10 (dh_payload_len h).

Definition parse_header : parser DiskBlockHeader :=
  and_then (bytes_of 8) (fun magic =>
  and_then (parse_varint 3) (fun version =>
  and_then (bytes_of 16) (fun fingerprint =>
  and_then (bytes_of 1) (fun tag =>
  and_then (parse_varint 10) (fun payload_len =>
  ret (mkDiskBlockHeader magic version fingerprint (default 0%N (head tag)) payload_len)))))).

#[export] Instance postcard_header : Postcard DiskBlockHeader := {
  to_allocvec h := inl (header_bytes h);
  take_from_bytes bytes :=
    match parse_header bytes with Some r => inl r | None => inr "Hit the end of buffer, expected more data"%string end;
}.

Lemma local_header : local 38 parse_header.
Proof.
  apply (local_and_then 8 30); [apply local_bytes_of|intros magic].
  apply (local_and_then 3 27); [apply local_varint|intros version].
  apply (local_and_then 16 11); [apply local_bytes_of|intros fingerprint].
  apply (local_and_then 1 10); [apply local_bytes_of|intros tag].
  apply (local_and_then 10 0); [apply local_varint|intros payload_len]. apply local_ret.
Qed.

Lemma parse_header_bytes h rest : header_ok h -> parse_header (header_bytes h ++ rest) = Some (h, rest).
Proof.
  destruct h as [magic version fp tag len]. intros ([Hm _] & Hv & [Hf _] & _ & Hl).
  cbn [dh_magic dh_version dh_fingerprint dh_payload_len] in Hm, Hv, Hf, Hl.
  unfold header_bytes, parse_header, and_then. rewrite <-!app_assoc. cbn [dh_magic dh_version dh_fingerprint dh_kv_format_tag dh_payload_len].
  rewrite bytes_of_app by done. cbn [mbind option_bind].
  rewrite (parse_varint_app 2) by (cbn; lia). cbn [mbind option_bind].
  rewrite bytes_of_app by done. cbn [mbind option_bind].
  rewrite (bytes_of_app 1 [tag]) by done. cbn [mbind option_bind].
  rewrite (parse_varint_app 9); [done|]. unfold u64_max in Hl. cbn. lia.
Qed.

#[export] Instance postcard_header_laws : PostcardLaws DiskBlockHeader header_ok 38.
Proof.
  split.
  - intros h Hh. exists (header_bytes h). split; [done|]. intros rest. cbn. by rewrite parse_header_bytes.
  - intros bytes h rest. cbn. destruct (parse_header bytes) as [[h' rest']|] eqn:E; [|done]. intros [= -> ->].
    destruct (local_header _ _ _ E) as (pre & -> & Hlen & Hpre). exists pre. split_and!; [done|done|].
    intros rest'. by rewrite Hpre.
Qed.
