(* ===== verification/DiskStoreProps.v ===== *)
(** * The disk store: properties

    Names and fingerprints are in bijection, what is put is what is got, blocks
    do not disturb each other, keys stay under the root. *)

From Stdlib Require Import Ascii.
From S2P Require Import Prelude Lists Bytes Tier FileSystem NativeFiles KvIo DiskStore DiskWire.

(** ** Names *)
Definition fingerprint_ok (fp : BlockFingerprint) : Prop := length fp = 16 /\ Forall is_byte fp.

Lemma string_drop_app a b : string_drop (String.length a) (a +:+ b)%string = b.
Proof. induction a as [|c a IH]; [done|]. exact IH. Qed.

Lemma substring_app a b : String.substring 0 (String.length a) (a +:+ b)%string = a.
Proof.
  induction a as [|c a IH]; [by destruct b|].
  change (String c (String.substring 0 (String.length a) (a +:+ b)) = String c a)%string. by rewrite IH.
Qed.

Lemma string_length_app a b : String.length (a +:+ b)%string = String.length a + String.length b.
Proof.
  induction a as [|c a IH]; [done|].
  change (S (String.length (a +:+ b)) = S (String.length a) + String.length b)%string. by rewrite IH.
Qed.

Lemma substring_drop n s : n <= String.length s -> (String.substring 0 n s +:+ string_drop n s)%string = s.
Proof.
  revert s. induction n as [|n IH]; intros [|c s] Hn; [done|done|cbn in Hn; lia|]. cbn in Hn.
  change (String c (String.substring 0 n s +:+ string_drop n s) = String c s)%string. by rewrite IH by lia.
Qed.

Lemma strip_suffix_app stem suffix : strip_suffix suffix (stem +:+ suffix)%string = Some stem.
Proof.
  unfold strip_suffix. rewrite string_length_app, Nat.add_sub.
  rewrite bool_decide_eq_true_2 by (split; [lia|apply string_drop_app]). by rewrite substring_app.
Qed.

Lemma strip_suffix_Some stem suffix s : strip_suffix suffix s = Some stem -> s = (stem +:+ suffix)%string.
Proof.
  unfold strip_suffix. case_bool_decide as Hc; [|done]. intros [= <-]. destruct Hc as [_ Hd].
  rewrite <-(substring_drop (String.length s - String.length suffix) s) at 1 by lia. by rewrite Hd.
Qed.

Lemma filename_fingerprint fp :
  fingerprint_ok fp -> block_fingerprint_from_filename (hex_string fp ".kv") = Some fp.
Proof.
  intros [Hlen Hfp]. unfold block_fingerprint_from_filename. rewrite hex_string_app, strip_suffix_app. cbn.
  rewrite length_hex_string, Hlen. cbn. by apply unhex_hex.
Qed.

Lemma fingerprint_filename name fp :
  block_fingerprint_from_filename name = Some fp -> name = hex_string fp ".kv" /\ fingerprint_ok fp.
Proof.
  unfold block_fingerprint_from_filename. destruct (strip_suffix ".kv" name) as [stem|] eqn:E; [|done]. cbn.
  case_bool_decide as Hlen; [done|]. intros Hun. apply strip_suffix_Some in E as ->.
  destruct (hex_unhex _ _ Hun) as (Hhex & Hbytes & Hl). split; [by rewrite hex_string_app, Hhex|].
  split; [lia|done].
Qed.

(** ** Paths *)
Lemma block_path_snoc fp r : block_path_for fp r = r ++ [Normal (hex_string fp ".kv")].
Proof. done. Qed.

Lemma block_path_not_nil fp r : block_path_for fp r <> [].
Proof. rewrite block_path_snoc. by destruct r. Qed.

(** The native engine and the store agree on the file of a block. *)
Lemma block_path_agree fp r : block_path r fp = block_path_for fp r.
Proof. done. Qed.

Lemma block_path_inj fp fp' r :
  fingerprint_ok fp -> fingerprint_ok fp' -> block_path_for fp r = block_path_for fp' r -> fp = fp'.
Proof.
  intros Hfp Hfp' Heq. rewrite !block_path_snoc in Heq. apply (inj (app r)) in Heq. injection Heq as Heq.
  apply (f_equal block_fingerprint_from_filename) in Heq. rewrite !filename_fingerprint in Heq by done.
  by injection Heq.
Qed.

Lemma rsplit_hex bytes : rsplit_dot (hex_string bytes ".kv") = Some (hex_string bytes "", "kv"%string).
Proof. induction bytes as [|b bytes IH]; [done|]. cbn. by rewrite IH. Qed.

Lemma string_app_assoc (a b c : string) : ((a +:+ b) +:+ c)%string = (a +:+ (b +:+ c))%string.
Proof.
  induction a as [|x a IH]; [done|].
  change (String x ((a +:+ b) +:+ c) = String x (a +:+ (b +:+ c)))%string. by rewrite IH.
Qed.

(** Both ways of writing a block stage it in the same file. *)
Lemma staging_path fp r :
  fingerprint_ok fp -> with_extension (block_path_for fp r) "kv.tmp" = append_to_name (block_path_for fp r) ".tmp".
Proof.
  intros [Hlen _]. rewrite block_path_snoc, with_extension_snoc, append_snoc. do 3 f_equal.
  unfold file_stem. rewrite rsplit_hex. destruct fp as [|b fp]; [done|].
  rewrite (hex_string_app (b :: fp) ".kv"), string_app_assoc. done.
Qed.

Definition staging_name (fp : BlockFingerprint) : string := (hex_string fp ".kv" +:+ ".tmp")%string.

(** Staging files are not block files. *)
Lemma staging_name_not_block fp fp' : fingerprint_ok fp -> fingerprint_ok fp' -> staging_name fp <> hex_string fp' ".kv".
Proof.
  intros [Hl _] [Hl' _] Heq. apply (f_equal String.length) in Heq. unfold staging_name in Heq.
  rewrite string_length_app, !length_hex_string, Hl, Hl' in Heq. discriminate Heq.
Qed.

(** *** Keys *)

(** The directory a path leads to, without looking at the disk. *)
Definition resolve (p : Path) : list string :=
  foldl (fun acc c => match c with
                      | RootDir => []
                      | CurDir => acc
                      | ParentDir => take (length acc - 1) acc
                      | Normal s => acc ++ [s]
                      end) [] p.

(** The names of a path; a parsed path has [RootDir] at most at its head. *)
Definition names (p : Path) : list string := omap (fun c => match c with Normal s => Some s | _ => None end) p.

Lemma resolve_below p q : Forall (fun c => c <> ParentDir /\ c <> RootDir) q -> resolve (p ++ q) = resolve p ++ names q.
Proof.
  intros Hq. unfold resolve, names. rewrite foldl_app. generalize (foldl (fun acc c => match c with
    | RootDir => [] | CurDir => acc | ParentDir => take (length acc - 1) acc | Normal s => acc ++ [s] end) [] p).
  induction Hq as [|c q [Hc1 Hc2] Hq IH]; intros acc; cbn; [by rewrite app_nil_r|].
  destruct c; [done|by rewrite IH|done|]. rewrite IH. by rewrite <-app_assoc.
Qed.

(** A key cannot lead out of the store. The keyed operations refuse an
    absolute key or one with a parent component; for any other key the path
    they use lies below the root: resolved, it is the root followed by the
    names of the key. *)
Theorem path_for_confined (key r : Path) :
  RootDir ∉ tail key ->
  match path_for key r with
  | inr e => kind e = InvalidInput /\ (is_absolute key = true \/ ParentDir ∈ key)
  | inl p => resolve p = resolve r ++ names key
  end.
Proof.
  intros Htail. unfold path_for. destruct (is_absolute key) eqn:Habs; [by auto|].
  destruct (existsb _ key) eqn:Hpar.
  - split; [done|]. right. apply existsb_exists in Hpar as (c & Hin%list_elem_of_In & Hc).
    apply bool_decide_eq_true in Hc as ->. done.
  - unfold join. rewrite Habs. apply resolve_below, Forall_forall. intros c Hc. split.
    + intros ->. assert (existsb (fun c => bool_decide (c = ParentDir)) key = true); [|congruence].
      apply existsb_exists. exists ParentDir. split; [by apply list_elem_of_In|by apply bool_decide_eq_true].
    + intros ->. destruct key as [|c key]; [by apply not_elem_of_nil in Hc|].
      apply elem_of_cons in Hc as [<-|Hc]; done.
Qed.

Lemma path_for_confined_witness :
  match path_for [Normal "session"; CurDir; Normal "a"] [RootDir; Normal "kv"] with
  | inr e => kind e = InvalidInput /\
      (is_absolute [Normal "session"; CurDir; Normal "a"] = true \/ ParentDir ∈ [Normal "session"; CurDir; Normal "a"])
  | inl p => resolve p = resolve [RootDir; Normal "kv"] ++ names [Normal "session"; CurDir; Normal "a"]
  end.
Proof. apply path_for_confined. cbn. intros [H|[H|H]%elem_of_cons]%elem_of_cons; [done|done|by apply not_elem_of_nil in H]. Defined.

(** ** Writing *)

(** The atomic write leaves the new contents, and no staging file. *)
Lemma stage_ok d name tmp bytes s :
  creatable d name s -> creatable d tmp s -> name <> tmp ->
  (fs_write (d ++ [Normal tmp]) bytes ;; fs_rename (d ++ [Normal tmp]) (d ++ [Normal name])) s
  = Done (set_files (<[d ++ [Normal name] := bytes]> (delete (d ++ [Normal tmp]) (files s))) s, inl tt).
Proof.
  intros Hn Ht Hne. run (write_ok d tmp bytes s Ht).
  rewrite (rename_ok d _ name bytes); [|by apply lookup_insert_eq|done]. cbn. by rewrite delete_insert_eq.
Qed.

Lemma stage_missing d tmp (k : fs unit) bytes s :
  dir_exists d s = false -> dir_exists (d ++ [Normal tmp]) s = false ->
  (fs_write (d ++ [Normal tmp]) bytes ;; k) s = Done (s, inr not_found).
Proof.
  intros Hd Ht. unfold fs_write, open_for_write. eff_cbn. unfold id. by rewrite Ht, parent_snoc, Hd.
Qed.

Lemma cleanup_missing p s :
  files s !! p = None -> catch (fs_remove p) (fun _ => mret tt) s = Done (s, inl tt).
Proof.
  intros Hp. unfold catch, fs_remove. eff_cbn. unfold id. rewrite Hp. by destruct (dir_exists p s).
Qed.

#[local] Arguments block_path_for : simpl never.
#[local] Arguments with_extension : simpl never.
#[local] Arguments write_block_atomic : simpl never.

Section put.
Context `{Postcard DiskBlockHeader}.

(** The names a block needs are no directories, and no part of the root is a
    file; a directory that is missing has no files. *)
Record slot_free (fp : BlockFingerprint) (w : DiskWorld) : Prop := mk_slot_free {
  sf_root : Forall (fun q => files (filesystem w) !! q = None) (ancestors (store_root w));
  sf_block : dir_exists (block_path_for fp (store_root w)) (filesystem w) = false;
  sf_stage : dir_exists (store_root w ++ [Normal (staging_name fp)]) (filesystem w) = false;
  sf_empty : dir_exists (store_root w) (filesystem w) = false ->
    forall name, files (filesystem w) !! (store_root w ++ [Normal name]) = None;
}.

(** The files after the block's file has been replaced. *)
Definition replaced (fp : BlockFingerprint) (bytes : list byte) (w w' : DiskWorld) : Prop :=
  store_root w' = store_root w /\
  files (filesystem w') = <[block_path_for fp (store_root w) := bytes]>
    (delete (store_root w ++ [Normal (staging_name fp)]) (files (filesystem w))) /\
  dir_exists (store_root w) (filesystem w') = true /\
  dir_exists (block_path_for fp (store_root w)) (filesystem w') = false.

Lemma staging_differs fp : hex_string fp ".kv" <> staging_name fp.
Proof.
  intros Heq. apply (f_equal String.length) in Heq. unfold staging_name in Heq.
  rewrite string_length_app in Heq. cbn in Heq. lia.
Qed.

Lemma do_write_ok b fp bytes w :
  fingerprint_ok fp -> slot_free fp w -> dir_exists (store_root w) (filesystem w) = true ->
  exists w', do_write b fp bytes w = Done (w', inl tt) /\ replaced fp bytes w w'.
Proof.
  intros Hfp [_ Hblk Hst _] Hdir. rewrite block_path_snoc in Hblk.
  set (s' := set_files (<[store_root w ++ [Normal (hex_string fp ".kv")] := bytes]>
    (delete (store_root w ++ [Normal (staging_name fp)]) (files (filesystem w)))) (filesystem w)).
  exists (set_filesystem s' w). split; [|by split_and!].
  assert (forall k : fs unit, k s' = Done (s', inl tt) ->
    (fs_write (store_root w ++ [Normal (staging_name fp)]) bytes ;;
     (fs_rename (store_root w ++ [Normal (staging_name fp)]) (store_root w ++ [Normal (hex_string fp ".kv")]) ;; k))
      (filesystem w) = Done (s', inl tt)) as Hstage.
  { intros k Hk. assert (creatable (store_root w) (staging_name fp) (filesystem w)) as Hc by done.
    run (write_ok _ _ bytes _ Hc). rewrite (run_bind_ok _ _ _ s' tt); [done|].
    rewrite (rename_ok _ _ _ bytes); [|by apply lookup_insert_eq|done]. unfold s'. cbn. by rewrite delete_insert_eq. }
  unfold do_write. rewrite run_gets. destruct b; unfold on_fs; apply (zoom_ok filesystem set_filesystem _ w s').
  - unfold write_block_atomic, write_file_atomic. rewrite block_path_agree, block_path_snoc, append_snoc.
    rewrite bool_decide_eq_false_2 by (by destruct (store_root w)). unfold catch, stage_and_rename. rewrite Hstage; [done|].
    assert (dir_exists (default [] (parent (store_root w ++ [Normal (hex_string fp ".kv")]))) s' = true) as Hdir'
      by (rewrite parent_snoc; exact Hdir).
    unfold open_directory. eff_cbn. by rewrite Hdir'.
  - rewrite staging_path by done. rewrite block_path_snoc, append_snoc. unfold catch.
    rewrite (stage_ok (store_root w) (hex_string fp ".kv") (staging_name fp)); [done|done|done|apply staging_differs].
Qed.

Lemma do_write_missing b fp bytes w :
  fingerprint_ok fp -> slot_free fp w -> dir_exists (store_root w) (filesystem w) = false ->
  do_write b fp bytes w = Done (w, inr not_found).
Proof.
  intros Hfp [_ Hblk Hst Hempty] Hdir. rewrite block_path_snoc in Hblk. specialize (Hempty Hdir).
  assert (forall k : fs unit, catch (fs_write (store_root w ++ [Normal (staging_name fp)]) bytes ;; k)
    (fun e => catch (fs_remove (store_root w ++ [Normal (staging_name fp)])) (fun _ => mret tt) ;; throw e)
    (filesystem w) = Done (filesystem w, inr not_found)) as Hfail.
  { intros k. unfold catch at 1. rewrite (stage_missing _ _ k bytes _ Hdir Hst).
    by run (cleanup_missing _ _ (Hempty (staging_name fp))). }
  assert (set_filesystem (filesystem w) w = w) as Hback by by destruct w.
  unfold do_write. rewrite run_gets. transitivity (Done (set_filesystem (filesystem w) w, inr not_found : unit + Error)); [|by rewrite Hback].
  destruct b; unfold on_fs; apply (zoom_ok filesystem set_filesystem _ w (filesystem w)).
  - unfold write_block_atomic, write_file_atomic. rewrite block_path_agree, block_path_snoc, append_snoc.
    rewrite bool_decide_eq_false_2 by (by destruct (store_root w)). apply Hfail.
  - rewrite staging_path by done. rewrite block_path_snoc, append_snoc. apply Hfail.
Qed.

Context `{!PostcardLaws DiskBlockHeader header_ok 38}.

Lemma new_header_ok fp tag n :
  fingerprint_ok fp -> is_byte tag -> (n <= u64_max)%N -> header_ok (DiskBlockHeader_new fp tag n).
Proof. intros [? ?] ? ?. by repeat split; try done; repeat (constructor; [done|]). Qed.

Lemma create_root_ok fp w : slot_free fp w ->
  exists w', create_root w = Done (w', inl tt) /\ store_root w' = store_root w /\
    files (filesystem w') = files (filesystem w) /\ dir_exists (store_root w) (filesystem w') = true /\
    root_created (store w') = true /\ slot_free fp w'.
Proof.
  intros [Hroot Hblk Hst Hempty]. unfold create_root. rewrite run_gets.
  set (s' := mkFileSystem (files (filesystem w)) (list_to_set (ancestors (store_root w)) ∪ dirs (filesystem w))).
  assert (on_fs (create_dir_all (store_root w)) w = Done (set_filesystem s' w, inl tt)) as Hrun.
  { apply (zoom_ok filesystem set_filesystem _ w s'). unfold create_dir_all. rewrite run_gets.
    destruct (existsb _ _) eqn:E; [|done]. apply existsb_exists in E as (q & Hq%list_elem_of_In & Hf).
    apply bool_decide_eq_true in Hf. rewrite Forall_forall in Hroot. unfold id in Hf.
    rewrite (Hroot q Hq) in Hf. by destruct Hf. }
  run Hrun. eexists. split; [reflexivity|]. cbn.
  assert (dir_exists (store_root w) s' = true) as Hdir.
  { apply bool_decide_eq_true. destruct (decide (store_root w = [])) as [|Hne]; [by left|]. right. right.
    apply elem_of_union_l, elem_of_list_to_set, list_elem_of_fmap. exists (length (store_root w) - 1).
    assert (length (store_root w) <> 0) by (by intros ?%nil_length_inv).
    split; [rewrite take_ge; [done|lia]|]. apply elem_of_seq. lia. }
  assert (forall name, dir_exists (store_root w ++ [Normal name]) (filesystem w) = false ->
    dir_exists (store_root w ++ [Normal name]) s' = false) as Hkeep.
  { intros name Hn. unfold dir_exists in *. rewrite bool_decide_eq_false in Hn |- *. intros Hc. apply Hn.
    destruct Hc as [Hc|[Hc|[Hc|Hc]%elem_of_union]]; [by left|by right; left| |by right; right]. exfalso.
    apply elem_of_list_to_set, list_elem_of_fmap in Hc as (n & Hc & Hn'%elem_of_seq).
    apply (f_equal length) in Hc. rewrite length_take, length_app in Hc. cbn [length] in Hc. lia. }
  split_and!; [done|done|done|done|]. split; cbn; [done|by apply Hkeep|by apply Hkeep|].
  intros Hc. unfold store_root in *. cbn in *. congruence.
Qed.

(** What a block's file holds after a put. *)
Definition holds_block (fp : BlockFingerprint) (tag : N) (payload : list byte) (bytes : list byte) : Prop :=
  exists header, to_allocvec (DiskBlockHeader_new fp tag (N.of_nat (length payload))) = inl header /\
    bytes = header ++ payload.

Lemma put_ok b fp tag payload w :
  fingerprint_ok fp -> is_byte tag -> (N.of_nat (length payload) <= u64_max)%N -> slot_free fp w ->
  exists w' bytes, put_block_with_fsync fp tag payload b w
    = Done (w', inl (mkDiskBlockLocation (block_path_for fp (store_root w)) (N.of_nat (length payload)) fp)) /\
    holds_block fp tag payload bytes /\ replaced fp bytes w w'.
Proof using PostcardLaws0.
  intros Hfp Htag Hlen Hslot.
  destruct (decode_encode (DiskBlockHeader_new fp tag (N.of_nat (length payload)))) as (header & Henc & _);
    [by apply new_header_ok|].
  assert (exists w1, ensure_root_created w = Done (w1, inl tt) /\ store_root w1 = store_root w /\
    files (filesystem w1) = files (filesystem w) /\ slot_free fp w1) as (w1 & Hens & Hr1 & Hf1 & Hslot1).
  { unfold ensure_root_created. rewrite run_gets. destruct (root_created (store w)); [by exists w|].
    destruct (create_root_ok fp w Hslot) as (w1 & ? & ? & ? & _ & _ & ?). by exists w1. }
  assert (exists w2, catch (do_write b fp (header ++ payload))
    (fun e => if bool_decide (kind e = NotFound) then create_root ;; do_write b fp (header ++ payload) else throw e) w1
    = Done (w2, inl tt) /\ replaced fp (header ++ payload) w1 w2) as (w2 & Hwrite & Hrep).
  { unfold catch. destruct (dir_exists (store_root w1) (filesystem w1)) eqn:Hdir.
    - destruct (do_write_ok b fp (header ++ payload) w1 Hfp Hslot1 Hdir) as (w2 & -> & Hrep). by exists w2.
    - rewrite (do_write_missing b fp _ w1 Hfp Hslot1 Hdir). cbn [kind not_found bool_decide].
      destruct (create_root_ok fp w1 Hslot1) as (w2 & Hcr & Hr2 & Hf2 & Hd2 & _ & Hslot2).
      destruct (do_write_ok b fp (header ++ payload) w2 Hfp Hslot2) as (w3 & Hrun & Hr3 & Hf3 & Hd3 & Hb3);
        [by rewrite Hr2|]. exists w3. rewrite bool_decide_eq_true_2 by done. run Hcr. split; [done|].
      rewrite Hr2 in *. split_and!; [congruence|by rewrite Hf3, Hf2|done|done]. }
  exists w2, (header ++ payload). unfold put_block_with_fsync. run Hens. rewrite Henc.
  rewrite (run_bind_ok (mret header) _ w1 w1 header) by done. run Hwrite. rewrite run_gets.
  destruct Hrep as (Hr2 & Hf2 & Hd2 & Hb2). rewrite Hr2, Hr1. split; [done|]. split; [by exists header|].
  split; [congruence|]. rewrite Hf2, Hr1, Hf1. rewrite Hr1 in Hd2, Hb2. done.
Qed.

(** ** Reading *)
Lemma get_ok fp tag payload bytes exp w :
  fingerprint_ok fp -> is_byte tag -> (N.of_nat (length payload) <= u64_max)%N ->
  holds_block fp tag payload bytes -> files (filesystem w) !! block_path_for fp (store_root w) = Some bytes ->
  exp = None \/ exp = Some fp ->
  forall n, get_block (mkDiskBlockLocation (block_path_for fp (store_root w)) n fp) exp w = Done (w, inl payload).
Proof using PostcardLaws0.
  intros Hfp Htag Hlen (header & Henc & ->) Hfile Hexp n. unfold get_block. cbn [dl_fingerprint dl_path].
  assert (match exp with Some e => bool_decide (fp <> e) | None => false end = false) as ->.
  { destruct Hexp as [->| ->]; [done|]. apply bool_decide_eq_false_2. by intros []. }
  rewrite run_gets. rewrite bool_decide_eq_false_2 by (by intros []).
  assert (on_fs (read_block_owned (store_root w) fp) w = Done (w, inl (header ++ payload))) as Hread.
  { transitivity (Done (set_filesystem (filesystem w) w, inl (header ++ payload) : list byte + Error));
      [|by destruct w]. apply zoom_ok. unfold read_block_owned, read_block, read_file.
    rewrite block_path_agree, bool_decide_eq_false_2 by apply block_path_not_nil. by apply read_ok. }
  run Hread.
  destruct (decode_encode (DiskBlockHeader_new fp tag (N.of_nat (length payload)))) as (header' & Henc' & Hdec);
    [by apply new_header_ok|]. rewrite Henc in Henc'. injection Henc' as <-.
  assert (decode (header ++ payload) = inl (DiskBlockHeader_new fp tag (N.of_nat (length payload)), payload)) as Hd.
  { unfold decode, decode_prefix. rewrite Hdec. rewrite !bool_decide_eq_false_2; [done|..]; by intros []. }
  rewrite Hd. eff_cbn. by rewrite bool_decide_eq_false_2 by (by intros []).
Qed.

(** What is put is what is got. Putting a block, with or without syncing,
    whether the root exists, was never created, or was deleted meanwhile,
    succeeds; getting it by the returned location gives back the payload; and
    the file of every other block is untouched. *)
Theorem disk_put_get b fp tag payload w :
  fingerprint_ok fp -> is_byte tag -> (N.of_nat (length payload) <= u64_max)%N -> slot_free fp w ->
  exists w' loc, put_block_with_fsync fp tag payload b w = Done (w', inl loc) /\
    dl_fingerprint loc = fp /\ dl_payload_len loc = N.of_nat (length payload) /\
    get_block loc (Some fp) w' = Done (w', inl payload) /\
    forall fp', fingerprint_ok fp' -> fp' <> fp ->
      files (filesystem w') !! block_path_for fp' (store_root w')
      = files (filesystem w) !! block_path_for fp' (store_root w).
Proof using PostcardLaws0.
  intros Hfp Htag Hlen Hslot.
  destruct (put_ok b fp tag payload w Hfp Htag Hlen Hslot) as (w' & bytes & Hrun & Hholds & Hr & Hf & Hd & _).
  eexists w', _. split; [exact Hrun|]. split_and!; [done|done| |].
  - rewrite <-Hr. apply (get_ok fp tag payload bytes); [done|done|done|done| |by right].
    by rewrite Hr, Hf, lookup_insert_eq.
  - intros fp' Hfp' Hne. rewrite Hr, Hf, lookup_insert_ne, lookup_delete_ne; [done| |].
    + rewrite block_path_snoc. intros Heq%(inj (app (store_root w))). injection Heq as Heq.
      by apply (staging_name_not_block fp fp').
    + intros Heq. destruct Hne. by apply (block_path_inj _ _ (store_root w)).
Qed.

Lemma decode_inl bytes header payload :
  decode bytes = inl (header, payload) <->
  take_from_bytes bytes = inl (header, payload) /\ dh_magic header = DISK_BLOCK_MAGIC /\
  dh_version header = DISK_BLOCK_VERSION /\ dh_payload_len header = N.of_nat (length payload).
Proof.
  unfold decode, decode_prefix. destruct (take_from_bytes bytes) as [[h p]|]; [|split; [done|by intros [? _]]].
  case_bool_decide; [split; [done|by intros ([= -> ->] & ? & ? & _)]|].
  case_bool_decide; [split; [done|by intros ([= -> ->] & ? & ? & _)]|].
  case_bool_decide as Hc3.
  - split; [done|]. intros ([= -> ->] & _ & _ & Hl). by destruct Hc3.
  - split; [|intros [[= -> ->] _]; done]. intros [= -> ->]. split_and!; [done|done|done|].
    by symmetry.
Qed.

Lemma read_block_cases r fp s :
  read_block_owned r fp s
  = Done (s, match files s !! block_path_for fp r with
             | Some bytes => inl bytes
             | None => inr (if dir_exists (block_path_for fp r) s then mkError IsADirectory "Is a directory" else not_found)
             end).
Proof.
  unfold read_block_owned, read_block, read_file. rewrite block_path_agree, bool_decide_eq_false_2 by apply block_path_not_nil.
  unfold fs_read. rewrite run_gets. unfold id. destruct (files s !! _); [done|]. by destruct (dir_exists _ s).
Qed.

Lemma on_fs_cases {A} (m : fs A) w r : m (filesystem w) = Done (filesystem w, r) -> on_fs m w = Done (w, r).
Proof.
  intros Hm. transitivity (Done (set_filesystem (filesystem w) w, r)); [by apply zoom_ok|by destruct w].
Qed.

Lemma on_fs_ok {A} (m : fs A) w f r : m (filesystem w) = Done (f, r) -> on_fs m w = Done (set_filesystem f w, r).
Proof. apply zoom_ok. Qed.

(** The outcome of [get_block] as a value. *)
Definition get_outcome (loc : DiskBlockLocation) (exp : option BlockFingerprint) (w : DiskWorld)
    : list byte + Error :=
  match get_block loc exp w with Done (_, r) => r | _ => inr not_found end.

Lemma get_block_cases loc exp w :
  get_block loc exp w = Done (w, get_outcome loc exp w) /\
  forall payload, get_outcome loc exp w = inl payload <->
    (exp = None \/ exp = Some (dl_fingerprint loc)) /\
    dl_path loc = block_path_for (dl_fingerprint loc) (store_root w) /\
    exists bytes header, files (filesystem w) !! dl_path loc = Some bytes /\
      take_from_bytes bytes = inl (header, payload) /\
      dh_magic header = DISK_BLOCK_MAGIC /\ dh_version header = DISK_BLOCK_VERSION /\
      dh_fingerprint header = dl_fingerprint loc /\ dh_payload_len header = N.of_nat (length payload).
Proof using.
  unfold get_outcome, get_block.
  assert (match exp with Some e => bool_decide (dl_fingerprint loc <> e) | None => false end = false <->
          exp = None \/ exp = Some (dl_fingerprint loc)) as Hexp.
  { destruct exp as [e|]; [|by split; [left|]]. rewrite bool_decide_eq_false. split.
    - intros Hc. right. f_equal. by apply dec_stable in Hc.
    - intros [?|[= ->]]; [done|]. by intros []. }
  destruct (match exp with Some e => _ | None => _ end).
  { split; [done|]. intros payload. split; [done|]. intros [He%Hexp _]. done. }
  rewrite run_gets. case_bool_decide as Hpath.
  { split; [done|]. intros payload. split; [done|]. intros (_ & Hp & _). by destruct Hpath. }
  assert (on_fs (read_block_owned (store_root w) (dl_fingerprint loc)) w
    = Done (w, match files (filesystem w) !! dl_path loc with
               | Some bytes => inl bytes
               | None => inr (if dir_exists (dl_path loc) (filesystem w)
                              then mkError IsADirectory "Is a directory" else not_found)
               end)) as Hread by (rewrite Hpath; apply on_fs_cases, read_block_cases).
  destruct (files (filesystem w) !! dl_path loc) as [bytes|] eqn:Hfile.
  2: { run Hread. split; [done|]. intros payload. split; [done|]. intros (_ & _ & ? & ? & ? & _). done. }
  run Hread. destruct (decode bytes) as [[h p]|e] eqn:Hdec; eff_cbn.
  2: { split; [done|]. intros payload. split; [done|].
       intros (_ & _ & bytes' & h & [= <-] & Htake & Hm & Hv & _ & Hl).
       assert (decode bytes = inl (h, payload)) as Hd by by apply decode_inl. congruence. }
  case_bool_decide as Hfp.
  { split; [done|]. intros payload. split; [done|].
    intros (_ & _ & bytes' & h' & [= <-] & Htake & Hm & Hv & Hf & Hl).
    assert (decode bytes = inl (h', payload)) as Hd by by apply decode_inl. rewrite Hd in Hdec. by injection Hdec as <- <-. }
  split; [done|]. intros payload. split.
  - intros [= ->]. apply decode_inl in Hdec as (? & ? & ? & ?).
    split; [by apply Hexp|]. split; [done|]. by exists bytes, h.
  - intros (_ & _ & bytes' & h' & [= <-] & Htake & Hm & Hv & Hf & Hl).
    assert (decode bytes = inl (h', payload)) as Hd by by apply decode_inl. rewrite Hd in Hdec. by injection Hdec as <- <-.
Qed.

(** C39: a get returns a block or an error, never a damaged one. It does not
    panic and changes nothing; it returns a payload exactly when the location
    names the block's own file, the fingerprint is the expected one, and that
    file decodes completely: magic, version, the block's fingerprint, and as
    many payload bytes as the header says. *)
Theorem disk_get_integrity loc exp w :
  get_block loc exp w = Done (w, get_outcome loc exp w) /\
  forall payload, get_outcome loc exp w = inl payload <->
    (exp = None \/ exp = Some (dl_fingerprint loc)) /\
    dl_path loc = block_path_for (dl_fingerprint loc) (store_root w) /\
    exists bytes header, files (filesystem w) !! dl_path loc = Some bytes /\
      take_from_bytes bytes = inl (header, payload) /\
      dh_magic header = DISK_BLOCK_MAGIC /\ dh_version header = DISK_BLOCK_VERSION /\
      dh_fingerprint header = dl_fingerprint loc /\ dh_payload_len header = N.of_nat (length payload).
Proof using. exact (get_block_cases loc exp w). Qed.

(** ** Deleting *)
Lemma remove_cases r fp s :
  dir_exists (block_path_for fp r) s = false ->
  remove_block r fp true s = Done (set_files (delete (block_path_for fp r) (files s)) s, inl tt).
Proof using.
  intros Hdir. unfold remove_block, remove_file. rewrite block_path_agree, bool_decide_eq_false_2 by apply block_path_not_nil.
  unfold catch, fs_remove. rewrite run_gets. unfold id. destruct (files s !! _) as [bytes|] eqn:Hf; [done|].
  rewrite Hdir. cbn. rewrite delete_id by done. by destruct s.
Qed.

(** Deleting a block removes its file and nothing else, and deleting it
    again is no error. A location whose path is not the block's own file is
    refused without touching the disk; otherwise the file is gone afterwards,
    every other file and the directories are as before, a second delete does
    nothing, and a get answers not found. *)
Theorem disk_delete_spec loc w :
  dir_exists (dl_path loc) (filesystem w) = false ->
  match delete_block loc w with
  | Done (w', inr e) => w' = w /\ kind e = InvalidData /\
      dl_path loc <> block_path_for (dl_fingerprint loc) (store_root w)
  | Done (w', inl tt) =>
      dl_path loc = block_path_for (dl_fingerprint loc) (store_root w) /\
      store w' = store w /\ dirs (filesystem w') = dirs (filesystem w) /\
      files (filesystem w') = delete (dl_path loc) (files (filesystem w)) /\
      delete_block loc w' = Done (w', inl tt) /\
      get_block loc None w' = Done (w', inr not_found)
  | _ => False
  end.
Proof using.
  intros Hdir. unfold delete_block at 1. rewrite run_gets.
  destruct (decide (dl_path loc = block_path_for (dl_fingerprint loc) (store_root w))) as [Hpath|Hpath].
  2: { by rewrite bool_decide_eq_true_2 by done. }
  rewrite bool_decide_eq_false_2 by (by intros []). rewrite Hpath in Hdir.
  rewrite (on_fs_ok _ _ _ _ (remove_cases _ _ _ Hdir)). set (s' := set_files _ _).
  assert (files s' !! dl_path loc = None) as Hgone by (cbn; rewrite Hpath; apply lookup_delete_eq).
  assert (dir_exists (block_path_for (dl_fingerprint loc) (store_root w)) s' = false) as Hdir' by exact Hdir.
  split_and!; [done|done|done|by cbn; rewrite Hpath| |].
  - unfold delete_block. rewrite run_gets. rewrite bool_decide_eq_false_2 by (intros Hn; by apply Hn).
    etransitivity; [exact (on_fs_ok _ (set_filesystem s' w) _ _ (remove_cases _ _ _ Hdir'))|].
    unfold set_filesystem, s', set_files. cbn. by rewrite delete_delete_eq.
  - unfold get_block. cbn match. rewrite run_gets. rewrite bool_decide_eq_false_2 by (intros Hn; by apply Hn).
    erewrite run_bind_err; [reflexivity|]. apply on_fs_cases. rewrite read_block_cases. cbn [filesystem set_filesystem].
    change (store_root (set_filesystem s' w)) with (store_root w). by rewrite <-Hpath, Hgone, Hpath, Hdir'.
Qed.
End put.

(** A store on an empty disk, a block, and its location. *)
Definition sample_world : DiskWorld := mkDiskWorld (DiskStore_new [RootDir; Normal "kv"]) (mkFileSystem ∅ ∅).
Definition sample_fp : BlockFingerprint := replicate 16 7%N.
Definition sample_loc : DiskBlockLocation :=
  mkDiskBlockLocation (block_path_for sample_fp [RootDir; Normal "kv"]) 3 sample_fp.

Lemma sample_fp_ok : fingerprint_ok sample_fp.
Proof. split; [done|]. by repeat constructor. Qed.

Lemma sample_slot : slot_free sample_fp sample_world.
Proof. split; [by repeat constructor|done|done|done]. Qed.

Lemma disk_put_get_witness :
  exists w' loc, put_block_with_fsync sample_fp 1 [10; 20; 30]%N true sample_world = Done (w', inl loc) /\
    dl_fingerprint loc = sample_fp /\ dl_payload_len loc = N.of_nat (length [10; 20; 30]%N) /\
    get_block loc (Some sample_fp) w' = Done (w', inl [10; 20; 30]%N) /\
    forall fp', fingerprint_ok fp' -> fp' <> sample_fp ->
      files (filesystem w') !! block_path_for fp' (store_root w')
      = files (filesystem sample_world) !! block_path_for fp' (store_root sample_world).
Proof. apply disk_put_get; [apply sample_fp_ok|done|done|apply sample_slot]. Defined.

Lemma disk_delete_spec_witness :
  match delete_block sample_loc sample_world with
  | Done (w', inr e) => w' = sample_world /\ kind e = InvalidData /\
      dl_path sample_loc <> block_path_for (dl_fingerprint sample_loc) (store_root sample_world)
  | Done (w', inl tt) =>
      dl_path sample_loc = block_path_for (dl_fingerprint sample_loc) (store_root sample_world) /\
      store w' = store sample_world /\ dirs (filesystem w') = dirs (filesystem sample_world) /\
      files (filesystem w') = delete (dl_path sample_loc) (files (filesystem sample_world)) /\
      delete_block sample_loc w' = Done (w', inl tt) /\
      get_block sample_loc None w' = Done (w', inr not_found)
  | _ => False
  end.
Proof. by apply disk_delete_spec. Defined.
