(* ===== verification/DiskScan.v ===== *)
(** * Scanning the disk store: properties

    A scan of the root finds exactly the blocks a get would return, and the scan
    that reads only the heads of the files finds the same. *)

From S2P Require Import Prelude Lists Bytes Tier FileSystem NativeFiles KvIo DiskStore DiskWire DiskStoreProps.

Section scan.
Context `{Postcard DiskBlockHeader}.

(** What a visitor that only collects sees. *)
Definition collect (loc : DiskBlockLocation) (payload : list byte) (acc : list (DiskBlockLocation * list byte))
    : list (DiskBlockLocation * list byte) + Error :=
  inl (acc ++ [(loc, payload)]).

Definition found_at (r : Path) (s : FileSystem) (path : Path) : option (DiskBlockLocation * list byte) :=
  match scan_entry r path s with inl (Some x) => Some x | _ => None end.

(** The block files of the root: what the scan accepts of a name. *)
Definition intact (r : Path) (s : FileSystem) (fp : BlockFingerprint) (payload : list byte) : Prop :=
  exists bytes header, files s !! block_path_for fp r = Some bytes /\
    decode bytes = inl (header, payload) /\ dh_fingerprint header = fp.

Lemma entry_of_root r p s :
  p ∈ dir_entries r s <-> parent p = Some r /\ is_Some (files s !! p).
Proof.
  unfold dir_entries. rewrite list_elem_of_filter, list_elem_of_fmap. split.
  - intros (Hp & [q bytes] & -> & Hq%elem_of_map_to_list). by split; [|exists bytes].
  - intros (Hp & bytes & Hf). split; [done|]. exists (p, bytes). by rewrite elem_of_map_to_list.
Qed.

Lemma parent_file_name p r name : parent p = Some r -> file_name p = Some name -> p = r ++ [Normal name].
Proof.
  unfold parent, file_name. destruct p as [|c p _] using rev_ind; [done|]. rewrite last_snoc, take_snoc.
  destruct c; try done; by intros [= <-] [= <-].
Qed.

(** A file named by a fingerprint is that block's own file. *)
Lemma named_file_canonical p r fp :
  parent p = Some r -> file_name p ≫= block_fingerprint_from_filename = Some fp ->
  p = block_path_for fp r /\ fingerprint_ok fp.
Proof.
  intros Hp Hn. destruct (file_name p) as [name|] eqn:Hname; [|done]. cbn in Hn.
  apply fingerprint_filename in Hn as [-> Hok]. split; [|done]. by apply parent_file_name.
Qed.

Lemma file_name_block fp r :
  fingerprint_ok fp -> file_name (block_path_for fp r) ≫= block_fingerprint_from_filename = Some fp.
Proof. intros Hfp. rewrite block_path_snoc, file_name_snoc. cbn [mbind option_bind]. by apply filename_fingerprint. Qed.

(** A scan refuses no entry of the root. *)
Lemma scan_entry_root r p s : parent p = Some r -> scan_entry r p s = inl (found_at r s p).
Proof.
  intros Hp. unfold found_at, scan_entry.
  destruct (file_name p ≫= block_fingerprint_from_filename) as [fp|] eqn:Hn; [|done].
  destruct (named_file_canonical _ _ _ Hp Hn) as [-> _]. unfold same_existing_path.
  rewrite bool_decide_eq_true_2 by done. cbn [negb]. destruct (files s !! block_path r fp); [|done].
  destruct (decode _) as [[h payload]|]; [|done]. by case_bool_decide.
Qed.

Lemma found_at_spec r s p loc payload :
  parent p = Some r ->
  found_at r s p = Some (loc, payload) <->
  exists fp, p = block_path_for fp r /\ fingerprint_ok fp /\
    loc = mkDiskBlockLocation p (N.of_nat (length payload)) fp /\ intact r s fp payload.
Proof.
  intros Hp. unfold found_at, scan_entry. split.
  - destruct (file_name p ≫= block_fingerprint_from_filename) as [fp|] eqn:Hn; [|done].
    destruct (named_file_canonical _ _ _ Hp Hn) as [-> Hok]. unfold same_existing_path.
    rewrite bool_decide_eq_true_2 by done. cbn [negb]. rewrite block_path_agree.
    destruct (files s !! _) as [bytes|] eqn:Hf; [|done].
    destruct (decode bytes) as [[h payload']|] eqn:Hd; [|done]. case_bool_decide as Hh; [done|]. intros [= <- ->].
    exists fp. split_and!; [done|done| |by exists bytes, h].
    apply decode_inl in Hd as (_ & _ & _ & ->). done.
  - intros (fp & -> & Hok & -> & bytes & h & Hf & Hd & Hh). rewrite file_name_block by done.
    unfold same_existing_path. rewrite bool_decide_eq_true_2 by done. cbn [negb].
    rewrite block_path_agree, Hf, Hd. rewrite bool_decide_eq_false_2 by (intros Hc; by apply Hc).
    apply decode_inl in Hd as (_ & _ & _ & ->). done.
Qed.

Lemma visit_collect r s entries acc :
  Forall (fun p => parent p = Some r) entries ->
  visit_entries scan_entry collect r entries s acc = inl (acc ++ omap (found_at r s) entries).
Proof.
  intros Hall. revert acc. induction Hall as [|p entries Hp _ IH]; intros acc; cbn; [by rewrite app_nil_r|].
  rewrite scan_entry_root by done. destruct (found_at r s p) as [[loc payload]|]; cbn; [|apply IH].
  rewrite IH. by rewrite <-app_assoc.
Qed.

Lemma get_intact loc w payload :
  get_outcome loc None w = inl payload <->
  dl_path loc = block_path_for (dl_fingerprint loc) (store_root w) /\
  intact (store_root w) (filesystem w) (dl_fingerprint loc) payload.
Proof.
  destruct (get_block_cases loc None w) as [_ Hcases]. rewrite Hcases. split.
  - intros (_ & Hp & bytes & h & Hf & Ht & Hm & Hv & Hh & Hl). split; [done|]. exists bytes, h.
    split_and!; [by rewrite <-Hp|by apply decode_inl|done].
  - intros (Hp & bytes & h & Hf & Hd & Hh). apply decode_inl in Hd as (? & ? & ? & ?).
    split_and!; [by left|done|]. exists bytes, h. rewrite Hp. split_and!; done.
Qed.

(** A scan finds exactly the blocks that can be got. Whatever else is
    in the root, foreign files, staging files, damaged or renamed blocks, the
    scan never fails; it visits a location and a payload exactly when the
    location is that of a block of the root and a get of it returns that
    payload, and visits none twice. *)
Theorem disk_scan_spec w :
  files (filesystem w) !! store_root w = None ->
  exists found, visit_blocks collect [] w = Done (w, inl found) /\ NoDup found.*1 /\
    forall loc payload, (loc, payload) ∈ found <->
      fingerprint_ok (dl_fingerprint loc) /\ dl_payload_len loc = N.of_nat (length payload) /\
      get_outcome loc None w = inl payload.
Proof.
  intros Hroot. set (r := store_root w). set (s := filesystem w).
  assert (forall p, p ∈ dir_entries r s -> parent p = Some r) as Hentry by (intros p Hp; apply entry_of_root in Hp; exact (proj1 Hp)).
  exists (omap (found_at r s) (dir_entries r s)). split_and!.
  - unfold visit_blocks, visit_dir. rewrite run_gets. unfold id. fold r s. rewrite bool_decide_eq_false_2.
    + rewrite visit_collect; [done|]. by apply Forall_forall.
    + unfold s, r. rewrite Hroot. by intros [].
  - assert (NoDup (dir_entries r s)) as Hnd.
    { unfold dir_entries. apply NoDup_filter, NoDup_fst_map_to_list. }
    revert Hentry Hnd. generalize (dir_entries r s). induction l as [|p l IH]; intros Hentry Hnd; [constructor|].
    apply NoDup_cons in Hnd as [Hp Hnd]. cbn.
    assert (NoDup (omap (found_at r s) l).*1) as Hl by (apply IH; [set_solver|done]).
    destruct (found_at r s p) as [[loc payload]|] eqn:E; [|exact Hl]. cbn. apply NoDup_cons. split; [|exact Hl].
    intros ([loc' payload'] & Heq & Hin)%list_elem_of_fmap. cbn in Heq. subst loc'.
    apply list_elem_of_omap in Hin as (p' & Hp' & E').
    apply found_at_spec in E as (fp & _ & _ & Hloc & _); [|set_solver].
    apply found_at_spec in E' as (fp' & _ & _ & Hloc' & _); [|set_solver].
    rewrite Hloc in Hloc'. injection Hloc' as -> _. done.
  - intros loc payload. rewrite list_elem_of_omap, get_intact. split.
    + intros (p & Hp & E). apply found_at_spec in E as (fp & -> & Hok & -> & Hint); [|by apply Hentry]. done.
    + intros (Hok & Hlen & Hpath & Hint). exists (dl_path loc). fold r s in Hint, Hpath.
      assert (parent (dl_path loc) = Some r) as Hpar by (rewrite Hpath, block_path_snoc; apply parent_snoc).
      split.
      * apply entry_of_root. split; [done|]. rewrite Hpath. destruct Hint as (bytes & ? & Hf & _). by exists bytes.
      * apply found_at_spec; [done|]. exists (dl_fingerprint loc). split_and!; try done.
        rewrite <-Hlen. by destruct loc.
Qed.

(** *** Reading only the heads *)
Context `{!PostcardLaws DiskBlockHeader header_ok 38}.

Lemma take_from_head m bytes h payload :
  take_from_bytes bytes = inl (h, payload) -> 38 <= m ->
  exists n, length bytes = n + length payload /\ n <= 38 /\
    take_from_bytes (take m bytes) = inl (h, take (m - n) payload).
Proof using PostcardLaws0.
  intros Ht Hm. destruct (decode_prefix_of _ _ _ Ht) as (pre & -> & Hlen & Hpre).
  exists (length pre). rewrite length_app. split_and!; [done|done|]. rewrite take_app_ge by lia. apply Hpre.
Qed.

Lemma take_from_head_err m bytes e :
  take_from_bytes bytes = inr e -> exists e', take_from_bytes (take m bytes) = inr e'.
Proof using PostcardLaws0.
  intros Ht. destruct (take_from_bytes (take m bytes)) as [[h rest]|e'] eqn:Hh; [|by exists e'].
  destruct (decode_prefix_of _ _ _ Hh) as (pre & Heq & _ & Hpre). exfalso.
  rewrite <-(take_drop m bytes), Heq, <-app_assoc, Hpre in Ht. done.
Qed.

Definition cut (n : N) (x : option (DiskBlockLocation * list byte)) : option (DiskBlockLocation * list byte) :=
  prod_map id (take (N.to_nat n)) <$> x.

(** The decoder of the head alone accepts what the whole decoder accepts. *)
Lemma scan_prefix_file n bytes fp canonical :
  (N.of_nat (length bytes) <= u64_max)%N -> (n <= u64_max)%N ->
  match decode_prefix (take (N.to_nat (u64_saturating_add n BLOCK_HEADER_READ_SLOP)) bytes) with
  | inr _ => inl None
  | inl (header, payload_prefix) =>
      if bool_decide (dh_fingerprint header <> fp) then inl None
      else
        match u64_checked_add (N.of_nat (length (take (N.to_nat (u64_saturating_add n BLOCK_HEADER_READ_SLOP)) bytes)
                                         - length payload_prefix)) (dh_payload_len header) with
        | None => inl None
        | Some expected =>
            if bool_decide (N.of_nat (length bytes) <> expected) then inl None
            else inl (Some (mkDiskBlockLocation canonical (dh_payload_len header) fp,
                   take (N.to_nat (N.min (N.min (N.of_nat (length payload_prefix)) n) (dh_payload_len header)))
                        payload_prefix))
        end
  end
  = (inl (cut n (match decode bytes with
                 | inr _ => None
                 | inl (header, payload) =>
                     if bool_decide (dh_fingerprint header <> fp) then None
                     else Some (mkDiskBlockLocation canonical (dh_payload_len header) fp, payload)
                 end)) : option (DiskBlockLocation * list byte) + Error).
Proof using PostcardLaws0.
  intros Hbytes Hn. set (m := N.to_nat (u64_saturating_add n BLOCK_HEADER_READ_SLOP)).
  assert (38 <= m /\ (m >= N.to_nat n + 38 \/ m >= length bytes)) as [Hm Hm'].
  { unfold m, u64_saturating_add, BLOCK_HEADER_READ_SLOP. unfold u64_max in *. lia. }
  unfold decode, decode_prefix. destruct (take_from_bytes bytes) as [[h payload]|e] eqn:Ht.
  2: { by destruct (take_from_head_err m _ _ Ht) as [e' ->]. }
  destruct (take_from_head m _ _ _ Ht Hm) as (k & Hk & Hk38 & ->).
  do 2 (case_bool_decide; [done|]).
  assert (length (take m bytes) - length (take (m - k) payload) = k) as Hhead.
  { rewrite !length_take, Hk. lia. }
  rewrite Hhead. unfold u64_checked_add.
  destruct (decide (dh_fingerprint h = fp)) as [Hfp|Hfp].
  2: { rewrite (bool_decide_eq_true_2 (dh_fingerprint h <> fp)) by done.
    case_bool_decide; [done|]. by rewrite bool_decide_eq_true_2. }
  rewrite (bool_decide_eq_false_2 (dh_fingerprint h <> fp)) by (by intros []).
  destruct (decide (N.of_nat (length payload) = dh_payload_len h)) as [Hl|Hl].
  - rewrite (bool_decide_eq_false_2 (N.of_nat (length payload) <> dh_payload_len h)) by (by intros []).
    rewrite (bool_decide_eq_false_2 (dh_fingerprint h <> fp)) by (by intros []).
    destruct (N.ltb_spec u64_max (N.of_nat k + dh_payload_len h)) as [Hlt|Hge]; [lia|].
    rewrite bool_decide_eq_false_2 by (intros Hc; apply Hc; lia). cbn.
    match goal with |- inl (Some (_, ?a)) = inl (Some (_, ?b)) => assert (a = b) as ->; [|done] end.
    rewrite take_take, length_take. destruct (decide (length payload <= N.to_nat n)).
    + rewrite !take_ge by lia. done.
    + f_equal. lia.
  - rewrite (bool_decide_eq_true_2 (N.of_nat (length payload) <> dh_payload_len h)) by done.
    destruct (N.ltb_spec u64_max (N.of_nat k + dh_payload_len h)); [done|].
    rewrite bool_decide_eq_true_2; [done|lia].
Qed.

Lemma scan_prefix_entry_cut n r p s :
  map_Forall (fun _ bytes => (N.of_nat (length bytes) <= u64_max)%N) (files s) -> (n <= u64_max)%N ->
  parent p = Some r -> scan_prefix_entry n r p s = inl (cut n (found_at r s p)).
Proof using PostcardLaws0.
  intros Hsize Hn Hp. unfold scan_prefix_entry, found_at, scan_entry.
  destruct (file_name p ≫= block_fingerprint_from_filename) as [fp|] eqn:Hname; [|done].
  destruct (named_file_canonical _ _ _ Hp Hname) as [-> _]. unfold same_existing_path.
  rewrite bool_decide_eq_true_2 by done. cbn [negb]. unfold read_file_prefix. rewrite block_path_agree.
  destruct (files s !! block_path_for fp r) as [bytes|] eqn:Hf; [|done]. cbn [fmap option_fmap option_map].
  rewrite scan_prefix_file; [|by apply (Hsize _ _ Hf)|done].
  destruct (decode bytes) as [[h payload]|]; [|done]. by case_bool_decide.
Qed.

(** Reading only the heads of the files changes nothing but the length
    of what is visited. On files whose lengths fit in 64 bits, a scan with
    a limit does what the full scan does with each payload cut to the limit,
    whatever the visitor, its errors included. *)
Theorem disk_prefix_scan_agrees {B} n (visit : DiskBlockLocation -> list byte -> B -> B + Error) b w :
  map_Forall (fun _ bytes => (N.of_nat (length bytes) <= u64_max)%N) (files (filesystem w)) -> (n <= u64_max)%N ->
  visit_block_payload_prefixes n visit b w
  = visit_blocks (fun loc payload => visit loc (take (N.to_nat n) payload)) b w.
Proof using PostcardLaws0.
  intros Hsize Hn. unfold visit_block_payload_prefixes, visit_blocks, visit_dir. rewrite !run_gets. unfold id.
  case_bool_decide; [done|]. unfold of_sum. do 2 f_equal.
  assert (Forall (fun p => parent p = Some (store_root w)) (dir_entries (store_root w) (filesystem w))) as Hall.
  { apply Forall_forall. intros p Hp. apply entry_of_root in Hp. exact (proj1 Hp). }
  revert b. induction Hall as [|p entries Hp _ IH]; intros b; [done|]. cbn.
  rewrite scan_prefix_entry_cut by done. rewrite scan_entry_root by done.
  destruct (found_at _ _ p) as [[loc payload]|]; cbn; [|apply IH]. by destruct (visit _ _ b).
Qed.

End scan.

(** A root with a block, a foreign file and a staging file. *)
Definition sample_root : DiskWorld := mkDiskWorld (DiskStore_new [RootDir; Normal "kv"])
  (mkFileSystem (list_to_map
    [(block_path_for sample_fp [RootDir; Normal "kv"], header_bytes (DiskBlockHeader_new sample_fp 1 3) ++ [10; 20; 30]%N);
     ([RootDir; Normal "kv"; Normal "notes.txt"], [1]%N);
     ([RootDir; Normal "kv"; Normal (staging_name sample_fp)], [2]%N)])
   {[ [RootDir; Normal "kv"] ]}).

Lemma disk_scan_spec_witness :
  exists found, visit_blocks collect [] sample_root = Done (sample_root, inl found) /\ NoDup found.*1 /\
    forall loc payload, (loc, payload) ∈ found <->
      fingerprint_ok (dl_fingerprint loc) /\ dl_payload_len loc = N.of_nat (length payload) /\
      get_outcome loc None sample_root = inl payload.
Proof. apply disk_scan_spec. vm_compute. reflexivity. Defined.

(** The scan finds the one block. *)
Example sample_scan :
  visit_blocks collect [] sample_root = Done (sample_root, inl [(sample_loc, [10; 20; 30]%N)]).
Proof. vm_compute. reflexivity. Qed.

Lemma disk_prefix_scan_agrees_witness :
  visit_block_payload_prefixes 2 collect [] sample_root
  = visit_blocks (fun loc payload => collect loc (take (N.to_nat 2) payload)) [] sample_root.
Proof. apply disk_prefix_scan_agrees; [|done]. intros p bytes Hp%elem_of_list_to_map_2.
  by repeat (apply elem_of_cons in Hp as [[= -> ->]|Hp]; [done|]); apply not_elem_of_nil in Hp.
Defined.
