(* ===== verification/SharedFs.v ===== *)
(** * The cluster-shared backend

    Models [infer/src/kv_tier/transport/shared_fs.rs], a disk store whose
    blocks are handed out under remote descriptors, and the enum
    [ClusterSharedBackend] of [kv_tier/backend.rs] in the build without the
    NIXL features, where the shared file system is its only variant. *)

From S2P Require Import Prelude Lists Bytes Tier FileSystem NativeFiles KvIo DiskStore DiskWire DiskStoreProps.

Abbreviation disk := (eff DiskWorld Error).

(** ** Locations and their descriptors *)
Record SharedFsDescriptor := mkSharedFsDescriptor { sd_fingerprint : BlockFingerprint; sd_payload_len : N }.

Record SharedFsBlockLocation := mkSharedFsBlockLocation { sl_fingerprint : BlockFingerprint; sl_payload_len : N }.

Section shared_fs.
Context `{Postcard DiskBlockHeader, Postcard SharedFsDescriptor}.

Definition into_remote_desc (l : SharedFsBlockLocation) : RemoteBlockDesc + TransportError :=
  match to_allocvec (mkSharedFsDescriptor (sl_fingerprint l) (sl_payload_len l)) with
  | inl payload => inl (mkRemoteBlockDesc SharedFilesystem payload)
  | inr err => inr (Other ("shared-fs descriptor encode failed: " +:+ err))
  end.

Definition into_block_location (l : SharedFsBlockLocation) : BlockLocation + TransportError :=
  match into_remote_desc l with
  | inl desc => inl (LocRemote desc)
  | inr e => inr e
  end.

(** [postcard::from_bytes] drops what it does not take. *)
Definition from_remote_desc (desc : RemoteBlockDesc) : SharedFsBlockLocation + TransportError :=
  if bool_decide (transport desc <> SharedFilesystem)
  then inr (Other "shared-fs descriptor requires SharedFilesystem")
  else match take_from_bytes (payload desc) with
  | inr err => inr (Other ("shared-fs descriptor decode failed: " +:+ err))
  | inl (descriptor, _) =>
      inl (mkSharedFsBlockLocation (sd_fingerprint descriptor) (sd_payload_len descriptor))
  end.

Definition from_block_location (l : BlockLocation) : SharedFsBlockLocation + TransportError :=
  match l with
  | LocRemote desc => from_remote_desc desc
  | _ => inr (Other "shared-fs backend requires a remote block location")
  end.

(** ** The store *)
Definition shared_put_block (fingerprint : BlockFingerprint) (kv_format_tag : N) (payload : list byte)
    : disk SharedFsBlockLocation :=
  location ← put_block fingerprint kv_format_tag payload;
  mret (mkSharedFsBlockLocation (dl_fingerprint location) (dl_payload_len location)).

Definition disk_location (l : SharedFsBlockLocation) (root : Path) : DiskBlockLocation :=
  mkDiskBlockLocation (block_path_for (sl_fingerprint l) root) (sl_payload_len l) (sl_fingerprint l).

Definition shared_get_block (l : SharedFsBlockLocation) (expected : option BlockFingerprint) : disk (list byte) :=
  r ← gets store_root; get_block (disk_location l r) expected.

Definition shared_delete_block (l : SharedFsBlockLocation) : disk unit :=
  r ← gets store_root; delete_block (disk_location l r).

(** ** The backend *)
Definition shared_store (req : KVBackendStore) : eff DiskWorld TransportError BackendOp :=
  match kb_fingerprint (bs_block req) with
  | None => throw (Other "shared-fs backend store requires a block fingerprint")
  | Some fingerprint =>
      location ← map_err transfer_error (shared_put_block fingerprint (bs_kv_format_tag req) (kp_bytes (bs_payload req)));
      l ← of_sum (into_block_location location);
      mret (Ready (inl (Stored (KVHandle_with_location (bs_handle req) l))))
  end.

Definition shared_fetch (req : KVBackendFetch) : eff DiskWorld TransportError BackendOp :=
  location ← of_sum (from_block_location (kh_location (bf_handle req)));
  bytes ← map_err transfer_error (shared_get_block location (Some (sl_fingerprint location)));
  mret (Ready (inl (Loaded (bf_handle req)
    (KVPayload_with_reference bytes
       (KVPayloadRef_whole (kh_location (bf_handle req)) (N.of_nat (length bytes))))))).

Definition shared_delete (req : KVBackendDelete) : eff DiskWorld TransportError BackendOp :=
  location ← of_sum (from_block_location (kh_location (bd_handle req)));
  map_err transfer_error (shared_delete_block location) ;;
  mret (Ready (inl (Deleted (bd_handle req)))).

Definition shared_exists (h : KVHandle) : eff DiskWorld TransportError bool :=
  location ← of_sum (from_block_location (kh_location h));
  map_err transfer_error (contains_block (sl_fingerprint location)).

#[export] Instance SharedFs_backend : KVBackend DiskWorld := {
  backend_id := "shared-fs";
  scope := ClusterShared;
  backend_tier := Remote;
  backend_store := shared_store;
  backend_fetch := shared_fetch;
  backend_delete := shared_delete;
  backend_exists := shared_exists;
  backend_poll := poll "shared-fs";
}.
End shared_fs.

(** ** [ClusterSharedBackend]

    What the coordinator asks of the backend it is given: a [KVBackend] that
    can name a block before it is stored. *)
Class ClusterSharedBackend (R : Type) := {
  #[global] cluster_backend :: KVBackend R;
  remote_location_for : BlockFingerprint -> N -> BlockLocation + TransportError;
}.

#[export] Instance SharedFs_cluster `{Postcard DiskBlockHeader, Postcard SharedFsDescriptor} :
    ClusterSharedBackend DiskWorld := {
  cluster_backend := SharedFs_backend;
  remote_location_for fingerprint payload_len :=
    into_block_location (mkSharedFsBlockLocation fingerprint payload_len);
}.

(** ** The cluster-shared backend: properties

    A block stored under a remote descriptor is found, fetched and deleted by
    the handle the store returns, which is the one predicted before. *)

(** The descriptor's fields at their widths. *)
Definition descriptor_ok (d : SharedFsDescriptor) : Prop :=
  length (sd_fingerprint d) = 16 /\ (sd_payload_len d <= u64_max)%N.

(** ** The wire format of a descriptor *)
Definition parse_descriptor : parser SharedFsDescriptor :=
  and_then (bytes_of 16) (fun fingerprint =>
  and_then (parse_varint 10) (fun payload_len => ret (mkSharedFsDescriptor fingerprint payload_len))).

#[export] Instance postcard_descriptor : Postcard SharedFsDescriptor := {
  to_allocvec d := inl (sd_fingerprint d ++ varint 10 (sd_payload_len d));
  take_from_bytes bytes :=
    match parse_descriptor bytes with Some r => inl r | None => inr "Hit the end of buffer, expected more data"%string end;
}.

#[export] Instance postcard_descriptor_laws : PostcardLaws SharedFsDescriptor descriptor_ok 26.
Proof.
  split.
  - intros [fp len] [Hfp Hlen]. cbn in Hfp, Hlen. exists (fp ++ varint 10 len). split; [done|]. intros rest.
    cbn [take_from_bytes postcard_descriptor]. unfold parse_descriptor, and_then. rewrite <-app_assoc, bytes_of_app by done.
    cbn [mbind option_bind]. rewrite (parse_varint_app 9); [done|]. unfold u64_max in Hlen. cbn. lia.
  - intros bytes d rest. cbn. destruct (parse_descriptor bytes) as [[d' rest']|] eqn:E; [|done]. intros [= -> ->].
    assert (local 26 parse_descriptor) as Hlocal.
    { apply (local_and_then 16 10); [apply local_bytes_of|intros fp].
      apply (local_and_then 10 0); [apply local_varint|intros n]. apply local_ret. }
    destruct (Hlocal _ _ _ E) as (pre & -> & Hlen & Hpre). exists pre. split_and!; [done|done|].
    intros rest'. by rewrite Hpre.
Qed.

Section shared.
Context `{PostcardLaws DiskBlockHeader header_ok 38, !Postcard SharedFsDescriptor}.
Context `{!PostcardLaws SharedFsDescriptor descriptor_ok 26}.

(** A location survives its descriptor. *)
Lemma desc_roundtrip l :
  length (sl_fingerprint l) = 16 -> (sl_payload_len l <= u64_max)%N ->
  exists loc, into_block_location l = inl loc /\ from_block_location loc = inl l.
Proof.
  intros Hfp Hlen. destruct (decode_encode (mkSharedFsDescriptor (sl_fingerprint l) (sl_payload_len l)))
    as (bytes & Henc & Hdec); [done|].
  unfold into_block_location, into_remote_desc. rewrite Henc. eexists. split; [reflexivity|].
  cbn. unfold from_remote_desc. cbn. rewrite <-(app_nil_r bytes), Hdec. by destruct l.
Qed.

(** The shared backend keeps its contract. Storing a block answers with a
    handle at the location [remote_location_for] predicts; by that handle the
    block exists, a fetch loads the bytes that were stored, a delete succeeds,
    and after it the block does not exist and a fetch fails. *)
Theorem shared_store_contract req fp w :
  let payload := kp_bytes (bs_payload req) in
  kb_fingerprint (bs_block req) = Some fp -> fingerprint_ok fp -> is_byte (bs_kv_format_tag req) ->
  (N.of_nat (length payload) <= u64_max)%N -> slot_free fp w ->
  exists w1 h loc, shared_store req w = Done (w1, inl (Ready (inl (Stored h)))) /\
    remote_location_for (R := DiskWorld) fp (N.of_nat (length payload)) = inl loc /\
    h = KVHandle_with_location (bs_handle req) loc /\
    shared_exists h w1 = Done (w1, inl true) /\
    (exists p, shared_fetch (mkKVBackendFetch h) w1 = Done (w1, inl (Ready (inl (Loaded h p)))) /\ kp_bytes p = payload) /\
    exists w2, shared_delete (mkKVBackendDelete h) w1 = Done (w2, inl (Ready (inl (Deleted h)))) /\
      shared_exists h w2 = Done (w2, inl false) /\
      shared_fetch (mkKVBackendFetch h) w2 = Done (w2, inr (transfer_error not_found)).
Proof.
  intros payload Hfpr Hfp Htag Hlen Hslot.
  destruct (put_ok true fp _ payload w Hfp Htag Hlen Hslot) as (w1 & bytes & Hput & Hholds & Hroot & Hfiles & Hdir & Hnodir).
  set (l := mkSharedFsBlockLocation fp (N.of_nat (length payload))).
  destruct (desc_roundtrip l) as (loc & Hloc & Hback); [apply Hfp|done|].
  set (h := KVHandle_with_location (bs_handle req) loc).
  assert (shared_store req w = Done (w1, inl (Ready (inl (Stored h))))) as Hstore.
  { unfold shared_store. rewrite Hfpr.
    assert (shared_put_block fp (bs_kv_format_tag req) payload w = Done (w1, inl l)) as Hs.
    { unfold shared_put_block, put_block. run Hput. done. }
    run (map_err_ok transfer_error _ _ _ _ Hs). rewrite Hloc. done. }
  assert (forall w' {A} (k : SharedFsBlockLocation -> eff DiskWorld TransportError A),
    (of_sum (from_block_location (kh_location h)) ≫= k) w' = k l w') as Hfrom by (intros; cbn; by rewrite Hback).
  set (path := block_path_for fp (store_root w1)).
  assert (disk_location l (store_root w1) = mkDiskBlockLocation path (N.of_nat (length payload)) fp) as Hdl by done.
  assert (files (filesystem w1) !! path = Some bytes) as Hfile by (unfold path; rewrite Hroot, Hfiles; apply lookup_insert_eq).
  assert (get_block (mkDiskBlockLocation path (N.of_nat (length payload)) fp) (Some fp) w1 = Done (w1, inl payload)) as Hget.
  { apply (get_ok fp (bs_kv_format_tag req) payload bytes); [done..|by right]. }
  exists w1, h, loc. split; [done|]. split; [exact Hloc|]. split; [done|]. split; [|split].
  - unfold shared_exists. rewrite Hfrom. apply map_err_ok. unfold contains_block, gets. cbn [sl_fingerprint l].
    unfold fs_exists. fold path. by rewrite Hfile.
  - eexists. split.
    + unfold shared_fetch. cbn [bf_handle]. rewrite Hfrom.
      assert (shared_get_block l (Some (sl_fingerprint l)) w1 = Done (w1, inl payload)) as Hg.
      { unfold shared_get_block. rewrite run_gets. by rewrite Hdl. }
      run (map_err_ok transfer_error _ _ _ _ Hg). reflexivity.
    + done.
  - set (w2 := set_filesystem (set_files (delete path (files (filesystem w1))) (filesystem w1)) w1).
    assert (dir_exists path (filesystem w2) = false) as Hnodir2 by (unfold path; rewrite Hroot; exact Hnodir).
    assert (files (filesystem w2) !! path = None) as Hgone by apply lookup_delete_eq.
    exists w2. split; [|split].
    + unfold shared_delete. cbn [bd_handle]. rewrite Hfrom.
      assert (shared_delete_block l w1 = Done (w2, inl tt)) as Hd.
      { unfold shared_delete_block. rewrite run_gets, Hdl. unfold delete_block. rewrite run_gets.
        cbn [dl_path dl_fingerprint]. rewrite bool_decide_eq_false_2 by (intros Hc; by apply Hc).
        apply on_fs_ok, remove_cases. exact Hnodir2. }
      run (map_err_ok transfer_error _ _ _ _ Hd). reflexivity.
    + unfold shared_exists. rewrite Hfrom. apply map_err_ok. unfold contains_block, gets. cbn [sl_fingerprint l].
      unfold fs_exists. change (block_path_for fp (store_root w2)) with path. by rewrite Hgone, Hnodir2.
    + unfold shared_fetch. cbn [bf_handle]. rewrite Hfrom.
      assert (shared_get_block l (Some (sl_fingerprint l)) w2 = Done (w2, inr not_found)) as Hg.
      { unfold shared_get_block. rewrite run_gets. unfold get_block. cbn [sl_fingerprint l disk_location dl_fingerprint dl_path].
        rewrite bool_decide_eq_false_2 by (intros Hc; by apply Hc). rewrite run_gets.
        rewrite bool_decide_eq_false_2 by (intros Hc; by apply Hc).
        apply run_bind_err. apply on_fs_cases. rewrite read_block_cases.
        change (block_path_for fp (store_root w2)) with path. by rewrite Hgone, Hnodir2. }
      apply run_bind_err. unfold map_err. by rewrite Hg.
Qed.
End shared.

Lemma shared_store_contract_witness :
  let block := KVBlock_with_fingerprint (KVBlock_new 3 (mkLayerRange 0 0) (mkTokenRange 0 0) 3) sample_fp in
  let req := mkKVBackendStore (mkKVHandle None 3 (LocGpu 0) 0 3) block 1 (KVPayload_from_vec [10; 20; 30]%N) in
  exists w1 h, shared_store req sample_world = Done (w1, inl (Ready (inl (Stored h)))) /\
    shared_exists h w1 = Done (w1, inl true).
Proof.
  cbn zeta. match goal with |- context [shared_store ?r] =>
    destruct (shared_store_contract r sample_fp sample_world eq_refl sample_fp_ok) as (w1 & h & loc & Hs & _ & _ & He & _) end.
  - reflexivity.
  - vm_compute. discriminate.
  - apply sample_slot.
  - exists w1, h. split; [exact Hs|exact He].
Defined.
