(* ===== verification/DiskFrame.v ===== *)
(** * The stores: no panics, and what a put touches

    Every operation of the disk store and of the shared file system returns a
    value or an error, from every state: what the coordinator needs of its
    backends, as the class [BackendTotal]. *)

From S2P Require Import Prelude Lists Bytes Tier FileSystem NativeFiles KvIo DiskStore DiskWire DiskStoreProps SharedFs.

Lemma total_catch {S E A} (m : eff S E A) h : total m -> (forall e, total (h e)) -> total (catch m h).
Proof.
  intros Hm Hh s. unfold catch. destruct (Hm s) as (s' & [a|e] & ->); [by do 2 eexists|apply Hh].
Qed.

Lemma total_zoom {S T E A} (get : S -> T) (set : T -> S -> S) (m : eff T E A) : total m -> total (zoom get set m).
Proof. intros Hm s. unfold zoom. destruct (Hm (get s)) as (t & r & ->). by do 2 eexists. Qed.

Lemma total_map_err {S E F A} (f : E -> F) (m : eff S E A) : total m -> total (map_err f m).
Proof. intros Hm s. unfold map_err. destruct (Hm s) as (s' & r & ->). by do 2 eexists. Qed.

#[export] Hint Resolve total_catch total_zoom total_map_err : total.

(** Go through a method: its primitives, its calls and its branches. *)
Ltac total_step :=
  match goal with
  | |- forall _, _ => intros
  | |- total (match ?x with _ => _ end) => destruct x
  | |- total (mbind _ _) => apply total_bind
  | |- total (mret _) => apply total_ret
  | |- total (throw _) => apply total_throw
  | |- total (gets _) => apply total_gets
  | |- total (modify _) => apply total_modify
  | |- total (of_sum _) => apply total_of_sum
  | |- total (catch _ _) => apply total_catch
  | |- total (zoom _ _ _) => apply total_zoom
  | |- total (map_err _ _) => apply total_map_err
  | |- total _ => solve [eauto with total nocore]
  end.
Ltac total_tac := repeat total_step.

(** ** Files *)
Lemma total_open_for_write p : total (open_for_write p).
Proof. unfold open_for_write. total_tac. Qed.
#[export] Hint Resolve total_open_for_write : total.

Lemma total_fs_write p b : total (fs_write p b).
Proof. unfold fs_write. total_tac. Qed.
Lemma total_fs_rename p q : total (fs_rename p q).
Proof. unfold fs_rename. total_tac. Qed.
Lemma total_fs_remove p : total (fs_remove p).
Proof. unfold fs_remove. total_tac. Qed.
Lemma total_fs_read p : total (fs_read p).
Proof. unfold fs_read. total_tac. Qed.
Lemma total_create_dir_all p : total (create_dir_all p).
Proof. unfold create_dir_all. total_tac. Qed.
#[export] Hint Resolve total_fs_write total_fs_rename total_fs_remove total_fs_read total_create_dir_all : total.

Lemma total_write_file_atomic p b : total (write_file_atomic p b).
Proof. unfold write_file_atomic, stage_and_rename, open_directory. total_tac. Qed.
Lemma total_read_file p : total (read_file p).
Proof. unfold read_file. total_tac. Qed.
Lemma total_remove_file p i : total (remove_file p i).
Proof. unfold remove_file. total_tac. Qed.
#[export] Hint Resolve total_write_file_atomic total_read_file total_remove_file : total.

(** ** The disk store *)
Section disk.
Context `{Postcard DiskBlockHeader}.

Lemma total_create_root : total create_root.
Proof. unfold create_root, on_fs. total_tac. Qed.
#[local] Hint Resolve total_create_root : total.

Lemma total_do_write b fp bytes : total (do_write b fp bytes).
Proof. unfold do_write, on_fs, write_block_atomic. total_tac. Qed.
#[local] Hint Resolve total_do_write : total.

Lemma total_put_block_with_fsync fp tag payload b : total (put_block_with_fsync fp tag payload b).
Proof. unfold put_block_with_fsync, ensure_root_created. total_tac. Qed.

Lemma total_get_block loc exp : total (get_block loc exp).
Proof. unfold get_block, on_fs, read_block_owned, read_block. total_tac. Qed.

Lemma total_delete_block loc : total (delete_block loc).
Proof. unfold delete_block, on_fs, remove_block. total_tac. Qed.

Lemma total_contains_block fp : total (contains_block fp).
Proof. unfold contains_block. total_tac. Qed.
End disk.
#[export] Hint Resolve total_put_block_with_fsync total_get_block total_delete_block total_contains_block : total.

(** ** The interface *)
Class BackendTotal (R : Type) `{KVBackend R} : Prop := {
  store_total req : total (backend_store req);
  fetch_total req : total (backend_fetch req);
  delete_total req : total (backend_delete req);
  exists_total h : total (backend_exists h);
}.

#[export] Instance DiskStore_total `{Postcard DiskBlockHeader} : @BackendTotal DiskWorld DiskStore_backend.
Proof.
  split; intros; cbn [DiskStore_backend backend_store backend_fetch backend_delete backend_exists];
    unfold disk_store, disk_fetch, disk_delete, disk_exists, put_block; total_tac.
Qed.

#[export] Instance SharedFs_total `{Postcard DiskBlockHeader, Postcard SharedFsDescriptor} :
  @BackendTotal DiskWorld SharedFs_backend.
Proof.
  split; intros; cbn [SharedFs_backend backend_store backend_fetch backend_delete backend_exists];
    unfold shared_store, shared_fetch, shared_delete, shared_exists, shared_put_block, shared_get_block,
      shared_delete_block, put_block; total_tac.
Qed.

(** ** What a put touches, and what its success means

    A put of a block changes no file but the block's and its staging file,
    whatever happens on the way; when it succeeds the file holds the block. *)

(** ** Relations kept by every run *)
Definition respects {S E A} (Q : S -> S -> Prop) (m : eff S E A) : Prop :=
  forall s s' r, m s = Done (s', r) -> Q s s'.

Section respects.
Context {S E : Type} (Q : S -> S -> Prop) `{!Reflexive Q, !Transitive Q}.

Lemma respects_ret {A} (a : A) : respects Q (mret a : eff S E A).
Proof. by intros s s' r [= <- _]. Qed.
Lemma respects_throw {A} (e : E) : respects Q (throw e : eff S E A).
Proof. by intros s s' r [= <- _]. Qed.
Lemma respects_gets {A} (f : S -> A) : respects Q (gets f : eff S E A).
Proof. by intros s s' r [= <- _]. Qed.
Lemma respects_modify (f : S -> S) : (forall s, Q s (f s)) -> respects Q (modify f : eff S E unit).
Proof. by intros Hf s s' r [= <- _]. Qed.
Lemma respects_bind {A B} (m : eff S E A) (k : A -> eff S E B) :
  respects Q m -> (forall a, respects Q (k a)) -> respects Q (m ≫= k).
Proof.
  intros Hm Hk s s' r Hrun. apply run_bind_inv in Hrun as [(s1 & a & H1 & H2)|(e & H1 & ->)].
  - transitivity s1; [by eapply Hm|by eapply Hk].
  - by eapply Hm.
Qed.
Lemma respects_catch {A} (m : eff S E A) h :
  respects Q m -> (forall e, respects Q (h e)) -> respects Q (catch m h).
Proof.
  intros Hm Hh s s' r. unfold catch. destruct (m s) as [[s1 [a|e]]| |] eqn:E1; [| |done|done].
  - intros [= <- _]. by eapply Hm.
  - intros Hrun. transitivity s1; [by eapply Hm|by eapply Hh].
Qed.
End respects.

Ltac respects_step :=
  match goal with
  | |- forall _, _ => intros
  | |- respects _ (match ?x with _ => _ end) => destruct x
  | |- respects _ (mbind _ _) => apply respects_bind; [apply _|..]
  | |- respects _ (mret _) => apply respects_ret, _
  | |- respects _ (throw _) => apply respects_throw, _
  | |- respects _ (gets _) => apply respects_gets, _
  | |- respects _ (catch _ _) => apply respects_catch; [apply _|..]
  | |- respects _ _ => solve [eauto with respects nocore]
  end.
Create HintDb respects discriminated.

(** ** Files *)

(** No file outside [paths] is different. *)
Definition only (paths : list Path) (s s' : FileSystem) : Prop :=
  forall p, p ∉ paths -> files s' !! p = files s !! p.

#[export] Instance only_reflexive paths : Reflexive (only paths).
Proof. by intros s p. Qed.
#[export] Instance only_transitive paths : Transitive (only paths).
Proof. intros s1 s2 s3 H1 H2 p Hp. rewrite H2, H1 by done. done. Qed.

Section only.
Context (paths : list Path).

Lemma only_open p : respects (only paths) (open_for_write p).
Proof. unfold open_for_write. repeat respects_step. Qed.
#[local] Hint Resolve only_open : respects.

Lemma only_write p bytes : p ∈ paths -> respects (only paths) (fs_write p bytes).
Proof.
  intros Hp. unfold fs_write. repeat respects_step. apply respects_modify. intros s q Hq. cbn.
  by rewrite lookup_insert_ne by (by intros ->).
Qed.

Lemma only_rename p q : p ∈ paths -> q ∈ paths -> respects (only paths) (fs_rename p q).
Proof.
  intros Hp Hq. unfold fs_rename. repeat respects_step. apply respects_modify. intros s x Hx. cbn.
  by rewrite lookup_insert_ne, lookup_delete_ne by (by intros ->).
Qed.

Lemma only_remove p : p ∈ paths -> respects (only paths) (fs_remove p).
Proof.
  intros Hp. unfold fs_remove. repeat respects_step. apply respects_modify. intros s x Hx. cbn.
  by rewrite lookup_delete_ne by (by intros ->).
Qed.

Lemma only_create_dir_all p : respects (only paths) (create_dir_all p).
Proof. unfold create_dir_all. repeat respects_step. apply respects_modify. by intros s q. Qed.
End only.
#[export] Hint Resolve only_open only_write only_rename only_remove only_create_dir_all : respects.

(** ** Puts *)
Definition touched (fp : BlockFingerprint) (r : Path) : list Path :=
  [block_path_for fp r; r ++ [Normal (staging_name fp)]].

(** From the root [r0], the root and the other files stay. *)
Definition put_frame (fp : BlockFingerprint) (r0 : Path) (w w' : DiskWorld) : Prop :=
  store_root w = r0 -> store_root w' = r0 /\ only (touched fp r0) (filesystem w) (filesystem w').

#[export] Instance put_frame_reflexive fp r0 : Reflexive (put_frame fp r0).
Proof. by intros w. Qed.
#[export] Instance put_frame_transitive fp r0 : Transitive (put_frame fp r0).
Proof.
  intros w1 w2 w3 H1 H2 Hr. destruct (H1 Hr) as [Hr1 Ho1]. destruct (H2 Hr1) as [Hr2 Ho2].
  split; [done|]. by transitivity (filesystem w2).
Qed.

Lemma respects_on_fs {A} fp r0 (m : fs A) :
  respects (only (touched fp r0)) m -> respects (put_frame fp r0) (on_fs m).
Proof.
  intros Hm w w' r. unfold on_fs, zoom. destruct (m (filesystem w)) as [[s' r']| |] eqn:E; [|done|done].
  intros [= <- _] Hr. split; [done|]. by apply (Hm _ _ _ E).
Qed.

Lemma respects_root {A} fp r0 (k : Path -> eff DiskWorld Error A) :
  respects (put_frame fp r0) (k r0) -> respects (put_frame fp r0) (gets store_root ≫= k).
Proof. intros Hk w w' r Hrun Hr. rewrite run_gets, Hr in Hrun. by apply (Hk _ _ _ Hrun). Qed.

Section put.
Context `{Postcard DiskBlockHeader}.
Context (fp : BlockFingerprint) (r0 : Path) (Hfp : fingerprint_ok fp).

Lemma frame_create_root : respects (put_frame fp r0) create_root.
Proof.
  unfold create_root. apply respects_root. repeat respects_step.
  - apply respects_on_fs. repeat respects_step.
  - apply respects_modify. by intros w Hr.
Qed.

Lemma in_touched_block : block_path_for fp r0 ∈ touched fp r0.
Proof. left. Qed.
Lemma in_touched_stage : append_to_name (block_path_for fp r0) ".tmp" ∈ touched fp r0.
Proof. right. rewrite block_path_snoc, append_snoc. left. Qed.

#[local] Hint Resolve in_touched_block in_touched_stage : respects.

Lemma only_write_block bytes : respects (only (touched fp r0)) (write_block_atomic r0 fp bytes).
Proof using.
  unfold write_block_atomic, write_file_atomic, stage_and_rename, open_directory. rewrite block_path_agree.
  repeat respects_step.
Qed.
#[local] Hint Resolve only_write_block : respects.

Lemma frame_do_write b bytes : respects (put_frame fp r0) (do_write b fp bytes).
Proof using Hfp.
  unfold do_write. apply respects_root. rewrite staging_path by done.
  destruct b; apply respects_on_fs; repeat respects_step.
Qed.

Lemma frame_put tag payload b : respects (put_frame fp r0) (put_block_with_fsync fp tag payload b).
Proof using Hfp.
  pose proof frame_create_root. pose proof frame_do_write.
  unfold put_block_with_fsync, ensure_root_created. repeat (assumption || eauto || respects_step).
Qed.

(** *** Success *)
Lemma catch_inl {S E A} (m : eff S E A) h s s' a :
  catch m h s = Done (s', inl a) ->
  m s = Done (s', inl a) \/ exists s1 e, m s = Done (s1, inr e) /\ h e s1 = Done (s', inl a).
Proof. unfold catch. destruct (m s) as [[s1 [a1|e]]| |] eqn:E1; [|eauto 6|done|done]. intros [= <- <-]. by left. Qed.

Lemma bind_throw_not_inl {S E A B} (m : eff S E A) e s s' (b : B) :
  (m ≫= fun _ => throw e) s = Done (s', inl b) -> False.
Proof. intros [(s1 & a & _ & H1)|(e' & _ & H1)]%run_bind_inv; discriminate H1. Qed.

Lemma catch_cleanup_inl {S E A B} (m : eff S E A) (c : eff S E B) s s' a :
  catch m (fun e => c ;; throw e) s = Done (s', inl a) -> m s = Done (s', inl a).
Proof. intros [H1|(s1 & e & _ & H1)]%catch_inl; [done|]. by apply bind_throw_not_inl in H1. Qed.

Lemma modify_inl {S E} (f : S -> S) s s' a : (modify f : eff S E unit) s = Done (s', inl a) -> s' = f s.
Proof. by intros [= <- _]. Qed.

Lemma write_inl p bytes s s' : fs_write p bytes s = Done (s', inl tt) -> files s' !! p = Some bytes.
Proof.
  unfold fs_write. intros [(s1 & [] & _ & H1%modify_inl)|(e & _ & H1)]%run_bind_inv; [|discriminate H1].
  rewrite H1. cbn. apply lookup_insert_eq.
Qed.

Lemma rename_inl p q bytes s s' :
  files s !! p = Some bytes -> fs_rename p q s = Done (s', inl tt) -> files s' !! q = Some bytes.
Proof.
  intros Hp. unfold fs_rename. rewrite run_gets. unfold id. rewrite Hp.
  intros [(s1 & [] & _ & H1%modify_inl)|(e & _ & H1)]%run_bind_inv; [|discriminate H1].
  rewrite H1. cbn. apply lookup_insert_eq.
Qed.

Lemma open_directory_inl d s s' : open_directory d s = Done (s', inl tt) -> s' = s.
Proof. unfold open_directory. rewrite run_gets. case_match; [by intros [= ->]|done]. Qed.

Lemma staged_inl {A} p q bytes (k : fs A) s s' a :
  (fs_write p bytes ;; fs_rename p q ;; k) s = Done (s', inl a) ->
  exists s1, files s1 !! q = Some bytes /\ k s1 = Done (s', inl a).
Proof.
  intros [(s1 & [] & H1%write_inl & H2)|(e & _ & H1)]%run_bind_inv; [|discriminate H1].
  apply run_bind_inv in H2 as [(s2 & [] & H2 & H3)|(e & _ & H3)]; [|discriminate H3].
  exists s2. split; [|done]. by apply (rename_inl p q _ s1).
Qed.

Lemma do_write_inl b bytes w w' :
  do_write b fp bytes w = Done (w', inl tt) -> files (filesystem w') !! block_path_for fp (store_root w) = Some bytes.
Proof using.
  unfold do_write. rewrite run_gets.
  assert (forall m : fs unit, on_fs m w = Done (w', inl tt) -> m (filesystem w) = Done (filesystem w', inl tt)) as Hfs.
  { intros m. unfold on_fs, zoom. destruct (m (filesystem w)) as [[s1 r1]| |]; [|done|done]. by intros [= <- ->]. }
  destruct b; intros Hrun%Hfs.
  - unfold write_block_atomic, write_file_atomic in Hrun. rewrite block_path_agree in Hrun.
    rewrite bool_decide_eq_false_2 in Hrun by apply block_path_not_nil. apply catch_cleanup_inl in Hrun.
    unfold stage_and_rename in Hrun. apply staged_inl in Hrun as (s1 & Hs1 & ->%open_directory_inl). done.
  - apply catch_cleanup_inl in Hrun.
    apply run_bind_inv in Hrun as [(s1 & [] & H1%write_inl & H2)|(e & _ & H1)]; [|discriminate H1].
    exact (rename_inl _ _ _ _ _ H1 H2).
Qed.

(** A put that succeeds has written the block, and answers with its place. *)
Lemma put_inl tag payload b w w' loc :
  store_root w = r0 -> put_block_with_fsync fp tag payload b w = Done (w', inl loc) ->
  loc = mkDiskBlockLocation (block_path_for fp r0) (N.of_nat (length payload)) fp /\
  exists bytes, holds_block fp tag payload bytes /\ files (filesystem w') !! block_path_for fp r0 = Some bytes.
Proof using Hfp.
  intros Hr Hrun. unfold put_block_with_fsync in Hrun.
  apply run_bind_inv in Hrun as [(w1 & [] & H1 & Hrun)|(e & _ & H1)]; [|discriminate H1].
  assert (respects (put_frame fp r0) ensure_root_created) as Hens.
  { pose proof frame_create_root. unfold ensure_root_created. repeat (assumption || respects_step). }
  destruct (Hens _ _ _ H1 Hr) as [Hr1 _].
  apply run_bind_inv in Hrun as [(w2 & header & H2 & Hrun)|(e & _ & H2)]; [|discriminate H2].
  destruct (to_allocvec _) as [header'|err] eqn:Henc; [|discriminate H2]. injection H2 as <- <-.
  apply run_bind_inv in Hrun as [(w3 & [] & H3 & Hrun)|(e & _ & H3)]; [|discriminate H3].
  rewrite run_gets in Hrun. injection Hrun as <- <-.
  assert (store_root w3 = r0 /\ files (filesystem w3) !! block_path_for fp r0 = Some (header' ++ payload)) as [Hr3 Hf3].
  { apply catch_inl in H3 as [H3|(w4 & e & H3 & H4)].
    - split; [by apply (frame_do_write _ _ _ _ _ H3)|]. rewrite <-Hr1. by apply (do_write_inl b).
    - destruct (frame_do_write _ _ _ _ _ H3 Hr1) as [Hr4 _]. case_bool_decide; [|discriminate H4].
      apply run_bind_inv in H4 as [(w5 & [] & H4 & H5)|(e' & _ & H4)]; [|discriminate H4].
      destruct (frame_create_root _ _ _ H4 Hr4) as [Hr5 _].
      split; [by apply (frame_do_write _ _ _ _ _ H5)|]. rewrite <-Hr5. by apply (do_write_inl b). }
  rewrite Hr3. split; [done|]. exists (header' ++ payload). split; [by exists header'|done].
Qed.
End put.
