(* ===== verification/CoordinatorControl.v ===== *)
(** * Tickets, queues and their accounting

    Models [infer/src/kv_tier/coordinator/types.rs], [events.rs] and
    [control.rs]: tickets of the three queues, the commands and events on the
    coordinator's channels, and the counters and ticket sets shared by the
    clients and the worker. The counters are atomics: each method below is a
    sequence of atomic updates of independent variables, taken as one step. *)

From S2P Require Import Prelude Tier HostArena HostPool FileSystem KvIo.

(** ** Types *)
Inductive QueueKind := KPlan | KFetch | KStore.

(** [PlanTicket(u64)], [FetchTicket(u64)] and [StoreTicket(u64)]. *)
Inductive QueueTicket := TPlan (n : N) | TFetch (n : N) | TStore (n : N).

#[export] Instance QueueKind_eq_dec : EqDecision QueueKind.
Proof. solve_decision. Defined.
#[export] Instance QueueTicket_eq_dec : EqDecision QueueTicket.
Proof. solve_decision. Defined.
#[export] Instance QueueTicket_countable : Countable QueueTicket.
Proof.
  refine (inj_countable'
    (fun t => match t with TPlan n => inl n | TFetch n => inr (inl n) | TStore n => inr (inr n) end)
    (fun x => match x with inl n => TPlan n | inr (inl n) => TFetch n | inr (inr n) => TStore n end) _).
  by intros [].
Defined.

Definition ticket_kind (t : QueueTicket) : QueueKind :=
  match t with TPlan _ => KPlan | TFetch _ => KFetch | TStore _ => KStore end.

Inductive QueueBackpressure := Normal | Elevated | Saturated.

#[export] Instance QueueBackpressure_eq_dec : EqDecision QueueBackpressure.
Proof. solve_decision. Defined.

Inductive QueueOutcome := OutCompleted | OutFailed | OutCancelled.
Inductive FailureClass := ClassCancelled | ClassFailed.

#[export] Instance QueueOutcome_eq_dec : EqDecision QueueOutcome.
Proof. solve_decision. Defined.

Definition into_outcome (c : FailureClass) : QueueOutcome :=
  match c with ClassCancelled => OutCancelled | ClassFailed => OutFailed end.

Definition u64_saturating_mul (x y : N) : N := N.min (x * y) u64_max.

Definition pressure_from_load (active capacity : N) : QueueBackpressure :=
  if (capacity <=? active)%N then Saturated
  else if (u64_saturating_mul capacity 3 <=? u64_saturating_mul active 4)%N then Elevated
  else Normal.

Record QueueControlStats := mkQueueControlStats {
  qs_capacity : N;
  qs_queued : N;
  qs_in_flight : N;
  qs_submitted : N;
  qs_completed : N;
  qs_failed : N;
  qs_cancelled : N;
  qs_rejected : N;
}.

Definition qs_active (q : QueueControlStats) : N := u64_saturating_add (qs_queued q) (qs_in_flight q).

Definition soft_saturated (q : QueueControlStats) (threshold : f64) : bool :=
  if (qs_capacity q =? 0)%N then false
  else float_le threshold (SFdiv 53 1024 (f64_of_N (qs_active q)) (f64_of_N (qs_capacity q))).

Definition qs_backpressure (q : QueueControlStats) : QueueBackpressure :=
  pressure_from_load (qs_active q) (qs_capacity q).

Record CoordinatorQueueStats := mkCoordinatorQueueStats {
  cs_capacity : N;
  cs_total_queued : N;
  cs_total_in_flight : N;
  cs_plan : QueueControlStats;
  cs_fetch : QueueControlStats;
  cs_store : QueueControlStats;
  cs_fetch_waiters : N;
}.

Definition cs_active (s : CoordinatorQueueStats) : N :=
  u64_saturating_add (cs_total_queued s) (cs_total_in_flight s).
Definition with_fetch_waiters (n : N) (s : CoordinatorQueueStats) : CoordinatorQueueStats :=
  mkCoordinatorQueueStats (cs_capacity s) (cs_total_queued s) (cs_total_in_flight s)
    (cs_plan s) (cs_fetch s) (cs_store s) n.
Definition fetch_queue_depth (s : CoordinatorQueueStats) : N := qs_active (cs_fetch s).
Definition store_queue_depth (s : CoordinatorQueueStats) : N := qs_active (cs_store s).
Definition fetch_backpressured (s : CoordinatorQueueStats) : bool :=
  bool_decide (qs_backpressure (cs_fetch s) <> Normal).
Definition store_backpressured (s : CoordinatorQueueStats) : bool :=
  bool_decide (qs_backpressure (cs_store s) <> Normal).
Definition cs_backpressure (s : CoordinatorQueueStats) : QueueBackpressure :=
  pressure_from_load (cs_active s) (cs_capacity s).

(** ** Commands and events

    A [SharedHostPinnedPool] is a reference to a pool other requests and the
    scheduler hold as well: its identity. *)
Abbreviation PoolRef := N.

Inductive StoreTarget := TargetDisk | TargetRemote.

Record StoreRequest := mkStoreRequest {
  st_block_id : BlockId;
  st_fingerprint : BlockFingerprint;
  st_kv_format_tag : N;
  st_host_pool : PoolRef;
  st_host_region : HostPinnedRegion;
  st_target : StoreTarget;
}.

Record PrefetchPlanRequest := mkPrefetchPlanRequest { pl_block_id : BlockId; pl_source : option BlockLocation }.

Inductive PrefetchAction := ActReadyOnGpu | PromoteFromHost | FetchFromDisk | FetchFromRemote | Recompute.

Record PrefetchPlan := mkPrefetchPlan { pp_block_id : BlockId; pp_action : PrefetchAction }.

Record FetchRequest := mkFetchRequest {
  fr_block_id : BlockId;
  fr_source : BlockLocation;
  fr_byte_len : N;
  fr_host_pool : PoolRef;
}.

Record FetchedBlock := mkFetchedBlock {
  fb_block_id : BlockId;
  fb_host_region : HostPinnedRegion;
  fb_byte_len : N;
  fb_release_after_promote : bool;
}.

(** What a failure's reason is made of; the sentence printed from it is not
    modelled. *)
Inductive Reason :=
  | Text (msg : string)
  | PoolReason (e : pool_error)
  | IoReason (e : Error)
  | TransportReason (e : TransportError)
  | UnexpectedCompletion (what : string) (c : KVBackendCompletion).

Inductive CoordinatorCommand :=
  | CmdPlan (ticket : N) (blocks : list PrefetchPlanRequest)
  | CmdStore (ticket : N) (blocks : list StoreRequest)
  | CmdFetch (ticket : N) (blocks : list FetchRequest)
  | CmdShutdown.

Inductive CoordinatorEvent :=
  | StoreQueued (ticket : N) (block_count : nat)
  | StoreCompleted (ticket : N) (locations : list (BlockId * BlockLocation))
  | StoreFailed (ticket : N) (failed_block : BlockId) (class : FailureClass) (reason : Reason)
  | FetchQueued (ticket : N) (block_count : nat)
  | FetchCompleted (ticket : N) (blocks : list FetchedBlock)
  | FetchFailed (ticket : N) (failed_block : BlockId) (class : FailureClass) (reason : Reason)
  | PlanQueued (ticket : N) (block_count : nat)
  | PlanCompleted (ticket : N) (plans : list PrefetchPlan)
  | PlanFailed (ticket : N) (failed_block : BlockId) (class : FailureClass) (reason : Reason).

(** ** Control *)
Record QueueCounters := mkQueueCounters {
  qc_queued : N;
  qc_in_flight : N;
  qc_submitted : N;
  qc_completed : N;
  qc_failed : N;
  qc_cancelled : N;
  qc_rejected : N;
}.

Definition QueueCounters_new : QueueCounters := mkQueueCounters 0 0 0 0 0 0 0.

Definition snapshot (capacity : N) (q : QueueCounters) : QueueControlStats :=
  mkQueueControlStats capacity (qc_queued q) (qc_in_flight q) (qc_submitted q) (qc_completed q)
    (qc_failed q) (qc_cancelled q) (qc_rejected q).

Record CoordinatorControl := mkControl {
  cc_capacity : N;
  cc_plan : QueueCounters;
  cc_fetch : QueueCounters;
  cc_store : QueueCounters;
  live : gset QueueTicket;
  cancelled : gset QueueTicket;
}.

Definition CoordinatorControl_new (capacity : N) : CoordinatorControl :=
  mkControl (N.max capacity 1) QueueCounters_new QueueCounters_new QueueCounters_new ∅ ∅.

Definition queue (k : QueueKind) (c : CoordinatorControl) : QueueCounters :=
  match k with KPlan => cc_plan c | KFetch => cc_fetch c | KStore => cc_store c end.

Definition on_queue (k : QueueKind) (f : QueueCounters -> QueueCounters) (c : CoordinatorControl)
    : CoordinatorControl :=
  match k with
  | KPlan => mkControl (cc_capacity c) (f (cc_plan c)) (cc_fetch c) (cc_store c) (live c) (cancelled c)
  | KFetch => mkControl (cc_capacity c) (cc_plan c) (f (cc_fetch c)) (cc_store c) (live c) (cancelled c)
  | KStore => mkControl (cc_capacity c) (cc_plan c) (cc_fetch c) (f (cc_store c)) (live c) (cancelled c)
  end.

Definition set_sets (l x : gset QueueTicket) (c : CoordinatorControl) : CoordinatorControl :=
  mkControl (cc_capacity c) (cc_plan c) (cc_fetch c) (cc_store c) l x.

(** [fetch_add(1)] and [fetch_sub(1)] wrap. *)
Definition fetch_add (x : N) : N := u64_add x 1.
Definition fetch_sub (x : N) : N := u64_add x u64_max.

Definition on_submit (t : QueueTicket) (c : CoordinatorControl) : CoordinatorControl :=
  let c := on_queue (ticket_kind t) (fun q => mkQueueCounters (fetch_add (qc_queued q)) (qc_in_flight q)
    (fetch_add (qc_submitted q)) (qc_completed q) (qc_failed q) (qc_cancelled q) (qc_rejected q)) c in
  set_sets ({[t]} ∪ live c) (cancelled c) c.

Definition on_reject (k : QueueKind) (c : CoordinatorControl) : CoordinatorControl :=
  on_queue k (fun q => mkQueueCounters (qc_queued q) (qc_in_flight q) (qc_submitted q) (qc_completed q)
    (qc_failed q) (qc_cancelled q) (fetch_add (qc_rejected q))) c.

Definition on_start (t : QueueTicket) (c : CoordinatorControl) : CoordinatorControl :=
  on_queue (ticket_kind t) (fun q => mkQueueCounters (fetch_sub (qc_queued q)) (fetch_add (qc_in_flight q))
    (qc_submitted q) (qc_completed q) (qc_failed q) (qc_cancelled q) (qc_rejected q)) c.

Definition count_outcome (o : QueueOutcome) (q : QueueCounters) : QueueCounters :=
  match o with
  | OutCompleted => mkQueueCounters (qc_queued q) (qc_in_flight q) (qc_submitted q) (fetch_add (qc_completed q))
      (qc_failed q) (qc_cancelled q) (qc_rejected q)
  | OutFailed => mkQueueCounters (qc_queued q) (qc_in_flight q) (qc_submitted q) (qc_completed q)
      (fetch_add (qc_failed q)) (qc_cancelled q) (qc_rejected q)
  | OutCancelled => mkQueueCounters (qc_queued q) (qc_in_flight q) (qc_submitted q) (qc_completed q)
      (qc_failed q) (fetch_add (qc_cancelled q)) (qc_rejected q)
  end.

Definition on_finish (t : QueueTicket) (o : QueueOutcome) (c : CoordinatorControl) : CoordinatorControl :=
  let c := on_queue (ticket_kind t) (fun q => count_outcome o (mkQueueCounters (qc_queued q)
    (fetch_sub (qc_in_flight q)) (qc_submitted q) (qc_completed q) (qc_failed q) (qc_cancelled q)
    (qc_rejected q))) c in
  set_sets (live c ∖ {[t]}) (cancelled c ∖ {[t]}) c.

(** Whether the ticket was newly cancelled. *)
Definition cancel (t : QueueTicket) (c : CoordinatorControl) : CoordinatorControl * bool :=
  if bool_decide (t ∉ live c) then (c, false)
  else (set_sets (live c) ({[t]} ∪ cancelled c) c, bool_decide (t ∉ cancelled c)).

Definition is_cancelled (t : QueueTicket) (c : CoordinatorControl) : bool := bool_decide (t ∈ cancelled c).

Definition stats (c : CoordinatorControl) : CoordinatorQueueStats :=
  let plan := snapshot (cc_capacity c) (cc_plan c) in
  let fetch := snapshot (cc_capacity c) (cc_fetch c) in
  let store := snapshot (cc_capacity c) (cc_store c) in
  mkCoordinatorQueueStats (cc_capacity c)
    (u64_saturating_add (u64_saturating_add (qs_queued plan) (qs_queued fetch)) (qs_queued store))
    (u64_saturating_add (u64_saturating_add (qs_in_flight plan) (qs_in_flight fetch)) (qs_in_flight store))
    plan fetch store 0.

Definition queue_stats (k : QueueKind) (c : CoordinatorControl) : QueueControlStats :=
  snapshot (cc_capacity c) (queue k c).
