(* ===== verification/Fingerprint.v ===== *)
(** * Content fingerprints of cached blocks

    Models [BlockFingerprint] of [infer/src/types.rs] and the chain that
    [publish_to_prefix_cache] of [scheduler/cuda/core.rs] computes for a
    prompt. The hash, [blake3], is a parameter: equal fingerprints mean equal
    content, unless two of the contents hashed collide. *)

From Stdlib Require Import Ascii.
From Stdlib Require String.
From S2P Require Import Prelude Bytes Tier.

(** [blake3::Hasher::finalize] of what the [update]s fed, 32 bytes. *)
Class Blake3 := blake3 : list N -> list N.

(** A byte literal that ends in a zero byte. *)
Definition label (s : string) : list N := (N_of_ascii <$> String.list_ascii_of_string s) ++ [0%N].

Record KvContentContext := mkKvContentContext {
  cx_model_fingerprint : list N;
  cx_kv_format_tag : N;
  cx_parent : option BlockFingerprint;
}.

Definition parent_bytes (parent : option BlockFingerprint) : list N :=
  match parent with Some fp => 1%N :: fp | None => [0%N] end.
Definition u64_bytes (n : nat) : list N := to_le_bytes 8 (N.of_nat n).
Definition media_bytes (mm_hashes : list (list N)) : list N :=
  if bool_decide (mm_hashes = []) then []
  else label "mm_hashes" ++ u64_bytes (length mm_hashes) ++ concat mm_hashes.

(** What is hashed, in the order of the [update]s. *)
Definition content_bytes (ctx : KvContentContext) (tokens : list Token) (mm_hashes : list (list N)) : list N :=
  label "infer-kv-v2"
    ++ label "model" ++ u64_bytes (length (cx_model_fingerprint ctx)) ++ cx_model_fingerprint ctx
    ++ label "fmt" ++ [cx_kv_format_tag ctx]
    ++ label "parent" ++ parent_bytes (cx_parent ctx)
    ++ label "tokens" ++ u64_bytes (length tokens) ++ (tokens ≫= to_le_bytes 4)
    ++ media_bytes mm_hashes.

Section fingerprints.
Context `{Blake3}.

Definition compute_with_multimodal_hashes (ctx : KvContentContext) (tokens : list Token) (mm_hashes : list (list N))
  : BlockFingerprint :=
  take 16 (blake3 (content_bytes ctx tokens mm_hashes)).
Definition compute (ctx : KvContentContext) (tokens : list Token) : BlockFingerprint :=
  compute_with_multimodal_hashes ctx tokens [].
Definition compute_from_tokens (tokens : list Token) : BlockFingerprint :=
  compute (mkKvContentContext [] 0 None) tokens.

(** The loop of [publish_to_prefix_cache]: every block is bound to the one
    before it. *)
Fixpoint fingerprint_chain (model : list N) (tag : N) (block_size : nat) (count : nat) (parent : option BlockFingerprint)
    (tokens : list Token) : list BlockFingerprint :=
  match count with
  | 0 => []
  | S count =>
      let fp := compute (mkKvContentContext model tag parent) (take block_size tokens) in
      fp :: fingerprint_chain model tag block_size count (Some fp) (drop block_size tokens)
  end.
Definition block_fingerprints (model : list N) (tag : N) (block_size count : nat) (prompt : list Token)
  : list BlockFingerprint := fingerprint_chain model tag block_size count None prompt.
End fingerprints.

(** ** The encoding is injective *)
Record context_ok (ctx : KvContentContext) : Prop := mkContextOk {
  ck_model : (N.of_nat (length (cx_model_fingerprint ctx)) <= u64_max)%N;
  ck_parent : forall fp, cx_parent ctx = Some fp -> length fp = 16;
}.
Definition tokens_ok (tokens : list Token) : Prop :=
  (N.of_nat (length tokens) <= u64_max)%N /\ Forall (fun t => (t <= u32_max)%N) tokens.
Definition media_ok (mm_hashes : list (list N)) : Prop :=
  (N.of_nat (length mm_hashes) <= u64_max)%N /\ Forall (fun h => length h = 16) mm_hashes.

Lemma u64_bytes_inj n n' l l' : (N.of_nat n <= u64_max)%N -> (N.of_nat n' <= u64_max)%N ->
  u64_bytes n ++ l = u64_bytes n' ++ l' -> n = n' /\ l = l'.
Proof.
  intros Hn Hn' [He ->]%app_inj_1; [|by unfold u64_bytes; rewrite !length_to_le_bytes]. split; [|done].
  apply (f_equal from_le_bytes) in He. unfold u64_bytes in He. unfold u64_max in *.
  rewrite !from_to_le_bytes in He by (cbn; lia). lia.
Qed.

Lemma label_app_inj s l l' : label s ++ l = label s ++ l' -> l = l'.
Proof. apply app_inv_head. Qed.

Lemma length_token_bytes (tokens : list Token) : length (tokens ≫= to_le_bytes 4) = 4 * length tokens.
Proof.
  induction tokens as [|t l IH]; [done|]. rewrite bind_cons, length_app, length_to_le_bytes, IH. cbn. lia.
Qed.

Lemma token_bytes_inj (tokens tokens' : list Token) : length tokens = length tokens' ->
  Forall (fun t => (t <= u32_max)%N) tokens -> Forall (fun t => (t <= u32_max)%N) tokens' ->
  (tokens ≫= to_le_bytes 4) = (tokens' ≫= to_le_bytes 4) -> tokens = tokens'.
Proof.
  revert tokens'. induction tokens as [|t l IH]; intros [|t' l'] Hlen; try done.
  intros [Ht Hl]%Forall_cons [Ht' Hl']%Forall_cons. rewrite !bind_cons. intros [He Hr]%app_inj_1; [|by rewrite !length_to_le_bytes].
  apply (f_equal from_le_bytes) in He. unfold u32_max in *. rewrite !from_to_le_bytes in He by (cbn; lia).
  subst t'. f_equal. apply IH; [by injection Hlen|done..].
Qed.

Lemma chunks_inj (l l' : list (list N)) : length l = length l' ->
  Forall (fun h => length h = 16) l -> Forall (fun h => length h = 16) l' -> concat l = concat l' -> l = l'.
Proof.
  revert l'. induction l as [|x l IH]; intros [|x' l'] Hlen; try done.
  intros [Hx Hl]%Forall_cons [Hx' Hl']%Forall_cons. cbn. intros [-> Hr]%app_inj_1; [|congruence].
  f_equal. apply IH; [by injection Hlen|done..].
Qed.

Lemma media_bytes_inj mm mm' : media_ok mm -> media_ok mm' -> media_bytes mm = media_bytes mm' -> mm = mm'.
Proof.
  intros [Hl Hm] [Hl' Hm']. unfold media_bytes. destruct mm as [|x mm], mm' as [|x' mm']; try done.
  rewrite !bool_decide_eq_false_2 by done. intros [Hn Hc]%label_app_inj%u64_bytes_inj; [|done..]. by apply chunks_inj.
Qed.

Lemma parent_bytes_inj (p p' : option BlockFingerprint) l l' :
  (forall fp, p = Some fp -> length fp = 16) -> (forall fp, p' = Some fp -> length fp = 16) ->
  parent_bytes p ++ l = parent_bytes p' ++ l' -> p = p' /\ l = l'.
Proof.
  intros Hp Hp'. destruct p as [fp|], p' as [fp'|]; cbn; intros He; simplify_eq; [|done].
  apply app_inj_1 in He as [-> ->]; [done|]. by rewrite (Hp _ eq_refl), (Hp' _ eq_refl).
Qed.

Lemma content_bytes_inj ctx ctx' tokens tokens' mm mm' :
  context_ok ctx -> context_ok ctx' -> tokens_ok tokens -> tokens_ok tokens' -> media_ok mm -> media_ok mm' ->
  content_bytes ctx tokens mm = content_bytes ctx' tokens' mm' -> ctx = ctx' /\ tokens = tokens' /\ mm = mm'.
Proof.
  destruct ctx as [model tag parent], ctx' as [model' tag' parent']. unfold content_bytes. cbn [cx_model_fingerprint cx_kv_format_tag cx_parent].
  intros [Hm Hp] [Hm' Hp'] [Ht Hts] [Ht' Hts'] Hmm Hmm'. cbn in Hm, Hp, Hm', Hp'.
  intros [Hl He]%label_app_inj%label_app_inj%u64_bytes_inj; [|done..].
  apply app_inj_1 in He as [-> He]; [|done]. apply label_app_inj in He.
  apply (app_inj_1 [tag] [tag']) in He as [[= <-] He]; [|done].
  apply label_app_inj, parent_bytes_inj in He as [-> He]; [|done..].
  apply label_app_inj, u64_bytes_inj in He as [Hn He]; [|done..].
  apply app_inj_1 in He as [Hb He]; [|by rewrite !length_token_bytes, Hn].
  apply token_bytes_inj in Hb as ->; [|done..]. by apply media_bytes_inj in He as ->.
Qed.

(** ** What a fingerprint identifies *)
Section identify.
Context `{Blake3}.

(** The content that [fingerprint_chain] hashes for each of its blocks. *)
Fixpoint chain_contents (model : list N) (tag : N) (block_size count : nat) (parent : option BlockFingerprint)
    (tokens : list Token) : list (list N) :=
  match count with
  | 0 => []
  | S count =>
      let ctx := mkKvContentContext model tag parent in
      content_bytes ctx (take block_size tokens) []
        :: chain_contents model tag block_size count (Some (compute ctx (take block_size tokens))) (drop block_size tokens)
  end.

(** The contents [contents] and [contents'] that two chains hashed up to their
    blocks [i] and [i'] hold, equally many blocks before these, two that
    differ although the first 16 bytes of their digests agree. *)
Definition collide (contents contents' : list (list N)) (i i' : nat) : Prop :=
  exists j j' x x', j <= i /\ j' <= i' /\ i - j = i' - j' /\ contents !! j = Some x /\ contents' !! j' = Some x' /\
    x <> x' /\ take 16 (blake3 x) = take 16 (blake3 x').

Lemma collide_S contents contents' i i' : collide contents contents' i i' -> collide contents contents' (S i) (S i').
Proof.
  intros (j & j' & x & x' & Hj & Hj' & Hd & Hx & Hx' & Hne & He).
  exists j, j', x, x'. split_and!; [lia|lia|lia|done..].
Qed.

Lemma compute_inj ctx ctx' tokens tokens' :
  context_ok ctx -> context_ok ctx' -> tokens_ok tokens -> tokens_ok tokens' ->
  compute ctx tokens = compute ctx' tokens' ->
  content_bytes ctx tokens [] <> content_bytes ctx' tokens' [] \/ (ctx = ctx' /\ tokens = tokens').
Proof.
  intros Hc Hc' Ht Ht' He. destruct (decide (content_bytes ctx tokens [] = content_bytes ctx' tokens' [])) as [Heq|Hne].
  - right. apply content_bytes_inj in Heq as (-> & -> & _); done.
  - by left.
Qed.

Lemma chain_lookup model tag bs count parent tokens i fp :
  fingerprint_chain model tag bs count parent tokens !! i = Some fp ->
  exists parent', fp = compute (mkKvContentContext model tag parent') (take bs (drop (i * bs) tokens)) /\
    chain_contents model tag bs count parent tokens !! i
      = Some (content_bytes (mkKvContentContext model tag parent') (take bs (drop (i * bs) tokens)) []) /\
    (i = 0 /\ parent' = parent \/
     exists j fp', i = S j /\ parent' = Some fp' /\ fingerprint_chain model tag bs count parent tokens !! j = Some fp').
Proof.
  revert parent tokens i. induction count as [|count IH]; intros parent tokens [|i]; cbn; try done.
  - intros [= <-]. exists parent. rewrite drop_0. split_and!; [done|done|]. by left.
  - intros Hi. destruct (IH _ _ _ Hi) as (parent' & -> & Hcon & [[-> ->]|(j & fp' & -> & -> & Hj)]).
    + eexists. rewrite Nat.add_0_r. split_and!; [done|exact Hcon|]. right.
      by exists 0, (compute (mkKvContentContext model tag parent) (take bs tokens)).
    + exists (Some fp'). rewrite drop_drop in Hcon |- *. rewrite (Nat.add_comm bs) in Hcon |- *.
      split_and!; [done|exact Hcon|]. right. by exists (S j), fp'.
Qed.

Hypothesis blake3_length : forall x, length (blake3 x) = 32.

Lemma length_compute ctx tokens : length (compute ctx tokens) = 16.
Proof using blake3_length. unfold compute, compute_with_multimodal_hashes. rewrite length_take, blake3_length. done. Qed.

Lemma parent_length model tag bs count prompt i par :
  (i = 0 /\ par = None \/ exists j fp', i = S j /\ par = Some fp' /\
    fingerprint_chain model tag bs count None prompt !! j = Some fp') ->
  forall fp, par = Some fp -> length fp = 16.
Proof using blake3_length.
  intros [[_ ->]|(j & fp' & _ & -> & Hj)] fp; [done|]. intros [= <-].
  destruct (chain_lookup _ _ _ _ _ _ _ _ Hj) as (? & -> & _ & _). apply length_compute.
Qed.

(** C17: A fingerprint of the chain that [publish_to_prefix_cache] stamps on its
    blocks identifies everything the keys and values of the block depend on: if
    block [i] of one prompt and block [i'] of another have the same fingerprint,
    then the models and the formats are the same, the blocks are at the same
    position, and the prompts agree from their first token to the end of the
    block, whatever their block sizes; or else, somewhere up to these blocks, the
    two computations hashed two different contents to the same 16 bytes. *)
Theorem fingerprint_identifies_prefix model model' tag tag' bs bs' count count' prompt prompt' i i' fp :
  (N.of_nat (length model) <= u64_max)%N -> (N.of_nat (length model') <= u64_max)%N ->
  tokens_ok prompt -> tokens_ok prompt' ->
  block_fingerprints model tag bs count prompt !! i = Some fp ->
  block_fingerprints model' tag' bs' count' prompt' !! i' = Some fp ->
  collide (chain_contents model tag bs count None prompt) (chain_contents model' tag' bs' count' None prompt') i i' \/
  (model = model' /\ tag = tag' /\ i = i' /\ take (S i * bs) prompt = take (S i' * bs') prompt').
Proof using blake3_length.
  intros Hm Hm' Hp Hp'. revert i' fp. unfold block_fingerprints.
  assert (forall p a b, tokens_ok p -> tokens_ok (take a (drop b p))) as Hpart.
  { intros p a b [Hl Hf]. split; [rewrite length_take, length_drop; lia|by apply Forall_take, Forall_drop]. }
  induction i as [|i IH]; intros i' fp Hi Hi';
    destruct (chain_lookup _ _ _ _ _ _ _ _ Hi) as (par & -> & Hcon & Hpar);
    destruct (chain_lookup _ _ _ _ _ _ _ _ Hi') as (par' & He & Hcon' & Hpar');
    (destruct (compute_inj _ _ _ _ (mkContextOk (mkKvContentContext model tag par) Hm (parent_length _ _ _ _ _ _ _ Hpar))
      (mkContextOk (mkKvContentContext model' tag' par') Hm' (parent_length _ _ _ _ _ _ _ Hpar'))
      (Hpart _ _ _ Hp) (Hpart _ _ _ Hp') He) as [Hne|[[= <- <- <-] Heq]];
      [left; eexists _, i', _, _; split_and!; [done|done| |exact Hcon|exact Hcon'|exact Hne|exact He]; lia|]).
  - destruct Hpar as [[_ ->]|(? & ? & ? & _)]; [|done].
    destruct Hpar' as [[-> _]|(? & ? & _ & ? & _)]; [|done]. right. rewrite !Nat.mul_1_l. by rewrite !drop_0 in Heq.
  - destruct Hpar as [[? _]|(j & fp & [= <-] & -> & Hj)]; [done|].
    destruct Hpar' as [[_ ?]|(j' & fp' & -> & [= <-] & Hj')]; [done|].
    destruct (IH j' fp Hj Hj') as [Hc|(_ & _ & -> & Hpre)]; [left; by apply collide_S|]. right. split_and!; [done..|].
    rewrite !(Nat.mul_succ_l (S j')). by rewrite <-!take_take_drop, Hpre, Heq.
Qed.
End identify.

(** ** An example *)
Definition toy_hash : Blake3 := fun l => take 32 (reverse l ++ replicate 32 0%N).
Definition one_prompt : list Token := [11; 12; 13; 14; 15]%N.
Definition other_prompt : list Token := [11; 12; 13; 14; 99; 100]%N.
Definition second_fingerprint : BlockFingerprint :=
  default [] (@block_fingerprints toy_hash [7; 8]%N 2 2 2 one_prompt !! 1).

Example chain_of_one_prompt :
  length (@block_fingerprints toy_hash [7; 8]%N 2 2 2 one_prompt) = 2 /\
  @block_fingerprints toy_hash [7; 8]%N 2 2 2 one_prompt !! 0 <> @block_fingerprints toy_hash [7; 8]%N 2 2 3 other_prompt !! 2.
Proof. split; [reflexivity|vm_compute; discriminate]. Qed.

Lemma toy_hash_length x : length (@blake3 toy_hash x) = 32.
Proof. unfold blake3, toy_hash. rewrite length_take, length_app, length_replicate. lia. Qed.

Example chains_do_not_collide : ~ @collide toy_hash (@chain_contents toy_hash [7; 8]%N 2 2 2 None one_prompt)
    (@chain_contents toy_hash [7; 8]%N 2 2 3 None other_prompt) 1 1.
Proof.
  intros (j & j' & x & x' & Hj & Hj' & Hd & Hx & Hx' & Hne & _). assert (j' = j) as -> by lia. apply Hne.
  assert (@chain_contents toy_hash [7; 8]%N 2 2 2 None one_prompt
    = take 2 (@chain_contents toy_hash [7; 8]%N 2 2 3 None other_prompt)) as Heq by (vm_compute; reflexivity).
  rewrite Heq, lookup_take_lt in Hx by lia. congruence.
Qed.

Lemma fingerprint_identifies_prefix_witness : take (2 * 2) one_prompt = take (2 * 2) other_prompt.
Proof.
  assert (@collide toy_hash (@chain_contents toy_hash [7; 8]%N 2 2 2 None one_prompt)
      (@chain_contents toy_hash [7; 8]%N 2 2 3 None other_prompt) 1 1 \/
    ([7; 8]%N = [7; 8]%N /\ 2%N = 2%N /\ 1 = 1 /\ take (2 * 2) one_prompt = take (2 * 2) other_prompt)) as [Hc|(_ & _ & _ & He)].
  - apply (@fingerprint_identifies_prefix toy_hash toy_hash_length [7; 8]%N [7; 8]%N 2%N 2%N 2 2 2 3 one_prompt other_prompt 1 1
      second_fingerprint); [vm_compute; discriminate|vm_compute; discriminate| | |vm_compute; reflexivity|vm_compute; reflexivity];
      (split; [vm_compute; discriminate|apply (bool_decide_unpack _); vm_compute; exact I]).
  - destruct (chains_do_not_collide Hc).
  - exact He.
Defined.
