(* ===== verification/Readmission.v ===== *)
(** * Readmission plans

    Models [infer/src/kv_tier/readmission.rs]: which matched blocks must be
    fetched before they can run, the fetch requests made of them, and the key
    by which two plans share one fetch. *)

From S2P Require Import Prelude Tier HostArena HostPool CoordinatorControl.

Inductive ReadmissionSource :=
  | SrcHostPinned (region : HostPinnedRegion)
  | SrcDisk (fingerprint : BlockFingerprint) (payload_len : N)
  | SrcRemote (desc : RemoteBlockDesc) (payload_len : N).

(** [usize::try_from] of a [u64] on a 64-bit target. *)
Definition usize_try_from (x : N) : option N := if (x <=? u64_max)%N then Some x else None.

Definition fetch_request (source : ReadmissionSource) (block_id : BlockId) (host_pool : PoolRef)
    : option FetchRequest :=
  match source with
  | SrcHostPinned region =>
      Some (mkFetchRequest block_id (LocHostPinned (rg_offset region)) (rg_len region) host_pool)
  | SrcDisk fingerprint payload_len =>
      byte_len ← usize_try_from payload_len;
      Some (mkFetchRequest block_id (LocDisk fingerprint payload_len) byte_len host_pool)
  | SrcRemote desc payload_len =>
      byte_len ← usize_try_from payload_len;
      Some (mkFetchRequest block_id (LocRemote desc) byte_len host_pool)
  end.

Record ReadmissionBlock := mkReadmissionBlock {
  rb_block_id : BlockId;
  rb_fingerprint : BlockFingerprint;
  rb_source : option ReadmissionSource;
}.

Record ReadmissionKey := mkReadmissionKey { staged_fingerprints : list BlockFingerprint }.

Record ReadmissionPlan := mkReadmissionPlan {
  rp_matched_len : nat;
  rp_blocks : list ReadmissionBlock;
  rp_state : RequestChunkState;
}.

Definition ReadmissionPlan_new (matched_len : nat) (blocks : list ReadmissionBlock) : ReadmissionPlan :=
  mkReadmissionPlan matched_len blocks CPlanned.

Definition plan_block_ids (p : ReadmissionPlan) : list BlockId := rb_block_id <$> rp_blocks p.

(** The blocks with a source. *)
Definition staged (p : ReadmissionPlan) : list ReadmissionBlock :=
  filter (fun b => is_Some (rb_source b)) (rp_blocks p).

Definition fetch_key (p : ReadmissionPlan) : option ReadmissionKey :=
  let staged_fingerprints := rb_fingerprint <$> staged p in
  if bool_decide (staged_fingerprints = []) then None else Some (mkReadmissionKey staged_fingerprints).

Definition fetch_requests (host_pool : PoolRef) (p : ReadmissionPlan) : option (list FetchRequest) :=
  let requests := omap (fun b => source ← rb_source b; fetch_request source (rb_block_id b) host_pool) (rp_blocks p) in
  if bool_decide (length requests = length (staged p)) then Some requests else None.

Definition set_chunk_state (s : RequestChunkState) (p : ReadmissionPlan) : ReadmissionPlan :=
  mkReadmissionPlan (rp_matched_len p) (rp_blocks p) s.
Definition mark_fetching : ReadmissionPlan -> ReadmissionPlan := set_chunk_state CFetching.
Definition mark_ready : ReadmissionPlan -> ReadmissionPlan := set_chunk_state CReady.
Definition mark_consumed : ReadmissionPlan -> ReadmissionPlan := set_chunk_state CConsumed.

Definition source_counts (p : ReadmissionPlan) : nat * nat * nat :=
  foldl (fun '(host, disk, remote) b => match rb_source b with
    | Some (SrcHostPinned _) => (S host, disk, remote)
    | Some (SrcDisk _ _) => (host, S disk, remote)
    | Some (SrcRemote _ _) => (host, disk, S remote)
    | None => (host, disk, remote)
    end) (0, 0, 0) (rp_blocks p).

(** ** Properties *)

(** The lengths of the sources, as their types bound them. *)
Definition source_ok (s : ReadmissionSource) : Prop :=
  match s with
  | SrcHostPinned region => (rg_len region <= u64_max)%N
  | SrcDisk _ len | SrcRemote _ len => (len <= u64_max)%N
  end.

Definition source_len (s : ReadmissionSource) : N :=
  match s with SrcHostPinned region => rg_len region | SrcDisk _ len | SrcRemote _ len => len end.

Definition source_location (s : ReadmissionSource) : BlockLocation :=
  match s with
  | SrcHostPinned region => LocHostPinned (rg_offset region)
  | SrcDisk fingerprint len => LocDisk fingerprint len
  | SrcRemote desc _ => LocRemote desc
  end.

Lemma fetch_request_ok s b pool :
  source_ok s -> fetch_request s b pool = Some (mkFetchRequest b (source_location s) (source_len s) pool).
Proof.
  destruct s; cbn; intros Hok; [done|..]; unfold usize_try_from; by rewrite (proj2 (N.leb_le _ _) Hok).
Qed.

Lemma staged_requests blocks pool :
  Forall (fun b => from_option source_ok True (rb_source b)) blocks ->
  omap (fun b => source ← rb_source b; fetch_request source (rb_block_id b) pool) blocks
  = omap (fun b => (fun s => mkFetchRequest (rb_block_id b) (source_location s) (source_len s) pool) <$> rb_source b) blocks.
Proof.
  induction 1 as [|b blocks Hb _ IH]; [done|]. cbn. rewrite IH.
  destruct (rb_source b) as [s|]; [|done]. cbn. by rewrite fetch_request_ok.
Qed.

Lemma omap_source_length {A} (f : ReadmissionBlock -> ReadmissionSource -> A) blocks :
  length (omap (fun b => f b <$> rb_source b) blocks) = length (filter (fun b => is_Some (rb_source b)) blocks).
Proof.
  induction blocks as [|b blocks IH]; [done|]. rewrite filter_cons. cbn. destruct (rb_source b) eqn:E; cbn.
  - rewrite decide_True by eauto. cbn. by rewrite IH.
  - rewrite decide_False by by intros []. done.
Qed.

(** A plan asks for exactly its staged blocks, in order: with the lengths
    their types allow, [fetch_requests] always answers, one request per block
    that has a source, each with the block's id, its place, its length and the
    pool; the three source counts add up to that number; and there is a fetch
    key exactly when there is something to fetch. *)
Theorem readmission_requests_spec pool p :
  Forall (fun b => from_option source_ok True (rb_source b)) (rp_blocks p) ->
  exists requests, fetch_requests pool p = Some requests /\
    length requests = length (staged p) /\
    requests = omap (fun b => (fun s => mkFetchRequest (rb_block_id b) (source_location s) (source_len s) pool)
                              <$> rb_source b) (rp_blocks p) /\
    (let '(host, disk, remote) := source_counts p in host + disk + remote = length requests) /\
    (fetch_key p = None <-> requests = []).
Proof.
  intros Hok. unfold fetch_requests. rewrite staged_requests by done.
  set (requests := omap _ _). assert (length requests = length (staged p)) as Hlen by apply omap_source_length.
  exists requests. rewrite bool_decide_eq_true_2 by done. split_and!; [done|done|done| |].
  - rewrite Hlen. unfold source_counts, staged. clear.
    assert (forall l h d r, let '(h', d', r') := foldl (fun '(host, disk, remote) b => match rb_source b with
        | Some (SrcHostPinned _) => (S host, disk, remote)
        | Some (SrcDisk _ _) => (host, S disk, remote)
        | Some (SrcRemote _ _) => (host, disk, S remote)
        | None => (host, disk, remote)
        end) (h, d, r) l in
      h' + d' + r' = h + d + r + length (filter (fun b => is_Some (rb_source b)) l)) as Hgen.
    { induction l as [|b l IH]; intros h d r; cbn [foldl]; [cbn; lia|]. rewrite filter_cons.
      destruct (rb_source b) as [[]|] eqn:E;
        [rewrite decide_True by eauto; cbn [length]..|rewrite decide_False by (by intros [])].
      - specialize (IH (S h) d r). destruct (foldl _ _ l) as [[]]. lia.
      - specialize (IH h (S d) r). destruct (foldl _ _ l) as [[]]. lia.
      - specialize (IH h d (S r)). destruct (foldl _ _ l) as [[]]. lia.
      - specialize (IH h d r). destruct (foldl _ _ l) as [[]]. lia. }
    specialize (Hgen (rp_blocks p) 0 0 0). by destruct (foldl _ _ _) as [[]].
  - unfold fetch_key. case_bool_decide as Hc; split; try done.
    + intros _. apply fmap_nil_inv in Hc. rewrite Hc in Hlen. by apply nil_length_inv.
    + intros Hr. rewrite Hr in Hlen. symmetry in Hlen. apply nil_length_inv in Hlen. by rewrite Hlen in Hc.
Qed.

Lemma readmission_requests_spec_witness :
  let p := ReadmissionPlan_new 12 [mkReadmissionBlock 1 [] None; mkReadmissionBlock 2 [7]%N (Some (SrcDisk [7]%N 5))] in
  exists requests, fetch_requests 0 p = Some requests /\ length requests = 1 /\ fetch_key p <> None.
Proof.
  intros p. destruct (readmission_requests_spec 0 p) as (requests & Hreq & Hlen & _ & _ & Hkey).
  - repeat (constructor; [done|]). constructor.
  - exists requests. split; [exact Hreq|]. split; [exact Hlen|]. intros Hn%Hkey. rewrite Hn in Hlen. discriminate Hlen.
Defined.
