(* ===== verification/SessionSlots.v ===== *)
(** * Session slots: blocks kept for the next turn of a session

    Models [infer/src/scheduler/cuda/core/session_slots.rs], the two length
    checks of [core/helpers.rs] and [build_staged_prefix_plan] of [core.rs].
    When a request of a session finishes, the blocks of its prompt are kept in
    a slot of the session; the next request of the session takes them from
    there and holds the slot until it is done. [session_block_refs] counts, for
    every block, how often slots name it, which is what keeps it from being
    evicted.

    The methods read the prefix cache and change the session table, so the
    cache is an argument. [HashMap] iteration has no order: a model may visit
    the slots in any, and the order of the result does not depend on it. *)

From stdpp Require Import strings sorting.
From S2P Require Import Prelude Lists Tier RadixTypes RadixLookup RadixMeta HostArena HostPool CoordinatorControl Readmission.

(** ** Lengths of sealed blocks *)
Definition sealed_block_token_count (block_size block_count : nat) : nat := block_size * block_count.

Definition is_full_sealed_prefix (matched_len block_size block_count : nat) : bool :=
  bool_decide (0 < block_count /\ matched_len = sealed_block_token_count block_size block_count).

(** ** Data *)
Record SessionSlot := mkSessionSlot {
  ss_blocks : list BlockId;
  ss_committed_len : nat;
  ss_ref_count : N;
  ss_last_access_tick : N;
}.

Record SessionSlotHold := mkSessionSlotHold { hold_session_id : SessionId }.

Record SessionSlotLookup := mkSessionSlotLookup {
  sl_lookup : LookupOutcome;
  sl_hold : SessionSlotHold;
}.

Inductive PressureMode := Soft | Hard.

Definition min_idle_ticks (keepalive_ticks : N) (m : PressureMode) : N :=
  match m with Soft => keepalive_ticks | Hard => 0 end.

(** The fields [session_slots] and [session_block_refs] of the scheduler. *)
Record SessionTable := mkSessionTable {
  session_slots : gmap SessionId SessionSlot;
  session_block_refs : gmap BlockId N;
}.

Definition set_slots (x : gmap SessionId SessionSlot) (t : SessionTable) : SessionTable :=
  mkSessionTable x (session_block_refs t).
Definition set_block_refs (x : gmap BlockId N) (t : SessionTable) : SessionTable :=
  mkSessionTable (session_slots t) x.

Definition set_slot_blocks (x : list BlockId) (s : SessionSlot) : SessionSlot :=
  mkSessionSlot x (ss_committed_len s) (ss_ref_count s) (ss_last_access_tick s).
Definition set_slot_ref_count (x : N) (s : SessionSlot) : SessionSlot :=
  mkSessionSlot (ss_blocks s) (ss_committed_len s) x (ss_last_access_tick s).
Definition set_slot_last_access (x : N) (s : SessionSlot) : SessionSlot :=
  mkSessionSlot (ss_blocks s) (ss_committed_len s) (ss_ref_count s) x.

(** ** Counting the blocks slots name *)
Definition add_session_block_ref (refs : gmap BlockId N) (b : BlockId) : gmap BlockId N :=
  <[b := u32_add (default 0%N (refs !! b)) 1]> refs.
Definition add_session_block_refs (blocks : list BlockId) (t : SessionTable) : SessionTable :=
  set_block_refs (foldl add_session_block_ref (session_block_refs t) blocks) t.

(** [saturating_sub(1)], and the entry goes at zero. *)
Definition remove_session_block_ref (refs : gmap BlockId N) (b : BlockId) : gmap BlockId N :=
  match refs !! b with
  | None => refs
  | Some count => if bool_decide (count - 1 = 0)%N then delete b refs else <[b := (count - 1)%N]> refs
  end.
Definition remove_session_block_refs (blocks : list BlockId) (t : SessionTable) : SessionTable :=
  set_block_refs (foldl remove_session_block_ref (session_block_refs t) blocks) t.

Definition drop_session_slot (sid : SessionId) (t : SessionTable) : SessionTable :=
  match session_slots t !! sid with
  | None => t
  | Some slot => remove_session_block_refs (ss_blocks slot) (set_slots (delete sid (session_slots t)) t)
  end.

(** ** Publishing a slot *)
Definition publish_session_slot (c : RadixCache) (sid : SessionId) (blocks : list BlockId)
    (committed_len : nat) (t : SessionTable) : SessionTable :=
  if bool_decide (blocks = [] \/ committed_len = 0) then t
  else
    let t := drop_session_slot sid t in
    let t := add_session_block_refs blocks t in
    set_slots (<[sid := mkSessionSlot blocks committed_len 0 (logical_clock c)]> (session_slots t)) t.

(** ** Looking a session up *)
Definition session_hit_kind (md : BlockMetadata) : HitKind :=
  let k := match md_location md with
    | Some (LocHostPinned _) => StagingFromHost
    | Some (LocDisk _ _) | Some (LocRemote _) => StagingFromDisk
    | Some (LocGpu _) | None => ReadyOnGpu
    end in
  if bool_decide (md_entry_state md = IReady) then k else Miss.

Definition session_block_advice (c : RadixCache) (h : LookupHeuristics) (k : HitKind) (md : BlockMetadata) : bool :=
  is_staged k && advise_recompute h k (block_size c) (N.max (md_byte_len md) (u32_of_usize (block_size c))).

(** The loop: the blocks looked at, how many are reusable, and the advice. It
    stops after the first block that is not. *)
Fixpoint session_blocks_loop (c : RadixCache) (h : LookupHeuristics) (blocks : list BlockId)
    : list LookupBlock * nat * bool :=
  match blocks with
  | [] => ([], 0, false)
  | block_id :: blocks =>
      match block_metadata block_id c with
      | None => ([mkLookupBlock (Some block_id) Miss], 0, false)
      | Some md =>
          let hit_kind := session_hit_kind md in
          if is_miss hit_kind then ([mkLookupBlock (Some block_id) hit_kind], 0, false)
          else
            let '(rest, reusable, advised) := session_blocks_loop c h blocks in
            (mkLookupBlock (Some block_id) hit_kind :: rest, S reusable,
             session_block_advice c h hit_kind md || advised)
      end
  end.

Definition lookup_session_blocks (c : RadixCache) (blocks : list BlockId) (matched_len : nat)
    (h : LookupHeuristics) : LookupOutcome :=
  let '(lookup_blocks, reusable_blocks, advised) := session_blocks_loop c h blocks in
  mkLookupOutcome (Nat.min matched_len (reusable_blocks * block_size c)) lookup_blocks advised.

Definition lookup_session_slot_or_stage (c : RadixCache) (sid : SessionId) (prompt_len : nat)
    (h : LookupHeuristics) (t : SessionTable) : SessionTable * option SessionSlotLookup :=
  match session_slots t !! sid with
  | None => (t, None)
  | Some slot =>
      let matched_len := Nat.min (ss_committed_len slot) prompt_len in
      let block_count := matched_len / block_size c in
      if bool_decide (block_count = 0) then (t, None)
      else
        let selected := take block_count (ss_blocks slot) in
        let rounded_len := block_count * block_size c in
        let lookup := lookup_session_blocks c selected rounded_len h in
        if bool_decide (lo_matched_len lookup = 0) then (drop_session_slot sid t, None)
        else
          let slot := set_slot_last_access (logical_clock c)
            (set_slot_ref_count (u32_saturating_add (ss_ref_count slot) 1) slot) in
          (set_slots (<[sid := slot]> (session_slots t)) t,
           Some (mkSessionSlotLookup lookup (mkSessionSlotHold sid)))
  end.

Definition release_session_slot_hold (hold : option SessionSlotHold) (t : SessionTable) : SessionTable :=
  match hold with
  | None => t
  | Some hold =>
      match session_slots t !! hold_session_id hold with
      | None => t
      | Some slot =>
          set_slots (<[hold_session_id hold := set_slot_ref_count (ss_ref_count slot - 1)%N slot]> (session_slots t)) t
      end
  end.

(** ** Readmission plans of a lookup *)
Definition host_region_from_metadata (md : BlockMetadata) : option HostPinnedRegion :=
  match md_location md with
  | Some (LocHostPinned offset) => Some (mkRegion offset (md_byte_len md))
  | _ => None
  end.

(** [None] when a block that is not on the GPU has no source. *)
Definition readmission_source (k : HitKind) (md : BlockMetadata) : option (option ReadmissionSource) :=
  match k with
  | ReadyOnGpu => Some None
  | StagingFromHost => region ← host_region_from_metadata md; Some (Some (SrcHostPinned region))
  | StagingFromDisk =>
      match md_location md with
      | Some (LocDisk fingerprint payload_len) => Some (Some (SrcDisk fingerprint payload_len))
      | Some (LocRemote desc) => Some (Some (SrcRemote desc (md_byte_len md)))
      | _ => None
      end
  | Miss => None
  end.

Fixpoint staged_prefix_blocks (c : RadixCache) (blocks : list LookupBlock) : option (list ReadmissionBlock) :=
  match blocks with
  | [] => Some []
  | b :: blocks =>
      if is_miss (lb_hit_kind b) then Some []
      else
        block_id ← lb_block_id b;
        md ← block_metadata block_id c;
        fingerprint ← md_fingerprint md;
        source ← readmission_source (lb_hit_kind b) md;
        rest ← staged_prefix_blocks c blocks;
        Some (mkReadmissionBlock block_id fingerprint source :: rest)
  end.

Definition build_staged_prefix_plan (c : RadixCache) (lookup : LookupOutcome) : option ReadmissionPlan :=
  blocks ← staged_prefix_blocks c (lo_blocks lookup);
  if is_full_sealed_prefix (lo_matched_len lookup) (block_size c) (length blocks)
  then Some (ReadmissionPlan_new (lo_matched_len lookup) blocks)
  else None.

Definition session_slot_gpu_ready_plan (c : RadixCache) (sid : SessionId) (matched_len : nat)
    (t : SessionTable) : option ReadmissionPlan :=
  slot ← session_slots t !! sid;
  let block_count := matched_len / block_size c in
  if bool_decide (block_count = 0 \/ length (ss_blocks slot) < block_count) then None
  else
    let lookup := lookup_session_blocks c (take block_count (ss_blocks slot)) (block_count * block_size c)
      LookupHeuristics_default in
    if bool_decide (lo_matched_len lookup = matched_len) &&
       forallb (fun b => bool_decide (lb_hit_kind b = ReadyOnGpu) && is_some (lb_block_id b)) (lo_blocks lookup)
    then build_staged_prefix_plan c lookup
    else None.

(** ** A promoted block takes a new id *)
Definition retag_id (old new b : BlockId) : BlockId := if bool_decide (b = old) then new else b.

Definition retag_session_slot_block (old new : BlockId) (t : SessionTable) : SessionTable :=
  match session_block_refs t !! old with
  | None => t
  | Some count =>
      let refs := delete old (session_block_refs t) in
      mkSessionTable ((fun s => set_slot_blocks (retag_id old new <$> ss_blocks s) s) <$> session_slots t)
        (<[new := u32_add (default 0%N (refs !! new)) count]> refs)
  end.

(** ** What protects a block *)
Definition block_has_active_session_ref (block_id : BlockId) (t : SessionTable) : bool :=
  existsb (fun p => bool_decide (0 < ss_ref_count p.2)%N && bool_decide (block_id ∈ ss_blocks p.2))
    (map_to_list (session_slots t)).

Definition session_protected_blocks (t : SessionTable) : gset BlockId := dom (session_block_refs t).

(** ** Evicting slots under pressure *)
Definition consume_host_leaf_pressure_mode (host_leaf_headroom_exhausted : bool) : bool * PressureMode :=
  if host_leaf_headroom_exhausted then (false, Hard) else (host_leaf_headroom_exhausted, Soft).

Definition block_metadata_tier (location : option BlockLocation) : Tier :=
  match location with Some l => tier l | None => Gpu end.

Definition session_slot_has_tier_blocks (c : RadixCache) (tier_filter : option Tier) (slot : SessionSlot) : bool :=
  match tier_filter with
  | None => true
  | Some tier =>
      existsb (fun b => bool_decide ((block_metadata_tier ∘ md_location <$> block_metadata b c) = Some tier))
        (ss_blocks slot)
  end.

(** The sort key of a candidate: the tick, then the id's bytes. *)
Definition candidate_le (x y : N * SessionId) : bool :=
  bool_decide (x.1 < y.1)%N || (bool_decide (x.1 = y.1) && String.leb x.2 y.2).

Definition is_idle_slot (now min_idle : N) (slot : SessionSlot) : bool :=
  bool_decide (ss_ref_count slot = 0%N)
  && bool_decide (u64_saturating_add (ss_last_access_tick slot) min_idle <= now)%N.

(** The candidates, with the slots visited in the order [slots]. *)
Definition candidates_in_order (slots : list (SessionId * SessionSlot)) (now min_idle : N) (max_slots : nat)
    (matches_pressure : SessionSlot -> bool) : list SessionId :=
  let kept := filter (fun p => is_idle_slot now min_idle p.2 && matches_pressure p.2 = true) slots in
  snd <$> take max_slots (sort_by candidate_le ((fun p => (ss_last_access_tick p.2, p.1)) <$> kept)).

Definition inactive_session_slot_eviction_candidates (slots : gmap SessionId SessionSlot) (now min_idle : N)
    (max_slots : nat) (matches_pressure : SessionSlot -> bool) : list SessionId :=
  if bool_decide (max_slots = 0) then []
  else candidates_in_order (map_to_list slots) now min_idle max_slots matches_pressure.

(** Removing one candidate, with the blocks released so far. *)
Definition evict_session_slot (acc : SessionTable * nat) (sid : SessionId) : SessionTable * nat :=
  match session_slots acc.1 !! sid with
  | None => acc
  | Some slot =>
      (remove_session_block_refs (ss_blocks slot) (set_slots (delete sid (session_slots acc.1)) acc.1),
       acc.2 + length (ss_blocks slot))
  end.

Definition evict_inactive_session_slots_for_pressure (c : RadixCache) (keepalive_ticks : N) (mode : PressureMode)
    (max_slots : nat) (tier_filter : option Tier) (t : SessionTable) : SessionTable * nat :=
  let candidates := inactive_session_slot_eviction_candidates (session_slots t) (logical_clock c)
    (min_idle_ticks keepalive_ticks mode) max_slots (session_slot_has_tier_blocks c tier_filter) in
  foldl evict_session_slot (t, 0) candidates.

(** ** The counts are exact *)

(** A sum over the slots; how often they name a block, how many they name. *)
Definition slots_sum (f : SessionSlot -> nat) (slots : gmap SessionId SessionSlot) : nat :=
  map_fold (fun _ s n => f s + n) 0 slots.
Definition slot_blocks_len (s : SessionSlot) : nat := length (ss_blocks s).
Definition slot_refs (b : BlockId) : gmap SessionId SessionSlot -> nat := slots_sum (fun s => occurrences b (ss_blocks s)).
Definition slot_total : gmap SessionId SessionSlot -> nat := slots_sum slot_blocks_len.

Section sums.
Implicit Types (f g h : SessionSlot -> nat) (slots : gmap SessionId SessionSlot).

Lemma slots_sum_insert f sid s slots :
  slots !! sid = None -> slots_sum f (<[sid := s]> slots) = f s + slots_sum f slots.
Proof. intros Hn. unfold slots_sum. rewrite map_fold_insert_L; [done|intros; lia|done]. Qed.

Lemma slots_sum_delete f sid s slots :
  slots !! sid = Some s -> slots_sum f slots = f s + slots_sum f (delete sid slots).
Proof. intros Hs. unfold slots_sum. rewrite (map_fold_delete_L _ _ sid s slots); [done|intros; lia|done]. Qed.

(** Replacing a slot by one that counts the same changes no sum. *)
Lemma slots_sum_replace f sid s s' slots :
  slots !! sid = Some s -> f s' = f s -> slots_sum f (<[sid := s']> slots) = slots_sum f slots.
Proof.
  intros Hs Hf. rewrite <-insert_delete_eq, slots_sum_insert by apply lookup_delete_eq.
  rewrite (slots_sum_delete f sid s slots Hs). lia.
Qed.

Lemma slots_sum_plus f g h slots :
  (forall s, f s = g s + h s) -> slots_sum f slots = slots_sum g slots + slots_sum h slots.
Proof.
  intros Hf. induction slots as [|sid s slots Hn IH] using map_ind; [done|].
  rewrite !slots_sum_insert by done. rewrite Hf, IH. lia.
Qed.

Lemma slots_sum_le f g slots : (forall s, f s <= g s) -> slots_sum f slots <= slots_sum g slots.
Proof.
  intros Hf. rewrite (slots_sum_plus g f (fun s => g s - f s)) by (intros s; specialize (Hf s); lia). lia.
Qed.

Lemma slots_sum_ext f g slots : (forall s, f s = g s) -> slots_sum f slots = slots_sum g slots.
Proof. intros Hf. apply Nat.le_antisymm; apply slots_sum_le; intros s; by rewrite Hf. Qed.

Lemma slots_sum_zero slots : slots_sum (fun _ => 0) slots = 0.
Proof. induction slots as [|sid s slots Hn IH] using map_ind; [done|]. by rewrite slots_sum_insert. Qed.

Lemma slots_sum_fmap f (g : SessionSlot -> SessionSlot) slots : slots_sum f (g <$> slots) = slots_sum (f ∘ g) slots.
Proof. unfold slots_sum. by rewrite map_fold_fmap. Qed.
End sums.

(** A map of counts holds the positive values of a function. *)
Definition counts_are (refs : gmap BlockId N) (f : BlockId -> nat) : Prop :=
  forall b, refs !! b = if decide (f b = 0) then None else Some (N.of_nat (f b)).

Lemma counts_are_default refs f b : counts_are refs f -> default 0%N (refs !! b) = N.of_nat (f b).
Proof. intros Hr. rewrite Hr. case_decide as E; cbn; [by rewrite E|done]. Qed.

Lemma counts_are_ext refs f g : (forall b, f b = g b) -> counts_are refs f -> counts_are refs g.
Proof. intros Hfg Hr b. by rewrite Hr, Hfg. Qed.

Lemma add_session_block_ref_ok refs f b :
  counts_are refs f -> (N.of_nat (f b + 1) <= u32_max)%N ->
  counts_are (add_session_block_ref refs b) (fun x => f x + if decide (x = b) then 1 else 0).
Proof.
  intros Hr Hmax x. unfold add_session_block_ref. rewrite (counts_are_default _ _ _ Hr), u32_add_small by lia.
  destruct (decide (x = b)) as [->|Hne].
  - rewrite lookup_insert_eq, decide_False by lia. f_equal. lia.
  - rewrite lookup_insert_ne by done. rewrite Nat.add_0_r. apply Hr.
Qed.

Lemma remove_session_block_ref_ok refs f b :
  counts_are refs f ->
  counts_are (remove_session_block_ref refs b) (fun x => f x - if decide (x = b) then 1 else 0).
Proof.
  intros Hr x. unfold remove_session_block_ref. pose proof (Hr b) as Hb.
  destruct (decide (x = b)) as [->|Hne].
  - rewrite Hb. destruct (decide (f b = 0)) as [E|E].
    + rewrite Hb, decide_True by lia. done.
    + case_bool_decide.
      * by rewrite lookup_delete_eq, decide_True by lia.
      * rewrite lookup_insert_eq, decide_False by lia. f_equal. lia.
  - rewrite Nat.sub_0_r, <-Hr. destruct (refs !! b); [|done].
    case_bool_decide; [by rewrite lookup_delete_ne|by rewrite lookup_insert_ne].
Qed.

Lemma add_session_block_refs_ok blocks : forall refs f,
  counts_are refs f -> (forall b, N.of_nat (f b + occurrences b blocks) <= u32_max)%N ->
  counts_are (foldl add_session_block_ref refs blocks) (fun x => f x + occurrences x blocks).
Proof.
  induction blocks as [|b blocks IH]; intros refs f Hr Hmax.
  - eapply counts_are_ext; [|exact Hr]. intros x. unfold occurrences. cbn. lia.
  - cbn. eapply counts_are_ext; [|apply IH; [apply add_session_block_ref_ok; [exact Hr|]|]].
    + intros x. cbn beta. rewrite occurrences_cons. lia.
    + specialize (Hmax b). rewrite occurrences_cons, decide_True in Hmax by done. lia.
    + intros x. specialize (Hmax x). rewrite occurrences_cons in Hmax. cbn beta. lia.
Qed.

Lemma remove_session_block_refs_ok blocks : forall refs f,
  counts_are refs f ->
  counts_are (foldl remove_session_block_ref refs blocks) (fun x => f x - occurrences x blocks).
Proof.
  induction blocks as [|b blocks IH]; intros refs f Hr.
  - eapply counts_are_ext; [|exact Hr]. intros x. unfold occurrences. cbn. lia.
  - cbn. eapply counts_are_ext; [|apply IH, remove_session_block_ref_ok; exact Hr].
    intros x. cbn beta. rewrite occurrences_cons. lia.
Qed.

(** What every reachable table satisfies. *)
Record table_ok (t : SessionTable) : Prop := mk_table_ok {
  tk_refs : counts_are (session_block_refs t) (fun b => slot_refs b (session_slots t));
  tk_total : (N.of_nat (slot_total (session_slots t)) <= u32_max)%N;
}.

Lemma slot_refs_le_total b slots : slot_refs b slots <= slot_total slots.
Proof. apply slots_sum_le. intros s. apply occurrences_length. Qed.

Lemma slot_total_delete sid s slots :
  slots !! sid = Some s -> slot_total slots = slot_blocks_len s + slot_total (delete sid slots).
Proof. apply slots_sum_delete. Qed.
Lemma slot_refs_delete b sid s slots :
  slots !! sid = Some s -> slot_refs b slots = occurrences b (ss_blocks s) + slot_refs b (delete sid slots).
Proof. apply (slots_sum_delete (fun s => occurrences b (ss_blocks s))). Qed.
Lemma slot_total_insert sid s slots :
  slots !! sid = None -> slot_total (<[sid := s]> slots) = slot_blocks_len s + slot_total slots.
Proof. apply slots_sum_insert. Qed.
Lemma slot_refs_insert b sid s slots :
  slots !! sid = None -> slot_refs b (<[sid := s]> slots) = occurrences b (ss_blocks s) + slot_refs b slots.
Proof. apply (slots_sum_insert (fun s => occurrences b (ss_blocks s))). Qed.

(** Taking a slot out takes its blocks out of the counts. *)
Lemma remove_slot_ok sid s t :
  table_ok t -> session_slots t !! sid = Some s ->
  table_ok (remove_session_block_refs (ss_blocks s) (set_slots (delete sid (session_slots t)) t)).
Proof.
  intros [Hr Ht] Hs. pose proof (slot_total_delete sid s _ Hs). split; cbn; [|lia].
  eapply counts_are_ext; [|apply remove_session_block_refs_ok; exact Hr].
  intros b. cbn beta. rewrite (slot_refs_delete b sid s _ Hs). lia.
Qed.

Lemma drop_session_slot_slots sid t : session_slots (drop_session_slot sid t) = delete sid (session_slots t).
Proof. unfold drop_session_slot. destruct (session_slots t !! sid) eqn:Hs; [done|]. by rewrite delete_id. Qed.

Lemma drop_session_slot_ok sid t : table_ok t -> table_ok (drop_session_slot sid t).
Proof.
  intros Hok. unfold drop_session_slot. destruct (session_slots t !! sid) as [s|] eqn:Hs; [|done].
  by apply remove_slot_ok.
Qed.

Lemma slot_total_delete_le sid slots : slot_total (delete sid slots) <= slot_total slots.
Proof.
  destruct (slots !! sid) as [s|] eqn:Hs; [|by rewrite delete_id]. rewrite (slot_total_delete sid s slots Hs). lia.
Qed.

(** Changing a slot's counters, not its blocks. *)
Lemma touch_session_slot_ok sid s s' t :
  table_ok t -> session_slots t !! sid = Some s -> ss_blocks s' = ss_blocks s ->
  table_ok (set_slots (<[sid := s']> (session_slots t)) t).
Proof.
  intros [Hr Ht] Hs Hb. split; cbn.
  - eapply counts_are_ext; [|exact Hr]. intros b. symmetry.
    apply (slots_sum_replace _ sid s); [done|by rewrite Hb].
  - unfold slot_total. rewrite (slots_sum_replace _ sid s); [done|done|]. unfold slot_blocks_len. by rewrite Hb.
Qed.

Lemma publish_session_slot_ok c sid blocks len t :
  table_ok t -> (N.of_nat (slot_total (session_slots t) + length blocks) <= u32_max)%N ->
  table_ok (publish_session_slot c sid blocks len t).
Proof.
  intros Hok Hmax. unfold publish_session_slot. case_bool_decide; [done|].
  pose proof (drop_session_slot_ok sid t Hok) as [Hr Ht]. pose proof (drop_session_slot_slots sid t) as Hslots.
  set (u := drop_session_slot sid t) in *.
  pose proof (slot_total_delete_le sid (session_slots t)) as Hle. rewrite <-Hslots in Hle.
  assert (session_slots u !! sid = None) as Hn by (rewrite Hslots; apply lookup_delete_eq).
  split; cbn.
  - eapply counts_are_ext; [|apply add_session_block_refs_ok; [exact Hr|]].
    + intros b. cbn beta. rewrite slot_refs_insert by done. cbn. lia.
    + intros b. pose proof (slot_refs_le_total b (session_slots u)). pose proof (occurrences_length b blocks). lia.
  - rewrite slot_total_insert by done. unfold slot_blocks_len. cbn. lia.
Qed.

Lemma lookup_session_slot_ok c sid len h t :
  table_ok t -> table_ok (lookup_session_slot_or_stage c sid len h t).1.
Proof.
  intros Hok. unfold lookup_session_slot_or_stage. destruct (session_slots t !! sid) as [s|] eqn:Hs; [|done].
  case_bool_decide; [done|]. case_bool_decide; [by apply drop_session_slot_ok|]. by eapply touch_session_slot_ok.
Qed.

Lemma release_session_slot_hold_ok hold t : table_ok t -> table_ok (release_session_slot_hold hold t).
Proof.
  intros Hok. unfold release_session_slot_hold. destruct hold as [h|]; [|done].
  destruct (session_slots t !! hold_session_id h) as [s|] eqn:Hs; [|done]. by eapply touch_session_slot_ok.
Qed.

Lemma evict_session_slot_ok acc sid : table_ok acc.1 -> table_ok (evict_session_slot acc sid).1.
Proof.
  intros Hok. unfold evict_session_slot. destruct (session_slots acc.1 !! sid) as [s|] eqn:Hs; [|done].
  by apply remove_slot_ok.
Qed.

(** *** Retagging moves the count of the old id to the new one *)
Lemma occurrences_retag old new b l :
  old <> new ->
  occurrences b (retag_id old new <$> l) =
  (if decide (b = old) then 0 else occurrences b l) + (if decide (b = new) then occurrences old l else 0).
Proof.
  intros Hon. induction l as [|x l IH]; [by repeat case_decide|]. cbn. rewrite !occurrences_cons, IH. unfold retag_id.
  repeat (case_bool_decide || case_decide); subst; lia || congruence.
Qed.

Lemma slot_refs_retag old new b slots :
  old <> new ->
  slot_refs b ((fun s => set_slot_blocks (retag_id old new <$> ss_blocks s) s) <$> slots) =
  (if decide (b = old) then 0 else slot_refs b slots) + (if decide (b = new) then slot_refs old slots else 0).
Proof.
  intros Hon. unfold slot_refs. rewrite slots_sum_fmap.
  rewrite (slots_sum_plus _ (fun s => if decide (b = old) then 0 else occurrences b (ss_blocks s))
    (fun s => if decide (b = new) then occurrences old (ss_blocks s) else 0)) by (intros s; by apply occurrences_retag).
  by repeat case_decide; rewrite ?slots_sum_zero.
Qed.

Lemma retag_id_same old (l : list BlockId) : retag_id old old <$> l = l.
Proof.
  rewrite <-(list_fmap_id l) at 2. apply list_fmap_ext. intros i x _. unfold retag_id. by case_bool_decide.
Qed.

Lemma slot_refs_two old new slots : old <> new -> slot_refs old slots + slot_refs new slots <= slot_total slots.
Proof.
  intros Hon. unfold slot_refs.
  rewrite <-(slots_sum_plus (fun s => occurrences old (ss_blocks s) + occurrences new (ss_blocks s))) by done.
  apply slots_sum_le. intros s. unfold slot_blocks_len. induction (ss_blocks s) as [|x l IH]; [done|].
  rewrite !occurrences_cons. cbn [length]. repeat case_decide; subst; lia || congruence.
Qed.

Lemma retag_session_slot_block_ok old new t : table_ok t -> table_ok (retag_session_slot_block old new t).
Proof.
  intros [Hr Ht]. unfold retag_session_slot_block. pose proof (Hr old) as Hold. rewrite Hold.
  case_decide as Hz; [done|]. pose proof (slot_refs_le_total old (session_slots t)).
  split; cbn.
  2: { unfold slot_total. rewrite slots_sum_fmap, (slots_sum_ext _ slot_blocks_len); [done|].
       intros s. apply length_fmap. }
  destruct (decide (old = new)) as [<-|Hon].
  - rewrite lookup_delete_eq, insert_delete_eq. cbn. rewrite u32_add_small by lia.
    rewrite insert_id by (rewrite Hold; f_equal; lia).
    eapply counts_are_ext; [|exact Hr]. intros b. unfold slot_refs. rewrite slots_sum_fmap. apply slots_sum_ext.
    intros s. cbn. by rewrite retag_id_same.
  - rewrite lookup_delete_ne, (counts_are_default _ _ _ Hr) by done.
    pose proof (slot_refs_two old new (session_slots t) Hon). rewrite u32_add_small by lia.
    intros b. rewrite slot_refs_retag by done. destruct (decide (b = new)) as [->|Hbn].
    + rewrite lookup_insert_eq. repeat case_decide; [congruence|lia|congruence|]. f_equal. lia.
    + rewrite lookup_insert_ne, Nat.add_0_r by done. destruct (decide (b = old)) as [->|Hbo].
      * rewrite lookup_delete_eq. done.
      * rewrite lookup_delete_ne by done. apply Hr.
Qed.

(** ** Reachable tables

    The cache changes between the calls. A slot can be published only while
    the slots name at most [u32::MAX] blocks, far above what a pool holds. *)
Inductive session_step (t : SessionTable) : SessionTable -> Prop :=
  | session_step_publish c sid blocks len :
      (N.of_nat (slot_total (session_slots t) + length blocks) <= u32_max)%N ->
      session_step t (publish_session_slot c sid blocks len t)
  | session_step_lookup c sid len h : session_step t (lookup_session_slot_or_stage c sid len h t).1
  | session_step_release hold : session_step t (release_session_slot_hold hold t)
  | session_step_retag old new : session_step t (retag_session_slot_block old new t)
  | session_step_evict c keepalive mode max_slots tier_filter :
      session_step t (evict_inactive_session_slots_for_pressure c keepalive mode max_slots tier_filter t).1.

Definition session_reachable : SessionTable -> Prop := rtc session_step (mkSessionTable ∅ ∅).

Lemma evict_session_slots_ok l : forall acc, table_ok acc.1 -> table_ok (foldl evict_session_slot acc l).1.
Proof. induction l as [|sid l IH]; intros acc Hok; [done|]. by apply IH, evict_session_slot_ok. Qed.

#[export] Hint Resolve publish_session_slot_ok lookup_session_slot_ok release_session_slot_hold_ok
  retag_session_slot_block_ok evict_session_slots_ok : session.

Lemma session_step_ok t t' : table_ok t -> session_step t t' -> table_ok t'.
Proof. intros Hok Hstep. destruct Hstep; unfold evict_inactive_session_slots_for_pressure; eauto with session. Qed.

Lemma session_reachable_ok t : session_reachable t -> table_ok t.
Proof.
  intros Hr. unfold session_reachable in Hr. remember (mkSessionTable ∅ ∅) as t0 eqn:E.
  assert (table_ok t0) as Hok by (subst; split; [intros b; apply lookup_empty|done]). clear E.
  induction Hr as [|x y z Hxy Hyz IH]; [done|]. apply IH. by eapply session_step_ok.
Qed.

Lemma slot_refs_positive b slots :
  slot_refs b slots <> 0 <-> exists sid s, slots !! sid = Some s /\ b ∈ ss_blocks s.
Proof.
  induction slots as [|sid s slots Hn IH] using map_ind.
  - split; [done|]. intros (sid & s & Hs & _). by rewrite lookup_empty in Hs.
  - rewrite slot_refs_insert by done. split.
    + intros Hz. destruct (decide (b ∈ ss_blocks s)) as [Hb|Hb]; [exists sid, s; by rewrite lookup_insert_eq|].
      rewrite (occurrences_notin b) in Hz by done. apply IH in Hz as (sid' & s' & Hs' & Hb').
      exists sid', s'. rewrite lookup_insert_ne by congruence. done.
    + intros (sid' & s' & [[<- <-]|[Hne Hs']]%lookup_insert_Some & Hb).
      * pose proof (occurrences_in b _ Hb). lia.
      * enough (slot_refs b slots <> 0) by lia. apply IH. eauto.
Qed.

(** C27: the reference table is exact. Whatever sequence of publications,
    lookups, releases, retags and evictions the scheduler runs,
    [session_block_refs] maps each block to the number of times the slots name
    it and has no entry for the others, so the blocks that are protected from
    eviction are exactly those some slot names: none is lost while a slot
    still needs it, and none stays protected after its last slot is gone. *)
Theorem session_refs_exact t :
  session_reachable t ->
  (forall b, session_block_refs t !! b =
     if decide (slot_refs b (session_slots t) = 0) then None else Some (N.of_nat (slot_refs b (session_slots t)))) /\
  (forall b, b ∈ session_protected_blocks t <-> exists sid s, session_slots t !! sid = Some s /\ b ∈ ss_blocks s).
Proof.
  intros [Hr _]%session_reachable_ok. split; [exact Hr|]. intros b.
  unfold session_protected_blocks. rewrite elem_of_dom, Hr, <-slot_refs_positive.
  by case_decide.
Qed.

(** ** Eviction under pressure *)
Lemma candidate_le_total x y : candidate_le x y = true \/ candidate_le y x = true.
Proof.
  unfold candidate_le. destruct (String.leb_total x.2 y.2) as [->| ->];
    repeat case_bool_decide; cbn; auto; lia.
Qed.

Lemma candidate_le_trans x y z : candidate_le x y = true -> candidate_le y z = true -> candidate_le x z = true.
Proof.
  unfold candidate_le. rewrite !orb_true_iff, !andb_true_iff, !bool_decide_eq_true.
  intros [?|[? H1]] [?|[? H2]]; [left; lia..|right]. split; [congruence|].
  pose proof (transitivity (R := String.le) (x := x.2) (y := y.2) (z := z.2)) as Htr. unfold String.le in Htr.
  apply Is_true_true, Htr; by apply Is_true_true.
Qed.

Lemma candidate_le_antisym x y : candidate_le x y = true -> candidate_le y x = true -> x = y.
Proof.
  unfold candidate_le. rewrite !orb_true_iff, !andb_true_iff, !bool_decide_eq_true. destruct x as [a s], y as [b s']. cbn.
  intros [?|[? H1]] [?|[? H2]]; try lia. f_equal; [done|].
  apply (anti_symm (R := eq) String.le); unfold String.le; by apply Is_true_true.
Qed.

Lemma candidate_le_tick x y : candidate_le x y = true -> (x.1 <= y.1)%N.
Proof. unfold candidate_le. rewrite orb_true_iff, andb_true_iff, !bool_decide_eq_true. intros [?|[? _]]; lia. Qed.

(** Sorting forgets the order the slots were visited in. *)
Lemma sort_candidates_perm l l' : l ≡ₚ l' -> sort_by candidate_le l = sort_by candidate_le l'.
Proof.
  intros Hp. assert (AntiSymm eq (fun a b => candidate_le a b = true)) by (intros ? ?; apply candidate_le_antisym).
  apply (StronglySorted_unique (fun a b => candidate_le a b = true));
    [apply sort_by_sorted; [apply candidate_le_total|apply candidate_le_trans]..|].
  by rewrite !sort_by_perm.
Qed.

Lemma candidates_in_order_perm l l' now min_idle n f :
  l ≡ₚ l' -> candidates_in_order l now min_idle n f = candidates_in_order l' now min_idle n f.
Proof.
  intros Hp. unfold candidates_in_order. f_equal. f_equal. apply sort_candidates_perm. by rewrite Hp.
Qed.

Lemma evict_session_slots_spec l : forall acc,
  session_slots (foldl evict_session_slot acc l).1 = filter (fun p => p.1 ∉ l) (session_slots acc.1) /\
  (foldl evict_session_slot acc l).2 + slot_total (session_slots (foldl evict_session_slot acc l).1)
    = acc.2 + slot_total (session_slots acc.1).
Proof.
  induction l as [|sid l IH]; intros acc.
  { cbn. split; [|done]. symmetry. apply map_filter_id. set_solver. }
  cbn [foldl]. destruct (IH (evict_session_slot acc sid)) as [Hs Hn]. rewrite Hn, Hs. clear IH Hs Hn.
  unfold evict_session_slot. destruct (session_slots acc.1 !! sid) as [s|] eqn:Hs.
  - cbn. split; [|pose proof (slot_total_delete sid s _ Hs) as Ht; unfold slot_blocks_len in Ht; lia].
    apply map_eq. intros i. apply option_eq. intros x. rewrite !map_lookup_filter_Some, lookup_delete_Some. cbn.
    set_solver.
  - split; [|done]. apply map_filter_ext. intros i x Hi. cbn. split; [|set_solver].
    intros Hl. rewrite not_elem_of_cons. split; [congruence|done].
Qed.

(** The slots that pressure may take. *)
Definition pressure_eligible (c : RadixCache) (keepalive : N) (mode : PressureMode) (tier_filter : option Tier)
    (s : SessionSlot) : Prop :=
  ss_ref_count s = 0%N /\
  (u64_saturating_add (ss_last_access_tick s) (min_idle_ticks keepalive mode) <= logical_clock c)%N /\
  session_slot_has_tier_blocks c tier_filter s = true.

Section candidates.
Context (slots : gmap SessionId SessionSlot) (now min_idle : N) (matches : SessionSlot -> bool).

Definition eligible_keys : list (N * SessionId) :=
  (fun p => (ss_last_access_tick p.2, p.1)) <$>
    filter (fun p => is_idle_slot now min_idle p.2 && matches p.2 = true) (map_to_list slots).

Lemma eligible_keys_elem tick sid :
  (tick, sid) ∈ eligible_keys <->
  exists s, slots !! sid = Some s /\ ss_last_access_tick s = tick /\ is_idle_slot now min_idle s && matches s = true.
Proof.
  unfold eligible_keys. rewrite list_elem_of_fmap. split.
  - intros ([sid' s] & [= -> ->] & [Hk Hin]%list_elem_of_filter). apply elem_of_map_to_list in Hin. eauto.
  - intros (s & Hs & <- & Hk). exists (sid, s). split; [done|]. apply list_elem_of_filter. split; [done|].
    by apply elem_of_map_to_list.
Qed.

Lemma eligible_keys_NoDup : NoDup (snd <$> eligible_keys).
Proof.
  unfold eligible_keys. rewrite <-list_fmap_compose. change (snd ∘ _) with (fst : SessionId * SessionSlot -> SessionId).
  eapply sublist_NoDup; [apply (NoDup_fst_map_to_list slots)|]. apply fmap_sublist, sublist_filter.
Qed.

(** Sorted and cut: what is taken is below what is left. *)
Lemma taken_candidates n :
  exists taken left, taken ++ left ≡ₚ eligible_keys /\
    snd <$> taken = candidates_in_order (map_to_list slots) now min_idle n matches /\
    length taken = Nat.min n (length eligible_keys) /\
    (forall x y, x ∈ taken -> y ∈ left -> (x.1 <= y.1)%N) /\ NoDup (snd <$> taken ++ left).
Proof.
  set (sorted := sort_by candidate_le eligible_keys).
  pose proof (sort_by_perm candidate_le eligible_keys) as Hp. fold sorted in Hp.
  exists (take n sorted), (drop n sorted). rewrite take_drop. split_and!; [done|done| | |].
  - by rewrite length_take, Hp.
  - pose proof (sort_by_sorted candidate_le candidate_le_total candidate_le_trans eligible_keys) as Hs.
    fold sorted in Hs. rewrite <-(take_drop n sorted) in Hs. apply StronglySorted_app_inv in Hs as (_ & _ & Hle).
    intros x y Hx Hy. by apply candidate_le_tick, Hle.
  - rewrite Hp. apply eligible_keys_NoDup.
Qed.
End candidates.

(** C30: eviction under pressure. The slots it takes are idle for the mode's
    time, held by no request, and have blocks on the tier asked for; they are
    as many as asked for or all there are, and the least recently used of
    them, and they do not depend on the order the hash map lists the slots
    in. All other slots stay, the result is the number of blocks the taken
    slots named, and the table of references stays exact. *)
Theorem session_eviction_spec c keepalive mode max_slots tier_filter t :
  let eligible := pressure_eligible c keepalive mode tier_filter in
  let r := evict_inactive_session_slots_for_pressure c keepalive mode max_slots tier_filter t in
  exists evicted, NoDup evicted /\ length evicted <= max_slots /\
    session_slots r.1 = filter (fun p => p.1 ∉ evicted) (session_slots t) /\
    r.2 + slot_total (session_slots r.1) = slot_total (session_slots t) /\
    (forall sid, sid ∈ evicted -> exists s, session_slots t !! sid = Some s /\ eligible s) /\
    (forall sid s, session_slots r.1 !! sid = Some s -> eligible s -> length evicted = max_slots /\
       forall sid' s', sid' ∈ evicted -> session_slots t !! sid' = Some s' ->
         (ss_last_access_tick s' <= ss_last_access_tick s)%N) /\
    (forall slots, 0 < max_slots -> slots ≡ₚ map_to_list (session_slots t) ->
       candidates_in_order slots (logical_clock c) (min_idle_ticks keepalive mode) max_slots
         (session_slot_has_tier_blocks c tier_filter) = evicted) /\
    (table_ok t -> table_ok r.1).
Proof.
  intros eligible r. set (now := logical_clock c). set (idle := min_idle_ticks keepalive mode).
  set (matches := session_slot_has_tier_blocks c tier_filter).
  destruct (taken_candidates (session_slots t) now idle matches max_slots) as (taken & left & Hp & Hc & Hlen & Hle & Hnd).
  assert (inactive_session_slot_eviction_candidates (session_slots t) now idle max_slots matches = snd <$> taken) as Hcand.
  { unfold inactive_session_slot_eviction_candidates. case_bool_decide as Hz; [|done].
    destruct taken; [done|]. cbn in Hlen. lia. }
  assert (forall s, is_idle_slot now idle s && matches s = true <-> eligible s) as Hel.
  { intros s. unfold is_idle_slot, eligible, pressure_eligible. rewrite !andb_true_iff, !bool_decide_eq_true. tauto. }
  destruct (evict_session_slots_spec (snd <$> taken) (t, 0)) as [Hslots Hn].
  exists (snd <$> taken). unfold r, evict_inactive_session_slots_for_pressure. fold now idle matches. rewrite Hcand.
  rewrite fmap_app in Hnd. apply NoDup_app in Hnd as (Hnd & Hdisj & _).
  split_and!; [done|rewrite length_fmap; lia|done|done| | | |intros Hok; by apply evict_session_slots_ok].
  - intros sid ([tick sid'] & -> & Hin)%list_elem_of_fmap.
    assert ((tick, sid') ∈ eligible_keys (session_slots t) now idle matches) as Hk by (rewrite <-Hp; set_solver).
    apply eligible_keys_elem in Hk as (s & Hs & _ & Hk). exists s. by rewrite <-Hel.
  - rewrite Hslots. intros sid s [Hs Hnot]%map_lookup_filter_Some He. cbn in Hnot, Hs.
    assert ((ss_last_access_tick s, sid) ∈ taken ++ left) as Hin.
    { rewrite Hp. apply eligible_keys_elem. exists s. by rewrite Hel. }
    apply elem_of_app in Hin as [Hin|Hin]; [by apply (list_elem_of_fmap_2 snd) in Hin|].
    split.
    + rewrite length_fmap. rewrite <-Hp, length_app in Hlen. destruct left; [set_solver|]. cbn in Hlen. lia.
    + intros sid' s' ([tick sid''] & -> & Hin')%list_elem_of_fmap Hs'. cbn in Hs'.
      assert ((tick, sid'') ∈ eligible_keys (session_slots t) now idle matches) as Hk by (rewrite <-Hp; set_solver).
      apply eligible_keys_elem in Hk as (s'' & Hs'' & Ht & _). simplify_eq. exact (Hle _ _ Hin' Hin).
  - intros slots Hpos Hslots'. rewrite Hc. by apply candidates_in_order_perm.
Qed.

(** ** What a session lookup finds *)

(** The block as the loop classifies it. *)
Definition session_block_of (c : RadixCache) (b : BlockId) : LookupBlock :=
  mkLookupBlock (Some b) (from_option session_hit_kind Miss (block_metadata b c)).
Definition session_reusable (c : RadixCache) (b : BlockId) : bool :=
  negb (is_miss (lb_hit_kind (session_block_of c b))).

Lemma session_blocks_loop_spec c h blocks : forall lbs k adv,
  session_blocks_loop c h blocks = (lbs, k, adv) ->
  lbs = session_block_of c <$> take (S k) blocks /\ k <= length blocks /\
  Forall (fun b => session_reusable c b = true) (take k blocks) /\
  (forall b, blocks !! k = Some b -> session_reusable c b = false).
Proof.
  induction blocks as [|b blocks IH]; intros lbs k adv; [intros [= <- <- <-]; by split_and!|].
  cbn [session_blocks_loop]. unfold session_reusable, session_block_of. cbn [lb_hit_kind].
  destruct (block_metadata b c) as [md|] eqn:Hb; cbn [from_option].
  2: { intros [= <- <- <-]. cbn. rewrite Hb. split_and!; [done|lia|constructor|]. intros ? [= <-]. by rewrite Hb. }
  destruct (is_miss (session_hit_kind md)) eqn:Hm.
  - intros [= <- <- <-]. cbn. rewrite Hb. split_and!; [done|lia|constructor|]. intros ? [= <-]. rewrite Hb. cbn. by rewrite Hm.
  - destruct (session_blocks_loop c h blocks) as [[rest k'] adv'] eqn:E. intros [= <- <- <-].
    destruct (IH _ _ _ eq_refl) as (-> & Hk & Hall & Hstop). cbn [take fmap list_fmap length lookup].
    split_and!; [cbn; by rewrite Hb|lia| |exact Hstop].
    constructor; [|exact Hall]. rewrite Hb. cbn. by rewrite Hm.
Qed.

Lemma lookup_session_blocks_spec c blocks len h :
  exists k adv, lookup_session_blocks c blocks len h =
      mkLookupOutcome (Nat.min len (k * block_size c)) (session_block_of c <$> take (S k) blocks) adv /\
    k <= length blocks /\ Forall (fun b => session_reusable c b = true) (take k blocks) /\
    (forall b, blocks !! k = Some b -> session_reusable c b = false).
Proof.
  unfold lookup_session_blocks. destruct (session_blocks_loop c h blocks) as [[lbs k] adv] eqn:E.
  apply session_blocks_loop_spec in E as (-> & ?). by exists k, adv.
Qed.

(** C31: a session lookup hands out reusable blocks and holds their slot. When
    it finds something, it is the longest run of reusable blocks of the
    session's slot within the blocks that both the committed length and the
    prompt cover, and its length is theirs; the slot is held once more and
    touched, and nothing else changes. When it finds nothing, either nothing
    changed or the slot, whose first block is no longer reusable, was
    dropped. *)
Theorem session_lookup_spec c sid prompt_len h t :
  0 < block_size c ->
  (forall slot, session_slots t !! sid = Some slot ->
     ss_committed_len slot <= length (ss_blocks slot) * block_size c) ->
  match lookup_session_slot_or_stage c sid prompt_len h t with
  | (t', Some r) => exists slot k, session_slots t !! sid = Some slot /\ 0 < k /\ k <= length (ss_blocks slot) /\
      sl_hold r = mkSessionSlotHold sid /\
      let n := Nat.min (ss_committed_len slot) prompt_len / block_size c in
      lo_matched_len (sl_lookup r) = k * block_size c /\ k <= n /\
      lo_blocks (sl_lookup r) = session_block_of c <$> take (Nat.min n (S k)) (ss_blocks slot) /\
      Forall (fun b => session_reusable c b = true) (take k (ss_blocks slot)) /\
      (forall b, k < n -> ss_blocks slot !! k = Some b -> session_reusable c b = false) /\
      t' = set_slots (<[sid := mkSessionSlot (ss_blocks slot) (ss_committed_len slot)
                                 (u32_saturating_add (ss_ref_count slot) 1) (logical_clock c)]> (session_slots t)) t
  | (t', None) => t' = t \/
      exists slot b, session_slots t !! sid = Some slot /\ head (ss_blocks slot) = Some b /\
        session_reusable c b = false /\ t' = drop_session_slot sid t
  end.
Proof.
  intros Hbs Hwf. unfold lookup_session_slot_or_stage. destruct (session_slots t !! sid) as [slot|] eqn:Hs; [|by left].
  specialize (Hwf slot eq_refl). set (n := Nat.min (ss_committed_len slot) prompt_len / block_size c).
  case_bool_decide as Hn; [by left|].
  assert (n <= length (ss_blocks slot)) as Hnl.
  { unfold n. apply Nat.Div0.div_le_upper_bound. lia. }
  destruct (lookup_session_blocks_spec c (take n (ss_blocks slot)) (n * block_size c) h) as (k & adv & -> & Hk & Hall & Hstop).
  cbn [lo_matched_len lo_blocks]. rewrite length_take in Hk.
  case_bool_decide as Hz.
  - right. assert (k = 0) as -> by (destruct k; [done|]; nia).
    destruct (ss_blocks slot) as [|b bs] eqn:Hb; [cbn in Hnl; lia|]. exists slot, b. rewrite Hb. split_and!; try done.
    apply Hstop. destruct n; done.
  - exists slot, k. cbn zeta. assert (0 < k) by (destruct k; lia). split_and!; try done; try lia.
    + cbn. fold n. nia.
    + cbn. by rewrite take_take, Nat.min_comm.
    + rewrite take_take, Nat.min_l in Hall by lia. done.
    + intros b Hkn Hb. apply Hstop. by rewrite lookup_take_lt.
Qed.
