(* ===== verification/CoordinatorQueue.v ===== *)
(** * The command queue under interleaving

    The clients' side of [infer/src/kv_tier/coordinator/builder.rs] and the
    worker's loop of [coordinator.rs] as a transition system on what they
    share: the bounded channel and the control block. A submission is three
    atomic steps, minting the ticket, sending the command and accounting for
    it; the worker's turn is three as well, receiving, [on_start] and
    [on_finish]. What a handler does in between is in [Coordinator.v]. *)

From S2P Require Import Prelude Lists Tier HostArena HostPool CoordinatorControl.

(** ** States *)
Definition command_ticket (cmd : CoordinatorCommand) : option QueueTicket :=
  match cmd with
  | CmdPlan t _ => Some (TPlan t)
  | CmdStore t _ => Some (TStore t)
  | CmdFetch t _ => Some (TFetch t)
  | CmdShutdown => None
  end.

Inductive Worker :=
  | Idle
  | Received (cmd : CoordinatorCommand)
  | Running (t : QueueTicket)
  | Stopped (unfinished : option QueueTicket).

(** The handle, the channel and the worker; [minted] are commands that have a
    ticket and wait for their [try_send], [unaccounted] the tickets sent whose
    [on_submit] has not run. *)
Record Queues := mkQueues {
  next_ticket : N;
  minted : list (QueueTicket * CoordinatorCommand);
  channel : list CoordinatorCommand;
  unaccounted : list QueueTicket;
  worker : Worker;
  control : CoordinatorControl;
}.

Definition Queues_new (queue_capacity : N) : Queues :=
  mkQueues 1 [] [] [] Idle (CoordinatorControl_new (N.max queue_capacity 1)).

Definition connected (w : Worker) : bool := match w with Stopped _ => false | _ => true end.

(** [next_ticket.fetch_add(1)] of a submission of the given kind; an empty
    batch is not submitted. *)
Inductive batch :=
  | PlanBatch (blocks : list PrefetchPlanRequest)
  | StoreBatch (blocks : list StoreRequest)
  | FetchBatch (blocks : list FetchRequest).

Definition batch_is_empty (b : batch) : bool :=
  match b with PlanBatch [] | StoreBatch [] | FetchBatch [] => true | _ => false end.

Definition ticketed (b : batch) (n : N) : QueueTicket * CoordinatorCommand :=
  match b with
  | PlanBatch blocks => (TPlan n, CmdPlan n blocks)
  | StoreBatch blocks => (TStore n, CmdStore n blocks)
  | FetchBatch blocks => (TFetch n, CmdFetch n blocks)
  end.

Definition mint (b : batch) (s : Queues) : Queues :=
  if batch_is_empty b then s
  else mkQueues (fetch_add (next_ticket s)) (ticketed b (next_ticket s) :: minted s) (channel s) (unaccounted s)
         (worker s) (control s).

(** [try_send] of the minted command at [i]: full, disconnected or sent. *)
Definition try_send_ticket (i : nat) (s : Queues) : Queues :=
  match minted s !! i with
  | None => s
  | Some (t, cmd) =>
      let rest := delete i (minted s) in
      if negb (connected (worker s)) then
        mkQueues (next_ticket s) rest (channel s) (unaccounted s) (worker s) (control s)
      else if (cc_capacity (control s) <=? N.of_nat (length (channel s)))%N then
        mkQueues (next_ticket s) rest (channel s) (unaccounted s) (worker s) (on_reject (ticket_kind t) (control s))
      else
        mkQueues (next_ticket s) rest (channel s ++ [cmd]) (t :: unaccounted s) (worker s) (control s)
  end.

(** [self.control.on_submit(ticket)] after the send. *)
Definition account (i : nat) (s : Queues) : Queues :=
  match unaccounted s !! i with
  | None => s
  | Some t => mkQueues (next_ticket s) (minted s) (channel s) (delete i (unaccounted s)) (worker s)
                (on_submit t (control s))
  end.

Definition try_send_shutdown (s : Queues) : Queues :=
  if negb (connected (worker s)) || (cc_capacity (control s) <=? N.of_nat (length (channel s)))%N then s
  else mkQueues (next_ticket s) (minted s) (channel s ++ [CmdShutdown]) (unaccounted s) (worker s) (control s).

Definition client_cancel (t : QueueTicket) (s : Queues) : Queues :=
  mkQueues (next_ticket s) (minted s) (channel s) (unaccounted s) (worker s) (cancel t (control s)).1.

Definition receive (s : Queues) : Queues :=
  match worker s, channel s with
  | Idle, cmd :: rest => mkQueues (next_ticket s) (minted s) rest (unaccounted s) (Received cmd) (control s)
  | _, _ => s
  end.

Definition start (s : Queues) : Queues :=
  match worker s with
  | Received cmd =>
      match command_ticket cmd with
      | Some t => mkQueues (next_ticket s) (minted s) (channel s) (unaccounted s) (Running t) (on_start t (control s))
      | None => mkQueues (next_ticket s) (minted s) (channel s) (unaccounted s) (Stopped None) (control s)
      end
  | _ => s
  end.

(** The handler returns an outcome, or an error that ends the worker. *)
Definition finish (outcome : option QueueOutcome) (s : Queues) : Queues :=
  match worker s with
  | Running t =>
      match outcome with
      | Some o => mkQueues (next_ticket s) (minted s) (channel s) (unaccounted s) Idle (on_finish t o (control s))
      | None => mkQueues (next_ticket s) (minted s) (channel s) (unaccounted s) (Stopped (Some t)) (control s)
      end
  | _ => s
  end.

(** ** Runs *)
Inductive action :=
  | Mint (b : batch)
  | TrySend (i : nat)
  | Account (i : nat)
  | SendShutdown
  | Cancel (t : QueueTicket)
  | Receive
  | Start
  | Finish (outcome : option QueueOutcome).

Definition act (a : action) (s : Queues) : Queues :=
  match a with
  | Mint b => mint b s
  | TrySend i => try_send_ticket i s
  | Account i => account i s
  | SendShutdown => try_send_shutdown s
  | Cancel t => client_cancel t s
  | Receive => receive s
  | Start => start s
  | Finish o => finish o s
  end.

Definition run_actions (l : list action) (s : Queues) : Queues := foldl (fun s a => act a s) s l.

(** ** Arithmetic modulo the width

    The counters wrap, so what they count is known modulo [2^64]. *)
Definition weq (x y : N) : Prop := u64_wrap x = u64_wrap y.

#[export] Instance weq_equivalence : Equivalence weq.
Proof. unfold weq. split; [by intros x|by intros x y ->|by intros x y z -> ->]. Qed.

#[export] Instance weq_add : Proper (weq ==> weq ==> weq) N.add.
Proof.
  unfold weq, u64_wrap. intros x x' Hx y y' Hy.
  by rewrite N.Div0.add_mod, Hx, Hy, <-N.Div0.add_mod.
Qed.

Lemma wrap_weq x : weq (u64_wrap x) x.
Proof. unfold weq, u64_wrap. by rewrite N.Div0.mod_mod. Qed.

Lemma fetch_add_weq x : weq (fetch_add x) (x + 1).
Proof. apply wrap_weq. Qed.

Lemma weq_period x : weq (x + 18446744073709551616) x.
Proof.
  unfold weq, u64_wrap. rewrite N.Div0.add_mod. rewrite N.Div0.mod_same, N.add_0_r. apply N.Div0.mod_mod.
Qed.

Lemma weq_cancel c x y : weq (x + c) (y + c) -> weq x y.
Proof.
  intros H. assert (exists d, weq (c + d) 0) as [d Hd].
  { exists (18446744073709551616 - u64_wrap c)%N.
    pose proof (N.mod_lt c 18446744073709551616 ltac:(done)) as Hc.
    transitivity (u64_wrap c + (18446744073709551616 - u64_wrap c))%N; [apply weq_add; [by rewrite wrap_weq|done]|].
    unfold u64_wrap in *. replace (_ + _)%N with (0 + 18446744073709551616)%N by lia. apply weq_period. }
  rewrite <-(N.add_0_r x), <-(N.add_0_r y), <-Hd, !N.add_assoc. by apply weq_add.
Qed.

Lemma fetch_sub_weq x : weq (fetch_sub x + 1) x.
Proof.
  unfold fetch_sub, u64_add. rewrite wrap_weq. rewrite <-N.add_assoc. apply weq_period.
Qed.

(** Add or drop the same amount on both sides. *)
Lemma weq_shift x y x' y' c : weq x y -> x' = (x + c)%N -> y' = (y + c)%N -> weq x' y'.
Proof. intros H -> ->. by apply weq_add. Qed.

Lemma weq_unshift x y x' y' c : weq x y -> x = (x' + c)%N -> y = (y' + c)%N -> weq x' y'.
Proof. intros H -> ->. by apply (weq_cancel c). Qed.

Lemma eq_weq x y : x = y -> weq x y.
Proof. by intros ->. Qed.

Lemma weq_small x y : weq x y -> (x <= u64_max)%N -> (y <= u64_max)%N -> x = y.
Proof. unfold weq, u64_wrap, u64_max. intros H Hx Hy. rewrite !N.mod_small in H by lia. done. Qed.

Lemma wrap_small x : (u64_wrap x <= u64_max)%N.
Proof. unfold u64_wrap, u64_max. pose proof (N.mod_lt x 18446744073709551616 ltac:(done)). lia. Qed.

(** ** Counting *)
Definition kinds (l : list CoordinatorCommand) : list QueueKind := omap (fun c => ticket_kind <$> command_ticket c) l.

Definition in_channel (k : QueueKind) (s : Queues) : N := N.of_nat (occurrences k (kinds (channel s))).
Definition in_accounting (k : QueueKind) (s : Queues) : N := N.of_nat (occurrences k (ticket_kind <$> unaccounted s)).
Definition of_kind (k : QueueKind) (t : option QueueTicket) : N :=
  if decide (ticket_kind <$> t = Some k) then 1 else 0.
Definition received (k : QueueKind) (s : Queues) : N :=
  match worker s with Received cmd => of_kind k (command_ticket cmd) | _ => 0 end.
Definition running (k : QueueKind) (s : Queues) : N :=
  match worker s with Running t => of_kind k (Some t) | Stopped t => of_kind k t | _ => 0 end.

(** The counters of one queue add up, modulo their width. *)
Record accounted (k : QueueKind) (s : Queues) : Prop := mk_accounted {
  ac_queued : weq (qc_queued (queue k (control s)) + in_accounting k s) (in_channel k s + received k s);
  ac_in_flight : weq (qc_in_flight (queue k (control s))) (running k s);
  ac_submitted : weq (qc_submitted (queue k (control s)) + in_accounting k s)
    (in_channel k s + received k s + running k s + qc_completed (queue k (control s))
     + qc_failed (queue k (control s)) + qc_cancelled (queue k (control s)));
  ac_widths : (qc_queued (queue k (control s)) <= u64_max /\ qc_in_flight (queue k (control s)) <= u64_max)%N;
}.

Record queues_ok (s : Queues) : Prop := mk_queues_ok {
  qo_accounted : forall k, accounted k s;
  qo_capacity : (N.of_nat (length (channel s)) <= cc_capacity (control s))%N;
  qo_minted : Forall (fun p => command_ticket p.2 = Some p.1) (minted s);
}.

Lemma of_kind_same t : of_kind (ticket_kind t) (Some t) = 1%N.
Proof. unfold of_kind. by rewrite decide_True. Qed.

Lemma of_kind_other k t : k <> ticket_kind t -> of_kind k (Some t) = 0%N.
Proof. intros Hk. unfold of_kind. rewrite decide_False; [done|]. cbn. congruence. Qed.

Lemma queue_on_queue k k' f c : queue k (on_queue k' f c) = if decide (k = k') then f (queue k c) else queue k c.
Proof. by destruct k, k'. Qed.

Lemma queue_set_sets k l x c : queue k (set_sets l x c) = queue k c.
Proof. by destruct k. Qed.

Lemma capacity_on_queue k f c : cc_capacity (on_queue k f c) = cc_capacity c.
Proof. by destruct k. Qed.

Lemma in_accounting_delete k t i l :
  l !! i = Some t ->
  N.of_nat (occurrences k (ticket_kind <$> l))
  = (of_kind k (Some t) + N.of_nat (occurrences k (ticket_kind <$> delete i l)))%N.
Proof.
  intros Hi. pose proof (fmap_Permutation ticket_kind _ _ (delete_Permutation _ _ _ Hi)) as Hp.
  rewrite (occurrences_perm k _ _ Hp). rewrite fmap_cons, occurrences_cons.
  unfold of_kind. cbn [fmap option_fmap option_map]. case_decide as H1; case_decide as H2; try congruence; lia.
Qed.

Lemma in_channel_snoc k cmd l :
  N.of_nat (occurrences k (kinds (l ++ [cmd]))) = (N.of_nat (occurrences k (kinds l)) + of_kind k (command_ticket cmd))%N.
Proof.
  unfold kinds, of_kind. rewrite omap_app, occurrences_app. cbn [omap list_omap].
  destruct (command_ticket cmd) as [t|]; cbn [fmap option_fmap option_map]; [|change (occurrences k []) with 0; rewrite decide_False by done; lia].
  rewrite occurrences_cons. change (occurrences k []) with 0. case_decide as H1; case_decide as H2; try congruence; lia.
Qed.

Lemma in_channel_cons k cmd l :
  N.of_nat (occurrences k (kinds (cmd :: l))) = (of_kind k (command_ticket cmd) + N.of_nat (occurrences k (kinds l)))%N.
Proof.
  unfold kinds, of_kind. cbn [omap list_omap]. destruct (command_ticket cmd) as [t|]; cbn [fmap option_fmap option_map]; [|by rewrite decide_False by done].
  rewrite occurrences_cons. case_decide as H1; case_decide as H2; try congruence; lia.
Qed.

Lemma accounted_init capacity k : accounted k (Queues_new capacity).
Proof. by destruct k. Qed.

(** A step that changes neither the queues' contents nor their counters. *)
Lemma accounted_same k s s' :
  accounted k s -> in_accounting k s' = in_accounting k s -> in_channel k s' = in_channel k s ->
  received k s' = received k s -> running k s' = running k s ->
  (exists rejected, queue k (control s') = mkQueueCounters (qc_queued (queue k (control s)))
     (qc_in_flight (queue k (control s))) (qc_submitted (queue k (control s))) (qc_completed (queue k (control s)))
     (qc_failed (queue k (control s))) (qc_cancelled (queue k (control s))) rejected) ->
  accounted k s'.
Proof.
  intros [Hq Hf Hs Hw] Ha Hc Hr Hn (rej & Hctl). split; rewrite ?Hctl, ?Ha, ?Hc, ?Hr, ?Hn; cbn; assumption.
Qed.

Lemma same_counters q : exists rejected, q = mkQueueCounters (qc_queued q) (qc_in_flight q) (qc_submitted q)
  (qc_completed q) (qc_failed q) (qc_cancelled q) rejected.
Proof. exists (qc_rejected q). by destruct q. Qed.

Lemma cancel_queue k t c : queue k (cancel t c).1 = queue k c /\ cc_capacity (cancel t c).1 = cc_capacity c.
Proof. unfold cancel. case_bool_decide; [done|]. by destruct k. Qed.

Lemma accounted_send k t cmd s :
  command_ticket cmd = Some t -> accounted k s ->
  accounted k (mkQueues (next_ticket s) (minted s) (channel s ++ [cmd]) (t :: unaccounted s) (worker s) (control s)).
Proof.
  intros Hcmd [Hq Hf Hs Hw].
  set (s' := mkQueues _ _ _ _ _ _).
  assert (in_accounting k s' = in_accounting k s + of_kind k (Some t))%N as Ha.
  { unfold in_accounting, s'. cbn [unaccounted]. rewrite fmap_cons, occurrences_cons. unfold of_kind. cbn [fmap option_fmap option_map].
    case_decide as H1; case_decide as H2; try congruence; lia. }
  assert (in_channel k s' = in_channel k s + of_kind k (Some t))%N as Hc.
  { unfold in_channel, s'. cbn [channel]. by rewrite in_channel_snoc, Hcmd. }
  assert (received k s' = received k s /\ running k s' = running k s) as [Hr Hn] by done.
  split; rewrite ?Ha, ?Hc, ?Hr, ?Hn; [|exact Hf| |exact Hw].
  - apply (weq_shift _ _ _ _ (of_kind k (Some t)) Hq); unfold s'; cbn [control]; lia.
  - apply (weq_shift _ _ _ _ (of_kind k (Some t)) Hs); unfold s'; cbn [control]; lia.
Qed.

Lemma accounted_account k t i s :
  unaccounted s !! i = Some t -> accounted k s ->
  accounted k (mkQueues (next_ticket s) (minted s) (channel s) (delete i (unaccounted s)) (worker s)
                 (on_submit t (control s))).
Proof.
  intros Hi [Hq Hf Hs Hw]. set (s' := mkQueues _ _ _ _ _ _).
  assert (in_accounting k s = of_kind k (Some t) + in_accounting k s')%N as Ha by by apply in_accounting_delete.
  assert (in_channel k s' = in_channel k s /\ received k s' = received k s /\ running k s' = running k s)
    as (Hc & Hr & Hn) by done.
  rewrite Ha in Hq, Hs.
  split; rewrite ?Hc, ?Hr, ?Hn; unfold s'; cbn [control]; unfold on_submit;
    rewrite queue_set_sets, queue_on_queue; fold s'; destruct (decide (k = ticket_kind t)) as [->|Hk];
    rewrite ?of_kind_same, ?(of_kind_other k t Hk) in Hq, Hs;
    cbn [qc_queued qc_in_flight qc_submitted qc_completed qc_failed qc_cancelled]; try done.
  - rewrite fetch_add_weq. by rewrite <-N.add_assoc.
  - rewrite fetch_add_weq. by rewrite <-N.add_assoc.
  - split; [apply wrap_small|apply Hw].
Qed.

Lemma accounted_receive k cmd rest s :
  channel s = cmd :: rest -> worker s = Idle -> accounted k s ->
  accounted k (mkQueues (next_ticket s) (minted s) rest (unaccounted s) (Received cmd) (control s)).
Proof.
  intros Hch Hwk [Hq Hf Hs Hw]. set (s' := mkQueues _ _ _ _ _ _).
  assert (in_channel k s = of_kind k (command_ticket cmd) + in_channel k s')%N as Hc.
  { unfold in_channel. rewrite Hch. apply in_channel_cons. }
  assert (received k s = 0 /\ running k s = 0)%N as [Hr Hn] by (unfold received, running; by rewrite Hwk).
  assert (received k s' = of_kind k (command_ticket cmd) /\ running k s' = 0)%N as [Hr' Hn'] by done.
  rewrite Hc, Hr, Hn in *. split; rewrite ?Hr', ?Hn'; unfold s'; cbn [control]; fold s'; try done.
  - rewrite (N.add_comm (in_channel k s')). by rewrite N.add_0_r in Hq.
  - rewrite (N.add_comm (in_channel k s')). rewrite !N.add_0_r in Hs. by rewrite N.add_0_r.
Qed.

Lemma accounted_start k cmd t s :
  worker s = Received cmd -> command_ticket cmd = Some t -> accounted k s ->
  accounted k (mkQueues (next_ticket s) (minted s) (channel s) (unaccounted s) (Running t) (on_start t (control s))).
Proof.
  intros Hwk Hcmd [Hq Hf Hs Hw]. set (s' := mkQueues _ _ _ _ _ _).
  assert (received k s = of_kind k (Some t) /\ running k s = 0)%N as [Hr Hn].
  { unfold received, running. by rewrite Hwk, Hcmd. }
  assert (in_channel k s' = in_channel k s /\ in_accounting k s' = in_accounting k s /\
    received k s' = 0 /\ running k s' = of_kind k (Some t))%N as (Hc & Ha & Hr' & Hn') by done.
  rewrite Hr, Hn in *. destruct (decide (k = ticket_kind t)) as [->|Hk].
  - rewrite of_kind_same in *.
    assert (queue (ticket_kind t) (control s') = let q := queue (ticket_kind t) (control s) in
      mkQueueCounters (fetch_sub (qc_queued q)) (fetch_add (qc_in_flight q)) (qc_submitted q) (qc_completed q)
        (qc_failed q) (qc_cancelled q) (qc_rejected q)) as Hctl by by destruct t.
    split; rewrite Hctl, ?Hc, ?Ha, ?Hr', ?Hn'; cbn [qc_queued qc_in_flight qc_submitted qc_completed qc_failed qc_cancelled].
    + apply (weq_cancel 1%N). rewrite <-N.add_assoc, (N.add_comm _ 1%N), N.add_assoc, fetch_sub_weq, N.add_0_r. exact Hq.
    + rewrite fetch_add_weq. exact (weq_add _ _ Hf 1%N 1%N eq_refl).
    + rewrite N.add_0_r in *. exact Hs.
    + split; apply wrap_small.
  - rewrite (of_kind_other k t Hk) in *.
    assert (queue k (control s') = queue k (control s)) as Hctl by (by destruct t, k).
    split; rewrite Hctl, ?Hc, ?Ha, ?Hr', ?Hn'; [exact Hq|exact Hf|exact Hs|exact Hw].
Qed.

Lemma accounted_finish k t o s :
  worker s = Running t -> accounted k s ->
  accounted k (mkQueues (next_ticket s) (minted s) (channel s) (unaccounted s) Idle (on_finish t o (control s))).
Proof.
  intros Hwk [Hq Hf Hs Hw]. set (s' := mkQueues _ _ _ _ _ _).
  assert (received k s = 0 /\ running k s = of_kind k (Some t))%N as [Hr Hn].
  { unfold received, running. by rewrite Hwk. }
  assert (in_channel k s' = in_channel k s /\ in_accounting k s' = in_accounting k s /\
    received k s' = 0 /\ running k s' = 0)%N as (Hc & Ha & Hr' & Hn') by done.
  rewrite Hr, Hn in *. destruct (decide (k = ticket_kind t)) as [->|Hk].
  - rewrite of_kind_same in *.
    assert (queue (ticket_kind t) (control s') = let q := queue (ticket_kind t) (control s) in
      count_outcome o (mkQueueCounters (qc_queued q) (fetch_sub (qc_in_flight q)) (qc_submitted q) (qc_completed q)
        (qc_failed q) (qc_cancelled q) (qc_rejected q))) as Hctl by by destruct t.
    assert (weq (fetch_sub (qc_in_flight (queue (ticket_kind t) (control s)))) 0) as Hf'.
    { apply (weq_cancel 1%N). by rewrite fetch_sub_weq. }
    split; rewrite Hctl, ?Hc, ?Ha, ?Hr', ?Hn'.
    + destruct o; exact Hq.
    + destruct o; exact Hf'.
    + etransitivity; [destruct o; exact Hs|].
      destruct o; cbn [count_outcome qc_completed qc_failed qc_cancelled]; rewrite fetch_add_weq; apply eq_weq; lia.
    + destruct o; (split; [apply Hw|apply wrap_small]).
  - rewrite (of_kind_other k t Hk) in *.
    assert (queue k (control s') = queue k (control s)) as Hctl by (by destruct t, k).
    split; rewrite Hctl, ?Hc, ?Ha, ?Hr', ?Hn'; [exact Hq|exact Hf|exact Hs|exact Hw].
Qed.

(** Every step keeps the accounts and the bound of the channel. *)
Lemma queues_ok_act a s : queues_ok s -> queues_ok (act a s).
Proof.
  intros Hs. pose proof Hs as [Hacc Hcap Hmint]. destruct a as [b|i|i| |t| | |o]; cbn [act].
  - unfold mint. destruct (batch_is_empty b); [done|]. split; [|done|].
    + intros k. apply (accounted_same k s); [apply Hacc|done..|apply same_counters].
    + constructor; [by destruct b|done].
  - unfold try_send_ticket. destruct (minted s !! i) as [[t cmd]|] eqn:Hi; [|done].
    assert (Forall (fun p => command_ticket p.2 = Some p.1) (delete i (minted s))) as Hrest by by apply Forall_delete.
    destruct (negb _).
    { split; [|done|done]. intros k. apply (accounted_same k s); [apply Hacc|done..|apply same_counters]. }
    destruct (N.leb_spec (cc_capacity (control s)) (N.of_nat (length (channel s)))) as [Hfull|Hroom].
    + split; [|cbn; unfold on_reject; by rewrite capacity_on_queue|done]. intros k.
      apply (accounted_same k s); [apply Hacc|done..|]. cbn. unfold on_reject. rewrite queue_on_queue.
      case_decide; [|apply same_counters]. eexists. done.
    + split; [|cbn; rewrite length_app; cbn; lia|done]. intros k.
      apply (accounted_send k t cmd s) in Hacc as []; [by split|]. exact (Forall_lookup_1 _ _ _ _ Hmint Hi).
  - unfold account. destruct (unaccounted s !! i) as [t|] eqn:Hi; [|done]. split; [|by destruct t|done].
    intros k. by apply accounted_account.
  - unfold try_send_shutdown. destruct (negb _); [done|]. cbn [orb].
    destruct (N.leb_spec (cc_capacity (control s)) (N.of_nat (length (channel s)))); [done|].
    split; [|cbn; rewrite length_app; cbn; lia|done]. intros k.
    apply (accounted_same k s); [apply Hacc|done| |done..|apply same_counters].
    unfold in_channel. cbn [channel]. rewrite in_channel_snoc. apply N.add_0_r.
  - split; [|cbn; rewrite (proj2 (cancel_queue KPlan t (control s))); exact Hcap|exact Hmint]. intros k.
    apply (accounted_same k s); [apply Hacc|done..|]. cbn. rewrite (proj1 (cancel_queue k t (control s))). apply same_counters.
  - unfold receive. destruct (worker s) eqn:Hwk; [|done..]. destruct (channel s) as [|cmd rest] eqn:Hch; [done|].
    split; [|cbn in *; lia|done]. intros k. by apply (accounted_receive k cmd rest s).
  - unfold start. destruct (worker s) as [|cmd| |] eqn:Hwk; [done| |done..].
    destruct (command_ticket cmd) as [t|] eqn:Ht; (split; [|by try destruct t|done]); intros k.
    + by apply (accounted_start k cmd t s).
    + apply (accounted_same k s); [apply Hacc|done|done| | |apply same_counters];
        unfold received, running; by rewrite Hwk, ?Ht.
  - unfold finish. destruct (worker s) as [| |t|] eqn:Hwk; [done|done| |done].
    destruct o as [o|]; (split; [|by try (destruct t, o)|done]); intros k.
    + by apply accounted_finish.
    + apply (accounted_same k s); [apply Hacc|done|done| | |apply same_counters];
        unfold received, running; by rewrite Hwk.
Qed.

Lemma queues_ok_run l s : queues_ok s -> queues_ok (run_actions l s).
Proof. revert s. induction l as [|a l IH]; intros s Hs; [done|]. cbn. apply IH. by apply queues_ok_act. Qed.

Lemma queues_ok_new capacity : queues_ok (Queues_new capacity).
Proof. split; [apply accounted_init|cbn; lia|done]. Qed.

Lemma capacity_act a s : cc_capacity (control (act a s)) = cc_capacity (control s).
Proof.
  destruct a as [b|i|i| |t| | |o]; cbn [act].
  - unfold mint. by destruct (batch_is_empty b).
  - unfold try_send_ticket. destruct (minted s !! i) as [[t cmd]|]; [|done]. destruct (negb _); [done|].
    destruct (_ <=? _)%N; [|done]. cbn. unfold on_reject. by rewrite capacity_on_queue.
  - unfold account. destruct (unaccounted s !! i) as [t|]; [|done]. by destruct t.
  - unfold try_send_shutdown. by destruct (_ || _).
  - apply (cancel_queue KPlan).
  - unfold receive. by destruct (worker s), (channel s).
  - unfold start. destruct (worker s) as [|cmd| |]; try done. destruct (command_ticket cmd) as [t|]; [|done]. by destruct t.
  - unfold finish. destruct (worker s) as [| |t|]; try done. destruct o as [o|]; [|done]. by destruct t, o.
Qed.

Lemma capacity_run l s : cc_capacity (control (run_actions l s)) = cc_capacity (control s).
Proof. revert s. induction l as [|a l IH]; intros s; [done|].
  change (run_actions (a :: l) s) with (run_actions l (act a s)). rewrite IH. apply capacity_act. Qed.

Lemma of_kind_le k t : (of_kind k t <= 1)%N.
Proof. unfold of_kind. case_decide; lia. Qed.

Lemma in_channel_le k s : (in_channel k s <= N.of_nat (length (channel s)))%N.
Proof.
  assert (length (kinds (channel s)) <= length (channel s)) as Hlen.
  { unfold kinds. induction (channel s) as [|c l IH]; [done|]. cbn [omap list_omap].
    destruct (ticket_kind <$> command_ticket c); cbn [length]; lia. }
  pose proof (occurrences_length k (kinds (channel s))). unfold in_channel. lia.
Qed.

(** The queue counters tell the truth. Whatever the clients and the worker
    do, in whatever order their atomic steps interleave: the channel is within
    its capacity; [in_flight] is exactly the number of commands being handled;
    [queued] is, modulo its width, the commands waiting less the submissions
    sent but not accounted for yet; every submission is waiting, being handled,
    completed, failed or cancelled; and whenever no submission is between
    its send and its accounting, [queued] is exact and the load is at most one
    above the capacity. *)
Theorem coordinator_accounting capacity l k :
  (capacity < u64_max)%N ->
  let s := run_actions l (Queues_new capacity) in
  let q := queue k (control s) in
  (N.of_nat (length (channel s)) <= N.max capacity 1)%N /\
  qc_in_flight q = running k s /\
  weq (qc_queued q + in_accounting k s) (in_channel k s + received k s) /\
  weq (qc_submitted q + in_accounting k s)
    (in_channel k s + received k s + running k s + qc_completed q + qc_failed q + qc_cancelled q) /\
  (in_accounting k s = 0%N ->
     qc_queued q = (in_channel k s + received k s)%N /\
     (qs_active (queue_stats k (control s)) <= N.max capacity 1 + 1)%N).
Proof.
  intros Hcapacity s q. destruct (queues_ok_run l _ (queues_ok_new capacity)) as [Hacc Hcap _]. fold s in Hacc, Hcap.
  assert (cc_capacity (control s) = N.max capacity 1) as Hc by (unfold s; rewrite capacity_run; cbn; lia).
  rewrite Hc in Hcap. destruct (Hacc k) as [Hq Hf Hs [Hw1 Hw2]]. fold q in Hq, Hf, Hs, Hw1, Hw2.
  assert (running k s + received k s <= 1)%N as Hwk.
  { unfold running, received. destruct (worker s); try apply of_kind_le; try lia.
    all: rewrite ?N.add_0_r, ?N.add_0_l; apply of_kind_le. }
  pose proof (in_channel_le k s) as Hch. unfold u64_max in *.
  assert (qc_in_flight q = running k s) as Hflight by (apply weq_small; [done|unfold u64_max; lia..]).
  split_and!; [done|done|done|done|]. intros Ha. rewrite Ha, N.add_0_r in Hq.
  assert (qc_queued q = (in_channel k s + received k s)%N) as Hqueued by (apply weq_small; [done|unfold u64_max; lia..]).
  split; [done|]. unfold qs_active, queue_stats, snapshot, u64_saturating_add. fold q. cbn [qs_queued qs_in_flight].
  rewrite Hqueued, Hflight. lia.
Qed.

(** *** Cancelling *)
Definition ticket_number (t : QueueTicket) : N := match t with TPlan n | TFetch n | TStore n => n end.

(** The tickets that have not been handled yet. *)
Definition worker_ticket (w : Worker) : list QueueTicket :=
  match w with
  | Received cmd => option_list (command_ticket cmd)
  | Running t => [t]
  | Stopped t => option_list t
  | Idle => []
  end.
Definition sent (s : Queues) : list QueueTicket := worker_ticket (worker s) ++ omap command_ticket (channel s).

(** Tickets are unique while fewer than [2^64] have been minted; those that
    are sent and accounted for are live. *)
Record tickets_ok (s : Queues) : Prop := mk_tickets_ok {
  tk_unique : NoDup (ticket_number <$> (minted s).*1 ++ sent s);
  tk_below : Forall (fun t => (ticket_number t < next_ticket s)%N) ((minted s).*1 ++ sent s);
  tk_live : forall t, t ∈ sent s -> t ∉ unaccounted s -> t ∈ live (control s);
  tk_minted : Forall (fun p => command_ticket p.2 = Some p.1) (minted s);
}.

Lemma number_fresh (n : N) (l : list QueueTicket) :
  Forall (fun t => (ticket_number t < n)%N) l -> n ∉ ticket_number <$> l.
Proof.
  rewrite Forall_forall. intros Hl (t & Hn & Ht)%list_elem_of_fmap. apply Hl in Ht. lia.
Qed.

Lemma omap_snoc cmd l : omap command_ticket (l ++ [cmd]) = omap command_ticket l ++ option_list (command_ticket cmd).
Proof. rewrite omap_app. cbn. by destruct (command_ticket cmd). Qed.

(** Steps that permute or drop tickets and leave the set of live ones, or add
    to it, keep the invariant. *)
Lemma tickets_ok_weaken s s' :
  tickets_ok s -> next_ticket s' = next_ticket s ->
  (exists rest, (minted s).*1 ++ sent s ≡ₚ ((minted s').*1 ++ sent s') ++ rest) ->
  (forall t, t ∈ sent s' -> t ∉ unaccounted s' -> t ∈ live (control s')) ->
  Forall (fun p => command_ticket p.2 = Some p.1) (minted s') ->
  tickets_ok s'.
Proof.
  intros [Hu Hb _ _] Hn [rest Hperm] Hl Hm. split; [| |done|done].
  - rewrite Hperm, fmap_app in Hu. by apply NoDup_app in Hu as (? & _).
  - rewrite Hn. rewrite Hperm in Hb. by apply Forall_app in Hb as [? _].
Qed.

(** A step that leaves the unfinished tickets and the set of live ones. *)
Lemma tickets_ok_same s s' :
  tickets_ok s -> next_ticket s' = next_ticket s -> minted s' = minted s -> sent s' = sent s ->
  unaccounted s' = unaccounted s -> live (control s') = live (control s) -> tickets_ok s'.
Proof.
  intros Hs Hn Hm Hsent Hu Hl. apply (tickets_ok_weaken s); [done|done| | |].
  - exists []. by rewrite Hm, Hsent, app_nil_r.
  - rewrite Hsent, Hu, Hl. apply Hs.
  - rewrite Hm. apply Hs.
Qed.

Lemma live_on_queue k f c : live (on_queue k f c) = live c.
Proof. by destruct k. Qed.

Lemma live_cancel t c : live (cancel t c).1 = live c.
Proof. unfold cancel. by case_bool_decide. Qed.

Lemma tickets_mint b s : (next_ticket s < u64_max)%N -> tickets_ok s -> tickets_ok (mint b s).
Proof.
  intros Hn [Hu Hb Hl Hm]. unfold mint. destruct (batch_is_empty b); [done|].
  assert (exists t cmd, ticketed b (next_ticket s) = (t, cmd) /\ ticket_number t = next_ticket s /\
    command_ticket cmd = Some t) as (t & cmd & -> & Ht & Hcmd) by (destruct b; by do 2 eexists).
  assert (fetch_add (next_ticket s) = next_ticket s + 1)%N as Hadd by (apply u64_add_small; unfold u64_max in *; lia).
  split; cbn [minted next_ticket unaccounted control]; [| |exact Hl|by constructor].
  - cbn. constructor; [rewrite Ht; by apply number_fresh|exact Hu].
  - cbn [fmap list_fmap fst app]. rewrite Hadd. constructor; [lia|].
    eapply Forall_impl; [exact Hb|]. cbn. intros; lia.
Qed.

Lemma tickets_try_send i s : tickets_ok s -> tickets_ok (try_send_ticket i s).
Proof.
  intros Hs. pose proof Hs as [Hu Hb Hl Hm]. unfold try_send_ticket.
  destruct (minted s !! i) as [[t cmd]|] eqn:Hi; [|done].
  pose proof (fmap_Permutation fst _ _ (delete_Permutation _ _ _ Hi)) as Hp. cbn in Hp.
  pose proof (Forall_lookup_1 _ _ _ _ Hm Hi) as Hcmd. cbn in Hcmd.
  assert (exists rest, (minted s).*1 ++ sent s ≡ₚ ((delete i (minted s)).*1 ++ sent s) ++ rest) as Hdrop.
  { exists [t]. rewrite Hp. by rewrite (Permutation_app_comm _ [t]). }
  destruct (negb _); [|destruct (_ <=? _)%N].
  - apply (tickets_ok_weaken s); [done|done|exact Hdrop|exact Hl|by apply Forall_delete].
  - apply (tickets_ok_weaken s); [done|done|exact Hdrop| |by apply Forall_delete].
    cbn. unfold on_reject. rewrite live_on_queue. exact Hl.
  - apply (tickets_ok_weaken s); [done|done| | |by apply Forall_delete].
    + exists []. rewrite app_nil_r. unfold sent. cbn [minted channel worker]. rewrite omap_snoc, Hcmd, Hp. cbn [option_list].
      rewrite !app_assoc. by rewrite (Permutation_app_comm _ [t]).
    + unfold sent in *. cbn [channel worker unaccounted control]. rewrite omap_snoc, Hcmd. intros t' Ht' Hn.
      rewrite not_elem_of_cons in Hn. apply Hl; [|by destruct Hn].
      rewrite app_assoc in Ht'. apply elem_of_app in Ht' as [Ht'|Ht']; [done|]. cbn in Ht'.
      apply list_elem_of_singleton in Ht'. by destruct Hn.
Qed.

Lemma tickets_account i s : tickets_ok s -> tickets_ok (account i s).
Proof.
  intros Hs. unfold account. destruct (unaccounted s !! i) as [t|] eqn:Hi; [|done].
  apply (tickets_ok_weaken s); [done|done|by exists []; rewrite app_nil_r| |apply Hs].
  intros t' Ht' Hn. assert (live (control (mkQueues (next_ticket s) (minted s) (channel s) (delete i (unaccounted s))
    (worker s) (on_submit t (control s)))) = {[t]} ∪ live (control s)) as -> by by destruct t.
  cbn in Hn. destruct (decide (t' = t)) as [->|Hne]; [set_solver|].
  apply elem_of_union_r, (tk_live _ Hs); [exact Ht'|]. intros Hin. apply Hn.
  rewrite (delete_Permutation _ _ _ Hi) in Hin. apply elem_of_cons in Hin as [?|?]; done.
Qed.

Lemma tickets_finish o s : tickets_ok s -> tickets_ok (finish o s).
Proof.
  intros Hs. unfold finish. destruct (worker s) as [| |t|] eqn:Hwk; [done|done| |done].
  assert (sent s = t :: omap command_ticket (channel s)) as Hsent by (unfold sent; by rewrite Hwk).
  destruct o as [o|].
  - apply (tickets_ok_weaken s); [done|done| | |apply Hs].
    + exists [t]. rewrite Hsent. unfold sent. cbn [minted channel worker worker_ticket].
      rewrite (Permutation_app_comm _ [t]). cbn. by rewrite <-Permutation_middle.
    + intros t' Ht' Hn. unfold sent in Ht'. cbn in Ht'.
      assert (live (on_finish t o (control s)) = live (control s) ∖ {[t]}) as Hlive by (by destruct t, o).
      cbn [control]. rewrite Hlive.
      apply elem_of_difference. split.
      * apply (tk_live _ Hs); [|exact Hn]. rewrite Hsent. by right.
      * intros ->%elem_of_singleton. pose proof (tk_unique _ Hs) as Hu. rewrite fmap_app in Hu.
        apply NoDup_app in Hu as (_ & _ & Hu). rewrite Hsent in Hu. cbn in Hu. apply NoDup_cons in Hu as [Hu _].
        apply Hu. by apply list_elem_of_fmap_2.
  - apply (tickets_ok_same s); [done..| |done|done]. rewrite Hsent. done.
Qed.

Lemma tickets_ok_act a s : (next_ticket s < u64_max)%N -> tickets_ok s -> tickets_ok (act a s).
Proof.
  intros Hn Hs. destruct a as [b|i|i| |t| | |o]; cbn [act].
  - by apply tickets_mint.
  - by apply tickets_try_send.
  - by apply tickets_account.
  - unfold try_send_shutdown. destruct (_ || _); [done|]. apply (tickets_ok_same s); [done..| |done|done].
    unfold sent. cbn [channel worker]. by rewrite omap_snoc, app_nil_r.
  - apply (tickets_ok_same s); [done..|]. apply live_cancel.
  - unfold receive. destruct (worker s) eqn:Hwk; [|done..]. destruct (channel s) as [|cmd rest] eqn:Hch; [done|].
    apply (tickets_ok_same s); [done..| |done|done]. unfold sent. rewrite Hwk, Hch. cbn. by destruct (command_ticket cmd).
  - unfold start. destruct (worker s) as [|cmd| |] eqn:Hwk; [done| |done..].
    destruct (command_ticket cmd) as [t|] eqn:Ht; (apply (tickets_ok_same s); [done|done|done| |done|by try destruct t]);
      unfold sent; cbn [channel worker]; rewrite Hwk; cbn [worker_ticket]; by rewrite Ht.
  - by apply tickets_finish.
Qed.

Lemma next_ticket_act a s : (next_ticket s < u64_max)%N -> (next_ticket (act a s) <= next_ticket s + 1)%N.
Proof.
  intros Hn. destruct a as [b|i|i| |t| | |o]; cbn [act].
  - unfold mint. destruct (batch_is_empty b); [lia|]. cbn [next_ticket]. unfold fetch_add. rewrite u64_add_small; lia.
  - unfold try_send_ticket. destruct (minted s !! i) as [[t cmd]|]; [|lia]. destruct (negb _); [cbn; lia|].
    destruct (_ <=? _)%N; cbn; lia.
  - unfold account. destruct (unaccounted s !! i); cbn; lia.
  - unfold try_send_shutdown. destruct (_ || _); cbn; lia.
  - cbn. lia.
  - unfold receive. destruct (worker s), (channel s); cbn; lia.
  - unfold start. destruct (worker s) as [|cmd| |]; try lia. destruct (command_ticket cmd); cbn; lia.
  - unfold finish. destruct (worker s) as [| |t|]; try lia. destruct o; cbn; lia.
Qed.

Lemma tickets_ok_run l s :
  (next_ticket s + N.of_nat (length l) <= u64_max)%N -> tickets_ok s -> tickets_ok (run_actions l s).
Proof.
  revert s. induction l as [|a l IH]; intros s Hn Hs; [done|].
  change (run_actions (a :: l) s) with (run_actions l (act a s)). cbn [length] in Hn.
  apply IH; [|apply tickets_ok_act; [lia|done]]. pose proof (next_ticket_act a s). lia.
Qed.

Lemma tickets_ok_new capacity : tickets_ok (Queues_new capacity).
Proof. split; cbn; [constructor|constructor|by intros t ?%not_elem_of_nil|constructor]. Qed.

(** A cancellation takes effect. In any run with fewer than [2^64]
    steps, cancelling a ticket whose submission is accounted for and whose
    command has not been handled to its end marks it, so that the worker's next
    check sees it; the answer says whether it was marked before; and no other
    ticket is marked. Finishing the ticket clears the mark, and after that a
    cancellation is refused. *)
Theorem cancel_takes_effect capacity l t o :
  (N.of_nat (length l) < u64_max)%N ->
  let s := run_actions l (Queues_new capacity) in
  t ∈ sent s -> t ∉ unaccounted s ->
  (let (c, fresh) := cancel t (control s) in
   is_cancelled t c = true /\ fresh = negb (is_cancelled t (control s)) /\
   forall t', t' <> t -> is_cancelled t' c = is_cancelled t' (control s)) /\
  (let c := on_finish t o (control s) in
   is_cancelled t c = false /\ cancel t c = (c, false)).
Proof.
  intros Hl s Ht Hacc. assert (tickets_ok s) as Hs.
  { apply tickets_ok_run; [|apply tickets_ok_new]. cbn [next_ticket Queues_new]. unfold u64_max in *. lia. }
  pose proof (tk_live _ Hs t Ht Hacc) as Hlive. split.
  - unfold cancel. rewrite bool_decide_eq_false_2 by (intros Hc; by apply Hc). unfold is_cancelled. cbn.
    split_and!; [apply bool_decide_eq_true_2; set_solver| |].
    + case_bool_decide; case_bool_decide; done.
    + intros t' Hne. apply bool_decide_ext. set_solver.
  - cbn zeta. assert (live (on_finish t o (control s)) = live (control s) ∖ {[t]} /\
      cancelled (on_finish t o (control s)) = cancelled (control s) ∖ {[t]}) as [Hl' Hc'] by (by destruct t, o).
    unfold is_cancelled, cancel. rewrite Hl', Hc'. split; [apply bool_decide_eq_false_2; set_solver|].
    rewrite bool_decide_eq_true_2 by set_solver. done.
Qed.

(** ** Witnesses *)
Definition one_fetch : batch := FetchBatch [mkFetchRequest 7 (LocHostPinned 0) 4 0].

Lemma coordinator_accounting_witness :
  let s := run_actions [Mint one_fetch; TrySend 0; Account 0] (Queues_new 2) in
  (N.of_nat (length (channel s)) <= 2)%N /\ qc_queued (queue KFetch (control s)) = 1%N.
Proof.
  destruct (coordinator_accounting 2 [Mint one_fetch; TrySend 0; Account 0] KFetch eq_refl) as (Hc & _ & _ & _ & Hq).
  split; [exact Hc|]. destruct Hq as [Hq _]; [reflexivity|]. rewrite Hq. reflexivity.
Defined.

Lemma cancel_takes_effect_witness :
  let s := run_actions [Mint one_fetch; TrySend 0; Account 0; Receive; Start] (Queues_new 2) in
  is_cancelled (TFetch 1) (cancel (TFetch 1) (control s)).1 = true.
Proof.
  cbn zeta. destruct (cancel_takes_effect 2 [Mint one_fetch; TrySend 0; Account 0; Receive; Start] (TFetch 1) OutCompleted)
    as [(Hc & _) _]; [reflexivity|vm_compute; left|vm_compute; by intros ?%not_elem_of_nil|]. exact Hc.
Defined.

(** A submission is accounted for after it has been sent, and the worker
    may be faster. It then counts the command out of a queue it is not counted
    into yet: [queued] wraps to its largest value and the queue of four reports
    itself saturated while one command is handled. If the command is finished
    before [on_submit] runs, its ticket becomes live afterwards and stays so:
    nothing is queued or handled, yet a cancellation is accepted, and its mark
    is never cleared. *)
Theorem late_accounting_misleads :
  let busy := run_actions [Mint one_fetch; TrySend 0; Receive; Start] (Queues_new 4) in
  let done := run_actions [Finish (Some OutCompleted); Account 0; Cancel (TFetch 1)] busy in
  running KFetch busy = 1%N /\ in_channel KFetch busy = 0%N /\
  qc_queued (queue KFetch (control busy)) = u64_max /\
  qs_backpressure (queue_stats KFetch (control busy)) = Saturated /\
  worker done = Idle /\ channel done = [] /\ unaccounted done = [] /\ minted done = [] /\
  TFetch 1 ∈ live (control done) /\ is_cancelled (TFetch 1) (control done) = true.
Proof.
  cbn zeta. by split_and!; vm_compute.
Qed.
