(* ===== verification/Coordinator.v ===== *)
(** * The tier coordinator

    Models [infer/src/kv_tier/coordinator.rs] and the region guard of
    [coordinator/builder.rs]: the handlers of the three queues over the host
    pools, the disk store and the cluster-shared backend.

    The worker's thread shares the control block and the event channel with
    the clients. What they do while a handler runs is a list of moments, one
    consumed wherever the handler looks at shared state: the cancellations that
    arrive, whether the receiver of the events goes away, and whether its
    channel is full. The pools' other users are quiet meanwhile. *)

From S2P Require Import Prelude Lists Bytes Tier HostArena HostPool FileSystem NativeFiles KvIo DiskStore SharedFs CoordinatorControl CoordinatorQueue.

(** ** The world *)
Record Moment := mkMoment {
  mo_cancels : list QueueTicket;
  mo_receiver_gone : bool;
  mo_full : bool;
}.

Definition quiet : Moment := mkMoment [] false false.

Section coordinator.
Context {R : Type} `{ClusterSharedBackend R} `{Postcard DiskBlockHeader}.

(** The coordinator's fields, what its references point to, and the events
    received so far. A store that is not configured is [None]. *)
Record World := mkWorld {
  w_control : CoordinatorControl;
  w_pools : gmap PoolRef SharedHostPinnedPool;
  w_disk : option DiskWorld;
  w_remote : option R;
  w_receiver : bool;
  w_events : list CoordinatorEvent;
  w_moments : list Moment;
}.

(** The error is [anyhow]'s message. *)
Abbreviation run_eff := (eff World string).

Definition set_control (c : CoordinatorControl) (w : World) : World :=
  mkWorld c (w_pools w) (w_disk w) (w_remote w) (w_receiver w) (w_events w) (w_moments w).
Definition set_pools (p : gmap PoolRef SharedHostPinnedPool) (w : World) : World :=
  mkWorld (w_control w) p (w_disk w) (w_remote w) (w_receiver w) (w_events w) (w_moments w).
Definition set_disk (d : option DiskWorld) (w : World) : World :=
  mkWorld (w_control w) (w_pools w) d (w_remote w) (w_receiver w) (w_events w) (w_moments w).
Definition set_remote (r : option R) (w : World) : World :=
  mkWorld (w_control w) (w_pools w) (w_disk w) r (w_receiver w) (w_events w) (w_moments w).
Definition set_events (e : list CoordinatorEvent) (w : World) : World :=
  mkWorld (w_control w) (w_pools w) (w_disk w) (w_remote w) (w_receiver w) e (w_moments w).

(** What the other threads do before the next look at shared state. *)
Definition apply_moment (m : Moment) (rest : list Moment) (w : World) : World :=
  mkWorld (foldl (fun c t => (cancel t c).1) (w_control w) (mo_cancels m)) (w_pools w) (w_disk w) (w_remote w)
    (w_receiver w && negb (mo_receiver_gone m)) (w_events w) rest.

Definition interfere : run_eff Moment := fun w =>
  match w_moments w with
  | [] => Done (w, inl quiet)
  | m :: rest => Done (apply_moment m rest w, inl m)
  end.

(** ** Events *)

(** A blocking [send] fails only when the receiver is gone. *)
Definition emit_required (event : CoordinatorEvent) : run_eff unit :=
  interfere ;;
  receiver ← gets w_receiver;
  if (receiver : bool) then modify (fun w => set_events (w_events w ++ [event]) w)
  else throw "coordinator event send failed"%string.

(** A [try_send] that is dropped when the channel is full. *)
Definition emit_observability (event : CoordinatorEvent) : run_eff unit :=
  m ← interfere;
  receiver ← gets w_receiver;
  if (receiver : bool) && negb (mo_full m) then modify (fun w => set_events (w_events w ++ [event]) w)
  else mret tt.

Definition check_cancelled (t : QueueTicket) : run_eff bool :=
  interfere ;; gets (fun w => is_cancelled t (w_control w)).

Definition failed_event (t : QueueTicket) (b : BlockId) (class : FailureClass) (reason : Reason) : CoordinatorEvent :=
  match t with
  | TPlan n => PlanFailed n b class reason
  | TStore n => StoreFailed n b class reason
  | TFetch n => FetchFailed n b class reason
  end.

Definition report_failure (t : QueueTicket) (failed_block : BlockId) (class : FailureClass) (reason : Reason)
    : run_eff QueueOutcome :=
  (match t with
   | TPlan _ => emit_observability (failed_event t failed_block class reason)
   | TStore _ | TFetch _ => emit_required (failed_event t failed_block class reason)
   end) ;;
  mret (into_outcome class).

(** ** Plans *)
Definition plan_action (source : option BlockLocation) : PrefetchAction :=
  match source with
  | Some (LocGpu _) => ActReadyOnGpu
  | Some (LocHostPinned _) => PromoteFromHost
  | Some (LocDisk _ _) => FetchFromDisk
  | Some (LocRemote _) => FetchFromRemote
  | None => Recompute
  end.

Definition handle_plan (ticket : N) (blocks : list PrefetchPlanRequest) : run_eff QueueOutcome :=
  emit_observability (PlanQueued ticket (length blocks)) ;;
  is_c ← check_cancelled (TPlan ticket);
  if (is_c : bool)
  then report_failure (TPlan ticket) (from_option pl_block_id 0%N (head blocks)) ClassCancelled (Text "plan cancelled")
  else
    emit_observability (PlanCompleted ticket
      ((fun b => mkPrefetchPlan (pl_block_id b) (plan_action (pl_source b))) <$> blocks)) ;;
    mret OutCompleted.

(** ** The stores the coordinator refers to *)

(** The reference a request holds keeps its pool alive. *)
Definition get_pool (pool : PoolRef) : run_eff SharedHostPinnedPool := fun w =>
  match w_pools w !! pool with Some p => Done (w, inl p) | None => Panics end.
Definition put_pool (pool : PoolRef) (p : SharedHostPinnedPool) : run_eff unit :=
  modify (fun w => set_pools (<[pool := p]> (w_pools w)) w).

(** A call on the disk store or the backend, its error as a value. *)
Definition with_disk {A} (m : eff DiskWorld Error A) : run_eff (option (A + Error)) := fun w =>
  match w_disk w with
  | None => Done (w, inl None)
  | Some d => '(d, r) ← m d; Done (set_disk (Some d) w, inl (Some r))
  end.
Definition with_remote {A} (m : eff R TransportError A) : run_eff (option (A + TransportError)) := fun w =>
  match w_remote w with
  | None => Done (w, inl None)
  | Some b => '(b, r) ← m b; Done (set_remote (Some b) w, inl (Some r))
  end.

(** ** Stores *)

(** The next state of a loop, or what the handler returns. *)
Abbreviation flow A := (A + QueueOutcome)%type.

Definition stored_at := (BlockId * BlockLocation)%type.

Section store.
Context (ticket : N).

Definition fail_store {A} (b : StoreRequest) (class : FailureClass) (reason : Reason) : run_eff (flow A) :=
  o ← report_failure (TStore ticket) (st_block_id b) class reason;
  mret (inr o).

Definition store_to_disk (b : StoreRequest) (payload : list byte) (locations : list stored_at)
    : run_eff (flow (list stored_at)) :=
  r ← with_disk (put_block_with_fsync (st_fingerprint b) (st_kv_format_tag b) payload false);
  match r with
  | None => fail_store b ClassFailed (Text "coordinator disk store not configured")
  | Some (inl location) =>
      mret (inl (locations ++ [(st_block_id b, LocDisk (dl_fingerprint location) (dl_payload_len location))]))
  | Some (inr err) => fail_store b ClassFailed (IoReason err)
  end.

(** Storing and the one poll; an operation that is exhausted is an error. *)
Definition store_op (b : StoreRequest) (h : KVHandle) (payload : list byte) (locations : list stored_at)
    : run_eff (flow (list stored_at)) :=
  let payload_len := N.of_nat (length payload) in
  let block_meta := KVBlock_with_fingerprint
    (KVBlock_new (st_block_id b) (mkLayerRange 0 0) (mkTokenRange 0 0) payload_len) (st_fingerprint b) in
  r ← with_remote (backend_store (mkKVBackendStore h block_meta (st_kv_format_tag b) (KVPayload_from_vec payload)));
  match r with
  | None => fail_store b ClassFailed (Text "coordinator remote store not configured")
  | Some (inr err) => fail_store b ClassFailed (TransportReason err)
  | Some (inl op) =>
      match (backend_poll (S := R) op).2 with
      | inl (Stored h) => mret (inl (locations ++ [(st_block_id b, kh_location h)]))
      | inl other => fail_store b ClassFailed (UnexpectedCompletion "unexpected remote store completion" other)
      | inr err => fail_store b ClassFailed (TransportReason err)
      end
  end.

Definition store_to_remote (b : StoreRequest) (payload : list byte) (locations : list stored_at)
    : run_eff (flow (list stored_at)) :=
  configured ← gets (fun w => bool_decide (is_Some (w_remote w)));
  if negb configured then fail_store b ClassFailed (Text "coordinator remote store not configured")
  else
    let payload_len := N.of_nat (length payload) in
    match remote_location_for (R := R) (st_fingerprint b) payload_len with
    | inr err => fail_store b ClassFailed (TransportReason err)
    | inl location =>
        let h := mkKVHandle None (st_block_id b) location 0 payload_len in
        r ← with_remote (backend_exists h);
        match r with
        | Some (inl true) => mret (inl (locations ++ [(st_block_id b, location)]))
        | Some (inr err) => fail_store b ClassFailed (TransportReason err)
        | Some (inl false) | None => store_op b h payload locations
        end
    end.

Definition store_one (b : StoreRequest) (locations : list stored_at) : run_eff (flow (list stored_at)) :=
  is_c ← check_cancelled (TStore ticket);
  if (is_c : bool) then fail_store b ClassCancelled (Text "store cancelled")
  else
    p ← get_pool (st_host_pool b);
    read ← of_res (read_region (st_host_region b) p);
    match read with
    | Err err => fail_store b ClassFailed (PoolReason err)
    | Ok payload =>
        match st_target b with
        | TargetDisk => store_to_disk b payload locations
        | TargetRemote => store_to_remote b payload locations
        end
    end.

Fixpoint store_loop (blocks : list StoreRequest) (locations : list stored_at) : run_eff (flow (list stored_at)) :=
  match blocks with
  | [] => mret (inl locations)
  | b :: blocks =>
      r ← store_one b locations;
      match r with inl locations => store_loop blocks locations | inr o => mret (inr o) end
  end.

Definition handle_store (blocks : list StoreRequest) : run_eff QueueOutcome :=
  emit_required (StoreQueued ticket (length blocks)) ;;
  is_c ← check_cancelled (TStore ticket);
  if (is_c : bool)
  then report_failure (TStore ticket) (from_option st_block_id 0%N (head blocks)) ClassCancelled (Text "store cancelled")
  else
    r ← store_loop blocks [];
    match r with
    | inr o => mret o
    | inl locations => emit_required (StoreCompleted ticket locations) ;; mret OutCompleted
    end.
End store.

(** ** The region guard

    [AllocatedRegions]: the regions staged by a fetch that is not finished. *)
Record AllocatedRegions := mkAllocatedRegions {
  ar_regions : list (PoolRef * HostPinnedRegion);
  ar_committed : bool;
}.

Definition AllocatedRegions_new : AllocatedRegions := mkAllocatedRegions [] false.
Definition ar_push (pool : PoolRef) (region : HostPinnedRegion) (g : AllocatedRegions) : AllocatedRegions :=
  mkAllocatedRegions (ar_regions g ++ [(pool, region)]) (ar_committed g).
Definition commit (g : AllocatedRegions) : AllocatedRegions := mkAllocatedRegions (ar_regions g) true.

(** A release that fails is logged and passed over. *)
Definition release_one (x : PoolRef * HostPinnedRegion) : run_eff unit :=
  let '(pool, region) := x in
  p ← get_pool pool;
  '(p, _) ← of_res (release_region region p);
  put_pool pool p.

Definition drain_and_release (g : AllocatedRegions) : run_eff AllocatedRegions :=
  for_each (ar_regions g) release_one ;;
  mret (mkAllocatedRegions [] (ar_committed g)).

Definition release_now (g : AllocatedRegions) : run_eff AllocatedRegions :=
  if ar_committed g then mret g
  else g ← drain_and_release g; mret (commit g).

Definition AllocatedRegions_drop (g : AllocatedRegions) : run_eff unit :=
  if ar_committed g then mret tt
  else drain_and_release g ;; mret tt.

(** Leaving the handler drops the guard, on an error too. *)
Definition with_guard {A} (g : AllocatedRegions) (m : run_eff A) : run_eff A := fun w =>
  '(w, r) ← m w;
  '(w, _) ← AllocatedRegions_drop g w;
  Done (w, r).

(** ** Fetches *)

(** [Result<A, String>], the reason as its value. *)
Abbreviation attempt A := (run_eff (A + Reason)%type).

Definition fetch_disk_payload (fingerprint : BlockFingerprint) (payload_len : N) : attempt (list byte) :=
  r ← with_disk (root ← gets store_root;
                 get_block (mkDiskBlockLocation (block_path_for fingerprint root) payload_len fingerprint)
                   (Some fingerprint));
  match r with
  | None => mret (inr (Text "coordinator disk store not configured"))
  | Some (inl payload) => mret (inl payload)
  | Some (inr e) => mret (inr (IoReason e))
  end.

Definition fetch_remote_payload (b : FetchRequest) : attempt (list byte) :=
  let h := mkKVHandle None (fr_block_id b) (fr_source b) 0 (fr_byte_len b) in
  r ← with_remote (backend_fetch (mkKVBackendFetch h));
  match r with
  | None => mret (inr (Text "coordinator remote store not configured"))
  | Some (inr err) => mret (inr (TransportReason err))
  | Some (inl op) =>
      match (backend_poll (S := R) op).2 with
      | inl (Loaded _ payload) => mret (inl (kp_bytes payload))
      | inl other => mret (inr (UnexpectedCompletion "unexpected remote fetch completion" other))
      | inr err => mret (inr (TransportReason err))
      end
  end.

Definition stage_into_host_pool (pool : PoolRef) (payload : list byte) : attempt HostPinnedRegion :=
  s ← get_pool pool;
  match lock s with
  | Err e => mret (inr (PoolReason e))
  | Ok p =>
      '(p, r) ← of_res (reserve (N.of_nat (length payload)) p);
      put_pool pool (mkShared p false) ;;
      match r with
      | Err e => mret (inr (PoolReason e))
      | Ok None => mret (inr (Text "host pinned pool exhausted"))
      | Ok (Some region) =>
          p ← of_res (as_mut_slice_copy region payload p);
          put_pool pool (mkShared p false) ;;
          mret (inl region)
      end
  end.

Section fetch.
Context (ticket : N).

(** What the loop has prepared, and the regions it holds for that. *)
Definition progress := (list FetchedBlock * AllocatedRegions)%type.

Definition fail_fetch (b : FetchRequest) (class : FailureClass) (reason : Reason) (g : AllocatedRegions)
    : run_eff (flow progress) :=
  g ← release_now g;
  o ← with_guard g (report_failure (TFetch ticket) (fr_block_id b) class reason);
  mret (inr o).

(** Payload, region, and the block that is ready to be promoted. *)
Definition fetch_staged (b : FetchRequest) (fetch : attempt (list byte)) (acc : progress) : run_eff (flow progress) :=
  let '(fetched, g) := acc in
  payload ← fetch;
  match payload with
  | inr reason => fail_fetch b ClassFailed reason g
  | inl payload =>
      region ← stage_into_host_pool (fr_host_pool b) payload;
      match region with
      | inr reason => fail_fetch b ClassFailed reason g
      | inl region =>
          mret (inl (fetched ++ [mkFetchedBlock (fr_block_id b) region (N.of_nat (length payload)) true],
                     ar_push (fr_host_pool b) region g))
      end
  end.

Definition fetch_one (b : FetchRequest) (acc : progress) : run_eff (flow progress) :=
  let '(fetched, g) := acc in
  is_c ← check_cancelled (TFetch ticket);
  if (is_c : bool) then fail_fetch b ClassCancelled (Text "fetch cancelled") g
  else match fr_source b with
  | LocHostPinned offset =>
      mret (inl (fetched ++ [mkFetchedBlock (fr_block_id b) (mkRegion offset (fr_byte_len b)) (fr_byte_len b) false], g))
  | LocDisk fingerprint payload_len => fetch_staged b (fetch_disk_payload fingerprint payload_len) acc
  | LocRemote _ => fetch_staged b (fetch_remote_payload b) acc
  | LocGpu _ => fail_fetch b ClassFailed (Text "gpu source should not go through fetch queue") g
  end.

Fixpoint fetch_loop (blocks : list FetchRequest) (acc : progress) : run_eff (flow progress) :=
  match blocks with
  | [] => mret (inl acc)
  | b :: blocks =>
      r ← fetch_one b acc;
      match r with inl acc => fetch_loop blocks acc | inr o => mret (inr o) end
  end.

Definition handle_fetch (blocks : list FetchRequest) : run_eff QueueOutcome :=
  emit_required (FetchQueued ticket (length blocks)) ;;
  is_c ← check_cancelled (TFetch ticket);
  if (is_c : bool)
  then report_failure (TFetch ticket) (from_option fr_block_id 0%N (head blocks)) ClassCancelled (Text "fetch cancelled")
  else
    r ← fetch_loop blocks ([], AllocatedRegions_new);
    match r with
    | inr o => mret o
    | inl (fetched, g) =>
        with_guard (commit g) (emit_required (FetchCompleted ticket fetched)) ;;
        mret OutCompleted
    end.
End fetch.

(** ** The loop *)
Inductive RecvResult := RecvOk (cmd : CoordinatorCommand) | RecvTimeout | RecvDisconnected.

Definition handle_command (cmd : CoordinatorCommand) : run_eff (option QueueOutcome) :=
  match cmd with
  | CmdPlan ticket blocks => o ← handle_plan ticket blocks; mret (Some o)
  | CmdStore ticket blocks => o ← handle_store ticket blocks; mret (Some o)
  | CmdFetch ticket blocks => o ← handle_fetch ticket blocks; mret (Some o)
  | CmdShutdown => mret None
  end.

(** Whether the worker goes on, after what [recv_timeout] has returned. *)
Definition run_once (received : RecvResult) : run_eff bool :=
  match received with
  | RecvOk cmd =>
      (match command_ticket cmd with
       | Some t => modify (fun w => set_control (on_start t (w_control w)) w)
       | None => mret tt
       end) ;;
      outcome ← handle_command cmd;
      (match command_ticket cmd, outcome with
       | Some t, Some o => modify (fun w => set_control (on_finish t o (w_control w)) w)
       | _, _ => mret tt
       end) ;;
      mret (match cmd with CmdShutdown => false | _ => true end)
  | RecvTimeout => mret true
  | RecvDisconnected => mret false
  end.
End coordinator.
