(* ===== verification/CoordinatorProps.v ===== *)
(** * The tier coordinator: what a fetch holds, and its properties

    The regions a fetch has staged, as a relation between the pools it started
    from and the pools now; staging extends it, the guard's release undoes it. *)

From S2P Require Import Prelude Lists Bytes Tier HostArena HostPool FileSystem NativeFiles KvIo DiskStore DiskWire DiskStoreProps SharedFs DiskFrame CoordinatorControl CoordinatorQueue Coordinator.

Abbreviation Pools := (gmap PoolRef SharedHostPinnedPool).
Abbreviation Held := (list (PoolRef * HostPinnedRegion)).

Definition pool_ok (s : SharedHostPinnedPool) : Prop := HostPool.wf (inner s) /\ poisoned s = false.
Definition pools_ok (m : Pools) : Prop := map_Forall (fun _ s => pool_ok s) m.

Definition live_in (m : Pools) (x : PoolRef * HostPinnedRegion) : Prop :=
  exists s, m !! x.1 = Some s /\ x.2 ∈ live_regions (inner s).
Definition bytes_in (m : Pools) (x : PoolRef * HostPinnedRegion) : option (list byte) :=
  (fun s => region_bytes x.2 (memory (inner s))) <$> m !! x.1.

(** [m] is [m0] with the regions of [held] taken, and nothing else changed. *)
Record extends (m0 : Pools) (held : Held) (m : Pools) : Prop := mk_extends {
  ex_ok : pools_ok m;
  ex_dom : forall r, is_Some (m !! r) <-> is_Some (m0 !! r);
  ex_live : forall x, live_in m x <-> live_in m0 x \/ x ∈ held;
  ex_fresh : forall x, x ∈ held -> ~ live_in m0 x;
  ex_unique : NoDup held;
  ex_bytes : forall x, live_in m0 x -> bytes_in m x = bytes_in m0 x;
}.

Lemma extends_refl m : pools_ok m -> extends m [] m.
Proof.
  intros Hok. split; [done|done| |by intros x ?%not_elem_of_nil|constructor|done].
  intros x. split; [by left|]. intros [?|?%not_elem_of_nil]; done.
Qed.

Lemma shared_eta s : pool_ok s -> mkShared (inner s) false = s.
Proof. destruct s as [p b]. by intros [_ [= ->]]. Qed.

(** Two pools differ only in the entry written. *)
Lemma live_insert m r s x :
  live_in (<[r := s]> m) x <-> if decide (x.1 = r) then x.2 ∈ live_regions (inner s) else live_in m x.
Proof.
  unfold live_in. destruct (decide _) as [->|Hne].
  - rewrite lookup_insert_eq. split; [by intros (? & [= <-] & ?)|eauto].
  - by rewrite lookup_insert_ne.
Qed.

Lemma bytes_insert m r s x :
  bytes_in (<[r := s]> m) x
  = if decide (x.1 = r) then Some (region_bytes x.2 (memory (inner s))) else bytes_in m x.
Proof.
  unfold bytes_in. destruct (decide _) as [->|Hne]; [by rewrite lookup_insert_eq|by rewrite lookup_insert_ne].
Qed.

Section world.
Context {R : Type} `{ClusterSharedBackend R} `{Postcard DiskBlockHeader}.
Implicit Types (w : World (R := R)).

Lemma get_pool_ok r s w : w_pools w !! r = Some s -> get_pool r w = Done (w, inl s).
Proof. intros Hr. unfold get_pool. by rewrite Hr. Qed.

Lemma put_pool_ok r s w : put_pool r s w = Done (set_pools (<[r := s]> (w_pools w)) w, inl tt).
Proof. done. Qed.

(** Staging takes a fresh region, holding the payload, or changes nothing. *)
Lemma stage_region_ok m0 held r payload w :
  extends m0 held (w_pools w) -> is_Some (m0 !! r) ->
  exists w' o, stage_into_host_pool r payload w = Done (w', inl o) /\
    w' = set_pools (w_pools w') w /\
    match o with
    | inr _ => w_pools w' = w_pools w
    | inl region =>
        extends m0 (held ++ [(r, region)]) (w_pools w') /\ rg_len region = N.of_nat (length payload) /\
        bytes_in (w_pools w') (r, region) = Some payload /\
        forall x, live_in (w_pools w) x -> bytes_in (w_pools w') x = bytes_in (w_pools w) x
    end.
Proof.
  intros Hex Hdom. pose proof (ex_ok _ _ _ Hex) as Hok. apply (ex_dom _ _ _ Hex) in Hdom as [s Hs].
  pose proof (Hok _ _ Hs) as Hpool. pose proof Hpool as [Hwf Hpois].
  destruct (reserve_ok (N.of_nat (length payload)) (inner s) Hwf) as (p1 & o & Hres & Hwf1 & Hmem1 & Ho).
  unfold stage_into_host_pool. run (get_pool_ok r s w Hs). unfold lock. rewrite Hpois.
  rewrite (run_of_res _ _ _ _ Hres). run (put_pool_ok r (mkShared p1 false) w). destruct o as [region|].
  2: { destruct Ho as [-> _]. do 2 eexists. split; [reflexivity|]. cbn. rewrite shared_eta, insert_id by done. done. }
  destruct Ho as (Hlen & Hend & Hfresh & Hlive1 & Hdisj).
  assert (region ∈ live_regions p1) as Hin by set_solver.
  set (w1 := set_pools _ w).
  rewrite (run_of_res _ _ _ _ (as_mut_slice_copy_ok region payload p1 Hwf1 Hin (eq_sym Hlen))). destruct (overwrite_ok region payload p1 Hwf1 Hin) as (Hwf2 & Hbytes & Hother); [done|].
  set (p2 := set_memory _ p1) in *. run (put_pool_ok r (mkShared p2 false) w1).
  do 2 eexists. split; [reflexivity|]. cbn. rewrite insert_insert_eq. split; [done|].
  assert (live_regions p2 = {[region]} ∪ live_regions (inner s)) as Hlive2 by exact Hlive1.
  assert (forall x, live_in (w_pools w) x ->
    bytes_in (<[r:=mkShared p2 false]> (w_pools w)) x = bytes_in (w_pools w) x) as Hkeep.
  { intros [r' region'] (s' & Hs' & Hl'). rewrite bytes_insert. cbn in *. case_decide as Heq; [|done]. subst r'.
    rewrite Hs in Hs'. injection Hs' as <-. unfold bytes_in. cbn. rewrite Hs. cbn. f_equal. rewrite <-Hmem1.
    apply Hother; [set_solver|]. by intros ->. }
  split; [|split_and!; [done| |exact Hkeep]].
  2: { rewrite bytes_insert, decide_True by done. cbn [snd inner]. by rewrite Hbytes. }
  assert (~ live_in (w_pools w) (r, region)) as Hnew.
  { intros (s' & Hs' & Hl'). cbn in *. rewrite Hs in Hs'. by injection Hs' as <-. }
  split.
  - by apply map_Forall_insert_2.
  - intros r'. rewrite <-(ex_dom _ _ _ Hex). rewrite lookup_insert_is_Some. split; [|destruct (decide (r = r')); tauto].
    intros [<-|[_ ?]]; [by eexists|done].
  - intros [r' region']. rewrite elem_of_app, list_elem_of_singleton, live_insert. cbn [fst snd].
    pose proof (ex_live _ _ _ Hex (r', region')) as Hl0.
    transitivity (live_in (w_pools w) (r', region') \/ (r', region') = (r, region)); [|tauto].
    destruct (decide (r' = r)) as [->|Hne].
    + cbn [inner]. rewrite Hlive2, elem_of_union, elem_of_singleton. unfold live_in. cbn. rewrite Hs. split.
      * intros [->|Hl]; [by right|left; eauto].
      * intros [(? & [= <-] & ?)|[= ->]]; [by right|by left].
    + split; [by left|]. intros [?|[=]]; [done|congruence].
  - intros x [Hx|Hx%list_elem_of_singleton]%elem_of_app; [by apply (ex_fresh _ _ _ Hex)|]. subst x.
    intros Hl. apply Hnew. apply (ex_live _ _ _ Hex). by left.
  - apply NoDup_app. split_and!; [apply Hex| |apply NoDup_singleton].
    intros x Hx Hx'%list_elem_of_singleton. subst x. apply Hnew. apply (ex_live _ _ _ Hex). by right.
  - intros x Hx. rewrite Hkeep; [by apply (ex_bytes _ _ _ Hex)|]. apply (ex_live _ _ _ Hex). by left.
Qed.

(** Releasing a held region gives it back and touches nothing else. *)
Lemma release_one_ok m0 x held w :
  extends m0 (x :: held) (w_pools w) ->
  exists w', release_one x w = Done (w', inl tt) /\ w' = set_pools (w_pools w') w /\ extends m0 held (w_pools w').
Proof.
  intros Hex. destruct x as [r region].
  assert (live_in (w_pools w) (r, region)) as (s & Hs & Hlive).
  { apply (ex_live _ _ _ Hex). right. by left. }
  cbn [fst snd] in Hs, Hlive.
  pose proof (ex_ok _ _ _ Hex) as Hok. pose proof (Hok _ _ Hs) as [Hwf Hpois].
  pose proof (release_ok region (inner s) Hwf) as Hrel. rewrite decide_True in Hrel by done.
  destruct Hrel as (p1 & Hrun & Hwf1 & Hmem1 & Hlive1).
  unfold release_one. run (get_pool_ok r s w Hs).
  assert (release_region region s = Done (mkShared p1 false, Ok tt)) as Hregion.
  { unfold release_region, lock. rewrite Hpois, Hrun. done. }
  rewrite (run_of_res _ _ _ _ Hregion). rewrite put_pool_ok. eexists. split; [reflexivity|]. cbn. split; [done|].
  pose proof (ex_unique _ _ _ Hex) as [Hnot Hnd]%NoDup_cons.
  split.
  - by apply map_Forall_insert_2.
  - intros r'. rewrite <-(ex_dom _ _ _ Hex), lookup_insert_is_Some.
    split; [|destruct (decide (r = r')); tauto]. intros [<-|[_ ?]]; [by eexists|done].
  - intros [r' region']. rewrite live_insert. cbn [fst snd inner].
    pose proof (ex_live _ _ _ Hex (r', region')) as Hl. rewrite elem_of_cons in Hl.
    assert (~ live_in m0 (r, region)) as Hold by (apply (ex_fresh _ _ _ Hex); by left).
    assert ((r', region') = (r, region) -> ~ (live_in m0 (r', region') \/ (r', region') ∈ held)) as Hgone.
    { intros [= -> ->]. tauto. }
    destruct (decide (r' = r)) as [->|Hne].
    + rewrite Hlive1, elem_of_difference, elem_of_singleton. unfold live_in at 1 in Hl. cbn [fst snd] in Hl.
      rewrite Hs in Hl. split.
      * intros [Hin Hneq]. destruct (proj1 Hl) as [?|[[=]|?]]; [by exists s|tauto|done|tauto].
      * intros Hold'. split; [|intros ->; by apply Hgone].
        destruct (proj2 Hl) as (? & [= <-] & ?); [tauto|done].
    + rewrite Hl. split; [|tauto]. intros [?|[[=]|?]]; [by left|done|by right].
  - intros x Hx. apply (ex_fresh _ _ _ Hex). by right.
  - done.
  - intros [r' region'] Hx. rewrite <-(ex_bytes _ _ _ Hex) by done. rewrite bytes_insert. cbn [fst snd inner].
    destruct (decide (r' = r)) as [->|Hne]; [|done]. unfold bytes_in. cbn. rewrite Hs. cbn. by rewrite Hmem1.
Qed.

Lemma drain_ok m0 committed held w :
  extends m0 held (w_pools w) ->
  exists w', drain_and_release (mkAllocatedRegions held committed) w = Done (w', inl (mkAllocatedRegions [] committed)) /\
    w' = set_pools (w_pools w') w /\ extends m0 [] (w_pools w').
Proof.
  intros Hex. unfold drain_and_release. cbn [ar_regions ar_committed].
  assert (exists w', for_each held release_one w = Done (w', inl tt) /\ w' = set_pools (w_pools w') w /\
    extends m0 [] (w_pools w')) as (w' & Hrun & Hw & Hex').
  { clear committed. revert w Hex. induction held as [|x held IH]; intros w Hex; cbn [for_each].
    - exists w. split; [done|]. split; [by destruct w|done].
    - destruct (release_one_ok m0 x held w Hex) as (w1 & Hrun1 & Hw1 & Hex1). run Hrun1.
      destruct (IH w1 Hex1) as (w2 & Hrun2 & Hw2 & Hex2). exists w2. split; [done|]. split; [|done].
      rewrite Hw2, Hw1. done. }
  run Hrun. by exists w'.
Qed.

(** The guard gives everything back, once. *)
Lemma release_now_ok m0 held w :
  extends m0 held (w_pools w) ->
  exists w', release_now (mkAllocatedRegions held false) w = Done (w', inl (mkAllocatedRegions [] true)) /\
    w' = set_pools (w_pools w') w /\ extends m0 [] (w_pools w').
Proof.
  intros Hex. destruct (drain_ok m0 false held w Hex) as (w' & Hrun & Hw & Hex').
  exists w'. unfold release_now. cbn [ar_committed]. run Hrun. done.
Qed.

Lemma with_guard_committed {A} held (m : eff (World (R := R)) string A) w w' r :
  m w = Done (w', r) -> with_guard (mkAllocatedRegions held true) m w = Done (w', r).
Proof. intros Hm. unfold with_guard. by rewrite Hm. Qed.
End world.

(** ** The tier coordinator: properties

    A fetch is all or nothing, every command is answered, what is stored comes
    back. *)

Section props.
Context {R : Type} `{ClusterSharedBackend R, !BackendTotal R} `{Postcard DiskBlockHeader}.
Implicit Types (w : World (R := R)).

(** ** Events *)

(** What stays when the handler looks at shared state. *)
Record same_stores w w' : Prop := mk_same_stores {
  ss_pools : w_pools w' = w_pools w;
  ss_disk : w_disk w' = w_disk w;
  ss_remote : w_remote w' = w_remote w;
}.

Lemma same_stores_trans w1 w2 w3 : same_stores w1 w2 -> same_stores w2 w3 -> same_stores w1 w3.
Proof. intros [? ? ?] [? ? ?]. split; congruence. Qed.

Lemma interfere_ok w : exists w' m, interfere w = Done (w', inl m) /\ same_stores w w' /\ w_events w' = w_events w.
Proof. unfold interfere. destruct (w_moments w) as [|m rest]; by do 2 eexists. Qed.

Lemma emit_required_ok e w : exists w' r, emit_required e w = Done (w', r) /\ same_stores w w' /\
  match r with
  | inl _ => w_events w' = w_events w ++ [e]
  | inr _ => w_events w' = w_events w /\ w_receiver w' = false
  end.
Proof.
  destruct (interfere_ok w) as (w1 & m & Hrun & [Hp Hd Hr] & He). unfold emit_required. run Hrun. rewrite run_gets.
  destruct (w_receiver w1) eqn:Hrec; do 2 eexists; (split; [reflexivity|]); [|done].
  split; [by split|]. cbn. by rewrite He.
Qed.

Lemma emit_observability_ok e w : exists w', emit_observability e w = Done (w', inl tt) /\ same_stores w w' /\
  (w_events w' = w_events w \/ w_events w' = w_events w ++ [e]).
Proof.
  destruct (interfere_ok w) as (w1 & m & Hrun & [Hp Hd Hr] & He). unfold emit_observability. run Hrun. rewrite run_gets.
  destruct (_ && _); eexists; (split; [reflexivity|]); (split; [by split|]); [right; cbn; by rewrite He|by left].
Qed.

Lemma check_cancelled_ok t w : exists w' b, check_cancelled t w = Done (w', inl b) /\ same_stores w w' /\
  w_events w' = w_events w /\ b = is_cancelled t (w_control w').
Proof.
  destruct (interfere_ok w) as (w1 & m & Hrun & Hs & He). unfold check_cancelled. run Hrun. by do 2 eexists.
Qed.

(** A failure of a store or a fetch is reported, unless nobody listens. *)
Lemma report_failure_ok t b class reason w :
  ticket_kind t <> KPlan ->
  exists w' r, report_failure t b class reason w = Done (w', r) /\ same_stores w w' /\
  match r with
  | inl o => o = into_outcome class /\ w_events w' = w_events w ++ [failed_event t b class reason]
  | inr _ => w_events w' = w_events w /\ w_receiver w' = false
  end.
Proof.
  intros Hk. destruct (emit_required_ok (failed_event t b class reason) w) as (w' & [[]|e] & Hrun & Hs & Hr).
  - exists w', (inl (into_outcome class)). unfold report_failure. destruct t; [done|..]; by run Hrun.
  - exists w', (inr e). unfold report_failure. destruct t; [done|..]; by run Hrun.
Qed.

(** ** One block of a fetch *)

(** What a fetched block promises: a resident block is passed on as it is;
    anything else has been copied into a region of its length, and a block
    from the disk store is the one a get returns. *)
Definition promised (d : option DiskWorld) (m : Pools) (b : FetchRequest) (f : FetchedBlock) : Prop :=
  fb_block_id f = fr_block_id b /\
  match fr_source b with
  | LocHostPinned offset =>
      fb_host_region f = mkRegion offset (fr_byte_len b) /\ fb_byte_len f = fr_byte_len b /\
      fb_release_after_promote f = false
  | source => fb_release_after_promote f = true /\ exists payload,
      bytes_in m (fr_host_pool b, fb_host_region f) = Some payload /\
      fb_byte_len f = N.of_nat (length payload) /\ rg_len (fb_host_region f) = N.of_nat (length payload) /\
      match source with
      | LocDisk fp n => exists dw, d = Some dw /\
          get_outcome (mkDiskBlockLocation (block_path_for fp (store_root dw)) n fp) (Some fp) dw = inl payload
      | LocGpu _ => False
      | _ => True
      end
  end.

(** The regions the scheduler releases after promotion. *)
Definition staged_by (blocks : list FetchRequest) (fetched : list FetchedBlock) : Held :=
  omap (fun '(b, f) => if fb_release_after_promote f then Some (fr_host_pool b, fb_host_region f) else None)
    (zip blocks fetched).

Definition get_location (fp : BlockFingerprint) (n : N) (dw : DiskWorld) : DiskBlockLocation :=
  mkDiskBlockLocation (block_path_for fp (store_root dw)) n fp.

Lemma fetch_disk_ok fp n w : exists w' r, fetch_disk_payload fp n w = Done (w', inl r) /\ same_stores w w' /\
  w_events w' = w_events w /\
  (forall payload, r = inl payload -> exists dw, w_disk w = Some dw /\
     get_outcome (get_location fp n dw) (Some fp) dw = inl payload).
Proof.
  unfold fetch_disk_payload. destruct (w_disk w) as [dw|] eqn:Hd.
  - destruct (get_block_cases (get_location fp n dw) (Some fp) dw) as [Hget _].
    assert (with_disk (root ← gets store_root;
      get_block (mkDiskBlockLocation (block_path_for fp root) n fp) (Some fp)) w
      = Done (w, inl (Some (get_outcome (get_location fp n dw) (Some fp) dw)))) as Hrun.
    { unfold with_disk. rewrite Hd, run_gets. fold (get_location fp n dw). rewrite Hget. cbn.
      unfold set_disk. rewrite <-Hd. by destruct w. }
    run Hrun. destruct (get_outcome _ _ dw) as [payload|e] eqn:Ho; do 2 eexists; (split; [reflexivity|]);
      (split; [done|]); (split; [done|]); [|done]. intros p [= ->]. by exists dw.
  - assert (with_disk (root ← gets store_root;
      get_block (mkDiskBlockLocation (block_path_for fp root) n fp) (Some fp)) w = Done (w, inl None)) as Hrun.
    { unfold with_disk. by rewrite Hd. }
    run Hrun. by do 2 eexists.
Qed.

Lemma with_remote_ok {A} (m : eff R TransportError A) w : total m ->
  exists w' r, with_remote m w = Done (w', inl r) /\ w_pools w' = w_pools w /\ w_disk w' = w_disk w /\
    w_events w' = w_events w.
Proof.
  intros Hm. unfold with_remote. destruct (w_remote w) as [b|]; [|by do 2 eexists].
  destruct (Hm b) as (b' & r & ->). by do 2 eexists.
Qed.

Lemma fetch_remote_ok b w : exists w' r, fetch_remote_payload b w = Done (w', inl r) /\
  w_pools w' = w_pools w /\ w_disk w' = w_disk w /\ w_events w' = w_events w.
Proof using BackendTotal0.
  unfold fetch_remote_payload.
  destruct (with_remote_ok (backend_fetch (mkKVBackendFetch
    (mkKVHandle None (fr_block_id b) (fr_source b) 0 (fr_byte_len b)))) w (fetch_total _)) as (w' & r & Hrun & ? & ? & ?).
  run Hrun. destruct r as [[op|e]|]; [|by do 2 eexists..]. destruct ((backend_poll op).2) as [[]|]; by do 2 eexists.
Qed.

(** ** The loop *)
Section loop.
Context (ticket : N) (m0 : Pools) (d0 : option DiskWorld) (e0 : list CoordinatorEvent).

(** What the loop has done after [blocks]. *)
Record ready (blocks : list FetchRequest) (acc : progress) w : Prop := mk_ready {
  rd_extends : extends m0 (ar_regions acc.2) (w_pools w);
  rd_open : ar_committed acc.2 = false;
  rd_held : ar_regions acc.2 = staged_by blocks acc.1;
  rd_promised : Forall2 (promised d0 (w_pools w)) blocks acc.1;
  rd_disk : w_disk w = d0;
  rd_events : w_events w = e0;
}.

(** The failure of a fetch: everything released, then reported. *)
Definition undone w (r : QueueOutcome + string) : Prop :=
  extends m0 [] (w_pools w) /\
  match r with
  | inl o => exists b class reason, o = into_outcome class /\
      w_events w = e0 ++ [FetchFailed ticket b class reason]
  | inr _ => w_events w = e0 /\ w_receiver w = false
  end.

Definition flow_of (r : (progress + QueueOutcome) + string) : option (QueueOutcome + string) :=
  match r with inl (inl _) => None | inl (inr o) => Some (inl o) | inr e => Some (inr e) end.

Lemma fail_fetch_ok b class reason g w :
  extends m0 (ar_regions g) (w_pools w) -> ar_committed g = false -> w_events w = e0 ->
  exists w' r o, fail_fetch ticket b class reason g w = Done (w', r) /\ flow_of r = Some o /\ undone w' o.
Proof.
  intros Hex Hopen He. destruct g as [held c]. cbn in Hopen. subst c.
  destruct (release_now_ok m0 held w Hex) as (w1 & Hrel & Hw1 & Hex1). unfold fail_fetch. run Hrel.
  destruct (report_failure_ok (TFetch ticket) (fr_block_id b) class reason w1 ltac:(done))
    as (w2 & r & Hrep & [Hp _ _] & Hr).
  pose proof (with_guard_committed [] _ _ _ _ Hrep) as Hguard.
  assert (w_events w1 = e0) as He1 by (rewrite Hw1; exact He).
  destruct r as [o|e]; run Hguard; do 3 eexists; (split; [reflexivity|]); (split; [reflexivity|]).
  - split; [by rewrite Hp|]. destruct Hr as [-> Hr]. exists (fr_block_id b), class, reason. by rewrite Hr, He1.
  - split; [by rewrite Hp|]. destruct Hr as [Hr ?]. by rewrite Hr, He1.
Qed.

Lemma promised_mono d m m' b f :
  (forall x, live_in m x -> bytes_in m' x = bytes_in m x) ->
  (fb_release_after_promote f = true -> live_in m (fr_host_pool b, fb_host_region f)) ->
  promised d m b f -> promised d m' b f.
Proof.
  intros Hkeep Hlive [Hid Hp]. split; [done|]. destruct (fr_source b); [|done|..];
    destruct Hp as (Hrel & payload & Hb & Hrest); (split; [done|]); exists payload; by rewrite Hkeep by auto.
Qed.

Lemma staged_by_snoc blocks fetched b f :
  length blocks = length fetched ->
  staged_by (blocks ++ [b]) (fetched ++ [f])
  = staged_by blocks fetched
    ++ (if fb_release_after_promote f then [(fr_host_pool b, fb_host_region f)] else []).
Proof.
  intros Hlen. unfold staged_by. rewrite zip_with_app by done. rewrite omap_app. f_equal. cbn.
  by destruct (fb_release_after_promote f).
Qed.

Lemma staged_in blocks fetched b f :
  (b, f) ∈ zip blocks fetched -> fb_release_after_promote f = true ->
  (fr_host_pool b, fb_host_region f) ∈ staged_by blocks fetched.
Proof. intros Hin Hrel. apply list_elem_of_omap. exists (b, f). split; [done|]. by rewrite Hrel. Qed.

Lemma Forall2_zip_impl {A B} (P Q : A -> B -> Prop) l k :
  Forall2 P l k -> (forall a b, (a, b) ∈ zip l k -> P a b -> Q a b) -> Forall2 Q l k.
Proof.
  induction 1 as [|a b l k Hab _ IH]; intros Himp; constructor.
  - apply Himp; [by left|done].
  - apply IH. intros a' b' Hin. apply Himp. by right.
Qed.

(** The promises made so far hold while the held regions keep their bytes. *)
Lemma promises_kept blocks fetched g w m' :
  ready blocks (fetched, g) w ->
  (forall x, live_in (w_pools w) x -> bytes_in m' x = bytes_in (w_pools w) x) ->
  Forall2 (promised d0 m') blocks fetched.
Proof.
  intros [Hex _ Hheld Hp _ _] Hkeep. cbn [fst snd] in *. eapply Forall2_zip_impl; [exact Hp|].
  intros b f Hin. apply promised_mono; [exact Hkeep|]. intros Hrel. apply (ex_live _ _ _ Hex). right.
  rewrite Hheld. by apply staged_in.
Qed.

(** One step of the loop: the next block is ready, or everything is undone. *)
Definition step_ok (blocks : list FetchRequest) (r : (progress + QueueOutcome) + string) w' : Prop :=
  match flow_of r with
  | None => exists acc, r = inl (inl acc) /\ ready blocks acc w'
  | Some o => undone w' o
  end.

(** A way of getting a payload that leaves the pools, the disk and the events. *)
Definition fetches (b : FetchRequest) (fetch : eff (World (R := R)) string (list byte + Reason)) : Prop :=
  forall w, w_disk w = d0 -> exists w' r, fetch w = Done (w', inl r) /\
    w_pools w' = w_pools w /\ w_disk w' = w_disk w /\ w_events w' = w_events w /\
    forall payload, r = inl payload ->
      match fr_source b with
      | LocDisk fp n => exists dw, d0 = Some dw /\ get_outcome (get_location fp n dw) (Some fp) dw = inl payload
      | LocRemote _ => True
      | _ => False
      end.

Lemma fetch_staged_ok blocks b fetch acc w :
  fetches b fetch -> is_Some (m0 !! fr_host_pool b) -> ready blocks acc w ->
  exists w' r, fetch_staged ticket b fetch acc w = Done (w', r) /\ step_ok (blocks ++ [b]) r w'.
Proof.
  intros Hfetch Hpool Hready. destruct acc as [fetched g]. pose proof Hready as [Hex Hopen Hheld Hprom Hd He].
  cbn [fst snd] in *. destruct (Hfetch w Hd) as (w1 & r1 & Hrun1 & Hp1 & Hd1 & He1 & Hpay).
  unfold fetch_staged. run Hrun1.
  assert (forall w' reason, w_pools w' = w_pools w1 -> w_events w' = w_events w1 ->
    exists w'' r, fail_fetch ticket b ClassFailed reason g w' = Done (w'', r) /\ step_ok (blocks ++ [b]) r w'') as Hfail.
  { intros w' reason Hp' He'. destruct (fail_fetch_ok b ClassFailed reason g w') as (w2 & r2 & o & Hrun2 & Hflow & Hund);
      [by rewrite Hp', Hp1|done|by rewrite He', He1|]. exists w2, r2. split; [done|]. unfold step_ok. by rewrite Hflow. }
  destruct r1 as [payload|reason]; [|by apply Hfail].
  assert (extends m0 (ar_regions g) (w_pools w1)) as Hex1 by by rewrite Hp1.
  destruct (stage_region_ok m0 _ (fr_host_pool b) payload w1 Hex1 Hpool) as (w2 & o & Hrun2 & Hw2 & Ho). run Hrun2.
  assert (w_events w2 = w_events w1 /\ w_disk w2 = w_disk w1) as [He2 Hd2] by by rewrite Hw2.
  destruct o as [region|reason]; [|by apply Hfail]. destruct Ho as (Hex2 & Hlen & Hbytes & Hkeep).
  do 2 eexists. split; [reflexivity|]. unfold step_ok. cbn [flow_of]. eexists. split; [reflexivity|].
  pose proof (Forall2_length _ _ _ Hprom) as Hlens.
  split; cbn [fst snd ar_push ar_regions ar_committed]; [done|done| | | |].
  - rewrite staged_by_snoc by done. by rewrite Hheld.
  - apply Forall2_app.
    + apply (promises_kept blocks fetched g w); [done|]. intros x Hx. by rewrite Hkeep, Hp1 by (by rewrite Hp1).
    + constructor; [|constructor]. split; [done|]. cbn. specialize (Hpay payload eq_refl).
      destruct (fr_source b); [done|done|..]; (split; [done|]); by exists payload.
  - by rewrite Hd2, Hd1.
  - by rewrite He2, He1.
Qed.

Lemma ready_stores blocks acc w w' :
  ready blocks acc w -> same_stores w w' -> w_events w' = w_events w -> ready blocks acc w'.
Proof. intros [? ? ? ? ? ?] [Hp Hd _] He. split; rewrite ?Hp, ?Hd, ?He; done. Qed.

Lemma fetch_one_ok blocks b acc w :
  is_Some (m0 !! fr_host_pool b) -> ready blocks acc w ->
  exists w' r, fetch_one ticket b acc w = Done (w', r) /\ step_ok (blocks ++ [b]) r w'.
Proof using BackendTotal0.
  intros Hpool Hready. destruct acc as [fetched g].
  destruct (check_cancelled_ok (TFetch ticket) w) as (w1 & c & Hrun1 & Hs1 & He1 & _).
  apply (ready_stores _ _ _ _ Hready Hs1) in He1 as Hready1. pose proof Hready1 as [Hex Hopen Hheld Hprom Hd He].
  cbn [fst snd] in *.
  assert (forall class reason, exists w' r, fail_fetch ticket b class reason g w1 = Done (w', r) /\
    step_ok (blocks ++ [b]) r w') as Hfail.
  { intros class reason. destruct (fail_fetch_ok b class reason g w1) as (w2 & r & o & Hrun & Hflow & Hund);
      [done|done|done|]. exists w2, r. split; [done|]. unfold step_ok. by rewrite Hflow. }
  unfold fetch_one. run Hrun1. destruct c; [apply Hfail|]. destruct (fr_source b) eqn:Hsrc.
  - apply Hfail.
  - do 2 eexists. split; [reflexivity|]. unfold step_ok. cbn [flow_of]. eexists. split; [reflexivity|].
    pose proof (Forall2_length _ _ _ Hprom) as Hlens. split; cbn [fst snd]; try done.
    + rewrite staged_by_snoc by done. cbn. by rewrite app_nil_r.
    + apply Forall2_app; [done|]. constructor; [|constructor]. split; [done|]. by rewrite Hsrc.
  - apply fetch_staged_ok; [|done|done]. intros w2 Hd2. rewrite Hsrc.
    destruct (fetch_disk_ok fingerprint payload_len w2) as (w3 & r & Hrun & [Hp _ _] & He' & Hpay).
    exists w3, r. assert (w_disk w3 = w_disk w2) as Hd3.
    { destruct (fetch_disk_ok fingerprint payload_len w2) as (w4 & r' & Hrun' & [_ ? _] & _).
      rewrite Hrun in Hrun'. by injection Hrun' as <- _. }
    split_and!; [done|done|done|done|]. intros payload Hr. destruct (Hpay payload Hr) as (dw & Hdw & Hout).
    exists dw. by rewrite <-Hd2.
  - apply fetch_staged_ok; [|done|done]. intros w2 Hd2. rewrite Hsrc.
    destruct (fetch_remote_ok b w2) as (w3 & r & Hrun & Hp & Hd' & He'). by exists w3, r.
Qed.

Lemma fetch_loop_ok todo blocks acc w :
  Forall (fun b => is_Some (m0 !! fr_host_pool b)) todo -> ready blocks acc w ->
  exists w' r, fetch_loop ticket todo acc w = Done (w', r) /\ step_ok (blocks ++ todo) r w'.
Proof using BackendTotal0.
  intros Hall. revert blocks acc w. induction Hall as [|b todo Hb _ IH]; intros blocks acc w Hready; cbn [fetch_loop].
  - rewrite app_nil_r. do 2 eexists. split; [reflexivity|]. by exists acc.
  - destruct (fetch_one_ok blocks b acc w Hb Hready) as (w1 & r & Hrun & Hstep). unfold step_ok in Hstep.
    destruct r as [[acc1|o]|e]; cbn [flow_of] in Hstep.
    + run Hrun. destruct Hstep as (acc2 & [= <-] & Hready1).
      destruct (IH (blocks ++ [b]) acc1 w1 Hready1) as (w2 & r2 & Hrun2 & Hstep2).
      exists w2, r2. split; [done|]. by rewrite <-app_assoc in Hstep2.
    + run Hrun. by do 2 eexists.
    + run Hrun. by do 2 eexists.
Qed.
End loop.

Lemma fetch_ok ticket blocks w :
  pools_ok (w_pools w) -> Forall (fun b => is_Some (w_pools w !! fr_host_pool b)) blocks ->
  exists w' r, handle_fetch ticket blocks w = Done (w', r) /\
  let events := w_events w ++ [FetchQueued ticket (length blocks)] in
  match r with
  | inl OutCompleted => exists fetched,
      w_events w' = events ++ [FetchCompleted ticket fetched] /\
      Forall2 (promised (w_disk w) (w_pools w')) blocks fetched /\
      extends (w_pools w) (staged_by blocks fetched) (w_pools w')
  | inl o => exists b class reason, o = into_outcome class /\
      w_events w' = events ++ [FetchFailed ticket b class reason] /\ extends (w_pools w) [] (w_pools w')
  | inr _ => w_receiver w' = false /\ (w_events w' = w_events w \/ w_events w' = events) /\
      exists held, extends (w_pools w) held (w_pools w') /\
        (held = [] \/ exists fetched, held = staged_by blocks fetched /\
           Forall2 (promised (w_disk w) (w_pools w')) blocks fetched)
  end.
Proof using BackendTotal0.
  intros Hok Hall. unfold handle_fetch. cbn zeta. set (events := w_events w ++ _).
  destruct (emit_required_ok (FetchQueued ticket (length blocks)) w) as (w1 & r1 & Hrun1 & Hs1 & Hr1).
  assert (forall w', w_pools w' = w_pools w -> extends (w_pools w) [] (w_pools w')) as Hnone.
  { intros w' ->. by apply extends_refl. }
  destruct r1 as [[]|e].
  2: { run Hrun1. do 2 eexists. split; [reflexivity|]. cbn. destruct Hr1 as [He Hr].
       split; [done|]. split; [by left|]. exists []. split; [apply Hnone, Hs1|by left]. }
  run Hrun1. fold events in Hr1.
  destruct (check_cancelled_ok (TFetch ticket) w1) as (w2 & c & Hrun2 & Hs2 & He2 & _). run Hrun2.
  pose proof (same_stores_trans _ _ _ Hs1 Hs2) as Hs. destruct c.
  { destruct (report_failure_ok (TFetch ticket) (from_option fr_block_id 0%N (head blocks)) ClassCancelled
      (Text "fetch cancelled") w2 ltac:(done)) as (w3 & r & Hrep & Hs3 & Hr).
    pose proof (same_stores_trans _ _ _ Hs Hs3) as Hs'. exists w3, r. split; [done|]. destruct r as [o|e].
    - destruct Hr as [-> Hr]. cbn. eexists _, ClassCancelled, _. split; [reflexivity|]. split; [by rewrite Hr, He2, Hr1|apply Hnone, Hs'].
    - destruct Hr as [Hr Hrec]. split; [done|]. split; [right; by rewrite Hr, He2|]. exists []. split; [apply Hnone, Hs'|by left]. }
  assert (ready (w_pools w) (w_disk w) events [] ([], AllocatedRegions_new) w2) as Hready.
  { split; cbn; [apply Hnone, Hs|done|done|constructor|apply Hs|by rewrite He2]. }
  destruct (fetch_loop_ok ticket (w_pools w) (w_disk w) events blocks [] _ w2 Hall Hready) as (w3 & r & Hrun3 & Hstep).
  unfold step_ok in Hstep. cbn [app] in Hstep. destruct r as [[[fetched [held c]]|o]|e]; cbn [flow_of] in Hstep; run Hrun3.
  - destruct Hstep as (acc & [= <-] & [Hex Hopen Hheld Hprom Hd He]). cbn [fst snd ar_regions ar_committed] in *. subst c held.
    destruct (emit_required_ok (FetchCompleted ticket fetched) w3) as (w4 & r4 & Hrun4 & [Hp4 Hd4 _] & Hr4).
    pose proof (with_guard_committed (staged_by blocks fetched) _ _ _ _ Hrun4) as Hguard.
    destruct r4 as [[]|e]; run Hguard; do 2 eexists; (split; [reflexivity|]); cbn.
    + exists fetched. rewrite Hr4, He, Hp4. done.
    + destruct Hr4 as [He4 Hrec]. split; [done|]. split; [right; by rewrite He4|]. exists (staged_by blocks fetched).
      rewrite Hp4. split; [done|]. right. by exists fetched.
  - destruct Hstep as [Hex (b & class & reason & -> & He)]. do 2 eexists. split; [reflexivity|].
    destruct class; cbn; [by exists b, ClassCancelled, reason|by exists b, ClassFailed, reason].
  - destruct Hstep as [Hex [He Hrec]]. do 2 eexists. split; [reflexivity|]. split; [done|]. split; [by right|].
    exists []. split; [done|by left].
Qed.

(** C11: while the receiver of the events lives, a fetch is all or nothing, and
    always answered. On well-formed pools, whatever is cancelled meanwhile,
    whatever the stores answer and however many blocks were staged before a
    failure, the handler returns in one of three ways. Completed, after
    [FetchQueued]: one [FetchCompleted] carries a block for every request, in
    order; resident ones as they are, the others copied into regions of their
    length, a disk block with the bytes a get returns; and the pools have
    changed by exactly those regions. Failed or cancelled, after [FetchQueued]:
    one [FetchFailed] with that class, and every pool has the live regions and
    the bytes it had. An error, only when the receiver is gone: nothing was
    sent but perhaps [FetchQueued], and the pools are as they were, or, when it
    was the completion that could not be sent, still hold the regions of all
    the staged blocks, which nobody will give back. *)
Theorem fetch_all_or_nothing ticket blocks w :
  pools_ok (w_pools w) -> Forall (fun b => is_Some (w_pools w !! fr_host_pool b)) blocks ->
  exists w' r, handle_fetch ticket blocks w = Done (w', r) /\
  let events := w_events w ++ [FetchQueued ticket (length blocks)] in
  match r with
  | inl OutCompleted => exists fetched,
      w_events w' = events ++ [FetchCompleted ticket fetched] /\
      Forall2 (promised (w_disk w) (w_pools w')) blocks fetched /\
      extends (w_pools w) (staged_by blocks fetched) (w_pools w')
  | inl o => exists b class reason, o = into_outcome class /\
      w_events w' = events ++ [FetchFailed ticket b class reason] /\ extends (w_pools w) [] (w_pools w')
  | inr _ => w_receiver w' = false /\ (w_events w' = w_events w \/ w_events w' = events) /\
      exists held, extends (w_pools w) held (w_pools w') /\
        (held = [] \/ exists fetched, held = staged_by blocks fetched /\
           Forall2 (promised (w_disk w) (w_pools w')) blocks fetched)
  end.
Proof using BackendTotal0. exact (fetch_ok ticket blocks w). Qed.
End props.
