(* ===== verification/CoordinatorStore.v ===== *)
(** * The tier coordinator: stores

    A store that completes can be read back: every location it reports gives
    the bytes the region held. *)


From S2P Require Import Prelude Lists Bytes Tier HostArena HostPool FileSystem NativeFiles KvIo DiskStore DiskWire DiskStoreProps DiskScan SharedFs DiskFrame CoordinatorControl CoordinatorQueue Coordinator CoordinatorProps.

Section store.
Context {R : Type} `{ClusterSharedBackend R, !BackendTotal R} `{Postcard DiskBlockHeader}.
Context `{!PostcardLaws DiskBlockHeader header_ok 38}.
Implicit Types (w : World (R := R)).

Lemma read_region_ok m pool s region :
  pools_ok m -> m !! pool = Some s ->
  (exists payload, read_region region s = Done (Ok payload) /\ bytes_in m (pool, region) = Some payload /\
     N.of_nat (length payload) = rg_len region /\ (rg_len region <= u64_max)%N) \/
  (exists e, read_region region s = Done (Err e)).
Proof.
  intros Hok Hs. destruct (Hok _ _ Hs) as [Hwf Hpois]. destruct (decide (region ∈ live_regions (inner s))) as [Hl|Hl].
  - left. rewrite read_live by done. eexists. split; [reflexivity|]. unfold bytes_in. cbn. rewrite Hs. split; [done|].
    pose proof (live_inside _ _ Hwf Hl). pose proof (pw_memory _ Hwf). unfold region_bytes.
    rewrite length_take, length_drop. lia.
  - right. destruct (validate_dead _ _ Hl) as [e He]. exists e. unfold read_region, with_region_slice, lock.
    by rewrite Hpois, He.
Qed.

(** The bytes of a stored block, and where they are. *)
Definition on_disk (d : option DiskWorld) (fp : BlockFingerprint) (tag : N) (payload : list byte) : Prop :=
  exists dw bytes, d = Some dw /\ holds_block fp tag payload bytes /\
    files (filesystem dw) !! block_path_for fp (store_root dw) = Some bytes.

Definition stored (m : Pools) (d : option DiskWorld) (b : StoreRequest) (loc : stored_at) : Prop :=
  loc.1 = st_block_id b /\ exists payload, bytes_in m (st_host_pool b, st_host_region b) = Some payload /\
    N.of_nat (length payload) = rg_len (st_host_region b) /\ (rg_len (st_host_region b) <= u64_max)%N /\
    match st_target b with
    | TargetDisk => loc.2 = LocDisk (st_fingerprint b) (rg_len (st_host_region b)) /\
        on_disk d (st_fingerprint b) (st_kv_format_tag b) payload
    | TargetRemote => True
    end.

(** The fingerprints written to the disk store. *)
Definition disk_fps (blocks : list StoreRequest) : list BlockFingerprint :=
  omap (fun b => match st_target b with TargetDisk => Some (st_fingerprint b) | TargetRemote => None end) blocks.

Section loop.
Context (ticket : N) (m0 : Pools) (e0 : list CoordinatorEvent).

Record progressed (blocks : list StoreRequest) (locations : list stored_at) w : Prop := mk_progressed {
  pg_pools : w_pools w = m0;
  pg_events : w_events w = e0;
  pg_stored : Forall2 (stored m0 (w_disk w)) blocks locations;
}.

Definition rejected w (r : QueueOutcome + string) : Prop :=
  w_pools w = m0 /\
  match r with
  | inl o => exists b class reason, o = into_outcome class /\ w_events w = e0 ++ [StoreFailed ticket b class reason]
  | inr _ => w_events w = e0 /\ w_receiver w = false
  end.

Definition store_step_ok (blocks : list StoreRequest) (r : (list stored_at + QueueOutcome) + string) w : Prop :=
  match r with
  | inl (inl locations) => progressed blocks locations w
  | inl (inr o) => rejected w (inl o)
  | inr e => rejected w (inr e)
  end.

Lemma fail_store_ok blocks b class reason w :
  w_pools w = m0 -> w_events w = e0 ->
  exists w' r, fail_store ticket b class reason w = Done (w', r) /\ store_step_ok blocks r w'.
Proof.
  intros Hp He. destruct (report_failure_ok (TStore ticket) (st_block_id b) class reason w ltac:(done))
    as (w1 & r & Hrun & [Hp1 _ _] & Hr). unfold fail_store. destruct r as [o|e]; run Hrun; do 2 eexists;
    (split; [reflexivity|]); (split; [by rewrite Hp1|]); cbn.
  - destruct Hr as [-> Hr]. exists (st_block_id b), class, reason. by rewrite Hr, He.
  - destruct Hr as [-> Hr]. done.
Qed.

Lemma with_disk_ok {A} (m : eff DiskWorld Error A) w : total m ->
  exists w' r, with_disk m w = Done (w', inl r) /\ w_pools w' = w_pools w /\ w_events w' = w_events w /\
    match r with
    | None => w_disk w = None /\ w_disk w' = None
    | Some r => exists d d', w_disk w = Some d /\ m d = Done (d', r) /\ w_disk w' = Some d'
    end.
Proof.
  intros Hm. unfold with_disk. destruct (w_disk w) as [d|] eqn:Hd; [|do 2 eexists; by split_and!].
  destruct (Hm d) as (d' & r & Hrun). rewrite Hrun. do 2 eexists. split; [reflexivity|]. split_and!; [done|done|].
  by exists d, d'.
Qed.

(** A later put leaves what earlier ones have stored. *)
Lemma on_disk_kept fp tag payload fp' tag' payload' b d d' r :
  fingerprint_ok fp -> fingerprint_ok fp' -> fp <> fp' ->
  put_block_with_fsync fp' tag' payload' b d = Done (d', r) ->
  on_disk (Some d) fp tag payload -> on_disk (Some d') fp tag payload.
Proof.
  intros Hfp Hfp' Hne Hrun (dw & bytes & [= <-] & Hholds & Hf).
  destruct (frame_put fp' (store_root d) Hfp' tag' payload' b d d' r Hrun eq_refl) as [Hroot Honly].
  exists d', bytes. split_and!; [done|done|]. rewrite Hroot, Honly; [done|].
  unfold touched. rewrite !not_elem_of_cons. split_and!; [| |by apply not_elem_of_nil].
  - intros Heq. apply Hne. by apply (block_path_inj _ _ (store_root d)).
  - rewrite block_path_snoc. intros Heq%(inj (app (store_root d))). injection Heq as Heq.
    by apply (staging_name_not_block fp' fp).
Qed.

Lemma stored_mono m d d' b loc :
  (st_target b = TargetDisk -> forall payload,
     on_disk d (st_fingerprint b) (st_kv_format_tag b) payload -> on_disk d' (st_fingerprint b) (st_kv_format_tag b) payload) ->
  stored m d b loc -> stored m d' b loc.
Proof.
  intros Hmono (Hid & payload & Hb & Hl & Hu & Ht). split; [done|]. exists payload. split_and!; [done|done|done|].
  destruct (st_target b); [|done]. destruct Ht as [Hloc Hd]. split; [done|by apply Hmono].
Qed.

Context (blocks : list StoreRequest) (b : StoreRequest) (locations : list stored_at).

Lemma store_to_disk_ok payload w :
  Forall (fun b => fingerprint_ok (st_fingerprint b)) (blocks ++ [b]) -> NoDup (disk_fps (blocks ++ [b])) ->
  st_target b = TargetDisk ->
  bytes_in m0 (st_host_pool b, st_host_region b) = Some payload ->
  N.of_nat (length payload) = rg_len (st_host_region b) -> (rg_len (st_host_region b) <= u64_max)%N ->
  progressed blocks locations w ->
  exists w' r, store_to_disk ticket b payload locations w = Done (w', r) /\ store_step_ok (blocks ++ [b]) r w'.
Proof.
  intros [Hfps Hfp%Forall_inv]%Forall_app Hnd Htarget Hbytes Hlen Hmax [Hp He Hst].
  unfold store_to_disk.
  destruct (with_disk_ok (put_block_with_fsync (st_fingerprint b) (st_kv_format_tag b) payload false) w
    (total_put_block_with_fsync _ _ _ _)) as (w1 & r & Hrun & Hp1 & He1 & Hr). run Hrun.
  destruct r as [[loc|e]|]; [|apply fail_store_ok; congruence..].
  destruct Hr as (d & d' & Hd & Hput & Hd'). do 2 eexists. split; [reflexivity|]. cbn [store_step_ok].
  destruct (put_inl _ (store_root d) Hfp _ _ _ _ _ _ eq_refl Hput) as (-> & bytes & Hholds & Hf).
  destruct (frame_put _ (store_root d) Hfp _ _ _ d d' _ Hput eq_refl) as [Hroot _].
  split; [congruence|congruence|]. rewrite Hd'. apply Forall2_app.
  - rewrite Hd in Hst. eapply Forall2_zip_impl; [exact Hst|]. intros b' loc' Hin%elem_of_zip_l. apply stored_mono.
    intros Ht' p. rewrite Forall_forall in Hfps. apply (on_disk_kept _ _ _ (st_fingerprint b) (st_kv_format_tag b) payload false _ _ (inl
      (mkDiskBlockLocation (block_path_for (st_fingerprint b) (store_root d)) (N.of_nat (length payload)) (st_fingerprint b))));
      [by apply Hfps|done| |exact Hput].
    intros Heq. unfold disk_fps in Hnd. rewrite omap_app in Hnd. apply NoDup_app in Hnd as (_ & Hnd & _).
    apply (Hnd (st_fingerprint b')).
    + apply list_elem_of_omap. exists b'. split; [done|]. by rewrite Ht'.
    + cbn. rewrite Htarget, Heq. left.
  - constructor; [|constructor]. split; [done|]. exists payload. split_and!; [done|done|done|]. rewrite Htarget. cbn.
    rewrite Hlen. split; [done|]. exists d', bytes. split_and!; [done|done|]. by rewrite Hroot.
Qed.

Lemma progressed_snoc loc w :
  progressed blocks locations w -> stored m0 (w_disk w) b loc -> progressed (blocks ++ [b]) (locations ++ [loc]) w.
Proof. intros [Hp He Hst] Hb. split; [done|done|]. apply Forall2_app; [done|by constructor]. Qed.

Lemma store_to_remote_ok payload w :
  st_target b = TargetRemote ->
  bytes_in m0 (st_host_pool b, st_host_region b) = Some payload ->
  N.of_nat (length payload) = rg_len (st_host_region b) -> (rg_len (st_host_region b) <= u64_max)%N ->
  progressed blocks locations w ->
  exists w' r, store_to_remote ticket b payload locations w = Done (w', r) /\ store_step_ok (blocks ++ [b]) r w'.
Proof using BackendTotal0.
  intros Htarget Hbytes Hlen Hmax Hpg. pose proof Hpg as [Hp He Hst].
  assert (forall l d, stored m0 d b (st_block_id b, l)) as Hstored.
  { intros l d. split; [done|]. exists payload. rewrite Htarget. by split_and!. }
  assert (forall class reason w', w_pools w' = w_pools w -> w_events w' = w_events w ->
    exists w'' r, fail_store ticket b class reason w' = Done (w'', r) /\ store_step_ok (blocks ++ [b]) r w'') as Hfail.
  { intros class reason w' Hp' He'. apply fail_store_ok; congruence. }
  assert (forall w', w_pools w' = w_pools w -> w_disk w' = w_disk w -> w_events w' = w_events w ->
    progressed blocks locations w') as Hkeep.
  { intros w' Hp' Hd' He'. split; [congruence|congruence|by rewrite Hd']. }
  unfold store_to_remote. rewrite run_gets. destruct (negb _); [by apply Hfail|].
  destruct (remote_location_for (st_fingerprint b) (N.of_nat (length payload))) as [location|err]; [|by apply Hfail].
  set (h := mkKVHandle None _ _ _ _).
  assert (forall w', w_pools w' = w_pools w -> w_disk w' = w_disk w -> w_events w' = w_events w ->
    exists w'' r, store_op ticket b h payload locations w' = Done (w'', r) /\ store_step_ok (blocks ++ [b]) r w'') as Hop.
  { intros w' Hp' Hd' He'. unfold store_op.
    match goal with |- context [with_remote (backend_store ?req)] =>
      destruct (with_remote_ok (backend_store req) w' (store_total _)) as (w2 & r2 & Hrun2 & Hp2 & Hd2 & He2) end.
    run Hrun2. destruct r2 as [[op|err]|]; [|apply Hfail; congruence..].
    destruct ((backend_poll op).2) as [[h'|h' p|h']|err]; [|apply Hfail; congruence..].
    do 2 eexists. split; [reflexivity|]. cbn. apply progressed_snoc; [apply Hkeep; congruence|apply Hstored]. }
  destruct (with_remote_ok (backend_exists h) w (exists_total _)) as (w2 & r2 & Hrun2 & Hp2 & Hd2 & He2). run Hrun2.
  destruct r2 as [[[]|err]|]; [|by apply Hop|by apply Hfail|by apply Hop].
  do 2 eexists. split; [reflexivity|]. cbn. apply progressed_snoc; [by apply Hkeep|apply Hstored].
Qed.

Lemma store_one_ok w :
  pools_ok m0 -> is_Some (m0 !! st_host_pool b) ->
  Forall (fun b => fingerprint_ok (st_fingerprint b)) (blocks ++ [b]) -> NoDup (disk_fps (blocks ++ [b])) ->
  progressed blocks locations w ->
  exists w' r, store_one ticket b locations w = Done (w', r) /\ store_step_ok (blocks ++ [b]) r w'.
Proof using BackendTotal0.
  intros Hok [s Hs] Hfps Hnd [Hp He Hst].
  destruct (check_cancelled_ok (TStore ticket) w) as (w1 & c & Hrun1 & [Hp1 Hd1 _] & He1 & _).
  unfold store_one. run Hrun1. destruct c; [apply fail_store_ok; congruence|].
  assert (w_pools w1 !! st_host_pool b = Some s) as Hs1 by by rewrite Hp1, Hp. run (get_pool_ok _ _ _ Hs1).
  assert (progressed blocks locations w1) as Hpg by (split; [congruence|congruence|by rewrite Hd1]).
  destruct (read_region_ok m0 (st_host_pool b) s (st_host_region b) Hok Hs) as
    [(payload & Hread & Hbytes & Hlen & Hmax)|[e Hread]]; rewrite (run_of_res _ _ _ _ Hread).
  - destruct (st_target b) eqn:Ht; [by apply store_to_disk_ok|by apply store_to_remote_ok].
  - apply fail_store_ok; congruence.
Qed.
End loop.

Lemma store_loop_ok ticket m0 e0 todo blocks locations w :
  pools_ok m0 -> Forall (fun b => is_Some (m0 !! st_host_pool b)) todo ->
  Forall (fun b => fingerprint_ok (st_fingerprint b)) (blocks ++ todo) -> NoDup (disk_fps (blocks ++ todo)) ->
  progressed m0 e0 blocks locations w ->
  exists w' r, store_loop ticket todo locations w = Done (w', r) /\ store_step_ok ticket m0 e0 (blocks ++ todo) r w'.
Proof using BackendTotal0.
  intros Hok Hall. revert blocks locations w.
  induction Hall as [|b todo Hb _ IH]; intros blocks locations w Hfps Hnd Hpg; cbn [store_loop].
  - rewrite app_nil_r. by do 2 eexists.
  - rewrite cons_middle, app_assoc in Hfps, Hnd |- *.
    destruct (store_one_ok ticket m0 e0 blocks b locations w Hok Hb) as (w1 & r & Hrun & Hstep); [| |done|].
    { by apply Forall_app in Hfps as [? _]. }
    { unfold disk_fps in Hnd. rewrite omap_app in Hnd. by apply NoDup_app in Hnd as (? & _). }
    destruct r as [[locations'|o]|e]; run Hrun; [|by do 2 eexists..].
    destruct (IH (blocks ++ [b]) locations' w1) as (w2 & r2 & Hrun2 & Hstep2); [done|done|done|]. by exists w2, r2.
Qed.

(** What a get of a reported location returns. *)
Lemma on_disk_readable d fp tag payload :
  fingerprint_ok fp -> is_byte tag -> (N.of_nat (length payload) <= u64_max)%N -> on_disk d fp tag payload ->
  exists dw, d = Some dw /\
    get_outcome (get_location fp (N.of_nat (length payload)) dw) (Some fp) dw = inl payload.
Proof using PostcardLaws0.
  intros Hfp Htag Hlen (dw & bytes & -> & Hholds & Hf). exists dw. split; [done|]. unfold get_outcome, get_location.
  rewrite (get_ok fp tag payload bytes (Some fp) dw Hfp Htag Hlen Hholds Hf); [done|by right].
Qed.

Lemma store_ok ticket blocks w :
  pools_ok (w_pools w) -> Forall (fun b => is_Some (w_pools w !! st_host_pool b)) blocks ->
  Forall (fun b => fingerprint_ok (st_fingerprint b) /\ is_byte (st_kv_format_tag b)) blocks ->
  NoDup (disk_fps blocks) ->
  exists w' r, handle_store ticket blocks w = Done (w', r) /\ w_pools w' = w_pools w /\
  let events := w_events w ++ [StoreQueued ticket (length blocks)] in
  match r with
  | inl OutCompleted => exists locations,
      w_events w' = events ++ [StoreCompleted ticket locations] /\
      Forall2 (fun b loc => loc.1 = st_block_id b /\ (st_target b = TargetDisk ->
        loc.2 = LocDisk (st_fingerprint b) (rg_len (st_host_region b)) /\
        exists payload dw, bytes_in (w_pools w) (st_host_pool b, st_host_region b) = Some payload /\
          w_disk w' = Some dw /\
          get_outcome (get_location (st_fingerprint b) (rg_len (st_host_region b)) dw) (Some (st_fingerprint b)) dw
          = inl payload)) blocks locations
  | inl o => exists b class reason, o = into_outcome class /\
      w_events w' = events ++ [StoreFailed ticket b class reason]
  | inr _ => w_receiver w' = false /\ exists sent, w_events w' = w_events w ++ sent
  end.
Proof using BackendTotal0 PostcardLaws0.
  intros Hok Hall Hblocks Hnd. unfold handle_store. cbn zeta. set (events := w_events w ++ _).
  destruct (emit_required_ok (StoreQueued ticket (length blocks)) w) as (w1 & r1 & Hrun1 & Hs1 & Hr1).
  destruct r1 as [[]|e]; run Hrun1.
  2: { do 2 eexists. split; [reflexivity|]. split; [apply Hs1|]. destruct Hr1 as [He Hr].
       split; [done|]. exists []. by rewrite app_nil_r. }
  fold events in Hr1.
  destruct (check_cancelled_ok (TStore ticket) w1) as (w2 & c & Hrun2 & Hs2 & He2 & _). run Hrun2.
  pose proof (same_stores_trans _ _ _ Hs1 Hs2) as Hs. destruct c.
  { destruct (report_failure_ok (TStore ticket) (from_option st_block_id 0%N (head blocks)) ClassCancelled
      (Text "store cancelled") w2 ltac:(done)) as (w3 & r & Hrep & Hs3 & Hr).
    pose proof (same_stores_trans _ _ _ Hs Hs3) as Hs'. exists w3, r. split; [done|]. split; [apply Hs'|].
    destruct r as [o|e]; destruct Hr as [Hr1' Hr2'].
    - subst o. cbn. eexists _, ClassCancelled, _. split; [reflexivity|]. by rewrite Hr2', He2, Hr1.
    - split; [done|]. eexists. by rewrite Hr1', He2, Hr1. }
  destruct (store_loop_ok ticket (w_pools w) events blocks [] [] w2 Hok Hall) as (w3 & r & Hrun3 & Hstep).
  { eapply Forall_impl; [exact Hblocks|]. by intros b [? _]. }
  { done. }
  { split; [apply Hs|congruence|constructor]. }
  cbn [app] in Hstep. destruct r as [[locations|o]|e]; cbn [store_step_ok] in Hstep; run Hrun3.
  - destruct Hstep as [Hp He Hst].
    destruct (emit_required_ok (StoreCompleted ticket locations) w3) as (w4 & r4 & Hrun4 & [Hp4 Hd4 _] & Hr4).
    destruct r4 as [[]|e]; run Hrun4; do 2 eexists; (split; [reflexivity|]); (split; [congruence|]); cbn.
    + exists locations. split; [by rewrite Hr4, He|]. rewrite Forall_forall in Hblocks.
      eapply Forall2_zip_impl; [exact Hst|].
      intros b loc Hin%elem_of_zip_l (Hid & payload & Hbytes & Hlen & Hmax & Ht). split; [done|]. intros Htarget.
      rewrite Htarget in Ht. destruct Ht as [Hloc Hd]. split; [done|]. destruct (Hblocks b Hin) as [Hfp Htag].
      destruct (on_disk_readable _ _ _ _ Hfp Htag ltac:(by rewrite Hlen) Hd) as (dw & Hdw & Hget).
      exists payload, dw. rewrite Hd4, <-Hlen. done.
    + destruct Hr4 as [He4 Hrec]. split; [done|]. eexists. by rewrite He4, He.
  - destruct Hstep as [Hp (b & class & reason & -> & He)]. do 2 eexists. split; [reflexivity|]. split; [done|].
    destruct class; cbn; [by exists b, ClassCancelled, reason|by exists b, ClassFailed, reason].
  - destruct Hstep as [Hp [He Hrec]]. do 2 eexists. split; [reflexivity|]. split; [done|]. split; [done|]. by eexists.
Qed.

(** A store that completes can be read back, and a store never touches
    the pools. For blocks with distinct fingerprints, whatever is cancelled
    meanwhile and whatever the stores answer, the handler returns with the
    pools as they were. Completed: one [StoreCompleted] reports a location for
    every block, in order; a block for the disk is at the place its fingerprint
    names, with the length of its region, and a get there, after the whole
    batch has been written, returns the bytes the region holds. Otherwise one
    [StoreFailed] with the class of the failure has been sent, or the receiver
    of the events is gone. *)
Theorem store_completed_readable ticket blocks w :
  pools_ok (w_pools w) -> Forall (fun b => is_Some (w_pools w !! st_host_pool b)) blocks ->
  Forall (fun b => fingerprint_ok (st_fingerprint b) /\ is_byte (st_kv_format_tag b)) blocks ->
  NoDup (disk_fps blocks) ->
  exists w' r, handle_store ticket blocks w = Done (w', r) /\ w_pools w' = w_pools w /\
  let events := w_events w ++ [StoreQueued ticket (length blocks)] in
  match r with
  | inl OutCompleted => exists locations,
      w_events w' = events ++ [StoreCompleted ticket locations] /\
      Forall2 (fun b loc => loc.1 = st_block_id b /\ (st_target b = TargetDisk ->
        loc.2 = LocDisk (st_fingerprint b) (rg_len (st_host_region b)) /\
        exists payload dw, bytes_in (w_pools w) (st_host_pool b, st_host_region b) = Some payload /\
          w_disk w' = Some dw /\
          get_outcome (get_location (st_fingerprint b) (rg_len (st_host_region b)) dw) (Some (st_fingerprint b)) dw
          = inl payload)) blocks locations
  | inl o => exists b class reason, o = into_outcome class /\
      w_events w' = events ++ [StoreFailed ticket b class reason]
  | inr _ => w_receiver w' = false /\ exists sent, w_events w' = w_events w ++ sent
  end.
Proof using BackendTotal0 PostcardLaws0. exact (store_ok ticket blocks w). Qed.

(** ** Both together *)
Definition fetch_back (pool : PoolRef) (b : StoreRequest) : FetchRequest :=
  mkFetchRequest (st_block_id b) (LocDisk (st_fingerprint b) (rg_len (st_host_region b))) (rg_len (st_host_region b)) pool.

(** C12: what is stored comes back. After a completed store of blocks with
    distinct fingerprints to the disk, a fetch of them into any pool, whatever
    happens meanwhile, completes with every block's region holding the bytes
    its source region held when it was stored; or fails or is cancelled and
    leaves the pools as they were; or, when the receiver of the events is gone,
    returns an error with the pools as they were but perhaps for the regions of
    the blocks it staged. *)
Theorem store_fetch_roundtrip t1 t2 pool blocks w w1 :
  pools_ok (w_pools w) -> Forall (fun b => is_Some (w_pools w !! st_host_pool b)) blocks ->
  Forall (fun b => fingerprint_ok (st_fingerprint b) /\ is_byte (st_kv_format_tag b) /\ st_target b = TargetDisk) blocks ->
  NoDup (disk_fps blocks) -> is_Some (w_pools w !! pool) ->
  handle_store t1 blocks w = Done (w1, inl OutCompleted) ->
  exists w2 r, handle_fetch t2 (fetch_back pool <$> blocks) w1 = Done (w2, r) /\
  match r with
  | inl OutCompleted => exists fetched, last (w_events w2) = Some (FetchCompleted t2 fetched) /\
      Forall2 (fun b f => fb_block_id f = st_block_id b /\
        is_Some (bytes_in (w_pools w2) (pool, fb_host_region f)) /\
        bytes_in (w_pools w2) (pool, fb_host_region f)
        = bytes_in (w_pools w) (st_host_pool b, st_host_region b)) blocks fetched
  | inl _ => extends (w_pools w) [] (w_pools w2)
  | inr _ => w_receiver w2 = false /\ exists held, extends (w_pools w) held (w_pools w2) /\
      (held = [] \/ exists fetched, held = staged_by (fetch_back pool <$> blocks) fetched)
  end.
Proof using BackendTotal0 PostcardLaws0.
  intros Hok Hall Hblocks Hnd Hpool Hrun.
  destruct (store_ok t1 blocks w Hok Hall) as (w1' & r1 & Hrun' & Hp1 & Hr1); [|done|].
  { eapply Forall_impl; [exact Hblocks|]. by intros b (? & ? & _). }
  rewrite Hrun in Hrun'. injection Hrun' as <- <-. destruct Hr1 as (locations & _ & Hstored).
  assert (pools_ok (w_pools w1)) as Hok1 by by rewrite Hp1.
  destruct (fetch_ok t2 (fetch_back pool <$> blocks) w1 Hok1) as (w2 & r & Hfetch & Hr).
  { apply Forall_fmap, Forall_forall. intros b _. by rewrite Hp1. }
  exists w2, r. split; [done|]. destruct r as [[]|e].
  - destruct Hr as (fetched & He & Hprom & _). exists fetched. split; [by rewrite He, last_snoc|].
    apply (Forall2_fmap_l (fetch_back pool)) in Hprom. apply Forall2_same_length_lookup_2.
    { exact (Forall2_length _ _ _ Hprom). }
    intros i b f Hb Hf. pose proof (Forall2_lookup_lr _ _ _ _ _ _ Hprom Hb Hf) as [Hid (_ & payload & Hbytes & _ & _ & dw & Hdw & Hget)].
    split; [done|]. cbn in Hbytes. rewrite Hbytes. split; [by eexists|].
    destruct (Forall2_lookup_l _ _ _ _ _ Hstored Hb) as (loc & _ & _ & Hst).
    rewrite Forall_forall in Hblocks. destruct (Hblocks b (list_elem_of_lookup_2 _ _ _ Hb)) as (_ & _ & Ht).
    destruct (Hst Ht) as (_ & payload' & dw' & Hb' & Hdw' & Hget'). rewrite Hb'. f_equal.
    rewrite Hdw in Hdw'. injection Hdw' as <-. unfold get_location in Hget'. rewrite Hget in Hget'. by injection Hget'.
  - destruct Hr as (? & ? & ? & _ & _ & Hex). by rewrite Hp1 in Hex.
  - destruct Hr as (? & ? & ? & _ & _ & Hex). by rewrite Hp1 in Hex.
  - destruct Hr as (Hgone & _ & held & Hex & Hheld). rewrite Hp1 in Hex. split; [done|]. exists held. split; [done|].
    destruct Hheld as [|(fetched & Hh & _)]; [by left|right]. by exists fetched.
Qed.
End store.

(** ** The tier coordinator on concrete inputs

    Witnesses for the coordinator's properties: a pool of sixteen bytes with
    two live regions, a disk store that holds one block, and the shared file
    system as the cluster-shared backend. *)


#[export] Instance SharedFs_cluster_total : @BackendTotal DiskWorld cluster_backend := SharedFs_total.

Definition sample_pools : Pools := {[0%N := mkShared holed_pool false]}.

Definition sample_coordinator (moments : list Moment) : World (R := DiskWorld) :=
  mkWorld (CoordinatorControl_new 4) sample_pools (Some sample_root) (Some sample_world) true [] moments.

Definition sample_fetch : list FetchRequest :=
  [mkFetchRequest 5 (LocDisk sample_fp 3) 3 0; mkFetchRequest 6 (LocHostPinned 8) 8 0].

Lemma sample_pools_ok : pools_ok sample_pools.
Proof. apply map_Forall_singleton. split; [apply holed_pool_wf|done]. Qed.

Lemma sample_fetch_pools : Forall (fun b => is_Some (sample_pools !! fr_host_pool b)) sample_fetch.
Proof. repeat constructor; by eexists. Qed.

(** Both blocks of the fetch are ready: one copied into the hole of the pool. *)
Definition sample_fetched : list FetchedBlock :=
  [mkFetchedBlock 5 (mkRegion 4 3) 3 true; mkFetchedBlock 6 (mkRegion 8 8) 8 false].

Lemma fetch_all_or_nothing_witness :
  exists w' fetched, handle_fetch 9 sample_fetch (sample_coordinator []) = Done (w', inl OutCompleted) /\
    w_events w' = [FetchQueued 9 2; FetchCompleted 9 fetched] /\
    extends sample_pools (staged_by sample_fetch fetched) (w_pools w').
Proof.
  destruct (fetch_all_or_nothing 9 sample_fetch (sample_coordinator []) sample_pools_ok sample_fetch_pools)
    as (w' & r & Hrun & Hr).
  assert (r = inl OutCompleted) as ->.
  { assert ((match handle_fetch 9 sample_fetch (sample_coordinator []) with
             | Done (_, inl OutCompleted) => true | _ => false end) = true) as Hc by (vm_compute; reflexivity).
    rewrite Hrun in Hc. destruct r as [[]|]; [reflexivity|discriminate Hc..]. }
  destruct Hr as (fetched & He & _ & Hex). exists w', fetched. split; [exact Hrun|]. split; [exact He|exact Hex].
Defined.

Definition sample_store : list StoreRequest :=
  [mkStoreRequest 5 (replicate 16 9%N) 1 0 (mkRegion 0 4) TargetDisk].

Lemma sample_store_pools : Forall (fun b => is_Some (sample_pools !! st_host_pool b)) sample_store.
Proof. repeat constructor; by eexists. Qed.

Lemma sample_store_fps :
  Forall (fun b => fingerprint_ok (st_fingerprint b) /\ is_byte (st_kv_format_tag b) /\ st_target b = TargetDisk) sample_store.
Proof. constructor; [|constructor]. split; [|done]. split; [done|]. by repeat constructor. Qed.

Lemma sample_store_unique : NoDup (disk_fps sample_store).
Proof. apply NoDup_singleton. Qed.

(** The state after the store. *)
Definition after_store : World (R := DiskWorld) :=
  match handle_store 1 sample_store (sample_coordinator []) with Done (w, _) => w | _ => sample_coordinator [] end.

Lemma sample_store_runs : handle_store 1 sample_store (sample_coordinator []) = Done (after_store, inl OutCompleted).
Proof.
  unfold after_store. assert ((match handle_store 1 sample_store (sample_coordinator []) with
    | Done (_, inl OutCompleted) => true | _ => false end) = true) as Hc by (vm_compute; reflexivity).
  destruct (handle_store 1 sample_store (sample_coordinator [])) as [[w [[]|]]| |]; [reflexivity|discriminate Hc..].
Qed.

Lemma store_completed_readable_witness :
  w_events after_store = [StoreQueued 1 1; StoreCompleted 1 [(5%N, LocDisk (replicate 16 9%N) 4)]] /\
  w_pools after_store = sample_pools.
Proof.
  destruct (store_completed_readable 1 sample_store (sample_coordinator []) sample_pools_ok sample_store_pools)
    as (w' & r & Hrun & Hp & Hr).
  - constructor; [|constructor]. split; [|done]. split; [done|]. by repeat constructor.
  - apply sample_store_unique.
  - rewrite sample_store_runs in Hrun. injection Hrun as <- <-. split; [|exact Hp].
    destruct Hr as (locations & He & Hloc). rewrite He. cbn. do 3 f_equal.
    apply Forall2_cons_inv_l in Hloc as ([id loc] & k & [Hid Hl] & Hk%Forall2_nil_inv_l & ->). subst k.
    cbn in Hid, Hl. destruct (Hl eq_refl) as [-> _]. by rewrite Hid.
Defined.

Lemma store_fetch_roundtrip_witness :
  exists w2 r, handle_fetch 2 (fetch_back 0 <$> sample_store) after_store = Done (w2, r) /\ r <> inl OutFailed /\
  match r with
  | inl OutCompleted => exists fetched, last (w_events w2) = Some (FetchCompleted 2 fetched)
  | _ => True
  end.
Proof.
  destruct (store_fetch_roundtrip 1 2 0 sample_store (sample_coordinator []) after_store sample_pools_ok
    sample_store_pools sample_store_fps sample_store_unique) as (w2 & r & Hrun & Hr);
    [by eexists|apply sample_store_runs|].
  exists w2, r. split; [exact Hrun|]. destruct r as [[]|e].
  - destruct Hr as (fetched & He & _). split; [discriminate|]. exists fetched. exact He.
  - exfalso. assert ((match handle_fetch 2 (fetch_back 0 <$> sample_store) after_store with
      | Done (_, inl OutCompleted) => true | _ => false end) = true) as Hc by (vm_compute; reflexivity).
    rewrite Hrun in Hc. discriminate Hc.
  - split; [discriminate|exact I].
  - split; [discriminate|exact I].
Defined.

(** The guard is committed before the completion is sent. When the
    receiver of the events goes away just then, the handler fails, the event
    that names the staged region is lost, and the region stays reserved: nobody
    is left who could release it. *)
Theorem commit_before_send_leaks :
  match handle_fetch 9 sample_fetch (sample_coordinator [quiet; quiet; quiet; quiet; mkMoment [] true false]) with
  | Done (w', inr _) =>
      w_events w' = [FetchQueued 9 2] /\ ~ live_in sample_pools (0%N, mkRegion 4 3) /\ live_in (w_pools w') (0%N, mkRegion 4 3)
  | _ => False
  end.
Proof.
  assert (forall m x, live_in m x <-> match m !! x.1 with Some s => x.2 ∈ live_regions (inner s) | None => False end) as Hlive.
  { intros m x. unfold live_in. destruct (m !! x.1) as [s|]; [|by split; [intros (? & ? & _)|]].
    split; [by intros (? & [= <-] & ?)|by exists s]. }
  set (ran := handle_fetch _ _ _).
  assert (match ran with Done (w', inr _) => w_events w' | _ => [] end = [FetchQueued 9 2]) as He
    by (vm_compute; reflexivity).
  assert (match ran with
    | Done (w', inr _) => match w_pools w' !! 0%N with
        | Some s => bool_decide (mkRegion 4 3 ∈ live_regions (inner s)) | None => false end
    | _ => false end = true) as Hl by (vm_compute; reflexivity).
  destruct ran as [[w' [o|e]]| |]; try discriminate Hl. split; [exact He|]. rewrite !Hlive. split.
  - apply (bool_decide_unpack _). vm_compute. exact I.
  - cbn [fst snd]. destruct (w_pools w' !! 0%N) as [s|]; [|discriminate Hl]. by apply bool_decide_eq_true in Hl.
Qed.
