(* ===== verification/SchedulerConfig.v ===== *)
(** * Scheduler configuration and request lengths

    Models the configuration half of [infer/src/scheduler/types.rs]: the
    defaults, the resolution of the prefill envelope against the GPU's memory,
    the validation of a configuration, the admission gate it selects, and the
    length contract of a request.

    Sizes are [N]. A path is a string, and the system's temporary directory an
    argument of the defaults. The command-line parsers, which trim and fold the
    case of Unicode text, are not modelled. *)

From S2P Require Import Prelude Policy Plan.

#[local] Open Scope N_scope.

(** ** Data *)
Inductive SchedulerAdmissionPolicy := QueueBound | PrefixAware.
Inductive SchedulePolicy := Fcfs.
Inductive SchedulerMixedPolicy := Mixed.

#[export] Instance SchedulerAdmissionPolicy_eq_dec : EqDecision SchedulerAdmissionPolicy.
Proof. solve_decision. Defined.

Definition allows_mixed (p : SchedulerMixedPolicy) : bool := true.

Inductive ClusterSharedBackendConfig := SharedFilesystem (root : string).

Record SchedulerConfig := mkSchedulerConfig {
  max_slots : N;
  chunked_prefill_size : N;
  max_num_batched_tokens : N;
  max_prefill_tokens : N;
  long_prefill_token_threshold : N;
  prefill_max_requests : option N;
  long_prefill_active_limit : option N;
  short_prompt_bypass_tokens : N;
  prefix_cache_enabled : bool;
  admission_policy : SchedulerAdmissionPolicy;
  cold_headroom : option nat;
  schedule_policy : SchedulePolicy;
  mixed_policy : SchedulerMixedPolicy;
  stream_interval : N;
  spec_enabled : bool;
  spec_draft_k : N;
  spec_acceptance_threshold : f32;
  spec_draft_model : DraftMode;
  spec_sparse_kv_enabled : bool;
  spec_sparse_recent_tokens : N;
  spec_sparse_top_k_pages : N;
  max_waiting_requests : nat;
  mem_fraction_static : f64;
  pre_model_free_bytes : option N;
  min_seq_len : N;
  kv_pool_fallback_bytes : N;
  prefix_cache_high_water : f64;
  prefix_cache_low_water : f64;
  prefix_cache_retain_hard_cap : f64;
  prefix_cache_keepalive_ticks : N;
  t1_host_pinned_high_water : f64;
  t1_host_pinned_low_water : f64;
  t1_host_pinned_keepalive_ticks : N;
  t1_host_pinned_capacity_bytes : option N;
  t1_host_pinned_min_prompt_tokens : N;
  disk_store_root : string;
  t2_disk_tier_enabled : bool;
  cluster_shared_backend : option ClusterSharedBackendConfig;
}.

Definition SchedulerConfig_default (temp_dir : string) : SchedulerConfig := {|
  max_slots := 4;
  chunked_prefill_size := 512;
  max_num_batched_tokens := 16384;
  max_prefill_tokens := 16384;
  long_prefill_token_threshold := 512;
  prefill_max_requests := None;
  long_prefill_active_limit := Some 4;
  short_prompt_bypass_tokens := 256;
  prefix_cache_enabled := true;
  admission_policy := QueueBound;
  cold_headroom := None;
  schedule_policy := Fcfs;
  mixed_policy := Mixed;
  stream_interval := 1;
  spec_enabled := false;
  spec_draft_k := 5;
  spec_acceptance_threshold := f32_ratio 6 10;
  spec_draft_model := DraftNone;
  spec_sparse_kv_enabled := false;
  spec_sparse_recent_tokens := 512;
  spec_sparse_top_k_pages := 32;
  max_waiting_requests := 256;
  mem_fraction_static := f64_ratio 85 100;
  pre_model_free_bytes := None;
  min_seq_len := 256;
  kv_pool_fallback_bytes := 4 * 1024 * 1024 * 1024;
  prefix_cache_high_water := f64_ratio 75 100;
  prefix_cache_low_water := f64_ratio 50 100;
  prefix_cache_retain_hard_cap := f64_ratio 90 100;
  prefix_cache_keepalive_ticks := 64;
  t1_host_pinned_high_water := f64_ratio 85 100;
  t1_host_pinned_low_water := f64_ratio 70 100;
  t1_host_pinned_keepalive_ticks := 128;
  t1_host_pinned_capacity_bytes := None;
  t1_host_pinned_min_prompt_tokens := 4096;
  disk_store_root := (temp_dir ++ "/infer-kv")%string;
  t2_disk_tier_enabled := false;
  cluster_shared_backend := None;
|}.

(** [runtime_defaults]: the fields it sets, over the defaults. *)
Definition with_prefill (slots chunk batched prefill threshold : N) (c : SchedulerConfig) : SchedulerConfig :=
  mkSchedulerConfig slots chunk batched prefill threshold (prefill_max_requests c) (long_prefill_active_limit c)
    (short_prompt_bypass_tokens c) (prefix_cache_enabled c) (admission_policy c) (cold_headroom c)
    (schedule_policy c) (mixed_policy c) (stream_interval c) (spec_enabled c) (spec_draft_k c)
    (spec_acceptance_threshold c) (spec_draft_model c) (spec_sparse_kv_enabled c) (spec_sparse_recent_tokens c)
    (spec_sparse_top_k_pages c) (max_waiting_requests c) (mem_fraction_static c) (pre_model_free_bytes c)
    (min_seq_len c) (kv_pool_fallback_bytes c) (prefix_cache_high_water c) (prefix_cache_low_water c)
    (prefix_cache_retain_hard_cap c) (prefix_cache_keepalive_ticks c) (t1_host_pinned_high_water c)
    (t1_host_pinned_low_water c) (t1_host_pinned_keepalive_ticks c) (t1_host_pinned_capacity_bytes c)
    (t1_host_pinned_min_prompt_tokens c) (disk_store_root c) (t2_disk_tier_enabled c) (cluster_shared_backend c).

Definition runtime_defaults (temp_dir : string) (slots : N) : SchedulerConfig :=
  with_prefill slots 4096 16384 (max_prefill_tokens (SchedulerConfig_default temp_dir)) 4096
    (SchedulerConfig_default temp_dir).

(** ** The prefill envelope *)
Record RuntimeEnvelopeOverrides := mkOverrides {
  override_chunked_prefill_size : option N;
  override_max_prefill_tokens : option N;
}.

Definition GIB : N := 1024 * 1024 * 1024.

Definition pick_chunked_prefill_size_for_hbm (gpu_total_bytes : N) : N :=
  if bool_decide (gpu_total_bytes < 35 * GIB) then 2048
  else if bool_decide (gpu_total_bytes < 60 * GIB) then 4096
  else if bool_decide (gpu_total_bytes < 90 * GIB) then 8192
  else 16384.

Definition resolve_runtime_envelope (o : RuntimeEnvelopeOverrides) (gpu_total_bytes : N) (c : SchedulerConfig)
    : SchedulerConfig :=
  let chunk := default (pick_chunked_prefill_size_for_hbm gpu_total_bytes) (override_chunked_prefill_size o) in
  let chunk := if bool_decide (0 < max_num_batched_tokens c) then N.min chunk (max_num_batched_tokens c) else chunk in
  let prefill := default (max_num_batched_tokens c) (override_max_prefill_tokens o) in
  let threshold := if bool_decide (chunk < long_prefill_token_threshold c) then chunk
                   else long_prefill_token_threshold c in
  with_prefill (max_slots c) chunk (max_num_batched_tokens c) prefill threshold c.

Definition mixed_prefill_token_budget (decode_rows : N) (c : SchedulerConfig) : N :=
  chunked_prefill_size c - decode_rows.

Definition mixed_prefill_workspace_token_budget (c : SchedulerConfig) : N :=
  if allows_mixed (mixed_policy c) then N.max (chunked_prefill_size c) 1 else 0.

(** ** Admission *)
Definition admission_policy_allows (signals : SchedulerSignals) (c : SchedulerConfig) : bool :=
  if bool_decide (max_waiting_requests c = 0%nat) then true
  else match admission_policy c with
  | QueueBound => allow (mkQueueBoundAdmission (max_waiting_requests c)) signals
  | PrefixAware =>
      let headroom := default (max_waiting_requests c / 4)%nat (cold_headroom c) in
      allow (with_cold_headroom (max_waiting_requests c) headroom) signals
  end.

(** ** Validation: the first check that fails names the field. *)
Inductive validation := Valid | Invalid (field : string).

Definition bail_if (b : bool) (field : string) (rest : validation) : validation :=
  if b then Invalid field else rest.

Definition is_self_spec (m : DraftMode) : bool := match m with SelfSpec => true | _ => false end.
Definition in_open_closed (x hi : f64) : bool := float_lt f32_zero x && float_le x hi.
Definition in_open (x hi : f64) : bool := float_lt f32_zero x && float_lt x hi.
Definition f64_one : f64 := f64_lit 1 0.

(** The checks that do not look at the prefill envelope. *)
Definition validate_rest (c : SchedulerConfig) : validation :=
  bail_if (bool_decide (prefill_max_requests c = Some 0)) "prefill_max_requests" $
  bail_if (bool_decide (long_prefill_active_limit c = Some 0)) "long_prefill_active_limit" $
  bail_if (bool_decide (stream_interval c = 0)) "stream_interval" $
  bail_if (bool_decide (spec_draft_k c = 0)) "spec_draft_k" $
  bail_if (spec_enabled c && is_self_spec (spec_draft_model c) && bool_decide (1 < spec_draft_k c)
           && negb (spec_sparse_kv_enabled c)) "spec_sparse_kv_enabled" $
  bail_if (negb (float_le f32_zero (spec_acceptance_threshold c)
                 && float_le (spec_acceptance_threshold c) (f32_lit 1 0))) "spec_acceptance_threshold" $
  bail_if (spec_sparse_kv_enabled c && bool_decide (spec_sparse_recent_tokens c = 0)
           && bool_decide (spec_sparse_top_k_pages c = 0)) "spec_sparse_recent_tokens" $
  bail_if (bool_decide (min_seq_len c = 0)) "min_seq_len" $
  bail_if (bool_decide (32768 < min_seq_len c)) "min_seq_len" $
  bail_if (negb (in_open_closed (mem_fraction_static c) f64_one)) "mem_fraction_static" $
  bail_if (negb (in_open (prefix_cache_high_water c) f64_one)) "prefix_cache_high_water" $
  bail_if (negb (in_open (prefix_cache_low_water c) (prefix_cache_high_water c))) "prefix_cache_low_water" $
  bail_if (negb (float_le (prefix_cache_high_water c) (prefix_cache_retain_hard_cap c)
                 && float_le (prefix_cache_retain_hard_cap c) f64_one)) "prefix_cache_retain_hard_cap" $
  bail_if (bool_decide (prefix_cache_keepalive_ticks c = 0)) "prefix_cache_keepalive_ticks" $
  bail_if (negb (in_open (t1_host_pinned_high_water c) f64_one)) "t1_host_pinned_high_water" $
  bail_if (negb (in_open (t1_host_pinned_low_water c) (t1_host_pinned_high_water c))) "t1_host_pinned_low_water" $
  bail_if (bool_decide (t1_host_pinned_keepalive_ticks c = 0)) "t1_host_pinned_keepalive_ticks" $
  bail_if (bool_decide (t1_host_pinned_capacity_bytes c = Some 0)) "t1_host_pinned_capacity_bytes" $
  Valid.

Definition validate (c : SchedulerConfig) : validation :=
  bail_if (bool_decide (max_slots c = 0)) "max_slots" $
  bail_if (bool_decide (chunked_prefill_size c = 0)) "chunked_prefill_size" $
  bail_if (bool_decide (max_num_batched_tokens c = 0)) "max_num_batched_tokens" $
  bail_if (bool_decide (max_prefill_tokens c = 0)) "max_prefill_tokens" $
  bail_if (bool_decide (long_prefill_token_threshold c = 0)) "long_prefill_token_threshold" $
  validate_rest c.

(** ** Request lengths *)
Definition REQUEST_INPUT_SLACK_TOKENS : N := 5.

Record RequestLengthContract := mkRequestLengthContract {
  max_request_len : N;
  max_request_input_len : N;
}.

Definition derive (available_pool_tokens : N) (effective_max_seq_len : option N) : RequestLengthContract :=
  let context_len := default available_pool_tokens effective_max_seq_len in
  let max_len := N.min (context_len - 1) (available_pool_tokens - 1) in
  mkRequestLengthContract max_len (max_len - REQUEST_INPUT_SLACK_TOKENS).

Definition admits_prompt_len (prompt_tokens : N) (k : RequestLengthContract) : bool :=
  bool_decide (prompt_tokens < max_request_input_len k).

Definition clamp_max_tokens (prompt_tokens requested_max_tokens : N) (k : RequestLengthContract) : N :=
  N.min requested_max_tokens (max_request_len k - prompt_tokens - 1).

(** ** Properties *)

Lemma bail_if_Valid b field rest : bail_if b field rest = Valid <-> b = false /\ rest = Valid.
Proof. unfold bail_if. destruct b; naive_solver. Qed.

Lemma validate_Valid c :
  validate c = Valid <-> max_slots c <> 0 /\ chunked_prefill_size c <> 0 /\ max_num_batched_tokens c <> 0 /\
    max_prefill_tokens c <> 0 /\ long_prefill_token_threshold c <> 0 /\ validate_rest c = Valid.
Proof. unfold validate. generalize (validate_rest c). intros v. by rewrite !bail_if_Valid, !bool_decide_eq_false. Qed.

(** Resolving the prefill envelope keeps a valid configuration valid, as
    long as no override is zero, and makes it consistent: one chunk fits a
    step, the long-prefill threshold fits a chunk, an override is kept unless
    the step is smaller, and nothing outside the envelope changes. *)
Theorem resolve_runtime_envelope_spec o gpu c :
  validate c = Valid -> override_chunked_prefill_size o <> Some 0 -> override_max_prefill_tokens o <> Some 0 ->
  let c' := resolve_runtime_envelope o gpu c in
  validate c' = Valid /\
  long_prefill_token_threshold c' <= chunked_prefill_size c' <= max_num_batched_tokens c' /\
  (forall n, override_chunked_prefill_size o = Some n ->
     chunked_prefill_size c' = N.min n (max_num_batched_tokens c)) /\
  (forall n, override_max_prefill_tokens o = Some n -> max_prefill_tokens c' = n) /\
  c' = with_prefill (max_slots c) (chunked_prefill_size c') (max_num_batched_tokens c) (max_prefill_tokens c')
         (long_prefill_token_threshold c') c.
Proof.
  intros Hv Ho1 Ho2 c'. apply validate_Valid in Hv as (Hslots & Hc & Hb & Hp & Ht & Hrest).
  assert (0 < pick_chunked_prefill_size_for_hbm gpu) as Hpick.
  { unfold pick_chunked_prefill_size_for_hbm. repeat case_bool_decide; lia. }
  assert (0 < chunked_prefill_size c' <= max_num_batched_tokens c) as Hchunk.
  { cbn. rewrite bool_decide_eq_true_2 by lia.
    destruct (override_chunked_prefill_size o) as [n|]; cbn; [assert (n <> 0) by congruence|]; lia. }
  assert (0 < max_prefill_tokens c') as Hprefill.
  { cbn. destruct (override_max_prefill_tokens o) as [n|]; cbn; [assert (n <> 0) by congruence|]; lia. }
  assert (0 < long_prefill_token_threshold c' <= chunked_prefill_size c') as Hthreshold.
  { change (long_prefill_token_threshold c') with
      (if bool_decide (chunked_prefill_size c' < long_prefill_token_threshold c) then chunked_prefill_size c'
       else long_prefill_token_threshold c). case_bool_decide; lia. }
  split_and!; [|lia|apply Hchunk| | |done].
  - apply validate_Valid. split_and!; [exact Hslots|lia|exact Hb|lia|lia|exact Hrest].
  - intros n Hn. cbn. by rewrite Hn, bool_decide_eq_true_2 by lia.
  - intros n Hn. cbn. by rewrite Hn.
Qed.

Definition small_overrides : RuntimeEnvelopeOverrides := mkOverrides None (Some 8192).

Lemma resolve_runtime_envelope_spec_witness :
  let c := resolve_runtime_envelope small_overrides (24 * GIB) (runtime_defaults "/tmp" 8) in
  validate c = Valid /\ chunked_prefill_size c = 2048 /\ max_prefill_tokens c = 8192.
Proof.
  destruct (resolve_runtime_envelope_spec small_overrides (24 * GIB) (runtime_defaults "/tmp" 8)) as (Hv & _).
  - vm_compute. reflexivity.
  - discriminate.
  - discriminate.
  - split; [exact Hv|]. vm_compute. split; reflexivity.
Defined.

(** The length contract leaves room to answer. A prompt it admits, with
    the answer clamped by it, fits the pool and the context with two tokens to
    spare, and at least five tokens of the answer asked for survive the
    clamp. *)
Theorem length_contract_spec pool seq_len prompt requested :
  let k := derive pool seq_len in
  admits_prompt_len prompt k = true ->
  let n := clamp_max_tokens prompt requested k in
  n <= requested /\ prompt + n + 2 <= pool /\ (forall m, seq_len = Some m -> prompt + n + 2 <= m) /\
  N.min requested REQUEST_INPUT_SLACK_TOKENS <= n.
Proof.
  intros k Hadm%bool_decide_eq_true n. unfold n, clamp_max_tokens, k, derive, REQUEST_INPUT_SLACK_TOKENS in *.
  cbn in *. split_and!; [lia| | |].
  - destruct seq_len; cbn in *; lia.
  - intros m ->. cbn in *. lia.
  - lia.
Qed.

Lemma length_contract_spec_witness :
  admits_prompt_len 90 (derive 4096 (Some 100)) = true /\ 90 + clamp_max_tokens 90 64 (derive 4096 (Some 100)) + 2 <= 100.
Proof.
  destruct (length_contract_spec 4096 (Some 100) 90 64) as (_ & _ & H & _).
  - vm_compute. reflexivity.
  - split; [vm_compute; reflexivity|]. by apply H.
Defined.
