(* ===== verification/Submission.v ===== *)
(** * Submitting requests to the scheduler

    Models the submission half of [infer/src/scheduler/types.rs]: the handle
    that HTTP threads share, its permits, and the count of waiting requests
    they and the scheduler update with atomic operations. Each atomic access
    is one step and threads interleave in any order; the orderings are
    relaxed, but all accesses are to one counter, on which they agree.

    The channels are the library's: a send to a live receiver appends to the
    queue, and fails once the receiver is gone. A wake-up carries no data. *)

From S2P Require Import Prelude Policy.

#[local] Open Scope N_scope.

Section submission.
  Context {IncomingRequest : Type}.

(** ** The shared state *)
Record SchedulerHandle := mkHandle {
  tx : list IncomingRequest;
  closed : bool;
  wakeups : nat;
  waiting_count : N;
  max_waiting : N;
}.

Definition with_max_waiting (max : N) : SchedulerHandle := mkHandle [] false 0 0 max.
Definition from_parts : SchedulerHandle := with_max_waiting 0.

Definition set_waiting_count (n : N) (h : SchedulerHandle) : SchedulerHandle :=
  mkHandle (tx h) (closed h) (wakeups h) n (max_waiting h).

(** [fetch_sub(1)] wraps. *)
Definition fetch_sub_one (h : SchedulerHandle) : SchedulerHandle :=
  set_waiting_count (u64_wrap (waiting_count h + u64_max)) h.

Definition admission_allows (signals : SchedulerSignals) (h : SchedulerHandle) : bool :=
  if bool_decide (max_waiting h = 0) then true
  else allow (mkQueueBoundAdmission (N.to_nat (max_waiting h))) signals.

Definition is_full (h : SchedulerHandle) : bool :=
  negb (admission_allows (queue_state (N.to_nat (waiting_count h)) 0) h).

(** ** Reserving a place

    One turn of the loop after the count was loaded as [current]. *)
Inductive reserve_turn := SchedulerFull | Reserved | Retry.

Definition reserve_submission_turn (current : N) (h : SchedulerHandle) : SchedulerHandle * reserve_turn :=
  if negb (admission_allows (queue_state (N.to_nat current) 0) h) then (h, SchedulerFull)
  else if bool_decide (waiting_count h = current) then (set_waiting_count (u64_add current 1) h, Reserved)
  else (h, Retry).

(** Alone, a thread that loads the count finds it unchanged. *)
Definition reserve_submission (h : SchedulerHandle) : SchedulerHandle * reserve_turn :=
  reserve_submission_turn (waiting_count h) h.

(** ** Permits *)
Definition permit_drop (committed : bool) (h : SchedulerHandle) : SchedulerHandle :=
  if committed then h else fetch_sub_one h.

(** The send, before the permit is dropped: what it leaves and whether it
    committed. *)
Definition permit_send (req : IncomingRequest) (h : SchedulerHandle) : SchedulerHandle * bool :=
  if closed h then (h, false)
  else (mkHandle (tx h ++ [req]) (closed h) (S (wakeups h)) (waiting_count h) (max_waiting h), true).

Definition permit_submit (req : IncomingRequest) (h : SchedulerHandle) : SchedulerHandle * bool :=
  let '(h, committed) := permit_send req h in (permit_drop committed h, committed).

Definition submit (req : IncomingRequest) (h : SchedulerHandle) : SchedulerHandle * bool :=
  match reserve_submission h with
  | (h, Reserved) => permit_submit req h
  | (h, _) => (h, false)
  end.

Definition consume_one (h : SchedulerHandle) : SchedulerHandle := fetch_sub_one h.

(** ** Threads

    A submitting thread has not loaded the count, has loaded it, or holds a
    permit it has not used. The scheduler receives a request and then counts
    it off. *)
Inductive client := Idle | Loaded (current : N) | Holds.

Record system := mkSystem {
  sys_handle : SchedulerHandle;
  sys_clients : gmap nat client;
  sys_received : nat;
  sys_lost : nat;
}.

Inductive sys_step : system -> system -> Prop :=
  | step_spawn i h cs r l : cs !! i = None -> sys_step (mkSystem h cs r l) (mkSystem h (<[i := Idle]> cs) r l)
  | step_load i h cs r l : cs !! i = Some Idle ->
      sys_step (mkSystem h cs r l) (mkSystem h (<[i := Loaded (waiting_count h)]> cs) r l)
  | step_turn i current h h' t cs r l :
      cs !! i = Some (Loaded current) -> reserve_submission_turn current h = (h', t) ->
      sys_step (mkSystem h cs r l)
        (mkSystem h' (<[i := match t with Reserved => Holds | _ => Idle end]> cs) r l)
  | step_submit i req h cs r l : cs !! i = Some Holds ->
      sys_step (mkSystem h cs r l) (mkSystem (permit_submit req h).1 (<[i := Idle]> cs) r l)
  | step_abandon i h cs r l : cs !! i = Some Holds ->
      sys_step (mkSystem h cs r l) (mkSystem (permit_drop false h) (<[i := Idle]> cs) r l)
  | step_receive req rest h cs r l : tx h = req :: rest ->
      sys_step (mkSystem h cs r l)
        (mkSystem (mkHandle rest (closed h) (wakeups h) (waiting_count h) (max_waiting h)) cs (S r) l)
  | step_consume h cs r l : sys_step (mkSystem h cs (S r) l) (mkSystem (consume_one h) cs r l)
  | step_close h cs r l :
      sys_step (mkSystem h cs r l)
        (mkSystem (mkHandle [] true (wakeups h) (waiting_count h) (max_waiting h)) cs r (l + length (tx h))).

Inductive sys_reachable (max : N) : system -> Prop :=
  | reach_start : sys_reachable max (mkSystem (with_max_waiting max) ∅ 0 0)
  | reach_step s s' : sys_reachable max s -> sys_step s s' -> sys_reachable max s'.

(** The permits held. *)
Definition is_holding (c : client) : bool := match c with Holds => true | _ => false end.
Definition permits (cs : gmap nat client) : nat := size (filter (fun p => is_holding p.2 = true) cs).

(** ** The count is exact *)

Lemma permits_insert i c cs : cs !! i <> Some Holds ->
  permits (<[i := c]> cs) = (permits cs + if is_holding c then 1 else 0)%nat.
Proof.
  intros Hi. unfold permits. rewrite map_filter_insert. cbn.
  assert (filter (fun p => is_holding p.2 = true) cs !! i = None) as Hnone.
  { apply map_lookup_filter_None. right. intros x Hx. cbn. destruct x; cbn; congruence. }
  destruct (decide _) as [Hc|Hc].
  - rewrite map_size_insert_None by done. cbn in Hc. by rewrite Hc, Nat.add_1_r.
  - rewrite (map_filter_delete_not); [destruct (is_holding c); [done|lia]|].
    intros y Hy. cbn. destruct y; cbn; congruence.
Qed.

Lemma permits_release i c cs : cs !! i = Some Holds -> is_holding c = false ->
  S (permits (<[i := c]> cs)) = permits cs.
Proof.
  intros Hi Hc. assert (permits cs = S (permits (delete i cs))) as ->.
  { rewrite <-(insert_delete_id cs i Holds Hi) at 1.
    rewrite permits_insert by (rewrite lookup_delete_eq; done). cbn. lia. }
  rewrite <-insert_delete_eq, permits_insert by (rewrite lookup_delete_eq; done). rewrite Hc. lia.
Qed.

(** What the count stands for: queued requests, permits, requests received but
    not counted off, and requests that a closed queue swallowed. *)
Definition outstanding (s : system) : nat :=
  length (tx (sys_handle s)) + permits (sys_clients s) + sys_received s + sys_lost s.

Definition counted (max : N) (s : system) : Prop :=
  max_waiting (sys_handle s) = max /\ waiting_count (sys_handle s) = N.of_nat (outstanding s) /\
  (N.of_nat (outstanding s) <= max).

Lemma fetch_sub_small n h : waiting_count h = N.of_nat (S n) -> N.of_nat (S n) <= u64_max ->
  fetch_sub_one h = set_waiting_count (N.of_nat n) h.
Proof.
  intros Hc Hle. unfold fetch_sub_one, u64_wrap. f_equal. rewrite Hc.
  replace (N.of_nat (S n) + u64_max) with (N.of_nat n + 1 * 18446744073709551616) by (unfold u64_max in *; lia).
  rewrite N.Div0.mod_add. apply N.mod_small. unfold u64_max in Hle. lia.
Qed.

Lemma turn_counted current h h' t : max_waiting h <> 0 -> max_waiting h <= u64_max ->
  reserve_submission_turn current h = (h', t) ->
  match t with
  | Reserved => h' = set_waiting_count (waiting_count h + 1) h /\ waiting_count h < max_waiting h
  | _ => h' = h
  end.
Proof.
  intros Hmax Hle. unfold reserve_submission_turn, admission_allows. rewrite bool_decide_eq_false_2 by done.
  unfold allow, QueueBound_allow. cbn. case_bool_decide as Hlt; cbn; [|by intros [= <- <-]].
  case_bool_decide as Hc; intros [= <- <-]; [|done]. split; [|lia]. f_equal. rewrite Hc.
  apply u64_add_small. lia.
Qed.

#[local] Arguments fetch_sub_one : simpl never.

Lemma step_counted max s s' : max <> 0 -> max <= u64_max -> counted max s -> sys_step s s' -> counted max s'.
Proof.
  intros Hmax Hle (Hm & Hc & Hb) Hstep. unfold counted, outstanding in *.
  destruct Hstep as [i h cs r l Hi|i h cs r l Hi|i cur h h' t cs r l Hi Ht|i req h cs r l Hi|i h cs r l Hi
    |req rest h cs r l Htx|h cs r l|h cs r l]; cbn [sys_handle sys_clients sys_received sys_lost] in *.
  - rewrite permits_insert by congruence. cbn. split_and!; [done|rewrite Hc; f_equal; lia|lia].
  - rewrite permits_insert by congruence. cbn. split_and!; [done|rewrite Hc; f_equal; lia|lia].
  - rewrite permits_insert by congruence. apply turn_counted in Ht; [|lia..].
    destruct t; [subst h'; cbn; split_and!; [done|rewrite Hc; f_equal; lia|lia]| |
      subst h'; cbn; split_and!; [done|rewrite Hc; f_equal; lia|lia]].
    destruct Ht as [-> Hlt]. cbn. split_and!; [done|lia|lia].
  - pose proof (permits_release i Idle cs Hi eq_refl) as Hp. unfold permit_submit, permit_send.
    destruct (closed h); cbn.
    + rewrite (fetch_sub_small (length (tx h) + permits (<[i:=Idle]> cs) + r + l)) by lia.
      cbn. split_and!; [done|done|lia].
    + rewrite length_app. cbn. split_and!; [done|rewrite Hc; f_equal; lia|lia].
  - pose proof (permits_release i Idle cs Hi eq_refl) as Hp. cbn [permit_drop].
    rewrite (fetch_sub_small (length (tx h) + permits (<[i:=Idle]> cs) + r + l)) by lia.
    cbn. split_and!; [done|done|lia].
  - rewrite Htx in *. cbn in *. split_and!; [done|rewrite Hc; f_equal; lia|lia].
  - unfold consume_one. rewrite (fetch_sub_small (length (tx h) + permits cs + r + l)) by lia.
    cbn. split_and!; [done|done|lia].
  - cbn. split_and!; [done|rewrite Hc; f_equal; lia|lia].
Qed.

(** The queue bound holds under every interleaving of submitting threads
    and the scheduler, and the count never drifts or wraps: it is always the
    number of queued requests, held permits, requests received and not yet
    counted off, and requests a closed queue swallowed, and this is at most
    the configured maximum. *)
Theorem queue_bound max s :
  max <> 0 -> max <= u64_max -> sys_reachable max s ->
  waiting_count (sys_handle s) = N.of_nat (outstanding s) /\ N.of_nat (outstanding s) <= max /\
  (length (tx (sys_handle s)) <= N.to_nat max)%nat.
Proof.
  intros Hmax Hle Hr. assert (counted max s) as (Hm & Hc & Hb).
  { induction Hr as [|s s' _ IH Hstep]; [|by eapply step_counted].
    unfold counted, outstanding, permits. cbn. rewrite map_filter_empty, map_size_empty. cbn. split_and!; [done..|lia]. }
  split_and!; [done|done|]. unfold outstanding in Hb. lia.
Qed.
End submission.

(** Two threads load the count together and race for one place: the second
    turn of the loop has to retry. *)
Definition start : SchedulerHandle (IncomingRequest := nat) := with_max_waiting 1.
Definition both_loaded : gmap nat client :=
  <[1%nat := Loaded 0]> (<[0%nat := Loaded 0]> (<[1%nat := Idle]> (<[0%nat := Idle]> ∅))).
Definition one_reserved : SchedulerHandle (IncomingRequest := nat) := (reserve_submission_turn 0 start).1.
Definition raced : system (IncomingRequest := nat) :=
  mkSystem (permit_submit 7%nat one_reserved).1
    (<[0%nat := Idle]> (<[1%nat := Idle]> (<[0%nat := Holds]> both_loaded))) 0 0.

Lemma raced_reachable : sys_reachable 1 raced.
Proof.
  eapply reach_step; [|apply (step_submit 0 7%nat); vm_compute; reflexivity].
  eapply reach_step; [|apply (step_turn 1 0 one_reserved one_reserved Retry); vm_compute; reflexivity].
  eapply reach_step; [|apply (step_turn 0 0 start one_reserved Reserved); vm_compute; reflexivity].
  eapply reach_step; [|apply (step_load 1 start); vm_compute; reflexivity].
  eapply reach_step; [|apply (step_load 0 start); vm_compute; reflexivity].
  eapply reach_step; [|apply (step_spawn 1 start); vm_compute; reflexivity].
  eapply reach_step; [|apply (step_spawn 0 start); vm_compute; reflexivity].
  constructor.
Qed.

Lemma queue_bound_witness : waiting_count (sys_handle raced) = 1 /\ N.of_nat (outstanding raced) <= 1.
Proof.
  destruct (queue_bound 1 raced) as (_ & H & _); [discriminate|discriminate|exact raced_reachable|].
  split; [vm_compute; reflexivity|exact H].
Defined.
