(* ===== verification/TokenCoordinator.v ===== *)
(** * Token agreement between ranks

    Models the in-process half of the token coordination of
    [infer/src/scheduler/types.rs]: rank 0 publishes the token of a step under
    a mutex, the other ranks wait on a condition variable. A critical section
    is one step. What a waiting rank sees is the list of the states it finds
    at its wake-ups, with what the clock and the wait said. The NCCL variant
    is a broadcast of the library and is not modelled. *)

From S2P Require Import Prelude Tier.

#[local] Open Scope N_scope.

(** ** Data *)
Record DistributedTokenState := mkTokenState { step_idx : option N; published : option Token }.

Definition DistributedTokenState_default : DistributedTokenState := mkTokenState None None.

Record DistributedTokenCoordinator := mkCoordinator { world_size : nat; token_state : DistributedTokenState }.

Definition DistributedTokenCoordinator_new (ws : nat) : option DistributedTokenCoordinator :=
  if bool_decide (ws = 0)%nat then None else Some (mkCoordinator ws DistributedTokenState_default).

Definition DistributedRequestCoordination_new (rank : nat) (c : DistributedTokenCoordinator)
    : option (nat * DistributedTokenCoordinator) :=
  if bool_decide (world_size c <= rank)%nat then None else Some (rank, c).

(** ** Rank 0 *)
Inductive sync_result := Synchronized (t : Token) | Missing | Skipped | TimedOut.

Definition token_or_missing (s : DistributedTokenState) : sync_result :=
  match published s with Some t => Synchronized t | None => Missing end.

Definition publish (step : N) (local_token : Token) (s : DistributedTokenState)
    : DistributedTokenState * sync_result :=
  if bool_decide (step_idx s = Some step) then (s, token_or_missing s)
  else (mkTokenState (Some step) (Some local_token), Synchronized local_token).

(** ** The other ranks *)
Record wake := mkWake {
  w_state : DistributedTokenState;  (** under the lock *)
  w_timed_out : bool;               (** what the wait before it returned *)
  w_expired : bool;                 (** whether the deadline has passed *)
}.

(** One turn of the loop; [None] goes back to waiting. *)
Definition follower_turn (step : N) (w : wake) : option sync_result :=
  let s := w_state w in
  if w_timed_out w && negb (bool_decide (step_idx s = Some step)) then Some TimedOut
  else if bool_decide (step_idx s = Some step) then Some (token_or_missing s)
  else if match step_idx s with Some p => bool_decide (step < p) | None => false end then Some Skipped
  else if w_expired w then Some TimedOut
  else None.

(** [None]: still waiting after these wake-ups. *)
Fixpoint follower_wait (step : N) (wakes : list wake) : option sync_result :=
  match wakes with
  | [] => None
  | w :: wakes =>
      match follower_turn step w with
      | Some r => Some r
      | None => follower_wait step wakes
      end
  end.

(** ** Agreement *)

(** Rank 0's calls in order, as steps and the tokens it chose. *)
Definition state_after (calls : list (N * Token)) : DistributedTokenState :=
  foldl (fun s c => (publish c.1 c.2 s).1) DistributedTokenState_default calls.

Definition nondecreasing (calls : list (N * Token)) : Prop :=
  forall i j a b, (i <= j)%nat -> calls !! i = Some a -> calls !! j = Some b -> a.1 <= b.1.

Definition first_token (calls : list (N * Token)) (step : N) : option Token :=
  snd <$> head (filter (fun c => c.1 = step) calls).

Lemma first_token_app calls calls' step :
  first_token (calls ++ calls') step =
    match first_token calls step with Some t => Some t | None => first_token calls' step end.
Proof.
  unfold first_token. rewrite filter_app. by destruct (filter (fun c => c.1 = step) calls).
Qed.

Lemma first_token_Some calls step t : first_token calls step = Some t -> (step, t) ∈ calls.
Proof.
  unfold first_token. destruct (filter _ calls) as [|[s t'] l] eqn:E; [done|]. intros [= ->].
  assert ((s, t) ∈ filter (fun c => c.1 = step) calls) as Hin by (rewrite E; left).
  apply list_elem_of_filter in Hin as [Hs Hin]. cbn in Hs. by subst s.
Qed.

Lemma first_token_None calls step : first_token calls step = None -> forall t, (step, t) ∉ calls.
Proof.
  unfold first_token. intros H t Hin.
  assert ((step, t) ∈ filter (fun c => c.1 = step) calls) as Hf by (by apply list_elem_of_filter).
  destruct (filter _ calls); [by apply not_elem_of_nil in Hf|done].
Qed.

Lemma first_token_one step t : first_token [(step, t)] step = Some t.
Proof. unfold first_token. by rewrite filter_cons_True. Qed.

Lemma nondecreasing_app calls calls' : nondecreasing (calls ++ calls') -> nondecreasing calls.
Proof.
  intros H i j a b Hij Ha Hb. apply (H i j); [done|by apply lookup_app_l_Some..].
Qed.

Lemma state_after_last calls :
  nondecreasing calls ->
  state_after calls = match last calls with
                      | Some c => mkTokenState (Some c.1) (first_token calls c.1)
                      | None => DistributedTokenState_default
                      end.
Proof.
  induction calls as [|[s t] calls IH] using rev_ind; [done|]. intros Hnd.
  unfold state_after. rewrite foldl_app. cbn [foldl]. fold (state_after calls).
  rewrite IH by (by eapply nondecreasing_app). rewrite last_snoc, first_token_app, first_token_one. cbn [fst snd].
  destruct (last calls) as [[s' t']|] eqn:Hlast.
  2: { by apply last_None in Hlast as ->. }
  pose proof Hlast as Hl. rewrite last_lookup in Hl. unfold publish. cbn [step_idx fst].
  case_bool_decide as Hs.
  - injection Hs as ->. cbn [fst]. f_equal. destruct (first_token calls s) eqn:E; [done|].
    exfalso. eapply (first_token_None _ _ E t'). by eapply list_elem_of_lookup_2.
  - cbn [fst]. f_equal. destruct (first_token calls s) as [t0|] eqn:E; [|done].
    exfalso. apply Hs. f_equal. apply first_token_Some, list_elem_of_lookup_1 in E as [i Hi].
    pose proof (lookup_lt_Some _ _ _ Hi) as Hilt. pose proof (lookup_lt_Some _ _ _ Hl) as Hjlt.
    assert (s <= s').
    { apply (Hnd i (pred (length calls)) (s, t0) (s', t')); [lia|by apply lookup_app_l_Some..]. }
    assert (s' <= s).
    { apply (Hnd (pred (length calls)) (length calls) (s', t') (s, t)); [lia|by apply lookup_app_l_Some|].
      by rewrite lookup_app_r, Nat.sub_diag by lia. }
    lia.
Qed.

(** What any rank is told of a step is the first token rank 0 chose for it. *)
Lemma published_first calls step t :
  nondecreasing calls -> step_idx (state_after calls) = Some step ->
  token_or_missing (state_after calls) = Synchronized t -> first_token calls step = Some t.
Proof.
  intros Hnd. rewrite state_after_last by done. destruct (last calls) as [c|]; [|done].
  cbn [step_idx]. intros [= <-]. unfold token_or_missing. cbn [published].
  destruct (first_token calls c.1); [|done]. by intros [= ->].
Qed.

Lemma follower_wait_Synchronized step wakes t :
  follower_wait step wakes = Some (Synchronized t) ->
  exists w, w ∈ wakes /\ step_idx (w_state w) = Some step /\ token_or_missing (w_state w) = Synchronized t.
Proof.
  induction wakes as [|w wakes IH]; cbn; [done|]. destruct (follower_turn step w) as [r|] eqn:E.
  - intros [= ->]. exists w. split; [left|]. unfold follower_turn in E.
    destruct (bool_decide (step_idx (w_state w) = Some step)) eqn:Hs.
    + apply bool_decide_eq_true in Hs. split; [done|]. by destruct (w_timed_out w); injection E as E.
    + exfalso. clear -E. destruct (w_timed_out w), (step_idx (w_state w)) as [p|], (w_expired w); cbn in E;
        try destruct (bool_decide (step < p)); discriminate.
  - intros H. destruct (IH H) as (w' & ? & ?). exists w'. split; [by right|done].
Qed.

(** No two ranks continue a request with different tokens. As long as rank
    0 does not go back to an earlier step, a token that a waiting rank is
    given for a step, whenever its wake-ups fall, is the token that rank 0 is
    given for it, even when rank 0 asks again for the same step with another
    token. *)
Theorem ranks_agree calls before step local after t wakes t' :
  nondecreasing calls -> calls = before ++ (step, local) :: after ->
  (publish step local (state_after before)).2 = Synchronized t ->
  (forall w, w ∈ wakes -> exists k, w_state w = state_after (take k calls)) ->
  follower_wait step wakes = Some (Synchronized t') -> t = t'.
Proof.
  intros Hnd Hcalls Hpub Hwakes Hwait. rewrite Hcalls in Hnd.
  assert (first_token calls step = Some t) as Ht.
  { rewrite Hcalls, first_token_app. unfold publish in Hpub. case_bool_decide as Hs.
    - apply nondecreasing_app in Hnd. by rewrite (published_first _ _ _ Hnd Hs Hpub).
    - cbn in Hpub. injection Hpub as <-. destruct (first_token before step) as [t0|] eqn:E.
      + exfalso. apply Hs. pose proof (nondecreasing_app _ _ Hnd) as Hnd'. rewrite state_after_last by done.
        apply first_token_Some, list_elem_of_lookup_1 in E as [i Hi]. rewrite last_lookup.
        pose proof (lookup_lt_Some _ _ _ Hi) as Hilt.
        destruct (lookup_lt_is_Some_2 before (pred (length before))) as [[s' u] Hl]; [lia|]. rewrite Hl. cbn.
        f_equal. assert (step <= s').
        { apply (Hnd i (pred (length before)) (step, t0) (s', u)); [lia|by apply lookup_app_l_Some..]. }
        assert (s' <= step).
        { apply (Hnd (pred (length before)) (length before) (s', u) (step, local)); [lia|by apply lookup_app_l_Some|].
          by rewrite lookup_app_r, Nat.sub_diag by lia. }
        lia.
      + change ((step, local) :: after) with ([(step, local)] ++ after). by rewrite first_token_app, first_token_one. }
  apply follower_wait_Synchronized in Hwait as (w & Hw & Hs & Htok). destruct (Hwakes w Hw) as [k Hk].
  rewrite <-Hcalls in Hnd. rewrite <-(take_drop k calls) in Hnd, Ht. rewrite Hk in Hs, Htok.
  pose proof (published_first _ _ _ (nondecreasing_app _ _ Hnd) Hs Htok) as Hf.
  rewrite first_token_app, Hf in Ht. by injection Ht.
Qed.

(** Rank 0 repeats step 3; a follower wakes up early and then after it. *)
Lemma ranks_agree_witness :
  let calls := [(2, 40); (3, 50); (3, 60)] in
  let wakes := [mkWake (state_after (take 1 calls)) false false; mkWake (state_after calls) false false] in
  exists t', follower_wait 3 wakes = Some (Synchronized t') /\
    (publish 3 60 (state_after (take 2 calls))).2 = Synchronized t' /\ 50 = t'.
Proof.
  exists 50. split; [reflexivity|]. split; [reflexivity|].
  apply (ranks_agree [(2, 40); (3, 50); (3, 60)] [(2, 40); (3, 50)] 3 60 [] 50
    [mkWake (state_after [(2, 40)]) false false; mkWake (state_after [(2, 40); (3, 50); (3, 60)]) false false] 50).
  - intros i j a b Hij Ha Hb. destruct i as [|[|[|i]]], j as [|[|[|j]]]; cbn in *;
      repeat match goal with H : Some _ = Some _ |- _ => injection H as <- end; cbn; try lia; try discriminate.
  - reflexivity.
  - reflexivity.
  - intros w Hw. apply elem_of_cons in Hw as [->|Hw]; [by exists 1%nat|].
    apply list_elem_of_singleton in Hw as ->. by exists 3%nat.
  - reflexivity.
Defined.
