(* ===== verification/KvFormat.v ===== *)
(** * Storage formats and device buffers of the paged KV pool

    Models [KVFormat] of [crates/cuda-kernels/src/kv_types.rs] and the byte
    accounting of [crates/cuda-kernels/src/paged_kv.rs]: how many bytes a token
    takes and how many tokens a byte budget pays for. Byte counts are [usize]
    at their width, which wraps in the release profile. *)

From S2P Require Import Prelude Bytes.

Local Open Scope N_scope.

Inductive KVCacheDtype := DtypeBF16 | DtypeINT8.

Inductive KVFormat := BF16 | FP8E4M3 | INT8 | INT4 | TurboQuant (key_bits val_bits : N).

#[export] Instance KVFormat_eq_dec : EqDecision KVFormat.
Proof. solve_decision. Defined.

(** The discriminant written to disk. *)
Definition stable_tag (f : KVFormat) : option N :=
  match f with
  | BF16 => Some 1
  | INT8 => Some 3
  | FP8E4M3 => Some 5
  | INT4 => Some 7
  | TurboQuant 2 2 => Some 10
  | TurboQuant 3 3 => Some 11
  | TurboQuant 4 4 => Some 12
  | TurboQuant _ _ => None
  end.

Definition default_page_size (f : KVFormat) : nat :=
  match f with BF16 | FP8E4M3 | INT8 | INT4 => 16 | TurboQuant _ _ => 1 end.

Definition bytes_per_element (f : KVFormat) : N :=
  match f with
  | BF16 => 2
  | FP8E4M3 | INT8 | INT4 => 1
  | TurboQuant key_bits _ => ((if key_bits =? 3 then 4 else key_bits) + 7) / 8
  end.

Definition has_scales (f : KVFormat) : bool :=
  match f with FP8E4M3 | INT8 | INT4 => true | _ => false end.
Definition has_norms (f : KVFormat) : bool :=
  match f with TurboQuant _ _ => true | _ => false end.
Definition needs_work_buffer (f : KVFormat) : bool :=
  match f with BF16 => false | _ => true end.
Definition is_turboquant (f : KVFormat) : bool :=
  match f with TurboQuant _ _ => true | _ => false end.

(** [TokenKVPool::new] maps the older dtype, [with_format] maps back. *)
Definition format_of_dtype (d : KVCacheDtype) : KVFormat :=
  match d with DtypeBF16 => BF16 | DtypeINT8 => INT8 end.
Definition dtype_of_format (f : KVFormat) : KVCacheDtype :=
  match f with
  | BF16 | INT4 => DtypeBF16
  | FP8E4M3 | INT8 | TurboQuant _ _ => DtypeINT8
  end.

(** ** Byte budgets *)
Definition usize_mul (a b : N) : N := u64_wrap (a * b).
Definition usize_saturating_mul (a b : N) : N := N.min (a * b) u64_max.

Record BudgetBreakdown := mkBudgetBreakdown {
  bd_storage_bytes_per_token : N;
  bd_work_bytes_per_token : N;
  bd_total_bytes_per_token : N;
  bd_max_total_tokens : N;
}.

(** The shape of a pool, as [compute_budget_breakdown] takes it. *)
Record KVShape := mkKVShape { sh_num_layers : N; sh_num_kv_heads : N; sh_head_dim : N }.

Definition sh_kv_dim (sh : KVShape) : N := usize_mul (sh_num_kv_heads sh) (sh_head_dim sh).

Definition scale_bytes_per_token (sh : KVShape) (f : KVFormat) : N :=
  if has_scales f then usize_mul (usize_mul (sh_num_kv_heads sh) 4) 2 else 0.
Definition norm_bytes_per_token (sh : KVShape) (f : KVFormat) : N :=
  if has_norms f then usize_mul (usize_mul (sh_num_kv_heads sh) 2) 2 else 0.

(** [storage_bytes_per_token] of the pool computes the same from its fields. *)
Definition storage_bytes_per_token (sh : KVShape) (f : KVFormat) : N :=
  let data := usize_mul (usize_mul (sh_kv_dim sh) (bytes_per_element f)) 2 in
  usize_mul (u64_add (u64_add data (scale_bytes_per_token sh f)) (norm_bytes_per_token sh f)) (sh_num_layers sh).

Definition work_bytes_per_token (sh : KVShape) (f : KVFormat) : N :=
  if needs_work_buffer f then usize_mul (usize_mul (sh_kv_dim sh) 2) 2 else 0.

Definition compute_budget_breakdown (sh : KVShape) (num_slots budget_bytes : N) (f : KVFormat) : BudgetBreakdown :=
  let storage := storage_bytes_per_token sh f in
  let work := work_bytes_per_token sh f in
  let total := u64_add storage work in
  mkBudgetBreakdown storage work total
    (if total =? 0 then 0 else N.max (budget_bytes / total) num_slots).

Definition budget_bytes_for_tokens (sh : KVShape) (token_count : N) (f : KVFormat) : N :=
  usize_saturating_mul token_count (bd_total_bytes_per_token (compute_budget_breakdown sh 1 u64_max f)).

(** Bytes of one layer's K (or V) buffer for [tokens] tokens, and of one page in
    the transfers: the first packs two 4-bit elements per byte, the second
    does not. *)
Definition pool_bytes_per_layer (kv_dim tokens : N) (f : KVFormat) : N :=
  match f with
  | INT4 => usize_mul tokens ((kv_dim + 1) / 2)
  | _ => usize_mul (usize_mul tokens kv_dim) (bytes_per_element f)
  end.
Definition page_data_bytes (page_size kv_dim : N) (f : KVFormat) : N :=
  usize_mul (usize_mul page_size kv_dim) (bytes_per_element f).

(** ** What the accounting guarantees *)
Section budget.
Context (sh : KVShape) (f : KVFormat).

Lemma usize_mul_small a b : a * b <= u64_max -> usize_mul a b = a * b.
Proof. unfold usize_mul, u64_wrap, u64_max. intros. apply N.mod_small. lia. Qed.

Lemma breakdown_total num_slots budget_bytes :
  bd_total_bytes_per_token (compute_budget_breakdown sh num_slots budget_bytes f) =
  u64_add (storage_bytes_per_token sh f) (work_bytes_per_token sh f).
Proof. done. Qed.

(** The tokens granted cost at most the budget, unless the floor of one token
    per slot is in force, and one more token would not fit. *)
Lemma breakdown_within_budget num_slots budget_bytes :
  let b := compute_budget_breakdown sh num_slots budget_bytes f in
  0 < bd_total_bytes_per_token b ->
  num_slots <= bd_max_total_tokens b /\
  (num_slots < bd_max_total_tokens b -> bd_max_total_tokens b * bd_total_bytes_per_token b <= budget_bytes) /\
  budget_bytes < (bd_max_total_tokens b + 1) * bd_total_bytes_per_token b.
Proof.
  unfold compute_budget_breakdown. cbn.
  set (total := u64_add _ _). clearbody total. intros Ht. rewrite (proj2 (N.eqb_neq total 0)) by lia.
  pose proof (N.div_mod budget_bytes total) as Hd. pose proof (N.mod_lt budget_bytes total) as Hm.
  specialize (Hd ltac:(lia)). specialize (Hm ltac:(lia)). set (q := budget_bytes / total) in *. set (r := budget_bytes mod total) in *. clearbody q r.
  split_and!; [apply N.le_max_r| |].
  - intros Hlt. assert (N.max q num_slots = q) as -> by lia. nia.
  - eapply N.lt_le_trans; [|apply N.mul_le_mono_r, N.add_le_mono_r, N.le_max_l]. nia.
Qed.

(** A budget computed for a number of tokens pays for that many. *)
Lemma budget_for_tokens_suffices token_count num_slots :
  let b := budget_bytes_for_tokens sh token_count f in
  token_count * bd_total_bytes_per_token (compute_budget_breakdown sh 1 u64_max f) <= u64_max ->
  0 < bd_total_bytes_per_token (compute_budget_breakdown sh 1 u64_max f) ->
  bd_max_total_tokens (compute_budget_breakdown sh num_slots b f) = N.max token_count num_slots.
Proof.
  unfold budget_bytes_for_tokens, usize_saturating_mul. cbn. set (total := u64_add _ _).
  intros Hfit Ht. rewrite N.min_l by done. rewrite (proj2 (N.eqb_neq total 0)) by lia.
  by rewrite N.div_mul by lia.
Qed.
End budget.

(** Formats with a tag have different tags. *)
Lemma stable_tag_inj f g t : stable_tag f = Some t -> stable_tag g = Some t -> f = g.
Proof.
  assert (forall h, stable_tag h = Some t ->
    h = match t with 1 => BF16 | 3 => INT8 | 5 => FP8E4M3 | 7 => INT4 | 10 => TurboQuant 2 2
        | 11 => TurboQuant 3 3 | _ => TurboQuant 4 4 end) as Hinv.
  { intros [| | | |k v]; cbn; [by intros [= <-]..|].
    destruct k as [|[[k|k|]|[[k|k|]|[k|k|]|]|]]; try done;
      destruct v as [|[[v|v|]|[[v|v|]|[v|v|]|]|]]; try done; by intros [= <-]. }
  intros Hf Hg. by rewrite (Hinv f Hf), (Hinv g Hg).
Qed.

Local Close Scope N_scope.
(** ** Device buffers of the paged KV pool

    The per-layer buffers [TokenKVPool] allocates on the GPU
    ([crates/cuda-kernels/src/paged_kv.rs]), and the page transfer kernel
    ([crates/cuda-kernels/csrc/kvcacheio/transfer.cu]) on one layer. A buffer
    is the list of its elements: bytes of K and V data, bit patterns of the
    [f32] scales and [f16] norms. An access outside a buffer panics in
    [CudaSlice::slice]; in the kernel it is undefined, and rendered the same
    way. *)

Record KVBuffers := mkKVBuffers {
  k_data : list (list N);
  v_data : list (list N);
  k_scales : list (list N);
  v_scales : list (list N);
  k_norms : list (list N);
  v_norms : list (list N);
}.

Definition set_k_data (d : list (list N)) (b : KVBuffers) : KVBuffers :=
  mkKVBuffers d (v_data b) (k_scales b) (v_scales b) (k_norms b) (v_norms b).
Definition set_v_data (d : list (list N)) (b : KVBuffers) : KVBuffers :=
  mkKVBuffers (k_data b) d (k_scales b) (v_scales b) (k_norms b) (v_norms b).
Definition set_k_scales (d : list (list N)) (b : KVBuffers) : KVBuffers :=
  mkKVBuffers (k_data b) (v_data b) d (v_scales b) (k_norms b) (v_norms b).
Definition set_v_scales (d : list (list N)) (b : KVBuffers) : KVBuffers :=
  mkKVBuffers (k_data b) (v_data b) (k_scales b) d (k_norms b) (v_norms b).
Definition set_k_norms (d : list (list N)) (b : KVBuffers) : KVBuffers :=
  mkKVBuffers (k_data b) (v_data b) (k_scales b) (v_scales b) d (v_norms b).
Definition set_v_norms (d : list (list N)) (b : KVBuffers) : KVBuffers :=
  mkKVBuffers (k_data b) (v_data b) (k_scales b) (v_scales b) (k_norms b) d.

(** What [with_format] allocates: nothing when a layer has no bytes. *)
Definition alloc_buffers (num_layers data_bytes scale_elements : nat) (f : KVFormat) : KVBuffers :=
  let layers n := if bool_decide (0 < data_bytes) then replicate num_layers (replicate n 0%N) else [] in
  let scales := if has_scales f then layers scale_elements else [] in
  let norms := if has_norms f then layers scale_elements else [] in
  mkKVBuffers (layers data_bytes) (layers data_bytes) scales scales norms norms.

(** ** One item of a buffer *)

(** [buf.slice_mut(start..start + len)] written with [src]. *)
Definition write_slice (buf : list N) (start : nat) (src : list N) : res (list N) :=
  if bool_decide (start + length src <= length buf)
  then Done (take start buf ++ src ++ drop (start + length src) buf) else Panics.

(** [transfer_item_warp] at the offsets of two pages of [item] elements. *)
Definition transfer_item (item src dst : nat) (buf : list N) : res (list N) :=
  x ← slice buf (src * item) (src * item + item); write_slice buf (dst * item) x.

(** The kernel on one layer: every pair of pages. Its warps run in any order;
    the pool only ever transfers a single pair. *)
Definition transfer_pages (item : nat) (pairs : list (nat * nat)) (buf : list N) : res (list N) :=
  fold_res (fun buf p => transfer_item item p.1 p.2 buf) pairs buf.

Fixpoint map_res {A B} (f : A -> res B) (l : list A) : res (list B) :=
  match l with
  | [] => Done []
  | x :: l => y ← f x; ys ← map_res f l; Done (y :: ys)
  end.

Definition transfer_layer_table (item : nat) (pairs : list (nat * nat)) (layers : list (list N))
  : res (list (list N)) := map_res (transfer_pages item pairs) layers.

(** ** Pages of a buffer *)

(** Page [p] of a buffer of items. *)
Definition page_of (item p : nat) (buf : list N) : list N := take item (drop (p * item) buf).

Section pages.
Context (item : nat).
Implicit Types (p q : nat) (buf : list N).

Lemma page_end p q : p < q -> p * item + item <= q * item.
Proof. intros. replace (p * item + item) with (S p * item) by lia. apply Nat.mul_le_mono_r. lia. Qed.

Lemma write_slice_Done buf start src :
  start + length src <= length buf ->
  write_slice buf start src = Done (take start buf ++ src ++ drop (start + length src) buf).
Proof. intros. unfold write_slice. by rewrite bool_decide_eq_true_2. Qed.

Lemma length_written buf start src :
  start + length src <= length buf ->
  length (take start buf ++ src ++ drop (start + length src) buf) = length buf.
Proof. intros. rewrite !length_app, length_take, length_drop. lia. Qed.

(** A written page reads back, and every other page is untouched. *)
Lemma page_of_written buf p q src :
  length src = item -> p * item + item <= length buf ->
  page_of item q (take (p * item) buf ++ src ++ drop (p * item + length src) buf) =
  if decide (q = p) then src else page_of item q buf.
Proof.
  intros Hl Hp. unfold page_of. case_decide as Hq; [subst q|].
  - rewrite drop_app_length' by (rewrite length_take; lia). rewrite take_app_length' by done. done.
  - destruct (decide (q < p)) as [Hlt|Hge].
    + pose proof (page_end q p Hlt). rewrite drop_app_le by (rewrite length_take; lia).
      rewrite take_app_le by (rewrite length_drop, length_take; lia).
      rewrite !take_drop_commute, take_take. do 2 f_equal. lia.
    + assert (p < q) as Hlt by lia. pose proof (page_end p q Hlt).
      rewrite drop_app_ge by (rewrite length_take; lia). rewrite length_take, Nat.min_l by lia.
      rewrite drop_app_ge by lia. rewrite drop_drop. do 2 f_equal. lia.
Qed.

Lemma transfer_item_spec buf src dst :
  src * item + item <= length buf -> dst * item + item <= length buf ->
  exists buf', transfer_item item src dst buf = Done buf' /\ length buf' = length buf /\
    forall q, page_of item q buf' = if decide (q = dst) then page_of item src buf else page_of item q buf.
Proof.
  intros Hs Hd. unfold transfer_item. rewrite slice_Done by lia. cbn.
  replace (src * item + item - src * item) with item by lia. fold (page_of item src buf).
  assert (length (page_of item src buf) = item) as Hl by (unfold page_of; rewrite length_take, length_drop; lia).
  rewrite write_slice_Done by lia. eexists. split; [done|]. rewrite length_written by lia. split; [done|].
  intros q. by apply page_of_written.
Qed.
End pages.

Lemma map_res_Forall2 {A B} (f : A -> res B) (R : A -> B -> Prop) l :
  (forall x, x ∈ l -> exists y, f x = Done y /\ R x y) -> exists ys, map_res f l = Done ys /\ Forall2 R l ys.
Proof.
  induction l as [|x l IH]; intros H; cbn; [by eexists|].
  destruct (H x) as (y & -> & Hy); [set_solver|]. destruct IH as (ys & -> & Hys); [set_solver|].
  cbn. eexists. split; [done|]. by constructor.
Qed.

(** The pages of all layers, as the transfers move them together. *)
Definition layers_page (item p : nat) (layers : list (list N)) : list (list N) := page_of item p <$> layers.

(** Every layer holds [n] pages of [item] elements. *)
Definition holds_pages (item n : nat) (layers : list (list N)) : Prop :=
  Forall (fun buf => length buf = n * item) layers.

Lemma transfer_layer_table_spec item n src dst layers :
  holds_pages item n layers -> src < n -> dst < n ->
  exists layers', transfer_layer_table item [(src, dst)] layers = Done layers' /\
    holds_pages item n layers' /\ length layers' = length layers /\
    forall q, layers_page item q layers' =
      if decide (q = dst) then layers_page item src layers else layers_page item q layers.
Proof.
  intros Hh Hs Hd. unfold holds_pages in Hh. rewrite Forall_forall in Hh.
  pose proof (page_end item src n Hs). pose proof (page_end item dst n Hd).
  destruct (map_res_Forall2 (transfer_pages item [(src, dst)])
    (fun buf buf' => length buf' = length buf /\
      forall q, page_of item q buf' = if decide (q = dst) then page_of item src buf else page_of item q buf) layers)
    as (layers' & Hrun & Hall).
  { intros buf Hbuf. destruct (transfer_item_spec item buf src dst) as (buf' & Ht & ?); [rewrite Hh by done; lia..|].
    exists buf'. unfold transfer_pages. cbn. by rewrite Ht. }
  exists layers'. split; [done|]. split_and!.
  - unfold holds_pages. apply Forall_forall. intros buf' [i Hi]%list_elem_of_lookup.
    destruct (Forall2_lookup_r _ _ _ _ _ Hall Hi) as (buf & Hb & Hl & _). rewrite Hl. apply Hh.
    by apply list_elem_of_lookup_2 in Hb.
  - symmetry. by eapply Forall2_length.
  - intros q. unfold layers_page. clear Hrun Hh. induction Hall as [|buf buf' l l' [_ Hq] _ IH]; cbn; [by case_decide|].
    rewrite Hq, IH. by case_decide.
Qed.

Lemma alloc_buffers_holds num_layers n item scale_item f :
  let b := alloc_buffers num_layers (n * item) (n * scale_item) f in
  holds_pages item n (k_data b) /\ holds_pages item n (v_data b) /\
  holds_pages scale_item n (k_scales b) /\ holds_pages scale_item n (v_scales b) /\
  holds_pages scale_item n (k_norms b) /\ holds_pages scale_item n (v_norms b).
Proof.
  cbn. unfold alloc_buffers, holds_pages. cbn.
  repeat match goal with |- _ /\ _ => split end; repeat (case_match; [|constructor]);
    apply Forall_replicate, length_replicate.
Qed.
