(* ===== verification/PagedKv.v ===== *)
(** * The paged KV pool of the CUDA backend

    Models [TokenKVPool] of [crates/cuda-kernels/src/paged_kv.rs]: a stack of
    free physical pages, a page table and a length per slot, and two counters
    per page, how many slots attach it and how often the prefix cache retains
    it. A page id is the [nat] it indexes with. Calls to the driver may be
    refused; which ones is the class [Driver], over the number of calls made. *)

From S2P Require Import Prelude Lists KvFormat.

(** ** Data *)
Record PoolConfig := mkPoolConfig {
  format : KVFormat;
  num_layers : nat;
  num_kv_heads : nat;
  head_dim : nat;
  max_total_tokens : nat;
  max_total_pages : nat;
  page_size : nat;
  num_slots : nat;
  kv_dim : nat;
}.

Record TokenKVPool := mkPool {
  cfg : PoolConfig;
  buffers : KVBuffers;
  driver_calls : nat;
  free_pages : list nat;
  page_indices : list (list nat);
  seq_lens : list nat;
  slot_epochs : list N;
  page_attach_count : list N;
  page_ref_count : list N;
}.

Inductive pool_error :=
  | OutOfPages (requested available : nat)
  | SlotNotEmpty (slot : nat)
  | ExceedsPageCapacity (token_count capacity : nat)
  | PageOutOfBounds (page : nat)
  | PageNotLive (page : nat)
  | CannotGrow (slot new_len old_len : nat)
  | CowOutOfPages
  | PageCountMismatch (src dst : nat)
  | PageTableLimit (page : nat)
  | LayerTableMismatch
  | PayloadMismatch (got expected : nat)
  | BatchOutOfPages (requested available : nat)
  | DriverRefused.

Abbreviation pool_eff := (eff TokenKVPool pool_error).

Definition set_buffers (b : KVBuffers) (s : TokenKVPool) : TokenKVPool :=
  mkPool (cfg s) b (driver_calls s) (free_pages s) (page_indices s) (seq_lens s) (slot_epochs s)
    (page_attach_count s) (page_ref_count s).
Definition set_driver_calls (n : nat) (s : TokenKVPool) : TokenKVPool :=
  mkPool (cfg s) (buffers s) n (free_pages s) (page_indices s) (seq_lens s) (slot_epochs s)
    (page_attach_count s) (page_ref_count s).
Definition set_free_pages (l : list nat) (s : TokenKVPool) : TokenKVPool :=
  mkPool (cfg s) (buffers s) (driver_calls s) l (page_indices s) (seq_lens s) (slot_epochs s)
    (page_attach_count s) (page_ref_count s).
Definition set_page_indices (l : list (list nat)) (s : TokenKVPool) : TokenKVPool :=
  mkPool (cfg s) (buffers s) (driver_calls s) (free_pages s) l (seq_lens s) (slot_epochs s)
    (page_attach_count s) (page_ref_count s).
Definition set_seq_lens (l : list nat) (s : TokenKVPool) : TokenKVPool :=
  mkPool (cfg s) (buffers s) (driver_calls s) (free_pages s) (page_indices s) l (slot_epochs s)
    (page_attach_count s) (page_ref_count s).
Definition set_slot_epochs (l : list N) (s : TokenKVPool) : TokenKVPool :=
  mkPool (cfg s) (buffers s) (driver_calls s) (free_pages s) (page_indices s) (seq_lens s) l
    (page_attach_count s) (page_ref_count s).
Definition set_attach (l : list N) (s : TokenKVPool) : TokenKVPool :=
  mkPool (cfg s) (buffers s) (driver_calls s) (free_pages s) (page_indices s) (seq_lens s) (slot_epochs s)
    l (page_ref_count s).
Definition set_ref (l : list N) (s : TokenKVPool) : TokenKVPool :=
  mkPool (cfg s) (buffers s) (driver_calls s) (free_pages s) (page_indices s) (seq_lens s) (slot_epochs s)
    (page_attach_count s) l.

(** ** Construction: the host side of [with_format]. The page ids are
    [(0..max_total_pages as u32).rev()]; [allocated] is what the driver's
    allocations return. *)
Definition config_of (sh : KVShape) (num_slots : nat) (budget_bytes : N) (f : KVFormat) : PoolConfig :=
  let ps := default_page_size f in
  let tokens := N.to_nat (bd_max_total_tokens (compute_budget_breakdown sh (N.of_nat num_slots) budget_bytes f)) in
  let pages := Nat.max (div_ceil tokens ps) num_slots in
  mkPoolConfig f (N.to_nat (sh_num_layers sh)) (N.to_nat (sh_num_kv_heads sh)) (N.to_nat (sh_head_dim sh))
    (pages * ps) pages ps num_slots (N.to_nat (sh_kv_dim sh)).

Definition data_bytes_per_layer (c : PoolConfig) : nat :=
  N.to_nat (pool_bytes_per_layer (N.of_nat (kv_dim c)) (N.of_nat (max_total_tokens c)) (format c)).

Definition fresh_pool (c : PoolConfig) : TokenKVPool :=
  mkPool c (alloc_buffers (num_layers c) (data_bytes_per_layer c) (max_total_tokens c * num_kv_heads c) (format c)) 0
    (reverse (seq 0 (N.to_nat (u32_of_usize (max_total_pages c)))))
    (replicate (num_slots c) []) (replicate (num_slots c) 0) (replicate (num_slots c) 0%N)
    (replicate (max_total_pages c) 0%N) (replicate (max_total_pages c) 0%N).

Definition with_format (allocated : bool) (sh : KVShape) (num_slots : nat) (budget_bytes : N) (f : KVFormat)
  : TokenKVPool + pool_error :=
  if allocated then inl (fresh_pool (config_of sh num_slots budget_bytes f)) else inr DriverRefused.

(** ** Reading *)
Definition slot_hot_tail_len (s : TokenKVPool) (slot : nat) : res nat :=
  seq_len ← index (seq_lens s) slot; Done (seq_len mod page_size (cfg s)).

Definition slot_last_page_len (s : TokenKVPool) (slot : nat) : res nat :=
  seq_len ← index (seq_lens s) slot;
  if bool_decide (seq_len = 0) then Done 0
  else
    hot_tail_len ← slot_hot_tail_len s slot;
    Done (if bool_decide (hot_tail_len = 0) then page_size (cfg s) else hot_tail_len).

Definition slot_hot_tail_page (s : TokenKVPool) (slot : nat) : res (option nat) :=
  hot_tail_len ← slot_hot_tail_len s slot;
  if bool_decide (hot_tail_len = 0) then Done None
  else pages ← index (page_indices s) slot; Done (last pages).

Definition page_is_shared_read_only (s : TokenKVPool) (page : nat) : res bool :=
  refs ← index (page_ref_count s) page;
  if bool_decide (0 < refs)%N then Done true
  else attached ← index (page_attach_count s) page; Done (bool_decide (1 < attached)%N).

Definition slot_shared_hot_tail_page (s : TokenKVPool) (slot : nat) : res (option nat) :=
  hot ← slot_hot_tail_page s slot;
  match hot with
  | None => Done None
  | Some page => shared ← page_is_shared_read_only s page; Done (if shared : bool then Some page else None)
  end.

Definition append_cow_pages_needed (s : TokenKVPool) (slot : nat) : res nat :=
  tail ← slot_shared_hot_tail_page s slot;
  Done (match tail with Some _ => 1 | None => 0 end).

(** The room left in the last page of a sequence. *)
Definition tail_room (page_size hot_tail_len : nat) : nat :=
  if bool_decide (hot_tail_len = 0) then 0 else page_size - hot_tail_len.

Definition append_pages_needed (s : TokenKVPool) (slot count : nat) : res nat :=
  if bool_decide (count = 0) then Done 0
  else
    let page_size := Nat.max (page_size (cfg s)) 1 in
    hot_tail_len ← slot_hot_tail_len s slot;
    cow ← append_cow_pages_needed s slot;
    Done (cow + div_ceil (count - tail_room page_size hot_tail_len) page_size).

Definition seq_len (s : TokenKVPool) (slot : nat) : res nat := index (seq_lens s) slot.
Definition slot_epoch (s : TokenKVPool) (slot : nat) : res N := index (slot_epochs s) slot.
Definition slot_pages (s : TokenKVPool) (slot : nat) : res (list nat) := index (page_indices s) slot.
Definition free_page_count (s : TokenKVPool) : nat := length (free_pages s).
Definition retained_count (s : TokenKVPool) : nat :=
  length (filter (fun rc => 0 < rc)%N (page_ref_count s)).
Definition is_active (s : TokenKVPool) : bool := bool_decide (k_data (buffers s) <> []).

Definition free_count (s : TokenKVPool) : nat :=
  let partial_capacity :=
    sum_list ((fun len => tail_room (page_size (cfg s)) (len mod page_size (cfg s))) <$> seq_lens s) in
  length (free_pages s) * page_size (cfg s) + partial_capacity.

(** ** Writing *)
Definition reads {A} (f : TokenKVPool -> res A) : pool_eff A := fun s => a ← f s; Done (s, inl a).

(** [v[i] = x]. *)
Definition store_at {A} (l : list A) (i : nat) (x : A) : res (list A) :=
  if bool_decide (i < length l) then Done (<[i := x]> l) else Panics.

Definition put_attach (page : nat) (n : N) : pool_eff unit :=
  l ← reads (fun s => store_at (page_attach_count s) page n); modify (set_attach l).
Definition put_ref (page : nat) (n : N) : pool_eff unit :=
  l ← reads (fun s => store_at (page_ref_count s) page n); modify (set_ref l).
Definition put_pages (slot : nat) (pages : list nat) : pool_eff unit :=
  l ← reads (fun s => store_at (page_indices s) slot pages); modify (set_page_indices l).
Definition put_seq_len (slot len : nat) : pool_eff unit :=
  l ← reads (fun s => store_at (seq_lens s) slot len); modify (set_seq_lens l).
Definition bump_epoch (slot : nat) : pool_eff unit :=
  e ← reads (fun s => slot_epoch s slot);
  l ← reads (fun s => store_at (slot_epochs s) slot (u64_saturating_add e 1)); modify (set_slot_epochs l).

(** [free_pages.pop().expect(..)]. *)
Definition pop_free_page : pool_eff nat := fun s =>
  match vec_pop (free_pages s) with
  | Some (page, rest) => Done (set_free_pages rest s, inl page)
  | None => Panics
  end.

Definition recycle_page_if_unreferenced (page : nat) : pool_eff bool :=
  attached ← reads (fun s => index (page_attach_count s) page);
  refs ← reads (fun s => if bool_decide (attached = 0%N) then index (page_ref_count s) page else Done 1%N);
  if bool_decide (attached = 0 /\ refs = 0)%N
  then modify (fun s => set_free_pages (free_pages s ++ [page]) s);; mret true
  else mret false.

(** The loops that pop [n] pages and count the first owner of each. *)
Fixpoint pop_pages (count_page : nat -> pool_eff unit) (n : nat) : pool_eff (list nat) :=
  match n with
  | 0 => mret []
  | S n => idx ← pop_free_page; count_page idx;; rest ← pop_pages count_page n; mret (idx :: rest)
  end.

Definition alloc_tokens (slot count : nat) : pool_eff (list nat) :=
  if bool_decide (count = 0) then mret []
  else
    hot_tail_len ← reads (fun s => slot_hot_tail_len s slot);
    ps ← gets (fun s => page_size (cfg s));
    let remaining_after_fill := count - tail_room ps hot_tail_len in
    let new_page_count := div_ceil remaining_after_fill ps in
    available ← gets free_page_count;
    if bool_decide (available < new_page_count) then throw (OutOfPages new_page_count available)
    else
      new_pages ← pop_pages (fun idx => put_attach idx 1) new_page_count;
      pages ← reads (fun s => slot_pages s slot);
      put_pages slot (pages ++ new_pages);;
      len ← reads (fun s => seq_len s slot);
      put_seq_len slot (len + count);;
      mret new_pages.

Definition alloc_detached_pages (count : nat) : pool_eff (list nat) :=
  if bool_decide (count = 0) then mret []
  else
    available ← gets free_page_count;
    if bool_decide (available < count) then throw (OutOfPages count available)
    else pop_pages (fun idx => put_ref idx 1) count.

(** One page of the loop of [attach_pages]. *)
Definition attach_page (page : nat) : pool_eff unit :=
  limit ← gets (fun s => max_total_pages (cfg s));
  if bool_decide (limit <= page) then throw (PageOutOfBounds page)
  else
    attached ← reads (fun s => index (page_attach_count s) page);
    refs ← reads (fun s => if bool_decide (attached = 0%N) then index (page_ref_count s) page else Done 1%N);
    if bool_decide (attached = 0 /\ refs = 0)%N then throw (PageNotLive page)
    else put_attach page (u32_saturating_add attached 1).

Definition attach_pages (slot : nat) (pages : list nat) (token_count : nat) : pool_eff unit :=
  table ← reads (fun s => slot_pages s slot);
  len ← reads (fun s => if bool_decide (table = []) then seq_len s slot else Done 0);
  if bool_decide (table <> [] \/ len <> 0) then throw (SlotNotEmpty slot)
  else
    ps ← gets (fun s => page_size (cfg s));
    if bool_decide (length pages * ps < token_count) then throw (ExceedsPageCapacity token_count (length pages * ps))
    else
      for_each pages attach_page;;
      put_pages slot (table ++ pages);;
      put_seq_len slot token_count.

(** Drop one attachment of a page, as [free_slot] and [truncate_slot] do. *)
Definition detach_page (page : nat) : pool_eff bool :=
  attached ← reads (fun s => index (page_attach_count s) page);
  put_attach page (attached - 1);;
  recycle_page_if_unreferenced page.

Definition free_slot (slot : nat) : pool_eff unit :=
  pages ← reads (fun s => slot_pages s slot);
  put_pages slot [];;
  (if bool_decide (pages <> []) then bump_epoch slot else mret tt);;
  for_each pages (fun idx => detach_page idx;; mret tt);;
  put_seq_len slot 0.

(** The loop of [truncate_slot]: the pages that went back to the stack. *)
Fixpoint detach_collect (pages : list nat) : pool_eff (list nat) :=
  match pages with
  | [] => mret []
  | idx :: pages =>
      recycled ← detach_page idx;
      rest ← detach_collect pages;
      mret (if recycled : bool then idx :: rest else rest)
  end.

Definition truncate_slot (slot new_len : nat) : pool_eff (list nat) :=
  old_len ← reads (fun s => seq_len s slot);
  if bool_decide (old_len < new_len) then throw (CannotGrow slot new_len old_len)
  else if bool_decide (new_len = old_len) then mret []
  else
    ps ← gets (fun s => page_size (cfg s));
    let keep_pages := div_ceil new_len ps in
    pages ← reads (fun s => slot_pages s slot);
    let keep := Nat.min keep_pages (length pages) in
    put_pages slot (take keep pages);;
    let removed := drop keep pages in
    (if bool_decide (removed <> []) then bump_epoch slot else mret tt);;
    recycled ← detach_collect removed;
    put_seq_len slot new_len;;
    mret recycled.

Definition retain_page (page : nat) : pool_eff unit :=
  refs ← reads (fun s => index (page_ref_count s) page);
  put_ref page (u32_saturating_add refs 1).
Definition retain_pages (pages : list nat) : pool_eff unit := for_each pages retain_page.

Fixpoint release_pages (pages : list nat) : pool_eff (list nat) :=
  match pages with
  | [] => mret []
  | idx :: pages =>
      cur ← reads (fun s => index (page_ref_count s) idx);
      put_ref idx (cur - 1);;
      freed ← (if bool_decide (cur - 1 = 0)%N then recycle_page_if_unreferenced idx else mret false);
      rest ← release_pages pages;
      mret (if freed : bool then idx :: rest else rest)
  end.

(** ** Copy on write

    [Driver n] says whether the driver refuses its [n]-th call. *)
Class Driver := refuses : nat -> bool.

Section cow.
Context `{Driver}.

Definition driver_call : pool_eff unit :=
  n ← gets driver_calls;
  modify (set_driver_calls (S n));;
  if refuses n then throw DriverRefused else mret tt.

(** [transfer_layer_table_pair] from a pair of tables to itself, for [item]
    elements of [elem_bytes] bytes per page: four tables are uploaded, then
    the kernel runs. *)
Definition transfer_layer_table_pair (item elem_bytes : nat) (pairs : list (nat * nat))
  (get_k get_v : KVBuffers -> list (list N)) (set_k set_v : list (list N) -> KVBuffers -> KVBuffers) : pool_eff unit :=
  if bool_decide (length pairs = 0 \/ item * elem_bytes = 0) then mret tt
  else
    n ← gets (fun s => num_layers (cfg s));
    k ← gets (fun s => get_k (buffers s));
    v ← gets (fun s => get_v (buffers s));
    if bool_decide (length k <> n) then throw LayerTableMismatch
    else if bool_decide (length v <> n) then throw LayerTableMismatch
    else
      driver_call;; driver_call;; driver_call;; driver_call;; driver_call;;
      k' ← of_res (transfer_layer_table item pairs k);
      v' ← of_res (transfer_layer_table item pairs v);
      modify (fun s => set_buffers (set_v v' (set_k k' (buffers s))) s).

Definition check_transfer_page (page : nat) : pool_eff unit :=
  limit ← gets (fun s => max_total_pages (cfg s));
  if bool_decide (limit <= page) then throw (PageOutOfBounds page)
  else if bool_decide (2147483647 < N.of_nat page)%N then throw (PageTableLimit page) else mret tt.

Definition page_data_elements (c : PoolConfig) : nat :=
  page_size c * kv_dim c * N.to_nat (bytes_per_element (format c)).
Definition page_scale_elements (c : PoolConfig) : nat := page_size c * num_kv_heads c.

Definition copy_pages_device_to_device (src_pages dst_pages : list nat) : pool_eff unit :=
  if bool_decide (length src_pages <> length dst_pages)
  then throw (PageCountMismatch (length src_pages) (length dst_pages))
  else if bool_decide (src_pages = []) then mret tt
  else
    for_each (src_pages ++ dst_pages) check_transfer_page;;
    driver_call;; driver_call;;
    c ← gets cfg;
    let pairs := zip src_pages dst_pages in
    transfer_layer_table_pair (page_data_elements c) 1 pairs k_data v_data set_k_data set_v_data;;
    (if has_scales (format c)
     then transfer_layer_table_pair (page_scale_elements c) 4 pairs k_scales v_scales set_k_scales set_v_scales
     else mret tt);;
    (if has_norms (format c)
     then transfer_layer_table_pair (page_scale_elements c) 2 pairs k_norms v_norms set_k_norms set_v_norms
     else mret tt).

Definition copy_page_device_to_device (src_page dst_page : nat) : pool_eff unit :=
  copy_pages_device_to_device [src_page] [dst_page].

(** [page_indices[slot].last_mut()] set to [new_page], returning the old one. *)
Definition swap_last_page (slot new_page : nat) : pool_eff nat :=
  pages ← reads (fun s => slot_pages s slot);
  old ← reads (fun _ => expect (last pages));
  put_pages slot (<[length pages - 1 := new_page]> pages);;
  mret old.

Definition detach_shared_hot_tail_page_for_append (slot shared_tail_page : nat) : pool_eff unit :=
  free ← gets free_pages;
  if bool_decide (free = []) then throw CowOutOfPages
  else
    new_page ← pop_free_page;
    put_attach new_page 1;;
    copy_page_device_to_device shared_tail_page new_page;;
    old_tail_page ← swap_last_page slot new_page;
    attached ← reads (fun s => index (page_attach_count s) old_tail_page);
    put_attach old_tail_page (if bool_decide (attached = 0) then u32_max else attached - 1)%N;;
    recycle_page_if_unreferenced old_tail_page;;
    mret tt.

Definition cow_tail_page_for_append (slot : nat) : pool_eff bool :=
  shared ← reads (fun s => slot_shared_hot_tail_page s slot);
  match shared with
  | None => mret false
  | Some page => detach_shared_hot_tail_page_for_append slot page;; mret true
  end.

(** [try_alloc_pool_tokens_once] of the scheduler: the append protocol. *)
Definition append_tokens (slot count : nat) : pool_eff (list nat) :=
  (if bool_decide (0 < count) then cow_tail_page_for_append slot else mret false);;
  alloc_tokens slot count.
End cow.
