(* ===== verification/PagedKvInv.v ===== *)
(** * The page accounts of the KV pool

    Every page is free, or attached by the page table of a slot, or retained
    from outside, or was lost by an error path ([leaked]). The counters count
    exactly these, the free stack holds exactly the rest. *)

From S2P Require Import Prelude Lists KvFormat PagedKv.

(** ** Counter vectors *)
Definition counts (n : nat) (l : list nat) : list N := (fun p => N.of_nat (occurrences p l)) <$> seq 0 n.

Section counts.
Context (n : nat).
Implicit Types (l : list nat) (p : nat).

Lemma length_counts l : length (counts n l) = n.
Proof. unfold counts. by rewrite length_fmap, length_seq. Qed.

Lemma counts_lookup l p : p < n -> counts n l !! p = Some (N.of_nat (occurrences p l)).
Proof.
  intros. unfold counts. rewrite list_lookup_fmap, lookup_seq_lt by lia. done.
Qed.

#[export] Instance counts_perm : Proper ((≡ₚ) ==> (=)) (counts n).
Proof. intros l1 l2 Hl. unfold counts. apply list_fmap_ext. intros i p _. by rewrite Hl. Qed.

Lemma counts_insert l l' p :
  p < n -> (forall q, q <> p -> occurrences q l' = occurrences q l) ->
  counts n l' = <[p := N.of_nat (occurrences p l')]> (counts n l).
Proof.
  intros Hp Hq. apply list_eq. intros q. destruct (decide (q < n)) as [Hlt|Hge].
  - rewrite counts_lookup by done. destruct (decide (q = p)) as [->|Hne].
    + by rewrite list_lookup_insert_eq by (rewrite length_counts; done).
    + rewrite list_lookup_insert_ne by done. rewrite counts_lookup by done. by rewrite Hq.
  - rewrite !lookup_ge_None_2; rewrite ?length_insert, ?length_counts; [done|lia|lia].
Qed.

Lemma counts_cons l p :
  p < n -> counts n (p :: l) = <[p := N.of_nat (occurrences p l + 1)]> (counts n l).
Proof.
  intros Hp. rewrite (counts_insert l (p :: l) p) by (done || (intros q Hq; rewrite occurrences_cons; by rewrite decide_False)).
  rewrite occurrences_cons, decide_True by done. do 2 f_equal. lia.
Qed.

Lemma counts_uncons l p :
  p < n -> counts n l = <[p := N.of_nat (occurrences p l)]> (counts n (p :: l)).
Proof.
  intros Hp. apply counts_insert; [done|]. intros q Hq. rewrite occurrences_cons. by rewrite decide_False.
Qed.
End counts.

Lemma counts_nil n : counts n [] = replicate n 0%N.
Proof.
  apply list_eq. intros p. destruct (decide (p < n)).
  - rewrite counts_lookup, lookup_replicate_2 by done. done.
  - rewrite !lookup_ge_None_2; rewrite ?length_counts, ?length_replicate; [done|lia|lia].
Qed.

(** ** The accounts *)
Record accounts (attached retained : list nat) (s : TokenKVPool) : Prop := mkAccounts {
  acc_attach : page_attach_count s = counts (max_total_pages (cfg s)) attached;
  acc_ref : page_ref_count s = counts (max_total_pages (cfg s)) retained;
  acc_attach_bound : forall p, p ∈ attached -> p < max_total_pages (cfg s);
  acc_ref_bound : forall p, p ∈ retained -> p < max_total_pages (cfg s);
  acc_free_nodup : NoDup (free_pages s);
  acc_free : forall p, p ∈ free_pages s <-> p < max_total_pages (cfg s) /\ p ∉ attached /\ p ∉ retained;
}.

Lemma accounts_perm A A' R R' s : A ≡ₚ A' -> R ≡ₚ R' -> accounts A R s -> accounts A' R' s.
Proof.
  intros HA HR [? ? ? ? ? Hf]. constructor; try done.
  - by rewrite <-HA.
  - by rewrite <-HR.
  - intros p. rewrite <-HA. auto.
  - intros p. rewrite <-HR. auto.
  - intros p. by rewrite Hf, HA, HR.
Qed.

#[export] Instance accounts_proper : Proper ((≡ₚ) ==> (≡ₚ) ==> (=) ==> iff) accounts.
Proof.
  intros A A' HA R R' HR s s' <-. split; apply accounts_perm; by try symmetry.
Qed.

(** What an operation on the counters leaves alone. *)
Record same_slots (s s' : TokenKVPool) : Prop := mkSameSlots {
  ss_cfg : cfg s' = cfg s;
  ss_buffers : buffers s' = buffers s;
  ss_calls : driver_calls s' = driver_calls s;
  ss_pages : page_indices s' = page_indices s;
  ss_lens : seq_lens s' = seq_lens s;
  ss_epochs : slot_epochs s' = slot_epochs s;
}.

#[export] Instance same_slots_preorder : PreOrder same_slots.
Proof.
  split; [by intros s|]. intros s1 s2 s3 [] []. split; congruence.
Qed.

(** ** Primitive writes *)
Lemma run_reads {A B} (f : TokenKVPool -> res A) (k : A -> pool_eff B) s a :
  f s = Done a -> (reads f ≫= k) s = k a s.
Proof. intros Hf. unfold reads, mbind, eff_bind. rewrite Hf. done. Qed.

Lemma reads_ok {A} (f : TokenKVPool -> res A) s a : f s = Done a -> reads f s = Done (s, inl a).
Proof. intros Hf. unfold reads. by rewrite Hf. Qed.

Lemma store_at_Done {A} (l : list A) i x : i < length l -> store_at l i x = Done (<[i := x]> l).
Proof. intros. unfold store_at. by rewrite bool_decide_eq_true_2. Qed.

Lemma put_attach_ok p n s : p < length (page_attach_count s) ->
  put_attach p n s = Done (set_attach (<[p := n]> (page_attach_count s)) s, inl tt).
Proof. intros. unfold put_attach. erewrite run_reads by by apply store_at_Done. done. Qed.

Lemma put_ref_ok p n s : p < length (page_ref_count s) ->
  put_ref p n s = Done (set_ref (<[p := n]> (page_ref_count s)) s, inl tt).
Proof. intros. unfold put_ref. erewrite run_reads by by apply store_at_Done. done. Qed.

Lemma put_pages_ok slot pages s : slot < length (page_indices s) ->
  put_pages slot pages s = Done (set_page_indices (<[slot := pages]> (page_indices s)) s, inl tt).
Proof. intros. unfold put_pages. erewrite run_reads by by apply store_at_Done. done. Qed.

Lemma put_seq_len_ok slot len s : slot < length (seq_lens s) ->
  put_seq_len slot len s = Done (set_seq_lens (<[slot := len]> (seq_lens s)) s, inl tt).
Proof. intros. unfold put_seq_len. erewrite run_reads by by apply store_at_Done. done. Qed.

Lemma bump_epoch_ok slot s : slot < length (slot_epochs s) ->
  exists l, bump_epoch slot s = Done (set_slot_epochs l s, inl tt) /\ length l = length (slot_epochs s).
Proof.
  intros Hl. destruct (lookup_lt_is_Some_2 (slot_epochs s) slot Hl) as [e He].
  exists (<[slot := u64_saturating_add e 1]> (slot_epochs s)). split; [|apply length_insert].
  unfold bump_epoch. rewrite (run_reads _ _ _ e) by by apply index_Some.
  erewrite run_reads by by apply store_at_Done. done.
Qed.

Section accounts_lemmas.
Context (s : TokenKVPool) (A R : list nat).
Hypothesis Hacc : accounts A R s.
Implicit Types (p : nat).

Lemma attach_count p : p < max_total_pages (cfg s) -> page_attach_count s !! p = Some (N.of_nat (occurrences p A)).
Proof using Hacc. intros. rewrite (acc_attach _ _ _ Hacc). by apply counts_lookup. Qed.

Lemma ref_count p : p < max_total_pages (cfg s) -> page_ref_count s !! p = Some (N.of_nat (occurrences p R)).
Proof using Hacc. intros. rewrite (acc_ref _ _ _ Hacc). by apply counts_lookup. Qed.

Lemma attach_length : length (page_attach_count s) = max_total_pages (cfg s).
Proof using Hacc. by rewrite (acc_attach _ _ _ Hacc), length_counts. Qed.

Lemma ref_length : length (page_ref_count s) = max_total_pages (cfg s).
Proof using Hacc. by rewrite (acc_ref _ _ _ Hacc), length_counts. Qed.

(** Popping a page and giving it its first owner. *)
Lemma pop_free_page_ok : free_pages s <> [] ->
  exists p rest, free_pages s = rest ++ [p] /\ pop_free_page s = Done (set_free_pages rest s, inl p) /\
    p < max_total_pages (cfg s) /\ p ∉ A /\ p ∉ R /\ p ∉ rest.
Proof using Hacc.
  intros Hne. unfold pop_free_page. destruct (vec_pop (free_pages s)) as [[p rest]|] eqn:E.
  2: { by apply vec_pop_None in E. }
  apply vec_pop_Some in E. exists p, rest. split; [done|]. split; [done|].
  assert (p ∈ free_pages s) as Hp by (rewrite E; set_solver).
  apply (acc_free _ _ _ Hacc) in Hp as (? & ? & ?). split_and!; [done..|].
  pose proof (acc_free_nodup _ _ _ Hacc) as Hnd. rewrite E in Hnd. apply NoDup_app in Hnd as (_ & Hd & _).
  intros Hin. apply (Hd p Hin). set_solver.
Qed.

Lemma popped_attached p rest :
  free_pages s = rest ++ [p] -> p < max_total_pages (cfg s) -> p ∉ A -> p ∉ R -> p ∉ rest ->
  accounts (p :: A) R (set_attach (<[p := 1%N]> (page_attach_count s)) (set_free_pages rest s)).
Proof using Hacc.
  intros Hf Hp HA HR Hrest. destruct Hacc as [Ha Hr HbA HbR Hnd Hfree]. rewrite Hf in Hnd, Hfree.
  constructor; cbn; try done.
  - rewrite counts_cons, Ha, occurrences_notin by done. done.
  - intros q [->|?]%elem_of_cons; auto.
  - by apply NoDup_app in Hnd as (? & _ & _).
  - intros q. rewrite not_elem_of_cons. specialize (Hfree q). rewrite elem_of_app, list_elem_of_singleton in Hfree.
    destruct (decide (q = p)) as [->|]; [|tauto]. split; [done|]. by intros (_ & [? _] & _).
Qed.

Lemma popped_retained p rest :
  free_pages s = rest ++ [p] -> p < max_total_pages (cfg s) -> p ∉ A -> p ∉ R -> p ∉ rest ->
  accounts A (p :: R) (set_ref (<[p := 1%N]> (page_ref_count s)) (set_free_pages rest s)).
Proof using Hacc.
  intros Hf Hp HA HR Hrest. destruct Hacc as [Ha Hr HbA HbR Hnd Hfree]. rewrite Hf in Hnd, Hfree.
  constructor; cbn; try done.
  - rewrite counts_cons, Hr, occurrences_notin by done. done.
  - intros q [->|?]%elem_of_cons; auto.
  - by apply NoDup_app in Hnd as (? & _ & _).
  - intros q. rewrite not_elem_of_cons. specialize (Hfree q). rewrite elem_of_app, list_elem_of_singleton in Hfree.
    destruct (decide (q = p)) as [->|]; [|tauto]. split; [done|]. by intros (_ & _ & ? & _).
Qed.
End accounts_lemmas.

(** ** Recycling

    After a counter of [p] went down, [p] is the only page that may be
    unowned and not on the stack. *)
Record accounts_but (p : nat) (A R : list nat) (s : TokenKVPool) : Prop := mkAccountsBut {
  but_attach : page_attach_count s = counts (max_total_pages (cfg s)) A;
  but_ref : page_ref_count s = counts (max_total_pages (cfg s)) R;
  but_attach_bound : forall q, q ∈ A -> q < max_total_pages (cfg s);
  but_ref_bound : forall q, q ∈ R -> q < max_total_pages (cfg s);
  but_page : p < max_total_pages (cfg s);
  but_nodup : NoDup (free_pages s);
  but_notin : p ∉ free_pages s;
  but_free : forall q, q <> p -> q ∈ free_pages s <-> q < max_total_pages (cfg s) /\ q ∉ A /\ q ∉ R;
}.

Lemma recycle_spec p A R s :
  accounts_but p A R s ->
  let b := bool_decide (p ∉ A /\ p ∉ R) in
  recycle_page_if_unreferenced p s = Done (set_free_pages (free_pages s ++ if b then [p] else []) s, inl b) /\
  accounts A R (set_free_pages (free_pages s ++ if b then [p] else []) s).
Proof.
  intros [Ha Hr HbA HbR Hp Hnd Hni Hfree]. cbn. split.
  - unfold recycle_page_if_unreferenced.
    rewrite (run_reads _ _ _ (N.of_nat (occurrences p A))) by (apply index_Some; by rewrite Ha, counts_lookup).
    case_bool_decide as HA0.
    + rewrite (run_reads _ _ _ (N.of_nat (occurrences p R))) by (apply index_Some; by rewrite Hr, counts_lookup).
      assert (p ∉ A) by (apply occurrences_zero; lia).
      destruct (decide (p ∈ R)) as [HR|HR].
      * pose proof (occurrences_in p R HR). rewrite !bool_decide_eq_false_2; [|tauto|lia].
        rewrite app_nil_r. by destruct s.
      * rewrite (occurrences_notin p R) by done. rewrite !bool_decide_eq_true_2 by (done || lia). done.
    + rewrite (run_reads _ _ _ 1%N) by done.
      assert (p ∈ A) by (apply dec_stable; intros ?%occurrences_notin; lia).
      rewrite !bool_decide_eq_false_2 by tauto. rewrite app_nil_r. by destruct s.
  - constructor; cbn; try done.
    + case_bool_decide; [|by rewrite app_nil_r]. apply NoDup_app. split; [done|]. split; [set_solver|apply NoDup_singleton].
    + intros q. destruct (decide (q = p)) as [->|Hq].
      * case_bool_decide; [set_solver|]. rewrite app_nil_r. tauto.
      * rewrite <-Hfree by done. case_bool_decide; set_solver.
Qed.

(** Dropping one attachment of an attached page. *)
Lemma detach_page_spec p A R s :
  accounts (p :: A) R s ->
  exists s', detach_page p s = Done (s', inl (bool_decide (p ∉ A /\ p ∉ R))) /\ accounts A R s' /\ same_slots s s' /\
    free_pages s' = free_pages s ++ (if bool_decide (p ∉ A /\ p ∉ R) then [p] else []) /\
    page_ref_count s' = page_ref_count s.
Proof.
  intros Hacc. pose proof Hacc as [Ha Hr HbA HbR Hnd Hfree].
  assert (p < max_total_pages (cfg s)) as Hp by (apply HbA; set_solver).
  set (s1 := set_attach (<[p := N.of_nat (occurrences p A)]> (page_attach_count s)) s).
  assert (accounts_but p A R s1) as Hbut.
  { constructor; cbn; try done.
    - rewrite (counts_uncons _ A p) by done. by rewrite Ha.
    - intros q ?. apply HbA. set_solver.
    - rewrite Hfree. set_solver.
    - intros q Hq. rewrite Hfree. set_solver. }
  destruct (recycle_spec p A R s1 Hbut) as [Hrun Hacc'].
  eexists. split; [|split; [exact Hacc'|]; split; [by constructor|done]].
  unfold detach_page. rewrite (run_reads _ _ _ (N.of_nat (occurrences p (p :: A)))) by (apply index_Some; by eapply attach_count).
  rewrite occurrences_cons, decide_True by done.
  replace (N.of_nat (1 + occurrences p A) - 1)%N with (N.of_nat (occurrences p A)) by lia.
  rewrite (run_bind_ok _ _ s s1 tt) by (apply put_attach_ok; by rewrite (attach_length _ _ _ Hacc)). exact Hrun.
Qed.

(** ** Operations of the KV pool on its accounts

    The loops over pages, then each public operation on a well-formed pool. *)

(** ** Page loops *)
Lemma pop_pages_gen (mark : nat -> pool_eff unit) (acc : list nat -> TokenKVPool -> Prop) n s l :
  (forall l s, acc l s -> free_pages s <> [] -> exists p rest s',
     free_pages s = rest ++ [p] /\ pop_free_page s = Done (set_free_pages rest s, inl p) /\
     mark p (set_free_pages rest s) = Done (s', inl tt) /\ acc (p :: l) s' /\ same_slots s s' /\ free_pages s' = rest) ->
  acc l s -> n <= length (free_pages s) ->
  exists s' new, pop_pages mark n s = Done (s', inl new) /\ length new = n /\ acc (reverse new ++ l) s' /\
    same_slots s s' /\ free_pages s = free_pages s' ++ reverse new.
Proof.
  intros Hstep. revert s l. induction n as [|n IH]; intros s l Hacc Hn; cbn.
  { exists s, []. cbn. split_and!; [done..|by rewrite app_nil_r]. }
  destruct (Hstep l s Hacc) as (p & rest & s1 & Hf & Hpop & Hmark & Hacc1 & Hs1 & Hf1).
  { intros E. rewrite E in Hn. cbn in Hn. lia. }
  rewrite Hf, length_app in Hn. cbn in Hn.
  destruct (IH s1 (p :: l) Hacc1) as (s2 & new & Hrun & Hlen & Hacc2 & Hs2 & Hf2); [rewrite Hf1; lia|].
  exists s2, (p :: new). run Hpop. run Hmark. run Hrun. rewrite reverse_cons. split_and!.
  - done.
  - cbn. lia.
  - by rewrite <-app_assoc.
  - by etrans.
  - by rewrite app_assoc, <-Hf2, Hf1.
Qed.

Lemma pop_attached n A R s :
  accounts A R s -> n <= length (free_pages s) ->
  exists s' new, pop_pages (fun idx => put_attach idx 1) n s = Done (s', inl new) /\ length new = n /\
    accounts (new ++ A) R s' /\ same_slots s s' /\ free_pages s = free_pages s' ++ reverse new.
Proof.
  intros Hacc Hn.
  destruct (pop_pages_gen (fun idx => put_attach idx 1) (fun l => accounts (l ++ A) R) n s []) as (s' & new & Hrun & ? & Hacc' & ? & ?).
  - intros l s0 Hacc0 Hne. destruct (pop_free_page_ok s0 _ _ Hacc0 Hne) as (p & rest & Hf & Hpop & Hp & HA & HR & Hr).
    exists p, rest, (set_attach (<[p := 1%N]> (page_attach_count s0)) (set_free_pages rest s0)).
    split_and!; [done|done| |by apply (popped_attached s0)|by constructor|done].
    refine (put_attach_ok p 1 (set_free_pages rest s0) _). cbn. by rewrite (attach_length _ _ _ Hacc0).
  - done.
  - done.
  - exists s', new. split_and!; try done. rewrite app_nil_r in Hacc'. by rewrite <-(reverse_Permutation new).
Qed.

Lemma pop_retained n A R s :
  accounts A R s -> n <= length (free_pages s) ->
  exists s' new, pop_pages (fun idx => put_ref idx 1) n s = Done (s', inl new) /\ length new = n /\
    accounts A (new ++ R) s' /\ same_slots s s' /\ free_pages s = free_pages s' ++ reverse new.
Proof.
  intros Hacc Hn.
  destruct (pop_pages_gen (fun idx => put_ref idx 1) (fun l => accounts A (l ++ R)) n s []) as (s' & new & Hrun & ? & Hacc' & ? & ?).
  - intros l s0 Hacc0 Hne. destruct (pop_free_page_ok s0 _ _ Hacc0 Hne) as (p & rest & Hf & Hpop & Hp & HA & HR & Hr).
    exists p, rest, (set_ref (<[p := 1%N]> (page_ref_count s0)) (set_free_pages rest s0)).
    split_and!; [done|done| |by apply (popped_retained s0)|by constructor|done].
    refine (put_ref_ok p 1 (set_free_pages rest s0) _). cbn. by rewrite (ref_length _ _ _ Hacc0).
  - done.
  - done.
  - exists s', new. split_and!; try done. rewrite app_nil_r in Hacc'. by rewrite <-(reverse_Permutation new).
Qed.

(** Detaching a list of pages: those that lose their last owner go back to the
    stack, in order. *)
Lemma detach_collect_spec pages A R s :
  accounts (pages ++ A) R s ->
  exists s' freed, detach_collect pages s = Done (s', inl freed) /\ accounts A R s' /\ same_slots s s' /\
    free_pages s' = free_pages s ++ freed /\ page_ref_count s' = page_ref_count s.
Proof.
  revert s. induction pages as [|p pages IH]; intros s Hacc; cbn.
  { exists s, []. by rewrite app_nil_r. }
  destruct (detach_page_spec p (pages ++ A) R s Hacc) as (s1 & Hrun & Hacc1 & Hs1 & Hf1 & Hr1).
  destruct (IH s1 Hacc1) as (s2 & freed & Hrun2 & Hacc2 & Hs2 & Hf2 & Hr2).
  run Hrun. run Hrun2. do 2 eexists. split; [done|]. split_and!; [done|by etrans| |congruence].
  rewrite Hf2, Hf1, <-app_assoc. f_equal. by case_bool_decide.
Qed.

Lemma detach_all_collect pages s s' freed :
  detach_collect pages s = Done (s', inl freed) ->
  for_each pages (fun idx => detach_page idx;; mret tt) s = Done (s', inl tt).
Proof.
  revert s freed. induction pages as [|p pages IH]; intros s freed; cbn; [by intros [= <-]|].
  intros [(s1 & b & Hp & Hrest)|(e & _ & ?)]%run_bind_inv; [|done].
  apply run_bind_inv in Hrest as [(s2 & l & Hl & [= -> _])|(e & _ & ?)]; [|done].
  rewrite (run_bind_ok _ _ s s1 tt) by by run Hp. eauto.
Qed.

(** Retaining and releasing. *)
Lemma retain_pages_spec pages A R s :
  accounts A R s -> (forall p, p ∈ pages -> p ∈ A \/ p ∈ R) ->
  (forall p, p ∈ pages -> N.of_nat (length pages + occurrences p R) <= u32_max)%N ->
  exists s', retain_pages pages s = Done (s', inl tt) /\ accounts A (pages ++ R) s' /\ same_slots s s' /\
    free_pages s' = free_pages s /\ page_attach_count s' = page_attach_count s.
Proof.
  revert R s. induction pages as [|p pages IH]; intros R s Hacc Hlive Hmax; [by exists s|].
  pose proof (Hmax p ltac:(left)) as Hmaxp. cbn [length] in Hmaxp. pose proof Hacc as [Ha Hr HbA HbR Hnd Hfree].
  assert (p < max_total_pages (cfg s)) as Hp by (destruct (Hlive p); [set_solver|auto|auto]).
  set (s1 := set_ref (<[p := N.of_nat (occurrences p R + 1)]> (page_ref_count s)) s).
  assert (retain_page p s = Done (s1, inl tt)) as Hrun1.
  { unfold retain_page. rewrite (run_reads _ _ _ (N.of_nat (occurrences p R))) by (apply index_Some; by eapply ref_count).
    replace (u32_saturating_add (N.of_nat (occurrences p R)) 1) with (N.of_nat (occurrences p R + 1))
      by (unfold u32_saturating_add; lia).
    apply put_ref_ok. by rewrite (ref_length _ _ _ Hacc). }
  assert (accounts A (p :: R) s1) as Hacc1.
  { constructor; cbn; try done.
    - rewrite counts_cons by done. by rewrite Hr.
    - intros q [->|?]%elem_of_cons; auto.
    - intros q. rewrite Hfree. destruct (decide (q = p)) as [->|]; [|set_solver].
      split; [|set_solver]. intros (_ & ? & ?). destruct (Hlive p); set_solver. }
  destruct (IH (p :: R) s1 Hacc1) as (s2 & Hrun2 & Hacc2 & Hs2 & Hf2 & Ha2).
  { intros q Hq. destruct (Hlive q); [set_solver|by left|right; set_solver]. }
  { intros q Hq. pose proof (Hmax q ltac:(by right)) as Hmaxq. cbn [length] in Hmaxq.
    rewrite occurrences_cons. case_decide; lia. }
  exists s2. unfold retain_pages in *. cbn. run Hrun1. split; [done|]. split_and!.
  - by rewrite Permutation_middle.
  - etrans; [|done]. by constructor.
  - by rewrite Hf2.
  - by rewrite Ha2.
Qed.

Lemma release_pages_spec pages A R s :
  accounts A (pages ++ R) s ->
  exists s' freed, release_pages pages s = Done (s', inl freed) /\ accounts A R s' /\ same_slots s s' /\
    free_pages s' = free_pages s ++ freed /\ page_attach_count s' = page_attach_count s.
Proof.
  revert s. induction pages as [|p pages IH]; intros s Hacc; cbn.
  { exists s, []. by rewrite app_nil_r. }
  pose proof Hacc as [Ha Hr HbA HbR Hnd Hfree]. cbn in *.
  assert (p < max_total_pages (cfg s)) as Hp by (apply HbR; set_solver).
  set (Q := pages ++ R) in *.
  set (s1 := set_ref (<[p := N.of_nat (occurrences p Q)]> (page_ref_count s)) s).
  assert (accounts_but p A Q s1) as Hbut.
  { constructor; cbn; try done.
    - rewrite (counts_uncons _ Q p) by done. by rewrite Hr.
    - intros q ?. apply HbR. set_solver.
    - rewrite Hfree. set_solver.
    - intros q Hq. rewrite Hfree. set_solver. }
  destruct (recycle_spec p A Q s1 Hbut) as [Hrec Hacc1].
  set (b := bool_decide (p ∉ A /\ p ∉ Q)) in *.
  set (s2 := set_free_pages (free_pages s1 ++ if b then [p] else []) s1) in *.
  destruct (IH s2 Hacc1) as (s3 & freed & Hrun3 & Hacc3 & Hs3 & Hf3 & Ha3).
  rewrite (run_reads _ _ _ (N.of_nat (occurrences p (p :: Q)))) by (apply index_Some; by eapply ref_count).
  rewrite occurrences_cons, decide_True by done.
  replace (N.of_nat (1 + occurrences p Q) - 1)%N with (N.of_nat (occurrences p Q)) by lia.
  rewrite (run_bind_ok _ _ s s1 tt) by (apply put_ref_ok; by rewrite (ref_length _ _ _ Hacc)).
  assert ((if bool_decide (N.of_nat (occurrences p Q) = 0%N) then recycle_page_if_unreferenced p else mret false) s1 =
    Done (s2, inl b)) as Hrec'.
  { case_bool_decide as H0; [done|]. assert (p ∈ Q) by (apply dec_stable; intros ?%occurrences_notin; lia).
    subst s2 b. rewrite bool_decide_eq_false_2 by tauto. rewrite app_nil_r. cbn. done. }
  run Hrec'. run Hrun3. do 2 eexists. split; [done|]. split_and!; [done| | |].
  - etrans; [|done]. by constructor.
  - rewrite Hf3. subst s2. cbn. rewrite <-app_assoc. by destruct b.
  - by rewrite Ha3.
Qed.

(** Attaching pages stops at the first page that is out of range or not live,
    and keeps the attachments made before it. *)
Definition attachable (A R : list nat) (s : TokenKVPool) (p : nat) : Prop :=
  p < max_total_pages (cfg s) /\ (p ∈ A \/ p ∈ R).

#[export] Instance attachable_dec A R s p : Decision (attachable A R s p).
Proof. unfold attachable. apply _. Defined.

Lemma attach_page_spec p A R s :
  accounts A R s -> (N.of_nat (occurrences p A) < u32_max)%N ->
  if decide (attachable A R s p)
  then exists s', attach_page p s = Done (s', inl tt) /\ accounts (p :: A) R s' /\ same_slots s s' /\ free_pages s' = free_pages s
  else exists e, attach_page p s = Done (s, inr e) /\ (e = PageOutOfBounds p \/ e = PageNotLive p).
Proof.
  intros Hacc Hmax. pose proof Hacc as [Ha Hr HbA HbR Hnd Hfree].
  unfold attach_page. rewrite run_gets. case_bool_decide as Hp.
  { case_decide as Hl; [destruct Hl; lia|]. eexists. split; [done|by left]. }
  assert (p < max_total_pages (cfg s)) as Hp' by lia.
  rewrite (run_reads _ _ _ (N.of_nat (occurrences p A))) by (apply index_Some; by eapply attach_count).
  rewrite (run_reads _ _ _ (if bool_decide (N.of_nat (occurrences p A) = 0%N) then N.of_nat (occurrences p R) else 1%N)).
  2: { case_bool_decide; [|done]. apply index_Some. by eapply ref_count. }
  case_decide as Hl.
  - rewrite bool_decide_eq_false_2.
    2: { intros [H0 H1]. rewrite bool_decide_eq_true_2 in H1 by done. destruct Hl as [_ [?%occurrences_in|?%occurrences_in]]; lia. }
    eexists. split; [apply put_attach_ok; by rewrite (attach_length _ _ _ Hacc)|].
    split; [|split; [by constructor|done]].
    constructor; cbn; try done.
    + rewrite counts_cons by done. rewrite Ha. do 2 f_equal. unfold u32_saturating_add. lia.
    + intros q [->|?]%elem_of_cons; auto.
    + intros q. rewrite Hfree. destruct (decide (q = p)) as [->|]; [|set_solver]. split; [|set_solver].
      intros (_ & ? & ?). destruct Hl as [_ []]; done.
  - rewrite bool_decide_eq_true_2; [eexists; split; [done|by right]|].
    assert (p ∉ A /\ p ∉ R) as [HA HR] by (unfold attachable in Hl; tauto).
    rewrite (occurrences_notin p A) by done. cbn. by rewrite (occurrences_notin p R).
Qed.

Lemma attach_loop_spec pages A R s :
  accounts A R s -> (forall p, p ∈ pages -> N.of_nat (length pages + occurrences p A) <= u32_max)%N ->
  (exists s', for_each pages attach_page s = Done (s', inl tt) /\ (forall p, p ∈ pages -> attachable A R s p) /\
     accounts (pages ++ A) R s' /\ same_slots s s' /\ free_pages s' = free_pages s) \/
  (exists k p s' e, for_each pages attach_page s = Done (s', inr e) /\ pages !! k = Some p /\ ~ attachable A R s p /\
     (e = PageOutOfBounds p \/ e = PageNotLive p) /\
     accounts (take k pages ++ A) R s' /\ same_slots s s' /\ free_pages s' = free_pages s).
Proof.
  revert A s. induction pages as [|p pages IH]; intros A s Hacc Hmax.
  { left. exists s. cbn. split_and!; [done|set_solver|done..]. }
  cbn [length] in Hmax. pose proof (Hmax p ltac:(set_solver)) as Hp. pose proof (attach_page_spec p A R s Hacc ltac:(lia)) as Hstep. cbn [for_each].
  case_decide as Hl.
  - destruct Hstep as (s1 & Hrun & Hacc1 & Hs1 & Hf1). run Hrun.
    assert (forall q, attachable (p :: A) R s1 q <-> attachable A R s q) as Heq.
    { intros q. unfold attachable in *. rewrite (ss_cfg _ _ Hs1). destruct (decide (q = p)) as [->|]; [set_solver|].
      rewrite elem_of_cons. tauto. }
    destruct (IH (p :: A) s1 Hacc1) as [(s2 & Hrun2 & Hall & Hacc2 & Hs2 & Hf2)|(k & q & s2 & e & Hrun2 & Hk & Hq & He & Hacc2 & Hs2 & Hf2)].
    { intros q Hq. specialize (Hmax q ltac:(set_solver)). rewrite occurrences_cons. case_decide; lia. }
    + left. exists s2. split_and!; [done| |cbn; by rewrite Permutation_middle|by etrans|congruence].
      intros q [->|Hq]%elem_of_cons; [done|]. by apply Heq, Hall.
    + right. exists (S k), q, s2, e. split_and!; [done|done| |done| |by etrans|congruence].
      * by rewrite <-Heq.
      * cbn. by rewrite Permutation_middle.
  - destruct Hstep as (e & Hrun & He). right. exists 0, p, s, e. run Hrun. split_and!; done.
Qed.
