(* ===== verification/PagedKvCow.v ===== *)
(** * Well-formed KV pools, and what each operation does to one

    [leaked] are the pages an error path lost, [retained] the pages held from
    outside, once per hold. *)


From S2P Require Import Prelude Lists KvFormat PagedKv PagedKvInv.

Record config_ok (c : PoolConfig) : Prop := mkConfigOk {
  ok_page_size : 0 < page_size c;
  ok_page_limit : (N.of_nat (max_total_pages c) <= 2147483648)%N;
}.

(** The buffers hold every page: true of all formats but [INT4]. *)
Record buffers_ok (c : PoolConfig) (b : KVBuffers) : Prop := mkBuffersOk {
  ok_k_data : holds_pages (page_data_elements c) (max_total_pages c) (k_data b) /\ length (k_data b) = num_layers c;
  ok_v_data : holds_pages (page_data_elements c) (max_total_pages c) (v_data b) /\ length (v_data b) = num_layers c;
  ok_k_scales : holds_pages (page_scale_elements c) (max_total_pages c) (k_scales b) /\
    length (k_scales b) = (if has_scales (format c) then num_layers c else 0);
  ok_v_scales : holds_pages (page_scale_elements c) (max_total_pages c) (v_scales b) /\
    length (v_scales b) = (if has_scales (format c) then num_layers c else 0);
  ok_k_norms : holds_pages (page_scale_elements c) (max_total_pages c) (k_norms b) /\
    length (k_norms b) = (if has_norms (format c) then num_layers c else 0);
  ok_v_norms : holds_pages (page_scale_elements c) (max_total_pages c) (v_norms b) /\
    length (v_norms b) = (if has_norms (format c) then num_layers c else 0);
}.

(** Page tables are as long as the sequences need. *)
Record slots_ok (s : TokenKVPool) : Prop := mkSlotsOk {
  ok_tables : length (page_indices s) = num_slots (cfg s);
  ok_lens : length (seq_lens s) = num_slots (cfg s);
  ok_epochs : length (slot_epochs s) = num_slots (cfg s);
  ok_tight : forall slot pages len, page_indices s !! slot = Some pages -> seq_lens s !! slot = Some len ->
    length pages = div_ceil len (page_size (cfg s));
}.

Definition owned (leaked : list nat) (s : TokenKVPool) : list nat := leaked ++ concat (page_indices s).

Record wf (leaked retained : list nat) (s : TokenKVPool) : Prop := mkWf {
  wf_accounts : accounts (owned leaked s) retained s;
  wf_slots : slots_ok s;
  wf_config : config_ok (cfg s);
  wf_buffers : buffers_ok (cfg s) (buffers s);
}.

(** ** Page arithmetic *)
Section page_arith.
Context (ps : nat) (Hps : 0 < ps).

Lemma div_ceil_unique n k : k * ps < n + ps -> n <= k * ps -> div_ceil n ps = k.
Proof using Hps.
  intros Hlt Hle. apply (div_ceil_le n k ps Hps) in Hle. destruct (div_ceil_spec n ps Hps) as [Hge _].
  apply Nat.le_antisymm; [done|]. apply Nat.lt_succ_r. destruct (Nat.lt_ge_cases (div_ceil n ps) k) as [Hk|]; [|lia].
  assert (S (div_ceil n ps) * ps <= k * ps) by (apply Nat.mul_le_mono_r; lia). lia.
Qed.

Lemma tail_room_spec len : len + tail_room ps (len mod ps) = div_ceil len ps * ps.
Proof using Hps.
  unfold tail_room. pose proof (Nat.div_mod_eq len ps) as Hd. pose proof (Nat.mod_upper_bound len ps ltac:(lia)).
  case_bool_decide as H0.
  - rewrite (div_ceil_unique len (len / ps)); lia.
  - rewrite (div_ceil_unique len (S (len / ps))); lia.
Qed.

(** Appending takes exactly the pages the new length needs. *)
Lemma append_pages len count :
  div_ceil len ps + div_ceil (count - tail_room ps (len mod ps)) ps = div_ceil (len + count) ps.
Proof using Hps.
  pose proof (tail_room_spec len) as Ht. set (room := tail_room ps (len mod ps)) in *. clearbody room.
  symmetry. destruct (Nat.le_gt_cases count room).
  - replace (count - room) with 0 by lia. assert (div_ceil 0 ps = 0) as -> by (apply div_ceil_unique; lia).
    rewrite Nat.add_0_r. apply div_ceil_unique; [|lia]. destruct (div_ceil_spec len ps Hps). lia.
  - destruct (div_ceil_spec (count - room) ps Hps). apply div_ceil_unique; lia.
Qed.

Lemma div_ceil_mono a b : a <= b -> div_ceil a ps <= div_ceil b ps.
Proof using Hps. intros. apply (div_ceil_le a _ ps Hps). destruct (div_ceil_spec b ps Hps). lia. Qed.

(** A partial page at the end: the table's last page holds position [len]. *)
Lemma hot_tail_index len : len mod ps <> 0 -> div_ceil len ps = S (len / ps).
Proof using Hps.
  intros. pose proof (Nat.div_mod_eq len ps). pose proof (Nat.mod_upper_bound len ps ltac:(lia)). apply div_ceil_unique; lia.
Qed.

Lemma full_tail_index len : len mod ps = 0 -> div_ceil len ps = len / ps.
Proof using Hps. intros. pose proof (Nat.div_mod_eq len ps). apply div_ceil_unique; lia. Qed.
End page_arith.

(** ** Page tables as one multiset *)
Lemma concat_split {A} (ts : list (list A)) i t :
  ts !! i = Some t -> exists rest, concat ts ≡ₚ t ++ rest /\ forall t', concat (<[i := t']> ts) ≡ₚ t' ++ rest.
Proof.
  intros Hi. exists (concat (delete i ts)).
  assert (forall u, <[i := u]> ts !! i = Some u) as Hins
    by (intros; apply list_lookup_insert_eq; by eapply lookup_lt_Some).
  assert (forall (us : list (list A)) u, us !! i = Some u -> concat us ≡ₚ u ++ concat (delete i us)) as Hgen.
  { clear. intros us. induction us as [|v us IH] in i |- *; intros u Hu; [done|]. destruct i as [|i]; cbn in *.
    - by injection Hu as ->.
    - rewrite (IH i u Hu). rewrite !app_assoc. by rewrite (Permutation_app_comm v u). }
  split; [by apply Hgen|]. intros u. rewrite (Hgen _ _ (Hins u)).
  rewrite !delete_take_drop, take_insert_ge, drop_insert_lt by lia. done.
Qed.

(** Storing a table and its length back keeps the tables tight. *)
Lemma slots_ok_update s s' slot pages len :
  slots_ok s -> cfg s' = cfg s -> page_indices s' = <[slot := pages]> (page_indices s) ->
  seq_lens s' = <[slot := len]> (seq_lens s) -> length (slot_epochs s') = length (slot_epochs s) ->
  length pages = div_ceil len (page_size (cfg s)) -> slots_ok s'.
Proof.
  intros [Ht Hl He Htight] Hc Hp Hs Hep Hlen. constructor; rewrite Hc.
  - by rewrite Hp, length_insert.
  - by rewrite Hs, length_insert.
  - by rewrite Hep.
  - intros slot' pages' len'. rewrite Hp, Hs.
    intros [(-> & <- & _)|[Hne Hp']]%list_lookup_insert_Some [(? & <- & _)|[Hne' Hs']]%list_lookup_insert_Some; by eauto.
Qed.

Section wf_facts.
Context (L R : list nat) (s : TokenKVPool).
Hypothesis Hwf : wf L R s.

Lemma slot_tables slot : slot < num_slots (cfg s) ->
  exists pages len, page_indices s !! slot = Some pages /\ seq_lens s !! slot = Some len /\
    length pages = div_ceil len (page_size (cfg s)).
Proof using Hwf.
  intros Hs. pose proof (wf_slots _ _ _ Hwf) as [Ht Hl _ Htight].
  destruct (lookup_lt_is_Some_2 (page_indices s) slot) as [pages Hp]; [lia|].
  destruct (lookup_lt_is_Some_2 (seq_lens s) slot) as [len Hlen]; [lia|].
  exists pages, len. eauto.
Qed.

Lemma owned_page slot pages p : page_indices s !! slot = Some pages -> p ∈ pages -> p ∈ owned L s.
Proof using.
  intros Hp Hin. unfold owned. apply elem_of_app. right. apply list_elem_of_In, in_concat.
  exists pages. split; apply list_elem_of_In; [by eapply list_elem_of_lookup_2|done].
Qed.
End wf_facts.

(** ** Allocation *)
Record tables_written (s s' : TokenKVPool) (slot : nat) (pages : list nat) (len : nat) : Prop := mkWritten {
  tw_cfg : cfg s' = cfg s;
  tw_buffers : buffers s' = buffers s;
  tw_calls : driver_calls s' = driver_calls s;
  tw_pages : page_indices s' = <[slot := pages]> (page_indices s);
  tw_lens : seq_lens s' = <[slot := len]> (seq_lens s);
}.

Lemma read_hot_tail s slot len : seq_lens s !! slot = Some len -> slot_hot_tail_len s slot = Done (len mod page_size (cfg s)).
Proof. intros Hl. unfold slot_hot_tail_len. by rewrite (index_Some _ _ _ Hl). Qed.

Lemma alloc_tokens_spec L R s slot count pages len :
  wf L R s -> page_indices s !! slot = Some pages -> seq_lens s !! slot = Some len ->
  let need := div_ceil (len + count) (page_size (cfg s)) - length pages in
  if decide (length (free_pages s) < need)
  then alloc_tokens slot count s = Done (s, inr (OutOfPages need (length (free_pages s))))
  else exists s' new, alloc_tokens slot count s = Done (s', inl new) /\ wf L R s' /\ length new = need /\
    tables_written s s' slot (pages ++ new) (len + count) /\ slot_epochs s' = slot_epochs s /\
    free_pages s = free_pages s' ++ reverse new.
Proof.
  intros Hwf Hp Hl. cbn. pose proof Hwf as [Hacc Hslots [Hps Hlim] Hbuf]. set (ps := page_size (cfg s)) in *.
  pose proof (ok_tight _ Hslots _ _ _ Hp Hl) as Htight. fold ps in Htight.
  pose proof (append_pages ps Hps len count) as Hneed. rewrite <-Htight in Hneed.
  unfold alloc_tokens. case_bool_decide as H0.
  { subst count. rewrite Nat.add_0_r. rewrite Htight, Nat.sub_diag. rewrite decide_False by lia.
    exists s, []. rewrite app_nil_r. split_and!; try done; [|by rewrite app_nil_r].
    constructor; try done; symmetry; by apply list_insert_id. }
  rewrite (run_reads _ _ _ _ (read_hot_tail s slot len Hl)), !run_gets. unfold free_page_count. fold ps.
  replace (div_ceil (count - tail_room ps (len mod ps)) ps) with (div_ceil (len + count) ps - length pages) by lia.
  set (need := div_ceil (len + count) ps - length pages).
  case_decide as Hfree; [by rewrite bool_decide_eq_true_2|]. rewrite bool_decide_eq_false_2 by done.
  destruct (pop_attached need _ _ s Hacc ltac:(lia)) as (s1 & new & Hrun & Hnew & Hacc1 & Hs1 & Hf1).
  destruct Hs1 as [Hc1 Hb1 Hd1 Hp1 Hl1 He1].
  assert (slot < length (page_indices s)) as Hslot by by eapply lookup_lt_Some.
  assert (slot < length (seq_lens s)) as Hslot' by by eapply lookup_lt_Some.
  run Hrun. rewrite (run_reads _ _ _ pages) by (apply index_Some; by rewrite Hp1).
  rewrite (run_bind_ok _ _ _ _ _ (put_pages_ok slot (pages ++ new) s1 ltac:(by rewrite Hp1))).
  rewrite (run_reads _ _ _ len) by (apply index_Some; cbn; by rewrite Hl1).
  rewrite (run_bind_ok _ _ _ _ _ (put_seq_len_ok slot (len + count) (set_page_indices _ s1) ltac:(cbn; by rewrite Hl1))).
  do 2 eexists. split; [done|]. cbn. rewrite Hp1, Hl1.
  assert (accounts (owned L (set_page_indices (<[slot:=pages ++ new]> (page_indices s)) s1)) R s1) as Hacc2.
  { unfold owned. cbn. destruct (concat_split _ _ _ Hp) as (rest & Ha & Hb). rewrite Hb.
    revert Hacc1. unfold owned. rewrite Ha. apply accounts_perm; [|done].
    rewrite !app_assoc. apply Permutation_app_tail. rewrite (Permutation_app_comm new L), <-!app_assoc.
    apply Permutation_app_head, Permutation_app_comm. }
  split_and!; [|done| |done|done].
  - constructor; cbn; try congruence.
    + destruct Hacc2. by constructor.
    + eapply (slots_ok_update s _ slot (pages ++ new) (len + count)); cbn; try done; [by rewrite He1|].
      rewrite length_app, Hnew. subst need. fold ps. lia.
    + rewrite Hc1. by constructor.
  - constructor; cbn; congruence.
Qed.

Lemma alloc_detached_spec L R s count :
  wf L R s ->
  if decide (length (free_pages s) < count)
  then alloc_detached_pages count s = Done (s, inr (OutOfPages count (length (free_pages s))))
  else exists s' new, alloc_detached_pages count s = Done (s', inl new) /\ wf L (new ++ R) s' /\ length new = count /\
    same_slots s s' /\ free_pages s = free_pages s' ++ reverse new.
Proof.
  intros [Hacc Hslots Hcfg Hbuf]. unfold alloc_detached_pages. case_bool_decide as H0.
  { subst count. rewrite decide_False by lia. exists s, []. split_and!; try done. by rewrite app_nil_r. }
  rewrite run_gets. unfold free_page_count. case_decide as Hfree; [by rewrite bool_decide_eq_true_2|].
  rewrite bool_decide_eq_false_2 by done.
  destruct (pop_retained count _ _ s Hacc ltac:(lia)) as (s1 & new & Hrun & Hnew & Hacc1 & Hs1 & Hf1).
  exists s1, new. split_and!; try done. destruct Hs1 as [Hc1 Hb1 Hd1 Hp1 Hl1 He1]. constructor.
  - unfold owned. by rewrite Hp1.
  - destruct Hslots. constructor; rewrite ?Hc1, ?Hp1, ?Hl1, ?He1; done.
  - by rewrite Hc1.
  - by rewrite Hc1, Hb1.
Qed.

(** Well-formedness follows the slots, when the counters account for the rest. *)
Lemma wf_same_slots L L' R R' s s' :
  wf L R s -> same_slots s s' -> accounts (owned L' s) R' s' -> wf L' R' s'.
Proof.
  intros [Hacc Hslots Hcfg Hbuf] [Hc1 Hb1 Hd1 Hp1 Hl1 He1] Hacc'. constructor.
  - unfold owned in *. by rewrite Hp1.
  - destruct Hslots. constructor; rewrite ?Hc1, ?Hp1, ?Hl1, ?He1; done.
  - by rewrite Hc1.
  - by rewrite Hc1, Hb1.
Qed.

(** Well-formedness after a slot was rewritten. *)
Lemma wf_written L L' R R' s s' slot pages len :
  wf L R s -> tables_written s s' slot pages len -> length (slot_epochs s') = length (slot_epochs s) ->
  length pages = div_ceil len (page_size (cfg s)) ->
  accounts (L' ++ concat (<[slot := pages]> (page_indices s))) R' s' -> wf L' R' s'.
Proof.
  intros [Hacc Hslots Hcfg Hbuf] [Hc Hb Hd Hp Hl] He Hlen Hacc'. constructor; rewrite ?Hc, ?Hb; try done.
  - unfold owned. by rewrite Hp.
  - by eapply slots_ok_update.
Qed.

(** ** Retaining and releasing *)
Lemma retain_spec L R s pages :
  wf L R s -> (forall p, p ∈ pages -> p ∈ owned L s \/ p ∈ R) ->
  (forall p, p ∈ pages -> N.of_nat (length pages + occurrences p R) <= u32_max)%N ->
  exists s', retain_pages pages s = Done (s', inl tt) /\ wf L (pages ++ R) s' /\ same_slots s s' /\ free_pages s' = free_pages s.
Proof.
  intros Hwf Hlive Hmax. destruct (retain_pages_spec pages _ _ _ (wf_accounts _ _ _ Hwf) Hlive Hmax) as (s' & Hrun & Hacc & Hs & Hf & _).
  exists s'. split_and!; try done. by eapply wf_same_slots.
Qed.

Lemma release_wf_spec L R s pages :
  wf L (pages ++ R) s ->
  exists s' freed, release_pages pages s = Done (s', inl freed) /\ wf L R s' /\ same_slots s s' /\
    free_pages s' = free_pages s ++ freed.
Proof.
  intros Hwf. destruct (release_pages_spec pages _ _ _ (wf_accounts _ _ _ Hwf)) as (s' & freed & Hrun & Hacc & Hs & Hf & _).
  exists s', freed. split_and!; try done. by eapply wf_same_slots.
Qed.

(** ** Giving pages back *)
Lemma accounts_ext A R s s' :
  accounts A R s -> cfg s' = cfg s -> page_attach_count s' = page_attach_count s ->
  page_ref_count s' = page_ref_count s -> free_pages s' = free_pages s -> accounts A R s'.
Proof. intros [] Hc Ha Hr Hf. constructor; rewrite ?Hc, ?Ha, ?Hr, ?Hf; done. Qed.

(** The table of [slot] cut to its first pages, and the epoch bumped. *)
Lemma cut_table_ok s slot kept (cut : bool) : slots_ok s -> slot < num_slots (cfg s) ->
  exists s', (put_pages slot kept;; (if cut then bump_epoch slot else mret tt)) s = Done (s', inl tt) /\
    cfg s' = cfg s /\ buffers s' = buffers s /\ driver_calls s' = driver_calls s /\
    page_indices s' = <[slot := kept]> (page_indices s) /\ seq_lens s' = seq_lens s /\
    length (slot_epochs s') = length (slot_epochs s) /\ page_attach_count s' = page_attach_count s /\
    page_ref_count s' = page_ref_count s /\ free_pages s' = free_pages s.
Proof.
  intros [Ht Hl He _] Hs. rewrite (run_bind_ok _ _ _ _ _ (put_pages_ok slot kept s ltac:(by rewrite Ht))).
  destruct cut; [|by eexists].
  destruct (bump_epoch_ok slot (set_page_indices (<[slot := kept]> (page_indices s)) s)) as (l & Hrun & Hlen).
  { cbn. by rewrite He. }
  rewrite Hrun. by eexists.
Qed.

Lemma detach_rest L R s pages kept removed slot :
  wf L R s -> page_indices s !! slot = Some pages -> pages ≡ₚ removed ++ kept ->
  accounts (removed ++ L ++ concat (<[slot := kept]> (page_indices s))) R s.
Proof.
  intros Hwf Hp Hpages. destruct (concat_split _ _ _ Hp) as (rest & Ha & Hb). rewrite Hb.
  pose proof (wf_accounts _ _ _ Hwf) as Hacc. unfold owned in Hacc. rewrite Ha, Hpages in Hacc.
  revert Hacc. apply accounts_perm; [|done]. rewrite <-!app_assoc.
  rewrite (app_assoc L removed), (app_assoc removed L). apply Permutation_app_tail, Permutation_app_comm.
Qed.

(** [X; Y; rest] runs like [(X; Y); rest]. *)
Lemma run_seq2 {A} (m1 m2 : pool_eff unit) (k : pool_eff A) s s' :
  (m1;; m2) s = Done (s', inl tt) -> (m1;; m2;; k) s = k s'.
Proof.
  intros [(s1 & a & H1 & H2)|(e & _ & ?)]%run_bind_inv; [|done]. destruct a. run H1. by run H2.
Qed.

Lemma free_slot_spec L R s slot pages :
  wf L R s -> page_indices s !! slot = Some pages ->
  exists s' freed, free_slot slot s = Done (s', inl tt) /\ wf L R s' /\ tables_written s s' slot [] 0 /\
    free_pages s' = free_pages s ++ freed.
Proof.
  intros Hwf Hp. pose proof Hwf as [Hacc Hslots [Hps _] _].
  assert (slot < num_slots (cfg s)) as Hslot by (rewrite <-(ok_tables _ Hslots); by eapply lookup_lt_Some).
  unfold free_slot. rewrite (run_reads _ _ _ pages) by by apply index_Some.
  destruct (cut_table_ok s slot [] (bool_decide (pages <> [])) Hslots Hslot) as (s1 & Hrun1 & Hc1 & Hb1 & Hd1 & Hp1 & Hl1 & He1 & Ha1 & Hr1 & Hf1).
  rewrite (run_seq2 _ _ _ _ s1 Hrun1).
  destruct (detach_collect_spec pages (L ++ concat (<[slot := []]> (page_indices s))) R s1) as (s2 & freed & Hrun2 & Hacc2 & Hs2 & Hf2 & _).
  { eapply accounts_ext; [|done..]. apply (detach_rest L R s pages [] pages slot Hwf Hp). by rewrite app_nil_r. }
  rewrite (run_bind_ok _ _ _ _ _ (detach_all_collect _ _ _ _ Hrun2)). destruct Hs2 as [Hc2 Hb2 Hd2 Hp2 Hl2 He2].
  assert (slot < length (seq_lens s2)) as Hlt by (rewrite Hl2, Hl1, (ok_lens _ Hslots); done).
  do 2 eexists. split; [by apply put_seq_len_ok|].
  assert (tables_written s (set_seq_lens (<[slot:=0]> (seq_lens s2)) s2) slot [] 0) as Hw
    by (constructor; cbn; congruence).
  split_and!; [|done|by rewrite <-Hf1].
  eapply wf_written; [done|exact Hw|cbn; congruence| |].
  - cbn. symmetry. apply div_ceil_unique; lia.
  - eapply accounts_ext; [exact Hacc2|done..].
Qed.

Lemma truncate_slot_spec L R s slot pages len new_len :
  wf L R s -> page_indices s !! slot = Some pages -> seq_lens s !! slot = Some len ->
  if decide (len < new_len) then truncate_slot slot new_len s = Done (s, inr (CannotGrow slot new_len len))
  else exists s' freed, truncate_slot slot new_len s = Done (s', inl freed) /\ wf L R s' /\
    tables_written s s' slot (take (div_ceil new_len (page_size (cfg s))) pages) new_len /\
    free_pages s' = free_pages s ++ freed.
Proof.
  intros Hwf Hp Hl. pose proof Hwf as [Hacc Hslots [Hps _] _]. set (ps := page_size (cfg s)) in *.
  pose proof (ok_tight _ Hslots _ _ _ Hp Hl) as Htight. fold ps in Htight.
  assert (slot < num_slots (cfg s)) as Hslot by (rewrite <-(ok_tables _ Hslots); by eapply lookup_lt_Some).
  unfold truncate_slot. rewrite (run_reads _ _ _ len) by by apply index_Some.
  case_decide as Hgt; [by rewrite bool_decide_eq_true_2|]. rewrite bool_decide_eq_false_2 by done.
  case_bool_decide as Heq.
  { subst new_len. exists s, []. rewrite <-Htight, take_ge by done. split_and!; try done; [|by rewrite app_nil_r].
    constructor; try done; symmetry; by apply list_insert_id. }
  rewrite run_gets. fold ps. rewrite (run_reads _ _ _ pages) by by apply index_Some.
  assert (div_ceil new_len ps <= length pages) as Hk by (rewrite Htight; apply div_ceil_mono; lia).
  cbn zeta. rewrite Nat.min_l by done. set (kp := div_ceil new_len ps) in *.
  destruct (cut_table_ok s slot (take kp pages) (bool_decide (drop kp pages <> [])) Hslots Hslot)
    as (s1 & Hrun1 & Hc1 & Hb1 & Hd1 & Hp1 & Hl1 & He1 & Ha1 & Hr1 & Hf1).
  rewrite (run_seq2 _ _ _ _ s1 Hrun1).
  destruct (detach_collect_spec (drop kp pages) (L ++ concat (<[slot := take kp pages]> (page_indices s))) R s1) as (s2 & freed & Hrun2 & Hacc2 & Hs2 & Hf2 & _).
  { eapply accounts_ext; [|done..]. apply (detach_rest L R s pages (take kp pages) (drop kp pages) slot Hwf Hp).
    rewrite Permutation_app_comm. by rewrite take_drop. }
  run Hrun2. destruct Hs2 as [Hc2 Hb2 Hd2 Hp2 Hl2 He2].
  assert (slot < length (seq_lens s2)) as Hlt by (rewrite Hl2, Hl1, (ok_lens _ Hslots); done).
  rewrite (run_bind_ok _ _ _ _ _ (put_seq_len_ok slot new_len s2 Hlt)). do 2 eexists. split; [done|].
  assert (tables_written s (set_seq_lens (<[slot:=new_len]> (seq_lens s2)) s2) slot (take kp pages) new_len) as Hw
    by (constructor; cbn; congruence).
  split_and!; [|done|by rewrite <-Hf1].
  eapply wf_written; [done|exact Hw|cbn; congruence| |].
  - rewrite length_take. subst kp. fold ps. lia.
  - eapply accounts_ext; [exact Hacc2|done..].
Qed.

(** ** Sharing pages *)
Lemma attach_pages_spec L R s slot old len pages token_count :
  wf L R s -> page_indices s !! slot = Some old -> seq_lens s !! slot = Some len ->
  (forall p, p ∈ pages -> N.of_nat (length pages + occurrences p (owned L s)) <= u32_max)%N -> length pages = div_ceil token_count (page_size (cfg s)) ->
  exists s' r, attach_pages slot pages token_count s = Done (s', r) /\
  match r with
  | inl _ => old = [] /\ len = 0 /\ wf L R s' /\ tables_written s s' slot pages token_count /\ free_pages s' = free_pages s
  | inr e => exists k, wf (take k pages ++ L) R s' /\ same_slots s s' /\ free_pages s' = free_pages s /\
      (k = 0 \/ exists p, pages !! k = Some p /\ ~ attachable (owned L s) R s p /\ (e = PageOutOfBounds p \/ e = PageNotLive p))
  end /\
  (old = [] -> len = 0 -> (forall p, p ∈ pages -> attachable (owned L s) R s p) -> r = inl tt).
Proof.
  intros Hwf Hp Hl Hmax Htc. pose proof Hwf as [Hacc Hslots [Hps _] _]. set (ps := page_size (cfg s)) in *.
  assert (slot < num_slots (cfg s)) as Hslot by (rewrite <-(ok_tables _ Hslots); by eapply lookup_lt_Some).
  unfold attach_pages. rewrite (run_reads _ _ _ old) by by apply index_Some.
  rewrite (run_reads _ _ _ (if bool_decide (old = []) then len else 0)).
  2: { case_bool_decide; [|done]. by apply index_Some. }
  case_bool_decide as Hbusy.
  { exists s, (inr (SlotNotEmpty slot)). split_and!; [done| |].
    - exists 0. split_and!; [done..|by left].
    - intros -> -> _. rewrite bool_decide_eq_true_2 in Hbusy by done. tauto. }
  assert (old = []) as -> by (apply dec_stable; tauto). rewrite bool_decide_eq_true_2 in Hbusy by done.
  assert (len = 0) as -> by (apply dec_stable; tauto).
  rewrite run_gets. fold ps.
  assert (token_count <= length pages * ps) by (rewrite Htc; apply div_ceil_spec; done).
  rewrite bool_decide_eq_false_2 by lia.
  destruct (attach_loop_spec pages _ _ s Hacc Hmax)
    as [(s1 & Hrun & Hall & Hacc1 & Hs1 & Hf1)|(k & p & s1 & e & Hrun & Hk & Hnot & He & Hacc1 & Hs1 & Hf1)].
  - run Hrun. pose proof Hs1 as [Hc1 Hb1 Hd1 Hp1 Hl1 He1].
    rewrite (run_bind_ok _ _ _ _ _ (put_pages_ok slot pages s1 ltac:(by rewrite Hp1, (ok_tables _ Hslots)))).
    erewrite put_seq_len_ok by (cbn; by rewrite Hl1, (ok_lens _ Hslots)).
    do 2 eexists. split; [done|]. split; [|done]. cbn.
    set (s2 := set_seq_lens _ _).
    assert (tables_written s s2 slot pages token_count) as Hw by (constructor; cbn; congruence).
    split_and!; [done|done| |done|done].
    eapply wf_written; [done|exact Hw|cbn; congruence|done|].
    destruct (concat_split _ _ _ Hp) as (rest & Ha & Hb). rewrite Hb.
    apply (accounts_ext _ _ s1); [|done..]. revert Hacc1. unfold owned. rewrite Ha. apply accounts_perm; [|done]. cbn.
    rewrite !app_assoc. apply Permutation_app_tail, Permutation_app_comm.
  - run Hrun. exists s1, (inr e). split; [done|]. split.
    + exists k. split_and!; [|done|done|right; eauto]. eapply wf_same_slots; try done. unfold owned. by rewrite <-app_assoc.
    + intros _ _ Hall. destruct Hnot. apply Hall. by eapply list_elem_of_lookup_2.
Qed.

(** ** Copy on write in the KV pool

    The device copy of one page, and the append protocol: detach a shared,
    partly filled last page, then allocate. *)


Arguments layers_page : simpl never.
Arguments page_of : simpl never.

(** What is stored on page [q]: its slice of every layer of every buffer. *)
Definition page_image (c : PoolConfig) (b : KVBuffers) (q : nat) : list (list (list N)) :=
  [layers_page (page_data_elements c) q (k_data b); layers_page (page_data_elements c) q (v_data b);
   layers_page (page_scale_elements c) q (k_scales b); layers_page (page_scale_elements c) q (v_scales b);
   layers_page (page_scale_elements c) q (k_norms b); layers_page (page_scale_elements c) q (v_norms b)].

(** One table after the page [src] was copied over the page [dst]. *)
Definition transferred (item n src dst : nat) (k k' : list (list N)) : Prop :=
  holds_pages item n k' /\ length k' = length k /\
  forall q, layers_page item q k' = if decide (q = dst) then layers_page item src k else layers_page item q k.

Lemma transferred_none n src dst k : holds_pages 0 n k -> transferred 0 n src dst k k.
Proof. intros Hk. split_and!; [done|done|]. intros q. by case_decide. Qed.

Section cow.
Context `{Driver}.

Definition device_only (s : TokenKVPool) (calls : nat) (b : KVBuffers) : TokenKVPool :=
  set_driver_calls calls (set_buffers b s).

Lemma device_only_twice s n b n' b' : device_only (device_only s n b) n' b' = device_only s n' b'.
Proof. done. Qed.

Lemma device_only_id s : device_only s (driver_calls s) (buffers s) = s.
Proof. by destruct s. Qed.

Lemma driver_call_run {A} (k : pool_eff A) s :
  (driver_call;; k) s =
  if refuses (driver_calls s) then Done (set_driver_calls (S (driver_calls s)) s, inr DriverRefused)
  else k (set_driver_calls (S (driver_calls s)) s).
Proof. unfold driver_call, mbind, eff_bind, gets, modify, throw, mret, eff_ret. cbn. by destruct (refuses _). Qed.

(** One call after another: refused somewhere, or all granted. *)
Lemma driver_call_cases {A} (k : pool_eff A) s (P : TokenKVPool -> A + pool_error -> Prop) :
  (forall n, P (set_driver_calls n s) (inr DriverRefused)) ->
  (forall n, exists s' r, k (set_driver_calls n s) = Done (s', r) /\ P s' r) ->
  exists s' r, (driver_call;; k) s = Done (s', r) /\ P s' r.
Proof.
  intros Hno Hyes. rewrite driver_call_run. destruct (refuses _); [|apply Hyes]. do 2 eexists. split; [done|]. apply Hno.
Qed.

Section transfer.
Context (item eb src dst n : nat).
Context (gk gv : KVBuffers -> list (list N)) (sk sv : list (list N) -> KVBuffers -> KVBuffers).
Hypothesis Hget : forall b, sv (gv b) (sk (gk b) b) = b.

Lemma transfer_pair_spec s :
  0 < eb -> num_layers (cfg s) = length (gk (buffers s)) -> num_layers (cfg s) = length (gv (buffers s)) ->
  holds_pages item n (gk (buffers s)) -> holds_pages item n (gv (buffers s)) -> src < n -> dst < n ->
  exists s' r, transfer_layer_table_pair item eb [(src, dst)] gk gv sk sv s = Done (s', r) /\
    exists calls, match r with
    | inl _ => exists k v, s' = device_only s calls (sv v (sk k (buffers s))) /\
        transferred item n src dst (gk (buffers s)) k /\ transferred item n src dst (gv (buffers s)) v
    | inr e => e = DriverRefused /\ s' = device_only s calls (buffers s)
    end.
Proof using Hget.
  intros Heb Hk Hv Hhk Hhv Hsrc Hdst. unfold transfer_layer_table_pair. case_bool_decide as H0.
  { assert (item = 0) as E by (destruct H0 as [|?%Nat.eq_mul_0]; [done|lia]).
    exists s, (inl tt). split; [done|]. exists (driver_calls s), (gk (buffers s)), (gv (buffers s)).
    rewrite Hget, device_only_id. rewrite E in Hhk, Hhv |- *. split_and!; [done|by apply transferred_none..]. }
  rewrite !run_gets. rewrite !bool_decide_eq_false_2 by congruence.
  destruct (transfer_layer_table_spec item n src dst _ Hhk Hsrc Hdst) as (k' & Hrk & Hk').
  destruct (transfer_layer_table_spec item n src dst _ Hhv Hsrc Hdst) as (v' & Hrv & Hv').
  assert (forall calls, exists calls', set_driver_calls calls s = device_only s calls' (buffers s)) as Hrefused
    by (intros calls; exists calls; by destruct s).
  do 5 (apply driver_call_cases; [intros m; destruct (Hrefused m) as [m' E]; exists m'; split; [done|exact E]|intros ?]).
  rewrite (run_of_res _ _ _ k') by done. rewrite (run_of_res _ _ _ v') by done.
  do 2 eexists. split; [done|]. eexists _, k', v'. split; [done|]. split_and!; by apply Hk' || apply Hv'.
Qed.
End transfer.

(** ... or skips the tables of a format that has none. *)
Lemma optional_pair_spec item eb src dst n gk gv sk sv (flag : bool) s :
  (forall b, sv (gv b) (sk (gk b) b) = b) -> 0 < eb -> src < n -> dst < n ->
  holds_pages item n (gk (buffers s)) /\ length (gk (buffers s)) = (if flag then num_layers (cfg s) else 0) ->
  holds_pages item n (gv (buffers s)) /\ length (gv (buffers s)) = (if flag then num_layers (cfg s) else 0) ->
  exists s' r, (if flag then transfer_layer_table_pair item eb [(src, dst)] gk gv sk sv else mret tt) s = Done (s', r) /\
    exists calls, match r with
    | inl _ => exists k v, s' = device_only s calls (sv v (sk k (buffers s))) /\
        transferred item n src dst (gk (buffers s)) k /\ transferred item n src dst (gv (buffers s)) v
    | inr e => e = DriverRefused /\ s' = device_only s calls (buffers s)
    end.
Proof.
  intros Hget Heb Hsrc Hdst [Hhk Hk] [Hhv Hv]. destruct flag; [by apply transfer_pair_spec|].
  apply nil_length_inv in Hk, Hv. exists s, (inl tt). split; [done|].
  exists (driver_calls s), (gk (buffers s)), (gv (buffers s)). rewrite Hget, device_only_id, Hk, Hv.
  split; [done|]. split; (split; [constructor|]; split; [done|]; intros q; by case_decide).
Qed.

Lemma transferred_ok item n src dst k k' m :
  transferred item n src dst k k' -> length k = m -> holds_pages item n k' /\ length k' = m.
Proof. by intros (? & -> & ?) ->. Qed.

Lemma transferred_self item n src dst k k' : transferred item n src dst k k' ->
  layers_page item dst k' = layers_page item src k.
Proof. intros (_ & _ & ->). by rewrite decide_True. Qed.

Lemma transferred_other item n src dst k k' q : transferred item n src dst k k' -> q <> dst ->
  layers_page item q k' = layers_page item q k.
Proof. intros (_ & _ & ->) ?. by rewrite decide_False. Qed.

Lemma cons_eq {A} (x y : A) l l' : x = y -> l = l' -> x :: l = y :: l'.
Proof. by intros -> ->. Qed.

Hint Resolve transferred_self transferred_other : core.

(** The copy of a page changes the destination only, and on success makes it
    the same as the source; it fails only when the driver refuses a call. *)
Lemma copy_page_spec s src dst :
  config_ok (cfg s) -> buffers_ok (cfg s) (buffers s) -> src < max_total_pages (cfg s) -> dst < max_total_pages (cfg s) ->
  exists s' r, copy_page_device_to_device src dst s = Done (s', r) /\
    exists calls b, s' = device_only s calls b /\ buffers_ok (cfg s) b /\
      (forall q, q <> dst -> page_image (cfg s) b q = page_image (cfg s) (buffers s) q) /\
      match r with
      | inl _ => page_image (cfg s) b dst = page_image (cfg s) (buffers s) src
      | inr e => e = DriverRefused
      end.
Proof.
  intros [Hps Hlim] HB Hsrc Hdst. set (c := cfg s) in *. set (B := buffers s) in *.
  unfold copy_page_device_to_device, copy_pages_device_to_device. cbn [length app].
  rewrite bool_decide_eq_false_2 by tauto. rewrite bool_decide_eq_false_2 by done.
  rewrite (run_bind_ok _ _ s s tt).
  2: { apply for_each_check. intros p Hp. unfold check_transfer_page. rewrite run_gets. fold c.
       assert (p < max_total_pages c) by set_solver. rewrite !bool_decide_eq_false_2 by lia. done. }
  pose proof HB as [Hkd Hvd Hks Hvs Hkn Hvn].
  do 2 (apply driver_call_cases; [intros m; exists m, B; split_and!; [by destruct s|done|done|done]|intros ?]).
  rewrite run_gets. cbn [zip zip_with]. cbn [cfg set_driver_calls]. fold c.
  match goal with |- exists s' r, _ ?st = _ /\ _ =>
    destruct (optional_pair_spec (page_data_elements c) 1 src dst (max_total_pages c) k_data v_data set_k_data set_v_data true st)
      as (s1 & [u|e] & Hrun1 & calls1 & H1) end; [by intros []|lia|done|done|exact Hkd|exact Hvd| |];
    cbv iota in Hrun1; run Hrun1; [|destruct H1 as [-> ->]; do 2 eexists; split; [done|]; exists calls1, B; split_and!; done].
  destruct H1 as (k1 & v1 & -> & Hk1 & Hv1).
  match goal with |- exists s' r, _ ?st = _ /\ _ =>
    destruct (optional_pair_spec (page_scale_elements c) 4 src dst (max_total_pages c) k_scales v_scales set_k_scales set_v_scales
      (has_scales (format c)) st) as (s2 & [u2|e2] & Hrun2 & calls2 & H2) end; [by intros []|lia|done|done|exact Hks|exact Hvs| |];
    run Hrun2.
  2: { destruct H2 as [-> ->]. do 2 eexists. split; [done|]. eexists calls2, _. split; [done|]. cbn. split; [|split; [|done]].
       - constructor; cbn; try done; by eapply transferred_ok; [eassumption|apply HB].
       - intros q Hq. unfold page_image. cbn. repeat (apply cons_eq; [by eauto|]). done. }
  destruct H2 as (k2 & v2 & -> & Hk2 & Hv2).
  match goal with |- exists s' r, _ ?st = _ /\ _ =>
    destruct (optional_pair_spec (page_scale_elements c) 2 src dst (max_total_pages c) k_norms v_norms set_k_norms set_v_norms
      (has_norms (format c)) st) as (s3 & [u3|e3] & Hrun3 & calls3 & H3) end; [by intros []|lia|done|done|exact Hkn|exact Hvn| |];
    rewrite Hrun3.
  2: { destruct H3 as [-> ->]. do 2 eexists. split; [done|]. eexists calls3, _. split; [done|]. cbn. split; [|split; [|done]].
       - constructor; cbn; try done; by eapply transferred_ok; [eassumption|apply HB].
       - intros q Hq. unfold page_image. cbn. repeat (apply cons_eq; [by eauto|]). done. }
  destruct H3 as (k3 & v3 & -> & Hk3 & Hv3). do 2 eexists. split; [done|]. eexists calls3, _. split; [done|]. cbn.
  split_and!.
  - constructor; cbn; by eapply transferred_ok; [eassumption|apply HB].
  - intros q Hq. unfold page_image. cbn. repeat (apply cons_eq; [by eauto|]). done.
  - unfold page_image. cbn. repeat (apply cons_eq; [by eauto|]). done.
Qed.

(** ** The shared tail *)
Lemma shared_tail_spec L R s slot pages len :
  wf L R s -> page_indices s !! slot = Some pages -> seq_lens s !! slot = Some len ->
  exists o, slot_shared_hot_tail_page s slot = Done o /\
  match o with
  | Some p => len mod page_size (cfg s) <> 0 /\ last pages = Some p /\ (p ∈ R \/ 2 <= occurrences p (owned L s))
  | None => len mod page_size (cfg s) = 0 \/ exists p, last pages = Some p /\ p ∉ R /\ occurrences p (owned L s) = 1
  end.
Proof.
  intros Hwf Hp Hl. pose proof Hwf as [Hacc Hslots [Hps _] _]. set (ps := page_size (cfg s)) in *.
  pose proof (ok_tight _ Hslots _ _ _ Hp Hl) as Htight. fold ps in Htight.
  unfold slot_shared_hot_tail_page, slot_hot_tail_page. rewrite (read_hot_tail s slot len Hl). fold ps. cbn.
  case_bool_decide as H0; [exists None; split; [done|by left]|]. rewrite (index_Some _ _ _ Hp). cbn.
  rewrite (hot_tail_index ps Hps len H0) in Htight. destruct (last pages) as [p|] eqn:Elast.
  2: { apply last_None in Elast. by subst. }
  assert (p ∈ owned L s) as Hown by (eapply owned_page; [done|]; apply last_Some in Elast as [? ->]; set_solver).
  assert (p < max_total_pages (cfg s)) as Hlt by by eapply acc_attach_bound.
  unfold page_is_shared_read_only. rewrite (index_Some _ _ _ (ref_count s _ _ Hacc p Hlt)). cbn.
  case_bool_decide as HR.
  { exists (Some p). split; [done|]. split_and!; [done|done|left]. apply dec_stable. intros ?%occurrences_notin. lia. }
  rewrite (index_Some _ _ _ (attach_count s _ _ Hacc p Hlt)). cbn. case_bool_decide as HA.
  - exists (Some p). split; [done|]. split_and!; [done|done|right; lia].
  - exists None. split; [done|]. right. exists p. split_and!; [done| |].
    + apply occurrences_zero. lia.
    + pose proof (occurrences_in p _ Hown). lia.
Qed.

(** Dropping the attachment inline is [detach_page]. *)
Lemma inline_detach p n s : page_attach_count s !! p = Some n -> n <> 0%N ->
  (attached ← reads (fun s => index (page_attach_count s) p);
   put_attach p (if bool_decide (attached = 0) then u32_max else attached - 1)%N;;
   recycle_page_if_unreferenced p;; mret tt) s = (detach_page p;; mret tt) s.
Proof.
  intros Hn H0. rewrite (run_reads _ _ _ n) by by apply index_Some. rewrite bool_decide_eq_false_2 by done.
  unfold detach_page. unfold mbind at 3, eff_bind. rewrite (run_reads _ _ _ n) by by apply index_Some.
  unfold mbind, eff_bind. by repeat case_match.
Qed.

Lemma swap_last_page_ok slot new front old s :
  page_indices s !! slot = Some (front ++ [old]) ->
  swap_last_page slot new s = Done (set_page_indices (<[slot := front ++ [new]]> (page_indices s)) s, inl old).
Proof.
  intros Hp. unfold swap_last_page. rewrite (run_reads _ _ _ _ (index_Some _ _ _ Hp)).
  rewrite (run_reads _ _ _ old) by (apply expect_Some; by rewrite last_snoc).
  rewrite length_app. cbn [length]. rewrite Nat.add_sub, insert_app_r_alt, Nat.sub_diag by done.
  rewrite (run_bind_ok _ _ _ _ _ (put_pages_ok slot _ s ltac:(by eapply lookup_lt_Some))). done.
Qed.

(** The copy on write of the last page of [slot]. *)
Record cow_done (L R : list nat) (s s' : TokenKVPool) (slot old new : nat) (pages : list nat) : Prop := mkCowDone {
  cow_wf : wf L R s';
  cow_cfg : cfg s' = cfg s;
  cow_fresh : new ∉ owned L s /\ new ∉ R;
  cow_tables : exists front, pages = front ++ [old] /\ page_indices s' = <[slot := front ++ [new]]> (page_indices s);
  cow_owned : old :: owned L s' ≡ₚ new :: owned L s;
  cow_still : old ∈ owned L s' \/ old ∈ R;
  cow_lens : seq_lens s' = seq_lens s;
  cow_epochs : slot_epochs s' = slot_epochs s;
  cow_free : free_pages s = free_pages s' ++ [new];
  cow_others : forall q, q <> new -> page_image (cfg s) (buffers s') q = page_image (cfg s) (buffers s) q;
  cow_copy : page_image (cfg s) (buffers s') new = page_image (cfg s) (buffers s) old;
}.

(** ... and when the driver refuses: the new page is lost. *)
Record cow_lost (L R : list nat) (s s' : TokenKVPool) (new : nat) : Prop := mkCowLost {
  lost_wf : wf (new :: L) R s';
  lost_cfg : cfg s' = cfg s;
  lost_fresh : new ∉ owned L s /\ new ∉ R;
  lost_tables : page_indices s' = page_indices s;
  lost_lens : seq_lens s' = seq_lens s;
  lost_free : free_pages s = free_pages s' ++ [new];
  lost_others : forall q, q <> new -> page_image (cfg s) (buffers s') q = page_image (cfg s) (buffers s) q;
}.

Lemma detach_without_page slot page s :
  free_pages s = [] -> detach_shared_hot_tail_page_for_append slot page s = Done (s, inr CowOutOfPages).
Proof. intros Hf. unfold detach_shared_hot_tail_page_for_append. rewrite run_gets. by rewrite bool_decide_eq_true_2. Qed.

Lemma detach_shared_spec L R s slot pages len old :
  wf L R s -> page_indices s !! slot = Some pages -> seq_lens s !! slot = Some len ->
  last pages = Some old -> (old ∈ R \/ 2 <= occurrences old (owned L s)) -> free_pages s <> [] ->
  exists s' r new, detach_shared_hot_tail_page_for_append slot old s = Done (s', r) /\
  match r with
  | inl _ => cow_done L R s s' slot old new pages
  | inr e => e = DriverRefused /\ cow_lost L R s s' new
  end.
Proof.
  intros Hwf Hp Hl Hold Hshared Hfree. pose proof Hwf as [Hacc Hslots Hcfg Hbuf].
  apply last_Some in Hold as [front ->].
  assert (old ∈ owned L s) as Hown by (eapply owned_page; [done|set_solver]).
  assert (old < max_total_pages (cfg s)) as Holdlt by by eapply acc_attach_bound.
  unfold detach_shared_hot_tail_page_for_append. rewrite run_gets, bool_decide_eq_false_2 by done.
  destruct (pop_free_page_ok s _ _ Hacc Hfree) as (new & rest & Hf & Hpop & Hnew & HnA & HnR & Hnr).
  run Hpop. set (s0 := set_free_pages rest s).
  rewrite (run_bind_ok _ _ _ _ _ (put_attach_ok new 1 s0 ltac:(cbn; by rewrite (attach_length _ _ _ Hacc)))).
  pose proof (popped_attached s _ _ Hacc new rest Hf Hnew HnA HnR Hnr) as Hacc1.
  set (s1 := set_attach _ s0). change (accounts (new :: owned L s) R s1) in Hacc1.
  destruct (copy_page_spec s1 old new) as (s2 & r & Hcopy & calls & b & -> & Hb & Hother & Hr); [done..|].
  destruct r as [u|e]; run Hcopy.
  2: { subst e. do 2 eexists. exists new. split; [done|]. split; [done|]. constructor; try done.
       constructor; try done; [by destruct Hacc1; constructor|by destruct Hslots; constructor]. }
  set (s2 := device_only s1 calls b) in *.
  run (swap_last_page_ok slot new front old s2 Hp). set (s3 := set_page_indices _ s2).
  destruct (concat_split _ _ _ Hp) as (others & Ha & Hc).
  set (A' := L ++ concat (<[slot := front ++ [new]]> (page_indices s))).
  assert (new :: owned L s ≡ₚ old :: A') as Hperm.
  { unfold owned, A'. rewrite Ha, Hc. rewrite <-!app_assoc. cbn.
    rewrite !(app_assoc L front), <-!(Permutation_middle (L ++ front)). apply Permutation_swap. }
  assert (accounts (old :: A') R s3) as Hacc3 by (rewrite <-Hperm; by destruct Hacc1; constructor).
  assert (old <> new) as Hne by (intros ->; done).
  assert (old ∈ A' \/ old ∈ R) as Hstill.
  { destruct Hshared as [?|H2]; [by right|]. left. apply dec_stable. intros ?%occurrences_notin.
    assert (occurrences old (new :: owned L s) = occurrences old (old :: A')) as E by by rewrite Hperm.
    rewrite !occurrences_cons, decide_False, decide_True in E by done. lia. }
  rewrite (inline_detach old (N.of_nat (occurrences old (old :: A')))).
  2: { apply (attach_count s3 _ _ Hacc3). done. }
  2: { rewrite occurrences_cons, decide_True by done. lia. }
  destruct (detach_page_spec old A' R s3 Hacc3) as (s4 & Hdet & Hacc4 & Hs4 & Hf4 & _).
  rewrite bool_decide_eq_false_2, app_nil_r in Hf4 by tauto. run Hdet.
  destruct Hs4 as [Hc4 Hb4 Hd4 Hp4 Hl4 He4]. do 2 eexists. exists new. split; [done|]. constructor.
  - constructor; rewrite ?Hc4, ?Hb4; try done.
    + unfold owned. rewrite Hp4. exact Hacc4.
    + eapply (slots_ok_update s s4 slot (front ++ [new]) len); try done.
      * rewrite Hl4. cbn. symmetry. by apply list_insert_id.
      * by rewrite He4.
      * rewrite <-(ok_tight _ Hslots _ _ _ Hp Hl). by rewrite !length_app.
  - done.
  - done.
  - exists front. by rewrite Hp4.
  - unfold owned at 1. rewrite Hp4. by symmetry.
  - unfold owned. by rewrite Hp4.
  - done.
  - done.
  - by rewrite Hf4.
  - intros q Hq. rewrite Hb4. by apply Hother.
  - by rewrite Hb4.
Qed.

Lemma cow_spec L R s slot pages len :
  wf L R s -> page_indices s !! slot = Some pages -> seq_lens s !! slot = Some len ->
  exists s' r n, cow_tail_page_for_append slot s = Done (s', r) /\ append_cow_pages_needed s slot = Done n /\
  match r with
  | inl false => n = 0 /\ s' = s /\
      (len mod page_size (cfg s) = 0 \/ exists p, last pages = Some p /\ p ∉ R /\ occurrences p (owned L s) = 1)
  | inl true => n = 1 /\ exists old new, cow_done L R s s' slot old new pages
  | inr e => n = 1 /\ ((e = CowOutOfPages /\ s' = s /\ free_pages s = []) \/ (e = DriverRefused /\ exists new, cow_lost L R s s' new))
  end.
Proof.
  intros Hwf Hp Hl. destruct (shared_tail_spec L R s slot pages len Hwf Hp Hl) as (o & Ho & Hspec).
  unfold cow_tail_page_for_append, append_cow_pages_needed. rewrite Ho. cbn. rewrite (run_reads _ _ _ _ Ho).
  destruct o as [old|].
  2: { by exists s, (inl false), 0. }
  destruct Hspec as (H0 & Hlast & Hsh). destruct (decide (free_pages s = [])) as [Hfree|Hfree].
  - exists s, (inr CowOutOfPages), 1. run (detach_without_page slot old s Hfree). split_and!; [done..|by left].
  - destruct (detach_shared_spec L R s slot pages len old Hwf Hp Hl Hlast Hsh Hfree) as (s' & [u|e] & new & Hrun & Hr); run Hrun.
    + exists s', (inl true), 1. split_and!; [done..|]. by exists old, new.
    + exists s', (inr e), 1. destruct Hr as [-> Hr]. split_and!; [done..|]. right. split; [done|]. by exists new.
Qed.

(** ** Appending *)
Lemma append_pages_needed_spec L R s slot count pages len n :
  wf L R s -> page_indices s !! slot = Some pages -> seq_lens s !! slot = Some len ->
  append_cow_pages_needed s slot = Done n ->
  append_pages_needed s slot count =
    Done (if decide (count = 0) then 0 else n + (div_ceil (len + count) (page_size (cfg s)) - length pages)).
Proof.
  intros Hwf Hp Hl Hn. pose proof Hwf as [Hacc Hslots [Hps _] _]. unfold append_pages_needed.
  case_bool_decide as H0; [by rewrite decide_True|]. rewrite decide_False by done.
  rewrite (read_hot_tail s slot len Hl). cbn. rewrite Hn. cbn. rewrite Nat.max_l by lia.
  rewrite (ok_tight _ Hslots _ _ _ Hp Hl), <-(append_pages _ Hps len count). do 2 f_equal. lia.
Qed.

(** The pages a successful append leaves behind: what was stored stays stored,
    and the positions to be written lie on pages nobody else can see. *)
Record appended (L R : list nat) (s s' : TokenKVPool) (slot : nat) (pages : list nat) (len count : nat)
  (new : list nat) : Prop := mkAppended {
  ap_wf : wf L R s';
  ap_cfg : cfg s' = cfg s;
  ap_table : exists kept, length kept = length pages /\ page_indices s' = <[slot := kept ++ new]> (page_indices s) /\
    page_image (cfg s) (buffers s') <$> kept = page_image (cfg s) (buffers s) <$> pages /\
    forall pos, len <= pos < len + count -> exists q,
      (kept ++ new) !! (pos / page_size (cfg s)) = Some q /\ occurrences q (owned L s') = 1 /\ q ∉ R;
  ap_lens : seq_lens s' = <[slot := len + count]> (seq_lens s);
  ap_epochs : slot_epochs s' = slot_epochs s;
  ap_live : forall q, q ∈ owned L s \/ q ∈ R -> page_image (cfg s) (buffers s') q = page_image (cfg s) (buffers s) q;
  ap_counts : forall q, q ∉ free_pages s -> occurrences q (owned L s') <= occurrences q (owned L s);
}.

Lemma owned_grown L s s' slot kept new :
  page_indices s !! slot = Some kept -> page_indices s' = <[slot := kept ++ new]> (page_indices s) ->
  owned L s' ≡ₚ new ++ owned L s.
Proof.
  intros Hp Hp'. unfold owned. rewrite Hp'. destruct (concat_split _ _ _ Hp) as (rest & Ha & Hb). rewrite Hb, Ha.
  rewrite (Permutation_app_comm kept new), <-!app_assoc, !app_assoc. do 2 apply Permutation_app_tail. apply Permutation_app_comm.
Qed.

(** Positions from [len] on lie on the hot tail or on new pages. *)
Lemma written_pages L R s s' slot kept new len count :
  wf L R s -> wf L R s' -> cfg s' = cfg s -> page_indices s !! slot = Some kept -> seq_lens s !! slot = Some len ->
  page_indices s' = <[slot := kept ++ new]> (page_indices s) ->
  length new = div_ceil (len + count) (page_size (cfg s)) - length kept ->
  (forall q, q ∈ new -> q ∈ free_pages s) -> NoDup new ->
  (len mod page_size (cfg s) = 0 \/ exists p, last kept = Some p /\ p ∉ R /\ occurrences p (owned L s) = 1) ->
  forall pos, len <= pos < len + count -> exists q,
    (kept ++ new) !! (pos / page_size (cfg s)) = Some q /\ occurrences q (owned L s') = 1 /\ q ∉ R.
Proof.
  intros Hwf Hwf' Hc Hp Hl Hp' Hnew Hfree Hnd Htail pos Hpos. pose proof Hwf as [Hacc Hslots [Hps _] _].
  pose proof (ok_tight _ Hslots _ _ _ Hp Hl) as Htight. set (ps := page_size (cfg s)) in *.
  pose proof (owned_grown L s s' slot kept new Hp Hp') as Hperm.
  assert (forall q, q ∈ new -> q ∉ owned L s /\ q ∉ R) as Hfresh by (intros q ?%Hfree%(acc_free _ _ _ Hacc); tauto).
  assert (pos / ps < length kept + length new) as Hlt.
  { rewrite Hnew, Htight. pose proof (div_ceil_mono ps Hps len (len + count)). destruct (div_ceil_spec (len + count) ps Hps).
    apply Nat.Div0.div_lt_upper_bound. nia. }
  destruct (decide (length kept <= pos / ps)) as [Hge|Hk].
  - destruct (lookup_lt_is_Some_2 new (pos / ps - length kept)) as [q Hq]; [lia|].
    exists q. rewrite lookup_app_r by done. split; [done|]. apply list_elem_of_lookup_2 in Hq.
    destruct (Hfresh q Hq). split; [|done]. rewrite Hperm, occurrences_app, (occurrences_notin q (owned L s)) by done.
    pose proof (occurrences_NoDup q new Hnd). pose proof (occurrences_in q new Hq). lia.
  - assert (len / ps <= pos / ps) by (apply Nat.Div0.div_le_mono; lia).
    destruct Htail as [Hm|(p & Hlast & HpR & Hocc)].
    { rewrite (full_tail_index ps Hps len Hm) in Htight. lia. }
    assert (pos / ps = length kept - 1) as ->.
    { destruct (decide (len mod ps = 0)) as [Hm|Hm]; [rewrite (full_tail_index ps Hps len Hm) in Htight; lia|].
      rewrite (hot_tail_index ps Hps len Hm) in Htight. lia. }
    exists p. rewrite lookup_app_l by lia. rewrite last_lookup in Hlast. replace (length kept - 1) with (pred (length kept)) by lia.
    split; [done|]. split; [|done]. rewrite Hperm, occurrences_app, Hocc.
    rewrite (occurrences_notin p new); [done|]. intros Hin. destruct (Hfresh p Hin) as [Hno _].
    apply Hno. apply dec_stable. intros ?%occurrences_notin. lia.
Qed.

(** What a failed append leaves behind. *)
Record append_failed (L R : list nat) (s s' : TokenKVPool) (e : pool_error) : Prop := mkAppendFailed {
  af_wf : exists lost, wf (lost ++ L) R s' /\ (e <> DriverRefused -> lost = []);
  af_cfg : cfg s' = cfg s;
  af_lens : seq_lens s' = seq_lens s;
  af_live : forall q, q ∈ owned L s \/ q ∈ R -> page_image (cfg s) (buffers s') q = page_image (cfg s) (buffers s) q;
}.

Lemma elem_of_free L R s s1 q p : wf L R s -> free_pages s = free_pages s1 ++ [p] -> q ∈ owned L s \/ q ∈ R -> q <> p.
Proof.
  intros Hwf Hf Hq ->. assert (p ∈ free_pages s) as Hin by (rewrite Hf; set_solver).
  apply (acc_free _ _ _ (wf_accounts _ _ _ Hwf)) in Hin. tauto.
Qed.

(** Allocation after the copy on write, on the state it left. *)
Lemma alloc_after L R s slot count pages len :
  wf L R s -> page_indices s !! slot = Some pages -> seq_lens s !! slot = Some len ->
  (len mod page_size (cfg s) = 0 \/ exists p, last pages = Some p /\ p ∉ R /\ occurrences p (owned L s) = 1) ->
  let need := div_ceil (len + count) (page_size (cfg s)) - length pages in
  if decide (length (free_pages s) < need)
  then alloc_tokens slot count s = Done (s, inr (OutOfPages need (length (free_pages s))))
  else exists s' new, alloc_tokens slot count s = Done (s', inl new) /\ appended L R s s' slot pages len count new /\
    length (free_pages s) = length (free_pages s') + need.
Proof.
  intros Hwf Hp Hl Htail need. pose proof (alloc_tokens_spec L R s slot count pages len Hwf Hp Hl) as Halloc.
  cbn zeta in Halloc. fold need in Halloc. case_decide as Hn; [done|].
  destruct Halloc as (s' & new & Hrun & Hwf' & Hnew & Hw & He & Hf). destruct Hw as [Hc Hb Hd Hp' Hl'].
  exists s', new. split; [done|]. split; [|by rewrite Hf, length_app, length_reverse, Hnew].
  pose proof (acc_free_nodup _ _ _ (wf_accounts _ _ _ Hwf)) as Hnd. rewrite Hf in Hnd.
  apply NoDup_app in Hnd as (_ & _ & Hnd). rewrite reverse_Permutation in Hnd.
  constructor; try done; [|by rewrite Hb|].
  2: { intros q Hq. rewrite (owned_grown L s s' slot pages new Hp Hp'), occurrences_app, (occurrences_notin q new); [done|].
       rewrite Hf in Hq. set_solver. }
  exists pages. rewrite Hb. split_and!; [done..|].
  eapply (written_pages L R s s'); try done. intros q Hq. rewrite Hf. set_solver.
Qed.

Lemma append_spec L R s slot count pages len :
  wf L R s -> page_indices s !! slot = Some pages -> seq_lens s !! slot = Some len ->
  exists n s' r, append_pages_needed s slot count = Done n /\ append_tokens slot count s = Done (s', r) /\
  match r with
  | inl new => appended L R s s' slot pages len count new /\ length (free_pages s) = length (free_pages s') + n
  | inr e => append_failed L R s s' e /\ (e = DriverRefused \/ length (free_pages s) < n)
  end.
Proof.
  intros Hwf Hp Hl. destruct (cow_spec L R s slot pages len Hwf Hp Hl) as (s1 & r1 & n & Hrun1 & Hn & H1).
  rewrite (append_pages_needed_spec L R s slot count pages len n Hwf Hp Hl Hn). unfold append_tokens.
  set (need := div_ceil (len + count) (page_size (cfg s)) - length pages).
  assert (forall q, page_image (cfg s) (buffers s) q = page_image (cfg s) (buffers s) q) by done.
  destruct (decide (count = 0)) as [->|Hcount].
  { rewrite bool_decide_eq_false_2 by lia. eexists _, s, (inl []). split; [done|]. split; [done|]. split; [|lia].
    constructor; try done; [|rewrite Nat.add_0_r; symmetry; by apply list_insert_id].
    exists pages. rewrite app_nil_r. split_and!; [done|symmetry; by apply list_insert_id|done|]. intros pos ?. lia. }
  rewrite bool_decide_eq_true_2 by lia. destruct r1 as [[]|e]; run Hrun1.
  - destruct H1 as (-> & old & new & [Hwf1 Hc1 [Hfr1 Hfr2] (front & -> & Hp1) Hown Hstill Hl1 He1 Hf1 Ho1 Hcp1]).
    assert (slot < length (page_indices s)) as Hslot by by eapply lookup_lt_Some.
    assert (page_indices s1 !! slot = Some (front ++ [new])) as Hp1' by (rewrite Hp1; by apply list_lookup_insert_eq).
    assert (old <> new) as Hne by (intros ->; apply Hfr1; eapply owned_page; [done|set_solver]).
    assert (occurrences new (owned L s1) = 1) as Hocc.
    { assert (occurrences new (old :: owned L s1) = occurrences new (new :: owned L s)) as E by by rewrite Hown.
      rewrite !occurrences_cons, decide_False, decide_True, (occurrences_notin new (owned L s)) in E by done. lia. }
    pose proof (alloc_after L R s1 slot count (front ++ [new]) len Hwf1 Hp1' ltac:(by rewrite Hl1)) as Halloc.
    rewrite Hc1 in Halloc. rewrite length_app in Halloc. cbn [length] in Halloc.
    replace (div_ceil (len + count) (page_size (cfg s)) - (length front + 1)) with need in Halloc
      by (subst need; by rewrite length_app).
    assert (forall q, q ∈ owned L s \/ q ∈ R -> page_image (cfg s) (buffers s1) q = page_image (cfg s) (buffers s) q) as Hlive
      by (intros q Hq; apply Ho1; by eapply (elem_of_free L R s s1)).
    specialize (Halloc (or_intror (ex_intro _ new (conj (last_snoc _ _) (conj Hfr2 Hocc))))).
    case_decide as Hn'.
    + eexists _, s1, _. split; [done|]. split; [exact Halloc|]. split; [|right; rewrite Hf1, length_app; cbn; lia].
      constructor; try done. by exists [].
    + destruct Halloc as (s2 & new2 & Hrun2 & [Hwf2 Hc2 (kept & Hk & Hp2 & Hi2 & Hw2) Hl2 He2 Hlive2 Hn2] & Hf2).
      eexists _, s2, _. split; [done|]. split; [exact Hrun2|]. split; [|rewrite Hf1, length_app, Hf2; cbn; lia].
      rewrite Hc1 in Hc2, Hi2, Hw2, Hlive2. constructor; try congruence.
      * exists kept. rewrite Hk, Hp2, Hp1, list_insert_insert_eq. split_and!; [by rewrite !length_app|done| |done].
        rewrite Hi2, !fmap_app. cbn. rewrite Hcp1. f_equal. apply list_fmap_ext. intros i q Hq%list_elem_of_lookup_2.
        apply Hlive. left. eapply owned_page; [done|set_solver].
      * intros q Hq. rewrite Hlive2; [by apply Hlive|]. destruct Hq as [Hq|]; [|by right].
        destruct (decide (q = old)) as [->|Hqo]; [done|left].
        assert (q ∈ old :: owned L s1) as Hin by (rewrite Hown; set_solver). set_solver.
      * intros q Hq. etrans; [apply Hn2; rewrite Hf1 in Hq; set_solver|].
        assert (occurrences q (old :: owned L s1) = occurrences q (new :: owned L s)) as E by by rewrite Hown.
        rewrite !occurrences_cons in E. rewrite (decide_False (P := q = new)) in E; [lia|].
        intros ->. apply Hq. rewrite Hf1. set_solver.
  - destruct H1 as (-> & -> & Htail). pose proof (alloc_after L R s slot count pages len Hwf Hp Hl Htail) as Halloc.
    cbn zeta in Halloc. fold need in Halloc. case_decide as Hn'.
    + eexists _, s, _. split; [done|]. split; [exact Halloc|]. split; [|by right].
      constructor; try done. by exists [].
    + destruct Halloc as (s2 & new2 & Hrun2 & Happ & Hf2). eexists _, s2, _. by split.
  - destruct H1 as [-> [(-> & -> & Hf)|(-> & new & [Hwf1 Hc1 [Hfr1 Hfr2] Hp1 Hl1 Hf1 Ho1])]].
    + eexists _, s, _. split; [done|]. split; [done|]. split; [|right; rewrite Hf; cbn; lia].
      constructor; try done. by exists [].
    + eexists _, s1, _. split; [done|]. split; [done|]. split; [|by left]. constructor; try done.
      * by exists [new].
      * intros q Hq. apply Ho1. by eapply (elem_of_free L R s s1).
Qed.
End cow.
