(* ===== verification/PagedKvProps.v ===== *)
(** * The KV pool under its clients

    The calls the scheduler makes, the rules it keeps, and what holds in every
    state it reaches. *)

From S2P Require Import Prelude Lists KvFormat PagedKv PagedKvInv PagedKvCow.

Inductive pool_call :=
  | Append (slot count : nat)
  | Detached (count : nat)
  | Attach (slot : nat) (pages : list nat) (token_count : nat)
  | FreeSlot (slot : nat)
  | Truncate (slot new_len : nat)
  | Retain (pages : list nat)
  | Release (pages : list nat).

Section clients.
Context `{Driver}.

Definition call (c : pool_call) : pool_eff (list nat) :=
  match c with
  | Append slot count => append_tokens slot count
  | Detached count => alloc_detached_pages count
  | Attach slot pages token_count => attach_pages slot pages token_count;; mret []
  | FreeSlot slot => free_slot slot;; mret []
  | Truncate slot new_len => truncate_slot slot new_len
  | Retain pages => retain_pages pages;; mret []
  | Release pages => release_pages pages
  end.

(** The rules: slots exist; a shared prefix comes with exactly the pages of its
    tokens; only live pages are retained; only held pages are released; no
    counter of 32 bits overflows. *)
Definition allowed (retained : list nat) (s : TokenKVPool) (c : pool_call) : Prop :=
  match c with
  | Append slot _ | FreeSlot slot | Truncate slot _ => slot < num_slots (cfg s)
  | Detached count => (N.of_nat (count + length retained) <= u32_max)%N
  | Attach slot pages token_count =>
      slot < num_slots (cfg s) /\ length pages = div_ceil token_count (page_size (cfg s)) /\
      forall p, p ∈ pages -> (N.of_nat (length pages) + default 0 (page_attach_count s !! p) <= u32_max)%N
  | Retain pages =>
      (forall p, p ∈ pages -> p ∈ concat (page_indices s) \/ p ∈ retained) /\
      (N.of_nat (length pages + length retained) <= u32_max)%N
  | Release pages => exists rest, retained ≡ₚ pages ++ rest
  end.

(** Which pages are held from outside after a call. *)
Definition held_after (retained : list nat) (c : pool_call) (r : list nat + pool_error) (retained' : list nat) : Prop :=
  match c, r with
  | Detached _, inl new => retained' = new ++ retained
  | Retain pages, _ => retained' = pages ++ retained
  | Release pages, _ => retained ≡ₚ pages ++ retained'
  | _, _ => retained' = retained
  end.

(** The two error paths that lose pages. *)
Definition loses_pages (c : pool_call) (r : list nat + pool_error) : bool :=
  match c, r with
  | Append _ _, inr DriverRefused => true
  | Attach _ _ _, inr (PageNotLive _ | PageOutOfBounds _) => true
  | _, _ => false
  end.

Inductive reachable (s0 : TokenKVPool) : bool -> list nat -> TokenKVPool -> Prop :=
  | reachable_new : reachable s0 true [] s0
  | reachable_call clean retained s c s' r retained' :
      reachable s0 clean retained s -> allowed retained s c -> call c s = Done (s', r) ->
      held_after retained c r retained' -> reachable s0 (clean && negb (loses_pages c r)) retained' s'.

(** ** One call on a well-formed pool *)
Lemma retained_perm L R R' s : R ≡ₚ R' -> wf L R s -> wf L R' s.
Proof. intros HR [Hacc Hslots Hcfg Hbuf]. constructor; try done; by rewrite <-HR. Qed.

Lemma no_loss_nil (b : bool) (L L' : list nat) : (b = true -> L = []) -> L' = L -> (b && true = true -> L' = []).
Proof. intros H0 ->. by rewrite andb_true_r. Qed.

Lemma call_spec L R s c :
  wf L R s -> allowed R s c ->
  exists s' r, call c s = Done (s', r) /\ cfg s' = cfg s /\
    forall R', held_after R c r R' -> exists lost, wf (lost ++ L) R' s' /\ (loses_pages c r = false -> lost = []).
Proof.
  intros Hwf Hal. pose proof Hwf as [Hacc Hslots Hcfg Hbuf].
  destruct c as [slot count|count|slot pages tc|slot|slot new_len|pages|pages]; cbn in Hal |- *.
  - destruct (slot_tables L R s Hwf slot Hal) as (pages & len & Hp & Hl & _).
    destruct (append_spec L R s slot count pages len Hwf Hp Hl) as (n & s' & [new|e] & _ & Hrun & Hr);
      eexists s', _; (split; [exact Hrun|]).
    + destruct Hr as [[Hwf' Hc _ _ _ _] _]. split; [done|]. intros R' ->. by exists [].
    + destruct Hr as [[(lost & Hwf' & Hlost) Hc _ _] _]. split; [done|]. intros R' ->. exists lost. split; [done|].
      intros Hno. apply Hlost. by intros ->.
  - pose proof (alloc_detached_spec L R s count Hwf) as Hspec. case_decide.
    + eexists s, _. split; [exact Hspec|]. split; [done|]. intros R' ->. by exists [].
    + destruct Hspec as (s' & new & Hrun & Hwf' & _ & [Hc _ _ _ _ _] & _). eexists s', _. split; [exact Hrun|]. split; [done|].
      intros R' ->. by exists [].
  - destruct Hal as (Hslot & Hlen & Hroom). destruct (slot_tables L R s Hwf slot Hslot) as (old & len & Hp & Hl & _).
    destruct (attach_pages_spec L R s slot old len pages tc Hwf Hp Hl) as (s' & [u|e] & Hrun & Hr & _); [|done| |].
    { intros p Hin. specialize (Hroom p Hin). destruct (decide (p < max_total_pages (cfg s))) as [Hlt|Hge].
      - rewrite (attach_count s _ _ Hacc p Hlt) in Hroom. cbn in Hroom. lia.
      - rewrite (occurrences_notin p) by (by intros ?%(acc_attach_bound _ _ _ Hacc)). lia. }
    + destruct Hr as (_ & _ & Hwf' & [Hc _ _ _ _] & _). eexists s', _. split; [by run Hrun|]. split; [done|].
      intros R' ->. by exists [].
    + destruct Hr as (k & Hwf' & [Hc _ _ _ _ _] & _ & Hk). eexists s', _. split; [by run Hrun|]. split; [done|].
      intros R' ->. exists (take k pages). split; [done|]. destruct Hk as [->|(p & _ & _ & [->| ->])]; done.
  - destruct (slot_tables L R s Hwf slot Hal) as (pages & len & Hp & _ & _).
    destruct (free_slot_spec L R s slot pages Hwf Hp) as (s' & freed & Hrun & Hwf' & [Hc _ _ _ _] & _).
    eexists s', _. split; [by run Hrun|]. split; [done|]. intros R' ->. by exists [].
  - destruct (slot_tables L R s Hwf slot Hal) as (pages & len & Hp & Hl & _).
    pose proof (truncate_slot_spec L R s slot pages len new_len Hwf Hp Hl) as Hspec. case_decide.
    + eexists s, _. split; [exact Hspec|]. split; [done|]. intros R' ->. by exists [].
    + destruct Hspec as (s' & freed & Hrun & Hwf' & [Hc _ _ _ _] & _). eexists s', _. split; [exact Hrun|]. split; [done|].
      intros R' ->. by exists [].
  - destruct Hal as [Hlive Hmax']. destruct (retain_spec L R s pages Hwf) as (s' & Hrun & Hwf' & [Hc _ _ _ _ _] & _); [|intros p _; pose proof (occurrences_length p R); lia|].
    { intros p Hin. destruct (Hlive p Hin); [left|by right]. unfold owned. set_solver. }
    eexists s', _. split; [by run Hrun|]. split; [done|]. intros R' ->. by exists [].
  - destruct Hal as [rest Hrest].
    destruct (release_wf_spec L rest s pages (retained_perm _ _ _ _ Hrest Hwf)) as (s' & freed & Hrun & Hwf' & [Hc _ _ _ _ _] & _).
    eexists s', _. split; [exact Hrun|]. split; [done|]. intros R' HR'. exists []. split; [|done]. cbn.
    apply (retained_perm L rest); [|done]. apply (Permutation_app_inv_l pages). by rewrite <-Hrest.
Qed.

Lemma reachable_wf_pool s0 clean R s :
  wf [] [] s0 -> reachable s0 clean R s -> exists L, wf L R s /\ (clean = true -> L = []).
Proof.
  intros H0. induction 1 as [|clean R s c s' r R' _ (L & Hwf & HL) Hal Hrun HR']; [by exists []|].
  destruct (call_spec L R s c Hwf Hal) as (s'' & r' & Hrun' & _ & Hspec). rewrite Hrun in Hrun'. injection Hrun' as <- <-.
  destruct (Hspec R' HR') as (lost & Hwf' & Hlost). exists (lost ++ L). split; [done|].
  intros [Hclean Hno]%andb_true_iff. rewrite (HL Hclean), (Hlost (proj1 (negb_true_iff _) Hno)). done.
Qed.
End clients.

(** ** The pool as it is created *)
Record sound_config (c : PoolConfig) : Prop := mkSoundConfig {
  sc_ok : config_ok c;
  sc_tokens : max_total_tokens c = max_total_pages c * page_size c;
  sc_format : format c <> INT4;
  sc_bytes : (0 < N.of_nat (max_total_tokens c) * N.of_nat (kv_dim c) * bytes_per_element (format c) <= u64_max)%N;
}.

Lemma sound_data_bytes c : sound_config c ->
  data_bytes_per_layer c = max_total_pages c * page_data_elements c /\ 0 < data_bytes_per_layer c.
Proof.
  intros [_ Ht Hf [Hpos Hb]]. unfold data_bytes_per_layer, page_data_elements.
  assert (bytes_per_element (format c) <> 0)%N as Hbpe by nia.
  assert (pool_bytes_per_layer (N.of_nat (kv_dim c)) (N.of_nat (max_total_tokens c)) (format c) =
    N.of_nat (max_total_tokens c) * N.of_nat (kv_dim c) * bytes_per_element (format c))%N as ->.
  { unfold pool_bytes_per_layer. destruct (format c) eqn:E; try done;
      rewrite (usize_mul_small (N.of_nat (max_total_tokens c))) by nia; by apply usize_mul_small. }
  split; [|lia]. rewrite !N2Nat.inj_mul, !Nat2N.id, Ht. by rewrite !Nat.mul_assoc.
Qed.

Lemma fresh_wf c : sound_config c -> wf [] [] (fresh_pool c).
Proof.
  intros Hc. pose proof (sound_data_bytes c Hc) as [Hd Hpos]. destruct Hc as [[Hps Hlim] Ht Hf Hb].
  assert (N.to_nat (u32_of_usize (max_total_pages c)) = max_total_pages c) as Hcast.
  { unfold u32_of_usize, u32_wrap. rewrite N.mod_small by lia. apply Nat2N.id. }
  assert (owned [] (fresh_pool c) = []) as Hown.
  { unfold owned. cbn. generalize (num_slots c). intros n. induction n; by cbn. }
  constructor; [| |done|cbn -[alloc_buffers]].
  - rewrite Hown. constructor; cbn; try (by rewrite counts_nil); try set_solver.
    + rewrite reverse_Permutation. apply NoDup_seq.
    + intros p. rewrite Hcast, elem_of_reverse, elem_of_seq. set_solver by lia.
  - constructor; cbn; try apply length_replicate. intros slot pages len.
    intros [-> _]%lookup_replicate [-> _]%lookup_replicate. cbn. symmetry. apply div_ceil_unique; lia.
  - rewrite Hd. replace (max_total_tokens c * num_kv_heads c) with (max_total_pages c * page_scale_elements c)
      by (unfold page_scale_elements; rewrite Ht; by rewrite Nat.mul_assoc).
    destruct (alloc_buffers_holds (num_layers c) (max_total_pages c) (page_data_elements c) (page_scale_elements c) (format c))
      as (? & ? & ? & ? & ? & ?).
    rewrite Hd in Hpos. constructor; (split; [done|]); unfold alloc_buffers; cbn;
      rewrite bool_decide_eq_true_2 by done; try apply length_replicate; case_match; try apply length_replicate; done.
Qed.

(** ** Properties *)

(** C7: In every state the pool reaches while no call hits an error path that
    loses pages, the free stack holds each page that no slot attaches and
    nobody retains exactly once, the counters count the attachments and
    retentions, page tables fit their sequences; and no call panics. *)
Theorem pages_conserved `{Driver} (c : PoolConfig) (retained : list nat) (s : TokenKVPool) :
  sound_config c -> reachable (fresh_pool c) true retained s ->
  (NoDup (free_pages s) /\
   forall p, p ∈ free_pages s <-> p < max_total_pages (cfg s) /\ p ∉ concat (page_indices s) /\ p ∉ retained) /\
  (forall p, p < max_total_pages (cfg s) ->
     page_attach_count s !! p = Some (N.of_nat (occurrences p (concat (page_indices s)))) /\
     page_ref_count s !! p = Some (N.of_nat (occurrences p retained))) /\
  (forall slot pages len, page_indices s !! slot = Some pages -> seq_lens s !! slot = Some len ->
     length pages = div_ceil len (page_size (cfg s))) /\
  (forall k, allowed retained s k -> exists s' r, call k s = Done (s', r)).
Proof.
  intros Hc Hreach. destruct (reachable_wf_pool _ _ _ _ (fresh_wf c Hc) Hreach) as (L & Hwf & HL).
  rewrite (HL eq_refl) in Hwf. pose proof Hwf as [Hacc Hslots _ _]. change (owned [] s) with (concat (page_indices s)) in Hacc.
  split_and!; [by destruct Hacc|apply Hacc| |apply Hslots|].
  - intros p Hp. split; [by eapply attach_count|by eapply ref_count].
  - intros k Hk. destruct (call_spec [] retained s k Hwf Hk) as (s' & r & Hrun & _). by exists s', r.
Qed.

Lemma occurrences_one {A} `{EqDecision A} (x : A) (ts : list (list A)) i t j i' t' j' :
  occurrences x (concat ts) = 1 -> ts !! i = Some t -> t !! j = Some x -> ts !! i' = Some t' -> t' !! j' = Some x ->
  i' = i /\ j' = j.
Proof.
  assert (forall (l : list A) a b, occurrences x l <= 1 -> l !! a = Some x -> l !! b = Some x -> a = b) as Hflat.
  { induction l as [|y l IH]; intros a b Hle Ha Hb; [done|]. rewrite occurrences_cons in Hle.
    destruct a as [|a], b as [|b]; cbn in *; [done| | |f_equal; apply IH; [case_decide|..]; try done; lia];
      simplify_eq; rewrite decide_True in Hle by done;
      pose proof (occurrences_in x l ltac:(by eapply list_elem_of_lookup_2)); lia. }
  intros Hone Hi Hj Hi' Hj'. destruct (concat_split ts i t Hi) as (rest & Ha & Hb).
  rewrite Ha, occurrences_app in Hone. pose proof (occurrences_in x t ltac:(by eapply list_elem_of_lookup_2)).
  destruct (decide (i' = i)) as [->|Hne].
  - split; [done|]. simplify_eq. eapply (Hflat t); try done. lia.
  - assert (x ∈ rest).
    { assert (x ∈ concat (<[i := []]> ts)) as Hin; [|by rewrite Hb in Hin].
      apply list_elem_of_In, in_concat. exists t'. split; apply list_elem_of_In; [|by eapply list_elem_of_lookup_2].
      eapply list_elem_of_lookup_2. by rewrite list_lookup_insert_ne by done. }
    pose proof (occurrences_in x rest ltac:(done)). lia.
Qed.

(** C6: An append in any reachable state, even after errors: with enough free
    pages it succeeds unless the driver refuses the copy of a page; then every
    position it adds lies on a page that no other slot, no other position of
    the table and no outside holder can see, the data of the slot so far and of
    every other slot and retained page is unchanged, and so are the other
    tables. *)
Theorem append_is_private `{Driver} (c : PoolConfig) (clean : bool) (retained : list nat) (s : TokenKVPool)
  (slot count len : nat) (pages : list nat) :
  sound_config c -> reachable (fresh_pool c) clean retained s ->
  page_indices s !! slot = Some pages -> seq_lens s !! slot = Some len ->
  exists n s' r, append_pages_needed s slot count = Done n /\ append_tokens slot count s = Done (s', r) /\
  (n <= length (free_pages s) -> (exists new, r = inl new) \/ r = inr DriverRefused) /\
  (forall q, q ∈ concat (page_indices s) \/ q ∈ retained ->
     page_image (cfg s) (buffers s') q = page_image (cfg s) (buffers s) q) /\
  match r with
  | inl new => exists kept,
      page_indices s' = <[slot := kept ++ new]> (page_indices s) /\ seq_lens s' = <[slot := len + count]> (seq_lens s) /\
      page_image (cfg s) (buffers s') <$> kept = page_image (cfg s) (buffers s) <$> pages /\
      forall pos, len <= pos < len + count -> exists q,
        (kept ++ new) !! (pos / page_size (cfg s)) = Some q /\ q ∉ retained /\
        forall slot' table i, page_indices s' !! slot' = Some table -> table !! i = Some q ->
          slot' = slot /\ i = pos / page_size (cfg s)
  | inr _ => seq_lens s' = seq_lens s
  end.
Proof.
  intros Hc Hreach Hp Hl. destruct (reachable_wf_pool _ _ _ _ (fresh_wf c Hc) Hreach) as (L & Hwf & _).
  destruct (append_spec L retained s slot count pages len Hwf Hp Hl) as (n & s' & r & Hn & Hrun & Hr).
  exists n, s', r. split; [done|]. split; [done|].
  assert (forall q, q ∈ concat (page_indices s) \/ q ∈ retained -> q ∈ owned L s \/ q ∈ retained) as Hin
    by (intros q [|]; [left; unfold owned; set_solver|by right]).
  destruct r as [new|e].
  - destruct Hr as [[Hwf' Hc' (kept & Hk & Hp' & Himg & Hw) Hl' _ Hlive] _].
    split; [by eauto|]. split; [by eauto|]. exists kept. split_and!; [done..|].
    intros pos Hpos. destruct (Hw pos Hpos) as (q & Hq & Hone & HqR). exists q. split_and!; [done..|].
    intros slot' table i Htab Hi. unfold owned in Hone. rewrite occurrences_app in Hone.
    assert (page_indices s' !! slot = Some (kept ++ new)) as Hslot
      by (rewrite Hp'; apply list_lookup_insert_eq; by eapply lookup_lt_Some).
    eapply (occurrences_one q (page_indices s') slot (kept ++ new)); try done.
    assert (1 <= occurrences q (concat (page_indices s'))); [|lia].
    apply occurrences_in, list_elem_of_In, in_concat. exists table.
    split; apply list_elem_of_In; by eapply list_elem_of_lookup_2.
  - destruct Hr as [[_ _ Hl' Hlive] Hwhy]. split_and!; [|by eauto|done]. intros Hfree. right. f_equal.
    destruct Hwhy as [?|?]; [done|lia].
Qed.
