(* ===== verification/PagedKvHost.v ===== *)
(** * Pages between the device and the host

    Models [copy_pages_to_host] and [copy_pages_from_host] of
    [crates/cuda-kernels/src/paged_kv.rs] in the CUDA build: a page is sent as
    its slices of every buffer, layer by layer, as little-endian bytes. What
    was read from some pages and is written to as many others restores them
    bit for bit. The driver may refuse any of its calls. *)

From S2P Require Import Prelude Lists Bytes KvFormat PagedKv PagedKvInv PagedKvCow.

(** ** The tables of the pool *)
Inductive KVTable := KData | VData | KScales | VScales | KNorms | VNorms.
#[export] Instance KVTable_eq_dec : EqDecision KVTable.
Proof. solve_decision. Defined.

Definition table (t : KVTable) (b : KVBuffers) : list (list N) :=
  match t with
  | KData => k_data b | VData => v_data b | KScales => k_scales b
  | VScales => v_scales b | KNorms => k_norms b | VNorms => v_norms b
  end.
Definition set_table (t : KVTable) (d : list (list N)) (b : KVBuffers) : KVBuffers :=
  match t with
  | KData => set_k_data d b | VData => set_v_data d b | KScales => set_k_scales d b
  | VScales => set_v_scales d b | KNorms => set_k_norms d b | VNorms => set_v_norms d b
  end.

(** Elements of a page, and the bytes of one: [u8], [f32] or [u16]. *)
Definition table_item (c : PoolConfig) (t : KVTable) : nat :=
  match t with KData | VData => page_data_elements c | _ => page_scale_elements c end.
Definition table_width (t : KVTable) : nat :=
  match t with KData | VData => 1 | KScales | VScales => 4 | KNorms | VNorms => 2 end.

(** The tables of a format, in the order they are sent. *)
Definition tables_of (f : KVFormat) : list KVTable :=
  [KData; VData] ++ (if has_scales f then [KScales; VScales] else [])
    ++ (if has_norms f then [KNorms; VNorms] else []).

(** ** Copying *)

(** What the loops go through: page by page, layer by layer, table by table. *)
Definition cell : Type := nat * nat * KVTable.
Definition cells (c : PoolConfig) (pages : list nat) : list cell :=
  pages ≫= fun page => seq 0 (num_layers c) ≫= fun layer => (fun t => (page, layer, t)) <$> tables_of (format c).

Section copy.
Context `{Driver}.

(** [clone_dtoh] of one slice. *)
Definition read_cell (x : cell) : pool_eff (list N) :=
  let '(page, layer, t) := x in
  item ← gets (fun s => table_item (cfg s) t);
  buf ← reads (fun s => index (table t (buffers s)) layer);
  elements ← of_res (slice buf (page * item) (page * item + item));
  driver_call;;
  mret (elements ≫= to_le_bytes (table_width t)).

Fixpoint read_cells (l : list cell) : pool_eff (list N) :=
  match l with
  | [] => mret []
  | x :: l => bytes ← read_cell x; rest ← read_cells l; mret (bytes ++ rest)
  end.

Definition copy_pages_to_host (pages : list nat) : pool_eff (list N) :=
  c ← gets cfg;
  out ← read_cells (cells c pages);
  driver_call;;
  mret out.

(** [chunks_exact] with [from_le_bytes]. *)
Fixpoint elements_of_bytes (n width : nat) (bytes : list N) : list N :=
  match n with
  | 0 => []
  | S n => from_le_bytes (take width bytes) :: elements_of_bytes n width (drop width bytes)
  end.

(** [memcpy_htod] into one slice; the payload behind the cursor is returned. *)
Definition write_cell (x : cell) (payload : list N) : pool_eff (list N) :=
  let '(page, layer, t) := x in
  item ← gets (fun s => table_item (cfg s) t);
  let n := item * table_width t in
  bytes ← of_res (slice payload 0 n);
  tables ← gets (fun s => table t (buffers s));
  buf ← of_res (index tables layer);
  buf ← of_res (write_slice buf (page * item) (elements_of_bytes item (table_width t) bytes));
  driver_call;;
  modify (fun s => set_buffers (set_table t (<[layer := buf]> tables) (buffers s)) s);;
  mret (drop n payload).

Fixpoint write_cells (l : list cell) (payload : list N) : pool_eff unit :=
  match l with
  | [] => mret tt
  | x :: l => payload ← write_cell x payload; write_cells l payload
  end.

(** [storage_bytes_per_token] and [storage_bytes_per_page] of the pool, at 64
    bits. *)
Definition pool_storage_bytes_per_token (c : PoolConfig) : N :=
  let heads := N.of_nat (num_kv_heads c) in
  let data_bytes := usize_mul (usize_mul (N.of_nat (kv_dim c)) (bytes_per_element (format c))) 2 in
  let scale_bytes := if has_scales (format c) then usize_mul (usize_mul heads 4) 2 else 0%N in
  let norm_bytes := if has_norms (format c) then usize_mul (usize_mul heads 2) 2 else 0%N in
  usize_mul (u64_add (u64_add data_bytes scale_bytes) norm_bytes) (N.of_nat (num_layers c)).
Definition storage_bytes_for_tokens (c : PoolConfig) (token_count : nat) : N :=
  usize_mul (pool_storage_bytes_per_token c) (N.of_nat token_count).
Definition storage_bytes_per_page (c : PoolConfig) : N := storage_bytes_for_tokens c (page_size c).

Definition copy_pages_from_host (pages : list nat) (payload : list N) : pool_eff unit :=
  c ← gets cfg;
  let expected_len := usize_mul (N.of_nat (length pages)) (storage_bytes_per_page c) in
  if bool_decide (N.of_nat (length payload) <> expected_len)
  then throw (PayloadMismatch (length payload) (N.to_nat expected_len))
  else
    write_cells (cells c pages) payload;;
    driver_call.
End copy.

(** ** What is in a cell *)
Definition cell_of (c : PoolConfig) (b : KVBuffers) (x : cell) : option (list N) :=
  let '(page, layer, t) := x in page_of (table_item c t) page <$> table t b !! layer.

Definition cell_ok (c : PoolConfig) (x : cell) : Prop :=
  let '(page, layer, t) := x in page < max_total_pages c /\ layer < num_layers c /\ t ∈ tables_of (format c).

(** The elements are machine words of their width. *)
Definition elements_ok (b : KVBuffers) : Prop :=
  forall t buf x, buf ∈ table t b -> x ∈ buf -> (x < 256 ^ N.of_nat (table_width t))%N.

Lemma get_set_table t u d b : table t (set_table u d b) = if decide (t = u) then d else table t b.
Proof. by destruct t, u. Qed.

Section buffers.
Context (c : PoolConfig).
Implicit Types (b : KVBuffers) (t : KVTable).

Definition in_format t : bool :=
  match t with KData | VData => true | KScales | VScales => has_scales (format c) | KNorms | VNorms => has_norms (format c) end.

Lemma tables_of_elem t : t ∈ tables_of (format c) <-> in_format t = true.
Proof. unfold tables_of. destruct t; cbn; destruct (has_scales _), (has_norms _); set_solver. Qed.

(** Well-formed buffers, table by table. *)
Definition tables_ok b : Prop := forall t,
  holds_pages (table_item c t) (max_total_pages c) (table t b) /\
  length (table t b) = if in_format t then num_layers c else 0.

Lemma buffers_ok_tables b : buffers_ok c b <-> tables_ok b.
Proof.
  split.
  - intros [] t. by destruct t.
  - intros Hok. constructor; [apply (Hok KData)|apply (Hok VData)|apply (Hok KScales)|apply (Hok VScales)
      |apply (Hok KNorms)|apply (Hok VNorms)].
Qed.

(** A cell that is copied is there, whole. *)
Lemma cell_there b page layer t : tables_ok b -> cell_ok c (page, layer, t) ->
  exists buf, table t b !! layer = Some buf /\ length buf = max_total_pages c * table_item c t /\
    page * table_item c t + table_item c t <= length buf.
Proof.
  intros Hok (Hp & Hl & Ht%tables_of_elem). destruct (Hok t) as [Hh Hlen]. rewrite Ht in Hlen.
  destruct (lookup_lt_is_Some_2 (table t b) layer) as [buf Hb]; [lia|]. exists buf. split; [done|].
  unfold holds_pages in Hh. rewrite Forall_lookup in Hh. specialize (Hh layer buf Hb). split; [done|].
  rewrite Hh. apply (page_end (table_item c t) page (max_total_pages c) Hp).
Qed.
End buffers.

(** The bytes of a cell. *)
Definition encode (t : KVTable) (elements : list N) : list N := elements ≫= to_le_bytes (table_width t).

Lemma length_encode t elements : length (encode t elements) = length elements * table_width t.
Proof.
  unfold encode. induction elements as [|x l IH]; [done|]. rewrite bind_cons, length_app, length_to_le_bytes, IH. cbn. lia.
Qed.

Lemma decode_encode t elements rest :
  Forall (fun x => (x < 256 ^ N.of_nat (table_width t))%N) elements ->
  elements_of_bytes (length elements) (table_width t) (encode t elements ++ rest) = elements.
Proof.
  unfold encode. induction 1 as [|x l Hx _ IH]; [done|]. rewrite bind_cons, <-app_assoc. cbn [length elements_of_bytes].
  rewrite take_app_length', drop_app_length' by (symmetry; apply length_to_le_bytes).
  by rewrite IH, from_to_le_bytes.
Qed.

(** ** One cell *)
Section copy_props.
Context `{Driver}.

Lemma read_cell_spec s x :
  tables_ok (cfg s) (buffers s) -> cell_ok (cfg s) x ->
  exists n r, read_cell x s = Done (set_driver_calls n s, r) /\
    match r with
    | inl bytes => exists elements, cell_of (cfg s) (buffers s) x = Some elements /\ bytes = encode x.2 elements
    | inr e => e = DriverRefused
    end.
Proof.
  destruct x as [[page layer] t]. intros Hok Hx. destruct (cell_there _ _ _ _ _ Hok Hx) as (buf & Hb & _ & Hle).
  unfold read_cell. rewrite run_gets. rewrite (run_reads _ _ _ buf) by by apply index_Some.
  rewrite (run_of_res _ _ _ _ (slice_Done buf (page * table_item (cfg s) t) (page * table_item (cfg s) t + table_item (cfg s) t) ltac:(lia) Hle)). rewrite driver_call_run.
  destruct (refuses _); [by eexists _, _|]. eexists _, _. split; [done|]. eexists. cbn. rewrite Hb. cbn. split; [done|].
  unfold page_of. by replace (page * table_item (cfg s) t + table_item (cfg s) t - page * table_item (cfg s) t)
    with (table_item (cfg s) t) by lia.
Qed.

Lemma write_cell_spec s x elements rest :
  tables_ok (cfg s) (buffers s) -> cell_ok (cfg s) x -> length elements = table_item (cfg s) x.2 ->
  Forall (fun y => (y < 256 ^ N.of_nat (table_width x.2))%N) elements ->
  exists n b r, write_cell x (encode x.2 elements ++ rest) s = Done (device_only s n b, r) /\ tables_ok (cfg s) b /\
    match r with
    | inl rest' => rest' = rest /\
        forall y, cell_of (cfg s) b y = if decide (y = x) then Some elements else cell_of (cfg s) (buffers s) y
    | inr e => e = DriverRefused /\ b = buffers s
    end.
Proof.
  destruct x as [[page layer] t]. cbn [snd]. intros Hok Hx Hlen Hfit.
  destruct (cell_there _ _ _ _ _ Hok Hx) as (buf & Hb & Hbl & Hle). unfold write_cell. rewrite run_gets.
  set (item := table_item (cfg s) t) in *.
  assert (length (encode t elements) = item * table_width t) as He by (rewrite length_encode; lia).
  rewrite (run_of_res _ _ _ _ (slice_Done (encode t elements ++ rest) 0 (item * table_width t) ltac:(lia) ltac:(rewrite length_app; lia))).
  rewrite Nat.sub_0_r, drop_0, take_app_length' by lia. rewrite run_gets.
  rewrite (run_of_res _ _ _ buf) by by apply index_Some.
  assert (elements_of_bytes item (table_width t) (encode t elements) = elements) as ->.
  { rewrite <-Hlen, <-(app_nil_r (encode t elements)). by apply decode_encode. }
  rewrite (run_of_res _ _ _ _ (write_slice_Done buf (page * item) elements ltac:(lia))). rewrite driver_call_run.
  destruct (refuses _). { eexists _, (buffers s), _. split; [by rewrite <-(device_only_id s) at 1|]. done. }
  eexists _, (set_table t _ (buffers s)), _. split; [done|]. split; [|split; [apply drop_app_length'; lia|]].
  - intros u. rewrite get_set_table. case_decide as Hu; [subst u|apply Hok]. destruct (Hok t) as [Hh Hl]. split.
    + unfold holds_pages. apply Forall_insert; [done|]. rewrite length_written by lia. by rewrite Hbl.
    + by rewrite length_insert.
  - intros [[q l'] u]. unfold cell_of. rewrite get_set_table. destruct (decide (u = t)) as [->|Hu].
    2: { by rewrite decide_False by congruence. }
    destruct (decide (l' = layer)) as [->|Hl'].
    2: { rewrite list_lookup_insert_ne by done. by rewrite decide_False by congruence. }
    rewrite list_lookup_insert_eq by (by eapply lookup_lt_Some). cbn. rewrite page_of_written by (fold item; lia).
    rewrite Hb. case_decide as Hq; [by rewrite decide_True by congruence|]. by rewrite decide_False by congruence.
Qed.

(** ** All cells *)
Lemma read_cells_spec l : forall s,
  tables_ok (cfg s) (buffers s) -> Forall (cell_ok (cfg s)) l ->
  exists n r, read_cells l s = Done (set_driver_calls n s, r) /\
    match r with
    | inl bytes => exists contents, Forall2 (fun x e => cell_of (cfg s) (buffers s) x = Some e) l contents /\
        bytes = concat (zip_with (fun x e => encode x.2 e) l contents)
    | inr e => e = DriverRefused
    end.
Proof.
  induction l as [|x l IH]; intros s Hok Hl.
  { exists (driver_calls s), (inl []). split; [by destruct s|]. exists []. split; [constructor|done]. }
  apply Forall_cons in Hl as [Hx Hl]. destruct (read_cell_spec s x Hok Hx) as (n & r & Hrun & Hr). cbn [read_cells].
  destruct r as [bytes|e]; [|exists n, (inr e); split; [by apply run_bind_err|done]].
  rewrite (run_bind_ok _ _ _ _ _ Hrun). destruct Hr as (elements & He & ->).
  destruct (IH (set_driver_calls n s) Hok Hl) as (n' & r & Hrun' & Hr). change (set_driver_calls n' (set_driver_calls n s)) with (set_driver_calls n' s) in Hrun'.
  destruct r as [rest|e]; [|exists n', (inr e); split; [by apply run_bind_err|done]].
  rewrite (run_bind_ok _ _ _ _ _ Hrun'). destruct Hr as (contents & Hall & ->). eexists n', _. split; [done|].
  exists (elements :: contents). split; [by constructor|done].
Qed.

Lemma write_cells_spec (l : list (cell * list N)) : forall s rest,
  tables_ok (cfg s) (buffers s) -> NoDup l.*1 ->
  Forall (fun x => cell_ok (cfg s) x.1 /\ length x.2 = table_item (cfg s) x.1.2 /\
    Forall (fun y => (y < 256 ^ N.of_nat (table_width x.1.2))%N) x.2) l ->
  exists n b r, write_cells l.*1 (concat ((fun x => encode x.1.2 x.2) <$> l) ++ rest) s = Done (device_only s n b, r) /\
    tables_ok (cfg s) b /\
    (forall y, y ∉ l.*1 -> cell_of (cfg s) b y = cell_of (cfg s) (buffers s) y) /\
    match r with
    | inl _ => forall x, x ∈ l -> cell_of (cfg s) b x.1 = Some x.2
    | inr e => e = DriverRefused
    end.
Proof.
  induction l as [|[x elements] l IH]; intros s rest Hok Hnd Hl.
  { exists (driver_calls s), (buffers s), (inl tt). split; [by rewrite device_only_id|]. split_and!; [done|done|set_solver]. }
  apply Forall_cons in Hl as [(Hx & Hlen & Hfit) Hl]. apply NoDup_cons in Hnd as [Hnew Hnd]. cbn [fst snd] in *.
  cbn [fmap list_fmap concat write_cells fst snd]. rewrite <-app_assoc.
  destruct (write_cell_spec s x elements (concat ((fun x => encode x.1.2 x.2) <$> l) ++ rest) Hok Hx Hlen Hfit)
    as (n & b & r & Hrun & Hok' & Hr).
  destruct r as [rest'|e]; [|exists n, b, (inr e); split; [by apply run_bind_err|]; destruct Hr as [-> ->]; by split_and!].
  destruct Hr as [-> Hb]. rewrite (run_bind_ok _ _ _ _ _ Hrun).
  destruct (IH (device_only s n b) rest Hok' Hnd Hl) as (n' & b' & r & -> & Hok'' & Hout & Hr). rewrite device_only_twice.
  exists n', b', r. split; [done|]. split; [done|]. split.
  - intros y [Hyx Hy]%not_elem_of_cons. etransitivity; [by apply Hout|]. cbn. rewrite Hb. by rewrite decide_False.
  - destruct r as [_|e]; [|done]. intros y [->|Hy]%elem_of_cons; [|by apply Hr]. cbn.
    etransitivity; [by apply Hout|]. cbn. rewrite Hb. by rewrite decide_True.
Qed.

(** ** Pages *)
Lemma cells_ok c pages : Forall (fun p => p < max_total_pages c) pages -> Forall (cell_ok c) (cells c pages).
Proof.
  intros Hp. rewrite Forall_forall in Hp. apply Forall_forall. intros [[page layer] t].
  unfold cells. rewrite list_elem_of_bind. intros (page' & Hin & Hpage). rewrite list_elem_of_bind in Hin.
  destruct Hin as (layer' & Hin & Hlayer%elem_of_seq). apply list_elem_of_fmap in Hin as (t' & [= -> -> ->] & Ht).
  cbn. split_and!; [by apply Hp|lia|done].
Qed.

Lemma cells_elem c pages page layer t :
  page ∈ pages -> layer < num_layers c -> t ∈ tables_of (format c) -> (page, layer, t) ∈ cells c pages.
Proof.
  intros. unfold cells. apply list_elem_of_bind. exists page. split; [|done]. apply list_elem_of_bind. exists layer.
  split; [by apply list_elem_of_fmap_2|]. apply elem_of_seq. lia.
Qed.

Lemma cells_page c pages x : x ∈ cells c pages -> x.1.1 ∈ pages.
Proof.
  unfold cells. intros (page & (layer & (t & -> & _)%list_elem_of_fmap & _)%list_elem_of_bind & Hp)%list_elem_of_bind. done.
Qed.

Lemma tables_of_NoDup f : NoDup (tables_of f).
Proof. unfold tables_of. destruct (has_scales f), (has_norms f); apply (bool_decide_unpack _); vm_compute; exact I. Qed.

Lemma cells_NoDup c pages : NoDup pages -> NoDup (cells c pages).
Proof.
  intros Hnd. apply NoDup_bind; [| |done].
  - intros p q x _ _ Hp Hq. apply list_elem_of_bind in Hp as (? & (? & -> & _)%list_elem_of_fmap & _).
    by apply list_elem_of_bind in Hq as (? & (? & [= -> _ _] & _)%list_elem_of_fmap & _).
  - intros p _. apply NoDup_bind; [| |apply NoDup_seq].
    + intros i j x _ _ (? & -> & _)%list_elem_of_fmap (? & [= -> _] & _)%list_elem_of_fmap. done.
    + intros i _. apply NoDup_fmap; [by intros ? ? [=]|apply tables_of_NoDup].
Qed.

(** The cells of pages that correspond. *)
Lemma cells_paired c pages pages' : length pages = length pages' ->
  Forall2 (fun x y => x.1.2 = y.1.2 /\ x.2 = y.2 /\ (x.1.1, y.1.1) ∈ zip pages pages') (cells c pages) (cells c pages').
Proof.
  revert pages'. induction pages as [|p pages IH]; intros [|q pages'] Hl; try done.
  unfold cells. rewrite !bind_cons. apply Forall2_app.
  - generalize (seq 0 (num_layers c)). intros ls. induction ls as [|i ls IHl]; [constructor|]. rewrite !bind_cons.
    apply Forall2_app; [|done]. apply Forall2_fmap. apply Forall_Forall2_diag, Forall_forall. intros t _. cbn.
    split_and!; [done|done|left].
  - eapply Forall2_impl; [apply IH; by injection Hl|]. intros x y (? & ? & ?). split_and!; [done|done|by right].
Qed.

(** Two pages with the same cells look the same. *)
Lemma page_image_cells c b b' p p' :
  tables_ok c b -> tables_ok c b' ->
  (forall layer t, layer < num_layers c -> t ∈ tables_of (format c) ->
     cell_of c b' (p', layer, t) = cell_of c b (p, layer, t)) ->
  page_image c b' p' = page_image c b p.
Proof.
  intros Hok Hok' Hcell.
  assert (forall t, layers_page (table_item c t) p' (table t b') = layers_page (table_item c t) p (table t b)) as Ht.
  { intros t. destruct (Hok t) as [_ Hl], (Hok' t) as [_ Hl']. unfold layers_page. apply list_eq. intros layer.
    rewrite !list_lookup_fmap. destruct (in_format c t) eqn:Hf.
    - destruct (decide (layer < num_layers c)) as [Hlt|]; [apply Hcell; [done|by apply tables_of_elem]|].
      rewrite !lookup_ge_None_2 by lia. done.
    - rewrite !lookup_ge_None_2 by lia. done. }
  unfold page_image. repeat (apply cons_eq; [apply (Ht KData) || apply (Ht VData) || apply (Ht KScales) ||
    apply (Ht VScales) || apply (Ht KNorms) || apply (Ht VNorms)|]). done.
Qed.
End copy_props.

(** ** Sizes *)
Section sizes.
Context (c : PoolConfig).

Definition cell_bytes (x : cell) : nat := table_item c x.2 * table_width x.2.

Lemma payload_length (l : list cell) (contents : list (list N)) :
  Forall2 (fun x e => length e = table_item c x.2) l contents ->
  length (concat (zip_with (fun x e => encode x.2 e) l contents)) = sum_list (cell_bytes <$> l).
Proof.
  induction 1 as [|x e l contents He _ IH]; [done|]. cbn. rewrite length_app, length_encode, IH, He. done.
Qed.

(** The bytes of a page, exactly. *)
Definition page_bytes : nat := sum_list ((fun t => table_item c t * table_width t) <$> tables_of (format c)) * num_layers c.

Lemma cells_bytes pages : sum_list (cell_bytes <$> cells c pages) = length pages * page_bytes.
Proof.
  induction pages as [|p pages IH]; [done|]. unfold cells in *. rewrite bind_cons, fmap_app, sum_list_with_app, IH. cbn [length].
  assert (forall n i, sum_list (cell_bytes <$> (seq i n ≫= fun layer => (fun t => (p, layer, t)) <$> tables_of (format c))) =
    sum_list ((fun t => table_item c t * table_width t) <$> tables_of (format c)) * n) as Hl.
  { induction n as [|n IHn]; intros i; [cbn; lia|]. cbn [seq]. rewrite bind_cons, fmap_app, sum_list_with_app, IHn.
    rewrite <-list_fmap_compose. unfold compose. cbn [cell_bytes snd]. unfold cell_bytes. cbn [snd]. lia. }
  rewrite Hl. unfold page_bytes. lia.
Qed.

Lemma wrap_mul_l a b : usize_mul (u64_wrap a) b = u64_wrap (a * b).
Proof. unfold usize_mul, u64_wrap. apply N.Div0.mul_mod_idemp_l. Qed.
Lemma wrap_mul_r a b : usize_mul a (u64_wrap b) = u64_wrap (a * b).
Proof. unfold usize_mul, u64_wrap. apply N.Div0.mul_mod_idemp_r. Qed.
Lemma wrap_add a b : u64_add (u64_wrap a) (u64_wrap b) = u64_wrap (a + b).
Proof. unfold u64_add, u64_wrap. symmetry. apply N.Div0.add_mod. Qed.

(** [storage_bytes_per_page] is that number, up to 64 bits. *)
Lemma storage_bytes_exact : storage_bytes_per_page c = u64_wrap (N.of_nat page_bytes).
Proof.
  unfold storage_bytes_per_page, storage_bytes_for_tokens, pool_storage_bytes_per_token.
  change 0%N with (u64_wrap 0). set (w := u64_wrap 0).
  assert (forall a b, usize_mul a b = u64_wrap (a * b)) as Hm by done.
  rewrite (Hm (N.of_nat (kv_dim c))), (Hm (N.of_nat (num_kv_heads c)) 4%N), (Hm (N.of_nat (num_kv_heads c)) 2%N), !wrap_mul_l.
  subst w. rewrite <-!(Bool.if_negb _ _ (u64_wrap 0)). unfold page_bytes, tables_of.
  destruct (has_scales _), (has_norms _); cbn [negb]; rewrite !wrap_add, !wrap_mul_l; f_equal; cbn;
    unfold page_data_elements, page_scale_elements; lia.
Qed.

(** A payload of the exact size has the expected length. *)
Lemma expected_length n len : len = n * page_bytes -> (N.of_nat len <= u64_max)%N ->
  N.of_nat len = usize_mul (N.of_nat n) (storage_bytes_per_page c).
Proof.
  intros -> Hmax. rewrite storage_bytes_exact, wrap_mul_r. unfold u64_wrap. rewrite N.mod_small; [lia|].
  unfold u64_max in Hmax. lia.
Qed.
End sizes.

(** ** There and back *)
Section roundtrip.
Context `{Driver}.

Lemma cell_of_length c b x e : tables_ok c b -> cell_ok c x -> cell_of c b x = Some e ->
  length e = table_item c x.2 /\ (elements_ok b -> Forall (fun y => (y < 256 ^ N.of_nat (table_width x.2))%N) e).
Proof.
  destruct x as [[page layer] t]. intros Hok Hx. destruct (cell_there _ _ _ _ _ Hok Hx) as (buf & Hb & _ & Hle).
  cbn. rewrite Hb. cbn. intros [= <-]. unfold page_of. split; [rewrite length_take, length_drop; lia|].
  intros Hel. apply Forall_take, Forall_drop, Forall_forall. intros y Hy. apply (Hel t buf y); [|done].
  by eapply list_elem_of_lookup_2.
Qed.

(** What is read fits its cells. *)
Lemma contents_fit c b l contents : tables_ok c b -> Forall (cell_ok c) l ->
  Forall2 (fun x e => cell_of c b x = Some e) l contents ->
  Forall2 (fun x e => cell_of c b x = Some e /\ length e = table_item c x.2 /\
    (elements_ok b -> Forall (fun y => (y < 256 ^ N.of_nat (table_width x.2))%N) e)) l contents.
Proof.
  intros Hok Hl. induction 1 as [|x e l contents He _ IH]; [constructor|]. apply Forall_cons in Hl as [Hx Hl].
  constructor; [|by apply IH]. split; [done|]. by apply cell_of_length.
Qed.

Lemma copy_pages_to_host_spec s pages :
  tables_ok (cfg s) (buffers s) -> Forall (fun p => p < max_total_pages (cfg s)) pages ->
  exists n r, copy_pages_to_host pages s = Done (set_driver_calls n s, r) /\
    match r with
    | inl payload => exists contents,
        Forall2 (fun x e => cell_of (cfg s) (buffers s) x = Some e) (cells (cfg s) pages) contents /\
        payload = concat (zip_with (fun x e => encode x.2 e) (cells (cfg s) pages) contents) /\
        length payload = length pages * page_bytes (cfg s)
    | inr e => e = DriverRefused
    end.
Proof.
  intros Hok Hp. pose proof (cells_ok _ _ Hp) as Hcells. unfold copy_pages_to_host. rewrite run_gets.
  destruct (read_cells_spec _ s Hok Hcells) as (n & r & Hrun & Hr).
  destruct r as [out|e]; [|exists n, (inr e); split; [by apply run_bind_err|done]].
  rewrite (run_bind_ok _ _ _ _ _ Hrun), driver_call_run. destruct (refuses _); [by eexists _, (inr _)|].
  eexists _, (inl out). split; [done|]. destruct Hr as (contents & Hall & ->). exists contents. split; [done|].
  split; [done|]. rewrite (payload_length (cfg s)); [apply cells_bytes|].
  eapply Forall2_impl; [by apply (contents_fit _ _ _ _ Hok Hcells Hall)|]. by intros x e [_ [? _]].
Qed.

(** Nothing but the pages written changes. *)
Lemma copy_pages_from_host_spec s pages contents :
  tables_ok (cfg s) (buffers s) -> Forall (fun p => p < max_total_pages (cfg s)) pages -> NoDup pages ->
  Forall2 (fun x e => length e = table_item (cfg s) x.2 /\
    Forall (fun y => (y < 256 ^ N.of_nat (table_width x.2))%N) e) (cells (cfg s) pages) contents ->
  let payload := concat (zip_with (fun x e => encode x.2 e) (cells (cfg s) pages) contents) in
  (N.of_nat (length payload) <= u64_max)%N ->
  exists n b r, copy_pages_from_host pages payload s = Done (device_only s n b, r) /\
    tables_ok (cfg s) b /\
    (forall p, p ∉ pages -> page_image (cfg s) b p = page_image (cfg s) (buffers s) p) /\
    match r with
    | inl _ => Forall2 (fun x e => cell_of (cfg s) b x = Some e) (cells (cfg s) pages) contents
    | inr e => e = DriverRefused
    end.
Proof.
  intros Hok Hp Hnd Hfit payload Hmax. pose proof (cells_ok _ _ Hp) as Hcells.
  pose proof (Forall2_length _ _ _ Hfit) as Hlen.
  assert (length payload = length pages * page_bytes (cfg s)) as Hpay.
  { subst payload. rewrite (payload_length (cfg s)); [apply cells_bytes|]. eapply Forall2_impl; [exact Hfit|]. by intros ? ? [? _]. }
  assert ((zip (cells (cfg s) pages) contents).*1 = cells (cfg s) pages) as Hfst by (apply fst_zip, Nat.eq_le_incl, Hlen).
  unfold copy_pages_from_host. rewrite run_gets. cbn zeta.
  rewrite bool_decide_eq_false_2 by (intros []; by apply expected_length).
  destruct (write_cells_spec (zip (cells (cfg s) pages) contents) s [] Hok) as (n & b & r & Hrun & Hok' & Hout & Hr).
  { rewrite Hfst. by apply cells_NoDup. }
  { apply Forall_forall. intros [x e] (i & Hi)%list_elem_of_lookup. apply lookup_zip_with_Some in Hi as (x' & e' & [= <- <-] & Hx & He).
    cbn. split; [by eapply Forall_lookup_1|]. by destruct (Forall2_lookup_lr _ _ _ _ _ _ Hfit Hx He). }
  rewrite Hfst in Hrun, Hout. rewrite app_nil_r in Hrun.
  assert (concat ((fun x : cell * list N => encode x.1.2 x.2) <$> zip (cells (cfg s) pages) contents) = payload) as Heq.
  { subst payload. f_equal. etransitivity; [|symmetry; apply (zip_with_zip (fun (x : cell) e => encode x.2 e))]. apply list_fmap_ext. by intros _ [x e] _. }
  assert (write_cells (cells (cfg s) pages) payload s = Done (device_only s n b, r)) as Hrun2 by (rewrite <-Heq; exact Hrun).
  assert (forall p, p ∉ pages -> page_image (cfg s) b p = page_image (cfg s) (buffers s) p) as Hother.
  { intros p Hpp. apply page_image_cells; [done|done|]. intros layer t _ _. apply Hout. by intros ?%cells_page. }
  destruct r as [u|e]; [|exists n, b, (inr e); split; [by apply (run_bind_err _ _ _ _ _ Hrun2)|done]].
  rewrite (run_bind_ok _ _ _ _ _ Hrun2). unfold driver_call. rewrite run_gets.
  cbn. case_match; eexists _, b, _; (split; [reflexivity|]); [done|]. split_and!; [done|done|].
  apply Forall2_same_length_lookup. split; [done|]. intros i x e Hx He. apply (Hr (x, e)).
  apply list_elem_of_lookup. exists i. apply lookup_zip_with_Some. by exists x, e.
Qed.
(** The tables decide how contents are encoded. *)
Lemma encode_paired (P : cell -> cell -> Prop) (l l' : list cell) contents :
  Forall2 (fun x y => x.1.2 = y.1.2 /\ x.2 = y.2 /\ P x y) l l' ->
  zip_with (fun x e => encode x.2 e) l contents = zip_with (fun x e => encode x.2 e) l' contents.
Proof.
  intros Hp. revert contents. induction Hp as [|x y l l' (_ & Ht & _) _ IH]; intros [|e contents]; [done..|].
  cbn. by rewrite Ht, IH.
Qed.

Lemma fit_paired (P : cell -> cell -> Prop) (Q : KVTable -> list N -> Prop) (l l' : list cell) contents :
  Forall2 (fun x y => x.1.2 = y.1.2 /\ x.2 = y.2 /\ P x y) l l' ->
  Forall2 (fun x e => Q x.2 e) l contents -> Forall2 (fun x e => Q x.2 e) l' contents.
Proof.
  intros Hp. revert contents. induction Hp as [|x y l l' (_ & Ht & _) _ IH]; intros contents Hq; inversion Hq; subst; [constructor|].
  constructor; [by rewrite <-Ht|by apply IH].
Qed.

(** Pages whose cells agree, position by position, look the same. *)
Lemma images_agree c b b' pages pages' contents :
  tables_ok c b -> tables_ok c b' -> NoDup pages' -> length pages = length pages' ->
  Forall2 (fun x e => cell_of c b x = Some e) (cells c pages) contents ->
  Forall2 (fun x e => cell_of c b' x = Some e) (cells c pages') contents ->
  page_image c b' <$> pages' = page_image c b <$> pages.
Proof.
  intros Hok Hok' Hnd Hlen Hread Hwritten. apply list_eq_same_length with (length pages); [by rewrite !length_fmap..|].
  intros i im im' _. rewrite !list_lookup_fmap. intros (p' & Hp' & ->)%fmap_Some (p & Hp & ->)%fmap_Some.
  apply page_image_cells; [done|done|]. intros layer t Hl Ht.
  assert ((p', layer, t) ∈ cells c pages') as (k & Hk)%list_elem_of_lookup
    by (apply cells_elem; [by eapply list_elem_of_lookup_2|done|done]).
  destruct (Forall2_lookup_r _ _ _ _ _ (cells_paired c _ _ Hlen) Hk) as ([[q layer'] t'] & Hq & Hlay & Ht' & Hz).
  cbn in Hlay, Ht', Hz. subst layer' t'. apply list_elem_of_lookup in Hz as (j & Hj).
  apply lookup_zip_with_Some in Hj as (q' & p'' & [= <- <-] & Hq' & Hp'').
  rewrite (NoDup_lookup _ _ _ _ Hnd Hp'' Hp') in Hq'. simplify_eq.
  destruct (Forall2_lookup_l _ _ _ _ _ Hread Hq) as (e & He & ->).
  destruct (Forall2_lookup_l _ _ _ _ _ Hwritten Hk) as (e' & He' & ->). congruence.
Qed.

Lemma host_copy_ok s s1 s2 pages pages' payload :
  buffers_ok (cfg s) (buffers s) -> elements_ok (buffers s) ->
  Forall (fun p => p < max_total_pages (cfg s)) pages ->
  copy_pages_to_host pages s = Done (s1, inl payload) ->
  (N.of_nat (length payload) <= u64_max)%N ->
  cfg s2 = cfg s -> buffers_ok (cfg s2) (buffers s2) ->
  Forall (fun p => p < max_total_pages (cfg s2)) pages' -> NoDup pages' -> length pages = length pages' ->
  exists n b r, copy_pages_from_host pages' payload s2 = Done (device_only s2 n b, r) /\
    buffers_ok (cfg s2) b /\
    (forall p, p ∉ pages' -> page_image (cfg s2) b p = page_image (cfg s2) (buffers s2) p) /\
    match r with
    | inl _ => page_image (cfg s2) b <$> pages' = page_image (cfg s) (buffers s) <$> pages
    | inr e => e = DriverRefused
    end.
Proof.
  rewrite !buffers_ok_tables. intros Hok Hel Hp Hread Hmax Hc Hok2 Hp' Hnd Hlen.
  destruct (copy_pages_to_host_spec s pages Hok Hp) as (n1 & r1 & Hrun & Hr). rewrite Hread in Hrun. injection Hrun as -> <-.
  destruct Hr as (contents & Hall & -> & Hpay). rewrite Hc in *.
  pose proof (contents_fit _ _ _ _ Hok (cells_ok _ _ Hp) Hall) as Hfit.
  assert (Forall2 (fun x e => length e = table_item (cfg s) x.2 /\
    Forall (fun y => (y < 256 ^ N.of_nat (table_width x.2))%N) e) (cells (cfg s) pages') contents) as Hfit'.
  { apply (fit_paired _ (fun t e => length e = table_item (cfg s) t /\
      Forall (fun y => (y < 256 ^ N.of_nat (table_width t))%N) e) _ _ _ (cells_paired _ _ _ Hlen)).
    eapply Forall2_impl; [exact Hfit|]. intros x e (_ & Hx & Hb). split; [done|by apply Hb]. }
  assert (concat (zip_with (fun x e => encode x.2 e) (cells (cfg s) pages) contents) =
    concat (zip_with (fun x e => encode x.2 e) (cells (cfg s) pages') contents)) as Heq.
  { f_equal. apply (encode_paired _ _ _ _ (cells_paired _ _ _ Hlen)). }
  rewrite Heq in Hmax |- *.
  rewrite <-Hc in Hfit', Hmax |- *.
  destruct (copy_pages_from_host_spec s2 pages' contents) as (n & b & r & Hrun & Hok' & Hother & Hr);
    [by rewrite Hc|by rewrite Hc|done|done|done|].
  exists n, b, r. rewrite buffers_ok_tables. split; [done|]. split; [done|]. split; [done|].
  destruct r as [u|e]; [|done]. rewrite Hc in *. by eapply images_agree.
Qed.
(** C18: Pages survive the way through host memory: if the pages [pages] of a
    pool were copied to the host, and the payload is copied to as many pairwise
    distinct pages [pages'] of a pool with the same configuration, whatever
    happened to either pool in between, then the length check accepts the
    payload and no slice is out of bounds; unless the driver refuses a call,
    page [i] of [pages'] afterwards holds, in every buffer and layer, bit for
    bit what page [i] of [pages] held; the other pages, the page tables and the
    counters are untouched in either case. *)
Theorem host_copy_roundtrip s s1 s2 pages pages' payload :
  buffers_ok (cfg s) (buffers s) -> elements_ok (buffers s) ->
  Forall (fun p => p < max_total_pages (cfg s)) pages ->
  copy_pages_to_host pages s = Done (s1, inl payload) ->
  (N.of_nat (length payload) <= u64_max)%N ->
  cfg s2 = cfg s -> buffers_ok (cfg s2) (buffers s2) ->
  Forall (fun p => p < max_total_pages (cfg s2)) pages' -> NoDup pages' -> length pages = length pages' ->
  exists n b r, copy_pages_from_host pages' payload s2 = Done (device_only s2 n b, r) /\
    buffers_ok (cfg s2) b /\
    (forall p, p ∉ pages' -> page_image (cfg s2) b p = page_image (cfg s2) (buffers s2) p) /\
    match r with
    | inl _ => page_image (cfg s2) b <$> pages' = page_image (cfg s) (buffers s) <$> pages
    | inr e => e = DriverRefused
    end.
Proof. exact (host_copy_ok s s1 s2 pages pages' payload). Qed.
End roundtrip.

(** ** Any payload

    Whatever the bytes are, a copy that ends changes only the pages it was
    given. *)
Section any_payload.
Context `{Driver}.

Lemma length_elements_of_bytes n width bytes : length (elements_of_bytes n width bytes) = n.
Proof. revert bytes. induction n as [|n IH]; intros bytes; [done|]. cbn. by rewrite IH. Qed.

Lemma write_cell_inv s x payload s' r :
  tables_ok (cfg s) (buffers s) -> cell_ok (cfg s) x -> write_cell x payload s = Done (s', r) ->
  exists n b, s' = device_only s n b /\ tables_ok (cfg s) b /\
    forall y, y <> x -> cell_of (cfg s) b y = cell_of (cfg s) (buffers s) y.
Proof.
  destruct x as [[page layer] t]. intros Hok Hx.
  destruct (cell_there _ _ _ _ _ Hok Hx) as (buf & Hb & Hbl & Hle). unfold write_cell. rewrite run_gets.
  set (item := table_item (cfg s) t) in *. destruct (slice payload 0 (item * table_width t)) as [bytes| |] eqn:Hs; [|done..].
  rewrite (run_of_res _ _ _ bytes) by done. rewrite run_gets, (run_of_res _ _ _ buf) by by apply index_Some.
  set (es := elements_of_bytes item (table_width t) bytes). pose proof (length_elements_of_bytes item (table_width t) bytes) as Hlen. fold es in Hlen.
  rewrite (run_of_res _ _ _ _ (write_slice_Done buf (page * item) es ltac:(lia))). rewrite driver_call_run.
  destruct (refuses _).
  { intros [= <- <-]. eexists _, (buffers s). split; [by rewrite <-(device_only_id s) at 1|]. done. }
  intros [= <- <-]. eexists _, (set_table t _ (buffers s)). split; [reflexivity|]. split.
  - intros u. rewrite get_set_table. case_decide as Hu; [subst u|apply Hok]. destruct (Hok t) as [Hh Hl]. split.
    + unfold holds_pages. apply Forall_insert; [done|]. rewrite length_written by lia. by rewrite Hbl.
    + by rewrite length_insert.
  - intros [[q l'] u] Hne. unfold cell_of. rewrite get_set_table. destruct (decide (u = t)) as [->|Hu]; [|done].
    destruct (decide (l' = layer)) as [->|Hl']; [|by rewrite list_lookup_insert_ne].
    rewrite list_lookup_insert_eq by (by eapply lookup_lt_Some). cbn. rewrite page_of_written by (fold item; lia).
    rewrite Hb. rewrite decide_False by congruence. done.
Qed.

Lemma write_cells_inv l : forall s payload s' r,
  tables_ok (cfg s) (buffers s) -> Forall (cell_ok (cfg s)) l -> write_cells l payload s = Done (s', r) ->
  exists n b, s' = device_only s n b /\ tables_ok (cfg s) b /\
    forall y, y ∉ l -> cell_of (cfg s) b y = cell_of (cfg s) (buffers s) y.
Proof.
  induction l as [|x l IH]; intros s payload s' r Hok Hl.
  { intros [= <- <-]. exists (driver_calls s), (buffers s). split; [by rewrite device_only_id|]. done. }
  apply Forall_cons in Hl as [Hx Hl]. cbn [write_cells].
  intros [(s1 & rest & Hrun & Hrest)|(e & Hrun & ->)]%run_bind_inv;
    destruct (write_cell_inv _ _ _ _ _ Hok Hx Hrun) as (n & b & -> & Hok' & Hb).
  - destruct (IH (device_only s n b) rest s' r Hok' Hl Hrest) as (n' & b' & -> & Hok'' & Hb').
    exists n', b'. split; [done|]. split; [done|]. intros y [Hyx Hy]%not_elem_of_cons.
    etransitivity; [by apply Hb'|]. by apply Hb.
  - exists n, b. split; [done|]. split; [done|]. intros y [Hyx _]%not_elem_of_cons. by apply Hb.
Qed.

Lemma copy_pages_from_host_inv s pages payload s' r :
  tables_ok (cfg s) (buffers s) -> Forall (fun p => p < max_total_pages (cfg s)) pages ->
  copy_pages_from_host pages payload s = Done (s', r) ->
  exists n b, s' = device_only s n b /\ tables_ok (cfg s) b /\
    forall p, p ∉ pages -> page_image (cfg s) b p = page_image (cfg s) (buffers s) p.
Proof.
  intros Hok Hp. pose proof (cells_ok _ _ Hp) as Hcells. unfold copy_pages_from_host. rewrite run_gets. case_bool_decide.
  { intros [= <- <-]. exists (driver_calls s), (buffers s). split; [by rewrite device_only_id|]. done. }
  assert (forall b, tables_ok (cfg s) b -> (forall y, y ∉ cells (cfg s) pages -> cell_of (cfg s) b y = cell_of (cfg s) (buffers s) y) ->
    forall p, p ∉ pages -> page_image (cfg s) b p = page_image (cfg s) (buffers s) p) as Himg.
  { intros b Hok' Hb p Hpp. apply page_image_cells; [done..|]. intros layer t _ _. apply Hb. by intros ?%cells_page. }
  intros [(s1 & rest & Hrun & Hrest)|(e & Hrun & ->)]%run_bind_inv;
    destruct (write_cells_inv _ _ _ _ _ Hok Hcells Hrun) as (n & b & -> & Hok' & Hb).
  - revert Hrest. unfold driver_call. rewrite run_gets. cbn. case_match; intros [= <- <-];
      eexists _, b; (split; [reflexivity|]); (split; [done|by apply Himg]).
  - exists n, b. split; [done|]. split; [done|by apply Himg].
Qed.

Lemma copy_pages_to_host_inv s pages s' r :
  tables_ok (cfg s) (buffers s) -> Forall (fun p => p < max_total_pages (cfg s)) pages ->
  copy_pages_to_host pages s = Done (s', r) -> exists n, s' = set_driver_calls n s.
Proof.
  intros Hok Hp Hrun. destruct (copy_pages_to_host_spec s pages Hok Hp) as (n & r' & Hrun' & _).
  rewrite Hrun in Hrun'. injection Hrun' as -> ->. by exists n.
Qed.
End any_payload.

(** ** An example: two pages swap places

    Three pages of 16 tokens in [INT8]: a page is 16 data bytes and 16 scales of
    4 bytes, for the keys and for the values. *)
Definition willing : Driver := fun _ => false.
Definition shared_config : PoolConfig := mkPoolConfig INT8 1 1 1 48 3 16 1 1.
Definition numbered (i : nat) : list N := (fun n => N.of_nat (i + n)) <$> seq 0 48.
Definition filled : TokenKVPool :=
  set_buffers (mkKVBuffers [numbered 0] [numbered 64] [(fun x => x * 70000)%N <$> numbered 1] [(fun x => x * 90000)%N <$> numbered 2] [] [])
    (fresh_pool shared_config).
Definition sent : list N := match @copy_pages_to_host willing [2; 0] filled with Done (_, inl p) => p | _ => [] end.

Example sent_size : length sent = 2 * N.to_nat (storage_bytes_per_page shared_config) /\ length sent = 320.
Proof. split; reflexivity. Qed.

Example short_payload_refused :
  @copy_pages_from_host willing [0] sent filled = Done (filled, inr (PayloadMismatch 320 160)).
Proof. vm_compute. done. Qed.

Lemma filled_ok : buffers_ok shared_config (buffers filled).
Proof. constructor; (split; [unfold holds_pages; repeat constructor|done]). Qed.

Lemma filled_elements : elements_ok (buffers filled).
Proof.
  assert (forall t, Forall (Forall (fun x => (x < 256 ^ N.of_nat (table_width t))%N)) (table t (buffers filled))) as Hall
    by (intros []; apply (bool_decide_unpack _); vm_compute; exact I).
  intros t buf x Hb Hx. specialize (Hall t). rewrite !Forall_forall in Hall. specialize (Hall buf Hb).
  rewrite Forall_forall in Hall. by apply Hall.
Qed.

Lemma host_copy_roundtrip_witness :
  exists n b r, @copy_pages_from_host willing [0; 2] sent filled = Done (device_only filled n b, r) /\
    buffers_ok shared_config b /\
    (forall p, p ∉ [0; 2] -> page_image shared_config b p = page_image shared_config (buffers filled) p) /\
    match r with
    | inl _ => page_image shared_config b <$> [0; 2] = page_image shared_config (buffers filled) <$> [2; 0]
    | inr e => e = DriverRefused
    end.
Proof.
  apply (@host_copy_roundtrip willing filled (set_driver_calls 9 filled) filled [2; 0] [0; 2] sent);
    [exact filled_ok|exact filled_elements|repeat constructor|vm_compute; reflexivity|vm_compute; discriminate|reflexivity
    |exact filled_ok|repeat constructor| |reflexivity].
  apply (bool_decide_unpack _); vm_compute; exact I.
Defined.
