(* ===== verification/PageBudget.v ===== *)
(** * Page and token budgets of the CUDA scheduler

    Models [infer/src/scheduler/cuda/budget.rs] and the prefill selection of
    [infer/src/scheduler/cuda/execution.rs]: what a step may still append, in
    pages and in tokens, before anything is appended. [usize] sums of token
    counts are bounded by what a pool holds, so the saturating sums of the
    source are sums here; the number of prefill requests may be [usize::MAX]
    and is an [N]. *)

From S2P Require Import Prelude Lists KvFormat PagedKv.

(** ** Page arithmetic *)
Definition CLIPPED_MAX_NEW_TOKENS_ESTIMATE : nat := 4096.
Definition normalized_page_size (page_size : nat) : nat := Nat.max page_size 1.
Definition page_count (tokens page_size : nat) : nat := div_ceil tokens (normalized_page_size page_size).
Definition clipped_max_new_tokens_estimate (max_tokens : nat) : nat :=
  Nat.min max_tokens CLIPPED_MAX_NEW_TOKENS_ESTIMATE.
Definition estimated_request_target_tokens (prompt_tokens _max_tokens : nat) : nat := prompt_tokens + 1.
Definition estimated_request_pages (prompt_tokens max_tokens page_size : nat) : nat :=
  page_count (estimated_request_target_tokens prompt_tokens max_tokens) page_size.

Definition additional_pages_needed (seq_len additional_tokens page_size : nat) : nat :=
  if bool_decide (additional_tokens = 0) then 0
  else
    let page_size := normalized_page_size page_size in
    div_ceil (seq_len + additional_tokens) page_size - div_ceil seq_len page_size.

Definition partial_tail_capacity (lens : list nat) (page_size : nat) : nat :=
  let page_size := normalized_page_size page_size in
  sum_list ((fun len => if bool_decide (len mod page_size = 0) then 0 else page_size - len mod page_size) <$> lens).

(** [pool_free_pages] and [effective_pool_free_pages] of the scheduler, over
    all slots of the pool; [evictable] are the pages of cached prefixes. *)
Definition pool_free_pages (s : TokenKVPool) : nat :=
  (free_count s - partial_tail_capacity (seq_lens s) (page_size (cfg s))) / Nat.max (page_size (cfg s)) 1.
Definition effective_pool_free_pages (evictable : nat) (s : TokenKVPool) : nat := pool_free_pages s + evictable.

(** ** The page budget *)
Record PageGrowth := mkPageGrowth { pg_slot_idx : nat; pg_tokens : nat }.
Record PageTarget := mkPageTarget { pt_slot_idx : nat; pt_seq_floor : nat; pt_target_seq : nat }.

Definition estimated_request_target (slot_idx prompt_tokens max_tokens reserved_prefix_tokens : nat) : PageTarget :=
  mkPageTarget slot_idx reserved_prefix_tokens (estimated_request_target_tokens prompt_tokens max_tokens).

Record PageBudget := mkPageBudget {
  remaining_free_pages : nat;
  planned_seq_lens : list nat;
  append_cow_pages : list nat;
  pb_page_size : nat;
  pb_active : bool;
}.

Definition PageBudget_new (remaining : nat) (planned : list nat) (page_size : nat) (active : bool) : PageBudget :=
  mkPageBudget remaining planned [] (normalized_page_size page_size) active.

(** [PageBudget::from_scheduler]. *)
Definition budget_of_pool (evictable : nat) (active : bool) (s : TokenKVPool) : res PageBudget :=
  let b := PageBudget_new (effective_pool_free_pages evictable s) (seq_lens s) (page_size (cfg s)) active in
  cow ← map_res (append_cow_pages_needed s) (seq 0 (length (seq_lens s)));
  Done (mkPageBudget (remaining_free_pages b) (planned_seq_lens b) cow (pb_page_size b) (pb_active b)).

Definition cow_pages (b : PageBudget) (slot : nat) : nat := default 0 (append_cow_pages b !! slot).

Definition additional_pages_for_growth (b : PageBudget) (g : PageGrowth) : res nat :=
  planned ← index (planned_seq_lens b) (pg_slot_idx g);
  Done (additional_pages_needed planned (pg_tokens g) (pb_page_size b) +
        if bool_decide (0 < pg_tokens g) then cow_pages b (pg_slot_idx g) else 0).

Definition can_fit_growth (b : PageBudget) (g : PageGrowth) : res bool :=
  if pb_active b then n ← additional_pages_for_growth b g; Done (bool_decide (n <= remaining_free_pages b)) else Done true.

(** The copy-on-write page of a slot is charged once. *)
Definition clear_cow (b : PageBudget) (slot : nat) (charged : bool) : list nat :=
  if charged then <[slot := 0]> (append_cow_pages b) else append_cow_pages b.

Definition reserve_growth (g : PageGrowth) (b : PageBudget) : res PageBudget :=
  if pb_active b then
    n ← additional_pages_for_growth b g;
    planned ← index (planned_seq_lens b) (pg_slot_idx g);
    Done (mkPageBudget (remaining_free_pages b - n) (<[pg_slot_idx g := planned + pg_tokens g]> (planned_seq_lens b))
      (clear_cow b (pg_slot_idx g) (bool_decide (0 < pg_tokens g))) (pb_page_size b) (pb_active b))
  else Done b.

Definition effective_seq_len (b : PageBudget) (slot seq_floor : nat) : res nat :=
  planned ← index (planned_seq_lens b) slot; Done (Nat.max planned seq_floor).

Definition additional_pages_for_target (b : PageBudget) (t : PageTarget) : res nat :=
  current ← effective_seq_len b (pt_slot_idx t) (pt_seq_floor t);
  let target := Nat.max (pt_target_seq t) (pt_seq_floor t) in
  Done (additional_pages_needed current (target - current) (pb_page_size b) +
        if bool_decide (current < target) then cow_pages b (pt_slot_idx t) else 0).

Definition can_fit_target (b : PageBudget) (t : PageTarget) : res bool :=
  if pb_active b then n ← additional_pages_for_target b t; Done (bool_decide (n <= remaining_free_pages b)) else Done true.

Definition reserve_target (t : PageTarget) (b : PageBudget) : res PageBudget :=
  if pb_active b then
    current ← effective_seq_len b (pt_slot_idx t) (pt_seq_floor t);
    let target := Nat.max (pt_target_seq t) (pt_seq_floor t) in
    n ← additional_pages_for_target b t;
    Done (mkPageBudget (remaining_free_pages b - n) (<[pt_slot_idx t := target]> (planned_seq_lens b))
      (clear_cow b (pt_slot_idx t) (bool_decide (current < target))) (pb_page_size b) (pb_active b))
  else Done b.

(** ** The token budget of a step *)
Record StepTokenBudget := mkStepTokenBudget { remaining_tokens : nat; remaining_requests : N }.

Definition for_prefill (max_num_batched_tokens max_prefill_tokens running_decode_tokens : nat) (requests : N) : StepTokenBudget :=
  mkStepTokenBudget (Nat.min (max_num_batched_tokens - running_decode_tokens) max_prefill_tokens) requests.

Definition can_fit (b : StepTokenBudget) (tokens : nat) : bool :=
  bool_decide (0 < tokens /\ tokens <= remaining_tokens b /\ (0 < remaining_requests b)%N).

Definition reserve (tokens : nat) (b : StepTokenBudget) : StepTokenBudget :=
  mkStepTokenBudget (remaining_tokens b - tokens) (remaining_requests b - 1).

(** ** Waiting requests and reclaim goals *)

(** The loop of [waiting_admission_shortage_pages], with what is left of the
    admission window. *)
Fixpoint requested_pages (page_size window : nat) (waiting : list (option nat * nat)) : nat :=
  match waiting with
  | [] => 0
  | (None, _) :: waiting => requested_pages page_size window waiting
  | (Some prompt_tokens, max_tokens) :: waiting =>
      estimated_request_pages prompt_tokens max_tokens page_size +
      if bool_decide (window <= 1) then 0 else requested_pages page_size (window - 1) waiting
  end.

Definition waiting_admission_shortage_pages (free_pages page_size free_slots waiting_requests : nat)
  (waiting : list (option nat * nat)) : nat :=
  if bool_decide (free_slots = 0 /\ waiting_requests = 0) then 0
  else requested_pages page_size (Nat.max free_slots waiting_requests) waiting - free_pages.

Definition prefix_cache_reclaim_goal_pages (retained high_water low_water shortage : nat) : nat :=
  Nat.min (Nat.max (if bool_decide (high_water < retained) then retained - low_water else 0) shortage) retained.

Definition coordinator_submit_headroom (capacity active : nat) : nat := capacity - (active + 1).

(** ** Selecting the prefill rows of a step *)
Record PrefillReservation := mkPrefillReservation { prefill_tokens : nat; page_growth : PageGrowth }.
Record PrefillCandidate := mkPrefillCandidate { pc_slot_idx : nat; reservation : PrefillReservation }.
Record ScoredPrefillCandidate := mkScored { candidate : PrefillCandidate; queue_rank : nat }.
Record PrefillBudget := mkPrefillBudget { token_budget : StepTokenBudget; page_budget : PageBudget }.

Definition coalesce_tiny_prefill_tail (remaining prefill_token_cap tiny_tail_limit : nat) : nat :=
  let capped := Nat.min remaining prefill_token_cap in
  if bool_decide (capped = 0 \/ remaining <= capped) then capped
  else if bool_decide (remaining - capped <= Nat.max tiny_tail_limit 1) then remaining
  else capped.

(** The reservation of a prefilling request: [progress] of its [total] tokens
    are done, [decode_left] tokens may follow; the rows are closed or not
    prefilling elsewhere. *)
Definition capped_prefill_reservation (slot total progress decode_left prefill_token_cap page_size : nat)
  : option PrefillReservation :=
  if bool_decide (prefill_token_cap = 0) then None
  else
    let remaining := total - progress in
    if bool_decide (remaining = 0) then None
    else
      let tokens := coalesce_tiny_prefill_tail remaining prefill_token_cap (Nat.max page_size 1) in
      let first_decode_token := if bool_decide (remaining <= tokens) then (if bool_decide (0 < decode_left) then 1 else 0) else 0 in
      Some (mkPrefillReservation tokens (mkPageGrowth slot (tokens + first_decode_token))).

Definition reserve_decode_headroom_for_slots (slots : list nat) (remaining : nat -> nat) (b : PageBudget) : res PageBudget :=
  fold_res (fun b slot => if bool_decide (0 < remaining slot) then reserve_growth (mkPageGrowth slot (remaining slot)) b else Done b)
    slots b.

Definition can_schedule (b : PrefillBudget) (r : PrefillReservation) : res bool :=
  if can_fit (token_budget b) (prefill_tokens r) then can_fit_growth (page_budget b) (page_growth r) else Done false.

Definition reserve_prefill (r : PrefillReservation) (b : PrefillBudget) : res PrefillBudget :=
  p ← reserve_growth (page_growth r) (page_budget b);
  Done (mkPrefillBudget (reserve (prefill_tokens r) (token_budget b)) p).

Definition score_prefill_candidates (queued : list PrefillCandidate) : list ScoredPrefillCandidate :=
  imap (fun rank c => mkScored c rank) queued.

Definition select_one (acc : PrefillBudget * list PrefillCandidate) (c : PrefillCandidate)
  : res (PrefillBudget * list PrefillCandidate) :=
  fits ← can_schedule acc.1 (reservation c);
  if fits : bool then b ← reserve_prefill (reservation c) acc.1; Done (b, acc.2 ++ [c]) else Done acc.

Definition select_prefill_candidates (b : PrefillBudget) (scored : list ScoredPrefillCandidate)
  : res (PrefillBudget * list PrefillCandidate) :=
  fold_res select_one (candidate <$> sort_by (fun x y => queue_rank x <=? queue_rank y) scored) (b, []).

(** A queued request, as [collect_prefill_candidates] reads it. *)
Record PrefillRow := mkPrefillRow {
  row_slot : nat;
  row_total : nat;
  row_progress : nat;
  row_decode_left : nat;
}.

Definition collect_prefill_candidates (cap page_size : nat) (queue : list PrefillRow) : list ScoredPrefillCandidate :=
  score_prefill_candidates (omap (fun row =>
    mkPrefillCandidate (row_slot row) <$>
      capped_prefill_reservation (row_slot row) (row_total row) (row_progress row) (row_decode_left row) cap page_size) queue).

(** The budgets of a step over a pool ([from_scheduler_for_decode_slots]) and
    the prefill rows it admits (the selection of [plan_step]). *)
Definition prefill_budget (evictable : nat) (tokens : StepTokenBudget) (decode_slots : list nat) (remaining : nat -> nat)
  (s : TokenKVPool) : res PrefillBudget :=
  pages ← budget_of_pool evictable true s;
  pages ← reserve_decode_headroom_for_slots decode_slots remaining pages;
  Done (mkPrefillBudget tokens pages).

Definition plan_prefill (evictable : nat) (tokens : StepTokenBudget) (decode_slots : list nat) (remaining : nat -> nat)
  (cap : nat) (queue : list PrefillRow) (s : TokenKVPool) : res (PrefillBudget * list PrefillCandidate) :=
  b ← prefill_budget evictable tokens decode_slots remaining s;
  select_prefill_candidates b (collect_prefill_candidates cap (page_size (cfg s)) queue).

(** ** Appending the rows of a batch

    [prepare_paged_prefill_batch] of [infer/src/model.rs]; a row is a slot and
    its number of tokens. *)
Section batch.
Context `{Driver}.

Definition append_row (row : nat * nat) : pool_eff unit := append_tokens row.1 row.2;; mret tt.

Fixpoint distinct_rows (seen : list nat) (rows : list (nat * nat)) : bool :=
  match rows with
  | [] => true
  | (slot, tokens) :: rows =>
      if bool_decide (tokens = 0 \/ slot ∈ seen) then false else distinct_rows (seen ++ [slot]) rows
  end.

Definition prepare_paged_prefill_batch (requests : list (nat * nat)) : pool_eff bool :=
  if bool_decide (requests = []) then mret false
  else if negb (distinct_rows [] requests) then mret false
  else
    needs ← reads (fun s => map_res (fun row => append_pages_needed s row.1 row.2) requests);
    let required_pages := sum_list needs in
    free ← gets free_page_count;
    if bool_decide (free < required_pages) then throw (BatchOutOfPages required_pages free)
    else for_each requests append_row;; mret true.
End batch.
