(* ===== verification/PrefillPlanProps.v ===== *)
(** * What a page budget promises

    A plan accepted by [PageBudget] can be carried out: the appends it accepts
    find their pages, copies on write included. And the prefill rows of a step
    are chosen in queue order, within the token and request limits. *)


From S2P Require Import Prelude Lists KvFormat PagedKv PagedKvInv PagedKvCow PagedKvProps PageBudget.

(** ** What the pool offers *)
Lemma pool_free_pages_spec L R s : wf L R s -> pool_free_pages s = length (free_pages s).
Proof.
  intros Hwf. pose proof Hwf as [_ _ [Hps _] _]. unfold pool_free_pages, free_count, partial_tail_capacity, normalized_page_size.
  rewrite Nat.max_l by lia. set (ps := page_size (cfg s)) in *.
  change (fun len => tail_room ps (len mod ps)) with (fun len => if bool_decide (len mod ps = 0) then 0 else ps - len mod ps).
  rewrite Nat.add_sub. by apply Nat.div_mul; lia.
Qed.

Lemma cow_needed L R s slot :
  wf L R s -> slot < num_slots (cfg s) -> exists n, append_cow_pages_needed s slot = Done n.
Proof.
  intros Hwf Hs. destruct (slot_tables L R s Hwf slot Hs) as (pages & len & Hp & Hl & _).
  destruct (shared_tail_spec L R s slot pages len Hwf Hp Hl) as (o & Ho & _).
  unfold append_cow_pages_needed. rewrite Ho. by eexists.
Qed.

(** ** Budgets the pool backs

    For the slots in [S] the budget plans with what the pool holds, and with
    at least the copies on write the pool needs; [e] pages of cached prefixes
    are counted as free. *)
Record backed (e : nat) (S : list nat) (s : TokenKVPool) (b : PageBudget) : Prop := mkBacked {
  bk_active : pb_active b = true;
  bk_page_size : pb_page_size b = page_size (cfg s);
  bk_slots : length (planned_seq_lens b) = num_slots (cfg s);
  bk_planned : forall slot, slot ∈ S -> planned_seq_lens b !! slot = seq_lens s !! slot;
  bk_cow : forall slot n, slot ∈ S -> append_cow_pages_needed s slot = Done n -> n <= cow_pages b slot;
  bk_free : remaining_free_pages b <= length (free_pages s) + e;
}.

Lemma backed_subset e S S' s b : (forall slot, slot ∈ S' -> slot ∈ S) -> backed e S s b -> backed e S' s b.
Proof. intros Hsub []. constructor; auto. Qed.

Lemma budget_of_pool_backed e L R s :
  wf L R s -> exists b, budget_of_pool e true s = Done b /\ backed e (seq 0 (num_slots (cfg s))) s b.
Proof.
  intros Hwf. pose proof Hwf as [_ Hslots [Hps _] _]. pose proof (ok_lens _ Hslots) as Hlen.
  destruct (map_res_Forall2 (append_cow_pages_needed s) (fun slot n => append_cow_pages_needed s slot = Done n)
    (seq 0 (length (seq_lens s)))) as (cow & Hc & Hcows).
  { intros slot ?%elem_of_seq. destruct (cow_needed L R s slot Hwf) as [n Hn]; [lia|]. by exists n. }
  unfold budget_of_pool. rewrite Hc. eexists. split; [done|]. constructor; cbn; try done.
  - unfold normalized_page_size. lia.
  - intros slot n Hs%elem_of_seq Hn. destruct (Forall2_lookup_l _ _ _ slot slot Hcows) as (n' & Hcow & Hn'); [apply lookup_seq; lia|].
    unfold cow_pages. cbn. rewrite Hcow. cbn. rewrite Hn in Hn'. by injection Hn' as ->.
  - unfold effective_pool_free_pages. rewrite (pool_free_pages_spec L R s Hwf). lia.
Qed.

(** A slot whose table is unchanged needs no more copies after an append. *)
Lemma cow_mono L R s s' slot pages len n :
  wf L R s -> wf L R s' -> cfg s' = cfg s -> page_indices s !! slot = Some pages -> page_indices s' !! slot = Some pages ->
  seq_lens s !! slot = Some len -> seq_lens s' !! slot = Some len ->
  (forall q, q ∉ free_pages s -> occurrences q (owned L s') <= occurrences q (owned L s)) ->
  append_cow_pages_needed s' slot = Done n -> exists n', append_cow_pages_needed s slot = Done n' /\ n <= n'.
Proof.
  intros Hwf Hwf' Hc Hp Hp' Hl Hl' Hcounts. unfold append_cow_pages_needed.
  destruct (shared_tail_spec L R s slot pages len Hwf Hp Hl) as (o & -> & Ho).
  destruct (shared_tail_spec L R s' slot pages len Hwf' Hp' Hl') as (o' & -> & Ho'). cbn. intros [= <-].
  eexists. split; [done|]. destruct o' as [p|]; [|lia]. destruct o as [|]; [lia|]. rewrite Hc in Ho'.
  destruct Ho' as (H0 & Hlast & Hsh), Ho as [|(p' & Hlast' & HR & Hocc)]; [done|]. assert (p' = p) as -> by congruence.
  destruct Hsh as [|H2]; [done|]. assert (p ∈ owned L s) as Hown.
  { eapply owned_page; [done|]. apply last_Some in Hlast as [? ->]. set_solver. }
  assert (p ∉ free_pages s) as Hfree by (rewrite (acc_free _ _ _ (wf_accounts _ _ _ Hwf)); tauto).
  specialize (Hcounts p Hfree). lia.
Qed.

(** Reserving for a slot out of [S]. *)
Lemma reserve_backed e S S' s b g :
  backed e S s b -> pg_slot_idx g < num_slots (cfg s) -> (forall slot, slot ∈ S' -> slot ∈ S /\ slot <> pg_slot_idx g) ->
  exists need b', additional_pages_for_growth b g = Done need /\ reserve_growth g b = Done b' /\ backed e S' s b' /\
    remaining_free_pages b' = remaining_free_pages b - need.
Proof.
  intros [Ha Hps Hsl Hpl Hcow Hfree] Hg Hsub. destruct (lookup_lt_is_Some_2 (planned_seq_lens b) (pg_slot_idx g)) as [p Hp]; [lia|].
  unfold reserve_growth, additional_pages_for_growth. rewrite Ha, (index_Some _ _ _ Hp). cbn. eexists _, _. split; [done|]. split; [done|].
  split; [|done]. constructor; cbn; [done|done|by rewrite length_insert| | |lia].
  - intros slot [Hs Hne]%Hsub. rewrite list_lookup_insert_ne by done. auto.
  - intros slot n [Hs Hne]%Hsub Hn. specialize (Hcow slot n Hs Hn). unfold cow_pages, clear_cow in *. cbn.
    case_bool_decide; [by rewrite list_lookup_insert_ne|done].
Qed.

(** The pages a growth is charged cover what an append of the slot takes. *)
Lemma charged_pages e L R S s b slot count t need n :
  wf L R s -> backed e S s b -> slot ∈ S -> slot < num_slots (cfg s) -> count <= t ->
  additional_pages_for_growth b (mkPageGrowth slot t) = Done need -> append_pages_needed s slot count = Done n -> n <= need.
Proof.
  intros Hwf [Ha Hps Hsl Hpl Hcow Hfree] Hs Hlt Hct. pose proof (wf_config _ _ _ Hwf) as [H0 _].
  destruct (slot_tables L R s Hwf slot Hlt) as (pages & len & Hp & Hl & Htight). destruct (cow_needed L R s slot Hwf Hlt) as [c Hc].
  rewrite (append_pages_needed_spec L R s slot count pages len c Hwf Hp Hl Hc).
  unfold additional_pages_for_growth. cbn [pg_slot_idx pg_tokens]. rewrite (index_Some _ _ _ (eq_trans (Hpl slot Hs) Hl)). cbn.
  intros [= <-] [= <-]. case_decide; [lia|]. rewrite bool_decide_eq_true_2 by lia.
  unfold additional_pages_needed, normalized_page_size. rewrite bool_decide_eq_false_2 by lia. rewrite Hps, Nat.max_l, Htight by lia.
  specialize (Hcow slot c Hs Hc). pose proof (div_ceil_mono _ H0 (len + count) (len + t)). lia.
Qed.

(** ** Appending a batch *)
Section batch.
Context `{Driver} (L R : list nat).

(** What the rows of a batch take, each counted from the same state. *)
Definition batch_pages (s : TokenKVPool) (rows : list (nat * nat)) (total : nat) : Prop :=
  exists needs, Forall2 (fun row n => append_pages_needed s row.1 row.2 = Done n) rows needs /\ sum_list needs = total.

Lemma batch_pages_total s rows :
  wf L R s -> (forall row, row ∈ rows -> row.1 < num_slots (cfg s)) -> exists total, batch_pages s rows total.
Proof using.
  intros Hwf. unfold batch_pages. induction rows as [|row rows IH]; intros Hin; [by exists 0, []|].
  destruct IH as (total & needs & Hneeds & Hsum); [set_solver|]. assert (row.1 < num_slots (cfg s)) as Hlt by (apply Hin; set_solver).
  destruct (slot_tables L R s Hwf row.1 Hlt) as (pages & len & Hp & Hl & _). destruct (cow_needed L R s row.1 Hwf Hlt) as [c Hc].
  pose proof (append_pages_needed_spec L R s row.1 row.2 pages len c Hwf Hp Hl Hc) as Hn. eexists _, (_ :: needs).
  split; [|done]. by constructor.
Qed.

(** A need does not grow when another slot is appended to. *)
Lemma need_mono s s' slot slot' pages len count new count' n :
  wf L R s -> appended L R s s' slot pages len count new -> slot' < num_slots (cfg s) -> slot' <> slot ->
  append_pages_needed s slot' count' = Done n -> exists n', append_pages_needed s' slot' count' = Done n' /\ n' <= n.
Proof using.
  intros Hwf [Hwf' Hcfg (kept & _ & Hp' & _) Hl' _ _ Hcounts] Hlt Hne.
  destruct (slot_tables L R s Hwf slot' Hlt) as (pages2 & len2 & Hp2 & Hl2 & _).
  assert (page_indices s' !! slot' = Some pages2) as Hp3 by by rewrite Hp', list_lookup_insert_ne.
  assert (seq_lens s' !! slot' = Some len2) as Hl3 by by rewrite Hl', list_lookup_insert_ne.
  destruct (cow_needed L R s' slot' Hwf') as [c' Hc']; [by rewrite Hcfg|].
  destruct (cow_mono L R s s' slot' pages2 len2 c') as (c & Hc & Hle); try done.
  rewrite (append_pages_needed_spec L R s slot' count' pages2 len2 c) by done.
  rewrite (append_pages_needed_spec L R s' slot' count' pages2 len2 c') by done. rewrite Hcfg. intros [= <-].
  eexists. split; [done|]. case_decide; lia.
Qed.

(** The lengths after appending. *)
Definition grown (rows : list (nat * nat)) (lens : list nat) : list nat :=
  foldl (fun lens row => alter (fun len => len + row.2) row.1 lens) lens rows.

(** A batch whose needs fit is appended, unless the driver refuses a call. *)
Lemma append_batch rows : forall s total,
  wf L R s -> NoDup rows.*1 -> (forall row, row ∈ rows -> row.1 < num_slots (cfg s)) ->
  batch_pages s rows total -> total <= length (free_pages s) ->
  exists s' r, for_each rows append_row s = Done (s', r) /\ cfg s' = cfg s /\
  match r with
  | inl _ => wf L R s' /\ seq_lens s' = grown rows (seq_lens s)
  | inr e => e = DriverRefused /\ exists lost, wf (lost ++ L) R s'
  end.
Proof using.
  induction rows as [|[slot count] rows IH]; intros s total Hwf Hnd Hin (needs & Hneeds & Hsum) Hfit; cbn [for_each].
  { by exists s, (inl tt). }
  apply Forall2_cons_inv_l in Hneeds as (n & needs' & Hn & Hneeds & ->). cbn in Hn, Hsum. apply NoDup_cons in Hnd as [Hni Hnd].
  assert (slot < num_slots (cfg s)) as Hlt by (apply (Hin (slot, count)); set_solver).
  destruct (slot_tables L R s Hwf slot Hlt) as (pages & len & Hp & Hl & _).
  destruct (append_spec L R s slot count pages len Hwf Hp Hl) as (n' & s1 & r & Hn' & Hrun & Hr).
  rewrite Hn in Hn'. injection Hn' as <-.
  destruct r as [new|e]; cycle 1.
  { exists s1, (inr e). destruct Hr as [[(lost & Hwf1 & _) Hc _ _] He]. split; [apply run_bind_err; by apply run_bind_err|].
    split; [done|]. destruct He as [->|]; [|lia]. split; [done|]. by exists lost. }
  destruct Hr as [Happ Hfree]. pose proof Happ as [Hwf1 Hc1 _ Hl1 _ _ _].
  assert (append_row (slot, count) s = Done (s1, inl tt)) as Hrow by by (unfold append_row; run Hrun).
  assert (exists total', batch_pages s1 rows total' /\ total' <= sum_list needs') as (total' & Hb & Hle).
  { assert (forall row, row ∈ rows -> row.1 <> slot) as Hne by (intros row Hrow' <-; apply Hni, list_elem_of_fmap; by exists row).
    assert (forall row, row ∈ rows -> row.1 < num_slots (cfg s)) as Hlt' by set_solver.
    clear - Hneeds Hwf Happ Hne Hlt'. induction Hneeds as [|row m rows needs' Hm Hneeds IH]; [by exists 0; split; [exists []|]|].
    destruct IH as (total' & (needs & ? & <-) & Hle); [set_solver|set_solver|].
    destruct (need_mono s s1 slot row.1 pages len count new row.2 m) as (m' & ? & ?); try done; [apply Hlt'; set_solver|apply Hne; set_solver|].
    exists (sum_list (m' :: needs)). split; [|cbn; lia]. exists (m' :: needs). by split; [constructor|]. }
  destruct (IH s1 total') as (s' & r & Hrest & Hc & Hr); [done|done|rewrite Hc1; set_solver|done|lia|].
  exists s', r. rewrite (run_bind_ok _ _ _ _ _ Hrow). split; [done|]. split; [congruence|]. destruct r; [|done].
  destruct Hr as [? ->]. split; [done|]. rewrite Hl1. unfold grown at 2. cbn [foldl fst snd]. unfold grown. f_equal.
  apply list_eq. intros i. destruct (decide (i = slot)) as [->|].
  - rewrite list_lookup_insert_eq by by eapply lookup_lt_Some. by rewrite list_lookup_alter_eq, Hl.
  - by rewrite list_lookup_insert_ne, list_lookup_alter_ne.
Qed.
End batch.

(** ** Planning the prefill rows of a step

    The selection as a relation, its limits, and that the pool can carry out
    what was selected. *)

(** ** First fit in queue order *)
Inductive selection : PrefillBudget -> list PrefillCandidate -> PrefillBudget -> list PrefillCandidate -> Prop :=
  | sel_done b : selection b [] b []
  | sel_take b c cs b1 b' sel :
      can_schedule b (reservation c) = Done true -> reserve_prefill (reservation c) b = Done b1 ->
      selection b1 cs b' sel -> selection b (c :: cs) b' (c :: sel)
  | sel_skip b c cs b' sel :
      can_schedule b (reservation c) = Done false -> selection b cs b' sel -> selection b (c :: cs) b' sel.

Lemma sublist_Forall {A} (P : A -> Prop) l1 l2 : l1 `sublist_of` l2 -> Forall P l2 -> Forall P l1.
Proof. rewrite !Forall_forall. intros Hs H x Hx. by eapply H, elem_of_sublist. Qed.

Lemma sublist_fmap {A B} (f : A -> B) l1 l2 : l1 `sublist_of` l2 -> f <$> l1 `sublist_of` (f <$> l2).
Proof. induction 1; cbn; by constructor. Qed.

Lemma insert_by_least {A} (le : A -> A -> bool) x l : (forall y, y ∈ l -> le x y = true) -> insert_by le x l = x :: l.
Proof. destruct l as [|y l]; intros H; [done|]. cbn. by rewrite H by set_solver. Qed.

Lemma sort_by_sorted_id {A} (le : A -> A -> bool) l : StronglySorted (fun x y => le x y = true) l -> sort_by le l = l.
Proof.
  induction 1 as [|x l Hl IH Hx]; [done|]. cbn. rewrite Forall_forall in Hx. fold (sort_by le l). rewrite IH.
  by apply insert_by_least.
Qed.

Lemma scored_in_order cs : candidate <$> sort_by (fun x y => queue_rank x <=? queue_rank y) (score_prefill_candidates cs) = cs.
Proof.
  rewrite sort_by_sorted_id.
  - unfold score_prefill_candidates. rewrite fmap_imap. rewrite <-(list_fmap_id cs) at 2. rewrite <-imap_const.
    apply imap_ext. done.
  - unfold score_prefill_candidates. assert (forall k, StronglySorted (fun x y => queue_rank x <=? queue_rank y = true)
      (imap (fun rank c => mkScored c (k + rank)) cs)) as H; [|exact (H 0)].
    induction cs as [|c cs IH]; intros k; cbn; [constructor|]. constructor.
    + erewrite imap_ext; [apply (IH (S k))|]. intros i c' _. cbn. f_equal. lia.
    + apply Forall_forall. intros x (i & c' & -> & _)%elem_of_lookup_imap_1. cbn. apply Nat.leb_le. lia.
Qed.

(** Candidates as the scheduler builds them. *)
Record candidate_ok (n : nat) (c : PrefillCandidate) : Prop := mkCandidateOk {
  ca_slot : pg_slot_idx (page_growth (reservation c)) = pc_slot_idx c;
  ca_bound : pc_slot_idx c < n;
  ca_tokens : 0 < prefill_tokens (reservation c) <= pg_tokens (page_growth (reservation c));
}.

Lemma capped_reservation_ok slot total progress left cap ps r :
  capped_prefill_reservation slot total progress left cap ps = Some r ->
  pg_slot_idx (page_growth r) = slot /\ 0 < prefill_tokens r <= pg_tokens (page_growth r) /\
  prefill_tokens r <= total - progress /\ prefill_tokens r <= cap + Nat.max ps 1.
Proof.
  unfold capped_prefill_reservation. do 2 (case_bool_decide; [done|]). intros [= <-]. cbn.
  assert (0 < coalesce_tiny_prefill_tail (total - progress) cap (Nat.max ps 1) <= total - progress /\
    coalesce_tiny_prefill_tail (total - progress) cap (Nat.max ps 1) <= cap + Nat.max ps 1); [|lia].
  unfold coalesce_tiny_prefill_tail. repeat case_bool_decide; lia.
Qed.

Definition queued_candidates (cap ps : nat) (queue : list PrefillRow) : list PrefillCandidate :=
  omap (fun row => mkPrefillCandidate (row_slot row) <$>
    capped_prefill_reservation (row_slot row) (row_total row) (row_progress row) (row_decode_left row) cap ps) queue.

Lemma queued_candidates_spec cap ps queue n :
  (forall row, row ∈ queue -> row_slot row < n) ->
  Forall (candidate_ok n) (queued_candidates cap ps queue) /\
  pc_slot_idx <$> queued_candidates cap ps queue `sublist_of` (row_slot <$> queue).
Proof.
  induction queue as [|row queue IH]; intros Hn; [by split|]. destruct IH as [IH1 IH2]; [set_solver|]. cbn.
  destruct (capped_prefill_reservation _ _ _ _ _ _) as [r|] eqn:E; cbn; [|split; [done|by apply sublist_cons]].
  apply capped_reservation_ok in E as (Hs & Ht & _). split; [|by apply sublist_skip].
  constructor; [|done]. constructor; cbn; [done| |lia]. apply Hn. set_solver.
Qed.

(** The budget answers for every slot it knows. *)
Lemma reserve_growth_total b g n :
  length (planned_seq_lens b) = n -> pg_slot_idx g < n ->
  exists b', reserve_growth g b = Done b' /\ length (planned_seq_lens b') = n.
Proof.
  intros Hl Hg. unfold reserve_growth. destruct (pb_active b); [|by eexists].
  destruct (lookup_lt_is_Some_2 (planned_seq_lens b) (pg_slot_idx g)) as [p Hp]; [lia|].
  unfold additional_pages_for_growth. rewrite (index_Some _ _ _ Hp). cbn. eexists. split; [done|]. cbn. by rewrite length_insert.
Qed.

Lemma can_schedule_total b r n :
  length (planned_seq_lens (page_budget b)) = n -> pg_slot_idx (page_growth r) < n ->
  exists fits, can_schedule b r = Done fits.
Proof.
  intros Hl Hg. unfold can_schedule, can_fit_growth, additional_pages_for_growth. destruct (can_fit _ _); [|by eexists].
  destruct (pb_active _); [|by eexists]. destruct (lookup_lt_is_Some_2 (planned_seq_lens (page_budget b)) (pg_slot_idx (page_growth r))) as [p Hp]; [lia|].
  rewrite (index_Some _ _ _ Hp). cbn. by eexists.
Qed.

Lemma select_one_run b acc c fits :
  can_schedule b (reservation c) = Done fits ->
  select_one (b, acc) c = if fits then b ← reserve_prefill (reservation c) b; Done (b, acc ++ [c]) else Done (b, acc).
Proof. intros E. unfold select_one. cbn [fst snd]. by rewrite E. Qed.

Lemma select_is_selection n cs : forall b acc,
  Forall (candidate_ok n) cs -> length (planned_seq_lens (page_budget b)) = n ->
  exists b' sel, fold_res select_one cs (b, acc) = Done (b', acc ++ sel) /\ selection b cs b' sel.
Proof.
  induction cs as [|c cs IH]; intros b acc Hok Hl; cbn [fold_res].
  { exists b, []. rewrite app_nil_r. split; [done|constructor]. }
  apply Forall_cons_1 in Hok as [[Hs Hb _] Hok]. destruct (can_schedule_total b (reservation c) n Hl) as [fits Hfits]; [lia|].
  rewrite (select_one_run _ _ _ _ Hfits). destruct fits; cbn [mbind res_bind].
  - destruct (reserve_growth_total (page_budget b) (page_growth (reservation c)) n Hl) as (p & Hp & Hlp); [lia|].
    assert (reserve_prefill (reservation c) b = Done (mkPrefillBudget (reserve (prefill_tokens (reservation c)) (token_budget b)) p)) as Hr
      by (unfold reserve_prefill; by rewrite Hp).
    rewrite Hr. cbn. edestruct (IH (mkPrefillBudget (reserve (prefill_tokens (reservation c)) (token_budget b)) p)) as (b' & sel & Hrun & Hsel); [done|done|].
    exists b', (c :: sel). rewrite Hrun, <-app_assoc. split; [done|]. by eapply sel_take.
  - destruct (IH b acc) as (b' & sel & Hrun & Hsel); [done|done|]. exists b', sel. split; [done|]. by apply sel_skip.
Qed.

(** ** Limits *)
Lemma selection_limits b cs b' sel :
  selection b cs b' sel ->
  sel `sublist_of` cs /\
  sum_list ((fun c => prefill_tokens (reservation c)) <$> sel) + remaining_tokens (token_budget b') = remaining_tokens (token_budget b) /\
  (N.of_nat (length sel) + remaining_requests (token_budget b') = remaining_requests (token_budget b))%N.
Proof.
  induction 1 as [b|b c cs b1 b' sel Hfit Hres Hsel IH|b c cs b' sel Hfit Hsel IH].
  - split_and!; [done|cbn; lia|cbn; lia].
  - destruct IH as (IH1 & IH2 & IH3). split; [by apply sublist_skip|].
    unfold can_schedule in Hfit. destruct (can_fit _ _) eqn:Ef; [|done]. apply bool_decide_eq_true_1 in Ef.
    unfold reserve_prefill in Hres. apply res_bind_Done in Hres as (p & _ & [= <-]). cbn in *. lia.
  - destruct IH as (IH1 & IH2 & IH3). split_and!; [by apply sublist_cons|done|done].
Qed.

(** The head of the queue is never passed over. *)
Lemma selection_head b cs b' sel c :
  selection b cs b' sel -> head cs = Some c -> can_schedule b (reservation c) = Done true -> head sel = Some c.
Proof. destruct 1; cbn; congruence. Qed.

(** What the selected rows take is what the budget gave. *)
Definition row_of (c : PrefillCandidate) : nat * nat := (pc_slot_idx c, prefill_tokens (reservation c)).

Lemma selection_pages e L R s b cs b' sel total :
  selection b cs b' sel -> wf L R s -> backed e (pc_slot_idx <$> cs) s (page_budget b) -> Forall (candidate_ok (num_slots (cfg s))) cs ->
  NoDup (pc_slot_idx <$> cs) -> batch_pages s (row_of <$> sel) total -> total <= remaining_free_pages (page_budget b).
Proof.
  intros Hsel Hwf. revert total. induction Hsel as [b|b c cs b1 b' sel Hfit Hres Hsel IH|b c cs b' sel Hfit Hsel IH]; intros total Hb Hok Hnd Ht.
  - destruct Ht as (needs & Hneeds & <-). inversion Hneeds; subst. cbn. lia.
  - destruct Ht as (needs & Hneeds & <-). apply Forall2_cons_inv_l in Hneeds as (n & needs' & Hn & Hneeds & ->).
    apply Forall_cons_1 in Hok as [[Hs Hlt [_ Ht]] Hok]. apply NoDup_cons in Hnd as [Hni Hnd].
    unfold can_schedule in Hfit. destruct (can_fit _ _); [|done]. unfold can_fit_growth in Hfit. rewrite (bk_active _ _ _ _ Hb) in Hfit.
    destruct (reserve_backed _ _ (pc_slot_idx <$> cs) _ _ (page_growth (reservation c)) Hb) as (need & p & Hneed & Hp & Hbp & Hrem);
      [by rewrite Hs| |].
    { intros slot Hin. rewrite Hs. split; [set_solver|]. by intros ->. }
    rewrite Hneed in Hfit. cbn in Hfit. case_bool_decide as Hle; [|done].
    assert (n <= need) as Hcharge.
    { apply (charged_pages e L R (pc_slot_idx <$> c :: cs) s (page_budget b) (pc_slot_idx c) (prefill_tokens (reservation c)) (pg_tokens (page_growth (reservation c))));
        try done; [rewrite fmap_cons; set_solver|]. rewrite <-Hs. by destruct (page_growth _). }
    unfold reserve_prefill in Hres. rewrite Hp in Hres. injection Hres as <-. cbn in IH, Hrem.
    assert (sum_list needs' <= remaining_free_pages p) as Hrest by (apply IH; [done..|by exists needs']). cbn. lia.
  - apply Forall_cons_1 in Hok as [_ Hok]. apply NoDup_cons in Hnd as [_ Hnd]. apply IH; try done.
    eapply backed_subset; [|done]. set_solver.
Qed.

(** ** The plan of a step *)
Section step.
Context (L R : list nat) (s : TokenKVPool).
Hypothesis Hwf : wf L R s.

Lemma headroom_backed e decode remaining queued : forall b,
  (forall slot, slot ∈ decode -> slot < num_slots (cfg s) /\ slot ∉ queued) -> backed e queued s b ->
  exists b', reserve_decode_headroom_for_slots decode remaining b = Done b' /\ backed e queued s b'.
Proof using Hwf.
  unfold reserve_decode_headroom_for_slots. induction decode as [|slot decode IH]; intros b Hin Hb; cbn [fold_res]; [by exists b|].
  destruct (Hin slot) as [Hlt Hni]; [set_solver|]. case_bool_decide.
  - destruct (reserve_backed e queued queued s b (mkPageGrowth slot (remaining slot)) Hb Hlt) as (need & b1 & _ & -> & Hb1 & _).
    { intros slot' Hs. split; [done|]. cbn. by intros ->. }
    cbn. apply IH; [set_solver|done].
  - cbn. apply IH; [set_solver|done].
Qed.

Lemma plan_prefill_spec e tokens decode remaining cap queue :
  (forall row, row ∈ queue -> row_slot row < num_slots (cfg s)) ->
  (forall slot, slot ∈ decode -> slot < num_slots (cfg s) /\ slot ∉ row_slot <$> queue) ->
  let cs := queued_candidates cap (page_size (cfg s)) queue in
  exists b0 b sel, prefill_budget e tokens decode remaining s = Done b0 /\
    plan_prefill e tokens decode remaining cap queue s = Done (b, sel) /\ selection b0 cs b sel /\
    token_budget b0 = tokens /\ backed e (row_slot <$> queue) s (page_budget b0) /\
    Forall (candidate_ok (num_slots (cfg s))) cs /\ pc_slot_idx <$> cs `sublist_of` (row_slot <$> queue).
Proof using Hwf.
  intros Hq Hd cs. destruct (queued_candidates_spec cap (page_size (cfg s)) queue _ Hq) as [Hok Hsub].
  destruct (budget_of_pool_backed e L R s Hwf) as (b & Hrun & Hb).
  destruct (headroom_backed e decode remaining (row_slot <$> queue) b Hd) as (b1 & Hhead & Hb1).
  { eapply backed_subset; [|done]. intros slot (row & -> & Hin)%list_elem_of_fmap. apply elem_of_seq. specialize (Hq row Hin). lia. }
  destruct (select_is_selection (num_slots (cfg s)) cs (mkPrefillBudget tokens b1) []) as (b' & sel & Hsel & Hrel); [done|apply Hb1|].
  exists (mkPrefillBudget tokens b1), b', sel. assert (prefill_budget e tokens decode remaining s = Done (mkPrefillBudget tokens b1)) as Hbudget.
  { unfold prefill_budget. rewrite Hrun. cbn [mbind res_bind]. by rewrite Hhead. }
  split_and!; try done. unfold plan_prefill. rewrite Hbudget. cbn [mbind res_bind].
  unfold select_prefill_candidates, collect_prefill_candidates. fold (queued_candidates cap (page_size (cfg s)) queue). fold cs.
  by rewrite scored_in_order.
Qed.
End step.

(** ** The batch *)
Lemma distinct_rows_spec rows : forall seen,
  distinct_rows seen rows = true <-> NoDup rows.*1 /\ (forall row, row ∈ rows -> 0 < row.2 /\ row.1 ∉ seen).
Proof.
  induction rows as [|[slot tokens] rows IH]; intros seen; cbn.
  { split; [|done]. split; [constructor|]. set_solver. }
  case_bool_decide as H0.
  - split; [done|]. intros [_ Hin]. destruct (Hin (slot, tokens)) as [? ?]; [set_solver|]. cbn in *. destruct H0; [lia|done].
  - rewrite IH, NoDup_cons. split.
    + intros [Hnd Hin]. split_and!; [|done|].
      * intros (row & -> & Hr)%list_elem_of_fmap. apply (Hin row) in Hr as [_ Hr]. set_solver.
      * intros row [->|Hr]%elem_of_cons; [cbn; split; [lia|tauto]|]. destruct (Hin row Hr). set_solver.
    + intros [[Hni Hnd] Hin]. split; [done|]. intros row Hr. destruct (Hin row) as [? ?]; [set_solver|]. split; [done|].
      rewrite elem_of_app, list_elem_of_singleton. intros [?| <-]; [done|]. apply Hni, list_elem_of_fmap. by exists row.
Qed.

Section prepare.
Context `{Driver} (L R : list nat) (s : TokenKVPool).
Hypothesis Hwf : wf L R s.

Lemma prepare_run rows total :
  rows <> [] -> NoDup rows.*1 -> (forall row, row ∈ rows -> 0 < row.2) -> batch_pages s rows total ->
  prepare_paged_prefill_batch rows s =
    if bool_decide (length (free_pages s) < total) then Done (s, inr (BatchOutOfPages total (length (free_pages s))))
    else (for_each rows append_row;; mret true) s.
Proof using Hwf.
  intros Hne Hnd Hpos (needs & Hneeds & <-). unfold prepare_paged_prefill_batch. rewrite bool_decide_eq_false_2 by done.
  assert (distinct_rows [] rows = true) as ->.
  { apply distinct_rows_spec. split; [done|]. intros row Hr. split; [auto|set_solver]. }
  cbn [negb]. assert (map_res (fun row => append_pages_needed s row.1 row.2) rows = Done needs) as Hmap.
  { clear - Hneeds. induction Hneeds as [|row n rows needs Hn Hneeds IH]; [done|]. cbn. rewrite Hn. cbn. by rewrite IH. }
  rewrite (run_reads _ _ _ _ Hmap). rewrite run_gets. unfold free_page_count. by case_bool_decide.
Qed.

(** What becomes of a batch that passed the check. *)
Definition prepared (rows : list (nat * nat)) (s' : TokenKVPool) (r : bool + pool_error) : Prop :=
  cfg s' = cfg s /\
  match r with
  | inl b => b = true /\ wf L R s' /\ seq_lens s' = grown rows (seq_lens s)
  | inr e => e = DriverRefused /\ exists lost, wf (lost ++ L) R s'
  end.

Lemma prepare_fits rows total :
  rows <> [] -> NoDup rows.*1 -> (forall row, row ∈ rows -> 0 < row.2) -> (forall row, row ∈ rows -> row.1 < num_slots (cfg s)) ->
  batch_pages s rows total -> total <= length (free_pages s) ->
  exists s' r, prepare_paged_prefill_batch rows s = Done (s', r) /\ prepared rows s' r.
Proof using Hwf.
  intros Hne Hnd Hpos Hlt Ht Hfit. rewrite (prepare_run rows total) by done. rewrite bool_decide_eq_false_2 by lia.
  destruct (append_batch L R rows s total Hwf Hnd Hlt Ht Hfit) as (s' & [u|e] & Hrun & Hc & Hr).
  - destruct Hr. exists s', (inl true). by rewrite (run_bind_ok _ _ _ _ _ Hrun).
  - exists s', (inr e). by rewrite (run_bind_err _ _ _ _ _ Hrun).
Qed.
End prepare.

(** [prepare_paged_prefill_batch] decides every batch. It declines, and
    changes nothing, exactly when there is no request, one without tokens, or
    two for one slot; it refuses, and changes nothing, exactly when the pages
    its requests need, each counted alone and copies on write included, are
    more than are free. Otherwise every request gets its tokens, none runs out
    of pages however they share tails, unless the driver refuses a call. *)
Theorem prefill_batch_outcome `{Driver} L R s rows :
  wf L R s -> (forall row, row ∈ rows -> row.1 < num_slots (cfg s)) ->
  exists total, batch_pages s rows total /\ exists s' r, prepare_paged_prefill_batch rows s = Done (s', r) /\
  if decide (rows <> [] /\ NoDup rows.*1 /\ Forall (fun row => 0 < row.2) rows)
  then if decide (total <= length (free_pages s)) then prepared L R s rows s' r
       else s' = s /\ r = inr (BatchOutOfPages total (length (free_pages s)))
  else s' = s /\ r = inl false.
Proof.
  intros Hwf Hlt. destruct (batch_pages_total L R s rows Hwf Hlt) as [total Ht]. exists total. split; [done|].
  case_decide as Hok.
  - destruct Hok as (Hne & Hnd & Hpos). rewrite Forall_forall in Hpos. case_decide as Hfit.
    + by apply (prepare_fits L R s Hwf rows total).
    + rewrite (prepare_run L R s Hwf rows total) by done. rewrite bool_decide_eq_true_2 by lia. by do 2 eexists.
  - exists s, (inl false). split; [|done]. unfold prepare_paged_prefill_batch. case_bool_decide as Hne; [done|].
    destruct (distinct_rows [] rows) eqn:E; [|done]. apply distinct_rows_spec in E as [Hnd Hin].
    destruct Hok. split_and!; [done..|]. apply Forall_forall. intros row Hr. by apply Hin.
Qed.

(** ** Pages given back before the batch

    Between the plan and the batch pages of cached prefixes are given back: no
    slot changes, no page is shared more than before. *)
Record reclaimed (s s' : TokenKVPool) : Prop := mkReclaimed {
  rl_cfg : cfg s' = cfg s;
  rl_tables : page_indices s' = page_indices s;
  rl_lens : seq_lens s' = seq_lens s;
  rl_attached : page_attach_count s' = page_attach_count s;
  rl_refs : forall q n', page_ref_count s' !! q = Some n' -> exists n, page_ref_count s !! q = Some n /\ (n' <= n)%N;
}.

#[export] Instance reclaimed_preorder : PreOrder reclaimed.
Proof.
  split; [intros s; constructor; try done; intros q n' ?; by exists n'|].
  intros s1 s2 s3 [H1 H2 H3 H4 H5] [K1 K2 K3 K4 K5]. constructor; [congruence..|].
  intros q n3 (n2 & Hn2 & Hle)%K5. destruct (H5 q n2 Hn2) as (n1 & ? & ?). exists n1. split; [done|lia].
Qed.

(** A page that is not shared stays unshared, and an append needs no more. *)
Lemma reclaimed_need s s' slot count n n' :
  reclaimed s s' -> append_pages_needed s slot count = Done n -> append_pages_needed s' slot count = Done n' -> n' <= n.
Proof.
  intros [Hc Ht Hl Ha Hr]. unfold append_pages_needed, append_cow_pages_needed, slot_shared_hot_tail_page, slot_hot_tail_page, slot_hot_tail_len.
  rewrite Hc, Ht, Hl. case_bool_decide; [intros [= <-] [= <-]; lia|].
  destruct (index (seq_lens s) slot) as [len| |]; cbn; [|done..]. case_bool_decide; cbn; [intros [= <-] [= <-]; lia|].
  destruct (index (page_indices s) slot) as [pages| |]; cbn; [|done..]. destruct (last pages) as [page|]; cbn; [|intros [= <-] [= <-]; lia].
  unfold page_is_shared_read_only. rewrite Ha.
  destruct (index (page_ref_count s') page) as [m'| |] eqn:Hm'; cbn; [|by intros _..].
  apply index_Done in Hm'. destruct (Hr _ _ Hm') as (m & Hm & Hle). rewrite (index_Some _ _ _ Hm). cbn.
  destruct (bool_decide (0 < m')%N) eqn:E; [apply bool_decide_eq_true_1 in E; rewrite bool_decide_eq_true_2 by lia; cbn; intros [= <-] [= <-]; lia|].
  destruct (bool_decide (0 < m)%N); cbn; (destruct (index (page_attach_count s) page) as [a| |]; cbn; [|try done..]);
    try destruct (bool_decide (1 < a)%N); cbn; intros [= <-] [= <-]; lia.
Qed.

Lemma reclaimed_batch L R s s' rows total :
  wf L R s' -> reclaimed s s' -> (forall row, row ∈ rows -> row.1 < num_slots (cfg s)) -> batch_pages s rows total ->
  exists total', batch_pages s' rows total' /\ total' <= total.
Proof.
  intros Hwf Hrec Hlt (needs & Hneeds & <-). induction Hneeds as [|row n rows needs Hn _ IH]; [exists 0; split; [by exists []|lia]|].
  destruct IH as (total & (needs' & Hneeds' & <-) & Hle); [set_solver|].
  destruct (batch_pages_total L R s' [row] Hwf) as (t & needs1 & Hone & _).
  { intros row' ->%list_elem_of_singleton. rewrite (rl_cfg _ _ Hrec). apply Hlt. left. }
  inversion Hone as [|? n' ? ? Hn' _]; subst. exists (sum_list (n' :: needs')). split; [exists (n' :: needs'); split; [by constructor|done]|].
  pose proof (reclaimed_need _ _ _ _ _ _ Hrec Hn Hn'). cbn. lia.
Qed.

(** The plan of a step against the free pages and [e] more: it exists, its rows
    are a batch, and what they take is within what was counted. *)
Lemma planned_rows e L R s tokens decode remaining cap queue :
  wf L R s -> NoDup (row_slot <$> queue) -> (forall row, row ∈ queue -> row_slot row < num_slots (cfg s)) ->
  (forall slot, slot ∈ decode -> slot < num_slots (cfg s) /\ slot ∉ row_slot <$> queue) ->
  exists b sel total, plan_prefill e tokens decode remaining cap queue s = Done (b, sel) /\
    NoDup (row_of <$> sel).*1 /\ (forall row, row ∈ row_of <$> sel -> row.1 < num_slots (cfg s) /\ 0 < row.2) /\
    batch_pages s (row_of <$> sel) total /\ total <= length (free_pages s) + e.
Proof.
  intros Hwf Hnd Hq Hd. destruct (plan_prefill_spec L R s Hwf e tokens decode remaining cap queue Hq Hd)
    as (b0 & b & sel & _ & Hrun & Hsel & _ & Hb & Hok & Hsub).
  destruct (selection_limits _ _ _ _ Hsel) as (Hsubsel & _ & _).
  assert (NoDup (pc_slot_idx <$> queued_candidates cap (page_size (cfg s)) queue)) as Hnd' by by eapply sublist_NoDup.
  assert (Forall (candidate_ok (num_slots (cfg s))) sel) as Hoksel by by eapply sublist_Forall.
  assert (forall row, row ∈ row_of <$> sel -> row.1 < num_slots (cfg s) /\ 0 < row.2) as Hrows.
  { intros row (c & -> & Hc)%list_elem_of_fmap. rewrite Forall_forall in Hoksel. by destruct (Hoksel c Hc) as [_ ? [? _]]. }
  destruct (batch_pages_total L R s (row_of <$> sel) Hwf) as [total Ht]; [intros row Hr; by apply Hrows|].
  exists b, sel, total. split_and!; [done| |done|done|].
  - rewrite <-list_fmap_compose. eapply sublist_NoDup; [|by apply (sublist_fmap pc_slot_idx)]. done.
  - etrans; [|exact (bk_free _ _ _ _ Hb)]. eapply (selection_pages e L R s b0); try done. eapply backed_subset; [|done].
    intros slot Hs. by eapply elem_of_sublist.
Qed.

(** What a reclaimed pool makes of a batch planned before. *)
Lemma reclaimed_outcome `{Driver} L R s L' R' s' rows total :
  wf L' R' s' -> reclaimed s s' -> rows <> [] -> NoDup rows.*1 ->
  (forall row, row ∈ rows -> row.1 < num_slots (cfg s) /\ 0 < row.2) -> wf L R s -> batch_pages s rows total ->
  exists total' s2 r, batch_pages s' rows total' /\ total' <= total /\
    prepare_paged_prefill_batch rows s' = Done (s2, r) /\
    if decide (total' <= length (free_pages s')) then prepared L' R' s' rows s2 r
    else s2 = s' /\ r = inr (BatchOutOfPages total' (length (free_pages s'))).
Proof.
  intros Hwf' Hrec Hne Hnd Hrows Hwf Ht.
  destruct (reclaimed_batch L' R' s s' rows total Hwf' Hrec ltac:(intros row Hr; by apply Hrows) Ht) as (total' & Ht' & Hle).
  assert (forall row, row ∈ rows -> row.1 < num_slots (cfg s')) as Hlt by (intros row Hr; rewrite (rl_cfg _ _ Hrec); by apply Hrows).
  exists total'. case_decide as Hfit.
  - destruct (prepare_fits L' R' s' Hwf' rows total') as (s2 & r & Hrun & Hp); try done; [intros row Hr; by apply Hrows|].
    by exists s2, r.
  - exists s', (inr (BatchOutOfPages total' (length (free_pages s')))). split_and!; [done|done| |done..].
    rewrite (prepare_run L' R' s' Hwf' rows total') by (done || (intros row Hr; by apply Hrows)).
    by rewrite bool_decide_eq_true_2 by lia.
Qed.

(** The prefill rows of a step are chosen in queue order: they are a
    subsequence of the queue, never more tokens than are left of the step nor
    more rows than requests are admitted, no chunk more than its request has
    left, and a head of the queue that fits alone is always among them. *)
Theorem prefill_selection_in_order e L R s tokens decode remaining cap queue :
  wf L R s -> (forall row, row ∈ queue -> row_slot row < num_slots (cfg s)) ->
  (forall slot, slot ∈ decode -> slot < num_slots (cfg s) /\ slot ∉ row_slot <$> queue) ->
  let cs := queued_candidates cap (page_size (cfg s)) queue in
  exists b0 b sel, prefill_budget e tokens decode remaining s = Done b0 /\
  plan_prefill e tokens decode remaining cap queue s = Done (b, sel) /\
  sel `sublist_of` cs /\ pc_slot_idx <$> sel `sublist_of` (row_slot <$> queue) /\
  sum_list ((row_of <$> sel).*2) <= remaining_tokens tokens /\ (N.of_nat (length sel) <= remaining_requests tokens)%N /\
  Forall (fun c => exists row, row ∈ queue /\ row_slot row = pc_slot_idx c /\
    0 < prefill_tokens (reservation c) <= row_total row - row_progress row) sel /\
  (forall c, head cs = Some c -> can_schedule b0 (reservation c) = Done true -> head sel = Some c).
Proof.
  intros Hwf Hq Hd cs. destruct (plan_prefill_spec L R s Hwf e tokens decode remaining cap queue Hq Hd)
    as (b0 & b & sel & Hb0 & Hrun & Hsel & <- & _ & _ & Hsub). fold cs in Hsel, Hsub.
  exists b0, b, sel. destruct (selection_limits _ _ _ _ Hsel) as (Hsubsel & Htok & Hreq). split_and!; try done.
  - etrans; [by apply sublist_fmap|done].
  - rewrite <-list_fmap_compose. rewrite <-Htok. change (snd ∘ row_of) with (fun c => prefill_tokens (reservation c)). lia.
  - lia.
  - eapply sublist_Forall; [done|]. apply Forall_forall. intros c Hc. apply list_elem_of_omap in Hc as (row & Hrow & E).
    destruct (capped_prefill_reservation _ _ _ _ _ _) as [r|] eqn:Er; [|done]. injection E as <-.
    apply capped_reservation_ok in Er as (_ & ? & ? & _). exists row. cbn. split_and!; [done|done|lia|lia].
  - intros c. by eapply selection_head.
Qed.

(** ** Runs of the KV pool

    A pool of four pages of 16 tokens and two slots, and the runs that apply
    the properties or show where the code falls short. *)


Definition example_config : PoolConfig := config_of (mkKVShape 1 1 1) 2 256 BF16.
Definition granting : Driver := fun _ => false.
Definition refusing : Driver := fun _ => true.

Lemma example_sound : sound_config example_config.
Proof. constructor; [constructor|..]; vm_compute; [lia|done|done|done|split; done]. Qed.

Definition next (d : Driver) (c : pool_call) (s : TokenKVPool) : TokenKVPool :=
  match call c s with Done (s', _) => s' | _ => s end.

(** Slot 0 holds 20 tokens on the pages 0 and 1; page 0 is retained, and slot 1
    shares its first 10 tokens. *)
Definition pool0 : TokenKVPool := fresh_pool example_config.
Definition pool1 : TokenKVPool := next granting (Append 0 20) pool0.
Definition pool2 : TokenKVPool := next granting (Retain [0]) pool1.
Definition pool3 : TokenKVPool := next granting (Attach 1 [0] 10) pool2.
Definition pool4 : TokenKVPool := next granting (Append 1 3) pool3.

Lemma pool3_reachable (d : Driver) : reachable pool0 true [0] pool3.
Proof.
  assert (reachable pool0 true [] pool1) as H1.
  { change true with (true && negb (loses_pages (Append 0 20) (inl [0; 1]))). eapply reachable_call; [apply reachable_new| |by vm_compute|done].
    vm_compute. lia. }
  assert (reachable pool0 true [0] pool2) as H2.
  { change true with (true && negb (loses_pages (Retain [0]) (inl []))). eapply reachable_call; [exact H1| |by vm_compute|done].
    vm_compute. split; [|done]. intros p ->%list_elem_of_singleton. left. constructor. }
  change true with (true && negb (loses_pages (Attach 1 [0] 10) (inl []))). eapply reachable_call; [exact H2| |by vm_compute|done].
  split_and!; [vm_compute; lia|done|]. intros p ->%list_elem_of_singleton. vm_compute. done.
Qed.

Lemma pool4_reachable : @reachable granting pool0 true [0] pool4.
Proof.
  change true with (true && negb (loses_pages (Append 1 3) (inl []))).
  eapply reachable_call; [apply pool3_reachable| |by vm_compute|done]. vm_compute. lia.
Qed.

Example shared_tail_copied :
  page_indices pool4 = [[0; 1]; [2]] /\ free_pages pool4 = [3] /\ seq_lens pool4 = [20; 13] /\
  page_attach_count pool4 = [1; 1; 1; 0]%N /\ page_ref_count pool4 = [1; 0; 0; 0]%N.
Proof. vm_compute. done. Qed.

Lemma pages_conserved_witness :
  sound_config example_config /\ @reachable granting (fresh_pool example_config) true [0] pool4 /\
  forall p, p ∈ free_pages pool4 <-> p < max_total_pages (cfg pool4) /\ p ∉ concat (page_indices pool4) /\ p ∉ [0].
Proof.
  split; [apply example_sound|]. split; [apply pool4_reachable|].
  apply (@pages_conserved granting example_config [0] pool4 example_sound pool4_reachable).
Defined.

Lemma append_is_private_witness :
  exists s' new, @append_tokens granting 1 3 pool3 = Done (s', inl new) /\
  forall pos, 10 <= pos < 13 -> exists q, q ∉ [0] /\
    forall slot' table i, page_indices s' !! slot' = Some table -> table !! i = Some q -> slot' = 1 /\ i = pos / 16.
Proof.
  destruct (@append_is_private granting example_config true [0] pool3 1 3 10 [0] example_sound
    (pool3_reachable granting) eq_refl eq_refl) as (n & s' & r & _ & Hrun & _ & _ & Hr).
  assert (match @append_tokens granting 1 3 pool3 with Done (_, inl _) => true | _ => false end = true) as Hok by by vm_compute.
  rewrite Hrun in Hok. destruct r as [new|e]; [|discriminate].
  exists s', new. split; [exact Hrun|]. destruct Hr as (kept & _ & _ & _ & Hw). intros pos Hpos.
  destruct (Hw pos Hpos) as (q & _ & HqR & Huniq). exists q. split; [exact HqR|exact Huniq].
Defined.

(** ** Error paths that lose pages *)

(** When the driver refuses the copy of a shared tail, the page popped for
    it is neither free nor attached by a slot nor retained, for good; and when
    [attach_pages] meets a page that is not live, the pages before it stay
    attached although no slot has them. *)
Theorem error_paths_lose_pages :
  (exists s', @append_tokens refusing 1 3 pool3 = Done (s', inr DriverRefused) /\
     2 ∉ free_pages s' /\ 2 ∉ concat (page_indices s') /\ page_ref_count s' !! 2 = Some 0%N /\
     page_attach_count s' !! 2 = Some 1%N) /\
  (exists s', attach_pages 1 [1; 3] 32 pool2 = Done (s', inr (PageNotLive 3)) /\
     occurrences 1 (concat (page_indices s')) = 1 /\ page_attach_count s' !! 1 = Some 2%N).
Proof.
  split; eexists; (split; [vm_compute; reflexivity|]).
  - split_and!; [set_solver|set_solver|reflexivity|reflexivity].
  - split; vm_compute; reflexivity.
Qed.

(** The lost page stays lost when both slots are freed and the page released. *)
Example lost_page_is_never_freed :
  let s := next refusing (Append 1 3) pool3 in
  let s' := next refusing (Release [0]) (next refusing (FreeSlot 1) (next refusing (FreeSlot 0) s)) in
  seq_lens s' = [0; 0] /\ free_pages s' = [3; 1; 0] /\ max_total_pages (cfg s') = 4.
Proof. vm_compute. done. Qed.

(** ** More pages than tokens

    [attach_pages] accepts pages beyond the tokens attached. The hot tail is
    then taken to be the last page of the table, not the page of the last
    token: an append finds it unshared, copies nothing, and its first position
    lies on the retained page. *)
Definition surplus : TokenKVPool :=
  next granting (FreeSlot 0) (next granting (Attach 1 [0; 1] 10) pool2).

Example surplus_pages_are_overwritten :
  let s := next granting (Append 1 3) surplus in
  page_indices s !! 1 = Some [0; 1] /\ seq_lens s !! 1 = Some 13 /\ page_ref_count s !! 0 = Some 1%N.
Proof. vm_compute. done. Qed.

(** ** Four-bit pages

    A transfer moves one byte per element, the [INT4] buffers hold two elements
    per byte, so the copy of a page in the upper half leaves the buffer. *)
Definition int4_config : PoolConfig := config_of (mkKVShape 1 1 2) 2 1152 INT4.
Definition int4_pool : TokenKVPool :=
  next granting (Attach 1 [1] 10) (next granting (Append 0 20) (fresh_pool int4_config)).

Example int4_copy_leaves_the_buffer :
  max_total_pages int4_config = 4 /\ page_data_elements int4_config = 32 /\
  length <$> k_data (buffers int4_pool) = [64] /\ slot_shared_hot_tail_page int4_pool 1 = Done (Some 1) /\
  @append_tokens granting 1 3 int4_pool = Panics.
Proof. vm_compute. done. Qed.

(** ** A planned step on a small pool

    Slot 1 of the example pool shares its tail with a retained page and has
    three tokens of its prompt left; slot 0 decodes. *)

Definition step_tokens : StepTokenBudget := for_prefill 64 32 1 4%N.
Definition step_queue : list PrefillRow := [mkPrefillRow 1 13 10 5].
Definition decode_headroom (slot : nat) : nat := if bool_decide (slot = 0) then 8 else 0.

Lemma pool3_wf : exists L, wf L [0] pool3.
Proof. destruct (@reachable_wf_pool granting pool0 true [0] pool3 (fresh_wf _ example_sound) (pool3_reachable granting)) as (L & ? & _). by exists L. Qed.

Example step_plan :
  match plan_prefill 0 step_tokens [0] decode_headroom 32 step_queue pool3 with
  | Done (_, sel) => row_of <$> sel = [(1, 3)]
  | _ => False
  end.
Proof. vm_compute. done. Qed.

(** With one page left for the headroom of slot 0, the copy on write of slot 1
    no longer fits. *)
Example step_plan_full :
  match plan_prefill 0 step_tokens [0] (fun _ => 40) 32 step_queue pool3 with
  | Done (_, sel) => sel = []
  | _ => False
  end.
Proof. vm_compute. done. Qed.

Lemma step_queue_slots : (forall row, row ∈ step_queue -> row_slot row < num_slots (cfg pool3)) /\
  (forall slot, slot ∈ [0] -> slot < num_slots (cfg pool3) /\ slot ∉ row_slot <$> step_queue).
Proof.
  split.
  - intros row ->%list_elem_of_singleton. vm_compute. lia.
  - intros slot ->%list_elem_of_singleton. split; [vm_compute; lia|]. intros E%list_elem_of_singleton. done.
Qed.

Lemma prefill_batch_outcome_witness :
  exists s', @prepare_paged_prefill_batch granting [(1, 3)] pool3 = Done (s', inl true) /\ seq_lens s' = [20; 13].
Proof.
  destruct pool3_wf as [L Hwf].
  destruct (@prefill_batch_outcome granting L [0] pool3 [(1, 3)] Hwf) as (total & _ & s' & r & Hrun & Hr).
  { intros row ->%list_elem_of_singleton. vm_compute. lia. }
  assert (match @prepare_paged_prefill_batch granting [(1, 3)] pool3 with Done (_, inl true) => true | _ => false end = true) as Hok
    by by vm_compute.
  rewrite Hrun in Hok. destruct r as [[]|]; try discriminate Hok. exists s'. split; [exact Hrun|].
  destruct (decide _) as [_|Hno] in Hr; [|by destruct Hr]. destruct (decide _) in Hr; [|by destruct Hr].
  destruct Hr as (_ & _ & _ & ->). by vm_compute.
Defined.

Lemma prefill_selection_in_order_witness :
  exists b sel, plan_prefill 0 step_tokens [0] decode_headroom 32 step_queue pool3 = Done (b, sel) /\
  sum_list ((row_of <$> sel).*2) <= 32.
Proof.
  destruct pool3_wf as [L Hwf].
  destruct (prefill_selection_in_order 0 L [0] pool3 step_tokens [0] decode_headroom 32 step_queue Hwf
    (proj1 step_queue_slots) (proj2 step_queue_slots)) as (b0 & b & sel & _ & Hrun & _ & _ & Hsum & _).
  exists b, sel. split; [exact Hrun|exact Hsum].
Defined.
