(* ===== verification/Utf8.v ===== *)
(** * Rust strings

    A [&str] is its bytes, a byte an [ascii]. Searching and slicing are the
    ones of the standard library; a slice that would split a character
    panics. *)

From Stdlib Require Import Ascii String.
From S2P Require Import Prelude.
Local Open Scope nat_scope.

Abbreviation text := (list ascii).
Definition lit (s : string) : text := list_ascii_of_string s.

(** ** Encoding *)
Definition byte_of (b : ascii) : nat := nat_of_ascii b.
Definition is_ascii_byte (b : ascii) : bool := byte_of b <? 128.
Definition is_continuation (b : ascii) : bool := (128 <=? byte_of b) && (byte_of b <? 192).

(** The bytes after a leading byte. *)
Definition continuations (b : ascii) : option nat :=
  if byte_of b <? 128 then Some 0
  else if byte_of b <? 192 then None
  else if byte_of b <? 224 then Some 1
  else if byte_of b <? 240 then Some 2
  else if byte_of b <? 248 then Some 3
  else None.

(** Sequences of characters; every [&str] is one. *)
Inductive utf8 : text -> Prop :=
  | utf8_nil : utf8 []
  | utf8_char lead conts rest :
      continuations lead = Some (length conts) -> Forall (fun b => is_continuation b = true) conts ->
      utf8 rest -> utf8 (lead :: conts ++ rest).

Definition is_char_boundary (t : text) (i : nat) : bool :=
  if (i =? 0) || (i =? length t) then true
  else match t !! i with Some b => negb (is_continuation b) | None => false end.

(** [&t[..i]] and [&t[i..]]; [t.drain(..i)] checks the same. *)
Definition slice_to (t : text) (i : nat) : res text := if is_char_boundary t i then Done (take i t) else Panics.
Definition slice_from (t : text) (i : nat) : res text := if is_char_boundary t i then Done (drop i t) else Panics.

(** ** Searching *)
Fixpoint starts_with (t p : text) {struct p} : bool :=
  match p, t with
  | [], _ => true
  | _ :: _, [] => false
  | a :: p, b :: t => bool_decide (a = b) && starts_with t p
  end.

Fixpoint find (t p : text) : option nat :=
  if starts_with t p then Some 0
  else match t with [] => None | _ :: t => S <$> find t p end.

Definition ends_with (t p : text) : bool := starts_with (reverse t) (reverse p).

(** [trim]: the characters with the property White_Space. *)
Definition bytes (l : list nat) : text := ascii_of_nat <$> l.
Definition white_space : list text :=
  bytes <$> ([[9]; [10]; [11]; [12]; [13]; [32]; [194; 133]; [194; 160]; [225; 154; 128]] ++
    ((fun k => [226; 128; 128 + k]) <$> seq 0 11) ++ [[226; 128; 168]; [226; 128; 169]; [226; 128; 175]; [226; 129; 159]; [227; 128; 128]]).

Fixpoint trim_fuel (fuel : nat) (spaces : list text) (t : text) : text :=
  match fuel with
  | 0 => t
  | S fuel =>
      match List.find (starts_with t) spaces with
      | Some w => trim_fuel fuel spaces (drop (length w) t)
      | None => t
      end
  end.
Definition trim_start (t : text) : text := trim_fuel (length t) white_space t.
Definition trim_end (t : text) : text := reverse (trim_fuel (length t) (reverse <$> white_space) (reverse t)).
Definition trim (t : text) : text := trim_end (trim_start t).

(** ** Searching, specified *)
Lemma starts_with_prefix t p : starts_with t p = true <-> p `prefix_of` t.
Proof.
  revert t. induction p as [|a p IH]; intros t; cbn; [split; [intros _; by exists t|done]|].
  destruct t as [|b t]; [split; [discriminate|intros [? [=]]]|].
  rewrite andb_true_iff, IH, bool_decide_eq_true. split.
  - intros [-> [k ->]]. by exists k.
  - intros [k [= -> ->]]. split; [done|by exists k].
Qed.

Lemma starts_with_app t p : starts_with (p ++ t) p = true.
Proof. apply starts_with_prefix. by exists t. Qed.

Lemma starts_with_app_l t u p : length p <= length t -> starts_with (t ++ u) p = starts_with t p.
Proof.
  intros Hl. apply eq_bool_prop_intro. rewrite !Is_true_true, !starts_with_prefix. split.
  - intros [k Hk]. exists (drop (length p) t). rewrite <-(take_drop (length p) t) at 1. f_equal.
    apply (f_equal (take (length p))) in Hk. by rewrite take_app_le, take_app_length in Hk.
  - intros [k ->]. exists (k ++ u). by rewrite app_assoc.
Qed.

(** Text found within [t] is found there. *)
Lemma at_pos_app t u p j : j + length p <= length t -> starts_with (drop j (t ++ u)) p = starts_with (drop j t) p.
Proof. intros. rewrite drop_app_le by lia. apply starts_with_app_l. rewrite length_drop. lia. Qed.

Lemma starts_with_length t p : starts_with t p = true -> length p <= length t.
Proof. intros [k ->]%starts_with_prefix. rewrite length_app. lia. Qed.

Lemma starts_with_split t p : starts_with t p = true -> t = p ++ drop (length p) t.
Proof. intros [t' ->]%starts_with_prefix. by rewrite drop_app_length. Qed.

(** [p] starts at position [i] of [t]. *)
Definition at_pos (t p : text) (i : nat) : bool := starts_with (drop i t) p.

Lemma find_Some t p i : find t p = Some i <-> i <= length t /\ at_pos t p i = true /\ forall j, j < i -> at_pos t p j = false.
Proof.
  revert i. induction t as [|b t IH]; intros i; cbn [find].
  - unfold at_pos. destruct (starts_with [] p) eqn:E.
    + split; [intros [= <-]; split_and!; [done|done|lia]|]. cbn. intros (Hi & _ & _). f_equal. lia.
    + split; [done|]. cbn. intros (Hi & H & _). assert (i = 0) as -> by lia. cbn in H. congruence.
  - destruct (starts_with (b :: t) p) eqn:E.
    + split; [intros [= <-]; split_and!; [cbn; lia|done|lia]|]. intros (_ & _ & Hj). destruct i as [|i]; [done|].
      specialize (Hj 0 ltac:(lia)). unfold at_pos in Hj. cbn in Hj. congruence.
    + destruct i as [|i].
      * split; [by destruct (find t p)|]. intros (_ & H & _). unfold at_pos in H. cbn [drop] in H. congruence.
      * rewrite fmap_Some. split.
        -- intros (i' & Hf & [= <-]). apply IH in Hf as (? & ? & Hj). split_and!; [cbn; lia|done|].
           intros [|j] Hlt; [exact E|]. apply Hj. lia.
        -- intros (Hi & H & Hj). exists i. split; [|done]. apply IH. cbn in Hi. split_and!; [lia|exact H|].
           intros j Hlt. apply (Hj (S j)). lia.
Qed.

Lemma find_None t p : find t p = None <-> forall j, j <= length t -> at_pos t p j = false.
Proof.
  split.
  - induction t as [|b t IH]; cbn [find].
    + destruct (starts_with [] p) eqn:E; [done|]. intros _ j ?. cbn in *. unfold at_pos. by replace j with 0 by lia.
    + destruct (starts_with (b :: t) p) eqn:E; [done|]. intros Hf [|j] Hj; [exact E|].
      apply IH; [by destruct (find t p)|cbn in Hj; lia].
  - intros H. destruct (find t p) as [i|] eqn:E; [|done]. apply find_Some in E as (Hi & Ht & _). by rewrite H in Ht.
Qed.

(** ** Character boundaries *)
Lemma utf8_app t1 t2 : utf8 t1 -> utf8 t2 -> utf8 (t1 ++ t2).
Proof. intros H1 H2. induction H1; [done|]. cbn. rewrite <-app_assoc. by constructor. Qed.

Lemma utf8_concat ts : Forall utf8 ts -> utf8 (concat ts).
Proof. induction 1; cbn; [constructor|by apply utf8_app]. Qed.

Lemma continuation_lead b : is_continuation b = true -> continuations b = None.
Proof.
  unfold is_continuation, continuations. rewrite andb_true_iff, Nat.leb_le, Nat.ltb_lt. intros [H1 H2].
  by rewrite (proj2 (Nat.ltb_ge _ _)), (proj2 (Nat.ltb_lt _ _)) by lia.
Qed.

Lemma ascii_lead b : is_ascii_byte b = true -> continuations b = Some 0 /\ is_continuation b = false.
Proof.
  unfold is_ascii_byte, continuations, is_continuation. intros H. rewrite H. apply Nat.ltb_lt in H.
  split; [done|]. by rewrite (proj2 (Nat.leb_gt _ _)) by lia.
Qed.

Lemma utf8_split t i b : utf8 t -> t !! i = Some b -> is_ascii_byte b = true -> utf8 (take i t) /\ utf8 (drop i t).
Proof.
  intros Ht. revert i. induction Ht as [|lead conts rest Hl Hc Hr IH]; intros [|i] Hi Hb; cbn; try done.
  { split; constructor; done. }
  change ((conts ++ rest) !! i = Some b) in Hi. destruct (decide (i < length conts)) as [Hlt|Hge].
  - rewrite lookup_app_l in Hi by done. rewrite Forall_forall in Hc. apply list_elem_of_lookup_2, Hc in Hi.
    apply ascii_lead in Hb as [_ Hb]. congruence.
  - rewrite lookup_app_r in Hi by lia. destruct (IH _ Hi Hb) as [H1 H2].
    rewrite take_app, drop_app. rewrite take_ge, (drop_ge conts) by lia. split; [by constructor|done].
Qed.

Lemma utf8_drop_ascii p t : forallb is_ascii_byte p = true -> utf8 (p ++ t) -> utf8 t.
Proof.
  induction p as [|a p IH]; [done|]. cbn. rewrite andb_true_iff. intros [Ha Hp] Ht.
  inversion Ht as [|lead conts rest Hl _ Hr [Hlead E2]]. subst lead. apply ascii_lead in Ha as [Ha _].
  rewrite Ha in Hl. injection Hl as Hl. destruct conts; [|done]. cbn in E2. subst rest. auto.
Qed.

Lemma utf8_boundary t i : i <= length t -> utf8 (drop i t) -> is_char_boundary t i = true.
Proof.
  intros Hi Ht. unfold is_char_boundary. destruct (_ || _) eqn:E; [done|].
  apply orb_false_iff in E as [_ E%Nat.eqb_neq]. rewrite <-(Nat.add_0_r i), <-lookup_drop.
  inversion Ht as [E'|lead conts rest Hl _ _ E'].
  - apply (f_equal length) in E'. rewrite length_drop in E'. cbn in E'. lia.
  - cbn. destruct (is_continuation lead) eqn:Hc; [|done]. apply continuation_lead in Hc. congruence.
Qed.

(** Slicing where ASCII text starts and after it. *)
Lemma ascii_boundary t p i :
  utf8 t -> p <> [] -> forallb is_ascii_byte p = true -> at_pos t p i = true ->
  utf8 (take i t) /\ utf8 (drop (i + length p) t) /\ i + length p <= length t /\
  is_char_boundary t i = true /\ is_char_boundary t (i + length p) = true.
Proof.
  intros Ht Hne Hp Hat. unfold at_pos in Hat. pose proof (starts_with_split _ _ Hat) as E.
  assert (i + length p <= length t) as Hlen.
  { apply (f_equal length) in E. rewrite length_app, !length_drop in E. destruct p; [done|]. cbn in *. lia. }
  destruct p as [|a p]; [done|]. assert (t !! i = Some a) as Hi.
  { rewrite <-(Nat.add_0_r i), <-lookup_drop, E. done. }
  cbn in Hp. apply andb_true_iff in Hp as [Ha Hp].
  destruct (utf8_split t i a Ht Hi Ha) as [H1 H2].
  assert (utf8 (drop (i + length (a :: p)) t)) as H3.
  { rewrite <-drop_drop. apply (utf8_drop_ascii (a :: p)); [cbn; by rewrite Ha|]. by rewrite <-E. }
  split_and!; try done; apply utf8_boundary; try done; cbn in *; lia.
Qed.

(** [&t[i..j]]. *)
Definition slice_range (t : text) (i j : nat) : res text :=
  if (i <=? j) && is_char_boundary t i && is_char_boundary t j then Done (take (j - i) (drop i t)) else Panics.

Lemma slice_range_Done t i j :
  i <= j -> is_char_boundary t i = true -> is_char_boundary t j = true -> slice_range t i j = Done (take (j - i) (drop i t)).
Proof. intros Hij Hi Hj. unfold slice_range. by rewrite (proj2 (Nat.leb_le _ _) Hij), Hi, Hj. Qed.

Lemma utf8_lead p : utf8 p -> p <> [] -> exists b, head p = Some b /\ is_continuation b = false.
Proof.
  intros [|lead conts rest Hl _ _] Hne; [done|]. exists lead. split; [done|].
  destruct (is_continuation lead) eqn:E; [|done]. apply continuation_lead in E. congruence.
Qed.

(** A character starts where text is found. *)
Lemma found_boundary t p i : utf8 p -> p <> [] -> at_pos t p i = true -> is_char_boundary t i = true.
Proof.
  intros Hp Hne Hat. destruct (utf8_lead p Hp Hne) as (b & Hb & Hc). unfold is_char_boundary.
  destruct (_ || _); [done|]. apply starts_with_split in Hat. destruct p as [|a p]; [done|]. injection Hb as ->.
  rewrite <-(Nat.add_0_r i), <-lookup_drop, Hat. cbn. by rewrite Hc.
Qed.

(** A boundary stays one when text is appended. *)
Lemma boundary_app t u i : utf8 u -> is_char_boundary t i = true -> is_char_boundary (t ++ u) i = true.
Proof.
  intros Hu. unfold is_char_boundary. rewrite length_app. destruct (Nat.eqb_spec i 0); [done|]. cbn.
  destruct (Nat.eqb_spec i (length t)) as [->|Hne].
  - intros _. destruct (Nat.eqb_spec (length t) (length t + length u)); [done|].
    destruct (decide (u = [])) as [->|Hu']; [cbn in *; lia|]. destruct (utf8_lead u Hu Hu') as (b & Hb & Hc).
    rewrite lookup_app_r, Nat.sub_diag by done. destruct u; [done|]. cbn in *. injection Hb as ->. by rewrite Hc.
  - destruct (t !! i) as [b|] eqn:Hi; [|done]. intros Hb. rewrite (lookup_app_l_Some _ _ _ _ Hi), Hb.
    by destruct (_ =? _).
Qed.

Lemma boundary_le t i : is_char_boundary t i = true -> i <= length t.
Proof.
  unfold is_char_boundary. destruct (_ || _) eqn:E.
  - intros _. apply orb_true_iff in E as [->%Nat.eqb_eq| ->%Nat.eqb_eq]; lia.
  - destruct (t !! i) eqn:Hi; [|done]. intros _. apply lookup_lt_Some in Hi. lia.
Qed.

Lemma boundary_end t : is_char_boundary t (length t) = true.
Proof. unfold is_char_boundary. by rewrite Nat.eqb_refl, orb_true_r. Qed.

Lemma utf8_ascii t : forallb is_ascii_byte t = true -> utf8 t.
Proof.
  induction t as [|a t IH]; [constructor|]. cbn [forallb]. rewrite andb_true_iff. intros [Ha Ht].
  apply (utf8_char a [] t); [by apply ascii_lead|constructor|auto].
Qed.
