(* ===== verification/StopText.v ===== *)
(** * Stop sequences

    The guard that keeps stop sequences out of a streamed answer,
    [StopChunkProcessor] of [infer/src/backend/runtime.rs], which the Metal and
    CPU backends share, and the truncation of a whole answer,
    [truncate_at_first_stop] of [infer/src/server_engine/stream.rs]. *)

From Stdlib Require Import Ascii String.
From S2P Require Import Prelude Utf8.
Local Open Scope nat_scope.

(** The loop of [clamp_char_boundary]. *)
Fixpoint clamp_loop (t : text) (idx : nat) : nat :=
  match idx with
  | 0 => 0
  | S idx' => if is_char_boundary t idx then idx else clamp_loop t idx'
  end.
Definition clamp_char_boundary (t : text) (idx : nat) : nat := clamp_loop t (Nat.min idx (length t)).

(** The search for the first stop: empty stops are passed over, [base] is
    where [t] begins. *)
Definition earlier (base : nat) (t : text) (earliest : option nat) (stop : text) : option nat :=
  if bool_decide (stop = []) then earliest
  else
    match find t stop with
    | None => earliest
    | Some pos => Some (match earliest with None => base + pos | Some e => Nat.min e (base + pos) end)
    end.
Definition earliest_stop (base : nat) (t : text) (stops : list text) : option nat := foldl (earlier base t) None stops.

Definition truncate_at_first_stop (t : text) (stops : list text) : res (option text) :=
  match earliest_stop 0 t stops with
  | None => Done None
  | Some pos => out ← slice_to t pos; Done (Some out)
  end.

(** ** The processor *)
Record StopChunkProcessor := mkProcessor {
  accumulated : text;
  sent_len : nat;
  stops : list text;
  max_stop_len : nat;
  hit_stop : bool;
}.

Definition processor_new (stops : list text) : StopChunkProcessor :=
  mkProcessor [] 0 stops (max_list (length <$> stops)) false.

Definition find_earliest_stop (s : StopChunkProcessor) : res (option nat) :=
  unsent ← slice_from (accumulated s) (sent_len s); Done (earliest_stop (sent_len s) unsent (stops s)).

Definition flush_ready (stop : nat) (s : StopChunkProcessor) : res (StopChunkProcessor * option text) :=
  if stop <=? sent_len s then Done (s, None)
  else
    delta ← slice_range (accumulated s) (sent_len s) stop;
    Done (mkProcessor (accumulated s) stop (stops s) (max_stop_len s) (hit_stop s), Some delta).

Definition push_chunk (chunk : text) (s : StopChunkProcessor) : res (StopChunkProcessor * option text) :=
  if hit_stop s then Done (s, None)
  else
    let s := mkProcessor (accumulated s ++ chunk) (sent_len s) (stops s) (max_stop_len s) (hit_stop s) in
    earliest ← find_earliest_stop s;
    match earliest with
    | Some stop_pos =>
        delta ← slice_range (accumulated s) (sent_len s) stop_pos;
        Done (mkProcessor (accumulated s) stop_pos (stops s) (max_stop_len s) true, Some delta)
    | None =>
        if max_stop_len s <=? 1 then flush_ready (length (accumulated s)) s
        else flush_ready (clamp_char_boundary (accumulated s) (length (accumulated s) - (max_stop_len s - 1))) s
    end.

Definition finish_chunks (s : StopChunkProcessor) : res (StopChunkProcessor * option text) :=
  if hit_stop s then Done (s, None) else flush_ready (length (accumulated s)) s.

(** [execute_request]: the backend hands over chunks until a stop is hit, then
    the rest is flushed. What was sent, and whether a stop was hit. *)
Fixpoint push_chunks (chunks : list text) (s : StopChunkProcessor) : res (StopChunkProcessor * text) :=
  match chunks with
  | [] => Done (s, [])
  | chunk :: chunks =>
      first ← push_chunk chunk s;
      if hit_stop first.1 then Done (first.1, default [] first.2)
      else rest ← push_chunks chunks first.1; Done (rest.1, default [] first.2 ++ rest.2)
  end.

Definition stream_with_stops (stops : list text) (chunks : list text) : res (text * bool) :=
  pushed ← push_chunks chunks (processor_new stops);
  last ← finish_chunks pushed.1;
  Done (pushed.2 ++ default [] last.2, hit_stop last.1).

(** ** Searching for stops *)

(** Some stop begins at [j]. *)
Definition stop_at (stops : list text) (t : text) (j : nat) : Prop :=
  exists stop, stop ∈ stops /\ stop <> [] /\ at_pos t stop j = true.

Lemma at_pos_le t p j : p <> [] -> at_pos t p j = true -> j + length p <= length t.
Proof.
  intros Hne Hat%starts_with_length. rewrite length_drop in Hat. destruct p; [done|]. cbn in *. lia.
Qed.

Lemma at_pos_ext t u p j : j + length p <= length t -> at_pos (t ++ u) p j = at_pos t p j.
Proof. apply at_pos_app. Qed.

Lemma earliest_stop_spec base t stops :
  match earliest_stop base t stops with
  | Some p => exists q, p = base + q /\ stop_at stops t q /\ forall j, j < q -> ~ stop_at stops t j
  | None => forall j, ~ stop_at stops t j
  end.
Proof.
  unfold earliest_stop. induction stops as [|stop stops IH] using rev_ind; cbn [foldl].
  { intros j (? & []%not_elem_of_nil & _). }
  rewrite foldl_app. cbn [foldl]. set (e := foldl _ _ _) in *. clearbody e.
  assert (forall j, stop_at (stops ++ [stop]) t j <-> stop_at stops t j \/ stop <> [] /\ at_pos t stop j = true) as Hsplit.
  { intros j. unfold stop_at. setoid_rewrite elem_of_app. setoid_rewrite list_elem_of_singleton. naive_solver. }
  unfold earlier. case_bool_decide as Hne.
  { destruct e as [p|]; [destruct IH as (q & -> & Hq & Hlt); exists q; split; [done|]; split|intros j];
      [apply Hsplit; by left|intros j Hj; rewrite Hsplit; naive_solver|rewrite Hsplit; naive_solver]. }
  destruct (find t stop) as [pos|] eqn:Hf.
  - apply find_Some in Hf as (Hle & Hat & Hfirst). destruct e as [p|].
    + destruct IH as (q & -> & Hq & Hlt). rewrite Nat.add_min_distr_l. eexists. split; [done|]. split.
      * apply Hsplit. destruct (Nat.min_spec q pos) as [[_ ->]|[_ ->]]; [by left|by right].
      * intros j Hj. rewrite Hsplit. intros [H|[_ H]]; [by apply (Hlt j); [lia|]|rewrite Hfirst in H; [done|lia]].
    + exists pos. split; [done|]. split; [apply Hsplit; by right|]. intros j Hj. rewrite Hsplit.
      intros [H|[_ H]]; [by apply (IH j)|by rewrite Hfirst in H].
  - rewrite find_None in Hf. assert (forall j, at_pos t stop j = false) as Hno.
    { intros j. destruct (decide (j <= length t)); [by apply Hf|]. destruct (at_pos t stop j) eqn:E; [|done].
      apply at_pos_le in E; [lia|done]. }
    destruct e as [p|]; [destruct IH as (q & -> & Hq & Hlt); exists q; split; [done|]; split|intros j];
      [apply Hsplit; by left|intros j Hj; rewrite Hsplit, Hno; naive_solver|rewrite Hsplit, Hno; naive_solver].
Qed.

Lemma earliest_Some base t stops q :
  stop_at stops t q -> (forall j, j < q -> ~ stop_at stops t j) -> earliest_stop base t stops = Some (base + q).
Proof.
  intros Hq Hlt. pose proof (earliest_stop_spec base t stops) as H. destruct (earliest_stop base t stops) as [p|].
  - destruct H as (q' & -> & Hq' & Hlt'). do 2 f_equal. destruct (Nat.lt_trichotomy q q') as [?|[?|?]]; [|done|].
    + by destruct (Hlt' q).
    + by destruct (Hlt q').
  - by destruct (H q).
Qed.

Lemma earliest_None base t stops : (forall j, ~ stop_at stops t j) -> earliest_stop base t stops = None.
Proof.
  intros H. pose proof (earliest_stop_spec base t stops) as Hs. destruct (earliest_stop base t stops); [|done].
  destruct Hs as (q & _ & Hq & _). by destruct (H q).
Qed.

(** Text before [i] decides the stops that end there. *)
Lemma stop_at_prefix stops t u j : stop_at stops t j -> stop_at stops (t ++ u) j.
Proof.
  intros (stop & Hin & Hne & Hat). exists stop. split_and!; [done..|]. rewrite at_pos_ext; [done|by apply at_pos_le].
Qed.

Lemma stop_at_drop stops t i j : stop_at stops (drop i t) j <-> stop_at stops t (i + j).
Proof. unfold stop_at, at_pos. by setoid_rewrite drop_drop. Qed.

Lemma clamp_spec t i : is_char_boundary t (clamp_char_boundary t i) = true /\ clamp_char_boundary t i <= i.
Proof.
  assert (forall n, is_char_boundary t (clamp_loop t n) = true /\ clamp_loop t n <= n) as H.
  { induction n as [|n [IH1 IH2]]; [done|]. cbn [clamp_loop]. destruct (is_char_boundary t (S n)) eqn:E; [done|].
    split; [done|lia]. }
  unfold clamp_char_boundary. destruct (H (Nat.min i (length t))). split; [done|lia].
Qed.

(** ** Streaming with stops

    [guarding stops seen sent]: [sent] bytes of the text seen are out, no stop
    is in it, and none that is still to come begins before [sent]. *)
Record guarding (stops : list text) (seen : text) (sent : nat) : Prop := mk_guarding {
  gd_boundary : is_char_boundary seen sent = true;
  gd_free : forall j, ~ stop_at stops seen j;
  gd_late : forall future j, j < sent -> ~ stop_at stops (seen ++ future) j;
}.

Lemma longest_stop (stops : list text) (stop : text) : stop ∈ stops -> length stop <= max_list (length <$> stops).
Proof. intros H. by apply max_list_elem_of_le, list_elem_of_fmap_2. Qed.

(** The processor while no stop was hit. *)
Definition running (stops : list text) (seen : text) (sent : nat) : StopChunkProcessor :=
  mkProcessor seen sent stops (max_list (length <$> stops)) false.

Lemma flush_spec stops seen sent stop :
  is_char_boundary seen sent = true -> is_char_boundary seen stop = true ->
  flush_ready stop (running stops seen sent) =
  Done (running stops seen (Nat.max sent stop), if stop <=? sent then None else Some (take (stop - sent) (drop sent seen))).
Proof.
  intros Hb Hs. unfold flush_ready. cbn. destruct (Nat.leb_spec stop sent).
  - by rewrite Nat.max_l by lia.
  - rewrite slice_range_Done by (done || lia). cbn. by rewrite Nat.max_r by lia.
Qed.

Lemma flushed_text (seen : text) sent stop :
  take sent seen ++ default [] (if stop <=? sent then None else Some (take (stop - sent) (drop sent seen))) = take (Nat.max sent stop) seen.
Proof.
  destruct (Nat.leb_spec stop sent); cbn.
  - by rewrite app_nil_r, Nat.max_l by lia.
  - rewrite Nat.max_r by lia. rewrite take_drop_commute.
    replace (sent + (stop - sent)) with stop by lia.
    rewrite <-(take_drop sent (take stop seen)) at 2. by rewrite take_take, Nat.min_l by lia.
Qed.

(** One chunk: either the text up to the first stop is out, or the processor
    goes on guarding. *)
Lemma push_chunk_spec stops seen sent chunk :
  Forall utf8 stops -> utf8 chunk -> guarding stops seen sent ->
  exists s out, push_chunk chunk (running stops seen sent) = Done (s, out) /\
  match earliest_stop 0 (seen ++ chunk) stops with
  | Some p => hit_stop s = true /\ take sent seen ++ default [] out = take p (seen ++ chunk)
  | None => exists sent', s = running stops (seen ++ chunk) sent' /\ guarding stops (seen ++ chunk) sent' /\
      take sent seen ++ default [] out = take sent' (seen ++ chunk)
  end.
Proof.
  intros Hstops Hchunk [Hb Hfree Hlate]. pose proof (boundary_le _ _ Hb) as Hle.
  pose proof (boundary_app seen chunk sent Hchunk Hb) as Hb'.
  replace (take sent seen) with (take sent (seen ++ chunk)) by (by rewrite take_app_le).
  assert (forall future j, j < sent -> ~ stop_at stops ((seen ++ chunk) ++ future) j) as Hlate'.
  { intros future. rewrite <-app_assoc. apply Hlate. }
  clear Hlate. unfold push_chunk, find_earliest_stop. cbn [hit_stop running accumulated sent_len StopText.stops max_stop_len].
  set (t := seen ++ chunk) in *. assert (length seen <= length t) as Hlen by (unfold t; rewrite length_app; lia). clearbody t.
  unfold slice_from. rewrite Hb'. cbn [mbind res_bind].
  pose proof (earliest_stop_spec 0 t stops) as He. destruct (earliest_stop 0 t stops) as [p|] eqn:E.
  - destruct He as (q & -> & Hq & Hlt). cbn [Nat.add]. assert (sent <= q) as Hsq.
    { destruct (decide (sent <= q)); [done|]. exfalso. apply (Hlate' [] q); [lia|]. by rewrite app_nil_r. }
    rewrite (earliest_Some sent (drop sent t) stops (q - sent)).
    + replace (sent + (q - sent)) with q by lia. destruct Hq as (stop & Hin & Hne & Hat). rewrite Forall_forall in Hstops.
      assert (is_char_boundary t q = true) as Hbq by (apply (found_boundary t stop); auto).
      rewrite slice_range_Done by done. cbn. do 2 eexists. split; [done|]. split; [done|].
      cbn. rewrite take_drop_commute. replace (sent + (q - sent)) with q by lia.
      rewrite <-(take_drop sent (take q t)) at 2. by rewrite take_take, Nat.min_l by lia.
    + apply stop_at_drop. by replace (sent + (q - sent)) with q by lia.
    + intros j Hj Hs%stop_at_drop. apply (Hlt (sent + j)); [lia|done].
  - rewrite earliest_None by (intros j Hs%stop_at_drop; by apply He in Hs).
    change (mkProcessor t sent stops (max_list (length <$> stops)) false) with (running stops t sent).
    set (stop := if max_list (length <$> stops) <=? 1 then length t else clamp_char_boundary t (length t - (max_list (length <$> stops) - 1))).
    assert (is_char_boundary t stop = true) as Hstop.
    { unfold stop. case_match; [apply boundary_end|apply clamp_spec]. }
    exists (running stops t (Nat.max sent stop)), (if stop <=? sent then None else Some (take (stop - sent) (drop sent t))).
    split; [rewrite <-flush_spec by done; unfold stop; by case_match|].
    exists (Nat.max sent stop). split; [done|]. split; [|apply flushed_text].
    constructor; [by destruct (Nat.max_spec sent stop) as [[_ ->]|[_ ->]]|done|].
    intros future j Hj. destruct (decide (j < sent)) as [Hjs|Hjs]; [by apply Hlate'|].
    intros (st & Hin & Hne & Hat). pose proof (longest_stop stops st Hin) as Hmax.
    assert (1 <= length st) by (destruct st; [done|cbn; lia]).
    assert (stop + max_list (length <$> stops) <= length t + 1) as Hs.
    { unfold stop. pose proof (proj2 (clamp_spec t (length t - (max_list (length <$> stops) - 1)))).
      destruct (Nat.leb_spec (max_list (length <$> stops)) 1); [lia|].
      destruct (decide (length t < max_list (length <$> stops) - 1)); [|lia].
      exfalso. unfold stop in Hj. destruct (Nat.leb_spec (max_list (length <$> stops)) 1); lia. }
    rewrite at_pos_ext in Hat by lia. apply (He j). by exists st.
Qed.

(** An answer cut at its first stop, and the part of the answer that has
    arrived when the first stop is complete. *)
Definition cut (stops : list text) (t : text) : text :=
  match earliest_stop 0 t stops with Some p => take p t | None => t end.
Definition has_stop (stops : list text) (t : text) : bool := bool_decide (is_Some (earliest_stop 0 t stops)).

Fixpoint until_stop (stops : list text) (seen : text) (chunks : list text) : text :=
  match chunks with
  | [] => seen
  | chunk :: chunks => let t := seen ++ chunk in if has_stop stops t then t else until_stop stops t chunks
  end.

(** No stop lies inside another one and ends before it. *)
Definition no_inner_stop (stops : list text) : Prop :=
  forall s s' j, s ∈ stops -> s' ∈ stops -> s' <> [] -> 0 < j -> at_pos s s' j = true -> j + length s' = length s.

Lemma push_chunks_spec stops chunks seen sent :
  Forall utf8 stops -> Forall utf8 chunks -> guarding stops seen sent ->
  exists s out, push_chunks chunks (running stops seen sent) = Done (s, out) /\
  let t := until_stop stops seen chunks in
  match earliest_stop 0 t stops with
  | Some p => hit_stop s = true /\ take sent seen ++ out = take p t
  | None => exists sent', s = running stops t sent' /\ guarding stops t sent' /\ take sent seen ++ out = take sent' t
  end.
Proof.
  intros Hstops Hc. revert seen sent. induction Hc as [|chunk chunks Hch _ IH]; intros seen sent Hg; cbn [push_chunks until_stop].
  { do 2 eexists. split; [done|]. rewrite earliest_None by apply Hg. exists sent. by rewrite app_nil_r. }
  destruct (push_chunk_spec stops seen sent chunk Hstops Hch Hg) as (s & out & Hrun & Hs). rewrite Hrun. cbn [mbind res_bind fst snd].
  unfold has_stop. destruct (earliest_stop 0 (seen ++ chunk) stops) as [p|] eqn:E; cbn.
  - destruct Hs as [Hhit Ht]. rewrite Hhit, E. eauto.
  - destruct Hs as (sent' & -> & Hg' & Ht). cbn [hit_stop running].
    destruct (IH _ _ Hg') as (s & out' & Hrun' & Hs). rewrite Hrun'. cbn. do 2 eexists. split; [done|]. cbn in Hs.
    rewrite app_assoc, Ht. exact Hs.
Qed.

Lemma until_stop_prefix stops seen chunks :
  (exists rest, seen ++ concat chunks = until_stop stops seen chunks ++ rest) /\
  (has_stop stops (until_stop stops seen chunks) = false -> until_stop stops seen chunks = seen ++ concat chunks).
Proof.
  revert seen. induction chunks as [|chunk chunks IH]; intros seen; cbn; [rewrite app_nil_r; split; [by exists []; rewrite app_nil_r|done]|].
  destruct (has_stop stops (seen ++ chunk)) eqn:E.
  - rewrite E. split; [|done]. exists (concat chunks). by rewrite <-app_assoc.
  - destruct (IH (seen ++ chunk)) as [IH1 IH2]. by rewrite <-!app_assoc in *.
Qed.

Lemma truncate_run stops t : Forall utf8 stops -> truncate_at_first_stop t stops =
  Done (if has_stop stops t then Some (cut stops t) else None).
Proof.
  intros Hstops. unfold truncate_at_first_stop, has_stop, cut. pose proof (earliest_stop_spec 0 t stops) as H.
  destruct (earliest_stop 0 t stops) as [p|]; [|done]. destruct H as (q & -> & (stop & Hin & Hne & Hat) & _). cbn.
  rewrite Forall_forall in Hstops. unfold slice_to. by rewrite (found_boundary t stop q (Hstops _ Hin) Hne Hat).
Qed.

Lemma has_stop_true stops t : has_stop stops t = true <-> exists j, stop_at stops t j.
Proof.
  unfold has_stop. rewrite bool_decide_eq_true. pose proof (earliest_stop_spec 0 t stops) as H.
  destruct (earliest_stop 0 t stops); [destruct H as (q & _ & Hq & _)|]; split; eauto; [intros [? [=]]|intros [j Hj]; by apply H in Hj].
Qed.

Lemma has_stop_app stops t u : has_stop stops t = true -> has_stop stops (t ++ u) = true.
Proof. rewrite !has_stop_true. intros [j Hj]. exists j. by apply stop_at_prefix. Qed.

(** The first stop of a text is the first stop of any text it begins. *)
Lemma cut_prefix stops t u :
  no_inner_stop stops -> has_stop stops t = true -> cut stops (t ++ u) = cut stops t.
Proof.
  intros Hno. unfold has_stop, cut. pose proof (earliest_stop_spec 0 t stops) as H.
  destruct (earliest_stop 0 t stops) as [p|]; [|done]. intros _. destruct H as (q & -> & Hq & Hlt). cbn [Nat.add].
  assert (q <= length t) as Hle.
  { destruct Hq as (st & _ & Hne & Hat). apply at_pos_le in Hat; [lia|done]. }
  rewrite (earliest_Some 0 (t ++ u) stops q); [by rewrite take_app_le|by apply stop_at_prefix|].
  intros j Hj (st & Hin & Hne & Hat). destruct (decide (j + length st <= length t)) as [Hin'|Hout].
  { rewrite at_pos_ext in Hat by done. apply (Hlt j Hj). by exists st. }
  destruct Hq as (st' & Hin2 & Hne2 & Hat2). pose proof (at_pos_le _ _ _ Hne2 Hat2).
  assert (at_pos st st' (q - j) = true) as Hinner.
  { rewrite <-(at_pos_ext t u) in Hat2 by lia. unfold at_pos in *. apply starts_with_split in Hat.
    replace q with (j + (q - j)) in Hat2 by lia. rewrite <-drop_drop, Hat in Hat2.
    rewrite drop_app_le in Hat2 by lia. rewrite starts_with_app_l in Hat2; [done|]. rewrite length_drop. lia. }
  apply Hno in Hinner; [lia|done|done|done|lia].
Qed.

(** C35: a streamed answer is cut at its stop sequences. However the answer is
    cut into chunks, the client gets the text before the first stop in the
    part that has arrived when a stop is complete, all of it if none comes,
    and is told which. When no stop ends inside another, this is the text
    [truncate_at_first_stop] makes of the whole answer. No character is split
    and nothing panics. *)
Theorem stops_cut_the_stream stops chunks :
  Forall utf8 stops -> Forall utf8 chunks ->
  stream_with_stops stops chunks = Done (cut stops (until_stop stops [] chunks), has_stop stops (concat chunks)) /\
  (no_inner_stop stops -> exists whole, truncate_at_first_stop (concat chunks) stops = Done whole /\
     cut stops (until_stop stops [] chunks) = default (concat chunks) whole).
Proof.
  intros Hstops Hc. destruct (until_stop_prefix stops [] chunks) as [[rest Hrest] Hall]. cbn in Hrest, Hall.
  assert (has_stop stops (until_stop stops [] chunks) = has_stop stops (concat chunks)) as Hhas.
  { destruct (has_stop stops (until_stop stops [] chunks)) eqn:E; [by rewrite Hrest, has_stop_app|by rewrite <-Hall]. }
  split.
  - unfold stream_with_stops. destruct (push_chunks_spec stops chunks [] 0 Hstops Hc) as (s & out & Hrun & Hs).
    { constructor; [done| |lia]. intros j (st & _ & Hne & Hat). apply at_pos_le in Hat; [|done]. destruct st; [done|]. cbn in Hat. lia. }
    change (processor_new stops) with (running stops [] 0). rewrite Hrun. cbn [mbind res_bind fst snd]. rewrite <-Hhas.
    unfold has_stop, cut. cbn in Hs. destruct (earliest_stop 0 _ stops) as [p|].
    + destruct Hs as [Hhit ->]. unfold finish_chunks. rewrite Hhit. cbn. by rewrite app_nil_r, Hhit.
    + destruct Hs as (sent & -> & [Hb _ _] & ->). unfold finish_chunks. cbn [hit_stop running].
      rewrite flush_spec by (done || apply boundary_end). cbn [mbind res_bind fst snd accumulated running].
      pose proof (boundary_le _ _ Hb). by rewrite flushed_text, Nat.max_r, firstn_all by done.
  - intros Hno. rewrite truncate_run by done. eexists. split; [done|]. rewrite <-Hhas.
    destruct (has_stop stops (until_stop stops [] chunks)) eqn:E; cbn.
    + rewrite Hrest. symmetry. by apply cut_prefix.
    + rewrite Hall by done. unfold cut. rewrite Hall in E by done. unfold has_stop in E.
      by destruct (earliest_stop 0 (concat chunks) stops).
Qed.

(** Stops of which one lies inside another: the answer depends on the chunks. *)
Theorem inner_stops_depend_on_chunks :
  let stops := [lit "abcd"; lit "bc"] in
  stream_with_stops stops [lit "abcd"] = Done ([], true) /\
  stream_with_stops stops [lit "abc"; lit "d"] = Done (lit "a", true) /\
  truncate_at_first_stop (lit "abcd") stops = Done (Some []).
Proof. by vm_compute. Qed.

Lemma stops_cut_the_stream_witness :
  stream_with_stops [lit "<|im_end|>"; lit "END"] [lit "hello<|im_"; lit "end|>trail"] = Done (lit "hello", true) /\
  truncate_at_first_stop (lit "hello<|im_end|>trail") [lit "<|im_end|>"; lit "END"] = Done (Some (lit "hello")).
Proof.
  destruct (stops_cut_the_stream [lit "<|im_end|>"; lit "END"] [lit "hello<|im_"; lit "end|>trail"]) as [Hstream Hwhole];
    [repeat constructor; by apply utf8_ascii..|].
  split; [rewrite Hstream; by vm_compute|]. destruct Hwhole as (whole & Hrun & Hcut).
  - intros s s' j Hs Hs' Hne Hj Hat. pose proof (at_pos_le _ _ _ Hne Hat) as Hle.
    apply elem_of_cons in Hs as [->| ->%list_elem_of_singleton]; apply elem_of_cons in Hs' as [->| ->%list_elem_of_singleton];
      cbn in Hle |- *; try lia; do 8 (destruct j as [|j]; [first [lia|discriminate Hat]|]); lia.
  - etrans; [exact Hrun|]. destruct whole as [out|]; [|by vm_compute in Hrun]. f_equal. f_equal.
    etrans; [symmetry; exact Hcut|]. by vm_compute.
Defined.
