(* ===== verification/Tokenizer.v ===== *)
(** * The tokenizer

    [infer/src/tokenizer.rs]: decoding with a fallback for tokens that do not
    decode, and incremental decoding. The tokenizer library is the class
    [HfTokenizer]; its decode stream holds back the bytes of a character until
    they are complete. Encoding and fingerprints, which only pass through, are
    left out. *)

From Stdlib Require Import Ascii String.
From S2P Require Import Prelude Utf8.
Local Open Scope nat_scope.

(** [Tokenizer::decode], [decode_stream] and [DecodeStream::step] of the
    library. *)
Class HfTokenizer := {
  hf_decode : list N -> option text;
  DecodeStream : Type;
  decode_stream : DecodeStream;
  hf_step : N -> DecodeStream -> option (option text) * DecodeStream;
}.

(** [str::strip_prefix]. *)
Definition strip_prefix (t p : text) : option text := if starts_with t p then Some (drop (length p) t) else None.

Section tokenizer.
Context `{HfTokenizer}.

Definition decode_strict (ids : list N) : option text := hf_decode ids.

Record IncrementalDecoder := mkDecoder {
  inner : DecodeStream;
  decoder_token_ids : list N;
  emitted_text : text;
}.
Definition incremental_decoder : IncrementalDecoder := mkDecoder decode_stream [] [].

(** A failed step has kept the token. *)
Definition decoder_step (token_id : N) (d : IncrementalDecoder) : option (option text) * IncrementalDecoder :=
  let '(chunk, s) := hf_step token_id (inner d) in
  let ids := decoder_token_ids d ++ [token_id] in
  match chunk with
  | Some (Some t) => (chunk, mkDecoder s ids (emitted_text d ++ t))
  | _ => (chunk, mkDecoder s ids (emitted_text d))
  end.

Definition decoder_finish (d : IncrementalDecoder) : option (option text) * IncrementalDecoder :=
  match decode_strict (decoder_token_ids d) with
  | None => (None, d)
  | Some decoded =>
      match strip_prefix decoded (emitted_text d) with
      | None => (None, d)
      | Some suffix =>
          if bool_decide (suffix = []) then (Some None, d)
          else (Some (Some suffix), mkDecoder (inner d) (decoder_token_ids d) (emitted_text d ++ suffix))
      end
  end.

Definition finish_lossy (d : IncrementalDecoder) : option text :=
  decoded ← decode_strict (decoder_token_ids d);
  suffix ← strip_prefix decoded (emitted_text d);
  if bool_decide (suffix = []) then None else Some suffix.

Definition replacement_character : text := bytes [239; 191; 189].

(** The loop of [decode_lossy]: a token that does not decode is replaced, and
    decoding begins anew after it. *)
Fixpoint lossy_loop (ids : list N) (d : IncrementalDecoder) (out : text) : text :=
  match ids with
  | [] => out ++ default [] (finish_lossy d)
  | id :: ids =>
      match decoder_step id d with
      | (Some (Some chunk), d) => lossy_loop ids d (out ++ chunk)
      | (Some None, d) => lossy_loop ids d out
      | (None, _) => lossy_loop ids incremental_decoder (out ++ replacement_character)
      end
  end.
Definition decode_lossy (ids : list N) : text := lossy_loop ids incremental_decoder [].

Definition decode (ids : list N) : option text :=
  match decode_strict ids with
  | Some t => Some t
  | None => let lossy := decode_lossy ids in if bool_decide (lossy = []) && negb (bool_decide (ids = [])) then None else Some lossy
  end.

(** A decoder is given tokens; what it returned, and whether every step
    succeeded. *)
Fixpoint decoder_steps (ids : list N) (d : IncrementalDecoder) : option text * IncrementalDecoder :=
  match ids with
  | [] => (Some [], d)
  | id :: ids =>
      match decoder_step id d with
      | (None, d) => (None, d)
      | (Some chunk, d) => let '(rest, d) := decoder_steps ids d in ((fun rest => default [] chunk ++ rest) <$> rest, d)
      end
  end.

(** ** Lemmas *)
Lemma strip_prefix_Some t p u : strip_prefix t p = Some u <-> t = p ++ u.
Proof.
  unfold strip_prefix. split.
  - destruct (starts_with t p) eqn:E; [|done]. intros [= <-]. by apply starts_with_split.
  - intros ->. by rewrite starts_with_app, drop_app_length.
Qed.

Lemma decoder_step_state id d d' chunk :
  decoder_step id d = (Some chunk, d') ->
  decoder_token_ids d' = decoder_token_ids d ++ [id] /\ emitted_text d' = emitted_text d ++ default [] chunk.
Proof.
  unfold decoder_step. destruct (hf_step id (inner d)) as [[[t|]|] s]; intros [= <- <-]; [done|].
  cbn. by rewrite app_nil_r.
Qed.

Lemma decoder_steps_state ids d d' out :
  decoder_steps ids d = (Some out, d') ->
  decoder_token_ids d' = decoder_token_ids d ++ ids /\ emitted_text d' = emitted_text d ++ out.
Proof.
  revert d d' out. induction ids as [|id ids IH]; intros d d' out; cbn [decoder_steps].
  { intros [= <- <-]. by rewrite !app_nil_r. }
  destruct (decoder_step id d) as [[chunk|] d1] eqn:E; [|done]. apply decoder_step_state in E as [Hi He].
  destruct (decoder_steps ids d1) as [[rest|] d2] eqn:E2; [|done]. intros [= <- <-]. apply IH in E2 as [-> ->].
  rewrite Hi, He. by rewrite <-!app_assoc.
Qed.

Lemma lossy_loop_steps ids d d' out t :
  decoder_steps ids d = (Some t, d') -> lossy_loop ids d out = out ++ t ++ default [] (finish_lossy d').
Proof.
  revert d out t. induction ids as [|id ids IH]; intros d out t; cbn [lossy_loop decoder_steps]; [by intros [= <- <-]|].
  destruct (decoder_step id d) as [[chunk|] d1]; [|done].
  destruct (decoder_steps ids d1) as [[rest|] d2] eqn:E; [|done]. intros [= <- <-].
  destruct chunk as [chunk|]; rewrite (IH _ _ _ E); [by rewrite <-!app_assoc|done].
Qed.
End tokenizer.

(** Decoding token by token gives the text of the tokens. When the steps
    and the finish of an incremental decoder succeed, what they returned is
    exactly what decoding the tokens at once returns, and the finish fails
    exactly when what was returned before is not the beginning of it; the
    lossy fallback returns at least what was returned. *)
Theorem incremental_decode `{HfTokenizer} ids out d :
  decoder_steps ids incremental_decoder = (Some out, d) ->
  match decoder_finish d with
  | (Some last, d') => decode ids = Some (out ++ default [] last) /\ emitted_text d' = out ++ default [] last /\
      decode_lossy ids = out ++ default [] last
  | (None, _) => decode_lossy ids = out /\ forall whole, decode_strict ids = Some whole -> ~ out `prefix_of` whole
  end.
Proof.
  intros Hrun. pose proof (decoder_steps_state _ _ _ _ Hrun) as [Hids Hem]. cbn in Hids, Hem.
  assert (decode_lossy ids = out ++ default [] (finish_lossy d)) as Hlossy by (by apply (lossy_loop_steps _ _ _ []) in Hrun).
  revert Hlossy. unfold decoder_finish, finish_lossy, decode. rewrite Hids, Hem. cbn [app].
  destruct (decode_strict ids) as [whole|] eqn:E; cbn [mbind option_bind]; [|intros ->; cbn; by rewrite app_nil_r].
  destruct (strip_prefix whole out) as [suffix|] eqn:Es; cbn [mbind option_bind].
  - apply strip_prefix_Some in Es as ->. case_bool_decide as Hs; intros ->; cbn [default from_option]; unfold id; [|done].
    subst suffix. by rewrite !app_nil_r, Hem.
  - intros ->. cbn. rewrite app_nil_r. split; [done|]. intros whole' [= <-] [suffix ->].
    assert (strip_prefix (out ++ suffix) out = Some suffix) by (by apply strip_prefix_Some). congruence.
Qed.
