(* ===== verification/EmitStream.v ===== *)
(** * Emitting the text of an answer

    How the CUDA scheduler turns generated tokens into text deltas:
    [StreamDecodeState] and [check_stop_sequences] of
    [infer/src/scheduler/cuda/request.rs], and the worker thread of
    [scheduler/cuda/core/emit_worker.rs] as a handler of its commands. The
    tokenizer is the class [Tokenizer]. A delta goes to the channel its client
    is named by; log probabilities and traces are left out. *)

From Stdlib Require Import Ascii String.
From S2P Require Import Prelude Utf8 StopText Tokenizer.
Local Open Scope nat_scope.

(** [str::floor_char_boundary] is the loop of [clamp_char_boundary]. *)
Definition floor_char_boundary (t : text) (i : nat) : nat := clamp_char_boundary t i.

(** ** Data *)
Inductive FinishReason := FinishLength | FinishStop.

Record Delta := mkDelta {
  text_delta : text;
  finish_reason : option FinishReason;
  usage : option (nat * nat * nat);
  token_ids : list N;
}.

Record StreamDecodeState := mkStreamState {
  full_decoded : text;
  decoded_token_count : nat;
  sd_sent_len : nat;
  prefix_byte_len : nat;
}.
Definition stream_state_default : StreamDecodeState := mkStreamState [] 0 0 0.

Inductive EmitOutcome := EmitContinue | EmitFinished.

(** ** Stop sequences *)
Inductive StopCheckResult := NoStop (safe_len : nat) | StopFound (stop_pos : nat).

(** The stop listed first among those that occur, not the one that begins
    first. *)
Fixpoint first_listed (t : text) (stops : list text) : option nat :=
  match stops with
  | [] => None
  | stop :: stops =>
      if bool_decide (stop = []) then first_listed t stops
      else match find t stop with Some pos => Some pos | None => first_listed t stops end
  end.

Definition check_stop_sequences (t : text) (stops : list text) : StopCheckResult :=
  match first_listed t stops with
  | Some stop_pos => StopFound stop_pos
  | None => NoStop (floor_char_boundary t (length t - max_list (length <$> stops)))
  end.

(** ** The stream of one request *)
Definition text_only (t : text) : Delta := mkDelta t None None [].
Definition send_finish (prompt_tokens completion_tokens : nat) (reason : FinishReason) (generated : list N) : Delta :=
  mkDelta [] (Some reason) (Some (prompt_tokens, completion_tokens, prompt_tokens + completion_tokens)) generated.

Definition slice_send (t : text) (i j : nat) : res (list Delta) :=
  if i <? j then out ← slice_range t i j; Done [text_only out] else Done [].

Section emit.
Context `{HfTokenizer}.

Definition overlap : nat := 4.

(** The text after more tokens: the last [overlap] tokens are decoded again. *)
Definition redecode (generated : list N) (s : StreamDecodeState) : res (option StreamDecodeState) :=
  let n := length generated in
  let safe_point := decoded_token_count s - overlap in
  if n <? safe_point then Panics
  else
    match decode (drop safe_point generated) with
    | None => Done None
    | Some new_text =>
        full ← (if 0 <? safe_point
                then kept ← slice_to (full_decoded s)
                       (floor_char_boundary (full_decoded s) (Nat.min (prefix_byte_len s) (length (full_decoded s))));
                     Done (kept ++ new_text)
                else Done new_text);
        let new_safe := n - overlap in
        let prefix :=
          if 0 <? new_safe
          then floor_char_boundary full (length full - length (default [] (decode (drop new_safe generated))))
          else 0 in
        Done (Some (mkStreamState full n (sd_sent_len s) prefix))
    end.

Definition set_sent (n : nat) (s : StreamDecodeState) : StreamDecodeState :=
  mkStreamState (full_decoded s) (decoded_token_count s) n (prefix_byte_len s).

Definition emit_delta (generated : list N) (stops : option (list text)) (prompt_tokens : nat) (s : StreamDecodeState)
  : res (StreamDecodeState * list Delta * EmitOutcome) :=
  if length generated =? 0 then Done (s, [], EmitContinue)
  else
    decoded ← redecode generated s;
    match decoded with
    | None => Done (s, [], EmitContinue)
    | Some s =>
        let full := full_decoded s in
        match stops with
        | Some stops =>
            match check_stop_sequences full stops with
            | StopFound stop_pos =>
                deltas ← slice_send full (sd_sent_len s) stop_pos;
                Done (set_sent stop_pos s,
                  deltas ++ [send_finish prompt_tokens (length generated) FinishStop generated], EmitFinished)
            | NoStop safe_len =>
                deltas ← slice_send full (sd_sent_len s) safe_len;
                Done (set_sent (Nat.max (sd_sent_len s) safe_len) s, deltas, EmitContinue)
            end
        | None =>
            if sd_sent_len s <? length full then
              let start := floor_char_boundary full (sd_sent_len s) in
              deltas ← (if start <? length full then out ← slice_from full start; Done [text_only out] else Done []);
              Done (set_sent (length full) s, deltas, EmitContinue)
            else Done (s, [], EmitContinue)
        end
    end.

Definition finish_stream (generated : list N) (prompt_tokens : nat) (reason : FinishReason) (stops : option (list text))
  (s : StreamDecodeState) : res (list Delta) :=
  deltas ← (if length generated =? 0 then Done []
            else
              match decode generated with
              | None => Done []
              | Some full_text =>
                  let stop :=
                    match stops with
                    | None => length full_text
                    | Some stops =>
                        match check_stop_sequences full_text stops with
                        | StopFound stop_pos => stop_pos
                        | NoStop _ => length full_text
                        end
                    end in
                  slice_send full_text (floor_char_boundary full_text (sd_sent_len s)) (floor_char_boundary full_text stop)
              end);
  Done (deltas ++ [send_finish prompt_tokens (length generated) reason generated]).

(** ** The worker *)
Inductive EmitCommand :=
  | Append (request_id : N) (prompt_tokens : nat) (tokens : list N) (delta_tx : N) (stops : option (list text)) (gated : bool)
  | Finish (request_id : N) (prompt_tokens : nat) (generated_tokens : list N) (reason : FinishReason) (delta_tx : N)
      (stops : option (list text))
  | Abort (request_id : N).

Record EmitWorkerRequest := mkWorkerRequest {
  wr_prompt_tokens : nat;
  wr_generated : list N;
  wr_delta_tx : N;
  wr_stream : StreamDecodeState;
  wr_stops : option (list text);
}.

(** The requests streaming, what was sent to the clients, and the gate events
    for the scheduler. *)
Record EmitWorker := mkEmitWorker {
  streaming : gmap N EmitWorkerRequest;
  delivered : list (N * Delta);
  gate_events : list (N * bool);
}.

Definition deliver (tx : N) (deltas : list Delta) (w : EmitWorker) : EmitWorker :=
  mkEmitWorker (streaming w) (delivered w ++ ((fun d => (tx, d)) <$> deltas)) (gate_events w).
Definition set_streaming (m : gmap N EmitWorkerRequest) (w : EmitWorker) : EmitWorker :=
  mkEmitWorker m (delivered w) (gate_events w).
Definition send_gate (id : N) (finished : bool) (w : EmitWorker) : EmitWorker :=
  mkEmitWorker (streaming w) (delivered w) (gate_events w ++ [(id, finished)]).

Definition handle_emit (stream_interval : nat) (c : EmitCommand) (w : EmitWorker) : res EmitWorker :=
  match c with
  | Append id prompt_tokens tokens delta_tx stops gated =>
      let state := default (mkWorkerRequest prompt_tokens [] delta_tx stream_state_default stops) (streaming w !! id) in
      let generated := wr_generated state ++ tokens in
      let should_flush := Nat.max stream_interval 1 <=? length generated - decoded_token_count (wr_stream state) in
      r ← (if should_flush || gated
           then emit_delta generated (wr_stops state) (wr_prompt_tokens state) (wr_stream state)
           else Done (wr_stream state, [], EmitContinue));
      let '(stream, deltas, outcome) := r in
      let state := mkWorkerRequest (wr_prompt_tokens state) generated (wr_delta_tx state) stream (wr_stops state) in
      let w := deliver (wr_delta_tx state) deltas (set_streaming (<[id := state]> (streaming w)) w) in
      if gated then
        match outcome with
        | EmitFinished => Done (set_streaming (delete id (streaming w)) (send_gate id true w))
        | EmitContinue => Done (send_gate id false w)
        end
      else Done w
  | Finish id prompt_tokens generated reason delta_tx stops =>
      match streaming w !! id with
      | Some state =>
          let tokens := if length (wr_generated state) <? length generated then generated else wr_generated state in
          deltas ← finish_stream tokens (wr_prompt_tokens state) reason (wr_stops state) (wr_stream state);
          Done (deliver (wr_delta_tx state) deltas (set_streaming (delete id (streaming w)) w))
      | None =>
          deltas ← finish_stream generated prompt_tokens reason stops stream_state_default;
          Done (deliver delta_tx deltas w)
      end
  | Abort id => Done (set_streaming (delete id (streaming w)) w)
  end.
End emit.

(** ** What is relied on of a tokenizer

    Of its decoder, and only where tokens stand for whole characters: the
    predicate [whole_token] says which do. (All tokens of a tokenizer of words
    or characters; of a byte-level one the tokens whose bytes are valid UTF-8,
    but not the pieces a rare character is split into.) On a list of such tokens
    decoding succeeds; more tokens append whole characters, and what the tokens
    before a given one contribute does not depend on those after it. (A decoder
    that drops the space before the first token still fits.) Nothing is said of
    what a list with other tokens decodes to; [text_of] is then any text that
    fits the laws. *)
Class TokenizerLaws `{HfTokenizer} := {
  whole_token : N -> Prop;
  text_of : list N -> text;
  hf_decode_text l : Forall whole_token l -> hf_decode l = Some (text_of l);
  text_nil : text_of [] = [];
  text_utf8 l : utf8 (text_of l);
  text_grows l m : exists u, utf8 u /\ text_of (l ++ m) = text_of l ++ u;
  text_split a x : exists h, forall b, text_of (a ++ x :: b) = h ++ text_of (x :: b);
}.

(** ** Lemmas *)
Lemma decode_text `{TokenizerLaws} l : Forall whole_token l -> decode l = Some (text_of l).
Proof. intros Hl. unfold decode, decode_strict. by rewrite hf_decode_text. Qed.

Definition texts (ds : list Delta) : text := concat (text_delta <$> ds).
Definition silent (d : Delta) : Prop := finish_reason d = None /\ usage d = None /\ token_ids d = [].

Lemma floor_boundary t i : is_char_boundary t i = true -> floor_char_boundary t i = i.
Proof.
  intros Hb. pose proof (boundary_le _ _ Hb) as Hle. unfold floor_char_boundary, clamp_char_boundary.
  rewrite Nat.min_l by done. destruct i as [|i]; [done|]. cbn [clamp_loop]. by rewrite Hb.
Qed.

Lemma first_listed_spec t stops :
  match first_listed t stops with
  | Some p => stop_at stops t p
  | None => forall j, ~ stop_at stops t j
  end.
Proof.
  induction stops as [|stop stops IH]; cbn [first_listed]; [by intros j (? & []%not_elem_of_nil & _)|].
  assert (forall j, stop_at (stop :: stops) t j <-> stop <> [] /\ at_pos t stop j = true \/ stop_at stops t j) as Hsplit.
  { intros j. unfold stop_at. setoid_rewrite elem_of_cons. naive_solver. }
  case_bool_decide as Hne.
  { destruct (first_listed t stops); [apply Hsplit; by right|]. intros j. rewrite Hsplit. naive_solver. }
  destruct (find t stop) as [pos|] eqn:Hf.
  - apply find_Some in Hf as (_ & Hat & _). apply Hsplit. by left.
  - rewrite find_None in Hf. assert (forall j, at_pos t stop j = false) as Hno.
    { intros j. destruct (decide (j <= length t)); [by apply Hf|]. destruct (at_pos t stop j) eqn:E; [|done].
      apply at_pos_le in E; [lia|done]. }
    destruct (first_listed t stops); [apply Hsplit; by right|]. intros j. rewrite Hsplit, Hno. naive_solver.
Qed.

(** What the client may see of an answer. *)
Definition visible (stops : option (list text)) (t : text) : text :=
  match first_listed t (default [] stops) with Some p => take p t | None => t end.

Lemma take_slice (t : text) i j : i <= j -> take i t ++ take (j - i) (drop i t) = take j t.
Proof.
  intros. rewrite take_drop_commute. replace (i + (j - i)) with j by lia.
  rewrite <-(take_drop i (take j t)) at 2. by rewrite take_take, Nat.min_l by lia.
Qed.

Lemma slice_send_spec t i j :
  i <= j -> is_char_boundary t i = true -> is_char_boundary t j = true ->
  exists ds, slice_send t i j = Done ds /\ take i t ++ texts ds = take j t /\ Forall silent ds.
Proof.
  intros Hij Hi Hj. unfold slice_send. destruct (Nat.ltb_spec i j).
  - rewrite slice_range_Done by done. eexists. split; [done|]. split; [|by repeat constructor].
    unfold texts. cbn. rewrite app_nil_r. by apply take_slice.
  - exists []. cbn. rewrite app_nil_r. by replace j with i by lia.
Qed.

Section stream.
Context `{TokenizerLaws}.

(** The stream after the tokens [l]. *)
Record stream_ok (l : list N) (s : StreamDecodeState) : Prop := mk_stream_ok {
  so_full : full_decoded s = text_of l;
  so_count : decoded_token_count s = length l;
  so_sent : is_char_boundary (text_of l) (sd_sent_len s) = true;
  so_prefix : overlap < length l -> is_char_boundary (text_of l) (prefix_byte_len s) = true /\
    forall m, text_of (l ++ m) = take (prefix_byte_len s) (text_of l) ++ text_of (drop (length l - overlap) (l ++ m));
}.

Lemma stream_ok_nil : stream_ok [] stream_state_default.
Proof. constructor; cbn; rewrite ?text_nil; done || lia. Qed.

Lemma sent_later l m i : is_char_boundary (text_of l) i = true -> is_char_boundary (text_of (l ++ m)) i = true.
Proof. intros. destruct (text_grows l m) as (u & Hu & ->). by apply boundary_app. Qed.

Lemma redecode_spec l m s :
  Forall whole_token (l ++ m) -> stream_ok l s -> exists s', redecode (l ++ m) s = Done (Some s') /\ sd_sent_len s' = sd_sent_len s /\ stream_ok (l ++ m) s'.
Proof.
  intros Hwhole [Hfull Hcount Hsent Hpre]. unfold redecode.
  rewrite Hcount, length_app, decode_text by (by apply Forall_drop).
  rewrite (proj2 (Nat.ltb_ge _ _)) by lia.
  set (full := (if 0 <? length l - overlap then _ else _) : res text).
  assert (full = Done (text_of (l ++ m))) as ->.
  { unfold full. destruct (Nat.ltb_spec 0 (length l - overlap)) as [Hlt|Hge].
    - destruct Hpre as [Hb Heq]; [lia|]. rewrite Hfull, Nat.min_l by (by apply boundary_le). rewrite floor_boundary by done.
      unfold slice_to. rewrite Hb. cbn. by rewrite <-Heq.
    - by replace (length l - overlap) with 0 by lia. }
  cbn [mbind res_bind]. eexists. split; [done|]. split; [done|]. constructor;
    cbn [full_decoded decoded_token_count sd_sent_len prefix_byte_len]; [done|by rewrite length_app|by apply sent_later|].
  rewrite length_app. intros Hlong. rewrite (proj2 (Nat.ltb_lt _ _)) by lia. rewrite decode_text by (by apply Forall_drop). cbn [default from_option]. unfold id.
  set (k := length l + length m - overlap). destruct (drop k (l ++ m)) as [|x b] eqn:E.
  { apply (f_equal length) in E. rewrite length_drop, length_app in E. cbn in E. unfold k, overlap in *. lia. }
  destruct (text_split (take k (l ++ m)) x) as [h Hh].
  assert (text_of (l ++ m) = h ++ text_of (x :: b)) as Ht by (by rewrite <-Hh, <-E, take_drop).
  assert (is_char_boundary (text_of (l ++ m)) (length h) = true) as Hb.
  { rewrite Ht. apply boundary_app; [apply text_utf8|apply boundary_end]. }
  replace (length (text_of (l ++ m)) - length (text_of (x :: b))) with (length h) by (rewrite Ht, length_app; lia).
  rewrite floor_boundary by done. split; [done|]. intros m'. rewrite Ht, take_app_length.
  rewrite (drop_app_le _ _ k) by (rewrite length_app; unfold k; lia). rewrite E. cbn. rewrite <-Hh.
  rewrite <-(take_drop k (l ++ m)) at 1. by rewrite E, <-app_assoc.
Qed.

(** Nothing sent has to be taken back: no stop is in the text, and none that
    is still to come begins before what was sent. *)
Record stream_guarded (stops : option (list text)) (l : list N) (s : StreamDecodeState) : Prop := mk_stream_guarded {
  sg_ok : stream_ok l s;
  sg_free : forall j, ~ stop_at (default [] stops) (text_of l) j;
  sg_late : forall future j, j < sd_sent_len s -> ~ stop_at (default [] stops) (text_of l ++ future) j;
}.

Lemma stop_at_nil stops j : ~ stop_at stops [] j.
Proof. intros (st & _ & Hne & Hat). apply at_pos_le in Hat; [|done]. destruct st; [done|]. cbn in Hat. lia. Qed.

Lemma stream_guarded_nil stops : stream_guarded stops [] stream_state_default.
Proof. constructor; [apply stream_ok_nil|rewrite text_nil; apply stop_at_nil|cbn; lia]. Qed.

(** A stop in the text of more tokens begins after what was sent. *)
Lemma stop_after_sent stops l m s p :
  Forall utf8 (default [] stops) -> stream_guarded stops l s -> stop_at (default [] stops) (text_of (l ++ m)) p ->
  sd_sent_len s <= p /\ is_char_boundary (text_of (l ++ m)) p = true.
Proof.
  intros Hst [_ _ Hlate] Hp. split.
  - destruct (text_grows l m) as (u & _ & E). rewrite E in Hp. destruct (decide (sd_sent_len s <= p)); [done|].
    exfalso. apply (Hlate u p); [lia|done].
  - destruct Hp as (stop & Hin & Hne & Hat). rewrite Forall_forall in Hst. by apply (found_boundary _ stop); auto.
Qed.

Lemma guarded_more stops l m s s' :
  stream_guarded stops l s -> stream_ok (l ++ m) s' -> (forall j, ~ stop_at (default [] stops) (text_of (l ++ m)) j) ->
  (forall j stop, sd_sent_len s <= j < sd_sent_len s' -> stop ∈ default [] stops -> j + length stop <= length (text_of (l ++ m))) ->
  stream_guarded stops (l ++ m) s'.
Proof.
  intros [_ _ Hlate] Hok Hfree Hlen. constructor; [done..|]. intros future j Hj Hs.
  destruct (decide (j < sd_sent_len s)) as [Hlt|Hge].
  - destruct (text_grows l m) as (u & _ & E). rewrite E, <-app_assoc in Hs. by eapply Hlate.
  - destruct Hs as (stop & Hin & Hne & Hat). rewrite at_pos_ext in Hat by (apply Hlen; [lia|done]).
    apply (Hfree j). by exists stop.
Qed.

Lemma sent_text stops l m s : stream_guarded stops l s -> take (sd_sent_len s) (text_of l) = take (sd_sent_len s) (text_of (l ++ m)).
Proof. intros [[_ _ Hb _] _ _]. destruct (text_grows l m) as (u & _ & ->). by rewrite take_app_le by (by apply boundary_le). Qed.

Lemma set_sent_ok l s n : stream_ok l s -> is_char_boundary (text_of l) n = true -> stream_ok l (set_sent n s).
Proof. intros [? ? ? ?] Hn. by constructor. Qed.

(** What one flush sends: everything that is safe, or up to the stop, and then
    the end. *)
Lemma emit_delta_spec stops pt l m s :
  Forall whole_token (l ++ m) -> Forall utf8 (default [] stops) -> stream_guarded stops l s ->
  exists s' ds outcome, emit_delta (l ++ m) stops pt s = Done (s', ds, outcome) /\
  match first_listed (text_of (l ++ m)) (default [] stops) with
  | Some p => outcome = EmitFinished /\ exists out, Forall silent out /\
      ds = out ++ [send_finish pt (length (l ++ m)) FinishStop (l ++ m)] /\
      take (sd_sent_len s) (text_of l) ++ texts out = take p (text_of (l ++ m))
  | None => outcome = EmitContinue /\ Forall silent ds /\ stream_guarded stops (l ++ m) s' /\
      take (sd_sent_len s) (text_of l) ++ texts ds = take (sd_sent_len s') (text_of (l ++ m))
  end.
Proof.
  intros Hwhole Hst Hg. rewrite (sent_text stops l m s Hg). pose proof Hg as [Hok _ _]. unfold emit_delta.
  pose proof (first_listed_spec (text_of (l ++ m)) (default [] stops)) as Hfirst.
  destruct (Nat.eqb_spec (length (l ++ m)) 0) as [Hz|_].
  { apply nil_length_inv, app_eq_nil in Hz as [-> ->]. cbn in *. rewrite text_nil in *. do 3 eexists. split; [done|].
    destruct (first_listed _ _); [by apply stop_at_nil in Hfirst|]. by rewrite app_nil_r. }
  destruct (redecode_spec l m s Hwhole Hok) as (s1 & -> & Hs1 & Hok1). cbn [mbind res_bind]. rewrite (so_full _ _ Hok1), Hs1.
  set (t := text_of (l ++ m)) in *.
  assert (is_char_boundary t (sd_sent_len s) = true) as Hb by (rewrite <-Hs1; apply Hok1). pose proof (boundary_le _ _ Hb) as Hle.
  destruct stops as [stops|]; cbn [default from_option] in *; unfold id in *.
  - unfold check_stop_sequences. destruct (first_listed t stops) as [p|] eqn:E.
    + destruct (stop_after_sent (Some stops) l m s p Hst Hg Hfirst) as [Hsp Hbp].
      destruct (slice_send_spec t (sd_sent_len s) p Hsp Hb Hbp) as (out & -> & Ht & Hsil). cbn [mbind res_bind].
      do 3 eexists. split; [done|]. split; [done|]. by exists out.
    + set (safe := floor_char_boundary t _). assert (is_char_boundary t safe = true) as Hbs by apply clamp_spec.
      assert (safe <= length t - max_list (length <$> stops)) as Hsafe by apply clamp_spec.
      assert (exists ds, slice_send t (sd_sent_len s) safe = Done ds /\
        take (sd_sent_len s) t ++ texts ds = take (Nat.max (sd_sent_len s) safe) t /\ Forall silent ds) as (ds & -> & Ht & Hsil).
      { destruct (decide (sd_sent_len s <= safe)); [rewrite Nat.max_r by done; by apply slice_send_spec|].
        exists []. unfold slice_send. rewrite (proj2 (Nat.ltb_ge _ _)), Nat.max_l by lia. cbn. by rewrite app_nil_r. }
      cbn [mbind res_bind]. do 3 eexists. split; [done|]. split_and!; [done..| |done].
      apply (guarded_more (Some stops) l m s); [done| |done|].
      * apply set_sent_ok; [done|]. fold t. by destruct (Nat.max_spec (sd_sent_len s) safe) as [[_ ->]|[_ ->]].
      * cbn. intros j stop Hj Hin. pose proof (longest_stop stops stop Hin). unfold t in *. lia.
  - cbn [first_listed] in *. destruct (Nat.ltb_spec (sd_sent_len s) (length t)) as [Hlt|Hge].
    + rewrite floor_boundary by done. rewrite (proj2 (Nat.ltb_lt _ _) Hlt). unfold slice_from. rewrite Hb. cbn [mbind res_bind].
      do 3 eexists. split; [done|]. split_and!; [done|by repeat constructor| |].
      * apply (guarded_more None l m s); [done|apply set_sent_ok; [done|apply boundary_end]|done|]. intros j stop _ Hin. by apply not_elem_of_nil in Hin.
      * unfold texts. cbn. by rewrite app_nil_r, take_drop, firstn_all.
    + do 3 eexists. split; [done|]. split_and!; [done|constructor| |].
      * apply (guarded_more None l m s); [done..|]. rewrite Hs1. lia.
      * rewrite Hs1. cbn. by rewrite app_nil_r.
Qed.

(** What the end of a request sends. *)
Lemma finish_stream_spec stops pt reason l m s :
  Forall whole_token (l ++ m) -> Forall utf8 (default [] stops) -> stream_guarded stops l s ->
  exists out, finish_stream (l ++ m) pt reason stops s = Done (out ++ [send_finish pt (length (l ++ m)) reason (l ++ m)]) /\
  Forall silent out /\ take (sd_sent_len s) (text_of l) ++ texts out = visible stops (text_of (l ++ m)).
Proof.
  intros Hwhole Hst Hg. rewrite (sent_text stops l m s Hg). unfold finish_stream, visible.
  pose proof (first_listed_spec (text_of (l ++ m)) (default [] stops)) as Hfirst.
  destruct (Nat.eqb_spec (length (l ++ m)) 0) as [Hz|_].
  { apply nil_length_inv, app_eq_nil in Hz as [-> ->]. cbn in *. rewrite text_nil in *. exists []. split; [done|].
    destruct (first_listed _ _); [by apply stop_at_nil in Hfirst|]. split; [constructor|]. by rewrite take_nil. }
  rewrite decode_text by done. cbn zeta. set (t := text_of (l ++ m)) in *.
  assert (is_char_boundary t (sd_sent_len s) = true) as Hb by (apply sent_later; apply Hg). pose proof (boundary_le _ _ Hb) as Hle.
  rewrite (floor_boundary t (sd_sent_len s)) by done.
  assert (exists stop, (match stops with None => length t | Some stops => match check_stop_sequences t stops with
      StopFound stop_pos => stop_pos | NoStop _ => length t end end) = stop /\ sd_sent_len s <= stop /\
    is_char_boundary t stop = true /\
    take stop t = match first_listed t (default [] stops) with Some p => take p t | None => t end) as (stop & -> & Hs & Hbs & <-).
  { destruct stops as [stops|]; cbn in *; [unfold check_stop_sequences; destruct (first_listed t stops) as [p|]|];
      (eexists; split; [done|]); [|split_and!; [done|apply boundary_end|apply firstn_all]..].
    by destruct (stop_after_sent (Some stops) l m s p Hst Hg Hfirst). }
  rewrite (floor_boundary t stop) by done.
  destruct (slice_send_spec t (sd_sent_len s) stop Hs Hb Hbs) as (out & -> & Ht & Hsil). cbn [mbind res_bind]. by exists out.
Qed.
End stream.
