(* ===== verification/EmitServing.v ===== *)
(** * A request and its emission

    The scheduler's side of the emission of one request, of
    [infer/src/scheduler/cuda/]: the bookkeeping of [request.rs], dispatching,
    gating and finishing of [core.rs], [decode.rs] and [runtime/fetch.rs], the
    commit of sampled tokens of [decode.rs], [prefill.rs] and [spec_path.rs];
    and the system it forms with the worker of [EmitStream] over two queues.
    A gate holds a request with stop sequences back until the worker has looked
    at the text dispatched. *)

From Stdlib Require Import Ascii String.
From S2P Require Import Prelude Utf8 StopText Tokenizer EmitStream.
Local Open Scope nat_scope.

(** ** The request *)

(** The tokens a prefill still has to process are left out. *)
Inductive Phase := WaitingFetch | Prefilling | Decoding | PhaseFinished.
#[export] Instance Phase_eq_dec : EqDecision Phase.
Proof. solve_decision. Defined.

Record ActiveRequest := mkRequest {
  rq_id : N;
  prompt_tokens_len : nat;
  generated_tokens : list N;
  max_tokens : nat;
  ignore_eos : bool;
  rq_stop : option (list text);
  rq_delta_tx : N;
  dispatched_token_count : nat;
  phase : Phase;
  pending_finish_reason : option FinishReason;
}.

Definition set_generated (g : list N) (r : ActiveRequest) : ActiveRequest :=
  mkRequest (rq_id r) (prompt_tokens_len r) g (max_tokens r) (ignore_eos r) (rq_stop r) (rq_delta_tx r)
    (dispatched_token_count r) (phase r) (pending_finish_reason r).
Definition set_dispatched (n : nat) (r : ActiveRequest) : ActiveRequest :=
  mkRequest (rq_id r) (prompt_tokens_len r) (generated_tokens r) (max_tokens r) (ignore_eos r) (rq_stop r) (rq_delta_tx r)
    n (phase r) (pending_finish_reason r).
Definition set_phase (p : Phase) (r : ActiveRequest) : ActiveRequest :=
  mkRequest (rq_id r) (prompt_tokens_len r) (generated_tokens r) (max_tokens r) (ignore_eos r) (rq_stop r) (rq_delta_tx r)
    (dispatched_token_count r) p (pending_finish_reason r).
Definition set_pending_finish (f : option FinishReason) (r : ActiveRequest) : ActiveRequest :=
  mkRequest (rq_id r) (prompt_tokens_len r) (generated_tokens r) (max_tokens r) (ignore_eos r) (rq_stop r) (rq_delta_tx r)
    (dispatched_token_count r) (phase r) f.

Definition has_pending_emit (r : ActiveRequest) : bool := dispatched_token_count r <? length (generated_tokens r).
Definition pending_emit_tokens (r : ActiveRequest) : list N :=
  drop (Nat.min (dispatched_token_count r) (length (generated_tokens r))) (generated_tokens r).
Definition is_initial_dispatch (r : ActiveRequest) : bool := dispatched_token_count r =? 0.
Definition stops_for_emit_dispatch (r : ActiveRequest) : option (list text) :=
  if is_initial_dispatch r then rq_stop r else None.
Definition has_stop_sequences (r : ActiveRequest) : bool :=
  match rq_stop r with Some stops => existsb (fun stop => negb (bool_decide (stop = []))) stops | None => false end.
Definition mark_emit_dispatched (r : ActiveRequest) : ActiveRequest := set_dispatched (length (generated_tokens r)) r.

(** ** The scheduler and the worker

    [pending_decode] and [deferred_decode_emit] say whether the decode launched
    last, and one launched before it whose readback was not ready, have the
    request; [gate_waiting] whether [emit_gate_waiting] has it. *)
Record Serving := mkServing {
  request : ActiveRequest;
  pending_decode : bool;
  deferred_decode_emit : bool;
  gate_waiting : bool;
  commands : list EmitCommand;
  worker : EmitWorker;
}.

Definition with_request (f : ActiveRequest -> ActiveRequest) (sv : Serving) : Serving :=
  mkServing (f (request sv)) (pending_decode sv) (deferred_decode_emit sv) (gate_waiting sv) (commands sv) (worker sv).
Definition send_command (c : EmitCommand) (sv : Serving) : Serving :=
  mkServing (request sv) (pending_decode sv) (deferred_decode_emit sv) (gate_waiting sv) (commands sv ++ [c]) (worker sv).
Definition set_gate (g : bool) (sv : Serving) : Serving :=
  mkServing (request sv) (pending_decode sv) (deferred_decode_emit sv) g (commands sv) (worker sv).
Definition set_decodes (pending deferred : bool) (sv : Serving) : Serving :=
  mkServing (request sv) pending deferred (gate_waiting sv) (commands sv) (worker sv).

Definition dispatch_emit (sv : Serving) : Serving :=
  let r := request sv in
  if bool_decide (pending_emit_tokens r = []) then sv
  else
    let sv := send_command (Append (rq_id r) (prompt_tokens_len r) (pending_emit_tokens r) (rq_delta_tx r)
                (stops_for_emit_dispatch r) (has_stop_sequences r)) sv in
    let sv := with_request mark_emit_dispatched sv in
    if has_stop_sequences r then set_gate true sv else sv.

Definition queue_emit_finish (reason : FinishReason) (sv : Serving) : Serving :=
  let r := request sv in
  send_command (Finish (rq_id r) (prompt_tokens_len r) (generated_tokens r) reason (rq_delta_tx r)
    (stops_for_emit_dispatch r)) sv.

Definition finish_slot (sv : Serving) : Serving :=
  let sv := with_request (fun r => set_phase PhaseFinished (set_pending_finish None r)) sv in
  send_command (Abort (rq_id (request sv))) (set_gate false sv).

Definition finish_request (reason : FinishReason) (sv : Serving) : Serving :=
  finish_slot (with_request (set_phase PhaseFinished) (queue_emit_finish reason sv)).

(** A decode preempted for want of pages: the request is queued again without
    its tokens, and admitted anew under a new id. *)
Definition requeue_preempted_decode (new_id : N) (sv : Serving) : Serving :=
  let r := request sv in
  let sv := finish_slot (with_request (set_phase PhaseFinished) sv) in
  with_request (fun _ => mkRequest new_id (prompt_tokens_len r) [] (max_tokens r) (ignore_eos r) (rq_stop r) (rq_delta_tx r)
    0 Prefilling None) sv.

Definition defer_finish_until_emit_gate (reason : FinishReason) (sv : Serving) : bool * Serving :=
  if has_stop_sequences (request sv) then (true, with_request (set_pending_finish (Some reason)) sv) else (false, sv).

Section serving.
Context `{HfTokenizer} (is_stop_token : N -> bool) (stream_interval : nat).

Definition finish_length (sv : Serving) : Serving :=
  let '(deferred, sv) := defer_finish_until_emit_gate FinishLength sv in
  if deferred then sv else finish_request FinishLength sv.

(** The tokens of one readback: one after a plain decode, the accepted ones
    and the bonus after a speculative step. *)
Fixpoint commit_tokens (tokens : list N) (sv : Serving) : Serving :=
  match tokens with
  | [] => sv
  | token :: tokens =>
      if negb (ignore_eos (request sv)) && is_stop_token token then finish_request FinishStop sv
      else
        let sv := with_request (fun r => set_generated (generated_tokens r ++ [token]) r) sv in
        if max_tokens (request sv) <=? length (generated_tokens (request sv)) then finish_length sv
        else commit_tokens tokens sv
  end.

Inductive PrefillCompletionAction := CompletionStop | CompletionFinishLength | CompletionMoveToDecode.
Definition prefill_completion_action (ignore_eos saw_stop_token : bool) (generated_after_push max_tokens : nat)
  : PrefillCompletionAction :=
  if negb ignore_eos && saw_stop_token then CompletionStop
  else if max_tokens <=? generated_after_push then CompletionFinishLength
  else CompletionMoveToDecode.

Definition apply_prefill_completion_token (token : N) (sv : Serving) : Serving :=
  let r := request sv in
  let pushed := with_request (fun r => set_generated (generated_tokens r ++ [token]) r) sv in
  match prefill_completion_action (ignore_eos r) (is_stop_token token) (length (generated_tokens r) + 1) (max_tokens r) with
  | CompletionStop => finish_request FinishStop sv
  | CompletionFinishLength => finish_length (dispatch_emit pushed)
  | CompletionMoveToDecode => with_request (set_phase Decoding) (dispatch_emit pushed)
  end.

Definition deferred_decode_would_reach_max (sv : Serving) : bool :=
  deferred_decode_emit sv && (max_tokens (request sv) <=? length (generated_tokens (request sv)) + 1).
Definition slot_is_runnable_decode (delta_closed : bool) (sv : Serving) : bool :=
  bool_decide (phase (request sv) = Decoding) && negb delta_closed && negb (gate_waiting sv)
  && negb (deferred_decode_would_reach_max sv).

Definition apply_sampled (tokens : list N) (sv : Serving) : Serving :=
  if bool_decide (phase (request sv) = Decoding) then commit_tokens tokens sv else sv.

Definition handle_emit_event (e : N * bool) (sv : Serving) : Serving :=
  let '(id, finished) := e in
  if gate_waiting sv && bool_decide (id = rq_id (request sv)) then
    let sv := set_gate false sv in
    if finished : bool then finish_slot (with_request (fun r => set_phase PhaseFinished (set_pending_finish None r)) sv)
    else
      match pending_finish_reason (request sv) with
      | Some reason => finish_request reason (with_request (set_pending_finish None) sv)
      | None => sv
      end
  else sv.

Definition pop_event (rest : list (N * bool)) (sv : Serving) : Serving :=
  mkServing (request sv) (pending_decode sv) (deferred_decode_emit sv) (gate_waiting sv) (commands sv)
    (mkEmitWorker (streaming (worker sv)) (delivered (worker sv)) rest).

(** The steps of scheduler and worker, in any order. A readback is committed,
    and what is pending is dispatched, also while the request waits at the gate;
    the label of a step says whether it did one of these, so that the decode it
    belongs to has overtaken the gate. *)
Inductive step : bool -> Serving -> Serving -> Prop :=
  | step_prefill token sv :
      phase (request sv) = Prefilling -> generated_tokens (request sv) = [] ->
      step false sv (apply_prefill_completion_token token sv)
  | step_launch sv :
      slot_is_runnable_decode false sv = true -> pending_decode sv = false ->
      step false sv (set_decodes true (deferred_decode_emit sv) sv)
  | step_not_ready sv :
      pending_decode sv = true -> deferred_decode_emit sv = false -> step false sv (set_decodes false true sv)
  | step_readback_deferred tokens sv :
      deferred_decode_emit sv = true ->
      step (gate_waiting sv) sv (apply_sampled tokens (set_decodes (pending_decode sv) false sv))
  | step_readback tokens sv :
      deferred_decode_emit sv = false -> pending_decode sv = true ->
      step (gate_waiting sv) sv (apply_sampled tokens (set_decodes false false sv))
  | step_dispatch sv : phase (request sv) = Decoding -> step (gate_waiting sv) sv (dispatch_emit sv)
  | step_worker c rest w sv :
      commands sv = c :: rest -> handle_emit stream_interval c (worker sv) = Done w ->
      step false sv (mkServing (request sv) (pending_decode sv) (deferred_decode_emit sv) (gate_waiting sv) rest w)
  | step_gate e rest sv :
      gate_events (worker sv) = e :: rest -> step false sv (handle_emit_event e (pop_event rest sv)).

(** The states reached from the request, and whether a decode has overtaken the
    gate on the way. *)
Inductive reachable (r : ActiveRequest) : bool -> Serving -> Prop :=
  | reach_start : reachable r false (mkServing r false false false [] (mkEmitWorker ∅ [] []))
  | reach_step overtaken overtakes sv sv' :
      reachable r overtaken sv -> step overtakes sv sv' -> reachable r (overtaken || overtakes) sv'.
End serving.
