(* ===== verification/EmitAnswer.v ===== *)
(** * The answer of a request

    The invariant of the system of [EmitServing] by rule induction over its
    steps, and what it says to the client of a request; runs of the system on
    concrete tokens. *)

From Stdlib Require Import Ascii String.
From S2P Require Import Prelude Utf8 StopText Tokenizer EmitStream EmitServing.
Local Open Scope nat_scope.

(** ** Requests without stop sequences *)
Lemma no_stop_sequences r t : has_stop_sequences r = false -> first_listed t (default [] (rq_stop r)) = None.
Proof.
  unfold has_stop_sequences. destruct (rq_stop r) as [stops|]; [|done]. cbn [default from_option]. unfold id.
  induction stops as [|stop stops IH]; [done|]. cbn [existsb first_listed]. case_bool_decide; [by apply IH|done].
Qed.

(** ** The invariant *)
Section invariant.
Context `{TokenizerLaws} (is_stop_token : N -> bool) (stream_interval : nat) (r : ActiveRequest).
Abbreviation id := (rq_id r).
Abbreviation stop := (rq_stop r).
Abbreviation gated := (has_stop_sequences r).
Abbreviation emit := (handle_emit stream_interval).
Hypothesis stop_utf8 : Forall utf8 (default [] stop).

Definition same_request (r' : ActiveRequest) : Prop :=
  rq_id r' = id /\ prompt_tokens_len r' = prompt_tokens_len r /\ max_tokens r' = max_tokens r /\
  rq_stop r' = stop /\ rq_delta_tx r' = rq_delta_tx r.

Definition to_client (ds : list Delta) : list (N * Delta) := (fun d => (rq_delta_tx r, d)) <$> ds.

(** The whole answer was sent. *)
Definition answered (g : list N) (w : EmitWorker) : Prop :=
  exists out reason, Forall silent out /\ texts out = visible stop (text_of g) /\
    delivered w = to_client (out ++ [send_finish (prompt_tokens_len r) (length g) reason g]) /\ streaming w !! id = None.

(** The worker has the tokens [got], of which the client has seen [l]. *)
Definition worker_state (got : list N) (s : StreamDecodeState) : EmitWorkerRequest :=
  mkWorkerRequest (prompt_tokens_len r) got (rq_delta_tx r) s stop.

Definition worker_live (got : list N) (w : EmitWorker) : Prop :=
  exists l rest s ds, got = l ++ rest /\ (gated = true -> rest = []) /\ stream_guarded stop l s /\
    delivered w = to_client ds /\ Forall silent ds /\ texts ds = take (sd_sent_len s) (text_of l) /\
    streaming w !! id = match got with [] => None | _ => Some (worker_state got s) end /\
    (got = [] -> s = stream_state_default).

(** The commands that hand over [chunks]. Only the first names the stops. *)
Definition append_command (first : bool) (chunk : list N) : EmitCommand :=
  Append id (prompt_tokens_len r) chunk (rq_delta_tx r) (if first then stop else None) gated.
Definition first_after (got : list N) : bool := bool_decide (got = []).
Fixpoint appends (got : list N) (chunks : list (list N)) : list EmitCommand :=
  match chunks with
  | [] => []
  | chunk :: chunks => append_command (first_after got) chunk :: appends (got ++ chunk) chunks
  end.

Definition gate_ok (sv : Serving) (chunks : list (list N)) : Prop :=
  let events := gate_events (worker sv) in
  if gate_waiting sv then
    gated = true /\ dispatched_token_count (request sv) = length (generated_tokens (request sv)) /\
    generated_tokens (request sv) <> [] /\
    (length chunks = 1 /\ events = [] \/ chunks = [] /\ events = [(id, false)])
  else events = [] /\ (gated = true -> chunks = []).

(** The tokens dispatched are with the worker or on the way. *)
Record handed_over (sv : Serving) (got : list N) (chunks : list (list N)) : Prop := mk_handed_over {
  ho_same : same_request (request sv);
  ho_tokens : got ++ concat chunks = take (dispatched_token_count (request sv)) (generated_tokens (request sv));
  ho_count : dispatched_token_count (request sv) <= length (generated_tokens (request sv));
  ho_chunks : Forall (fun chunk => chunk <> []) chunks;
  ho_worker : worker_live got (worker sv);
}.

Inductive serving_ok : Serving -> Prop :=
  | ok_live sv got chunks :
      handed_over sv got chunks -> phase (request sv) <> PhaseFinished -> commands sv = appends got chunks ->
      gate_ok sv chunks ->
      (gated = false -> generated_tokens (request sv) = [] \/ length (generated_tokens (request sv)) < max_tokens r) ->
      serving_ok sv
  | ok_stop_hit sv :
      same_request (request sv) -> phase (request sv) <> PhaseFinished -> commands sv = [] ->
      gate_waiting sv = true -> gated = true -> gate_events (worker sv) = [(id, true)] ->
      generated_tokens (request sv) <> [] -> answered (generated_tokens (request sv)) (worker sv) -> serving_ok sv
  | ok_closing sv got chunks reason :
      handed_over sv got chunks -> phase (request sv) = PhaseFinished ->
      commands sv = appends got chunks ++
        [Finish id (prompt_tokens_len r) (generated_tokens (request sv)) reason (rq_delta_tx r)
           (if dispatched_token_count (request sv) =? 0 then stop else None); Abort id] ->
      gate_ok sv chunks -> gate_waiting sv = false ->
      (gated = false -> length (generated_tokens (request sv)) <= Nat.max 1 (max_tokens r)) -> serving_ok sv
  | ok_closed sv :
      same_request (request sv) -> phase (request sv) = PhaseFinished -> commands sv = [] \/ commands sv = [Abort id] ->
      gate_waiting sv = false -> gate_events (worker sv) = [] ->
      (gated = false -> length (generated_tokens (request sv)) <= Nat.max 1 (max_tokens r)) ->
      answered (generated_tokens (request sv)) (worker sv) -> serving_ok sv.

(** *** The worker *)
Lemma worker_lookup got s w first :
  streaming w !! id = match got with [] => None | _ => Some (worker_state got s) end ->
  (got = [] -> s = stream_state_default) -> (got = [] -> first = true) ->
  default (mkWorkerRequest (prompt_tokens_len r) [] (rq_delta_tx r) stream_state_default (if first then stop else None))
    (streaming w !! id) = worker_state got s.
Proof. intros -> Hs Hf. destruct got; cbn; [by rewrite Hs, Hf|done]. Qed.

Lemma texts_app d e : texts (d ++ e) = texts d ++ texts e.
Proof. unfold texts. by rewrite fmap_app, concat_app. Qed.

Lemma to_client_app d e : to_client (d ++ e) = to_client d ++ to_client e.
Proof. apply fmap_app. Qed.

Lemma to_client_end ds out last :
  to_client ds ++ ((fun d => (rq_delta_tx r, d)) <$> (out ++ [last])) = to_client ((ds ++ out) ++ [last]).
Proof. unfold to_client. rewrite <-app_assoc. by rewrite (fmap_app _ ds). Qed.

(** Handing over a chunk: the worker goes on, or sends the end of the answer
    when a stop is found under a gate. *)
Lemma append_worker got chunk w :
  worker_live got w -> chunk <> [] -> Forall whole_token (got ++ chunk) ->
  exists w', emit (append_command (first_after got) chunk) w = Done w' /\
    (worker_live (got ++ chunk) w' /\ gate_events w' = gate_events w ++ (if gated then [(id, false)] else []) \/
     gated = true /\ answered (got ++ chunk) w' /\ gate_events w' = gate_events w ++ [(id, true)]).
Proof.
  intros (l & rest & s & ds & -> & Hrest & Hg & Hds & Hsil & Htexts & Hlook & Hfresh) Hne Hwhole.
  unfold append_command. cbn [handle_emit]. rewrite (worker_lookup _ s) by (done || by intros ->).
  cbn [worker_state wr_generated wr_stream wr_stops wr_prompt_tokens wr_delta_tx].
  assert ((l ++ rest) ++ chunk <> []) as Hne' by (by intros [_ ?]%app_eq_nil).
  assert (forall s', (match (l ++ rest) ++ chunk with [] => None | _ => Some (worker_state ((l ++ rest) ++ chunk) s') end)
    = Some (worker_state ((l ++ rest) ++ chunk) s')) as Hmatch by (intros s'; by destruct ((l ++ rest) ++ chunk)).
  destruct (_ || gated) eqn:Hflush.
  - rewrite <-app_assoc in Hwhole.
    destruct (emit_delta_spec stop (prompt_tokens_len r) l (rest ++ chunk) s Hwhole stop_utf8 Hg) as (s' & out & outcome & Hemit & Hout).
    rewrite app_assoc in Hemit, Hout. rewrite Hemit. cbn [mbind res_bind deliver set_streaming streaming delivered gate_events].
    assert (visible stop (text_of ((l ++ rest) ++ chunk)) = match first_listed (text_of ((l ++ rest) ++ chunk)) (default [] stop) with
      Some p => take p (text_of ((l ++ rest) ++ chunk)) | None => text_of ((l ++ rest) ++ chunk) end) as Hvis by done.
    destruct (first_listed _ _) as [p|] eqn:Hp.
    + destruct gated eqn:Hgt; [|by rewrite no_stop_sequences in Hp].
      destruct Hout as [-> (sent & Hsil' & -> & Ht)]. eexists. split; [done|]. right. split; [done|]. split; [|done].
      exists (ds ++ sent), FinishStop. split; [by apply Forall_app|]. split; [by rewrite texts_app, Htexts, Ht|].
      cbn [delivered streaming set_streaming send_gate deliver]. split; [|by simplify_map_eq].
      rewrite Hds. apply to_client_end.
    + destruct Hout as (-> & Hsil' & Hg' & Ht).
      assert (forall ev, worker_live ((l ++ rest) ++ chunk) (mkEmitWorker (<[id := worker_state ((l ++ rest) ++ chunk) s']> (streaming w))
        (delivered w ++ to_client out) ev)) as Hlive.
      { intros ev. exists ((l ++ rest) ++ chunk), [], s', (ds ++ out). rewrite app_nil_r. split; [done|]. split; [done|].
        split; [done|]. split; [by rewrite to_client_app, <-Hds|]. split; [by apply Forall_app|].
        split; [by rewrite texts_app, Htexts, Ht|]. split; [|done]. rewrite Hmatch. apply lookup_insert_eq. }
      destruct gated; (eexists; split; [done|]; left; split; [apply Hlive|]); cbn; [done|by rewrite app_nil_r].
  - apply orb_false_iff in Hflush as [_ Hgt]. rewrite Hgt. cbn [mbind res_bind]. eexists. split; [done|]. left.
    split; [|cbn; by rewrite app_nil_r]. exists l, (rest ++ chunk), s, ds. rewrite app_assoc. split; [done|].
    split; [congruence|]. split; [done|]. cbn [delivered streaming deliver set_streaming fmap list_fmap].
    rewrite app_nil_r. split; [done|]. split; [done|]. split; [done|]. split; [|done]. rewrite Hmatch. apply lookup_insert_eq.
Qed.

(** The end of the request sends what is left of the answer. *)
Lemma finish_worker got g reason d w :
  worker_live got w -> got = take d g -> d <= length g -> Forall whole_token g ->
  exists w', emit (Finish id (prompt_tokens_len r) g reason (rq_delta_tx r) (if d =? 0 then stop else None)) w = Done w' /\
    answered g w' /\ gate_events w' = gate_events w.
Proof.
  intros (l & rest & s & ds & -> & Hrest & Hg & Hds & Hsil & Htexts & Hlook & Hfresh) Hgot Hd Hwhole.
  assert (g = l ++ (rest ++ drop d g)) as Eg by (by rewrite app_assoc, Hgot, take_drop).
  pose proof Hwhole as Hwhole'. rewrite Eg in Hwhole'.
  destruct (finish_stream_spec stop (prompt_tokens_len r) reason l (rest ++ drop d g) s Hwhole' stop_utf8 Hg) as (out & Hfin & Hsil' & Ht).
  rewrite <-Eg in Hfin, Ht. cbn [handle_emit]. rewrite Hlook. destruct (l ++ rest) as [|x xs] eqn:E.
  - rewrite Hfresh in Hfin, Ht, Htexts by done. assert (d = 0) as ->.
    { apply (f_equal length) in Hgot. rewrite length_take in Hgot. cbn in Hgot. lia. }
    cbn [Nat.eqb]. rewrite Hfin. cbn [mbind res_bind]. eexists. split; [done|]. split; [|done].
    exists (ds ++ out), reason. split; [by apply Forall_app|]. split; [by rewrite texts_app, Htexts, Ht|]. cbn. split; [|done].
    rewrite Hds. apply to_client_end.
  - cbn [worker_state wr_generated wr_stream wr_stops wr_prompt_tokens wr_delta_tx].
    assert ((if length (x :: xs) <? length g then g else x :: xs) = g) as ->.
    { destruct (Nat.ltb_spec (length (x :: xs)) (length g)) as [|Hge]; [done|]. rewrite Hgot in Hge |- *. rewrite length_take in Hge.
      apply firstn_all2. lia. }
    rewrite Hfin. cbn [mbind res_bind]. eexists. split; [done|]. split; [|done].
    exists (ds ++ out), reason. split; [by apply Forall_app|]. split; [by rewrite texts_app, Htexts, Ht|]. cbn. split; [|by simplify_map_eq].
    rewrite Hds. apply to_client_end.
Qed.
(** *** The scheduler *)
Lemma same_gated r' : same_request r' -> has_stop_sequences r' = gated.
Proof. intros (_ & _ & _ & Hstop & _). unfold has_stop_sequences. by rewrite Hstop. Qed.

Definition dispatching (sv : Serving) (got : list N) (chunks : list (list N)) : Prop :=
  handed_over sv got chunks /\ commands sv = appends got chunks /\ gate_ok sv chunks.
Definition below_max (sv : Serving) : Prop :=
  gated = false -> generated_tokens (request sv) = [] \/ length (generated_tokens (request sv)) < max_tokens r.

Lemma live sv got chunks :
  dispatching sv got chunks -> phase (request sv) <> PhaseFinished -> below_max sv -> serving_ok sv.
Proof. intros (? & ? & ?) ? ?. by eapply ok_live. Qed.

Lemma push_ok token sv got chunks :
  dispatching sv got chunks -> gate_waiting sv = false ->
  dispatching (with_request (fun r => set_generated (generated_tokens r ++ [token]) r) sv) got chunks.
Proof.
  intros ([Hsame Htok Hcount Hne Hw] & Hc & Hgate) Hg. split; [|split; [done|]].
  - constructor; cbn; [done| | |done..]; [by rewrite take_app_le|rewrite length_app; lia].
  - revert Hgate. unfold gate_ok. cbn. by rewrite Hg.
Qed.

Lemma appends_snoc chunks got chunk :
  appends got (chunks ++ [chunk]) = appends got chunks ++ [append_command (first_after (got ++ concat chunks)) chunk].
Proof.
  revert got. induction chunks as [|c chunks IH]; intros got; cbn; [by rewrite app_nil_r|]. by rewrite IH, app_assoc.
Qed.

Lemma first_dispatch (d : nat) (g got : list N) :
  got = take d g -> d <= length g -> first_after got = (d =? 0).
Proof.
  intros -> Hd. unfold first_after. destruct (Nat.eqb_spec d 0) as [->|Hd0]; [done|].
  rewrite bool_decide_eq_false. intros E. apply (f_equal length) in E. rewrite length_take in E. cbn in E. lia.
Qed.

Lemma dispatch_ok sv got chunks :
  dispatching sv got chunks -> gate_waiting sv = false ->
  exists chunks', dispatching (dispatch_emit sv) got chunks' /\
    phase (request (dispatch_emit sv)) = phase (request sv) /\
    generated_tokens (request (dispatch_emit sv)) = generated_tokens (request sv).
Proof.
  intros (Hover & Hc & Hgate) Hg. pose proof Hover as [Hsame Htok Hcount Hne Hw].
  unfold dispatch_emit. case_bool_decide as Hp; [by exists chunks|].
  unfold pending_emit_tokens in *. rewrite Nat.min_l in * by done. rewrite (same_gated _ Hsame).
  unfold stops_for_emit_dispatch, is_initial_dispatch. pose proof Hsame as (-> & -> & _ & -> & ->).
  set (pend := drop _ _) in *. exists (chunks ++ [pend]).
  assert (generated_tokens (request sv) <> []) as Hgen by (intros E; apply Hp; unfold pend; by rewrite E, drop_nil).
  assert (commands sv ++ [Append id (prompt_tokens_len r) pend (rq_delta_tx r)
    (if dispatched_token_count (request sv) =? 0 then stop else None) gated] = appends got (chunks ++ [pend])) as Hcom.
  { rewrite appends_snoc, Hc. unfold append_command. by rewrite (first_dispatch _ _ _ Htok Hcount). }
  assert (handed_over (with_request mark_emit_dispatched sv) got (chunks ++ [pend])) as [Hsame' Htok' Hcount' Hne' Hw'].
  { constructor; cbn; [done| |done| |done].
    - rewrite firstn_all, concat_app. cbn. rewrite app_nil_r, app_assoc, Htok. apply take_drop.
    - apply Forall_app. by split; [|constructor]. }
  unfold gate_ok in Hgate. rewrite Hg in Hgate. destruct Hgate as [Hev Hch].
  destruct gated eqn:Hgt; (split; [|by destruct sv]); (split; [by constructor|split; [exact Hcom|]]);
    unfold gate_ok; cbn; rewrite ?Hg.
  - rewrite Hch by done. by split_and!; [..|left].
  - rewrite Hgt. by split.
Qed.

Lemma finish_ok reason sv got chunks :
  dispatching sv got chunks -> gate_waiting sv = false ->
  (gated = false -> length (generated_tokens (request sv)) <= Nat.max 1 (max_tokens r)) ->
  serving_ok (finish_request reason sv).
Proof.
  intros ([Hsame Htok Hcount Hne Hw] & Hc & Hgate) Hg Hmax.
  apply (ok_closing _ got chunks reason); [by constructor|done| | |done|done].
  - unfold finish_request, finish_slot, queue_emit_finish, stops_for_emit_dispatch, is_initial_dispatch. cbn.
    pose proof Hsame as (-> & -> & _ & -> & ->). by rewrite Hc, <-app_assoc.
  - revert Hgate. unfold gate_ok. cbn. by rewrite Hg.
Qed.

Lemma gate_closed_ungated sv chunks : gate_ok sv chunks -> gated = false -> gate_waiting sv = false.
Proof. unfold gate_ok. destruct (gate_waiting sv); [|done]. intros (E & _) E'. congruence. Qed.

Lemma finish_length_ok sv got chunks :
  dispatching sv got chunks -> phase (request sv) <> PhaseFinished ->
  (gated = false -> length (generated_tokens (request sv)) <= Nat.max 1 (max_tokens r)) ->
  serving_ok (finish_length sv).
Proof.
  intros Hdis Hph Hmax. pose proof Hdis as ([Hsame Htok Hcount Hne Hw] & Hc & Hgate).
  unfold finish_length, defer_finish_until_emit_gate. rewrite (same_gated _ Hsame).
  destruct gated eqn:Hgt.
  - apply (live _ got chunks); [|done|intros ?; congruence]. split; [by constructor|]. by split.
  - eapply finish_ok; [done|by eapply gate_closed_ungated|intros _; by apply Hmax].
Qed.

Lemma commit_ok tokens sv got chunks :
  dispatching sv got chunks -> gate_waiting sv = false -> phase (request sv) <> PhaseFinished -> below_max sv ->
  serving_ok (commit_tokens is_stop_token tokens sv).
Proof.
  revert sv. induction tokens as [|token tokens IH]; intros sv Hdis Hg Hph Hmax; [by eapply live|]. cbn [commit_tokens].
  destruct (_ && _).
  { eapply finish_ok; [done..|]. intros E. destruct (Hmax E) as [-> |]; [cbn; lia|lia]. }
  pose proof (push_ok token _ _ _ Hdis Hg) as Hdis'.
  assert (max_tokens (request sv) = max_tokens r) as Hm by (apply Hdis).
  cbn. rewrite Hm, length_app. cbn [length]. destruct (Nat.leb_spec (max_tokens r) (length (generated_tokens (request sv)) + 1)) as [Hle|Hlt].
  - eapply finish_length_ok; [done|done|]. cbn. rewrite length_app. cbn [length]. intros E.
    destruct (Hmax E) as [-> |]; [cbn; lia|lia].
  - apply IH; [done..|]. intros E. right. cbn. rewrite length_app. cbn [length]. lia.
Qed.

Lemma prefill_ok token sv got chunks :
  dispatching sv got chunks -> gate_waiting sv = false -> phase (request sv) <> PhaseFinished ->
  generated_tokens (request sv) = [] -> serving_ok (apply_prefill_completion_token is_stop_token token sv).
Proof.
  intros Hdis Hg Hph Hnil. unfold apply_prefill_completion_token, prefill_completion_action. rewrite Hnil. cbn [length].
  destruct (_ && _); [eapply finish_ok; [done..|]; rewrite Hnil; cbn; lia|].
  pose proof (push_ok token _ _ _ Hdis Hg) as Hdis'.
  destruct (dispatch_ok _ _ _ Hdis' Hg) as (chunks' & Hdis'' & Hph' & Hgen).
  cbn [request with_request generated_tokens set_generated phase] in Hph', Hgen. rewrite Hnil in Hgen.
  set (sv' := dispatch_emit _) in *. clearbody sv'.
  assert (max_tokens (request sv) = max_tokens r) as -> by (apply Hdis).
  destruct (Nat.leb_spec (max_tokens r) (0 + 1)).
  - eapply finish_length_ok; [done|congruence|]. rewrite Hgen. cbn. lia.
  - destruct Hdis'' as ([Hsame Htok Hcount Hne Hw] & Hc & Hgate).
    apply (live _ got chunks'); [|done|]; [by split; [constructor|split]|]. intros _. right. cbn. rewrite Hgen. cbn. lia.
Qed.
(** *** Every step *)
Definition after_worker (sv : Serving) (rest : list EmitCommand) (w : EmitWorker) : Serving :=
  mkServing (request sv) (pending_decode sv) (deferred_decode_emit sv) (gate_waiting sv) rest w.

Lemma append_step sv got chunk chunks rest :
  handed_over sv got (chunk :: chunks) -> gate_ok sv (chunk :: chunks) -> Forall whole_token (generated_tokens (request sv)) ->
  exists w, emit (append_command (first_after got) chunk) (worker sv) = Done w /\
    (handed_over (after_worker sv rest w) (got ++ chunk) chunks /\ gate_ok (after_worker sv rest w) chunks \/
     gated = true /\ gate_waiting sv = true /\ chunks = [] /\ gate_events w = [(id, true)] /\
     generated_tokens (request sv) <> [] /\ answered (generated_tokens (request sv)) w).
Proof.
  intros [Hsame Htok Hcount Hne Hw] Hgate Hwhole. inversion Hne as [|? ? Hne1 Hne2]; subst. cbn [concat] in Htok. rewrite app_assoc in Htok.
  assert (Forall whole_token (got ++ chunk)) as Hpart.
  { pose proof (Forall_take _ (dispatched_token_count (request sv)) _ Hwhole) as Htake. rewrite <-Htok in Htake.
    by apply Forall_app in Htake as [? _]. }
  destruct (append_worker _ _ _ Hw Hne1 Hpart) as (w & Hemit & Hcase). exists w. split; [done|].
  unfold gate_ok in *. cbn [after_worker gate_waiting worker request] in *. destruct (gate_waiting sv) eqn:Hg.
  - destruct Hgate as (Hgt & Hd & Hgen & [[Hlen Hev]|[? _]]); [|done]. apply Nat.succ_inj, nil_length_inv in Hlen as ->.
    rewrite Hgt, Hev in Hcase. destruct Hcase as [[Hw' Hev']|(_ & Hans & Hev')].
    + left. split; [by constructor|]. by split_and!; [..|right].
    + right. cbn in Htok. rewrite app_nil_r, Hd, firstn_all in Htok. rewrite <-Htok in *. by split_and!.
  - destruct Hgate as [Hev Hch]. destruct gated eqn:Hgt; [by specialize (Hch eq_refl)|]. rewrite Hev in Hcase.
    destruct Hcase as [[Hw' Hev']|(? & _)]; [|done]. left. split; [by constructor|]. by rewrite Hev'.
Qed.

Lemma worker_step sv c rest :
  serving_ok sv -> Forall whole_token (generated_tokens (request sv)) -> commands sv = c :: rest ->
  exists w, emit c (worker sv) = Done w /\ serving_ok (after_worker sv rest w).
Proof.
  intros [sv' got chunks Hover Hph Hc Hgate Hmax|sv' Hsame Hph Hc|sv' got chunks reason Hover Hph Hc Hgate Hg Hmax|
    sv' Hsame Hph Hc Hg Hev Hmax Hans] Hwhole Hcmd; rewrite Hcmd in Hc.
  - destruct chunks as [|chunk chunks]; [done|]. injection Hc as -> ->.
    destruct (append_step sv' got chunk chunks (appends (got ++ chunk) chunks) Hover Hgate Hwhole)
      as (w & Hemit & [[Hover' Hgate']|(Hgt & Hg & -> & Hev & Hgen & Hans)]); (exists w; split; [done|]).
    + by eapply ok_live.
    + apply ok_stop_hit; [apply Hover|done..].
  - done.
  - destruct chunks as [|chunk chunks].
    + injection Hc as -> ->. destruct Hover as [Hsame Htok Hcount Hne Hw]. cbn [concat] in Htok. rewrite app_nil_r in Htok.
      destruct (finish_worker got (generated_tokens (request sv')) reason _ _ Hw Htok Hcount Hwhole) as (w & Hemit & Hans & Hev).
      exists w. split; [done|]. apply ok_closed; [done|done|by right|done| |done|done]. cbn. rewrite Hev.
      revert Hgate. unfold gate_ok. rewrite Hg. by intros [-> _].
    + injection Hc as -> ->.
      destruct (append_step sv' got chunk chunks (appends (got ++ chunk) chunks ++ [Finish id (prompt_tokens_len r)
        (generated_tokens (request sv')) reason (rq_delta_tx r) (if dispatched_token_count (request sv') =? 0 then stop else None);
        Abort id]) Hover Hgate Hwhole) as (w & Hemit & [[Hover' Hgate']|(_ & Hg' & _)]); [|congruence]. exists w. split; [done|].
      by eapply ok_closing.
  - destruct Hc as [|[= -> ->]]; [done|]. eexists. split; [done|].
    apply ok_closed; [done|done|by left|done|done|done|]. destruct Hans as (out & reason & ? & ? & ? & Hs).
    exists out, reason. split_and!; [done..|]. cbn. apply lookup_delete_eq.
Qed.

Lemma gate_step sv e rest :
  serving_ok sv -> gate_events (worker sv) = e :: rest -> serving_ok (handle_emit_event e (pop_event rest sv)).
Proof.
  intros [sv' got chunks Hover Hph Hc Hgate Hmax|sv' Hsame Hph Hc Hg Hgt Hev Hgen Hans|sv' got chunks reason Hover Hph Hc Hgate Hg Hmax|
    sv' Hsame Hph Hc Hg Hev Hmax Hans] Hcons.
  - unfold gate_ok in Hgate. rewrite Hcons in Hgate. destruct (gate_waiting sv') eqn:Hg; [|by destruct Hgate].
    destruct Hgate as (Hgt & Hd & Hgen & [[_ ?]|[-> [= -> ->]]]); [done|].
    unfold handle_emit_event. cbn [gate_waiting pop_event request]. rewrite Hg.
    assert (rq_id (request sv') = id) as -> by apply Hover. rewrite bool_decide_eq_true_2 by done. cbn [andb].
    assert (dispatching (set_gate false (pop_event [] sv')) got []) as Hdis.
    { destruct Hover as [? ? ? ? ?]. by split; [constructor|]. }
    cbn [request set_gate pop_event]. destruct (pending_finish_reason (request sv')) as [reason|].
    + apply (finish_ok _ _ got []); [|done|intros ?; congruence].
      destruct Hover as [Hsame ? ? ? ?]. by split; [constructor|].
    + apply (live _ got []); [done|done|]. intros ?. congruence.
  - rewrite Hev in Hcons. injection Hcons as <- <-. unfold handle_emit_event. cbn [gate_waiting pop_event request]. rewrite Hg.
    assert (rq_id (request sv') = id) as Hid by apply Hsame. rewrite Hid, bool_decide_eq_true_2 by done. cbn [andb].
    unfold finish_slot. apply ok_closed; [done|done| |done|done| |done].
    + right. cbn. by rewrite Hc, Hid.
    + intros ?. congruence.
  - revert Hgate. unfold gate_ok. rewrite Hg, Hcons. by intros [? _].
  - congruence.
Qed.

(** Without a gate, or when no decode overtakes it, the scheduler commits and
    dispatches only with the gate open. *)
Lemma gate_open sv : gate_waiting sv = false \/ gated = false -> serving_ok sv -> gate_waiting sv = false.
Proof.
  intros [Hg|Hgt] Hok; [done|].
  destruct Hok as [sv' got chunks _ _ _ Hgate _| |sv' got chunks reason _ _ _ _ Hg|]; [by eapply gate_closed_ungated|congruence|done..].
Qed.

Lemma readback_ok tokens sv :
  serving_ok sv -> gate_waiting sv = false -> serving_ok (apply_sampled is_stop_token tokens sv).
Proof.
  intros Hok Hg. unfold apply_sampled. case_bool_decide as Hph; [|done].
  destruct Hok as [sv' got chunks Hover _ Hc Hgate Hmax| | |]; [|congruence..].
  eapply commit_ok; [by split|done|congruence|done].
Qed.

Lemma decodes_ok p d sv : serving_ok sv -> serving_ok (set_decodes p d sv).
Proof.
  intros [? ? ? []|?|? ? ? ? []|?]; [eapply ok_live|eapply ok_stop_hit|eapply ok_closing|eapply ok_closed]; try done; by constructor.
Qed.

Lemma serving_step_ok overtakes sv sv' :
  overtakes = false \/ gated = false -> serving_ok sv -> Forall whole_token (generated_tokens (request sv)) ->
  step is_stop_token stream_interval overtakes sv sv' -> serving_ok sv'.
Proof.
  intros Hp Hok Hwhole Hstep.
  destruct Hstep as [token sv Hph Hnil|sv|sv|tokens sv _|tokens sv _ _|sv Hph|c rest w sv Hc Hemit|e rest sv He].
  - destruct Hok as [sv' got chunks Hover _ Hc Hgate Hmax| | |]; [|congruence..].
    eapply prefill_ok; [by split| |congruence|done].
    revert Hgate. unfold gate_ok. destruct (gate_waiting sv'); [|done]. by intros (_ & _ & ? & _).
  - by apply decodes_ok.
  - by apply decodes_ok.
  - apply readback_ok; [by apply decodes_ok|]. exact (gate_open _ Hp Hok).
  - apply readback_ok; [by apply decodes_ok|]. exact (gate_open _ Hp Hok).
  - pose proof (gate_open _ Hp Hok) as Hopen. destruct Hok as [sv' got chunks Hover _ Hc Hgate Hmax| | |]; [|congruence..].
    destruct (dispatch_ok sv' got chunks) as (chunks' & Hdis & Hph' & Hgen); [by split|done|].
    eapply live; [done|congruence|]. unfold below_max. by rewrite Hgen.
  - destruct (worker_step _ _ _ Hok Hwhole Hc) as (w' & Hemit' & Hok'). rewrite Hemit in Hemit'. by injection Hemit' as <-.
  - by apply gate_step.
Qed.

(** Tokens are only ever added. *)
Definition adds (sv sv' : Serving) : Prop := generated_tokens (request sv) `prefix_of` generated_tokens (request sv').

Lemma adds_trans sv1 sv2 sv3 : adds sv1 sv2 -> adds sv2 sv3 -> adds sv1 sv3.
Proof. unfold adds. apply transitivity. Qed.

Lemma finish_length_adds sv : adds sv (finish_length sv).
Proof. unfold finish_length, defer_finish_until_emit_gate, adds. by destruct (has_stop_sequences _). Qed.

Lemma push_adds token sv : adds sv (with_request (fun r => set_generated (generated_tokens r ++ [token]) r) sv).
Proof. by exists [token]. Qed.

Lemma commit_adds tokens sv : adds sv (commit_tokens is_stop_token tokens sv).
Proof.
  revert sv. induction tokens as [|token tokens IH]; intros sv; cbn [commit_tokens]; [by unfold adds|].
  destruct (_ && _); [by unfold adds|]. cbv zeta. destruct (_ <=? _).
  - eapply adds_trans; [apply (push_adds token)|apply finish_length_adds].
  - eapply adds_trans; [apply (push_adds token)|apply IH].
Qed.

Lemma dispatch_adds sv : adds sv (dispatch_emit sv).
Proof. unfold dispatch_emit, adds. case_bool_decide; [done|]. by destruct (has_stop_sequences _). Qed.

Lemma prefill_adds token sv : adds sv (apply_prefill_completion_token is_stop_token token sv).
Proof.
  unfold apply_prefill_completion_token. destruct (prefill_completion_action _ _ _ _); [by unfold adds|..];
    (eapply adds_trans; [apply (push_adds token)|]); (eapply adds_trans; [apply dispatch_adds|]); [apply finish_length_adds|by unfold adds].
Qed.

Lemma sampled_adds tokens sv : adds sv (apply_sampled is_stop_token tokens sv).
Proof. unfold apply_sampled. case_bool_decide; [apply commit_adds|by unfold adds]. Qed.

Lemma gate_adds e rest sv : adds sv (handle_emit_event e (pop_event rest sv)).
Proof.
  unfold handle_emit_event, adds. destruct e as [i fin]. destruct (_ && _); [|done]. destruct fin; [done|].
  cbn. by destruct (pending_finish_reason _).
Qed.

Lemma step_adds overtakes sv sv' : step is_stop_token stream_interval overtakes sv sv' -> adds sv sv'.
Proof.
  destruct 1; [apply prefill_adds|by unfold adds|by unfold adds| | |apply dispatch_adds|by unfold adds|apply gate_adds].
  - apply (sampled_adds tokens (set_decodes (pending_decode sv) false sv)).
  - apply (sampled_adds tokens (set_decodes false false sv)).
Qed.

(** *** What the invariant says of the client *)

(** A request about to be prefilled. *)
Definition admitted_request : Prop :=
  phase r = Prefilling /\ generated_tokens r = [] /\ dispatched_token_count r = 0.

Lemma start_ok : admitted_request -> serving_ok (mkServing r false false false [] (mkEmitWorker ∅ [] [])).
Proof.
  intros (Hph & Hnil & Hd). apply (ok_live _ [] []); [|cbn; by rewrite Hph|done|done|by left].
  constructor; [done|cbn; by rewrite Hnil, take_nil|cbn; rewrite Hd; lia|constructor|].
  exists [], [], stream_state_default, []. split_and!; [done|done|apply stream_guarded_nil|done|constructor| |done|done].
  cbn. by rewrite text_nil.
Qed.

Lemma reachable_ok overtaken sv :
  admitted_request -> overtaken = false \/ gated = false -> Forall whole_token (generated_tokens (request sv)) ->
  reachable is_stop_token stream_interval r overtaken sv -> serving_ok sv.
Proof.
  intros Hr Hp Hwhole Hreach. induction Hreach as [|o o' sv sv' _ IH Hstep]; [by apply start_ok|].
  rewrite orb_false_iff in Hp. destruct (step_adds _ _ _ Hstep) as [more Hmore]. rewrite Hmore in Hwhole.
  apply Forall_app in Hwhole as [Hwhole _]. eapply serving_step_ok; [|apply IH| |exact Hstep]; tauto.
Qed.

(** What a client has before the end is part of what it gets in the end. *)
Lemma sent_visible l s m :
  stream_guarded stop l s -> take (sd_sent_len s) (text_of l) `prefix_of` visible stop (text_of (l ++ m)).
Proof.
  intros Hg. rewrite (sent_text stop l m s Hg). unfold visible. pose proof (first_listed_spec (text_of (l ++ m)) (default [] stop)) as Hp.
  destruct (first_listed _ _) as [p|].
  - destruct (stop_after_sent stop l m s p stop_utf8 Hg Hp) as [Hle _]. exists (take (p - sd_sent_len s) (drop (sd_sent_len s) (text_of (l ++ m)))).
    symmetry. by apply take_slice.
  - exists (drop (sd_sent_len s) (text_of (l ++ m))). symmetry. apply take_drop.
Qed.

Lemma handed_over_sent sv got chunks :
  handed_over sv got chunks ->
  exists ds, delivered (worker sv) = to_client ds /\ Forall silent ds /\
    forall more, texts ds `prefix_of` visible stop (text_of (generated_tokens (request sv) ++ more)).
Proof.
  intros [_ Htok _ _ (l & rest & s & ds & -> & _ & Hg & Hds & Hsil & Ht & _)]. exists ds. split_and!; [done..|]. intros more.
  rewrite Ht, <-(take_drop (dispatched_token_count (request sv)) (generated_tokens (request sv))), <-Htok, <-!app_assoc. by apply sent_visible.
Qed.

(** The worker at the commands queued. *)
Fixpoint run_worker (cs : list EmitCommand) (w : EmitWorker) : res EmitWorker :=
  match cs with
  | [] => Done w
  | c :: cs => w ← emit c w; run_worker cs w
  end.

Lemma run_worker_ok cs sv :
  serving_ok sv -> Forall whole_token (generated_tokens (request sv)) -> commands sv = cs ->
  exists w, run_worker cs (worker sv) = Done w /\ serving_ok (after_worker sv [] w).
Proof.
  revert sv. induction cs as [|c cs IH]; intros sv Hok Hwhole Hc.
  - exists (worker sv). split; [done|]. destruct sv. cbn in Hc. by subst.
  - destruct (worker_step sv c cs Hok Hwhole Hc) as (w & Hemit & Hok'). cbn [run_worker]. rewrite Hemit. cbn [mbind res_bind].
    destruct (IH _ Hok' Hwhole eq_refl) as (w' & Hrun & Hok''). by exists w'.
Qed.
End invariant.

(** C23: the client of a request gets its answer. For a request that is not
    preempted and whose client stays, and any tokenizer, as long as the tokens
    generated stand for whole characters: what was sent is at every
    moment the beginning of the text generated, up to the first stop sequence
    listed that occurs in it, also when more is generated; once the answer is
    ended, it is that text, ended once, with the number of tokens generated, and
    nothing follows. Without stop sequences this holds in every state that
    scheduler and worker reach, in whatever order they take their steps, and the
    limit of tokens is never exceeded. With stop sequences it holds in the states
    reached without a decode overtaking the gate, that is, no readback was
    committed and no tokens were dispatched while the request waited there; when
    one does, text can follow the end ([text_after_the_end]). *)
Theorem emitted_answer `{TokenizerLaws} (is_stop_token : N -> bool) stream_interval overtaken r sv :
  Forall utf8 (default [] (rq_stop r)) -> admitted_request r -> overtaken = false \/ has_stop_sequences r = false ->
  Forall whole_token (generated_tokens (request sv)) -> reachable is_stop_token stream_interval r overtaken sv ->
  let g := generated_tokens (request sv) in
  (exists ds, delivered (worker sv) = (fun d => (rq_delta_tx r, d)) <$> ds /\
     (Forall silent ds /\ (forall more, texts ds `prefix_of` visible (rq_stop r) (text_of (g ++ more))) \/
      exists out reason, ds = out ++ [send_finish (prompt_tokens_len r) (length g) reason g] /\ Forall silent out /\
        texts out = visible (rq_stop r) (text_of g))) /\
  (has_stop_sequences r = false -> length g <= Nat.max 1 (max_tokens r)).
Proof.
  intros Hst Hr Hp Hwhole Hreach. cbn zeta. pose proof (reachable_ok is_stop_token stream_interval r Hst _ sv Hr Hp Hwhole Hreach) as Hok.
  destruct Hok as [sv got chunks Hover _ _ _ Hmax|sv Hsame _ _ _ Hgt _ _ Hans|sv got chunks reason Hover _ _ _ _ Hmax|sv Hsame _ _ _ _ Hmax Hans].
  - split.
    + destruct (handed_over_sent r Hst _ _ _ Hover) as (ds & Hds & Hsil & Hpre). exists ds. split; [done|]. by left.
    + intros Hgt. destruct (Hmax Hgt) as [-> |]; [cbn; lia|lia].
  - split; [|congruence]. destruct Hans as (out & reason & Hsil & Ht & Hds & _). eexists. split; [exact Hds|]. right. by exists out, reason.
  - split; [|done]. destruct (handed_over_sent r Hst _ _ _ Hover) as (ds & Hds & Hsil & Hpre). exists ds. split; [done|]. by left.
  - split; [|done]. destruct Hans as (out & reason & Hsil & Ht & Hds & _). eexists. split; [exact Hds|]. right. by exists out, reason.
Qed.

(** C24: emission does not get stuck. For a request that is not preempted and
    whose client stays, and tokens that stand for whole characters, the worker gets through the commands queued without a panic; a request that
    is over has been answered when it did; and a request that waits at the gate
    then has the event that opens it. Without stop sequences in every state
    reached; with them, in those reached without a decode overtaking the gate. *)
Theorem emission_completes `{TokenizerLaws} (is_stop_token : N -> bool) stream_interval overtaken r sv :
  Forall utf8 (default [] (rq_stop r)) -> admitted_request r -> overtaken = false \/ has_stop_sequences r = false ->
  Forall whole_token (generated_tokens (request sv)) -> reachable is_stop_token stream_interval r overtaken sv ->
  exists w, run_worker stream_interval (commands sv) (worker sv) = Done w /\
    (phase (request sv) = PhaseFinished -> answered r (generated_tokens (request sv)) w) /\
    (gate_waiting sv = true -> exists finished, gate_events w = [(rq_id r, finished)] /\
       (finished = true -> answered r (generated_tokens (request sv)) w)).
Proof.
  intros Hst Hr Hp Hwhole Hreach. pose proof (reachable_ok is_stop_token stream_interval r Hst _ sv Hr Hp Hwhole Hreach) as Hok.
  destruct (run_worker_ok stream_interval r Hst _ sv Hok Hwhole eq_refl) as (w & Hrun & Hok'). exists w. split; [done|].
  remember (after_worker sv [] w) as sv' eqn:E.
  assert (request sv' = request sv /\ gate_waiting sv' = gate_waiting sv /\ worker sv' = w /\ commands sv' = []) as (<- & <- & <- & Hnil)
    by (by subst). clear E Hrun Hok Hreach.
  destruct Hok' as [sv' got chunks Hover Hph Hc Hgate _|sv' Hsame Hph _ Hg Hgt Hev _ Hans|sv' got chunks reason Hover Hph Hc|sv' Hsame Hph _ Hg Hev _ Hans].
  - split; [done|]. intros Hg. unfold gate_ok in Hgate. rewrite Hg in Hgate. destruct Hgate as (_ & _ & _ & [[Hlen _]|[_ Hev]]); [|by exists false].
    destruct chunks; [done|]. cbn in Hc. congruence.
  - split; [done|]. intros _. by exists true.
  - rewrite Hc in Hnil. by apply app_eq_nil in Hnil as [_ ?].
  - split; [done|]. intros ?. congruence.
Qed.

(** ** Runs of the system *)
Inductive Move :=
  | MPrefill (token : N)
  | MLaunch
  | MReadback (tokens : list N)
  | MDispatch
  | MWorker
  | MGate.

Section run.
Context `{HfTokenizer} (is_stop_token : N -> bool) (stream_interval : nat).

(** A move, and whether it overtakes the gate. *)
Definition move (m : Move) (sv : Serving) : option (bool * Serving) :=
  match m with
  | MPrefill token =>
      if bool_decide (phase (request sv) = Prefilling) && bool_decide (generated_tokens (request sv) = [])
      then Some (false, apply_prefill_completion_token is_stop_token token sv) else None
  | MLaunch =>
      if slot_is_runnable_decode false sv && negb (pending_decode sv)
      then Some (false, set_decodes true (deferred_decode_emit sv) sv) else None
  | MReadback tokens =>
      if pending_decode sv && negb (deferred_decode_emit sv)
      then Some (gate_waiting sv, apply_sampled is_stop_token tokens (set_decodes false false sv)) else None
  | MDispatch => if bool_decide (phase (request sv) = Decoding) then Some (gate_waiting sv, dispatch_emit sv) else None
  | MWorker =>
      match commands sv with
      | c :: rest =>
          match handle_emit stream_interval c (worker sv) with Done w => Some (false, after_worker sv rest w) | _ => None end
      | [] => None
      end
  | MGate =>
      match gate_events (worker sv) with
      | e :: rest => Some (false, handle_emit_event e (pop_event rest sv))
      | [] => None
      end
  end.
Fixpoint moves (ms : list Move) (overtaken : bool) (sv : Serving) : option (bool * Serving) :=
  match ms with
  | [] => Some (overtaken, sv)
  | m :: ms => '(overtakes, sv) ← move m sv; moves ms (overtaken || overtakes) sv
  end.

Lemma move_step m sv o sv' : move m sv = Some (o, sv') -> step is_stop_token stream_interval o sv sv'.
Proof.
  destruct m; cbn [move]; repeat case_match; intros [= <- <-];
    rewrite ?andb_true_iff, ?negb_true_iff, ?bool_decide_eq_true in *; destruct_and?.
  - by apply step_prefill.
  - by apply step_launch.
  - by apply step_readback.
  - by apply step_dispatch.
  - by eapply step_worker.
  - by apply step_gate.
Qed.

Definition start (r : ActiveRequest) : Serving := mkServing r false false false [] (mkEmitWorker ∅ [] []).
Definition run_of (ms : list Move) (r : ActiveRequest) : option (bool * Serving) := moves ms false (start r).

Lemma run_reachable ms r o sv : run_of ms r = Some (o, sv) -> reachable is_stop_token stream_interval r o sv.
Proof.
  unfold run_of. assert (reachable is_stop_token stream_interval r false (start r)) as Hr by constructor.
  revert Hr. generalize (start r). generalize false.
  induction ms as [|m ms IH]; cbn [moves]; intros o0 sv0 Hr; [by intros [= <- <-]|].
  destruct (move m sv0) as [[o1 sv1]|] eqn:E; [|done]. cbn. apply IH. econstructor; [done|by apply move_step with m].
Qed.
End run.

(** A tokenizer whose tokens are ASCII characters. *)
Definition letter (token : N) : ascii := ascii_of_N (token mod 128).
Definition spell (l : list N) : text := letter <$> l.
#[export] Instance letters : HfTokenizer :=
  {| hf_decode l := Some (spell l); DecodeStream := unit; decode_stream := tt; hf_step id s := (Some (Some [letter id]), s) |}.

Lemma spell_utf8 l : utf8 (spell l).
Proof.
  apply utf8_ascii. induction l as [|x l IH]; [done|]. cbn [spell fmap list_fmap forallb]. rewrite andb_true_iff. split; [|done].
  unfold is_ascii_byte, byte_of, nat_of_ascii, letter. rewrite N_ascii_embedding by (pose proof (N.mod_upper_bound x 128); lia).
  apply Nat.ltb_lt. pose proof (N.mod_upper_bound x 128). lia.
Qed.

#[export] Instance letters_laws : TokenizerLaws.
Proof.
  apply (Build_TokenizerLaws _ (fun _ => True) spell); [done|done|apply spell_utf8| |].
  - intros l m. exists (spell m). split; [apply spell_utf8|apply fmap_app].
  - intros a x. exists (spell a). intros b. apply fmap_app.
Defined.

(** The request of the runs: at most [limit] tokens, stopping at [stops]. *)
Definition request_of (limit : nat) (stops : option (list text)) : ActiveRequest :=
  mkRequest 7 3 [] limit false stops 1 0 Prefilling None.
Definition no_stop_token (token : N) : bool := false.
Definition codes (s : string) : list N := N_of_ascii <$> lit s.
Definition to_clients (sv : Serving) : list (text * option FinishReason) :=
  (fun d => (text_delta d.2, finish_reason d.2)) <$> delivered (worker sv).
Definition seen (o : option (bool * Serving)) : option (bool * list (text * option FinishReason)) :=
  (fun p => (p.1, to_clients p.2)) <$> o.

(** "hello END." with the stop "END". The text dispatched before the stop was
    complete went out up to three bytes short of its end. *)
Definition gated_run : list Move :=
  [MPrefill 104; MWorker; MGate; MLaunch; MReadback (codes "ello EN"); MDispatch; MWorker; MGate;
   MLaunch; MReadback (codes "D."); MDispatch; MWorker; MGate; MWorker].

Example gated_run_text :
  seen (run_of no_stop_token 1 gated_run (request_of 64 (Some [lit "END"]))) =
  Some (false, [(lit "hello", None); (lit " ", None); ([], Some FinishStop)]).
Proof. reflexivity. Qed.

(** A byte-level tokenizer: tokens are bytes, and what is not (yet) a character
    of one or two bytes is replaced by U+FFFD. *)
Fixpoint lossy (fuel : nat) (t : text) : text :=
  match fuel, t with
  | S fuel, a :: t =>
      if is_ascii_byte a then a :: lossy fuel t
      else
        match continuations a, t with
        | Some 1, b :: u => if is_continuation b then a :: b :: lossy fuel u else replacement_character ++ lossy fuel t
        | _, _ => replacement_character ++ lossy fuel t
        end
  | _, _ => []
  end.
Definition byte_decode (l : list N) : text := lossy (length l) (ascii_of_N <$> l).

(** Its stream keeps the tokens whose text ends in U+FFFD. *)
Definition byte_step (id : N) (held : list N) : option (option text) * list N :=
  let t := byte_decode (held ++ [id]) in
  if ends_with t replacement_character then (Some None, held ++ [id]) else (Some (Some t), []).
Definition byte_level : HfTokenizer :=
  {| hf_decode l := Some (byte_decode l); DecodeStream := list N; decode_stream := []; hf_step := byte_step |}.

(** Its whole tokens are the ASCII characters. *)
Definition ascii_token (token : N) : Prop := (token < 128)%N.

Lemma letter_ascii token : ascii_token token -> letter token = ascii_of_N token /\ is_ascii_byte (letter token) = true.
Proof.
  intros Ht. unfold letter. rewrite N.mod_small by done. split; [done|]. unfold is_ascii_byte, byte_of, nat_of_ascii.
  unfold ascii_token in Ht. rewrite N_ascii_embedding by lia. apply Nat.ltb_lt. lia.
Qed.

Lemma byte_decode_ascii l : Forall ascii_token l -> byte_decode l = spell l.
Proof.
  unfold byte_decode. induction 1 as [|x l Hx _ IH]; [done|]. destruct (letter_ascii x Hx) as [He Ha].
  cbn [length lossy fmap list_fmap spell]. fold (spell l). rewrite <-He, Ha. f_equal. exact IH.
Qed.

Definition byte_level_laws : @TokenizerLaws byte_level.
Proof.
  apply (@Build_TokenizerLaws byte_level ascii_token spell); [|done|apply spell_utf8| |].
  - intros l Hl. cbn. by rewrite byte_decode_ascii.
  - intros l m. exists (spell m). split; [apply spell_utf8|apply fmap_app].
  - intros a x. exists (spell a). intros b. apply fmap_app.
Defined.

(** The same run, with the tokens of the byte-level tokenizer. *)
Lemma emitted_answer_witness :
  exists sv ds, @run_of byte_level no_stop_token 1 gated_run (request_of 64 (Some [lit "END"])) = Some (false, sv) /\
    delivered (worker sv) = (fun d => (1%N, d)) <$> ds.
Proof.
  assert ((fun p => (p.1, generated_tokens (request p.2))) <$>
    @run_of byte_level no_stop_token 1 gated_run (request_of 64 (Some [lit "END"])) = Some (false, codes "hello END.")) as Hrun by reflexivity.
  destruct (@run_of byte_level no_stop_token 1 gated_run (request_of 64 (Some [lit "END"]))) as [[o sv]|] eqn:E; [|discriminate Hrun].
  injection Hrun as -> Hgen.
  destruct (@emitted_answer byte_level byte_level_laws no_stop_token 1 false (request_of 64 (Some [lit "END"])) sv) as [(ds & Hds & _) _];
    [repeat constructor; by apply utf8_ascii|by split_and!|by left| |exact (@run_reachable byte_level _ _ _ _ _ _ E)|].
  - rewrite Hgen. apply (bool_decide_unpack (Forall (fun t => (t < 128)%N) _)). vm_compute. exact I.
  - exists sv, ds. split; [reflexivity|exact Hds].
Defined.

(** A request that ends at its limit of tokens with commands still queued. *)
Definition ending_run : list Move := [MPrefill 104; MLaunch; MReadback (codes "el"); MDispatch; MLaunch; MReadback (codes "lo")].

Lemma emission_completes_witness :
  exists sv w, run_of no_stop_token 1 ending_run (request_of 5 None) = Some (false, sv) /\
    run_worker 1 (commands sv) (worker sv) = Done w /\ answered (request_of 5 None) (codes "hello") w.
Proof.
  assert ((fun p => (p.1, phase (request p.2), generated_tokens (request p.2))) <$>
    run_of no_stop_token 1 ending_run (request_of 5 None) = Some (false, PhaseFinished, codes "hello")) as Hend by reflexivity.
  destruct (run_of no_stop_token 1 ending_run (request_of 5 None)) as [[o sv]|] eqn:E; [|discriminate Hend].
  injection Hend as -> Hph Hgen.
  destruct (emission_completes no_stop_token 1 false (request_of 5 None) sv) as (w & Hrun & Hans & _);
    [constructor|by split_and!|by right|rewrite Hgen; repeat constructor|exact (run_reachable _ _ _ _ _ _ E)|].
  exists sv, w. split; [reflexivity|]. split; [exact Hrun|]. rewrite <-Hgen. apply Hans, Hph.
Defined.

(** ** Runs outside the theorems *)

(** A character whose two bytes are two tokens, neither of them a whole one. The
    first is sent as U+FFFD, and with it counts as three bytes sent; neither the
    character nor the "a" after it is ever sent. *)
Theorem split_character_is_lost :
  seen (@run_of byte_level no_stop_token 1
    [MPrefill 195; MWorker; MLaunch; MReadback [169%N]; MDispatch; MWorker; MLaunch; MReadback [97%N]; MDispatch; MWorker;
     MLaunch; MReadback [98%N]; MWorker; MWorker] (request_of 4 None)) =
  Some (false, [(replacement_character, None); (lit "b", None); ([], Some FinishLength)]) /\
  @decode byte_level [195; 169; 97; 98]%N = Some (bytes [195; 169] ++ lit "ab").
Proof. by split. Qed.

(** The incremental decoder waits for the second byte. *)
Lemma incremental_decode_witness :
  exists d, @decoder_steps byte_level [195; 169; 97]%N (@incremental_decoder byte_level) = (Some (bytes [195; 169] ++ lit "a"), d) /\
    @decode byte_level [195; 169; 97]%N = Some (bytes [195; 169] ++ lit "a").
Proof.
  eexists. split; [reflexivity|]. exact (proj1 (@incremental_decode byte_level [195; 169; 97]%N (bytes [195; 169] ++ lit "a") _ eq_refl)).
Defined.

(** Two stops in the tokens of one readback: the one listed first counts, not
    the one that comes first. *)
Theorem first_listed_stop_counts :
  seen (run_of no_stop_token 1
    [MPrefill 104; MWorker; MGate; MLaunch; MReadback (codes "ello END"); MDispatch; MWorker]
    (request_of 64 (Some [lit "END"; lit "lo"]))) =
  Some (false, [(lit "hello ", None); ([], Some FinishStop)]) /\
  truncate_at_first_stop (lit "hello END") [lit "END"; lit "lo"] = Done (Some (lit "hel")).
Proof. by split. Qed.

(** A decode launched before a gated dispatch is read back before the worker
    answers: its token is dispatched too, and is sent after the end. *)
Theorem text_after_the_end :
  seen (run_of no_stop_token 1
    [MPrefill 69; MWorker; MGate; MLaunch; MReadback (codes "N"); MDispatch; MWorker; MGate; MLaunch; MReadback (codes "D");
     MLaunch; MDispatch; MReadback (codes "X"); MDispatch; MWorker; MWorker] (request_of 64 (Some [lit "END"]))) =
  Some (true, [([], Some FinishStop); (lit "X", None)]).
Proof. reflexivity. Qed.

(** The same order of steps takes a request one token past its limit. *)
Theorem limit_overshot :
  (fun p => (p.1, length (generated_tokens (request p.2)))) <$> run_of no_stop_token 1
    [MPrefill 104; MWorker; MGate; MLaunch; MReadback (codes "i"); MLaunch; MDispatch; MReadback (codes "X")]
    (request_of 2 (Some [lit "END"])) = Some (true, 3).
Proof. reflexivity. Qed.

(** A preempted request starts again: what the client has is sent again. *)
Theorem preempted_text_is_repeated :
  seen
    ('(o, sv) ← run_of no_stop_token 1 [MPrefill 104; MWorker; MLaunch; MReadback (codes "e"); MDispatch; MWorker] (request_of 3 None);
     moves no_stop_token 1 [MWorker; MPrefill 104; MWorker; MLaunch; MReadback (codes "e"); MDispatch; MWorker; MLaunch;
       MReadback (codes "y"); MWorker; MWorker] o (requeue_preempted_decode 8 sv)) =
  Some (false, [(lit "h", None); (lit "e", None); (lit "h", None); (lit "e", None); (lit "y", None); ([], Some FinishLength)]).
Proof. reflexivity. Qed.
