(* ===== verification/Speculative.v ===== *)
(** * Speculative decoding

    Greedy verification and the acceptance tracker of
    [infer/src/speculative.rs], the draft states of [speculative/cuda.rs], the
    verifier of [model/qwen3/forward.rs], and [scheduler/cuda/spec_path.rs] with
    an external draft model, for one row and for a batch. The models are
    classes; the verifier does not fail, and neither does rolling the target's
    KV back. Preempting rows for want of pages, and sampling with probabilities,
    are left out. *)

From S2P Require Import Prelude Utf8 StopText Tokenizer EmitStream EmitServing.
Local Open Scope nat_scope.

(** ** Verification *)
Record VerificationResult := mkVerification {
  accepted : list N;
  bonus_token : option N;
  num_accepted : nat;
  rejection_index : nat;
}.
Definition total_tokens (r : VerificationResult) : nat :=
  num_accepted r + (if bonus_token r then 1 else 0).

Fixpoint greedy_loop (drafts targets : list N) (idx : nat) (accepted : list N) : list N * nat :=
  match drafts with
  | [] => (accepted, idx)
  | draft_token :: drafts =>
      if bool_decide (targets !! idx = Some draft_token) then greedy_loop drafts targets (S idx) (accepted ++ [draft_token])
      else (accepted, idx)
  end.
Definition verify_tokens_greedy (draft_tokens target_argmax_tokens : list N) : VerificationResult :=
  let '(accepted, rejection_index) := greedy_loop draft_tokens target_argmax_tokens 0 [] in
  mkVerification accepted None (length accepted) rejection_index.

(** The token after the accepted ones. *)
Definition bonus_of (draft_tokens target_argmax_tokens : list N) (num_accepted : nat) : res N :=
  match target_argmax_tokens !! num_accepted with
  | Some t => Done t
  | None => match draft_tokens !! (num_accepted - 1) with Some t => Done t | None => Panics end
  end.

(** ** The acceptance tracker *)
Record AcceptanceTracker := mkTracker {
  window_size : nat;
  history : list (N * N);
  accepted_total : N;
  drafted_total : N;
}.
Definition DEFAULT_WINDOW_STEPS : nat := 64.
Definition AcceptanceTracker_new (window_size : nat) : AcceptanceTracker := mkTracker (Nat.max window_size 1) [] 0 0.
Definition default_window : AcceptanceTracker := AcceptanceTracker_new DEFAULT_WINDOW_STEPS.

Definition observe_step (accepted drafted : N) (t : AcceptanceTracker) : AcceptanceTracker :=
  if (drafted =? 0)%N then t
  else
    let accepted := N.min accepted drafted in
    let t :=
      if window_size t <=? length (history t) then
        match history t with
        | (old_accepted, old_drafted) :: history =>
            mkTracker (window_size t) history (accepted_total t - old_accepted) (drafted_total t - old_drafted)
        | [] => t
        end
      else t in
    mkTracker (window_size t) (history t ++ [(accepted, drafted)]) (u64_saturating_add (accepted_total t) accepted)
      (u64_saturating_add (drafted_total t) drafted).

(** [below a d] is [a as f32 / d as f32 < min_rate]. *)
Definition current_rate_below (below : N -> N -> bool) (t : AcceptanceTracker) : bool :=
  if (drafted_total t =? 0)%N then below 1%N 1%N else below (accepted_total t) (drafted_total t).
Definition should_disable (below : N -> N -> bool) (t : AcceptanceTracker) : bool :=
  (window_size t <=? length (history t)) && current_rate_below below t.

(** ** The draft engine *)

(** The state of the draft model, and the greedy choice after what it was
    fed. *)
Class DraftLm := {
  Lm : Type;
  lm_prefill : list N -> option Lm;
  lm_decode : N -> Lm -> option Lm;
  lm_truncate : nat -> Lm -> option Lm;
  lm_select : Lm -> option N;
}.

(** The token the target model finds most likely after a text. *)
Class TargetLm := target_next : list N -> N.

Section speculative.
Context `{DraftLm} `{TargetLm} (is_stop_token : N -> bool).

Record DraftRequestState := mkDraftState { draft_lm : Lm; draft_position : nat }.

Definition create_request_state (request_id : N) (prefix_tokens : list N) (states : gmap N DraftRequestState)
  : option (gmap N DraftRequestState) :=
  if bool_decide (prefix_tokens = []) then None
  else state ← lm_prefill prefix_tokens; Some (<[request_id := mkDraftState state (length prefix_tokens)]> states).

Definition release_request_state (request_id : N) (states : gmap N DraftRequestState) : gmap N DraftRequestState :=
  delete request_id states.

(** The loop of [draft_for_request]. What it returned, and the state, which a
    failure leaves where it was. *)
Fixpoint draft_loop (k : nat) (tokens : list N) (s : DraftRequestState) : option (list N) * DraftRequestState :=
  match k with
  | 0 => (Some tokens, s)
  | S k =>
      match lm_select (draft_lm s) with
      | None => (None, s)
      | Some token =>
          match lm_decode token (draft_lm s) with
          | None => (None, s)
          | Some lm =>
              let s := mkDraftState lm (draft_position s + 1) in
              if is_stop_token token then (Some (tokens ++ [token]), s) else draft_loop k (tokens ++ [token]) s
          end
      end
  end.
Definition draft_for_request (request_id : N) (num_draft_tokens : nat) (states : gmap N DraftRequestState)
  : option (list N) * gmap N DraftRequestState :=
  if num_draft_tokens =? 0 then (Some [], states)
  else
    match states !! request_id with
    | None => (None, states)
    | Some s => let '(tokens, s) := draft_loop num_draft_tokens [] s in (tokens, <[request_id := s]> states)
    end.

Definition commit_request_state (request_id : N) (draft_start_position accepted_count : nat) (bonus_token : N)
  (states : gmap N DraftRequestState) : option (gmap N DraftRequestState) :=
  s ← states !! request_id;
  let keep_len := draft_start_position + accepted_count in
  lm ← lm_truncate keep_len (draft_lm s);
  lm ← lm_decode bonus_token lm;
  Some (<[request_id := mkDraftState lm (keep_len + 1)]> states).

(** ** The verifier: the target is fed the input tokens one by one. *)
Fixpoint forward_spec_verify (fed input_tokens : list N) : list N :=
  match input_tokens with
  | [] => []
  | token :: input_tokens => target_next (fed ++ [token]) :: forward_spec_verify (fed ++ [token]) input_tokens
  end.

(** ** One row of the scheduler *)

(** [target_len] is the length of the target's KV; [spec_enabled] is what the
    request asked for; the sampling of the request is greedy. *)
Record SpecState := mkSpec {
  serving : Serving;
  target_len : nat;
  draft_states : gmap N DraftRequestState;
  spec_acceptance_tracker : option AcceptanceTracker;
  spec_decode_disabled : bool;
  spec_enabled : option bool;
}.
Definition set_serving (sv : Serving) (st : SpecState) : SpecState :=
  mkSpec sv (target_len st) (draft_states st) (spec_acceptance_tracker st) (spec_decode_disabled st) (spec_enabled st).
Definition set_target_len (n : nat) (st : SpecState) : SpecState :=
  mkSpec (serving st) n (draft_states st) (spec_acceptance_tracker st) (spec_decode_disabled st) (spec_enabled st).
Definition set_draft_states (m : gmap N DraftRequestState) (st : SpecState) : SpecState :=
  mkSpec (serving st) (target_len st) m (spec_acceptance_tracker st) (spec_decode_disabled st) (spec_enabled st).
Definition set_tracker (t : AcceptanceTracker) (disabled : bool) (st : SpecState) : SpecState :=
  mkSpec (serving st) (target_len st) (draft_states st) (Some t) disabled (spec_enabled st).

Section row.
Context (prompt : list N) (spec_draft_k : nat) (below_threshold : N -> N -> bool).

Definition context (sv : Serving) : list N := prompt ++ generated_tokens (request sv).

(** Committing ends with [finish_slot], which drops the draft state. *)
Definition commit_and_release (tokens : list N) (st : SpecState) : SpecState :=
  let sv := commit_tokens is_stop_token tokens (serving st) in
  let st := set_serving sv st in
  if bool_decide (phase (request sv) = PhaseFinished)
  then set_draft_states (release_request_state (rq_id (request sv)) (draft_states st)) st
  else st.

(** [step_decode_launch] and its readback. *)
Definition plain_step (st : SpecState) : SpecState :=
  if bool_decide (phase (request (serving st)) = Decoding)
  then commit_and_release [target_next (context (serving st))] (set_target_len (target_len st + 1) st)
  else st.

Record SpecRow := mkRow {
  row_request_id : N;
  draft_start_position : nat;
  original_target_len : nat;
  input_tokens : list N;
  draft_tokens : list N;
}.

(** Verifying and committing a row. *)
Definition commit_row (row : SpecRow) (st : SpecState) : res SpecState :=
  let target_argmax_tokens := forward_spec_verify (take (original_target_len row) (context (serving st))) (input_tokens row) in
  let result := verify_tokens_greedy (draft_tokens row) target_argmax_tokens in
  bonus ← bonus_of (draft_tokens row) target_argmax_tokens (num_accepted result);
  let keep_target_len := original_target_len row + 1 + num_accepted result in
  let st := set_target_len keep_target_len st in
  let st :=
    set_draft_states
      match commit_request_state (row_request_id row) (draft_start_position row) (num_accepted result) bonus (draft_states st) with
      | Some states => states
      | None => release_request_state (row_request_id row) (draft_states st)
      end st in
  let tracker :=
    observe_step (N.of_nat (num_accepted result)) (N.of_nat (length (draft_tokens row)))
      (default default_window (spec_acceptance_tracker st)) in
  let st := set_tracker tracker (spec_decode_disabled st || should_disable below_threshold tracker) st in
  Done (commit_and_release (accepted result ++ [bonus]) st).

Definition speculates (st : SpecState) : bool :=
  negb (spec_decode_disabled st) && negb (bool_decide (spec_enabled st = Some false))
  && negb (has_stop_sequences (request (serving st))).

(** What a row of the batch proposes, and the row with its draft state; nothing
    when that cannot be made, or drafting fails. *)
Definition propose (st : SpecState) : SpecState * option (option SpecRow) :=
  let r := request (serving st) in
  let id := rq_id r in
  match last (generated_tokens r) with
  | None => (st, Some None)
  | Some last_token =>
      let created :=
        match draft_states st !! id with
        | Some _ => Some (draft_states st)
        | None => create_request_state id (context (serving st)) (draft_states st)
        end in
      match created with
      | None => (st, None)
      | Some states =>
          let start := match states !! id with Some s => draft_position s | None => length (context (serving st)) end in
          let '(proposal, states) := draft_for_request id spec_draft_k states in
          let st := set_draft_states states st in
          match proposal with
          | None => (st, None)
          | Some [] => (st, Some None)
          | Some drafts => (st, Some (Some (mkRow id start (target_len st) (last_token :: drafts) drafts)))
          end
      end
  end.

End row.

(** ** The batch

    A slot of the batch is the prompt of its request and the rest of its state.
    The draft engine keeps one map for all requests; each slot holds the part
    of it that belongs to its request. *)
Section batch.
Context (spec_draft_k : nat) (below_threshold : N -> N -> bool).

Definition SpecSlot : Type := list N * SpecState.
Definition plain_slot (s : SpecSlot) : SpecSlot := (s.1, plain_step s.1 s.2).
Definition release_slot (s : SpecSlot) : SpecSlot :=
  (s.1, set_draft_states (release_request_state (rq_id (request (serving s.2))) (draft_states s.2)) s.2).

(** [release_draft_states]: of the rows made so far. *)
Definition release_rows (rows : list (SpecSlot * option SpecRow)) : list SpecSlot :=
  (fun r => match r.2 with Some _ => release_slot r.1 | None => r.1 end) <$> rows.

(** The loop that makes the rows. At the first failure it gives up: the rows
    made so far and the current one are released, the later ones are as they
    were. *)
Fixpoint propose_all (rows : list (SpecSlot * option SpecRow)) (slots : list SpecSlot)
    : list SpecSlot + list (SpecSlot * option SpecRow) :=
  match slots with
  | [] => inr rows
  | s :: slots =>
      match propose s.1 spec_draft_k s.2 with
      | (st, Some row) => propose_all (rows ++ [((s.1, st), row)]) slots
      | (st, None) => inl (release_rows rows ++ release_slot (s.1, st) :: slots)
      end
  end.

(** A slot without a row has no part in the step. *)
Fixpoint commit_rows (rows : list (SpecSlot * option SpecRow)) : res (list SpecSlot) :=
  match rows with
  | [] => Done []
  | (s, None) :: rows => rest ← commit_rows rows; Done (s :: rest)
  | (s, Some row) :: rows =>
      st ← commit_row s.1 below_threshold row s.2;
      rest ← commit_rows rows; Done ((s.1, st) :: rest)
  end.

(** [draft_then_verify] for the slots that decode; [enough_pages] says whether
    the pool has the pages the verifier needs. *)
Definition draft_then_verify (enough_pages : bool) (slots : list SpecSlot) : res (list SpecSlot) :=
  if spec_draft_k =? 0 then Done (plain_slot <$> slots)
  else if negb enough_pages || negb (forallb (fun s => speculates s.2) slots)
  then Done ((fun s => plain_slot (release_slot s)) <$> slots)
  else
    match propose_all [] slots with
    | inl slots => Done (plain_slot <$> slots)
    | inr rows =>
        if forallb (fun r => match r.2 with None => true | Some _ => false end) rows then Done (plain_slot <$> rows.*1)
        else commit_rows rows
    end.
End batch.
End speculative.

(** ** Lemmas *)
Lemma greedy_loop_spec drafts targets idx acc :
  exists n, greedy_loop drafts targets idx acc = (acc ++ take n drafts, idx + n) /\ n <= length drafts /\
    (forall i, i < n -> targets !! (idx + i) = drafts !! i) /\ (n < length drafts -> targets !! (idx + n) <> drafts !! n).
Proof.
  revert idx acc. induction drafts as [|d drafts IH]; intros idx acc; cbn [greedy_loop].
  { exists 0. rewrite app_nil_r, Nat.add_0_r. split_and!; [done|cbn; lia..]. }
  case_bool_decide as Hd.
  - destruct (IH (S idx) (acc ++ [d])) as (n & -> & Hle & Heq & Hne). exists (S n). cbn [take length].
    rewrite <-app_assoc. split_and!; [f_equal; lia|lia| |].
    + intros [|i] Hi; [by rewrite Nat.add_0_r|]. cbn. rewrite <-Heq by lia. f_equal. lia.
    + intros Hlt. replace (idx + S n) with (S idx + n) by lia. apply Hne. lia.
  - exists 0. rewrite app_nil_r, Nat.add_0_r. split_and!; [done|lia|lia|by intros _].
Qed.

Section proofs.
Context `{DraftLm} `{TargetLm} (is_stop_token : N -> bool) (prompt : list N).
Notation ctx := (context prompt).

Lemma spec_verify_lookup fed inputs i :
  i < length inputs -> forward_spec_verify fed inputs !! i = Some (target_next (fed ++ take (S i) inputs)).
Proof.
  revert fed i. induction inputs as [|t inputs IH]; intros fed i Hi; cbn in Hi; [lia|]. destruct i as [|i]; [done|].
  cbn [forward_spec_verify lookup]. cbn. rewrite IH by lia. by rewrite <-app_assoc.
Qed.
Lemma spec_verify_length fed inputs : length (forward_spec_verify fed inputs) = length inputs.
Proof. revert fed. induction inputs as [|t inputs IH]; intros fed; cbn; [done|]. by rewrite IH. Qed.

(** One token of plain greedy decoding. *)
Definition decode_one (sv : Serving) : Serving := apply_sampled is_stop_token [target_next (ctx sv)] sv.

Lemma decode_finished n sv : phase (request sv) = PhaseFinished -> Nat.iter n decode_one sv = sv.
Proof.
  intros Hph. induction n as [|n IH]; [done|]. cbn [Nat.iter nat_rect]. unfold Nat.iter in IH. rewrite IH. unfold decode_one, apply_sampled.
  by rewrite Hph.
Qed.

(** Tokens of which each is the greedy choice after the ones before. *)
Definition greedy_run (fed ts : list N) : Prop := forall i t, ts !! i = Some t -> t = target_next (fed ++ take i ts).

Lemma greedy_run_cons fed t ts : greedy_run fed (t :: ts) -> t = target_next fed /\ greedy_run (fed ++ [t]) ts.
Proof.
  intros Hrun. split; [rewrite (Hrun 0 t eq_refl); cbn; by rewrite app_nil_r|]. intros i x Hx. rewrite (Hrun (S i) x Hx). cbn. by rewrite <-app_assoc.
Qed.

Lemma finish_request_finished reason sv : phase (request (finish_request reason sv)) = PhaseFinished.
Proof. done. Qed.

Lemma finish_length_finished sv :
  has_stop_sequences (request sv) = false -> phase (request (finish_length sv)) = PhaseFinished.
Proof. intros Hs. unfold finish_length, defer_finish_until_emit_gate. by rewrite Hs. Qed.

(** Committing greedy tokens at once is decoding them one by one. *)
Lemma commit_greedy ts sv :
  phase (request sv) = Decoding -> has_stop_sequences (request sv) = false -> greedy_run (ctx sv) ts ->
  commit_tokens is_stop_token ts sv = Nat.iter (length ts) decode_one sv /\
  (phase (request (commit_tokens is_stop_token ts sv)) <> PhaseFinished ->
   phase (request (commit_tokens is_stop_token ts sv)) = Decoding /\
   generated_tokens (request (commit_tokens is_stop_token ts sv)) = generated_tokens (request sv) ++ ts).
Proof.
  revert sv. induction ts as [|t ts IH]; intros sv Hph Hs Hrun; [by rewrite app_nil_r|].
  apply greedy_run_cons in Hrun as [-> Hrun]. cbn [length]. rewrite Nat.iter_succ_r. unfold decode_one at 2, apply_sampled.
  rewrite bool_decide_eq_true_2 by done. cbn [commit_tokens]. destruct (_ && _).
  { split; [by rewrite decode_finished|]. by rewrite finish_request_finished. }
  set (sv' := with_request _ sv). destruct (_ <=? _).
  - assert (phase (request (finish_length sv')) = PhaseFinished) as Hfin by (by apply finish_length_finished).
    split; [by rewrite decode_finished|by rewrite Hfin].
  - assert (ctx sv' = ctx sv ++ [target_next (ctx sv)]) as Hctx by (unfold context, sv'; cbn; apply app_assoc).
    rewrite <-Hctx in Hrun. destruct (IH sv') as [-> Hlive]; [done..|]. split; [done|]. intros Hne. destruct (Hlive Hne) as [? ->].
    split; [done|]. unfold sv'. cbn. by rewrite <-app_assoc.
Qed.

(** What verifying accepts, with the bonus, is the greedy run. *)
Lemma verify_greedy_run fed last_token drafts :
  drafts <> [] ->
  let targets := forward_spec_verify fed (last_token :: drafts) in
  let result := verify_tokens_greedy drafts targets in
  exists bonus, bonus_of drafts targets (num_accepted result) = Done bonus /\ num_accepted result <= length drafts /\
    accepted result = take (num_accepted result) drafts /\ greedy_run (fed ++ [last_token]) (accepted result ++ [bonus]).
Proof.
  intros Hne. cbn zeta. set (targets := forward_spec_verify fed (last_token :: drafts)). unfold verify_tokens_greedy.
  destruct (greedy_loop_spec drafts targets 0 []) as (n & -> & Hn & Heq & _). cbn [accepted num_accepted app].
  rewrite length_take, Nat.min_l by done.
  assert (forall i, i <= length drafts -> targets !! i = Some (target_next (fed ++ [last_token] ++ take i drafts))) as Hat.
  { intros i Hi. unfold targets. rewrite spec_verify_lookup by (cbn; lia). done. }
  exists (target_next (fed ++ [last_token] ++ take n drafts)). unfold bonus_of. rewrite Hat by done. split_and!; [done..|].
  intros i t Hi. assert (i <= n) as Hin.
  { apply lookup_lt_Some in Hi. rewrite length_app, length_take in Hi. cbn in Hi. lia. }
  rewrite take_app_le by (rewrite length_take; lia). rewrite take_take, Nat.min_l, <-app_assoc by done.
  destruct (decide (i = n)) as [->|Hneq].
  - rewrite lookup_app_r in Hi by (rewrite length_take; lia). rewrite length_take, Nat.min_l, Nat.sub_diag in Hi by done. by injection Hi.
  - rewrite lookup_app_l in Hi by (rewrite length_take; lia). rewrite lookup_take_lt, <-Heq, Hat in Hi by lia. by injection Hi.
Qed.

Lemma draft_loop_length k tokens s ts s' :
  draft_loop is_stop_token k tokens s = (Some ts, s') -> length tokens <= length ts <= length tokens + k /\ (0 < k -> ts <> []).
Proof.
  revert tokens s. induction k as [|k IH]; intros tokens s; cbn [draft_loop]; [intros [= <- <-]; lia|].
  destruct (lm_select (draft_lm s)) as [t|]; [|done]. destruct (lm_decode t (draft_lm s)) as [lm|]; [|done].
  destruct (is_stop_token t).
  - intros [= <- <-]. rewrite length_app. cbn. split; [lia|]. intros _. by destruct tokens.
  - intros Hrun%IH. rewrite length_app in Hrun. cbn in Hrun. split; [lia|]. intros _ ->. cbn in Hrun. lia.
Qed.

Lemma commit_tokens_id ts sv : rq_id (request (commit_tokens is_stop_token ts sv)) = rq_id (request sv).
Proof.
  revert sv. induction ts as [|t ts IH]; intros sv; [done|]. cbn [commit_tokens]. destruct (_ && _); [done|].
  set (sv' := with_request _ sv). assert (rq_id (request sv') = rq_id (request sv)) as <- by done. destruct (_ <=? _); [|apply IH].
  unfold finish_length, defer_finish_until_emit_gate. by destruct (has_stop_sequences _).
Qed.

Lemma commit_release_serving ts st :
  serving (commit_and_release is_stop_token ts st) = commit_tokens is_stop_token ts (serving st) /\
  target_len (commit_and_release is_stop_token ts st) = target_len st.
Proof. unfold commit_and_release. by case_bool_decide. Qed.

Lemma commit_release_drafts ts st s :
  draft_states (commit_and_release is_stop_token ts st) !! rq_id (request (serving st)) = Some s ->
  draft_states st !! rq_id (request (serving st)) = Some s /\
  phase (request (commit_tokens is_stop_token ts (serving st))) <> PhaseFinished.
Proof.
  unfold commit_and_release. case_bool_decide as Hph; cbn [draft_states set_draft_states set_serving serving]; [|done].
  rewrite commit_tokens_id. unfold release_request_state. by rewrite lookup_delete_eq.
Qed.

(** The target's KV holds all but the last token. *)
Definition kv_ok (st : SpecState) : Prop :=
  phase (request (serving st)) = Decoding -> target_len st + 1 = length (ctx (serving st)).

Lemma plain_step_ok st :
  phase (request (serving st)) = Decoding -> kv_ok st ->
  serving (plain_step is_stop_token prompt st) = decode_one (serving st) /\ kv_ok (plain_step is_stop_token prompt st).
Proof.
  intros Hph Hkv. unfold kv_ok, plain_step in *. specialize (Hkv Hph). unfold decode_one, apply_sampled. rewrite bool_decide_eq_true_2 by done.
  destruct (commit_release_serving [target_next (ctx (serving st))] (set_target_len (target_len st + 1) st)) as [-> ->].
  split; [done|]. cbn [serving set_target_len target_len]. cbn [commit_tokens].
  destruct (_ && _); [by rewrite finish_request_finished|].
  assert (forall f, generated_tokens (request f) = generated_tokens (request (serving st)) ++ [target_next (ctx (serving st))] ->
    target_len st + 1 + 1 = length (ctx f)) as Hlen.
  { intros f E. unfold context in *. rewrite E, !length_app in *. cbn. lia. }
  set (sv' := with_request _ _). intros _. apply Hlen. destruct (_ <=? _); [|done].
  unfold finish_length, defer_finish_until_emit_gate. by destruct (has_stop_sequences _).
Qed.

(** The path of a row: nothing to draft with, or drafts verified. *)
Lemma commit_row_ok below start last_token drafts id st :
  phase (request (serving st)) = Decoding -> has_stop_sequences (request (serving st)) = false -> kv_ok st ->
  last (generated_tokens (request (serving st))) = Some last_token -> drafts <> [] ->
  exists st' n bonus tracker,
    commit_row is_stop_token prompt below (mkRow id start (target_len st) (last_token :: drafts) drafts) st = Done st' /\
    n <= length drafts /\ serving st' = Nat.iter (S n) decode_one (serving st) /\ kv_ok st' /\
    st' = commit_and_release is_stop_token (take n drafts ++ [bonus])
      (set_tracker tracker (spec_decode_disabled st || should_disable below tracker)
        (set_draft_states (match commit_request_state id start n bonus (draft_states st) with
           Some m => m | None => release_request_state id (draft_states st) end) (set_target_len (target_len st + 1 + n) st))) /\
    (phase (request (serving st')) <> PhaseFinished -> ctx (serving st') = ctx (serving st) ++ take n drafts ++ [bonus]).
Proof.
  intros Hph Hs Hkv Hlast Hne. apply last_Some in Hlast as [g Hg].
  assert (take (target_len st) (ctx (serving st)) ++ [last_token] = ctx (serving st)) as Hfed.
  { specialize (Hkv Hph). unfold context in *. rewrite Hg, app_assoc in *. rewrite length_app in Hkv. cbn in Hkv.
    replace (target_len st) with (length (prompt ++ g)) by lia. by rewrite take_app_length. }
  unfold commit_row. cbn [original_target_len input_tokens draft_tokens row_request_id draft_start_position].
  destruct (verify_greedy_run (take (target_len st) (ctx (serving st))) last_token drafts Hne) as (bonus & -> & Hn & Hacc & Hrun).
  rewrite Hfed in Hrun. set (result := verify_tokens_greedy _ _) in *. clearbody result. rewrite Hacc in *. set (n := num_accepted result) in *.
  clearbody n. cbn [mbind res_bind]. set (tracker := observe_step _ _ _).
  destruct (commit_greedy (take n drafts ++ [bonus]) (serving st) Hph Hs Hrun) as [Hcommit Hlive].
  rewrite length_app, length_take, Nat.min_l, Nat.add_1_r in Hcommit by done.
  eexists _, n, bonus, tracker. split; [done|]. split; [done|]. set (st1 := set_tracker _ _ _).
  destruct (commit_release_serving (take n drafts ++ [bonus]) st1) as [Hserv Htl]. unfold kv_ok. rewrite Hserv, Htl.
  change (serving st1) with (serving st). rewrite <-Hcommit.
  assert (phase (request (commit_tokens is_stop_token (take n drafts ++ [bonus]) (serving st))) <> PhaseFinished ->
    ctx (commit_tokens is_stop_token (take n drafts ++ [bonus]) (serving st)) = ctx (serving st) ++ take n drafts ++ [bonus]) as Hctx.
  { intros Hnf. unfold context. destruct (Hlive Hnf) as [_ ->]. by rewrite app_assoc. }
  split; [done|]. split; [|done]. intros Hdec. rewrite Hctx by congruence. cbn. specialize (Hkv Hph).
  rewrite !length_app, length_take, Nat.min_l by done. cbn. lia.
Qed.
End proofs.

(** ** The draft model follows the text *)

(** What is relied on of a draft model: its state is the tokens it was fed. *)
Class DraftLmLaws `{DraftLm} := {
  fed : Lm -> list N;
  prefill_fed ts s : lm_prefill ts = Some s -> fed s = ts;
  decode_fed t s s' : lm_decode t s = Some s' -> fed s' = fed s ++ [t];
  truncate_fed n s s' : n <= length (fed s) -> lm_truncate n s = Some s' -> fed s' = take n (fed s);
}.

Section sync.
Context `{DraftLmLaws} `{TargetLm} (is_stop_token : N -> bool) (prompt : list N).
Notation ctx := (context prompt).

Definition follows (text : list N) (s : DraftRequestState) : Prop :=
  fed (draft_lm s) = text /\ draft_position s = length text.

(** The draft state of the request, if there is one. *)
Definition in_sync (st : SpecState) : Prop :=
  forall s, draft_states st !! rq_id (request (serving st)) = Some s -> follows (ctx (serving st)) s.

Lemma draft_loop_follows k tokens s ts s' text :
  draft_loop is_stop_token k tokens s = (Some ts, s') -> follows (text ++ tokens) s -> follows (text ++ ts) s'.
Proof.
  revert tokens s. induction k as [|k IH]; intros tokens s; cbn [draft_loop]; [by intros [= <- <-]|].
  destruct (lm_select (draft_lm s)) as [t|]; [|done]. destruct (lm_decode t (draft_lm s)) as [lm|] eqn:Hdec; [|done].
  intros Hrun [Hfed Hpos]. assert (follows (text ++ tokens ++ [t]) (mkDraftState lm (draft_position s + 1))) as Hf.
  { split; cbn; [rewrite (decode_fed _ _ _ Hdec), Hfed; by rewrite app_assoc|]. rewrite Hpos, app_assoc, (length_app _ [t]). done. }
  destruct (is_stop_token t); [by injection Hrun as <- <-|by eapply IH].
Qed.

Lemma commit_state_follows id n bonus drafts text m m' s :
  m !! id = Some s -> follows (text ++ drafts) s -> n <= length drafts ->
  commit_request_state id (length text) n bonus m = Some m' ->
  exists s', m' !! id = Some s' /\ follows (text ++ take n drafts ++ [bonus]) s'.
Proof.
  intros Hs [Hfed Hpos] Hn. unfold commit_request_state. rewrite Hs. cbn.
  destruct (lm_truncate _ _) as [lm|] eqn:Htr; [|done]. cbn. destruct (lm_decode bonus lm) as [lm'|] eqn:Hdec; [|done]. cbn.
  intros [= <-]. eexists. split; [apply lookup_insert_eq|]. split; cbn.
  - apply truncate_fed in Htr; [|rewrite Hfed, length_app; lia]. rewrite (decode_fed _ _ _ Hdec), Htr, Hfed.
    rewrite take_app_ge, app_assoc by lia. do 3 f_equal. lia.
  - rewrite !length_app, length_take, Nat.min_l by done. cbn. lia.
Qed.

Lemma plain_released st : draft_states st !! rq_id (request (serving st)) = None -> in_sync (plain_step is_stop_token prompt st).
Proof.
  intros Hnone s. unfold plain_step. case_bool_decide; [|by rewrite Hnone].
  destruct (commit_release_serving is_stop_token [target_next (ctx (serving st))] (set_target_len (target_len st + 1) st)) as [-> _].
  rewrite commit_tokens_id. intros [Hs _]%commit_release_drafts. cbn in Hs. by rewrite Hnone in Hs.
Qed.
End sync.

Lemma Forall2_with {A B} (Q : A -> Prop) (P : A -> B -> Prop) l l' :
  Forall Q l -> Forall2 P l l' -> Forall2 (fun x y => Q x /\ P x y) l l'.
Proof. intros HQ. induction 1; inversion HQ; subst; constructor; auto. Qed.

(** ** A step of the batch *)
Section batch_step.
Context `{DraftLm} `{TargetLm} (is_stop_token : N -> bool) (k : nat) (below : N -> N -> bool).

(** A slot that decodes. *)
Record slot_ok (s : SpecSlot) : Prop := mk_slot_ok {
  sk_decoding : phase (request (serving s.2)) = Decoding;
  sk_tokens : generated_tokens (request (serving s.2)) <> [];
  sk_kv : kv_ok s.1 s.2;
}.

(** A slot after the step: some greedy steps on, and its KV right. *)
Definition advanced (s s' : SpecSlot) : Prop :=
  s'.1 = s.1 /\ kv_ok s.1 s'.2 /\
  exists n, n <= k /\ serving s'.2 = Nat.iter (S n) (decode_one is_stop_token s.1) (serving s.2).

(** The row of a slot. *)
Definition row_made (s : SpecSlot) (st : SpecState) (row : SpecRow) : Prop :=
  exists m start last_token drafts, st = set_draft_states m s.2 /\
    row = mkRow (rq_id (request (serving s.2))) start (target_len s.2) (last_token :: drafts) drafts /\
    last (generated_tokens (request (serving s.2))) = Some last_token /\ drafts <> [] /\ length drafts <= k.
Definition made_from (s : SpecSlot) (r : SpecSlot * option SpecRow) : Prop :=
  r.1.1 = s.1 /\ exists row, r.2 = Some row /\ propose is_stop_token s.1 k s.2 = (r.1.2, Some (Some row)).

Lemma propose_made s : slot_ok s -> 0 < k ->
  match propose is_stop_token s.1 k s.2 with
  | (st, None) => exists m, st = set_draft_states m s.2
  | (st, Some None) => False
  | (st, Some (Some row)) => row_made s st row
  end.
Proof.
  intros [Hph Hgen Hkv] Hk. unfold propose. set (id := rq_id (request (serving s.2))).
  destruct (last (generated_tokens (request (serving s.2)))) as [last_token|] eqn:Hlast; [|by apply last_None in Hlast].
  destruct (match draft_states s.2 !! id with Some _ => _ | None => _ end) as [states|];
    [|exists (draft_states s.2); by destruct s as [? []]].
  unfold draft_for_request. rewrite (proj2 (Nat.eqb_neq k 0)) by lia.
  destruct (states !! id) as [ds|]; [|by eexists].
  destruct (draft_loop _ _ _ _) as [[drafts|] ds'] eqn:Hloop; [|by eexists].
  pose proof (draft_loop_length _ _ _ _ _ _ Hloop) as [Hlen Hne]. specialize (Hne Hk).
  destruct drafts as [|d drafts]; [done|]. eexists _, _, last_token, (d :: drafts). split_and!; [done|done|done|done|cbn in *; lia].
Qed.

Lemma commit_advanced s st row : slot_ok s -> has_stop_sequences (request (serving s.2)) = false -> row_made s st row ->
  exists st', commit_row is_stop_token s.1 below row st = Done st' /\ advanced s (s.1, st').
Proof.
  intros [Hph Hgen Hkv] Hst (m & start & last_token & drafts & -> & -> & Hlast & Hne & Hlen).
  destruct (commit_row_ok is_stop_token s.1 below start last_token drafts (rq_id (request (serving s.2)))
    (set_draft_states m s.2)) as (st1 & n & bonus & tracker & Hrun & Hn & Hserv & Hkv' & _); [done..|].
  exists st1. split; [exact Hrun|]. split_and!; [done|done|]. exists n. split; [lia|done].
Qed.

(** A plain step, whatever became of the draft state. *)
Lemma plain_advanced s m : slot_ok s -> advanced s (plain_slot is_stop_token (s.1, set_draft_states m s.2)).
Proof.
  intros [Hph Hgen Hkv]. destruct (plain_step_ok is_stop_token s.1 (set_draft_states m s.2) Hph Hkv) as [Hs Hk].
  split; [done|]. split; [done|]. exists 0. split; [apply Nat.le_0_l|done].
Qed.

Lemma plain_all_advanced slots : Forall slot_ok slots -> Forall2 advanced slots (plain_slot is_stop_token <$> slots).
Proof.
  intros Hok. apply Forall2_fmap_r, Forall_Forall2_diag. eapply Forall_impl; [exact Hok|]. intros [p st] Hs.
  pose proof (plain_advanced (p, st) (draft_states st) Hs) as Ha. by destruct st.
Qed.

(** The first slot that fails to draft, if drafting gets that far. *)
Definition fails (s : SpecSlot) : Prop := (propose is_stop_token s.1 k s.2).2 = None.
#[export] Instance fails_dec s : Decision (fails s).
Proof. unfold fails. destruct (propose _ _ _ _).2; [by right|by left]. Defined.
Definition first_failure (enough_pages : bool) (slots : list SpecSlot) : option nat :=
  if enough_pages && forallb (fun s => speculates s.2) slots then fst <$> list_find fails slots else None.

Lemma propose_all_spec slots : 0 < k -> forall rows,
  Forall slot_ok slots ->
  match fst <$> list_find fails slots with
  | None => exists new, propose_all is_stop_token k rows slots = inr (rows ++ new) /\ Forall2 made_from slots new
  | Some i => exists released, propose_all is_stop_token k rows slots = inl (release_rows rows ++ released ++ drop (S i) slots) /\
      Forall2 (fun s s' => exists m, s' = release_slot (s.1, set_draft_states m s.2)) (take (S i) slots) released
  end.
Proof.
  intros Hk. induction slots as [|s slots IH]; intros rows Hok; [by exists []; rewrite app_nil_r|].
  apply Forall_cons in Hok as [Hs Hok]. pose proof (propose_made s Hs Hk) as Hrow.
  cbn [propose_all list_find]. destruct (propose is_stop_token s.1 k s.2) as [st [[row|]|]] eqn:E; [|done|].
  - assert (~ fails s) as Hno by (unfold fails; by rewrite E). rewrite decide_False by done.
    specialize (IH (rows ++ [((s.1, st), Some row)]) Hok).
    destruct (list_find fails slots) as [[i x]|]; cbn in IH |- *.
    + destruct IH as (released & -> & Hrel). exists (release_slot (s.1, st) :: released). split.
      { unfold release_rows. rewrite fmap_app. cbn. by rewrite <-app_assoc. }
      constructor; [|done]. destruct Hrow as (m & ? & ? & ? & -> & _). by exists m.
    + destruct IH as (new & -> & Hnew). exists (((s.1, st), Some row) :: new). split; [by rewrite <-app_assoc|].
      constructor; [|done]. split; [done|]. by exists row.
  - assert (fails s) as Hyes by (unfold fails; by rewrite E). rewrite decide_True by done. cbn.
    exists [release_slot (s.1, st)]. split; [done|]. destruct Hrow as [m ->]. constructor; [by exists m|]. constructor.
Qed.

Lemma commit_rows_advanced slots rows : 0 < k ->
  Forall (fun s => slot_ok s /\ has_stop_sequences (request (serving s.2)) = false) slots -> Forall2 made_from slots rows ->
  exists slots', commit_rows is_stop_token below rows = Done slots' /\ Forall2 advanced slots slots'.
Proof.
  intros Hk Hok. induction 1 as [|s [[p st] o] slots rows [Hp (row & Ho & Hrow)] _ IH]; [by exists []|]. cbn in Hp, Ho, Hrow. subst p o.
  apply Forall_cons in Hok as [[Hs Hst] Hok]. destruct (IH Hok) as (slots' & Hrun & Hadv).
  pose proof (propose_made s Hs Hk) as Hmade. rewrite Hrow in Hmade.
  destruct (commit_advanced s st row Hs Hst Hmade) as (st' & Hc & Ha). cbn [commit_rows fst snd]. rewrite Hc. cbn [mbind res_bind].
  rewrite Hrun. cbn [mbind res_bind]. exists ((s.1, st') :: slots'). split; [done|]. by constructor.
Qed.

Lemma speculates_ungated slots : forallb (fun s : SpecSlot => speculates s.2) slots = true -> Forall slot_ok slots ->
  Forall (fun s => slot_ok s /\ has_stop_sequences (request (serving s.2)) = false) slots.
Proof.
  rewrite forallb_forall, !Forall_forall. intros Hs Hok s Hin. split; [by apply Hok|].
  specialize (Hs s ltac:(by apply list_elem_of_In)). unfold speculates in Hs. rewrite !andb_true_iff, !negb_true_iff in Hs.
  by destruct Hs as [_ ?].
Qed.

(** What a step does, by what became of the drafts. *)
Inductive batch_outcome (enough_pages : bool) (slots : list SpecSlot) : list SpecSlot -> Prop :=
  | outcome_released :
      first_failure enough_pages slots = None -> enough_pages && forallb (fun s => speculates s.2) slots = false ->
      batch_outcome enough_pages slots ((fun s => plain_slot is_stop_token (release_slot s)) <$> slots)
  | outcome_failed i released :
      first_failure enough_pages slots = Some i -> length released = S i ->
      Forall2 (fun s s' => exists m, s' = release_slot (s.1, set_draft_states m s.2)) (take (S i) slots) released ->
      batch_outcome enough_pages slots (plain_slot is_stop_token <$> (released ++ drop (S i) slots))
  | outcome_verified rows slots' :
      first_failure enough_pages slots = None -> forallb (fun s => speculates s.2) slots = true ->
      Forall2 made_from slots rows -> commit_rows is_stop_token below rows = Done slots' ->
      batch_outcome enough_pages slots slots'.

Lemma batch_step enough_pages slots : 0 < k -> Forall slot_ok slots ->
  exists slots', draft_then_verify is_stop_token k below enough_pages slots = Done slots' /\
    batch_outcome enough_pages slots slots' /\ Forall2 advanced slots slots'.
Proof.
  intros Hk Hok. unfold draft_then_verify. rewrite (proj2 (Nat.eqb_neq k 0)) by lia. rewrite <-negb_andb.
  destruct (enough_pages && _) eqn:Hspec; cbn [negb].
  2: { eexists. split; [done|]. split; [by apply outcome_released; [unfold first_failure; rewrite Hspec|]|].
       apply Forall2_fmap_r, Forall_Forall2_diag. eapply Forall_impl; [exact Hok|]. intros [p st] Hs. exact (plain_advanced (p, st) _ Hs). }
  pose proof Hspec as [_ Hall]%andb_true_iff. pose proof (propose_all_spec slots Hk [] Hok) as Hprop.
  assert (first_failure enough_pages slots = fst <$> list_find fails slots) as Hfirst by (unfold first_failure; by rewrite Hspec).
  destruct (list_find fails slots) as [[i x]|] eqn:Hf; cbn in Hprop, Hfirst.
  - destruct Hprop as (released & -> & Hrel). cbn [app release_rows fmap list_fmap].
    assert (i < length slots) as Hi by (apply list_find_Some in Hf as (Hf & _); by eapply lookup_lt_Some).
    pose proof (eq_trans (eq_sym (length_take_le slots (S i) Hi)) (Forall2_length _ _ _ Hrel)) as Hlen.
    eexists. split; [done|]. split; [by eapply outcome_failed|]. rewrite fmap_app, <-(take_drop (S i) slots) at 1.
    apply Forall2_app; [|by apply plain_all_advanced, Forall_drop]. apply Forall2_fmap_r.
    eapply Forall2_impl; [apply (Forall2_with _ _ _ _ (Forall_take _ (S i) _ Hok) Hrel)|].
    intros s s' [Hs [m ->]]. exact (plain_advanced s _ Hs).
  - destruct Hprop as (new & -> & Hnew). cbn [app].
    destruct (commit_rows_advanced slots new Hk (speculates_ungated slots Hall Hok) Hnew) as (slots' & Hrun & Hadv).
    exists slots'. split; [|by split; [eapply outcome_verified|]].
    destruct Hnew as [|s [ds o] slots new (_ & row & Hr & _)]; [done|]. cbn in Hr. by subst o.
Qed.
End batch_step.

(** C25: speculation does not change the answer. Whatever the draft model
    proposes, whether it fails, and whether it is used at all, a step with
    drafts leaves the request of every slot, its commands and its gate exactly
    where a number of single greedy steps of the target model would have, at
    most [k] and one, and the target's KV at the token it has to hold. *)
Theorem speculation_is_greedy `{DraftLm} `{TargetLm} is_stop_token k below enough_pages slots :
  Forall slot_ok slots ->
  exists slots', draft_then_verify is_stop_token k below enough_pages slots = Done slots' /\
    Forall2 (advanced is_stop_token k) slots slots'.
Proof.
  intros Hok. destruct (decide (0 < k)) as [Hk|Hk].
  - destruct (batch_step is_stop_token k below enough_pages slots Hk Hok) as (slots' & Hrun & _ & Hadv). by exists slots'.
  - unfold draft_then_verify. rewrite (proj2 (Nat.eqb_eq k 0)) by lia. eexists. split; [done|]. by apply plain_all_advanced.
Qed.

(** ** The draft states after a step *)
Section batch_sync.
Context `{DraftLmLaws} `{TargetLm} (is_stop_token : N -> bool) (k : nat) (below : N -> N -> bool).
Definition synced (s : SpecSlot) : Prop := in_sync s.1 s.2.

Lemma propose_synced s st row : slot_ok s -> synced s -> 0 < k -> propose is_stop_token s.1 k s.2 = (st, Some (Some row)) ->
  draft_start_position row = length (context s.1 (serving s.2)) /\
  exists ds, draft_states st !! rq_id (request (serving s.2)) = Some ds /\ follows (context s.1 (serving s.2) ++ draft_tokens row) ds.
Proof.
  intros [Hph Hgen Hkv] Hsync Hk. unfold propose. set (id := rq_id (request (serving s.2))).
  destruct (last (generated_tokens (request (serving s.2)))) as [last_token|] eqn:Hlast; [|by apply last_None in Hlast].
  destruct (match draft_states s.2 !! id with Some _ => _ | None => _ end) as [states|] eqn:Hcreated; [|done].
  assert (exists ds, states !! id = Some ds /\ follows (context s.1 (serving s.2)) ds) as (ds & Hs & Hfol).
  { destruct (draft_states s.2 !! id) as [ds|] eqn:Es; [injection Hcreated as <-; exists ds; split; [done|by apply Hsync]|].
    unfold create_request_state in Hcreated. case_bool_decide; [done|]. destruct (lm_prefill _) as [lm|] eqn:Hpre; [|done].
    injection Hcreated as <-. eexists. split; [apply lookup_insert_eq|]. by split; [apply prefill_fed|]. }
  rewrite Hs, (proj2 Hfol). unfold draft_for_request. rewrite (proj2 (Nat.eqb_neq k 0)), Hs by lia.
  destruct (draft_loop _ _ _ _) as [[[|d drafts]|] ds'] eqn:Hloop; [done| |done]. intros [= <- <-]. split; [done|].
  exists ds'. split; [apply lookup_insert_eq|]. eapply draft_loop_follows; [done|by rewrite app_nil_r].
Qed.

Lemma commit_synced s st row st' : slot_ok s -> has_stop_sequences (request (serving s.2)) = false -> synced s -> 0 < k ->
  propose is_stop_token s.1 k s.2 = (st, Some (Some row)) -> commit_row is_stop_token s.1 below row st = Done st' ->
  synced (s.1, st').
Proof.
  intros Hs Hst Hsync Hk Hprop Hrun. pose proof (propose_made is_stop_token k s Hs Hk) as Hmade. rewrite Hprop in Hmade.
  destruct (propose_synced s st row Hs Hsync Hk Hprop) as (Hstart & ds & Hds & Hfol). destruct Hs as [Hph Hgen Hkv].
  destruct Hmade as (m & start & last_token & drafts & -> & -> & Hlast & Hne & Hlen). cbn in Hstart, Hds, Hfol. subst start.
  set (id := rq_id (request (serving s.2))) in *.
  destruct (commit_row_ok is_stop_token s.1 below (length (context s.1 (serving s.2))) last_token drafts id
    (set_draft_states m s.2)) as (st1 & n & bonus & tracker & Hrun' & Hn & _ & _ & Est & Hctx); [done..|].
  assert (Done st1 = Done st') as [= <-] by (by etrans; [symmetry; exact Hrun'|exact Hrun]).
  intros s1. cbn [fst snd]. revert Hctx. rewrite Est.
  match goal with |- context[commit_and_release _ ?ts ?x] => destruct (commit_release_serving is_stop_token ts x) as [-> _] end.
  rewrite commit_tokens_id. cbn [serving set_tracker set_draft_states set_target_len]. intros Hctx Hs1.
  match type of Hs1 with draft_states (commit_and_release _ ?ts ?x) !! _ = _ =>
    apply (commit_release_drafts is_stop_token ts x) in Hs1 as [Hs1 Hph1] end. rewrite (Hctx Hph1).
  cbn [draft_states set_tracker set_draft_states set_target_len] in Hs1. fold id in Hs1. destruct (commit_request_state _ _ _ _ _) as [m'|] eqn:Hcom.
  - eapply commit_state_follows in Hcom as (s2 & Hs2 & Hfol2); [|exact Hds|done|done].
    change (m' !! id = Some s1) in Hs1. rewrite Hs2 in Hs1. by injection Hs1 as <-.
  - unfold release_request_state in Hs1. change (delete id m !! id = Some s1) in Hs1. by rewrite lookup_delete_eq in Hs1.
Qed.

Lemma commit_rows_synced slots rows : 0 < k ->
  Forall (fun s => slot_ok s /\ has_stop_sequences (request (serving s.2)) = false) slots -> Forall synced slots ->
  Forall2 (made_from is_stop_token k) slots rows -> forall slots', commit_rows is_stop_token below rows = Done slots' -> Forall synced slots'.
Proof.
  intros Hk Hok Hsync. induction 1 as [|s [[p st] o] slots rows [Hp (row & Ho & Hrow)] _ IH]; [by intros slots' [= <-]|].
  cbn in Hp, Ho, Hrow. subst p o. apply Forall_cons in Hok as [[Hs Hst] Hok]. apply Forall_cons in Hsync as [Hsy Hsync].
  intros slots'. cbn [commit_rows fst snd]. destruct (commit_row _ _ _ _ _) as [st'| |] eqn:Hc; [|done..]. cbn [mbind res_bind].
  destruct (commit_rows _ _ rows) as [rest| |] eqn:Hrest; [|done..]. cbn. intros [= <-].
  constructor; [by eapply commit_synced|by apply IH].
Qed.

Lemma released_synced s : synced (plain_slot is_stop_token (release_slot s)).
Proof. apply plain_released. cbn. apply lookup_delete_eq. Qed.
End batch_sync.

(** C26: the draft model follows the texts. When the draft state of every
    request that has one has been fed exactly the prompt and the tokens
    generated, it has again, and its position is their number, after a step in
    which no request fails to draft, also when pages are short or a request does
    not speculate; in particular rejected drafts are gone and the bonus token is
    there. When one fails, that holds of the slots up to it; the slots after it
    take a plain step and keep the draft state they had, which is then a token
    behind ([failure_leaves_later_rows_behind]). *)
Theorem draft_stays_in_sync `{DraftLmLaws} `{TargetLm} is_stop_token k below enough_pages slots :
  0 < k -> Forall slot_ok slots -> Forall synced slots ->
  exists slots', draft_then_verify is_stop_token k below enough_pages slots = Done slots' /\
    match first_failure is_stop_token k enough_pages slots with
    | None => Forall synced slots'
    | Some i => Forall synced (take (S i) slots') /\ drop (S i) slots' = plain_slot is_stop_token <$> drop (S i) slots
    end.
Proof.
  intros Hk Hok Hsync. destruct (batch_step is_stop_token k below enough_pages slots Hk Hok) as (slots' & Hrun & Hout & _).
  exists slots'. split; [done|]. destruct Hout as [-> _|i released -> Hlen Hrel|rows slots' -> Hspec Hmade Hcommit].
  - apply Forall_fmap, Forall_true. intros s. apply released_synced.
  - assert (length (plain_slot is_stop_token <$> released) = S i) as Hpre by (by rewrite length_fmap).
    rewrite fmap_app, (take_app_length' _ _ _ (eq_sym Hpre)), (drop_app_length' _ _ _ (eq_sym Hpre)). split; [|done].
    apply Forall_fmap. eapply Forall2_Forall_r; [exact Hrel|]. apply Forall_true. intros s s' [m ->]. apply released_synced.
  - exact (commit_rows_synced is_stop_token k below slots rows Hk (speculates_ungated slots Hspec Hok) Hsync Hmade slots' Hcommit).
Qed.

(** ** The tracker *)
Definition sum_N (l : list N) : N := foldr N.add 0%N l.
Definition observe_all (w : nat) (steps : list (N * N)) : AcceptanceTracker :=
  foldl (fun t step => observe_step step.1 step.2 t) (AcceptanceTracker_new w) steps.
(** The steps that count. *)
Definition counted (steps : list (N * N)) : list (N * N) :=
  (fun step => (N.min step.1 step.2, step.2)) <$> filter (fun step => step.2 <> 0%N) steps.
Definition last_steps (w : nat) (l : list (N * N)) : list (N * N) := drop (length l - w) l.

Lemma sum_N_app l m : sum_N (l ++ m) = (sum_N l + sum_N m)%N.
Proof. unfold sum_N. induction l as [|x l IH]; cbn; lia. Qed.
Lemma sum_N_drop n l : (sum_N (drop n l) <= sum_N l)%N.
Proof. rewrite <-(take_drop n l) at 2. rewrite sum_N_app. lia. Qed.
Lemma sum_accepted l : Forall (fun s : N * N => (s.1 <= s.2)%N) l -> (sum_N l.*1 <= sum_N l.*2)%N.
Proof. induction 1; cbn; unfold sum_N in *; lia. Qed.
Lemma counted_ordered steps : Forall (fun s : N * N => (s.1 <= s.2)%N) (counted steps).
Proof. unfold counted. apply Forall_fmap, Forall_true. intros s. cbn. lia. Qed.
Lemma counted_snoc steps a d :
  counted (steps ++ [(a, d)]) = counted steps ++ (if (d =? 0)%N then [] else [(N.min a d, d)]).
Proof.
  unfold counted. rewrite filter_app, fmap_app. f_equal. cbn. destruct (N.eqb_spec d 0) as [->|]; [done|].
  by rewrite decide_True.
Qed.

(** The tracker is a window. After any steps the tracker holds the last
    ones that drafted anything, with more accepted than drafted counted as
    drafted, its totals are their sums, and it disables speculation only once
    the window is full. *)
Theorem tracker_window w steps :
  (sum_N (counted steps).*2 <= u64_max)%N ->
  let t := observe_all w steps in
  history t = last_steps (Nat.max w 1) (counted steps) /\
  accepted_total t = sum_N (history t).*1 /\ drafted_total t = sum_N (history t).*2 /\ (accepted_total t <= drafted_total t)%N /\
  (forall below, should_disable below t = true -> Nat.max w 1 <= length (counted steps)).
Proof.
  intros Hmax. cbn zeta. set (W := Nat.max w 1). assert (0 < W) as HW by (unfold W; lia).
  assert (window_size (observe_all w steps) = W /\ history (observe_all w steps) = last_steps W (counted steps) /\
    accepted_total (observe_all w steps) = sum_N (history (observe_all w steps)).*1 /\
    drafted_total (observe_all w steps) = sum_N (history (observe_all w steps)).*2) as (Hw & Hh & Ha & Hd).
  - induction steps as [|[a d] steps IH] using rev_ind; [done|]. unfold observe_all. rewrite foldl_app. fold (observe_all w steps).
    rewrite counted_snoc in *. cbn [foldl fst snd]. unfold observe_step. destruct (d =? 0)%N; [rewrite app_nil_r in *; by apply IH|].
    rewrite fmap_app, sum_N_app in Hmax. cbn in Hmax. destruct IH as (Hw & Hh & Ha & Hd); [lia|].
    pose proof (sum_N_drop (length (counted steps) - W) (counted steps).*2) as Hsum. rewrite <-fmap_drop in Hsum. fold (last_steps W (counted steps)) in Hsum.
    assert (Forall (fun s : N * N => (s.1 <= s.2)%N) (last_steps W (counted steps))) as Hord by (apply Forall_drop, counted_ordered).
    rewrite <-Hh in Hsum, Hord. pose proof (sum_accepted _ Hord). rewrite Hw.
    assert (length (history (observe_all w steps)) = Nat.min W (length (counted steps))) as Hlen.
    { rewrite Hh. unfold last_steps. rewrite length_drop. lia. }
    set (t := observe_all w steps) in *. clearbody t. unfold u64_saturating_add.
    assert (last_steps W (counted steps ++ [(N.min a d, d)]) =
      (if W <=? length (history t) then drop 1 (history t) else history t) ++ [(N.min a d, d)]) as Hlast.
    { rewrite Hlen, Hh. unfold last_steps. rewrite length_app. cbn [length]. rewrite drop_app_le by lia. f_equal.
      destruct (Nat.leb_spec W (Nat.min W (length (counted steps)))); [rewrite drop_drop|]; f_equal; lia. }
    destruct (Nat.leb_spec W (length (history t))) as [Hfull|Hroom].
    + destruct (history t) as [|[oa od] rest] eqn:E; [cbn in Hfull; lia|]. cbn [window_size history accepted_total drafted_total].
      rewrite Hlast, !fmap_app, !sum_N_app, Ha, Hd. cbn [drop fmap list_fmap fst snd] in *. unfold sum_N in *. cbn [foldr] in *.
      split_and!; [done|done|lia|lia].
    + rewrite Hlast. cbn [window_size history accepted_total drafted_total]. rewrite !fmap_app, !sum_N_app, Ha, Hd.
      unfold sum_N in *. cbn [fmap list_fmap fst snd foldr] in *. split_and!; [done|done|lia|lia].
  - split_and!; [done..| |].
    + rewrite Ha, Hd. apply sum_accepted. rewrite Hh. apply Forall_drop, counted_ordered.
    + intros below. unfold should_disable. rewrite Hw, Hh, andb_true_iff, Nat.leb_le. unfold last_steps. rewrite length_drop. lia.
Qed.

(** ** Runs *)

(** The target counts; the draft model counts up to five. *)
Definition next_number (l : list N) : N := default 0%N (last l) + 1.
#[export] Instance counting_target : TargetLm := next_number.
#[export] Instance counting_draft : DraftLm := {|
  Lm := list N;
  lm_prefill l := Some l;
  lm_decode t l := Some (l ++ [t]);
  lm_truncate n l := Some (take n l);
  lm_select l := Some (N.min (next_number l) 5);
|}.
#[export] Instance counting_laws : DraftLmLaws.
Proof. refine {| fed := (fun l => l) : @Lm counting_draft -> list N |}; cbn; [by intros ? ? [= <-]|by intros ? ? ? [= <-]|by intros ? ? ? _ [= <-]]. Defined.

Definition counting (stops : option (list text)) (generated : list N) (limit : nat) : SpecState :=
  mkSpec (mkServing (mkRequest 7 2 generated limit false stops 1 (length generated) Decoding None) false false false []
    (mkEmitWorker ∅ [] [])) (1 + length generated) ∅ None false None.
Definition never_stop (token : N) : bool := false.
Definition numbers : list N := [1%N; 2%N].
Definition never_below (a d : N) : bool := false.

(** A request three tokens in, and another eight. *)
Definition first_slot : SpecSlot := (numbers, counting None [3%N] 64).
Definition other_slot : SpecSlot :=
  ([1; 2; 3; 4; 5; 6; 7]%N,
   mkSpec (mkServing (mkRequest 8 7 [8%N] 64 false None 1 1 Decoding None) false false false [] (mkEmitWorker ∅ [] [])) 7 ∅ None false None).

Definition run_batch `{DraftLm} (slots : list SpecSlot) : list SpecSlot :=
  match draft_then_verify never_stop 3 never_below true slots with Done slots => slots | _ => [] end.
Definition summary `{DraftLm} (s : SpecSlot) : list N * nat * option nat :=
  (generated_tokens (request (serving s.2)), target_len s.2,
   option_map draft_position (draft_states s.2 !! rq_id (request (serving s.2)))).

Example counting_step :
  map summary (run_batch [other_slot; first_slot]) = [([8; 9]%N, 8, Some 9); ([3; 4; 5; 6]%N, 5, Some 6)].
Proof. reflexivity. Qed.

Lemma example_slots_ok : Forall slot_ok [other_slot; first_slot].
Proof. repeat constructor; done. Qed.

Lemma speculation_is_greedy_witness :
  exists slots, draft_then_verify never_stop 3 never_below true [other_slot; first_slot] = Done slots /\
    Forall2 (advanced never_stop 3) [other_slot; first_slot] slots.
Proof. exact (speculation_is_greedy never_stop 3 never_below true [other_slot; first_slot] example_slots_ok). Defined.

Lemma draft_stays_in_sync_witness :
  exists slots, draft_then_verify never_stop 3 never_below true [other_slot; first_slot] = Done slots /\ Forall synced slots.
Proof.
  destruct (draft_stays_in_sync never_stop 3 never_below true [other_slot; first_slot]) as (slots & Hrun & Hsync).
  - lia.
  - exact example_slots_ok.
  - constructor; [by intros ds Hds|]. constructor; [by intros ds Hds|]. constructor.
  - exists slots. split; [exact Hrun|exact Hsync].
Defined.

Lemma tracker_window_witness :
  history (observe_all 2 [(3, 4); (0, 0); (5, 4); (1, 4)]%N) = [(4, 4); (1, 4)]%N.
Proof. exact (proj1 (tracker_window 2 [(3, 4); (0, 0); (5, 4); (1, 4)]%N ltac:(vm_compute; discriminate))). Defined.

(** The length of the text of a slot, and how far its draft state is. *)
Definition lengths `{DraftLm} (s : SpecSlot) : option (nat * nat) :=
  (fun ds => (length (context s.1 (serving s.2)), draft_position ds)) <$> draft_states s.2 !! rq_id (request (serving s.2)).

(** A step without drafts, as when a prefill is launched beside the decode,
    leaves the draft state behind the text, and no later step catches up. *)
Theorem plain_decode_leaves_the_draft_behind :
  let slots1 := run_batch [first_slot] in
  let slots2 := map (plain_slot never_stop) slots1 in
  map lengths slots1 = [Some (6, 6)] /\ map lengths slots2 = [Some (7, 6)] /\ map lengths (run_batch slots2) = [Some (8, 7)].
Proof. by split_and!. Qed.

(** The draft model, but with a text of eight tokens too long for it. *)
Definition short_draft : DraftLm := {|
  Lm := list N;
  lm_prefill l := if length l <? 8 then Some l else None;
  lm_decode t l := Some (l ++ [t]);
  lm_truncate n l := Some (take n l);
  lm_select l := Some (next_number l);
|}.

(** The other request is new and comes first in the batch: its draft state
    cannot be made, so the whole batch takes a plain step; the draft state of the
    first one, which no one released, stays a token behind. *)
Theorem failure_leaves_later_rows_behind :
  let first : @SpecSlot short_draft := (numbers, mkSpec (serving first_slot.2) 2 ∅ None false None) in
  let other : @SpecSlot short_draft := (other_slot.1, mkSpec (serving other_slot.2) 7 ∅ None false None) in
  let slots := run_batch [first] in
  map lengths slots = [Some (7, 7)] /\ @first_failure short_draft never_stop 3 true (other :: slots) = Some 0 /\
  map lengths (run_batch (other :: slots)) = [None; Some (8, 7)].
Proof. by split_and!. Qed.
