(* ===== verification/WaitingQueue.v ===== *)
(** * The waiting queue of the CUDA scheduler

    Models [infer/src/scheduler/cuda/runtime/helpers.rs], the intake of
    requests of [runtime/admission.rs] and [runtime/fetch.rs] and
    [IncomingRequest] of [scheduler/types.rs]: the plan a waiting request is
    admitted with, the hint made of it, and where a request goes in the queue.
    Fields of a request that no decision reads are one payload. *)

From Stdlib Require Import Ascii.
From S2P Require Import Prelude Lists Tier RadixTypes RadixLookup HostArena HostPool CoordinatorControl Readmission SessionSlots.
From S2P Require BatchScheduler StopText EmitStream SchedulerConfig.
Import BatchScheduler (RequestPriority(..)).
Import EmitStream (Delta(..), FinishReason(..)).

#[export] Instance RequestPriority_eq_dec : EqDecision RequestPriority.
Proof. solve_decision. Defined.

(** The derived [Ord] of [RequestPriority]. *)
Definition RequestPriority_rank (p : RequestPriority) : nat :=
  match p with BatchScheduler.Low => 0 | BatchScheduler.Normal => 1 | BatchScheduler.High => 2 end.

(** ** Data *)
Record PrefixAdmissionPlan := mkPrefixAdmissionPlan {
  radix_blocks : list BlockId;
  pl_lookup : LookupOutcome;
  session_resume_tokens : nat;
  reusable : option (nat * nat * nat);
  direct_gpu_attach : bool;
  attached_prefix_blocks : list BlockId;
  staged_prefix_plan : option ReadmissionPlan;
  session_slot_hold : option SessionSlotHold;
}.

Record WaitingRequestHint := mkWaitingRequestHint {
  session_affinity_tokens : nat;
  immediate_reuse_tokens : nat;
  total_reuse_tokens : nat;
}.
Definition WaitingRequestHint_default : WaitingRequestHint := mkWaitingRequestHint 0 0 0.

Definition from_plan (plan : PrefixAdmissionPlan) (reusable_prefix_len : nat) : WaitingRequestHint :=
  let immediate := if direct_gpu_attach plan then lo_matched_len (pl_lookup plan) else reusable_prefix_len in
  let total :=
    if bool_decide (0 < immediate) then immediate
    else match staged_prefix_plan plan with Some staged => rp_matched_len staged | None => 0 end in
  mkWaitingRequestHint 0 immediate total.

Definition with_session_affinity_tokens (tokens : nat) (h : WaitingRequestHint) : WaitingRequestHint :=
  mkWaitingRequestHint tokens (immediate_reuse_tokens h) (total_reuse_tokens h).

(** [in_closed]: the receiver of [delta_tx] is gone. *)
Record IncomingRequest {P : Type} := mkIncoming {
  in_prompt : string;
  in_prompt_tokens : option (list Token);
  in_max_tokens : nat;
  in_priority : RequestPriority;
  in_session_id : option SessionId;
  in_closed : bool;
  in_payload : P;
}.
#[global] Arguments IncomingRequest : clear implicits.

Record QueuedAdmissionCandidate {P : Type} := mkCandidate {
  cd_incoming : IncomingRequest P;
  cd_prompt_tokens : list Token;
  cd_plan : PrefixAdmissionPlan;
  cd_hint : WaitingRequestHint;
}.
#[global] Arguments QueuedAdmissionCandidate : clear implicits.

Record DeferredWaitingRequest {P : Type} := mkDeferred {
  df_incoming : IncomingRequest P;
  df_prompt_tokens : list Token;
  df_hint : WaitingRequestHint;
}.
#[global] Arguments DeferredWaitingRequest : clear implicits.

(** ** Plans *)

(** [None] when the plan needs a slower tier than the host. *)
Fixpoint direct_host_blocks (blocks : list ReadmissionBlock) : option (list FetchedBlock) :=
  match blocks with
  | [] => Some []
  | b :: blocks =>
      match rb_source b with
      | None => direct_host_blocks blocks
      | Some (SrcHostPinned region) =>
          rest ← direct_host_blocks blocks;
          Some (mkFetchedBlock (rb_block_id b) region (rg_len region) false :: rest)
      | Some (SrcDisk _ _) | Some (SrcRemote _ _) => None
      end
  end.
Definition staged_prefix_direct_host_blocks (plan : ReadmissionPlan) : option (list FetchedBlock) :=
  fetched ← direct_host_blocks (rp_blocks plan);
  if bool_decide (0 < length fetched) then Some fetched else None.

Record PrefetchTicketState := mkPrefetchTicketState {
  pf_host_blocks : nat;
  pf_disk_blocks : nat;
  pf_remote_blocks : nat;
}.
Definition staged_prefix_prefetch_state (plan : ReadmissionPlan) : option PrefetchTicketState :=
  let '(host, disk, remote) := source_counts plan in
  if bool_decide (0 < disk + remote) then Some (mkPrefetchTicketState host disk remote) else None.

(** The loop, over the matched blocks from the last to the first. *)
Fixpoint best_slot_loop (free_slots : list nat) (block_owner_slots : gmap BlockId nat)
    (slot_materialized_prompt_lens : list nat) (block_size : nat) (matched_rev : list (nat * BlockId))
    : option (nat * nat * nat) :=
  match matched_rev with
  | [] => None
  | (idx, bid) :: matched_rev =>
      let continue := best_slot_loop free_slots block_owner_slots slot_materialized_prompt_lens block_size matched_rev in
      match block_owner_slots !! bid with
      | None => continue
      | Some slot_idx =>
          if bool_decide (slot_idx ∉ free_slots) then continue
          else
            let reusable_prefix_len := (idx + 1) * block_size in
            let cached_prompt_len := default 0 (slot_materialized_prompt_lens !! slot_idx) in
            if bool_decide (reusable_prefix_len <= cached_prompt_len /\ 0 < reusable_prefix_len)
            then Some (slot_idx, reusable_prefix_len, cached_prompt_len)
            else continue
      end
  end.
Definition best_reusable_slot_for_radix_hit (matched_blocks : list BlockId) (free_slots : list nat)
    (block_owner_slots : gmap BlockId nat) (slot_materialized_prompt_lens : list nat) (block_size : nat)
    : option (nat * nat * nat) :=
  best_slot_loop free_slots block_owner_slots slot_materialized_prompt_lens block_size
    (reverse (imap pair matched_blocks)).

Definition is_ready_on_gpu (k : HitKind) : bool := match k with ReadyOnGpu => true | _ => false end.

Definition lookup_blocks_ready_on_gpu (blocks : list LookupBlock) : bool :=
  forallb (fun b => is_ready_on_gpu (lb_hit_kind b)) (filter (fun b => is_miss (lb_hit_kind b) = false) blocks).

Definition matched_sealed_lookup_blocks (blocks : list LookupBlock) : nat :=
  length (filter (fun b => is_miss (lb_hit_kind b) = false) blocks).

(** [take_while], [map_while] and [take_while] of the source, in one. *)
Fixpoint same_session_blocks (block_session_id : BlockId -> option SessionId) (session_id : SessionId)
    (blocks : list LookupBlock) : nat :=
  match blocks with
  | [] => 0
  | b :: blocks =>
      if is_miss (lb_hit_kind b) then 0
      else match lb_block_id b with
           | None => 0
           | Some block_id =>
               if bool_decide (block_session_id block_id = Some session_id)
               then S (same_session_blocks block_session_id session_id blocks) else 0
           end
  end.

Definition session_affinity_tokens_for_plan (plan : PrefixAdmissionPlan) (session_id : option SessionId)
    (block_size : nat) (block_session_id : BlockId -> option SessionId) : nat :=
  match session_id with
  | None => 0
  | Some session_id =>
      if bool_decide (0 < session_resume_tokens plan) then session_resume_tokens plan
      else if bool_decide (lo_matched_len (pl_lookup plan) = 0) || lo_recompute_advised (pl_lookup plan) then 0
      else Nat.min (same_session_blocks block_session_id session_id (lo_blocks (pl_lookup plan)) * block_size)
             (lo_matched_len (pl_lookup plan))
  end.

(** [Iterator::position]. *)
Fixpoint position {A} (f : A -> bool) (l : list A) : option nat :=
  match l with
  | [] => None
  | x :: l => if f x then Some 0 else S <$> position f l
  end.

Section requests.
Context {P : Type}.
Implicit Types (r : IncomingRequest P) (c : QueuedAdmissionCandidate P).

Definition choose_session_affinity_candidate (candidates : list (QueuedAdmissionCandidate P)) : option nat :=
  first ← head candidates;
  let head_priority := in_priority (cd_incoming first) in
  match position (fun c => bool_decide (in_priority (cd_incoming c) = head_priority)
                           && bool_decide (0 < session_affinity_tokens (cd_hint c))) candidates with
  | Some i => Some i
  | None => Some 0
  end.

(** ** Long prefills *)
Definition resolved_long_prefill_active_limit (max_slots : nat) (configured : option nat) : option nat :=
  (fun limit => Nat.max (Nat.min limit max_slots) 1) <$> configured.
Definition uncached_prefill_tokens (prompt_tokens reusable_tokens : nat) : nat := prompt_tokens - reusable_tokens.
Definition is_long_uncached_prefill (prompt_tokens reusable_tokens threshold : nat) : bool :=
  bool_decide (threshold <= uncached_prefill_tokens prompt_tokens reusable_tokens).

(** ** Where a request goes *)
Inductive WaitingInsertBias := BeforeEqual | AfterEqual.

Definition hint_compare (h h' : WaitingRequestHint) : comparison :=
  match Nat.compare (session_affinity_tokens h) (session_affinity_tokens h') with
  | Eq =>
      match Nat.compare (immediate_reuse_tokens h) (immediate_reuse_tokens h') with
      | Eq => Nat.compare (total_reuse_tokens h) (total_reuse_tokens h')
      | o => o
      end
  | o => o
  end.

Definition waiting_request_precedes (incoming_priority : RequestPriority) (incoming_hint : WaitingRequestHint)
    (queued_priority : RequestPriority) (queued_hint : WaitingRequestHint) (bias : WaitingInsertBias) : bool :=
  match Nat.compare (RequestPriority_rank incoming_priority) (RequestPriority_rank queued_priority) with
  | Gt => true
  | Lt => false
  | Eq =>
      match hint_compare incoming_hint queued_hint with
      | Gt => true
      | Lt => false
      | Eq => match bias with BeforeEqual => true | AfterEqual => false end
      end
  end.

Definition waiting_insert_position {T} (waiting : list T) (incoming_priority : RequestPriority)
    (incoming_hint : WaitingRequestHint) (bias : WaitingInsertBias)
    (queued_key : T -> RequestPriority * WaitingRequestHint) : nat :=
  default (length waiting)
    (position (fun queued =>
       let '(queued_priority, queued_hint) := queued_key queued in
       waiting_request_precedes incoming_priority incoming_hint queued_priority queued_hint bias) waiting).

(** [VecDeque::insert] at a position that is at most the length. *)
Definition insert_at {T} (i : nat) (x : T) (l : list T) : list T := take i l ++ x :: drop i l.

Definition request_key (r : IncomingRequest P) : RequestPriority * WaitingRequestHint :=
  (in_priority r, WaitingRequestHint_default).
Definition deferred_key (d : DeferredWaitingRequest P) : RequestPriority * WaitingRequestHint :=
  (in_priority (df_incoming d), df_hint d).

Definition insert_waiting_request_by_priority (waiting : list (IncomingRequest P)) (incoming : IncomingRequest P)
    (bias : WaitingInsertBias) : list (IncomingRequest P) :=
  insert_at (waiting_insert_position waiting (in_priority incoming) WaitingRequestHint_default bias request_key)
    incoming waiting.

Definition insert_deferred_waiting_request (waiting : list (DeferredWaitingRequest P))
    (incoming : DeferredWaitingRequest P) (bias : WaitingInsertBias) : list (DeferredWaitingRequest P) :=
  insert_at (waiting_insert_position waiting (in_priority (df_incoming incoming)) (df_hint incoming) bias deferred_key)
    incoming waiting.

Definition set_prompt_tokens (o : option (list Token)) (r : IncomingRequest P) : IncomingRequest P :=
  mkIncoming _ (in_prompt r) o (in_max_tokens r) (in_priority r) (in_session_id r) (in_closed r) (in_payload r).
Definition set_max_tokens (n : nat) (r : IncomingRequest P) : IncomingRequest P :=
  mkIncoming _ (in_prompt r) (in_prompt_tokens r) n (in_priority r) (in_session_id r) (in_closed r) (in_payload r).

(** ** Intake *)
Definition finish_rejected_request (reason : FinishReason) (prompt_tokens : nat) : Delta :=
  mkDelta [] (Some reason) (Some (prompt_tokens, 0, prompt_tokens)) [].

(** What becomes of a request that arrives: it joins the queue, its client is
    sent a final delta, or its client is gone. *)
Inductive intake :=
  | Accepted (r : IncomingRequest P) (prompt_tokens : list Token)
  | Refused (answer : Delta)
  | ClientGone.

(** The tokenizer is the library's; [None] is its error. *)
Context (encode : string -> option (list Token)).

Definition normalize_waiting_request (length_contract : SchedulerConfig.RequestLengthContract)
    (incoming : IncomingRequest P) : intake :=
  if in_closed incoming then ClientGone
  else
    let tokens := match in_prompt_tokens incoming with
      | Some tokens => tokens
      | None => default [] (encode (in_prompt incoming))
      end in
    if bool_decide (tokens = []) then Refused (finish_rejected_request FinishLength 0)
    else
      let n := N.of_nat (length tokens) in
      if negb (SchedulerConfig.admits_prompt_len n length_contract)
      then Refused (finish_rejected_request FinishLength (length tokens))
      else
        let max_tokens := SchedulerConfig.clamp_max_tokens n (N.of_nat (in_max_tokens incoming)) length_contract in
        Accepted (set_max_tokens (N.to_nat max_tokens) (set_prompt_tokens None incoming)) tokens.

Definition enqueue_waiting_request (incoming : IncomingRequest P) (bias : WaitingInsertBias)
    (waiting : list (IncomingRequest P)) : list (IncomingRequest P) :=
  insert_waiting_request_by_priority waiting incoming bias.

(** The loop of [drain_request_rx], over what the channel holds. *)
Fixpoint drain_request_rx (length_contract : SchedulerConfig.RequestLengthContract) (received : list (IncomingRequest P))
    (waiting : list (IncomingRequest P)) : list (IncomingRequest P) :=
  match received with
  | [] => waiting
  | req :: received =>
      match normalize_waiting_request length_contract req with
      | Accepted incoming prompt_tokens =>
          drain_request_rx length_contract received
            (enqueue_waiting_request (set_prompt_tokens (Some prompt_tokens) incoming) AfterEqual waiting)
      | Refused _ | ClientGone => drain_request_rx length_contract received waiting
      end
  end.

Fixpoint restore_deferred_waiting_requests (deferred_waiting : list (DeferredWaitingRequest P))
    (waiting : list (IncomingRequest P)) : list (IncomingRequest P) :=
  match deferred_waiting with
  | [] => waiting
  | d :: deferred_waiting =>
      restore_deferred_waiting_requests deferred_waiting
        (waiting ++ [set_prompt_tokens (Some (df_prompt_tokens d)) (df_incoming d)])
  end.
End requests.

(** ** The order of the queue *)
Definition waiting_key : Type := RequestPriority * WaitingRequestHint.

(** [k] goes strictly before [k']: by priority, then by the three counts of
    the hint. *)
Definition above (k k' : waiting_key) : Prop :=
  let '(p, h) := k in let '(p', h') := k' in
  RequestPriority_rank p' < RequestPriority_rank p \/ RequestPriority_rank p' = RequestPriority_rank p /\
  (session_affinity_tokens h' < session_affinity_tokens h \/ session_affinity_tokens h' = session_affinity_tokens h /\
   (immediate_reuse_tokens h' < immediate_reuse_tokens h \/ immediate_reuse_tokens h' = immediate_reuse_tokens h /\
    total_reuse_tokens h' < total_reuse_tokens h)).

(** Requests of equal keys wait in the order of [bias]. *)
Definition goes_before (bias : WaitingInsertBias) (k k' : waiting_key) : Prop :=
  match bias with BeforeEqual => ~ above k' k | AfterEqual => above k k' end.

#[export] Instance above_dec : RelDecision above.
Proof. intros [p h] [p' h']. unfold above. apply _. Defined.

Lemma precedes_spec bias p h p' h' :
  waiting_request_precedes p h p' h' bias = true <-> goes_before bias (p, h) (p', h').
Proof.
  unfold waiting_request_precedes, hint_compare, goes_before, above.
  destruct bias;
  destruct (Nat.compare_spec (RequestPriority_rank p) (RequestPriority_rank p'));
  destruct (Nat.compare_spec (session_affinity_tokens h) (session_affinity_tokens h'));
  destruct (Nat.compare_spec (immediate_reuse_tokens h) (immediate_reuse_tokens h'));
  destruct (Nat.compare_spec (total_reuse_tokens h) (total_reuse_tokens h')); split; (done || lia).
Qed.

Lemma above_trans k1 k2 k3 : above k1 k2 -> above k2 k3 -> above k1 k3.
Proof. destruct k1, k2, k3. unfold above. lia. Qed.
Lemma not_above_trans k1 k2 k3 : ~ above k1 k2 -> ~ above k2 k3 -> ~ above k1 k3.
Proof. destruct k1, k2, k3. unfold above. lia. Qed.
Lemma above_asym k1 k2 : above k1 k2 -> ~ above k2 k1.
Proof. destruct k1, k2. unfold above. lia. Qed.
Lemma not_above_above k1 k2 k3 : above k1 k2 -> ~ above k3 k2 -> above k1 k3.
Proof. destruct k1, k2, k3. unfold above. lia. Qed.
Lemma above_not_above k1 k2 k3 : ~ above k2 k1 -> above k2 k3 -> above k1 k3.
Proof. destruct k1, k2, k3. unfold above. lia. Qed.

Lemma position_spec {A} (f : A -> bool) (l : list A) :
  exists l1 l2, l = l1 ++ l2 /\ default (length l) (position f l) = length l1 /\
    Forall (fun x => f x = false) l1 /\ (forall x l2', l2 = x :: l2' -> f x = true).
Proof.
  induction l as [|x l (l1 & l2 & -> & Hp & Hl1 & Hl2)]; [by exists [], []|].
  cbn. destruct (f x) eqn:Hx.
  - exists [], (x :: l1 ++ l2). split_and!; try done. by intros ? ? [= <- _].
  - exists (x :: l1), l2. split_and!; [done| |by constructor|done].
    destruct (position f (l1 ++ l2)); cbn in *; congruence.
Qed.

Section queue.
Context {T : Type} (key : T -> waiting_key).

(** Nobody waits behind a request it goes strictly before. *)
Definition queue_sorted : list T -> Prop := StronglySorted (fun x y => ~ above (key y) (key x)).

Definition queue_insert (x : T) (bias : WaitingInsertBias) (l : list T) : list T :=
  insert_at (waiting_insert_position l (key x).1 (key x).2 bias key) x l.

Lemma queue_insert_spec x bias l :
  queue_sorted l ->
  exists l1 l2, l = l1 ++ l2 /\ queue_insert x bias l = l1 ++ x :: l2 /\
    Forall (fun y => ~ goes_before bias (key x) (key y)) l1 /\
    Forall (fun y => goes_before bias (key x) (key y)) l2.
Proof.
  intros Hs. destruct (position_spec (fun y => let '(p, h) := key y in
    waiting_request_precedes (key x).1 (key x).2 p h bias) l) as (l1 & l2 & -> & Hp & Hl1 & Hl2).
  assert (forall y, (let '(p, h) := key y in waiting_request_precedes (key x).1 (key x).2 p h bias) = true
    <-> goes_before bias (key x) (key y)) as Hg.
  { intros y. destruct (key y) as [p h], (key x) as [p' h']. apply precedes_spec. }
  exists l1, l2. split_and!; [done| | |].
  - unfold queue_insert, insert_at, waiting_insert_position. rewrite Hp, take_app_length, drop_app_length. done.
  - eapply Forall_impl; [exact Hl1|]. cbn. intros y Hy Hb. apply Hg in Hb. congruence.
  - apply StronglySorted_app_inv in Hs as (_ & Hs & _). destruct l2 as [|y l2]; [constructor|].
    specialize (Hl2 y l2 eq_refl). apply Hg in Hl2. constructor; [done|].
    apply StronglySorted_inv in Hs as [_ Hy]. eapply Forall_impl; [exact Hy|]. cbn. intros z Hz.
    destruct bias; cbn in *; [by eapply not_above_trans|by eapply not_above_above].
Qed.

Lemma queue_insert_perm x bias l : queue_insert x bias l ≡ₚ x :: l.
Proof.
  unfold queue_insert, insert_at. rewrite <-Permutation_middle. by rewrite take_drop.
Qed.

Lemma queue_insert_sorted x bias l : queue_sorted l -> queue_sorted (queue_insert x bias l).
Proof.
  intros Hs. destruct (queue_insert_spec x bias l Hs) as (l1 & l2 & -> & -> & Hl1 & Hl2).
  apply StronglySorted_app_inv in Hs as (Hs1 & Hs2 & Hle).
  assert (Forall (fun y => ~ above (key y) (key x)) l2) as Hl2'.
  { eapply Forall_impl; [exact Hl2|]. cbn. intros y Hy. destruct bias; cbn in *; [done|by apply above_asym]. }
  assert (Forall (fun y => ~ above (key x) (key y)) l1) as Hl1'.
  { eapply Forall_impl; [exact Hl1|]. cbn. intros y Hy. destruct bias; cbn in *; [|done].
    intros Hn. apply Hy. by apply above_asym. }
  clear Hl1 Hl2. induction Hs1 as [|y l1 Hs1 IH Hy]; cbn; [by constructor|].
  apply Forall_cons in Hl1' as [Hxy Hl1']. constructor; [apply IH; [set_solver|done]|].
  apply Forall_app. split; [done|]. constructor; [done|]. apply Forall_forall. intros z Hz. apply Hle; set_solver.
Qed.

Lemma queue_inserts_sorted bias l : forall q, queue_sorted q -> queue_sorted (foldl (fun q x => queue_insert x bias q) q l).
Proof. induction l as [|x l IH]; intros q Hq; [done|]. by apply IH, queue_insert_sorted. Qed.

Lemma queue_inserts_perm bias l : forall q, foldl (fun q x => queue_insert x bias q) q l ≡ₚ q ++ l.
Proof.
  induction l as [|x l IH]; intros q; cbn; [by rewrite app_nil_r|].
  rewrite IH, queue_insert_perm. by rewrite <-Permutation_middle.
Qed.

(** The requests with the key [k], in order. *)
Definition same_key (k k' : waiting_key) : Prop := ~ above k k' /\ ~ above k' k.
#[export] Instance same_key_dec : RelDecision same_key.
Proof. intros k k'. unfold same_key. apply _. Defined.
Definition of_key (k : waiting_key) (l : list T) : list T := filter (fun y => same_key k (key y)) l.

Lemma same_key_refl k : same_key k k.
Proof. destruct k. unfold same_key, above. lia. Qed.

Lemma not_of_key k l : Forall (fun y => ~ same_key k (key y)) l -> of_key k l = [].
Proof. intros Hl. unfold of_key. induction Hl as [|y l Hy _ IH]; [done|]. by rewrite filter_cons_False. Qed.

Lemma above_not_same k k' x : same_key k x -> above x k' -> ~ same_key k k'.
Proof. destruct k, k', x. unfold same_key, above. lia. Qed.
Lemma below_not_same k k' x : same_key k x -> above k' x -> ~ same_key k k'.
Proof. destruct k, k', x. unfold same_key, above. lia. Qed.

(** A request joins its equals at the end with [AfterEqual], at the front with
    [BeforeEqual]. *)
Lemma of_key_insert k x bias l :
  queue_sorted l ->
  of_key k (queue_insert x bias l) =
  if decide (same_key k (key x)) then
    match bias with BeforeEqual => x :: of_key k l | AfterEqual => of_key k l ++ [x] end
  else of_key k l.
Proof.
  intros Hs. destruct (queue_insert_spec x bias l Hs) as (l1 & l2 & -> & -> & Hl1 & Hl2).
  unfold of_key. rewrite !filter_app. destruct (decide (same_key k (key x))) as [Hk|Hk].
  2: { by rewrite filter_cons_False. }
  rewrite filter_cons_True by done. fold (of_key k l1) (of_key k l2). destruct bias; cbn in *.
  - rewrite (not_of_key k l1); [done|]. eapply Forall_impl; [exact Hl1|]. cbn. intros y Hy.
    eapply below_not_same; [exact Hk|]. by apply dec_stable.
  - rewrite (not_of_key k l2), app_nil_r; [done|]. eapply Forall_impl; [exact Hl2|]. cbn. intros y.
    by apply above_not_same.
Qed.

Lemma of_key_inserts k bias l : forall q, queue_sorted q ->
  of_key k (foldl (fun q x => queue_insert x bias q) q l) =
  match bias with BeforeEqual => reverse (of_key k l) ++ of_key k q | AfterEqual => of_key k q ++ of_key k l end.
Proof.
  induction l as [|x l IH]; intros q Hq.
  { cbn. destruct bias; [done|by rewrite app_nil_r]. }
  cbn [foldl]. rewrite IH by by apply queue_insert_sorted. rewrite of_key_insert by done.
  change (of_key k (x :: l)) with (filter (fun y => same_key k (key y)) (x :: l)). rewrite filter_cons.
  fold (of_key k l). destruct (decide (same_key k (key x))); [|done]. destruct bias.
  - by rewrite reverse_cons, <-app_assoc.
  - by rewrite <-app_assoc.
Qed.
End queue.

Section queue_props.
Context {P : Type}.
Implicit Types (waiting : list (IncomingRequest P)) (deferred : list (DeferredWaitingRequest P)).

(** The queue of waiting requests is ordered by priority. *)
Definition waiting_sorted : list (IncomingRequest P) -> Prop := queue_sorted request_key.
Definition deferred_sorted : list (DeferredWaitingRequest P) -> Prop := queue_sorted deferred_key.

Definition priority_rank_of (r : IncomingRequest P) : nat := RequestPriority_rank (in_priority r).

Lemma above_request r r' : above (request_key r) (request_key r') <-> priority_rank_of r' < priority_rank_of r.
Proof. unfold above, request_key, priority_rank_of. cbn. lia. Qed.

Lemma insert_waiting_sorted waiting incoming bias :
  waiting_sorted waiting -> waiting_sorted (insert_waiting_request_by_priority waiting incoming bias).
Proof. apply (queue_insert_sorted request_key incoming bias). Qed.

(** The requests that arrive and are accepted, as they join the queue. *)
Definition accepted_requests (encode : string -> option (list Token)) (contract : SchedulerConfig.RequestLengthContract)
    (received : list (IncomingRequest P)) : list (IncomingRequest P) :=
  omap (fun req => match normalize_waiting_request encode contract req with
    | Accepted incoming tokens => Some (set_prompt_tokens (Some tokens) incoming)
    | Refused _ | ClientGone => None
    end) received.

Lemma drain_request_rx_eq encode contract received : forall waiting,
  drain_request_rx encode contract received waiting =
  foldl (fun q x => queue_insert request_key x AfterEqual q) waiting (accepted_requests encode contract received).
Proof.
  induction received as [|r received IH]; intros waiting; [done|]. cbn.
  destruct (normalize_waiting_request encode contract r); cbn; by rewrite IH.
Qed.

(** C32: where a waiting request goes. Into a queue ordered by priority it is
    inserted behind every request of a higher priority and before every one of
    a lower; among its equals it goes last with [AfterEqual] and first with
    [BeforeEqual]; the others keep their order and the queue stays ordered.
    Draining the channel loses no accepted request, and leaves those of each
    priority in the order in which they were queued and then arrived. This is
    of the queue after the intake; an admission pass that defers requests
    before equals reverses them ([AdmissionExamples.waiting_order_reversed]). *)
Theorem waiting_queue_spec waiting :
  waiting_sorted waiting ->
  (forall incoming bias, exists l1 l2, waiting = l1 ++ l2 /\
    insert_waiting_request_by_priority waiting incoming bias = l1 ++ incoming :: l2 /\
    Forall (fun r => match bias with
      | BeforeEqual => priority_rank_of incoming < priority_rank_of r
      | AfterEqual => priority_rank_of incoming <= priority_rank_of r end) l1 /\
    Forall (fun r => match bias with
      | BeforeEqual => priority_rank_of r <= priority_rank_of incoming
      | AfterEqual => priority_rank_of r < priority_rank_of incoming end) l2 /\
    waiting_sorted (insert_waiting_request_by_priority waiting incoming bias)) /\
  (forall encode contract received,
    let arrived := accepted_requests encode contract received in
    let waiting' := drain_request_rx encode contract received waiting in
    waiting_sorted waiting' /\ waiting' ≡ₚ waiting ++ arrived /\
    forall k, of_key request_key k waiting' = of_key request_key k waiting ++ of_key request_key k arrived).
Proof.
  intros Hs. split.
  - intros incoming bias. destruct (queue_insert_spec request_key incoming bias waiting Hs) as (l1 & l2 & -> & He & Hl1 & Hl2).
    exists l1, l2. split_and!; [done|exact He| | |by apply insert_waiting_sorted];
      [eapply Forall_impl; [exact Hl1|]|eapply Forall_impl; [exact Hl2|]];
      cbv beta; intros r Hr; destruct bias; unfold goes_before in Hr; rewrite above_request in Hr; lia.
  - intros encode contract received arrived waiting'. unfold waiting'. rewrite drain_request_rx_eq.
    split_and!; [by apply queue_inserts_sorted|apply queue_inserts_perm|].
    intros k. by apply (of_key_inserts request_key k AfterEqual).
Qed.

Lemma insert_deferred_perm deferred d bias : insert_deferred_waiting_request deferred d bias ≡ₚ d :: deferred.
Proof. apply (queue_insert_perm deferred_key d bias). Qed.
Lemma insert_deferred_sorted deferred d bias :
  deferred_sorted deferred -> deferred_sorted (insert_deferred_waiting_request deferred d bias).
Proof. apply (queue_insert_sorted deferred_key d bias). Qed.

(** Deferring requests one after the other. *)
Definition defer_all (bias : WaitingInsertBias) (l deferred : list (DeferredWaitingRequest P))
    : list (DeferredWaitingRequest P) :=
  foldl (fun q d => insert_deferred_waiting_request q d bias) deferred l.

Lemma defer_all_eq bias l deferred :
  defer_all bias l deferred = foldl (fun q x => queue_insert deferred_key x bias q) deferred l.
Proof. done. Qed.

Lemma defer_all_sorted bias l deferred : deferred_sorted deferred -> deferred_sorted (defer_all bias l deferred).
Proof. apply (queue_inserts_sorted deferred_key bias l). Qed.

Lemma defer_all_perm bias l deferred : defer_all bias l deferred ≡ₚ deferred ++ l.
Proof. apply (queue_inserts_perm deferred_key bias l). Qed.

Lemma restore_deferred_eq deferred : forall waiting,
  restore_deferred_waiting_requests deferred waiting =
  waiting ++ ((fun d => set_prompt_tokens (Some (df_prompt_tokens d)) (df_incoming d)) <$> deferred).
Proof.
  induction deferred as [|d deferred IH]; intros waiting; cbn; [by rewrite app_nil_r|].
  by rewrite IH, <-app_assoc.
Qed.

(** Deferred requests go back in an order that respects their priorities. *)
Lemma restore_deferred_sorted deferred :
  deferred_sorted deferred -> waiting_sorted (restore_deferred_waiting_requests deferred []).
Proof.
  intros Hs. rewrite restore_deferred_eq. cbn. induction Hs as [|d deferred _ IH Hd]; [constructor|].
  cbn [fmap list_fmap]. constructor; [done|]. apply Forall_fmap. eapply Forall_impl; [exact Hd|].
  cbv beta. intros d' Hd'. unfold compose. rewrite above_request. unfold above, deferred_key in Hd'.
  unfold priority_rank_of. cbn. lia.
Qed.

(** Deferring a batch. The deferred queue is ordered by priority and, in
    a priority, by what is reused; no request is lost or duplicated. Requests
    of equal priority and hint stay in their order when they are inserted
    after their equals, but are reversed when they are inserted before them,
    which is what an admission pass that cannot place its candidates does. *)
Theorem deferral_order_spec bias l deferred :
  deferred_sorted deferred ->
  deferred_sorted (defer_all bias l deferred) /\ defer_all bias l deferred ≡ₚ deferred ++ l /\
  (forall k, of_key deferred_key k (defer_all bias l deferred) =
     match bias with
     | BeforeEqual => reverse (of_key deferred_key k l) ++ of_key deferred_key k deferred
     | AfterEqual => of_key deferred_key k deferred ++ of_key deferred_key k l
     end) /\
  waiting_sorted (restore_deferred_waiting_requests (defer_all bias l deferred) []).
Proof.
  intros Hs. split_and!; [by apply defer_all_sorted|apply defer_all_perm| |].
  - intros k. by apply (of_key_inserts deferred_key k bias l deferred).
  - by apply restore_deferred_sorted, defer_all_sorted.
Qed.
End queue_props.
