(* ===== verification/Admission.v ===== *)
(** * Prefix admission: which waiting requests run, with which blocks

    Models [infer/src/scheduler/cuda/runtime/admission.rs] up to the point
    where an admitted request starts, and the slot assignment of
    [runtime/scheduler_loop.rs]: a plan is built for every waiting request,
    the policy holds cold ones back, and the candidates are given slots within
    the page budget; what is not admitted gives its blocks back and waits.

    The methods change the prefix cache and the session table. What they read
    besides is an environment: the configuration, the owners and prompt
    lengths of the slots, the number of decoding requests, and whether the
    model can attach blocks of another slot, which the model decides. *)

From S2P Require Import Prelude Lists Tier Policy RadixTypes RadixLookup RadixMeta HostArena HostPool CoordinatorControl Readmission SessionSlots KvFormat PagedKv PageBudget WaitingQueue.
From S2P Require BatchScheduler EmitStream EmitServing SchedulerConfig.
Import BatchScheduler (RequestPriority(..)).
Import EmitStream (Delta(..), FinishReason(..)).
Import EmitServing (Phase(..)).

(** ** State and environment *)
Record AdmissionState := mkAdmissionState {
  ad_prefix_cache : RadixCache;
  ad_sessions : SessionTable;
}.
Definition set_ad_cache (c : RadixCache) (s : AdmissionState) : AdmissionState := mkAdmissionState c (ad_sessions s).
Definition set_ad_sessions (t : SessionTable) (s : AdmissionState) : AdmissionState := mkAdmissionState (ad_prefix_cache s) t.

Record AdmissionEnv := mkAdmissionEnv {
  en_config : SchedulerConfig.SchedulerConfig;
  en_block_owner_slots : gmap BlockId nat;
  en_slot_materialized_prompt_lens : list nat;
  en_running : nat;
  en_supports_cross_slot_prefix_attach : bool;
}.

(** ** The plan of one prompt *)
Definition cold_prefix_admission_plan : PrefixAdmissionPlan :=
  mkPrefixAdmissionPlan [] (mkLookupOutcome 0 [] false) 0 None false [] None None.

Definition release_lookup_blocks (lookup : LookupOutcome) (s : AdmissionState) : AdmissionState :=
  set_ad_cache (RadixLookup.release (lookup_block_ids lookup) (ad_prefix_cache s)) s.

Definition release_admission_plan (plan : PrefixAdmissionPlan) (s : AdmissionState) : AdmissionState :=
  let s := set_ad_cache (RadixLookup.release (radix_blocks plan) (ad_prefix_cache s)) s in
  set_ad_sessions (release_session_slot_hold (session_slot_hold plan) (ad_sessions s)) s.

Definition session_lookup_preferred (session_lookup token_lookup : LookupOutcome) : bool :=
  bool_decide (lo_matched_len token_lookup < lo_matched_len session_lookup)
  || (bool_decide (0 < lo_matched_len session_lookup)
      && bool_decide (lo_matched_len session_lookup = lo_matched_len token_lookup)
      && lo_recompute_advised token_lookup && negb (lo_recompute_advised session_lookup)).

(** The first lookup: the slot of the session, or else the tokens. *)
Definition first_lookup (prompt_tokens : list Token) (session_id : option SessionId) (s : AdmissionState)
    : res (AdmissionState * (LookupOutcome * option SessionSlotHold)) :=
  let '(s, found) := match session_id with
    | Some sid =>
        let '(t, found) := lookup_session_slot_or_stage (ad_prefix_cache s) sid (length prompt_tokens)
          LookupHeuristics_default (ad_sessions s) in
        (set_ad_sessions t s, found)
    | None => (s, None)
    end in
  match found with
  | Some r => Done (s, (sl_lookup r, Some (sl_hold r)))
  | None =>
      '(c, lookup) ← lookup_or_stage prompt_tokens LookupHeuristics_default (ad_prefix_cache s);
      Done (set_ad_cache c s, (lookup, None))
  end.

(** The second: without a slot of the session, its blocks in the tree. The
    lookup that is not used gives its blocks back. *)
Definition resume_lookup (prompt_tokens : list Token) (session_id : option SessionId) (lookup : LookupOutcome)
    (hold : option SessionSlotHold) (s : AdmissionState) : res (AdmissionState * (LookupOutcome * nat)) :=
  match hold, session_id with
  | Some _, _ => Done (s, (lookup, lo_matched_len lookup))
  | None, None => Done (s, (lookup, 0))
  | None, Some sid =>
      '(c, session_lookup) ←
        lookup_session_prefix_or_stage sid prompt_tokens LookupHeuristics_default (ad_prefix_cache s);
      let s := set_ad_cache c s in
      let resume := if bool_decide (0 < lo_matched_len session_lookup) then lo_matched_len session_lookup else 0 in
      if session_lookup_preferred session_lookup lookup
      then Done (release_lookup_blocks lookup s, (session_lookup, resume))
      else Done (release_lookup_blocks session_lookup s, (lookup, resume))
  end.

(** The blocks before the first that is not on the GPU. *)
Fixpoint gpu_ready_prefix (blocks : list LookupBlock) : list LookupBlock :=
  match blocks with
  | [] => []
  | b :: blocks => if is_ready_on_gpu (lb_hit_kind b) then b :: gpu_ready_prefix blocks else []
  end.

(** How the blocks found are used: attached, fetched, reused in the slot that
    has them, or not at all. *)
Definition plan_of_lookup (env : AdmissionEnv) (c : RadixCache) (free_slots : list nat) (lookup : LookupOutcome)
    (session_resume_tokens : nat) (hold : option SessionSlotHold) : PrefixAdmissionPlan :=
  let radix_blocks := match hold with Some _ => [] | None => lookup_block_ids lookup end in
  let lookup_is_full_sealed := bool_decide (lo_matched_len lookup = 0)
    || is_full_sealed_prefix (lo_matched_len lookup) (block_size c) (matched_sealed_lookup_blocks (lo_blocks lookup)) in
  let ready_on_gpu := lookup_is_full_sealed && lookup_blocks_ready_on_gpu (lo_blocks lookup) in
  let gpu_ready_sealed_blocks := omap lb_block_id (gpu_ready_prefix (lo_blocks lookup)) in
  let gpu_ready_sealed_tokens := sealed_block_token_count (block_size c) (length gpu_ready_sealed_blocks) in
  let fully_addressable_gpu_hit :=
    ready_on_gpu && bool_decide (gpu_ready_sealed_tokens = lo_matched_len lookup) in
  let supports := en_supports_cross_slot_prefix_attach env in
  let staged :=
    if supports && lookup_is_full_sealed && negb (lo_recompute_advised lookup) && negb ready_on_gpu
       && existsb (fun b => is_staged (lb_hit_kind b)) (lo_blocks lookup)
    then build_staged_prefix_plan c lookup else None in
  let direct_gpu_attach := supports && lookup_is_full_sealed && negb (lo_recompute_advised lookup)
    && negb (bool_decide (gpu_ready_sealed_blocks = [])) && fully_addressable_gpu_hit && is_none staged in
  let reusable_gpu_prefix :=
    if direct_gpu_attach || is_some staged then None
    else if fully_addressable_gpu_hit && negb (lo_recompute_advised lookup)
    then best_reusable_slot_for_radix_hit gpu_ready_sealed_blocks free_slots (en_block_owner_slots env)
           (en_slot_materialized_prompt_lens env) (block_size c)
    else None in
  mkPrefixAdmissionPlan radix_blocks lookup session_resume_tokens reusable_gpu_prefix direct_gpu_attach
    (if direct_gpu_attach then gpu_ready_sealed_blocks else []) staged hold.

Definition build_prefix_admission_plan (env : AdmissionEnv) (prompt_tokens : list Token) (session_id : option SessionId)
    (free_slots : list nat) (s : AdmissionState) : res (AdmissionState * PrefixAdmissionPlan) :=
  let bypass := SchedulerConfig.short_prompt_bypass_tokens (en_config env) in
  if negb (SchedulerConfig.prefix_cache_enabled (en_config env)) then Done (s, cold_prefix_admission_plan)
  else if bool_decide (0 < bypass)%N && bool_decide (N.of_nat (length prompt_tokens) <= bypass)%N
  then Done (s, cold_prefix_admission_plan)
  else
    '(s, (lookup, hold)) ← first_lookup prompt_tokens session_id s;
    '(s, (lookup, resume)) ← resume_lookup prompt_tokens session_id lookup hold s;
    Done (s, plan_of_lookup env (ad_prefix_cache s) free_slots lookup resume hold).

(** ** The prefix-aware policy *)
Definition prefix_aware_reusable_prefix_tokens (plan : PrefixAdmissionPlan) : nat :=
  if lo_recompute_advised (pl_lookup plan) then 0
  else if direct_gpu_attach plan then lo_matched_len (pl_lookup plan)
  else match reusable plan with
       | Some (_, reusable_prefix_len, _) => reusable_prefix_len
       | None => match staged_prefix_plan plan with Some staged => rp_matched_len staged | None => 0 end
       end.

Definition prefix_aware_admission_signals (env : AdmissionEnv) (plan : PrefixAdmissionPlan) (queued : nat)
    : SchedulerSignals :=
  mkSchedulerSignals queued (en_running env) (prefix_aware_reusable_prefix_tokens plan)
    ((fun _ => match reusable plan with Some (slot_idx, _, _) => slot_idx | None => 0 end) <$> session_slot_hold plan) 0.

Definition is_prefix_aware (p : SchedulerConfig.SchedulerAdmissionPolicy) : bool :=
  match p with SchedulerConfig.PrefixAware => true | _ => false end.

Definition prefix_aware_admission_allows_plan (env : AdmissionEnv) (plan : PrefixAdmissionPlan) (queued : nat) : bool :=
  let config := en_config env in
  if negb (is_prefix_aware (SchedulerConfig.admission_policy config))
     || negb (SchedulerConfig.prefix_cache_enabled config) then true
  else
    let signals := prefix_aware_admission_signals env plan queued in
    let max_waiting := SchedulerConfig.max_waiting_requests config in
    if negb (is_cold_request signals) || bool_decide (max_waiting = 0) then true
    else
      let cold_headroom := default (max_waiting / 4) (SchedulerConfig.cold_headroom config) in
      bool_decide (Policy.queued_requests signals < max_waiting - cold_headroom).

Section requests.
Context {P : Type}.

Definition priority_of (c : QueuedAdmissionCandidate P) : nat := RequestPriority_rank (in_priority (cd_incoming c)).

(** [.max()] of the priorities. *)
Definition max_priority (l : list (QueuedAdmissionCandidate P)) : option nat :=
  match l with [] => None | c :: l => Some (foldr (fun c m => Nat.max (priority_of c) m) (priority_of c) l) end.

Definition prefix_aware_fail_open_candidate (env : AdmissionEnv) (candidates : list (QueuedAdmissionCandidate P))
    : option nat :=
  highest ← max_priority candidates;
  match position (fun c => bool_decide (priority_of c = highest)
          && negb (is_cold_request (prefix_aware_admission_signals env (cd_plan c) (length candidates)))) candidates with
  | Some i => Some i
  | None => position (fun c => bool_decide (priority_of c = highest)) candidates
  end.

(** ** Collecting the candidates *)

(** One request: gone, refused, or with a plan. *)
Inductive scanned :=
  | ScanClosed
  | ScanRefused (answer : Delta)
  | ScanPlanned (c : QueuedAdmissionCandidate P).

Definition scan_request (env : AdmissionEnv) (free_slots : list nat) (incoming : IncomingRequest P) (s : AdmissionState)
    : res (AdmissionState * scanned) :=
  if in_closed incoming then Done (s, ScanClosed)
  else match in_prompt_tokens incoming with
  | None | Some [] => Done (s, ScanRefused (finish_rejected_request FinishLength 0))
  | Some prompt_tokens =>
      let incoming := set_prompt_tokens None incoming in
      '(s, plan) ← build_prefix_admission_plan env prompt_tokens (in_session_id incoming) free_slots s;
      let reusable_prefix_len := match reusable plan with Some (_, len, _) => len | None => 0 end in
      let affinity := session_affinity_tokens_for_plan plan (in_session_id incoming) (block_size (ad_prefix_cache s))
        (fun block_id => md ← block_metadata block_id (ad_prefix_cache s); md_session_id md) in
      Done (s, ScanPlanned (mkCandidate _ incoming prompt_tokens plan
        (with_session_affinity_tokens affinity (from_plan plan reusable_prefix_len))))
  end.

(** The loop: the candidates, and those the policy holds back. *)
Fixpoint scan_waiting (env : AdmissionEnv) (free_slots : list nat) (scan_len : nat) (waiting : list (IncomingRequest P))
    (candidates policy_deferred : list (QueuedAdmissionCandidate P)) (s : AdmissionState)
    : res (AdmissionState * (list (QueuedAdmissionCandidate P) * list (QueuedAdmissionCandidate P))) :=
  match waiting with
  | [] => Done (s, (candidates, policy_deferred))
  | incoming :: waiting =>
      '(s, r) ← scan_request env free_slots incoming s;
      match r with
      | ScanClosed | ScanRefused _ => scan_waiting env free_slots scan_len waiting candidates policy_deferred s
      | ScanPlanned c =>
          if prefix_aware_admission_allows_plan env (cd_plan c) scan_len
          then scan_waiting env free_slots scan_len waiting (candidates ++ [c]) policy_deferred s
          else scan_waiting env free_slots scan_len waiting candidates (policy_deferred ++ [c]) s
      end
  end.

(** The loop over the indices removes the candidates below the priority, in
    order, and appends them to the deferred ones. *)
Definition defer_candidates_below_blocked_priority (candidates policy_deferred : list (QueuedAdmissionCandidate P))
    : list (QueuedAdmissionCandidate P) * list (QueuedAdmissionCandidate P) :=
  match max_priority policy_deferred with
  | None => (candidates, policy_deferred)
  | Some blocking =>
      (filter (fun c => ~ priority_of c < blocking) candidates,
       policy_deferred ++ filter (fun c => priority_of c < blocking) candidates)
  end.

(** [VecDeque::remove]. *)
Definition remove_at {A} (i : nat) (l : list A) : option (A * list A) :=
  x ← l !! i; Some (x, take i l ++ drop (S i) l).

(** At most [missing] requests join the candidates. *)
Fixpoint fail_open (env : AdmissionEnv) (missing : nat) (candidates policy_deferred : list (QueuedAdmissionCandidate P))
    : list (QueuedAdmissionCandidate P) * list (QueuedAdmissionCandidate P) :=
  match missing with
  | 0 => (candidates, policy_deferred)
  | S missing =>
      match i ← prefix_aware_fail_open_candidate env policy_deferred; remove_at i policy_deferred with
      | Some (c, policy_deferred) => fail_open env missing (candidates ++ [c]) policy_deferred
      | None => (candidates, policy_deferred)
      end
  end.

Definition deferred_of (c : QueuedAdmissionCandidate P) : DeferredWaitingRequest P :=
  mkDeferred _ (cd_incoming c) (cd_prompt_tokens c) (cd_hint c).

Fixpoint defer_released (bias : WaitingInsertBias) (policy_deferred : list (QueuedAdmissionCandidate P))
    (deferred_waiting : list (DeferredWaitingRequest P)) (s : AdmissionState)
    : AdmissionState * list (DeferredWaitingRequest P) :=
  match policy_deferred with
  | [] => (s, deferred_waiting)
  | c :: policy_deferred =>
      defer_released bias policy_deferred
        (insert_deferred_waiting_request deferred_waiting (deferred_of c) bias) (release_admission_plan (cd_plan c) s)
  end.

Definition collect_admission_candidates (env : AdmissionEnv) (free_slots : list nat) (waiting : list (IncomingRequest P))
    (deferred_waiting : list (DeferredWaitingRequest P)) (s : AdmissionState)
    : res (AdmissionState * (list (QueuedAdmissionCandidate P) * list (DeferredWaitingRequest P))) :=
  '(s, (candidates, policy_deferred)) ← scan_waiting env free_slots (length waiting) waiting [] [] s;
  let '(candidates, policy_deferred) := defer_candidates_below_blocked_priority candidates policy_deferred in
  let '(candidates, policy_deferred) :=
    fail_open env (length free_slots - length candidates) candidates policy_deferred in
  let '(s, deferred_waiting) := defer_released AfterEqual policy_deferred deferred_waiting s in
  Done (s, (candidates, deferred_waiting)).

(** ** Slots *)
Definition choose_admission_slot (plan : PrefixAdmissionPlan) (free_slots : list nat) : option (nat * nat * nat) :=
  match free_slots with
  | [] => None
  | first :: _ =>
      match reusable plan with
      | Some (slot_idx, reusable_prefix_len, cached_prompt_len) =>
          if bool_decide (slot_idx ∈ free_slots) then Some (slot_idx, reusable_prefix_len, cached_prompt_len)
          else Some (first, 0, 0)
      | None => Some (first, 0, 0)
      end
  end.

Definition full_isl_reserved_tokens (plan : PrefixAdmissionPlan) (reusable_prefix_len : nat) : nat :=
  if direct_gpu_attach plan then lo_matched_len (pl_lookup plan)
  else if bool_decide (0 < reusable_prefix_len) then reusable_prefix_len else 0.

Definition can_reserve_full_isl (budget : PageBudget) (slot_idx prompt_tokens max_tokens reserved_prefix_tokens : nat) : res bool :=
  can_fit_target budget (estimated_request_target slot_idx prompt_tokens max_tokens reserved_prefix_tokens).

Definition candidate_needs_long_prefill_active_limit (env : AdmissionEnv) (c : QueuedAdmissionCandidate P) : bool :=
  is_long_uncached_prefill (length (cd_prompt_tokens c)) (total_reuse_tokens (cd_hint c))
    (N.to_nat (SchedulerConfig.long_prefill_token_threshold (en_config env))).

(** What the pass decides for a candidate, in order: a request that cannot be
    placed may have its staged prefix prefetched and gives its blocks back; an
    admitted one whose blocks are not used gives them back before it starts. *)
Inductive admission_action :=
  | ActPrefetch (plan : PrefixAdmissionPlan)
  | ActRelease (plan : PrefixAdmissionPlan)
  | ActAdmit (c : QueuedAdmissionCandidate P) (slot_idx reusable_prefix_len reusable_cached_prompt_len : nat).

(** The variables of the loop of [assign_slots]. *)
Record assign_vars := mkAssignVars {
  av_budget : PageBudget;
  av_free_slots : list nat;
  av_long_prefill_active : nat;
  av_deferred : list (DeferredWaitingRequest P);
  av_actions : list admission_action;
}.

Definition defer_candidate (c : QueuedAdmissionCandidate P) (v : assign_vars) : assign_vars :=
  mkAssignVars (av_budget v) (av_free_slots v) (av_long_prefill_active v)
    (insert_deferred_waiting_request (av_deferred v) (deferred_of c) BeforeEqual)
    (av_actions v ++ [ActPrefetch (cd_plan c); ActRelease (cd_plan c)]).

(** The first occurrence of the slot leaves the list. *)
Definition take_slot (slot_idx : nat) (free_slots : list nat) : list nat :=
  match position (fun s => bool_decide (s = slot_idx)) free_slots with
  | Some pos => delete pos free_slots
  | None => free_slots
  end.

Definition assign_candidate (env : AdmissionEnv) (limit : option nat) (c : QueuedAdmissionCandidate P) (v : assign_vars)
    : res assign_vars :=
  let is_long := candidate_needs_long_prefill_active_limit env c in
  let over_limit := match limit with
    | Some limit => is_long && bool_decide (limit <= av_long_prefill_active v) | None => false end in
  if over_limit : bool then Done (defer_candidate c v)
  else match choose_admission_slot (cd_plan c) (av_free_slots v) with
  | None => Done (defer_candidate c v)
  | Some (slot_idx, reusable_prefix_len, cached_prompt_len) =>
      let reserved := full_isl_reserved_tokens (cd_plan c) reusable_prefix_len in
      let prompt_tokens := length (cd_prompt_tokens c) in
      let max_tokens := in_max_tokens (cd_incoming c) in
      fits ← can_reserve_full_isl (av_budget v) slot_idx prompt_tokens max_tokens reserved;
      if negb fits then Done (defer_candidate c v)
      else
        let releases := bool_decide (attached_prefix_blocks (cd_plan c) = []) && is_none (staged_prefix_plan (cd_plan c)) in
        budget ← reserve_target (estimated_request_target slot_idx prompt_tokens max_tokens reserved) (av_budget v);
        Done (mkAssignVars budget (take_slot slot_idx (av_free_slots v))
          (if is_long then S (av_long_prefill_active v) else av_long_prefill_active v) (av_deferred v)
          (av_actions v ++ (if releases then [ActRelease (cd_plan c)] else [])
             ++ [ActAdmit c slot_idx reusable_prefix_len cached_prompt_len]))
  end.

(** The loop; each turn takes one candidate out. *)
Fixpoint assign_candidates (env : AdmissionEnv) (limit : option nat) (fuel : nat)
    (candidates : list (QueuedAdmissionCandidate P)) (v : assign_vars) : res assign_vars :=
  match fuel with
  | 0 => match candidates with [] => Done v | _ => OutOfFuel end
  | S fuel =>
      match choose_session_affinity_candidate candidates with
      | None => Done v
      | Some idx =>
          '(c, rest) ← expect (remove_at idx candidates);
          v ← assign_candidate env limit c v;
          assign_candidates env limit fuel rest v
      end
  end.

(** The releases among the actions, applied. *)
Definition apply_release (s : AdmissionState) (a : admission_action) : AdmissionState :=
  match a with ActRelease plan => release_admission_plan plan s | ActPrefetch _ | ActAdmit _ _ _ _ => s end.

(** After a prefill ran out of memory: nothing is admitted while the GPU is
    busy, and one request at a time until the window is over. *)
Definition admission_slots (oom_cooldown_active busy : bool) (free_slots : list nat) : option (list nat) :=
  if oom_cooldown_active then if busy then None else Some (take 1 free_slots) else Some free_slots.

(** The loop over the candidates, with the releases applied and the deferred
    requests back in the queue. *)
Definition place_waiting (env : AdmissionEnv) (free_slots : list nat) (budget : PageBudget) (long_prefill_active : nat)
    (waiting : list (IncomingRequest P)) (s : AdmissionState)
    : res (AdmissionState * (list admission_action * list (IncomingRequest P))) :=
  '(s, (candidates, deferred)) ← collect_admission_candidates env free_slots waiting [] s;
  let limit := resolved_long_prefill_active_limit (N.to_nat (SchedulerConfig.max_slots (en_config env)))
    (N.to_nat <$> SchedulerConfig.long_prefill_active_limit (en_config env)) in
  v ← assign_candidates env limit (length candidates) candidates
        (mkAssignVars budget free_slots long_prefill_active deferred []);
  Done (foldl apply_release s (av_actions v), (av_actions v, restore_deferred_waiting_requests (av_deferred v) [])).

(** What a pass reads of a slot that runs a request. *)
Record ActiveSlot := mkActiveSlot {
  as_closed : bool;
  as_phase : Phase;
  as_prompt_len : nat;
  as_max_tokens : nat;
  as_reusable_prefix_len : nat;
}.

Definition free_slots (active : list (option ActiveSlot)) : list nat :=
  filter (fun i => match active !! i with Some None => true | _ => false end = true) (seq 0 (length active)).

Definition is_finished (phase : Phase) : bool := match phase with PhaseFinished => true | _ => false end.

Definition is_active_long_prefill_lane (phase : Phase) (prompt_tokens reusable_tokens threshold : nat) : bool :=
  match phase with Prefilling | Decoding => true | _ => false end
  && is_long_uncached_prefill prompt_tokens reusable_tokens threshold.

Definition long_prefill_active_admission_count (env : AdmissionEnv) (active : list (option ActiveSlot)) : nat :=
  length (filter (fun a => negb (is_finished (as_phase a)) &&
    is_active_long_prefill_lane (as_phase a) (as_prompt_len a) (as_reusable_prefix_len a)
      (N.to_nat (SchedulerConfig.long_prefill_token_threshold (en_config env))) = true) (omap id active)).

Fixpoint reserve_active (slot_idx : nat) (active : list (option ActiveSlot)) (b : PageBudget) : res PageBudget :=
  match active with
  | [] => Done b
  | None :: active => reserve_active (S slot_idx) active b
  | Some a :: active =>
      if as_closed a || is_finished (as_phase a) then reserve_active (S slot_idx) active b
      else
        b ← reserve_target (estimated_request_target slot_idx (as_prompt_len a) (as_max_tokens a)
              (as_reusable_prefix_len a)) b;
        reserve_active (S slot_idx) active b
  end.

(** A pass, once pages have been evicted: the state without the blocks that
    were given back, what is to be done in order, and the queue. [budget] is
    that of the pool, [busy] whether the GPU or a prefill is. *)
Definition assign_slots (env : AdmissionEnv) (active : list (option ActiveSlot)) (oom_cooldown_active busy : bool)
    (budget : PageBudget) (waiting : list (IncomingRequest P)) (s : AdmissionState)
    : res (AdmissionState * (list admission_action * list (IncomingRequest P))) :=
  if bool_decide (waiting = []) then Done (s, ([], waiting))
  else match admission_slots oom_cooldown_active busy (free_slots active) with
  | None => Done (s, ([], waiting))
  | Some available =>
      budget ← reserve_active 0 active budget;
      place_waiting env available budget (long_prefill_active_admission_count env active) waiting s
  end.
End requests.

(** ** What an admitted request holds

    The three fields of [ActiveRequest] ([request.rs]) by which it keeps
    blocks alive, from its admission to its end. *)
Record HeldPrefix := mkHeldPrefix {
  hp_attached_prefix_blocks : list BlockId;
  hp_staged_prefix : option ReadmissionPlan;
  hp_session_slot_hold : option SessionSlotHold;
}.

Definition admitted_prefix (plan : PrefixAdmissionPlan) : HeldPrefix :=
  mkHeldPrefix (attached_prefix_blocks plan) (staged_prefix_plan plan) (session_slot_hold plan).

Definition held_prefix_blocks (r : HeldPrefix) : list BlockId :=
  hp_attached_prefix_blocks r ++ match hp_staged_prefix r with Some plan => plan_block_ids plan | None => [] end.

Definition held_radix_prefix_blocks (r : HeldPrefix) : list BlockId :=
  if is_some (hp_session_slot_hold r) then [] else held_prefix_blocks r.

Definition release_attached_prefix_blocks (blocks : list BlockId) (s : AdmissionState) : AdmissionState :=
  if bool_decide (blocks = []) then s else set_ad_cache (RadixLookup.release blocks (ad_prefix_cache s)) s.

(** What the end of a request gives back ([cleanup]). *)
Definition finish_releases (r : HeldPrefix) (s : AdmissionState) : AdmissionState :=
  let s := release_attached_prefix_blocks (held_radix_prefix_blocks r) s in
  set_ad_sessions (release_session_slot_hold (hp_session_slot_hold r) (ad_sessions s)) s.

(** What falling back to a cold prefill gives back, and what the request holds
    then. *)
Definition fallback_to_cold_prefill_inner (release_held_blocks : bool) (r : HeldPrefix) (s : AdmissionState)
    : AdmissionState * HeldPrefix :=
  let held_blocks :=
    if is_some (hp_session_slot_hold r) then []
    else match hp_staged_prefix r with Some plan => plan_block_ids plan | None => [] end in
  let s :=
    if release_held_blocks && negb (bool_decide (held_blocks = []))
    then set_ad_cache (RadixLookup.release held_blocks (ad_prefix_cache s)) s else s in
  let s :=
    if release_held_blocks
    then set_ad_sessions (release_session_slot_hold (hp_session_slot_hold r) (ad_sessions s)) s else s in
  (s, mkHeldPrefix [] None None).

(** ** Adopting fetched blocks *)
Definition validate_staged_sealed_prefix (c : RadixCache) (prompt_len : nat) (staged : ReadmissionPlan) : bool :=
  bool_decide (rp_blocks staged = [])
  || negb (bool_decide (prompt_len < rp_matched_len staged)
           || negb (is_full_sealed_prefix (rp_matched_len staged) (block_size c) (length (rp_blocks staged)))).

(** The second lookup, once the blocks are promoted; [None] is an error, with
    the state it leaves. *)
Definition gpu_ready_staged_prefix_plan (prompt_tokens : list Token) (staged : ReadmissionPlan) (s : AdmissionState)
    : res (AdmissionState * option ReadmissionPlan) :=
  if negb (validate_staged_sealed_prefix (ad_prefix_cache s) (length prompt_tokens) staged) then Done (s, None)
  else
    prefix ← slice prompt_tokens 0 (rp_matched_len staged);
    '(c, final_lookup) ← lookup_or_stage prefix LookupHeuristics_default (ad_prefix_cache s);
    let s := set_ad_cache c s in
    if negb (lookup_blocks_ready_on_gpu (lo_blocks final_lookup)) then Done (s, None)
    else match build_staged_prefix_plan c final_lookup with
    | None => Done (s, None)
    | Some final_plan =>
        if bool_decide (rp_matched_len final_plan = rp_matched_len staged) then Done (s, Some final_plan)
        else Done (s, None)
    end.

(** A request whose fetch has ended. *)
Record FetchWaiter := mkFetchWaiter {
  fw_slot_idx : nat;
  fw_request_id : N;
  fw_prompt_tokens : list Token;
  fw_session_id : option SessionId;
  fw_staged_prefix : ReadmissionPlan;
  fw_session_slot_hold : option SessionSlotHold;
}.

(** The plan by which it runs: of the slot it holds, or looked up. *)
Definition promoted_prefix_plan (w : FetchWaiter) (s : AdmissionState) : res (AdmissionState * option ReadmissionPlan) :=
  match fw_session_slot_hold w with
  | Some hold =>
      Done (s, session_slot_gpu_ready_plan (ad_prefix_cache s) (hold_session_id hold)
        (rp_matched_len (fw_staged_prefix w)) (ad_sessions s))
  | None => gpu_ready_staged_prefix_plan (fw_prompt_tokens w) (fw_staged_prefix w) s
  end.

(** [Ok] with whether the blocks were adopted, or the error of the plan. *)
Inductive adoption :=
  | AdoptionFailed
  | Adopted (adopted : bool) (request : option (N * HeldPrefix)).

(** [request]: the id and the blocks of the request in the waiter's slot. *)
Definition adopt_promoted_prefix (w : FetchWaiter) (request : option (N * HeldPrefix)) (s : AdmissionState)
    : res (AdmissionState * adoption) :=
  if bool_decide (rp_blocks (fw_staged_prefix w) = []) then Done (s, Adopted false request)
  else
    '(s, final_plan) ← promoted_prefix_plan w s;
    match final_plan with
    | None => Done (s, AdoptionFailed)
    | Some plan =>
        match request with
        | None => Done (s, Adopted true None)
        | Some (id, r) =>
            if bool_decide (id = fw_request_id w)
            then Done (s, Adopted true (Some (id, mkHeldPrefix (plan_block_ids plan) None (hp_session_slot_hold r))))
            else Done (s, Adopted false request)
        end
    end.
