(* ===== verification/AdmissionProps.v ===== *)
(** * What prefix admission promises

    The plans of [Admission] and the blocks behind them: how a plan uses what
    a lookup found, that building and releasing a plan changes no reference,
    that a scan of the queue loses no request and keeps exactly the blocks of
    its candidates, that a pass gives out each free slot once, and what an
    admitted request has given back when it ends. *)

From S2P Require Import Prelude Lists Tier Policy HostArena HostPool CoordinatorControl Readmission RadixTypes RadixTree RadixLookup RadixLookupProps RadixMeta SessionSlots KvFormat PagedKv PageBudget WaitingQueue Admission.
From S2P Require BatchScheduler SchedulerConfig.

(** ** How a plan uses a lookup *)
Lemma gpu_ready_prefix_spec l :
  exists rest, l = gpu_ready_prefix l ++ rest /\ Forall (fun b => lb_hit_kind b = ReadyOnGpu) (gpu_ready_prefix l) /\
    (forall b, head rest = Some b -> lb_hit_kind b <> ReadyOnGpu).
Proof.
  induction l as [|b l (rest & Hl & Hall & Hst)]; [by exists []|]. cbn. destruct (is_ready_on_gpu (lb_hit_kind b)) eqn:E.
  - exists rest. split_and!; [cbn; congruence|constructor; [by destruct (lb_hit_kind b)|done]|done].
  - exists (b :: l). split_and!; [done|constructor|]. intros ? [= <-] Hk. by rewrite Hk in E.
Qed.

Lemma best_slot_loop_Some free owners lens bs l slot len cached :
  best_slot_loop free owners lens bs l = Some (slot, len, cached) ->
  exists idx b, (idx, b) ∈ l /\ owners !! b = Some slot /\ slot ∈ free /\ len = (idx + 1) * bs /\
    cached = default 0 (lens !! slot) /\ 0 < len /\ len <= cached.
Proof.
  induction l as [|[idx b] l IH]; cbn; [done|]. intros H.
  assert (best_slot_loop free owners lens bs l = Some (slot, len, cached) -> exists idx0 b0,
    (idx0, b0) ∈ (idx, b) :: l /\ owners !! b0 = Some slot /\ slot ∈ free /\ len = (idx0 + 1) * bs /\
    cached = default 0 (lens !! slot) /\ 0 < len /\ len <= cached) as Hrec.
  { intros (idx' & b' & Hin & Hrest)%IH. exists idx', b'. split; [by right|done]. }
  destruct (owners !! b) as [s|] eqn:Ho; [|by apply Hrec].
  case_bool_decide as Hf; [by apply Hrec|]. case_bool_decide as Hl; [|by apply Hrec]. simplify_eq. exists idx, b.
  split_and!; [left|done..|lia|lia].
Qed.

Lemma staged_prefix_blocks_ids c l : forall bs,
  staged_prefix_blocks c l = Some bs ->
  exists used rest, l = used ++ rest /\ (lb_block_id <$> used) = Some ∘ rb_block_id <$> bs /\
    Forall (fun b => is_miss (lb_hit_kind b) = false) used /\ (forall b, head rest = Some b -> is_miss (lb_hit_kind b) = true) /\
    Forall2 (fun u b => rb_source b = None <-> lb_hit_kind u = ReadyOnGpu) used bs.
Proof.
  induction l as [|b l IH]; cbn; intros bs.
  - intros [= <-]. exists [], []. split_and!; try done; by constructor.
  - destruct (is_miss (lb_hit_kind b)) eqn:Hm.
    + intros [= <-]. exists [], (b :: l). split_and!; try done; try by constructor. by intros ? [= <-].
    + destruct (lb_block_id b) as [id|] eqn:Hid; [|done]. cbn. destruct (block_metadata id c) as [md|]; [|done]. cbn.
      destruct (md_fingerprint md) as [fp|]; [|done]. cbn.
      destruct (readmission_source (lb_hit_kind b) md) as [src|] eqn:Hsrc; [|done]. cbn.
      destruct (staged_prefix_blocks c l) as [rest'|]; [|done]. cbn. intros [= <-].
      destruct (IH rest' eq_refl) as (used & rest & -> & Hids & Hall & Hst & H2). exists (b :: used), rest.
      split_and!; [done|cbn; congruence|by constructor|done|]. constructor; [|done]. cbn.
      destruct (lb_hit_kind b); cbn in *; simplify_eq; [done| |].
      * destruct (host_region_from_metadata md); cbn in *; by simplify_eq.
      * destruct (md_location md) as [[]|]; by simplify_eq.
Qed.

Lemma build_staged_prefix_plan_Some c lookup p :
  build_staged_prefix_plan c lookup = Some p ->
  rp_matched_len p = lo_matched_len lookup /\ rp_matched_len p = block_size c * length (rp_blocks p) /\ rp_blocks p <> [] /\
  exists used rest, lo_blocks lookup = used ++ rest /\ lb_block_id <$> used = Some <$> plan_block_ids p /\
    Forall (fun b => is_miss (lb_hit_kind b) = false) used /\ (forall b, head rest = Some b -> is_miss (lb_hit_kind b) = true).
Proof.
  unfold build_staged_prefix_plan. destruct (staged_prefix_blocks c (lo_blocks lookup)) as [bs|] eqn:E; cbn; [|done].
  unfold is_full_sealed_prefix, sealed_block_token_count. case_bool_decide as Hf; [|done]. intros [= <-]. cbn.
  destruct (staged_prefix_blocks_ids c _ bs E) as (used & rest & Hl & Hids & Hall & Hst & _).
  split_and!; [done|lia|destruct bs; cbn in *; [lia|done]|]. exists used, rest. split_and!; try done.
  unfold plan_block_ids. cbn. by rewrite Hids, list_fmap_compose.
Qed.

Lemma omap_length_le {A B} (f : A -> option B) (l : list A) : length (omap f l) <= length l.
Proof. induction l as [|x l IH]; cbn; [lia|]. destruct (f x); cbn; lia. Qed.

Lemma best_slot_loop_best free owners lens bs l1 idx b l2 slot :
  owners !! b = Some slot -> slot ∈ free -> (idx + 1) * bs <= default 0 (lens !! slot) -> 0 < (idx + 1) * bs ->
  (forall i b', (i, b') ∈ l1 -> idx <= i) ->
  exists slot' len cached, best_slot_loop free owners lens bs (l1 ++ (idx, b) :: l2) = Some (slot', len, cached) /\
    (idx + 1) * bs <= len.
Proof.
  intros Ho Hf Hl H0 Hl1. induction l1 as [|[i b'] l1 IH]; cbn.
  - rewrite Ho, bool_decide_eq_false_2, bool_decide_eq_true_2 by (tauto || lia). by eexists _, _, _.
  - destruct IH as (slot' & len & cached & Hrest & Hle); [intros i' b2 Hin; apply (Hl1 i' b2); by right|].
    assert (idx <= i) as Hi by (apply (Hl1 i b'); left).
    destruct (owners !! b') as [s'|]; [|by eexists _, _, _]. case_bool_decide; [by eexists _, _, _|].
    case_bool_decide; [|by eexists _, _, _]. eexists _, _, _. split; [done|]. nia.
Qed.

(** The longest prefix a free slot has materialised is taken. *)
Lemma best_reusable_best blocks free owners lens bs idx b slot :
  blocks !! idx = Some b -> owners !! b = Some slot -> slot ∈ free -> (idx + 1) * bs <= default 0 (lens !! slot) -> 0 < bs ->
  exists slot' len cached, best_reusable_slot_for_radix_hit blocks free owners lens bs = Some (slot', len, cached) /\
    (idx + 1) * bs <= len.
Proof.
  intros Hb Ho Hf Hl H0. unfold best_reusable_slot_for_radix_hit.
  rewrite <-(take_drop_middle _ _ _ Hb), imap_app, reverse_app. cbn [imap]. rewrite reverse_cons, <-app_assoc. cbn [app].
  pose proof (lookup_lt_Some _ _ _ Hb) as Hlt. rewrite length_take, Nat.min_l, Nat.add_0_r by lia.
  apply (best_slot_loop_best free owners lens bs _ idx b _ slot); try done; [lia|]. intros i b' Hin. rewrite elem_of_reverse in Hin.
  apply elem_of_lookup_imap in Hin as (j & b2 & [= -> ->] & _). lia.
Qed.

Section plan.
Context (env : AdmissionEnv) (c : RadixCache) (free_slots : list nat) (lookup : LookupOutcome).
Context (resume : nat) (hold : option SessionSlotHold).
Let plan : PrefixAdmissionPlan := plan_of_lookup env c free_slots lookup resume hold.

(** A plan uses what was found in one way. *)
Lemma plan_of_lookup_uses :
  (direct_gpu_attach plan = true ->
     en_supports_cross_slot_prefix_attach env = true /\ reusable plan = None /\ staged_prefix_plan plan = None /\
     attached_prefix_blocks plan <> [] /\
     lo_matched_len lookup = block_size c * length (attached_prefix_blocks plan) /\
     attached_prefix_blocks plan = omap lb_block_id (gpu_ready_prefix (lo_blocks lookup))) /\
  (direct_gpu_attach plan = false -> attached_prefix_blocks plan = []) /\
  (forall staged, staged_prefix_plan plan = Some staged ->
     en_supports_cross_slot_prefix_attach env = true /\ direct_gpu_attach plan = false /\ reusable plan = None /\
     rp_matched_len staged = lo_matched_len lookup /\ rp_matched_len staged = block_size c * length (rp_blocks staged) /\
     rp_blocks staged <> [] /\ existsb (fun b => is_staged (lb_hit_kind b)) (lo_blocks lookup) = true /\
     exists used rest, lo_blocks lookup = used ++ rest /\ lb_block_id <$> used = Some <$> plan_block_ids staged) /\
  (forall slot len cached, reusable plan = Some (slot, len, cached) ->
     direct_gpu_attach plan = false /\ staged_prefix_plan plan = None /\ slot ∈ free_slots /\
     0 < len /\ len <= lo_matched_len lookup /\ (block_size c | len) /\
     cached = default 0 (en_slot_materialized_prompt_lens env !! slot) /\ len <= cached /\
     exists idx b, omap lb_block_id (gpu_ready_prefix (lo_blocks lookup)) !! idx = Some b /\
       len = (idx + 1) * block_size c /\ en_block_owner_slots env !! b = Some slot) /\
  (lo_recompute_advised lookup = true ->
     direct_gpu_attach plan = false /\ staged_prefix_plan plan = None /\ reusable plan = None) /\
  prefix_aware_reusable_prefix_tokens plan <= lo_matched_len lookup.
Proof.
  unfold plan, plan_of_lookup, prefix_aware_reusable_prefix_tokens.
  cbn [direct_gpu_attach reusable staged_prefix_plan attached_prefix_blocks pl_lookup].
  set (sealed := bool_decide (lo_matched_len lookup = 0) || _).
  set (ready := sealed && lookup_blocks_ready_on_gpu (lo_blocks lookup)).
  set (gpu := omap lb_block_id (gpu_ready_prefix (lo_blocks lookup))).
  set (full := ready && bool_decide (_ = lo_matched_len lookup)).
  set (staged := if en_supports_cross_slot_prefix_attach env && sealed && negb (lo_recompute_advised lookup)
      && negb ready && existsb (fun b => is_staged (lb_hit_kind b)) (lo_blocks lookup)
    then build_staged_prefix_plan c lookup else None).
  set (direct := en_supports_cross_slot_prefix_attach env && sealed && negb (lo_recompute_advised lookup)
    && negb (bool_decide (gpu = [])) && full && is_none staged).
  set (reused := if direct || is_some staged then None else if full && negb (lo_recompute_advised lookup)
    then best_reusable_slot_for_radix_hit gpu free_slots (en_block_owner_slots env)
           (en_slot_materialized_prompt_lens env) (block_size c) else None).
  assert (full = true -> lo_matched_len lookup = block_size c * length gpu) as Hfull.
  { unfold full. rewrite andb_true_iff, bool_decide_eq_true. unfold sealed_block_token_count. intros [_ ?]. lia. }
  assert (forall p, staged = Some p -> en_supports_cross_slot_prefix_attach env = true /\
    lo_recompute_advised lookup = false /\ existsb (fun b => is_staged (lb_hit_kind b)) (lo_blocks lookup) = true /\
    build_staged_prefix_plan c lookup = Some p) as Hstaged.
  { intros p. unfold staged. case_match eqn:E; [|done]. rewrite !andb_true_iff, !negb_true_iff in E. tauto. }
  assert (direct = true -> en_supports_cross_slot_prefix_attach env = true /\ lo_recompute_advised lookup = false /\
    gpu <> [] /\ full = true /\ staged = None) as Hdirect.
  { unfold direct. rewrite !andb_true_iff, !negb_true_iff, bool_decide_eq_false. destruct staged; cbn; naive_solver. }
  assert (forall slot len cached, reused = Some (slot, len, cached) -> direct = false /\ staged = None /\
    full = true /\ lo_recompute_advised lookup = false /\
    best_reusable_slot_for_radix_hit gpu free_slots (en_block_owner_slots env) (en_slot_materialized_prompt_lens env)
      (block_size c) = Some (slot, len, cached)) as Hreused.
  { intros slot len cached. unfold reused. destruct direct, staged; cbn; try done.
    destruct full, (lo_recompute_advised lookup); cbn; done. }
  clearbody staged direct reused full gpu. clear ready sealed.
  assert (forall slot len cached, reused = Some (slot, len, cached) -> slot ∈ free_slots /\
     0 < len /\ len <= lo_matched_len lookup /\ (block_size c | len) /\
     cached = default 0 (en_slot_materialized_prompt_lens env !! slot) /\ len <= cached /\
     exists idx b, gpu !! idx = Some b /\ len = (idx + 1) * block_size c /\ en_block_owner_slots env !! b = Some slot) as Hr.
  { intros slot len cached (_ & _ & Hf & _ & Hb)%Hreused. unfold best_reusable_slot_for_radix_hit in Hb.
    apply best_slot_loop_Some in Hb as (idx & b & Hin & Ho & Hfree & -> & Hc & Hpos & Hle).
    apply elem_of_reverse, elem_of_lookup_imap in Hin as (i & b' & [= -> ->] & Hi). specialize (Hfull Hf).
    pose proof (lookup_lt_Some _ _ _ Hi). split_and!; try done; [nia|by exists (i + 1)|by exists i, b']. }
  split_and!.
  - intros Hd. destruct (Hdirect Hd) as (Hs & Ha & Hg & Hf & Hst). rewrite Hd. split_and!; try done; [|by apply Hfull].
    destruct reused as [[[slot len] cached]|]; [|done]. destruct (Hreused slot len cached eq_refl). congruence.
  - by intros ->.
  - intros p Hp. destruct (Hstaged p Hp) as (Hs & Ha & Hex & Hb).
    destruct (build_staged_prefix_plan_Some c lookup p Hb) as (? & ? & ? & used & rest & ? & ? & _).
    split_and!; try done; [| |by exists used, rest].
    + destruct direct; [|done]. destruct Hdirect as (_ & _ & _ & _ & ?); congruence.
    + destruct reused as [[[slot len] cached]|]; [|done]. destruct (Hreused slot len cached eq_refl) as (_ & ? & _). congruence.
  - intros slot len cached Hu. destruct (Hreused _ _ _ Hu) as (? & ? & _). split_and!; [done|done|..]; by apply (Hr slot len cached).
  - intros Ha. split_and!.
    + destruct direct; [|done]. destruct Hdirect as (_ & ? & _); congruence.
    + destruct staged as [p|]; [|done]. destruct (Hstaged p eq_refl) as (_ & ? & _). congruence.
    + destruct reused as [[[slot len] cached]|]; [|done]. destruct (Hreused slot len cached eq_refl) as (_ & _ & _ & ? & _). congruence.
  - destruct (lo_recompute_advised lookup); [lia|]. destruct direct; [done|].
    destruct reused as [[[slot len] cached]|]; [by destruct (Hr slot len cached eq_refl) as (_ & _ & ? & _)|].
    destruct staged as [p|]; [|lia]. destruct (Hstaged p eq_refl) as (_ & _ & _ & Hb).
    destruct (build_staged_prefix_plan_Some c lookup p Hb) as (-> & _). done.
Qed.

(** The blocks on the GPU the lookup begins with. *)
Let gpu : list BlockId := omap lb_block_id (gpu_ready_prefix (lo_blocks lookup)).
Let usable : nat := matched_sealed_lookup_blocks (lo_blocks lookup).

(** When each use is made. *)
Lemma plan_of_lookup_when :
  lo_recompute_advised lookup = false -> 0 < usable -> lo_matched_len lookup = block_size c * usable ->
  (en_supports_cross_slot_prefix_attach env = true -> lookup_blocks_ready_on_gpu (lo_blocks lookup) = true ->
     length gpu = usable -> direct_gpu_attach plan = true) /\
  (forall p, en_supports_cross_slot_prefix_attach env = true -> lookup_blocks_ready_on_gpu (lo_blocks lookup) = false ->
     existsb (fun b => is_staged (lb_hit_kind b)) (lo_blocks lookup) = true -> build_staged_prefix_plan c lookup = Some p ->
     staged_prefix_plan plan = Some p) /\
  (forall idx b slot, en_supports_cross_slot_prefix_attach env = false -> lookup_blocks_ready_on_gpu (lo_blocks lookup) = true ->
     length gpu = usable -> gpu !! idx = Some b -> en_block_owner_slots env !! b = Some slot -> slot ∈ free_slots ->
     (idx + 1) * block_size c <= default 0 (en_slot_materialized_prompt_lens env !! slot) -> 0 < block_size c ->
     exists slot' len cached, reusable plan = Some (slot', len, cached) /\ (idx + 1) * block_size c <= len).
Proof.
  intros Ha H0 Hm. unfold plan, plan_of_lookup. cbn [direct_gpu_attach reusable staged_prefix_plan]. fold gpu.
  assert (bool_decide (lo_matched_len lookup = 0) || is_full_sealed_prefix (lo_matched_len lookup) (block_size c)
    (matched_sealed_lookup_blocks (lo_blocks lookup)) = true) as ->.
  { apply orb_true_iff. right. apply bool_decide_eq_true. unfold sealed_block_token_count. fold usable. split; [done|lia]. }
  rewrite Ha. cbn [negb]. split_and!.
  - intros -> -> Hlen. cbn [andb negb is_none]. rewrite (bool_decide_eq_false_2 (gpu = [])) by (intros E; rewrite E in Hlen; cbn in Hlen; lia).
    cbn. rewrite andb_true_r. apply bool_decide_eq_true. unfold sealed_block_token_count. rewrite Hlen. lia.
  - intros p -> -> -> ->. done.
  - intros idx b slot -> -> Hlen Hb Ho Hf Hl Hbs. cbn [andb is_none is_some orb].
    rewrite bool_decide_eq_true_2 by (unfold sealed_block_token_count; rewrite Hlen; lia). by eapply best_reusable_best.
Qed.
End plan.

(** ** The blocks behind a plan *)

(** What a lookup of the session [sid] may do to the table. *)
Definition session_effect (sid : option SessionId) (t t' : SessionTable) (hold : option SessionSlotHold) : Prop :=
  match hold with
  | None => t' = t \/ exists id, sid = Some id /\ t' = drop_session_slot id t
  | Some h => exists slot tick, sid = Some (hold_session_id h) /\ session_slots t !! hold_session_id h = Some slot /\
      t' = set_slots (<[hold_session_id h :=
             set_slot_last_access tick (set_slot_ref_count (u32_saturating_add (ss_ref_count slot) 1) slot)]> (session_slots t)) t
  end.

Lemma lookup_session_slot_effect c sid len h t :
  let r := lookup_session_slot_or_stage c sid len h t in
  session_effect (Some sid) t r.1 (sl_hold <$> r.2).
Proof.
  unfold lookup_session_slot_or_stage. destruct (session_slots t !! sid) as [slot|] eqn:Hs; [|by left].
  case_bool_decide; [by left|]. case_bool_decide; cbn; [right; eauto|].
  exists slot, (logical_clock c). by split_and!.
Qed.

Lemma first_lookup_pins tokens sid s :
  wf (ad_prefix_cache s) -> blocks_distinct (ad_prefix_cache s) -> room (ad_prefix_cache s) 1 ->
  exists s' lookup hold, first_lookup tokens sid s = Done (s', (lookup, hold)) /\
    session_effect sid (ad_sessions s) (ad_sessions s') hold /\
    pinned (ad_prefix_cache s) (ad_prefix_cache s') (match hold with Some _ => [] | None => lookup_block_ids lookup end) /\
    (hold = None -> NoDup (lookup_block_ids lookup)).
Proof.
  intros Hwf Hd Hroom. unfold first_lookup.
  destruct (lookup_or_stage_pins (ad_prefix_cache s) tokens LookupHeuristics_default Hwf Hd Hroom)
    as (c' & o & Hrun & Hpin & Hnd).
  destruct sid as [sid|].
  - pose proof (lookup_session_slot_effect (ad_prefix_cache s) sid (length tokens) LookupHeuristics_default (ad_sessions s)) as He.
    cbn zeta in He. destruct (lookup_session_slot_or_stage _ _ _ _ _) as [t [r|]]; cbn in *.
    + eexists _, _, _. split; [done|]. cbn. split_and!; [done|apply pinned_refl|done].
    + rewrite Hrun. cbn. eexists _, _, _. split; [done|]. by split_and!.
  - rewrite Hrun. cbn. eexists _, _, _. split; [done|]. split_and!; try done. by left.
Qed.

Lemma resume_lookup_pins c0 tokens sid lookup hold s :
  wf (ad_prefix_cache s) -> blocks_distinct (ad_prefix_cache s) -> room (ad_prefix_cache s) 1 ->
  pinned c0 (ad_prefix_cache s) (match hold with Some _ => [] | None => lookup_block_ids lookup end) ->
  (hold = None -> NoDup (lookup_block_ids lookup)) ->
  exists s' lookup' resume, resume_lookup tokens sid lookup hold s = Done (s', (lookup', resume)) /\
    ad_sessions s' = ad_sessions s /\
    pinned c0 (ad_prefix_cache s') (match hold with Some _ => [] | None => lookup_block_ids lookup' end) /\
    (hold = None -> NoDup (lookup_block_ids lookup')).
Proof.
  intros Hwf Hd Hroom Hpin Hnd. unfold resume_lookup.
  destruct hold as [h|]; [by eexists _, _, _|]. specialize (Hnd eq_refl). destruct sid as [sid|]; [|by eexists _, _, _].
  destruct (lookup_session_prefix_pins (ad_prefix_cache s) sid tokens LookupHeuristics_default Hwf Hd Hroom)
    as (c' & o & -> & Hpin' & Hnd'). cbn [mbind res_bind].
  pose proof (pinned_trans _ _ _ _ _ Hpin Hpin') as Hboth.
  destruct (session_lookup_preferred o lookup); eexists _, _, _; (split; [done|]); cbn;
    (split_and!; [done| |done]); (apply pinned_release; [done|]).
  - done.
  - eapply pinned_perm; [|exact Hboth]. apply Permutation_app_comm.
Qed.

(** What building a plan does: it returns, it pins the blocks of the plan
    once each, and at most one slot is held or dropped. *)
Lemma build_plan_pins env tokens sid free s :
  wf (ad_prefix_cache s) -> blocks_distinct (ad_prefix_cache s) -> room (ad_prefix_cache s) 2 ->
  exists s' plan, build_prefix_admission_plan env tokens sid free s = Done (s', plan) /\
    pinned (ad_prefix_cache s) (ad_prefix_cache s') (radix_blocks plan) /\ NoDup (radix_blocks plan) /\
    session_effect sid (ad_sessions s) (ad_sessions s') (session_slot_hold plan).
Proof.
  intros Hwf Hd Hroom. unfold build_prefix_admission_plan.
  assert (exists s' plan, Done (s, cold_prefix_admission_plan) = Done (s', plan) /\
    pinned (ad_prefix_cache s) (ad_prefix_cache s') (radix_blocks plan) /\ NoDup (radix_blocks plan) /\
    session_effect sid (ad_sessions s) (ad_sessions s') (session_slot_hold plan)) as Hcold.
  { eexists _, _. split; [done|]. split_and!; [apply pinned_refl|constructor|by left]. }
  destruct (negb _); [exact Hcold|]. destruct (_ && _); [exact Hcold|]. clear Hcold.
  assert (room (ad_prefix_cache s) 1) as Hroom1 by (eapply room_le; [|exact Hroom]; lia).
  destruct (first_lookup_pins tokens sid s Hwf Hd Hroom1) as (s1 & lookup & hold & -> & He & Hpin & Hnd).
  cbn [mbind res_bind].
  assert (room (ad_prefix_cache s1) 1) as Hr1.
  { eapply pinned_room; [exact Hpin| |exact Hroom]. destruct hold; [constructor|by apply Hnd]. }
  destruct (resume_lookup_pins (ad_prefix_cache s) tokens sid lookup hold s1
    (pinned_wf _ _ _ Hpin Hwf) (pinned_distinct _ _ _ Hpin Hd) Hr1 Hpin Hnd) as (s2 & lookup' & resume & -> & Hses & Hpin' & Hnd').
  cbn [mbind res_bind]. eexists _, _. split; [done|]. cbn [radix_blocks session_slot_hold plan_of_lookup].
  rewrite Hses. split_and!; [done| |done]. destruct hold; [constructor|by apply Hnd'].
Qed.

Lemma release_plan_pins c0 plan m s :
  NoDup (radix_blocks plan) -> pinned c0 (ad_prefix_cache s) (radix_blocks plan ++ m) ->
  pinned c0 (ad_prefix_cache (release_admission_plan plan s)) m.
Proof. apply pinned_release. Qed.

(** The counters of a slot, without its last access. *)
Definition slot_core (s : SessionSlot) : list BlockId * nat * N := (ss_blocks s, ss_committed_len s, ss_ref_count s).

(** C29: a plan that is not used leaves no trace in the counts. Building a
    plan for any prompt returns, and leaves every block of the plan with
    exactly one reference more, no block twice; releasing the plan puts every
    reference of the tree back, and every slot of the session table has the
    blocks, the length and the holds it had, unless it is the slot of the
    session itself and was dropped because its blocks are gone. *)
Theorem plan_release_roundtrip env tokens sid free s :
  wf (ad_prefix_cache s) -> blocks_distinct (ad_prefix_cache s) -> room (ad_prefix_cache s) 2 ->
  (forall id slot, session_slots (ad_sessions s) !! id = Some slot -> (ss_ref_count slot < u32_max)%N) ->
  exists s' plan, build_prefix_admission_plan env tokens sid free s = Done (s', plan) /\
    pinned (ad_prefix_cache s) (ad_prefix_cache s') (radix_blocks plan) /\ NoDup (radix_blocks plan) /\
    let s'' := release_admission_plan plan s' in
    pinned (ad_prefix_cache s) (ad_prefix_cache s'') [] /\
    forall id, slot_core <$> session_slots (ad_sessions s'') !! id = slot_core <$> session_slots (ad_sessions s) !! id \/
      (sid = Some id /\ session_slots (ad_sessions s'') !! id = None).
Proof.
  intros Hwf Hd Hroom Hmax. destruct (build_plan_pins env tokens sid free s Hwf Hd Hroom) as (s' & plan & Hrun & Hpin & Hnd & He).
  exists s', plan. do 3 (split; [done|]). intros s''. split.
  - apply release_plan_pins; [done|]. by rewrite app_nil_r.
  - intros id. unfold s'', release_admission_plan. cbn. unfold release_session_slot_hold. destruct (session_slot_hold plan) as [h|].
    + destruct He as (slot & tick & -> & Hs & ->). cbn. rewrite lookup_insert_eq. cbn. left.
      destruct (decide (id = hold_session_id h)) as [->|Hne].
      * rewrite lookup_insert_eq, Hs. cbn. unfold slot_core. cbn. specialize (Hmax _ _ Hs).
        do 2 f_equal. unfold u32_saturating_add. lia.
      * by rewrite !lookup_insert_ne by done.
    + destruct He as [->|(id' & -> & ->)]; [by left|]. rewrite drop_session_slot_slots.
      destruct (decide (id = id')) as [->|Hne]; [right; by rewrite lookup_delete_eq|left; by rewrite lookup_delete_ne].
Qed.

(** ** Collecting candidates *)
Section collect.
Context {P : Type}.
Implicit Types (l : list (QueuedAdmissionCandidate P)).

(** The request as it waits. *)
Definition waiting_form (c : QueuedAdmissionCandidate P) : IncomingRequest P :=
  set_prompt_tokens (Some (cd_prompt_tokens c)) (cd_incoming c).

(** Requests the scan neither drops nor refuses. *)
Definition scannable (r : IncomingRequest P) : bool :=
  negb (in_closed r) && match in_prompt_tokens r with Some (_ :: _) => true | _ => false end.

(** The references the plans hold. *)
Definition pins_of l : list BlockId := concat ((fun c => radix_blocks (cd_plan c)) <$> l).
Definition plans_ok l : Prop := Forall (fun c => NoDup (radix_blocks (cd_plan c))) l.

Lemma pins_of_app l1 l2 : pins_of (l1 ++ l2) = pins_of l1 ++ pins_of l2.
Proof. unfold pins_of. by rewrite fmap_app, concat_app. Qed.
Lemma pins_of_cons c l : pins_of (c :: l) = radix_blocks (cd_plan c) ++ pins_of l.
Proof. done. Qed.
Lemma pins_of_perm l1 l2 : l1 ≡ₚ l2 -> pins_of l1 ≡ₚ pins_of l2.
Proof. intros Hp. unfold pins_of. by rewrite Hp. Qed.

Lemma plans_ok_pins l b : plans_ok l -> occurrences b (pins_of l) <= length l.
Proof.
  induction 1 as [|c l Hc _ IH]; [done|]. rewrite pins_of_cons, occurrences_app. cbn.
  pose proof (occurrences_NoDup b _ Hc). lia.
Qed.

Lemma pinned_room_plans c c' l k : pinned c c' (pins_of l) -> plans_ok l -> room c (length l + k) -> room c' k.
Proof.
  intros Hp Hok Hroom i n' Hn'. pose proof (st_shape _ _ (pn_tree _ _ _ Hp)) as Hs.
  destruct (shape_lookup c' c i n' (eq_sym Hs) Hn') as (n & Hn & _).
  destruct (pn_refs _ _ _ Hp i n Hn) as (n0 & Hn0 & Href). simplify_eq. specialize (Hroom i n Hn).
  unfold node_pins in Href. destruct (n_block_id n) as [b|]; [|lia]. pose proof (plans_ok_pins l b Hok). lia.
Qed.

Lemma scan_request_ok env free (r : IncomingRequest P) s :
  wf (ad_prefix_cache s) -> blocks_distinct (ad_prefix_cache s) -> room (ad_prefix_cache s) 2 ->
  exists s' o, scan_request env free r s = Done (s', o) /\
    match o with
    | ScanPlanned c => scannable r = true /\ waiting_form c = r /\ NoDup (radix_blocks (cd_plan c)) /\
        pinned (ad_prefix_cache s) (ad_prefix_cache s') (radix_blocks (cd_plan c))
    | ScanClosed | ScanRefused _ => scannable r = false /\ s' = s
    end.
Proof.
  intros Hwf Hd Hroom. unfold scan_request, scannable. destruct (in_closed r) eqn:Hc; [by eexists _, _|].
  destruct (in_prompt_tokens r) as [[|t ts]|] eqn:Ht; [by eexists _, _| |by eexists _, _].
  destruct (build_plan_pins env (t :: ts) (in_session_id (set_prompt_tokens None r)) free s Hwf Hd Hroom)
    as (s' & plan & -> & Hpin & Hnd & _).
  cbn [mbind res_bind]. eexists _, _. split; [done|]. split_and!; [done| |done|done].
  unfold waiting_form, set_prompt_tokens. cbn. rewrite <-Ht. by destruct r.
Qed.

Lemma scan_waiting_ok c0 env free n waiting : wf c0 -> blocks_distinct c0 ->
  forall cand def s,
  pinned c0 (ad_prefix_cache s) (pins_of (cand ++ def)) -> plans_ok (cand ++ def) ->
  room c0 (length (cand ++ def) + S (length waiting)) ->
  exists s' cand' def', scan_waiting env free n waiting cand def s = Done (s', (cand', def')) /\
    pinned c0 (ad_prefix_cache s') (pins_of (cand' ++ def')) /\ plans_ok (cand' ++ def') /\
    waiting_form <$> cand' ++ def' ≡ₚ (waiting_form <$> cand ++ def) ++ filter (fun r => scannable r = true) waiting.
Proof.
  intros Hwf Hd. induction waiting as [|r waiting IH]; intros cand def s Hpin Hok Hroom.
  { exists s, cand, def. cbn. by rewrite app_nil_r. }
  cbn [scan_waiting]. assert (room (ad_prefix_cache s) 2) as Hr2.
  { eapply pinned_room_plans; [exact Hpin|exact Hok|]. eapply room_le; [|exact Hroom]. cbn. lia. }
  destruct (scan_request_ok env free r s (pinned_wf _ _ _ Hpin Hwf) (pinned_distinct _ _ _ Hpin Hd) Hr2) as (s1 & o & -> & Ho).
  cbn [mbind res_bind]. rewrite filter_cons.
  assert (scannable r = false -> s1 = s -> exists s' cand' def',
    scan_waiting env free n waiting cand def s1 = Done (s', (cand', def')) /\
    pinned c0 (ad_prefix_cache s') (pins_of (cand' ++ def')) /\ plans_ok (cand' ++ def') /\
    waiting_form <$> cand' ++ def' ≡ₚ (waiting_form <$> cand ++ def) ++
      (if decide (scannable r = true) then r :: filter (fun r => scannable r = true) waiting
       else filter (fun r => scannable r = true) waiting)) as Hskip.
  { intros Hsc ->. rewrite decide_False by congruence. apply IH; [done|done|]. eapply room_le; [|exact Hroom]. cbn. lia. }
  destruct o as [|d|c]; [by apply Hskip; destruct Ho|by apply Hskip; destruct Ho|]. clear Hskip.
  destruct Ho as (Hsc & Hwait & Hnd & Hpc). rewrite decide_True by done.
  assert (forall cand' def', cand' ++ def' ≡ₚ c :: (cand ++ def) -> exists s' cand'' def'',
    scan_waiting env free n waiting cand' def' s1 = Done (s', (cand'', def'')) /\
    pinned c0 (ad_prefix_cache s') (pins_of (cand'' ++ def'')) /\ plans_ok (cand'' ++ def'') /\
    waiting_form <$> cand'' ++ def'' ≡ₚ (waiting_form <$> cand ++ def) ++ r :: filter (fun r => scannable r = true) waiting) as Hrec.
  { intros cand' def' Hp. destruct (IH cand' def' s1) as (s' & cand'' & def'' & Hrun & Hpin' & Hok' & Hperm).
    - eapply pinned_perm; [|exact (pinned_trans _ _ _ _ _ Hpin Hpc)].
      rewrite (pins_of_perm _ _ Hp), pins_of_cons. apply Permutation_app_comm.
    - unfold plans_ok. rewrite Hp. by constructor.
    - eapply room_le; [|exact Hroom]. rewrite Hp. cbn. lia.
    - exists s', cand'', def''. split_and!; [done..|]. rewrite Hperm, Hp, fmap_cons, Hwait. cbn.
      by rewrite Permutation_middle. }
  destruct (prefix_aware_admission_allows_plan _ _ _); apply Hrec.
  - rewrite <-app_assoc. cbn. by rewrite Permutation_middle.
  - rewrite app_assoc. by rewrite <-Permutation_cons_append.
Qed.

(** *** Priorities *)
Lemma max_priority_spec l m :
  max_priority l = Some m -> (exists c, c ∈ l /\ priority_of c = m) /\ forall c, c ∈ l -> priority_of c <= m.
Proof.
  destruct l as [|c l]; cbn; [done|]. intros [= <-]. induction l as [|d l (IH1 & IH2)]; cbn.
  - split; [exists c; split; [left|done]|]. by intros ? ->%list_elem_of_singleton.
  - split.
    + destruct IH1 as (x & Hx & Hp). destruct (Nat.max_spec (priority_of d) (foldr (fun c m => Nat.max (priority_of c) m) (priority_of c) l)) as [[_ ->]|[_ ->]].
      * exists x. split; [set_solver|done].
      * exists d. split; [set_solver|done].
    + intros x [->|[->|Hx]%elem_of_cons]%elem_of_cons; [|lia|]; [pose proof (IH2 c ltac:(left)); lia|].
      pose proof (IH2 x ltac:(by right)). lia.
Qed.

Lemma max_priority_None l : max_priority l = None <-> l = [].
Proof. by destruct l. Qed.

Lemma position_Some {A} (f : A -> bool) (l : list A) i :
  position f l = Some i -> exists x, l !! i = Some x /\ f x = true.
Proof.
  revert i. induction l as [|x l IH]; intros i; cbn; [done|]. destruct (f x) eqn:E; [intros [= <-]; eauto|].
  destruct (position f l); cbn; [|done]. intros [= <-]. by apply IH.
Qed.

Lemma position_exists {A} (f : A -> bool) (l : list A) x : x ∈ l -> f x = true -> is_Some (position f l).
Proof.
  induction l as [|y l IH]; [set_solver|]. cbn. destruct (f y) eqn:E; [eauto|].
  intros [->|Hin]%elem_of_cons Hf; [congruence|]. destruct (IH Hin Hf) as [i ->]. by eexists.
Qed.

Lemma remove_at_Some {A} i (l : list A) x : l !! i = Some x -> exists rest, remove_at i l = Some (x, rest) /\ l ≡ₚ x :: rest.
Proof.
  intros Hi. exists (take i l ++ drop (S i) l). unfold remove_at. rewrite Hi. split; [done|].
  rewrite <-(take_drop_middle l i x Hi) at 1. by rewrite Permutation_middle.
Qed.

Lemma fail_open_candidate_spec env l :
  l <> [] -> exists i c rest, prefix_aware_fail_open_candidate env l = Some i /\ remove_at i l = Some (c, rest) /\
    l ≡ₚ c :: rest /\ (forall d, d ∈ l -> priority_of d <= priority_of c).
Proof.
  intros Hne. unfold prefix_aware_fail_open_candidate. destruct (max_priority l) as [m|] eqn:Hm; cbn.
  2: { by apply max_priority_None in Hm. }
  destruct (max_priority_spec l m Hm) as ((c & Hc & Hpc) & Hmax).
  assert (forall i x, l !! i = Some x -> priority_of x = m -> exists c rest, remove_at i l = Some (c, rest) /\
    l ≡ₚ c :: rest /\ (forall d, d ∈ l -> priority_of d <= priority_of c)) as Hfin.
  { intros i x Hi Hx. destruct (remove_at_Some i l x Hi) as (rest & Hr & Hp). exists x, rest. rewrite Hx. auto. }
  destruct (position (fun c => bool_decide (priority_of c = m) && _) l) as [i|] eqn:Hp1.
  - destruct (position_Some _ _ _ Hp1) as (x & Hx & [Hpx%bool_decide_eq_true _]%andb_true_iff).
    destruct (Hfin i x Hx Hpx) as (c' & rest & ? & ? & ?). by exists i, c', rest.
  - destruct (position_exists (fun c => bool_decide (priority_of c = m)) l c Hc (bool_decide_eq_true_2 _ Hpc)) as [i Hi].
    rewrite Hi. destruct (position_Some _ _ _ Hi) as (x & Hx & Hpx%bool_decide_eq_true).
    destruct (Hfin i x Hx Hpx) as (c' & rest & ? & ? & ?). by exists i, c', rest.
Qed.

(** No candidate has a lower priority than a request held back. *)
Definition priorities_respected (cand def : list (QueuedAdmissionCandidate P)) : Prop :=
  forall c d, c ∈ cand -> d ∈ def -> priority_of d <= priority_of c.

Lemma defer_below_ok cand def :
  let '(cand', def') := defer_candidates_below_blocked_priority cand def in
  cand' ++ def' ≡ₚ cand ++ def /\ priorities_respected cand' def'.
Proof.
  unfold defer_candidates_below_blocked_priority. destruct (max_priority def) as [m|] eqn:Hm.
  - destruct (max_priority_spec def m Hm) as [_ Hmax]. split.
    + pose proof (filter_app_complement (fun c => priority_of c < m) cand) as Hf.
      rewrite <-Hf at 3. rewrite (Permutation_app_comm def). rewrite app_assoc. apply Permutation_app_tail, Permutation_app_comm.
    + intros c d [Hc _]%list_elem_of_filter [Hd|[Hd _]%list_elem_of_filter]%elem_of_app; [specialize (Hmax d Hd); lia|lia].
  - apply max_priority_None in Hm as ->. split; [done|]. intros c d _ Hd. by apply not_elem_of_nil in Hd.
Qed.

Lemma fail_open_ok env missing : forall cand def,
  priorities_respected cand def ->
  let '(cand', def') := fail_open env missing cand def in
  cand' ++ def' ≡ₚ cand ++ def /\ priorities_respected cand' def' /\ (def' <> [] -> missing + length cand <= length cand').
Proof.
  induction missing as [|missing IH]; intros cand def Hpr; cbn [fail_open]; [split_and!; [done|done|lia]|].
  destruct def as [|d def].
  { cbn. split_and!; done. }
  destruct (fail_open_candidate_spec env (d :: def)) as (i & c & rest & Hi & Hr & Hp & Hmax); [done|].
  rewrite Hi. cbn [mbind option_bind]. rewrite Hr.
  specialize (IH (cand ++ [c]) rest). destruct (fail_open env missing (cand ++ [c]) rest) as [cand' def'].
  destruct IH as (Hp' & Hpr' & Hlen).
  - intros x y Hx Hy. assert (y ∈ d :: def) as Hy' by (rewrite Hp; by right).
    apply elem_of_app in Hx as [Hx| ->%list_elem_of_singleton]; [by apply Hpr|by apply Hmax].
  - split_and!; [|done|].
    + rewrite Hp', Hp, <-app_assoc. done.
    + intros Hne. specialize (Hlen Hne). rewrite length_app in Hlen. cbn in Hlen. lia.
Qed.

Lemma defer_released_ok c0 bias def : forall deferred s m,
  pinned c0 (ad_prefix_cache s) (pins_of def ++ m) -> plans_ok def ->
  exists s', defer_released bias def deferred s = (s', defer_all bias (deferred_of <$> def) deferred) /\
    pinned c0 (ad_prefix_cache s') m.
Proof.
  induction def as [|c def IH]; intros deferred s m Hpin Hok; [by eexists|].
  cbn [defer_released]. apply Forall_cons in Hok as [Hc Hok]. rewrite pins_of_cons, <-app_assoc in Hpin.
  destruct (IH (insert_deferred_waiting_request deferred (deferred_of c) bias) (release_admission_plan (cd_plan c) s) m) as (s' & Hrun & Hp).
  - by apply release_plan_pins.
  - done.
  - by exists s'.
Qed.

Lemma collect_ok env free waiting deferred s :
  wf (ad_prefix_cache s) -> blocks_distinct (ad_prefix_cache s) -> room (ad_prefix_cache s) (S (length waiting)) ->
  exists s' cand def, collect_admission_candidates env free waiting deferred s
      = Done (s', (cand, defer_all AfterEqual (deferred_of <$> def) deferred)) /\
    waiting_form <$> cand ++ def ≡ₚ filter (fun r => scannable r = true) waiting /\
    pinned (ad_prefix_cache s) (ad_prefix_cache s') (pins_of cand) /\ plans_ok cand /\
    priorities_respected cand def /\ (def <> [] -> length free <= length cand).
Proof.
  intros Hwf Hd Hroom. unfold collect_admission_candidates.
  destruct (scan_waiting_ok (ad_prefix_cache s) env free (length waiting) waiting Hwf Hd [] [] s)
    as (s1 & cand & def & -> & Hpin & Hok & Hperm); [apply pinned_refl|constructor|done|]. cbn [mbind res_bind].
  pose proof (defer_below_ok cand def) as Hb. destruct (defer_candidates_below_blocked_priority cand def) as [cand1 def1].
  destruct Hb as [Hp1 Hpr1]. pose proof (fail_open_ok env (length free - length cand1) cand1 def1 Hpr1) as Hf.
  destruct (fail_open env (length free - length cand1) cand1 def1) as [cand2 def2]. destruct Hf as (Hp2 & Hpr2 & Hlen).
  assert (cand2 ++ def2 ≡ₚ cand ++ def) as Hp by by rewrite Hp2.
  assert (plans_ok (cand2 ++ def2)) as Hok2 by (unfold plans_ok; by rewrite Hp).
  apply Forall_app in Hok2 as [Hokc Hokd].
  destruct (defer_released_ok (ad_prefix_cache s) AfterEqual def2 deferred s1 (pins_of cand2)) as (s' & Hrun & Hpin').
  - eapply pinned_perm; [|exact Hpin]. rewrite <-(pins_of_perm _ _ Hp), pins_of_app. apply Permutation_app_comm.
  - done.
  - rewrite Hrun. exists s', cand2, def2. split_and!; [done| |done|done|done|intros Hne; specialize (Hlen Hne); lia].
    by rewrite Hp, Hperm.
Qed.
End collect.

(** ** Assigning slots *)
Section assign.
Context {P : Type}.
Implicit Types (l : list (QueuedAdmissionCandidate P)) (acts : list (@admission_action P)) (v : @assign_vars P).

Definition admission_of (a : @admission_action P) : option (QueuedAdmissionCandidate P * nat) :=
  match a with ActAdmit c slot _ _ => Some (c, slot) | _ => None end.
Definition admissions (l : list (@admission_action P)) : list (QueuedAdmissionCandidate P * nat) := omap admission_of l.

(** A plan whose blocks the request goes on to hold. *)
Definition uses_blocks (c : QueuedAdmissionCandidate P) : bool :=
  negb (bool_decide (attached_prefix_blocks (cd_plan c) = []) && is_none (staged_prefix_plan (cd_plan c))).
Definition used_pins (l : list (@admission_action P)) : list BlockId :=
  pins_of (filter (fun c => uses_blocks c = true) (admissions l).*1).

Lemma admissions_app acts acts' : admissions (acts ++ acts') = admissions acts ++ admissions acts'.
Proof. unfold admissions. by rewrite omap_app. Qed.
Lemma used_pins_app acts acts' : used_pins (acts ++ acts') = used_pins acts ++ used_pins acts'.
Proof. unfold used_pins. by rewrite admissions_app, fmap_app, filter_app, pins_of_app. Qed.

Lemma choose_admission_slot_spec plan free :
  match choose_admission_slot plan free with
  | None => free = []
  | Some (slot, len, cached) => slot ∈ free /\ (0 < len -> reusable plan = Some (slot, len, cached))
  end.
Proof.
  unfold choose_admission_slot. destruct free as [|f free]; [done|].
  destruct (reusable plan) as [[[s len] cached]|]; [|split; [left|lia]].
  case_bool_decide; [done|]. split; [left|lia].
Qed.

Lemma take_slot_perm slot free : slot ∈ free -> free ≡ₚ slot :: take_slot slot free.
Proof.
  intros Hin. unfold take_slot. destruct (position_exists (fun s => bool_decide (s = slot)) free slot Hin) as [i Hi].
  { by apply bool_decide_eq_true_2. }
  rewrite Hi. destruct (position_Some _ _ _ Hi) as (x & Hx & ->%bool_decide_eq_true). by apply delete_Permutation.
Qed.

(** The budget can be asked about the free slots. *)
Definition budget_covers (b : PageBudget) (free : list nat) : Prop :=
  Forall (fun slot => slot < length (planned_seq_lens b)) free.

Lemma can_fit_target_total b slot prompt max reserved :
  slot < length (planned_seq_lens b) -> exists fits, can_reserve_full_isl b slot prompt max reserved = Done fits.
Proof.
  intros Hs. unfold can_reserve_full_isl, can_fit_target, additional_pages_for_target, effective_seq_len.
  destruct (pb_active b); [|by eexists]. cbn. destruct (lookup_lt_is_Some_2 _ _ Hs) as [x Hx].
  rewrite (index_Some _ _ _ Hx). cbn. by eexists.
Qed.

Lemma reserve_target_total b slot prompt max reserved :
  slot < length (planned_seq_lens b) ->
  exists b', reserve_target (estimated_request_target slot prompt max reserved) b = Done b' /\
    length (planned_seq_lens b') = length (planned_seq_lens b).
Proof.
  intros Hs. unfold reserve_target, additional_pages_for_target, effective_seq_len.
  destruct (pb_active b); [|by eexists]. cbn. destruct (lookup_lt_is_Some_2 _ _ Hs) as [x Hx].
  rewrite (index_Some _ _ _ Hx). cbn. eexists. split; [done|]. cbn. by rewrite length_insert.
Qed.

Definition long_count (env : AdmissionEnv) (l : list (@admission_action P)) : nat :=
  length (filter (fun c => candidate_needs_long_prefill_active_limit env c = true) (admissions l).*1).

(** The request as it goes back to the queue. *)
Definition deferred_form (d : DeferredWaitingRequest P) : IncomingRequest P :=
  set_prompt_tokens (Some (df_prompt_tokens d)) (df_incoming d).

(** What the loop keeps: nothing is lost, slots go out once, the references
    are those of the candidates left and of the admitted requests that use
    their blocks, and the limit on long prefills holds. *)
Record assign_inv (c0 : RadixCache) (s : AdmissionState) (env : AdmissionEnv) (limit : option nat) (long0 : nat)
    (free0 : list nat) (all : list (IncomingRequest P)) l v : Prop := mk_assign_inv {
  ai_requests : (waiting_form <$> l ++ (admissions (av_actions v)).*1) ++ (deferred_form <$> av_deferred v) ≡ₚ all;
  ai_slots : free0 ≡ₚ (admissions (av_actions v)).*2 ++ av_free_slots v;
  ai_budget : budget_covers (av_budget v) (av_free_slots v);
  ai_sorted : deferred_sorted (av_deferred v);
  ai_plans : plans_ok l;
  ai_pins : pinned c0 (ad_prefix_cache (foldl apply_release s (av_actions v))) (pins_of l ++ used_pins (av_actions v));
  ai_long : av_long_prefill_active v = long0 + long_count env (av_actions v);
  ai_limit : forall k, limit = Some k -> long_count env (av_actions v) = 0 \/ av_long_prefill_active v <= k;
}.

Lemma assign_inv_perm c0 s env limit long0 free0 all l l' v :
  l ≡ₚ l' -> assign_inv c0 s env limit long0 free0 all l v -> assign_inv c0 s env limit long0 free0 all l' v.
Proof.
  intros Hp [? ? ? ? ? ? ? ?]. split; try done.
  - by rewrite <-Hp.
  - unfold plans_ok. by rewrite <-Hp.
  - eapply pinned_perm; [|done]. by rewrite (pins_of_perm _ _ Hp).
Qed.

(** A candidate that is not placed. *)
Lemma defer_candidate_ok c0 s env limit long0 free0 all c l v :
  assign_inv c0 s env limit long0 free0 all (c :: l) v ->
  assign_inv c0 s env limit long0 free0 all l (defer_candidate c v).
Proof.
  intros [Hreq Hslots Hb Hsort Hok Hpin Hlong Hlim]. apply Forall_cons in Hok as [Hc Hok].
  assert (admissions (av_actions (defer_candidate c v)) = admissions (av_actions v)) as Ha
    by (cbn; by rewrite admissions_app, app_nil_r).
  split; unfold used_pins, long_count in *; try (rewrite Ha; done).
  - rewrite Ha, <-Hreq. cbn [av_deferred defer_candidate].
    rewrite insert_deferred_perm. cbn. by rewrite Permutation_middle.
  - done.
  - by apply insert_deferred_sorted.
  - done.
  - rewrite Ha. cbn [av_actions defer_candidate]. rewrite foldl_app. cbn [foldl apply_release].
    apply release_plan_pins; [done|]. by rewrite app_assoc.
Qed.

Lemma assign_candidate_ok c0 s env limit long0 free0 all c l v :
  assign_inv c0 s env limit long0 free0 all (c :: l) v ->
  exists v', assign_candidate env limit c v = Done v' /\ assign_inv c0 s env limit long0 free0 all l v'.
Proof.
  intros Hinv. pose proof (defer_candidate_ok _ _ _ _ _ _ _ _ _ _ Hinv) as Hdef. unfold assign_candidate.
  set (is_long := candidate_needs_long_prefill_active_limit env c).
  destruct (match limit with Some limit => is_long && bool_decide (limit <= av_long_prefill_active v) | None => false end) eqn:Hover;
    [by eexists|].
  pose proof (choose_admission_slot_spec (cd_plan c) (av_free_slots v)) as Hch.
  destruct (choose_admission_slot (cd_plan c) (av_free_slots v)) as [[[slot len] cached]|]; [|by eexists].
  destruct Hch as [Hin _]. destruct Hinv as [Hreq Hslots Hb Hsort Hok Hpin Hlong Hlim].
  assert (slot < length (planned_seq_lens (av_budget v))) as Hlt by (by apply (proj1 (Forall_forall _ _) Hb)).
  destruct (can_fit_target_total (av_budget v) slot (length (cd_prompt_tokens c)) (in_max_tokens (cd_incoming c))
    (full_isl_reserved_tokens (cd_plan c) len) Hlt) as [fits ->]. cbn [mbind res_bind].
  destruct fits; cbn [negb]; [|by eexists].
  destruct (reserve_target_total (av_budget v) slot (length (cd_prompt_tokens c)) (in_max_tokens (cd_incoming c))
    (full_isl_reserved_tokens (cd_plan c) len) Hlt) as (b' & -> & Hlen). cbn [mbind res_bind].
  pose proof (take_slot_perm slot (av_free_slots v) Hin) as Htake. apply Forall_cons in Hok as [Hc Hok].
  set (releases := bool_decide (attached_prefix_blocks (cd_plan c) = []) && is_none (staged_prefix_plan (cd_plan c))).
  set (new := (if releases then [ActRelease (cd_plan c)] else []) ++ [ActAdmit c slot len cached]).
  assert (admissions new = [(c, slot)]) as Hnew by (unfold new; by destruct releases).
  assert (admissions (av_actions v ++ new) = admissions (av_actions v) ++ [(c, slot)]) as Ha by by rewrite admissions_app, Hnew.
  assert (long_count env (av_actions v ++ new) = long_count env (av_actions v) + if is_long then 1 else 0) as Hlc.
  { unfold long_count. rewrite Ha, fmap_app, filter_app, length_app. f_equal. cbn [fmap list_fmap fst].
    rewrite filter_cons. fold is_long. by destruct is_long. }
  eexists. split; [done|]. split; cbn [av_actions av_deferred av_free_slots av_budget av_long_prefill_active].
  - rewrite Ha, <-Hreq. f_equiv. apply fmap_Permutation. rewrite fmap_app. cbn [fmap list_fmap fst].
    rewrite app_assoc. by rewrite <-Permutation_cons_append.
  - rewrite Ha, fmap_app, <-app_assoc. rewrite Hslots, Htake at 1. done.
  - unfold budget_covers in *. rewrite Htake in Hb. apply Forall_cons in Hb as [_ Hb]. by rewrite Hlen.
  - done.
  - done.
  - rewrite used_pins_app, foldl_app. unfold used_pins at 2. rewrite Hnew. cbn [fmap list_fmap fst].
    rewrite filter_cons. unfold new, uses_blocks. fold releases. rewrite pins_of_cons, <-app_assoc in Hpin.
    destruct releases; cbn [negb app foldl apply_release].
    + rewrite decide_False by done. rewrite app_nil_r. by apply release_plan_pins.
    + rewrite decide_True by done. eapply pinned_perm; [|exact Hpin]. rewrite pins_of_cons.
      change (pins_of (filter _ [])) with (@nil BlockId). rewrite app_nil_r.
      by rewrite (Permutation_app_comm (radix_blocks _)), <-app_assoc.
  - rewrite Hlc, Hlong. destruct is_long; lia.
  - intros k ->. rewrite Hlc. destruct (Hlim k eq_refl) as [Hz|Hle]; destruct is_long; cbn in Hover;
      rewrite ?bool_decide_eq_false in Hover; lia.
Qed.

Lemma choose_affinity_Some l : l <> [] -> exists i c rest, choose_session_affinity_candidate l = Some i /\
  remove_at i l = Some (c, rest) /\ l ≡ₚ c :: rest.
Proof.
  intros Hne. unfold choose_session_affinity_candidate. destruct l as [|c l]; [done|]. cbn [head mbind option_bind].
  destruct (position _ (c :: l)) as [i|] eqn:Hp.
  - destruct (position_Some _ _ _ Hp) as (x & Hx & _). destruct (remove_at_Some i _ x Hx) as (rest & Hr & Hperm). eauto 10.
  - destruct (remove_at_Some 0 (c :: l) c eq_refl) as (rest & Hr & Hperm). eauto 10.
Qed.

Lemma assign_candidates_ok c0 s env limit long0 free0 all fuel : forall l v,
  length l <= fuel -> assign_inv c0 s env limit long0 free0 all l v ->
  exists v', assign_candidates env limit fuel l v = Done v' /\ assign_inv c0 s env limit long0 free0 all [] v'.
Proof.
  induction fuel as [|fuel IH]; intros l v Hf Hinv; cbn [assign_candidates].
  { destruct l; [by eexists|]. cbn in Hf. lia. }
  destruct (decide (l = [])) as [->|Hne]; [cbn; by eexists|].
  destruct (choose_affinity_Some l Hne) as (i & c & rest & -> & Hr & Hp). rewrite Hr. cbn [expect mbind res_bind].
  destruct (assign_candidate_ok c0 s env limit long0 free0 all c rest v) as (v' & -> & Hinv').
  { by eapply assign_inv_perm. }
  cbn [mbind res_bind]. apply IH; [|done]. rewrite Hp in Hf. cbn in Hf. lia.
Qed.

(** The loop of a pass, on the free slots. *)
Lemma place_waiting_ok env free budget long0 (waiting : list (IncomingRequest P)) s :
  wf (ad_prefix_cache s) -> blocks_distinct (ad_prefix_cache s) -> room (ad_prefix_cache s) (S (length waiting)) ->
  NoDup free -> budget_covers budget free ->
  exists s' acts waiting', place_waiting env free budget long0 waiting s = Done (s', (acts, waiting')) /\
    (waiting_form <$> (admissions acts).*1) ++ waiting' ≡ₚ filter (fun r => scannable r = true) waiting /\
    NoDup (admissions acts).*2 /\ (forall slot, slot ∈ (admissions acts).*2 -> slot ∈ free) /\
    waiting_sorted waiting' /\
    pinned (ad_prefix_cache s) (ad_prefix_cache s') (used_pins acts) /\
    (forall k, resolved_long_prefill_active_limit (N.to_nat (SchedulerConfig.max_slots (en_config env)))
        (N.to_nat <$> SchedulerConfig.long_prefill_active_limit (en_config env)) = Some k ->
      long_count env acts = 0 \/ long0 + long_count env acts <= k).
Proof.
  intros Hwf Hd Hroom Hnd Hb. unfold place_waiting.
  destruct (collect_ok env free waiting [] s Hwf Hd Hroom) as (s1 & cand & def & -> & Hperm & Hpin & Hok & _). cbn [mbind res_bind].
  set (limit := resolved_long_prefill_active_limit _ _).
  destruct (assign_candidates_ok (ad_prefix_cache s) s1 env limit long0 free
    (filter (fun r => scannable r = true) waiting) (length cand) cand
    (mkAssignVars budget free long0 (defer_all AfterEqual (deferred_of <$> def) []) [])) as (v & -> & Hinv).
  - done.
  - split; cbn [av_actions av_deferred av_free_slots av_budget av_long_prefill_active]; try done.
    + rewrite <-Hperm. rewrite defer_all_perm. cbn. rewrite app_nil_r, fmap_app. f_equiv.
      rewrite <-list_fmap_compose. done.
    + apply defer_all_sorted. constructor.
    + unfold used_pins. cbn. by rewrite app_nil_r.
    + intros k _. by left.
  - cbn [mbind res_bind]. destruct Hinv as [Hreq Hslots _ Hsort _ Hpins Hlong Hlim]. eexists _, _, _. split; [done|].
    split_and!.
    + rewrite <-Hreq. cbn [app]. by rewrite restore_deferred_eq.
    + rewrite Hslots in Hnd. by apply NoDup_app in Hnd as [Hnd _].
    + intros slot Hin. rewrite Hslots. apply elem_of_app. by left.
    + by apply restore_deferred_sorted.
    + done.
    + intros k Hk. destruct (Hlim k Hk) as [?|?]; [by left|right; lia].
Qed.
Lemma free_slots_elem active slot : slot ∈ free_slots active <-> active !! slot = Some None.
Proof.
  unfold free_slots. rewrite list_elem_of_filter, elem_of_seq. split; [intros [Hs _]; by repeat case_match|].
  intros Hs. rewrite Hs. split; [done|]. pose proof (lookup_lt_Some _ _ _ Hs). lia.
Qed.

Lemma free_slots_NoDup active : NoDup (free_slots active).
Proof. apply NoDup_filter, NoDup_seq. Qed.

Lemma reserve_active_total active : forall slot b, slot + length active <= length (planned_seq_lens b) ->
  exists b', reserve_active slot active b = Done b' /\ length (planned_seq_lens b') = length (planned_seq_lens b).
Proof.
  induction active as [|[a|] active IH]; intros slot b Hb; cbn in *; [by eexists| |apply IH; lia].
  case_match; [apply IH; lia|].
  destruct (reserve_target_total b slot (as_prompt_len a) (as_max_tokens a) (as_reusable_prefix_len a)) as (b' & -> & Hl); [lia|].
  cbn. rewrite <-Hl. apply IH. lia.
Qed.

(** C14: an admission pass. On a well-formed cache, with a budget that knows
    every slot, it returns; every request of the queue that can run is
    admitted or back in the queue, never both and never lost, with its tokens;
    admitted requests get different slots, all of them free, and after a
    prefill ran out of memory at most one does, and none while the GPU is
    busy; the queue is ordered by priority; the references of the tree are
    those before the pass and those of the admitted requests that use the
    blocks of their plans, all others having been given back; and with the
    long prefills that run those admitted stay within the configured limit. *)
Theorem assign_slots_spec env active cooldown busy budget (waiting : list (IncomingRequest P)) s :
  wf (ad_prefix_cache s) -> blocks_distinct (ad_prefix_cache s) -> room (ad_prefix_cache s) (S (length waiting)) ->
  length active <= length (planned_seq_lens budget) ->
  exists s' acts waiting', assign_slots env active cooldown busy budget waiting s = Done (s', (acts, waiting')) /\
    (if cooldown && busy then acts = [] /\ waiting' = waiting /\ s' = s
     else
       (waiting_form <$> (admissions acts).*1) ++ waiting' ≡ₚ filter (fun r => scannable r = true) waiting /\
       waiting_sorted waiting') /\
    NoDup (admissions acts).*2 /\ (forall slot, slot ∈ (admissions acts).*2 -> active !! slot = Some None) /\
    (cooldown = true -> length (admissions acts) <= 1) /\
    pinned (ad_prefix_cache s) (ad_prefix_cache s') (used_pins acts) /\
    (forall k, resolved_long_prefill_active_limit (N.to_nat (SchedulerConfig.max_slots (en_config env)))
        (N.to_nat <$> SchedulerConfig.long_prefill_active_limit (en_config env)) = Some k ->
      long_count env acts = 0 \/ long_prefill_active_admission_count env active + long_count env acts <= k).
Proof.
  intros Hwf Hd Hroom Hlen. unfold assign_slots. case_bool_decide as Hw.
  { subst waiting. eexists s, [], []. split; [done|]. cbn. split_and!;
      [destruct (_ && _); [done|split; [done|constructor]]|constructor|set_solver|lia|apply pinned_refl|by left]. }
  destruct (admission_slots cooldown busy (free_slots active)) as [available|] eqn:Hav.
  2: { unfold admission_slots in Hav. destruct cooldown, busy; try done. eexists s, [], waiting. split; [done|]. cbn.
       split_and!; [done..|constructor|set_solver|lia|apply pinned_refl|by left]. }
  assert (available `sublist_of` free_slots active /\ (cooldown = true -> length available <= 1) /\ cooldown && busy = false)
    as (Hsub & Hone & ->).
  { unfold admission_slots in Hav. destruct cooldown, busy; simplify_eq; split_and!;
      first [done|apply sublist_take|intros; rewrite length_take; lia]. }
  destruct (reserve_active_total active 0 budget) as (b & -> & Hb); [lia|]. cbn [mbind res_bind].
  destruct (place_waiting_ok env available b (long_prefill_active_admission_count env active) waiting s Hwf Hd Hroom)
    as (s' & acts & waiting' & -> & Hreq & Hnd & Hfree & Hsort & Hpin & Hlong).
  { eapply sublist_NoDup; [apply free_slots_NoDup|done]. }
  { apply Forall_forall. intros slot Hin. assert (slot ∈ free_slots active) as Hf by (by eapply elem_of_sublist).
    apply free_slots_elem, lookup_lt_Some in Hf. lia. }
  assert (forall slot, slot ∈ (admissions acts).*2 -> slot ∈ available) as Hav' by done.
  exists s', acts, waiting'. split_and!; try done.
  - intros slot Hin%Hfree. apply free_slots_elem. by eapply elem_of_sublist.
  - intros Hc. specialize (Hone Hc). pose proof (submseteq_length _ _ (NoDup_submseteq _ _ Hnd Hav')) as Hl.
    rewrite length_fmap in Hl. lia.
Qed.
End assign.

(** ** What an admitted request gives back *)

(** The blocks a lookup pinned and reported as misses: those on the path that
    are pending or being evicted. *)
Definition missed_blocks (o : LookupOutcome) : list BlockId :=
  omap lb_block_id (filter (fun b => is_miss (lb_hit_kind b) = true) (lo_blocks o)).

Lemma matched_sealed_app l1 l2 :
  matched_sealed_lookup_blocks (l1 ++ l2) = matched_sealed_lookup_blocks l1 + matched_sealed_lookup_blocks l2.
Proof. unfold matched_sealed_lookup_blocks. by rewrite filter_app, length_app. Qed.

Lemma matched_sealed_all l : Forall (fun b => is_miss (lb_hit_kind b) = false) l -> matched_sealed_lookup_blocks l = length l.
Proof.
  unfold matched_sealed_lookup_blocks. induction 1 as [|b l Hb _ IH]; [done|]. rewrite filter_cons, decide_True by done.
  cbn. by rewrite IH.
Qed.

(** When as many blocks are usable as the front part has, the rest are
    misses. *)
Lemma unusable_rest l : matched_sealed_lookup_blocks l = 0 -> filter (fun b => is_miss (lb_hit_kind b) = true) l = l.
Proof.
  unfold matched_sealed_lookup_blocks. induction l as [|b l IH]; [done|]. rewrite !filter_cons.
  destruct (is_miss (lb_hit_kind b)); cbn; [|done]. intros Hz. by rewrite IH.
Qed.

Lemma usable_front l : Forall (fun b => is_miss (lb_hit_kind b) = false) l -> filter (fun b => is_miss (lb_hit_kind b) = true) l = [].
Proof. induction 1 as [|b l Hb _ IH]; [done|]. rewrite filter_cons, Hb. by rewrite decide_False. Qed.

Lemma full_sealed_count bs matched n k :
  0 < bs -> 0 < k -> matched = bs * k ->
  bool_decide (matched = 0) || is_full_sealed_prefix matched bs n = true -> n = k.
Proof.
  unfold is_full_sealed_prefix, sealed_block_token_count. intros Hbs Hk ->. rewrite orb_true_iff, !bool_decide_eq_true. nia.
Qed.

Lemma attached_are_all env c free lookup resume hold :
  0 < block_size c ->
  let plan := plan_of_lookup env c free lookup resume hold in
  direct_gpu_attach plan = true -> lookup_block_ids lookup = attached_prefix_blocks plan ++ missed_blocks lookup.
Proof.
  intros Hbs plan Hd. pose proof Hd as Hd'. unfold plan, plan_of_lookup in Hd |- *.
  cbn [direct_gpu_attach attached_prefix_blocks] in *. rewrite Hd.
  rewrite !andb_true_iff, !negb_true_iff, !bool_decide_eq_false, bool_decide_eq_true in Hd.
  destruct Hd as (((((_ & Hsealed) & _) & Hne) & (_ & Hm)) & _).
  destruct (gpu_ready_prefix_spec (lo_blocks lookup)) as (rest & Hl & Hall & _).
  set (front := gpu_ready_prefix (lo_blocks lookup)) in *. unfold sealed_block_token_count in Hm.
  assert (Forall (fun b => is_miss (lb_hit_kind b) = false) front) as Hfm by (eapply Forall_impl; [exact Hall|]; by intros ? ->).
  assert (0 < length (omap lb_block_id front)) as Hpos by (destruct (omap lb_block_id front); cbn; [done|lia]).
  pose proof (full_sealed_count _ _ _ _ Hbs Hpos (eq_sym Hm) Hsealed) as Hn.
  rewrite Hl, matched_sealed_app, (matched_sealed_all front) in Hn by done.
  pose proof (omap_length_le lb_block_id front). unfold lookup_block_ids, missed_blocks. rewrite Hl, omap_app, filter_app.
  by rewrite (usable_front front), (unusable_rest rest) by (done || lia).
Qed.

Lemma staged_are_all env c free lookup resume hold staged :
  0 < block_size c ->
  staged_prefix_plan (plan_of_lookup env c free lookup resume hold) = Some staged ->
  lookup_block_ids lookup = plan_block_ids staged ++ missed_blocks lookup.
Proof.
  intros Hbs Hs. cbn [plan_of_lookup staged_prefix_plan] in Hs. case_match eqn:Hcond; [|done].
  rewrite !andb_true_iff in Hcond. destruct Hcond as ((((_ & Hsealed) & _) & _) & _).
  destruct (build_staged_prefix_plan_Some c lookup staged Hs) as (Hm & Hm' & Hne & used & rest & Hl & Hids & Hall & _).
  assert (length used = length (rp_blocks staged)) as Hlen.
  { apply (f_equal length) in Hids. unfold plan_block_ids in Hids. by rewrite !length_fmap in Hids. }
  assert (0 < length (rp_blocks staged)) as Hpos by (destruct (rp_blocks staged); cbn; [done|lia]).
  rewrite Hm in Hm'. pose proof (full_sealed_count _ _ _ _ Hbs Hpos Hm' Hsealed) as Hn.
  rewrite Hl, matched_sealed_app, (matched_sealed_all used Hall), Hlen in Hn.
  unfold lookup_block_ids, missed_blocks. rewrite Hl, omap_app, filter_app.
  rewrite (usable_front used), (unusable_rest rest) by (done || lia). cbn [app]. f_equal.
  clear -Hids. revert Hids. generalize (plan_block_ids staged) as ids. induction used as [|b used IH]; intros ids.
  - by destruct ids.
  - destruct ids as [|i ids]; [done|]. cbn. intros [= -> Hids]. by rewrite (IH ids Hids).
Qed.

Lemma build_plan_shape env tokens sid free s s' plan :
  build_prefix_admission_plan env tokens sid free s = Done (s', plan) ->
  plan = cold_prefix_admission_plan \/
  exists lookup resume hold, plan = plan_of_lookup env (ad_prefix_cache s') free lookup resume hold.
Proof.
  unfold build_prefix_admission_plan. destruct (negb _); [intros [= _ <-]; by left|].
  destruct (_ && _); [intros [= _ <-]; by left|].
  destruct (first_lookup tokens sid s) as [[s1 [lookup hold]]| |]; cbn; [|done..].
  destruct (resume_lookup tokens sid lookup hold s1) as [[s2 [lookup' resume]]| |]; cbn; [|done..].
  intros [= <- <-]. right. by exists lookup', resume, hold.
Qed.

(** C28: a plan uses what was found in one way, and when. Blocks are attached
    only when the model allows it, recomputing is not advised, and they are the
    blocks on the GPU the lookup begins with, which cover exactly the matched
    tokens; they are fetched only when some are below the GPU, and then the
    plan lists the usable blocks of the lookup in order, again for exactly the
    matched tokens; otherwise they are reused in place only in a free slot that
    owns one of them and has materialised the prompt up to it, for at most the
    matched tokens. Never two of these at once, none when recomputing is
    advised, and what a plan counts on is at most what was matched. Conversely,
    when recomputing is not advised and the usable blocks cover exactly the
    matched tokens: they are attached if the model allows it and all are on the
    GPU; fetched if it allows it and some are below and every block has a
    source; and without cross-slot attachment, with all on the GPU, they are
    reused in place up to any block that a free slot owns and has materialised,
    or further. *)
Theorem admission_plan_spec env tokens sid free s s' plan :
  build_prefix_admission_plan env tokens sid free s = Done (s', plan) ->
  let c := ad_prefix_cache s' in
  let lookup := pl_lookup plan in
  let gpu := omap lb_block_id (gpu_ready_prefix (lo_blocks lookup)) in
  let usable := matched_sealed_lookup_blocks (lo_blocks lookup) in
  ((direct_gpu_attach plan = true ->
     en_supports_cross_slot_prefix_attach env = true /\ reusable plan = None /\ staged_prefix_plan plan = None /\
     attached_prefix_blocks plan <> [] /\
     lo_matched_len lookup = block_size c * length (attached_prefix_blocks plan) /\
     attached_prefix_blocks plan = gpu) /\
   (direct_gpu_attach plan = false -> attached_prefix_blocks plan = []) /\
   (forall staged, staged_prefix_plan plan = Some staged ->
     en_supports_cross_slot_prefix_attach env = true /\ direct_gpu_attach plan = false /\ reusable plan = None /\
     rp_matched_len staged = lo_matched_len lookup /\ rp_matched_len staged = block_size c * length (rp_blocks staged) /\
     rp_blocks staged <> [] /\ existsb (fun b => is_staged (lb_hit_kind b)) (lo_blocks lookup) = true /\
     exists used rest, lo_blocks lookup = used ++ rest /\ lb_block_id <$> used = Some <$> plan_block_ids staged) /\
   (forall slot len cached, reusable plan = Some (slot, len, cached) ->
     direct_gpu_attach plan = false /\ staged_prefix_plan plan = None /\ slot ∈ free /\
     0 < len /\ len <= lo_matched_len lookup /\ (block_size c | len) /\
     cached = default 0 (en_slot_materialized_prompt_lens env !! slot) /\ len <= cached /\
     exists idx b, gpu !! idx = Some b /\
       len = (idx + 1) * block_size c /\ en_block_owner_slots env !! b = Some slot) /\
   (lo_recompute_advised lookup = true ->
     direct_gpu_attach plan = false /\ staged_prefix_plan plan = None /\ reusable plan = None) /\
   prefix_aware_reusable_prefix_tokens plan <= lo_matched_len lookup) /\
  (lo_recompute_advised lookup = false -> 0 < usable -> lo_matched_len lookup = block_size c * usable ->
   (en_supports_cross_slot_prefix_attach env = true -> lookup_blocks_ready_on_gpu (lo_blocks lookup) = true ->
      length gpu = usable -> direct_gpu_attach plan = true) /\
   (forall p, en_supports_cross_slot_prefix_attach env = true -> lookup_blocks_ready_on_gpu (lo_blocks lookup) = false ->
      existsb (fun b => is_staged (lb_hit_kind b)) (lo_blocks lookup) = true -> build_staged_prefix_plan c lookup = Some p ->
      staged_prefix_plan plan = Some p) /\
   (forall idx b slot, en_supports_cross_slot_prefix_attach env = false -> lookup_blocks_ready_on_gpu (lo_blocks lookup) = true ->
      length gpu = usable -> gpu !! idx = Some b -> en_block_owner_slots env !! b = Some slot -> slot ∈ free ->
      (idx + 1) * block_size c <= default 0 (en_slot_materialized_prompt_lens env !! slot) -> 0 < block_size c ->
      exists slot' len cached, reusable plan = Some (slot', len, cached) /\ (idx + 1) * block_size c <= len)).
Proof.
  intros [->|(lookup & resume & hold & ->)]%build_plan_shape.
  - split; [by split_and!|]. cbn. lia.
  - split; [apply plan_of_lookup_uses|apply plan_of_lookup_when].
Qed.

(** The plan is not used: no block is attached, none is fetched. *)
Definition plan_unused (plan : PrefixAdmissionPlan) : bool :=
  bool_decide (attached_prefix_blocks plan = []) && is_none (staged_prefix_plan plan).

(** What a plan that is used pinned and does not count among its blocks. *)
Definition left_pinned (plan : PrefixAdmissionPlan) : list BlockId :=
  if plan_unused plan || is_some (session_slot_hold plan) then [] else missed_blocks (pl_lookup plan).

(** The blocks of the tree a request holds are those its plan pinned, but for
    the misses, if it uses them, and none if it does not. *)
Lemma held_blocks_are_pinned env c free lookup resume hold :
  0 < block_size c ->
  let plan := plan_of_lookup env c free lookup resume hold in
  if plan_unused plan then held_radix_prefix_blocks (admitted_prefix plan) = []
  else radix_blocks plan = held_radix_prefix_blocks (admitted_prefix plan) ++ left_pinned plan.
Proof.
  intros Hbs plan. destruct (plan_of_lookup_uses env c free lookup resume hold) as (Hatt & Hnoatt & Hstaged & _).
  fold plan in Hatt, Hnoatt, Hstaged. unfold held_radix_prefix_blocks, held_prefix_blocks, left_pinned.
  destruct (plan_unused plan) eqn:Hun; unfold plan_unused in Hun;
    cbn [admitted_prefix hp_attached_prefix_blocks hp_staged_prefix hp_session_slot_hold orb].
  - apply andb_true_iff in Hun as [Ha%bool_decide_eq_true_1 Hs]. rewrite Ha.
    destruct (staged_prefix_plan plan); [done|]. by destruct (is_some _).
  - change (session_slot_hold plan) with hold. change (pl_lookup plan) with lookup.
    change (radix_blocks plan) with (match hold with Some _ => [] | None => lookup_block_ids lookup end).
    destruct hold as [h|]; cbn [is_some is_none negb]; [done|].
    destruct (staged_prefix_plan plan) as [staged|] eqn:Hst; cbn [is_none].
    + destruct (Hstaged staged eq_refl) as (_ & Hnd & _). rewrite (Hnoatt Hnd). cbn [app].
      by apply (staged_are_all env c free lookup resume None).
    + rewrite app_nil_r. rewrite andb_true_r in Hun. destruct (direct_gpu_attach plan) eqn:Hd.
      * by apply attached_are_all.
      * rewrite (Hnoatt eq_refl) in Hun. by rewrite bool_decide_eq_true_2 in Hun.
Qed.

