(* ===== verification/PageCache.v ===== *)
(** * The prefix cache over the KV pool

    Models the part of [infer/src/scheduler/cuda/core.rs] that keeps the pages
    of finished prompts: publication into the radix cache, attachment to other
    slots, demotion to pinned host memory, write-back to the store, eviction
    under pressure and promotion of staged prefixes ([runtime/admission.rs]),
    with the helpers of [core/helpers.rs] and [budget.rs] they use, and the
    store events of [runtime/fetch.rs].

    One record holds what the methods change; what they only read is an
    environment. Log lines and timers are left out. *)

From S2P Require Import Prelude Lists Bytes Tier Policy RadixTypes RadixInsert RadixEvict RadixMeta HostArena HostPool CoordinatorControl Fingerprint Readmission SessionSlots CoordinatorQueue KvFormat PagedKv PagedKvHost PageBudget.
From S2P Require SchedulerConfig Admission.


(** ** The write-back client of the coordinator

    Its handle, as the scheduler uses it: the counters, and the submission of
    a batch, with the ticket when it was taken. *)
Class CoordinatorHandle (Q : Type) := mkCoordinatorHandle {
  coordinator_stats : Q -> CoordinatorQueueStats;
  submit_store : list StoreRequest -> Q -> Q * option N;
}.

(** A submission without interleaving: the three steps of one client. *)
#[export] Instance queues_handle : CoordinatorHandle Queues := {
  coordinator_stats q := stats (control q);
  submit_store blocks q :=
    if bool_decide (blocks = []) then (q, None)
    else
      let sent := try_send_ticket 0 (mint (StoreBatch blocks) q) in
      if bool_decide (length (channel q) < length (channel sent)) then (account 0 sent, Some (next_ticket q))
      else (sent, None)
}.

#[export] Instance StoreTarget_eq_dec : EqDecision StoreTarget.
Proof. solve_decision. Defined.
#[export] Instance StoreTarget_countable : Countable StoreTarget.
Proof.
  refine (inj_countable' (fun t => match t with TargetDisk => true | TargetRemote => false end)
    (fun b : bool => if b then TargetDisk else TargetRemote) _). by intros [].
Defined.

(** [StoreDedupKey]. *)
Definition StoreDedupKey : Type := BlockFingerprint * StoreTarget.

(** ** State *)

(** Which pages a cached block has, and which slot materialized it. *)
Record PageTables := mkPageTables {
  block_to_pages : gmap BlockId (list nat);
  block_owner_slots : gmap BlockId nat;
  slot_owned_blocks : list (list BlockId);
  slot_materialized_prompt_lens : list nat;
  next_tier_block_id : N;
}.

(** The write-backs under way. *)
Record StoreTables := mkStoreTables {
  store_waiting : gmap N (list (BlockId * HostPinnedRegion));
  store_dedupe : gmap StoreDedupKey N;
  store_ticket_keys : gmap N StoreDedupKey;
}.

Record PageCache (Q : Type) := mkPageCache {
  pc_cache : RadixCache;
  pc_pool : TokenKVPool;
  pc_host : SharedHostPinnedPool;
  pc_sessions : SessionTable;
  pc_tables : PageTables;
  host_leaf_headroom_exhausted : bool;
  pc_stores : StoreTables;
  pc_coordinator : Q;
  deleted_disk_blocks : list BlockFingerprint;
}.
Arguments mkPageCache {Q} _ _ _ _ _ _ _ _ _.
Arguments pc_cache {Q} _.
Arguments pc_pool {Q} _.
Arguments pc_host {Q} _.
Arguments pc_sessions {Q} _.
Arguments pc_tables {Q} _.
Arguments host_leaf_headroom_exhausted {Q} _.
Arguments pc_stores {Q} _.
Arguments pc_coordinator {Q} _.
Arguments deleted_disk_blocks {Q} _.

Definition set_block_to_pages (x : gmap BlockId (list nat)) (t : PageTables) : PageTables :=
  mkPageTables x (block_owner_slots t) (slot_owned_blocks t) (slot_materialized_prompt_lens t) (next_tier_block_id t).
Definition set_block_owner_slots (x : gmap BlockId nat) (t : PageTables) : PageTables :=
  mkPageTables (block_to_pages t) x (slot_owned_blocks t) (slot_materialized_prompt_lens t) (next_tier_block_id t).
Definition set_slot_owned_blocks (x : list (list BlockId)) (t : PageTables) : PageTables :=
  mkPageTables (block_to_pages t) (block_owner_slots t) x (slot_materialized_prompt_lens t) (next_tier_block_id t).
Definition set_materialized (x : list nat) (t : PageTables) : PageTables :=
  mkPageTables (block_to_pages t) (block_owner_slots t) (slot_owned_blocks t) x (next_tier_block_id t).
Definition set_next_tier_block_id (x : N) (t : PageTables) : PageTables :=
  mkPageTables (block_to_pages t) (block_owner_slots t) (slot_owned_blocks t) (slot_materialized_prompt_lens t) x.

Section setters.
Context {Q : Type}.
Implicit Types (s : PageCache Q).
Definition set_pc_cache (x : RadixCache) s : PageCache Q :=
  mkPageCache x (pc_pool s) (pc_host s) (pc_sessions s) (pc_tables s) (host_leaf_headroom_exhausted s) (pc_stores s)
    (pc_coordinator s) (deleted_disk_blocks s).
Definition set_pc_pool (x : TokenKVPool) s : PageCache Q :=
  mkPageCache (pc_cache s) x (pc_host s) (pc_sessions s) (pc_tables s) (host_leaf_headroom_exhausted s) (pc_stores s)
    (pc_coordinator s) (deleted_disk_blocks s).
Definition set_pc_host (x : SharedHostPinnedPool) s : PageCache Q :=
  mkPageCache (pc_cache s) (pc_pool s) x (pc_sessions s) (pc_tables s) (host_leaf_headroom_exhausted s) (pc_stores s)
    (pc_coordinator s) (deleted_disk_blocks s).
Definition set_pc_sessions (x : SessionTable) s : PageCache Q :=
  mkPageCache (pc_cache s) (pc_pool s) (pc_host s) x (pc_tables s) (host_leaf_headroom_exhausted s) (pc_stores s)
    (pc_coordinator s) (deleted_disk_blocks s).
Definition set_pc_tables (x : PageTables) s : PageCache Q :=
  mkPageCache (pc_cache s) (pc_pool s) (pc_host s) (pc_sessions s) x (host_leaf_headroom_exhausted s) (pc_stores s)
    (pc_coordinator s) (deleted_disk_blocks s).
Definition set_exhausted (x : bool) s : PageCache Q :=
  mkPageCache (pc_cache s) (pc_pool s) (pc_host s) (pc_sessions s) (pc_tables s) x (pc_stores s)
    (pc_coordinator s) (deleted_disk_blocks s).
Definition set_pc_stores (x : StoreTables) s : PageCache Q :=
  mkPageCache (pc_cache s) (pc_pool s) (pc_host s) (pc_sessions s) (pc_tables s) (host_leaf_headroom_exhausted s) x
    (pc_coordinator s) (deleted_disk_blocks s).
Definition set_pc_coordinator (x : Q) s : PageCache Q :=
  mkPageCache (pc_cache s) (pc_pool s) (pc_host s) (pc_sessions s) (pc_tables s) (host_leaf_headroom_exhausted s)
    (pc_stores s) x (deleted_disk_blocks s).
Definition set_deleted (x : list BlockFingerprint) s : PageCache Q :=
  mkPageCache (pc_cache s) (pc_pool s) (pc_host s) (pc_sessions s) (pc_tables s) (host_leaf_headroom_exhausted s)
    (pc_stores s) (pc_coordinator s) x.
End setters.

(** [TieredKvPolicy] of [scheduler/cuda/policy.rs]. *)
Inductive PrefetchPolicy := BestEffort | WaitComplete.
Inductive WritePolicy := WriteThrough | WriteThroughSelective.
Record TieredKvPolicy := mkTieredKvPolicy {
  fetch_soft_limit : f64;
  store_soft_limit : f64;
  remote_store_min_hits : N;
  prefetch_policy : PrefetchPolicy;
  write_policy : WritePolicy;
}.
Definition TieredKvPolicy_default : TieredKvPolicy :=
  mkTieredKvPolicy (f64_ratio 3 4) (f64_ratio 3 4) 2 BestEffort WriteThroughSelective.
Definition allow_prefetch (p : TieredKvPolicy) (queue : QueueControlStats) : bool :=
  match prefetch_policy p with BestEffort => negb (soft_saturated queue (fetch_soft_limit p)) | WaitComplete => true end.
Definition allow_store (p : TieredKvPolicy) (queue : QueueControlStats) : bool :=
  negb (soft_saturated queue (store_soft_limit p)).
Definition choose_store_target (p : TieredKvPolicy) (metadata : BlockMetadata) (stats : CoordinatorQueueStats)
    (cluster_backend_ready : bool) : StoreTarget :=
  if negb cluster_backend_ready then TargetDisk
  else match write_policy p with
  | WriteThrough => TargetRemote
  | WriteThroughSelective =>
      if (remote_store_min_hits p <=? md_hit_count metadata)%N && allow_store p (cs_store stats) then TargetRemote else TargetDisk
  end.

(** What the methods read besides: the configuration, the model's fingerprint,
    the identity of the host pool, whether a shared backend is configured, the
    waiting requests (prompt length if tokenized, and [max_tokens]), free slots,
    running requests and the number of fetch waiters. *)
Record PageEnv := mkPageEnv {
  pe_config : SchedulerConfig.SchedulerConfig;
  pe_tier_policy : TieredKvPolicy;
  pe_model_fingerprint : list N;
  pe_host_pool : PoolRef;
  pe_cluster_shared_backend : bool;
  pe_waiting : list (option nat * nat);
  pe_free_slots : nat;
  pe_running : nat;
  pe_fetch_waiters : N;
}.

Inductive cache_error :=
  | PagedPool (e : PagedKv.pool_error)
  | HostPinned_ (e : HostPool.pool_error)
  | MissingPageSpan (block : BlockId)
  | PrefixOverrun (token_count sealed_prefix_tokens : nat)
  | NoLeafHeadroom (block : BlockId) (bytes : N)
  | HostPoolExhausted (block : BlockId) (bytes : N)
  | BlockIdsExhausted
  | RetagFailed (old new : BlockId)
  | InvalidStagedPrefix
  | MissingStaging (block : BlockId)
  | RemapIncomplete (inserted expected : nat).

(** ** Watermarks ([core/helpers.rs], [budget.rs]) *)

(** [(n as f64 * fraction) as usize]. *)
Definition fraction_of (n : N) (fraction : f64) : N := floor_as_usize (SFmul 53 1024 (f64_of_N n) fraction).

Definition prefix_cache_retain_hard_cap_pages (total_pages : nat) (cap_fraction : f64) : nat :=
  N.to_nat (fraction_of (N.of_nat total_pages) cap_fraction).
Definition watermark_bytes (capacity_bytes : N) (fraction : f64) : N := fraction_of capacity_bytes fraction.

Definition host_spill_target_bytes (reserved_bytes capacity_bytes : N) (high_water low_water : f64)
    (intent : BlockSelectionIntent) : N :=
  let low_water_bytes := watermark_bytes capacity_bytes low_water in
  match intent with
  | Evict => 0
  | Spill => if (reserved_bytes <? watermark_bytes capacity_bytes high_water)%N then 0 else reserved_bytes - low_water_bytes
  | Drain => reserved_bytes - low_water_bytes
  end%N.

Definition can_publish_prefix_pages_without_watermark_pressure (retained_pages total_pages new_pages : nat)
    (cap_fraction high_water_fraction : f64) : bool :=
  let high_water_pages := N.to_nat (fraction_of (N.of_nat total_pages) high_water_fraction) in
  bool_decide (retained_pages + new_pages <= Nat.min high_water_pages (prefix_cache_retain_hard_cap_pages total_pages cap_fraction)).

Fixpoint shortage_loop (window page_size : nat) (waiting : list (option nat * nat)) (requested considered : nat) : nat :=
  match waiting with
  | [] => requested
  | (None, _) :: waiting => shortage_loop window page_size waiting requested considered
  | (Some prompt_tokens, max_tokens) :: waiting =>
      let requested := requested + estimated_request_pages prompt_tokens max_tokens page_size in
      if bool_decide (window <= considered + 1) then requested
      else shortage_loop window page_size waiting requested (considered + 1)
  end.
Definition waiting_admission_shortage_pages (free_pages page_size free_slots waiting_requests : nat)
    (waiting : list (option nat * nat)) : nat :=
  if bool_decide (free_slots = 0 /\ waiting_requests = 0) then 0
  else shortage_loop (Nat.max free_slots waiting_requests) page_size waiting 0 0 - free_pages.

Definition prefix_cache_reclaim_goal_pages (retained high low waiting_shortage : nat) : nat :=
  let watermark_goal := if bool_decide (high < retained) then retained - low else 0 in
  Nat.min (Nat.max watermark_goal waiting_shortage) retained.

Definition coordinator_submit_headroom (capacity active : N) : N := (capacity - u64_saturating_add active 1)%N.

(** [page_indices_for_token_range] of the pool. *)
Definition page_indices_for_token_range (s : TokenKVPool) (slot start_pos token_count : nat) : res (list nat) :=
  _ ← seq_len s slot;
  pages ← slot_pages s slot;
  slice pages (start_pos / page_size (cfg s)) (div_ceil (start_pos + token_count) (page_size (cfg s))).

(** ** Effects *)
Section scheduler.
Context {Q : Type} `{CoordinatorHandle Q} `{Driver} `{Blake3} (env : PageEnv).
Abbreviation page_eff := (eff (PageCache Q) cache_error).

Definition in_pool {A} (m : pool_eff A) : page_eff A := fun s =>
  '(p, r) ← m (pc_pool s);
  Done (set_pc_pool p s, match r with inl a => inl a | inr e => inr (PagedPool e) end).
Definition from_pool {A} (f : TokenKVPool -> res A) : page_eff A := in_pool (reads f).
Definition in_cache {A} (f : RadixCache -> res (RadixCache * A)) : page_eff A := fun s =>
  '(c, a) ← f (pc_cache s); Done (set_pc_cache c s, inl a).
Definition from_cache {A} (f : RadixCache -> res A) : page_eff A := fun s => a ← f (pc_cache s); Done (s, inl a).
Definition update_cache (f : RadixCache -> RadixCache * bool) : page_eff bool := in_cache (fun c => Done (f c)).
Definition on_tables (f : PageTables -> PageTables) : page_eff unit := modify (fun s => set_pc_tables (f (pc_tables s)) s).
Definition on_sessions (f : SessionTable -> SessionTable) : page_eff unit :=
  modify (fun s => set_pc_sessions (f (pc_sessions s)) s).
Definition on_stores (f : StoreTables -> StoreTables) : page_eff unit := modify (fun s => set_pc_stores (f (pc_stores s)) s).
Definition in_host {A} (f : SharedHostPinnedPool -> res (SharedHostPinnedPool * HostPool.result A)) : page_eff A := fun s =>
  '(h, r) ← f (pc_host s);
  Done (set_pc_host h s, match r with Ok a => inl a | Err e => inr (HostPinned_ e) end).
(** A call whose error the caller handles. *)
Definition try {A} (m : page_eff A) : page_eff (A + cache_error) := fun s => '(s, r) ← m s; Done (s, inl r).

Definition config : SchedulerConfig.SchedulerConfig := pe_config env.
Definition eviction_signals : SchedulerSignals := queue_state (length (pe_waiting env)) (pe_running env).

Definition block_metadata (b : BlockId) : page_eff (option BlockMetadata) := gets (fun s => RadixMeta.block_metadata b (pc_cache s)).
Definition block_id_for_pages (pages : list nat) : res BlockId :=
  match pages with page :: _ => Done (N.of_nat page) | [] => Panics end.
Definition sealed_block_byte_len (s : PageCache Q) : N :=
  N.min (storage_bytes_for_tokens (cfg (pc_pool s)) (block_size (pc_cache s))) u32_max.
Definition block_keepalive_deadline (session_id : option SessionId) (keepalive_ticks : N) (c : RadixCache) : option N :=
  match session_id with Some _ => Some (u64_saturating_add (logical_clock c) keepalive_ticks) | None => None end.

Definition slot_sealed_block_pages (slot block_count : nat) : page_eff (list (list nat)) :=
  bs ← gets (fun s => block_size (pc_cache s));
  from_pool (fun p => map_res (fun block_i => page_indices_for_token_range p slot (block_i * bs) bs) (seq 0 block_count)).

(** ** Publication *)
Definition record_sealed_gpu_block (slot : nat) (session_id : option SessionId) (byte_len : N) (deadline : option N)
    (track_slot_owner host_swap_eligible : bool) (x : BlockId * list nat) : page_eff unit :=
  on_tables (fun t => set_block_to_pages (<[x.1 := default x.2 (block_to_pages t !! x.1)]> (block_to_pages t)) t);;
  (if track_slot_owner then
     on_tables (fun t => set_block_owner_slots (<[x.1 := slot]> (block_owner_slots t)) t);;
     owned ← gets (fun s => slot_owned_blocks (pc_tables s));
     blocks ← of_res (index owned slot);
     on_tables (set_slot_owned_blocks (<[slot := blocks ++ [x.1]]> owned))
   else mret tt);;
  update_cache (update_block_metadata x.1 (mkBlockMetadataUpdate (Some (LocGpu (u32_of_usize slot))) (Some byte_len)
    (Some session_id) (Some host_swap_eligible) (Some deadline) None None));;
  mret tt.

Definition record_sealed_gpu_blocks (slot : nat) (blocks : list (BlockId * list nat)) (session_id : option SessionId)
    (keepalive_ticks : N) (track_slot_owner host_swap_eligible : bool) : page_eff unit :=
  byte_len ← gets sealed_block_byte_len;
  deadline ← gets (fun s => block_keepalive_deadline session_id keepalive_ticks (pc_cache s));
  for_each blocks (record_sealed_gpu_block slot session_id byte_len deadline track_slot_owner host_swap_eligible).

(** A block may move to the host when it belongs to a session and its prompt is
    long enough. *)
Definition swap_eligible (session_id : option SessionId) (prompt_len : nat) : bool :=
  is_some session_id && (SchedulerConfig.t1_host_pinned_min_prompt_tokens config <=? N.of_nat prompt_len)%N.

Definition publish_to_prefix_cache (slot : nat) (prompt_tokens : list Token) (session_id : option SessionId) : page_eff unit :=
  bs ← gets (fun s => block_size (pc_cache s));
  slot_tokens_now ← from_pool (fun p => seq_len p slot);
  let sealed_block_count := Nat.min (length prompt_tokens) slot_tokens_now / bs in
  if bool_decide (sealed_block_count = 0) then mret tt
  else
    let sealed_token_count := sealed_block_token_count bs sealed_block_count in
    sealed_block_pages ← slot_sealed_block_pages slot sealed_block_count;
    retained ← gets (fun s => retained_count (pc_pool s));
    total ← gets (fun s => max_total_pages (cfg (pc_pool s)));
    if negb (can_publish_prefix_pages_without_watermark_pressure retained total (sum_list (length <$> sealed_block_pages))
               (SchedulerConfig.prefix_cache_retain_hard_cap config) (SchedulerConfig.prefix_cache_high_water config))
    then mret tt
    else
      blocks ← of_res (map_res block_id_for_pages sealed_block_pages);
      kv_format_tag ← gets (fun s => default 0%N (stable_tag (format (cfg (pc_pool s)))));
      let fps := block_fingerprints (pe_model_fingerprint env) kv_format_tag bs sealed_block_count prompt_tokens in
      inserted ← in_cache (insert_with_fingerprints (take sealed_token_count prompt_tokens) blocks fps);
      if bool_decide (inserted <> sealed_token_count) then mret tt
      else
        in_pool (retain_pages (concat sealed_block_pages));;
        record_sealed_gpu_blocks slot (zip blocks sealed_block_pages) session_id (SchedulerConfig.prefix_cache_keepalive_ticks config)
          true (swap_eligible session_id (length prompt_tokens));;
        match session_id with
        | Some sid => c ← gets pc_cache; on_sessions (publish_session_slot c sid blocks sealed_token_count)
        | None => mret tt
        end.

Definition clear_slot_prefix_ownership (slot : nat) : page_eff unit :=
  owned ← gets (fun s => slot_owned_blocks (pc_tables s));
  blocks ← of_res (index owned slot);
  on_tables (fun t => set_block_owner_slots (foldl (fun m b => delete b m) (block_owner_slots t) blocks) t);;
  on_tables (set_slot_owned_blocks (<[slot := []]> owned)).

Definition put_materialized (slot len : nat) : page_eff unit :=
  lens ← gets (fun s => slot_materialized_prompt_lens (pc_tables s));
  lens ← of_res (store_at lens slot len);
  on_tables (set_materialized lens).

(** The pages of a finished request ([cleanup]): its cached prompt is published
    before the slot is freed. *)
Definition retire_slot (slot prompt_len : nat) (cached_prompt : option (list Token)) (session_id : option SessionId)
  : page_eff unit :=
  clear_slot_prefix_ownership slot;;
  let bypass := (0 <? SchedulerConfig.short_prompt_bypass_tokens config)%N
    && (N.of_nat prompt_len <=? SchedulerConfig.short_prompt_bypass_tokens config)%N in
  (match cached_prompt with
   | Some prompt_vec =>
       if SchedulerConfig.prefix_cache_enabled config && negb bypass
       then put_materialized slot (length prompt_vec);; publish_to_prefix_cache slot prompt_vec session_id
       else put_materialized slot 0
   | None => put_materialized slot 0
   end);;
  in_pool (free_slot slot).

(** ** Attachment *)
Fixpoint flattened_pages_for_blocks (blocks : list BlockId) (pages : list nat) : page_eff (list nat) :=
  match blocks with
  | [] => mret pages
  | block_id :: blocks =>
      m ← gets (fun s => block_to_pages (pc_tables s));
      match m !! block_id with
      | None => throw (MissingPageSpan block_id)
      | Some block_pages => flattened_pages_for_blocks blocks (pages ++ block_pages)
      end
  end.

Definition attach_gpu_prefix_blocks (slot : nat) (blocks : list BlockId) (token_count : nat) : page_eff unit :=
  if bool_decide (blocks = [] \/ token_count = 0) then mret tt
  else
    bs ← gets (fun s => block_size (pc_cache s));
    let sealed_prefix_tokens := sealed_block_token_count bs (length blocks) in
    if bool_decide (sealed_prefix_tokens < token_count) then throw (PrefixOverrun token_count sealed_prefix_tokens)
    else
      pages ← flattened_pages_for_blocks blocks [];
      in_pool (attach_pages slot pages token_count).

(** ** Host memory *)
Definition release_host_region (region : HostPinnedRegion) : page_eff unit := _ ← try (in_host (release_region region)); mret tt.

Definition pool_of_lock (s : PageCache Q) : option HostPinnedPool :=
  match lock (pc_host s) with Ok p => Some p | Err _ => None end.

Definition host_pool_demote_headroom_bytes (s : PageCache Q) : N :=
  match pool_of_lock s with
  | None => 0
  | Some p =>
      if (pool_capacity p =? 0)%N then 0
      else match pool_reserved_bytes p with
      | Ok reserved => fraction_of (pool_capacity p) (SchedulerConfig.t1_host_pinned_high_water config) - reserved
      | Err _ => 0
      end
  end%N.

Definition host_pool_spill_target_bytes (intent : BlockSelectionIntent) (s : PageCache Q) : N :=
  match pool_of_lock s with
  | None => 0
  | Some p =>
      if (pool_capacity p =? 0)%N then 0
      else match pool_reserved_bytes p with
      | Ok reserved => host_spill_target_bytes reserved (pool_capacity p) (SchedulerConfig.t1_host_pinned_high_water config)
          (SchedulerConfig.t1_host_pinned_low_water config) intent
      | Err _ => 0
      end
  end%N.

(** ** Dropping blocks *)
Definition delete_disk_block_if_present (metadata : BlockMetadata) : page_eff unit :=
  match md_location metadata with
  | Some (LocDisk fingerprint _) => modify (fun s => set_deleted (deleted_disk_blocks s ++ [fingerprint]) s)
  | _ => mret tt
  end.

Definition drop_cached_block (block_id : BlockId) : page_eff nat :=
  refs ← gets (fun s => session_block_refs (pc_sessions s));
  if is_some (refs !! block_id) then mret 0
  else
    metadata ← block_metadata block_id;
    m ← gets (fun s => block_to_pages (pc_tables s));
    reclaimed ← match m !! block_id with
      | Some pages =>
          on_tables (set_block_to_pages (delete block_id m));;
          freed ← in_pool (release_pages pages); mret (length freed)
      | None => mret 0
      end;
    match metadata ≫= host_region_from_metadata with Some region => release_host_region region | None => mret tt end;;
    on_tables (fun t => set_block_owner_slots (delete block_id (block_owner_slots t)) t);;
    match metadata with Some meta => delete_disk_block_if_present meta | None => mret tt end;;
    mret reclaimed.

Fixpoint drop_cached_blocks (blocks : list BlockId) : page_eff nat :=
  match blocks with
  | [] => mret 0
  | b :: blocks => n ← drop_cached_block b; rest ← drop_cached_blocks blocks; mret (n + rest)
  end.

(** Session slots first, then the blocks no slot protects. *)
Definition evict_sessions (mode : PressureMode) (tier : Tier) : page_eff nat := fun s =>
  let '(t, released) := evict_inactive_session_slots_for_pressure (pc_cache s)
    (SchedulerConfig.prefix_cache_keepalive_ticks config) mode 1 (Some tier) (pc_sessions s) in
  Done (set_pc_sessions t s, inl released).
Definition evict_unprotected (n : nat) (tier : Tier) (intent : BlockSelectionIntent) : page_eff (list BlockId) :=
  protected ← gets (fun s => session_protected_blocks (pc_sessions s));
  in_cache (evict_with_policy_for_intent_excluding SessionBiasedLru_default eviction_signals n (Some tier) intent (Some protected)).

Fixpoint evict_host_loop (passes : nat) (required_bytes : N) (mode : PressureMode) (released_bytes : N) : page_eff N :=
  match passes with
  | 0 => mret released_bytes
  | S passes =>
      headroom ← gets host_pool_demote_headroom_bytes;
      if (required_bytes <=? headroom)%N then mret released_bytes
      else
        released_slot_blocks ← evict_sessions mode HostPinned;
        evicted ← evict_unprotected 1 HostPinned Drain;
        if bool_decide (evicted = []) then
          if bool_decide (0 < released_slot_blocks) then evict_host_loop passes required_bytes mode released_bytes
          else mret released_bytes
        else
          c ← gets pc_cache;
          let regions := omap (fun b => RadixMeta.block_metadata b c ≫= host_region_from_metadata) evicted in
          drop_cached_blocks evicted;;
          evict_host_loop passes required_bytes mode (u64_saturating_add released_bytes (foldr N.add 0%N (rg_len <$> regions)))
  end.

Definition evict_host_blocks_for_demote_headroom (required_bytes : N) (mode : PressureMode) : page_eff N :=
  headroom ← gets host_pool_demote_headroom_bytes;
  if (required_bytes =? 0)%N || (required_bytes <=? headroom)%N then mret 0%N
  else max_passes ← gets (fun s => cached_block_count (pc_cache s)); evict_host_loop max_passes required_bytes mode 0.

Definition ensure_host_demote_headroom (required_bytes : N) : page_eff bool :=
  if (required_bytes =? 0)%N then mret true
  else
    headroom ← gets host_pool_demote_headroom_bytes;
    (if (headroom <? required_bytes)%N then evict_host_blocks_for_demote_headroom required_bytes Soft;; mret tt else mret tt);;
    headroom ← gets host_pool_demote_headroom_bytes;
    (if (headroom <? required_bytes)%N then evict_host_blocks_for_demote_headroom required_bytes Hard;; mret tt else mret tt);;
    headroom ← gets host_pool_demote_headroom_bytes;
    let has_headroom := (required_bytes <=? headroom)%N in
    (if negb has_headroom then modify (set_exhausted true) else mret tt);;
    mret has_headroom.

(** ** Demotion *)

(** Ids of blocks without pages count down as long as they lie above the pages;
    at most the ids in use are skipped, which bounds [fuel]. *)
Fixpoint find_tier_id (fuel : nat) (c : RadixCache) (pages : gmap BlockId (list nat)) (limit next : N) : res (option BlockId * N) :=
  match fuel with
  | 0 => OutOfFuel
  | S fuel =>
      if (limit <? next)%N then
        if is_none (RadixMeta.block_metadata next c) && is_none (pages !! next) then Done (Some next, next - 1)%N
        else find_tier_id fuel c pages limit (next - 1)
      else Done (None, next)
  end.
Definition tier_id_fuel (c : RadixCache) (pages : gmap BlockId (list nat)) : nat := S (size (block_index c) + size pages).

Definition allocate_tier_block_id : page_eff BlockId :=
  c ← gets pc_cache;
  t ← gets pc_tables;
  limit ← gets (fun s => u32_of_usize (max_total_pages (cfg (pc_pool s))));
  found ← of_res (find_tier_id (tier_id_fuel c (block_to_pages t)) c (block_to_pages t) limit (next_tier_block_id t));
  on_tables (set_next_tier_block_id found.2);;
  match found.1 with Some b => mret b | None => throw BlockIdsExhausted end.

(** [pool.reserve(len)?] under the lock. *)
Definition reserve_host_region (len : N) : page_eff (option HostPinnedRegion) :=
  in_host (fun h =>
    match lock h with
    | Err e => Done (h, Err e)
    | Ok p => '(p, r) ← HostPool.reserve len p; Done (mkShared p false, r)
    end).

(** What follows a reservation: the region goes back when a step fails. *)
Definition or_release {A} (region : HostPinnedRegion) (m : page_eff A) : page_eff A :=
  r ← try m; match r with inl a => mret a | inr e => release_host_region region;; throw e end.

Definition demote_block_to_host (block_id : BlockId) : page_eff nat :=
  metadata ← block_metadata block_id;
  tables ← gets pc_tables;
  match metadata with
  | None => mret 0
  | Some metadata =>
      if negb (match md_location metadata with Some (LocGpu _) => true | _ => false end) then mret 0
      else if negb (md_host_swap_eligible metadata) then mret 0
      else match block_to_pages tables !! block_id with
      | None => mret 0
      | Some pages =>
          let block_bytes := md_byte_len metadata in
          has_headroom ← ensure_host_demote_headroom block_bytes;
          if negb (has_headroom : bool) then throw (NoLeafHeadroom block_id block_bytes)
          else
            payload ← in_pool (copy_pages_to_host pages);
            reserved ← reserve_host_region (N.of_nat (length payload));
            match reserved with
            | None => throw (HostPoolExhausted block_id (N.of_nat (length payload)))
            | Some region =>
                or_release region (in_host (write_region region payload));;
                host_block_id ← or_release region allocate_tier_block_id;
                retagged ← update_cache (retag_block block_id host_block_id);
                if negb (retagged : bool) then release_host_region region;; throw (RetagFailed block_id host_block_id)
                else
                  on_sessions (retag_session_slot_block block_id host_block_id);;
                  on_tables (fun t => set_block_to_pages (delete block_id (block_to_pages t)) t);;
                  on_tables (fun t => set_block_owner_slots (delete block_id (block_owner_slots t)) t);;
                  now ← gets (fun s => logical_clock (pc_cache s));
                  update_cache (update_block_metadata host_block_id
                    (mkBlockMetadataUpdate (Some (LocHostPinned (rg_offset region))) None None None None
                       (match md_session_id metadata with
                        | Some _ => Some (Some (u64_saturating_add now (SchedulerConfig.t1_host_pinned_keepalive_ticks config)))
                        | None => None
                        end) None));;
                  released ← in_pool (release_pages pages);
                  mret (length released)
            end
      end
  end.

(** ** Write-back to the store *)
Definition kv_format_tag (s : PageCache Q) : N := default 0%N (stable_tag (format (cfg (pc_pool s)))).
Definition coordinator_queue_stats (s : PageCache Q) : CoordinatorQueueStats :=
  with_fetch_waiters (pe_fetch_waiters env) (coordinator_stats (pc_coordinator s)).

Definition is_store_waiting (b : BlockId) (t : StoreTables) : bool :=
  existsb (fun x => existsb (fun w => bool_decide (w.1 = b)) x.2) (map_to_list (store_waiting t)).
Definition push_waiting (ticket : N) (w : BlockId * HostPinnedRegion) (t : StoreTables) : StoreTables :=
  mkStoreTables (<[ticket := default [] (store_waiting t !! ticket) ++ [w]]> (store_waiting t)) (store_dedupe t) (store_ticket_keys t).
Definition track_store (ticket : N) (w : BlockId * HostPinnedRegion) (key : StoreDedupKey) (t : StoreTables) : StoreTables :=
  mkStoreTables (<[ticket := [w]]> (store_waiting t)) (<[key := ticket]> (store_dedupe t)) (<[ticket := key]> (store_ticket_keys t)).

(** What a candidate must have: its metadata, fingerprint and host region. *)
Definition spill_source (block_id : BlockId) (s : PageCache Q) : option (BlockMetadata * BlockFingerprint * HostPinnedRegion) :=
  if is_some (session_block_refs (pc_sessions s) !! block_id) || is_store_waiting block_id (pc_stores s) then None
  else
    metadata ← RadixMeta.block_metadata block_id (pc_cache s);
    fingerprint ← md_fingerprint metadata;
    region ← host_region_from_metadata metadata;
    Some (metadata, fingerprint, region).

Fixpoint spill_loop (candidates : list BlockId) (bytes_to_spill headroom spilled : N) : page_eff N :=
  match candidates with
  | [] => mret spilled
  | block_id :: candidates =>
      source ← gets (spill_source block_id);
      match source with
      | None => spill_loop candidates bytes_to_spill headroom spilled
      | Some (metadata, fingerprint, region) =>
          stats ← gets (fun s => coordinator_stats (pc_coordinator s));
          let target := choose_store_target (pe_tier_policy env) metadata stats (pe_cluster_shared_backend env) in
          if bool_decide (target = TargetDisk) && negb (SchedulerConfig.t2_disk_tier_enabled config)
          then spill_loop candidates bytes_to_spill headroom spilled
          else
            tables ← gets pc_stores;
            let spilled' := u64_saturating_add spilled (md_byte_len metadata) in
            let continue headroom :=
              if (bytes_to_spill <=? spilled')%N then mret spilled' else spill_loop candidates bytes_to_spill headroom spilled' in
            match store_dedupe tables !! (fingerprint, target) with
            | Some ticket =>
                update_cache (mark_block_store_pending block_id);;
                on_stores (push_waiting ticket (block_id, region));;
                continue headroom
            | None =>
                if (headroom =? 0)%N then mret spilled
                else
                  tag ← gets kv_format_tag;
                  q ← gets pc_coordinator;
                  let '(q, submitted) := submit_store
                    [mkStoreRequest block_id fingerprint tag (pe_host_pool env) region target] q in
                  modify (set_pc_coordinator q);;
                  match submitted with
                  | None => mret spilled
                  | Some ticket =>
                      update_cache (mark_block_store_pending block_id);;
                      on_stores (track_store ticket (block_id, region) (fingerprint, target));;
                      continue (headroom - 1)%N
                  end
            end
      end
  end.

Definition spill_host_blocks_if_pressured (intent : BlockSelectionIntent) : page_eff N :=
  bytes_to_spill ← gets (host_pool_spill_target_bytes intent);
  if (bytes_to_spill =? 0)%N then mret 0%N
  else if negb (SchedulerConfig.t2_disk_tier_enabled config) && negb (pe_cluster_shared_backend env) then mret 0%N
  else
    stats ← gets coordinator_queue_stats;
    let headroom := coordinator_submit_headroom (cs_capacity stats) (cs_active stats) in
    if (headroom =? 0)%N then mret 0%N
    else
      count ← gets (fun s => cached_block_count (pc_cache s));
      candidates ← from_cache (select_blocks_with_policy SessionBiasedLru_default eviction_signals count (Some HostPinned) intent false);
      spill_loop candidates bytes_to_spill headroom 0.

Definition trigger_background_store_drain : page_eff bool :=
  waiting ← gets (fun s => bool_decide (store_waiting (pc_stores s) <> ∅));
  target ← gets (host_pool_spill_target_bytes Drain);
  if negb waiting && (target =? 0)%N then mret false
  else spill_host_blocks_if_pressured Drain;; gets (fun s => bool_decide (store_waiting (pc_stores s) <> ∅)).

(** The store events of [handle_coordinator_event]. *)
Definition forget_ticket (ticket : N) (t : StoreTables) : StoreTables :=
  mkStoreTables (delete ticket (store_waiting t))
    (match store_ticket_keys t !! ticket with Some key => delete key (store_dedupe t) | None => store_dedupe t end)
    (delete ticket (store_ticket_keys t)).

Definition handle_store_event (event : CoordinatorEvent) : page_eff unit :=
  tables ← gets pc_stores;
  match event with
  | StoreQueued ticket _ =>
      for_each (default [] (store_waiting tables !! ticket)) (fun w => update_cache (mark_block_storing w.1);; mret tt)
  | StoreCompleted ticket locations =>
      on_stores (forget_ticket ticket);;
      for_each (default [] (store_waiting tables !! ticket)) (fun w =>
        (match head locations with
         | Some (_, location) => update_cache (mark_block_stored w.1 (Some location))
         | None => update_cache (mark_block_store_failed w.1)
         end);;
        release_host_region w.2)
  | StoreFailed ticket failed_block _ _ =>
      on_stores (forget_ticket ticket);;
      match store_waiting tables !! ticket with
      | Some waiters => for_each waiters (fun w => update_cache (mark_block_store_failed w.1);; release_host_region w.2)
      | None => update_cache (mark_block_store_failed failed_block);; mret tt
      end
  | _ => mret tt
  end.

(** ** Eviction under pressure *)
Definition waiting_shortage (s : PageCache Q) : nat :=
  waiting_admission_shortage_pages (pool_free_pages (pc_pool s)) (Nat.max (page_size (cfg (pc_pool s))) 1)
    (pe_free_slots env) (length (pe_waiting env)) (pe_waiting env).
Definition prefix_cache_watermarks_pages (s : PageCache Q) : nat * nat :=
  let total := N.of_nat (max_total_pages (cfg (pc_pool s))) in
  (N.to_nat (fraction_of total (SchedulerConfig.prefix_cache_high_water config)),
   N.to_nat (fraction_of total (SchedulerConfig.prefix_cache_low_water config))).
Definition pages_per_block (s : PageCache Q) : nat := div_ceil (block_size (pc_cache s)) (page_size (cfg (pc_pool s))).

Definition evictable_prefix_gpu_pages (s : PageCache Q) : res nat :=
  blocks ← cascade_evictable_blocks (Some Gpu) (pc_cache s);
  Done (sum_list (length <$> omap (fun b => block_to_pages (pc_tables s) !! b) blocks)).

(** The candidates one after the other, up to a goal if there is one, or until
    the host is out of room. *)
Fixpoint demote_candidates (goal : option nat) (candidates : list BlockId) (reclaimed : nat) : page_eff nat :=
  match candidates with
  | [] => mret reclaimed
  | bid :: candidates =>
      t ← gets pc_sessions;
      if block_has_active_session_ref bid t then demote_candidates goal candidates reclaimed
      else
        r ← try (demote_block_to_host bid);
        match r with
        | inl freed_now =>
            let reclaimed := reclaimed + freed_now in
            if match goal with Some want => bool_decide (want <= reclaimed) | None => false end then mret reclaimed
            else demote_candidates goal candidates reclaimed
        | inr _ =>
            exhausted ← gets host_leaf_headroom_exhausted;
            if exhausted : bool then mret reclaimed else demote_candidates goal candidates reclaimed
        end
  end.

Definition select_gpu_candidates (n : nat) : page_eff (list BlockId) :=
  from_cache (select_blocks_with_policy SessionBiasedLru_default eviction_signals n (Some Gpu) Evict true).
Definition sealed_block_headroom : page_eff bool := bytes ← gets sealed_block_byte_len; ensure_host_demote_headroom bytes.

(** What demotion did not reclaim is dropped. *)
Definition drop_for_pages (remaining_pages : nat) : page_eff nat :=
  per_block ← gets pages_per_block;
  let blocks_to_drop := Nat.max (div_ceil remaining_pages (Nat.max per_block 1)) 1 in
  exhausted ← gets host_leaf_headroom_exhausted;
  let '(exhausted, mode) := consume_host_leaf_pressure_mode exhausted in
  modify (set_exhausted exhausted);;
  evict_sessions mode Gpu;;
  evicted ← evict_unprotected blocks_to_drop Gpu Evict;
  drop_cached_blocks evicted.

Definition evict_prefix_cache_if_pressured : page_eff nat :=
  total ← gets (fun s => max_total_pages (cfg (pc_pool s)));
  if bool_decide (total = 0) then mret 0
  else
    retained ← gets (fun s => retained_count (pc_pool s));
    marks ← gets prefix_cache_watermarks_pages;
    shortage ← gets waiting_shortage;
    let want_free := prefix_cache_reclaim_goal_pages retained marks.1 marks.2 shortage in
    if bool_decide (want_free = 0) then mret 0
    else
      per_block ← gets pages_per_block;
      let blocks_to_evict := div_ceil want_free (Nat.max per_block 1) in
      if bool_decide (blocks_to_evict = 0) then mret 0
      else
        candidates ← select_gpu_candidates blocks_to_evict;
        has_room ← (if bool_decide (candidates <> []) then sealed_block_headroom else mret false);
        reclaimed ← (if has_room : bool then demote_candidates (Some want_free) candidates 0 else mret 0);
        reclaimed ← (if bool_decide (reclaimed < want_free)
                     then dropped ← drop_for_pages (want_free - reclaimed); mret (reclaimed + dropped)
                     else mret reclaimed);
        spill_host_blocks_if_pressured Spill;;
        mret reclaimed.

(** Rounds of demotion until the shortage is covered or a round reclaims
    nothing: every other round reclaims a page. *)
Fixpoint demote_rounds (fuel shortage remaining reclaimed : nat) : page_eff (nat * nat) :=
  if bool_decide (remaining = 0) then mret (remaining, reclaimed)
  else match fuel with
  | 0 => of_res OutOfFuel
  | S fuel =>
      per_block ← gets pages_per_block;
      candidates ← select_gpu_candidates (Nat.max (div_ceil remaining (Nat.max per_block 1)) 1);
      if bool_decide (candidates = []) then mret (remaining, reclaimed)
      else
        has_room ← sealed_block_headroom;
        if negb (has_room : bool) then mret (remaining, reclaimed)
        else
          after ← demote_candidates None candidates reclaimed;
          spill_host_blocks_if_pressured Spill;;
          if bool_decide (after = reclaimed) then mret (remaining, after)
          else demote_rounds fuel shortage (shortage - after) after
  end.

Definition evict_prefix_cache_for_allocation (required_pages : nat) : page_eff nat :=
  free ← gets (fun s => pool_free_pages (pc_pool s));
  let shortage_pages := required_pages - free in
  if bool_decide (shortage_pages = 0) then mret 0
  else
    '(remaining, reclaimed) ← demote_rounds (S shortage_pages) shortage_pages shortage_pages 0;
    if bool_decide (reclaimed < shortage_pages)
    then dropped ← drop_for_pages remaining; mret (reclaimed + dropped)
    else mret reclaimed.

(** ** Allocation with reclamation *)
Definition try_alloc_pool_tokens_once (slot count : nat) : page_eff (list nat) :=
  in_pool (append_tokens slot count).

Definition alloc_pool_tokens_with_retry (slot count : nat) : page_eff (list nat) :=
  required ← from_pool (fun p => append_pages_needed p slot count);
  free ← gets (fun s => pool_free_pages (pc_pool s));
  (if bool_decide (free < required) then evict_prefix_cache_for_allocation required;; mret tt else mret tt);;
  r ← try (try_alloc_pool_tokens_once slot count);
  match r with
  | inl indices => mret indices
  | inr first_err =>
      required ← from_pool (fun p => append_pages_needed p slot count);
      reclaimed ← evict_prefix_cache_for_allocation required;
      if bool_decide (reclaimed = 0) then throw first_err else try_alloc_pool_tokens_once slot count
  end.

Definition reclaim_for_paged_appends (appends : list (nat * nat)) : page_eff nat :=
  active ← gets (fun s => is_active (pc_pool s));
  if negb (active : bool) then mret 0
  else
    needed ← from_pool (fun p => map_res (fun x => append_pages_needed p x.1 x.2) appends);
    free ← gets (fun s => pool_free_pages (pc_pool s));
    if bool_decide (free < sum_list needed) then evict_prefix_cache_for_allocation (sum_list needed) else mret 0.

(** ** Promotion of a staged prefix ([promote_fetched_prefix]) *)

(** [release_pages] whose result is dropped. *)
Definition release_quietly (pages : list nat) : page_eff unit := _ ← in_pool (release_pages pages); mret tt.

(** One staged block: detached pages, filled from its host region. *)
Definition promote_block (fetched : list FetchedBlock) (block_id : BlockId) : page_eff (BlockId * list nat) :=
  match find (fun b => bool_decide (fb_block_id b = block_id)) (reverse fetched) with
  | None => throw (MissingStaging block_id)
  | Some b =>
      bs ← gets (fun s => block_size (pc_cache s));
      ps ← gets (fun s => page_size (cfg (pc_pool s)));
      pages ← in_pool (alloc_detached_pages (Nat.max (div_ceil bs ps) 1));
      r ← try (payload ← in_host (fun h => r ← read_region (fb_host_region b) h; Done (h, r));
               in_pool (copy_pages_from_host pages payload));
      match r with
      | inr e => release_quietly pages;; throw e
      | inl _ => new ← of_res (block_id_for_pages pages); mret (new, pages)
      end
  end.

(** What the loop over the blocks of the plan collects. *)
Record Promotion := mkPromotion {
  promoted_pages : list (BlockId * BlockId * list nat);
  final_block_ids : list BlockId;
  consumed_host_regions : list HostPinnedRegion;
}.

Fixpoint promote_blocks (fetched : list FetchedBlock) (blocks : list ReadmissionBlock) (p : Promotion) : page_eff Promotion :=
  match blocks with
  | [] => mret p
  | block :: blocks =>
      match rb_source block with
      | None => promote_blocks fetched blocks
          (mkPromotion (promoted_pages p) (final_block_ids p ++ [rb_block_id block]) (consumed_host_regions p))
      | Some source =>
          '(new, pages) ← promote_block fetched (rb_block_id block);
          promote_blocks fetched blocks
            (mkPromotion (promoted_pages p ++ [(rb_block_id block, new, pages)]) (final_block_ids p ++ [new])
               (consumed_host_regions p ++ match source with SrcHostPinned region => [region] | _ => [] end))
      end
  end.

(** The nodes of a session's slot take the new ids. *)
Fixpoint retag_promoted (all todo : list (BlockId * BlockId * list nat)) : page_eff unit :=
  match todo with
  | [] => mret tt
  | (old, new, _) :: todo =>
      retagged ← update_cache (retag_block old new);
      if negb (retagged : bool) then for_each all (fun x => release_quietly x.2);; throw (RetagFailed old new)
      else on_sessions (retag_session_slot_block old new);; retag_promoted all todo
  end.

(** Pages for the blocks to be filled. *)
Definition promote_room (plan : ReadmissionPlan) : page_eff unit :=
  per_block ← gets (fun s => Nat.max (pages_per_block s) 1);
  let required := length (staged plan) * per_block in
  free ← gets (fun s => pool_free_pages (pc_pool s));
  if bool_decide (free < required) then evict_prefix_cache_for_allocation required;; mret tt else mret tt.

Definition promote_fetched_prefix (waiter : Admission.FetchWaiter) (fetched : list FetchedBlock) : page_eff unit :=
  let plan := Admission.fw_staged_prefix waiter in
  if bool_decide (rp_blocks plan = []) then mret tt
  else
    valid ← gets (fun s => Admission.validate_staged_sealed_prefix (pc_cache s) (length (Admission.fw_prompt_tokens waiter)) plan);
    if negb (valid : bool) then throw InvalidStagedPrefix
    else
      promote_room plan;;
      p ← promote_blocks fetched (rp_blocks plan) (mkPromotion [] [] []);
      (if is_some (Admission.fw_session_slot_hold waiter) then retag_promoted (promoted_pages p) (promoted_pages p)
       else
         prefix_tokens ← of_res (slice (Admission.fw_prompt_tokens waiter) 0 (rp_matched_len plan));
         inserted ← in_cache (insert_with_fingerprints prefix_tokens (final_block_ids p) (rb_fingerprint <$> rp_blocks plan));
         if bool_decide (inserted <> length prefix_tokens)
         then for_each (promoted_pages p) (fun x => release_quietly x.2);; throw (RemapIncomplete inserted (length prefix_tokens))
         else mret tt);;
      for_each (promoted_pages p) (fun x => on_tables (fun t => set_block_owner_slots (delete x.1.1 (block_owner_slots t)) t));;
      record_sealed_gpu_blocks (Admission.fw_slot_idx waiter) ((fun x => (x.1.2, x.2)) <$> promoted_pages p) (Admission.fw_session_id waiter)
        (SchedulerConfig.prefix_cache_keepalive_ticks config) false
        (swap_eligible (Admission.fw_session_id waiter) (length (Admission.fw_prompt_tokens waiter)));;
      for_each (consumed_host_regions p) release_host_region.

(** Prefetched blocks that no request waits for stay on the host. *)
Definition materialize_prefetched_block (block : FetchedBlock) : page_eff nat :=
  metadata ← block_metadata (fb_block_id block);
  let give_back := if fb_release_after_promote block then release_host_region (fb_host_region block) else mret tt in
  match metadata with
  | None => give_back;; mret 0
  | Some metadata =>
      now ← gets (fun s => logical_clock (pc_cache s));
      updated ← update_cache (update_block_metadata (fb_block_id block)
        (mkBlockMetadataUpdate (Some (LocHostPinned (rg_offset (fb_host_region block)))) (Some (u32_wrap (fb_byte_len block))) None None None
           (match md_session_id metadata with
            | Some _ => Some (Some (u64_saturating_add now (SchedulerConfig.t1_host_pinned_keepalive_ticks config)))
            | None => None
            end) (Some IReady)));
      if updated : bool then mret 1 else give_back;; mret 0
  end.
Fixpoint materialize_prefetched_host_blocks (blocks : list FetchedBlock) : page_eff nat :=
  match blocks with
  | [] => mret 0
  | b :: blocks => n ← materialize_prefetched_block b; rest ← materialize_prefetched_host_blocks blocks; mret (n + rest)
  end.

(** ** Saved sessions ([session_persistence] reads and restores through these) *)
Definition read_block_payload (fingerprint : BlockFingerprint) : page_eff (option (list N)) :=
  block_id ← gets (fun s => block_id_for_fingerprint (pc_cache s) fingerprint);
  t ← gets pc_tables;
  match block_id ≫= fun b => block_to_pages t !! b with
  | None => mret None
  | Some pages => r ← try (in_pool (copy_pages_to_host pages)); mret (match r with inl payload => Some payload | inr _ => None end)
  end.

(** [payloads] in the order in which the hash map is visited; the result is
    what the closure hands out. *)
Fixpoint install_loop (per_block : nat) (payloads : list (BlockFingerprint * list N)) (prepared : gmap BlockFingerprint BlockId)
  : page_eff (gmap BlockFingerprint BlockId) :=
  match payloads with
  | [] => mret prepared
  | (fingerprint, payload) :: payloads =>
      r ← try (in_pool (alloc_detached_pages per_block));
      match r with
      | inr _ => mret prepared
      | inl pages =>
          r ← try (in_pool (copy_pages_from_host pages payload));
          match r with
          | inr _ => install_loop per_block payloads prepared
          | inl _ =>
              block_id ← of_res (block_id_for_pages pages);
              on_tables (fun t => set_block_to_pages (<[block_id := pages]> (block_to_pages t)) t);;
              install_loop per_block payloads (<[fingerprint := block_id]> prepared)
          end
      end
  end.
Definition install_restored_kv (payloads : list (BlockFingerprint * list N)) : page_eff (gmap BlockFingerprint BlockId) :=
  per_block ← gets (fun s => Nat.max (pages_per_block s) 1);
  install_loop per_block payloads ∅.
End scheduler.
