(* ===== verification/PageCacheProps.v ===== *)
(** * What the prefix cache promises

    A cached block names pages of the pool. This file shows, over every
    sequence of operations, that the pages a cached block names are held, are
    never handed out again and keep what they held when the block was recorded;
    that a published prompt can be attached to another slot; that a block
    moved to the host and back is the same block; and what becomes of the
    prefill rows that are planned with pages still to be evicted.

    The operations are broken into elementary steps that carry ghost state: the
    pages held but not named by a block (the list [E]; pages in passing, and the
    pages that publication leaks), and the images the named pages had when
    their block was recorded. *)

From S2P Require Import Prelude Lists Bytes Tier Policy RadixTypes RadixInsert RadixEvict RadixMeta HostArena HostPool CoordinatorControl Fingerprint Readmission SessionSlots CoordinatorQueue KvFormat PagedKv PagedKvInv PagedKvCow PagedKvHost PageBudget PageCache.
From S2P Require SchedulerConfig PrefillPlanProps Admission RadixLookup RadixTree RadixInsertProps RadixLookupProps RadixMetaProps.

(** ** Eviction forgets what it returns

    A block that was evicted is not in the index any more, and nothing enters
    the index. *)
Section eviction_index.

Lemma find_stays_out b (c c' : RadixCache) : block_index c' ⊆ block_index c -> block_index c !! b = None -> block_index c' !! b = None.
Proof.
  intros Hsub Hb. destruct (block_index c' !! b) as [i|] eqn:Hi; [|done].
  by rewrite (lookup_weaken _ _ _ _ Hi Hsub) in Hb.
Qed.

Lemma take_victim_index v c freed c' freed' : take_victim v c freed = Done (c', freed') ->
  block_index c' ⊆ block_index c /\
  forall b, b ∈ freed' -> b ∈ freed \/ block_index c' !! b = None.
Proof.
  unfold take_victim, get. destruct (index (nodes c) v) as [n| |] eqn:Hn; cbn; [|done..]. apply index_Done in Hn.
  destruct (n_block_id n) as [b|] eqn:Hb; [|intros [= <- <-]; split; [done|by left]].
  unfold upd, get. rewrite (index_Some _ _ _ Hn). cbn. intros [= <- <-]. cbn. split; [apply delete_subseteq|].
  intros b' [?| ->%list_elem_of_singleton]%elem_of_app; [by left|right; apply lookup_delete_eq].
Qed.

Lemma evict_loop_index pick fuel n : forall c evicted freed c' evicted' freed',
  (forall b, b ∈ freed -> block_index c !! b = None) ->
  evict_loop pick fuel n c evicted freed = Done (c', evicted', freed') ->
  block_index c' ⊆ block_index c /\ forall b, b ∈ freed' -> block_index c' !! b = None.
Proof.
  induction fuel as [|fuel IH]; intros c evicted freed c' evicted' freed' Hfreed; [done|]. cbn [evict_loop].
  case_bool_decide; [|by intros [= <- <- <-]].
  destruct (pick c evicted) as [[v|]| |]; cbn; [|by intros [= <- <- <-]|done..].
  destruct (take_victim v c freed) as [[c1 freed1]| |] eqn:Ht; cbn; [|done..].
  destruct (take_victim_index _ _ _ _ _ Ht) as [Hsub Hout]. intros Hrun. destruct (IH _ _ _ _ _ _ ltac:(
    intros b [Hb|Hb]%Hout; [by eapply find_stays_out, Hfreed|done]) Hrun) as [Hsub' Hout']. split; [by etransitivity|done].
Qed.

Lemma reclaim_index l : forall c c', fold_res reclaim l c = Done c' -> block_index c' = block_index c.
Proof.
  induction l as [|i l IH]; intros c c'; cbn; [by intros [= <-]|].
  destruct (reclaim c i) as [c1| |] eqn:Hr; cbn; [|done..]. intros ->%IH. revert Hr.
  unfold reclaim, upd, get. destruct (index (nodes c) i); cbn; [|done..]. by intros [= <-].
Qed.

Lemma gc_index c c' : gc_orphan_tombstones c = Done c' -> block_index c' = block_index c.
Proof.
  unfold gc_orphan_tombstones. destruct (gc_fixpoint _ _ _) as [set| |]; cbn; [|done..].
  case_bool_decide; [by intros [= <-]|]. by intros ->%reclaim_index.
Qed.

Lemma evict_index pick n c c' freed : evict_by pick n c = Done (c', freed) ->
  block_index c' ⊆ block_index c /\ forall b, b ∈ freed -> block_index c' !! b = None.
Proof.
  unfold evict_by. case_bool_decide; [intros [= <- <-]; split; [done|by intros ? ?%not_elem_of_nil]|].
  destruct (evict_loop _ _ _ _ _ _) as [[[c1 evicted] freed1]| |] eqn:Hloop; [|done..]. cbn [mbind res_bind].
  destruct (evict_loop_index _ _ _ _ _ _ _ _ _ ltac:(by intros ? ?%not_elem_of_nil) Hloop) as [Hsub Hout].
  destruct (gc_orphan_tombstones (retain_children evicted c1)) as [c2| |] eqn:Hgc; [|done..]. intros [= <- <-].
  rewrite (gc_index _ _ Hgc). done.
Qed.
End eviction_index.

(** Which blocks an operation may record: id, pages, and what is in them. *)
Class Recording := recordable : BlockId -> list nat -> list (list (list (list N))) -> Prop.

Section steps.
Context {Q : Type} `{CoordinatorHandle Q} `{Driver} `{Recording}.
Abbreviation image := (list (list (list N))).
Abbreviation contents := (gmap BlockId (list nat * list image)).
Implicit Types (s : PageCache Q) (E : list nat) (G : contents).

Definition b2p (s : PageCache Q) : gmap BlockId (list nat) := block_to_pages (pc_tables s).
Definition named (s : PageCache Q) : list nat := concat (snd <$> map_to_list (b2p s)).
Definition image_of (s : PageCache Q) (p : nat) : image := page_image (cfg (pc_pool s)) (buffers (pc_pool s)) p.
Definition set_b2p (m : gmap BlockId (list nat)) (s : PageCache Q) : PageCache Q :=
  set_pc_tables (set_block_to_pages m (pc_tables s)) s.

(** ** Elementary steps *)
Inductive cache_step (E : list nat) (G : contents) (s : PageCache Q) : list nat -> contents -> PageCache Q -> Prop :=
  | step_aside s' : pc_pool s' = pc_pool s -> b2p s' = b2p s -> cache_step E G s E G s'
  | step_driver n : cache_step E G s E G (set_pc_pool (set_driver_calls n (pc_pool s)) s)
  | step_append slot count p r :
      append_tokens slot count (pc_pool s) = Done (p, r) -> cache_step E G s E G (set_pc_pool p s)
  | step_truncate slot new_len p r :
      truncate_slot slot new_len (pc_pool s) = Done (p, r) -> cache_step E G s E G (set_pc_pool p s)
  | step_free slot p r : free_slot slot (pc_pool s) = Done (p, r) -> cache_step E G s E G (set_pc_pool p s)
  | step_attach slot pages token_count p r :
      length pages = div_ceil token_count (page_size (cfg (pc_pool s))) ->
      (forall q, q ∈ pages ->
         N.of_nat (length pages) + default 0 (page_attach_count (pc_pool s) !! q) <= u32_max)%N ->
      attach_pages slot pages token_count (pc_pool s) = Done (p, r) -> cache_step E G s E G (set_pc_pool p s)
  | step_kernel b :
      buffers_ok (cfg (pc_pool s)) b ->
      (forall q, page_ref_count (pc_pool s) !! q <> Some 0%N ->
         page_image (cfg (pc_pool s)) b q = page_image (cfg (pc_pool s)) (buffers (pc_pool s)) q) ->
      cache_step E G s E G (set_pc_pool (set_buffers b (pc_pool s)) s)
  | step_retain page p r :
      page ∈ concat (page_indices (pc_pool s)) -> (default 0 (page_ref_count (pc_pool s) !! page) < u32_max)%N ->
      retain_page page (pc_pool s) = Done (p, r) ->
      cache_step E G s (page :: E) G (set_pc_pool p s)
  | step_release pages E' p r :
      E ≡ₚ pages ++ E' -> release_pages pages (pc_pool s) = Done (p, r) -> cache_step E G s E' G (set_pc_pool p s)
  | step_detached count p new :
      alloc_detached_pages count (pc_pool s) = Done (p, inl new) ->
      cache_step E G s (new ++ E) G (set_pc_pool p s)
  | step_fill pages payload p r :
      (forall q, q ∈ pages -> q < max_total_pages (cfg (pc_pool s)) /\ q ∉ named s) ->
      copy_pages_from_host pages payload (pc_pool s) = Done (p, r) -> cache_step E G s E G (set_pc_pool p s)
  | step_record b pages E' :
      b2p s !! b = None -> E ≡ₚ pages ++ E' -> block_id_for_pages pages = Done b ->
      recordable b pages (image_of s <$> pages) ->
      cache_step E G s E' (<[b := (pages, image_of s <$> pages)]> G) (set_b2p (<[b := pages]> (b2p s)) s)
  | step_forget b pages :
      b2p s !! b = Some pages -> cache_step E G s (pages ++ E) (delete b G) (set_b2p (delete b (b2p s)) s).

(** ** The invariant *)
Definition world_ok (E : list nat) (G : contents) (s : PageCache Q) : Prop :=
  (exists L, wf L (E ++ named s) (pc_pool s)) /\
  (forall b pages, b2p s !! b = Some pages -> G !! b = Some (pages, image_of s <$> pages)) /\
  forall b pages, b2p s !! b = Some pages -> block_id_for_pages pages = Done b.

Lemma named_insert s b pages : b2p s !! b = None ->
  concat (snd <$> map_to_list (<[b := pages]> (b2p s))) ≡ₚ pages ++ named s.
Proof. intros Hb. rewrite map_to_list_insert by done. done. Qed.

Lemma named_delete s b pages : b2p s !! b = Some pages ->
  named s ≡ₚ pages ++ concat (snd <$> map_to_list (delete b (b2p s))).
Proof. intros Hb. unfold named. rewrite <-(map_to_list_delete _ _ _ Hb). done. Qed.

Lemma elem_of_named s b pages p : b2p s !! b = Some pages -> p ∈ pages -> p ∈ named s.
Proof. intros Hb Hp. rewrite (named_delete _ _ _ Hb). set_solver. Qed.

(** A change of the pool that keeps the held pages' images keeps the contents. *)
Lemma same_images E G s p :
  world_ok E G s -> (exists L, wf L (E ++ named s) p) -> cfg p = cfg (pc_pool s) ->
  (forall q, q ∈ named s -> page_image (cfg (pc_pool s)) (buffers p) q = image_of s q) ->
  world_ok E G (set_pc_pool p s).
Proof.
  intros (_ & HG & Hkey) Hwf Hc Himg. split; [done|]. split; [|done]. intros b pages Hb. rewrite (HG b pages Hb). do 2 f_equal.
  apply list_fmap_ext. intros i q Hq. unfold image_of. cbn. rewrite Hc. symmetry. apply Himg.
  eapply elem_of_named; [done|by eapply list_elem_of_lookup_2].
Qed.

Lemma same_images' E E' G s p :
  world_ok E G s -> (exists L, wf L (E' ++ named s) p) -> cfg p = cfg (pc_pool s) -> buffers p = buffers (pc_pool s) ->
  world_ok E' G (set_pc_pool p s).
Proof.
  intros (_ & HG & Hkey) Hwf Hc Hb. split; [done|]. split; [|done]. intros b pages Hbb. rewrite (HG b pages Hbb). do 2 f_equal.
  apply list_fmap_ext. intros i q Hq. unfold image_of. cbn. by rewrite Hc, Hb.
Qed.
End steps.

Section step_ok.
Context {Q : Type} `{CoordinatorHandle Q} `{Driver}.
Implicit Types (s : PageCache Q) (E : list nat).

(** An operation on a slot that does not panic names an existing slot. *)
Lemma slot_exists L R p slot : wf L R p -> slot_hot_tail_len p slot <> Panics ->
  exists pages len, page_indices p !! slot = Some pages /\ seq_lens p !! slot = Some len.
Proof.
  intros Hwf Hno. pose proof (wf_slots _ _ _ Hwf) as Hs. destruct (seq_lens p !! slot) as [len|] eqn:Hl.
  - destruct (lookup_lt_is_Some_2 (page_indices p) slot) as [pages Hp]; [|by exists pages, len].
    rewrite (ok_tables _ Hs), <-(ok_lens _ Hs). by eapply lookup_lt_Some.
  - destruct Hno. unfold slot_hot_tail_len, index. by rewrite Hl.
Qed.

Lemma append_keeps L R p slot count p' r :
  wf L R p -> append_tokens slot count p = Done (p', r) ->
  (exists L', wf L' R p') /\ cfg p' = cfg p /\
  forall q, q ∈ R -> page_image (cfg p) (buffers p') q = page_image (cfg p) (buffers p) q.
Proof.
  intros Hwf Hrun. destruct (decide (count = 0)) as [->|Hcount].
  { unfold append_tokens in Hrun. rewrite bool_decide_eq_false_2 in Hrun by lia. injection Hrun as <- <-.
    split; [by exists L|done]. }
  destruct (slot_exists L R p slot Hwf) as (pages & len & Hp & Hl).
  { intros Hpanic. unfold append_tokens in Hrun. rewrite bool_decide_eq_true_2 in Hrun by lia.
    unfold cow_tail_page_for_append, mbind, eff_bind, reads, slot_shared_hot_tail_page, slot_hot_tail_page in Hrun.
    rewrite Hpanic in Hrun. done. }
  destruct (append_spec L R p slot count pages len Hwf Hp Hl) as (n & s' & r' & _ & Hrun' & Hr).
  rewrite Hrun in Hrun'. injection Hrun' as <- <-. destruct r as [new|e].
  - destruct Hr as [[Hwf' Hc _ _ _ Hlive _] _]. split; [by exists L|]. split; [done|]. intros q Hq. apply Hlive. by right.
  - destruct Hr as [[(lost & Hwf' & _) Hc _ Hlive] _]. split; [by eexists|]. split; [done|]. intros q Hq. apply Hlive. by right.
Qed.

Lemma truncate_keeps L R p slot new_len p' r :
  wf L R p -> truncate_slot slot new_len p = Done (p', r) -> wf L R p' /\ cfg p' = cfg p /\ buffers p' = buffers p.
Proof.
  intros Hwf Hrun. destruct (slot_exists L R p slot Hwf) as (pages & len & Hp & Hl).
  { intros Hpanic. unfold truncate_slot, mbind, eff_bind, reads, seq_len in Hrun. revert Hpanic Hrun.
    unfold slot_hot_tail_len. by destruct (index (seq_lens p) slot). }
  pose proof (truncate_slot_spec L R p slot pages len new_len Hwf Hp Hl) as Hspec. case_decide.
  - rewrite Hrun in Hspec. by injection Hspec as -> ->.
  - destruct Hspec as (s' & freed & Hrun' & Hwf' & [Hc Hb _ _ _] & _). rewrite Hrun in Hrun'. by injection Hrun' as -> ->.
Qed.

Lemma free_keeps L R p slot p' r :
  wf L R p -> free_slot slot p = Done (p', r) -> wf L R p' /\ cfg p' = cfg p /\ buffers p' = buffers p.
Proof.
  intros Hwf Hrun. destruct (page_indices p !! slot) as [pages|] eqn:Hp.
  - destruct (free_slot_spec L R p slot pages Hwf Hp) as (s' & freed & Hrun' & Hwf' & [Hc Hb _ _ _] & _).
    rewrite Hrun in Hrun'. by injection Hrun' as -> ->.
  - unfold free_slot, mbind, eff_bind, reads, slot_pages, index in Hrun. rewrite Hp in Hrun. done.
Qed.

Lemma attach_keeps L R p slot pages token_count p' r :
  wf L R p -> length pages = div_ceil token_count (page_size (cfg p)) ->
  (forall q, q ∈ pages -> N.of_nat (length pages) + default 0 (page_attach_count p !! q) <= u32_max)%N ->
  attach_pages slot pages token_count p = Done (p', r) ->
  (exists L', wf L' R p') /\ cfg p' = cfg p /\ buffers p' = buffers p.
Proof.
  intros Hwf Hlen Hroom Hrun. pose proof (wf_accounts _ _ _ Hwf) as Hacc.
  destruct (slot_exists L R p slot Hwf) as (old & len & Hp & Hl).
  { intros Hpanic. unfold attach_pages, mbind, eff_bind, reads, slot_pages in Hrun. revert Hpanic Hrun.
    unfold slot_hot_tail_len, index. pose proof (wf_slots _ _ _ Hwf) as Hs.
    destruct (page_indices p !! slot) as [pg|] eqn:Hp; [|done].
    destruct (seq_lens p !! slot) as [len|] eqn:Hl; [done|]. apply lookup_ge_None in Hl.
    apply lookup_lt_Some in Hp. rewrite (ok_tables _ Hs) in Hp. rewrite (ok_lens _ Hs) in Hl. lia. }
  destruct (attach_pages_spec L R p slot old len pages token_count Hwf Hp Hl) as (s' & r' & Hrun' & Hr & _); [|done|].
  { intros q Hin. specialize (Hroom q Hin). destruct (decide (q < max_total_pages (cfg p))) as [Hlt|Hge].
    - rewrite (attach_count p _ _ Hacc q Hlt) in Hroom. cbn in Hroom. lia.
    - rewrite (occurrences_notin q) by (by intros ?%(acc_attach_bound _ _ _ Hacc)). lia. }
  rewrite Hrun in Hrun'. injection Hrun' as <- <-. destruct r as [u|e].
  - destruct Hr as (_ & _ & Hwf' & [Hc Hb _ _ _] & _). split; [by exists L|done].
  - destruct Hr as (k & Hwf' & [Hc Hb _ _ _ _] & _). split; [by eexists|done].
Qed.

Lemma retain_pages_one page p : retain_pages [page] p = retain_page page p.
Proof.
  unfold retain_pages, for_each, mbind, eff_bind. by destruct (retain_page page p) as [[p' [[]|e]]| |].
Qed.

Lemma kernel_keeps L R p b : wf L R p -> buffers_ok (cfg p) b -> wf L R (set_buffers b p).
Proof. intros [Hacc [] Hcfg Hbuf] Hb. constructor; try done; by eapply accounts_ext. Qed.

Lemma driver_keeps L R p n : wf L R p -> wf L R (set_driver_calls n p).
Proof. intros [Hacc [] Hcfg Hbuf]. constructor; try done; by eapply accounts_ext. Qed.

(** A retained page counts. *)
Lemma held_count L R p q : wf L R p -> q ∈ R -> exists n, page_ref_count p !! q = Some n /\ (0 < n)%N /\ (N.of_nat (occurrences q R) <= n)%N.
Proof.
  intros Hwf Hq. pose proof (wf_accounts _ _ _ Hwf) as Hacc. exists (N.of_nat (occurrences q R)).
  split; [by apply (ref_count p _ _ Hacc), (acc_ref_bound _ _ _ Hacc)|]. pose proof (occurrences_in q R Hq). lia.
Qed.

Lemma perm_wf L R R' p : R ≡ₚ R' -> wf L R p -> wf L R' p.
Proof. intros HR [Hacc Hslots Hcfg Hbuf]. constructor; try done; by rewrite <-HR. Qed.
Lemma retain_page_inv page p p' r : retain_page page p = Done (p', r) -> r = inl tt /\ page_indices p' = page_indices p /\
  cfg p' = cfg p /\ buffers p' = buffers p /\
  forall q, (default 0 (page_ref_count p' !! q) <= default 0 (page_ref_count p !! q) + 1)%N.
Proof.
  unfold retain_page, put_ref, mbind, eff_bind, reads. destruct (index (page_ref_count p) page) as [n| |] eqn:Hn; cbn; [|done..].
  unfold store_at. case_bool_decide as Hlt; cbn; [|done]. intros [= <- <-]. split_and!; [done..|]. intros q. cbn.
  destruct (decide (q = page)) as [->|]; [|rewrite list_lookup_insert_ne by done; lia].
  apply index_Done in Hn. rewrite list_lookup_insert_eq, Hn by done. unfold u32_saturating_add. cbn. lia.
Qed.

Lemma alloc_detached_inv L R p count p' new :
  wf L R p -> alloc_detached_pages count p = Done (p', inl new) ->
  cfg p' = cfg p /\ forall q, q ∈ new -> q < max_total_pages (cfg p) /\ q ∉ R.
Proof.
  intros Hwf Hrun. pose proof (wf_accounts _ _ _ Hwf) as Hacc. revert Hrun. unfold alloc_detached_pages.
  case_bool_decide; [intros [= <- <-]; split; [done|]; intros q ?%not_elem_of_nil; done|].
  rewrite run_gets. case_bool_decide as Hfree; [done|]. unfold free_page_count in Hfree.
  destruct (pop_retained count _ _ p Hacc ltac:(lia)) as (s1 & l & Hrun & _ & _ & [Hc _ _ _ _ _] & Hf). rewrite Hrun. intros [= <- <-].
  split; [done|]. intros q Hq. assert (q ∈ free_pages p) as Hin by (rewrite Hf; apply elem_of_app; right; by apply elem_of_reverse).
  apply (acc_free _ _ _ Hacc) in Hin. tauto.
Qed.
End step_ok.

Section invariant.
Context {Q : Type} `{CoordinatorHandle Q} `{Driver} `{Recording}.
Implicit Types (s : PageCache Q) (E : list nat).

Lemma world_aside E G s s' : pc_pool s' = pc_pool s -> b2p s' = b2p s -> world_ok E G s -> world_ok E G s'.
Proof. unfold world_ok, named, image_of. by intros -> ->. Qed.

Lemma retain_ok E G s page p r :
  world_ok E G s -> page ∈ concat (page_indices (pc_pool s)) -> (default 0 (page_ref_count (pc_pool s) !! page) < u32_max)%N ->
  retain_page page (pc_pool s) = Done (p, r) -> world_ok (page :: E) G (set_pc_pool p s).
Proof.
  intros Hw Hp Hroom Hrun. pose proof Hw as [[L Hwf] _]. rewrite <-retain_pages_one in Hrun.
  destruct (retain_spec L (E ++ named s) (pc_pool s) [page] Hwf) as (p' & Hrun' & Hwf' & [Hc Hb _ _ _ _] & _).
  { intros q ->%list_elem_of_singleton. left. unfold owned. set_solver. }
  { intros q ->%list_elem_of_singleton. pose proof (wf_accounts _ _ _ Hwf) as Hacc.
    assert (page < max_total_pages (cfg (pc_pool s))) as Hlt by (apply (acc_attach_bound _ _ _ Hacc); unfold owned; set_solver).
    rewrite (ref_count _ _ _ Hacc page Hlt) in Hroom. cbn in Hroom |- *. lia. }
  rewrite Hrun in Hrun'. injection Hrun' as <- ->. eapply same_images'; [exact Hw|by exists L|done|done].
Qed.

Lemma release_held_ok E E' G s pages p r :
  world_ok E G s -> E ≡ₚ pages ++ E' -> release_pages pages (pc_pool s) = Done (p, r) ->
  world_ok E' G (set_pc_pool p s).
Proof.
  intros Hw HE Hrun. pose proof Hw as [[L Hwf] _].
  destruct (release_wf_spec L (E' ++ named s) (pc_pool s) pages) as (p' & freed & Hrun' & Hwf' & [Hc Hb _ _ _ _] & _).
  { eapply perm_wf; [|exact Hwf]. by rewrite HE, <-app_assoc. }
  rewrite Hrun in Hrun'. injection Hrun' as <- ->. eapply same_images'; [exact Hw|by exists L|done|done].
Qed.

Lemma detached_ok E G s count p new :
  world_ok E G s -> alloc_detached_pages count (pc_pool s) = Done (p, inl new) ->
  world_ok (new ++ E) G (set_pc_pool p s).
Proof.
  intros Hw Hrun. pose proof Hw as [[L Hwf] _].
  pose proof (alloc_detached_spec L (E ++ named s) (pc_pool s) count Hwf) as Hspec.
  case_decide; [by rewrite Hrun in Hspec|]. destruct Hspec as (p' & new' & Hrun' & Hwf' & _ & [Hc Hb _ _ _ _] & _).
  rewrite Hrun in Hrun'. injection Hrun' as <- <-. eapply same_images'; [exact Hw| |done|done].
  exists L. by rewrite <-app_assoc.
Qed.

Lemma fill_ok E G s pages payload p r :
  world_ok E G s -> (forall q, q ∈ pages -> q < max_total_pages (cfg (pc_pool s)) /\ q ∉ named s) ->
  copy_pages_from_host pages payload (pc_pool s) = Done (p, r) -> world_ok E G (set_pc_pool p s).
Proof.
  intros Hw Hp Hrun. pose proof Hw as [[L Hwf] _].
  destruct (copy_pages_from_host_inv _ _ _ _ _ (proj1 (buffers_ok_tables _ _) (wf_buffers _ _ _ Hwf))
    ltac:(apply Forall_forall; intros q Hq; by apply Hp) Hrun) as (n & b & -> & Hok & Himg).
  eapply same_images; [exact Hw| |done|].
  - exists L. apply (driver_keeps _ _ (set_buffers b (pc_pool s))), kernel_keeps; [done|]. by apply buffers_ok_tables.
  - intros q Hq. apply Himg. intros Hin. by destruct (Hp q Hin).
Qed.

Lemma record_ok E E' G s b pages :
  world_ok E G s -> b2p s !! b = None -> E ≡ₚ pages ++ E' -> block_id_for_pages pages = Done b ->
  world_ok E' (<[b := (pages, image_of s <$> pages)]> G) (set_b2p (<[b := pages]> (b2p s)) s).
Proof.
  intros ([L Hwf] & HG & Hkey) Hb HE Hid. split; [|split].
  - exists L. eapply perm_wf; [|exact Hwf]. unfold named at 2. cbn. fold (b2p s). rewrite (named_insert s b pages Hb), HE.
    rewrite !app_assoc. apply Permutation_app_tail, Permutation_app_comm.
  - intros b' pages'. cbn. fold (b2p s). intros [[<- <-]|[Hne Hb']]%lookup_insert_Some; [apply lookup_insert_eq|].
    rewrite lookup_insert_ne by done. by apply HG.
  - intros b' pages'. cbn. fold (b2p s). intros [[<- <-]|[_ Hb']]%lookup_insert_Some; [done|by apply Hkey].
Qed.

Lemma forget_ok E G s b pages :
  world_ok E G s -> b2p s !! b = Some pages ->
  world_ok (pages ++ E) (delete b G) (set_b2p (delete b (b2p s)) s).
Proof.
  intros ([L Hwf] & HG & Hkey) Hb. split; [|split].
  - exists L. eapply perm_wf; [|exact Hwf]. unfold named at 2. cbn. fold (b2p s). rewrite (named_delete s b pages Hb).
    rewrite !app_assoc. apply Permutation_app_tail, Permutation_app_comm.
  - intros b' pages'. cbn. fold (b2p s). intros [Hne Hb']%lookup_delete_Some. rewrite lookup_delete_ne by done. by apply HG.
  - intros b' pages'. cbn. fold (b2p s). intros [_ Hb']%lookup_delete_Some. by apply Hkey.
Qed.

Lemma cache_step_ok E G s E' G' s' : world_ok E G s -> cache_step E G s E' G' s' -> world_ok E' G' s'.
Proof.
  intros Hw Hstep. pose proof Hw as [[L Hwf] _].
  destruct Hstep as [s' Hp Hb|n|slot count p r Hrun|slot new_len p r Hrun|slot p r Hrun|slot pages tc p r Hlen Hroom Hrun
    |b Hbuf Himg|page p r Hin Hroom Hrun|pages E' p r HE Hrun|count p new Hrun|pages payload p r Hp Hrun|b pages E' Hb HE Hid Hrec|b pages Hb].
  - by eapply world_aside.
  - eapply same_images'; [exact Hw|exists L; by apply driver_keeps|done|done].
  - destruct (append_keeps _ _ _ _ _ _ _ Hwf Hrun) as (HL & Hc & Himg). eapply same_images; [exact Hw|done|done|].
    intros q Hq. apply Himg. set_solver.
  - destruct (truncate_keeps _ _ _ _ _ _ _ Hwf Hrun) as (HL & Hc & Hb). eapply same_images'; eauto.
  - destruct (free_keeps _ _ _ _ _ _ Hwf Hrun) as (HL & Hc & Hb). eapply same_images'; eauto.
  - destruct (attach_keeps _ _ _ _ _ _ _ _ Hwf Hlen Hroom Hrun) as (HL & Hc & Hb). eapply same_images'; eauto.
  - eapply same_images; [exact Hw|exists L; by apply kernel_keeps|done|]. intros q Hq. apply Himg.
    destruct (held_count _ _ _ q Hwf ltac:(set_solver)) as (n & -> & Hn & _). intros [= ->]. lia.
  - by eapply retain_ok.
  - by eapply release_held_ok.
  - by eapply detached_ok.
  - by eapply fill_ok.
  - by eapply record_ok.
  - by eapply forget_ok.
Qed.

Lemma cache_step_cfg E G s E' G' s' : world_ok E G s -> cache_step E G s E' G' s' -> cfg (pc_pool s') = cfg (pc_pool s).
Proof.
  intros [[L Hwf] _] Hstep.
  destruct Hstep as [s' Hp Hb|n|slot count p r Hrun|slot new_len p r Hrun|slot p r Hrun|slot pages tc p r Hlen Hroom Hrun
    |b Hbuf Himg|page p r Hin Hroom Hrun|pages E' p r HE Hrun|count p new Hrun|pages payload p r Hp Hrun|b pages E' Hb HE Hid Hrec|b pages Hb];
    cbn; try done.
  - by rewrite Hp.
  - by eapply append_keeps.
  - by eapply truncate_keeps.
  - by eapply free_keeps.
  - by eapply attach_keeps.
  - by eapply retain_page_inv.
  - destruct (release_wf_spec L (E' ++ named s) (pc_pool s) pages) as (p' & freed & Hrun' & _ & [Hc _ _ _ _ _] & _).
    { eapply perm_wf; [|exact Hwf]. by rewrite HE, <-app_assoc. } rewrite Hrun in Hrun'. by injection Hrun' as <- ->.
  - by eapply alloc_detached_inv.
  - destruct (copy_pages_from_host_inv _ _ _ _ _ (proj1 (buffers_ok_tables _ _) (wf_buffers _ _ _ Hwf))
      ltac:(apply Forall_forall; intros q Hq; by apply Hp) Hrun) as (n & b & -> & _). done.
Qed.
End invariant.

(** ** Runs *)
Section runs.
Context {Q : Type} `{CoordinatorHandle Q} `{Driver} `{Recording}.
Abbreviation page_eff := (eff (PageCache Q) cache_error).
Implicit Types (s : PageCache Q) (E : list nat).

(** A world: the pages in hand, the images recorded, the state. *)
Definition world : Type := list nat * gmap BlockId (list nat * list (list (list (list N)))) * PageCache Q.
Definition world_step (w w' : world) : Prop := cache_step w.1.1 w.1.2 w.2 w'.1.1 w'.1.2 w'.2.
Definition cache_run : world -> world -> Prop := rtc world_step.

Lemma cache_run_ok w w' : world_ok w.1.1 w.1.2 w.2 -> cache_run w w' -> world_ok w'.1.1 w'.1.2 w'.2.
Proof. intros Hw Hrun. revert Hw. induction Hrun; [done|]. intros Hw. by eapply IHHrun, cache_step_ok. Qed.

(** What is recorded at the end was recorded at the beginning, or by the way. *)
Lemma run_kept w w' b x : cache_run w w' -> w'.1.2 !! b = Some x -> w.1.2 !! b = Some x \/ recordable b x.1 x.2.
Proof.
  induction 1 as [w|[[E G] s] [[E1 G1] s1] w' Hstep _ IH]; [by left|]. intros Hx. destruct (IH Hx) as [Hx1|]; [|by right].
  cbn in Hx1. unfold world_step in Hstep. cbn in Hstep. destruct Hstep; try (by left).
  - apply lookup_insert_Some in Hx1 as [[<- <-]|[_ ?]]; [by right|by left].
  - apply lookup_delete_Some in Hx1 as [_ ?]. by left.
Qed.

(** The pool keeps its configuration. *)
Lemma cache_run_cfg w w' : world_ok w.1.1 w.1.2 w.2 -> cache_run w w' -> cfg (pc_pool w'.2) = cfg (pc_pool w.2).
Proof.
  intros Hw Hrun. revert Hw. induction Hrun as [|[[E G] s] [[E1 G1] s1] w' Hstep _ IH]; [done|]. intros Hw.
  rewrite IH by by eapply cache_step_ok. by eapply cache_step_cfg.
Qed.

(** A state is reached by elementary steps. *)
Definition reaches (w : world) (s' : PageCache Q) : Prop := exists E' G', cache_run w (E', G', s').

Definition runs {A} (m : page_eff A) : Prop :=
  forall E G s s' r, world_ok E G s -> m s = Done (s', r) -> reaches (E, G, s) s'.

(** A call that touches neither the pool nor the pages of the blocks. *)
Definition quiet {A} (m : page_eff A) : Prop :=
  forall s s' r, m s = Done (s', r) -> pc_pool s' = pc_pool s /\ b2p s' = b2p s.

Lemma reaches_trans w w' s' : cache_run w w' -> reaches w' s' -> reaches w s'.
Proof.
  intros Hrun (E' & G' & H'). exists E', G'. by etransitivity.
Qed.

Lemma run_aside E G s s' : pc_pool s' = pc_pool s -> b2p s' = b2p s -> cache_run (E, G, s) (E, G, s').
Proof. intros. by apply rtc_once, step_aside. Qed.

Lemma reaches_once E G s E' G' s' : cache_step E G s E' G' s' -> reaches (E, G, s) s'.
Proof. intros. exists E', G'. by apply rtc_once. Qed.

Lemma quiet_runs {A} (m : page_eff A) : quiet m -> runs m.
Proof. intros Hq E G s s' r _ Hrun. destruct (Hq s s' r Hrun). exists E, G. by apply run_aside. Qed.

Lemma runs_bind {A B} (m : page_eff A) (k : A -> page_eff B) : runs m -> (forall a, runs (k a)) -> runs (m ≫= k).
Proof.
  intros Hm Hk E G s s' r Hw [(s1 & a & Hrun & Hrest)|(e & Hrun & ->)]%run_bind_inv; [|by eapply Hm].
  destruct (Hm _ _ _ _ _ Hw Hrun) as (E1 & G1 & H1').
  eapply reaches_trans; [exact H1'|]. eapply Hk; [|exact Hrest]. by apply (cache_run_ok (E, G, s) (E1, G1, s1) Hw H1').
Qed.

Lemma runs_try {A} (m : page_eff A) : runs m -> runs (try m).
Proof.
  intros Hm E G s s' r Hw. unfold try. destruct (m s) as [[s1 r1]| |] eqn:Hrun; [|done|done]. intros [= <- <-]. by eapply Hm.
Qed.

Lemma runs_for_each {X} (l : list X) (body : X -> page_eff unit) : (forall x, runs (body x)) -> runs (for_each l body).
Proof.
  intros Hb. induction l as [|x l IH]; [by apply quiet_runs; intros ? ? ? [= <- <-]|]. by apply runs_bind.
Qed.

Lemma quiet_ret {A} (a : A) : quiet (mret a).
Proof. by intros ? ? ? [= <- <-]. Qed.
Lemma quiet_throw {A} (e : cache_error) : quiet (throw e : page_eff A).
Proof. by intros ? ? ? [= <- <-]. Qed.
Lemma quiet_gets {A} (f : PageCache Q -> A) : quiet (gets f).
Proof. by intros ? ? ? [= <- <-]. Qed.
Lemma quiet_of_res {A} (r : res A) : quiet (of_res r : page_eff A).
Proof. intros s s' r'. unfold of_res. destruct r; cbn; [|done..]. by intros [= <- <-]. Qed.
Lemma quiet_bind {A B} (m : page_eff A) (k : A -> page_eff B) : quiet m -> (forall a, quiet (k a)) -> quiet (m ≫= k).
Proof.
  intros Hm Hk s s' r [(s1 & a & Hrun & Hrest)|(e & Hrun & ->)]%run_bind_inv; [|by eapply Hm].
  destruct (Hm _ _ _ Hrun) as [Hp Hb], (Hk a _ _ _ Hrest) as [Hp' Hb']. by rewrite Hp', Hb'.
Qed.
Lemma quiet_try {A} (m : page_eff A) : quiet m -> quiet (try m).
Proof. intros Hm s s' r. unfold try. destruct (m s) as [[s1 r1]| |] eqn:Hrun; [|done|done]. intros [= <- <-]. by eapply Hm. Qed.
Lemma quiet_for_each {X} (l : list X) (body : X -> page_eff unit) : (forall x, quiet (body x)) -> quiet (for_each l body).
Proof. intros Hb. induction l as [|x l IH]; [apply quiet_ret|]. by apply quiet_bind. Qed.

Lemma quiet_in_cache {A} (f : RadixCache -> res (RadixCache * A)) : quiet (in_cache f).
Proof. intros s s' r. unfold in_cache. destruct (f (pc_cache s)) as [[c a]| |]; cbn; [|done..]. by intros [= <- <-]. Qed.
Lemma quiet_from_cache {A} (f : RadixCache -> res A) : quiet (from_cache f).
Proof. intros s s' r. unfold from_cache. destruct (f (pc_cache s)) as [a| |]; cbn; [|done..]. by intros [= <- <-]. Qed.
Lemma quiet_from_pool {A} (f : TokenKVPool -> res A) : quiet (from_pool f).
Proof. intros s s' r. unfold from_pool, in_pool, reads. destruct (f (pc_pool s)) as [a| |]; cbn; [|done..]. by intros [= <- <-]. Qed.
Lemma quiet_in_host {A} (f : SharedHostPinnedPool -> res (SharedHostPinnedPool * HostPool.result A)) : quiet (in_host f).
Proof. intros s s' r. unfold in_host. destruct (f (pc_host s)) as [[h a]| |]; cbn; [|done..]. by intros [= <- <-]. Qed.
Lemma quiet_on_sessions (f : SessionTable -> SessionTable) : quiet (on_sessions f).
Proof. by intros s s' r [= <- <-]. Qed.
Lemma quiet_on_stores (f : StoreTables -> StoreTables) : quiet (on_stores f).
Proof. by intros s s' r [= <- <-]. Qed.
Lemma quiet_on_tables (f : PageTables -> PageTables) : (forall t, block_to_pages (f t) = block_to_pages t) -> quiet (on_tables f).
Proof. intros Hf s s' r [= <- <-]. split; [done|]. apply Hf. Qed.
Lemma quiet_modify (f : PageCache Q -> PageCache Q) :
  (forall s, pc_pool (f s) = pc_pool s /\ pc_tables (f s) = pc_tables s) -> quiet (modify f).
Proof. intros Hf s s' r [= <- <-]. destruct (Hf s) as [Hp Ht]. split; [done|]. unfold b2p. by rewrite Ht. Qed.
End runs.

Create HintDb pages discriminated.
#[export] Hint Resolve quiet_ret quiet_throw quiet_gets quiet_of_res quiet_bind quiet_try quiet_for_each quiet_in_cache
  quiet_from_cache quiet_from_pool quiet_in_host quiet_on_sessions quiet_on_stores : pages.

(** Through a method, one call after the other. *)
Ltac quiet_step :=
  first
    [ progress intros
    | match goal with |- quiet (?m ≫= ?k) => apply quiet_bind end
    | match goal with |- quiet (try _) => apply quiet_try end
    | match goal with |- quiet (for_each _ _) => apply quiet_for_each end
    | match goal with |- quiet (on_tables _) => apply quiet_on_tables; done end
    | match goal with |- quiet (modify _) => apply quiet_modify; done end
    | solve [eauto 2 with pages]
    | match goal with |- quiet (match ?x with _ => _ end) => destruct x end
    | match goal with |- quiet (let '(_, _) := ?x in _) => destruct x end ].
Ltac quiet_tac := repeat quiet_step.
Ltac runs_step :=
  first
    [ progress intros
    | match goal with |- runs (?m ≫= ?k) => apply runs_bind end
    | match goal with |- runs (try _) => apply runs_try end
    | match goal with |- runs (for_each _ _) => apply runs_for_each end
    | solve [eauto 2 with pages]
    | solve [apply quiet_runs; quiet_tac]
    | match goal with |- runs (match ?x with _ => _ end) => destruct x end ].
Ltac runs_tac := repeat runs_step.

(** *** From a known state *)
Section at_state.
Context {Q : Type} `{CoordinatorHandle Q} `{Driver} `{Blake3} `{Recording} (env : PageEnv).
Abbreviation page_eff := (eff (PageCache Q) cache_error).
Implicit Types (s : PageCache Q) (E : list nat).

Definition runs_at {A} E (G : gmap BlockId (list nat * list (list (list (list N))))) s (m : page_eff A) : Prop :=
  world_ok E G s -> forall s' r, m s = Done (s', r) -> reaches (E, G, s) s'.

Lemma runs_at_all {A} (m : page_eff A) : (forall E G s, runs_at E G s m) -> runs m.
Proof. intros Hm E G s s' r Hw. by apply Hm. Qed.

Lemma at_runs {A} E G s (m : page_eff A) : runs m -> runs_at E G s m.
Proof. intros Hm Hw s' r. by apply Hm. Qed.

Lemma at_gets {A B} E G s (f : PageCache Q -> A) (k : A -> page_eff B) : runs_at E G s (k (f s)) -> runs_at E G s (gets f ≫= k).
Proof. done. Qed.

Lemma at_of_res {A B} E G s (x : res A) (k : A -> page_eff B) :
  (forall a, x = Done a -> runs_at E G s (k a)) -> runs_at E G s (of_res x ≫= k).
Proof. intros Hk Hw s' r. destruct x as [a| |]; [|done..]. by apply Hk. Qed.

Lemma at_quiet {A B} E G s (m : page_eff A) (k : A -> page_eff B) :
  quiet m ->
  (forall a s1, m s = Done (s1, inl a) -> pc_pool s1 = pc_pool s -> b2p s1 = b2p s -> runs_at E G s1 (k a)) ->
  runs_at E G s (m ≫= k).
Proof.
  intros Hm Hk Hw s' r [(s1 & a & Hrun & Hrest)|(e & Hrun & ->)]%run_bind_inv; destruct (Hm _ _ _ Hrun) as [Hp Hb].
  - eapply reaches_trans; [by apply run_aside|]. eapply Hk; [exact Hrun|done|done| |exact Hrest]. by eapply world_aside.
  - exists E, G. by apply run_aside.
Qed.

Lemma at_aside {A B} E G s s1 (m : page_eff A) a (k : A -> page_eff B) :
  m s = Done (s1, inl a) -> pc_pool s1 = pc_pool s -> b2p s1 = b2p s -> runs_at E G s1 (k a) -> runs_at E G s (m ≫= k).
Proof.
  intros Hm Hp Hb Hk Hw s' r. rewrite (run_bind_ok _ _ _ _ _ Hm). intros Hr.
  eapply reaches_trans; [by apply run_aside|]. eapply Hk; [|exact Hr]. by eapply world_aside.
Qed.

Lemma at_run {A} E G s E1 G1 s1 (m : page_eff A) :
  cache_run (E, G, s) (E1, G1, s1) -> runs_at E1 G1 s1 m -> world_ok E G s ->
  forall s' r, m s1 = Done (s', r) -> reaches (E, G, s) s'.
Proof.
  intros Hrun Hm Hw s' r Hr. eapply reaches_trans; [exact Hrun|]. eapply Hm; [|exact Hr].
  by apply (cache_run_ok (E, G, s) (E1, G1, s1) Hw Hrun).
Qed.

Lemma in_pool_inv {A} (m : pool_eff A) s s' r :
  in_pool m s = Done (s', r) -> exists p r', m (pc_pool s) = Done (p, r') /\ s' = set_pc_pool p s /\
    r = match r' with inl a => inl a | inr e => inr (PagedPool e) end.
Proof. unfold in_pool. destruct (m (pc_pool s)) as [[p r']| |]; cbn; [|done..]. intros [= <- <-]. by exists p, r'. Qed.

(** A pool call that is an elementary step whatever it returns, or on success
    only, with what follows. *)
Lemma at_pool {A B} E G s (m : pool_eff A) (k : A -> page_eff B) (Ea : A -> list nat) :
  (forall p a, m (pc_pool s) = Done (p, inl a) ->
     cache_run (E, G, s) (Ea a, G, set_pc_pool p s) /\ runs_at (Ea a) G (set_pc_pool p s) (k a)) ->
  (forall p e, m (pc_pool s) = Done (p, inr e) -> reaches (E, G, s) (set_pc_pool p s)) ->
  runs_at E G s (in_pool m ≫= k).
Proof.
  intros Hok Herr Hw s' r [(s1 & a & Hrun & Hrest)|(e & Hrun & ->)]%run_bind_inv;
    apply in_pool_inv in Hrun as (p & [a'|e'] & Hm & -> & Hr); try done; [|by eapply Herr].
  injection Hr as ->. destruct (Hok _ _ Hm) as [Hstep Hk]. by eapply at_run.
Qed.

Lemma at_assoc {A B C} E G s (m : page_eff A) (f : A -> page_eff B) (g : B -> page_eff C) :
  runs_at E G s (m ≫= fun a => f a ≫= g) -> runs_at E G s ((m ≫= f) ≫= g).
Proof.
  intros Hm Hw s' r Hr. apply (Hm Hw s' r). revert Hr. unfold mbind, eff_bind. by destruct (m s) as [[s1 [a|e]]| |].
Qed.

Lemma at_forget {B} E G s b pages (f : PageTables -> PageTables) (k : unit -> page_eff B) :
  b2p s !! b = Some pages -> f (pc_tables s) = set_block_to_pages (delete b (b2p s)) (pc_tables s) ->
  runs_at (pages ++ E) (delete b G) (set_b2p (delete b (b2p s)) s) (k tt) -> runs_at E G s (on_tables f ≫= k).
Proof.
  intros Hb Hf Hk Hw s' r Hr. assert (k tt (set_b2p (delete b (b2p s)) s) = Done (s', r)) as Hr'.
  { rewrite <-Hr. unfold on_tables, mbind, eff_bind, modify, set_b2p. by rewrite Hf. }
  eapply at_run; [|exact Hk|exact Hw|exact Hr']. by apply rtc_once, step_forget.
Qed.

Lemma at_record {B} E E' G s b pages (f : PageTables -> PageTables) (k : unit -> page_eff B) :
  b2p s !! b = None -> E ≡ₚ pages ++ E' -> block_id_for_pages pages = Done b -> recordable b pages (image_of s <$> pages) ->
  f (pc_tables s) = set_block_to_pages (<[b := pages]> (b2p s)) (pc_tables s) ->
  runs_at E' (<[b := (pages, image_of s <$> pages)]> G) (set_b2p (<[b := pages]> (b2p s)) s) (k tt) -> runs_at E G s (on_tables f ≫= k).
Proof.
  intros Hb HE Hid Hrec Hf Hk Hw s' r Hr. assert (k tt (set_b2p (<[b := pages]> (b2p s)) s) = Done (s', r)) as Hr'.
  { rewrite <-Hr. unfold on_tables, mbind, eff_bind, modify, set_b2p. by rewrite Hf. }
  eapply at_run; [|exact Hk|exact Hw|exact Hr']. by apply rtc_once, step_record.
Qed.

Lemma at_release {B} E E' G s pages (k : list nat -> page_eff B) :
  E ≡ₚ pages ++ E' -> (forall p freed, runs_at E' G (set_pc_pool p s) (k freed)) ->
  runs_at E G s (in_pool (release_pages pages) ≫= k).
Proof.
  intros HE Hk. apply (at_pool _ _ _ _ _ (fun _ => E')).
  - intros p a Hrun. split; [|apply Hk]. apply rtc_once. by eapply step_release.
  - intros p e Hrun. eapply reaches_once. by eapply step_release.
Qed.

Lemma at_ok {A} E G s (m : page_eff A) : (world_ok E G s -> runs_at E G s m) -> runs_at E G s m.
Proof. intros Hm Hw. by apply Hm. Qed.

Lemma at_to_host {B} E G s pages (k : list N -> page_eff B) :
  (forall q, q ∈ pages -> q < max_total_pages (cfg (pc_pool s))) ->
  (forall p payload, pc_pool s = p -> forall n, runs_at E G (set_pc_pool (set_driver_calls n p) s) (k payload)) ->
  runs_at E G s (in_pool (copy_pages_to_host pages) ≫= k).
Proof.
  intros Hp Hk. apply at_ok. intros [[L Hwf] _].
  assert (forall p r, copy_pages_to_host pages (pc_pool s) = Done (p, r) -> exists n, p = set_driver_calls n (pc_pool s)) as Hinv.
  { intros p r. apply copy_pages_to_host_inv; [by apply buffers_ok_tables, (wf_buffers _ _ _ Hwf)|].
    apply Forall_forall. intros q Hq. by apply Hp. }
  apply (at_pool _ _ _ _ _ (fun _ => E)).
  - intros p a Hrun. destruct (Hinv _ _ Hrun) as [n ->]. split; [apply rtc_once, step_driver|by apply Hk].
  - intros p e Hrun. destruct (Hinv _ _ Hrun) as [n ->]. eapply reaches_once, step_driver.
Qed.

(** The pool has the pages the blocks name. *)
Lemma named_bound E G s q : world_ok E G s -> q ∈ named s -> q < max_total_pages (cfg (pc_pool s)).
Proof. intros [[L Hwf] _] Hq. eapply (acc_ref_bound _ _ _ (wf_accounts _ _ _ Hwf)), elem_of_app. by right. Qed.
End at_state.

Section operations.
Context {Q : Type} `{CoordinatorHandle Q} `{Driver} `{Blake3} `{Recording} (env : PageEnv).
Abbreviation page_eff := (eff (PageCache Q) cache_error).
Implicit Types (s : PageCache Q) (E : list nat).

Lemma quiet_block_metadata b : quiet (block_metadata (Q := Q) b).
Proof. apply quiet_gets. Qed.
Lemma quiet_update_cache f : quiet (update_cache (Q := Q) f).
Proof. apply quiet_in_cache. Qed.
#[local] Hint Resolve quiet_block_metadata quiet_update_cache : pages.

Lemma quiet_release_host_region region : quiet (release_host_region (Q := Q) region).
Proof. unfold release_host_region. quiet_tac. Qed.
Lemma quiet_delete_disk md : quiet (delete_disk_block_if_present (Q := Q) md).
Proof. unfold delete_disk_block_if_present. quiet_tac. Qed.
Lemma quiet_evict_sessions mode tier : quiet (evict_sessions (Q := Q) env mode tier).
Proof. intros s s' r. unfold evict_sessions. case_match. by intros [= <- <-]. Qed.
Lemma quiet_evict_unprotected n tier intent : quiet (evict_unprotected (Q := Q) env n tier intent).
Proof. unfold evict_unprotected. quiet_tac. Qed.
Lemma quiet_allocate_tier_block_id : quiet (allocate_tier_block_id (Q := Q)).
Proof. unfold allocate_tier_block_id. quiet_tac. Qed.
Lemma quiet_reserve_host_region len : quiet (reserve_host_region (Q := Q) len).
Proof. unfold reserve_host_region. quiet_tac. Qed.
#[local] Hint Resolve quiet_release_host_region quiet_delete_disk quiet_evict_sessions quiet_evict_unprotected
  quiet_allocate_tier_block_id quiet_reserve_host_region : pages.
Lemma quiet_or_release {A} region (m : page_eff A) : quiet m -> quiet (or_release region m).
Proof. unfold or_release. intros Hm. quiet_tac. Qed.

Lemma quiet_spill_loop l : forall bytes headroom spilled, quiet (spill_loop (Q := Q) env l bytes headroom spilled).
Proof. induction l as [|b l IH]; intros; cbn [spill_loop]; quiet_tac. Qed.
#[local] Hint Resolve quiet_spill_loop : pages.
Lemma quiet_spill intent : quiet (spill_host_blocks_if_pressured (Q := Q) env intent).
Proof. unfold spill_host_blocks_if_pressured. quiet_tac. Qed.
#[local] Hint Resolve quiet_spill : pages.
Lemma quiet_drain : quiet (trigger_background_store_drain (Q := Q) env).
Proof. unfold trigger_background_store_drain. quiet_tac. Qed.
Lemma quiet_store_event event : quiet (handle_store_event (Q := Q) event).
Proof. unfold handle_store_event. quiet_tac. Qed.
Lemma quiet_materialize blocks : quiet (materialize_prefetched_host_blocks (Q := Q) env blocks).
Proof. induction blocks as [|b blocks IH]; cbn [materialize_prefetched_host_blocks]; unfold materialize_prefetched_block; quiet_tac. Qed.
Lemma quiet_clear slot : quiet (clear_slot_prefix_ownership (Q := Q) slot).
Proof. unfold clear_slot_prefix_ownership. quiet_tac. Qed.
Lemma quiet_put_materialized slot len : quiet (put_materialized (Q := Q) slot len).
Proof. unfold put_materialized. quiet_tac. Qed.
Lemma quiet_flatten l : forall acc, quiet (flattened_pages_for_blocks (Q := Q) l acc).
Proof. induction l as [|b l IH]; intros; cbn [flattened_pages_for_blocks]; quiet_tac. Qed.
Lemma quiet_select_gpu n : quiet (select_gpu_candidates (Q := Q) env n).
Proof. unfold select_gpu_candidates. quiet_tac. Qed.

Lemma runs_drop_cached_block b : runs (drop_cached_block (Q := Q) b).
Proof.
  apply runs_at_all. intros E G s. unfold drop_cached_block. apply at_gets.
  destruct (is_some _); [apply at_runs, quiet_runs, quiet_ret|]. apply at_gets, at_gets.
  destruct (block_to_pages (pc_tables s) !! b) as [pages|] eqn:Hb.
  - apply at_assoc. eapply (at_forget _ _ _ b pages); [done|done|]. apply at_assoc.
    eapply at_release; [done|]. intros p freed. apply at_runs, quiet_runs. quiet_tac.
  - apply at_runs, quiet_runs. quiet_tac.
Qed.
#[local] Hint Resolve runs_drop_cached_block : pages.
Lemma runs_drop_cached_blocks l : runs (drop_cached_blocks (Q := Q) l).
Proof. induction l as [|b l IH]; cbn [drop_cached_blocks]; runs_tac. Qed.
#[local] Hint Resolve runs_drop_cached_blocks : pages.

Lemma runs_evict_host_loop n : forall bytes mode acc, runs (evict_host_loop (Q := Q) env n bytes mode acc).
Proof. induction n as [|n IH]; intros; cbn [evict_host_loop]; runs_tac. Qed.
#[local] Hint Resolve runs_evict_host_loop : pages.
Lemma runs_evict_host bytes mode : runs (evict_host_blocks_for_demote_headroom (Q := Q) env bytes mode).
Proof. unfold evict_host_blocks_for_demote_headroom. runs_tac. Qed.
#[local] Hint Resolve runs_evict_host : pages.
Lemma runs_ensure bytes : runs (ensure_host_demote_headroom (Q := Q) env bytes).
Proof. unfold ensure_host_demote_headroom. runs_tac. Qed.
#[local] Hint Resolve runs_ensure : pages.
Lemma runs_drop_for_pages n : runs (drop_for_pages (Q := Q) env n).
Proof. unfold drop_for_pages. runs_tac. Qed.

(** *** Making room on the host

    A block that loses its pages while room is made has been evicted: it is not
    in the index any more. *)
Definition spares {A} (m : page_eff A) : Prop :=
  forall s s' r, m s = Done (s', r) -> block_index (pc_cache s') ⊆ block_index (pc_cache s) /\
    forall b, b2p s' !! b = b2p s !! b \/ block_index (pc_cache s') !! b = None.

(** A call that touches neither the tree nor the pages of the blocks. *)
Definition still {A} (m : page_eff A) : Prop :=
  forall s s' r, m s = Done (s', r) -> pc_cache s' = pc_cache s /\ b2p s' = b2p s.

Lemma still_spares {A} (m : page_eff A) : still m -> spares m.
Proof. intros Hm s s' r Hrun. destruct (Hm _ _ _ Hrun) as [-> ->]. split; [done|]. by left. Qed.

Lemma still_bind {A B} (m : page_eff A) (k : A -> page_eff B) : still m -> (forall a, still (k a)) -> still (m ≫= k).
Proof.
  intros Hm Hk s s' r [(s1 & a & Hrun & Hrest)|(e & Hrun & ->)]%run_bind_inv; [|by eapply Hm].
  destruct (Hm _ _ _ Hrun) as [Hp Hb], (Hk a _ _ _ Hrest) as [Hp' Hb']. by rewrite Hp', Hb'.
Qed.
Lemma still_try {A} (m : page_eff A) : still m -> still (try m).
Proof. intros Hm s s' r. unfold try. destruct (m s) as [[s1 r1]| |] eqn:Hrun; [|done|done]. intros [= <- <-]. by eapply Hm. Qed.
Lemma still_ret {A} (a : A) : still (mret a).
Proof. by intros ? ? ? [= <- <-]. Qed.
Lemma still_throw {A} e : still (throw e : page_eff A).
Proof. by intros ? ? ? [= <- <-]. Qed.
Lemma still_gets {A} (f : PageCache Q -> A) : still (gets f).
Proof. by intros ? ? ? [= <- <-]. Qed.
Lemma still_in_host {A} (f : SharedHostPinnedPool -> res (SharedHostPinnedPool * HostPool.result A)) : still (in_host f).
Proof. intros s s' r. unfold in_host. destruct (f (pc_host s)) as [[h a]| |]; cbn; [|done..]. by intros [= <- <-]. Qed.
Lemma still_in_pool {A} (f : pool_eff A) : still (in_pool f).
Proof. intros s s' r. unfold in_pool. destruct (f (pc_pool s)) as [[h a]| |]; cbn; [|done..]. by intros [= <- <-]. Qed.
Lemma still_release_host region : still (release_host_region (Q := Q) region).
Proof. apply still_bind; [apply still_try, still_in_host|]. intros. apply still_ret. Qed.
Lemma still_or_release {A} region (m : page_eff A) : still m -> still (or_release region m).
Proof.
  intros Hm. apply still_bind; [by apply still_try|]. intros [a|e]; [apply still_ret|].
  apply still_bind; [apply still_release_host|]. intros. apply still_throw.
Qed.
Lemma still_allocate : still (allocate_tier_block_id (Q := Q)).
Proof.
  intros s s' r. unfold allocate_tier_block_id. rewrite !run_gets. unfold mbind, eff_bind, of_res, on_tables, modify.
  destruct (find_tier_id _ _ _ _ _) as [[[b|] next]| |]; cbn; [|..|done|done]; by intros [= <- <-].
Qed.

Lemma spares_bind {A B} (m : page_eff A) (k : A -> page_eff B) : spares m -> (forall a, spares (k a)) -> spares (m ≫= k).
Proof.
  intros Hm Hk s s' r [(s1 & a & Hrun & Hrest)|(e & Hrun & ->)]%run_bind_inv; [|by eapply Hm].
  destruct (Hm _ _ _ Hrun) as [Hs Hb], (Hk a _ _ _ Hrest) as [Hs' Hb']. split; [by etransitivity|].
  intros b. destruct (Hb' b) as [->|]; [|by right]. destruct (Hb b) as [|Hout]; [by left|]. right. by eapply find_stays_out.
Qed.

Lemma drop_keeps b s s' r : drop_cached_block (Q := Q) b s = Done (s', r) ->
  pc_cache s' = pc_cache s /\ forall b', b' <> b -> b2p s' !! b' = b2p s !! b'.
Proof.
  unfold drop_cached_block. rewrite run_gets. destruct (is_some _); [by intros [= <- <-]|].
  unfold block_metadata. rewrite !run_gets.
  assert (forall md (n : nat), still (match md ≫= host_region_from_metadata with Some region => release_host_region region | None => mret tt end;;
    on_tables (fun t => set_block_owner_slots (delete b (block_owner_slots t)) t);;
    match md with Some meta => delete_disk_block_if_present (Q := Q) meta | None => mret tt end;; mret n)) as Htail.
  { intros md n. apply still_bind; [destruct (md ≫= _); [apply still_release_host|apply still_ret]|]. intros _.
    apply still_bind; [by intros ? ? ? [= <- <-]|]. intros _. apply still_bind; [|intros; apply still_ret].
    destruct md as [meta|]; [|apply still_ret]. unfold delete_disk_block_if_present.
    destruct (md_location meta) as [[]|]; (apply still_ret || by intros ? ? ? [= <- <-]). }
  destruct (block_to_pages (pc_tables s) !! b) as [pages|].
  - intros [(s1 & n & Hrun & Hrest)|(e & Hrun & ->)]%run_bind_inv.
    all: apply run_bind_inv in Hrun as [(s2 & [] & [= <-] & Hrun)|(e' & [=] & _)].
    1: apply run_bind_inv in Hrun as [(s3 & freed & Hrun & [= <- <-])|(e' & Hrun & [=])].
    2: apply run_bind_inv in Hrun as [(s3 & freed & Hrun & [=])|(e' & Hrun & _)].
    1: destruct (Htail _ _ _ _ _ Hrest) as [-> ->].
    all: destruct (still_in_pool _ _ _ _ Hrun) as [-> ->]; split; [done|]; intros b' Hne; by apply lookup_delete_ne.
  - intros Hrun. destruct (still_bind _ _ (still_ret _) (Htail (RadixMeta.block_metadata b (pc_cache s))) _ _ _ Hrun) as [-> ->]. done.
Qed.

Lemma drop_all_keeps l : forall s s' r, drop_cached_blocks (Q := Q) l s = Done (s', r) ->
  pc_cache s' = pc_cache s /\ forall b, b ∉ l -> b2p s' !! b = b2p s !! b.
Proof.
  induction l as [|b l IH]; intros s s' r; cbn [drop_cached_blocks]; [by intros [= <- <-]|].
  intros [(s1 & n & Hrun & Hrest)|(e & Hrun & ->)]%run_bind_inv; destruct (drop_keeps _ _ _ _ Hrun) as [Hc Hb].
  - enough (pc_cache s' = pc_cache s1 /\ forall b, b ∉ l -> b2p s' !! b = b2p s1 !! b) as [Hc' Hb'].
    { split; [by rewrite Hc', Hc|]. intros b' Hb''. rewrite Hb', Hb; set_solver. }
    apply run_bind_inv in Hrest as [(s2 & n' & Hrun' & [= <- <-])|(e & Hrun' & ->)]; by eapply IH.
  - split; [done|]. intros b' Hb'. apply Hb. set_solver.
Qed.

(** What is evicted is out of the index before it is dropped. *)
Lemma evict_unprotected_index n tier intent s s' evicted :
  evict_unprotected (Q := Q) env n tier intent s = Done (s', inl evicted) ->
  b2p s' = b2p s /\ block_index (pc_cache s') ⊆ block_index (pc_cache s) /\
  forall b, b ∈ evicted -> block_index (pc_cache s') !! b = None.
Proof.
  unfold evict_unprotected. rewrite run_gets. unfold in_cache.
  destruct (evict_with_policy_for_intent_excluding _ _ _ _ _ _ _) as [[c freed]| |] eqn:Hev; cbn; [|done..]. intros [= <- <-].
  split; [done|]. by apply evict_index in Hev.
Qed.

Lemma evict_then_drop n tier intent s s1 evicted s' r :
  evict_unprotected (Q := Q) env n tier intent s = Done (s1, inl evicted) -> drop_cached_blocks (Q := Q) evicted s1 = Done (s', r) ->
  block_index (pc_cache s') ⊆ block_index (pc_cache s) /\
  forall b, b2p s' !! b = b2p s !! b \/ block_index (pc_cache s') !! b = None.
Proof.
  intros Hev Hdrop. destruct (evict_unprotected_index _ _ _ _ _ _ Hev) as (Hb & Hsub & Hout).
  destruct (drop_all_keeps _ _ _ _ Hdrop) as [Hc Hk]. rewrite Hc. split; [done|]. intros b.
  destruct (decide (b ∈ evicted)) as [Hin|Hno]; [right; by apply Hout|left]. by rewrite Hk, Hb.
Qed.

Lemma spares_evict_loop passes : forall bytes mode acc, spares (evict_host_loop (Q := Q) env passes bytes mode acc).
Proof.
  induction passes as [|passes IH]; intros bytes mode acc; cbn [evict_host_loop]; [apply still_spares, still_ret|].
  apply spares_bind; [apply still_spares, still_gets|]. intros headroom. destruct (_ <=? _)%N; [apply still_spares, still_ret|].
  apply spares_bind; [apply still_spares; intros s s' r; unfold evict_sessions; case_match; by intros [= <- <-]|]. intros released.
  intros s s' r [(s1 & evicted & Hrun & Hrest)|(e & Hrun & ->)]%run_bind_inv.
  2: { unfold evict_unprotected in Hrun. rewrite run_gets in Hrun. unfold in_cache in Hrun.
       destruct (evict_with_policy_for_intent_excluding _ _ _ _ _ _ _) as [[c freed]| |]; by cbn in Hrun. }
  destruct (evict_unprotected_index _ _ _ _ _ _ Hrun) as (Hb & Hsub & _).
  revert Hrest. case_bool_decide as Hemp.
  { intros Hrest. enough (block_index (pc_cache s') ⊆ block_index (pc_cache s1) /\
      forall b, b2p s' !! b = b2p s1 !! b \/ block_index (pc_cache s') !! b = None) as [Hsub' Hb'].
    { split; [by etransitivity|]. by rewrite Hb in Hb'. }
    revert Hrest. case_bool_decide; [apply IH|]. intros [= <- <-]. split; [done|by left]. }
  rewrite run_gets. intros [(s2 & n & Hrun2 & Hrest)|(e & Hrun2 & ->)]%run_bind_inv;
    destruct (evict_then_drop _ _ _ _ _ _ _ _ Hrun Hrun2) as [Hsub2 Hb2]; [|done].
  destruct (IH _ _ _ _ _ _ Hrest) as [Hsub3 Hb3]. split; [by etransitivity|]. intros b.
  destruct (Hb3 b) as [->|]; [|by right]. destruct (Hb2 b) as [|Hout]; [by left|]. right. by eapply find_stays_out.
Qed.

Lemma spares_evict_host bytes mode : spares (evict_host_blocks_for_demote_headroom (Q := Q) env bytes mode).
Proof.
  unfold evict_host_blocks_for_demote_headroom. apply spares_bind; [apply still_spares, still_gets|]. intros h.
  destruct (_ || _); [apply still_spares, still_ret|]. apply spares_bind; [apply still_spares, still_gets|]. intros n. apply spares_evict_loop.
Qed.

Lemma spares_ensure bytes : spares (ensure_host_demote_headroom (Q := Q) env bytes).
Proof.
  unfold ensure_host_demote_headroom. destruct (_ =? _)%N; [apply still_spares, still_ret|].
  assert (forall (b : bool) mode, spares (if b then evict_host_blocks_for_demote_headroom (Q := Q) env bytes mode;; mret tt else mret tt)) as Hif.
  { intros [] mode; [|apply still_spares, still_ret]. apply spares_bind; [apply spares_evict_host|]. intros _. apply still_spares, still_ret. }
  apply spares_bind; [apply still_spares, still_gets|]. intros h1. apply spares_bind; [apply Hif|]. intros _.
  apply spares_bind; [apply still_spares, still_gets|]. intros h2. apply spares_bind; [apply Hif|]. intros _.
  apply still_spares, still_bind; [apply still_gets|]. intros h3. apply still_bind; [|intros; apply still_ret].
  destruct (negb _); [by intros ? ? ? [= <- <-]|apply still_ret].
Qed.

(** *** Demotion *)

(** A call with a run, and what follows. *)
Lemma at_runs_bind {A B} E G s (m : page_eff A) (k : A -> page_eff B) :
  runs m ->
  (forall a s1 E1 G1, m s = Done (s1, inl a) -> cfg (pc_pool s1) = cfg (pc_pool s) -> runs_at E1 G1 s1 (k a)) ->
  runs_at E G s (m ≫= k).
Proof.
  intros Hm Hk Hw s' r [(s1 & a & Hrun & Hrest)|(e & Hrun & ->)]%run_bind_inv; [|by eapply Hm].
  destruct (Hm _ _ _ _ _ Hw Hrun) as (E1 & G1 & H1'). eapply reaches_trans; [exact H1'|].
  eapply Hk; [exact Hrun|by apply (cache_run_cfg (E, G, s) (E1, G1, s1))| |exact Hrest].
  by apply (cache_run_ok (E, G, s) (E1, G1, s1) Hw H1').
Qed.

(** After the copy to the host: the block has its pages still, or it is out of
    the index and the node cannot be retagged. *)
Lemma at_demote_tail E G s b pages md region (payload : list N) :
  b2p s !! b = Some pages \/ block_index (pc_cache s) !! b = None ->
  runs_at E G s (or_release region (in_host (write_region region payload));;
    host_block_id ← or_release region (allocate_tier_block_id (Q := Q));
    retagged ← update_cache (retag_block b host_block_id);
    if negb (retagged : bool) then release_host_region region;; throw (RetagFailed b host_block_id)
    else
      on_sessions (retag_session_slot_block b host_block_id);;
      on_tables (fun t => set_block_to_pages (delete b (block_to_pages t)) t);;
      on_tables (fun t => set_block_owner_slots (delete b (block_owner_slots t)) t);;
      now ← gets (fun s => logical_clock (pc_cache s));
      update_cache (update_block_metadata host_block_id
        (mkBlockMetadataUpdate (Some (LocHostPinned (rg_offset region))) None None None None
           (match md_session_id md with
            | Some _ => Some (Some (u64_saturating_add now (SchedulerConfig.t1_host_pinned_keepalive_ticks (config env))))
            | None => None
            end) None));;
      released ← in_pool (release_pages pages);
      mret (length released)).
Proof.
  intros Hb. apply at_quiet; [apply quiet_or_release, quiet_in_host|]. intros [] s4 Hrun4 _ Hb4.
  destruct (still_or_release _ _ (still_in_host _) _ _ _ Hrun4) as [Hc4 _].
  apply at_quiet; [apply quiet_or_release, quiet_allocate_tier_block_id|]. intros new s5 Hrun5 _ Hb5.
  destruct (still_or_release _ _ still_allocate _ _ _ Hrun5) as [Hc5 _]. rewrite <-Hb4, <-Hb5, <-Hc4, <-Hc5 in Hb.
  clear s s4 Hb4 Hb5 Hc4 Hc5 Hrun4 Hrun5. apply at_quiet; [apply quiet_update_cache|]. intros retagged s6 Hrun _ Hb6.
  destruct Hb as [Hb|Hout].
  2: { assert (retagged = false) as ->.
       { revert Hrun. unfold update_cache, in_cache, retag_block. rewrite Hout. cbn.
         case_bool_decide; cbn; [by intros [= _ <-]|]. destruct (is_some _); cbn; by intros [= _ <-]. }
       cbn [negb]. apply at_runs, quiet_runs. quiet_tac. }
  destruct retagged; cbn [negb]; [|apply at_runs, quiet_runs; quiet_tac].
  apply at_quiet; [apply quiet_on_sessions|]. intros [] s7 _ _ Hb7.
  eapply (at_forget _ _ _ b pages); [by rewrite Hb7, Hb6|done|].
  apply at_quiet; [by apply quiet_on_tables|]. intros [] s8 _ _ Hb8. apply at_gets.
  apply at_quiet; [apply quiet_update_cache|]. intros updated s9 _ _ Hb9.
  eapply at_release; [done|]. intros p' freed. apply at_runs, quiet_runs, quiet_ret.
Qed.

Lemma runs_demote b : runs (demote_block_to_host (Q := Q) env b).
Proof.
  apply runs_at_all. intros E G s. unfold demote_block_to_host, block_metadata. apply at_gets, at_gets.
  destruct (RadixMeta.block_metadata b (pc_cache s)) as [md|]; [|apply at_runs, quiet_runs, quiet_ret].
  destruct (negb _); [apply at_runs, quiet_runs, quiet_ret|]. destruct (negb _); [apply at_runs, quiet_runs, quiet_ret|].
  destruct (block_to_pages (pc_tables s) !! b) as [pages|] eqn:Hb; [|apply at_runs, quiet_runs, quiet_ret].
  change (b2p s !! b = Some pages) in Hb. apply at_ok. intros Hw.
  apply at_runs_bind; [apply runs_ensure|]. intros [] s1 E1 G1 Hrun Hcfg; [|apply at_runs, quiet_runs, quiet_throw]. cbn [negb].
  destruct (spares_ensure _ _ _ _ Hrun) as [_ Hkept]. specialize (Hkept b). rewrite Hb in Hkept.
  apply at_to_host. { intros q Hq. rewrite Hcfg. eapply named_bound; [exact Hw|by eapply elem_of_named]. }
  intros p payload <- n. apply at_quiet; [apply quiet_reserve_host_region|]. intros [region|] s3 Hrun3 _ Hb3; [|apply at_runs, quiet_runs, quiet_throw].
  destruct (still_in_host _ _ _ _ Hrun3) as [Hc3 _]. apply at_demote_tail. rewrite Hb3, Hc3. exact Hkept.
Qed.
#[local] Hint Resolve runs_demote quiet_select_gpu : pages.

Lemma runs_demote_candidates goal l : forall acc, runs (demote_candidates (Q := Q) env goal l acc).
Proof. induction l as [|b l IH]; intros acc; cbn [demote_candidates]; runs_tac. Qed.
#[local] Hint Resolve runs_demote_candidates runs_drop_for_pages : pages.
Lemma runs_sealed_block_headroom : runs (sealed_block_headroom (Q := Q) env).
Proof. unfold sealed_block_headroom. runs_tac. Qed.
#[local] Hint Resolve runs_sealed_block_headroom : pages.
Lemma runs_evict_if_pressured : runs (evict_prefix_cache_if_pressured (Q := Q) env).
Proof. unfold evict_prefix_cache_if_pressured. runs_tac. Qed.
Lemma runs_demote_rounds fuel : forall shortage remaining reclaimed, runs (demote_rounds (Q := Q) env fuel shortage remaining reclaimed).
Proof. induction fuel as [|fuel IH]; intros; cbn [demote_rounds]; runs_tac. Qed.
#[local] Hint Resolve runs_demote_rounds : pages.
Lemma runs_evict_for_allocation n : runs (evict_prefix_cache_for_allocation (Q := Q) env n).
Proof. unfold evict_prefix_cache_for_allocation. runs_tac. Qed.
#[local] Hint Resolve runs_evict_for_allocation : pages.

(** *** Slots *)
Lemma runs_append slot count : runs (in_pool (Q := Q) (append_tokens slot count)).
Proof. intros E G s s' r _ (p & r' & Hrun & -> & _)%in_pool_inv. eapply reaches_once. by eapply step_append. Qed.
Lemma runs_truncate slot len : runs (in_pool (Q := Q) (truncate_slot slot len)).
Proof. intros E G s s' r _ (p & r' & Hrun & -> & _)%in_pool_inv. eapply reaches_once. by eapply step_truncate. Qed.
Lemma runs_free slot : runs (in_pool (Q := Q) (free_slot slot)).
Proof. intros E G s s' r _ (p & r' & Hrun & -> & _)%in_pool_inv. eapply reaches_once. by eapply step_free. Qed.
#[local] Hint Resolve runs_append runs_free : pages.
Lemma runs_try_alloc slot count : runs (try_alloc_pool_tokens_once (Q := Q) slot count).
Proof. apply runs_append. Qed.
#[local] Hint Resolve runs_try_alloc : pages.
Lemma runs_alloc slot count : runs (alloc_pool_tokens_with_retry (Q := Q) env slot count).
Proof. unfold alloc_pool_tokens_with_retry. runs_tac. Qed.
Lemma runs_reclaim l : runs (reclaim_for_paged_appends (Q := Q) env l).
Proof. unfold reclaim_for_paged_appends. runs_tac. Qed.

(** *** Publication *)
Lemma retain_cons page pages s :
  in_pool (Q := Q) (retain_pages (page :: pages)) s =
  match retain_page page (pc_pool s) with
  | Done (p, inl _) => in_pool (retain_pages pages) (set_pc_pool p s)
  | Done (p, inr e) => Done (set_pc_pool p s, inr (PagedPool e))
  | Panics => Panics
  | OutOfFuel => OutOfFuel
  end.
Proof.
  unfold in_pool, retain_pages. cbn [for_each pc_pool set_pc_pool]. unfold mbind at 2, eff_bind.
  by destruct (retain_page page (pc_pool s)) as [[p [[]|e]]| |].
Qed.

(** No counter overflows when each page is held once more per page. *)
Definition ref_room (p : TokenKVPool) (pages : list nat) : Prop :=
  forall q, q ∈ pages -> (N.of_nat (length pages) + default 0 (page_ref_count p !! q) <= u32_max)%N.

Lemma at_retain {B} pages : forall E G s (k : unit -> page_eff B),
  (forall q, q ∈ pages -> q ∈ concat (page_indices (pc_pool s))) -> ref_room (pc_pool s) pages ->
  (forall E' p, E' ≡ₚ pages ++ E -> cfg p = cfg (pc_pool s) -> buffers p = buffers (pc_pool s) -> runs_at E' G (set_pc_pool p s) (k tt)) ->
  runs_at E G s (in_pool (retain_pages pages) ≫= k).
Proof.
  induction pages as [|page pages IH]; intros E G s k Hin Hroom Hk Hw s' r Hr.
  { assert (k tt s = Done (s', r)) as Hr' by (rewrite <-Hr; unfold in_pool, retain_pages, mbind, eff_bind; cbn; by destruct s).
    assert (set_pc_pool (pc_pool s) s = s) as Hs by by destruct s.
    pose proof (Hk E (pc_pool s) ltac:(done) eq_refl eq_refl) as Hk0. rewrite Hs in Hk0. by apply (Hk0 Hw s' r). }
  assert (match retain_page page (pc_pool s) with Done (_, inl _) => True | _ => False end) as Hdone.
  { revert Hr. unfold mbind, eff_bind. rewrite retain_cons. destruct (retain_page page (pc_pool s)) as [[p1 [u|e]]| |] eqn:Hrun; try done.
    by destruct (retain_page_inv _ _ _ _ Hrun). }
  destruct (retain_page page (pc_pool s)) as [[p1 [u|]]| |] eqn:Hrun; try done.
  destruct (retain_page_inv _ _ _ _ Hrun) as (_ & Hpi & Hcfg & Hbuf & Hcount).
  assert (default 0 (page_ref_count (pc_pool s) !! page) < u32_max)%N as Hlt by (specialize (Hroom page ltac:(left)); cbn in Hroom; lia).
  assert (cache_step E G s (page :: E) G (set_pc_pool p1 s)) as Hstep by (eapply step_retain; [apply Hin; left|exact Hlt|exact Hrun]).
  eapply reaches_trans; [exact (rtc_once (R := world_step) (E, G, s) (page :: E, G, set_pc_pool p1 s) Hstep)|]. eapply (IH (page :: E) G (set_pc_pool p1 s) k).
  - intros q Hq. cbn. rewrite Hpi. apply Hin. by right.
  - intros q Hq. specialize (Hroom q ltac:(by right)). specialize (Hcount q). cbn in Hroom |- *. lia.
  - intros E' p HE' Hc Hb. assert (set_pc_pool p (set_pc_pool p1 s) = set_pc_pool p s) as -> by done. cbn in Hc, Hb.
    apply Hk; [by rewrite HE', <-Permutation_middle|by rewrite Hc|by rewrite Hb].
  - by eapply cache_step_ok.
  - rewrite <-Hr. unfold mbind, eff_bind. by rewrite retain_cons, Hrun.
Qed.

(** A block as it is recorded: under the id of its first page. *)
Definition to_record s (x : BlockId * list nat) : Prop :=
  block_id_for_pages x.2 = Done x.1 /\ recordable x.1 x.2 (image_of s <$> x.2).

Lemma at_record_block {B} E E' G s slot sid len deadline track eligible x (k : unit -> page_eff B) :
  E ≡ₚ x.2 ++ E' -> to_record s x ->
  (forall E1 G1 s1, E1 ≡ₚ E \/ E1 = E' -> pc_pool s1 = pc_pool s -> runs_at E1 G1 s1 (k tt)) ->
  runs_at E G s (record_sealed_gpu_block (Q := Q) slot sid len deadline track eligible x ≫= k).
Proof.
  intros HE [Hid Hrec] Hk. unfold record_sealed_gpu_block. apply at_assoc.
  assert (forall E1 G1 s1, E1 ≡ₚ E \/ E1 = E' -> pc_pool s1 = pc_pool s -> runs_at E1 G1 s1
    (((if track then on_tables (fun t => set_block_owner_slots (<[x.1 := slot]> (block_owner_slots t)) t);;
        owned ← gets (fun s => slot_owned_blocks (pc_tables s));
        blocks ← of_res (index owned slot);
        on_tables (set_slot_owned_blocks (<[slot := blocks ++ [x.1]]> owned)) else mret tt);;
      update_cache (update_block_metadata x.1 (mkBlockMetadataUpdate (Some (LocGpu (u32_of_usize slot))) (Some len)
        (Some sid) (Some eligible) (Some deadline) None None));; mret tt) ≫= k)) as Htail.
  { intros E1 G1 s1 HE1 Hp1. apply at_quiet; [quiet_tac|]. intros [] s2 _ Hp2 _. apply Hk; [done|by rewrite Hp2]. }
  destruct (b2p s !! x.1) as [old|] eqn:Hb.
  - eapply (at_aside _ _ _ (set_b2p (<[x.1 := old]> (b2p s)) s)); [|done|by apply insert_id|apply Htail; [by left|done]].
    unfold on_tables, modify, set_b2p, b2p in *. by rewrite Hb.
  - eapply (at_record E E' G s x.1 x.2); [done..| |apply Htail; [by right|done]].
    unfold b2p in Hb. by rewrite Hb.
Qed.

Lemma at_record_blocks {B} slot sid len deadline track eligible l : forall E E0 G s (k : unit -> page_eff B),
  E ≡ₚ concat (snd <$> l) ++ E0 -> Forall (to_record s) l -> (forall E1 G1 s1, runs_at E1 G1 s1 (k tt)) ->
  runs_at E G s (for_each l (record_sealed_gpu_block (Q := Q) slot sid len deadline track eligible) ≫= k).
Proof.
  induction l as [|x l IH]; intros E E0 G s k HE Hall Hk; cbn [for_each]; [apply Hk|].
  cbn in HE. apply Forall_cons in Hall as [Hx Hall].
  assert (forall s1, pc_pool s1 = pc_pool s -> Forall (to_record s1) l) as Hall1.
  { intros s1 Hp1. eapply Forall_impl; [exact Hall|]. intros y. unfold to_record, image_of. by rewrite Hp1. }
  apply at_assoc. eapply (at_record_block E (concat (snd <$> l) ++ E0)); [by rewrite HE, app_assoc|done|].
  intros E1 G1 s1 [HE1| ->] Hp1; [|by eapply (IH _ E0); [done|apply Hall1|]]. apply (IH E1 (x.2 ++ E0)); [|by apply Hall1|done].
  rewrite HE1, HE, <-!app_assoc, !app_assoc. apply Permutation_app_tail, Permutation_app_comm.
Qed.

Lemma at_record_sealed {B} E E0 G s slot l sid ticks track eligible (k : unit -> page_eff B) :
  E ≡ₚ concat (snd <$> l) ++ E0 -> Forall (to_record s) l -> (forall E1 G1 s1, runs_at E1 G1 s1 (k tt)) ->
  runs_at E G s (record_sealed_gpu_blocks (Q := Q) slot l sid ticks track eligible ≫= k).
Proof.
  intros HE Hall Hk. unfold record_sealed_gpu_blocks. apply at_assoc, at_gets, at_assoc, at_gets. by eapply at_record_blocks.
Qed.

(** The pages of a range belong to the slot. *)
Definition of_slot (p : TokenKVPool) (slot : nat) (pages : list nat) : Prop :=
  exists table, page_indices p !! slot = Some table /\ forall q, q ∈ pages -> q ∈ table.

Lemma range_pages p slot start n l : page_indices_for_token_range p slot start n = Done l -> of_slot p slot l.
Proof.
  unfold page_indices_for_token_range. destruct (seq_len p slot) as [len| |]; cbn; [|done..].
  unfold slot_pages. destruct (index (page_indices p) slot) as [pages| |] eqn:Hp; cbn; [|done..]. apply index_Done in Hp.
  unfold slice. case_bool_decide; [|done]. intros [= <-]. exists pages. split; [done|]. intros q Hq.
  by eapply subseteq_drop, subseteq_take.
Qed.

Lemma of_slot_elem p slot pages q : of_slot p slot pages -> q ∈ pages -> q ∈ concat (page_indices p).
Proof.
  intros (table & Hp & Hin) Hq. apply list_elem_of_In, in_concat. exists table.
  split; apply list_elem_of_In; [by eapply list_elem_of_lookup_2|by apply Hin].
Qed.

Lemma map_res_zip {A B} (f : A -> res B) l : forall l', map_res f l = Done l' -> snd <$> zip l' l = l /\ Forall (fun x => f x.2 = Done x.1) (zip l' l).
Proof.
  induction l as [|x l IH]; intros l'; cbn; [by intros [= <-]|].
  destruct (f x) as [y'| |] eqn:Hf; cbn; [|done..]. destruct (map_res f l) as [ys| |]; cbn; [|done..].
  intros [= <-]. destruct (IH ys eq_refl) as [Hs Hall]. split; [cbn; by rewrite Hs|by constructor].
Qed.

Lemma map_res_elem {A B} (f : A -> res B) l l' y : map_res f l = Done l' -> y ∈ l' -> exists x, x ∈ l /\ f x = Done y.
Proof.
  revert l'. induction l as [|x l IH]; intros l'; cbn; [by intros [= <-] ?%not_elem_of_nil|].
  destruct (f x) as [y'| |] eqn:Hf; cbn; [|done..]. destruct (map_res f l) as [ys| |]; cbn; [|done..].
  intros [= <-] [->|Hy]%elem_of_cons; [exists x; split; [left|done]|].
  destruct (IH ys eq_refl Hy) as (x' & Hx' & Hfx). exists x'. split; [by right|done].
Qed.

Lemma from_pool_inv {A} (f : TokenKVPool -> res A) s s1 a : from_pool f s = Done (s1, inl a) -> s1 = s /\ f (pc_pool s) = Done a.
Proof.
  unfold from_pool, in_pool, reads. destruct (f (pc_pool s)) as [x| |]; cbn; [|done..]. intros [= <- <-]. by destruct s.
Qed.

(** The pages of the first blocks of a slot. *)
Definition sealed_pages (bs : nat) (p : TokenKVPool) (slot count : nat) : res (list (list nat)) :=
  map_res (fun block_i => page_indices_for_token_range p slot (block_i * bs) bs) (seq 0 count).

Lemma sealed_pages_inv slot count s s1 pages :
  slot_sealed_block_pages (Q := Q) slot count s = Done (s1, inl pages) ->
  s1 = s /\ sealed_pages (block_size (pc_cache s)) (pc_pool s) slot count = Done pages.
Proof. unfold slot_sealed_block_pages. rewrite run_gets. apply from_pool_inv. Qed.

Lemma sealed_pages_of_slot bs p slot count l pages : sealed_pages bs p slot count = Done l -> pages ∈ l -> of_slot p slot pages.
Proof. intros Hm Hp. destruct (map_res_elem _ _ _ _ Hm Hp) as (i & _ & Hi). by eapply range_pages. Qed.

(** Publishing a slot's blocks overflows no counter. *)
Definition keepable (bs : nat) (p : TokenKVPool) (slot : nat) : Prop :=
  forall count l, sealed_pages bs p slot count = Done l -> ref_room p (concat l).

Lemma publish_reaches E G s slot prompt sid :
  keepable (block_size (pc_cache s)) (pc_pool s) slot ->
  (forall b pages, of_slot (pc_pool s) slot pages -> recordable b pages (image_of s <$> pages)) ->
  runs_at E G s (publish_to_prefix_cache (Q := Q) env slot prompt sid).
Proof.
  intros Hkeep Hrec. unfold publish_to_prefix_cache. apply at_gets.
  apply at_quiet; [apply quiet_from_pool|]. intros len s1 [-> _]%from_pool_inv _ _. cbn zeta. set (bs := block_size _) in *.
  case_bool_decide; [apply at_runs, quiet_runs, quiet_ret|].
  apply at_quiet; [unfold slot_sealed_block_pages; quiet_tac|]. intros pages s2 [-> Hpages]%sealed_pages_inv _ _. fold bs in Hpages.
  apply at_gets, at_gets. destruct (negb _); [apply at_runs, quiet_runs, quiet_ret|].
  apply at_of_res. intros blocks Hblocks. apply at_gets.
  apply at_quiet; [apply quiet_in_cache|]. intros inserted s3 _ Hp3 _. case_bool_decide; [apply at_runs, quiet_runs, quiet_ret|].
  apply at_retain; [rewrite Hp3|rewrite Hp3; by eapply Hkeep|].
  { intros q Hq. apply list_elem_of_In, in_concat in Hq as (ps & Hps & Hq). apply list_elem_of_In in Hps, Hq.
    eapply of_slot_elem; [by eapply sealed_pages_of_slot|done]. }
  intros E' p HE' Hc Hb. destruct (map_res_zip _ _ _ Hblocks) as [Hzip Hids].
  eapply (at_record_sealed E' E); [by rewrite Hzip| |].
  { apply Forall_forall. intros x Hx. rewrite Forall_forall in Hids. split; [by apply Hids|].
    assert (x.2 ∈ pages) as Hin by (rewrite <-Hzip; apply list_elem_of_fmap; by exists x).
    specialize (Hrec x.1 x.2 (sealed_pages_of_slot _ _ _ _ _ _ Hpages Hin)). unfold image_of in *. cbn. by rewrite Hc, Hb, Hp3. }
  intros E1 G1 s4. destruct sid; apply at_runs, quiet_runs; quiet_tac.
Qed.

Lemma still_clear slot : still (clear_slot_prefix_ownership (Q := Q) slot).
Proof.
  intros s s' r. unfold clear_slot_prefix_ownership. rewrite run_gets. unfold mbind, eff_bind, of_res, on_tables, modify.
  destruct (index _ _) as [l| |]; cbn; [|done..]. by intros [= <- <-].
Qed.
Lemma still_put_materialized slot len : still (put_materialized (Q := Q) slot len).
Proof.
  intros s s' r. unfold put_materialized. rewrite run_gets. unfold mbind, eff_bind, of_res, on_tables, modify.
  destruct (store_at _ _ _) as [l| |]; cbn; [|done..]. by intros [= <- <-].
Qed.

Lemma retire_reaches E G s slot len cached sid :
  keepable (block_size (pc_cache s)) (pc_pool s) slot ->
  (forall b pages, of_slot (pc_pool s) slot pages -> recordable b pages (image_of s <$> pages)) ->
  runs_at E G s (retire_slot (Q := Q) env slot len cached sid).
Proof.
  intros Hkeep Hrec. unfold retire_slot. apply at_quiet; [apply quiet_clear|]. intros [] s1 Hrun1 Hp1 _.
  destruct (still_clear _ _ _ _ Hrun1) as [Hc1 _]. cbn zeta.
  assert (forall s2 (m : page_eff unit), runs_at E G s2 m -> runs_at E G s2 (m;; in_pool (free_slot slot))) as Hfree.
  { intros s2 m Hm Hw s' r [(s3 & [] & Hrun & Hrest)|(e & Hrun & ->)]%run_bind_inv; [|by eapply Hm].
    destruct (Hm Hw _ _ Hrun) as (E3 & G3 & H3). eapply reaches_trans; [exact H3|].
    eapply runs_free; [|exact Hrest]. by apply (cache_run_ok (E, G, s2) (E3, G3, s3) Hw H3). }
  assert (forall n, runs_at E G s1 (put_materialized slot n)) as Hput by (intros n; apply at_runs, quiet_runs, quiet_put_materialized).
  apply Hfree. destruct cached as [prompt|]; [|apply Hput]. destruct (_ && _); [|apply Hput].
  apply at_quiet; [apply quiet_put_materialized|]. intros [] s2 Hrun2 Hp2 _.
  destruct (still_put_materialized _ _ _ _ _ Hrun2) as [Hc2 _].
  apply publish_reaches; [by rewrite Hc2, Hc1, Hp2, Hp1|]. intros b pages. unfold image_of. rewrite Hp2, Hp1. apply Hrec.
Qed.

(** *** Attachment *)

(** The pages of the blocks just hold the tokens, and no counter overflows. *)
Definition attachable_prefix (s : PageCache Q) (blocks : list BlockId) (token_count : nat) : Prop :=
  forall s' pages, flattened_pages_for_blocks (Q := Q) blocks [] s = Done (s', inl pages) ->
    length pages = div_ceil token_count (page_size (cfg (pc_pool s))) /\
    forall q, q ∈ pages ->
      (N.of_nat (length pages) + default 0 (page_attach_count (pc_pool s) !! q) <= u32_max)%N.

Lemma attach_reaches E G s slot blocks token_count s' r :
  world_ok E G s -> attachable_prefix s blocks token_count ->
  attach_gpu_prefix_blocks (Q := Q) slot blocks token_count s = Done (s', r) -> reaches (E, G, s) s'.
Proof.
  intros Hw Hal. unfold attach_gpu_prefix_blocks. case_bool_decide; [by apply quiet_runs; [apply quiet_ret|]|].
  rewrite run_gets. case_bool_decide; [by apply quiet_runs; [apply quiet_throw|]|].
  intros [(s1 & pages & Hrun & Hrest)|(e & Hrun & ->)]%run_bind_inv.
  - destruct (Hal _ _ Hrun) as [Hlen Hroom]. destruct (quiet_flatten _ _ _ _ _ Hrun) as [Hp Hb].
    apply in_pool_inv in Hrest as (p & r' & Hat & -> & _).
    eapply reaches_trans; [by apply (run_aside E G s s1)|]. eapply reaches_once. eapply step_attach; [by rewrite Hp|by rewrite Hp|exact Hat].
  - destruct (quiet_flatten _ _ _ _ _ Hrun) as [Hp Hb]. exists E, G. by apply run_aside.
Qed.

(** *** Promotion and restored sessions *)
(** Who names a page. *)
Lemma named_by s q : q ∈ named s -> exists b pages, b2p s !! b = Some pages /\ q ∈ pages.
Proof.
  unfold named. intros Hq. apply list_elem_of_In, in_concat in Hq as (ps & Hps & Hq). apply list_elem_of_In in Hps, Hq.
  apply list_elem_of_fmap in Hps as ([b pages] & -> & Hin). exists b, pages. split; [by apply elem_of_map_to_list|done].
Qed.

Lemma named_mono s s' q : b2p s ⊆ b2p s' -> q ∈ named s -> q ∈ named s'.
Proof. intros Hsub (b & pages & Hb & Hq)%named_by. eapply elem_of_named; [by eapply lookup_weaken|done]. Qed.

(** Fresh pages: the pool has them, and no block names them. *)
Definition fresh_pages (s : PageCache Q) (pages : list nat) : Prop :=
  forall q, q ∈ pages -> q < max_total_pages (cfg (pc_pool s)) /\ q ∉ named s.

Lemma at_detached {B} E G s count (k : list nat -> page_eff B) (k' : cache_error -> page_eff B) :
  (forall p new, fresh_pages (set_pc_pool p s) new -> runs_at (new ++ E) G (set_pc_pool p s) (k new)) ->
  (forall s1 e, pc_pool s1 = pc_pool s -> b2p s1 = b2p s -> runs_at E G s1 (k' e)) ->
  runs_at E G s (r ← try (in_pool (Q := Q) (alloc_detached_pages count)); match r with inl new => k new | inr e => k' e end).
Proof.
  intros Hk Hk' Hw s' r Hr. pose proof Hw as [[L Hwf] _]. revert Hr. unfold try, in_pool, mbind, eff_bind.
  destruct (alloc_detached_pages count (pc_pool s)) as [[p [new|e]]| |] eqn:Hrun; cbn; [| |done..]; intros Hr.
  - assert (cache_step E G s (new ++ E) G (set_pc_pool p s)) as Hstep by by eapply step_detached.
    eapply reaches_trans; [exact (rtc_once (R := world_step) (E, G, s) (new ++ E, G, set_pc_pool p s) Hstep)|].
    eapply Hk; [|by eapply cache_step_ok|exact Hr].
    pose proof (alloc_detached_inv _ _ _ _ _ _ Hwf Hrun) as (Hcfg & Hfree).
    intros q Hq. destruct (Hfree q Hq) as [Hlt Hno]. split; [cbn; by rewrite Hcfg|]. intros Hin. apply Hno. set_solver.
  - assert (p = pc_pool s) as ->.
    { revert Hrun. unfold alloc_detached_pages. case_bool_decide; [done|]. rewrite run_gets. case_bool_decide; [by intros [= <- <-]|].
      intros Hrun. exfalso. destruct (pop_retained count _ _ (pc_pool s) (wf_accounts _ _ _ Hwf)) as (s1 & l & Hrun' & _).
      { unfold free_page_count in *. lia. } by rewrite Hrun in Hrun'. }
    eapply reaches_trans; [by apply (run_aside E G s (set_pc_pool (pc_pool s) s))|].
    eapply Hk'; [done|done| |exact Hr]. by eapply world_aside; [..|exact Hw].
Qed.

(** [m?] as a match. *)
Lemma at_of_try {A B} E G s (m : pool_eff A) (k : A -> page_eff B) :
  runs_at E G s (r ← try (in_pool (Q := Q) m); match r with inl a => k a | inr e => throw e end) ->
  runs_at E G s (in_pool m ≫= k).
Proof.
  intros Hm Hw s' r Hr. apply (Hm Hw s' r). revert Hr. unfold try, mbind, eff_bind. by destruct (in_pool m s) as [[s1 [a|e]]| |].
Qed.

Lemma at_fill {B} E G s pages (f : SharedHostPinnedPool -> res (SharedHostPinnedPool * HostPool.result (list N)))
    (k : (unit + cache_error) -> page_eff B) :
  fresh_pages s pages -> (forall r s1, b2p s1 = b2p s -> runs_at E G s1 (k r)) ->
  runs_at E G s (try (payload ← in_host f; in_pool (copy_pages_from_host pages payload)) ≫= k).
Proof.
  intros Hfresh Hk Hw s' r. unfold mbind at 1, eff_bind at 1, try.
  destruct ((payload ← in_host f; in_pool (copy_pages_from_host pages payload)) s) as [[s1 r1]| |] eqn:Hrun; cbn; [|done..].
  intros Hr. apply run_bind_inv in Hrun as [(s2 & payload & Hhost & Hcopy)|(e & Hhost & ->)];
    destruct (quiet_in_host _ _ _ _ Hhost) as [Hp Hb].
  - apply in_pool_inv in Hcopy as (p & r2 & Hc & -> & _).
    assert (cache_run (E, G, s) (E, G, set_pc_pool p s2)) as Hrun.
    { etransitivity; [by apply (run_aside E G s s2)|]. apply rtc_once.
      eapply step_fill; [|exact Hc]. intros q Hq. unfold named. rewrite Hp, Hb. by apply Hfresh. }
    eapply at_run; [exact Hrun|by apply Hk|exact Hw|exact Hr].
  - eapply at_run; [by apply (run_aside E G s s1)|by apply Hk|exact Hw|exact Hr].
Qed.

Lemma at_release_all {B} l : forall E E0 G s (k : unit -> page_eff B),
  E ≡ₚ concat l ++ E0 -> (forall E1 s1, runs_at E1 G s1 (k tt)) ->
  runs_at E G s (for_each l (fun pages => release_quietly (Q := Q) pages) ≫= k).
Proof.
  induction l as [|pages l IH]; intros E E0 G s k HE Hk; cbn [for_each]; [apply Hk|].
  cbn in HE. unfold release_quietly. apply at_assoc, at_assoc. eapply (at_release _ (concat l ++ E0)); [by rewrite HE, app_assoc|].
  intros p freed. by eapply (IH _ E0).
Qed.

(** A block filled with fresh pages, under the id of the first. *)
Definition promotable s (new : BlockId) (pages : list nat) : Prop :=
  block_id_for_pages pages = Done new /\ forall q, q ∈ pages -> q ∉ named s.

Lemma at_promote_block {B} E G s fetched b (k : BlockId * list nat -> page_eff B) :
  (forall new pages s1, b2p s1 = b2p s -> promotable s new pages -> runs_at (pages ++ E) G s1 (k (new, pages))) ->
  runs_at E G s (promote_block (Q := Q) fetched b ≫= k).
Proof.
  intros Hk. unfold promote_block. destruct (find _ _) as [fb|]; [|apply at_runs, quiet_runs; by apply quiet_throw].
  apply at_assoc, at_gets, at_assoc, at_gets. set (n := Nat.max _ 1).
  apply at_assoc, at_of_try. eapply at_detached; [|intros; apply at_runs, quiet_runs, quiet_throw].
  intros p new Hfresh. apply at_assoc. apply at_fill; [done|]. intros [u|e] s1 Hb1.
  - apply at_assoc, at_of_res. intros nb Hnb. apply Hk; [by rewrite Hb1|]. split; [done|]. intros q Hq. by apply Hfresh.
  - unfold release_quietly. apply at_assoc, at_assoc. eapply at_release; [done|]. intros p1 freed. apply at_runs, quiet_runs.
    intros ? ? ? [= <- <-]. done.
Qed.

Lemma quiet_throw_bind {A B} e (k : A -> page_eff B) : quiet (throw e ≫= k).
Proof. by intros s s' r [= <- <-]. Qed.

Lemma at_promote_blocks {B} fetched blocks s0 : forall p E E0 G s (k : Promotion -> page_eff B),
  b2p s = b2p s0 -> Forall (fun x => promotable s0 x.1.2 x.2) (promoted_pages p) ->
  E ≡ₚ concat (snd <$> promoted_pages p) ++ E0 ->
  (forall p' E1 s1, Forall (fun x => promotable s0 x.1.2 x.2) (promoted_pages p') ->
     E1 ≡ₚ concat (snd <$> promoted_pages p') ++ E0 -> runs_at E1 G s1 (k p')) ->
  runs_at E G s (promote_blocks (Q := Q) fetched blocks p ≫= k).
Proof.
  induction blocks as [|block blocks IH]; intros p E E0 G s k Hs Hall HE Hk; cbn [promote_blocks]; [by apply Hk|].
  destruct (rb_source block) as [source|]; [|by eapply IH]. apply at_assoc, at_promote_block.
  intros new pages s1 Hb1 Hnew. eapply (IH _ _ E0); [by rewrite Hb1| | |done]; cbn [promoted_pages].
  - apply Forall_app. split; [done|]. constructor; [|done]. destruct Hnew as [Hid Hnew]. split; [done|].
    intros q Hq. unfold named. rewrite <-Hs. by apply Hnew.
  - rewrite fmap_app, concat_app, HE. cbn. rewrite app_nil_r, !app_assoc. apply Permutation_app_tail, Permutation_app_comm.
Qed.

Lemma at_retag_promoted {B} all todo : forall E E0 G s (k : unit -> page_eff B),
  E ≡ₚ concat (snd <$> all) ++ E0 -> (forall s1, runs_at E G s1 (k tt)) ->
  runs_at E G s (retag_promoted (Q := Q) all todo ≫= k).
Proof.
  induction todo as [|[[old new] pages] todo IH]; intros E E0 G s k HE Hk; cbn [retag_promoted]; [apply Hk|].
  apply at_assoc, at_quiet; [apply quiet_update_cache|]. intros [] s1 _ _ _; cbn [negb].
  - apply at_assoc, at_quiet; [apply quiet_on_sessions|]. intros [] s2 _ _ _. by eapply IH.
  - apply at_assoc. assert (for_each all (fun x => release_quietly (Q := Q) x.2) = for_each (snd <$> all) (release_quietly (Q := Q))) as ->.
    { clear. induction all as [|x all IH]; [done|]. cbn. by rewrite IH. }
    eapply at_release_all; [exact HE|]. intros E1 s2. apply at_runs, quiet_runs, quiet_throw_bind.
Qed.

Lemma runs_promote_room plan : runs (promote_room (Q := Q) env plan).
Proof. unfold promote_room. runs_tac. Qed.

Lemma promote_reaches E G s waiter fetched :
  (forall s1, promote_room (Q := Q) env (Admission.fw_staged_prefix waiter) s = Done (s1, inl tt) ->
     forall b pages imgs, promotable s1 b pages -> recordable b pages imgs) ->
  runs_at E G s (promote_fetched_prefix (Q := Q) env waiter fetched).
Proof.
  intros Hrec. unfold promote_fetched_prefix. case_bool_decide; [apply at_runs, quiet_runs, quiet_ret|].
  apply at_gets. destruct (Admission.validate_staged_sealed_prefix _ _ _); cbn [negb]; [|apply at_runs, quiet_runs, quiet_throw].
  apply at_runs_bind; [apply runs_promote_room|]. intros [] s0 E0 G0 Hroom _. specialize (Hrec s0 Hroom).
  apply (at_promote_blocks _ _ s0 _ E0 E0); [done|constructor|done|]. intros p E1 s1 Hall HE1.
  assert (forall E2 G2 s2, E2 ≡ₚ concat (snd <$> promoted_pages p) ++ E0 -> runs_at E2 G2 s2
    (for_each (promoted_pages p) (fun x => on_tables (fun t => set_block_owner_slots (delete x.1.1 (block_owner_slots t)) t));;
     record_sealed_gpu_blocks (Admission.fw_slot_idx waiter) ((fun x => (x.1.2, x.2)) <$> promoted_pages p) (Admission.fw_session_id waiter)
       (SchedulerConfig.prefix_cache_keepalive_ticks (config env)) false
       (swap_eligible env (Admission.fw_session_id waiter) (length (Admission.fw_prompt_tokens waiter)));;
     for_each (consumed_host_regions p) release_host_region)) as Htail.
  { intros E2 G2 s2 HE2. apply at_quiet; [quiet_tac|]. intros [] s3 _ _ _.
    eapply (at_record_sealed E2 E0); [by rewrite <-list_fmap_compose| |].
    - apply Forall_fmap. eapply Forall_impl; [exact Hall|]. intros x Hx. split; [apply Hx|by apply Hrec].
    - intros E3 G3 s4. apply at_runs, quiet_runs. quiet_tac. }
  destruct (is_some (Admission.fw_session_slot_hold waiter)).
  - eapply at_retag_promoted; [exact HE1|]. intros s2. by apply Htail.
  - apply at_assoc, at_of_res. intros prefix _. apply at_assoc, at_quiet; [apply quiet_in_cache|]. intros inserted s2 _ _ _.
    case_bool_decide; [|by apply Htail]. apply at_assoc.
    assert (for_each (promoted_pages p) (fun x => release_quietly (Q := Q) x.2) = for_each (snd <$> promoted_pages p) (release_quietly (Q := Q))) as ->.
    { generalize (promoted_pages p) as l. clear. induction l as [|x l IH]; [done|]. cbn. by rewrite IH. }
    eapply at_release_all; [exact HE1|]. intros E2 s3. apply at_runs, quiet_runs, quiet_throw_bind.
Qed.

Lemma runs_read fp : runs (read_block_payload (Q := Q) fp).
Proof.
  apply runs_at_all. intros E G s. unfold read_block_payload. apply at_gets, at_gets.
  destruct (block_id_for_fingerprint (pc_cache s) fp ≫= _) as [pages|] eqn:Hb; [|apply at_runs, quiet_runs, quiet_ret].
  apply bind_Some in Hb as (b & _ & Hb). intros Hw s' r. unfold mbind, eff_bind, try.
  destruct (in_pool (copy_pages_to_host pages) s) as [[s1 r1]| |] eqn:Hrun; cbn; [|done..].
  assert (runs_at E G s (in_pool (copy_pages_to_host pages) ≫= fun _ => mret tt)) as Hruns.
  { apply at_to_host; [intros q Hq; eapply named_bound; [exact Hw|by eapply elem_of_named]|]. intros. apply at_runs, quiet_runs, quiet_ret. }
  destruct r1 as [payload|e]; intros [= <- _]; (eapply Hruns; [exact Hw|]); unfold mbind, eff_bind; by rewrite Hrun.
Qed.

Lemma id_head pages b : block_id_for_pages pages = Done b -> exists q, q ∈ pages /\ b = N.of_nat q.
Proof. destruct pages as [|q pages]; [done|]. intros [= <-]. exists q. split; [left|done]. Qed.

(** A block of fresh pages is new. *)
Lemma promotable_new E G s b pages : world_ok E G s -> promotable s b pages -> b2p s !! b = None.
Proof.
  intros (_ & _ & Hkey) [Hid Hfresh]. destruct (b2p s !! b) as [old|] eqn:Hb; [|done].
  destruct (id_head _ _ (Hkey _ _ Hb)) as (q & Hq & ->). destruct (id_head _ _ Hid) as (q' & Hq' & Heq).
  assert (q' = q) as -> by lia. destruct (Hfresh q Hq'). by eapply elem_of_named.
Qed.

Lemma at_install_block {B} E G s b pages (f : PageTables -> PageTables) (k : unit -> page_eff B) :
  promotable s b pages -> recordable b pages (image_of s <$> pages) ->
  f (pc_tables s) = set_block_to_pages (<[b := pages]> (b2p s)) (pc_tables s) ->
  (forall G1 s1, b2p s ⊆ b2p s1 -> runs_at E G1 s1 (k tt)) -> runs_at (pages ++ E) G s (on_tables f ≫= k).
Proof.
  intros Hp Hrec Hf Hk. apply at_ok. intros Hw. pose proof (promotable_new _ _ _ _ _ Hw Hp) as Hb.
  eapply (at_record _ E); [done|done|apply Hp|done|done|]. apply Hk. cbn. by apply insert_subseteq.
Qed.

Lemma install_reaches n payloads s0 :
  (forall b pages imgs, promotable s0 b pages -> recordable b pages imgs) ->
  forall prepared E G s, b2p s0 ⊆ b2p s -> runs_at E G s (install_loop (Q := Q) n payloads prepared).
Proof.
  intros Hrec. induction payloads as [|[fp payload] payloads IH]; intros prepared E G s Hsub; cbn [install_loop]; [apply at_runs, quiet_runs, quiet_ret|].
  eapply (at_detached _ _ _ _ _ (fun _ => mret prepared)); [|intros; apply at_runs, quiet_runs, quiet_ret].
  intros p pages Hfresh. set (s1 := set_pc_pool p s) in *.
  assert (forall (r : unit + cache_error) s2, b2p s2 = b2p s -> runs_at (pages ++ E) G s2 (match r with
    | inr _ => install_loop n payloads prepared
    | inl _ =>
        block_id ← of_res (block_id_for_pages pages);
        on_tables (fun t => set_block_to_pages (<[block_id := pages]> (block_to_pages t)) t);;
        install_loop n payloads (<[fp := block_id]> prepared)
    end)) as Htail.
  { intros [u|e] s2 Hb2; [|by apply IH; rewrite Hb2]. apply at_of_res. intros b Hid.
    assert (promotable s2 b pages) as Hp2 by (split; [done|]; intros q Hq; unfold named; rewrite Hb2; by apply Hfresh).
    eapply (at_install_block _ _ _ b pages); [done| |done|].
    - apply Hrec. split; [done|]. intros q Hq Hin. apply (named_mono s0 s2 q) in Hin; [|by rewrite Hb2]. by destruct (proj2 Hp2 q Hq).
    - intros G1 s3 Hsub3. apply IH. etransitivity; [|exact Hsub3]. by rewrite Hb2. }
  intros Hw s' r Hr. pose proof Hr as Hr2. unfold mbind, eff_bind, try in Hr2.
  destruct (in_pool (copy_pages_from_host pages payload) s1) as [[s2 r2]| |] eqn:Hcopy; cbn in Hr2; [|done..].
  pose proof Hcopy as (p2 & r3 & Hc & -> & _)%in_pool_inv.
  assert (cache_run (pages ++ E, G, s1) (pages ++ E, G, set_pc_pool p2 s1)) as Hrun.
  { apply rtc_once. eapply step_fill; [|exact Hc]. intros q Hq. by apply Hfresh. }
  eapply at_run; [exact Hrun|by apply (Htail r2)|exact Hw|]. destruct r2; exact Hr2.
Qed.
End operations.

(** ** What the scheduler does

    The calls with which the scheduler loop drives the cache, in any order, and
    the model, which writes only pages nobody retains. *)
Inductive scheduler_op :=
  | OpAppend (slot count : nat)
  | OpAlloc (slot count : nat)
  | OpReclaim (appends : list (nat * nat))
  | OpTruncate (slot new_len : nat)
  | OpModelWrites (b : KVBuffers)
  | OpRetire (slot prompt_len : nat) (cached_prompt : option (list Token)) (session_id : option SessionId)
  | OpAttach (slot : nat) (blocks : list BlockId) (token_count : nat)
  | OpPressure
  | OpDrain
  | OpStoreEvent (event : CoordinatorEvent)
  | OpPromote (waiter : Admission.FetchWaiter) (fetched : list FetchedBlock)
  | OpMaterialize (blocks : list FetchedBlock)
  | OpReadPayload (fingerprint : BlockFingerprint)
  | OpInstall (payloads : list (BlockFingerprint * list N)).

Section scheduler_runs.
Context {Q : Type} `{CoordinatorHandle Q} `{Driver} `{Blake3} (env : PageEnv).
Abbreviation page_eff := (eff (PageCache Q) cache_error).
Implicit Types (s : PageCache Q) (E : list nat).

Definition ignore {A} (m : page_eff A) : page_eff unit := _ ← m; mret tt.

Definition run_op (op : scheduler_op) : page_eff unit :=
  match op with
  | OpAppend slot count => ignore (in_pool (append_tokens slot count))
  | OpAlloc slot count => ignore (alloc_pool_tokens_with_retry env slot count)
  | OpReclaim appends => ignore (reclaim_for_paged_appends env appends)
  | OpTruncate slot new_len => ignore (in_pool (truncate_slot slot new_len))
  | OpModelWrites b => modify (fun s => set_pc_pool (set_buffers b (pc_pool s)) s)
  | OpRetire slot prompt_len cached sid => retire_slot env slot prompt_len cached sid
  | OpAttach slot blocks token_count => attach_gpu_prefix_blocks slot blocks token_count
  | OpPressure => ignore (evict_prefix_cache_if_pressured env)
  | OpDrain => ignore (trigger_background_store_drain env)
  | OpStoreEvent event => handle_store_event event
  | OpPromote waiter fetched => promote_fetched_prefix env waiter fetched
  | OpMaterialize blocks => ignore (materialize_prefetched_host_blocks env blocks)
  | OpReadPayload fp => ignore (read_block_payload fp)
  | OpInstall payloads => ignore (install_restored_kv payloads)
  end.

(** The kernels leave retained pages alone; an attached prefix covers its
    tokens exactly; and no page is attached or held four thousand million
    times. *)
Definition op_allowed (s : PageCache Q) (op : scheduler_op) : Prop :=
  match op with
  | OpModelWrites b => buffers_ok (cfg (pc_pool s)) b /\
      forall q, page_ref_count (pc_pool s) !! q <> Some 0%N -> page_image (cfg (pc_pool s)) b q = image_of s q
  | OpRetire slot _ _ _ => keepable (block_size (pc_cache s)) (pc_pool s) slot
  | OpAttach slot blocks token_count => attachable_prefix s blocks token_count
  | _ => True
  end.

Definition scheduler_step s s' : Prop := exists op r, op_allowed s op /\ run_op op s = Done (s', r).
Definition scheduler_run : PageCache Q -> PageCache Q -> Prop := rtc scheduler_step.

(** The blocks an operation may record, with what is in their pages: a retired
    slot's own pages as they are; pages no block named, for a promoted prefix
    once room was made, and for a restored session. *)
Definition recorded_by (op : scheduler_op) (s : PageCache Q) : Recording := fun b pages imgs =>
  match op with
  | OpRetire slot _ _ _ => of_slot (pc_pool s) slot pages /\ imgs = image_of s <$> pages
  | OpPromote waiter _ => exists s1, promote_room env (Admission.fw_staged_prefix waiter) s = Done (s1, inl tt) /\ promotable s1 b pages
  | OpInstall _ => promotable s b pages
  | _ => False
  end.

Lemma runs_ignore `{Recording} {A} (m : page_eff A) : runs m -> runs (ignore m).
Proof. intros. apply runs_bind; [done|]. intros. apply quiet_runs, quiet_ret. Qed.

Lemma at_ignore `{Recording} {A} E G s (m : page_eff A) : runs_at E G s m -> runs_at E G s (ignore m).
Proof.
  intros Hm Hw s' r [(s1 & a & Hrun & [= <- _])|(e & Hrun & _)]%run_bind_inv; by eapply Hm.
Qed.

Lemma op_reaches `{Rec : Recording} E G s op s' r :
  (forall b pages imgs, recorded_by op s b pages imgs -> recordable b pages imgs) ->
  world_ok E G s -> op_allowed s op -> run_op op s = Done (s', r) -> reaches (E, G, s) s'.
Proof.
  intros Hrec Hw Hok Hrun. enough (runs_at E G s (run_op op)) as Hgoal by by apply (Hgoal Hw s' r).
  clear Hrun s' r. destruct op; cbn [run_op]; cbn in Hok, Hrec.
  - apply at_runs, runs_ignore, runs_append.
  - apply at_runs, runs_ignore, runs_alloc.
  - apply at_runs, runs_ignore, runs_reclaim.
  - apply at_runs, runs_ignore, runs_truncate.
  - intros _ s' r [= <- _]. destruct Hok as [Hb Himg]. exact (reaches_once E G s E G _ (step_kernel E G s b Hb Himg)).
  - apply retire_reaches; [done|]. intros b pages Hof. by apply Hrec.
  - intros _ s' r Hrun. by eapply attach_reaches.
  - apply at_runs, runs_ignore, runs_evict_if_pressured.
  - apply at_runs, runs_ignore, quiet_runs, quiet_drain.
  - apply at_runs, quiet_runs, quiet_store_event.
  - apply promote_reaches. intros s1 Hroom b pages imgs Hp. apply Hrec. by exists s1.
  - apply at_runs, runs_ignore, quiet_runs, quiet_materialize.
  - apply at_runs, runs_ignore, runs_read.
  - apply at_ignore. unfold install_restored_kv. apply at_gets. by apply (install_reaches _ _ s).
Qed.

(** Some ghost state goes with every state of a run. *)
Lemma scheduler_world s0 s E G : world_ok E G s0 -> scheduler_run s0 s -> exists E' G', world_ok E' G' s.
Proof.
  intros Hw Hrun. revert E G Hw. induction Hrun as [s|s s1 s2 (op & r & Hok & Hop) _ IH]; intros E G Hw; [by exists E, G|].
  destruct (op_reaches (Rec := fun _ _ _ => True) E G s op s1 r ltac:(done) Hw Hok Hop) as (E1 & G1 & H1').
  apply (IH E1 G1). by apply (cache_run_ok (H1 := fun _ _ _ => True) (E, G, s) (E1, G1, s1) Hw H1').
Qed.

(** What is recorded now. *)
Definition contents_of s : gmap BlockId (list nat * list (list (list (list N)))) :=
  fmap (M := gmap BlockId) (fun pages : list nat => (pages, image_of s <$> pages)) (b2p s).

Lemma world_contents E G s : world_ok E G s -> world_ok E (contents_of s) s.
Proof.
  intros (HL & _ & Hkey). split; [done|]. split; [|done]. intros b pages Hb. unfold contents_of. by rewrite lookup_fmap, Hb.
Qed.

Lemma empty_world L s : wf L [] (pc_pool s) -> b2p s = ∅ -> world_ok [] ∅ s.
Proof.
  intros Hwf Hb. split; [|by rewrite Hb]. exists L. unfold named. by rewrite Hb, map_to_list_empty.
Qed.

(** C4: Whatever operations the scheduler runs from a state without cached
    blocks, as long as the kernels leave retained pages alone, an attached
    prefix covers its tokens exactly and no reference count overflows: every
    page a cached block names is held, at least as many times as blocks name
    it, and is not in the free list; and every further operation leaves a
    cached block its pages and what is in them, or drops it, or records it
    anew: a retiring slot records its own pages as they are, and a promotion
    or a restored session pages that no block named. *)
Theorem cached_pages_are_kept L s0 s :
  wf L [] (pc_pool s0) -> b2p s0 = ∅ -> scheduler_run s0 s ->
  (forall b pages p, b2p s !! b = Some pages -> p ∈ pages ->
     p ∉ free_pages (pc_pool s) /\
     exists n, page_ref_count (pc_pool s) !! p = Some n /\ (0 < N.of_nat (occurrences p (named s)) <= n)%N) /\
  forall op s' r b pages, op_allowed s op -> run_op op s = Done (s', r) -> b2p s' !! b = Some pages ->
    (b2p s !! b = Some pages /\ image_of s' <$> pages = image_of s <$> pages) \/
    recorded_by op s b pages (image_of s' <$> pages).
Proof.
  intros Hwf Hb Hrun. destruct (scheduler_world _ _ _ _ (empty_world _ _ Hwf Hb) Hrun) as (E & G & Hw). split.
  - intros b pages p Hbp Hp. pose proof Hw as [[L' Hwf'] _]. assert (p ∈ named s) as Hin by by eapply elem_of_named.
    assert (p ∈ E ++ named s) as HE by (apply elem_of_app; by right).
    split; [intros Hf; by apply (acc_free _ _ _ (wf_accounts _ _ _ Hwf')) in Hf as (_ & _ & [])|].
    destruct (held_count _ _ _ _ Hwf' HE) as (n & Hn & _ & Hle). exists n. split; [done|].
    pose proof (occurrences_in p _ Hin). rewrite occurrences_app in Hle. lia.
  - intros op s' r b pages Hok Hop Hb'. apply world_contents in Hw.
    destruct (op_reaches (Rec := recorded_by op s) E (contents_of s) s op s' r ltac:(done) Hw Hok Hop) as (E' & G' & Hcr).
    destruct (cache_run_ok (H1 := recorded_by op s) (E, contents_of s, s) (E', G', s') Hw Hcr) as (_ & HG & _). cbn in HG.
    destruct (run_kept (H1 := recorded_by op s) _ _ _ _ Hcr (HG _ _ Hb')) as [Hx|Hrec]; [left|by right].
    cbn in Hx. unfold contents_of in Hx. rewrite lookup_fmap in Hx. destruct (b2p s !! b) as [pages'|]; [|done].
    cbn in Hx. injection Hx as -> Himg. done.
Qed.
End scheduler_runs.

(** ** What reclaiming gives back

    Eviction for an allocation gives pages back: no slot changes, no page is
    held more often than before, and at least the pages it reports are free. *)
Section reclaiming.
Context {Q : Type} `{CoordinatorHandle Q} `{Driver} `{Blake3} (env : PageEnv).
Abbreviation page_eff := (eff (PageCache Q) cache_error).
Abbreviation reclaimed := PrefillPlanProps.reclaimed.
Implicit Types (s : PageCache Q).
#[local] Existing Instance PrefillPlanProps.reclaimed_preorder.

Definition gives_back (n : nat) (p p' : TokenKVPool) : Prop :=
  reclaimed p p' /\ length (free_pages p) + n <= length (free_pages p').

(** A call that gives back, with the pages that its value accounts for. *)
Definition gains {A} (f : A -> nat) (m : page_eff A) : Prop :=
  forall s s' r, m s = Done (s', r) -> gives_back (match r with inl a => f a | inr _ => 0 end) (pc_pool s) (pc_pool s').

Lemma gives_back_trans n n' k p p1 p2 : gives_back n p p1 -> gives_back n' p1 p2 -> k <= n + n' -> gives_back k p p2.
Proof. intros [Hr Hl] [Hr' Hl'] Hk. split; [by etransitivity|lia]. Qed.

Lemma gives_back_le n n' p p' : gives_back n p p' -> n' <= n -> gives_back n' p p'.
Proof. intros [Hr Hl] Hle. split; [done|lia]. Qed.

Lemma gains_quiet {A} (m : page_eff A) : quiet m -> gains (fun _ => 0) m.
Proof. intros Hm s s' r Hrun. destruct (Hm _ _ _ Hrun) as [-> _]. split; [done|]. destruct r; lia. Qed.

Lemma gains_bind {A B} (f : A -> nat) (h : A -> B -> nat) (g : B -> nat) (m : page_eff A) (k : A -> page_eff B) :
  gains f m -> (forall a, gains (h a) (k a)) -> (forall a b, g b <= f a + h a b) -> gains g (m ≫= k).
Proof.
  intros Hm Hk Hle s s' r [(s1 & a & Hrun & Hrest)|(e & Hrun & ->)]%run_bind_inv; [|exact (Hm _ _ _ Hrun)].
  eapply gives_back_trans; [exact (Hm _ _ _ Hrun)|exact (Hk a _ _ _ Hrest)|]. destruct r as [b|]; [apply Hle|lia].
Qed.

Lemma gains_then {A B} (g : B -> nat) (m : page_eff A) (k : A -> page_eff B) :
  gains (fun _ => 0) m -> (forall a, gains g (k a)) -> gains g (m ≫= k).
Proof. intros Hm Hk. eapply gains_bind; [exact Hm|exact Hk|done]. Qed.

Lemma gains_le {A} (f g : A -> nat) (m : page_eff A) : gains f m -> (forall a, g a <= f a) -> gains g m.
Proof. intros Hm Hle s s' r Hrun. eapply gives_back_le; [exact (Hm _ _ _ Hrun)|]. destruct r; [apply Hle|done]. Qed.

Lemma gains_none {A} (f : A -> nat) (m : page_eff A) : gains f m -> gains (fun _ => 0) m.
Proof. intros Hm. eapply gains_le; [exact Hm|intros; lia]. Qed.

Lemma gains_ret {A} (f : A -> nat) a : f a = 0 -> gains f (mret a).
Proof. intros Ha s s' r [= <- <-]. split; [done|]. rewrite Ha. lia. Qed.

Lemma gains_throw {A} (f : A -> nat) e : gains f (throw e : page_eff A).
Proof. intros s s' r [= <- <-]. split; [done|lia]. Qed.

Lemma gains_try {A} (f : A -> nat) (m : page_eff A) : gains f m -> gains (fun r => match r with inl a => f a | inr _ => 0 end) (try m).
Proof. intros Hm s s' r. unfold try. destruct (m s) as [[s1 r1]| |] eqn:Hrun; [|done|done]. intros [= <- <-]. exact (Hm _ _ _ Hrun). Qed.

Lemma recycle_gives page p p' r : recycle_page_if_unreferenced page p = Done (p', r) ->
  exists freed, r = inl freed /\ gives_back (if freed then 1 else 0) p p'.
Proof.
  unfold recycle_page_if_unreferenced, mbind, eff_bind, reads. destruct (index (page_attach_count p) page) as [a| |]; cbn; [|done..].
  destruct (if bool_decide (a = 0%N) then index (page_ref_count p) page else Done 1%N) as [n| |]; cbn; [|done..].
  case_bool_decide; intros [= <- <-]; eexists; (split; [done|]); [|split; [done|lia]].
  split; [|cbn; rewrite length_app; cbn; lia]. constructor; try done. intros q m ?. by exists m.
Qed.

Lemma lower_gives page n p p' r : index (page_ref_count p) page = Done n -> put_ref page (n - 1) p = Done (p', r) ->
  r = inl tt /\ gives_back 0 p p'.
Proof.
  intros Hn%index_Done. unfold put_ref, mbind, eff_bind, reads, store_at. case_bool_decide as Hlt; cbn; [|done].
  intros [= <- <-]. split; [done|]. split; [|cbn; lia]. constructor; try done. cbn. intros q m.
  destruct (decide (q = page)) as [->|].
  - rewrite list_lookup_insert_eq by done. intros [= <-]. exists n. split; [done|lia].
  - rewrite list_lookup_insert_ne by done. intros Hm. by exists m.
Qed.

Lemma release_gives pages : forall p p' r, release_pages pages p = Done (p', r) ->
  gives_back (match r with inl freed => length freed | inr _ => 0 end) p p'.
Proof.
  induction pages as [|page pages IH]; intros p p' r; cbn [release_pages]; [intros [= <- <-]; split; [done|cbn; lia]|].
  unfold reads at 1. unfold mbind at 1, eff_bind at 1. destruct (index (page_ref_count p) page) as [n| |] eqn:Hn; cbn [mbind res_bind]; [|done..].
  intros [(p1 & [] & Hput & Hrest)|(e & Hput & ->)]%run_bind_inv; destruct (lower_gives _ _ _ _ _ Hn Hput) as [Hr Hg]; [|done].
  assert (forall p2 r2, (if bool_decide (n - 1 = 0)%N then recycle_page_if_unreferenced page else mret false) p1 = Done (p2, r2) ->
    exists freed : bool, r2 = inl freed /\ gives_back (if freed then 1 else 0) p1 p2) as Hone.
  { intros p2 r2. case_bool_decide; [apply recycle_gives|]. intros [= <- <-]. exists false. split; [done|]. split; [done|lia]. }
  apply run_bind_inv in Hrest as [(p2 & freed & Hrec & Hrest)|(e & Hrec & ->)]; apply Hone in Hrec as (freed' & [=] & Hg'); subst freed'.
  apply run_bind_inv in Hrest as [(p3 & rest & Hrun & [= <- <-])|(e & Hrun & ->)]; apply IH in Hrun;
    eapply (gives_back_trans 0); [exact Hg|eapply gives_back_trans; [exact Hg'|exact Hrun|reflexivity]| |exact Hg|eapply gives_back_trans; [exact Hg'|exact Hrun|reflexivity]|];
    destruct freed; cbn; lia.
Qed.

Lemma gains_release pages : gains length (in_pool (Q := Q) (release_pages pages)).
Proof. intros s s' r (p & r' & Hrun & -> & ->)%in_pool_inv. apply release_gives in Hrun. by destruct r'. Qed.

(** Copies to the host count driver calls, and that is all. *)
Definition only_calls {A} (m : pool_eff A) : Prop := forall p p' r, m p = Done (p', r) -> gives_back 0 p p'.

Lemma only_calls_bind {A B} (m : pool_eff A) (k : A -> pool_eff B) : only_calls m -> (forall a, only_calls (k a)) -> only_calls (m ≫= k).
Proof.
  intros Hm Hk p p' r [(p1 & a & Hrun & Hrest)|(e & Hrun & ->)]%run_bind_inv; [|by eapply Hm].
  eapply gives_back_trans; [by eapply Hm|by eapply Hk|lia].
Qed.
Lemma only_calls_same {A} (m : pool_eff A) : (forall p p' r, m p = Done (p', r) -> p' = p) -> only_calls m.
Proof. intros Hm p p' r ->%Hm. split; [done|lia]. Qed.
Lemma only_calls_driver : only_calls driver_call.
Proof.
  intros p p' r. unfold driver_call. rewrite run_gets. unfold modify, mbind, eff_bind.
  destruct (refuses _); intros [= <- _]; (split; [constructor; try done; intros q n ?; by exists n|cbn; lia]).
Qed.
Lemma only_calls_read x : only_calls (read_cell x).
Proof.
  destruct x as [[page layer] t]. unfold read_cell. apply only_calls_bind; [apply only_calls_same; by intros ? ? ? [= <- _]|]. intros item.
  apply only_calls_bind; [apply only_calls_same; intros p p' r; unfold reads; destruct (index _ _); cbn; [by intros [= <- _]|done..]|]. intros buf.
  apply only_calls_bind; [apply only_calls_same; intros p p' r; unfold of_res; destruct (slice _ _ _); cbn; [by intros [= <- _]|done..]|]. intros es.
  apply only_calls_bind; [apply only_calls_driver|]. intros _. apply only_calls_same. by intros ? ? ? [= <- _].
Qed.
Lemma only_calls_cells l : only_calls (read_cells l).
Proof.
  induction l as [|x l IH]; cbn [read_cells]; [apply only_calls_same; by intros ? ? ? [= <- _]|].
  apply only_calls_bind; [apply only_calls_read|]. intros b. apply only_calls_bind; [done|]. intros rest.
  apply only_calls_same. by intros ? ? ? [= <- _].
Qed.
Lemma gains_to_host pages : gains (fun _ => 0) (in_pool (Q := Q) (copy_pages_to_host pages)).
Proof.
  intros s s' r (p & r' & Hrun & -> & ->)%in_pool_inv. enough (only_calls (copy_pages_to_host pages)) as Hm by (destruct r'; by eapply Hm).
  unfold copy_pages_to_host. apply only_calls_bind; [apply only_calls_same; by intros ? ? ? [= <- _]|]. intros c.
  apply only_calls_bind; [apply only_calls_cells|]. intros out. apply only_calls_bind; [apply only_calls_driver|]. intros _.
  apply only_calls_same. by intros ? ? ? [= <- _].
Qed.

#[local] Hint Resolve quiet_block_metadata quiet_update_cache quiet_release_host_region quiet_delete_disk quiet_evict_sessions
  quiet_evict_unprotected quiet_allocate_tier_block_id quiet_reserve_host_region quiet_spill quiet_select_gpu : pages.
Lemma gains_tables f : gains (fun _ => 0) (on_tables (Q := Q) f).
Proof. intros s s' r [= <- <-]. split; [done|cbn; lia]. Qed.
Ltac skip := apply gains_then; [first [apply gains_tables|apply gains_quiet; quiet_tac]|intros].

(** The value so far is carried on. *)
Lemma gains_carry {A} (g : A -> nat) (m : page_eff A) (k : A -> page_eff nat) :
  gains g m -> (forall a, gains (fun b => b - g a) (k a)) -> gains id (m ≫= k).
Proof. intros Hm Hk. eapply gains_bind; [exact Hm|exact Hk|]. intros a b. unfold id. lia. Qed.

Lemma gains_drop b : gains id (drop_cached_block (Q := Q) b).
Proof.
  unfold drop_cached_block. skip. destruct (is_some _); [by apply gains_ret|]. do 2 skip.
  apply (gains_carry id).
  - destruct (_ !! b) as [pages|]; [|by apply gains_ret]. skip. apply (gains_carry length); [apply gains_release|].
    intros freed. apply gains_ret. lia.
  - intros n. do 3 skip. apply gains_ret. unfold id. lia.
Qed.

Lemma gains_drop_all l : gains id (drop_cached_blocks (Q := Q) l).
Proof.
  induction l as [|b l IH]; cbn [drop_cached_blocks]; [by apply gains_ret|]. apply (gains_carry id); [apply gains_drop|].
  intros n. eapply (gains_bind id (fun rest b => b - n - rest)); [exact IH| |unfold id; lia]. intros rest. apply gains_ret. lia.
Qed.

Lemma gains_evict_host_loop n : forall bytes mode acc, gains (fun _ => 0) (evict_host_loop (Q := Q) env n bytes mode acc).
Proof.
  induction n as [|n IH]; intros bytes mode acc; cbn [evict_host_loop]; [by apply gains_ret|]. skip.
  destruct (_ <=? _)%N; [by apply gains_ret|]. do 2 skip.
  case_bool_decide; [case_bool_decide; [apply IH|by apply gains_ret]|]. skip.
  apply gains_then; [eapply gains_none, gains_drop_all|]. intros. apply IH.
Qed.

Lemma gains_ensure bytes : gains (fun _ => 0) (ensure_host_demote_headroom (Q := Q) env bytes).
Proof.
  unfold ensure_host_demote_headroom. destruct (_ =? _)%N; [by apply gains_ret|].
  assert (forall (b : bool) mode, gains (fun _ => 0) (if b then evict_host_blocks_for_demote_headroom (Q := Q) env bytes mode;; mret tt else mret tt)) as Hif.
  { intros [] mode; [|by apply gains_ret]. apply gains_then; [|intros; by apply gains_ret].
    unfold evict_host_blocks_for_demote_headroom. skip. destruct (_ || _); [by apply gains_ret|]. skip. apply gains_evict_host_loop. }
  skip. apply gains_then; [apply Hif|intros _]. skip. apply gains_then; [apply Hif|intros _]. do 2 skip. by apply gains_ret.
Qed.

Lemma gains_demote b : gains id (demote_block_to_host (Q := Q) env b).
Proof.
  unfold demote_block_to_host. do 2 skip. destruct a as [md|]; [|by apply gains_ret].
  destruct (negb _); [by apply gains_ret|]. destruct (negb _); [by apply gains_ret|].
  destruct (_ !! b) as [pages|]; [|by apply gains_ret]. apply gains_then; [apply gains_ensure|]. intros room.
  destruct room; [cbn [negb]|apply gains_throw]. apply gains_then; [apply gains_to_host|]. intros payload. skip.
  match goal with |- gains _ (match ?x with _ => _ end) => destruct x as [region|]; [|apply gains_throw] end.
  apply gains_then; [apply gains_quiet, quiet_or_release, quiet_in_host|]. intros _.
  apply gains_then; [apply gains_quiet, quiet_or_release, quiet_allocate_tier_block_id|]. intros new. skip.
  match goal with |- gains _ (if negb ?x then _ else _) => destruct x end; cbn [negb]; [|skip; apply gains_throw].
  do 5 skip. apply (gains_carry length); [apply gains_release|]. intros freed. apply gains_ret. lia.
Qed.

Lemma gains_demote_candidates goal l : forall acc, gains (fun b => b - acc) (demote_candidates (Q := Q) env goal l acc).
Proof.
  induction l as [|b l IH]; intros acc; cbn [demote_candidates]; [apply gains_ret; lia|]. skip.
  destruct (block_has_active_session_ref _ _); [apply IH|].
  eapply (gains_bind _ (fun r b => b - (acc + match r with inl a => id a | inr _ => 0 end)));
    [apply gains_try, gains_demote| |intros; lia]. intros [n|e]; unfold id.
  - destruct (match goal with Some want => _ | None => false end); [apply gains_ret; lia|apply IH].
  - rewrite Nat.add_0_r. skip. match goal with |- gains _ (if ?x then _ else _) => destruct x end; [apply gains_ret; lia|apply IH].
Qed.

Lemma gains_drop_for_pages n : gains id (drop_for_pages (Q := Q) env n).
Proof. unfold drop_for_pages. do 2 skip. case_match. do 3 skip. apply gains_drop_all. Qed.

Lemma gains_demote_rounds fuel : forall shortage remaining acc,
  gains (fun x => x.2 - acc) (demote_rounds (Q := Q) env fuel shortage remaining acc).
Proof.
  induction fuel as [|fuel IH]; intros shortage remaining acc; cbn [demote_rounds];
    (case_bool_decide; [apply gains_ret; cbn; lia|]); [by intros s s' r|].
  do 2 skip. case_bool_decide; [apply gains_ret; cbn; lia|]. apply gains_then; [|intros room].
  { unfold sealed_block_headroom. skip. apply gains_ensure. }
  destruct (negb _); [apply gains_ret; cbn; lia|].
  eapply (gains_bind (fun b => b - acc) (fun a x => x.2 - a)); [apply gains_demote_candidates| |cbn; lia]. intros after. skip.
  case_bool_decide; [apply gains_ret; cbn; lia|apply IH].
Qed.

(** Eviction for an allocation gives back at least what it reports. *)
Lemma gains_evict_for_allocation n : gains id (evict_prefix_cache_for_allocation (Q := Q) env n).
Proof.
  unfold evict_prefix_cache_for_allocation. skip. case_bool_decide; [by apply gains_ret|].
  eapply (gains_bind (fun x => x.2 - 0) (fun x b => b - x.2)); [apply gains_demote_rounds| |intros [? ?]; unfold id; cbn; lia].
  intros [remaining reclaimed]; cbn. case_bool_decide; [|apply gains_ret; lia].
  eapply (gains_bind id (fun dropped b => b - reclaimed - dropped)); [apply gains_drop_for_pages| |unfold id; lia].
  intros dropped. apply gains_ret. lia.
Qed.

Lemma gains_reclaim rows : gains id (reclaim_for_paged_appends (Q := Q) env rows).
Proof.
  unfold reclaim_for_paged_appends. skip. destruct (negb _); [by apply gains_ret|]. do 2 skip.
  case_bool_decide; [apply gains_evict_for_allocation|by apply gains_ret].
Qed.

(** C9: what a step plans, and what becomes of it. The prefill rows of a step
    are planned against the free pages and the evictable pages of cached
    prefixes; pages are then reclaimed for the rows, and the batch is prepared.
    The plan exists and takes at most the pages it counted on; reclaiming
    leaves every slot as it was and frees at least the pages it reports; and
    the batch is prepared, every slot grown by its chunk unless the driver
    refuses a call, exactly when its pages are free then - always when the
    rows fit without reclaiming, or reclaiming reports as much as was planned
    with. Otherwise, when cached pages turned out not to be free, the whole
    batch is refused and nothing has changed. *)
Theorem planned_prefill_is_prepared L R s evictable tokens decode remaining cap queue :
  wf L R (pc_pool s) -> evictable_prefix_gpu_pages s = Done evictable ->
  NoDup (row_slot <$> queue) -> (forall row, row ∈ queue -> row_slot row < num_slots (cfg (pc_pool s))) ->
  (forall slot, slot ∈ decode -> slot < num_slots (cfg (pc_pool s)) /\ slot ∉ row_slot <$> queue) ->
  exists b sel needed, plan_prefill evictable tokens decode remaining cap queue (pc_pool s) = Done (b, sel) /\
    let rows := PrefillPlanProps.row_of <$> sel in
    PrefillPlanProps.batch_pages (pc_pool s) rows needed /\ needed <= length (free_pages (pc_pool s)) + evictable /\
    forall s1 n L1 R1, reclaim_for_paged_appends (Q := Q) env rows s = Done (s1, inl n) -> wf L1 R1 (pc_pool s1) ->
      reclaimed (pc_pool s) (pc_pool s1) /\ length (free_pages (pc_pool s)) + n <= length (free_pages (pc_pool s1)) /\
      (rows <> [] -> exists total p2 r, PrefillPlanProps.batch_pages (pc_pool s1) rows total /\ total <= needed /\
         prepare_paged_prefill_batch rows (pc_pool s1) = Done (p2, r) /\
         if decide (total <= length (free_pages (pc_pool s1))) then PrefillPlanProps.prepared L1 R1 (pc_pool s1) rows p2 r
         else p2 = pc_pool s1 /\ r = inr (BatchOutOfPages total (length (free_pages (pc_pool s1)))) /\ n < evictable /\
           length (free_pages (pc_pool s)) < needed).
Proof.
  intros Hwf _ Hnd Hq Hd.
  destruct (PrefillPlanProps.planned_rows evictable L R (pc_pool s) tokens decode remaining cap queue Hwf Hnd Hq Hd)
    as (b & sel & needed & Hplan & Hnd' & Hrows & Hneed & Hle).
  exists b, sel, needed. split; [done|]. intros rows. split; [done|]. split; [done|]. intros s1 n L1 R1 Hrun Hwf1.
  destruct (gains_reclaim _ _ _ _ Hrun) as [Hrec Hfree]. split; [done|]. split; [done|]. intros Hne.
  destruct (PrefillPlanProps.reclaimed_outcome L R (pc_pool s) L1 R1 (pc_pool s1) rows needed)
    as (total & p2 & r & Ht & Htle & Hprep & Hout); try done.
  exists total, p2, r. split_and!; [done..|]. case_decide; [done|]. destruct Hout as [-> ->]. unfold id in Hfree. split_and!; [done|done|lia|lia].
Qed.
End reclaiming.

(** ** A finished prompt is found again *)
Section block_pages.

(** The pages of the blocks of a table, [k] pages a block. *)
Definition block_pages (k : nat) (pages : list nat) (n : nat) : list (list nat) :=
  (fun i => take k (drop (i * k) pages)) <$> seq 0 n.
Definition first_page (pages : list nat) : BlockId := N.of_nat (hd 0 pages).

Lemma block_pages_length k pages n : length (block_pages k pages n) = n.
Proof. unfold block_pages. by rewrite length_fmap, length_seq. Qed.

Lemma block_pages_concat k pages n : concat (block_pages k pages n) = take (n * k) pages.
Proof.
  unfold block_pages. induction n as [|n IH]; [done|].
  rewrite seq_S, fmap_app, concat_app, IH. cbn. rewrite app_nil_r, take_take_drop. f_equal. lia.
Qed.

Lemma block_pages_nonempty k pages n :
  0 < k -> n * k <= length pages -> Forall (fun ps => ps <> []) (block_pages k pages n).
Proof.
  intros Hk Hn. apply Forall_forall. intros ps (i & -> & Hi)%list_elem_of_fmap Hps. apply elem_of_seq in Hi.
  apply (f_equal length) in Hps. rewrite length_take, length_drop in Hps. cbn in Hps. nia.
Qed.

Lemma first_pages_done l : Forall (fun ps => ps <> []) l -> map_res block_id_for_pages l = Done (first_page <$> l).
Proof. induction 1 as [|ps l Hps _ IH]; [done|]. cbn. rewrite IH. by destruct ps. Qed.

Lemma first_pages_nodup l : Forall (fun ps => ps <> []) l -> NoDup (concat l) -> NoDup (first_page <$> l).
Proof.
  induction 1 as [|ps l Hps Hne IH]; cbn; [constructor|]. intros (_ & Hdis & Hnd)%NoDup_app.
  constructor; [|by apply IH]. intros (ps' & Heq & Hin)%list_elem_of_fmap. unfold first_page in Heq.
  destruct ps as [|p ps]; [done|]. cbn in Heq. apply (Hdis p); [left|].
  apply list_elem_of_In, in_concat. exists ps'. split; [by apply list_elem_of_In|]. apply list_elem_of_In.
  rewrite Forall_forall in Hne. destruct ps' as [|p' ps']; [by destruct (Hne _ Hin)|]. cbn in Heq.
  assert (p = p') as -> by lia. left.
Qed.
End block_pages.

Section publication.
Context {Q : Type} `{CoordinatorHandle Q} `{Driver} `{Blake3} (env : PageEnv).
Implicit Types (s : PageCache Q).

Lemma run_in_pool {A} (m : pool_eff A) s p a : m (pc_pool s) = Done (p, inl a) -> in_pool m s = Done (set_pc_pool p s, inl a).
Proof. intros Hm. unfold in_pool. by rewrite Hm. Qed.
Lemma run_from_pool {A} (f : TokenKVPool -> res A) s a : f (pc_pool s) = Done a -> from_pool f s = Done (s, inl a).
Proof. intros Hf. unfold from_pool, in_pool, reads. rewrite Hf. by destruct s. Qed.

Lemma sealed_pages_ok s slot k pages len n :
  page_indices (pc_pool s) !! slot = Some pages -> seq_lens (pc_pool s) !! slot = Some len ->
  0 < page_size (cfg (pc_pool s)) -> block_size (pc_cache s) = k * page_size (cfg (pc_pool s)) -> n * k <= length pages ->
  slot_sealed_block_pages (Q := Q) slot n s = Done (s, inl (block_pages k pages n)).
Proof.
  intros Hp Hl Hps Hbs Hn. unfold slot_sealed_block_pages. rewrite run_gets. apply run_from_pool. rewrite Hbs.
  set (ps := page_size _) in *. unfold block_pages.
  assert (forall l, (forall i, i ∈ l -> i < n) -> map_res (fun i => page_indices_for_token_range (pc_pool s) slot (i * (k * ps)) (k * ps)) l
    = Done ((fun i => take k (drop (i * k) pages)) <$> l)) as Hall; [|apply Hall; intros i Hi%elem_of_seq; lia].
  induction l as [|i l IH]; intros Hin; [done|]. cbn. rewrite IH by set_solver.
  assert (i < n) as Hi by (apply Hin; left).
  unfold page_indices_for_token_range, seq_len, slot_pages. rewrite (index_Some _ _ _ Hl), (index_Some _ _ _ Hp). cbn. fold ps.
  replace (i * (k * ps) / ps) with (i * k) by (rewrite Nat.mul_assoc, Nat.div_mul; lia).
  assert (div_ceil (i * (k * ps) + k * ps) ps = (i + 1) * k) as ->.
  { destruct (div_ceil_spec (i * (k * ps) + k * ps) ps Hps). nia. }
  unfold slice. rewrite bool_decide_eq_true_2 by nia. cbn. by replace ((i + 1) * k - i * k) with k by nia.
Qed.

#[local] Existing Instance RadixTree.same_tree_equiv.

(** Recording blocks leaves the pool and the shape of the tree alone. *)
Record recorded s s' : Prop := mkRecorded {
  rc_pool : pc_pool s' = pc_pool s;
  rc_tree : RadixTree.same_tree (pc_cache s) (pc_cache s');
  rc_owned : length (slot_owned_blocks (pc_tables s')) = length (slot_owned_blocks (pc_tables s));
}.

Lemma record_block_ok s slot sid len deadline eligible b pages :
  slot < length (slot_owned_blocks (pc_tables s)) -> b2p s !! b = None ->
  exists s', record_sealed_gpu_block (Q := Q) slot sid len deadline true eligible (b, pages) s = Done (s', inl tt) /\
    recorded s s' /\ b2p s' = <[b := pages]> (b2p s).
Proof.
  intros Hslot Hb. unfold b2p in Hb. destruct (lookup_lt_is_Some_2 _ _ Hslot) as [owned Howned].
  set (u := mkBlockMetadataUpdate (Some (LocGpu (u32_of_usize slot))) (Some len) (Some sid) (Some eligible) (Some deadline) None None).
  assert (exists c' x, update_block_metadata b u (pc_cache s) = (c', x) /\ RadixTree.same_tree (pc_cache s) c') as (c' & x & Hu & Ht).
  { pose proof (RadixMetaProps.update_block_metadata_spec b u (pc_cache s)) as Hspec.
    destruct (find_block_node _ _) as [[i n]|]; [|by eexists _, _].
    destruct Hspec as (c' & m & Hrun & Ht & _). by exists c', true. }
  unfold record_sealed_gpu_block, on_tables, update_cache, in_cache, modify, mbind, eff_bind, gets, of_res. cbn.
  rewrite (index_Some _ _ _ Howned). cbn. fold u. rewrite Hu, Hb. cbn. eexists. split; [done|]. split; [|done].
  constructor; cbn; [done|done|by rewrite length_insert].
Qed.

Lemma record_blocks_ok slot sid len deadline eligible l : forall s,
  slot < length (slot_owned_blocks (pc_tables s)) -> NoDup (fst <$> l) -> (forall x, x ∈ l -> b2p s !! x.1 = None) ->
  exists s', for_each l (record_sealed_gpu_block (Q := Q) slot sid len deadline true eligible) s = Done (s', inl tt) /\
    recorded s s' /\ (forall x, x ∈ l -> b2p s' !! x.1 = Some x.2) /\
    forall b, b ∉ fst <$> l -> b2p s' !! b = b2p s !! b.
Proof.
  induction l as [|[b pages] l IH]; intros s Hslot Hnd Hfresh; cbn [for_each].
  { exists s. split_and!; [done|by constructor|by intros ? ?%not_elem_of_nil|done]. }
  apply NoDup_cons in Hnd as [Hb Hnd].
  destruct (record_block_ok s slot sid len deadline eligible b pages Hslot) as (s1 & Hrun1 & [Hp1 Ht1 Ho1] & Hm1); [by apply (Hfresh (b, pages)); left|].
  destruct (IH s1) as (s2 & Hrun2 & [Hp2 Ht2 Ho2] & Hm2 & Hk2); [by rewrite Ho1|done| |].
  { intros x Hx. rewrite Hm1, lookup_insert_ne; [by apply Hfresh; right|]. intros ->. apply Hb, list_elem_of_fmap. by exists x. }
  exists s2. rewrite (run_bind_ok _ _ _ _ _ Hrun1). split_and!; [done| | |].
  - constructor; [by rewrite Hp2|by etransitivity|by rewrite Ho2].
  - intros x [->|Hx]%elem_of_cons; [|by apply Hm2]. cbn. by rewrite Hk2, Hm1, lookup_insert_eq.
  - intros b' Hb'. rewrite Hk2, Hm1 by set_solver. apply lookup_insert_ne. set_solver.
Qed.

Lemma flatten_ok l : forall acc s, (forall x, x ∈ l -> b2p s !! x.1 = Some x.2) ->
  flattened_pages_for_blocks (Q := Q) (fst <$> l) acc s = Done (s, inl (acc ++ concat (snd <$> l))).
Proof.
  induction l as [|[b pages] l IH]; intros acc s Hl; cbn; [by rewrite app_nil_r|].
  rewrite run_gets. pose proof (Hl (b, pages) ltac:(left)) as Hb. unfold b2p in Hb. cbn in Hb. rewrite Hb.
  rewrite IH by (intros x Hx; apply Hl; by right). by rewrite app_assoc.
Qed.

(** A slot that holds [n] whole blocks of [k] pages of a prompt no block of
    which has pages yet, in a pool with room to keep them. *)
Record cold_prompt (s : PageCache Q) (slot : nat) (prompt : list Token) (pages : list nat) (k n : nat) : Prop := mkColdPrompt {
  cp_tree : RadixTree.wf (pc_cache s);
  cp_block : block_size (pc_cache s) = k * page_size (cfg (pc_pool s));
  cp_pages : page_indices (pc_pool s) !! slot = Some pages;
  cp_count : exists len, seq_lens (pc_pool s) !! slot = Some len /\ n = Nat.min (length prompt) len / block_size (pc_cache s);
  cp_some : 0 < k /\ 0 < n;
  cp_nodup : NoDup pages;
  cp_cold : forall q, q ∈ pages -> b2p s !! N.of_nat q = None;
  cp_tables : slot < length (slot_owned_blocks (pc_tables s)) /\ slot < length (slot_materialized_prompt_lens (pc_tables s));
  cp_room : can_publish_prefix_pages_without_watermark_pressure (retained_count (pc_pool s)) (max_total_pages (cfg (pc_pool s)))
    (n * k) (SchedulerConfig.prefix_cache_retain_hard_cap (pe_config env)) (SchedulerConfig.prefix_cache_high_water (pe_config env)) = true;
}.

Lemma chain_length model tag bs count parent prompt : length (fingerprint_chain model tag bs count parent prompt) = count.
Proof. revert parent prompt. induction count as [|count IH]; intros; cbn; [done|]. by rewrite IH. Qed.

Lemma sum_lengths (l : list (list nat)) : sum_list (length <$> l) = length (concat l).
Proof. induction l as [|x l IH]; [done|]. cbn. rewrite length_app. cbn in IH. lia. Qed.

Lemma cold_prompt_fits L R s slot prompt pages k n :
  wf L R (pc_pool s) -> cold_prompt s slot prompt pages k n -> n * k <= length pages.
Proof.
  intros Hwf [_ Hb Hp (len & Hl & ->) _ _ _ _ _]. pose proof Hwf as [_ Hslots [Hps _] _].
  rewrite (ok_tight _ Hslots _ _ _ Hp Hl), Hb. set (ps := page_size _) in *.
  destruct (div_ceil_spec len ps Hps) as [Hlen _]. set (x := Nat.min (length prompt) len / (k * ps)).
  destruct (decide (k = 0)) as [->|]; [lia|].
  assert (k * ps * x <= Nat.min (length prompt) len) by (apply Nat.Div0.mul_div_le). nia.
Qed.

(** What publication leaves of such a prompt. *)
Lemma publish_ok L R s slot prompt pages sid k n :
  wf L R (pc_pool s) -> (N.of_nat (length pages + length R) <= u32_max)%N -> cold_prompt s slot prompt pages k n ->
  let kept := block_pages k pages n in
  let ids := first_page <$> kept in
  exists s', publish_to_prefix_cache (Q := Q) env slot prompt sid s = Done (s', inl tt) /\
    wf L (concat kept ++ R) (pc_pool s') /\ same_slots (pc_pool s) (pc_pool s') /\
    (forall x, x ∈ zip ids kept -> b2p s' !! x.1 = Some x.2) /\
    RadixTree.wf (pc_cache s') /\ block_size (pc_cache s') = block_size (pc_cache s) /\
    forall i b, ids !! i = Some b -> RadixTree.cached (pc_cache s') (take ((i + 1) * block_size (pc_cache s)) prompt) b.
Proof.
  intros Hwf Hroom Hcp kept ids. pose proof (cold_prompt_fits _ _ _ _ _ _ _ _ Hwf Hcp) as Hnk.
  destruct Hcp as [Htree Hb Hp (len & Hl & Hn) [Hk Hpos] Hnd Hcold [Hslot _] Hpub].
  pose proof Hwf as [_ _ [Hps _] _]. pose proof (RadixTree.wf_block_size _ Htree) as Hbs.
  assert (length kept = n) as Hkept by apply block_pages_length. assert (length ids = n) as Hids by (unfold ids; by rewrite length_fmap).
  assert (concat kept = take (n * k) pages) as Hconcat by apply block_pages_concat.
  assert (Forall (fun ps => ps <> []) kept) as Hne by by apply block_pages_nonempty.
  assert (NoDup ids) as Hidn.
  { apply first_pages_nodup; [done|]. rewrite Hconcat. rewrite <-(take_drop (n * k) pages) in Hnd. by apply NoDup_app in Hnd as [? _]. }
  unfold publish_to_prefix_cache. rewrite run_gets, (run_bind_ok _ _ _ _ _ (run_from_pool _ s len (index_Some _ _ _ Hl))).
  cbn zeta. rewrite <-Hn, bool_decide_eq_false_2 by lia.
  rewrite (run_bind_ok _ _ _ _ _ (sealed_pages_ok s slot k pages len n Hp Hl Hps Hb Hnk)). fold kept. rewrite !run_gets.
  assert (sum_list (length <$> kept) = n * k) as -> by (rewrite sum_lengths, Hconcat, length_take; lia).
  unfold config. rewrite Hpub. cbn [negb]. rewrite (run_of_res _ _ _ ids) by by apply first_pages_done.
  rewrite run_gets. set (fps := block_fingerprints _ _ _ _ _). set (tokens := take (sealed_block_token_count _ n) prompt).
  assert (length tokens = n * block_size (pc_cache s)) as Htok.
  { unfold tokens, sealed_block_token_count. rewrite length_take, Hn.
    pose proof (Nat.Div0.mul_div_le (Nat.min (length prompt) len) (block_size (pc_cache s))). lia. }
  destruct (RadixInsertProps.insert_ok (pc_cache s) tokens ids fps Htree) as (c1 & Hins & Hw1 & _ & Hbs1 & Hc1).
  { unfold fps, block_fingerprints. by rewrite chain_length, Hids. }
  assert (RadixInsertProps.insertable (pc_cache s) tokens ids = n) as Hall.
  { unfold RadixInsertProps.insertable. rewrite Hids, Htok, Nat.div_mul; lia. }
  rewrite Hall in Hins, Hc1. set (s1 := set_pc_cache c1 s).
  rewrite (run_bind_ok _ _ s s1 (n * block_size (pc_cache s))) by (unfold in_cache; by rewrite Hins).
  rewrite bool_decide_eq_false_2 by (unfold sealed_block_token_count; lia).
  destruct (retain_spec L R (pc_pool s) (concat kept) Hwf) as (p1 & Hret & Hwf1 & Hss & _).
  { intros q Hq. left. rewrite Hconcat in Hq. unfold owned. apply elem_of_app. right.
    apply list_elem_of_In, in_concat. exists pages. split; apply list_elem_of_In; [by eapply list_elem_of_lookup_2|by eapply subseteq_take]. }
  { intros q Hq. rewrite Hconcat, length_take. pose proof (occurrences_length q R). lia. }
  rewrite (run_bind_ok _ _ s1 (set_pc_pool p1 s1) tt) by by apply run_in_pool.
  assert (fst <$> zip ids kept = ids) as Hfst by (apply fst_zip; lia).
  destruct (record_blocks_ok slot sid (sealed_block_byte_len (set_pc_pool p1 s1))
    (block_keepalive_deadline sid (SchedulerConfig.prefix_cache_keepalive_ticks (pe_config env)) c1)
    (swap_eligible env sid (length prompt)) (zip ids kept) (set_pc_pool p1 s1)) as (s2 & Hrec & [Hp2 Ht2 _] & Hm2 & _); [done|by rewrite Hfst| |].
  { intros [b ps] Hin. cbn. apply list_elem_of_lookup in Hin as [i Hi]. apply lookup_zip_Some in Hi as [Hid Hpsi].
    unfold ids in Hid. rewrite list_lookup_fmap, Hpsi in Hid. injection Hid as <-. unfold first_page.
    rewrite Forall_forall in Hne. destruct ps as [|q ps]; [by destruct (Hne []); [by eapply list_elem_of_lookup_2|]|].
    apply Hcold. cbn. assert (q ∈ concat kept) as Hq.
    { apply list_elem_of_In, in_concat. exists (q :: ps). split; [|by left]. apply list_elem_of_In. by eapply list_elem_of_lookup_2. }
    rewrite Hconcat in Hq. by eapply subseteq_take. }
  rewrite (run_bind_ok _ _ (set_pc_pool p1 s1) s2 tt).
  2: { unfold record_sealed_gpu_blocks. rewrite !run_gets. exact Hrec. }
  assert (exists s3, (match sid with
      | Some sid0 => c ← gets pc_cache; on_sessions (publish_session_slot c sid0 ids (sealed_block_token_count (block_size (pc_cache s)) n))
      | None => mret tt end : eff (PageCache Q) cache_error unit) s2 = Done (s3, inl tt) /\ pc_pool s3 = pc_pool s2 /\ b2p s3 = b2p s2 /\ pc_cache s3 = pc_cache s2)
    as (s3 & -> & Hp3 & Hb3 & Hc3) by (destruct sid; by eexists).
  exists s3. split; [done|]. rewrite Hp3, Hp2, Hb3, Hc3. cbn [pc_pool set_pc_pool].
  split_and!; [done|done|done| | |].
  - eapply RadixTree.wf_same_tree; [exact Ht2|done].
  - by rewrite (RadixTree.st_size _ _ Ht2).
  - intros i b Hi. rewrite (RadixTree.cached_same_shape _ _ _ _ (RadixTree.st_shape _ _ Ht2)). apply Hc1. left. exists i.
    assert (i < n) by (rewrite <-Hids; by eapply lookup_lt_Some). split_and!; [done| |done].
    unfold tokens, sealed_block_token_count. rewrite take_take. f_equal. nia.
Qed.

Lemma clear_ok s slot : slot < length (slot_owned_blocks (pc_tables s)) ->
  exists s', clear_slot_prefix_ownership (Q := Q) slot s = Done (s', inl tt) /\ pc_cache s' = pc_cache s /\ pc_pool s' = pc_pool s /\
    b2p s' = b2p s /\ length (slot_owned_blocks (pc_tables s')) = length (slot_owned_blocks (pc_tables s)) /\
    slot_materialized_prompt_lens (pc_tables s') = slot_materialized_prompt_lens (pc_tables s).
Proof.
  intros Hslot. destruct (lookup_lt_is_Some_2 _ _ Hslot) as [owned Howned].
  unfold clear_slot_prefix_ownership, on_tables, modify, mbind, eff_bind, gets, of_res. rewrite (index_Some _ _ _ Howned).
  eexists. split; [done|]. cbn. by rewrite length_insert.
Qed.

Lemma materialized_ok s slot len : slot < length (slot_materialized_prompt_lens (pc_tables s)) ->
  exists s', put_materialized (Q := Q) slot len s = Done (s', inl tt) /\ pc_cache s' = pc_cache s /\ pc_pool s' = pc_pool s /\
    b2p s' = b2p s /\ slot_owned_blocks (pc_tables s') = slot_owned_blocks (pc_tables s) /\
    length (slot_materialized_prompt_lens (pc_tables s')) = length (slot_materialized_prompt_lens (pc_tables s)).
Proof.
  intros Hslot. unfold put_materialized, on_tables, modify, mbind, eff_bind, gets, of_res. rewrite store_at_Done by done.
  eexists. split; [done|]. cbn. by rewrite length_insert.
Qed.

Lemma attach_ok L R s slot l token_count :
  wf L R (pc_pool s) -> l <> [] -> 0 < token_count <= sealed_block_token_count (block_size (pc_cache s)) (length l) ->
  (forall x, x ∈ l -> b2p s !! x.1 = Some x.2) ->
  length (concat (snd <$> l)) = div_ceil token_count (page_size (cfg (pc_pool s))) ->
  (forall q, q ∈ concat (snd <$> l) -> q ∈ R /\
     (N.of_nat (length (concat (snd <$> l))) + default 0 (page_attach_count (pc_pool s) !! q) <= u32_max)%N) ->
  page_indices (pc_pool s) !! slot = Some [] -> seq_lens (pc_pool s) !! slot = Some 0 ->
  exists p, attach_gpu_prefix_blocks (Q := Q) slot (fst <$> l) token_count s = Done (set_pc_pool p s, inl tt) /\
    tables_written (pc_pool s) p slot (concat (snd <$> l)) token_count.
Proof.
  intros Hwf Hl Htc Hb Hlen Hq Hp Hlen0. pose proof (wf_accounts _ _ _ Hwf) as Hacc.
  unfold attach_gpu_prefix_blocks. rewrite bool_decide_eq_false_2 by (intros [Hx|Hx]; [by destruct l|lia]). rewrite run_gets, length_fmap.
  rewrite bool_decide_eq_false_2 by lia. rewrite (run_bind_ok _ _ _ _ _ (flatten_ok l [] s Hb)). cbn [app].
  destruct (attach_pages_spec L R (pc_pool s) slot [] 0 (concat (snd <$> l)) token_count Hwf Hp Hlen0) as (p & r & Hrun & Hr & Hok).
  { intros q Hin. destruct (Hq q Hin) as [HR Hmax]. pose proof (acc_ref_bound _ _ _ Hacc q HR) as Hlt.
    rewrite (attach_count _ _ _ Hacc q Hlt) in Hmax. cbn in Hmax. lia. }
  { done. }
  assert (r = inl tt) as ->.
  { apply Hok; [done|done|]. intros q Hin. destruct (Hq q Hin) as [HR _]. split; [by eapply acc_ref_bound|by right]. }
  exists p. split; [by apply run_in_pool|]. by destruct Hr as (_ & _ & _ & Htw & _).
Qed.

Lemma lookup_published c ids prompt prompt' :
  RadixTree.wf c -> (forall i b, ids !! i = Some b -> RadixTree.cached c (take ((i + 1) * block_size c) prompt) b) ->
  length ids * block_size c <= length prompt -> take (length ids * block_size c) prompt `prefix_of` prompt' ->
  exists c' len blocks, RadixLookup.lookup prompt' c = Done (c', (len, blocks)) /\
    length ids * block_size c <= len /\ take (length ids) blocks = ids.
Proof.
  intros Hw Hc Hcount Hpre. set (n := length ids) in *.
  destruct (RadixLookupProps.lookup_ok' c prompt' Hw) as (c' & len & blocks & Hlook & Hl & _ & Hblocks & _).
  exists c', len, blocks. split; [done|]. pose proof (RadixTree.wf_block_size _ Hw) as Hbs.
  assert (take n blocks = take n ids) as Htake.
  { apply list_eq. intros i. destruct (decide (i < n)) as [Hi|]; [|by rewrite !lookup_take_ge by lia].
    rewrite !lookup_take_lt by done. destruct (lookup_lt_is_Some_2 ids i) as [b Hb]; [done|]. rewrite Hb. apply Hblocks.
    assert ((i + 1) * block_size c <= n * block_size c) as Hle by (apply Nat.mul_le_mono_r; lia).
    destruct Hpre as [rest ->]. split; [rewrite length_app, length_take; lia|].
    rewrite take_app_le by (rewrite length_take; lia). rewrite take_take, Nat.min_l by done. by apply Hc. }
  rewrite (take_ge ids) in Htake by done. split; [|done].
  rewrite Hl. apply Nat.mul_le_mono_r. apply (f_equal length) in Htake. rewrite length_take in Htake. fold n in Htake. lia.
Qed.

(** C5: A finished request with a cold prompt leaves it to the next one: when
    its slot is retired, every lookup of a longer prompt finds the blocks it
    published, and attaching them to any empty slot gives that slot the very
    pages the prompt was computed in, with what is in them. *)
Theorem finished_prompt_is_reused L R s slot prompt pages sid k n prompt_len :
  wf L R (pc_pool s) -> (N.of_nat (length pages + length R) <= u32_max)%N -> cold_prompt s slot prompt pages k n ->
  SchedulerConfig.prefix_cache_enabled (pe_config env) = true ->
  (SchedulerConfig.short_prompt_bypass_tokens (pe_config env) < N.of_nat prompt_len)%N ->
  let ids := first_page <$> block_pages k pages n in
  let count := n * block_size (pc_cache s) in
  exists s1, retire_slot (Q := Q) env slot prompt_len (Some prompt) sid s = Done (s1, inl tt) /\
    page_indices (pc_pool s1) !! slot = Some [] /\
    (forall prompt', take count prompt `prefix_of` prompt' ->
       exists c len blocks, RadixLookup.lookup prompt' (pc_cache s1) = Done (c, (len, blocks)) /\ count <= len /\ take n blocks = ids) /\
    forall slot', page_indices (pc_pool s1) !! slot' = Some [] -> seq_lens (pc_pool s1) !! slot' = Some 0 ->
      (forall q, q ∈ pages -> (N.of_nat (n * k) + default 0 (page_attach_count (pc_pool s1) !! q) <= u32_max)%N) ->
      exists s2, attach_gpu_prefix_blocks (Q := Q) slot' ids count s1 = Done (s2, inl tt) /\
        page_indices (pc_pool s2) !! slot' = Some (take (n * k) pages) /\ seq_lens (pc_pool s2) !! slot' = Some count /\
        buffers (pc_pool s2) = buffers (pc_pool s).
Proof.
  intros Hwf Hroom Hcp Hen Hby ids count. pose proof (cold_prompt_fits _ _ _ _ _ _ _ _ Hwf Hcp) as Hnk.
  destruct (cp_tables _ _ _ _ _ _ Hcp) as [Ho Hm]. destruct (cp_some _ _ _ _ _ _ Hcp) as [Hk Hn].
  destruct (clear_ok s slot Ho) as (sa & Hra & Hca & Hpa & Hba & Hoa & Hma).
  destruct (materialized_ok sa slot (length prompt)) as (sb & Hrb & Hcb & Hpb & Hbb & Hob & Hmb); [by rewrite Hma|].
  assert (cold_prompt sb slot prompt pages k n) as Hcp'.
  { destruct Hcp. constructor; rewrite ?Hcb, ?Hpb, ?Hbb, ?Hca, ?Hpa, ?Hba, ?Hob, ?Hoa, ?Hmb, ?Hma; done. }
  destruct (publish_ok L R sb slot prompt pages sid k n) as (sc & Hrc & Hwfc & Hssc & Hbc & Hwc & Hsc & Hcc); [by rewrite Hpb, Hpa|done|done|].
  fold ids in Hcc, Hbc. rewrite Hpb, Hpa in Hssc. rewrite Hcb, Hca in Hsc, Hcc. set (kept := block_pages k pages n) in *.
  pose proof (block_pages_concat k pages n : concat kept = _) as Hconcat.
  pose proof (block_pages_length k pages n : length kept = _) as Hkept.
  assert (length ids = n) as Hids by (unfold ids; by rewrite length_fmap).
  destruct (free_slot_spec L (concat kept ++ R) (pc_pool sc) slot pages Hwfc) as (p1 & freed & Hrd & Hwfd & [Hcfg Hbuf _ Hpg Hln] & _).
  { rewrite (ss_pages _ _ Hssc). apply Hcp. }
  exists (set_pc_pool p1 sc). split_and!.
  - unfold retire_slot, config. rewrite (run_bind_ok _ _ _ _ _ Hra). rewrite Hen.
    rewrite (proj2 (N.leb_gt _ _)) by done. rewrite andb_false_r. cbn [negb andb].
    rewrite (run_bind_ok _ _ sa sc tt) by by rewrite (run_bind_ok _ _ _ _ _ Hrb). by apply run_in_pool.
  - cbn. rewrite Hpg. apply list_lookup_insert_eq. rewrite (ss_pages _ _ Hssc). eapply lookup_lt_Some, Hcp.
  - intros prompt' Hpre. cbn. rewrite <-Hsc in Hcc. unfold count in *. rewrite <-Hids, <-Hsc in *.
    eapply lookup_published; [done|done| |done]. rewrite Hids, Hsc.
    destruct (cp_count _ _ _ _ _ _ Hcp) as (l & _ & Hn').
    pose proof (Nat.Div0.mul_div_le (Nat.min (length prompt) l) (block_size (pc_cache s))) as Hle. rewrite <-Hn' in Hle. lia.
  - intros slot' Hp' Hl' Hmax. cbn in Hp', Hl', Hmax.
    assert (fst <$> zip ids kept = ids) as Hfst by (apply fst_zip; lia).
    assert (concat (snd <$> zip ids kept) = take (n * k) pages) as Hsnd by (rewrite snd_zip by lia; done).
    assert (block_size (pc_cache s) = k * page_size (cfg p1)) as Hbsz.
    { rewrite Hcfg, (ss_cfg _ _ Hssc). apply Hcp. }
    assert (0 < page_size (cfg p1)) as Hps by apply (wf_config _ _ _ Hwfd).
    destruct (attach_ok L (concat kept ++ R) (set_pc_pool p1 sc) slot' (zip ids kept) count Hwfd) as (p2 & Hat & [_ Hb2 _ Hpg2 Hln2]).
    + intros Hz. rewrite Hz in Hfst. apply (f_equal length) in Hfst. cbn in Hfst. lia.
    + cbn. rewrite <-(length_fmap fst), Hfst, Hids, Hsc. unfold count, sealed_block_token_count. nia.
    + exact Hbc.
    + cbn. rewrite Hsnd, length_take. unfold count. rewrite Hbsz.
      destruct (div_ceil_spec (n * (k * page_size (cfg p1))) _ Hps). nia.
    + cbn. rewrite Hsnd. intros q Hq. split; [rewrite Hconcat; set_solver|]. rewrite length_take, Nat.min_l by done.
      apply Hmax. by eapply subseteq_take.
    + done.
    + done.
    + rewrite Hfst in Hat. eexists. split; [exact Hat|]. cbn. rewrite Hpg2, Hln2, Hsnd, Hb2. cbn.
      rewrite !list_lookup_insert_eq by (by eapply lookup_lt_Some). by rewrite Hbuf, (ss_buffers _ _ Hssc).
Qed.
End publication.

(** ** A block moved to the host comes back *)
Section demotion.
Context {Q : Type} `{CoordinatorHandle Q} `{Driver} `{Blake3} (env : PageEnv).
Implicit Types (s : PageCache Q).

Lemma ensure_room bytes s : (bytes <= host_pool_demote_headroom_bytes env s)%N ->
  ensure_host_demote_headroom (Q := Q) env bytes s = Done (s, inl true).
Proof.
  intros Hb. unfold ensure_host_demote_headroom. destruct (bytes =? 0)%N; [done|]. rewrite run_gets.
  rewrite (proj2 (N.ltb_ge _ _)) by done. rewrite run_bind_ok with (s' := s) (a := tt) by done. rewrite run_gets.
  rewrite (proj2 (N.ltb_ge _ _)) by done. rewrite run_bind_ok with (s' := s) (a := tt) by done. rewrite run_gets.
  by rewrite (proj2 (N.leb_le _ _)) by done.
Qed.

Lemma or_release_inv {A} region (m : eff (PageCache Q) cache_error A) s s' a :
  or_release region m s = Done (s', inl a) -> m s = Done (s', inl a).
Proof.
  unfold or_release, try. intros [(s1 & r & Hrun & Hrest)|(e & _ & [=])]%run_bind_inv.
  destruct (m s) as [[s2 r2]| |]; cbn in Hrun; [|done..]. injection Hrun as -> ->. destruct r as [x|e].
  - by injection Hrest as -> ->.
  - apply run_bind_inv in Hrest as [(s3 & u & _ & [=])|(e' & _ & [=])].
Qed.

Lemma reserve_inv len s s' region :
  HostPool.wf (inner (pc_host s)) -> reserve_host_region (Q := Q) len s = Done (s', inl (Some region)) ->
  exists h, s' = set_pc_host h s /\ HostPool.wf (inner h) /\ poisoned h = false /\ region ∈ live_regions (inner h) /\
    rg_len region = len /\ (len <= u64_max)%N.
Proof.
  intros Hwf. unfold reserve_host_region, in_host, lock. destruct (poisoned (pc_host s)); [done|].
  destruct (HostPool.reserve_ok len _ Hwf) as (p & o & -> & Hwf' & _ & Ho). cbn. intros [= <- ->].
  destruct Ho as (Hlen & Hend & _ & Hlive & _). eexists. split_and!; [done|done|done|cbn; rewrite Hlive; set_solver|done|].
  destruct Hwf as [(a & _ & [Hcap _ _ _] & Hca) _]. lia.
Qed.

Lemma write_inv region payload s s' :
  HostPool.wf (inner (pc_host s)) -> poisoned (pc_host s) = false -> region ∈ live_regions (inner (pc_host s)) ->
  in_host (Q := Q) (write_region region payload) s = Done (s', inl tt) ->
  N.of_nat (length payload) = rg_len region ->
  exists h, s' = set_pc_host h s /\ read_region region h = Done (Ok payload) /\ region ∈ live_regions (inner h).
Proof.
  intros Hwf Hp Hr. unfold in_host. intros Hrun Hlen.
  destruct (HostPool.write_region_spec region payload (pc_host s) Hwf Hp Hr Hlen) as (h & Hw & _ & Hlive & Hread & _).
  rewrite Hw in Hrun. cbn in Hrun. injection Hrun as <-. exists h. by rewrite Hlive.
Qed.

Lemma retag_finds old new c c' m : RadixMeta.block_metadata old c = Some m -> retag_block old new c = (c', true) ->
  is_Some (find_block_node c' new).
Proof.
  unfold RadixMeta.block_metadata, retag_block. destruct (find_block_node c old) as [[i n]|] eqn:Hf; [|done]. intros _.
  pose proof Hf as [Hi Hn]%RadixMetaProps.find_block_node_Some. case_bool_decide as Heq; [intros [= <- _]; subst; by eexists|].
  destruct (is_some _); [done|]. rewrite Hi. cbn. rewrite Hn. case_bool_decide; [done|]. intros [= <-].
  exists (i, set_block_id (Some new) n). apply RadixMetaProps.find_block_node_Some. cbn.
  rewrite lookup_insert_eq. split; [done|]. apply list_lookup_insert_eq. by eapply lookup_lt_Some.
Qed.

Lemma located b l c c' : is_Some (find_block_node c b) ->
  forall x y, update_block_metadata b (mkBlockMetadataUpdate (Some l) None None None None x None) c = (c', y) ->
  exists m, RadixMeta.block_metadata b c' = Some m /\ md_location m = Some l.
Proof.
  intros [[i n] Hf] x y Hrun. pose proof (RadixMetaProps.update_block_metadata_spec b (mkBlockMetadataUpdate (Some l) None None None None x None) c) as Hspec.
  rewrite Hf, Hrun in Hspec. destruct Hspec as (c1 & m & [= -> ->] & _ & _ & Hm & Hl & _). by exists m.
Qed.

(** What a demotion that had room leaves. *)
Lemma demote_ok s b m slot pages s1 freed :
  HostPool.wf (inner (pc_host s)) -> RadixMeta.block_metadata b (pc_cache s) = Some m ->
  md_location m = Some (LocGpu slot) -> md_host_swap_eligible m = true -> b2p s !! b = Some pages ->
  (md_byte_len m <= host_pool_demote_headroom_bytes env s)%N ->
  demote_block_to_host (Q := Q) env b s = Done (s1, inl freed) ->
  exists p payload region host_id m1, copy_pages_to_host pages (pc_pool s) = Done (p, inl payload) /\
    (N.of_nat (length payload) <= u64_max)%N /\ read_region region (pc_host s1) = Done (Ok payload) /\
    region ∈ live_regions (inner (pc_host s1)) /\
    RadixMeta.block_metadata host_id (pc_cache s1) = Some m1 /\ md_location m1 = Some (LocHostPinned (rg_offset region)) /\
    b2p s1 = delete b (b2p s).
Proof.
  intros Hwf Hm Hloc Hel Hb Hroom. unfold demote_block_to_host, block_metadata. rewrite !run_gets, Hm, Hloc, Hel. cbn [negb].
  unfold b2p in Hb. rewrite Hb. rewrite (run_bind_ok _ _ _ _ _ (ensure_room _ s Hroom)). cbn [negb].
  intros [(s2 & payload & Hcopy & Hrun)|(e & _ & [=])]%run_bind_inv.
  apply in_pool_inv in Hcopy as (p & [x|] & Hcopy & -> & [=]); subst x. set (s2 := set_pc_pool p s) in *.
  apply run_bind_inv in Hrun as [(s3 & [region|] & Hres & Hrun)|(e & _ & [=])]; [|done].
  destruct (reserve_inv _ s2 s3 region Hwf Hres) as (h & -> & Hwfh & Hpo & Hlive & Hlen & Hmax).
  apply run_bind_inv in Hrun as [(s4 & [] & Hwrite%or_release_inv & Hrun)|(e & _ & [=])].
  destruct (write_inv region payload (set_pc_host h s2) s4 Hwfh Hpo Hlive Hwrite) as (h' & -> & Hread & Hlive'); [done|].
  apply run_bind_inv in Hrun as [(s5 & host_id & Hid%or_release_inv & Hrun)|(e & _ & [=])].
  assert (exists t, s5 = set_pc_tables t (set_pc_host h' (set_pc_host h s2)) /\ block_to_pages t = b2p s) as (t & -> & Ht).
  { revert Hid. unfold allocate_tier_block_id. rewrite !run_gets. unfold of_res at 1. unfold mbind at 1, eff_bind at 1.
    destruct (find_tier_id _ _ _ _ _) as [[[id|] next]| |]; cbn; [|done..]. intros [= <- _]. eexists. split; reflexivity. }
  apply run_bind_inv in Hrun as [(s6 & retagged & Hret & Hrun)|(e & _ & [=])]. unfold update_cache, in_cache in Hret. cbn in Hret.
  destruct (retag_block b host_id (pc_cache s)) as [c1 r1] eqn:Hretag. injection Hret as <- <-.
  destruct r1; cbn [negb] in Hrun.
  2: { apply run_bind_inv in Hrun as [(s7 & u & _ & [=])|(e & _ & [=])]. }
  do 3 (apply run_bind_inv in Hrun as [(? & [] & [= <-] & Hrun)|(? & _ & [=])]). rewrite run_gets in Hrun.
  apply run_bind_inv in Hrun as [(s7 & updated & Hup & Hrun)|(e & _ & [=])]. unfold update_cache, in_cache in Hup. cbn in Hup.
  destruct (update_block_metadata host_id _ c1) as [c2 r2] eqn:Hupdate. injection Hup as <- <-.
  destruct (located host_id _ c1 c2 (retag_finds _ _ _ _ _ Hm Hretag) _ _ Hupdate) as (m1 & Hm1 & Hl1).
  apply run_bind_inv in Hrun as [(s8 & released & Hrel & Hrun)|(e & _ & [=])]. apply in_pool_inv in Hrel as (p' & r3 & _ & -> & _).
  injection Hrun as <- _. exists p, payload, region, host_id, m1. split_and!; try done. unfold b2p at 1. cbn. by rewrite Ht.
Qed.

Lemma alloc_detached_nodup L R p count p' new :
  wf L R p -> alloc_detached_pages count p = Done (p', inl new) -> NoDup new /\ length new = count /\ buffers p' = buffers p.
Proof.
  intros Hwf Hrun. pose proof (wf_accounts _ _ _ Hwf) as Hacc. revert Hrun. unfold alloc_detached_pages.
  case_bool_decide as Hz; [intros [= <- <-]; subst; split_and!; [constructor|done|done]|].
  rewrite run_gets. case_bool_decide as Hfree; [done|]. unfold free_page_count in Hfree.
  destruct (pop_retained count _ _ p Hacc ltac:(lia)) as (s1 & l & Hrun & Hlen & _ & [_ Hb _ _ _ _] & Hf). rewrite Hrun. intros [= <- <-].
  split_and!; [|done|done]. pose proof (acc_free_nodup _ _ _ Hacc) as Hnd. rewrite Hf in Hnd. apply NoDup_app in Hnd as (_ & _ & Hnd).
  by rewrite <-(reverse_Permutation l).
Qed.

(** C8: A block that was moved to pinned host memory has the location of a live
    region in the tree and no pages; and as long as the region holds what it
    holds, promoting the block fills new pages with what the old ones had, in
    every buffer and layer, and touches no other page. *)
Theorem demoted_block_comes_back L R s b m slot pages s1 freed :
  wf L R (pc_pool s) -> elements_ok (buffers (pc_pool s)) -> HostPool.wf (inner (pc_host s)) ->
  RadixMeta.block_metadata b (pc_cache s) = Some m -> md_location m = Some (LocGpu slot) -> md_host_swap_eligible m = true ->
  b2p s !! b = Some pages -> (forall q, q ∈ pages -> q ∈ R) -> length pages = Nat.max (pages_per_block s) 1 ->
  (md_byte_len m <= host_pool_demote_headroom_bytes env s)%N ->
  demote_block_to_host (Q := Q) env b s = Done (s1, inl freed) ->
  exists region host_id m1,
    RadixMeta.block_metadata host_id (pc_cache s1) = Some m1 /\ md_location m1 = Some (LocHostPinned (rg_offset region)) /\
    region ∈ live_regions (inner (pc_host s1)) /\ b2p s1 = delete b (b2p s) /\
    forall L2 R2 s2 fetched fb s3 new pages',
      wf L2 R2 (pc_pool s2) -> cfg (pc_pool s2) = cfg (pc_pool s) -> block_size (pc_cache s2) = block_size (pc_cache s) ->
      read_region region (pc_host s2) = read_region region (pc_host s1) ->
      find (fun x => bool_decide (fb_block_id x = host_id)) (reverse fetched) = Some fb -> fb_host_region fb = region ->
      promote_block (Q := Q) fetched host_id s2 = Done (s3, inl (new, pages')) ->
      new = first_page pages' /\ length pages' = length pages /\ image_of s3 <$> pages' = image_of s <$> pages /\
      forall q, q ∉ pages' -> image_of s3 q = image_of s2 q.
Proof.
  intros Hwf Helem Hhost Hm Hloc Hel Hb HR Hlen Hroom Hdem.
  destruct (demote_ok s b m slot pages s1 freed Hhost Hm Hloc Hel Hb Hroom Hdem)
    as (p & payload & region & host_id & m1 & Hcopy & Hmax & Hread & Hlive & Hm1 & Hl1 & Hb1).
  exists region, host_id, m1. split_and!; [done..|]. intros L2 R2 s2 fetched fb s3 new pages' Hwf2 Hcfg Hbs Hsame Hfind Hfb.
  unfold promote_block. rewrite Hfind, !run_gets, Hbs, Hcfg. fold (pages_per_block s). rewrite <-Hlen.
  intros [(s4 & pages2 & Halloc & Hrun)|(e & _ & [=])]%run_bind_inv.
  apply in_pool_inv in Halloc as (p4 & [x|] & Halloc & -> & [=]); subst x.
  destruct (alloc_detached_inv _ _ _ _ _ _ Hwf2 Halloc) as [Hcfg4 Hfree]. destruct (alloc_detached_nodup _ _ _ _ _ _ Hwf2 Halloc) as (Hnd & Hlen2 & Hbuf4).
  pose proof (wf_buffers _ _ _ Hwf2) as Hok2. rewrite <-Hbuf4, <-Hcfg4 in Hok2.
  destruct (host_copy_ok (pc_pool s) p p4 pages pages2 payload) as (n & bufs & r & Hwrite & _ & Hother & Hr); try done.
  { apply (wf_buffers _ _ _ Hwf). }
  { apply Forall_forall. intros q Hq. eapply (acc_ref_bound _ _ _ (wf_accounts _ _ _ Hwf)), HR, Hq. }
  { by rewrite Hcfg4. }
  { apply Forall_forall. intros q Hq. rewrite Hcfg4. by apply Hfree. }
  apply run_bind_inv in Hrun as [(s5 & r5 & Htry & Hrun)|(e & _ & [=])].
  unfold try in Htry. rewrite Hfb in Htry. unfold mbind at 2, eff_bind at 1, in_host in Htry. cbn in Htry.
  rewrite Hsame, Hread in Htry. cbn in Htry. unfold in_pool in Htry. cbn in Htry. rewrite Hwrite in Htry. cbn in Htry.
  injection Htry as <- <-. destruct r as [u|e].
  - rewrite Hcfg4, Hcfg in Hr, Hother. apply run_bind_inv in Hrun as [(s6 & nb & Hid & Hrun)|(e & _ & [=])].
    injection Hrun as <- <- <-. unfold of_res in Hid. destruct (block_id_for_pages pages2) eqn:Hnb; [|done..]. injection Hid as <- ->.
    split_and!; [by destruct pages2; [done|injection Hnb as <-]|by rewrite Hlen2| |].
    + unfold image_of. cbn. rewrite Hcfg4, Hcfg. exact Hr.
    + intros q Hq. unfold image_of. cbn. rewrite Hcfg4, Hcfg, Hother, Hbuf4 by done. done.
  - apply run_bind_inv in Hrun as [(s6 & u & _ & [=])|(e' & _ & [=])].
Qed.
End demotion.
