(* ===== verification/VisibleText.v ===== *)
(** * Hiding tool calls and thoughts

    Models the tagged blocks of [crates/chat/src/protocol.rs]: [strip_and_collect],
    which takes the blocks out of a complete answer, and [VisibleTextStream],
    which filters an answer that arrives in chunks. *)

From Stdlib Require Import Ascii String.
From S2P Require Import Prelude Lists Utf8.
Local Open Scope nat_scope.

(** ** Tagged blocks *)
Record TaggedBlock := mkTaggedBlock { open_tag : text; close_tag : text }.

Definition TOOL_CALL_BLOCK : TaggedBlock := mkTaggedBlock (lit "<tool_call>") (lit "</tool_call>").
Definition THINK_BLOCK : TaggedBlock := mkTaggedBlock (lit "<think>") (lit "</think>").

(** The loop of [strip_and_collect] over what remains of the text, with what
    was stripped and parsed so far. *)
Fixpoint strip_loop {T} (fuel : nat) (b : TaggedBlock) (parse_block : text -> option T)
  (remaining stripped : text) (parsed : list T) : res (text * list T) :=
  match fuel with
  | 0 => OutOfFuel
  | S fuel =>
      match find remaining (open_tag b) with
      | None => Done (stripped ++ remaining, parsed)
      | Some start =>
          before ← slice_to remaining start;
          remaining ← slice_from remaining (start + length (open_tag b));
          match find remaining (close_tag b) with
          | Some stop =>
              block ← slice_to remaining stop;
              remaining ← slice_from remaining (stop + length (close_tag b));
              strip_loop fuel b parse_block remaining (stripped ++ before)
                (match parse_block (trim block) with Some item => parsed ++ [item] | None => parsed end)
          | None => strip_loop fuel b parse_block [] (stripped ++ before ++ remaining) parsed
          end
      end
  end.

Definition strip_and_collect {T} (b : TaggedBlock) (parse_block : text -> option T) (t : text) : res (text * list T) :=
  strip_loop (S (length t)) b parse_block t [] [].

Definition strip_all (b : TaggedBlock) (t : text) : res text :=
  r ← strip_and_collect b (fun _ => None : option unit) t; Done r.1.

(** ** The streaming filter *)
Inductive HiddenBlock := ToolCallHidden | ThinkHidden.
#[export] Instance HiddenBlock_eq_dec : EqDecision HiddenBlock.
Proof. solve_decision. Defined.

Record VisibleTextStream := mkStream { pending : text; hidden : option HiddenBlock }.
Definition stream_default : VisibleTextStream := mkStream [] None.

Definition VISIBLE_TAGS : list text :=
  [open_tag TOOL_CALL_BLOCK; close_tag TOOL_CALL_BLOCK; open_tag THINK_BLOCK; close_tag THINK_BLOCK].

Definition find_first_tag (t : text) (tags : list text) : option (nat * text) :=
  min_by (fun a b => Nat.compare a.1 b.1) (omap (fun tag => (fun idx => (idx, tag)) <$> find t tag) tags).

(** [(1..=len).rev().find(..)]. *)
Fixpoint longest_from (t : text) (tags : list text) (len : nat) : nat :=
  match len with
  | 0 => 0
  | S len' =>
      if existsb (fun tag => starts_with tag (drop (length t - len) t)) tags then len
      else longest_from t tags len'
  end.

Definition longest_tag_prefix_suffix (t : text) (tags : list text) : nat :=
  longest_from t tags (Nat.min (max_list (length <$> tags)) (length t)).

Definition hidden_block_of (tag : text) : option HiddenBlock :=
  if bool_decide (tag = open_tag TOOL_CALL_BLOCK) then Some ToolCallHidden
  else if bool_decide (tag = open_tag THINK_BLOCK) then Some ThinkHidden
  else None.

Definition close_of (h : HiddenBlock) : text :=
  match h with ToolCallHidden => close_tag TOOL_CALL_BLOCK | ThinkHidden => close_tag THINK_BLOCK end.

Fixpoint drain_loop (fuel : nat) (flush : bool) (s : VisibleTextStream) (visible : text) : res (VisibleTextStream * text) :=
  match fuel with
  | 0 => OutOfFuel
  | S fuel =>
      match hidden s with
      | None =>
          match find_first_tag (pending s) VISIBLE_TAGS with
          | None =>
              if flush then Done (mkStream [] None, visible ++ pending s)
              else
                let keep := longest_tag_prefix_suffix (pending s) VISIBLE_TAGS in
                let emit_len := length (pending s) - keep in
                out ← slice_to (pending s) emit_len;
                rest ← slice_from (pending s) emit_len;
                Done (mkStream rest None, visible ++ out)
          | Some (idx, tag) =>
              out ← slice_to (pending s) idx;
              rest ← slice_from (pending s) (idx + length tag);
              drain_loop fuel flush (mkStream rest (hidden_block_of tag)) (visible ++ out)
          end
      | Some h =>
          match find (pending s) (close_of h) with
          | Some idx =>
              rest ← slice_from (pending s) (idx + length (close_of h));
              drain_loop fuel flush (mkStream rest None) visible
          | None =>
              if flush then Done (mkStream [] None, visible)
              else
                let keep := longest_tag_prefix_suffix (pending s) [close_of h] in
                rest ← slice_from (pending s) (length (pending s) - keep);
                Done (mkStream rest (hidden s), visible)
          end
      end
  end.

Definition drain (flush : bool) (s : VisibleTextStream) : res (VisibleTextStream * text) :=
  drain_loop (S (length (pending s))) flush s [].
Definition push (chunk : text) (s : VisibleTextStream) : res (VisibleTextStream * text) :=
  drain false (mkStream (pending s ++ chunk) (hidden s)).
Definition finish (s : VisibleTextStream) : res (VisibleTextStream * text) := drain true s.

(** An answer pushed chunk by chunk: what the chunks made visible. *)
Fixpoint push_all (chunks : list text) (s : VisibleTextStream) : res (VisibleTextStream * text) :=
  match chunks with
  | [] => Done (s, [])
  | chunk :: chunks =>
      first ← push chunk s;
      rest ← push_all chunks first.1;
      Done (rest.1, first.2 ++ rest.2)
  end.

Definition stream_text (chunks : list text) : res text :=
  pushed ← push_all chunks stream_default;
  last ← finish pushed.1;
  Done (pushed.2 ++ last.2).
