(* ===== verification/VisibleTextProps.v ===== *)
(** * What the filters make visible

    The reference is a scanner that reads the whole answer once, character by
    character. *)

From Stdlib Require Import Ascii String.
From S2P Require Import Prelude Lists Utf8 VisibleText.
Local Open Scope nat_scope.

(** ** The reference scanner

    In the open, a tag that starts here is dropped, and an opening tag hides
    what follows; hidden, everything is dropped up to the closing tag.
    [skip] counts what is left of a tag being dropped. *)
Definition tag_at (t : text) : option text := List.find (starts_with t) VISIBLE_TAGS.

Fixpoint scan (skip : nat) (h : option HiddenBlock) (t : text) : text :=
  match t with
  | [] => []
  | b :: rest =>
      match skip, h with
      | S skip, _ => scan skip h rest
      | 0, None =>
          match tag_at t with
          | Some tag => scan (length tag - 1) (hidden_block_of tag) rest
          | None => b :: scan 0 None rest
          end
      | 0, Some block =>
          if starts_with t (close_of block) then scan (length (close_of block) - 1) None rest
          else scan 0 h rest
      end
  end.

Lemma scan_skip k h t : scan k h t = scan 0 h (drop k t).
Proof.
  revert k. induction t as [|b t IH]; intros k; [by rewrite drop_nil; destruct k|].
  destruct k as [|k]; [done|]. cbn [scan drop]. apply IH.
Qed.

(** ** Tags *)
Lemma tags_ok tag : tag ∈ VISIBLE_TAGS -> tag <> [] /\ forallb is_ascii_byte tag = true.
Proof.
  unfold VISIBLE_TAGS. rewrite !elem_of_cons, elem_of_nil.
  intros [->|[->|[->|[->|[]]]]]; vm_compute; done.
Qed.

Lemma close_ok h : close_of h ∈ VISIBLE_TAGS.
Proof. destruct h; unfold VISIBLE_TAGS; set_solver. Qed.

(** No tag is the beginning of another. *)
Lemma tags_distinct t tag tag' :
  tag ∈ VISIBLE_TAGS -> tag' ∈ VISIBLE_TAGS -> starts_with t tag = true -> starts_with t tag' = true -> tag = tag'.
Proof.
  intros Ht Ht' H%starts_with_prefix H'%starts_with_prefix.
  assert (tag `prefix_of` tag' \/ tag' `prefix_of` tag) as Hp by (by eapply prefix_weak_total).
  revert Hp. rewrite <-!starts_with_prefix. unfold VISIBLE_TAGS in *. rewrite !elem_of_cons, elem_of_nil in Ht, Ht'.
  destruct Ht as [->|[->|[->|[->|[]]]]], Ht' as [->|[->|[->|[->|[]]]]]; vm_compute; intros [|]; done.
Qed.

Lemma tag_at_Some t tag : tag_at t = Some tag <-> tag ∈ VISIBLE_TAGS /\ starts_with t tag = true.
Proof.
  unfold tag_at. split.
  - intros [Hin Hs]%List.find_some. by rewrite list_elem_of_In.
  - intros [Hin Hs]. destruct (List.find (starts_with t) VISIBLE_TAGS) as [tag'|] eqn:E.
    + apply List.find_some in E as [Hin' Hs']. rewrite <-list_elem_of_In in Hin'. f_equal. by eapply tags_distinct.
    + eapply List.find_none in E; [|by rewrite <-list_elem_of_In]. congruence.
Qed.

Lemma tag_at_None t : tag_at t = None <-> forall tag, tag ∈ VISIBLE_TAGS -> starts_with t tag = false.
Proof.
  split.
  - intros E tag Hin. destruct (starts_with t tag) eqn:Hs; [|done].
    assert (tag_at t = Some tag) as H by by apply tag_at_Some. congruence.
  - intros H. destruct (tag_at t) as [tag|] eqn:E; [|done]. apply tag_at_Some in E as [Hin Hs]. by rewrite H in Hs.
Qed.

Lemma find_first_tag_None t : find_first_tag t VISIBLE_TAGS = None <-> forall j, j <= length t -> tag_at (drop j t) = None.
Proof.
  unfold find_first_tag. rewrite min_by_None. setoid_rewrite tag_at_None. split.
  - intros E j Hj tag Hin. apply (proj1 (find_None t tag)); [|done].
    destruct (find t tag) as [i|] eqn:Ef; [|done].
    assert ((i, tag) ∈ omap (fun tag => (fun idx => (idx, tag)) <$> find t tag) VISIBLE_TAGS) as Hin'.
    { apply list_elem_of_omap. exists tag. split; [done|]. by rewrite Ef. }
    rewrite E in Hin'. by apply not_elem_of_nil in Hin'.
  - intros H. destruct (omap _ VISIBLE_TAGS) as [|[i tag] l] eqn:E; [done|].
    assert ((i, tag) ∈ omap (fun tag => (fun idx => (idx, tag)) <$> find t tag) VISIBLE_TAGS) as Hin by (rewrite E; set_solver).
    apply list_elem_of_omap in Hin as (tag' & Hin & (i' & Hf & [= -> ->])%fmap_Some).
    apply find_Some in Hf as (Hi & Hs & _). unfold at_pos in Hs. by rewrite H in Hs.
Qed.

Lemma find_first_tag_Some t i tag :
  find_first_tag t VISIBLE_TAGS = Some (i, tag) ->
  i <= length t /\ tag_at (drop i t) = Some tag /\ forall j, j < i -> tag_at (drop j t) = None.
Proof.
  unfold find_first_tag. intros E. apply min_by_Some in E as [Hin Hmin].
  - apply list_elem_of_omap in Hin as (tag' & Hin & (i' & Hf & [= -> ->])%fmap_Some).
    apply find_Some in Hf as (Hi & Hs & _). split_and!; [done|by apply tag_at_Some|].
    intros j Hj. apply tag_at_None. intros tag Htag. destruct (starts_with (drop j t) tag) eqn:Hst; [|done].
    destruct (find t tag) as [k|] eqn:Ek.
    + assert ((k, tag) ∈ omap (fun tag => (fun idx => (idx, tag)) <$> find t tag) VISIBLE_TAGS) as Hk.
      { apply list_elem_of_omap. exists tag. split; [done|]. by rewrite Ek. }
      specialize (Hmin _ Hk). cbn in Hmin. apply Nat.compare_le_iff in Hmin.
      apply find_Some in Ek as (_ & _ & Hbefore). specialize (Hbefore j ltac:(lia)). unfold at_pos in Hbefore. congruence.
    + rewrite find_None in Ek. specialize (Ek j ltac:(lia)). unfold at_pos in Ek. congruence.
  - intros [a ?] [b ?]. cbn. rewrite !Nat.compare_gt_iff. lia.
  - intros [a ?] [b ?] [c ?]. cbn. rewrite !Nat.compare_gt_iff. lia.
  - intros [a ?]. cbn. rewrite Nat.compare_gt_iff. lia.
Qed.

(** ** Text that is kept back *)
Lemma longest_from_spec t tags len :
  longest_from t tags len <= len /\
  (forall n tag, longest_from t tags len < n <= len -> tag ∈ tags -> starts_with tag (drop (length t - n) t) = false) /\
  (longest_from t tags len = 0 \/ exists tag, tag ∈ tags /\ starts_with tag (drop (length t - longest_from t tags len) t) = true).
Proof.
  induction len as [|len IH]; cbn [longest_from]; [split_and!; [done|lia|by left]|].
  destruct (existsb _ tags) eqn:E.
  - split_and!; [done|lia|right]. apply existsb_exists in E as (tag & Hin & Hs). exists tag. by rewrite list_elem_of_In.
  - destruct IH as (Hle & Hno & Hsome). split_and!; [lia| |done]. intros n tag Hn Hin.
    destruct (decide (n = S len)) as [->|]; [|apply Hno; [lia|done]].
    destruct (starts_with tag (drop (length t - S len) t)) eqn:Hs; [|done].
    assert (existsb (fun tag => starts_with tag (drop (length t - S len) t)) tags = true) as Ht; [|congruence].
    apply existsb_exists. exists tag. by rewrite <-list_elem_of_In.
Qed.

Lemma max_list_le (l : list nat) n : n ∈ l -> n <= max_list l.
Proof. induction l as [|m l IH]; [by intros ?%elem_of_nil|]. cbn. intros [->|?%IH]%elem_of_cons; lia. Qed.

Lemma max_list_in (l : list nat) : l <> [] -> max_list l ∈ l.
Proof.
  induction l as [|m l IH]; [done|]. intros _. cbn. destruct l as [|k l]; [cbn; rewrite Nat.max_0_r; set_solver|].
  destruct (Nat.max_spec m (max_list (k :: l))) as [[_ ->]|[_ ->]]; [right; by apply IH|left].
Qed.

Section keep.
Context (t : text) (tags : list text).
Hypothesis Hnone : forall tag j, tag ∈ tags -> j <= length t -> starts_with (drop j t) tag = false.
Let keep := longest_tag_prefix_suffix t tags.

(** A tag that starts before what is kept does not start after all. *)
Lemma keep_safe future tag j : tag ∈ tags -> j < length t - keep -> starts_with (drop j (t ++ future)) tag = false.
Proof using Hnone.
  intros Hin Hj. destruct (starts_with (drop j (t ++ future)) tag) eqn:Hs; [|done]. exfalso.
  rewrite drop_app_le in Hs by lia. apply starts_with_prefix in Hs as [k Hk].
  destruct (longest_from_spec t tags (Nat.min (max_list (length <$> tags)) (length t))) as (_ & Hno & _).
  fold (longest_tag_prefix_suffix t tags) in Hno. fold keep in Hno.
  pose proof (length_drop t j) as Hl. pose proof (f_equal length Hk) as Hlen. rewrite !length_app in Hlen.
  assert (length tag <= max_list (length <$> tags)) by (apply max_list_le, list_elem_of_fmap; by exists tag).
  destruct (decide (length tag <= length (drop j t))) as [Hle|Hgt].
  - specialize (Hnone tag j Hin ltac:(lia)). rewrite <-(starts_with_app_l _ future) in Hnone by done.
    rewrite (proj2 (starts_with_prefix _ _)) in Hnone; [done|by exists k].
  - specialize (Hno (length t - j) tag ltac:(lia) Hin). assert (starts_with tag (drop j t) = true) as Ht.
    + apply starts_with_prefix. exists (drop (length (drop j t)) tag). rewrite <-(take_drop (length (drop j t)) tag) at 1.
      f_equal. apply (f_equal (take (length (drop j t)))) in Hk. rewrite take_app_length, take_app_le in Hk by lia. done.
    + replace (length t - (length t - j)) with j in Hno by lia. congruence.
Qed.

Lemma keep_le : keep <= length t.
Proof using. destruct (longest_from_spec t tags (Nat.min (max_list (length <$> tags)) (length t))) as (Hle & _). unfold keep, longest_tag_prefix_suffix. lia. Qed.

(** Less than a whole tag is kept. *)
Lemma keep_bound : tags <> [] -> (forall tag, tag ∈ tags -> tag <> []) -> keep < max_list (length <$> tags).
Proof using Hnone.
  intros Hne Hpos. destruct (longest_from_spec t tags (Nat.min (max_list (length <$> tags)) (length t))) as (Hle & _ & Hsome).
  fold (longest_tag_prefix_suffix t tags) in Hle, Hsome. fold keep in Hle, Hsome.
  assert (0 < max_list (length <$> tags)) as Hmax.
  { destruct tags as [|tag tags']; [done|]. specialize (Hpos tag ltac:(set_solver)). cbn. destruct tag; [done|cbn; lia]. }
  destruct Hsome as [->|(tag & Hin & Hs)]; [done|]. destruct (decide (keep = max_list (length <$> tags))) as [Heq|]; [|lia]. exfalso.
  assert (length tag <= max_list (length <$> tags)) as Htag by (apply max_list_le, list_elem_of_fmap; by exists tag).
  apply starts_with_prefix in Hs as [k Hk]. pose proof (f_equal length Hk) as Hlen. rewrite length_app, length_drop in Hlen.
  assert (k = []) as -> by (apply nil_length_inv; lia). rewrite app_nil_r in Hk.
  specialize (Hnone tag (length t - keep) Hin ltac:(lia)). rewrite <-Hk in Hnone.
  assert (starts_with tag tag = true) by (apply starts_with_prefix; done). congruence.
Qed.

(** What is kept starts at a character. *)
Lemma keep_split : utf8 t -> (forall tag, tag ∈ tags -> forallb is_ascii_byte tag = true) ->
  utf8 (take (length t - keep) t) /\ utf8 (drop (length t - keep) t).
Proof using.
  intros Ht Hascii. pose proof keep_le as Hle.
  destruct (longest_from_spec t tags (Nat.min (max_list (length <$> tags)) (length t))) as (_ & _ & Hsome).
  fold (longest_tag_prefix_suffix t tags) in Hsome. fold keep in Hsome.
  destruct Hsome as [E|(tag & Hin & Hs)].
  - rewrite E, Nat.sub_0_r, firstn_all, drop_all. split; [done|constructor].
  - destruct (decide (keep = 0)) as [->|Hk]; [rewrite Nat.sub_0_r, firstn_all, drop_all; split; [done|constructor]|].
    destruct (lookup_lt_is_Some_2 t (length t - keep)) as [b Hb]; [lia|]. apply (utf8_split t _ b); [done|done|].
    apply starts_with_prefix in Hs as [k Hk']. specialize (Hascii tag Hin). rewrite Hk' in Hascii.
    rewrite <-(Nat.add_0_r (length t - keep)), <-lookup_drop in Hb.
    destruct (drop (length t - keep) t) as [|b' l]; [done|]. injection Hb as ->. cbn in Hascii. by apply andb_true_iff in Hascii as [? _].
Qed.
End keep.

(** ** The scanner in steps *)
Lemma scan_open n t : n <= length t -> (forall j, j < n -> tag_at (drop j t) = None) ->
  scan 0 None t = take n t ++ scan 0 None (drop n t).
Proof.
  revert t. induction n as [|n IH]; intros t Hn Hj; [done|]. destruct t as [|b t]; [cbn in Hn; lia|]. cbn [scan take drop].
  specialize (Hj 0 ltac:(lia)) as H0. cbn [drop] in H0. rewrite H0. cbn. f_equal. apply IH; [cbn in Hn; lia|].
  intros j Hlt. apply (Hj (S j)). lia.
Qed.

Lemma scan_hidden n h t : (forall j, j < n -> starts_with (drop j t) (close_of h) = false) ->
  scan 0 (Some h) t = scan 0 (Some h) (drop n t).
Proof.
  revert t. induction n as [|n IH]; intros t Hj; [done|]. destruct t as [|b t]; [done|]. cbn [scan drop].
  specialize (Hj 0 ltac:(lia)) as H0. cbn [drop] in H0. rewrite H0. apply IH. intros j Hlt. apply (Hj (S j)). lia.
Qed.

Lemma scan_tag t tag : tag_at t = Some tag -> scan 0 None t = scan 0 (hidden_block_of tag) (drop (length tag) t).
Proof.
  intros E. pose proof E as [Hin Hs]%tag_at_Some. destruct (tags_ok tag Hin) as [Hne _].
  destruct t as [|b t]; [destruct tag; done|]. cbn [scan]. rewrite E, scan_skip. destruct tag; [done|]. cbn [length drop].
  by rewrite Nat.sub_succ, Nat.sub_0_r.
Qed.

Lemma scan_close t h : starts_with t (close_of h) = true -> scan 0 (Some h) t = scan 0 None (drop (length (close_of h)) t).
Proof.
  intros E. destruct (tags_ok _ (close_ok h)) as [Hne _]. destruct t as [|b t]; [by destruct h|]. cbn [scan]. rewrite E, scan_skip.
  by destruct h.
Qed.

(** More text does not make an earlier tag appear. *)
Lemma no_earlier_tag t future i tag j :
  tag_at (drop i t) = Some tag -> (forall j, j < i -> tag_at (drop j t) = None) -> j < i -> tag_at (drop j (t ++ future)) = None.
Proof.
  intros Hi Hj Hlt. apply tag_at_Some in Hi as [Hin Hs]. destruct (tag_at (drop j (t ++ future))) as [tag'|] eqn:E; [|done]. exfalso.
  apply tag_at_Some in E as [Hin' Hs']. specialize (Hj j Hlt). rewrite tag_at_None in Hj. specialize (Hj tag' Hin').
  pose proof (starts_with_split _ _ Hs) as Et. destruct (tags_ok tag Hin) as [Hne _].
  assert (0 < length tag) by (destruct tag; [done|cbn; lia]).
  pose proof (starts_with_length _ _ Hs) as Hlen. rewrite length_drop in Hlen.
  destruct (decide (j + length tag' <= length t)) as [Hle|Hgt].
  - rewrite at_pos_app in Hs' by done. congruence.
  - assert (forall tag k, tag ∈ VISIBLE_TAGS -> 0 < k -> tag !! k <> Some "<"%char) as Hlater.
    { clear. intros tag k Hin Hk. destruct k as [|k]; [lia|]. unfold VISIBLE_TAGS in Hin. rewrite !elem_of_cons, elem_of_nil in Hin.
      do 14 (destruct k as [|k]; [by destruct Hin as [->|[->|[->|[->|[]]]]]|]). destruct Hin as [->|[->|[->|[->|[]]]]]; done. }
    assert (tag !! 0 = Some "<"%char) as H0.
    { clear -Hin. unfold VISIBLE_TAGS in Hin. rewrite !elem_of_cons, elem_of_nil in Hin. destruct Hin as [->|[->|[->|[->|[]]]]]; done. }
    apply (Hlater tag' (i - j) Hin'); [lia|]. pose proof (starts_with_split _ _ Hs') as Et'.
    assert ((tag' ++ drop (length tag') (drop j (t ++ future))) !! (i - j) = Some "<"%char) as Hl.
    { rewrite <-Et', lookup_drop. replace (j + (i - j)) with (i + 0) by lia. rewrite lookup_app_l by lia.
      rewrite <-lookup_drop, Et, lookup_app_l; [done|]. destruct tag; [done|cbn; lia]. }
    rewrite lookup_app_l in Hl by lia. done.
Qed.

Lemma no_earlier_close t future h i j : find t (close_of h) = Some i -> j < i -> starts_with (drop j (t ++ future)) (close_of h) = false.
Proof.
  intros (Hi & Hat & Hbefore)%find_Some Hlt. specialize (Hbefore j Hlt). unfold at_pos in *.
  destruct (starts_with (drop j (t ++ future)) (close_of h)) eqn:Hs; [|done]. exfalso.
  destruct (tags_ok _ (close_ok h)) as [Hne _].
  apply starts_with_length in Hat. rewrite length_drop in Hat.
  assert (0 < length (close_of h)) by (destruct h; cbn; lia).
  rewrite at_pos_app in Hs by lia. congruence.
Qed.

(** ** Draining *)
Record drained (flush : bool) (s s' : VisibleTextStream) (out : text) : Prop := mkDrained {
  dr_utf8 : utf8 (pending s') /\ utf8 out;
  dr_short : length (pending s') < 12;
  dr_scan : forall future, (flush = true -> future = []) ->
    scan 0 (hidden s) (pending s ++ future) = out ++ scan 0 (hidden s') (pending s' ++ future);
  dr_flush : flush = true -> s' = stream_default;
}.

Lemma slices t i : utf8 (take i t) -> utf8 (drop i t) -> i <= length t ->
  slice_to t i = Done (take i t) /\ slice_from t i = Done (drop i t).
Proof. intros H1 H2 Hi. unfold slice_to, slice_from. by rewrite utf8_boundary. Qed.

(** Hidden, and the block does not end here. *)
Lemma drain_hidden_tail fuel flush p h visible :
  utf8 p -> find p (close_of h) = None ->
  exists s', drain_loop (S fuel) flush (mkStream p (Some h)) visible = Done (s', visible) /\ drained flush (mkStream p (Some h)) s' [].
Proof.
  intros Hutf Ef. cbn [drain_loop pending hidden]. rewrite Ef. rewrite find_None in Ef. unfold at_pos in Ef. destruct flush.
  - exists stream_default. split; [done|]. constructor; [split; constructor|cbn; lia| |done].
    intros future Hf. rewrite (Hf eq_refl), app_nil_r. cbn. rewrite (scan_hidden (length p) h) by (intros j ?; apply Ef; lia).
    by rewrite drop_all.
  - assert (forall tag j, tag ∈ [close_of h] -> j <= length p -> starts_with (drop j p) tag = false) as Hnone
      by (intros tag j ->%list_elem_of_singleton; auto).
    destruct (keep_split p [close_of h] Hutf) as [Hu1 Hu2].
    { intros tag ->%list_elem_of_singleton. apply (tags_ok _ (close_ok h)). }
    pose proof (keep_le p [close_of h]) as Hle.
    destruct (slices p (length p - longest_tag_prefix_suffix p [close_of h]) Hu1 Hu2) as [_ ->]; [lia|]. cbn [mbind res_bind].
    eexists. split; [done|]. constructor; cbn [pending hidden]; [split; [done|constructor]| | |done].
    + assert (longest_tag_prefix_suffix p [close_of h] < max_list (length <$> [close_of h])) as Hb.
      { apply keep_bound; [done|done|]. intros tag ->%list_elem_of_singleton. apply (tags_ok _ (close_ok h)). }
      assert (max_list (length <$> [close_of h]) <= 12) by (destruct h; vm_compute; lia). rewrite length_drop. lia.
    + intros future _. rewrite (scan_hidden (length p - longest_tag_prefix_suffix p [close_of h]) h).
      2: { intros j Hj. apply keep_safe with (tags := [close_of h]); [done|set_solver|done]. }
      rewrite drop_app_le by lia. done.
Qed.

(** In the open, and no tag is complete. *)
Lemma drain_open_tail fuel flush p visible :
  utf8 p -> find_first_tag p VISIBLE_TAGS = None ->
  exists s' out, drain_loop (S fuel) flush (mkStream p None) visible = Done (s', visible ++ out) /\ drained flush (mkStream p None) s' out.
Proof.
  intros Hutf Ef. cbn [drain_loop pending hidden]. rewrite Ef. rewrite find_first_tag_None in Ef. destruct flush.
  - exists stream_default, p. split; [done|]. constructor; [split; [constructor|done]|cbn; lia| |done].
    intros future Hf. rewrite (Hf eq_refl), !app_nil_r. cbn. rewrite (scan_open (length p)) by (done || (intros j ?; apply Ef; lia)).
    rewrite firstn_all, drop_all. apply app_nil_r.
  - assert (forall tag j, tag ∈ VISIBLE_TAGS -> j <= length p -> starts_with (drop j p) tag = false) as Hnone.
    { intros tag j Hin Hj. specialize (Ef j Hj). rewrite tag_at_None in Ef. auto. }
    destruct (keep_split p VISIBLE_TAGS Hutf) as [Hu1 Hu2]; [intros tag Hin; by apply tags_ok|].
    pose proof (keep_le p VISIBLE_TAGS) as Hle.
    destruct (slices p (length p - longest_tag_prefix_suffix p VISIBLE_TAGS) Hu1 Hu2) as [-> ->]; [lia|]. cbn [mbind res_bind].
    eexists _, _. split; [done|]. constructor; cbn [pending hidden]; [done| | |done].
    + assert (longest_tag_prefix_suffix p VISIBLE_TAGS < max_list (length <$> VISIBLE_TAGS)) as Hb.
      { apply keep_bound; [done|done|intros tag Hin; by apply tags_ok]. }
      assert (max_list (length <$> VISIBLE_TAGS) = 12) as E by by vm_compute. rewrite length_drop. lia.
    + intros future _. rewrite (scan_open (length p - longest_tag_prefix_suffix p VISIBLE_TAGS)).
      * by rewrite take_app_le, drop_app_le by lia.
      * rewrite length_app. lia.
      * intros j Hj. apply tag_at_None. intros tag Hin. apply keep_safe with (tags := VISIBLE_TAGS); done.
Qed.

(** After a closing tag, and after the first tag in the open. *)
Lemma drained_close flush p h i s' out :
  find p (close_of h) = Some i -> drained flush (mkStream (drop (i + length (close_of h)) p) None) s' out ->
  drained flush (mkStream p (Some h)) s' out.
Proof.
  intros Ef [H1 H2 H3 H4]. pose proof Ef as (Hi & Hat & _)%find_Some. unfold at_pos in Hat.
  pose proof (starts_with_length _ _ Hat) as Hlen. rewrite length_drop in Hlen. assert (0 < length (close_of h)) by (destruct h; cbn; lia).
  constructor; try done. intros future Hf. cbn [pending hidden] in *.
  rewrite (scan_hidden i h) by (intros j Hlt; by eapply no_earlier_close).
  rewrite scan_close by (rewrite at_pos_app; [done|lia]). rewrite drop_drop, drop_app_le by lia. by apply H3.
Qed.

Lemma drained_tag flush p i tag s' out :
  utf8 (take i p) -> i + length tag <= length p -> tag_at (drop i p) = Some tag -> (forall j, j < i -> tag_at (drop j p) = None) ->
  drained flush (mkStream (drop (i + length tag) p) (hidden_block_of tag)) s' out ->
  drained flush (mkStream p None) s' (take i p ++ out).
Proof.
  intros Hu Hlen Htag Hbefore [[H1 H1'] H2 H3 H4]. pose proof Htag as [Hin Hs]%tag_at_Some.
  constructor; [split; [done|by apply utf8_app]|done| |done]. intros future Hf. cbn [pending hidden] in *.
  rewrite (scan_open i) by (rewrite ?length_app; lia || (intros j Hlt; by eapply no_earlier_tag)).
  rewrite take_app_le, <-app_assoc by lia. f_equal.
  rewrite (scan_tag _ tag) by (apply tag_at_Some; split; [done|]; by rewrite at_pos_app).
  rewrite drop_drop, drop_app_le by lia. by apply H3.
Qed.

Lemma drain_loop_spec fuel flush : forall s visible,
  utf8 (pending s) -> length (pending s) < fuel ->
  exists s' out, drain_loop fuel flush s visible = Done (s', visible ++ out) /\ drained flush s s' out.
Proof.
  induction fuel as [|fuel IH]; intros [p h] visible Hutf Hfuel; [cbn in Hfuel; lia|]. cbn [pending] in *. destruct h as [h|].
  - destruct (find p (close_of h)) as [i|] eqn:Ef.
    2: { destruct (drain_hidden_tail fuel flush p h visible Hutf Ef) as (s' & Hrun & Hd). exists s', []. by rewrite app_nil_r. }
    destruct (tags_ok _ (close_ok h)) as [Hne Hasc]. pose proof Ef as (Hi & Hat & _)%find_Some.
    destruct (ascii_boundary p (close_of h) i Hutf Hne Hasc Hat) as (_ & Hu & Hlen & _ & Hb).
    assert (0 < length (close_of h)) by (destruct h; cbn; lia).
    destruct (IH (mkStream (drop (i + length (close_of h)) p) None) visible) as (s' & out & Hrun & Hd);
      [done|cbn; rewrite length_drop; lia|].
    exists s', out. split; [|by eapply drained_close]. cbn [drain_loop pending hidden]. rewrite Ef. unfold slice_from. by rewrite Hb.
  - destruct (find_first_tag p VISIBLE_TAGS) as [[i tag]|] eqn:Ef; [|by apply drain_open_tail].
    pose proof (find_first_tag_Some _ _ _ Ef) as (Hi & Htag & Hbefore). pose proof Htag as [Hin Hs]%tag_at_Some.
    destruct (tags_ok tag Hin) as [Hne Hasc]. destruct (ascii_boundary p tag i Hutf Hne Hasc Hs) as (Hu1 & Hu2 & Hlen & Hb1 & Hb2).
    assert (0 < length tag) by (destruct tag; [done|cbn; lia]).
    destruct (IH (mkStream (drop (i + length tag) p) (hidden_block_of tag)) (visible ++ take i p)) as (s' & out & Hrun & Hd);
      [done|cbn; rewrite length_drop; lia|].
    exists s', (take i p ++ out). split; [|by apply drained_tag with tag]. cbn [drain_loop pending hidden]. rewrite Ef.
    unfold slice_to, slice_from. rewrite Hb1, Hb2, app_assoc. exact Hrun.
Qed.

Lemma drain_spec flush s : utf8 (pending s) -> exists s' out, drain flush s = Done (s', out) /\ drained flush s s' out.
Proof. intros H. apply (drain_loop_spec (S (length (pending s))) flush s [] H). lia. Qed.

Lemma push_all_spec chunks : forall s,
  Forall utf8 chunks -> utf8 (pending s) ->
  exists s' out, push_all chunks s = Done (s', out) /\ utf8 (pending s') /\ utf8 out /\
    (length (pending s) < 12 -> length (pending s') < 12) /\
    forall future, scan 0 (hidden s) (pending s ++ concat chunks ++ future) = out ++ scan 0 (hidden s') (pending s' ++ future).
Proof.
  induction chunks as [|chunk chunks IH]; intros s Hc Hs; [exists s, []; by split_and!; [done|done|constructor|done|]|].
  apply Forall_cons_1 in Hc as [Hchunk Hc]. cbn [push_all].
  destruct (drain_spec false (mkStream (pending s ++ chunk) (hidden s))) as (s1 & out1 & Hrun1 & [[Hu1 Ho1] Hl1 Hs1 _]); [by apply utf8_app|].
  unfold push. rewrite Hrun1. cbn [mbind res_bind fst snd].
  destruct (IH s1 Hc Hu1) as (s' & out & Hrun & Hu & Ho & Hl & Hscan). rewrite Hrun. cbn [mbind res_bind fst snd].
  exists s', (out1 ++ out). split_and!; [done|done|by apply utf8_app|auto|]. intros future. specialize (Hs1 (concat chunks ++ future) ltac:(done)).
  cbn [pending hidden] in Hs1. cbn. rewrite <-!app_assoc. rewrite <-app_assoc in Hs1. rewrite Hs1. f_equal. apply Hscan.
Qed.

Lemma chunks_scanned_utf8 chunks :
  Forall utf8 chunks -> stream_text chunks = Done (scan 0 None (concat chunks)) /\ utf8 (scan 0 None (concat chunks)).
Proof.
  intros Hc. destruct (push_all_spec chunks stream_default Hc) as (s & out & Hrun & Hu & Ho & _ & Hscan); [constructor|].
  unfold stream_text. rewrite Hrun. cbn [mbind res_bind fst snd].
  destruct (drain_spec true s Hu) as (s' & last & Hfin & [[_ Hl] _ Hlast Hd]). unfold finish. rewrite Hfin. cbn [mbind res_bind fst snd].
  specialize (Hscan []). specialize (Hlast [] ltac:(done)). rewrite (Hd eq_refl) in Hlast. cbn in Hscan, Hlast.
  rewrite !app_nil_r in Hscan, Hlast. rewrite Hscan, Hlast. split; [done|by apply utf8_app].
Qed.

Lemma chunks_scanned chunks : Forall utf8 chunks -> stream_text chunks = Done (scan 0 None (concat chunks)).
Proof. apply chunks_scanned_utf8. Qed.

(** C19: the streaming filter does not depend on how the answer is cut into
    chunks: the text it makes visible over any chunks, [finish] included, is
    the text the reference scanner makes visible of the whole answer. It never
    splits a character and never panics. *)
Theorem visible_stream_chunk_invariant chunks :
  Forall utf8 chunks -> stream_text chunks = Done (scan 0 None (concat chunks)) /\ utf8 (scan 0 None (concat chunks)).
Proof. apply chunks_scanned_utf8. Qed.

(** C36: after any chunks the filter holds back fewer bytes than its longest
    tag has, and what it has made visible is the start of what the whole
    answer will make visible, whatever follows. *)
Theorem visible_stream_holds_back_little chunks :
  Forall utf8 chunks ->
  exists s out, push_all chunks stream_default = Done (s, out) /\ length (pending s) < 12 /\
  forall future, out `prefix_of` scan 0 None (concat chunks ++ future).
Proof.
  intros Hc. destruct (push_all_spec chunks stream_default Hc) as (s & out & Hrun & _ & _ & Hl & Hscan); [constructor|].
  exists s, out. split; [done|]. split; [apply Hl; cbn; lia|]. intros future. eexists. apply (Hscan future).
Qed.
