(* ===== verification/Chat.v ===== *)
(** * The chat protocol

    Models the rest of [crates/chat/src/protocol.rs]: messages, the ChatML
    prompt with its spans, the tool block, and the parsing of an assistant's
    answer. JSON is [serde_json]'s: its values and their text are the class
    [SerdeJson]. *)

From Stdlib Require Import Ascii String.
From S2P Require Import Prelude Utf8 VisibleText.
Local Open Scope nat_scope.

Class SerdeJson := mkSerdeJson {
  Value : Type;
  value_string : text -> Value;
  value_array : list Value -> Value;
  value_object : list (text * Value) -> Value;  (* the last insertion of a key counts *)
  value_get : text -> Value -> option Value;
  as_str : Value -> option text;
  as_array : Value -> option (list Value);
  as_object : Value -> option (list (text * Value));
  to_string : Value -> text;
  from_str : text -> option Value;
}.

Definition newline : text := ["010"%char].
Definition DEFAULT_SYSTEM_PROMPT : text := lit "You are a helpful assistant.".
Definition im_start : text := lit "<|im_start|>".
Definition im_end : text := lit "<|im_end|>".

(** ** Messages *)
Inductive ChatRole := System | User | Assistant | ToolRole | Other (role : text).

Definition role_as_str (r : ChatRole) : text :=
  match r with
  | System => lit "system"
  | User => lit "user"
  | Assistant => lit "assistant"
  | ToolRole => lit "tool"
  | Other role => role
  end.

Definition role_of_str (role : text) : ChatRole :=
  if bool_decide (role = lit "system") then System
  else if bool_decide (role = lit "user") then User
  else if bool_decide (role = lit "assistant") then Assistant
  else if bool_decide (role = lit "tool") then ToolRole
  else Other role.

Record ChatMlMessage := mkChatMl { ml_role : text; ml_content : text }.
Record ChatMlSpan := mkSpan { turn : nat * nat; supervised : nat * nat }.
Record RenderedChatMl := mkRendered { prompt : text; spans : list ChatMlSpan }.

Section chat.
Context `{SerdeJson}.

Record ToolCall := mkToolCall { call_name : text; arguments : Value }.
Record ChatMessage := mkMessage { role : ChatRole; content : text; tool_calls : list ToolCall }.
Record ToolDefinition := mkTool { tool_name : text; description : text; parameters : Value }.
Record ParsedAssistantResponse := mkParsed { parsed_content : text; parsed_calls : list ToolCall }.

Definition msg_system (content : text) : ChatMessage := mkMessage System content [].
Definition msg_user (content : text) : ChatMessage := mkMessage User content [].
Definition msg_assistant (content : text) (calls : list ToolCall) : ChatMessage := mkMessage Assistant content calls.
Definition msg_tool_result (_tool_name result : text) : ChatMessage := mkMessage ToolRole result [].

(** ** Tools *)
Definition payload_value (c : ToolCall) : Value :=
  value_object [(lit "name", value_string (call_name c)); (lit "arguments", arguments c)].
Definition prompt_payload (c : ToolCall) : text := to_string (payload_value c).

Definition compact_parameters (params : Value) : Value :=
  match as_object params with
  | None => params
  | Some _ =>
      match value_get (lit "properties") params ≫= as_object with
      | None => params
      | Some properties =>
          let types := (fun '(name, schema) =>
            (name, value_string (default (lit "value") (value_get (lit "type") schema ≫= as_str)))) <$> properties in
          value_object (types ++
            match value_get (lit "required") params ≫= as_array with
            | Some (r :: rs) => [(lit "required", value_array (r :: rs))]
            | _ => []
            end)
      end
  end.

Definition prompt_schema (t : ToolDefinition) : Value :=
  value_object [(lit "name", value_string (tool_name t)); (lit "description", value_string (description t));
    (lit "arguments", compact_parameters (parameters t))].

Definition quote : text := ["034"%char].
Definition tool_block_end : text :=
  newline ++ lit "</tools>" ++ newline ++ lit "Use <tool_call>{" ++ quote ++ lit "name" ++ quote ++ lit ":" ++ quote ++ lit "..." ++ quote ++
  lit "," ++ quote ++ lit "arguments" ++ quote ++
  lit ":{...}}</tool_call>. Never echo <tools>, <tool_call>, or <tool_response> in the final user-facing answer.".

Definition build_tool_block (tools : list ToolDefinition) : text :=
  if bool_decide (tools = []) then []
  else newline ++ lit "<tools>" ++ concat ((fun t => newline ++ to_string (prompt_schema t)) <$> tools) ++ tool_block_end.

(** ** Appending to a prompt *)
Definition append_tool_call_block (p : text) (c : ToolCall) : text :=
  let p := if ends_with p newline then p else p ++ newline in
  p ++ open_tag TOOL_CALL_BLOCK ++ newline ++ prompt_payload c ++ newline ++ close_tag TOOL_CALL_BLOCK.
Definition append_assistant_content (p content : text) (calls : list ToolCall) : text :=
  foldl append_tool_call_block (p ++ content) calls.

Definition tool_response (content : text) : text :=
  lit "<tool_response>" ++ newline ++ content ++ newline ++ lit "</tool_response>".

Definition append_chatml_message_with_span (p role content : text) : text * ChatMlSpan :=
  let turn_start := length p in
  let p := p ++ im_start ++ role ++ newline in
  let supervised_start := length p in
  let p := p ++ content ++ im_end in
  let supervised_end := length p in
  let p := p ++ newline in
  (p, mkSpan (turn_start, length p) (supervised_start, supervised_end)).

Definition append_structured_chatml_message_with_span (p : text) (m : ChatMessage) : text * ChatMlSpan :=
  let turn_start := length p in
  let rendered_role := match role m with ToolRole => role_as_str User | r => role_as_str r end in
  let p := p ++ im_start ++ rendered_role ++ newline in
  let supervised_start := length p in
  let p :=
    match role m with
    | System | User | Other _ => p ++ content m
    | Assistant => append_assistant_content p (content m) (tool_calls m)
    | ToolRole => p ++ tool_response (content m)
    end in
  let p := p ++ im_end ++ newline in
  let supervised_end := match role m with Assistant => length p - 1 | _ => supervised_start end in
  (p, mkSpan (turn_start, length p) (supervised_start, supervised_end)).

Definition generation_prompt : text := im_start ++ lit "assistant" ++ newline.

(** The loop both renderers run. *)
Definition render_loop {M} (append : text -> M -> text * ChatMlSpan) (messages : list M) (add_generation_prompt : bool) : RenderedChatMl :=
  let r := foldl (fun r m => let '(p, span) := append (prompt r) m in mkRendered p (spans r ++ [span])) (mkRendered [] []) messages in
  mkRendered (prompt r ++ if add_generation_prompt then generation_prompt else []) (spans r).

Definition render_structured_chatml_with_spans (messages : list ChatMessage) (add_generation_prompt : bool) : RenderedChatMl :=
  render_loop append_structured_chatml_message_with_span messages add_generation_prompt.
Definition render_chatml_with_spans (messages : list ChatMlMessage) (add_generation_prompt : bool) : RenderedChatMl :=
  render_loop (fun p m => append_chatml_message_with_span p (ml_role m) (ml_content m)) messages add_generation_prompt.
Definition render_chatml (messages : list ChatMlMessage) (add_generation_prompt : bool) : text :=
  prompt (render_chatml_with_spans messages add_generation_prompt).

(** ** The prompt renderer *)
Record PromptRenderer := mkRenderer { rd_prompt : text; tool_block : text; system_injected : bool }.
Definition renderer_new (tool_block : text) : PromptRenderer := mkRenderer [] tool_block false.

Definition pushes (t : text) (r : PromptRenderer) : PromptRenderer := mkRenderer (rd_prompt r ++ t) (tool_block r) (system_injected r).
Definition injected (r : PromptRenderer) : PromptRenderer := mkRenderer (rd_prompt r) (tool_block r) true.

Definition start_message (role : text) (r : PromptRenderer) : PromptRenderer := pushes (im_start ++ role ++ newline) r.
Definition end_message (r : PromptRenderer) : PromptRenderer := pushes (im_end ++ newline) r.

Definition ensure_default_system_message (r : PromptRenderer) : PromptRenderer :=
  if system_injected r || bool_decide (tool_block r = []) then r
  else injected (end_message (pushes (tool_block r) (pushes DEFAULT_SYSTEM_PROMPT (start_message (role_as_str System) r)))).

Definition push_system (content : text) (r : PromptRenderer) : PromptRenderer :=
  let r := pushes content (start_message (role_as_str System) r) in
  let r := if bool_decide (tool_block r = []) then r else pushes (tool_block r) r in
  injected (end_message r).
Definition push_user (content : text) (r : PromptRenderer) : PromptRenderer :=
  end_message (pushes content (start_message (role_as_str User) (ensure_default_system_message r))).
Definition push_assistant (content : text) (calls : list ToolCall) (r : PromptRenderer) : PromptRenderer :=
  let r := start_message (role_as_str Assistant) r in
  end_message (mkRenderer (append_assistant_content (rd_prompt r) content calls) (tool_block r) (system_injected r)).
Definition push_tool (content : text) (r : PromptRenderer) : PromptRenderer :=
  end_message (pushes (tool_response content) (start_message (role_as_str User) r)).
Definition push_other (role content : text) (r : PromptRenderer) : PromptRenderer :=
  end_message (pushes content (start_message role r)).

Definition push_message (r : PromptRenderer) (m : ChatMessage) : PromptRenderer :=
  match role m with
  | System => push_system (content m) r
  | User => push_user (content m) r
  | Assistant => push_assistant (content m) (tool_calls m) r
  | ToolRole => push_tool (content m) r
  | Other role => push_other role (content m) r
  end.

Definition finish_prompt (r : PromptRenderer) : text := rd_prompt r ++ generation_prompt.

Definition messages_to_prompt (messages : list ChatMessage) (tools : list ToolDefinition) : text :=
  finish_prompt (foldl push_message (renderer_new (build_tool_block tools)) messages).

(** ** Parsing an answer *)
Definition parse_block (json_str : text) : option ToolCall :=
  value ← from_str json_str;
  Some (mkToolCall (default [] (value_get (lit "name") value ≫= as_str))
    (default (value_object []) (value_get (lit "arguments") value))).

Definition parse_tool_calls (t : text) : res ParsedAssistantResponse :=
  r ← strip_and_collect TOOL_CALL_BLOCK parse_block t;
  visible ← strip_all THINK_BLOCK r.1;
  Done (mkParsed (trim visible) r.2).
End chat.
