(* ===== verification/ChatProps.v ===== *)
(** * Prompts and their spans *)

From Stdlib Require Import Ascii String.
From S2P Require Import Prelude Utf8 VisibleText Chat.
Local Open Scope nat_scope.

Definition slice (t : text) (r : nat * nat) : text := take (r.2 - r.1) (drop r.1 t).

Lemma slice_at (a b c : text) : slice (a ++ b ++ c) (length a, length (a ++ b)) = b.
Proof.
  unfold slice. cbn. rewrite drop_app_length, length_app.
  replace (length a + length b - length a) with (length b) by lia. apply take_app_length.
Qed.

Lemma ends_with_newline (p : text) : ends_with (p ++ newline) newline = true.
Proof. unfold ends_with, newline. rewrite reverse_snoc. done. Qed.

Lemma ends_with_cons (p t : text) : t <> [] -> ends_with (p ++ t) newline = ends_with t newline.
Proof.
  intros Ht. destruct t as [|a t _] using rev_ind; [done|]. unfold ends_with. by rewrite app_assoc, !reverse_snoc.
Qed.

Section chat_props.
Context `{SerdeJson}.
Implicit Types (m : ChatMessage) (c : ToolCall) (p : text).

(** ** One turn *)

(** What a tool call looks like after text that ends in [b]. *)
Definition call_text c : text := open_tag TOOL_CALL_BLOCK ++ newline ++ prompt_payload c ++ newline ++ close_tag TOOL_CALL_BLOCK.

(** The content of an assistant's turn, at the start of a line. *)
Definition assistant_body (content : text) (calls : list ToolCall) : text :=
  content ++
  match calls with
  | [] => []
  | c :: calls =>
      (if bool_decide (content = []) || ends_with content newline then [] else newline) ++ call_text c ++
      concat ((fun c => newline ++ call_text c) <$> calls)
  end.

Lemma append_call p c : append_tool_call_block p c = p ++ (if ends_with p newline then [] else newline) ++ call_text c.
Proof. unfold append_tool_call_block, call_text. destruct (ends_with p newline); [done|]. by rewrite <-app_assoc. Qed.

Lemma call_ends p c : ends_with (p ++ call_text c) newline = false.
Proof.
  rewrite ends_with_cons by done. unfold call_text. rewrite !app_assoc. by rewrite ends_with_cons.
Qed.

Lemma append_more p calls : ends_with p newline = false ->
  foldl append_tool_call_block p calls = p ++ concat ((fun c => newline ++ call_text c) <$> calls).
Proof.
  revert p. induction calls as [|c calls IH]; intros p Hp; cbn [foldl fmap list_fmap concat]; [by rewrite app_nil_r|].
  rewrite append_call, Hp. rewrite IH by (rewrite app_assoc; apply call_ends). by rewrite <-!app_assoc.
Qed.

Lemma append_assistant p content calls :
  append_assistant_content (p ++ newline) content calls = p ++ newline ++ assistant_body content calls.
Proof.
  unfold append_assistant_content, assistant_body. destruct calls as [|c calls]; [by rewrite app_nil_r, <-app_assoc|].
  cbn [foldl]. rewrite append_call. rewrite append_more by (rewrite app_assoc; apply call_ends).
  assert (ends_with ((p ++ newline) ++ content) newline = bool_decide (content = []) || ends_with content newline) as ->.
  { case_bool_decide as E; [subst; rewrite app_nil_r; apply ends_with_newline|]. by rewrite ends_with_cons. }
  by rewrite <-!app_assoc.
Qed.

Definition rendered_role m : text := match role m with ToolRole => role_as_str User | r => role_as_str r end.

Definition body_text m : text :=
  match role m with
  | Assistant => assistant_body (content m) (tool_calls m)
  | ToolRole => tool_response (content m)
  | _ => content m
  end.

Definition turn_head m : text := im_start ++ rendered_role m ++ newline.
Definition turn_text m : text := turn_head m ++ body_text m ++ im_end ++ newline.

Definition turn_span (start : nat) m : ChatMlSpan :=
  let first := start + length (turn_head m) in
  mkSpan (start, start + length (turn_text m))
    (first, match role m with Assistant => first + length (body_text m ++ im_end) | _ => first end).

Lemma append_assistant_head p r content calls :
  append_assistant_content (p ++ im_start ++ r ++ newline) content calls =
    (p ++ im_start ++ r ++ newline) ++ assistant_body content calls.
Proof. rewrite !app_assoc, append_assistant. by rewrite <-!app_assoc. Qed.

Lemma append_structured p m : append_structured_chatml_message_with_span p m = (p ++ turn_text m, turn_span (length p) m).
Proof.
  unfold append_structured_chatml_message_with_span. fold (rendered_role m). rewrite append_assistant_head. fold (turn_head m).
  assert (match role m with
    | System | User | Other _ => (p ++ turn_head m) ++ content m
    | Assistant => (p ++ turn_head m) ++ assistant_body (content m) (tool_calls m)
    | ToolRole => (p ++ turn_head m) ++ tool_response (content m)
    end = (p ++ turn_head m) ++ body_text m) as -> by by (unfold body_text; destruct (role m)).
  unfold turn_span, turn_text. rewrite <-!app_assoc. f_equal. rewrite !length_app.
  destruct (role m); do 2 f_equal; cbn [length newline]; lia.
Qed.

(** ** The renderers *)
Definition turns_text (ms : list ChatMessage) : text := concat (turn_text <$> ms).

Fixpoint turn_spans (start : nat) (ms : list ChatMessage) : list ChatMlSpan :=
  match ms with
  | [] => []
  | m :: ms => turn_span start m :: turn_spans (start + length (turn_text m)) ms
  end.

Lemma render_structured ms gen :
  render_structured_chatml_with_spans ms gen =
  mkRendered (turns_text ms ++ if gen then generation_prompt else []) (turn_spans 0 ms).
Proof.
  unfold render_structured_chatml_with_spans, render_loop.
  assert (forall r, foldl (fun r m => let '(p, span) := append_structured_chatml_message_with_span (prompt r) m in
    mkRendered p (spans r ++ [span])) r ms = mkRendered (prompt r ++ turns_text ms) (spans r ++ turn_spans (length (prompt r)) ms)) as Hgen.
  { unfold turns_text. induction ms as [|m ms IH]; intros r; cbn [foldl fmap list_fmap concat turn_spans].
    - rewrite !app_nil_r. by destruct r.
    - rewrite append_structured, IH. cbn [prompt spans]. by rewrite <-!app_assoc, length_app. }
  by rewrite Hgen.
Qed.

Lemma push_message_plain r m : tool_block r = [] ->
  rd_prompt (push_message r m) = rd_prompt r ++ turn_text m /\ tool_block (push_message r m) = [].
Proof.
  intros Htb. unfold push_message, turn_text, turn_head, rendered_role, body_text.
  destruct (role m); unfold push_system, push_user, push_assistant, push_tool, push_other, ensure_default_system_message, end_message,
    start_message, pushes, injected; rewrite ?bool_decide_eq_true_2, ?orb_true_r by done;
    cbn [rd_prompt tool_block system_injected]; (split; [|done]); rewrite ?append_assistant_head; by rewrite <-?app_assoc.
Qed.

Lemma push_all_plain ms : forall r, tool_block r = [] ->
  rd_prompt (foldl push_message r ms) = rd_prompt r ++ turns_text ms.
Proof.
  unfold turns_text. induction ms as [|m ms IH]; intros r Hr; cbn; [by rewrite app_nil_r|].
  destruct (push_message_plain r m Hr) as [Hp Htb]. rewrite IH by done. by rewrite Hp, <-app_assoc.
Qed.

(** A message never rewrites what is before it. *)
Lemma push_message_extends r m : rd_prompt r `prefix_of` rd_prompt (push_message r m).
Proof.
  unfold push_message. destruct (role m); unfold push_system, push_user, push_assistant, push_tool, push_other, ensure_default_system_message,
    end_message, start_message, pushes, injected; cbn [rd_prompt tool_block system_injected];
    repeat case_match; cbn [rd_prompt tool_block system_injected]; rewrite ?append_assistant_head, <-?app_assoc; by apply prefix_app_r.
Qed.

Lemma push_all_extends ms : forall r, rd_prompt r `prefix_of` rd_prompt (foldl push_message r ms).
Proof. induction ms as [|m ms IH]; intros r; cbn; [done|]. etrans; [apply push_message_extends|apply IH]. Qed.

Lemma turn_spans_slices ms : forall (before after : text),
  slice (before ++ turns_text ms ++ after) ∘ turn <$> turn_spans (length before) ms = turn_text <$> ms /\
  slice (before ++ turns_text ms ++ after) ∘ supervised <$> turn_spans (length before) ms =
    (fun m => match role m with Assistant => body_text m ++ im_end | _ => [] end) <$> ms.
Proof.
  unfold turns_text. induction ms as [|m ms IH]; intros before after; cbn [fmap list_fmap concat turn_spans]; [done|].
  destruct (IH (before ++ turn_text m) after) as [IH1 IH2]. rewrite length_app in IH1, IH2.
  rewrite <-!app_assoc in IH1, IH2 |- *. rewrite IH1, IH2. split; f_equal; unfold turn_span; cbn [turn supervised compose].
  - rewrite <-length_app. apply slice_at.
  - unfold turn_text. rewrite <-!app_assoc. rewrite (app_assoc before). destruct (role m);
      try (unfold slice; cbn; by rewrite Nat.sub_diag).
    rewrite <-!length_app, (app_assoc (body_text m)). by rewrite slice_at.
Qed.
End chat_props.

(** The spans of a rendered conversation are its turns: read off the
    prompt, the turn spans are the turns in order and tile it up to the
    generation prompt; the supervised span of an assistant's turn is its
    content with the end marker, without the newline after it, and that of any
    other turn is empty. *)
Theorem spans_tile_the_prompt `{SerdeJson} ms gen :
  let r := render_structured_chatml_with_spans ms gen in
  prompt r = concat (slice (prompt r) ∘ turn <$> spans r) ++ (if gen then generation_prompt else []) /\
  slice (prompt r) ∘ turn <$> spans r = turn_text <$> ms /\
  slice (prompt r) ∘ supervised <$> spans r = (fun m => match role m with Assistant => body_text m ++ im_end | _ => [] end) <$> ms.
Proof.
  rewrite render_structured. cbv zeta. cbn [prompt spans]. destruct (turn_spans_slices ms [] (if gen then generation_prompt else [])) as [H1 H2].
  change (@length ascii []) with 0 in H1, H2. rewrite app_nil_l in H1, H2. by rewrite H1, H2.
Qed.

(** Without tools the two renderers agree: the prompt built message by
    message is the structured rendering with its generation prompt. *)
Theorem prompt_renderers_agree `{SerdeJson} ms :
  messages_to_prompt ms [] = prompt (render_structured_chatml_with_spans ms true).
Proof. unfold messages_to_prompt, finish_prompt. rewrite render_structured. cbn [prompt]. by rewrite push_all_plain. Qed.

(** A conversation that goes on extends its prompt: what was sent to get
    an answer, generation prompt included, is the beginning of what is sent
    once the answer and any further messages have been added, so its cached
    prefix is found again. *)
Theorem answered_prompt_is_prefix `{SerdeJson} ms answer calls more tools :
  messages_to_prompt ms tools `prefix_of` messages_to_prompt (ms ++ msg_assistant answer calls :: more) tools.
Proof.
  unfold messages_to_prompt, finish_prompt. rewrite foldl_app. cbn [foldl]. set (r := foldl push_message _ ms).
  etrans; [|by apply prefix_app_r]. etrans; [|apply push_all_extends].
  unfold push_message, msg_assistant, push_assistant, end_message, start_message, pushes. cbn [role rd_prompt content tool_calls].
  rewrite append_assistant_head, <-!app_assoc. unfold generation_prompt, role_as_str. apply prefix_app.
  apply (prefix_app _ (lit "assistant" ++ newline)), (prefix_app _ newline). by exists (assistant_body answer calls ++ im_end ++ newline).
Qed.
