(* ===== verification/ChatAnswers.v ===== *)
(** * Parsing an answer

    [strip_and_collect] as a relation, and answers made of plain text, tool
    calls and thoughts: what parsing and streaming make of them. *)


From Stdlib Require Import Ascii String.
From S2P Require Import Prelude Utf8 VisibleText VisibleTextProps Chat ChatProps.

Local Open Scope nat_scope.

(** ** [strip_and_collect] as a relation *)
Record block_ok (b : TaggedBlock) : Prop := mkBlockOk {
  bo_open : open_tag b <> [] /\ forallb is_ascii_byte (open_tag b) = true;
  bo_close : close_tag b <> [] /\ forallb is_ascii_byte (close_tag b) = true;
}.

Lemma tool_block_ok : block_ok TOOL_CALL_BLOCK.
Proof. split; vm_compute; done. Qed.
Lemma think_block_ok : block_ok THINK_BLOCK.
Proof. split; vm_compute; done. Qed.

Section strip.
Context {T : Type} (b : TaggedBlock) (f : text -> option T).
Hypothesis Hb : block_ok b.

Inductive stripped : text -> text -> list T -> Prop :=
  | stripped_none t : find t (open_tag b) = None -> stripped t t []
  | stripped_block x block after s ps :
      find (x ++ open_tag b ++ block ++ close_tag b ++ after) (open_tag b) = Some (length x) ->
      find (block ++ close_tag b ++ after) (close_tag b) = Some (length block) ->
      stripped after s ps ->
      stripped (x ++ open_tag b ++ block ++ close_tag b ++ after) (x ++ s) (option_list (f (trim block)) ++ ps)
  | stripped_unclosed x rest :
      find (x ++ open_tag b ++ rest) (open_tag b) = Some (length x) -> find rest (close_tag b) = None ->
      stripped (x ++ open_tag b ++ rest) (x ++ rest) [].

(** Text before the first opening tag is passed on. *)
Lemma stripped_skip x t s ps :
  find (x ++ t) (open_tag b) = Nat.add (length x) <$> find t (open_tag b) -> stripped t s ps -> stripped (x ++ t) (x ++ s) ps.
Proof using.
  intros Hx Hs. destruct Hs as [t Hf|y block after s ps Hf Hc Hs|y rest Hf Hc]; rewrite Hf in Hx; cbn in Hx.
  - by constructor.
  - rewrite app_assoc in Hx |- *. rewrite <-length_app in Hx. rewrite (app_assoc x). by constructor.
  - rewrite app_assoc in Hx |- *. rewrite <-length_app in Hx. rewrite (app_assoc x). by constructor.
Qed.

Lemma found_split t p i : at_pos t p i = true -> i <= length t -> t = take i t ++ p ++ drop (i + length p) t /\ length (take i t) = i.
Proof using.
  intros Hat Hi. unfold at_pos in Hat. rewrite length_take, Nat.min_l by done. split; [|done].
  rewrite <-drop_drop, <-starts_with_split by done. by rewrite take_drop.
Qed.

Lemma strip_loop_spec fuel : forall remaining st parsed,
  utf8 remaining -> length remaining < fuel ->
  exists s ps, strip_loop fuel b f remaining st parsed = Done (st ++ s, parsed ++ ps) /\ stripped remaining s ps /\ utf8 s.
Proof using Hb.
  destruct Hb as [[Hne Hasc] [Hne' Hasc']].
  induction fuel as [|fuel IH]; intros t st parsed Hutf Hfuel; [lia|]. cbn [strip_loop].
  destruct (find t (open_tag b)) as [i|] eqn:Ef.
  2: { exists t, []. rewrite app_nil_r. split_and!; [done|by constructor|done]. }
  pose proof Ef as (Hi & Hat & _)%find_Some. destruct (ascii_boundary t _ i Hutf Hne Hasc Hat) as (Hu1 & Hu2 & Hlen & Hb1 & Hb2).
  destruct (found_split t _ i Hat Hi) as [Et Hti]. unfold slice_to, slice_from. rewrite Hb1, Hb2. cbn [mbind res_bind].
  set (before := take i t) in *. set (rest := drop (i + length (open_tag b)) t) in *.
  assert (length rest < fuel) as Hrest.
  { subst rest. rewrite length_drop. assert (0 < length (open_tag b)) by (destruct (open_tag b); [done|cbn; lia]). lia. }
  destruct (find rest (close_tag b)) as [j|] eqn:Ec.
  - pose proof Ec as (Hj & Hat' & _)%find_Some. destruct (ascii_boundary rest _ j Hu2 Hne' Hasc' Hat') as (Hu3 & Hu4 & Hlen' & Hb3 & Hb4).
    destruct (found_split rest _ j Hat' Hj) as [Er Hrj]. rewrite Hb3, Hb4. cbn [mbind res_bind].
    destruct (IH (drop (j + length (close_tag b)) rest) (st ++ before)
      (match f (trim (take j rest)) with Some item => parsed ++ [item] | None => parsed end)) as (s & ps & Hrun & Hs & Hus).
    { done. } { rewrite length_drop. lia. }
    exists (before ++ s), (option_list (f (trim (take j rest))) ++ ps). split_and!; [|  |by apply utf8_app].
    + rewrite Hrun, <-app_assoc. destruct (f _); cbn [option_list]; by rewrite <-?app_assoc.
    + rewrite Et. rewrite Er at 1. constructor; [by rewrite <-Er, <-Et, Hti|by rewrite <-Er, Hrj|done].
  - exists (before ++ rest), []. split_and!; [| |by apply utf8_app].
    + destruct fuel as [|fuel]; [lia|]. cbn [strip_loop]. assert (find [] (open_tag b) = None) as ->.
      { by destruct (open_tag b). }
      by rewrite !app_nil_r, app_assoc.
    + rewrite Et. constructor; [by rewrite <-Et, Hti|done].
Qed.

Lemma strip_and_collect_spec t : utf8 t -> exists s ps, strip_and_collect b f t = Done (s, ps) /\ stripped t s ps /\ utf8 s.
Proof using Hb. intros Ht. apply (strip_loop_spec (S (length t)) t [] [] Ht). lia. Qed.

Lemma stripped_det t s ps s' ps' : stripped t s ps -> stripped t s' ps' -> s = s' /\ ps = ps'.
Proof using.
  intros H. revert s' ps'. induction H as [t Hf|x block after s ps Hf Hc Hs IH|x rest Hf Hc]; intros s' ps' H'.
  - inversion H' as [|x block after ? ? Hf'|x rest Hf']; subst; [done|congruence|congruence].
  - inversion H' as [t Hf'|x' block' after' s1 ps1 Hf' Hc' Hs' E|x' rest' Hf' Hc' E]; subst.
    + congruence.
    + rewrite E, Hf in Hf'. injection Hf' as Hx. apply app_inj_1 in E as [-> E]; [|done].
      apply app_inv_head in E. rewrite E, Hc in Hc'. injection Hc' as Hx'. apply app_inj_1 in E as [-> E]; [|done].
      apply app_inv_head in E as ->. by destruct (IH _ _ Hs') as [-> ->].
    + rewrite E, Hf in Hf'. injection Hf' as Hx. apply app_inj_1 in E as [-> E]; [|done]. apply app_inv_head in E as ->. congruence.
  - inversion H' as [t Hf'|x' block' after' s1 ps1 Hf' Hc' Hs' E|x' rest' Hf' Hc' E]; subst.
    + congruence.
    + rewrite E, Hf in Hf'. injection Hf' as Hx. apply app_inj_1 in E as [-> E]; [|done]. apply app_inv_head in E as <-. congruence.
    + rewrite E, Hf in Hf'. injection Hf' as Hx. apply app_inj_1 in E as [-> E]; [|done]. by apply app_inv_head in E as ->.
Qed.

Lemma stripped_run t s ps : utf8 t -> stripped t s ps -> strip_and_collect b f t = Done (s, ps) /\ utf8 s.
Proof using Hb.
  intros Ht Hs. destruct (strip_and_collect_spec t Ht) as (s' & ps' & Hrun & Hs' & Hu). by destruct (stripped_det _ _ _ _ _ Hs Hs') as [-> ->].
Qed.
End strip.

(** ** Answers in segments

    Plain text, tool calls and thoughts: what the streaming filter shows of
    such an answer and what parsing makes of it. *)

Local Open Scope nat_scope.

(** ** Searching for a tag

    A tag has its only [<] at its start. *)
Definition lt_char : ascii := "<"%char.
Definition tag_shape (p : text) : bool := match p with a :: p => bool_decide (a = lt_char) && bool_decide (lt_char ∉ p) | [] => false end.

Lemma tag_shape_tags tag : tag ∈ VISIBLE_TAGS -> tag_shape tag = true.
Proof. unfold VISIBLE_TAGS. rewrite !elem_of_cons, elem_of_nil. intros [->|[->|[->|[->|[]]]]]; vm_compute; done. Qed.

Lemma find_free p x t : tag_shape p = true -> lt_char ∉ x -> find (x ++ t) p = Nat.add (length x) <$> find t p.
Proof.
  destruct p as [|a p]; [done|]. cbn. rewrite andb_true_iff, !bool_decide_eq_true. intros [-> _].
  induction x as [|b x IH]; intros Hx; cbn; [by destruct (find t _)|]. apply not_elem_of_cons in Hx as [Hb Hx].
  rewrite bool_decide_eq_false_2 by done. cbn. rewrite IH by done. by destruct (find t _).
Qed.

(** Text without the tag, before text that starts with [<] or nothing. *)
Lemma find_skip p x t :
  tag_shape p = true -> find x p = None -> (t = [] \/ head t = Some lt_char) -> find (x ++ t) p = Nat.add (length x) <$> find t p.
Proof.
  intros Hp Hx Ht. induction x as [|b x IH]; [cbn [app length]; by destruct (find t p)|]. cbn [app find length] in *.
  destruct (starts_with (b :: x) p) eqn:E; [done|]. assert (starts_with (b :: x ++ t) p = false) as ->.
  { destruct (starts_with (b :: x ++ t) p) eqn:E'; [|done]. exfalso.
    destruct (decide (length p <= length (b :: x))) as [Hle|Hgt].
    - change (b :: x ++ t) with ((b :: x) ++ t) in E'. rewrite starts_with_app_l in E' by done. congruence.
    - apply starts_with_prefix in E' as [k Hk]. destruct p as [|a p]; [done|]. cbn in Hp, Hgt.
      apply andb_true_iff in Hp as [_ Hp%bool_decide_eq_true]. apply Hp. injection Hk as <- Hk.
      assert (p !! length x = t !! 0) as Hl.
      { rewrite <-(lookup_app_l p k) by lia. rewrite <-Hk, lookup_app_r, Nat.sub_diag by lia. done. }
      destruct Ht as [->|Ht]; [cbn in Hl; apply lookup_ge_None in Hl; lia|].
      destruct t as [|c t]; [done|]. injection Ht as ->. by eapply list_elem_of_lookup_2. }
  destruct (find x p) eqn:Ex; [done|]. rewrite IH by done. by destruct (find t p).
Qed.

Lemma find_here p t : find (p ++ t) p = Some 0.
Proof. destruct (p ++ t) eqn:E; cbn [find]; rewrite <-E, starts_with_app; done. Qed.

Lemma find_before p x t : tag_shape p = true -> find x p = None -> find (x ++ p ++ t) p = Some (length x).
Proof.
  intros Hp Hx. rewrite find_skip; [|done|done|right; destruct p as [|a p]; [done|]; cbn in *; apply andb_true_iff in Hp as [->%bool_decide_eq_true _]; done].
  rewrite find_here. cbn. f_equal. lia.
Qed.

(** No visible tag begins in the text, not even one that the text after it
    completes. *)
Definition tagless (t : text) : bool :=
  forallb (fun i => forallb (fun tag => negb (starts_with (drop i t) tag || starts_with tag (drop i t))) VISIBLE_TAGS)
    (seq 0 (length t)).

Lemma tagless_at t i tag : tagless t = true -> i < length t -> tag ∈ VISIBLE_TAGS ->
  starts_with (drop i t) tag = false /\ starts_with tag (drop i t) = false.
Proof.
  unfold tagless. rewrite forallb_forall. intros H Hi Hin. specialize (H i ltac:(apply List.in_seq; lia)).
  rewrite forallb_forall in H. specialize (H tag ltac:(by apply list_elem_of_In)).
  by apply negb_true_iff, orb_false_iff in H.
Qed.

Lemma tagless_cons b x : tagless (b :: x) = true -> tagless x = true.
Proof.
  unfold tagless. rewrite !forallb_forall. intros H i Hi%List.in_seq.
  apply (H (S i)). apply List.in_seq. cbn. lia.
Qed.

Lemma tagless_starts b x t tag : tagless (b :: x) = true -> tag ∈ VISIBLE_TAGS -> starts_with ((b :: x) ++ t) tag = false.
Proof.
  intros Hx Hin. destruct (tagless_at _ 0 tag Hx ltac:(cbn; lia) Hin) as [H1 H2]. rewrite drop_0 in H1, H2.
  destruct (starts_with ((b :: x) ++ t) tag) eqn:E; [|done]. apply starts_with_prefix in E as [k Hk].
  destruct (decide (length tag <= length (b :: x))) as [Hle|Hgt].
  - rewrite <-(take_drop (length tag) (b :: x)) in H1, Hk. rewrite <-app_assoc in Hk. apply app_inj_1 in Hk as [Hk _]; [|rewrite length_take; lia].
    by rewrite Hk, starts_with_app in H1.
  - rewrite <-(take_drop (length (b :: x)) tag) in H2, Hk. rewrite <-app_assoc in Hk. apply app_inj_1 in Hk as [Hk _]; [|rewrite length_take; lia].
    by rewrite <-Hk, starts_with_app in H2.
Qed.

Lemma find_tagless p x t : p ∈ VISIBLE_TAGS -> tagless x = true -> find (x ++ t) p = Nat.add (length x) <$> find t p.
Proof.
  intros Hin. induction x as [|b x IH]; intros Hx; [cbn; by destruct (find t _)|]. cbn [app find length].
  change (b :: x ++ t) with ((b :: x) ++ t). rewrite (tagless_starts b x t p Hx Hin).
  rewrite IH by (by eapply tagless_cons). by destruct (find t _).
Qed.

(** Text without [<] is such a text. *)
Lemma free_tagless x : lt_char ∉ x -> tagless x = true.
Proof.
  intros Hx. unfold tagless. rewrite forallb_forall. intros i Hi%List.in_seq. rewrite forallb_forall. intros tag Hin%list_elem_of_In.
  apply tag_shape_tags in Hin. destruct tag as [|a tag]; [done|]. cbn in Hin. apply andb_true_iff in Hin as [->%bool_decide_eq_true _].
  destruct (drop i x) as [|b y] eqn:E; [apply (f_equal length) in E; rewrite length_drop in E; cbn in E; lia|].
  assert (b <> lt_char) as Hb.
  { intros ->. apply Hx. apply list_elem_of_lookup. exists i. rewrite <-(Nat.add_0_r i), <-lookup_drop, E. done. }
  cbn. by rewrite !bool_decide_eq_false_2 by done.
Qed.

(** ** Segments *)
Inductive segment := Plain (t : text) | ToolBlock (body : text) | ThinkBlock (body : text).

Definition tagged (b : TaggedBlock) (body : text) : text := open_tag b ++ body ++ close_tag b.

Definition segment_text (s : segment) : text :=
  match s with
  | Plain t => t
  | ToolBlock body => tagged TOOL_CALL_BLOCK body
  | ThinkBlock body => tagged THINK_BLOCK body
  end.

Definition segment_ok (s : segment) : Prop :=
  match s with
  | Plain t => utf8 t /\ tagless t = true
  | ToolBlock body => utf8 body /\ find body (close_tag TOOL_CALL_BLOCK) = None
  | ThinkBlock body => utf8 body /\ find body (close_tag THINK_BLOCK) = None /\ find body (open_tag TOOL_CALL_BLOCK) = None
  end.

Definition answer_text (segs : list segment) : text := concat (segment_text <$> segs).
Definition shown (segs : list segment) : text := concat ((fun s => match s with Plain t => t | _ => [] end) <$> segs).
Definition tool_bodies (segs : list segment) : list text := omap (fun s => match s with ToolBlock body => Some body | _ => None end) segs.
Definition not_tool (s : segment) : bool := match s with ToolBlock _ => false | _ => true end.

Lemma ascii_utf8 t : forallb is_ascii_byte t = true -> utf8 t.
Proof.
  induction t as [|b t IH]; [constructor|]. cbn. rewrite andb_true_iff. intros [Hb Ht].
  apply (utf8_char b [] t); [by apply ascii_lead|constructor|auto].
Qed.

Lemma segment_utf8 s : segment_ok s -> utf8 (segment_text s).
Proof.
  destruct s; cbn [segment_ok segment_text]; unfold tagged; intros [Hu _]; [done|..];
    (apply utf8_app; [apply ascii_utf8; vm_compute; done|apply utf8_app; [done|apply ascii_utf8; vm_compute; done]]).
Qed.

Lemma answer_utf8 segs : Forall segment_ok segs -> utf8 (answer_text segs).
Proof. intros H. apply utf8_concat, Forall_fmap. eapply Forall_impl; [done|]. intros s. apply segment_utf8. Qed.

(** ** The stream *)
Lemma scan_free x t : tagless x = true -> scan 0 None (x ++ t) = x ++ scan 0 None t.
Proof.
  induction x as [|b x IH]; [done|]. intros Hx. cbn [app scan].
  assert (tag_at (b :: x ++ t) = None) as ->; [|rewrite IH by (by eapply tagless_cons); done].
  apply tag_at_None. intros tag. exact (tagless_starts b x t tag Hx).
Qed.

Definition block_of (h : HiddenBlock) : TaggedBlock := match h with ToolCallHidden => TOOL_CALL_BLOCK | ThinkHidden => THINK_BLOCK end.

Lemma scan_block h body t : find body (close_of h) = None -> scan 0 None (tagged (block_of h) body ++ t) = scan 0 None t.
Proof.
  intros Hf. unfold tagged. rewrite <-!app_assoc. rewrite (scan_tag _ (open_tag (block_of h))).
  2: { apply tag_at_Some. split; [destruct h; unfold VISIBLE_TAGS; set_solver|apply starts_with_app]. }
  rewrite drop_app_length. assert (hidden_block_of (open_tag (block_of h)) = Some h) as -> by by destruct h.
  assert (close_tag (block_of h) = close_of h) as -> by by destruct h.
  pose proof (find_before (close_of h) body t (tag_shape_tags _ (close_ok h)) Hf) as (_ & _ & Hbefore)%find_Some.
  rewrite (scan_hidden (length body)) by exact Hbefore. rewrite drop_app_length, scan_close by apply starts_with_app.
  by rewrite drop_app_length.
Qed.

Lemma scan_segments segs : Forall segment_ok segs -> scan 0 None (answer_text segs) = shown segs.
Proof.
  unfold answer_text, shown. induction 1 as [|s segs Hs _ IH]; [done|]. cbn [fmap list_fmap concat].
  destruct s as [t|body|body]; cbn [segment_ok segment_text] in *.
  - rewrite scan_free by tauto. by rewrite IH.
  - rewrite (scan_block ToolCallHidden) by tauto. exact IH.
  - rewrite (scan_block ThinkHidden) by tauto. exact IH.
Qed.

(** ** Parsing *)

(** A thought is passed over when tool calls are taken out. *)
Lemma find_over_think body t : find body (open_tag TOOL_CALL_BLOCK) = None ->
  find (tagged THINK_BLOCK body ++ t) (open_tag TOOL_CALL_BLOCK) =
    Nat.add (length (tagged THINK_BLOCK body)) <$> find t (open_tag TOOL_CALL_BLOCK).
Proof.
  intros Hf. assert (tag_shape (open_tag TOOL_CALL_BLOCK) = true) as Hshape by by vm_compute.
  assert (forall x t, starts_with (lt_char :: x ++ t) (open_tag TOOL_CALL_BLOCK) = false -> lt_char ∉ x ->
    find ((lt_char :: x) ++ t) (open_tag TOOL_CALL_BLOCK) = Nat.add (S (length x)) <$> find t (open_tag TOOL_CALL_BLOCK)) as Hstep.
  { intros x t' E Hx. cbn [app find]. rewrite E, (find_free _ x) by done. by destruct (find t' _). }
  unfold tagged. rewrite <-!app_assoc.
  change (open_tag THINK_BLOCK) with (lt_char :: lit "think>"). rewrite Hstep; [|done|vm_compute; set_solver].
  rewrite find_skip; [|done|done|by right].
  change (close_tag THINK_BLOCK) with (lt_char :: lit "/think>"). rewrite Hstep; [|done|vm_compute; set_solver].
  rewrite <-!option_fmap_compose. destruct (find t _); [|done]. cbn [fmap option_fmap option_map compose]. f_equal.
  rewrite !length_app. cbn [length]. lia.
Qed.

Section parse.
Context {T : Type} (f : text -> option T).

Lemma stripped_tool body t s ps :
  find body (close_tag TOOL_CALL_BLOCK) = None -> stripped TOOL_CALL_BLOCK f t s ps ->
  stripped TOOL_CALL_BLOCK f (tagged TOOL_CALL_BLOCK body ++ t) s (option_list (f (trim body)) ++ ps).
Proof.
  intros Hf Hs. unfold tagged. rewrite <-!app_assoc.
  apply (stripped_block TOOL_CALL_BLOCK f [] body t s ps); [apply (find_here (open_tag TOOL_CALL_BLOCK))| |done].
  apply find_before; [|done]. apply tag_shape_tags. unfold VISIBLE_TAGS. set_solver.
Qed.

Lemma tools_stripped segs : Forall segment_ok segs ->
  stripped TOOL_CALL_BLOCK f (answer_text segs) (answer_text (List.filter not_tool segs)) (omap (f ∘ trim) (tool_bodies segs)).
Proof.
  unfold answer_text, tool_bodies. induction 1 as [|s segs Hs _ IH]; [by constructor|]. cbn [fmap list_fmap concat List.filter omap list_omap].
  destruct s as [t|body|body]; cbn [segment_ok segment_text not_tool] in *.
  - cbn [fmap list_fmap concat segment_text]. apply stripped_skip; [|exact IH]. apply find_tagless; [unfold VISIBLE_TAGS; set_solver|tauto].
  - apply (stripped_tool body _ _ (omap (f ∘ trim) (omap (fun s => match s with ToolBlock body => Some body | _ => None end) segs))) in IH; [|tauto].
    cbn [omap list_omap]. unfold compose at 1. by destruct (f (trim body)).
  - cbn [fmap list_fmap concat segment_text]. apply stripped_skip; [|exact IH]. apply find_over_think. tauto.
Qed.

End parse.

Lemma thinks_stripped {T} segs : Forall segment_ok segs -> forallb not_tool segs = true ->
  stripped THINK_BLOCK (fun _ => None : option T) (answer_text segs) (shown segs) [].
Proof.
  unfold answer_text, shown. induction 1 as [|s segs Hs _ IH]; [by constructor|]. cbn [fmap list_fmap concat forallb].
  rewrite andb_true_iff. intros [Ht Hrest]. specialize (IH Hrest). destruct s as [t|body|body]; cbn [segment_ok segment_text not_tool] in *.
  - apply stripped_skip; [|exact IH]. apply find_tagless; [unfold VISIBLE_TAGS; set_solver|tauto].
  - done.
  - unfold tagged. rewrite <-!app_assoc. apply (stripped_block THINK_BLOCK (fun _ => None) [] body _ _ []); [apply (find_here (open_tag THINK_BLOCK))| |done].
    apply find_before; [by vm_compute|tauto].
Qed.

(** ** Answers, streamed, parsed and rendered again *)



Local Open Scope nat_scope.

(** ** Trimming *)
Definition graphic (b : ascii) : bool := (33 <=? byte_of b) && (byte_of b <? 127).

(** Text that trimming leaves alone. *)
Definition bare (t : text) : Prop := t = [] \/ exists a b, head t = Some a /\ last t = Some b /\ graphic a = true /\ graphic b = true.

Definition starts_graphic (w : text) : bool := match w with a :: _ => graphic a | [] => true end.

Lemma trim_fuel_graphic fuel spaces t :
  forallb (fun w => negb (starts_graphic w)) spaces = true -> (t = [] \/ exists a, head t = Some a /\ graphic a = true) ->
  trim_fuel fuel spaces t = t.
Proof.
  intros Hsp Ht. destruct fuel as [|fuel]; [done|]. cbn. destruct (List.find (starts_with t) spaces) as [w|] eqn:E; [|done].
  exfalso. apply List.find_some in E as [Hin Hs]. rewrite forallb_forall in Hsp. specialize (Hsp w Hin).
  destruct w as [|a w]; [done|]. destruct Ht as [->|(b & Hb & Hg)]; [done|]. destruct t as [|c t]; [done|].
  injection Hb as ->. cbn in Hs, Hsp. apply andb_true_iff in Hs as [->%bool_decide_eq_true _]. by rewrite Hg in Hsp.
Qed.

Lemma trim_fuel_newlines k spaces : forall fuel t,
  forallb (fun w => negb (starts_graphic w)) spaces = true ->
  (forall t, List.find (starts_with (newline ++ t)) spaces = Some newline) -> k <= fuel ->
  (t = [] \/ exists a, head t = Some a /\ graphic a = true) -> trim_fuel fuel spaces (concat (replicate k newline) ++ t) = t.
Proof.
  induction k as [|k IH]; intros fuel t Hsp Hnl Hk Ht; [by apply trim_fuel_graphic|]. destruct fuel as [|fuel]; [lia|].
  cbn [trim_fuel replicate concat]. rewrite <-app_assoc, Hnl. change (length newline) with 1. cbn [drop newline app].
  apply IH; [done|done|lia|done].
Qed.

Lemma white_space_graphic : forallb (fun w => negb (starts_graphic w)) white_space = true /\
  forallb (fun w => negb (starts_graphic w)) (reverse <$> white_space) = true.
Proof. split; vm_compute; reflexivity. Qed.

Lemma white_space_newline t : List.find (starts_with (newline ++ t)) white_space = Some newline.
Proof. vm_compute. reflexivity. Qed.

Lemma white_space_newline_back t : List.find (starts_with (newline ++ t)) (reverse <$> white_space) = Some newline.
Proof. vm_compute. reflexivity. Qed.

Lemma newlines_reverse k : reverse (concat (replicate k newline)) = concat (replicate k newline).
Proof.
  assert (concat (replicate k newline) = replicate k "010"%char) as ->; [|apply reverse_replicate].
  induction k as [|k IH]; [done|]. cbn. by f_equal.
Qed.

Lemma trim_newlines j k t : bare t -> trim (concat (replicate j newline) ++ t ++ concat (replicate k newline)) = t.
Proof.
  intros Ht. destruct white_space_graphic as [Hg1 Hg2]. unfold trim, trim_start.
  assert (forall k, length (concat (replicate k newline)) = k) as Hlen.
  { intros n. induction n as [|n IH]; [done|]. cbn. by f_equal. }
  destruct Ht as [->|(a & b & Ha & Hl & Hga & Hgb)].
  - cbn [app]. assert (concat (replicate j newline) ++ concat (replicate k newline) = concat (replicate (j + k) newline) ++ []) as ->.
    { by rewrite replicate_add, concat_app, app_nil_r. }
    rewrite (trim_fuel_newlines (j + k)); [done|done|apply white_space_newline|rewrite app_nil_r, Hlen; lia|by left].
  - rewrite (trim_fuel_newlines j); [|done|apply white_space_newline|rewrite !length_app, !Hlen; lia|].
    2: { right. exists a. destruct t; [done|]. by injection Ha as ->. }
    unfold trim_end. rewrite reverse_app, newlines_reverse.
    rewrite (trim_fuel_newlines k); [apply reverse_involutive|done|apply white_space_newline_back|rewrite length_app, Hlen; lia|].
    right. exists b. apply last_Some in Hl as [t' ->]. by rewrite reverse_snoc.
Qed.

(** ** Streaming and parsing *)
Section answers.
Context `{SerdeJson}.

Lemma not_tool_filter segs : Forall segment_ok segs ->
  Forall segment_ok (List.filter not_tool segs) /\ forallb not_tool (List.filter not_tool segs) = true /\
  shown (List.filter not_tool segs) = shown segs.
Proof.
  unfold shown. induction 1 as [|s segs Hs _ (IH1 & IH2 & IH3)]; [done|]. cbn [List.filter fmap list_fmap concat].
  destruct s; cbn [not_tool]; cbn [fmap list_fmap concat forallb not_tool andb]; rewrite ?IH3; split_and!; try done; by constructor.
Qed.

Lemma parse_answer segs : Forall segment_ok segs ->
  parse_tool_calls (answer_text segs) = Done (mkParsed (trim (shown segs)) (omap (parse_block ∘ trim) (tool_bodies segs))).
Proof.
  intros Hok. destruct (not_tool_filter segs Hok) as (Hok' & Hnt & Hshown).
  destruct (stripped_run TOOL_CALL_BLOCK parse_block tool_block_ok _ _ _ (answer_utf8 segs Hok) (tools_stripped parse_block segs Hok)) as [Hrun _].
  destruct (stripped_run THINK_BLOCK (fun _ => None : option unit) think_block_ok _ _ _
    (answer_utf8 _ Hok') (thinks_stripped _ Hok' Hnt)) as [Hrun' _].
  unfold parse_tool_calls. rewrite Hrun. cbn [mbind res_bind fst snd]. unfold strip_all. rewrite Hrun'. cbn. by rewrite Hshown.
Qed.
End answers.

(** C33: streaming and parsing agree on an answer made of plain text in which no
    tag begins, closed tool calls, and closed thoughts that contain no opening
    tag of a tool call: however it is cut into chunks of whole characters, the
    stream shows the plain text, and parsing returns that text trimmed, with one
    tool call for each block whose body parses, in order. On answers of other
    shapes the two differ ([open_blocks_stream_and_parse_apart]). *)
Theorem answer_streams_as_parsed `{SerdeJson} segs chunks :
  Forall segment_ok segs -> Forall utf8 chunks -> concat chunks = answer_text segs ->
  stream_text chunks = Done (shown segs) /\
  parse_tool_calls (answer_text segs) = Done (mkParsed (trim (shown segs)) (omap (parse_block ∘ trim) (tool_bodies segs))).
Proof.
  intros Hok Hutf Hc. split; [|by apply parse_answer]. rewrite <-(scan_segments segs Hok), <-Hc.
  apply chunks_scanned; done.
Qed.

(** ** Rendering and parsing again *)
Lemma find_newline x p : "010"%char ∉ p -> p <> [] -> find x p = None -> find (x ++ newline) p = None.
Proof.
  intros Hnl Hne Hx. apply find_None. intros j Hj. unfold at_pos. rewrite find_None in Hx. unfold at_pos in Hx.
  destruct (starts_with (drop j (x ++ newline)) p) eqn:E; [|done]. exfalso.
  assert (0 < length p) by (destruct p; [done|cbn; lia]). pose proof (starts_with_length _ _ E) as Hlen.
  rewrite length_drop, length_app in Hlen. cbn in Hlen. destruct (decide (j + length p <= length x)) as [Hle|Hgt].
  - rewrite at_pos_app in E by done. rewrite Hx in E by lia. done.
  - apply starts_with_prefix in E as [k Hk]. apply Hnl. apply list_elem_of_lookup. exists (length x - j).
    rewrite <-(lookup_app_l p k) by lia. rewrite <-Hk, lookup_drop. replace (j + (length x - j)) with (length x) by lia.
    rewrite lookup_app_r, Nat.sub_diag by done. done.
Qed.

Section round_trip.
Context `{SerdeJson}.

(** What [serde_json] is relied on for: the payload of the call is an object
    in braces that parses to the value it was printed from. And the payload
    does not contain the closing tag. *)
Record call_ok (c : ToolCall) : Prop := mkCallOk {
  co_text : exists m, prompt_payload c = lit "{" ++ m ++ lit "}";
  co_utf8 : utf8 (prompt_payload c);
  co_parse : from_str (prompt_payload c) = Some (payload_value c);
  co_name : value_get (lit "name") (payload_value c) ≫= as_str = Some (call_name c);
  co_args : value_get (lit "arguments") (payload_value c) = Some (arguments c);
  co_close : find (prompt_payload c) (close_tag TOOL_CALL_BLOCK) = None;
}.

Definition call_segment (c : ToolCall) : segment := ToolBlock (newline ++ prompt_payload c ++ newline).

Lemma newline_utf8 : utf8 newline.
Proof. by apply ascii_utf8. Qed.

Lemma call_segment_ok c : call_ok c -> segment_ok (call_segment c).
Proof.
  intros [_ Hu _ _ _ Hc]. cbn [call_segment segment_ok]. split.
  - apply utf8_app; [apply newline_utf8|]. apply utf8_app; [done|apply newline_utf8].
  - rewrite find_free; [|by vm_compute|vm_compute; set_solver]. rewrite find_newline; [done|vm_compute; set_solver|done|done].
Qed.

Lemma call_segment_text c : segment_text (call_segment c) = call_text c.
Proof. unfold call_text. cbn [call_segment segment_text]. unfold tagged. by rewrite <-!app_assoc. Qed.

Lemma call_parses c : call_ok c -> parse_block (trim (newline ++ prompt_payload c ++ newline)) = Some c.
Proof.
  intros [[m Hm] _ Hp Hn Ha _].
  assert (trim (newline ++ prompt_payload c ++ newline) = prompt_payload c) as ->.
  { change newline with (concat (replicate 1 newline)). apply trim_newlines. right. exists "{"%char, "}"%char. rewrite Hm.
    split_and!; [done|rewrite app_assoc; change (lit "}") with ["}"%char]; apply last_snoc|by vm_compute|by vm_compute]. }
  unfold parse_block. rewrite Hp. cbn [mbind option_bind]. rewrite Hn, Ha. by destruct c.
Qed.

(** The answer that renders as an assistant's turn. *)
Definition answer_segments (said : text) (calls : list ToolCall) : list segment :=
  Plain said ::
  match calls with
  | [] => []
  | c :: calls =>
      Plain (if bool_decide (said = []) || ends_with said newline then [] else newline) :: call_segment c ::
      concat ((fun c => [Plain newline; call_segment c]) <$> calls)
  end.

Lemma newline_plain : segment_ok (Plain newline).
Proof. split; [apply newline_utf8|by vm_compute]. Qed.

Lemma answer_segments_ok said calls : utf8 said -> tagless said = true -> Forall call_ok calls -> Forall segment_ok (answer_segments said calls).
Proof.
  intros Hu Hlt Hcalls. constructor; [done|]. destruct Hcalls as [|c calls Hc Hcalls]; [constructor|]. constructor.
  { destruct (_ || _); [split; [constructor|done]|apply newline_plain]. }
  constructor; [by apply call_segment_ok|]. induction Hcalls; cbn; [constructor|].
  constructor; [apply newline_plain|]. constructor; [by apply call_segment_ok|done].
Qed.

Lemma answer_segments_text said calls : answer_text (answer_segments said calls) = assistant_body said calls.
Proof.
  unfold answer_text, answer_segments, assistant_body. cbn [fmap list_fmap concat segment_text]. f_equal. destruct calls as [|c calls]; [done|].
  cbn [fmap list_fmap concat segment_text]. rewrite call_segment_text. do 2 f_equal.
  induction calls as [|c' calls IH]; [done|]. cbn [fmap list_fmap concat app segment_text]. rewrite call_segment_text, IH. by rewrite <-!app_assoc.
Qed.

Lemma answer_segments_shown said calls : exists k, shown (answer_segments said calls) = said ++ concat (replicate k newline).
Proof.
  unfold shown, answer_segments. cbn [fmap list_fmap concat]. destruct calls as [|c calls]; [by exists 0|].
  cbn [fmap list_fmap concat].
  assert (exists k, concat ((fun s => match s with Plain t => t | _ => [] end) <$> concat ((fun c => [Plain newline; call_segment c]) <$> calls)) =
    concat (replicate k newline)) as [k Hk].
  { induction calls as [|c' calls [k IH]]; [by exists 0|]. exists (S k). cbn [fmap list_fmap concat app replicate]. by rewrite IH. }
  rewrite Hk. destruct (_ || _); [by exists k|by exists (S k)].
Qed.

Lemma answer_segments_calls said calls : Forall call_ok calls ->
  omap (parse_block ∘ trim) (tool_bodies (answer_segments said calls)) = calls.
Proof.
  intros Hcalls. unfold tool_bodies, answer_segments. cbn [omap list_omap]. destruct Hcalls as [|c calls Hc Hcalls]; [done|].
  cbn [omap list_omap call_segment]. unfold compose at 1. rewrite (call_parses c Hc). f_equal.
  induction Hcalls as [|c' calls Hc' Hcalls IH]; [done|]. cbn [fmap list_fmap concat app omap list_omap call_segment].
  unfold compose at 1. rewrite (call_parses c' Hc'). f_equal. exact IH.
Qed.
End round_trip.

(** C34: an assistant's turn parses back: what [append_assistant_content] adds
    at the start of a line, parsed as an answer, gives the content and the
    tool calls it was rendered from. This holds when no tag begins in the
    content, the content is empty or begins and ends with a visible ASCII
    character, and each call's payload is a JSON object that parses to the call
    and does not contain the closing tag; a call whose argument does contain it
    is lost ([open_blocks_stream_and_parse_apart]). *)
Theorem assistant_turn_parses_back `{SerdeJson} p said calls answer :
  utf8 said -> tagless said = true -> bare said -> Forall call_ok calls ->
  append_assistant_content (p ++ newline) said calls = (p ++ newline) ++ answer ->
  parse_tool_calls answer = Done (mkParsed said calls).
Proof.
  intros Hu Hlt Hbare Hcalls. rewrite append_assistant, <-app_assoc. intros E.
  apply app_inv_head in E. apply app_inv_head in E as <-. rewrite <-answer_segments_text.
  rewrite (parse_answer _ (answer_segments_ok said calls Hu Hlt Hcalls)). rewrite (answer_segments_calls said calls Hcalls).
  destruct (answer_segments_shown said calls) as [k ->]. do 2 f_equal. by apply (trim_newlines 0 k).
Qed.

(** ** Answers, by example

    A small JSON for one tool, with runs that apply the properties, and
    answers that streaming and parsing treat differently. *)


Local Open Scope nat_scope.

(** ** A JSON of strings and objects, without escapes *)
Inductive toy := ToyString (t : text) | ToyArray (l : list toy) | ToyObject (l : list (text * toy)).

Definition toy_quoted (t : text) : text := quote ++ t ++ quote.
Fixpoint toy_print (v : toy) : text :=
  match v with
  | ToyString t => toy_quoted t
  | ToyArray _ => lit "[]"
  | ToyObject l => lit "{" ++ foldr (fun '(k, v) rest => toy_quoted k ++ lit ":" ++ toy_print v ++ lit "," ++ rest) [] l ++ lit "}"
  end.

Definition toy_get (k : text) (v : toy) : option toy :=
  match v with ToyObject l => snd <$> List.find (fun kv => bool_decide (kv.1 = k)) (reverse l) | _ => None end.

(** The values it can read back. *)
Definition toy_known (name arg : text) : toy := ToyObject [(lit "name", ToyString name); (lit "arguments", ToyString arg)].
Definition toy_readable : list toy := [toy_known (lit "shell") (lit "pwd"); toy_known (lit "shell") (lit "</tool_call>")].

#[export] Instance toy_json : SerdeJson := {|
  Value := toy;
  value_string := ToyString;
  value_array := ToyArray;
  value_object := ToyObject;
  value_get := toy_get;
  as_str v := match v with ToyString t => Some t | _ => None end;
  as_array v := match v with ToyArray l => Some l | _ => None end;
  as_object v := match v with ToyObject l => Some l | _ => None end;
  to_string := toy_print;
  from_str t := List.find (fun v => bool_decide (toy_print v = t)) toy_readable;
|}.

Definition pwd_call : ToolCall := mkToolCall (lit "shell") (ToyString (lit "pwd")).
Definition closing_call : ToolCall := mkToolCall (lit "shell") (ToyString (lit "</tool_call>")).

Lemma utf8_lit s : forallb is_ascii_byte (lit s) = true -> utf8 (lit s).
Proof. apply ascii_utf8. Qed.

Lemma pwd_call_ok : call_ok pwd_call.
Proof.
  constructor; try by vm_compute.
  - eexists. unfold prompt_payload, to_string. cbn -[lit app toy_quoted]. reflexivity.
  - apply ascii_utf8. by vm_compute.
Qed.

(** ** The stream *)
Definition example_chunks : list text :=
  [lit "Hello<th"; lit "ink>secret</th"; lit "ink> world<tool"; lit "_call>{}</tool_call>!"].

Lemma example_chunks_utf8 : Forall utf8 example_chunks.
Proof. unfold example_chunks. repeat (apply Forall_cons; split; [apply utf8_lit; by vm_compute|]). constructor. Qed.

Lemma visible_stream_chunk_invariant_witness : Forall utf8 example_chunks /\ stream_text example_chunks = Done (lit "Hello world!").
Proof.
  split; [apply example_chunks_utf8|].
  rewrite (proj1 (visible_stream_chunk_invariant example_chunks example_chunks_utf8)). by vm_compute.
Defined.

Lemma visible_stream_holds_back_little_witness :
  exists s out, push_all [lit "abc<th"] stream_default = Done (s, out) /\ out `prefix_of` lit "abc" /\ length (pending s) < 12.
Proof.
  destruct (visible_stream_holds_back_little [lit "abc<th"]) as (s & out & Hrun & Hl & Hp).
  { repeat constructor. apply utf8_lit. by vm_compute. }
  exists s, out. split; [exact Hrun|]. split; [|exact Hl]. specialize (Hp (lit "ink>")). vm_compute in Hp |- *. exact Hp.
Defined.

Example angle_brackets_are_plain :
  tagless (lit "a < b, <em>not</em> a <tool>") = true /\ tagless (lit "a <thin") = false.
Proof. by split; vm_compute. Qed.

(** ** Segments *)
Definition example_segments : list segment :=
  [Plain (lit "Hello"); ThinkBlock (lit "secret"); Plain (lit " world"); ToolBlock (lit "{}"); Plain (lit "!")].

Lemma answer_streams_as_parsed_witness :
  stream_text example_chunks = Done (lit "Hello world!") /\
  parse_tool_calls (answer_text example_segments) = Done (mkParsed (lit "Hello world!") []).
Proof.
  destruct (answer_streams_as_parsed example_segments example_chunks) as [H1 H2].
  - repeat (apply Forall_cons; split; [cbn [segment_ok]; split_and?; first [apply utf8_lit; by vm_compute|by vm_compute|vm_compute; set_solver]|]). constructor.
  - apply example_chunks_utf8.
  - by vm_compute.
  - split; [rewrite H1; reflexivity|rewrite H2; reflexivity].
Defined.

Lemma assistant_turn_parses_back_witness :
  parse_tool_calls (assistant_body (lit "Checking.") [pwd_call]) = Done (mkParsed (lit "Checking.") [pwd_call]).
Proof.
  apply (assistant_turn_parses_back [] (lit "Checking.") [pwd_call]).
  - apply utf8_lit. by vm_compute.
  - vm_compute. set_solver.
  - right. exists "C"%char, "."%char. split_and!; by vm_compute.
  - constructor; [apply pwd_call_ok|constructor].
  - by vm_compute.
Defined.

(** ** Where they differ *)

(** On answers out of that shape the two paths part. A block that is not
    closed is hidden by the stream, but parsing keeps its text; a tool call
    inside a thought is hidden by the stream, but parsing returns it; a stray
    closing tag is dropped by the stream and kept by parsing. And a call whose
    argument contains the closing tag does not survive its own rendering. *)
Theorem open_blocks_stream_and_parse_apart :
  (stream_text [lit "a<think>b"] = Done (lit "a") /\ parse_tool_calls (lit "a<think>b") = Done (mkParsed (lit "ab") [])) /\
  (let t := lit "<think>x<tool_call>" ++ prompt_payload pwd_call ++ lit "</tool_call></think>y" in
   stream_text [t] = Done (lit "y") /\ parse_tool_calls t = Done (mkParsed (lit "y") [pwd_call])) /\
  (stream_text [lit "a</think>b"] = Done (lit "ab") /\ parse_tool_calls (lit "a</think>b") = Done (mkParsed (lit "a</think>b") [])) /\
  (exists said, parse_tool_calls (assistant_body (lit "Checking.") [closing_call]) = Done (mkParsed said []) /\
   from_str (prompt_payload closing_call) = Some (payload_value closing_call)).
Proof. split_and!; try reflexivity; [split; reflexivity|eexists; split; reflexivity]. Qed.
