(* ===== verification/ParallelLayout.v ===== *)
(** * Ranks and their groups

    Models the CPU side of [infer/src/tensor_parallel.rs] and
    [infer/src/distributed/parallel_state.rs]: how dimensions are sharded over
    tensor-parallel ranks, how a world rank decomposes into coordinates, and
    the groups each rank belongs to. Sizes are [nat]; the group builders are
    called on validated configurations, where no divisor is zero. *)


From Stdlib Require Import Sorted.
From S2P Require Import Prelude.

(** ** Shards *)
Record TpConfig := mkTpConfig { tp_world_size : nat; tp_config_rank : nat }.

Inductive layout_error :=
  | WorldSizeZero
  | RankOutOfWorld (rank world_size : nat)
  | NotDivisible (n d : nat)
  | AxisZero
  | NotInGroup (rank : nat)
  | NoGroup (rank : nat)
  | NotInitialized
  | NoExperts
  | ExpertsNotDivisible (num_experts world_size : nat)
  | ExpertOutOfRange (expert : Z)
  | ExpertCountMismatch (got expected : nat)
  | TokenOutOfRange (token len : nat)
  | RowCountMismatch (tokens rows : nat)
  | HiddenDimMismatch (got expected : nat)
  | NoMatchingRoute (token expert : nat)
  | NoExpertOutput (token expert : nat)
  | StageCountZero
  | StageOutOfRange (stage count : nat)
  | TooManyStages (count world_size : nat)
  | NoNextStage (stage : nat)
  | NoPreviousStage (stage : nat)
  | WrongBoundary (source target : nat).

Definition TpConfig_single : TpConfig := mkTpConfig 1 0.
Definition TpConfig_validate (tp : TpConfig) : unit + layout_error :=
  if bool_decide (tp_world_size tp = 0) then inr WorldSizeZero
  else if bool_decide (tp_world_size tp <= tp_config_rank tp) then inr (RankOutOfWorld (tp_config_rank tp) (tp_world_size tp))
  else inl tt.
Definition TpConfig_new (world_size rank : nat) : TpConfig + layout_error :=
  if bool_decide (world_size = 0) then inr WorldSizeZero
  else if bool_decide (world_size <= rank) then inr (RankOutOfWorld rank world_size)
  else inl (mkTpConfig world_size rank).
Definition is_single (tp : TpConfig) : bool := bool_decide (tp_world_size tp = 1).

Record ShardingSpec := mkShard { offset : nat; size : nat; total : nat }.
Definition shard_end (s : ShardingSpec) : nat := offset s + size s.
Definition shard_range (s : ShardingSpec) : list nat := seq (offset s) (shard_end s - offset s).
Definition is_full (s : ShardingSpec) : bool := bool_decide (offset s = 0 /\ size s = total s).

Definition column_shard (total : nat) (tp : TpConfig) : res ShardingSpec :=
  if bool_decide (total < tp_world_size tp) then Panics
  else if bool_decide (tp_world_size tp = 0) then Panics
  else
    let base := total / tp_world_size tp in
    let remainder := total mod tp_world_size tp in
    Done (mkShard (tp_config_rank tp * base)
      (if bool_decide (tp_config_rank tp = tp_world_size tp - 1) then base + remainder else base) total).
Definition row_shard (total : nat) (tp : TpConfig) : res ShardingSpec := column_shard total tp.

(** [is_multiple_of]: only zero is a multiple of zero. *)
Definition is_multiple_of (n d : nat) : bool :=
  if bool_decide (d = 0) then bool_decide (n = 0) else bool_decide (n mod d = 0).

Definition head_shard (num_q_heads num_kv_heads : nat) (tp : TpConfig) : res (nat * nat + layout_error) :=
  if negb (is_multiple_of num_q_heads (tp_world_size tp)) then Done (inr (NotDivisible num_q_heads (tp_world_size tp)))
  else if negb (is_multiple_of num_kv_heads (tp_world_size tp)) then Done (inr (NotDivisible num_kv_heads (tp_world_size tp)))
  else if bool_decide (tp_world_size tp = 0) then Panics
  else Done (inl (num_q_heads / tp_world_size tp, num_kv_heads / tp_world_size tp)).

(** ** Axes and coordinates *)
Record MultiAxisConfig := mkAxes {
  tp_size : nat;
  pp_size : nat;
  ep_size : nat;
  attn_dp_size : nat;
  attn_cp_size : nat;
  moe_dp_size : nat;
}.
Definition axes_single : MultiAxisConfig := mkAxes 1 1 1 1 1 1.

Definition validate (c : MultiAxisConfig) : unit + layout_error :=
  if bool_decide (tp_size c = 0 \/ pp_size c = 0 \/ ep_size c = 0 \/ attn_dp_size c = 0 \/ attn_cp_size c = 0 \/ moe_dp_size c = 0)
  then inr AxisZero
  else if negb (is_multiple_of (tp_size c) (attn_dp_size c * attn_cp_size c))
  then inr (NotDivisible (tp_size c) (attn_dp_size c * attn_cp_size c))
  else if negb (is_multiple_of (tp_size c) (ep_size c * moe_dp_size c))
  then inr (NotDivisible (tp_size c) (ep_size c * moe_dp_size c))
  else inl tt.

Definition world_size (c : MultiAxisConfig) : nat := tp_size c * pp_size c.
Definition attn_tp_size (c : MultiAxisConfig) : nat := tp_size c / attn_dp_size c / attn_cp_size c.
Definition moe_tp_size (c : MultiAxisConfig) : nat := tp_size c / ep_size c / moe_dp_size c.

Record RankCoord := mkCoord {
  world_rank : nat;
  tp_rank : nat;
  pp_rank : nat;
  attn_tp_rank : nat;
  attn_dp_rank : nat;
  attn_cp_rank : nat;
  moe_tp_rank : nat;
  moe_ep_rank : nat;
  moe_dp_rank : nat;
}.

Definition from_world_rank (c : MultiAxisConfig) (rank : nat) : RankCoord + layout_error :=
  match validate c with
  | inr e => inr e
  | inl _ =>
      let world := world_size c in
      if bool_decide (world <= rank) then inr (RankOutOfWorld rank world)
      else
        let tp_rank := rank mod tp_size c in
        let attn_tp := attn_tp_size c in
        let moe_tp := moe_tp_size c in
        inl (mkCoord rank tp_rank (rank / tp_size c)
          (tp_rank mod attn_tp) (tp_rank / (attn_tp * attn_cp_size c)) ((tp_rank / attn_tp) mod attn_cp_size c)
          (tp_rank mod moe_tp) ((tp_rank / moe_tp) mod ep_size c) (tp_rank / (moe_tp * ep_size c)))
  end.

(** ** Groups *)

(** [(st..en).collect()] and [(st..en).step_by(step).collect()]. *)
Definition range (st en : nat) : list nat := seq st (en - st).
Definition step_by (st en step : nat) : list nat := (fun k => st + k * step) <$> seq 0 (div_ceil (en - st) step).

(** Nested loops that push one group each. *)
Definition loop {A} (n : nat) (body : nat -> list A) : list A := concat (body <$> seq 0 n).

Definition num_tp_groups (c : MultiAxisConfig) : nat := world_size c / tp_size c.

Definition build_tp_groups (c : MultiAxisConfig) : list (list nat) :=
  loop (num_tp_groups c) (fun g => [range (g * tp_size c) ((g + 1) * tp_size c)]).

Definition build_pp_groups (c : MultiAxisConfig) : list (list nat) :=
  let world := world_size c in
  let num_pp_groups := world / pp_size c in
  loop num_pp_groups (fun g => [step_by g world num_pp_groups]).

Definition build_attn_cp_groups (c : MultiAxisConfig) : list (list nat) :=
  if bool_decide (attn_cp_size c = tp_size c) then build_tp_groups c
  else
    let attn_tp := attn_tp_size c in
    loop (num_tp_groups c) (fun g =>
      loop (attn_dp_size c) (fun dp =>
        loop attn_tp (fun i =>
          [step_by (g * tp_size c + dp * attn_tp * attn_cp_size c + i)
                   (g * tp_size c + (dp + 1) * attn_tp * attn_cp_size c + i) attn_tp]))).

Definition build_attn_tp_groups (c : MultiAxisConfig) : list (list nat) :=
  let attn_tp := attn_tp_size c in
  if bool_decide (attn_tp = tp_size c) then build_tp_groups c
  else
    loop (num_tp_groups c) (fun g =>
      loop (attn_cp_size c * attn_dp_size c) (fun i =>
        [range (g * tp_size c + i * attn_tp) (g * tp_size c + (i + 1) * attn_tp)])).

Definition build_attn_dp_groups (c : MultiAxisConfig) : list (list nat) :=
  if bool_decide (attn_dp_size c = 1) then (fun r => [r]) <$> seq 0 (world_size c)
  else
    let attn_tp := attn_tp_size c in
    let stride := attn_tp * attn_cp_size c in
    loop (num_tp_groups c) (fun g =>
      loop (attn_cp_size c) (fun cp =>
        loop attn_tp (fun i =>
          [step_by (g * tp_size c + cp * attn_tp + i) (g * tp_size c + tp_size c) stride]))).

Definition build_moe_dp_groups (c : MultiAxisConfig) : list (list nat) :=
  if bool_decide (moe_dp_size c < attn_cp_size c) then build_attn_cp_groups c
  else if bool_decide (moe_dp_size c = tp_size c) then build_tp_groups c
  else
    let moe_tp := moe_tp_size c in
    let stride := moe_tp * ep_size c in
    loop (num_tp_groups c) (fun g =>
      loop (moe_tp * ep_size c) (fun i =>
        [step_by (g * tp_size c + i) ((g + 1) * tp_size c + i) stride])).

Definition build_moe_ep_groups (c : MultiAxisConfig) : list (list nat) :=
  if bool_decide (ep_size c = tp_size c) then build_tp_groups c
  else
    let moe_tp := moe_tp_size c in
    loop (num_tp_groups c) (fun g =>
      loop (moe_dp_size c) (fun dp =>
        loop moe_tp (fun i =>
          let st := g * tp_size c + dp * ep_size c * moe_tp + i in
          [step_by st (st + ep_size c * moe_tp) moe_tp]))).

Definition build_moe_tp_groups (c : MultiAxisConfig) : list (list nat) :=
  let moe_tp := moe_tp_size c in
  if bool_decide (moe_tp = tp_size c) then build_tp_groups c
  else
    loop (num_tp_groups c) (fun g =>
      loop (ep_size c * moe_dp_size c) (fun i =>
        [range (g * tp_size c + i * moe_tp) (g * tp_size c + (i + 1) * moe_tp)])).

(** ** The parallel state of a rank *)
Inductive ParallelGroupKind :=
  | World | Tensor | Pipeline | Expert | AttentionTensor | AttentionData | AttentionContext | MoeTensor | MoeExpert | MoeData.

Record RankGroup := mkRankGroup { kind : ParallelGroupKind; ranks : list nat; rank : nat; rank_in_group : nat }.

Definition position (l : list nat) (x : nat) : option nat := fst <$> list_find (fun y => y = x) l.

Definition RankGroup_new (k : ParallelGroupKind) (ranks : list nat) (rank : nat) : RankGroup + layout_error :=
  match position ranks rank with
  | Some i => inl (mkRankGroup k ranks rank i)
  | None => inr (NotInGroup rank)
  end.

Definition group_world_size (g : RankGroup) : nat := length (ranks g).
Definition first_rank (g : RankGroup) : res nat := index (ranks g) 0.
Definition last_rank (g : RankGroup) : res nat := index (ranks g) (length (ranks g) - 1).
Definition is_first_rank (g : RankGroup) : res bool := r ← first_rank g; Done (bool_decide (rank g = r)).
Definition is_last_rank (g : RankGroup) : res bool := r ← last_rank g; Done (bool_decide (rank g = r)).

Definition group_containing (k : ParallelGroupKind) (groups : list (list nat)) (rank : nat) : RankGroup + layout_error :=
  match List.find (fun g => bool_decide (rank ∈ g)) groups with
  | Some ranks => RankGroup_new k ranks rank
  | None => inr (NoGroup rank)
  end.

Definition groups_of (c : MultiAxisConfig) (k : ParallelGroupKind) : list (list nat) :=
  match k with
  | World => [seq 0 (world_size c)]
  | Tensor => build_tp_groups c
  | Pipeline => build_pp_groups c
  | Expert | MoeExpert => build_moe_ep_groups c
  | AttentionTensor => build_attn_tp_groups c
  | AttentionData => build_attn_dp_groups c
  | AttentionContext => build_attn_cp_groups c
  | MoeTensor => build_moe_tp_groups c
  | MoeData => build_moe_dp_groups c
  end.

Record ParallelState := mkParallelState {
  config : MultiAxisConfig;
  coord : RankCoord;
  world_group : RankGroup;
  tp_group : RankGroup;
  pp_group : RankGroup;
  ep_group : RankGroup;
  attn_tp_group : RankGroup;
  attn_dp_group : RankGroup;
  attn_cp_group : RankGroup;
  moe_tp_group : RankGroup;
  moe_ep_group : RankGroup;
  moe_dp_group : RankGroup;
}.

(** [r?] for a [Result]. *)
Definition sum_bind {A B} (r : A + layout_error) (k : A -> B + layout_error) : B + layout_error :=
  match r with inl a => k a | inr e => inr e end.

Definition ParallelState_new (c : MultiAxisConfig) (rank : nat) : ParallelState + layout_error :=
  sum_bind (validate c) (fun _ =>
  sum_bind (from_world_rank c rank) (fun coord =>
  sum_bind (RankGroup_new World (seq 0 (world_size c)) rank) (fun world =>
  sum_bind (group_containing Tensor (build_tp_groups c) rank) (fun tp =>
  sum_bind (group_containing Pipeline (build_pp_groups c) rank) (fun pp =>
  sum_bind (group_containing Expert (build_moe_ep_groups c) rank) (fun ep =>
  sum_bind (group_containing AttentionTensor (build_attn_tp_groups c) rank) (fun attn_tp =>
  sum_bind (group_containing AttentionData (build_attn_dp_groups c) rank) (fun attn_dp =>
  sum_bind (group_containing AttentionContext (build_attn_cp_groups c) rank) (fun attn_cp =>
  sum_bind (group_containing MoeTensor (build_moe_tp_groups c) rank) (fun moe_tp =>
  sum_bind (group_containing MoeExpert (build_moe_ep_groups c) rank) (fun moe_ep =>
  sum_bind (group_containing MoeData (build_moe_dp_groups c) rank) (fun moe_dp =>
  inl (mkParallelState c coord world tp pp ep attn_tp attn_dp attn_cp moe_tp moe_ep moe_dp))))))))))))).

Definition group_of (s : ParallelState) (k : ParallelGroupKind) : RankGroup :=
  match k with
  | World => world_group s
  | Tensor => tp_group s
  | Pipeline => pp_group s
  | Expert => ep_group s
  | AttentionTensor => attn_tp_group s
  | AttentionData => attn_dp_group s
  | AttentionContext => attn_cp_group s
  | MoeTensor => moe_tp_group s
  | MoeExpert => moe_ep_group s
  | MoeData => moe_dp_group s
  end.

(** The state of the calling thread. *)
Definition initialize_model_parallel (c : MultiAxisConfig) (rank : nat) (slot : option ParallelState)
  : option ParallelState * (unit + layout_error) :=
  match ParallelState_new c rank with
  | inl s => (Some s, inl tt)
  | inr e => (slot, inr e)
  end.
Definition destroy_model_parallel (_ : option ParallelState) : option ParallelState := None.
Definition with_parallel_state {T} (f : ParallelState -> T) (slot : option ParallelState) : T + layout_error :=
  match slot with Some s => inl (f s) | None => inr NotInitialized end.
Definition get_group (k : ParallelGroupKind) (slot : option ParallelState) : RankGroup + layout_error :=
  with_parallel_state (fun s => group_of s k) slot.

(** ** The groups of a layout and their coordinates

    Every builder makes a family of strided groups: blocks of [n * s] ranks,
    in each block one group per residue modulo [s]. *)


(** ** Loops *)
Lemma loop_ext {A} n (f g : nat -> list A) : (forall i, i < n -> f i = g i) -> loop n f = loop n g.
Proof.
  intros H. unfold loop. f_equal. apply list_fmap_ext. intros i j Hj. apply H.
  apply list_elem_of_lookup_2, elem_of_seq in Hj. lia.
Qed.

Lemma elem_of_loop {A} n (f : nat -> list A) x : x ∈ loop n f <-> exists i, i < n /\ x ∈ f i.
Proof.
  unfold loop. rewrite list_elem_of_In, in_concat. split.
  - intros (l & Hl & Hx). apply list_elem_of_In, list_elem_of_fmap in Hl as (i & -> & Hi%elem_of_seq).
    exists i. rewrite list_elem_of_In. split; [lia|done].
  - intros (i & Hi & Hx). exists (f i). rewrite <-!list_elem_of_In. split; [|done].
    apply list_elem_of_fmap. exists i. split; [done|]. apply elem_of_seq. lia.
Qed.

Lemma loop_S {A} n (f : nat -> list A) : loop (S n) f = loop n f ++ f n.
Proof. unfold loop. rewrite seq_S, fmap_app, concat_app. cbn. by rewrite app_nil_r. Qed.

Lemma loop_add {A} m n (f : nat -> list A) : loop (m + n) f = loop m f ++ loop n (fun i => f (m + i)).
Proof.
  induction n as [|n IH]; [by rewrite Nat.add_0_r; cbn; rewrite app_nil_r|].
  rewrite Nat.add_succ_r, !loop_S, IH. by rewrite app_assoc.
Qed.

Lemma loop_mul {A} m n (f : nat -> list A) : loop (m * n) f = loop m (fun g => loop n (fun i => f (g * n + i))).
Proof. induction m as [|m IH]; [done|]. rewrite loop_S, <-IH, (Nat.mul_comm (S m)), Nat.mul_succ_r, loop_add. by rewrite (Nat.mul_comm n). Qed.

Lemma loop_1 {A} (f : nat -> list A) : loop 1 f = f 0.
Proof. unfold loop. cbn. apply app_nil_r. Qed.

Lemma loop_singles {A} n (f : nat -> A) : loop n (fun i => [f i]) = f <$> seq 0 n.
Proof. induction n as [|n IH]; [done|]. by rewrite loop_S, IH, seq_S, fmap_app. Qed.

(** ** Strided families *)
Definition strided (start s n : nat) : list nat := (fun k => start + k * s) <$> seq 0 n.
Definition family (Q n s : nat) : list (list nat) := loop Q (fun q => loop s (fun j => [strided (q * (n * s) + j) s n])).

Lemma range_strided st n : range st (st + n) = strided st 1 n.
Proof.
  unfold range, strided. replace (st + n - st) with n by lia. rewrite <-(Nat.add_0_r st) at 1. rewrite <-fmap_add_seq.
  apply list_fmap_ext. intros. lia.
Qed.

Lemma step_by_strided st en s n : 0 < s -> st + n * s < en + s -> en <= st + n * s -> 0 < n -> step_by st en s = strided st s n.
Proof.
  intros Hs Hlt Hle Hn. unfold step_by, strided. assert (div_ceil (en - st) s = n) as ->; [|done].
  pose proof (div_ceil_spec (en - st) s Hs) as [H1 H2]. apply Nat.le_antisymm; [apply div_ceil_le; [done|lia]|].
  assert ((n - 1) * s < div_ceil (en - st) s * s) as H3; [|apply Nat.mul_lt_mono_pos_r in H3; lia].
  destruct n as [|n]; [lia|]. cbn in *. rewrite Nat.sub_0_r. lia.
Qed.

Lemma elem_of_strided st s k r : r ∈ strided st s k <-> exists i, i < k /\ r = st + i * s.
Proof.
  unfold strided. rewrite list_elem_of_fmap. setoid_rewrite elem_of_seq. split; intros (i & ? & ?); exists i; (split; [lia|lia]).
Qed.

Lemma strided_lookup st s k i : i < k -> strided st s k !! i = Some (st + i * s).
Proof. intros Hi. unfold strided. by rewrite list_lookup_fmap, lookup_seq_lt. Qed.

Section family.
Context (Q n s : nat).
Hypotheses (Hn : 0 < n) (Hs : 0 < s).

Definition member_group (r : nat) : list nat := strided (r / (n * s) * (n * s) + r mod s) s n.

(** The position of a rank within its block. *)
Lemma block_split r : r = r / (n * s) * (n * s) + r mod s + (r / s) mod n * s.
Proof using Hn Hs.
  rewrite (Nat.mul_comm n s), <-Nat.Div0.div_div.
  pose proof (Nat.div_mod_eq r s) as H1. pose proof (Nat.div_mod_eq (r / s) n) as H2.
  rewrite H1 at 1. rewrite H2 at 1. nia.
Qed.

Lemma block_of q j k : j < s -> k < n -> let r := q * (n * s) + j + k * s in r / (n * s) = q /\ r mod s = j /\ (r / s) mod n = k.
Proof using Hn Hs.
  intros Hj Hk r. assert (r = (q * n + k) * s + j) as E by (subst r; nia).
  assert (r / s = q * n + k) as Es by (rewrite E; rewrite Nat.div_add_l, Nat.div_small by lia; lia).
  split_and!.
  - rewrite (Nat.mul_comm n s), <-Nat.Div0.div_div, Es, Nat.div_add_l, Nat.div_small by lia. lia.
  - rewrite E, Nat.add_comm, Nat.Div0.mod_add. by apply Nat.mod_small.
  - rewrite Es, Nat.add_comm, Nat.Div0.mod_add. by apply Nat.mod_small.
Qed.

Lemma elem_of_member_group r r' : r' ∈ member_group r <-> r' / (n * s) = r / (n * s) /\ r' mod s = r mod s.
Proof using Hn Hs.
  unfold member_group. rewrite elem_of_strided. split.
  - intros (k & Hk & ->). destruct (block_of (r / (n * s)) (r mod s) k) as (? & ? & _); [by apply Nat.mod_upper_bound; lia|done|done].
  - intros [Hq Hm]. exists ((r' / s) mod n). split; [apply Nat.mod_upper_bound; lia|]. rewrite <-Hq, <-Hm. apply block_split.
Qed.

Lemma family_group r : r < Q * (n * s) -> member_group r ∈ family Q n s.
Proof using Hn Hs.
  intros Hr. unfold family. apply elem_of_loop. exists (r / (n * s)). split; [apply Nat.Div0.div_lt_upper_bound; lia|].
  apply elem_of_loop. exists (r mod s). split; [apply Nat.mod_upper_bound; lia|]. by apply list_elem_of_singleton.
Qed.

Lemma family_unique g r : g ∈ family Q n s -> r ∈ g -> g = member_group r.
Proof using Hn Hs.
  intros (q & Hq & (j & Hj & ->%list_elem_of_singleton)%elem_of_loop)%elem_of_loop (k & Hk & ->)%elem_of_strided.
  unfold member_group. destruct (block_of q j k Hj Hk) as (-> & -> & _). done.
Qed.

Lemma position_strided st k i : i < k -> position (strided st s k) (st + i * s) = Some i.
Proof using Hn Hs.
  intros Hi. unfold position. assert (list_find (fun y => y = st + i * s) (strided st s k) = Some (i, st + i * s)) as ->; [|done].
  apply list_find_Some. split; [by apply strided_lookup|]. split; [done|]. intros j y Hy Hlt.
  rewrite strided_lookup in Hy by lia. injection Hy as <-. nia.
Qed.

(** The group of a rank, found among the groups. *)
Lemma group_containing_family k groups r :
  groups = family Q n s -> r < Q * (n * s) ->
  group_containing k groups r = inl (mkRankGroup k (member_group r) r ((r / s) mod n)).
Proof using Hn Hs.
  intros -> Hr. unfold group_containing. destruct (List.find _ _) as [g|] eqn:E.
  - apply List.find_some in E as [Hin%list_elem_of_In Hmem%bool_decide_eq_true].
    rewrite (family_unique g r Hin Hmem). unfold RankGroup_new.
    assert (position (member_group r) r = Some ((r / s) mod n)) as ->; [|done].
    rewrite (block_split r) at 2. apply position_strided, Nat.mod_upper_bound. lia.
  - exfalso. eapply List.find_none in E; [|by apply list_elem_of_In, family_group].
    apply bool_decide_eq_false in E. apply E, elem_of_member_group. done.
Qed.
End family.

(** ** The builders *)
Record valid (c : MultiAxisConfig) : Prop := mkValid {
  va_tp : 0 < tp_size c;
  va_pp : 0 < pp_size c;
  va_attn : tp_size c = attn_tp_size c * attn_cp_size c * attn_dp_size c;
  va_moe : tp_size c = moe_tp_size c * ep_size c * moe_dp_size c;
}.

Lemma multiple_of n d : d <> 0 -> is_multiple_of n d = true <-> n = d * (n / d).
Proof.
  intros Hd. unfold is_multiple_of. rewrite bool_decide_eq_false_2, bool_decide_eq_true by done. symmetry. apply Nat.Div0.div_exact.
Qed.

Lemma validate_valid c : validate c = inl tt -> valid c.
Proof.
  unfold validate. case_bool_decide as H0; [done|]. assert (tp_size c <> 0) as Htp by lia.
  assert (pp_size c <> 0 /\ ep_size c <> 0 /\ attn_dp_size c <> 0 /\ attn_cp_size c <> 0 /\ moe_dp_size c <> 0) as (? & ? & ? & ? & ?) by lia.
  destruct (is_multiple_of _ (attn_dp_size c * _)) eqn:E1; [|done]. destruct (is_multiple_of _ (ep_size c * _)) eqn:E2; [|done].
  intros _. apply multiple_of in E1, E2; [|lia..]. constructor; [lia|lia|..]; unfold attn_tp_size, moe_tp_size; rewrite Nat.Div0.div_div; lia.
Qed.

Lemma factor_one a x : 0 < a -> a = a * x -> x = 1.
Proof. intros Ha E. apply (Nat.mul_cancel_l _ _ a); lia. Qed.

Section builders.
Context (c : MultiAxisConfig).
Hypothesis Hc : valid c.

Lemma tp_groups_count : num_tp_groups c = pp_size c.
Proof using Hc. destruct Hc. unfold num_tp_groups, world_size. rewrite Nat.mul_comm. by apply Nat.div_mul; lia. Qed.

(** The sizes of a layout are positive. *)
Lemma sizes_positive :
  0 < attn_tp_size c /\ 0 < attn_cp_size c /\ 0 < attn_dp_size c /\ 0 < moe_tp_size c /\ 0 < ep_size c /\ 0 < moe_dp_size c.
Proof using Hc. destruct Hc as [H _ H1 H2]. nia. Qed.

Lemma tp_family : build_tp_groups c = family (pp_size c) (tp_size c) 1.
Proof using Hc.
  unfold build_tp_groups, family. rewrite tp_groups_count. apply loop_ext. intros g _. rewrite loop_1. f_equal.
  rewrite <-range_strided. unfold range. f_equal; lia.
Qed.

Lemma pp_family : build_pp_groups c = family 1 (pp_size c) (tp_size c).
Proof using Hc.
  destruct Hc as [H1 H2 _ _]. unfold build_pp_groups, family, world_size. rewrite loop_1, Nat.div_mul by lia.
  apply loop_ext. intros g Hg. f_equal. rewrite step_by_strided with (n := pp_size c) by nia. f_equal; lia.
Qed.

Lemma attn_cp_family : build_attn_cp_groups c = family (pp_size c * attn_dp_size c) (attn_cp_size c) (attn_tp_size c).
Proof using Hc.
  destruct sizes_positive as (H1 & H2 & H3 & _). pose proof (va_attn c Hc) as Ha. unfold build_attn_cp_groups. case_bool_decide as E.
  - rewrite tp_family. assert (attn_tp_size c = 1 /\ attn_dp_size c = 1) as [-> ->].
    { apply Nat.eq_mul_1, (factor_one (tp_size c)); [apply va_tp, Hc|]. rewrite E in Ha. lia. }
    by rewrite E, Nat.mul_1_r.
  - unfold family. rewrite tp_groups_count, loop_mul. apply loop_ext. intros g _. apply loop_ext. intros dp _.
    apply loop_ext. intros i Hi. f_equal. rewrite step_by_strided with (n := attn_cp_size c) by nia. f_equal. rewrite Ha at 1. lia.
Qed.

Lemma attn_tp_family : build_attn_tp_groups c = family (pp_size c * (attn_cp_size c * attn_dp_size c)) (attn_tp_size c) 1.
Proof using Hc.
  destruct sizes_positive as (H1 & H2 & H3 & _). pose proof (va_attn c Hc) as Ha. unfold build_attn_tp_groups. case_bool_decide as E.
  - rewrite tp_family, E. assert (attn_cp_size c * attn_dp_size c = 1) as ->.
    { apply (factor_one (tp_size c)); [apply va_tp, Hc|]. rewrite E in Ha. lia. }
    by rewrite Nat.mul_1_r.
  - unfold family. rewrite tp_groups_count, loop_mul. apply loop_ext. intros g _. apply loop_ext. intros i _. rewrite loop_1. f_equal.
    rewrite <-range_strided. unfold range. rewrite Ha. f_equal; nia.
Qed.

Lemma attn_dp_family : build_attn_dp_groups c = family (pp_size c) (attn_dp_size c) (attn_tp_size c * attn_cp_size c).
Proof using Hc.
  destruct sizes_positive as (H1 & H2 & H3 & _). pose proof (va_attn c Hc) as Ha. unfold build_attn_dp_groups. case_bool_decide as E.
  - unfold family. rewrite E, Nat.mul_1_l. rewrite <-loop_mul with (f := fun r => [strided r (attn_tp_size c * attn_cp_size c) 1]).
    rewrite loop_singles. unfold world_size. rewrite Ha, E, Nat.mul_1_r, (Nat.mul_comm _ (pp_size c)).
    apply list_fmap_ext. intros i r _. unfold strided. cbn. by rewrite Nat.add_0_r.
  - unfold family. rewrite tp_groups_count. apply loop_ext. intros g _. rewrite (Nat.mul_comm (attn_tp_size c) (attn_cp_size c)), loop_mul.
    apply loop_ext. intros cp Hcp. apply loop_ext. intros i Hi. f_equal.
    assert (cp * attn_tp_size c + i < attn_tp_size c * attn_cp_size c) by nia.
    rewrite step_by_strided with (n := attn_dp_size c) by nia. f_equal. rewrite Ha at 1. lia.
Qed.

Lemma moe_ep_family : build_moe_ep_groups c = family (pp_size c * moe_dp_size c) (ep_size c) (moe_tp_size c).
Proof using Hc.
  destruct sizes_positive as (_ & _ & _ & H1 & H2 & H3). pose proof (va_moe c Hc) as Ha. unfold build_moe_ep_groups. case_bool_decide as E.
  - rewrite tp_family. assert (moe_tp_size c = 1 /\ moe_dp_size c = 1) as [-> ->].
    { apply Nat.eq_mul_1, (factor_one (tp_size c)); [apply va_tp, Hc|]. rewrite E in Ha. lia. }
    by rewrite E, Nat.mul_1_r.
  - unfold family. rewrite tp_groups_count, loop_mul. apply loop_ext. intros g _. apply loop_ext. intros dp _.
    apply loop_ext. intros i Hi. cbv zeta. f_equal. rewrite step_by_strided with (n := ep_size c) by nia. f_equal. rewrite Ha at 1. lia.
Qed.

Lemma moe_tp_family : build_moe_tp_groups c = family (pp_size c * (ep_size c * moe_dp_size c)) (moe_tp_size c) 1.
Proof using Hc.
  destruct sizes_positive as (_ & _ & _ & H1 & H2 & H3). pose proof (va_moe c Hc) as Ha. unfold build_moe_tp_groups. case_bool_decide as E.
  - rewrite tp_family, E. assert (ep_size c * moe_dp_size c = 1) as ->.
    { apply (factor_one (tp_size c)); [apply va_tp, Hc|]. rewrite E in Ha. lia. }
    by rewrite Nat.mul_1_r.
  - unfold family. rewrite tp_groups_count, loop_mul. apply loop_ext. intros g _. apply loop_ext. intros i _. rewrite loop_1. f_equal.
    rewrite <-range_strided. unfold range. rewrite Ha. f_equal; nia.
Qed.

Lemma moe_dp_family : build_moe_dp_groups c =
  if bool_decide (moe_dp_size c < attn_cp_size c) then family (pp_size c * attn_dp_size c) (attn_cp_size c) (attn_tp_size c)
  else family (pp_size c) (moe_dp_size c) (moe_tp_size c * ep_size c).
Proof using Hc.
  destruct sizes_positive as (_ & _ & _ & H1 & H2 & H3). pose proof (va_moe c Hc) as Ha. unfold build_moe_dp_groups. case_bool_decide; [apply attn_cp_family|].
  case_bool_decide as E.
  - rewrite tp_family. assert (moe_tp_size c * ep_size c = 1) as ->.
    { apply (factor_one (tp_size c)); [apply va_tp, Hc|]. rewrite E in Ha. lia. }
    by rewrite E.
  - unfold family. rewrite tp_groups_count. apply loop_ext. intros g _. apply loop_ext. intros i Hi. f_equal.
    rewrite step_by_strided with (n := moe_dp_size c) by nia. f_equal. rewrite Ha at 1. lia.
Qed.
End builders.

(** ** Coordinates as digits *)
Section digits.
Context (a b d p u v w : nat).
Hypotheses (Hw : w < a) (Hv : v < b) (Hu : u < d).

(** A rank with inner coordinates [w], [v], [u] in tensor group [p]. *)
Definition digits : nat := ((p * d + u) * b + v) * a + w.

Lemma digits_quotients :
  digits mod a = w /\ digits / a = (p * d + u) * b + v /\ (digits / a) mod b = v /\
  digits / (a * b) = p * d + u /\ (digits / (a * b)) mod d = u /\ digits / (a * b * d) = p /\ digits mod (a * b) = v * a + w.
Proof using Hw Hv Hu.
  unfold digits. set (x := (p * d + u) * b + v).
  assert ((x * a + w) / a = x) as E1 by (rewrite Nat.div_add_l, Nat.div_small by lia; lia).
  assert (x / b = p * d + u) as E2 by (subst x; rewrite Nat.div_add_l, Nat.div_small by lia; lia).
  assert ((p * d + u) / d = p) as E3 by (rewrite Nat.div_add_l, Nat.div_small by lia; lia).
  assert ((x * a + w) / (a * b) = p * d + u) as E4 by (rewrite <-Nat.Div0.div_div, E1; done).
  split_and!.
  - rewrite Nat.add_comm, Nat.Div0.mod_add. by apply Nat.mod_small.
  - done.
  - rewrite E1. subst x. rewrite Nat.add_comm, Nat.Div0.mod_add. by apply Nat.mod_small.
  - done.
  - rewrite E4, Nat.add_comm, Nat.Div0.mod_add. by apply Nat.mod_small.
  - rewrite <-Nat.Div0.div_div, E4. done.
  - subst x. replace (((p * d + u) * b + v) * a + w) with ((v * a + w) + (p * d + u) * (a * b)) by lia.
    rewrite Nat.Div0.mod_add. apply Nat.mod_small. nia.
Qed.
End digits.

Lemma digits_exist a b d r : 0 < a -> 0 < b -> 0 < d ->
  let t := r mod (a * b * d) in
  r = digits a b d (r / (a * b * d)) (t / (a * b)) ((t / a) mod b) (t mod a) /\ t mod a < a /\ (t / a) mod b < b /\ t / (a * b) < d.
Proof.
  intros Ha Hb Hd t. split_and!; [|by apply Nat.mod_upper_bound; lia..|].
  - unfold digits. pose proof (Nat.div_mod_eq r (a * b * d)) as H1. fold t in H1.
    pose proof (Nat.div_mod_eq t a) as H2. pose proof (Nat.div_mod_eq (t / a) b) as H3. rewrite Nat.Div0.div_div in H3. nia.
  - apply Nat.Div0.div_lt_upper_bound. subst t. apply Nat.mod_upper_bound. nia.
Qed.

(** ** Groups and coordinates

    Every rank of a valid layout gets all its groups, each group is the set of
    ranks that differ in one coordinate only, and the place of a rank in it is
    that coordinate. And the shards of a dimension tile it. *)

(** ** Shards *)
Definition shards (total world_size : nat) : res (list ShardingSpec) :=
  fold_res (fun acc rank => s ← column_shard total (mkTpConfig world_size rank); Done (acc ++ [s])) (seq 0 world_size) [].

Lemma column_shard_run total w r : 0 < w -> w <= total ->
  column_shard total (mkTpConfig w r) =
    Done (mkShard (r * (total / w)) (if bool_decide (r = w - 1) then total / w + total mod w else total / w) total).
Proof. intros Hw Ht. unfold column_shard. cbn. by rewrite !bool_decide_eq_false_2 by lia. Qed.

Lemma shards_prefix total w k : 0 < w -> w <= total -> k < w ->
  exists l, fold_res (fun acc rank => s ← column_shard total (mkTpConfig w rank); Done (acc ++ [s])) (seq 0 k) [] = Done l /\
    length l = k /\ concat (shard_range <$> l) = seq 0 (k * (total / w)) /\ Forall (fun s => 0 < size s) l.
Proof.
  intros Hw Ht. induction k as [|k IH]; intros Hk; [by exists []|]. destruct IH as (l & Hrun & Hl & Hcat & Hpos); [lia|].
  rewrite seq_S, fold_res_app, Hrun. cbn [mbind res_bind fold_res]. rewrite column_shard_run by done. cbn [mbind res_bind].
  rewrite bool_decide_eq_false_2 by lia. eexists. split; [done|].
  rewrite fmap_app, concat_app, Hcat, length_app. cbn. rewrite app_nil_r. split_and!; [lia| |].
  - unfold shard_range, shard_end. cbn. set (q := total / w). clearbody q. replace (k * q + q - k * q) with q by lia.
    rewrite (Nat.add_comm q), seq_app. done.
  - apply Forall_app. split; [done|]. constructor; [|constructor]. cbn. apply Nat.div_str_pos. lia.
Qed.

(** The shards of a dimension tile it: over the ranks of a tensor-parallel
    group they cover every index exactly once, in order, and no rank gets an
    empty shard; a dimension smaller than the group panics. *)
Theorem shards_tile total world_size :
  0 < world_size ->
  if decide (world_size <= total)
  then exists l, shards total world_size = Done l /\ length l = world_size /\ concat (shard_range <$> l) = seq 0 total /\
    Forall (fun s => 0 < size s) l
  else shards total world_size = Panics.
Proof.
  intros Hw. unfold shards. destruct world_size as [|w]; [lia|]. case_decide as Ht.
  - destruct (shards_prefix total (S w) w) as (l & Hrun & Hl & Hcat & Hpos); [lia|done|lia|].
    rewrite seq_S, fold_res_app, Hrun. cbn [mbind res_bind fold_res]. rewrite column_shard_run by lia. cbn [mbind res_bind].
    rewrite bool_decide_eq_true_2 by lia. eexists. split; [done|].
    rewrite fmap_app, concat_app, Hcat, length_app. pose proof (Nat.div_mod_eq total (S w)) as Hd.
    assert (0 < total / S w) by (apply Nat.div_str_pos; lia). set (q := total / S w) in *. set (m := total mod S w) in *. clearbody q m.
    cbn. rewrite app_nil_r. split_and!; [lia| |].
    + unfold shard_range, shard_end. cbn. replace (w * q + (q + m) - w * q) with (q + m) by lia.
      assert (total = w * q + (q + m)) as -> by lia. by rewrite (seq_app (w * q) (q + m) 0).
    + apply Forall_app. split; [done|]. constructor; [|constructor]. cbn. lia.
  - assert (column_shard total (mkTpConfig (S w) 0) = Panics) as E; [|cbn [seq fold_res]; by rewrite E].
    unfold column_shard. cbn [tp_world_size]. rewrite bool_decide_eq_true_2; [done|lia].
Qed.

(** ** Coordinates *)
Definition coord_of (c : MultiAxisConfig) (r : nat) : RankCoord :=
  let t := r mod tp_size c in
  mkCoord r t (r / tp_size c)
    (t mod attn_tp_size c) (t / (attn_tp_size c * attn_cp_size c)) ((t / attn_tp_size c) mod attn_cp_size c)
    (t mod moe_tp_size c) ((t / moe_tp_size c) mod ep_size c) (t / (moe_tp_size c * ep_size c)).

Lemma from_world_rank_run c r : validate c = inl tt ->
  from_world_rank c r = if bool_decide (world_size c <= r) then inr (RankOutOfWorld r (world_size c)) else inl (coord_of c r).
Proof. intros Hv. unfold from_world_rank. rewrite Hv. done. Qed.

(** The coordinate a kind of group runs over, and the ones it keeps. The MoE
    data groups are the attention context groups when these are larger. *)
Definition axis (c : MultiAxisConfig) (k : ParallelGroupKind) (x : RankCoord) : nat :=
  match k with
  | World => world_rank x
  | Tensor => tp_rank x
  | Pipeline => pp_rank x
  | Expert | MoeExpert => moe_ep_rank x
  | AttentionTensor => attn_tp_rank x
  | AttentionData => attn_dp_rank x
  | AttentionContext => attn_cp_rank x
  | MoeTensor => moe_tp_rank x
  | MoeData => if bool_decide (moe_dp_size c < attn_cp_size c) then attn_cp_rank x else moe_dp_rank x
  end.

Definition kept (c : MultiAxisConfig) (k : ParallelGroupKind) (x : RankCoord) : list nat :=
  match k with
  | World => []
  | Tensor => [pp_rank x]
  | Pipeline => [tp_rank x]
  | Expert | MoeExpert => [pp_rank x; moe_dp_rank x; moe_tp_rank x]
  | AttentionTensor => [pp_rank x; attn_dp_rank x; attn_cp_rank x]
  | AttentionData => [pp_rank x; attn_cp_rank x; attn_tp_rank x]
  | AttentionContext => [pp_rank x; attn_dp_rank x; attn_tp_rank x]
  | MoeTensor => [pp_rank x; moe_dp_rank x; moe_ep_rank x]
  | MoeData =>
      if bool_decide (moe_dp_size c < attn_cp_size c) then [pp_rank x; attn_dp_rank x; attn_tp_rank x]
      else [pp_rank x; moe_ep_rank x; moe_tp_rank x]
  end.

(** A kind whose groups are the family of blocks [n] and stride [s]. *)
Record kind_family (c : MultiAxisConfig) (k : ParallelGroupKind) (Q n s : nat) : Prop := mkKindFamily {
  kf_n : 0 < n;
  kf_s : 0 < s;
  kf_world : Q * (n * s) = world_size c;
  kf_axis : forall r, r < world_size c -> (r / s) mod n = axis c k (coord_of c r);
  kf_kept : forall r r', r < world_size c -> r' < world_size c ->
    (r' / (n * s) = r / (n * s) /\ r' mod s = r mod s <-> kept c k (coord_of c r') = kept c k (coord_of c r));
}.

Lemma pair_inj x y x' y' n : y < n -> y' < n -> x * n + y = x' * n + y' <-> x = x' /\ y = y'.
Proof.
  intros Hy Hy'. split; [|by intros [-> ->]]. intros E. rewrite !(Nat.mul_comm _ n) in E. by apply Nat.div_mod_unique in E.
Qed.

(** Three inner axes [a], [b], [d] of a tensor group, and the three families
    over them. *)
Section inner.
Context (a b d : nat) (Ha : 0 < a) (Hb : 0 < b) (Hd : 0 < d).
Let T := a * b * d.
Definition inner (r : nat) : nat * nat * nat * nat := (r / T, (r mod T) / (a * b), ((r mod T) / a) mod b, (r mod T) mod a).

Lemma inner_families r r' : let '(p, u, v, w) := inner r in let '(p', u', v', w') := inner r' in
  ((r / 1) mod a = w /\ (r / a) mod b = v /\ (r / (a * b)) mod d = u) /\
  (r' / (a * 1) = r / (a * 1) /\ r' mod 1 = r mod 1 <-> [p'; u'; v'] = [p; u; v]) /\
  (r' / (b * a) = r / (b * a) /\ r' mod a = r mod a <-> [p'; u'; w'] = [p; u; w]) /\
  (r' / (d * (a * b)) = r / (d * (a * b)) /\ r' mod (a * b) = r mod (a * b) <-> [p'; v'; w'] = [p; v; w]).
Proof using Ha Hb Hd.
  unfold inner. destruct (digits_exist a b d r Ha Hb Hd) as (E & Hw & Hv & Hu). destruct (digits_exist a b d r' Ha Hb Hd) as (E' & Hw' & Hv' & Hu').
  fold T in E, E', Hw, Hv, Hu, Hw', Hv', Hu'.
  destruct (digits_quotients a b d (r / T) _ _ _ Hw Hv Hu) as (Q1 & Q2 & Q3 & Q4 & Q5 & Q6 & Q7).
  destruct (digits_quotients a b d (r' / T) _ _ _ Hw' Hv' Hu') as (Q1' & Q2' & Q3' & Q4' & Q5' & Q6' & Q7').
  rewrite <-E in Q1, Q2, Q3, Q4, Q5, Q6, Q7. rewrite <-E' in Q1', Q2', Q3', Q4', Q5', Q6', Q7'.
  revert Q1 Q2 Q3 Q4 Q5 Q6 Q7 Q1' Q2' Q3' Q4' Q5' Q6' Q7' Hw Hv Hu Hw' Hv' Hu'. clear E E'.
  generalize (r / T) as p, (r mod T / (a * b)) as u, ((r mod T / a) mod b) as v, (r mod T mod a) as w.
  generalize (r' / T) as p', (r' mod T / (a * b)) as u', ((r' mod T / a) mod b) as v', (r' mod T mod a) as w'.
  intros w' v' u' p' w v u p Q1 Q2 Q3 Q4 Q5 Q6 Q7 Q1' Q2' Q3' Q4' Q5' Q6' Q7' Hw Hv Hu Hw' Hv' Hu'.
  rewrite Nat.div_1_r, !Nat.mod_1_r, Nat.mul_1_r, (Nat.mul_comm b a), (Nat.mul_comm d (a * b)).
  rewrite Q3, Q5, Q1, Q2, Q4, Q6, Q7, Q1', Q2', Q4', Q6', Q7'. rewrite !pair_inj by done.
  split_and!; [done..| | |]; split; try (intros [= -> -> ->]; done); intuition congruence.
Qed.
End inner.

Section kinds.
Context (c : MultiAxisConfig).
Hypothesis Hc : valid c.

Lemma attn_inner r : inner (attn_tp_size c) (attn_cp_size c) (attn_dp_size c) r =
  (pp_rank (coord_of c r), attn_dp_rank (coord_of c r), attn_cp_rank (coord_of c r), attn_tp_rank (coord_of c r)).
Proof using Hc. unfold inner. by rewrite <-(va_attn c Hc). Qed.

Lemma moe_inner r : inner (moe_tp_size c) (ep_size c) (moe_dp_size c) r =
  (pp_rank (coord_of c r), moe_dp_rank (coord_of c r), moe_ep_rank (coord_of c r), moe_tp_rank (coord_of c r)).
Proof using Hc. unfold inner. by rewrite <-(va_moe c Hc). Qed.

Lemma attn_families r r' :
  let x := coord_of c r in let x' := coord_of c r' in
  ((r / 1) mod attn_tp_size c = attn_tp_rank x /\ (r / attn_tp_size c) mod attn_cp_size c = attn_cp_rank x /\
   (r / (attn_tp_size c * attn_cp_size c)) mod attn_dp_size c = attn_dp_rank x) /\
  (r' / (attn_tp_size c * 1) = r / (attn_tp_size c * 1) /\ r' mod 1 = r mod 1 <-> kept c AttentionTensor x' = kept c AttentionTensor x) /\
  (r' / (attn_cp_size c * attn_tp_size c) = r / (attn_cp_size c * attn_tp_size c) /\ r' mod attn_tp_size c = r mod attn_tp_size c
    <-> kept c AttentionContext x' = kept c AttentionContext x) /\
  (r' / (attn_dp_size c * (attn_tp_size c * attn_cp_size c)) = r / (attn_dp_size c * (attn_tp_size c * attn_cp_size c)) /\
   r' mod (attn_tp_size c * attn_cp_size c) = r mod (attn_tp_size c * attn_cp_size c)
    <-> kept c AttentionData x' = kept c AttentionData x).
Proof using Hc.
  destruct (sizes_positive c Hc) as (H1 & H2 & H3 & _). pose proof (inner_families _ _ _ H1 H2 H3 r r') as H.
  rewrite !attn_inner in H. exact H.
Qed.

Lemma moe_families r r' :
  let x := coord_of c r in let x' := coord_of c r' in
  ((r / 1) mod moe_tp_size c = moe_tp_rank x /\ (r / moe_tp_size c) mod ep_size c = moe_ep_rank x /\
   (r / (moe_tp_size c * ep_size c)) mod moe_dp_size c = moe_dp_rank x) /\
  (r' / (moe_tp_size c * 1) = r / (moe_tp_size c * 1) /\ r' mod 1 = r mod 1 <-> kept c MoeTensor x' = kept c MoeTensor x) /\
  (r' / (ep_size c * moe_tp_size c) = r / (ep_size c * moe_tp_size c) /\ r' mod moe_tp_size c = r mod moe_tp_size c
    <-> kept c MoeExpert x' = kept c MoeExpert x) /\
  (r' / (moe_dp_size c * (moe_tp_size c * ep_size c)) = r / (moe_dp_size c * (moe_tp_size c * ep_size c)) /\
   r' mod (moe_tp_size c * ep_size c) = r mod (moe_tp_size c * ep_size c)
    <-> [pp_rank x'; moe_ep_rank x'; moe_tp_rank x'] = [pp_rank x; moe_ep_rank x; moe_tp_rank x]).
Proof using Hc.
  destruct (sizes_positive c Hc) as (_ & _ & _ & H1 & H2 & H3). pose proof (inner_families _ _ _ H1 H2 H3 r r') as H.
  rewrite !moe_inner in H. exact H.
Qed.

Lemma attn_cp_kind : kind_family c AttentionContext (pp_size c * attn_dp_size c) (attn_cp_size c) (attn_tp_size c).
Proof using Hc.
  destruct (sizes_positive c Hc) as (H1 & H2 & H3 & _). constructor; [done|done| | |].
  - unfold world_size. rewrite (va_attn c Hc). lia.
  - intros r _. by destruct (attn_families r r) as [(_ & ? & _) _].
  - intros r r' _ _. by destruct (attn_families r r') as (_ & _ & ? & _).
Qed.

Lemma kind_families k : exists Q n s, groups_of c k = family Q n s /\ kind_family c k Q n s.
Proof using Hc.
  destruct (sizes_positive c Hc) as (A1 & A2 & A3 & M1 & M2 & M3). pose proof (va_tp c Hc) as Htp. pose proof (va_pp c Hc) as Hpp.
  destruct k; cbn [groups_of].
  - exists 1, (world_size c), 1. split.
    + unfold family. rewrite !loop_1. unfold strided. cbn. rewrite <-(list_fmap_id (seq 0 _)) at 1. f_equal.
      apply list_fmap_ext. intros i r _. cbn. lia.
    + assert (0 < world_size c) by (unfold world_size; lia). constructor; [done|lia|lia| |].
      * intros r Hr. rewrite Nat.div_1_r. by apply Nat.mod_small.
      * intros r r' Hr Hr'. cbn [kept]. rewrite Nat.mul_1_r, !Nat.div_small, !Nat.mod_1_r by done. done.
  - exists (pp_size c), (tp_size c), 1. split; [by apply tp_family|]. constructor; [done|lia|unfold world_size; lia| |].
    + intros r _. by rewrite Nat.div_1_r.
    + intros r r' _ _. rewrite Nat.mul_1_r, !Nat.mod_1_r. cbn. split; [by intros [-> _]|by intros [= ->]].
  - exists 1, (pp_size c), (tp_size c). split; [by apply pp_family|]. constructor; [done|done|unfold world_size; lia| |].
    + intros r Hr. cbn. apply Nat.mod_small, Nat.Div0.div_lt_upper_bound. unfold world_size in Hr. lia.
    + intros r r' Hr Hr'. unfold world_size in Hr, Hr'. rewrite !Nat.div_small by lia. cbn. split; [by intros [_ ->]|by intros [= ->]].
  - eexists _, _, _. split; [by apply moe_ep_family|]. constructor; [done|done|unfold world_size; rewrite (va_moe c Hc); lia| |].
    + intros r _. by destruct (moe_families r r) as [(_ & ? & _) _].
    + intros r r' _ _. by destruct (moe_families r r') as (_ & _ & ? & _).
  - eexists _, _, _. split; [by apply attn_tp_family|]. constructor; [done|lia|unfold world_size; rewrite (va_attn c Hc); lia| |].
    + intros r _. by destruct (attn_families r r) as [(? & _ & _) _].
    + intros r r' _ _. by destruct (attn_families r r') as (_ & ? & _ & _).
  - eexists _, _, _. split; [by apply attn_dp_family|]. constructor; [done|lia|unfold world_size; rewrite (va_attn c Hc); lia| |].
    + intros r _. by destruct (attn_families r r) as [(_ & _ & ?) _].
    + intros r r' _ _. by destruct (attn_families r r') as (_ & _ & _ & ?).
  - eexists _, _, _. split; [by apply attn_cp_family|]. apply attn_cp_kind.
  - eexists _, _, _. split; [by apply moe_tp_family|]. constructor; [done|lia|unfold world_size; rewrite (va_moe c Hc); lia| |].
    + intros r _. by destruct (moe_families r r) as [(? & _ & _) _].
    + intros r r' _ _. by destruct (moe_families r r') as (_ & ? & _ & _).
  - eexists _, _, _. split; [by apply moe_ep_family|]. constructor; [done|done|unfold world_size; rewrite (va_moe c Hc); lia| |].
    + intros r _. by destruct (moe_families r r) as [(_ & ? & _) _].
    + intros r r' _ _. by destruct (moe_families r r') as (_ & _ & ? & _).
  - rewrite moe_dp_family by done. case_bool_decide as Hlt.
    + eexists _, _, _. split; [done|]. destruct attn_cp_kind as [B1 B2 B3 B4 B5].
      constructor; try done; cbn [axis kept]; by rewrite bool_decide_eq_true_2.
    + eexists _, _, _. split; [done|]. constructor; [done|lia|unfold world_size; rewrite (va_moe c Hc); lia| |]; cbn [axis kept];
        rewrite bool_decide_eq_false_2 by done.
      * intros r _. by destruct (moe_families r r) as [(_ & _ & ?) _].
      * intros r r' _ _. by destruct (moe_families r r') as (_ & _ & _ & ?).
Qed.
End kinds.

(** ** The parallel state *)

(** What the group [g] of kind [k] is to a rank. *)
Record group_right (c : MultiAxisConfig) (k : ParallelGroupKind) (r : nat) (g : RankGroup) : Prop := mkGroupRight {
  gr_kind : kind g = k;
  gr_rank : rank g = r;
  gr_sorted : StronglySorted lt (ranks g);
  gr_place : rank_in_group g = axis c k (coord_of c r) /\ ranks g !! rank_in_group g = Some r;
  gr_members : forall r', r' ∈ ranks g <-> r' < world_size c /\ kept c k (coord_of c r') = kept c k (coord_of c r);
}.

Lemma strided_sorted st s n : 0 < s -> StronglySorted lt (strided st s n).
Proof.
  intros Hs. unfold strided. generalize 0 as k. induction n as [|n IH]; intros k; cbn; constructor; [apply IH|].
  apply Forall_forall. intros x (i & -> & Hi%elem_of_seq)%list_elem_of_fmap. nia.
Qed.

Lemma group_found c k r : valid c -> r < world_size c ->
  exists g, group_containing k (groups_of c k) r = inl g /\ group_right c k r g.
Proof.
  intros Hc Hr. destruct (kind_families c Hc k) as (Q & n & s & Hg & [Hn Hs Hw Hax Hk]).
  eexists. split; [apply (group_containing_family Q n s Hn Hs k _ r Hg); lia|]. constructor; cbn [kind rank ranks rank_in_group]; [done|done| | |].
  - by apply strided_sorted.
  - split; [by apply Hax|]. rewrite (block_split n s Hn Hs r) at 3. apply strided_lookup, Nat.mod_upper_bound. lia.
  - intros r'. rewrite elem_of_member_group by done. destruct (decide (r' < world_size c)) as [Hr'|Hr'].
    + rewrite (Hk r r' Hr Hr'). tauto.
    + split; [|tauto]. intros [Hq _]. exfalso. apply Hr'. rewrite <-Hw in Hr |- *.
      assert (r / (n * s) < Q) by (apply Nat.Div0.div_lt_upper_bound; lia).
      pose proof (Nat.mod_upper_bound r' (n * s) ltac:(nia)). pose proof (Nat.div_mod_eq r' (n * s)). nia.
Qed.

Lemma world_found c r : valid c -> r < world_size c ->
  exists g, RankGroup_new World (seq 0 (world_size c)) r = inl g /\ group_right c World r g.
Proof.
  intros Hc Hr. destruct (group_found c World r Hc Hr) as (g & Hg & Hright). exists g. split; [|done].
  unfold group_containing in Hg. cbn [groups_of List.find] in Hg. rewrite bool_decide_eq_true_2 in Hg; [done|]. apply elem_of_seq. lia.
Qed.

(** C21: a parallel state exists exactly for the ranks of a valid layout. There,
    for each of its ten kinds, a rank is in one group, listed in increasing
    order: the ranks with the same other coordinates; and its place in the
    group is its coordinate. All other arguments are refused with the error of
    the first check that fails. *)
Theorem groups_follow_coordinates c r :
  match ParallelState_new c r with
  | inl s => validate c = inl tt /\ r < world_size c /\ from_world_rank c r = inl (coord s) /\
      forall k, group_right c k r (group_of s k)
  | inr e => validate c = inr e \/ (validate c = inl tt /\ world_size c <= r /\ e = RankOutOfWorld r (world_size c))
  end.
Proof.
  unfold ParallelState_new. destruct (validate c) as [[]|e] eqn:Hv; cbn [sum_bind]; [|by left].
  rewrite (from_world_rank_run c r Hv). case_bool_decide as Hr; cbn [sum_bind]; [by right|].
  pose proof (validate_valid c Hv) as Hc. assert (r < world_size c) as Hlt by lia.
  destruct (world_found c r Hc Hlt) as (w & -> & Hw). cbn [sum_bind].
  destruct (group_found c Tensor r Hc Hlt) as (g1 & E1 & H1). cbn [groups_of] in E1. rewrite E1. cbn [sum_bind].
  destruct (group_found c Pipeline r Hc Hlt) as (g2 & E2 & H2). cbn [groups_of] in E2. rewrite E2. cbn [sum_bind].
  destruct (group_found c Expert r Hc Hlt) as (g3 & E3 & H3). cbn [groups_of] in E3. rewrite E3. cbn [sum_bind].
  destruct (group_found c AttentionTensor r Hc Hlt) as (g4 & E4 & H4). cbn [groups_of] in E4. rewrite E4. cbn [sum_bind].
  destruct (group_found c AttentionData r Hc Hlt) as (g5 & E5 & H5). cbn [groups_of] in E5. rewrite E5. cbn [sum_bind].
  destruct (group_found c AttentionContext r Hc Hlt) as (g6 & E6 & H6). cbn [groups_of] in E6. rewrite E6. cbn [sum_bind].
  destruct (group_found c MoeTensor r Hc Hlt) as (g7 & E7 & H7). cbn [groups_of] in E7. rewrite E7. cbn [sum_bind].
  destruct (group_found c MoeExpert r Hc Hlt) as (g8 & E8 & H8). cbn [groups_of] in E8. rewrite E8. cbn [sum_bind].
  destruct (group_found c MoeData r Hc Hlt) as (g9 & E9 & H9). cbn [groups_of] in E9. rewrite E9. cbn [sum_bind].
  split_and!; [done|done|done|]. by intros [].
Qed.
