(* ===== verification/Experts.v ===== *)
(** * Experts and pipeline stages

    Models [infer/src/distributed/expert_state.rs], the dispatch and combine
    of [infer/src/distributed/group_coordinator.rs] without its NCCL back end,
    and the stage boundaries of [infer/src/distributed/pipeline_state.rs]. The
    numbers of a hidden state are an arbitrary type with the operations of
    [f32] the code uses, so nothing is assumed of rounding. *)


From S2P Require Import Prelude ParallelLayout.

(** ** Placement *)
Record ExpertGroup := mkExpertGroup {
  eg_rank : nat;
  eg_world_size : nat;
  num_experts : nat;
  experts_per_rank : nat;
  expert_to_rank : list nat;
}.

Definition ExpertGroup_new (rank world_size num_experts : nat) : ExpertGroup + layout_error :=
  if bool_decide (world_size = 0) then inr WorldSizeZero
  else if bool_decide (world_size <= rank) then inr (RankOutOfWorld rank world_size)
  else if bool_decide (num_experts = 0) then inr NoExperts
  else if negb (is_multiple_of num_experts world_size) then inr (ExpertsNotDivisible num_experts world_size)
  else
    let experts_per_rank := num_experts / world_size in
    inl (mkExpertGroup rank world_size num_experts experts_per_rank
      ((fun expert => expert / experts_per_rank) <$> seq 0 num_experts)).

Definition rank_for_expert (g : ExpertGroup) (expert : nat) : option nat := expert_to_rank g !! expert.
Definition owns_expert (g : ExpertGroup) (expert : nat) : bool := bool_decide (rank_for_expert g expert = Some (eg_rank g)).
Definition local_expert_start (g : ExpertGroup) : nat := eg_rank g * experts_per_rank g.
Definition local_expert_range (g : ExpertGroup) : list nat := seq (local_expert_start g) (experts_per_rank g).
Definition local_expert_idx (g : ExpertGroup) (expert : nat) : option nat :=
  if owns_expert g expert then Some (expert - local_expert_start g) else None.
Definition global_expert_idx (g : ExpertGroup) (local : nat) : option nat :=
  if bool_decide (experts_per_rank g <= local) then None else Some (local_expert_start g + local).

(** [collect] into a [Result]: the first error, or all values. *)
Fixpoint sum_map {A B} (f : A -> B + layout_error) (l : list A) : list B + layout_error :=
  match l with
  | [] => inl []
  | x :: l => sum_bind (f x) (fun y => sum_bind (sum_map f l) (fun ys => inl (y :: ys)))
  end.

Definition mask_index_to_local (g : ExpertGroup) (expert : Z) : Z + layout_error :=
  if bool_decide (expert < 0)%Z then inl (-1)%Z
  else if bool_decide (num_experts g <= Z.to_nat expert) then inr (ExpertOutOfRange expert)
  else inl (match local_expert_idx g (Z.to_nat expert) with Some local => Z.of_nat local | None => (-1)%Z end).
Definition mask_indices_to_local (g : ExpertGroup) (indices : list Z) : list Z + layout_error :=
  sum_map (mask_index_to_local g) indices.

Definition tilekernels_mask_index (num_experts per_gpu num_tp_ranks tp_rank : nat) (expert : Z) : Z + layout_error :=
  if bool_decide (expert < 0)%Z then inl (-1)%Z
  else
    let expert_idx := Z.to_nat expert in
    if bool_decide (num_experts <= expert_idx) then inr (ExpertOutOfRange expert)
    else if bool_decide ((expert_idx / per_gpu) mod num_tp_ranks <> tp_rank) then inl (-1)%Z
    else
      let per_dp := num_tp_ranks * per_gpu in
      let value := expert_idx - tp_rank * per_gpu in
      let dp_rank := value / per_dp in
      inl (Z.of_nat (value - dp_rank * (per_dp - per_gpu))).

Definition tilekernels_mask_indices_by_tp_layout (indices : list Z) (num_experts num_ep_ranks tp_rank num_tp_ranks : nat)
  : list Z + layout_error :=
  if bool_decide (num_experts = 0) then inr NoExperts
  else if bool_decide (num_ep_ranks = 0) then inr WorldSizeZero
  else if bool_decide (num_tp_ranks = 0) then inr WorldSizeZero
  else if bool_decide (num_tp_ranks <= tp_rank) then inr (RankOutOfWorld tp_rank num_tp_ranks)
  else if negb (is_multiple_of num_experts num_ep_ranks) then inr (ExpertsNotDivisible num_experts num_ep_ranks)
  else sum_map (tilekernels_mask_index num_experts (num_experts / num_ep_ranks) num_tp_ranks tp_rank) indices.

(** ** Routing *)
Class F32 := mkF32 { num : Type; zero : num; add : num -> num -> num; mul : num -> num -> num }.

Section routing.
Context `{F32}.

Record ExpertRoute := mkRoute { token_idx : nat; expert_idx : nat; weight : num }.
Record ExpertRoutingWeights := mkRouting { routed_experts : nat; routes : list ExpertRoute }.
Record LocalExpertRoute := mkLocalRoute { lr_token_idx : nat; global_idx : nat; local_idx : nat; lr_weight : num }.
Record LocalExpertRouting := mkLocalRouting { num_global_experts : nat; lr_experts_per_rank : nat; local_routes : list LocalExpertRoute }.
Record ExpertOutput := mkOutput { out_rank : nat; out_expert : nat; token_indices : list nat; hidden_states : list (list num) }.

Definition localize_route (g : ExpertGroup) (acc : list LocalExpertRoute) (r : ExpertRoute) : list LocalExpertRoute + layout_error :=
  if bool_decide (num_experts g <= expert_idx r) then inr (ExpertOutOfRange (Z.of_nat (expert_idx r)))
  else
    match local_expert_idx g (expert_idx r) with
    | None => inl acc
    | Some local => inl (acc ++ [mkLocalRoute (token_idx r) (expert_idx r) local (weight r)])
    end.

Fixpoint sum_fold {A B} (f : B -> A -> B + layout_error) (l : list A) (b : B) : B + layout_error :=
  match l with
  | [] => inl b
  | x :: l => sum_bind (f b x) (sum_fold f l)
  end.

Definition localize_routing (g : ExpertGroup) (w : ExpertRoutingWeights) : LocalExpertRouting + layout_error :=
  if bool_decide (routed_experts w <> num_experts g) then inr (ExpertCountMismatch (routed_experts w) (num_experts g))
  else
    sum_bind (sum_fold (localize_route g) (routes w) []) (fun routes =>
    inl (mkLocalRouting (num_experts g) (experts_per_rank g) routes)).

Definition check_route (experts tokens : nat) (r : ExpertRoute) : unit + layout_error :=
  if bool_decide (experts <= expert_idx r) then inr (ExpertOutOfRange (Z.of_nat (expert_idx r)))
  else if bool_decide (tokens <= token_idx r) then inr (TokenOutOfRange (token_idx r) tokens)
  else inl tt.

(** The rows routed to one expert, and its output entry when there are any. *)
Definition routed_rows (w : ExpertRoutingWeights) (hidden : list (list num)) (expert : nat) : list (nat * list num) :=
  (fun r => (token_idx r, default [] (hidden !! token_idx r))) <$> filter (fun r => expert_idx r = expert) (routes w).

Definition dispatch_to_experts (group : RankGroup) (w : ExpertRoutingWeights) (hidden : list (list num))
  : list ExpertOutput + layout_error :=
  sum_bind (ExpertGroup_new (rank_in_group group) (group_world_size group) (routed_experts w)) (fun g =>
  sum_bind (sum_fold (fun _ => check_route (routed_experts w) (length hidden)) (routes w) tt) (fun _ =>
  inl (omap (fun expert =>
    let rows := routed_rows w hidden expert in
    if bool_decide (rows = []) then None else Some (mkOutput (rank group) expert rows.*1 rows.*2)) (local_expert_range g)))).

(** [*dst += src * weight] over the rows zipped. *)
Definition add_scaled (weight : num) (dst src : list num) : list num :=
  zip_with (fun d s => add d (mul s weight)) dst src ++ drop (length src) dst.

Definition combine_row (w : ExpertRoutingWeights) (hidden_dim expert : nat) (combined : list (list num)) (row : nat * list num)
  : list (list num) + layout_error :=
  let '(token, hidden) := row in
  if bool_decide (length hidden <> hidden_dim) then inr (HiddenDimMismatch (length hidden) hidden_dim)
  else
    match List.find (fun r => bool_decide (token_idx r = token) && bool_decide (expert_idx r = expert)) (routes w) with
    | None => inr (NoMatchingRoute token expert)
    | Some route => inl (alter (fun dst => add_scaled (weight route) dst hidden) token combined)
    end.

Definition combine_output (w : ExpertRoutingWeights) (hidden_dim : nat) (combined : list (list num)) (o : ExpertOutput)
  : list (list num) + layout_error :=
  if bool_decide (length (token_indices o) <> length (hidden_states o))
  then inr (RowCountMismatch (length (token_indices o)) (length (hidden_states o)))
  else sum_fold (combine_row w hidden_dim (out_expert o)) (zip (token_indices o) (hidden_states o)) combined.

Definition check_produced (outputs : list ExpertOutput) (r : ExpertRoute) : unit + layout_error :=
  if existsb (fun o => bool_decide (out_expert o = expert_idx r) && bool_decide (token_idx r ∈ token_indices o)) outputs then inl tt
  else inr (NoExpertOutput (token_idx r) (expert_idx r)).

Definition combine_from_experts (outputs : list ExpertOutput) (w : ExpertRoutingWeights) : list (list num) + layout_error :=
  if bool_decide (routes w = []) then inl []
  else
    let max_token_idx := max_list (token_idx <$> routes w) in
    let hidden_dim := match concat (hidden_states <$> outputs) with [] => 0 | h :: _ => length h end in
    let combined := replicate (max_token_idx + 1) (replicate hidden_dim zero) in
    sum_bind (sum_fold (combine_output w hidden_dim) outputs combined) (fun combined =>
    sum_bind (sum_fold (fun _ => check_produced outputs) (routes w) tt) (fun _ =>
    inl combined)).
End routing.

(** ** Pipeline stages *)
Record PipelineGroup := mkPipeline { pl_rank : nat; pl_world_size : nat; stage_count : nat; current_stage : nat }.

Definition PipelineGroup_new (rank world_size stage_count current_stage : nat) : PipelineGroup + layout_error :=
  if bool_decide (world_size = 0) then inr WorldSizeZero
  else if bool_decide (stage_count = 0) then inr StageCountZero
  else if bool_decide (world_size <= rank) then inr (RankOutOfWorld rank world_size)
  else if bool_decide (stage_count <= current_stage) then inr (StageOutOfRange current_stage stage_count)
  else if bool_decide (world_size < stage_count) then inr (TooManyStages stage_count world_size)
  else if negb (is_multiple_of world_size stage_count) then inr (NotDivisible world_size stage_count)
  else inl (mkPipeline rank world_size stage_count current_stage).

Definition is_first_stage (g : PipelineGroup) : bool := bool_decide (current_stage g = 0).
Definition is_last_stage (g : PipelineGroup) : bool := bool_decide (current_stage g + 1 = stage_count g).
Definition previous_stage (g : PipelineGroup) : option nat := 
  if bool_decide (current_stage g = 0) then None else Some (current_stage g - 1).
Definition next_stage (g : PipelineGroup) : option nat := if is_last_stage g then None else Some (current_stage g + 1).

(** The boundary tensors, with the ranks they go between. *)
Record IntermediateTensors (T : Type) := mkTensors { source_pp_rank : nat; target_pp_rank : nat; payload : T }.
Arguments mkTensors {T}.
Arguments source_pp_rank {T}.
Arguments target_pp_rank {T}.
Arguments payload {T}.

Definition inter_stage_send {T} (g : PipelineGroup) (t : IntermediateTensors T) : IntermediateTensors T + layout_error :=
  match next_stage g with
  | None => inr (NoNextStage (current_stage g))
  | Some next =>
      if bool_decide (source_pp_rank t <> current_stage g \/ target_pp_rank t <> next)
      then inr (WrongBoundary (source_pp_rank t) (target_pp_rank t)) else inl t
  end.

Definition inter_stage_recv {T} (g : PipelineGroup) (t : IntermediateTensors T) : IntermediateTensors T + layout_error :=
  match previous_stage g with
  | None => inr (NoPreviousStage (current_stage g))
  | Some previous =>
      if bool_decide (source_pp_rank t <> previous \/ target_pp_rank t <> current_stage g)
      then inr (WrongBoundary (source_pp_rank t) (target_pp_rank t)) else inl t
  end.

(** ** Placement, dispatch and combination of experts

    With examples of layouts and experts. *)


(** ** Placement *)
Section placement.
Context (r w n : nat) (g : ExpertGroup).
Hypothesis Hg : ExpertGroup_new r w n = inl g.

Lemma expert_group_inv : r < w /\ 0 < n /\ n = w * experts_per_rank g /\ 0 < experts_per_rank g /\ eg_rank g = r /\ num_experts g = n /\
  forall e, expert_to_rank g !! e = if decide (e < n) then Some (e / experts_per_rank g) else None.
Proof using Hg.
  revert Hg. unfold ExpertGroup_new. repeat case_bool_decide; try done. destruct (is_multiple_of n w) eqn:E; [|done]. cbn.
  apply multiple_of in E; [|done]. intros [= <-]. cbn. assert (0 < n / w) by nia. split_and!; try lia; try done.
  intros e. case_decide.
  - by rewrite list_lookup_fmap, lookup_seq_lt.
  - rewrite list_lookup_fmap, lookup_seq_ge by lia. done.
Qed.

Lemma owns_range e : owns_expert g e = true <-> e ∈ local_expert_range g.
Proof using Hg.
  destruct expert_group_inv as (Hr & _ & Hn & Hp & Er & _ & He). unfold owns_expert, rank_for_expert, local_expert_range, local_expert_start.
  rewrite bool_decide_eq_true, He, elem_of_seq, Er. set (p := experts_per_rank g) in *. clearbody p.
  pose proof (Nat.div_mod_eq e p). pose proof (Nat.mod_upper_bound e p ltac:(lia)). case_decide.
  - split; [intros [= <-]; lia|]. intros Hin. f_equal. symmetry. apply (Nat.div_unique e p r (e - r * p)); lia.
  - split; [done|]. nia.
Qed.
End placement.

Lemma sum_map_inl {A B} (f : A -> B + layout_error) (h : A -> B) l : (forall x, x ∈ l -> f x = inl (h x)) -> sum_map f l = inl (h <$> l).
Proof. induction l as [|x l IH]; intros H; [done|]. cbn. rewrite H by set_solver. cbn. rewrite IH by set_solver. done. Qed.

Definition expert_group_of (w n r : nat) : ExpertGroup := mkExpertGroup r w n (n / w) ((fun e => e / (n / w)) <$> seq 0 n).

Lemma expert_group_run r w n : 0 < w -> 0 < n -> n mod w = 0 -> r < w -> ExpertGroup_new r w n = inl (expert_group_of w n r).
Proof.
  intros Hw Hn Hm Hr. unfold ExpertGroup_new. rewrite !bool_decide_eq_false_2 by lia.
  unfold is_multiple_of. by rewrite bool_decide_eq_false_2, bool_decide_eq_true_2 by (done || lia).
Qed.

(** The ranges of the ranks, one after the other. *)
Lemma ranges_concat w p : concat ((fun r => seq (r * p) p) <$> seq 0 w) = seq 0 (w * p).
Proof.
  induction w as [|w IH]; [done|]. rewrite seq_S, fmap_app, concat_app, IH. cbn [fmap list_fmap concat]. rewrite app_nil_r.
  replace (S w * p) with (w * p + p) by lia. by rewrite seq_app.
Qed.

(** Experts are placed without gaps: a group is made for every rank of a
    world that divides a positive number of experts and for nothing else; the
    ranges of the ranks in order are all experts, a rank owns exactly its
    range, and on it local and global numbers are inverse to each other. *)
Theorem experts_partitioned w n :
  if decide (0 < w /\ 0 < n /\ n mod w = 0)
  then exists gs, sum_map (fun r => ExpertGroup_new r w n) (seq 0 w) = inl gs /\ length gs = w /\
    concat (local_expert_range <$> gs) = seq 0 n /\
    Forall (fun g => forall e l, (owns_expert g e = true <-> e ∈ local_expert_range g) /\
      (local_expert_idx g e = Some l <-> global_expert_idx g l = Some e)) gs
  else forall r, exists err, ExpertGroup_new r w n = inr err.
Proof.
  case_decide as H.
  - destruct H as (Hw & Hn & Hm). exists (expert_group_of w n <$> seq 0 w).
    assert (n = w * (n / w)) as Hd by (apply Nat.Div0.div_exact; done).
    split_and!; [|by rewrite length_fmap, length_seq| |].
    + apply sum_map_inl. intros r Hr%elem_of_seq. apply expert_group_run; lia || done.
    + rewrite <-list_fmap_compose. rewrite Hd at 2. by rewrite <-ranges_concat.
    + apply Forall_forall. intros g (r & -> & Hr%elem_of_seq)%list_elem_of_fmap e l.
      assert (ExpertGroup_new r w n = inl (expert_group_of w n r)) as Hg by (apply expert_group_run; lia || done).
      pose proof (owns_range r w n _ Hg e) as Hown. split; [done|]. unfold local_expert_idx, global_expert_idx.
      unfold local_expert_range in Hown. rewrite elem_of_seq in Hown. destruct (owns_expert _ e).
      * destruct (proj1 Hown eq_refl) as [Hlo Hhi]. split.
        -- intros [= <-]. rewrite bool_decide_eq_false_2 by lia. f_equal. lia.
        -- case_bool_decide; [done|]. intros [= <-]. f_equal. lia.
      * split; [done|]. case_bool_decide; [done|]. intros [= <-]. assert (false = true) by (apply Hown; lia). done.
  - intros r. unfold ExpertGroup_new. repeat case_bool_decide; try by eexists. unfold is_multiple_of.
    rewrite (bool_decide_eq_false_2 (w = 0)), (bool_decide_eq_false_2 (n mod w = 0)) by lia. by eexists.
Qed.

(** ** Masks *)

(** The TileKernels mask compacts the experts of one tensor-parallel rank:
    an expert is in block [d] of its data-parallel group, belongs to the rank
    [t] and has number [k] there; on rank [t] it becomes [d] blocks and [k],
    on every other rank it is masked. *)
Theorem tilekernels_mask_compacts n per T t d t' k :
  let e := (d * T + t') * per + k in
  t' < T -> k < per -> e < n ->
  tilekernels_mask_index n per T t (Z.of_nat e) = inl (if decide (t = t') then Z.of_nat (d * per + k) else (-1)%Z).
Proof.
  intros e Ht Hk He. unfold tilekernels_mask_index. rewrite bool_decide_eq_false_2 by lia. rewrite Nat2Z.id, bool_decide_eq_false_2 by lia.
  assert (e / per = d * T + t') as E1 by (unfold e; rewrite Nat.div_add_l, Nat.div_small by lia; lia).
  assert ((d * T + t') mod T = t') as E2 by (rewrite Nat.add_comm, Nat.Div0.mod_add; by apply Nat.mod_small).
  rewrite E1, E2. case_decide as Hd.
  - subst t'. rewrite bool_decide_eq_false_2 by tauto.
    assert (e - t * per = d * (T * per) + k) as -> by (unfold e; nia).
    assert ((d * (T * per) + k) / (T * per) = d) as -> by (rewrite Nat.div_add_l, Nat.div_small by nia; lia).
    do 2 f_equal. assert (per <= T * per) by nia. nia.
  - by rewrite bool_decide_eq_true_2 by congruence.
Qed.

(** ** Dispatching to experts and combining their outputs

    However the experts are placed on ranks, the outputs combine to the same
    sums, added in the same order. *)

Section moe.
Context `{F32}.
Implicit Types (r : ExpertRoute) (w : ExpertRoutingWeights) (o : ExpertOutput).

Lemma fmap_concat {A B} (f : A -> B) (ls : list (list A)) : @fmap list _ _ _ f (concat ls) = concat (@fmap list _ _ _ (@fmap list _ _ _ f) ls).
Proof. induction ls as [|l ls IH]; [done|]. cbn [fmap list_fmap concat]. by rewrite fmap_app, IH. Qed.

(** ** Loops that may fail *)
Lemma sum_fold_app {A B} (f : B -> A -> B + layout_error) l1 l2 b :
  sum_fold f (l1 ++ l2) b = sum_bind (sum_fold f l1 b) (sum_fold f l2).
Proof. revert b. induction l1 as [|x l1 IH]; intros b; cbn; [done|]. destruct (f b x); cbn; [apply IH|done]. Qed.

Lemma sum_fold_ok {A B} (f : B -> A -> B + layout_error) (h : B -> A -> B) (P : B -> Prop) l :
  (forall b x, P b -> x ∈ l -> f b x = inl (h b x) /\ P (h b x)) -> forall b, P b -> sum_fold f l b = inl (foldl h b l) /\ P (foldl h b l).
Proof.
  induction l as [|x l IH]; intros Hf b Hb; cbn; [done|]. destruct (Hf b x Hb) as [-> Hb']; [set_solver|]. cbn.
  apply IH; [set_solver|done].
Qed.

Lemma sum_fold_check {A} (f : A -> unit + layout_error) l : (forall x, x ∈ l -> f x = inl tt) -> sum_fold (fun _ => f) l tt = inl tt.
Proof. intros Hf. induction l as [|x l IH]; cbn; [done|]. rewrite Hf by set_solver. apply IH. set_solver. Qed.

(** ** The reference *)
Section reference.
Context (w : ExpertRoutingWeights) (hidden : list (list num)) (expert : nat -> list num -> list num).

(** What the expert of a route makes of its token. *)
Definition routed_output r : list num := expert (expert_idx r) (default [] (hidden !! token_idx r)).

(** The routes in the order of their experts. *)
Definition by_expert : list ExpertRoute := concat ((fun e => filter (fun r => expert_idx r = e) (routes w)) <$> seq 0 (routed_experts w)).

Definition apply_route (combined : list (list num)) r : list (list num) :=
  alter (fun dst => add_scaled (weight r) dst (routed_output r)) (token_idx r) combined.

Definition moe_reference (dim : nat) : list (list num) :=
  foldl apply_route (replicate (max_list (token_idx <$> routes w) + 1) (replicate dim zero)) by_expert.

(** ** Dispatch *)
Definition expert_out (rank e : nat) : option ExpertOutput :=
  let rows := routed_rows w hidden e in
  if bool_decide (rows = []) then None else Some (mkOutput rank e rows.*1 rows.*2).

Definition routes_ok : Prop := forall r, r ∈ routes w -> expert_idx r < routed_experts w /\ token_idx r < length hidden.

Lemma dispatch_run g : routes_ok -> 0 < group_world_size g -> 0 < routed_experts w -> routed_experts w mod group_world_size g = 0 ->
  rank_in_group g < group_world_size g ->
  let per := routed_experts w / group_world_size g in
  dispatch_to_experts g w hidden = inl (omap (expert_out (rank g)) (seq (rank_in_group g * per) per)).
Proof.
  intros Hok Hw Hn Hm Hr per. unfold dispatch_to_experts. rewrite expert_group_run by done. cbn [sum_bind].
  rewrite sum_fold_check; [done|]. intros r Hin. destruct (Hok r Hin). unfold check_route. by rewrite !bool_decide_eq_false_2 by lia.
Qed.

(** The experts run: every row of an output becomes the expert's. *)
Definition run_expert o : ExpertOutput := mkOutput (out_rank o) (out_expert o) (token_indices o) (expert (out_expert o) <$> hidden_states o).

(** The rows of an output, with their expert. *)
Definition output_rows o : list (nat * (nat * list num)) := (fun row => (out_expert o, row)) <$> zip (token_indices o) (hidden_states o).

Lemma expert_rows rank e :
  concat (output_rows <$> (run_expert <$> option_list (expert_out rank e))) =
  (fun r => (e, (token_idx r, routed_output r))) <$> filter (fun r => expert_idx r = e) (routes w).
Proof.
  unfold expert_out. case_bool_decide as E; cbn.
  - unfold routed_rows in E. apply fmap_nil_inv in E. by rewrite E.
  - rewrite app_nil_r. unfold output_rows, run_expert, routed_rows. cbn. clear E.
    assert (forall r, r ∈ filter (fun r => expert_idx r = e) (routes w) -> expert_idx r = e) as He by (intros r [? _]%list_elem_of_filter; done).
    revert He. generalize (filter (fun r => expert_idx r = e) (routes w)) as rs. induction rs as [|r rs IH]; intros He; [done|]. cbn.
    rewrite IH by set_solver. unfold routed_output. by rewrite (He r) by set_solver.
Qed.

Lemma output_rows_all rank es :
  concat (output_rows <$> (run_expert <$> omap (expert_out rank) es)) =
  concat ((fun e => (fun r => (e, (token_idx r, routed_output r))) <$> filter (fun r => expert_idx r = e) (routes w)) <$> es).
Proof.
  induction es as [|e es IH]; [done|]. cbn [fmap list_fmap concat]. rewrite <-IH, <-(expert_rows rank).
  cbn [omap list_omap]. destruct (expert_out rank e); cbn; [by rewrite app_nil_r|done].
Qed.

Lemma by_expert_rows :
  concat ((fun e => (fun r => (e, (token_idx r, routed_output r))) <$> filter (fun r => expert_idx r = e) (routes w)) <$> seq 0 (routed_experts w)) =
  (fun r => (expert_idx r, (token_idx r, routed_output r))) <$> by_expert.
Proof.
  unfold by_expert. rewrite fmap_concat. f_equal. rewrite <-list_fmap_compose. apply list_fmap_ext. intros i e _. cbn.
  apply list_fmap_ext. intros j r Hr%list_elem_of_lookup_2. apply list_elem_of_filter in Hr as [-> _]. done.
Qed.

(** ** Combination *)
Lemma combine_flat dim outs : (forall o, o ∈ outs -> length (token_indices o) = length (hidden_states o)) -> forall combined,
  sum_fold (combine_output w dim) outs combined =
  sum_fold (fun c row => combine_row w dim row.1 c row.2) (concat (output_rows <$> outs)) combined.
Proof.
  induction outs as [|o outs IH]; intros Hl combined; [done|]. cbn [fmap list_fmap concat sum_fold]. rewrite sum_fold_app.
  unfold combine_output at 1. rewrite bool_decide_eq_false_2 by (intros Hne; apply Hne, Hl; set_solver).
  assert (forall rows c, sum_fold (combine_row w dim (out_expert o)) rows c =
    sum_fold (fun c row => combine_row w dim row.1 c row.2) ((fun row => (out_expert o, row)) <$> rows) c) as E.
  { induction rows as [|row rows IHr]; intros c; cbn; [done|]. destruct (combine_row _ _ _ _ _); cbn; [apply IHr|done]. }
  rewrite E. unfold output_rows at 2. destruct (sum_fold _ _ combined); cbn [sum_bind]; [|done]. apply IH. set_solver.
Qed.

Lemma find_route r : r ∈ routes w -> NoDup ((fun r => (token_idx r, expert_idx r)) <$> routes w) ->
  List.find (fun r' => bool_decide (token_idx r' = token_idx r) && bool_decide (expert_idx r' = expert_idx r)) (routes w) = Some r.
Proof using w.
  induction (routes w) as [|r' rs IH]; [by intros ?%elem_of_nil|]. cbn. intros Hin [Hni Hnd]%NoDup_cons.
  destruct (bool_decide (token_idx r' = token_idx r) && bool_decide (expert_idx r' = expert_idx r)) eqn:E.
  - apply andb_true_iff in E as [Et%bool_decide_eq_true Ee%bool_decide_eq_true]. apply elem_of_cons in Hin as [->|Hin]; [done|].
    exfalso. apply Hni, list_elem_of_fmap. exists r. by rewrite Et, Ee.
  - apply elem_of_cons in Hin as [->|Hin]; [by rewrite !bool_decide_eq_true_2 in E|]. by apply IH.
Qed.

Lemma elem_of_by_expert r : r ∈ by_expert <-> r ∈ routes w /\ expert_idx r < routed_experts w.
Proof.
  unfold by_expert. rewrite list_elem_of_In, in_concat. split.
  - intros (l & Hl & Hr). apply list_elem_of_In, list_elem_of_fmap in Hl as (e & -> & He%elem_of_seq).
    apply list_elem_of_In, list_elem_of_filter in Hr as [<- Hr]. split; [done|lia].
  - intros [Hr He]. exists (filter (fun r' => expert_idx r' = expert_idx r) (routes w)). rewrite <-!list_elem_of_In. split.
    + apply list_elem_of_fmap. exists (expert_idx r). split; [done|]. apply elem_of_seq. lia.
    + by apply list_elem_of_filter.
Qed.

Lemma combine_rows dim combined :
  NoDup ((fun r => (token_idx r, expert_idx r)) <$> routes w) -> (forall r, r ∈ routes w -> length (routed_output r) = dim) ->
  sum_fold (fun c row => combine_row w dim row.1 c row.2) ((fun r => (expert_idx r, (token_idx r, routed_output r))) <$> by_expert) combined =
  inl (foldl apply_route combined by_expert).
Proof.
  intros Hnd Hdim. assert (forall r, r ∈ by_expert -> r ∈ routes w) as Hin by (intros r ?%elem_of_by_expert; tauto).
  revert combined Hin. induction by_expert as [|r rs IH]; intros combined Hin; [done|]. cbn.
  rewrite bool_decide_eq_false_2 by (intros Hne; apply Hne, Hdim, Hin; set_solver).
  rewrite find_route by (done || (apply Hin; set_solver)). cbn. apply IH. set_solver.
Qed.

Lemma output_hidden o : length (token_indices o) = length (hidden_states o) -> (fun x => x.2.2) <$> output_rows o = hidden_states o.
Proof.
  intros Hl. unfold output_rows. rewrite <-list_fmap_compose. unfold compose. cbn [snd]. rewrite <-(snd_zip (token_indices o) (hidden_states o)) at 2 by lia.
  by apply list_fmap_ext.
Qed.

(** ** All ranks together *)
Section ranks.
Context (W : nat) (gs : list RankGroup).
Hypotheses (HW : length gs = W) (Hgs : forall i g, gs !! i = Some g -> rank_in_group g = i /\ group_world_size g = W).
Let per := routed_experts w / W.

Definition all_outputs : list (list ExpertOutput) := (fun g => omap (expert_out (rank g)) (seq (rank_in_group g * per) per)) <$> gs.

Lemma dispatch_all : routes_ok -> 0 < W -> 0 < routed_experts w -> routed_experts w mod W = 0 ->
  sum_map (fun g => dispatch_to_experts g w hidden) gs = inl all_outputs.
Proof using HW Hgs.
  intros Hok H0 Hn Hm. apply sum_map_inl. intros g (i & Hi)%list_elem_of_lookup_1.
  destruct (Hgs i g Hi) as [Hr Hg]. apply lookup_lt_Some in Hi.
  rewrite dispatch_run; rewrite ?Hr, ?Hg; unfold per; done || lia.
Qed.

Lemma gs_ranges : concat ((fun g => seq (rank_in_group g * per) per) <$> gs) = seq 0 (W * per).
Proof using HW Hgs.
  rewrite <-ranges_concat. f_equal. apply list_eq. intros i. rewrite !list_lookup_fmap.
  destruct (gs !! i) as [g|] eqn:E.
  - destruct (Hgs i g E) as [Hr _]. apply lookup_lt_Some in E. rewrite lookup_seq_lt by lia. cbn. by rewrite Hr.
  - apply lookup_ge_None in E. by rewrite lookup_seq_ge by lia.
Qed.

Lemma all_rows : routed_experts w = W * per ->
  concat (output_rows <$> (run_expert <$> concat all_outputs)) =
  (fun r => (expert_idx r, (token_idx r, routed_output r))) <$> by_expert.
Proof using HW Hgs.
  intros Hn. rewrite <-by_expert_rows. rewrite Hn, <-gs_ranges. unfold all_outputs. clear Hgs HW.
  induction gs as [|g gs' IH]; [done|]. cbn [fmap list_fmap concat]. rewrite !fmap_app, !concat_app. f_equal; [|exact IH].
  apply output_rows_all.
Qed.

Lemma all_outputs_rows o : o ∈ run_expert <$> concat all_outputs -> length (token_indices o) = length (hidden_states o).
Proof using.
  intros (o' & -> & Ho)%list_elem_of_fmap. apply list_elem_of_In, in_concat in Ho as (os & Hos & Ho).
  apply list_elem_of_In, list_elem_of_fmap in Hos as (g & -> & _). apply list_elem_of_In, list_elem_of_omap in Ho as (e & _ & He).
  unfold expert_out in He. case_bool_decide; [done|]. injection He as <-. cbn. by rewrite !length_fmap.
Qed.

(** Every route is served. *)
Lemma all_produced r : routed_experts w = W * per -> r ∈ routes w -> expert_idx r < routed_experts w ->
  check_produced (run_expert <$> concat all_outputs) r = inl tt.
Proof using HW Hgs.
  intros Hn Hr He. unfold check_produced. assert (existsb (fun o => bool_decide (out_expert o = expert_idx r) &&
    bool_decide (token_idx r ∈ token_indices o)) (run_expert <$> concat all_outputs) = true) as ->; [|done].
  assert ((expert_idx r, (token_idx r, routed_output r)) ∈ concat (output_rows <$> (run_expert <$> concat all_outputs))) as Hin.
  { rewrite all_rows by done. apply list_elem_of_fmap. exists r. split; [done|]. by apply elem_of_by_expert. }
  apply list_elem_of_In, in_concat in Hin as (rows & Hrows & Hin). apply list_elem_of_In, list_elem_of_fmap in Hrows as (o & -> & Ho).
  apply existsb_exists. exists o. rewrite <-list_elem_of_In. split; [done|].
  apply list_elem_of_In, list_elem_of_fmap in Hin as ([t h] & [= -> -> _] & Hz). apply elem_of_zip_l in Hz.
  by rewrite !bool_decide_eq_true_2.
Qed.

Lemma first_hidden dim : routed_experts w = W * per -> routes w <> [] -> routes_ok -> (forall r, r ∈ routes w -> length (routed_output r) = dim) ->
  match concat (hidden_states <$> (run_expert <$> concat all_outputs)) with [] => 0 | h :: _ => length h end = dim.
Proof using HW Hgs.
  intros Hn Hne Hok Hdim.
  assert (concat (hidden_states <$> (run_expert <$> concat all_outputs)) = routed_output <$> by_expert) as ->.
  { transitivity ((fun x : nat * (nat * list num) => x.2.2) <$> concat (output_rows <$> (run_expert <$> concat all_outputs))).
    - rewrite (fmap_concat (fun x : nat * (nat * list num) => x.2.2)), <-(list_fmap_compose _ (fmap _)). f_equal. apply list_fmap_ext. intros i o Ho%list_elem_of_lookup_2.
      symmetry. apply output_hidden, all_outputs_rows, Ho.
    - rewrite all_rows by done. rewrite <-list_fmap_compose. by apply list_fmap_ext. }
  destruct (routes w) as [|r rs] eqn:E; [done|]. assert (r ∈ by_expert) as Hin.
  { apply elem_of_by_expert. rewrite E. split; [set_solver|]. apply Hok. rewrite E. set_solver. }
  assert (forall r, r ∈ by_expert -> length (routed_output r) = dim) as Hall.
  { intros r' Hr'%elem_of_by_expert. apply Hdim. rewrite <-E. tauto. }
  destruct by_expert as [|r' rs']; [by apply elem_of_nil in Hin|]. cbn. apply Hall. set_solver.
Qed.
End ranks.
End reference.
End moe.

(** C20: dispatching a batch to the experts of all ranks, running each expert
    on the rows it got, and combining the outputs gives every token the
    weighted sum of its experts' outputs, added in the order of the experts:
    the same for every number of ranks the experts are placed on. No rounding
    law is assumed. *)
Theorem moe_combine_ignores_placement `{F32} w hidden expert dim W gs :
  routes w <> [] -> routes_ok w hidden -> NoDup ((fun r => (token_idx r, expert_idx r)) <$> routes w) ->
  (forall r, r ∈ routes w -> length (routed_output hidden expert r) = dim) ->
  0 < W -> routed_experts w mod W = 0 -> length gs = W ->
  (forall i g, gs !! i = Some g -> rank_in_group g = i /\ group_world_size g = W) ->
  exists outputs, sum_map (fun g => dispatch_to_experts g w hidden) gs = inl outputs /\
    combine_from_experts (run_expert expert <$> concat outputs) w = inl (moe_reference w hidden expert dim).
Proof.
  intros Hne Hok Hnd Hdim HW Hm Hlen Hgs. exists (all_outputs w hidden W gs).
  assert (0 < routed_experts w) as Hn.
  { destruct (routes w) as [|r rs] eqn:E; [done|]. destruct (Hok r) as [? _]; [rewrite E; set_solver|]. lia. }
  assert (routed_experts w = W * (routed_experts w / W)) as Hd by (apply Nat.Div0.div_exact; done).
  split; [by apply dispatch_all|]. unfold combine_from_experts. rewrite bool_decide_eq_false_2 by done.
  rewrite (first_hidden w hidden expert W gs Hlen Hgs dim Hd Hne Hok Hdim).
  rewrite (combine_flat w expert); [|intros o; apply all_outputs_rows]. rewrite (all_rows w hidden expert W gs Hlen Hgs Hd).
  rewrite (combine_rows w hidden expert dim) by done. cbn [sum_bind]. rewrite sum_fold_check; [done|]. intros r Hr.
  apply (all_produced w hidden expert W gs Hlen Hgs r Hd Hr). by apply Hok.
Qed.

(** ** Layouts and experts, by example *)


(** The layout of the unit tests: four tensor ranks in two stages. *)
Definition example_axes : MultiAxisConfig := mkAxes 4 2 2 2 1 1.

Example example_groups :
  match ParallelState_new example_axes 6 with
  | inl s => ranks (tp_group s) = [4; 5; 6; 7] /\ ranks (pp_group s) = [2; 6] /\ ranks (attn_dp_group s) = [4; 6] /\
      ranks (moe_ep_group s) = [4; 6] /\ ranks (moe_dp_group s) = [6]
  | inr _ => False
  end.
Proof. vm_compute. done. Qed.

(** When the attention context axis is larger than the MoE data axis, the MoE
    data group of a rank is its attention context group. *)
Example moe_data_is_attention_context :
  match ParallelState_new (mkAxes 4 1 2 1 2 1) 0 with
  | inl s => ranks (moe_dp_group s) = [0; 2] /\ moe_dp_rank (coord s) = 0 /\ moe_dp_size (config s) = 1
  | inr _ => False
  end.
Proof. vm_compute. done. Qed.

Lemma shards_tile_witness : 0 < 3 /\ exists l, shards 10 3 = Done l /\ concat (shard_range <$> l) = seq 0 10.
Proof.
  split; [lia|]. pose proof (shards_tile 10 3 ltac:(lia)) as H. cbn [decide] in H. rewrite decide_True in H by lia.
  destruct H as (l & Hrun & _ & Hcat & _). exists l. split; [exact Hrun|exact Hcat].
Defined.

(** Expert 11 of 16 on four ranks of four: block 1 of its data-parallel group,
    tensor rank 0, number 3. *)
Lemma tilekernels_mask_compacts_witness : tilekernels_mask_index 16 4 2 0 (Z.of_nat 11) = inl 7%Z.
Proof. exact (tilekernels_mask_compacts 16 4 2 0 1 0 3 ltac:(lia) ltac:(lia) ltac:(cbn; lia)). Defined.

(** ** Two tokens, four experts, two ranks *)
#[export] Instance integer_f32 : F32 := mkF32 Z 0%Z Z.add Z.mul.

Definition example_routing : ExpertRoutingWeights :=
  mkRouting 4 [mkRoute 0 3 2%Z; mkRoute 0 0 1%Z; mkRoute 1 2 5%Z].
Definition example_hidden : list (list Z) := [[1; 2]; [3; 4]]%Z.
Definition double_expert (e : nat) (h : list Z) : list Z := (fun x => x * Z.of_nat (e + 1))%Z <$> h.
Definition example_ranks : list RankGroup := [mkRankGroup Expert [4; 6] 4 0; mkRankGroup Expert [4; 6] 6 1].

Example example_reference : moe_reference example_routing example_hidden double_expert 2 = [[9; 18]; [45; 60]]%Z.
Proof. vm_compute. done. Qed.

Lemma moe_combine_ignores_placement_witness :
  exists outputs, sum_map (fun g => dispatch_to_experts g example_routing example_hidden) example_ranks = inl outputs /\
    combine_from_experts (run_expert double_expert <$> concat outputs) example_routing = inl [[9; 18]; [45; 60]]%Z.
Proof.
  rewrite <-example_reference. apply (moe_combine_ignores_placement example_routing example_hidden double_expert 2 2 example_ranks).
  - done.
  - intros r Hr. cbn in Hr. rewrite !elem_of_cons, elem_of_nil in Hr. destruct Hr as [->|[->|[->|[]]]]; cbn; lia.
  - cbn. repeat (apply NoDup_cons; split; [rewrite ?elem_of_cons, ?elem_of_nil; intuition discriminate|]). constructor.
  - intros r Hr. cbn in Hr. rewrite !elem_of_cons, elem_of_nil in Hr. destruct Hr as [->|[->|[->|[]]]]; done.
  - lia.
  - done.
  - done.
  - intros [|[|i]] g E; cbn in E; simplify_eq; done.
Defined.

(** A token routed twice to one expert is sent twice, and both copies are
    weighted with the weight of the first route. *)
Example repeated_route_takes_first_weight :
  let w := mkRouting 1 [mkRoute 0 0 1%Z; mkRoute 0 0 2%Z] in
  match dispatch_to_experts (mkRankGroup Expert [0] 0 0) w [[5]]%Z with
  | inl outputs => combine_from_experts outputs w = inl [[10]]%Z
  | inr _ => False
  end.
Proof. vm_compute. done. Qed.
